(* ===== verification/_CoqProject ===== *)
-Q . S2P
Prelude.v
Coding.v
Crc32c.v
Status.v
SstBlock.v
SstBlockProps.v
FsTypes.v
Gigaplus.v
Lru.v
XXHashImpl.v
Filter.v
FilterLemmas.v
FilterPf.v
FilterProps.v
Cuckoo.v
CuckooLemmas.v
CuckooProps.v
PlfsFormat.v
PlfsFormatLemmas.v
PlfsLog.v
PlfsLogLemmas.v
PlfsBuilder.v
PlfsReader.v
PlfsBlocks.v
PlfsReaderLemmas.v
PlfsChunks.v
PlfsBuilderInv.v
PlfsBuilderSpec.v
PlfsBuilderAdd.v
PlfsBuilderRun.v
PlfsProps.v
PlfsBuffer.v
PlfsBufferProps.v
PlfsWriter.v
PlfsWriterInv.v
PlfsWriterProps.v
PlfsWriterDemo.v
PlfsCompact.v
PlfsRound.v
Tables.v
Mdb.v
BlkDb.v
BlkDbProps.v
MdsApi.v
DfsClient.v
DfsClientProps.v
DfsClientDemo.v
MdsCli.v
MdsCliInv.v
MdsCliProps.v
MdsPath.v
MdsHonest.v
MdsRpc.v
MdsSrv.v
MdsSrvInv.v
MdsSrvSpec.v
MdsSrvThms.v
MdsSrvProps.v
LeaseProto.v
RWLock.v
MdsRpcProps.v
MdsCliSrv.v
