(* ===== verification/Prelude.v ===== *)
(** * A verification of the DeltaFS metadata service

    DeltaFS keeps file system metadata on a set of metadata servers.  A
    directory is split over the servers by the hash of its entries' names
    (GIGA+); a client finds the server of a name in a cached directory index and
    is redirected when the index is out of date.  A server keeps the entries of
    its partitions in a key-value store, caches directories and leases in LRU
    tables, and serves fifteen requests; clients cache lookup results as long as
    the lease on them lasts.  A second library, plfsio, writes directories of
    keyed records to log files and indexes them with filters.

    ** Files

    - [Prelude]: machine integers as [Z] with explicit wrap-around, byte strings
      as [list Z], shared tactics, hint databases and lemmas.
    - [Coding] (pdlfs-common: coding.cc, coding.h): fixed and variable-length
      integers, length-prefixed strings; the class [Codec].
    - [Status] (status.h): error codes.
    - [FsTypes] (fstypes.cc, fsdbbase.cc, dcntl.cc): [Stat], [LookupStat],
      [DirInfo], [DirId], store keys, and their encodings.
    - [Gigaplus] (gigaplus.cc): the directory index.  [Rep] is the bitmap with
      its header; [Update], [TurnOnBit], [NewIndexForSplitting], [HashToIndex]
      and so on are the methods of the same names.
    - [Lru] (lru.h): [LRUCache] as two lists of entries with reference counts.
    - [Tables] (dcntl.cc, lease.cc, lookup_cache.cc, index_cache.cc): the four
      tables over it.
    - [Mdb] (mdb.cc, fsdb0.h): the metadata database over a key-value store,
      which is the class [KV]: point reads, atomic batch writes, snapshots and
      ordered scans, any of which may fail.  [MemKV] is an instance.
    - [BlkDb] (blkdb.cc, fio.cc): file data in a key-value store, the class [Store];
      [BlkDbProps] refines an abstract file.
    - [DfsClient] (deltafs_client.cc, deltafs_client.h): the POSIX-like client with
      its descriptor table, over the class [Services]; [DfsClientProps] has the
      invariant and the theorems, [DfsClientDemo] an instance over [BlkDb].
    - [MdsApi] (mds_api.h): requests, replies, the [MDS] interface as a record of
      operations, the wrapper and the call monitors.
    - [MdsRpc] (mds_api.cc): client and server over messages.
    - [MdsSrv] (mds_srv.cc, mds_srv.h, mds.cc): the state of [MDS::SRV] and its
      handlers; [MdsSrvInv], [MdsSrvSpec], [MdsSrvThms] hold the invariant, the
      specification of each handler's work and of all requests, [MdsSrvProps]
      the theorems.  [MdsRpcProps] puts the server behind the RPC layer.
    - [LeaseProto] (mds_srv.cc: Lookup, Uperm): the same two operations again,
      as threads that interleave.
    - [RWLock] (rwlock.h): the reader-writer lock.
    - [XXHashImpl] (xxhash.cc): the two hash functions, as an instance of the
      class [XXHash] the components are written against.
    - [MdsCli] (mds_cli.cc, mds_cli.h): the client: its caches, the redirect
      loop, path resolution and the operations on paths.  [MdsCliInv] has its
      invariant, [MdsCliProps] the theorems against any servers, [MdsPath] a
      file tree and what paths mean in it, [MdsHonest] the refinement of the one
      by the other, [MdsCliSrv] the client on top of the server of [MdsSrv].
    - [Filter] (plfsio/v1/filter.cc, filter.h): the Bloom filter and the bitmaps
      of indexed directories with their seven formats, one Module per class;
      [FilterLemmas] and [FilterPf] have the lemmas on the encodings,
      [FilterProps] the theorems.

    - [Cuckoo] (plfsio/v1/cuckoo.cc, cuckoo.h): cuckoo filters at the level of
      bytes; [CuckooLemmas], [CuckooProps].
    - [Crc32c] (crc32c_sw.cc, crc32c.h): the checksum and its masking.
    - [SstBlock] (block_builder.cc, block.cc, comparator.cc): blocks of sorted
      entries, with [Buffer] for the builders' common base; [SstBlockProps].
    - [PlfsFormat] (plfsio/v1/format.cc, format.h, types.h): handles, epoch
      stones, the footer, directory options; [PlfsFormatLemmas] their round trips.
    - [PlfsLog] (io.cc, io.h, recov.cc): log sinks and sources over files of bytes,
      the log writer, and [ReadBlock] of internal.cc; [PlfsLogLemmas].
    - [PlfsBuilder] (builder.cc, builder.h): [ArrayBlockBuilder] and
      [SeqDirBuilder<T>], over the class [DataBlock] of its template argument.
      [PlfsBlocks] states what the builder relies on as the class [DataBlockLaws]
      and proves it for both kinds of blocks; [PlfsChunks], [PlfsBuilderInv],
      [PlfsBuilderSpec], [PlfsBuilderAdd] and [PlfsBuilderRun] show that every
      operation refines the specification [Spec]: the list of epochs, each with
      its entries in order.
    - [PlfsReader] (internal.cc: Dir; builder.cc: ArrayBlock): opening, reading,
      scanning and counting; [PlfsReaderLemmas] reads well-formed logs.
    - [PlfsProps]: builder and reader together.
    - [PlfsBuffer] (internal.cc: WriteBuffer, FilteredDirCompactor, CompactMemtable):
      write buffers and how they are written as tables, over the class [StdSort];
      [PlfsBufferProps].
    - [PlfsWriter] (v1.cc: DirWriter; internal.cc: DirIndexer; hash.cc): the
      concurrent writer, a step for each stretch of code between two points where
      the mutex is free; [PlfsWriterInv] and [PlfsWriterProps] have its invariant
      and the theorems, [PlfsWriterDemo] runs of it and a sort.
    - [PlfsCompact]: a compaction as a run of the builder; [PlfsRound]: writer,
      compaction, builder and reader together.

    ** How code becomes definitions

    A method is a function from the state to the result and the new state.  A
    [Status] is its code; an out-parameter is part of the result; a thrown
    [Redirect] is a constructor of the result type.  A failed [assert] is
    recorded, not assumed.  Pointers to shared objects (directories, leases) are
    addresses into a heap, so aliasing and use after deletion are visible.  The
    clock and the errors of the store are inputs.  Loops that are not structural
    have fuel, and a lemma that the fuel is enough: ten rounds for a 64-bit
    varint, 17 for a radix, the length of the list for an eviction loop, the
    number of redirections allowed for the client, the length of the path for
    its resolution, five rounds for a 32-bit delta of a filter.

    ** What is shown

    - Refinement: each handler of the server changes the map from (directory,
      name hash) to records exactly as its contract says, on every branch and
      whatever the store returns ([fcreat_refines], [mkdir_refines],
      [unlink_refines], [setattr_refines], [reads_correct]).
    - Invariants over all sequences of requests: atomicity of failures, cached
      sizes and partition indices that agree with the store, sizes of
      directories, uniqueness of inode numbers, session ids.
    - Concurrency: lease safety over all interleavings, a bound on each sleep of a
      writer (for the clients' leases, and for room in a full table), and what
      breaks when active leases are evicted or leases are shorter than 10
      microseconds.  Times are unsigned 64-bit numbers below 2^63 and lease
      durations between 10 and 2^63, so that the code's unsigned arithmetic does
      not wrap ([lease_short_unsafe] is a run where it does).  Mutual exclusion and
      absence of lost wakeups of the reader-writer lock.
    - Equivalence: an [MDS] behind RPC, or behind a monitor, is the [MDS]; when
      requests fit their buffer; and the server of [MdsSrv] behind RPC answers
      arbitrary bytes ([rpc_server_robust]), as long as name hashes have the 8
      bytes that [Key::SetHash] asserts and nothing checks.
    - Data structures: accounting, deletions and lookup of the LRU cache, splitting
      and merging of directory indices, directory listings.
    - Client: with any servers, misbehaving ones included, every operation ends
      and gives back the handles it takes; the assertions of gigaplus.cc are
      outcomes of the client and need a malformed or oversized index from a server
      to fail; cached states are used only under their lease; path resolution agrees with the walk of the file tree; a
      file created can be read, client and server put together.
    - File data ([blkdb_refines], [blkdb_reopen]): a handle of [BlkDB] behaves as a
      file, refuses updates once one has failed, and its data survives closing.
    - Descriptors ([descriptors_safe], [open_modes_enforced]): open descriptors,
      file objects and the handles at the services correspond, so no handle leaks
      or is used after it is closed; the known faults of the code are listed by [Known].
      The loop of [Close] has fuel, and running out of it is the outcome [Forever].
    - Filters: no key is lost, and the bitmaps answer exactly the keys added.
      A cuckoo filter finds what was added and reads any bytes safely.
    - Blocks and checksums: the entries of a block come back in order, and a seek
      finds the first at or after its key; the tables compute CRC-32C.
    - Indexed directories ([plfsdir_round]): what any valid run of the builder
      writes, the reader returns.  [Config] bounds the options: data blocks are
      stored raw (index blocks may be compressed), one data log for all epochs,
      block sizes below 2^30; an epoch writes at most 2^31 bytes and a log stays
      below 2^62, so the 32 and 64 bit counters do not wrap.  Write and read
      failures are inputs; other partitions may append to the data log.
    - Concurrent writers ([writer_epochs], [writer_no_deadlock]): in every
      interleaving of any threads no assertion fails, nothing added is lost or
      moved to another epoch, and no thread waits for something nobody will do.
      Compactions run in a pool; a run has fewer than 2^32 steps, entries are
      smaller than 2^29 bytes and buffers are switched between 1 and 2^30 bytes, so
      that no counter wraps.  [Prepare] loops at most twice before it stops, and its
      fuel is three rounds; running out of it would be a fault.
    - Writer to reader ([writer_reads_back]): the compactions of a finished
      directory leave logs that read back as what the threads added; [fits] is the
      computable bound on their sizes, [StdSort] says nothing of equal keys, so the
      values of a key come back in some order.
    - Encodings: the [Codec] instances carry the round trips.

    ** Not modelled

    The key-value store itself (a parameter with its documented behaviour), the
    streaming interface of XXHash, the RPC transport, the operating system
    layer, logging, start-up and configuration; the C interface
    (deltafs_api.cc) and the start-up of the client; of plfsio, how
    directories are opened, the reader handle over partitions, range writers and
    particle databases; Snappy (the class [Snappy]) and [std::sort] (the class
    [StdSort]).  The handlers of [MdsSrv] run one at a time; only the operations
    that share leases are interleaved. *)

From stdpp Require Export base numbers list gmap.
From Stdlib Require Export ZArith Lia.

#[global] Open Scope Z_scope.

(** ** Machine integers

    A [w]-bit unsigned integer is a [Z] in [[0, 2^w)]; the conversions below
    are the C++ integral conversions to the unsigned types. *)

Declare Scope machine_scope.
Delimit Scope machine_scope with machine.

Definition u8 (z : Z) : Z := z mod 2 ^ 8.
Definition u16 (z : Z) : Z := z mod 2 ^ 16.
Definition u32 (z : Z) : Z := z mod 2 ^ 32.
Definition u64 (z : Z) : Z := z mod 2 ^ 64.

(** Two's complement conversion to [int]. *)
Definition s32 (z : Z) : Z := (z + 2 ^ 31) mod 2 ^ 32 - 2 ^ 31.

Definition in_width (w : Z) (z : Z) : Prop := 0 <= z < 2 ^ w.
Abbreviation is_u8 := (in_width 8).
Abbreviation is_u16 := (in_width 16).
Abbreviation is_u32 := (in_width 32).
Abbreviation is_u64 := (in_width 64).

Notation "x +u64 y" := (u64 (x + y)) (at level 50, left associativity) : machine_scope.
Notation "x -u64 y" := (u64 (x - y)) (at level 50, left associativity) : machine_scope.
#[global] Open Scope machine_scope.

#[export] Instance in_width_dec w z : Decision (in_width w z).
Proof. unfold in_width. apply _. Defined.

(** ** Byte strings ([std::string], [Slice]) *)

Abbreviation bytes := (list Z).
Definition byte_ok (b : Z) : Prop := is_u8 b.
Definition bytes_ok (bs : bytes) : Prop := Forall byte_ok bs.

Definition zlen {A} (l : list A) : Z := Z.of_nat (length l).

(** ** Tactics *)

(** Case analysis on boolean comparisons in the goal or the context. *)
Ltac cmp_cases :=
  repeat match goal with
  | |- context [Z.ltb ?a ?b] => destruct (Z.ltb_spec a b)
  | |- context [Z.leb ?a ?b] => destruct (Z.leb_spec a b)
  | |- context [Z.eqb ?a ?b] => destruct (Z.eqb_spec a b)
  | H : context [Z.ltb ?a ?b] |- _ => destruct (Z.ltb_spec a b)
  | H : context [Z.leb ?a ?b] |- _ => destruct (Z.leb_spec a b)
  | H : context [Z.eqb ?a ?b] |- _ => destruct (Z.eqb_spec a b)
  end.

(** Break one [match] of a hypothesis. *)
Ltac break_match_in H :=
  match type of H with
  | context [match ?x with _ => _ end] => destruct x eqn:?
  end.

(** ** Integer lemmas *)

Lemma in_width_0 w : 0 <= w -> in_width w 0.
Proof. intros. unfold in_width. pose proof (Z.pow_pos_nonneg 2 w). lia. Qed.

Lemma wrap_small w z : in_width w z -> z mod 2 ^ w = z.
Proof. intros. by apply Z.mod_small. Qed.

Lemma wrap_range w z : 0 <= w -> in_width w (z mod 2 ^ w).
Proof. intros. apply Z.mod_pos_bound. by apply Z.pow_pos_nonneg. Qed.

Lemma u8_small z : is_u8 z -> u8 z = z.
Proof. apply wrap_small. Qed.
Lemma u16_small z : is_u16 z -> u16 z = z.
Proof. apply wrap_small. Qed.
Lemma u32_small z : is_u32 z -> u32 z = z.
Proof. apply wrap_small. Qed.
Lemma u64_small z : is_u64 z -> u64 z = z.
Proof. apply wrap_small. Qed.
Lemma u8_range z : is_u8 (u8 z).
Proof. by apply wrap_range. Qed.
Lemma u16_range z : is_u16 (u16 z).
Proof. by apply wrap_range. Qed.
Lemma u32_range z : is_u32 (u32 z).
Proof. by apply wrap_range. Qed.
Lemma u64_range z : is_u64 (u64 z).
Proof. by apply wrap_range. Qed.

Lemma s32_small z : -2 ^ 31 <= z < 2 ^ 31 -> s32 z = z.
Proof. intros. unfold s32. rewrite Z.mod_small by lia. lia. Qed.

Lemma s32_range z : -2 ^ 31 <= s32 z < 2 ^ 31.
Proof. unfold s32. pose proof (Z.mod_pos_bound (z + 2 ^ 31) (2 ^ 32)). lia. Qed.
Lemma s32_add_l a b : s32 (s32 a + b) = s32 (a + b).
Proof.
  unfold s32. f_equal. replace (_ - 2 ^ 31 + b + 2 ^ 31) with ((a + 2 ^ 31) mod 2 ^ 32 + b) by lia.
  rewrite Zplus_mod_idemp_l. f_equal. lia.
Qed.
Lemma s32_add_r a b : s32 (a + s32 b) = s32 (a + b).
Proof. rewrite Z.add_comm, s32_add_l. f_equal. lia. Qed.

Lemma in_width_mono w w' z : w <= w' -> in_width w z -> in_width w' z.
Proof.
  unfold in_width. intros Hw [? ?]. split; [done|].
  apply Z.lt_le_trans with (2 ^ w); [done|]. apply Z.pow_le_mono_r; lia.
Qed.

(** A number below [2^w] has no bit at or above [w]. *)
Lemma in_width_bits w z i : in_width w z -> w <= i -> Z.testbit z i = false.
Proof.
  intros [? ?] ?. destruct (Z.eq_dec z 0) as [->|]; [apply Z.bits_0|].
  apply Z.bits_above_log2; [done|]. apply Z.lt_le_trans with w; [|done].
  apply Z.log2_lt_pow2; lia.
Qed.

Lemma bits_in_width w z :
  0 <= w -> 0 <= z -> (forall i, w <= i -> Z.testbit z i = false) -> in_width w z.
Proof.
  intros Hw Hz Hb. split; [done|].
  destruct (Z.lt_ge_cases z (2 ^ w)) as [|Hge]; [done|exfalso].
  assert (0 < z) by (pose proof (Z.pow_pos_nonneg 2 w); lia).
  assert (w <= Z.log2 z) by (apply Z.log2_le_pow2; lia).
  pose proof (Hb (Z.log2 z) ltac:(done)) as Hf.
  by rewrite Z.bit_log2 in Hf.
Qed.

Lemma lor_in_width w a b :
  0 <= w -> in_width w a -> in_width w b -> in_width w (Z.lor a b).
Proof.
  intros ? Ha Hb. apply bits_in_width; [done| |].
  - apply Z.lor_nonneg. destruct Ha, Hb. done.
  - intros. rewrite Z.lor_spec, (in_width_bits w a), (in_width_bits w b) by done. done.
Qed.

Lemma shiftl_in_width w a k :
  0 <= k -> in_width w a -> in_width (w + k) (Z.shiftl a k).
Proof.
  intros Hk [Ha Hlt]. unfold in_width. rewrite Z.shiftl_mul_pow2 by done.
  assert (0 < 2 ^ k) by (by apply Z.pow_pos_nonneg).
  destruct (Z.lt_ge_cases w 0).
  - rewrite Z.pow_neg_r in Hlt by done. lia.
  - rewrite Z.pow_add_r by done. nia.
Qed.

Lemma shiftr_in_width w a k :
  0 <= k -> k <= w -> in_width w a -> in_width (w - k) (Z.shiftr a k).
Proof.
  intros Hk Hkw [Ha Hlt]. unfold in_width. rewrite Z.shiftr_div_pow2 by done.
  assert (0 < 2 ^ k) by (by apply Z.pow_pos_nonneg).
  split; [by apply Z.div_pos|].
  apply Z.div_lt_upper_bound; [done|].
  rewrite <- Z.pow_add_r by lia. replace (k + (w - k)) with w by lia. done.
Qed.

Lemma land_ones_range a k : 0 <= k -> in_width k (Z.land a (Z.ones k)).
Proof. intros. rewrite Z.land_ones by done. by apply wrap_range. Qed.

Create HintDb machine.
#[export] Hint Resolve u8_range u16_range u32_range u64_range in_width_0 : machine.
#[export] Hint Resolve lor_in_width shiftl_in_width land_ones_range : machine.

(** ** Option monad *)

Notation "'let?' x ':=' e 'in' k" :=
  (match e with Some x => k | None => None end)
  (at level 10, x pattern, e at level 100, k at level 200).

(** ** Lists *)

Lemma bytes_ok_app a b : bytes_ok (a ++ b) <-> bytes_ok a /\ bytes_ok b.
Proof. apply Forall_app. Qed.

Lemma zlen_app {A} (a b : list A) : zlen (a ++ b) = zlen a + zlen b.
Proof. unfold zlen. rewrite length_app. lia. Qed.
Lemma zlen_cons {A} x (l : list A) : zlen (x :: l) = 1 + zlen l.
Proof. unfold zlen. simpl. lia. Qed.
Lemma zlen_nil {A} : zlen (@nil A) = 0.
Proof. done. Qed.
Lemma zlen_nonneg {A} (l : list A) : 0 <= zlen l.
Proof. unfold zlen. lia. Qed.

Create Rewrite HintDb zlen.
#[export] Hint Rewrite @zlen_app @zlen_cons @zlen_nil : zlen.
