(* ===== verification/Coding.v ===== *)
(** * Binary coding (external/pdlfs-common: src/coding.cc, coding.h)

    Fixed-width little-endian integers, base-128 varints and length-prefixed
    byte strings, with their decoders.  A decoder takes the remaining input
    ([Slice* input]) and returns the value and the input left, or [None] where
    the C++ function returns [false] (or a null pointer).

    The class [Codec] is the interface the rest of the development uses: an
    encoder, a decoder, the values the encoder accepts, and the round-trip law;
    the database [codec] rewrites with that law. *)
From S2P Require Import Prelude.

(** ** Fixed-width integers *)

Module Fixed.

(** [n] bytes, least significant first: the byte-by-byte branch of
    [EncodeFixed16/32/64], which the little-endian [memcpy] branch equals. *)
Fixpoint encode (n : nat) (value : Z) : bytes :=
  match n with
  | O => []
  | S n => Z.land value 255 :: encode n (Z.shiftr value 8)
  end.

Fixpoint decode (bs : bytes) : Z :=
  match bs with
  | [] => 0
  | b :: bs => Z.lor b (Z.shiftl (decode bs) 8)
  end.

Lemma length_encode n v : length (encode n v) = n.
Proof. revert v; induction n; intros; simpl; f_equal; auto. Qed.

Lemma encode_ok n v : bytes_ok (encode n v).
Proof.
  revert v; induction n; intros; simpl; constructor; [|apply IHn].
  apply (land_ones_range v 8). lia.
Qed.

Lemma decode_encode n v :
  in_width (8 * Z.of_nat n) v -> decode (encode n v) = v.
Proof.
  revert v; induction n as [|n IH]; intros v Hv; simpl.
  - unfold in_width in Hv. simpl in Hv. lia.
  - rewrite IH.
    + apply Z.bits_inj'. intros i Hi.
      rewrite Z.lor_spec, Z.shiftl_spec, Z.land_spec by lia.
      change 255 with (Z.ones 8).
      destruct (Z.lt_ge_cases i 8).
      * rewrite Z.ones_spec_low, (Z.testbit_neg_r _ (i - 8)), andb_true_r, orb_false_r by lia. done.
      * rewrite Z.ones_spec_high, Z.shiftr_spec, andb_false_r by lia. simpl.
        f_equal. lia.
    + replace (8 * Z.of_nat n) with (8 * Z.of_nat (S n) - 8) by lia.
      apply shiftr_in_width; [lia..|done].
Qed.

End Fixed.

Definition EncodeFixed16 (value : Z) : bytes := Fixed.encode 2 value.
Definition EncodeFixed32 (value : Z) : bytes := Fixed.encode 4 value.
Definition EncodeFixed64 (value : Z) : bytes := Fixed.encode 8 value.
Definition DecodeFixed16 (ptr : bytes) : Z := Fixed.decode (take 2 ptr).
Definition DecodeFixed32 (ptr : bytes) : Z := Fixed.decode (take 4 ptr).
Definition DecodeFixed64 (ptr : bytes) : Z := Fixed.decode (take 8 ptr).

Lemma DecodeFixed16_encode v rest :
  is_u16 v -> DecodeFixed16 (EncodeFixed16 v ++ rest) = v.
Proof. intros. unfold DecodeFixed16. apply (Fixed.decode_encode 2 v). done. Qed.

Lemma DecodeFixed32_encode v rest :
  is_u32 v -> DecodeFixed32 (EncodeFixed32 v ++ rest) = v.
Proof. intros. unfold DecodeFixed32. apply (Fixed.decode_encode 4 v). done. Qed.

(** ** Varints *)

Definition B : Z := 128.

(** [EncodeVarint32]: the five unrolled cases. *)
Definition EncodeVarint32 (v : Z) : bytes :=
  if v <? Z.shiftl 1 7 then [u8 v]
  else if v <? Z.shiftl 1 14 then
    [u8 (Z.lor v B); u8 (Z.shiftr v 7)]
  else if v <? Z.shiftl 1 21 then
    [u8 (Z.lor v B); u8 (Z.lor (Z.shiftr v 7) B); u8 (Z.shiftr v 14)]
  else if v <? Z.shiftl 1 28 then
    [u8 (Z.lor v B); u8 (Z.lor (Z.shiftr v 7) B);
     u8 (Z.lor (Z.shiftr v 14) B); u8 (Z.shiftr v 21)]
  else
    [u8 (Z.lor v B); u8 (Z.lor (Z.shiftr v 7) B);
     u8 (Z.lor (Z.shiftr v 14) B); u8 (Z.lor (Z.shiftr v 21) B);
     u8 (Z.shiftr v 28)].

(** [EncodeVarint64]: the [while (v >= B)] loop.  Ten iterations empty a
    64-bit value, which [EncodeVarint64_fuel] below proves. *)
Fixpoint EncodeVarint64_loop (fuel : nat) (v : Z) : bytes :=
  match fuel with
  | O => []
  | S fuel =>
      if B <=? v
      then Z.lor (Z.land v (B - 1)) B :: EncodeVarint64_loop fuel (Z.shiftr v 7)
      else [u8 v]
  end.
Definition EncodeVarint64 (v : Z) : bytes := EncodeVarint64_loop 10 v.

(** [VarintLength] *)
Fixpoint VarintLength_loop (fuel : nat) (v len : Z) : Z :=
  match fuel with
  | O => len
  | S fuel =>
      if 128 <=? v then VarintLength_loop fuel (Z.shiftr v 7) (len + 1) else len
  end.
Definition VarintLength (v : Z) : Z := VarintLength_loop 10 v 1.

(** The decoding loop of [GetVarint32PtrFallback] and [GetVarint64Ptr]: [n]
    iterations are left, [shift] and [result] are the loop variables, and the
    arithmetic is modulo [2^w]. *)
Fixpoint GetVarint_loop (w : Z) (n : nat) (shift result : Z) (input : bytes)
  : option (Z * bytes) :=
  match n, input with
  | S n, byte :: rest =>
      if Z.testbit byte 7
      then GetVarint_loop w n (shift + 7)
             (Z.lor result (Z.shiftl (Z.land byte 127) shift mod 2 ^ w)) rest
      else Some (Z.lor result (Z.shiftl byte shift mod 2 ^ w), rest)
  | _, _ => None
  end.

(** [for (shift = 0; shift <= 28 && p < limit; shift += 7)]: 5 iterations. *)
Definition GetVarint32PtrFallback (input : bytes) : option (Z * bytes) :=
  GetVarint_loop 32 5 0 0 input.

(** The inlined fast path of coding.h, then the fallback. *)
Definition GetVarint32 (input : bytes) : option (Z * bytes) :=
  match input with
  | result :: rest =>
      if Z.land result 128 =? 0 then Some (result, rest)
      else GetVarint32PtrFallback input
  | [] => GetVarint32PtrFallback input
  end.

(** [for (shift = 0; shift <= 63 && p < limit; shift += 7)]: 10 iterations. *)
Definition GetVarint64 (input : bytes) : option (Z * bytes) :=
  GetVarint_loop 64 10 0 0 input.

(** ** Length-prefixed slices *)

(** [EncodeLengthPrefixedSlice] / [PutLengthPrefixedSlice]: the size is
    converted to [uint32_t] by the call of the varint encoder. *)
Definition PutLengthPrefixedSlice (value : bytes) : bytes :=
  EncodeVarint32 (u32 (zlen value)) ++ value.

Definition GetLengthPrefixedSlice (input : bytes) : option (bytes * bytes) :=
  let? (len, input) := GetVarint32 input in
  if len <=? zlen input
  then Some (take (Z.to_nat len) input, drop (Z.to_nat len) input)
  else None.

#[global] Arguments EncodeVarint32 : simpl never.
#[global] Arguments EncodeVarint64 : simpl never.
#[global] Arguments GetVarint32 : simpl never.
#[global] Arguments GetVarint64 : simpl never.

(** ** The codec interface *)

Class Codec (A : Type) := {
  enc : A -> bytes;
  dec : bytes -> option (A * bytes);
  enc_wf : A -> Prop;
  enc_bytes : forall a, enc_wf a -> bytes_ok (enc a);
  dec_enc : forall a rest, enc_wf a -> dec (enc a ++ rest) = Some (a, rest)
}.

(** A codec's encodings are prefix free. *)
Lemma enc_inj `{Codec A} (a a' : A) rest rest' :
  enc_wf a -> enc_wf a' -> enc a ++ rest = enc a' ++ rest' -> a = a' /\ rest = rest'.
Proof.
  intros Hw Hw' Heq.
  pose proof (dec_enc a rest Hw) as E. rewrite Heq, dec_enc in E by done.
  by simplify_eq.
Qed.

Create Rewrite HintDb codec.

(** ** Varint lemmas *)

Lemma testbit_lor_128 z : 0 <= z -> Z.testbit (Z.lor (Z.land z 127) 128) 7 = true.
Proof. intros. rewrite Z.lor_spec. apply orb_true_r. Qed.

Lemma land_lor_128 z : Z.land (Z.lor (Z.land z 127) 128) 127 = Z.land z 127.
Proof.
  apply Z.bits_inj'. intros i Hi. rewrite Z.land_spec, Z.lor_spec, !Z.land_spec.
  change 127 with (Z.ones 7). change 128 with (2 ^ 7).
  destruct (Z.lt_ge_cases i 7).
  - rewrite Z.ones_spec_low, Z.pow2_bits_false by lia. by destruct (Z.testbit z i).
  - rewrite Z.ones_spec_high by lia. by rewrite !andb_false_r.
Qed.

Lemma testbit7_small z : is_u8 z -> Z.testbit z 7 = (128 <=? z).
Proof.
  intros [? ?]. rewrite Z.testbit_eqb by lia. change (2 ^ 7) with 128.
  assert (z / 128 = 0 \/ z / 128 = 1) as [E|E].
  { assert (0 <= z / 128 < 2); [|lia]. split; [apply Z.div_pos; lia|].
    apply Z.div_lt_upper_bound; lia. }
  - rewrite E. pose proof (Z.div_small_iff z 128 ltac:(lia)). cmp_cases; try done; lia.
  - rewrite E. pose proof (Z.div_small_iff z 128 ltac:(lia)). cmp_cases; try done; lia.
Qed.

(** Splitting a shifted value at its seventh bit. *)
Lemma shiftl_split7 r v shift :
  0 <= shift -> 0 <= v ->
  Z.lor (Z.lor r (Z.shiftl (Z.land v 127) shift)) (Z.shiftl (Z.shiftr v 7) (shift + 7))
  = Z.lor r (Z.shiftl v shift).
Proof.
  intros Hs Hv. rewrite <- Z.lor_assoc. f_equal.
  apply Z.bits_inj'. intros i Hi.
  rewrite Z.lor_spec, !Z.shiftl_spec by lia. change 127 with (Z.ones 7).
  rewrite Z.land_spec.
  destruct (Z.lt_ge_cases i (shift + 7)).
  - rewrite (Z.testbit_neg_r _ (i - (shift + 7))), orb_false_r by lia.
    destruct (Z.lt_ge_cases i shift).
    + rewrite !(Z.testbit_neg_r _ (i - shift)) by lia. done.
    + rewrite Z.ones_spec_low, andb_true_r by lia. done.
  - rewrite Z.ones_spec_high, andb_false_r, Z.shiftr_spec by lia. simpl. f_equal. lia.
Qed.

(** The 64-bit encoding loop produces [S n] bytes' worth of groups: any fuel
    with [v < 2^(7 * fuel)] gives the complete encoding. *)
Lemma GetVarint_encode w fuel : forall v shift r n rest,
  0 <= shift -> in_width (w - shift) v -> v < 2 ^ (7 * Z.of_nat fuel) ->
  (fuel <= n)%nat -> (0 < fuel)%nat ->
  GetVarint_loop w n shift r (EncodeVarint64_loop fuel v ++ rest)
  = Some (Z.lor r (Z.shiftl v shift), rest).
Proof.
  induction fuel as [|fuel IH]; intros v shift r n rest Hs Hv Hf Hn Hpos; [lia|].
  destruct n as [|n]; [lia|].
  assert (Hws : 0 <= w - shift).
  { destruct (Z.lt_ge_cases (w - shift) 0); [|lia].
    unfold in_width in Hv. rewrite Z.pow_neg_r in Hv by done. lia. }
  assert (Hw : forall x, 0 <= x <= v -> Z.shiftl x shift mod 2 ^ w = Z.shiftl x shift).
  { intros x Hx. apply wrap_small. replace w with ((w - shift) + shift) by lia.
    apply shiftl_in_width; [lia|]. unfold in_width in *. lia. }
  cbn [EncodeVarint64_loop]. unfold B. change (128 - 1) with 127.
  destruct (Z.leb_spec 128 v) as [Hge|Hlt]; cbn [app GetVarint_loop].
  - rewrite testbit_lor_128, land_lor_128 by lia.
    assert (0 <= Z.land v 127 <= v).
    { split; [apply Z.land_nonneg; lia|]. change 127 with (Z.ones 7).
      rewrite Z.land_ones by lia. apply Z.mod_le; lia. }
    rewrite Hw, IH; try lia.
    + rewrite shiftl_split7 by lia. done.
    + replace (w - (shift + 7)) with (w - shift - 7) by lia.
      apply shiftr_in_width; [lia| |done].
      apply Z.nlt_ge. intros C. destruct Hv as [_ Hv].
      assert (2 ^ (w - shift) <= 2 ^ 7) by (apply Z.pow_le_mono_r; lia). lia.
    + rewrite Z.shiftr_div_pow2 by lia. apply Z.div_lt_upper_bound; [lia|].
      rewrite <- Z.pow_add_r by lia.
      replace (7 + 7 * Z.of_nat fuel) with (7 * Z.of_nat (S fuel)) by lia. done.
    + assert (~ (fuel = 0)%nat); [|lia]. intros ->. simpl in Hf. lia.
  - assert (0 <= v) by (destruct Hv; lia).
    rewrite u8_small by (unfold in_width; lia).
    rewrite testbit7_small by (unfold in_width; lia).
    destruct (Z.leb_spec 128 v); [lia|]. rewrite Hw by lia. done.
Qed.

Lemma EncodeVarint64_loop_ok fuel v : bytes_ok (EncodeVarint64_loop fuel v).
Proof.
  revert v; induction fuel; intros; simpl; [constructor|].
  case_match.
  - constructor; [|apply IHfuel].
    apply lor_in_width; [lia| |unfold in_width, B; lia].
    apply (in_width_mono 7); [lia|]. apply (land_ones_range v 7). lia.
  - constructor; [apply u8_range|constructor].
Qed.

Lemma length_EncodeVarint64_loop fuel v : (length (EncodeVarint64_loop fuel v) <= fuel)%nat.
Proof.
  revert v; induction fuel; intros; simpl; [lia|]. case_match; simpl; [|lia].
  specialize (IHfuel (Z.shiftr v 7)). lia.
Qed.

Lemma EncodeVarint64_loop_cons fuel v : EncodeVarint64_loop (S fuel) v <> [].
Proof. cbn [EncodeVarint64_loop]. by case_match. Qed.

(** More fuel than the value needs changes nothing. *)
Lemma EncodeVarint64_fuel f f' v :
  0 <= v < 2 ^ (7 * Z.of_nat f) -> (0 < f)%nat -> (f <= f')%nat ->
  EncodeVarint64_loop f' v = EncodeVarint64_loop f v.
Proof.
  revert f' v; induction f as [|f IH]; intros f' v Hv Hpos Hle; [lia|].
  destruct f' as [|f']; [lia|]. simpl. unfold B.
  destruct (Z.leb_spec 128 v); [|done]. f_equal. apply IH; [|..]; try lia.
  - rewrite Z.shiftr_div_pow2 by lia. split; [apply Z.div_pos; lia|].
    apply Z.div_lt_upper_bound; [lia|]. rewrite <- Z.pow_add_r by lia.
    replace (7 + 7 * Z.of_nat f) with (7 * Z.of_nat (S f)) by lia. lia.
  - assert (~ (f = 0)%nat); [|lia]. intros ->. simpl in Hv. lia.
Qed.

(** The varint encoder of [lor v 128], as a byte, is the loop's byte. *)
Lemma u8_lor_128 v : 0 <= v -> u8 (Z.lor v B) = Z.lor (Z.land v (B - 1)) B.
Proof.
  intros. unfold u8, B. change (128 - 1) with (Z.ones 7).
  rewrite <- Z.land_ones by lia.
  apply Z.bits_inj'. intros i Hi. rewrite Z.land_spec, !Z.lor_spec, Z.land_spec.
  change 128 with (2 ^ 7).
  destruct (Z.lt_ge_cases i 8).
  - rewrite (Z.ones_spec_low 8) by lia. destruct (Z.eq_dec i 7) as [->|].
    + rewrite Z.pow2_bits_true by lia. by rewrite !orb_true_r.
    + rewrite Z.ones_spec_low, Z.pow2_bits_false by lia. by destruct (Z.testbit v i).
  - rewrite !Z.ones_spec_high, Z.pow2_bits_false by lia. by rewrite !andb_false_r.
Qed.

Lemma leb_B_shiftr v k : 0 <= k -> (B <=? Z.shiftr v k) = (2 ^ (k + 7) <=? v).
Proof.
  intros. unfold B. rewrite Z.shiftr_div_pow2, Z.pow_add_r by lia.
  assert (0 < 2 ^ k) by (by apply Z.pow_pos_nonneg).
  destruct (Z.leb_spec 128 (v / 2 ^ k)) as [Hle|Hlt];
    destruct (Z.leb_spec (2 ^ k * 2 ^ 7) v) as [Hle'|Hlt']; try done; exfalso.
  - pose proof (Z.mul_div_le v (2 ^ k) ltac:(done)). nia.
  - assert (128 <= v / 2 ^ k); [|lia]. apply Z.div_le_lower_bound; lia.
Qed.

(** The unrolled 32-bit encoder is the 64-bit loop. *)
Lemma EncodeVarint32_64 v : is_u32 v -> EncodeVarint32 v = EncodeVarint64 v.
Proof.
  intros [Hv Hlt]. unfold EncodeVarint64.
  rewrite (EncodeVarint64_fuel 5 10 v) by lia.
  unfold EncodeVarint32. rewrite !Z.shiftl_1_l. cbn [EncodeVarint64_loop].
  rewrite !Z.shiftr_shiftr by lia. cbn [Z.add Pos.add Pos.succ].
  rewrite !leb_B_shiftr by lia.
  assert (Hn : forall k, 0 <= Z.shiftr v k) by (intros; by apply Z.shiftr_nonneg).
  assert (HB : B = 128) by done.
  cmp_cases; try lia; rewrite ?u8_lor_128 by auto; done.
Qed.

Lemma EncodeVarint64_ok v : bytes_ok (EncodeVarint64 v).
Proof. apply EncodeVarint64_loop_ok. Qed.

Lemma GetVarint64_encode v rest :
  is_u64 v -> GetVarint64 (EncodeVarint64 v ++ rest) = Some (v, rest).
Proof.
  intros Hv. unfold GetVarint64, EncodeVarint64.
  rewrite GetVarint_encode; try lia; try done.
  destruct Hv. lia.
Qed.

(** The fast path of [GetVarint32] agrees with the loop. *)
Lemma GetVarint32_fast b rest :
  is_u8 b -> Z.land b 128 = 0 -> GetVarint32PtrFallback (b :: rest) = Some (b, rest).
Proof.
  intros Hb E. unfold GetVarint32PtrFallback. cbn [GetVarint_loop].
  assert (Z.testbit b 7 = false) as ->.
  { apply (f_equal (fun z => Z.testbit z 7)) in E.
    rewrite Z.land_spec, Z.bits_0 in E. change (Z.testbit 128 7) with true in E.
    by rewrite andb_true_r in E. }
  rewrite Z.shiftl_0_r, Z.lor_0_l, wrap_small; [done|].
  eapply in_width_mono; [|done]. lia.
Qed.

Lemma GetVarint32_fallback input :
  bytes_ok input -> GetVarint32 input = GetVarint32PtrFallback input.
Proof.
  destruct input as [|b rest]; [done|]. intros Hb. inv Hb. unfold GetVarint32.
  case_match eqn:E; [|done]. apply Z.eqb_eq in E. by rewrite GetVarint32_fast.
Qed.

Lemma GetVarint32_encode v rest :
  is_u32 v -> GetVarint32 (EncodeVarint32 v ++ rest) = Some (v, rest).
Proof.
  intros Hv. rewrite EncodeVarint32_64 by done.
  assert (Hloop : GetVarint32PtrFallback (EncodeVarint64 v ++ rest) = Some (v, rest)).
  { unfold GetVarint32PtrFallback, EncodeVarint64.
    rewrite (EncodeVarint64_fuel 5 10 v) by (destruct Hv; lia).
    rewrite GetVarint_encode; try lia; try done.
    destruct Hv. lia. }
  rewrite <- Hloop. pose proof (EncodeVarint64_ok v) as Hok.
  destruct (EncodeVarint64 v) as [|b l] eqn:E.
  { by apply EncodeVarint64_loop_cons in E. }
  simpl app. inv Hok. unfold GetVarint32. case_match eqn:E'; [|done].
  apply Z.eqb_eq in E'. by rewrite GetVarint32_fast.
Qed.

Lemma EncodeVarint32_ok v : is_u32 v -> bytes_ok (EncodeVarint32 v).
Proof. intros. rewrite EncodeVarint32_64 by done. apply EncodeVarint64_ok. Qed.

(** ** Length-prefixed slice lemmas *)

Lemma GetLengthPrefixedSlice_put value rest :
  is_u32 (zlen value) ->
  GetLengthPrefixedSlice (PutLengthPrefixedSlice value ++ rest) = Some (value, rest).
Proof.
  intros Hl. unfold GetLengthPrefixedSlice, PutLengthPrefixedSlice.
  rewrite u32_small by exact Hl. rewrite <- app_assoc.
  rewrite GetVarint32_encode by exact Hl.
  rewrite zlen_app. pose proof (zlen_nonneg rest). case_match; [|lia].
  unfold zlen. rewrite Nat2Z.id, take_app_length, drop_app_length. done.
Qed.

(** What a successful parse consumed is a prefix of the input. *)
Lemma GetVarint_loop_range w n : forall shift r input v rest,
  0 <= w -> in_width w r -> GetVarint_loop w n shift r input = Some (v, rest) -> in_width w v.
Proof.
  induction n as [|n IH]; intros shift r input v rest Hw Hr E; [done|].
  assert (Hm : forall x, in_width w (x mod 2 ^ w)) by (intros; apply Z.mod_pos_bound; lia).
  destruct input as [|b input]; [done|]. cbn [GetVarint_loop] in E. case_match.
  - eapply IH; [done| |exact E]. by apply lor_in_width.
  - simplify_eq. by apply lor_in_width.
Qed.
Lemma GetVarint64_range input v rest : GetVarint64 input = Some (v, rest) -> is_u64 v.
Proof. apply GetVarint_loop_range; [lia|]. unfold in_width. lia. Qed.

Lemma GetVarint_loop_suffix w n shift r input v rest :
  GetVarint_loop w n shift r input = Some (v, rest) -> exists pre, input = pre ++ rest /\ pre <> [].
Proof.
  revert shift r input; induction n as [|n IH]; intros shift r input E; [done|].
  destruct input as [|b input]; [done|]. cbn [GetVarint_loop] in E. case_match.
  - apply IH in E as (pre & -> & ?). by exists (b :: pre).
  - simplify_eq. by exists [b].
Qed.

(** ** Sizes *)

Lemma length_EncodeVarint64 v : zlen (EncodeVarint64 v) <= 10.
Proof. pose proof (length_EncodeVarint64_loop 10 v). unfold zlen, EncodeVarint64. lia. Qed.

Lemma length_EncodeVarint32 v : zlen (EncodeVarint32 v) <= 5.
Proof. unfold EncodeVarint32. repeat case_match; unfold zlen; simpl; lia. Qed.

Lemma VarintLength_loop_spec fuel : forall v len,
  0 <= v < 2 ^ (7 * Z.of_nat fuel) -> (0 < fuel)%nat ->
  VarintLength_loop fuel v len = len - 1 + zlen (EncodeVarint64_loop fuel v).
Proof.
  induction fuel as [|fuel IH]; intros v len Hv Hpos; [lia|].
  cbn [VarintLength_loop EncodeVarint64_loop]. change B with 128.
  destruct (Z.leb_spec 128 v).
  - rewrite zlen_cons. rewrite IH; [lia| |].
    + rewrite Z.shiftr_div_pow2 by lia. split; [apply Z.div_pos; lia|].
      apply Z.div_lt_upper_bound; [lia|]. rewrite <- Z.pow_add_r by lia.
      replace (7 + 7 * Z.of_nat fuel) with (7 * Z.of_nat (S fuel)) by lia. lia.
    + assert (~ (fuel = 0)%nat); [|lia]. intros ->. simpl in Hv. lia.
  - unfold zlen. simpl. lia.
Qed.

Lemma VarintLength_spec v : is_u64 v -> VarintLength v = zlen (EncodeVarint64 v).
Proof.
  intros [? ?]. unfold VarintLength, EncodeVarint64.
  rewrite VarintLength_loop_spec by lia. lia.
Qed.

(** ** Codec instances *)

#[export, refine] Instance varint64_codec : Codec Z | 10 :=
  {| enc := EncodeVarint64; dec := GetVarint64; enc_wf := is_u64 |}.
Proof.
  - intros. apply EncodeVarint64_ok.
  - apply GetVarint64_encode.
Defined.

#[export] Hint Rewrite GetVarint64_encode GetVarint32_encode
  GetLengthPrefixedSlice_put DecodeFixed16_encode DecodeFixed32_encode
  using (assumption || (unfold in_width; lia)) : codec.

(** Parse what was put, field by field. *)
Ltac codec_step :=
  repeat rewrite <- app_assoc; autorewrite with codec; cbn beta iota.
