(* ===== verification/Status.v ===== *)
(** * Status codes (external/pdlfs-common: include/pdlfs-common/status.h)

    A [Status] is its code: the message text an error carries is for logs and
    never read back by the program, and it does not cross the RPC boundary. *)
From S2P Require Import Prelude.

Inductive Code :=
  | kOk | kNotFound | kAlreadyExists | kCorruption | kNotSupported
  | kInvalidArgument | kIOError | kBufferFull | kReadOnly | kWriteOnly
  | kDeadLocked | kOptimisticLockFailed | kTryAgain | kDisconnected
  | kAssertionFailed | kAccessDenied | kDirExpected | kFileExpected
  | kDirNotEmpty | kDirNotAllocated | kDirDisabled | kDirMarkedDeleted
  | kInvalidFileDescriptor | kTooManyOpens | kRange.

#[export] Instance Code_eq_dec : EqDecision Code.
Proof. solve_decision. Defined.

Abbreviation Status := Code (only parsing).

Definition ok (s : Status) : bool := bool_decide (s = kOk).
Definition IsNotFound (s : Status) : bool := bool_decide (s = kNotFound).

(** The codes in the order of their numbers. *)
Definition codes : list Code :=
  [kOk; kNotFound; kAlreadyExists; kCorruption; kNotSupported;
   kInvalidArgument; kIOError; kBufferFull; kReadOnly; kWriteOnly;
   kDeadLocked; kOptimisticLockFailed; kTryAgain; kDisconnected;
   kAssertionFailed; kAccessDenied; kDirExpected; kFileExpected;
   kDirNotEmpty; kDirNotAllocated; kDirDisabled; kDirMarkedDeleted;
   kInvalidFileDescriptor; kTooManyOpens; kRange].

Definition err_code (s : Status) : Z :=
  match s with
  | kOk => 0 | kNotFound => 1 | kAlreadyExists => 2 | kCorruption => 3
  | kNotSupported => 4 | kInvalidArgument => 5 | kIOError => 6
  | kBufferFull => 7 | kReadOnly => 8 | kWriteOnly => 9 | kDeadLocked => 10
  | kOptimisticLockFailed => 11 | kTryAgain => 12 | kDisconnected => 13
  | kAssertionFailed => 14 | kAccessDenied => 15 | kDirExpected => 16
  | kFileExpected => 17 | kDirNotEmpty => 18 | kDirNotAllocated => 19
  | kDirDisabled => 20 | kDirMarkedDeleted => 21
  | kInvalidFileDescriptor => 22 | kTooManyOpens => 23 | kRange => 24
  end.

Definition kMaxCode : Z := 24.

(** [Status::FromCode]; [None] is the failed assertion
    [err_code > 0 && err_code <= kMaxCode]. *)
Definition FromCode (err : Z) : option Status :=
  if (0 <? err) && (err <=? kMaxCode) then codes !! Z.to_nat err else None.

Lemma ok_true s : ok s = true <-> s = kOk.
Proof. unfold ok. apply bool_decide_eq_true. Qed.
Lemma ok_false s : ok s = false <-> s <> kOk.
Proof. unfold ok. apply bool_decide_eq_false. Qed.

Lemma err_code_zero s : err_code s = 0 <-> s = kOk.
Proof. destruct s; simpl; split; intros; (done || lia). Qed.

Lemma err_code_range s : 0 <= err_code s <= kMaxCode.
Proof. unfold kMaxCode. destruct s; simpl; lia. Qed.

Lemma FromCode_err_code s : s <> kOk -> FromCode (err_code s) = Some s.
Proof. by destruct s. Qed.
