(* ===== verification/SstBlock.v ===== *)
(** * Blocks of sorted strings (external/pdlfs-common: src/leveldb/block_builder.cc,
      block.cc, comparator.cc, format.cc)

    A block is a sequence of key-value entries, each key stored as the part in
    which it differs from the key before it; every [restart_interval_] entries
    the whole key is stored, and the offsets of these restart points end the
    block.  [BlockBuilder] builds blocks in a buffer that may hold earlier blocks
    before [buffer_start_]; [Iter] walks over a block and finds keys in it by a
    binary search over the restart points.

    Characters are unsigned bytes.  A slice into a block is its offset and size.
    The snappy compressor is a parameter.  [None] is a failed assertion; that an
    iterator is valid when it is moved or read, and that it has a comparator when
    it seeks, is left to its callers. *)
From S2P Require Import Prelude Coding Status Crc32c.

(** ** Comparing strings *)

(** [Slice::compare]. *)
Fixpoint compare (a b : bytes) : comparison :=
  match a, b with
  | [], [] => Eq
  | [], _ :: _ => Lt
  | _ :: _, [] => Gt
  | x :: a, y :: b => match x ?= y with Eq => compare a b | c => c end
  end.

Definition slt (a b : bytes) : bool := match compare a b with Lt => true | _ => false end.
Definition sle (a b : bytes) : bool := match compare a b with Gt => false | _ => true end.
Definition seq (a b : bytes) : bool := bool_decide (a = b).

Module Comparator.

(** The length of the common prefix of two strings. *)
Fixpoint common (a b : bytes) : nat :=
  match a, b with
  | x :: a, y :: b => if x =? y then S (common a b) else O
  | _, _ => O
  end.

Definition FindShortestSeparator (start limit : bytes) : bytes :=
  let diff := common start limit in
  match start !! diff, limit !! diff with
  | Some diff_byte, Some b =>
      if (diff_byte <? 255) && (diff_byte + 1 <? b) then take diff start ++ [diff_byte + 1] else start
  | _, _ => start
  end.

(** A run of 0xff is left alone. *)
Fixpoint FindShortSuccessor (key : bytes) : bytes :=
  match key with
  | [] => []
  | b :: key' =>
      if negb (b =? 255) then [b + 1]
      else b :: FindShortSuccessor key'
  end.

End Comparator.

(** ** Building blocks *)

Inductive CompressionType := kNoCompression | kSnappyCompression.

Definition compression_code (c : CompressionType) : Z :=
  match c with kNoCompression => 0 | kSnappyCompression => 1 end.

(** port::Snappy_Compress and Snappy_Uncompress; [None] when unsupported, or
    when the input is not a compressed string. *)
Class Snappy := {
  Snappy_Compress : bytes -> option bytes;
  Snappy_Uncompress : bytes -> option bytes;
  Snappy_bytes : forall s c, bytes_ok s -> Snappy_Compress s = Some c -> bytes_ok c;
  Snappy_round : forall s c, Snappy_Compress s = Some c -> Snappy_Uncompress c = Some s;
  Snappy_max : forall s c, Snappy_Compress s = Some c -> zlen c <= 32 + zlen s + zlen s / 6 }.

Definition kBlockTrailerSize : Z := 5.

(** [AbstractBlockBuilder]; [cmp_] tells whether there is a comparator. *)
Record Buffer := mkBuffer {
  cmp_ : bool; buffer_ : bytes; buffer_start_ : Z; compression_ : CompressionType; finished_ : bool }.

Module Buffer.
Section Buffer.
Context `{Snappy}.

Definition New (cmp : bool) : Buffer := mkBuffer cmp [] 0 kNoCompression false.

Definition contents (b : Buffer) : bytes := drop (Z.to_nat (buffer_start_ b)) (buffer_ b).

Definition empty (b : Buffer) : bool := zlen (buffer_ b) <=? buffer_start_ b.

Definition set_buffer (s : bytes) (b : Buffer) : Buffer :=
  mkBuffer (cmp_ b) s (buffer_start_ b) (compression_ b) (finished_ b).

Definition append (s : bytes) (b : Buffer) : Buffer := set_buffer (buffer_ b ++ s) b.

(** [TEST_SwitchBuffer(NULL)]. *)
Definition SwitchBuffer (b : Buffer) : Buffer :=
  mkBuffer (cmp_ b) (buffer_ b) (zlen (buffer_ b)) (compression_ b) (finished_ b).

Definition Pad (n : nat) (b : Buffer) : Buffer :=
  let s := buffer_ b ++ replicate n 0 in mkBuffer (cmp_ b) s (zlen s) (compression_ b) (finished_ b).

(** [buffer_store()->clear()]. *)
Definition clear (b : Buffer) : Buffer := set_buffer [] b.

Definition Reset (b : Buffer) : Buffer :=
  mkBuffer (cmp_ b) (take (Z.to_nat (buffer_start_ b)) (buffer_ b)) (buffer_start_ b) (compression_ b) false.

Definition Finish (compression : CompressionType) (force : bool) (b : Buffer) : option (bytes * Buffer) :=
  if finished_ b then None
  else
    let b := mkBuffer (cmp_ b) (buffer_ b) (buffer_start_ b) (compression_ b) true in
    match compression with
    | kNoCompression => Some (contents b, b)
    | kSnappyCompression =>
        let sz := zlen (contents b) in
        let compressed :=
          match Snappy_Compress (contents b) with
          | Some c => if (sz - sz / 8 <=? zlen c) && negb force then [] else c
          | None => []
          end in
        match compressed with
        | [] => Some (contents b, b)
        | _ :: _ =>
            let b := mkBuffer (cmp_ b) (take (Z.to_nat (buffer_start_ b)) (buffer_ b) ++ compressed)
                       (buffer_start_ b) compression (finished_ b) in
            Some (contents b, b)
        end
    end.

Definition trailer (type : CompressionType) (crc32c : bool) (contents : bytes) : bytes :=
  compression_code type ::
  (if crc32c
   then EncodeFixed32 (Crc32c.Mask (Crc32c.Extend (Crc32c.Value contents) [compression_code type]))
   else EncodeFixed32 0).

Definition Finalize (crc32c : bool) (padding_target padding_char : Z) (b : Buffer) : option (bytes * Buffer) :=
  if negb (finished_ b) then None
  else
    let b := append (trailer (compression_ b) crc32c (contents b)) b in
    let b :=
      if negb (padding_target =? 0) && (zlen (buffer_ b) <? buffer_start_ b + padding_target)
      then append (replicate (Z.to_nat (buffer_start_ b + padding_target - zlen (buffer_ b))) padding_char) b
      else b in
    Some (contents b, b).

End Buffer.
End Buffer.

Record BlockBuilder := mkBuilder {
  buf : Buffer; restart_interval_ : Z; restarts_ : list Z; counter_ : Z; last_key_ : bytes }.

Module BlockBuilder.
Section BlockBuilder.
Context `{Snappy}.

Definition New (restart_interval : Z) (cmp : bool) : BlockBuilder :=
  mkBuilder (Buffer.New cmp) (if restart_interval <? 1 then 1 else restart_interval) [0] 0 [].

Definition Reset (b : BlockBuilder) : BlockBuilder :=
  mkBuilder (Buffer.Reset (buf b)) (restart_interval_ b) [0] 0 [].

Definition set_buf (buf : Buffer) (b : BlockBuilder) : BlockBuilder :=
  mkBuilder buf (restart_interval_ b) (restarts_ b) (counter_ b) (last_key_ b).

Definition CurrentSizeEstimate (b : BlockBuilder) : Z :=
  let result := zlen (buffer_ (buf b)) - buffer_start_ (buf b) in
  if negb (finished_ (buf b)) then result + zlen (restarts_ b) * 4 + 4 else result.

Definition Finish (compression : CompressionType) (force : bool) (b : BlockBuilder)
  : option (bytes * BlockBuilder) :=
  if finished_ (buf b) then None
  else
    let s := concat (EncodeFixed32 <$> restarts_ b) ++ EncodeFixed32 (u32 (zlen (restarts_ b))) in
    let? (contents, buf) := Buffer.Finish compression force (Buffer.append s (buf b)) in
    Some (contents, set_buf buf b).

Definition Add (key value : bytes) (b : BlockBuilder) : option BlockBuilder :=
  if finished_ (buf b) || negb (counter_ b <=? restart_interval_ b)
     || negb (negb (cmp_ (buf b)) || Buffer.empty (buf b) || sle (last_key_ b) key)
  then None
  else
    let '(shared, restarts, counter) :=
      if counter_ b <? restart_interval_ b then (Comparator.common (last_key_ b) key, restarts_ b, counter_ b)
      else (O, restarts_ b ++ [u32 (zlen (buffer_ (buf b)) - buffer_start_ (buf b))], 0) in
    let non_shared := (length key - shared)%nat in
    let s := EncodeVarint32 (u32 (Z.of_nat shared)) ++ EncodeVarint32 (u32 (Z.of_nat non_shared))
               ++ EncodeVarint32 (u32 (zlen value)) ++ drop shared key ++ value in
    Some (mkBuilder (Buffer.append s (buf b)) (restart_interval_ b) restarts (counter + 1)
            (take shared (last_key_ b) ++ drop shared key)).

End BlockBuilder.
End BlockBuilder.

(** ** Reading blocks *)

(** [DecodeEntry]: the sizes of the shared and the other part of the key and of
    the value, and the input after them. *)
Definition DecodeEntry (input : bytes) : option (Z * Z * Z * bytes) :=
  match input with
  | b0 :: b1 :: b2 :: rest =>
      let? (shared, non_shared, value_length, p) :=
        (if Z.lor (Z.lor b0 b1) b2 <? 128 then Some (b0, b1, b2, rest)
         else
           let? (shared, p) := GetVarint32 input in
           let? (non_shared, p) := GetVarint32 p in
           let? (value_length, p) := GetVarint32 p in
           Some (shared, non_shared, value_length, p)) in
      if u32 (zlen p) <? u32 (non_shared + value_length) then None
      else Some (shared, non_shared, value_length, p)
  | _ => None
  end.

Record Iter := mkIter {
  data_ : bytes; restarts_off : Z; num_restarts_ : Z;
  current_ : Z; restart_index_ : Z; key_ : bytes; value_ : Z * Z; status_ : Status }.

Module Iter.

Definition New (data : bytes) (restarts num_restarts : Z) : Iter :=
  mkIter data restarts num_restarts restarts num_restarts [] (0, 0) kOk.

Definition set (it : Iter) (current restart_index : Z) (key : bytes) (value : Z * Z) (status : Status) : Iter :=
  mkIter (data_ it) (restarts_off it) (num_restarts_ it) current restart_index key value status.

Definition Valid (it : Iter) : bool := current_ it <? restarts_off it.
Definition key (it : Iter) : bytes := key_ it.
Definition value (it : Iter) : bytes :=
  take (Z.to_nat (value_ it).2) (drop (Z.to_nat (value_ it).1) (data_ it)).

Definition NextEntryOffset (it : Iter) : Z := (value_ it).1 + (value_ it).2.

Definition GetRestartPoint (it : Iter) (index : Z) : Z :=
  DecodeFixed32 (drop (Z.to_nat (restarts_off it + index * 4)) (data_ it)).

Definition SeekToRestartPoint (it : Iter) (index : Z) : Iter :=
  set it (current_ it) index [] (GetRestartPoint it index, 0) (status_ it).

Definition CorruptionError (it : Iter) : Iter :=
  set it (restarts_off it) (num_restarts_ it) [] (0, 0) kCorruption.

(** The bytes from an offset to the restart array. *)
Definition entries_from (it : Iter) (offset : Z) : bytes :=
  take (Z.to_nat (restarts_off it - offset)) (drop (Z.to_nat offset) (data_ it)).

(** The loop that moves [restart_index_] on; [num_restarts_] rounds are enough. *)
Fixpoint next_restart (fuel : nat) (it : Iter) (current index : Z) : Z :=
  match fuel with
  | O => index
  | S fuel =>
      if (index + 1 <? num_restarts_ it) && (GetRestartPoint it (index + 1) <? current)
      then next_restart fuel it current (index + 1) else index
  end.

Definition ParseNextKey (it : Iter) : bool * Iter :=
  let current := NextEntryOffset it in
  if restarts_off it <=? current
  then (false, set it (restarts_off it) (num_restarts_ it) (key_ it) (value_ it) (status_ it))
  else
    match DecodeEntry (entries_from it current) with
    | None => (false, CorruptionError it)
    | Some (shared, non_shared, value_length, p) =>
        if zlen (key_ it) <? shared then (false, CorruptionError it)
        else
          let p_off := restarts_off it - zlen p in
          (true,
           set it current (next_restart (Z.to_nat (num_restarts_ it)) it current (restart_index_ it))
             (take (Z.to_nat shared) (key_ it) ++ take (Z.to_nat non_shared) p)
             (p_off + non_shared, value_length) (status_ it))
    end.

Definition Next (it : Iter) : Iter := (ParseNextKey it).2.

Definition SeekToFirst (it : Iter) : Iter := (ParseNextKey (SeekToRestartPoint it 0)).2.

(** The binary search for the last restart point with a smaller key; [None] when
    an entry cannot be decoded.  A round halves the range, so [num_restarts_]
    rounds are enough. *)
Fixpoint search (fuel : nat) (it : Iter) (target : bytes) (left right : Z) : option Z :=
  match fuel with
  | O => Some left
  | S fuel =>
      if left <? right then
        let mid := (left + right + 1) / 2 in
        match DecodeEntry (entries_from it (GetRestartPoint it mid)) with
        | Some (0, non_shared, _, p) =>
            if slt (take (Z.to_nat non_shared) p) target then search fuel it target mid right
            else search fuel it target left (mid - 1)
        | _ => None
        end
      else Some left
  end.

(** The linear search for a key that is not smaller; an entry has at least three
    bytes, so the size of the block bounds the rounds. *)
Fixpoint seek_loop (fuel : nat) (it : Iter) (target : bytes) : Iter :=
  match fuel with
  | O => it
  | S fuel =>
      let (parsed, it) := ParseNextKey it in
      if negb parsed then it else if sle target (key_ it) then it else seek_loop fuel it target
  end.

Definition Seek (it : Iter) (target : bytes) : Iter :=
  match search (Z.to_nat (num_restarts_ it)) it target 0 (num_restarts_ it - 1) with
  | None => CorruptionError it
  | Some index => seek_loop (S (length (data_ it))) (SeekToRestartPoint it index) target
  end.

(** [Prev]: back to the last restart point before the entry, then forward. *)
Fixpoint prev_restart (fuel : nat) (it : Iter) (original index : Z) : option Z :=
  match fuel with
  | O => None
  | S fuel =>
      if original <=? GetRestartPoint it index then
        if index =? 0 then None else prev_restart fuel it original (index - 1)
      else Some index
  end.

Fixpoint forward (fuel : nat) (it : Iter) (original : Z) : Iter :=
  match fuel with
  | O => it
  | S fuel =>
      let (parsed, it) := ParseNextKey it in
      if parsed && (NextEntryOffset it <? original) then forward fuel it original else it
  end.

Definition Prev (it : Iter) : Iter :=
  match prev_restart (S (Z.to_nat (restart_index_ it))) it (current_ it) (restart_index_ it) with
  | None => set it (restarts_off it) (num_restarts_ it) (key_ it) (value_ it) (status_ it)
  | Some index => forward (S (length (data_ it))) (SeekToRestartPoint it index) (current_ it)
  end.

Definition SeekToLast (it : Iter) : Iter :=
  forward (S (length (data_ it))) (SeekToRestartPoint it (num_restarts_ it - 1)) (restarts_off it).

End Iter.

(** [Block] and [Block::NewIterator]: an iterator, or the status of an empty or an
    error iterator. *)
Module Block.

Definition NumRestarts (data : bytes) : Z := DecodeFixed32 (drop (length data - 4) data).

(** [Block::Block]: [size_] is 0 if the contents are too small. *)
Definition size_ (data : bytes) : Z :=
  let size := zlen data in
  if size <? 4 then 0 else if (size - 4) / 4 <? NumRestarts data then 0 else size.

Definition restart_offset_ (data : bytes) : Z := u32 (zlen data - (1 + NumRestarts data) * 4).

Definition NewIterator (data : bytes) : Status + Iter :=
  if size_ data <? 4 then inl kCorruption
  else if NumRestarts data =? 0 then inl kOk
  else inr (Iter.New data (restart_offset_ data) (NumRestarts data)).

End Block.
