(* ===== verification/SstBlockProps.v ===== *)
(** * Blocks of sorted strings: what is added is what is found

    [Enc] relates the bytes of a block to its entries; [BlockOk] adds the restart
    points.  [At] says that an iterator stands before the rest of the entries:
    the clients of a block reason with [At] alone ([SeekToFirst_At], [Next_At],
    [Seek_At]). *)
From stdpp Require Import sorting.
From S2P Require Import Prelude Coding Status Crc32c SstBlock.

Abbreviation entry := (bytes * bytes)%type.

(** ** The order of strings *)

Lemma compare_refl a : compare a a = Eq.
Proof. induction a as [|x a IH]; cbn; [done|]. by rewrite Z.compare_refl. Qed.

Lemma compare_eq a b : compare a b = Eq -> a = b.
Proof.
  revert b. induction a as [|x a IH]; intros [|y b]; cbn; try done.
  destruct (Z.compare_spec x y) as [->| |]; [|done..]. intros ?. f_equal. by apply IH.
Qed.

Lemma compare_opp a b : compare b a = CompOpp (compare a b).
Proof.
  revert b. induction a as [|x a IH]; intros [|y b]; cbn; try done.
  rewrite (Z.compare_antisym x y). destruct (x ?= y); cbn; [apply IH|done..].
Qed.

Lemma slt_sle a b : slt a b = negb (sle b a).
Proof. unfold slt, sle. rewrite (compare_opp a b). by destruct (compare a b). Qed.

Lemma sle_slt a b : sle a b = negb (slt b a).
Proof. by rewrite slt_sle, negb_involutive. Qed.

Lemma sle_refl a : sle a a = true.
Proof. unfold sle. by rewrite compare_refl. Qed.

Lemma slt_irrefl a : slt a a = false.
Proof. unfold slt. by rewrite compare_refl. Qed.

Lemma slt_weaken a b : slt a b = true -> sle a b = true.
Proof. unfold slt, sle. by destruct (compare a b). Qed.

Lemma sle_cases a b : sle a b = true -> a = b \/ slt a b = true.
Proof. unfold sle, slt. destruct (compare a b) eqn:E; [left; by apply compare_eq|by right|done]. Qed.

Lemma sle_antisym a b : sle a b = true -> sle b a = true -> a = b.
Proof. intros [->|H1]%sle_cases H2; [done|]. rewrite sle_slt, H1 in H2. done. Qed.

Lemma slt_trans a b c : slt a b = true -> slt b c = true -> slt a c = true.
Proof.
  unfold slt. revert b c. induction a as [|x a IH]; intros [|y b] [|z c]; cbn; try done.
  destruct (Z.compare_spec x y), (Z.compare_spec y z), (Z.compare_spec x z); try done; try (exfalso; lia).
  apply IH.
Qed.

Lemma sle_trans a b c : sle a b = true -> sle b c = true -> sle a c = true.
Proof.
  intros [->|H1]%sle_cases [->|H2]%sle_cases; [apply sle_refl|by apply slt_weaken..|].
  apply slt_weaken. by eapply slt_trans.
Qed.

Lemma slt_sle_trans a b c : slt a b = true -> sle b c = true -> slt a c = true.
Proof. intros H1 [<-|H2]%sle_cases; [done|]. by eapply slt_trans. Qed.

Lemma sle_slt_trans a b c : sle a b = true -> slt b c = true -> slt a c = true.
Proof. intros [<-|H1]%sle_cases H2; [done|]. by eapply slt_trans. Qed.

Create HintDb slices.
#[export] Hint Resolve sle_refl slt_weaken sle_trans slt_trans slt_sle_trans sle_slt_trans : slices.

(** ** Short separators *)

Lemma common_take a b : take (Comparator.common a b) a = take (Comparator.common a b) b.
Proof.
  revert b. induction a as [|x a IH]; intros [|y b]; cbn; try done.
  destruct (Z.eqb_spec x y) as [->|]; cbn; [by rewrite (IH b)|done].
Qed.

Lemma common_le a b : (Comparator.common a b <= length a)%nat /\ (Comparator.common a b <= length b)%nat.
Proof.
  revert b. induction a as [|x a IH]; intros [|y b]; cbn; try lia.
  destruct (x =? y); cbn; [|lia]. destruct (IH b). lia.
Qed.

Lemma separator_cons x a b :
  Comparator.FindShortestSeparator (x :: a) (x :: b) = x :: Comparator.FindShortestSeparator a b.
Proof.
  unfold Comparator.FindShortestSeparator. cbn. rewrite Z.eqb_refl. cbn.
  destruct (a !! _); [|done]. destruct (b !! _); [|done]. by destruct (_ && _).
Qed.

Lemma compare_cons x a b : compare (x :: a) (x :: b) = compare a b.
Proof. cbn. by rewrite Z.compare_refl. Qed.

(** A separator is not below its first argument, and below the second one when
    the arguments differ. *)
Lemma separator_spec a b :
  sle a b = true ->
  sle a (Comparator.FindShortestSeparator a b) = true /\
  (slt a b = true -> slt (Comparator.FindShortestSeparator a b) b = true) /\
  (a = b -> Comparator.FindShortestSeparator a b = a).
Proof.
  revert b. induction a as [|x a IH]; intros [|y b] Hab; try done.
  destruct (Z.eqb_spec x y) as [->|Hne].
  - rewrite separator_cons. unfold sle, slt in *. rewrite !compare_cons in *.
    destruct (IH b Hab) as (? & ? & He). split; [done|]. split; [done|]. intros [= ->]. by rewrite He.
  - assert (Hxy : x < y).
    { unfold sle in Hab. cbn in Hab. destruct (Z.compare_spec x y); lia || done. }
    unfold Comparator.FindShortestSeparator. cbn. destruct (Z.eqb_spec x y); [done|]. cbn.
    destruct (Z.ltb_spec x 255), (Z.ltb_spec (x + 1) y); cbn [andb app];
      (split; [|split; [|congruence]]); unfold sle, slt; cbn; rewrite ?Z.compare_refl, ?compare_refl; try done.
    + destruct (Z.compare_spec x (x + 1)); lia || done.
    + intros _. destruct (Z.compare_spec (x + 1) y); lia || done.
Qed.

Lemma successor_spec a : sle a (Comparator.FindShortSuccessor a) = true.
Proof.
  induction a as [|x a IH]; [done|]. cbn. destruct (x =? 255); cbn [negb]; unfold sle in *; cbn.
  - by rewrite Z.compare_refl.
  - destruct (Z.compare_spec x (x + 1)); lia || done.
Qed.

(** ** Entries and their bytes *)

Definition entry_bytes (shared : nat) (k v : bytes) : bytes :=
  EncodeVarint32 (Z.of_nat shared) ++ EncodeVarint32 (Z.of_nat (length k - shared)) ++ EncodeVarint32 (zlen v)
    ++ drop shared k ++ v.

(** [Enc last s es]: the bytes [s] hold the entries [es], after an entry with the
    key [last]. *)
Inductive Enc : bytes -> bytes -> list entry -> Prop :=
  | Enc_nil last : Enc last [] []
  | Enc_cons last shared k v rest es :
      (shared <= length last)%nat -> (shared <= length k)%nat -> take shared last = take shared k -> zlen k < 2 ^ 32 ->
      Enc k rest es -> Enc last (entry_bytes shared k v ++ rest) ((k, v) :: es).

Definition last_of (last : bytes) (es : list entry) : bytes :=
  match list.last es with Some (k, _) => k | None => last end.

Lemma last_of_cons last k v es : last_of last ((k, v) :: es) = last_of k es.
Proof. unfold last_of. destruct es as [|e es]; [done|]. rewrite last_cons_cons. by destruct (list.last (e :: es)) as [[]|] eqn:E; [|apply last_None in E]. Qed.

Lemma Enc_snoc last s es shared k v :
  Enc last s es -> (shared <= length (last_of last es))%nat -> (shared <= length k)%nat ->
  take shared (last_of last es) = take shared k -> zlen k < 2 ^ 32 ->
  Enc last (s ++ entry_bytes shared k v) (es ++ [(k, v)]).
Proof.
  induction 1 as [last|last sh k' v' rest es Ha Hb Hc Hd _ IH]; intros H1 H2 H3 H4.
  - cbn. rewrite <- (app_nil_r (entry_bytes _ _ _)). by repeat constructor.
  - rewrite last_of_cons in *. rewrite <- app_assoc. cbn. constructor; [done..|]. by apply IH.
Qed.

Lemma varint32_small x : 0 <= x < 128 -> EncodeVarint32 x = [x].
Proof. intros Hx. unfold EncodeVarint32. change (Z.shiftl 1 7) with 128. destruct (Z.ltb_spec x 128); [|lia]. by rewrite u8_small by (unfold in_width; lia). Qed.

Lemma varint32_big x : is_u32 x -> 128 <= x -> exists b b' tl, EncodeVarint32 x = b :: b' :: tl /\ 128 <= b < 256.
Proof.
  intros [H0 Hu] Hx. assert (Hb : 128 <= u8 (Z.lor x B) < 256).
  { pose proof (u8_range (Z.lor x B)) as [? ?]. split; [|lia]. rewrite u8_lor_128 by done.
    destruct (Z.le_gt_cases 128 (Z.lor (Z.land x (B - 1)) B)) as [|Hlt]; [done|]. exfalso.
    assert (Ht : Z.testbit (Z.lor (Z.land x (B - 1)) B) 7 = false).
    { apply (in_width_bits 7); [|lia]. split; [|done]. apply Z.lor_nonneg. split; [|done]. apply Z.land_nonneg. by left. }
    rewrite (testbit_lor_128 x H0 : Z.testbit (Z.lor (Z.land x (B - 1)) B) 7 = true) in Ht. done. }
  unfold EncodeVarint32. change (Z.shiftl 1 7) with 128. destruct (Z.ltb_spec x 128); [lia|].
  destruct (_ <? _); [by eauto|]. destruct (_ <? _); [by eauto|]. destruct (_ <? _); by eauto.
Qed.

Lemma lor3_small a b c : 0 <= a < 128 -> 0 <= b < 128 -> 0 <= c < 128 -> Z.lor (Z.lor a b) c < 128.
Proof.
  intros Ha Hb Hc. assert (Hw : in_width 7 (Z.lor (Z.lor a b) c)); [|apply Hw].
  apply lor_in_width; [lia|apply lor_in_width; [lia|done..]|done].
Qed.

Lemma lor_big a b : 0 <= a -> 128 <= b -> 128 <= Z.lor a b /\ 128 <= Z.lor b a.
Proof.
  intros Ha Hb. rewrite (Z.lor_comm b a). split.
  all: destruct (Z.le_gt_cases 128 (Z.lor a b)) as [|Hlt]; [done|exfalso].
  all: assert (Hw : in_width 7 (Z.lor a b)) by (split; [apply Z.lor_nonneg; lia|done]).
  all: pose proof (Z.log2_nonneg b); assert (7 <= Z.log2 b) by (apply Z.log2_le_pow2; lia).
  all: pose proof (in_width_bits 7 _ (Z.log2 b) Hw ltac:(lia)) as Ht; rewrite Z.lor_spec, Z.bit_log2, orb_true_r in Ht by lia; done.
Qed.

(** The first three bytes of three varints tell whether all are one byte long. *)
Lemma varints_head a b c :
  is_u32 a -> is_u32 b -> is_u32 c ->
  let h := EncodeVarint32 a ++ EncodeVarint32 b ++ EncodeVarint32 c in
  h = [a; b; c] /\ Z.lor (Z.lor a b) c < 128 \/
  exists b0 b1 b2 tl, h = b0 :: b1 :: b2 :: tl /\ 128 <= Z.lor (Z.lor b0 b1) b2.
Proof.
  intros Ha Hb Hc h.
  assert (Hok : bytes_ok h) by (apply bytes_ok_app; split; [|apply bytes_ok_app; split]; by apply EncodeVarint32_ok).
  assert (Hone : forall x, is_u32 x -> x < 128 /\ EncodeVarint32 x = [x] \/ exists y y' tl, EncodeVarint32 x = y :: y' :: tl /\ 128 <= y).
  { intros x Hx. destruct (Z.lt_ge_cases x 128); [left; split; [done|]; apply varint32_small; destruct Hx; lia|right].
    destruct (varint32_big x Hx) as (y & y' & tl & E & ?); [done|]. exists y, y', tl. split; [done|lia]. }
  assert (Hbig : forall b0 b1 b2 tl, h = b0 :: b1 :: b2 :: tl -> 128 <= b0 \/ 128 <= b1 \/ 128 <= b2 ->
    exists b0 b1 b2 tl, h = b0 :: b1 :: b2 :: tl /\ 128 <= Z.lor (Z.lor b0 b1) b2).
  { intros b0 b1 b2 tl E Hor. exists b0, b1, b2, tl. split; [done|]. rewrite E in Hok.
    apply Forall_cons in Hok as [[? _] [[? _] [[? _] _]%Forall_cons]%Forall_cons].
    assert (0 <= Z.lor b0 b1) by (apply Z.lor_nonneg; lia).
    destruct Hor as [Hx|[Hx|Hx]].
    - destruct (lor_big b1 b0) as [_ ?]; [done..|]. by apply (lor_big b2 (Z.lor b0 b1)).
    - destruct (lor_big b0 b1) as [? _]; [done..|]. by apply (lor_big b2 (Z.lor b0 b1)).
    - by apply (lor_big (Z.lor b0 b1) b2). }
  destruct (Hone a Ha) as [[Ha' Ea]|(y & y' & tl & Ea & ?)].
  2: { right. destruct (Hone b Hb) as [[_ Eb]|(z & z' & tl' & Eb & _)]; subst h; rewrite Ea, Eb in *; destruct tl; cbn in *;
       (eapply Hbig; [reflexivity|by left]). }
  destruct (Hone b Hb) as [[Hb' Eb]|(y & y' & tl & Eb & ?)].
  2: { right. subst h. rewrite Ea, Eb in *. cbn in *. eapply Hbig; [reflexivity|by right; left]. }
  destruct (Hone c Hc) as [[Hc' Ec]|(y & y' & tl & Ec & ?)].
  2: { right. subst h. rewrite Ea, Eb, Ec in *. cbn in *. eapply Hbig; [reflexivity|by right; right]. }
  left. subst h. rewrite Ea, Eb, Ec. split; [done|]. destruct Ha, Hb, Hc. apply lor3_small; lia.
Qed.

(** [DecodeEntry] reads what [Add] writes, on both of its paths. *)
Lemma DecodeEntry_entry shared k v rest :
  (shared <= length k)%nat -> zlen (drop shared k ++ v ++ rest) < 2 ^ 32 -> zlen k < 2 ^ 32 ->
  DecodeEntry (entry_bytes shared k v ++ rest)
  = Some (Z.of_nat shared, Z.of_nat (length k - shared), zlen v, drop shared k ++ v ++ rest).
Proof.
  intros Hsh Hlen Hk. unfold entry_bytes.
  set (a := Z.of_nat shared). set (b := Z.of_nat (length k - shared)). set (c := zlen v).
  set (p := drop shared k ++ v ++ rest) in *.
  assert (Hp : zlen p = b + c + zlen rest).
  { subst p b c. rewrite !zlen_app. unfold zlen. rewrite length_drop. lia. }
  pose proof (zlen_nonneg rest). assert (Hc0 : 0 <= c) by apply zlen_nonneg.
  assert (Ha : is_u32 a) by (unfold in_width, zlen in *; lia).
  assert (Hb : is_u32 b) by (unfold in_width; lia). assert (Hc : is_u32 c) by (unfold in_width; lia).
  assert (Hend : (u32 (zlen p) <? u32 (b + c)) = false).
  { rewrite (u32_small (zlen p)), (u32_small (b + c)) by (unfold in_width; lia). apply Z.ltb_ge. lia. }
  replace ((EncodeVarint32 a ++ EncodeVarint32 b ++ EncodeVarint32 c ++ drop shared k ++ v) ++ rest)
    with (EncodeVarint32 a ++ EncodeVarint32 b ++ EncodeVarint32 c ++ p) by (subst p; by rewrite <- !app_assoc).
  destruct (varints_head a b c Ha Hb Hc) as [[E Hs]|(b0 & b1 & b2 & tl & E & Hbig)].
  - replace (EncodeVarint32 a ++ EncodeVarint32 b ++ EncodeVarint32 c ++ p) with (a :: b :: c :: p)
      by (change (a :: b :: c :: p) with ([a; b; c] ++ p); rewrite <- E; by rewrite <- !app_assoc).
    unfold DecodeEntry. destruct (Z.ltb_spec (Z.lor (Z.lor a b) c) 128); [|lia]. cbn [mbind option_bind]. by rewrite Hend.
  - assert (E' : EncodeVarint32 a ++ EncodeVarint32 b ++ EncodeVarint32 c ++ p = b0 :: b1 :: b2 :: tl ++ p).
    { change (b0 :: b1 :: b2 :: tl ++ p) with ((b0 :: b1 :: b2 :: tl) ++ p). rewrite <- E. by rewrite <- !app_assoc. }
    unfold DecodeEntry. rewrite E'. destruct (Z.ltb_spec (Z.lor (Z.lor b0 b1) b2) 128); [lia|]. rewrite <- E'.
    rewrite GetVarint32_encode by done. cbn [mbind option_bind]. rewrite GetVarint32_encode by done. cbn [mbind option_bind].
    rewrite GetVarint32_encode by done. cbn [mbind option_bind]. by rewrite Hend.
Qed.

(** ** Iterators *)

(** A block: its entries, the offsets of its restart points and the entries they
    stand at. *)
Record Layout (data s : bytes) (offs : list Z) (idx : list nat) (es : list entry) : Prop := {
  la_data : data = s ++ concat (EncodeFixed32 <$> offs) ++ EncodeFixed32 (zlen offs);
  la_size : zlen data < 2 ^ 32;
  la_enc : Enc [] s es;
  la_offs : Forall2 (fun off i => 0 <= off <= zlen s /\ Enc [] (drop (Z.to_nat off) s) (drop i es)) offs idx;
  la_first : offs !! O = Some 0 /\ idx !! O = Some O;
  la_idx : forall j i, idx !! S j = Some i -> (i < length es)%nat }.

Definition BlockOk (data : bytes) (es : list entry) : Prop := exists s offs idx, Layout data s offs idx es.

Lemma concat_fixed32 offs : zlen (concat (EncodeFixed32 <$> offs)) = 4 * zlen offs.
Proof.
  induction offs as [|o offs IH]; [done|]. cbn [fmap list_fmap concat]. rewrite zlen_app, zlen_cons, IH.
  change (zlen (EncodeFixed32 o)) with 4. lia.
Qed.

Lemma drop_fixed32 offs j o rest :
  offs !! j = Some o ->
  drop (4 * j) (concat (EncodeFixed32 <$> offs) ++ rest)
  = EncodeFixed32 o ++ concat (EncodeFixed32 <$> drop (S j) offs) ++ rest.
Proof.
  revert j. induction offs as [|x offs IH]; intros [|j] Hj; try done.
  - cbn in Hj. simplify_eq. cbn [fmap list_fmap concat drop]. rewrite drop_0. by rewrite <- app_assoc.
  - cbn [fmap list_fmap concat]. rewrite <- app_assoc. replace (4 * S j)%nat with (4 + 4 * j)%nat by lia.
    rewrite <- drop_drop, (drop_app_length' (EncodeFixed32 x)) by done. by apply IH.
Qed.

Lemma Enc_length last x l : Enc last x l -> (length l <= length x)%nat.
Proof.
  induction 1 as [|last shared k v rest l _ _ _ _ _ IH]; [done|]. cbn. rewrite length_app.
  assert ((1 <= length (entry_bytes shared k v))%nat); [|lia]. unfold entry_bytes. rewrite length_app.
  assert ((1 <= length (EncodeVarint32 (Z.of_nat shared)))%nat); [|lia].
  unfold EncodeVarint32. repeat (destruct (_ <? _); [cbn; lia|]). cbn. lia.
Qed.

Fixpoint skip_less (target : bytes) (l : list entry) : list entry :=
  match l with
  | [] => []
  | e :: l' => if slt e.1 target then skip_less target l' else l
  end.

Lemma skip_less_app target a b : Forall (fun e => slt e.1 target = true) a -> skip_less target (a ++ b) = skip_less target b.
Proof. induction 1 as [|e a He _ IH]; cbn; [done|]. by rewrite He. Qed.

Definition sorted (l : list entry) : Prop := StronglySorted (fun a b => sle a.1 b.1 = true) l.

Lemma sorted_before i l target k v rest :
  sorted l -> drop i l = (k, v) :: rest -> slt k target = true -> Forall (fun e => slt e.1 target = true) (take i l).
Proof.
  intros Hso Hd Hlt. apply Forall_forall. intros e He. unfold sorted in Hso. rewrite <- (take_drop i l), Hd in Hso.
  apply StronglySorted_app in Hso as (Hcross & _ & _). eapply sle_slt_trans; [|exact Hlt].
  apply (Hcross e (k, v)); [done|set_solver].
Qed.

Section Reading.
Context (data s : bytes) (offs : list Z) (idx : list nat) (es : list entry) (HL : Layout data s offs idx es).

Lemma zlen_data : zlen data = zlen s + 4 * zlen offs + 4.
Proof. rewrite (la_data _ _ _ _ _ HL), !zlen_app, concat_fixed32. change (zlen (EncodeFixed32 _)) with 4. lia. Qed.

Lemma offs_pos : 0 < zlen offs.
Proof. destruct (la_first _ _ _ _ _ HL) as [H0 _]. destruct offs; [done|]. rewrite zlen_cons. pose proof (zlen_nonneg l). lia. Qed.

Definition on (it : Iter) : Prop :=
  data_ it = data /\ restarts_off it = zlen s /\ num_restarts_ it = zlen offs.

(** The entries [l] come next. *)
Definition Before (it : Iter) (l : list entry) : Prop :=
  on it /\ status_ it = kOk /\ 0 <= Iter.NextEntryOffset it <= zlen s /\
  Enc (key_ it) (drop (Z.to_nat (Iter.NextEntryOffset it)) s) l.

(** The iterator is at the first of the entries [l], or at the end. *)
Definition At_ (it : Iter) (l : list entry) : Prop :=
  on it /\ status_ it = kOk /\
  match l with
  | [] => Iter.Valid it = false
  | (k, v) :: l => Iter.Valid it = true /\ Iter.key it = k /\ Iter.value it = v /\ Before it l
  end.

Lemma entries_from_drop it off :
  on it -> 0 <= off <= zlen s -> Iter.entries_from it off = drop (Z.to_nat off) s.
Proof.
  intros (Hd & Hr & _) Ho. unfold Iter.entries_from. rewrite Hd, Hr, (la_data _ _ _ _ _ HL).
  unfold zlen in *. rewrite drop_app_le by lia. apply take_app_length'. rewrite length_drop. lia.
Qed.

Lemma suffix_drop (x p : bytes) : drop (Z.to_nat (zlen (x ++ p) - zlen p)) (x ++ p) = p.
Proof. rewrite zlen_app. apply drop_app_length'. unfold zlen. lia. Qed.

Lemma ParseNextKey_nil it : Before it [] -> exists it', Iter.ParseNextKey it = (false, it') /\ At_ it' [].
Proof.
  intros (Hon & Hst & Ho & He). unfold Iter.ParseNextKey. pose proof Hon as (Hd & Hr & Hn). rewrite Hr.
  assert (E : drop (Z.to_nat (Iter.NextEntryOffset it)) s = []) by by inversion He.
  apply (f_equal length) in E. rewrite length_drop in E. cbn in E.
  destruct (Z.leb_spec (zlen s) (Iter.NextEntryOffset it)); [|unfold zlen in *; lia].
  eexists. split; [done|]. split; [by split_and!|]. split; [done|]. unfold Iter.Valid. cbn. rewrite Hr. apply Z.ltb_irrefl.
Qed.

Lemma ParseNextKey_cons it k v l :
  Before it ((k, v) :: l) -> exists it', Iter.ParseNextKey it = (true, it') /\ At_ it' ((k, v) :: l).
Proof.
  intros (Hon & Hst & Ho & He). unfold Iter.ParseNextKey. pose proof Hon as (Hd & Hr & Hn). rewrite Hr.
  set (off := Iter.NextEntryOffset it) in *. set (x := drop (Z.to_nat off) s) in *.
  inversion He as [|last shared k' v' rest l' Hs1 Hs2 Htake Hkl Henc Hlast Hx Hl]. subst last k' v' l'.
  set (p := drop shared k ++ v ++ rest).
  assert (Hxp : exists h, x = h ++ p /\ h <> []).
  { exists (EncodeVarint32 (Z.of_nat shared) ++ EncodeVarint32 (Z.of_nat (length k - shared)) ++ EncodeVarint32 (zlen v)).
    split; [subst p; rewrite <- Hx; unfold entry_bytes; by rewrite <- !app_assoc|].
    unfold EncodeVarint32 at 1. repeat (destruct (_ <? _); [done|]). done. }
  destruct Hxp as (h & Hxp & Hne).
  assert (Hs : s = (take (Z.to_nat off) s ++ h) ++ p) by (rewrite <- app_assoc, <- Hxp; subst x; by rewrite take_drop).
  assert (Hzp : zlen s - zlen p = off + zlen h).
  { apply (f_equal zlen) in Hs. rewrite !zlen_app in Hs. unfold zlen in *. rewrite length_take in Hs. lia. }
  assert (0 < zlen h) by (destruct h; [done|rewrite zlen_cons; pose proof (zlen_nonneg h); lia]).
  pose proof (zlen_nonneg p) as Hp0. pose proof (la_size _ _ _ _ _ HL). pose proof zlen_data. pose proof offs_pos.
  assert (Hzp' : zlen p = Z.of_nat (length k - shared) + zlen v + zlen rest).
  { subst p. rewrite !zlen_app. unfold zlen. rewrite length_drop. lia. }
  pose proof (zlen_nonneg rest). pose proof (zlen_nonneg v).
  destruct (Z.leb_spec (zlen s) off); [lia|]. rewrite entries_from_drop by done. fold x. rewrite <- Hx.
  rewrite DecodeEntry_entry by (done || (fold p; lia)).
  fold p. destruct (Z.ltb_spec (zlen (key_ it)) (Z.of_nat shared)); [unfold zlen in *; lia|].
  assert (Hdrop : forall n, 0 <= n -> drop (Z.to_nat (zlen s - zlen p + n)) s = drop (Z.to_nat n) p).
  { intros n Hn0. rewrite Z2Nat.inj_add, <- drop_drop by lia. f_equal. rewrite Hs at 2. rewrite Hs at 1. apply suffix_drop. }
  assert (Hval : drop (Z.to_nat (zlen s - zlen p + Z.of_nat (length k - shared))) s = v ++ rest).
  { rewrite Hdrop by lia. subst p. apply drop_app_length'. rewrite length_drop. lia. }
  eexists. split; [reflexivity|]. split; [by split_and!|]. split; [done|]. split.
  { unfold Iter.Valid. cbn. rewrite Hr. by apply Z.ltb_lt. }
  split.
  { unfold Iter.key. cbn [Iter.set key_]. rewrite !Nat2Z.id, Htake. subst p.
    rewrite take_app_length' by (rewrite length_drop; lia). apply take_drop. }
  split.
  { unfold Iter.value. cbn [Iter.set value_ data_ fst snd]. rewrite Hd, (la_data _ _ _ _ _ HL).
    rewrite drop_app_le by (unfold zlen in *; lia). rewrite Hval, <- app_assoc. apply take_app_length'. unfold zlen. lia. }
  assert (Hoff : Iter.NextEntryOffset (Iter.set it off (Iter.next_restart (Z.to_nat (num_restarts_ it)) it off (restart_index_ it))
    (take (Z.to_nat (Z.of_nat shared)) (key_ it) ++ take (Z.to_nat (Z.of_nat (length k - shared))) p)
    (zlen s - zlen p + Z.of_nat (length k - shared), zlen v) (status_ it))
    = zlen s - zlen p + Z.of_nat (length k - shared) + zlen v) by done.
  split; [by split_and!|]. split; [done|]. rewrite Hoff. split; [lia|].
  cbn [Iter.set key_]. rewrite !Nat2Z.id, Htake.
  replace (take (length k - shared) p) with (drop shared k)
    by (subst p; symmetry; apply take_app_length'; rewrite length_drop; lia).
  rewrite take_drop. rewrite Z2Nat.inj_add, <- drop_drop, Hval by lia.
  by rewrite drop_app_length' by (unfold zlen; lia).
Qed.

Lemma parse_At it l : Before it l -> exists it', Iter.ParseNextKey it = (bool_decide (l <> []), it') /\ At_ it' l.
Proof. destruct l as [|[k v] l]; [apply ParseNextKey_nil|apply ParseNextKey_cons]. Qed.

Lemma Next_At_ it e l : At_ it (e :: l) -> At_ (Iter.Next it) l.
Proof.
  destruct e as [k v]. intros (_ & _ & _ & _ & _ & HB). destruct (parse_At _ _ HB) as (it' & E & Hat).
  unfold Iter.Next. by rewrite E.
Qed.

Lemma restart_point it (j : nat) o :
  on it -> offs !! j = Some o -> Iter.GetRestartPoint it (Z.of_nat j) = o.
Proof.
  intros (Hd & Hr & _) Hj. unfold Iter.GetRestartPoint. rewrite Hd, Hr, (la_data _ _ _ _ _ HL).
  assert (Ho : is_u32 o).
  { destruct (Forall2_lookup_l _ _ _ _ _ (la_offs _ _ _ _ _ HL) Hj) as (i & _ & Ho & _).
    pose proof (la_size _ _ _ _ _ HL). pose proof zlen_data. pose proof offs_pos. unfold in_width. lia. }
  replace (Z.to_nat (zlen s + Z.of_nat j * 4)) with (length s + 4 * j)%nat by (unfold zlen; lia).
  rewrite <- drop_drop, drop_app_length, (drop_fixed32 _ _ _ _ Hj). by apply DecodeFixed32_encode.
Qed.

Lemma SeekToRestartPoint_Before it (j : nat) i :
  on it -> status_ it = kOk -> idx !! j = Some i -> Before (Iter.SeekToRestartPoint it (Z.of_nat j)) (drop i es).
Proof.
  intros Hon Hst Hj. destruct (Forall2_lookup_r _ _ _ _ _ (la_offs _ _ _ _ _ HL) Hj) as (o & Ho & Hr & He).
  split; [done|]. split; [done|]. unfold Iter.NextEntryOffset. cbn. rewrite (restart_point it j o Hon Ho), Z.add_0_r.
  split; [done|exact He].
Qed.

Lemma SeekToFirst_At_ it l : At_ it l -> At_ (Iter.SeekToFirst it) es.
Proof.
  intros (Hon & Hst & _). destruct (la_first _ _ _ _ _ HL) as [_ Hi].
  pose proof (SeekToRestartPoint_Before it 0 0 Hon Hst Hi) as HB. rewrite drop_0 in HB. change (Z.of_nat 0) with 0 in HB.
  destruct (parse_At _ _ HB) as (it' & E & Hat). unfold Iter.SeekToFirst. by rewrite E.
Qed.

(** *** Seeking *)

Lemma seek_loop_At fuel it l target :
  Before it l -> (length l < fuel)%nat -> At_ (Iter.seek_loop fuel it target) (skip_less target l).
Proof.
  revert it l. induction fuel as [|fuel IH]; intros it l HB Hf; [lia|]. cbn [Iter.seek_loop].
  destruct (parse_At _ _ HB) as (it' & -> & Hat). destruct l as [|[k v] l]; [done|].
  rewrite bool_decide_eq_true_2 by done. cbn [negb skip_less fst].
  pose proof Hat as (_ & _ & _ & Hk & _ & HB'). unfold Iter.key in Hk. rewrite Hk, slt_sle.
  destruct (sle target k); [done|]. apply IH; [done|cbn in Hf; lia].
Qed.

Lemma iter_search_spec fuel it target left right :
  on it -> sorted es -> 0 <= left -> right < zlen offs -> left < zlen offs ->
  (forall i, idx !! Z.to_nat left = Some i -> Forall (fun e => slt e.1 target = true) (take i es)) ->
  exists j i, Iter.search fuel it target left right = Some (Z.of_nat j) /\ idx !! j = Some i /\
    Forall (fun e => slt e.1 target = true) (take i es).
Proof.
  intros Hon Hso. pose proof (la_offs _ _ _ _ _ HL) as HF.
  assert (Hlen : length idx = length offs) by (symmetry; by eapply Forall2_length).
  assert (Hstop : forall left, 0 <= left -> left < zlen offs ->
    (forall i, idx !! Z.to_nat left = Some i -> Forall (fun e => slt e.1 target = true) (take i es)) ->
    exists j i, Some left = Some (Z.of_nat j) /\ idx !! j = Some i /\ Forall (fun e => slt e.1 target = true) (take i es)).
  { clear left. intros left H0 H1 Hl. exists (Z.to_nat left). destruct (lookup_lt_is_Some_2 idx (Z.to_nat left)) as [i Hi]; [unfold zlen in *; lia|].
    exists i. split; [f_equal; lia|]. split; [done|]. by apply Hl. }
  revert left right. induction fuel as [|fuel IH]; intros left right H0 Hr Hl Hleft; cbn [Iter.search]; [by apply Hstop|].
  destruct (Z.ltb_spec left right); [|by apply Hstop]. set (mid := (left + right + 1) / 2).
  assert (Hmid : left < mid <= right).
  { subst mid. pose proof (Z.div_mod (left + right + 1) 2 ltac:(lia)). pose proof (Z.mod_pos_bound (left + right + 1) 2). lia. }
  destruct (lookup_lt_is_Some_2 idx (Z.to_nat mid)) as [i Hi]; [unfold zlen in *; lia|].
  destruct (Forall2_lookup_r _ _ _ _ _ HF Hi) as (o & Ho & Hor & He).
  assert (Hil : (i < length es)%nat).
  { apply (la_idx _ _ _ _ _ HL (Nat.pred (Z.to_nat mid))). rewrite <- Hi. f_equal. lia. }
  assert (Hp : Iter.GetRestartPoint it mid = o) by (rewrite <- (restart_point it _ o Hon Ho); f_equal; lia).
  rewrite Hp, entries_from_drop by done.
  destruct (drop i es) as [|[k v] l] eqn:Ed; [apply (f_equal length) in Ed; rewrite length_drop in Ed; cbn in Ed; lia|].
  inversion He as [|last shared k' v' rest l' Hs1 Hs2 Htake Hkl Henc Hlast Hx Hl']. subst last k' v' l'.
  assert (shared = O) as -> by (cbn in Hs1; lia).
  assert (Hsz : zlen (drop 0 k ++ v ++ rest) < 2 ^ 32).
  { pose proof (la_size _ _ _ _ _ HL). pose proof zlen_data. pose proof offs_pos.
    apply (f_equal zlen) in Hx. unfold entry_bytes in Hx. rewrite !zlen_app in Hx.
    pose proof (zlen_nonneg (EncodeVarint32 (Z.of_nat 0))). pose proof (zlen_nonneg (EncodeVarint32 (Z.of_nat (length k - 0)))).
    pose proof (zlen_nonneg (EncodeVarint32 (zlen v))). rewrite !zlen_app. unfold zlen in Hx at 8. rewrite length_drop in Hx.
    unfold zlen in *. lia. }
  rewrite DecodeEntry_entry by (done || lia). change (Z.of_nat 0) with 0. cbn iota beta.
  rewrite drop_0, Nat.sub_0_r, Nat2Z.id, take_app_length.
  destruct (slt k target) eqn:Hlt.
  - apply IH; [lia..|]. intros i' Hi'. rewrite Hi in Hi'. simplify_eq. by eapply sorted_before.
  - apply IH; [lia..|done].
Qed.

Lemma Seek_At_ it l target : sorted es -> At_ it l -> At_ (Iter.Seek it target) (skip_less target es).
Proof.
  intros Hso (Hon & Hst & _). unfold Iter.Seek. pose proof offs_pos. pose proof Hon as (Hd & Hr & Hn).
  destruct (iter_search_spec (Z.to_nat (num_restarts_ it)) it target 0 (num_restarts_ it - 1)) as (j & i & -> & Hj & Hlt);
    [done|done|lia|lia|lia| |].
  { intros i Hi. change (Z.to_nat 0) with O in Hi. destruct (la_first _ _ _ _ _ HL) as [_ Hi0]. simplify_eq. by rewrite take_0. }
  rewrite <- (take_drop i es), skip_less_app by done. apply seek_loop_At; [by apply SeekToRestartPoint_Before|].
  rewrite length_drop, Hd. pose proof (Enc_length _ _ _ (la_enc _ _ _ _ _ HL)).
  pose proof zlen_data. unfold zlen in *. lia.
Qed.

End Reading.

(** ** What clients use *)

(** The iterator [it] over a block with entries [es] is before the entries [l]. *)
Definition At (es : list entry) (it : Iter) (l : list entry) : Prop :=
  (exists pre, es = pre ++ l) /\ exists data s offs idx, Layout data s offs idx es /\ At_ data s offs it l.

Lemma skip_less_suffix target l : exists pre, l = pre ++ skip_less target l /\ Forall (fun e => slt e.1 target = true) pre.
Proof.
  induction l as [|e l (pre & E & Hp)]; [by exists []|]. cbn. destruct (slt e.1 target) eqn:He; [|by exists []].
  exists (e :: pre). split; [cbn; by rewrite <- E|by constructor].
Qed.

Lemma Next_At es it e l : At es it (e :: l) -> At es (Iter.Next it) l.
Proof.
  intros ([pre E] & data & s & offs & idx & HL & Ha). split; [exists (pre ++ [e]); by rewrite <- app_assoc|].
  exists data, s, offs, idx. split; [done|]. by eapply Next_At_.
Qed.

Lemma SeekToFirst_At es it l : At es it l -> At es (Iter.SeekToFirst it) es.
Proof. intros (_ & data & s & offs & idx & HL & Ha). split; [by exists []|]. exists data, s, offs, idx. split; [done|]. by eapply SeekToFirst_At_. Qed.

Lemma Seek_At es it l target : sorted es -> At es it l -> At es (Iter.Seek it target) (skip_less target es).
Proof.
  intros Hso (_ & data & s & offs & idx & HL & Ha). destruct (skip_less_suffix target es) as (pre & E & _).
  split; [by exists pre|]. exists data, s, offs, idx. split; [done|]. by eapply Seek_At_.
Qed.

Lemma At_nil es it : At es it [] -> Iter.Valid it = false /\ status_ it = kOk.
Proof. intros (_ & data & s & offs & idx & HL & _ & Hst & Hv). done. Qed.

Lemma At_cons es it k v l :
  At es it ((k, v) :: l) -> Iter.Valid it = true /\ Iter.key it = k /\ Iter.value it = v /\ status_ it = kOk.
Proof. intros (_ & data & s & offs & idx & HL & _ & Hst & Hv & Hk & Hval & _). done. Qed.

Lemma NewIterator_At data es : BlockOk data es -> exists it, Block.NewIterator data = inr it /\ At es it [].
Proof.
  intros (s & offs & idx & HL). pose proof (zlen_data _ _ _ _ _ HL) as Hz. pose proof (offs_pos _ _ _ _ _ HL) as Ho.
  pose proof (la_size _ _ _ _ _ HL). pose proof (zlen_nonneg s).
  assert (Hn : Block.NumRestarts data = zlen offs).
  { unfold Block.NumRestarts. rewrite (la_data _ _ _ _ _ HL) at 2. rewrite app_assoc, drop_app_length'.
    - rewrite <- (app_nil_r (EncodeFixed32 _)). apply DecodeFixed32_encode. unfold in_width. lia.
    - rewrite length_app. pose proof (concat_fixed32 offs). unfold zlen in *. lia. }
  assert (Hsz : Block.size_ data = zlen data).
  { unfold Block.size_. rewrite Hn. destruct (Z.ltb_spec (zlen data) 4); [lia|].
    destruct (Z.ltb_spec ((zlen data - 4) / 4) (zlen offs)) as [Hlt|_]; [|done].
    exfalso. assert (zlen offs <= (zlen data - 4) / 4) by (apply Z.div_le_lower_bound; lia). lia. }
  unfold Block.NewIterator, Block.restart_offset_. rewrite Hn, Hsz. destruct (Z.ltb_spec (zlen data) 4); [lia|].
  destruct (Z.eqb_spec (zlen offs) 0); [lia|]. eexists. split; [done|]. split; [exists es; by rewrite app_nil_r|]. exists data, s, offs, idx. split; [done|].
  rewrite u32_small by (unfold in_width; lia). split; [|split; [done|unfold Iter.Valid; cbn; apply Z.ltb_irrefl]].
  split; [done|]. cbn. split; [lia|done].
Qed.

(** The binary search stops before its fuel does. *)
Lemma search_fuel it target fuel fuel' left right :
  right - left <= Z.of_nat fuel -> right - left <= Z.of_nat fuel' ->
  Iter.search fuel it target left right = Iter.search fuel' it target left right.
Proof.
  revert fuel' left right. induction fuel as [|fuel IH]; intros [|fuel'] left right H1 H2; cbn [Iter.search]; [done|..].
  1,2: by destruct (Z.ltb_spec left right); [lia|].
  destruct (Z.ltb_spec left right); [|done]. set (mid := (left + right + 1) / 2).
  assert (Hmid : left < mid <= right).
  { subst mid. pose proof (Z.div_mod (left + right + 1) 2 ltac:(lia)). pose proof (Z.mod_pos_bound (left + right + 1) 2). lia. }
  destruct (DecodeEntry _) as [[[[[] ?] ?] ?]|]; try done. destruct (slt _ _); apply IH; lia.
Qed.

(** ** Building *)

(** The entries of the block being built. *)
Record Building (b : BlockBuilder) (s : bytes) (idx : list nat) (es : list entry) : Prop := {
  bu_open : finished_ (buf b) = false;
  bu_start : 0 <= buffer_start_ (buf b) <= zlen (buffer_ (buf b));
  bu_contents : Buffer.contents (buf b) = s;
  bu_enc : Enc [] s es;
  bu_offs : Forall2 (fun off i => 0 <= off <= zlen s /\ Enc [] (drop (Z.to_nat off) s) (drop i es)) (restarts_ b) idx;
  bu_first : restarts_ b !! O = Some 0 /\ idx !! O = Some O;
  bu_idx : forall j i, idx !! S j = Some i -> (i < length es)%nat;
  bu_last : last_key_ b = last_of [] es;
  bu_counter : counter_ b <= restart_interval_ b;
  bu_interval : 1 <= restart_interval_ b }.

Definition Builds (b : BlockBuilder) (es : list entry) : Prop := exists s idx, Building b s idx es.

Lemma last_of_drop last last' i es : (i < length es)%nat -> last_of last (drop i es) = last_of last' es.
Proof.
  revert es. induction i as [|i IH]; intros [|[k v] es] Hi; cbn in Hi; try lia.
  - cbn. by rewrite !last_of_cons.
  - cbn [drop]. rewrite last_of_cons. destruct es as [|[k' v'] es]; [cbn in Hi; lia|].
    rewrite (last_of_cons k). rewrite <- (last_of_cons last' k' v'). apply IH. cbn in *. lia.
Qed.

Lemma last_of_snoc last es k v : last_of last (es ++ [(k, v)]) = k.
Proof. unfold last_of. by rewrite last_snoc. Qed.

Lemma contents_append s b :
  0 <= buffer_start_ b <= zlen (buffer_ b) -> Buffer.contents (Buffer.append s b) = Buffer.contents b ++ s.
Proof. intros Hs. unfold Buffer.contents, zlen in *. cbn. apply drop_app_le. lia. Qed.

Lemma zlen_contents b :
  0 <= buffer_start_ b <= zlen (buffer_ b) -> zlen (Buffer.contents b) = zlen (buffer_ b) - buffer_start_ b.
Proof. intros Hs. unfold Buffer.contents, zlen in *. rewrite length_drop. lia. Qed.

(** A new entry is in every run of entries that begins at a restart point. *)
Lemma offs_extend s es shared k v offs idx :
  Forall2 (fun off i => 0 <= off <= zlen s /\ Enc [] (drop (Z.to_nat off) s) (drop i es)) offs idx ->
  idx !! O = Some O -> (forall j i, idx !! S j = Some i -> (i < length es)%nat) ->
  (shared <= length (last_of [] es))%nat -> (shared <= length k)%nat ->
  take shared (last_of [] es) = take shared k -> zlen k < 2 ^ 32 ->
  Forall2 (fun off i => 0 <= off <= zlen (s ++ entry_bytes shared k v)
             /\ Enc [] (drop (Z.to_nat off) (s ++ entry_bytes shared k v)) (drop i (es ++ [(k, v)]))) offs idx.
Proof.
  intros HF Hi0 Hi H1 H2 H3 H4.
  assert (Hidx : Forall (fun i => (i < length es)%nat \/ i = O /\ es = []) idx).
  { apply Forall_lookup_2. intros [|j] i Hj; [|left; by eapply Hi]. rewrite Hi0 in Hj. simplify_eq.
    destruct es; [by right|left; cbn; lia]. }
  clear Hi0 Hi. revert Hidx. induction HF as [|off i offs idx [Hoff Henc] _ IH]; intros [Hi Hidx]%Forall_cons || intros _; constructor.
  - rewrite zlen_app. pose proof (zlen_nonneg (entry_bytes shared k v)). split; [lia|].
    rewrite drop_app_le by (unfold zlen in *; lia).
    destruct Hi as [Hi|[-> ->]].
    + rewrite drop_app_le by lia. apply Enc_snoc; rewrite ?(last_of_drop _ [] _ _ Hi); done.
    + rewrite !drop_0 in *. by apply Enc_snoc.
  - by apply IH.
Qed.

Section Building.
Context `{Snappy}.

Lemma Reset_Builds b :
  0 <= buffer_start_ (buf b) <= zlen (buffer_ (buf b)) -> 1 <= restart_interval_ b -> Builds (BlockBuilder.Reset b) [].
Proof.
  intros Hs Hr. exists [], [O]. assert (E : Buffer.contents (buf (BlockBuilder.Reset b)) = []).
  { unfold Buffer.contents. cbn. apply drop_ge. rewrite length_take. lia. }
  constructor; cbn; try done; try lia.
  - unfold zlen in *. rewrite length_take. lia.
  - constructor.
  - constructor; [|constructor]. split; [done|apply Enc_nil].
Qed.

Lemma New_Builds n cmp : Builds (BlockBuilder.New n cmp) [].
Proof.
  exists [], [O]. unfold BlockBuilder.New. constructor; cbn; try done.
  - constructor.
  - constructor; [|constructor]. split; [done|apply Enc_nil].
  - destruct (Z.ltb_spec n 1); lia.
  - destruct (Z.ltb_spec n 1); lia.
Qed.

(** An entry whose key is not below the last one is added, if the block stays
    below 4 GB. *)
Lemma Add_Builds b es k v :
  Builds b es -> (cmp_ (buf b) = false \/ es = [] \/ sle (last_of [] es) k = true) ->
  BlockBuilder.CurrentSizeEstimate b + zlen k + zlen v + 20 < 2 ^ 32 ->
  exists b', BlockBuilder.Add k v b = Some b' /\ Builds b' (es ++ [(k, v)])
    /\ restart_interval_ b' = restart_interval_ b /\ cmp_ (buf b') = cmp_ (buf b)
    /\ buffer_start_ (buf b') = buffer_start_ (buf b)
    /\ take (Z.to_nat (buffer_start_ (buf b))) (buffer_ (buf b')) = take (Z.to_nat (buffer_start_ (buf b))) (buffer_ (buf b))
    /\ BlockBuilder.CurrentSizeEstimate b' <= BlockBuilder.CurrentSizeEstimate b + zlen k + zlen v + 19.
Proof.
  intros (s & idx & HB) Hord Hsz. destruct HB as [Hopen Hst Hc He Ho [Hr0 Hi0] Hi Hl Hcnt Hint].
  unfold BlockBuilder.CurrentSizeEstimate in *. rewrite Hopen in *. cbn [negb] in Hsz.
  pose proof (zlen_contents _ Hst) as Hzc. rewrite Hc in Hzc. rewrite <- Hzc in Hsz. rewrite <- Hzc.
  pose proof (zlen_nonneg s). pose proof (zlen_nonneg k). pose proof (zlen_nonneg v). pose proof (zlen_nonneg (restarts_ b)).
  unfold BlockBuilder.Add. rewrite Hopen.
  assert (Hguard : (counter_ b <=? restart_interval_ b) = true) by (apply Z.leb_le; lia).
  assert (Hsorted : negb (cmp_ (buf b)) || Buffer.empty (buf b) || sle (last_key_ b) k = true).
  { destruct Hord as [->|[->|Hle]]; [done| |by rewrite Hl, Hle, orb_true_r]. assert (Hnil : s = []) by by inversion He.
    unfold Buffer.empty. rewrite orb_true_iff, orb_true_iff. left. right. apply Z.leb_le. rewrite Hnil, (@zlen_nil Z) in Hzc. lia. }
  rewrite Hguard, Hsorted. cbn [negb orb].
  set (full := counter_ b <? restart_interval_ b).
  set (shared := if full then Comparator.common (last_key_ b) k else O).
  assert (Hs1 : (shared <= length (last_of [] es))%nat /\ (shared <= length k)%nat /\ take shared (last_of [] es) = take shared k).
  { subst shared. rewrite <- Hl. destruct full; [|by rewrite !take_0; repeat split; lia].
    destruct (common_le (last_key_ b) k). split; [done|]. split; [done|]. apply common_take. }
  destruct Hs1 as (Hs1 & Hs2 & Hs3).
  assert (E : EncodeVarint32 (u32 (Z.of_nat shared)) ++ EncodeVarint32 (u32 (Z.of_nat (length k - shared)))
               ++ EncodeVarint32 (u32 (zlen v)) ++ drop shared k ++ v = entry_bytes shared k v).
  { unfold entry_bytes. rewrite !u32_small by (unfold in_width, zlen in *; lia). done. }
  assert (Hel : zlen (entry_bytes shared k v) <= 15 + zlen k + zlen v).
  { unfold entry_bytes. rewrite !zlen_app. pose proof (length_EncodeVarint32 (Z.of_nat shared)).
    pose proof (length_EncodeVarint32 (Z.of_nat (length k - shared))). pose proof (length_EncodeVarint32 (zlen v)).
    assert (zlen (drop shared k) <= zlen k) by (unfold zlen; rewrite length_drop; lia). lia. }
  assert (Hkey : take shared (last_key_ b) ++ drop shared k = k) by (rewrite Hl, Hs3; apply take_drop).
  assert (HC : Buffer.contents (Buffer.append (entry_bytes shared k v) (buf b)) = s ++ entry_bytes shared k v)
    by (by rewrite contents_append, Hc).
  assert (Hext := offs_extend s es shared k v _ _ Ho Hi0 Hi Hs1 Hs2 Hs3 ltac:(lia)).
  assert (Henc := Enc_snoc [] s es shared k v He Hs1 Hs2 Hs3 ltac:(lia)).
  assert (Hres : exists restarts counter idx',
    (if full then (Comparator.common (last_key_ b) k, restarts_ b, counter_ b)
     else (O, restarts_ b ++ [u32 (zlen (buffer_ (buf b)) - buffer_start_ (buf b))], 0)) = (shared, restarts, counter) /\
    Building (mkBuilder (Buffer.append (entry_bytes shared k v) (buf b)) (restart_interval_ b) restarts (counter + 1) k)
      (s ++ entry_bytes shared k v) idx' (es ++ [(k, v)]) /\ zlen restarts <= zlen (restarts_ b) + 1).
  { unfold zlen in Hst at 1. subst shared full. destruct (Z.ltb_spec (counter_ b) (restart_interval_ b)).
    - exists (restarts_ b), (counter_ b), idx. split; [done|]. split; [|lia].
      constructor; cbn; try done; try lia.
      + unfold zlen. rewrite length_app. lia.
      + intros j i Hj%Hi. rewrite length_app. lia.
      + by rewrite last_of_snoc.
    - exists (restarts_ b ++ [zlen s]), 0, (idx ++ [length es]). rewrite <- Hzc, u32_small by (unfold in_width; lia).
      split; [done|]. split; [|rewrite zlen_app; change (zlen [zlen s]) with 1; lia].
      constructor; cbn; try done.
      + unfold zlen. rewrite length_app. lia.
      + apply Forall2_app; [done|]. constructor; [|constructor]. rewrite zlen_app. split; [pose proof (zlen_nonneg (entry_bytes 0 k v)); lia|].
        rewrite drop_app_length' by (unfold zlen; lia). rewrite drop_app_length.
        rewrite <- (app_nil_r (entry_bytes _ _ _)). constructor; cbn; lia || done || constructor.
      + split; by apply lookup_app_l_Some.
      + intros j i Hj. rewrite length_app. cbn. apply lookup_snoc_Some in Hj as [[_ Hj%Hi]|[_ <-]]; lia.
      + by rewrite last_of_snoc. }
  destruct Hres as (restarts & counter & idx' & -> & HB & Hzr). rewrite E, Hkey.
  eexists. split; [reflexivity|]. split; [by exists (s ++ entry_bytes shared k v), idx'|]. split; [done|]. split; [done|].
  split; [done|]. split; [cbn; apply take_app_le; unfold zlen in *; lia|].
  cbn [buf Buffer.append Buffer.set_buffer finished_ buffer_ buffer_start_ restarts_]. rewrite Hopen. cbn [negb].
  rewrite zlen_app. lia.
Qed.

Lemma Finish_raw b es :
  Builds b es -> BlockBuilder.CurrentSizeEstimate b < 2 ^ 32 ->
  exists data, BlockOk data es
    /\ data = Buffer.contents (buf b) ++ concat (EncodeFixed32 <$> restarts_ b) ++ EncodeFixed32 (u32 (zlen (restarts_ b)))
    /\ zlen data = BlockBuilder.CurrentSizeEstimate b.
Proof.
  intros (s & idx & [Hopen Hst Hc He Ho Hr Hi Hl Hcnt Hint]) Hsz. eexists.
  assert (Hz : zlen (Buffer.contents (buf b) ++ concat (EncodeFixed32 <$> restarts_ b) ++ EncodeFixed32 (u32 (zlen (restarts_ b))))
               = BlockBuilder.CurrentSizeEstimate b).
  { unfold BlockBuilder.CurrentSizeEstimate. rewrite Hopen, !zlen_app, concat_fixed32, zlen_contents by done.
    change (zlen (EncodeFixed32 _)) with 4. cbn [negb]. lia. }
  split; [|by split; [reflexivity|]]. exists s, (restarts_ b), idx. constructor; try done.
  - rewrite Hc, u32_small; [done|]. unfold in_width. pose proof (zlen_nonneg (restarts_ b)).
    unfold BlockBuilder.CurrentSizeEstimate in Hsz. rewrite Hopen in Hsz. cbn [negb] in Hsz. lia.
  - by rewrite Hz.
Qed.

(** The block [data] is finished as it is, or compressed. *)
Definition Finished (compression : CompressionType) (b : BlockBuilder) (contents : bytes) (b' : BlockBuilder) (data : bytes) : Prop :=
  finished_ (buf b') = true /\ contents = Buffer.contents (buf b')
  /\ buffer_start_ (buf b') = buffer_start_ (buf b) /\ cmp_ (buf b') = cmp_ (buf b)
  /\ restart_interval_ b' = restart_interval_ b
  /\ take (Z.to_nat (buffer_start_ (buf b))) (buffer_ (buf b')) = take (Z.to_nat (buffer_start_ (buf b))) (buffer_ (buf b))
  /\ (contents = data /\ compression_ (buf b') = compression_ (buf b)
      \/ compression = kSnappyCompression /\ compression_ (buf b') = kSnappyCompression
         /\ Snappy_Uncompress contents = Some data).

Lemma Finish_Builds compression force b es :
  Builds b es -> BlockBuilder.CurrentSizeEstimate b < 2 ^ 32 ->
  exists data contents b', BlockBuilder.Finish compression force b = Some (contents, b') /\ BlockOk data es
    /\ zlen data = BlockBuilder.CurrentSizeEstimate b
    /\ Finished compression b contents b' data.
Proof.
  intros HB Hsz. destruct (Finish_raw b es HB Hsz) as (data & Hok & Hd & Hz).
  destruct HB as (s & idx & [Hopen Hst Hc He Ho Hr Hi Hl Hcnt Hint]).
  unfold BlockBuilder.Finish. rewrite Hopen.
  set (t := concat (EncodeFixed32 <$> restarts_ b) ++ EncodeFixed32 (u32 (zlen (restarts_ b)))) in *.
  assert (HC : forall f, Buffer.contents (mkBuffer (cmp_ (buf b)) (buffer_ (buf b) ++ t) (buffer_start_ (buf b)) (compression_ (buf b)) f) = data).
  { intros f. rewrite Hd. apply (contents_append t (buf b) Hst). }
  unfold Buffer.Finish. cbn [Buffer.append Buffer.set_buffer finished_ cmp_ buffer_ buffer_start_ compression_]. rewrite Hopen, HC.
  exists data.
  assert (Htake : take (Z.to_nat (buffer_start_ (buf b))) (buffer_ (buf b) ++ t) = take (Z.to_nat (buffer_start_ (buf b))) (buffer_ (buf b)))
    by (apply take_app_le; unfold zlen in *; lia).
  assert (Hplain : exists contents b',
    (let? (contents, buf) := Some (data, mkBuffer (cmp_ (buf b)) (buffer_ (buf b) ++ t) (buffer_start_ (buf b)) (compression_ (buf b)) true) in
     Some (contents, BlockBuilder.set_buf buf b)) = Some (contents, b') /\ BlockOk data es
    /\ zlen data = BlockBuilder.CurrentSizeEstimate b /\ Finished compression b contents b' data).
  { do 2 eexists. split; [reflexivity|]. unfold Finished. cbn [BlockBuilder.set_buf buf]. rewrite HC. by split_and!; [..|left]. }
  destruct compression; [exact Hplain|].
  destruct (Snappy_Compress data) as [c|] eqn:Ec; [|exact Hplain].
  destruct ((_ <=? _) && _); [exact Hplain|]. destruct c as [|x c]; [exact Hplain|].
  assert (Hl' : length (take (Z.to_nat (buffer_start_ (buf b))) (buffer_ (buf b))) = Z.to_nat (buffer_start_ (buf b)))
    by (rewrite length_take; unfold zlen in *; lia).
  assert (HC' : forall f k, Buffer.contents (mkBuffer (cmp_ (buf b)) (take (Z.to_nat (buffer_start_ (buf b))) (buffer_ (buf b)) ++ x :: c)
                  (buffer_start_ (buf b)) k f) = x :: c).
  { intros f k. unfold Buffer.contents. cbn. by apply drop_app_length'. }
  do 2 eexists. split; [by rewrite Htake|]. unfold Finished. cbn [BlockBuilder.set_buf buf]. rewrite HC'.
  split_and!; try done.
  - cbn. by apply take_app_length'.
  - right. split_and!; [done..|]. by apply Snappy_round.
Qed.

(** ** Blocks of sorted entries *)

Fixpoint AddAll (es : list entry) (b : BlockBuilder) : option BlockBuilder :=
  match es with
  | [] => Some b
  | (k, v) :: es => let? b := BlockBuilder.Add k v b in AddAll es b
  end.

(** [for (; iter->Valid(); iter->Next())] *)
Fixpoint walk (fuel : nat) (it : Iter) : list entry :=
  match fuel with
  | O => []
  | S fuel => if Iter.Valid it then (Iter.key it, Iter.value it) :: walk fuel (Iter.Next it) else []
  end.

Fixpoint weight (es : list entry) : Z :=
  match es with [] => 0 | (k, v) :: es => zlen k + zlen v + 19 + weight es end.

Lemma weight_nonneg es : 0 <= weight es.
Proof. induction es as [|[k v] es IH]; cbn; [done|]. pose proof (zlen_nonneg k). pose proof (zlen_nonneg v). lia. Qed.

Lemma AddAll_Builds es b es0 :
  Builds b es0 -> sorted (es0 ++ es) -> BlockBuilder.CurrentSizeEstimate b + weight es + 20 < 2 ^ 32 ->
  exists b', AddAll es b = Some b' /\ Builds b' (es0 ++ es)
    /\ BlockBuilder.CurrentSizeEstimate b' <= BlockBuilder.CurrentSizeEstimate b + weight es.
Proof.
  revert b es0. induction es as [|[k v] es IH]; intros b es0 HB Hso Hsz; cbn [AddAll].
  { exists b. rewrite app_nil_r. split; [done|]. split; [done|]. cbn. lia. }
  cbn [weight] in *. pose proof (weight_nonneg es).
  destruct (Add_Builds b es0 k v HB) as (b' & -> & HB' & _ & _ & _ & _ & Hsz').
  { right. destruct (list.last es0) as [[k' v']|] eqn:El; [|left; by apply last_None in El]. right. unfold last_of. rewrite El.
    apply last_Some in El as [es1 ->]. unfold sorted in Hso. apply StronglySorted_app in Hso as (Hx & _ & _).
    apply (Hx (k', v') (k, v)); set_solver. }
  { lia. }
  cbn [mbind option_bind]. destruct (IH b' (es0 ++ [(k, v)]) HB') as (b'' & E & HB'' & Hs).
  { by rewrite <- app_assoc. }
  { lia. }
  exists b''. rewrite <- app_assoc in HB''. split; [done|]. split; [done|]. lia.
Qed.

Lemma AddAll_compression es b b' : AddAll es b = Some b' -> compression_ (buf b') = compression_ (buf b).
Proof.
  revert b. induction es as [|[k v] es IH]; intros b; cbn [AddAll]; [by intros [= ->]|].
  intros (b1 & Ea & E)%bind_Some. rewrite (IH _ E). unfold BlockBuilder.Add in Ea. by repeat case_match; simplify_eq.
Qed.

End Building.

Lemma walk_At es it l n : At es it l -> (length l <= n)%nat -> walk n it = l.
Proof.
  revert it l. induction n as [|n IH]; intros it l Hat Hn; destruct l as [|[k v] l]; cbn in Hn; try lia; try done; cbn.
  - by destruct (At_nil _ _ Hat) as [-> _].
  - destruct (At_cons _ _ _ _ _ Hat) as (-> & -> & -> & _). f_equal. apply IH; [by eapply Next_At|lia].
Qed.

Lemma filter_all {A} (P : A -> Prop) `{forall x, Decision (P x)} (l : list A) : Forall P l -> filter P l = l.
Proof. induction 1 as [|x l Hx _ IH]; [done|]. by rewrite filter_cons_True, IH. Qed.

Lemma skip_less_filter target es : sorted es -> skip_less target es = filter (fun e => sle target e.1 = true) es.
Proof.
  induction 1 as [|[k v] es Hso IH Hall]; [done|]. cbn [skip_less fst]. rewrite slt_sle.
  destruct (sle target k) eqn:E; cbn [negb].
  - rewrite filter_cons_True by done. f_equal. symmetry. apply filter_all.
    eapply Forall_impl; [exact Hall|]. cbn. intros [k' v'] Hle. cbn in *. by eapply sle_trans.
  - rewrite filter_cons_False by (cbn; congruence). exact IH.
Qed.

(** C29. A block built from sorted entries, in a fresh buffer and with any restart
    interval, compressed or not, gives all of them to a reader that walks from
    [SeekToFirst]; from [Seek target] a reader walks over the entries whose keys
    are not below [target].  No assertion of the builder fails. *)
Theorem sst_block_round `{Snappy} (interval : Z) (compression : CompressionType) (force : bool) (es : list entry) :
  sorted es -> weight es < 2 ^ 32 - 64 ->
  exists b contents b' data it,
    AddAll es (BlockBuilder.New interval true) = Some b
    /\ BlockBuilder.Finish compression force b = Some (contents, b')
    /\ (compression_ (buf b') = kNoCompression /\ contents = data
        \/ compression_ (buf b') = kSnappyCompression /\ Snappy_Uncompress contents = Some data)
    /\ Block.NewIterator data = inr it
    /\ walk (length es) (Iter.SeekToFirst it) = es
    /\ forall target, walk (length es) (Iter.Seek it target) = filter (fun e => sle target e.1 = true) es.
Proof.
  intros Hso Hw. pose proof (New_Builds interval true) as HB.
  assert (H0 : BlockBuilder.CurrentSizeEstimate (BlockBuilder.New interval true) = 8) by done.
  destruct (AddAll_Builds es _ [] HB Hso ltac:(lia)) as (b & Eb & HB' & Hs).
  destruct (Finish_Builds compression force b es HB') as (data & contents & b' & Ef & Hok & _ & Hfin); [lia|].
  destruct (NewIterator_At _ _ Hok) as (it & Ei & Hat). exists b, contents, b', data, it.
  split; [done|]. split; [done|]. split.
  { destruct Hfin as (_ & _ & _ & _ & _ & _ & [[-> Hc]|(_ & Hc & Hu)]); [left|by right]. split; [|done].
    rewrite Hc. by rewrite (AddAll_compression _ _ _ Eb). }
  split; [done|]. split; [by eapply walk_At; [by eapply SeekToFirst_At|]|]. intros target.
  rewrite <- skip_less_filter by done. eapply walk_At; [by eapply Seek_At|].
  rewrite skip_less_filter by done. apply length_filter.
Qed.

(** A compressor that only knows how to leave out 32 zeros at the end. *)
Module ZeroSnappy.

Definition zeros : bytes := replicate 32 0.
Definition pack (s : bytes) : bytes :=
  if bool_decide (drop (length s - 32) s = zeros) then 1 :: take (length s - 32) s else 0 :: s.
Definition compress (s : bytes) : option bytes := Some (pack s).
Definition uncompress (c : bytes) : option bytes :=
  match c with 0 :: s => Some s | 1 :: s => Some (s ++ zeros) | _ => None end.

#[refine, export] Instance zero_snappy : Snappy := {| Snappy_Compress := compress; Snappy_Uncompress := uncompress |}.
Proof.
  1: intros s c Hs [= <-]. 2,3: intros s c [= <-].
  all: unfold pack; destruct (bool_decide (drop (length s - 32) s = zeros)) eqn:E.
  - constructor; [done|]. by apply Forall_take.
  - by constructor.
  - apply bool_decide_eq_true in E. unfold uncompress. by rewrite <- E, take_drop.
  - done.
  - rewrite zlen_cons. unfold zlen. rewrite length_take. pose proof (Z.div_pos (Z.of_nat (length s)) 6). lia.
  - rewrite zlen_cons. pose proof (zlen_nonneg s). pose proof (Z.div_pos (zlen s) 6). lia.
Defined.

Definition demo : list entry := [([97; 98], [1]); ([97; 98; 99], [2; 3]); ([98], replicate 40 0)].

Lemma demo_sorted : sorted demo.
Proof. repeat constructor. Qed.

Lemma sst_block_round_witness :
  exists b contents b' data it,
    AddAll demo (BlockBuilder.New 2 true) = Some b
    /\ BlockBuilder.Finish kSnappyCompression false b = Some (contents, b')
    /\ (compression_ (buf b') = kNoCompression /\ contents = data
        \/ compression_ (buf b') = kSnappyCompression /\ Snappy_Uncompress contents = Some data)
    /\ Block.NewIterator data = inr it
    /\ walk 3 (Iter.SeekToFirst it) = demo
    /\ forall target, walk 3 (Iter.Seek it target) = filter (fun e => sle target e.1 = true) demo.
Proof. apply (sst_block_round 2 kSnappyCompression false demo); [exact demo_sorted|reflexivity]. Defined.

End ZeroSnappy.
