(* ===== verification/FsTypes.v ===== *)
(** * File system records and their encodings

    [DirId] and [Key] (external/pdlfs-common: fsdbbase.h, fsdbbase.cc), [Stat]
    and [LookupStat] (fstypes.h, fstypes.cc) and [DirInfo]
    (src/libdeltafs/util/dcntl.h, dcntl.cc), as compiled with [-DDELTAFS].

    The record fields are unsigned integers of the width the class declares;
    the predicates [*_wf] state those widths. *)
From S2P Require Import Prelude Coding.

(** ** Directory ids *)

Record DirId := mkDirId { reg : Z; snap : Z; ino : Z }.

#[export] Instance DirId_eq_dec : EqDecision DirId.
Proof. solve_decision. Defined.
#[export, refine] Instance DirId_countable : Countable DirId :=
  inj_countable' (fun d => (reg d, snap d, ino d))
                 (fun '(r, s, i) => mkDirId r s i) _.
Proof. by intros []. Defined.

Definition DirId_wf (id : DirId) : Prop :=
  is_u64 (reg id) /\ is_u64 (snap id) /\ is_u64 (ino id).

(** [MDS::EncodeId], [EncodeDirId] and [PutDirId]. *)
Definition EncodeId (id : DirId) : bytes :=
  EncodeVarint64 (reg id) ++ EncodeVarint64 (snap id) ++ EncodeVarint64 (ino id).

Definition GetDirId (input : bytes) : option (DirId * bytes) :=
  let? (r, input) := GetVarint64 input in
  let? (s, input) := GetVarint64 input in
  let? (i, input) := GetVarint64 input in
  Some (mkDirId r s i, input).

Lemma GetDirId_range input id rest : GetDirId input = Some (id, rest) -> DirId_wf id.
Proof.
  unfold GetDirId. destruct (GetVarint64 input) as [[r i1]|] eqn:E1; [|done].
  destruct (GetVarint64 i1) as [[s i2]|] eqn:E2; [|done].
  destruct (GetVarint64 i2) as [[i i3]|] eqn:E3; [|done]. intros [= <- _].
  split_and!; by eapply GetVarint64_range.
Qed.

(** [DirId::compare], with [compare64]. *)
Definition compare64 (a b : Z) : Z := if a <? b then -1 else if b <? a then 1 else 0.
Definition DirId_compare (a b : DirId) : Z :=
  let r := compare64 (reg a) (reg b) in
  if negb (r =? 0) then r else
  let r := compare64 (snap a) (snap b) in
  if negb (r =? 0) then r else compare64 (ino a) (ino b).

(** ** Inodes *)

Record Stat := mkStat {
  RegId : Z; SnapId : Z; InodeNo : Z; FileSize : Z; FileMode : Z;
  ZerothServer : Z; UserId : Z; GroupId : Z; ModifyTime : Z; ChangeTime : Z }.

#[export] Instance Stat_eq_dec : EqDecision Stat.
Proof. solve_decision. Defined.

Definition Stat_wf (s : Stat) : Prop :=
  is_u64 (RegId s) /\ is_u64 (SnapId s) /\ is_u64 (InodeNo s) /\
  is_u64 (FileSize s) /\ is_u32 (FileMode s) /\ is_u32 (ZerothServer s) /\
  is_u32 (UserId s) /\ is_u32 (GroupId s) /\ is_u64 (ModifyTime s) /\
  is_u64 (ChangeTime s).

Definition Stat_EncodeTo (s : Stat) : bytes :=
  EncodeVarint64 (RegId s) ++ EncodeVarint64 (SnapId s) ++
  EncodeVarint64 (InodeNo s) ++ EncodeVarint64 (FileSize s) ++
  EncodeVarint32 (FileMode s) ++ EncodeVarint32 (ZerothServer s) ++
  EncodeVarint32 (UserId s) ++ EncodeVarint32 (GroupId s) ++
  EncodeVarint64 (ModifyTime s) ++ EncodeVarint64 (ChangeTime s).

Definition Stat_DecodeFrom (input : bytes) : option (Stat * bytes) :=
  let? (r, input) := GetVarint64 input in
  let? (sn, input) := GetVarint64 input in
  let? (i, input) := GetVarint64 input in
  let? (size, input) := GetVarint64 input in
  let? (mode, input) := GetVarint32 input in
  let? (zeroth_server, input) := GetVarint32 input in
  let? (uid, input) := GetVarint32 input in
  let? (gid, input) := GetVarint32 input in
  let? (mtime, input) := GetVarint64 input in
  let? (ctime, input) := GetVarint64 input in
  Some (mkStat r sn i size mode zeroth_server uid gid mtime ctime, input).

Record LookupStat := mkLookupStat {
  L_RegId : Z; L_SnapId : Z; L_InodeNo : Z; L_ZerothServer : Z; L_DirMode : Z;
  L_UserId : Z; L_GroupId : Z; LeaseDue : Z }.

#[export] Instance LookupStat_eq_dec : EqDecision LookupStat.
Proof. solve_decision. Defined.

Definition LookupStat_wf (s : LookupStat) : Prop :=
  is_u64 (L_RegId s) /\ is_u64 (L_SnapId s) /\ is_u64 (L_InodeNo s) /\
  is_u32 (L_ZerothServer s) /\ is_u32 (L_DirMode s) /\ is_u32 (L_UserId s) /\
  is_u32 (L_GroupId s) /\ is_u64 (LeaseDue s).

Definition LookupStat_EncodeTo (s : LookupStat) : bytes :=
  EncodeVarint64 (L_RegId s) ++ EncodeVarint64 (L_SnapId s) ++
  EncodeVarint64 (L_InodeNo s) ++ EncodeVarint32 (L_ZerothServer s) ++
  EncodeVarint32 (L_DirMode s) ++ EncodeVarint32 (L_UserId s) ++
  EncodeVarint32 (L_GroupId s) ++ EncodeVarint64 (LeaseDue s).

Definition LookupStat_DecodeFrom (input : bytes) : option (LookupStat * bytes) :=
  let? (r, input) := GetVarint64 input in
  let? (sn, input) := GetVarint64 input in
  let? (i, input) := GetVarint64 input in
  let? (zeroth_server, input) := GetVarint32 input in
  let? (mode, input) := GetVarint32 input in
  let? (uid, input) := GetVarint32 input in
  let? (gid, input) := GetVarint32 input in
  let? (lease_due, input) := GetVarint64 input in
  Some (mkLookupStat r sn i zeroth_server mode uid gid lease_due, input).

(** [LookupStat::CopyFrom]: every field but the lease due date. *)
Definition LookupStat_CopyFrom (self : LookupStat) (stat : Stat) : LookupStat :=
  mkLookupStat (RegId stat) (SnapId stat) (InodeNo stat) (ZerothServer stat)
    (FileMode stat) (UserId stat) (GroupId stat) (LeaseDue self).

(** ** Directory partition metadata *)

Record DirInfo := mkDirInfo { mtime : Z; size : Z }.

#[export] Instance DirInfo_eq_dec : EqDecision DirInfo.
Proof. solve_decision. Defined.

(** [size] is an [int]. *)
Definition DirInfo_wf (i : DirInfo) : Prop :=
  is_u64 (mtime i) /\ -2 ^ 31 <= size i < 2 ^ 31.

Definition DirInfo_EncodeTo (i : DirInfo) : bytes :=
  EncodeVarint64 (mtime i) ++ EncodeVarint32 (u32 (size i)).

Definition DirInfo_DecodeFrom (input : bytes) : option (DirInfo * bytes) :=
  let? (tmp64, input) := GetVarint64 input in
  let? (tmp32, input) := GetVarint32 input in
  Some (mkDirInfo tmp64 (s32 tmp32), input).

(** ** Open file entries (external/pdlfs-common: fio.h, fio.cc) *)

(** [zserver] is an [int]. *)
Record Fentry := mkFentry { fe_stat : Stat; fe_nhash : bytes; fe_pid : DirId; fe_zserver : Z }.

#[export] Instance Fentry_eq_dec : EqDecision Fentry.
Proof. solve_decision. Defined.

(** [DirId(stat)] *)
Definition stat_id (s : Stat) : DirId := mkDirId (RegId s) (SnapId s) (InodeNo s).

Definition Fentry_wf (e : Fentry) : Prop :=
  Stat_wf (fe_stat e) /\ is_u32 (zlen (fe_nhash e)) /\ DirId_wf (fe_pid e) /\
  -2 ^ 31 <= fe_zserver e < 2 ^ 31.

Definition Fentry_EncodeTo (e : Fentry) : bytes :=
  let s := fe_stat e in
  EncodeId (fe_pid e) ++ PutLengthPrefixedSlice (fe_nhash e) ++
  EncodeVarint32 (u32 (fe_zserver e)) ++ EncodeId (stat_id s) ++
  EncodeVarint64 (FileSize s) ++ EncodeVarint32 (FileMode s) ++ EncodeVarint32 (UserId s) ++
  EncodeVarint32 (GroupId s) ++ EncodeVarint32 (ZerothServer s) ++
  EncodeVarint64 (ChangeTime s) ++ EncodeVarint64 (ModifyTime s).

Definition Fentry_DecodeFrom (input : bytes) : option (Fentry * bytes) :=
  let? (parent_id, input) := GetDirId input in
  let? (my_nhash, input) := GetLengthPrefixedSlice input in
  let? (parent_zserver, input) := GetVarint32 input in
  let? (my_id, input) := GetDirId input in
  let? (size, input) := GetVarint64 input in
  let? (mode, input) := GetVarint32 input in
  let? (uid, input) := GetVarint32 input in
  let? (gid, input) := GetVarint32 input in
  let? (my_zserver, input) := GetVarint32 input in
  let? (ctime, input) := GetVarint64 input in
  let? (mtime, input) := GetVarint64 input in
  Some (mkFentry (mkStat (reg my_id) (snap my_id) (ino my_id) size mode my_zserver uid gid
                    mtime ctime) my_nhash parent_id (s32 parent_zserver), input).

(** ** Keys of the metadata store *)

Inductive KeyType := kDirEntType | kDirIdxType | kDirMetaType.

#[export] Instance KeyType_eq_dec : EqDecision KeyType.
Proof. solve_decision. Defined.

Definition KeyType_code (t : KeyType) : Z :=
  match t with kDirEntType => 1 | kDirIdxType => 2 | kDirMetaType => 3 end.

(** [PackPrefix]: what [Key::prefix()] returns. *)
Definition PackPrefix (id : DirId) (t : KeyType) : bytes :=
  EncodeVarint64 (reg id) ++ EncodeVarint64 (snap id) ++
  EncodeVarint64 (ino id) ++ [KeyType_code t].

(** A [Key] is an array of 50 bytes and a size.  The constructor packs the prefix
    and counts 8 more bytes, which [SetHash] fills in; it asserts that the hash has
    8 bytes ([None]). *)
Record KeyBuf := mkKeyBuf { rep_ : bytes; size_ : nat }.

Definition Key_new (uninitialized : bytes) (id : DirId) (t : KeyType) : KeyBuf :=
  let p := PackPrefix id t in mkKeyBuf (p ++ drop (length p) uninitialized) (length p + 8).

Definition Key_SetHash (hash : bytes) (k : KeyBuf) : option KeyBuf :=
  if zlen hash =? 8 then
    let at_ := (size_ k - 8)%nat in
    Some (mkKeyBuf (take at_ (rep_ k) ++ hash ++ drop (at_ + length hash) (rep_ k)) (size_ k))
  else None.

Definition Key_slice (k : KeyBuf) : bytes := take (size_ k) (rep_ k).

(** [Key(id, type)] followed by [SetSuffix(hash)] and [Encode], for the 8-byte
    hashes [Key::SetHash] asserts: see [Key_SetHash_Encode]. *)
Definition Key_Encode (id : DirId) (t : KeyType) (hash : bytes) : bytes :=
  PackPrefix id t ++ hash.

(** [Key::reg_id], [Key::snap_id], [Key::inode] and [Key::type]: the fields
    parsed back from the encoding, and the bytes after them. *)
Definition Key_Decode (key : bytes) : option (DirId * Z * bytes) :=
  let? (id, input) := GetDirId key in
  match input with
  | t :: suffix => Some (id, t, suffix)
  | [] => None
  end.

(** ** Round trips *)

Ltac wf_split := repeat match goal with H : _ /\ _ |- _ => destruct H end.

Lemma GetDirId_encode id rest :
  DirId_wf id -> GetDirId (EncodeId id ++ rest) = Some (id, rest).
Proof.
  intros (? & ? & ?). unfold GetDirId, EncodeId. codec_step. by destruct id.
Qed.
#[export] Hint Rewrite GetDirId_encode using assumption : codec.

Lemma Stat_DecodeFrom_encode s rest :
  Stat_wf s -> Stat_DecodeFrom (Stat_EncodeTo s ++ rest) = Some (s, rest).
Proof.
  unfold Stat_wf. intros Hwf. wf_split. unfold Stat_DecodeFrom, Stat_EncodeTo.
  codec_step. by destruct s.
Qed.
#[export] Hint Rewrite Stat_DecodeFrom_encode using assumption : codec.

Lemma LookupStat_DecodeFrom_encode s rest :
  LookupStat_wf s -> LookupStat_DecodeFrom (LookupStat_EncodeTo s ++ rest) = Some (s, rest).
Proof.
  unfold LookupStat_wf. intros Hwf. wf_split.
  unfold LookupStat_DecodeFrom, LookupStat_EncodeTo. codec_step. by destruct s.
Qed.
#[export] Hint Rewrite LookupStat_DecodeFrom_encode using assumption : codec.

Lemma s32_u32 z : s32 (u32 z) = s32 z.
Proof. unfold s32, u32. by rewrite Zplus_mod_idemp_l. Qed.

Lemma DirInfo_DecodeFrom_encode i rest :
  DirInfo_wf i -> DirInfo_DecodeFrom (DirInfo_EncodeTo i ++ rest) = Some (i, rest).
Proof.
  intros [Hm Hs]. unfold DirInfo_DecodeFrom, DirInfo_EncodeTo.
  pose proof (u32_range (size i)). codec_step. rewrite s32_u32, s32_small by done. by destruct i.
Qed.
#[export] Hint Rewrite DirInfo_DecodeFrom_encode using assumption : codec.

Lemma Fentry_DecodeFrom_encode e rest :
  Fentry_wf e -> Fentry_DecodeFrom (Fentry_EncodeTo e ++ rest) = Some (e, rest).
Proof.
  destruct e as [s h pid zs]. unfold Fentry_wf, Stat_wf. cbn. intros Hwf. wf_split.
  pose proof (u32_range zs). unfold Fentry_DecodeFrom, Fentry_EncodeTo. cbn.
  assert (DirId_wf (stat_id s)) by done.
  codec_step. rewrite s32_u32, s32_small by lia. by destruct s.
Qed.

#[export, refine] Instance DirId_codec : Codec DirId :=
  {| enc := EncodeId; dec := GetDirId; enc_wf := DirId_wf |}.
Proof.
  - intros. unfold EncodeId. rewrite !bytes_ok_app. auto using EncodeVarint64_ok.
  - apply GetDirId_encode.
Defined.

#[export, refine] Instance Stat_codec : Codec Stat :=
  {| enc := Stat_EncodeTo; dec := Stat_DecodeFrom; enc_wf := Stat_wf |}.
Proof.
  - unfold Stat_wf. intros s Hwf. wf_split. unfold Stat_EncodeTo. rewrite !bytes_ok_app.
    repeat split; auto using EncodeVarint64_ok, EncodeVarint32_ok.
  - apply Stat_DecodeFrom_encode.
Defined.

(** ** Buffer bounds: the encodings fit the arrays the code reserves *)

(** Replace the length of each varint by a number under its bound. *)
Ltac varint_bounds :=
  autorewrite with zlen;
  repeat match goal with
  | |- context [zlen (EncodeVarint64 ?v)] =>
      pose proof (length_EncodeVarint64 v);
      generalize dependent (zlen (EncodeVarint64 v)); intros
  | |- context [zlen (EncodeVarint32 ?v)] =>
      pose proof (length_EncodeVarint32 v);
      generalize dependent (zlen (EncodeVarint32 v)); intros
  end; lia.

Lemma EncodeId_size id : zlen (EncodeId id) <= 30.
Proof. unfold EncodeId. varint_bounds. Qed.

(** [DELTAFS_FENTRY_BUFSIZE] is 200. *)
Lemma Fentry_EncodeTo_size e : zlen (fe_nhash e) <= 75 -> zlen (Fentry_EncodeTo e) <= 200.
Proof.
  intros. unfold Fentry_EncodeTo, PutLengthPrefixedSlice.
  pose proof (EncodeId_size (fe_pid e)). pose proof (EncodeId_size (stat_id (fe_stat e))).
  varint_bounds.
Qed.

Lemma Stat_EncodeTo_size s : zlen (Stat_EncodeTo s) <= 80.
Proof. unfold Stat_EncodeTo. varint_bounds. Qed.

Lemma LookupStat_EncodeTo_size s : zlen (LookupStat_EncodeTo s) <= 60.
Proof. unfold LookupStat_EncodeTo. varint_bounds. Qed.

Lemma DirInfo_EncodeTo_size i : zlen (DirInfo_EncodeTo i) <= 20.
Proof. unfold DirInfo_EncodeTo. varint_bounds. Qed.

Lemma PackPrefix_size id t : zlen (PackPrefix id t) <= 31.
Proof. unfold PackPrefix. varint_bounds. Qed.

(** ** Keys identify what they name *)

Lemma PackPrefix_EncodeId id t : PackPrefix id t = EncodeId id ++ [KeyType_code t].
Proof. unfold PackPrefix, EncodeId. by rewrite <- !app_assoc. Qed.

Lemma KeyType_code_inj t t' : KeyType_code t = KeyType_code t' -> t = t'.
Proof. by destruct t, t'. Qed.

Lemma Key_Decode_encode id t hash :
  DirId_wf id -> Key_Decode (Key_Encode id t hash) = Some (id, KeyType_code t, hash).
Proof.
  intros. unfold Key_Decode, Key_Encode. rewrite PackPrefix_EncodeId, <- app_assoc.
  rewrite GetDirId_encode by done. done.
Qed.

(** Two keys are equal only if they name the same directory, the same kind of
    record and the same entry. *)
Lemma Key_Encode_inj id t h id' t' h' :
  DirId_wf id -> DirId_wf id' ->
  Key_Encode id t h = Key_Encode id' t' h' -> id = id' /\ t = t' /\ h = h'.
Proof.
  intros Hw Hw' E. pose proof (Key_Decode_encode id t h Hw) as D.
  rewrite E, Key_Decode_encode in D by done. simplify_eq.
  split_and!; [done| |done]. by apply KeyType_code_inj.
Qed.

(** The entries of a directory are the keys that start with its prefix. *)
Lemma PackPrefix_prefix id t id' t' h' :
  DirId_wf id -> DirId_wf id' ->
  PackPrefix id t `prefix_of` Key_Encode id' t' h' <-> id = id' /\ t = t'.
Proof.
  intros Hw Hw'. split.
  - intros [k E]. symmetry in E.
    by apply (Key_Encode_inj id t k id' t' h') in E as (-> & -> & _).
  - intros [-> ->]. apply prefix_app_r. done.
Qed.

(** The array has room for every prefix and hash, and holds the encoding; other
    hashes fail the assertion. *)
Lemma Key_SetHash_Encode junk id t hash : length junk = 50%nat ->
  Key_slice <$> Key_SetHash hash (Key_new junk id t) = (if zlen hash =? 8 then Some (Key_Encode id t hash) else None)
  /\ (size_ (Key_new junk id t) <= 50 /\ length (rep_ (Key_new junk id t)) = 50)%nat.
Proof.
  intros Hj. pose proof (PackPrefix_size id t) as Hp. unfold zlen in Hp. unfold Key_SetHash, Key_new, Key_slice, Key_Encode, zlen. split.
  - destruct (Z.eqb_spec (Z.of_nat (length hash)) 8) as [Hh|]; [|done]. cbn. f_equal.
    replace (length (PackPrefix id t) + 8 - 8)%nat with (length (PackPrefix id t)) by lia.
    rewrite take_app_length, take_app_ge by lia. f_equal. replace (_ + 8 - _)%nat with (length hash) by lia. apply take_app_length.
  - cbn [size_ rep_]. rewrite length_app, length_drop. lia.
Qed.

Lemma PackPrefix_key id t : PackPrefix id t = Key_Encode id t [].
Proof. unfold Key_Encode. by rewrite app_nil_r. Qed.
