(* ===== verification/Gigaplus.v ===== *)
(** * GIGA+ directory indices (external/pdlfs-common: src/gigaplus.cc, gigaplus.h)

    A directory is split into up to [2^16] partitions; the index is a bitmap
    of the partitions that exist plus the server of partition 0.  A file name
    hash is routed to the deepest existing partition on its path.

    [Rep] is the in-memory representation: the two header fields and the
    bitmap buffer (its length is [bitmap_capacity_]).  [DirIndex] pairs the
    options with the representation pointer ([None] is [rep_ == NULL]).
    Numeric [int]s are [Z].  The [assert]s of the source are hypotheses of the
    lemmas below, not part of the definitions, except where a definition says
    otherwise. *)
From S2P Require Import Prelude Coding.

(** ** Constants and helpers *)

Definition kMaxRadix : Z := 16.
Definition kMaxPartitions : Z := Z.shiftl 1 kMaxRadix.

(** [floor(log2(value))], exact for the positive [int]s it is applied to. *)
Definition ToLog2 (value : Z) : Z := Z.log2 value.

Definition kBits (off : Z) : Z := Z.shiftl 1 off.

(** Bit reversal of a byte with 64-bit multiplications. *)
Definition Reverse (byte : Z) : Z :=
  u8 (Z.shiftr (u64 (Z.land (u64 (byte * 0x80200802)) 0x0884422110 * 0x0101010101)) 32).

Definition ToRadix (index : Z) : Z := if index =? 0 then 0 else 1 + ToLog2 index.
Definition ToChildIndex (index radix : Z) : Z := index + Z.shiftl 1 radix.
Definition ToParentIndex (index : Z) : Z :=
  if index =? 0 then 0 else index - Z.shiftl 1 (ToLog2 index).

(** A byte of a buffer at a [size_t] offset (within the buffer in every
    execution the assertions allow). *)
Definition byte_at (bs : bytes) (i : Z) : Z := nth (Z.to_nat i) bs 0.

Definition ComputeIndexFromHash (hash : bytes) (n : Z) : Z :=
  let nbytes := n / 8 in
  let result :=
    fold_left (fun result idx => result + Z.shiftl (Reverse (byte_at hash idx)) (idx * 8))
      (seqZ 0 nbytes) 0 in
  let nbits := n mod 8 in
  if 0 <? nbits
  then result + Z.shiftl (Z.land (Reverse (byte_at hash nbytes)) (Z.shiftl 1 nbits - 1))
                  (nbytes * 8)
  else result.

(** ** Options *)

Record DirIndexOptions := mkGiga {
  num_servers : Z; num_virtual_servers : Z; paranoid_checks : bool }.

(** ** Bit tests shared by [Rep] and [View] *)

Definition test_bit (bitmap : bytes) (index : Z) : bool :=
  negb (Z.land (byte_at bitmap (index / 8)) (kBits (index mod 8)) =? 0).

(** The two loops of [HighestBit]: the last non-zero byte below [S i], then
    its most significant bit at or below [off]. *)
Fixpoint last_byte (bitmap : bytes) (i : nat) : nat :=
  if nth i bitmap 0 =? 0 then match i with O => O | S i => last_byte bitmap i end else i.
Fixpoint top_bit (byte : Z) (off : nat) : nat :=
  if Z.land byte (kBits (Z.of_nat off)) =? 0
  then match off with O => O | S off => top_bit byte off end else off.
Definition highest_bit (bitmap : bytes) (bitmap_size : Z) : Z :=
  let i := last_byte bitmap (Z.to_nat (bitmap_size - 1)) in
  let off := top_bit (nth i bitmap 0) 7 in
  Z.of_nat off + Z.of_nat i * 8.

(** ** Views: encoded indices *)

Record View := mkView { v_zeroth_server : Z; v_radix : Z; v_bitmap : bytes }.

Definition View_bit (v : View) (index : Z) : bool :=
  if (index =? 0) && bool_decide (v_bitmap v = []) then true
  else if index <? zlen (v_bitmap v) * 8 then test_bit (v_bitmap v) index
  else false.

Definition View_byte (v : View) (index : Z) : Z :=
  if (index =? 0) && bool_decide (v_bitmap v = []) then kBits 0
  else if index <? zlen (v_bitmap v) then byte_at (v_bitmap v) index
  else 0.

Definition View_HighestBit (v : View) : Z :=
  if bool_decide (v_bitmap v = []) then 0
  else highest_bit (v_bitmap v) (zlen (v_bitmap v)).

Definition kHeadSize : Z := 4.

(** [ParseDirIndex].  The shift [1 << r] is on [int]: for an encoded radix of
    31 or more it is undefined in C++; the model computes the mathematical
    value, which rejects such an input. *)
Definition ParseDirIndex (input : bytes) (paranoid : bool) : option View :=
  if zlen input <? kHeadSize then None
  else
    let view := mkView (DecodeFixed16 input) (DecodeFixed16 (drop 2 input)) (drop 4 input) in
    let r := v_radix view in
    let bitmap_size := zlen input - kHeadSize in
    if bitmap_size <? (Z.shiftl 1 r + 7) / 8 then None
    else if negb (View_bit view 0) then None
    else if paranoid && negb (r =? ToRadix (View_HighestBit view)) then None
    else Some view.

(** ** In-memory representation *)

Record Rep := mkRep { zeroth_server : Z; radix : Z; bitmap : bytes }.

Definition bitmap_size (r : Rep) : Z := (Z.shiftl 1 (radix r) + 7) / 8.
Definition bitmap_capacity (r : Rep) : Z := zlen (bitmap r).

Definition ToSlice (r : Rep) : bytes :=
  EncodeFixed16 (zeroth_server r) ++ EncodeFixed16 (radix r) ++
  take (Z.to_nat (bitmap_size r)) (bitmap r).

Definition bit (r : Rep) (index : Z) : bool :=
  if index <? bitmap_size r * 8 then test_bit (bitmap r) index else false.

Definition rep_byte (r : Rep) (index : Z) : Z :=
  if index <? bitmap_size r then byte_at (bitmap r) index else 0.

Definition HighestBit (r : Rep) : Z := highest_bit (bitmap r) (bitmap_size r).

Definition SetRadix (r : Rep) (x : Z) : Rep := mkRep (zeroth_server r) (u16 x) (bitmap r).
Definition set_bitmap (r : Rep) (bm : bytes) : Rep := mkRep (zeroth_server r) (radix r) bm.

(** [ScaleUp]: a zero-filled buffer [factor] times as large. *)
Definition ScaleUp (r : Rep) (factor : Z) : Rep :=
  if 1 <? factor
  then set_bitmap r (bitmap r ++ replicate (Z.to_nat (bitmap_capacity r * factor - bitmap_capacity r)) 0)
  else r.

(** The doubling loop of [ScaleToSize]; a non-empty buffer reaches any
    capacity below [2^63] within 64 doublings. *)
Fixpoint ScaleToSize_loop (fuel : nat) (current_capacity capacity factor : Z) : Z :=
  match fuel with
  | O => factor
  | S fuel =>
      if current_capacity <? capacity
      then ScaleToSize_loop fuel (Z.shiftl current_capacity 1) capacity (Z.shiftl factor 1)
      else factor
  end.
Definition ScaleToSize (r : Rep) (capacity : Z) : Rep :=
  ScaleUp r (ScaleToSize_loop 64 (bitmap_capacity r) capacity 1).

Definition set_bit (bm : bytes) (index : Z) : bytes :=
  <[Z.to_nat (index / 8) := Z.lor (byte_at bm (index / 8)) (kBits (index mod 8))]> bm.
Definition clear_bit (bm : bytes) (index : Z) : bytes :=
  <[Z.to_nat (index / 8) :=
      Z.land (byte_at bm (index / 8)) (Z.lnot (kBits (index mod 8)))]> bm.

Definition TurnOffBit (r : Rep) (index : Z) : Rep :=
  if index <? bitmap_size r * 8 then
    let r := set_bitmap r (clear_bit (bitmap r) index) in
    if radix r =? ToRadix index then SetRadix r (ToRadix (HighestBit r)) else r
  else r.

Definition TurnOnBit (r : Rep) (index : Z) : Rep :=
  let r := if bitmap_capacity r * 8 <=? index then ScaleUp r 2 else r in
  let x := ToRadix index in
  let r := if radix r <? x then SetRadix r x else r in
  set_bitmap r (set_bit (bitmap r) index).

(** [DoMerge]: [other] gives its bitmap size, its radix and its bytes. *)
Definition DoMerge (r : Rep) (other_size other_radix : Z) (other_byte : Z -> Z) : Rep :=
  let new_capacity := Z.max (bitmap_size r) other_size in
  let r := ScaleToSize r new_capacity in
  let r := SetRadix r (Z.max (radix r) other_radix) in
  set_bitmap r
    (imap (fun i b => if Z.of_nat i <? new_capacity then Z.lor b (other_byte (Z.of_nat i)) else b)
       (bitmap r)).

Definition MergeView (r : Rep) (v : View) : Rep :=
  DoMerge r (zlen (v_bitmap v)) (v_radix v) (View_byte v).
Definition MergeRep (r other : Rep) : Rep :=
  DoMerge r (bitmap_size other) (radix other) (rep_byte other).

(** The assertions of a merge: those of [Reset], [byte], [DoMerge] and [Merge]
    on the buffer, the sizes and the radix of the result. *)
Definition DoMerge_assert (r : Rep) (other_size other_radix : Z) (other_byte : Z -> Z) : bool :=
  let new_capacity := Z.max (bitmap_size r) other_size in
  let r' := DoMerge r other_size other_radix other_byte in
  (bitmap_capacity r' <=? kMaxPartitions / 8) && (new_capacity <=? kMaxPartitions / 8) &&
  (bitmap_size r' <=? new_capacity) && (radix r' =? ToRadix (HighestBit r')).
Definition MergeView_assert (r : Rep) (v : View) : bool :=
  DoMerge_assert r (zlen (v_bitmap v)) (v_radix v) (View_byte v).
Definition MergeRep_assert (r other : Rep) : bool :=
  DoMerge_assert r (bitmap_size other) (radix other) (rep_byte other).

(** [Rep::Rep]: [(1 << 7) / 8 = 16] zero bytes with bit 0 turned on. *)
Definition kInitBitmapCapacity : Z := Z.shiftl 1 7 / 8.
Definition NewRep (zserver : Z) : Rep :=
  TurnOnBit (mkRep (u16 zserver) 0 (replicate (Z.to_nat kInitBitmapCapacity) 0)) 0.

(** ** Directory indices *)

Record DirIndex := mkDirIndex { options : DirIndexOptions; rep : option Rep }.

(** [DirIndex(zserver, options)] and [DirIndex(options)]. *)
Definition DirIndex_new (zserver : Z) (o : DirIndexOptions) : DirIndex :=
  mkDirIndex o (Some (NewRep zserver)).
Definition DirIndex_empty (o : DirIndexOptions) : DirIndex := mkDirIndex o None.

Definition Encode (r : Rep) : bytes := ToSlice r.

Definition TEST_Reset (d : DirIndex) (other : bytes) : option DirIndex :=
  let? view := ParseDirIndex other (paranoid_checks (options d)) in
  Some (mkDirIndex (options d) (Some (MergeView (NewRep (v_zeroth_server view)) view))).

(** [DirIndex::Update(const Slice&)]; [None] is [false]. *)
Definition Update (d : DirIndex) (other : bytes) : option DirIndex :=
  match rep d with
  | None => TEST_Reset d other
  | Some r =>
      let? view := ParseDirIndex other (paranoid_checks (options d)) in
      if negb (zeroth_server r =? v_zeroth_server view) then None
      else Some (mkDirIndex (options d) (Some (MergeView r view)))
  end.

(** Its assertions: those of the merge, if it gets that far. *)
Definition Update_assert (d : DirIndex) (other : bytes) : bool :=
  match ParseDirIndex other (paranoid_checks (options d)) with
  | None => true
  | Some view =>
      match rep d with
      | None => MergeView_assert (NewRep (v_zeroth_server view)) view
      | Some r => if negb (zeroth_server r =? v_zeroth_server view) then true
                  else MergeView_assert r view
      end
  end.

(** [DirIndex::Update(const DirIndex&)] *)
Definition UpdateIndex (d : DirIndex) (other : Rep) : DirIndex :=
  match rep d with
  | None => mkDirIndex (options d) (Some (MergeRep (NewRep (zeroth_server other)) other))
  | Some r => mkDirIndex (options d) (Some (MergeRep r other))
  end.

(** [DirIndex::SetAll] *)
Definition SetAll (o : DirIndexOptions) (r : Rep) : Rep :=
  fold_left TurnOnBit (seqZ 0 (num_virtual_servers o))
    (ScaleToSize r (num_virtual_servers o)).

(** [DirIndex::TEST_RevertAll] *)
Definition RevertAll (r : Rep) : Rep :=
  fold_left TurnOffBit (rev (seqZ 1 (HighestBit r))) r.

(** [DirIndex::IsSplittable]: at most [kMaxRadix] iterations. *)
Fixpoint IsSplittable_loop (fuel : nat) (o : DirIndexOptions) (r : Rep) (index x : Z) : bool :=
  match fuel with
  | O => false
  | S fuel =>
      if x <? kMaxRadix then
        let i := ToChildIndex index x in
        if negb (bit r i) then i <? num_virtual_servers o
        else IsSplittable_loop fuel o r index (x + 1)
      else false
  end.
Definition IsSplittable (o : DirIndexOptions) (r : Rep) (index : Z) : bool :=
  if negb (bit r index) then false
  else IsSplittable_loop 17 o r index (ToRadix index).

(** [DirIndex::NewIndexForSplitting] *)
Fixpoint NewIndex_loop (fuel : nat) (r : Rep) (index i x : Z) : Z :=
  match fuel with
  | O => i
  | S fuel =>
      if bit r i then NewIndex_loop fuel r index (ToChildIndex index x) (x + 1) else i
  end.
Definition NewIndexForSplitting (r : Rep) (index : Z) : Z :=
  NewIndex_loop 18 r index index (ToRadix index).

(** [DirIndex::HashToIndex]: the walk up to an existing partition. *)
Fixpoint HashToIndex_loop (fuel : nat) (r : Rep) (i : Z) : Z :=
  match fuel with
  | O => i
  | S fuel => if negb (bit r i) then HashToIndex_loop fuel r (ToParentIndex i) else i
  end.
Definition HashToIndex (r : Rep) (hash : bytes) : Z :=
  HashToIndex_loop 16 r (ComputeIndexFromHash hash (radix r)).

(** The assertions of [HashToIndex], [rep_->bit(0)] and
    [i < options_->num_virtual_servers], and the one of [ComputeIndexFromHash] on
    the radix. *)
Definition HashToIndex_assert (o : DirIndexOptions) (r : Rep) (hash : bytes) : bool :=
  bit r 0 && (radix r <=? kMaxRadix) &&
  (ComputeIndexFromHash hash (radix r) <? num_virtual_servers o).

Definition MapIndexToServer (index zeroth num : Z) : Z := Z.rem (index + zeroth) num.
Definition GetServerForIndex (o : DirIndexOptions) (r : Rep) (index : Z) : Z :=
  MapIndexToServer index (zeroth_server r) (num_servers o).
Definition HashToServer (o : DirIndexOptions) (r : Rep) (hash : bytes) : Z :=
  GetServerForIndex o r (HashToIndex r hash).

Definition ToBeMigrated (index : Z) (hash : bytes) : bool :=
  ComputeIndexFromHash hash (ToRadix index) =? index.

(** ** Name and directory hashes

    XXHash is a third-party library; nothing below depends on its values. *)
Class XXHash := { xxhash32 : bytes -> Z -> Z; xxhash64 : bytes -> Z -> Z }.

(** [GIGAHash] / [DirIndex::PutHash]: the 8 bytes of a [uint64_t] on a
    little-endian host. *)
Definition PutHash `{XXHash} (name : bytes) : bytes :=
  EncodeFixed64 (u64 (xxhash64 name 0 - 17241709254077376921)).
(** [DirIndex::RandomServer] returns the [uint32_t] hash as an [int]. *)
Definition RandomServer `{XXHash} (dir : bytes) (seed : Z) : Z := s32 (xxhash32 dir seed).

(** ** Hash prefixes *)

(** All 16 bits of a hash that routing can use. *)
Definition hash16 (hash : bytes) : Z := ComputeIndexFromHash hash 16.

Lemma Reverse_range b : is_u8 (Reverse b).
Proof. apply u8_range. Qed.

Lemma land_pow2_mod a n : 0 <= n -> Z.land a (Z.shiftl 1 n - 1) = a mod 2 ^ n.
Proof.
  intros. rewrite Z.shiftl_1_l, <- Z.land_ones by done. by rewrite Z.ones_equiv, Z.sub_1_r.
Qed.

Lemma mod_add_shift a b n k :
  0 <= k <= n -> 0 <= a < 2 ^ k -> (a + b * 2 ^ k) mod 2 ^ n = a + (b mod 2 ^ (n - k)) * 2 ^ k.
Proof.
  intros [Hk Hn] Ha. assert (0 < 2 ^ k) by (by apply Z.pow_pos_nonneg).
  assert (0 < 2 ^ (n - k)) by (apply Z.pow_pos_nonneg; lia).
  assert (E : 2 ^ n = 2 ^ (n - k) * 2 ^ k) by (rewrite <- Z.pow_add_r by lia; f_equal; lia).
  pose proof (Z.mod_pos_bound b (2 ^ (n - k)) ltac:(done)).
  symmetry. apply Z.mod_unique with (q := b / 2 ^ (n - k)).
  - left. rewrite E. nia.
  - rewrite E. pose proof (Z.div_mod b (2 ^ (n - k)) ltac:(lia)). nia.
Qed.

(** [n] bits of the hash are the low [n] bits of its 16-bit prefix. *)
Lemma ComputeIndexFromHash_mod hash n :
  0 <= n <= 16 -> ComputeIndexFromHash hash n = hash16 hash mod 2 ^ n.
Proof.
  intros Hn. unfold hash16, ComputeIndexFromHash.
  change (16 / 8) with 2. change (16 mod 8) with 0. change (seqZ 0 2) with [0; 1].
  cbn [fold_left]. rewrite Z.ltb_irrefl, !Z.add_0_l, Z.mul_0_l, Z.shiftl_0_r, Z.mul_1_l.
  pose proof (Reverse_range (byte_at hash 0)) as H0.
  pose proof (Reverse_range (byte_at hash 1)) as H1.
  set (a := Reverse (byte_at hash 0)) in *. set (b := Reverse (byte_at hash 1)) in *.
  rewrite (Z.shiftl_mul_pow2 b) by lia. unfold in_width in *.
  assert (n < 8 \/ 8 <= n < 16 \/ n = 16) as [C|[C|C]] by lia.
  - rewrite Z.div_small, Z.mod_small by lia. change (seqZ 0 0) with (@nil Z). cbn [fold_left].
    fold a. rewrite Z.mul_0_l, Z.shiftl_0_r, Z.add_0_l.
    replace (a + b * 2 ^ 8) with (a + (b * 2 ^ (8 - n)) * 2 ^ n)
      by (rewrite <- Z.mul_assoc, <- Z.pow_add_r by lia; do 3 f_equal; lia).
    rewrite Z.mod_add by (apply Z.pow_nonzero; lia).
    destruct (Z.ltb_spec 0 n); [by rewrite land_pow2_mod by lia|].
    replace n with 0 by lia. by rewrite Z.mod_1_r.
  - assert (n / 8 = 1) as -> by (symmetry; apply (Z.div_unique_pos n 8 1 (n - 8)); lia).
    assert (n mod 8 = n - 8) as -> by (symmetry; apply (Z.mod_unique_pos n 8 1 (n - 8)); lia).
    change (seqZ 0 1) with [0]. cbn [fold_left]. fold a b.
    rewrite Z.mul_0_l, Z.shiftl_0_r, Z.add_0_l, Z.mul_1_l.
    rewrite mod_add_shift by lia.
    destruct (Z.ltb_spec 0 (n - 8)).
    + by rewrite land_pow2_mod, Z.shiftl_mul_pow2 by lia.
    + replace (n - 8) with 0 by lia. rewrite Z.mod_1_r. lia.
  - subst n. change (16 / 8) with 2. change (16 mod 8) with 0. change (seqZ 0 2) with [0; 1].
    cbn [fold_left]. fold a b. rewrite Z.ltb_irrefl, !Z.add_0_l, Z.mul_0_l, Z.shiftl_0_r, Z.mul_1_l.
    rewrite (Z.shiftl_mul_pow2 b), Z.mod_small by lia. done.
Qed.

Lemma hash16_range hash : 0 <= hash16 hash < 2 ^ 16.
Proof.
  unfold hash16. rewrite ComputeIndexFromHash_mod by lia. by apply Z.mod_pos_bound.
Qed.

(** ** Radix, parents and children *)

Lemma ToRadix_bounds i : 0 < i -> 2 ^ (ToRadix i - 1) <= i < 2 ^ ToRadix i.
Proof.
  intros Hi. unfold ToRadix, ToLog2. destruct (Z.eqb_spec i 0); [lia|].
  pose proof (Z.log2_spec i Hi). replace (1 + Z.log2 i - 1) with (Z.log2 i) by lia.
  replace (1 + Z.log2 i) with (Z.succ (Z.log2 i)) by lia. done.
Qed.

Lemma ToRadix_nonneg i : 0 <= ToRadix i.
Proof. unfold ToRadix, ToLog2. pose proof (Z.log2_nonneg i). case_match; lia. Qed.

Lemma ToRadix_lt i : 0 <= i -> i < 2 ^ ToRadix i.
Proof.
  intros. destruct (Z.eq_dec i 0) as [->|]; [done|]. apply ToRadix_bounds. lia.
Qed.

Lemma ToRadix_le i k : 0 <= i -> 0 <= k -> i < 2 ^ k -> ToRadix i <= k.
Proof.
  intros Hi Hk Hlt. destruct (Z.eq_dec i 0) as [->|]; [done|].
  pose proof (ToRadix_bounds i ltac:(lia)) as [Hlo _].
  assert (ToRadix i - 1 < k); [|lia]. apply (Z.pow_lt_mono_r_iff 2); lia.
Qed.

Lemma ToRadix_ge i k : 0 <= k -> 2 ^ k <= i -> k < ToRadix i.
Proof.
  intros Hk Hle. assert (0 < 2 ^ k) by (by apply Z.pow_pos_nonneg).
  pose proof (ToRadix_bounds i ltac:(lia)) as [_ Hhi].
  apply (Z.pow_lt_mono_r_iff 2); [lia|apply ToRadix_nonneg|lia].
Qed.

Lemma ToRadix_mono i j : 0 <= i <= j -> ToRadix i <= ToRadix j.
Proof.
  intros. apply ToRadix_le; [lia|apply ToRadix_nonneg|].
  pose proof (ToRadix_lt j ltac:(lia)). lia.
Qed.

Lemma ToParentIndex_mod i : 0 < i -> ToParentIndex i = i mod 2 ^ (ToRadix i - 1).
Proof.
  intros Hi. pose proof (ToRadix_bounds i Hi) as Hb. unfold ToParentIndex, ToRadix, ToLog2 in *.
  destruct (Z.eqb_spec i 0); [lia|]. replace (1 + Z.log2 i - 1) with (Z.log2 i) in * by lia.
  rewrite Z.shiftl_1_l. apply Z.mod_unique_pos with (q := 1); [|lia].
  rewrite Z.pow_add_r in Hb by (try lia; apply Z.log2_nonneg). lia.
Qed.

Lemma ToParentIndex_lt i : 0 < i -> 0 <= ToParentIndex i < 2 ^ (ToRadix i - 1).
Proof.
  intros. rewrite ToParentIndex_mod by done. apply Z.mod_pos_bound.
  apply Z.pow_pos_nonneg; [lia|]. pose proof (ToRadix_ge i 0 ltac:(lia) ltac:(lia)). lia.
Qed.

(** A child's parent is the partition it was split from. *)
Lemma ToParent_ToChild i r :
  0 <= i -> ToRadix i <= r -> ToParentIndex (ToChildIndex i r) = i.
Proof.
  intros Hi Hr. pose proof (ToRadix_nonneg i). pose proof (ToRadix_lt i Hi).
  assert (2 ^ ToRadix i <= 2 ^ r) by (apply Z.pow_le_mono_r; lia).
  unfold ToChildIndex, ToParentIndex, ToLog2. rewrite Z.shiftl_1_l.
  destruct (Z.eqb_spec (i + 2 ^ r) 0); [lia|].
  assert (Z.log2 (i + 2 ^ r) = r) as ->.
  { apply Z.log2_unique; [lia|]. rewrite Z.pow_succ_r by lia. lia. }
  rewrite Z.shiftl_1_l. lia.
Qed.

Lemma ToRadix_ToChild i r : 0 <= i -> ToRadix i <= r -> ToRadix (ToChildIndex i r) = r + 1.
Proof.
  intros Hi Hr. pose proof (ToRadix_nonneg i). pose proof (ToRadix_lt i Hi).
  assert (2 ^ ToRadix i <= 2 ^ r) by (apply Z.pow_le_mono_r; lia).
  unfold ToChildIndex. rewrite Z.shiftl_1_l. apply Z.le_antisymm.
  - apply ToRadix_le; [lia..|]. rewrite Z.pow_add_r by lia. lia.
  - pose proof (ToRadix_ge (i + 2 ^ r) r ltac:(lia) ltac:(lia)). lia.
Qed.

(** ** Partitions covering a hash *)

(** Partition [i] covers the hashes whose low bits spell [i]: the hashes that
    belong to it once it is created. *)
Definition covers (i : Z) (hash : bytes) : Prop := i = hash16 hash mod 2 ^ ToRadix i.

Lemma ToBeMigrated_covers i hash :
  0 <= i < kMaxPartitions -> ToBeMigrated i hash = true <-> covers i hash.
Proof.
  change kMaxPartitions with (2 ^ 16). intros. unfold ToBeMigrated, covers.
  rewrite ComputeIndexFromHash_mod.
  - rewrite Z.eqb_eq. split; congruence.
  - split; [apply ToRadix_nonneg|]. apply ToRadix_le; lia.
Qed.

Lemma mod_pow2_mod a j k : 0 <= j <= k -> (a mod 2 ^ k) mod 2 ^ j = a mod 2 ^ j.
Proof.
  intros. apply Z.mod_mod_divide.
  exists (2 ^ (k - j)). rewrite <- Z.pow_add_r by lia. f_equal. lia.
Qed.

Lemma covers_mod hash k : 0 <= k -> covers (hash16 hash mod 2 ^ k) hash.
Proof.
  intros Hk. unfold covers. set (i := hash16 hash mod 2 ^ k).
  pose proof (Z.mod_pos_bound (hash16 hash) (2 ^ k) (Z.pow_pos_nonneg 2 k ltac:(lia) Hk)) as Hi.
  fold i in Hi. pose proof (ToRadix_nonneg i).
  assert (ToRadix i <= k) by (apply ToRadix_le; lia).
  rewrite <- (mod_pow2_mod _ (ToRadix i) k) by lia. fold i.
  symmetry. apply Z.mod_small. split; [lia|]. apply ToRadix_lt. lia.
Qed.

Lemma covers_nonneg i hash : covers i hash -> 0 <= i < 2 ^ 16.
Proof.
  intros Hc. pose proof (hash16_range hash). rewrite Hc. pose proof (ToRadix_nonneg i).
  assert (0 < 2 ^ ToRadix i) by (by apply Z.pow_pos_nonneg).
  pose proof (Z.mod_pos_bound (hash16 hash) (2 ^ ToRadix i) ltac:(done)).
  pose proof (Z.mod_le (hash16 hash) (2 ^ ToRadix i) ltac:(lia) ltac:(done)). lia.
Qed.

(** Of two partitions covering a hash the shallower is an ancestor. *)
Lemma covers_le_mod i j hash :
  covers i hash -> covers j hash -> i <= j -> i = j mod 2 ^ ToRadix i.
Proof.
  intros Hi Hj Hle. pose proof (covers_nonneg _ _ Hi). pose proof (covers_nonneg _ _ Hj).
  pose proof (ToRadix_nonneg i). pose proof (ToRadix_mono i j ltac:(lia)).
  rewrite Hj, mod_pow2_mod by lia. done.
Qed.

Lemma covers_lt_parent i j hash :
  covers i hash -> covers j hash -> i < j -> i <= ToParentIndex j.
Proof.
  intros Hi Hj Hlt. pose proof (covers_nonneg _ _ Hi). pose proof (covers_nonneg _ _ Hj).
  pose proof (ToRadix_nonneg i) as Hn.
  assert (Hr : ToRadix i <= ToRadix j - 1).
  { pose proof (ToRadix_mono i j ltac:(lia)). assert (ToRadix i <> ToRadix j); [|lia].
    intros E. unfold covers in *. rewrite E in Hi. lia. }
  rewrite ToParentIndex_mod by lia. rewrite (covers_le_mod i j hash Hi Hj) by lia.
  rewrite <- (mod_pow2_mod j (ToRadix i) (ToRadix j - 1)) by lia.
  apply Z.mod_le; [|by apply Z.pow_pos_nonneg].
  apply Z.mod_pos_bound, Z.pow_pos_nonneg; lia.
Qed.

Lemma covers_parent i hash : covers i hash -> covers (ToParentIndex i) hash.
Proof.
  intros Hc. pose proof (covers_nonneg _ _ Hc).
  destruct (Z.eq_dec i 0) as [->|]; [done|].
  rewrite ToParentIndex_mod by lia.
  pose proof (ToRadix_ge i 0 ltac:(lia) ltac:(lia)).
  rewrite Hc at 1. rewrite mod_pow2_mod by lia. apply covers_mod. lia.
Qed.

(** ** Bits of a buffer *)

Definition rawbit (bm : bytes) (i : Z) : bool := Z.testbit (byte_at bm (i / 8)) (i mod 8).

Lemma test_bit_rawbit bm i : test_bit bm i = rawbit bm i.
Proof.
  unfold test_bit, rawbit, kBits. rewrite Z.shiftl_1_l.
  pose proof (Z.mod_pos_bound i 8 ltac:(lia)) as Hm.
  set (b := byte_at bm (i / 8)). set (k := i mod 8) in *.
  destruct (Z.testbit b k) eqn:E.
  - destruct (Z.eqb_spec (Z.land b (2 ^ k)) 0) as [E0|]; [|done].
    apply (f_equal (fun z => Z.testbit z k)) in E0.
    by rewrite Z.land_spec, E, Z.pow2_bits_true, Z.bits_0 in E0 by lia.
  - assert (Z.land b (2 ^ k) = 0) as ->; [|done].
    apply Z.bits_inj'. intros j Hj. rewrite Z.land_spec, Z.bits_0.
    destruct (Z.eq_dec j k) as [->|]; [by rewrite E|].
    rewrite Z.pow2_bits_false by lia. apply andb_false_r.
Qed.

Lemma byte_at_lookup bm i b : bm !! Z.to_nat i = Some b -> byte_at bm i = b.
Proof. intros. unfold byte_at. by apply nth_lookup_Some. Qed.

Lemma byte_at_out bm i : zlen bm <= i -> byte_at bm i = 0.
Proof. intros. unfold byte_at. apply nth_overflow. unfold zlen in *. lia. Qed.

Lemma byte_at_app_l a b i : 0 <= i < zlen a -> byte_at (a ++ b) i = byte_at a i.
Proof. intros. unfold byte_at, zlen in *. apply app_nth1. lia. Qed.

Lemma byte_at_app_zeros a n i : byte_at (a ++ replicate n 0) i = byte_at a i.
Proof.
  unfold byte_at. destruct (Nat.lt_ge_cases (Z.to_nat i) (length a)).
  - by apply app_nth1.
  - rewrite app_nth2, (nth_overflow a) by done.
    destruct (Nat.lt_ge_cases (Z.to_nat i - length a) n).
    + apply nth_lookup_Some. by rewrite lookup_replicate_2.
    + apply nth_overflow. by rewrite length_replicate.
Qed.

Lemma byte_at_take bm n i : 0 <= i < n -> byte_at (take (Z.to_nat n) bm) i = byte_at bm i.
Proof.
  intros. unfold byte_at. rewrite !nth_lookup, lookup_take_lt by lia. done.
Qed.

Lemma byte_at_ok bm i : bytes_ok bm -> is_u8 (byte_at bm i).
Proof.
  intros Hok. unfold byte_at. rewrite nth_lookup. destruct (bm !! _) eqn:E; simpl.
  - eapply Forall_lookup_1 in E; [|exact Hok]. done.
  - apply in_width_0. lia.
Qed.

Lemma byte_at_insert bm i j b :
  0 <= i < zlen bm -> 0 <= j ->
  byte_at (<[Z.to_nat i := b]> bm) j = if i =? j then b else byte_at bm j.
Proof.
  intros. unfold byte_at, zlen in *. rewrite !nth_lookup. destruct (Z.eqb_spec i j) as [->|].
  - rewrite list_lookup_insert_eq by lia. done.
  - rewrite list_lookup_insert_ne by lia. done.
Qed.

Lemma rawbit_set_bit bm i j :
  0 <= i < zlen bm * 8 -> 0 <= j ->
  rawbit (set_bit bm i) j = (j =? i) || rawbit bm j.
Proof.
  intros Hi Hj. unfold rawbit, set_bit, kBits.
  assert (0 <= i / 8 < zlen bm).
  { split; [apply Z.div_pos; lia|]. apply Z.div_lt_upper_bound; lia. }
  rewrite byte_at_insert by (try done; apply Z.div_pos; lia).
  pose proof (Z.mod_pos_bound i 8 ltac:(lia)). pose proof (Z.mod_pos_bound j 8 ltac:(lia)).
  pose proof (Z.div_mod i 8 ltac:(lia)). pose proof (Z.div_mod j 8 ltac:(lia)).
  rewrite Z.shiftl_1_l.
  destruct (Z.eqb_spec (i / 8) (j / 8)) as [E|].
  - rewrite E, Z.lor_spec. destruct (Z.eqb_spec j i) as [->|].
    + rewrite Z.pow2_bits_true by lia. by rewrite orb_true_r.
    + rewrite Z.pow2_bits_false by lia. by rewrite orb_false_r.
  - destruct (Z.eqb_spec j i); [congruence|done].
Qed.

Lemma set_bit_ok bm i : bytes_ok bm -> bytes_ok (set_bit bm i).
Proof.
  intros. apply Forall_insert; [done|]. apply lor_in_width; [lia|by apply byte_at_ok|].
  unfold kBits. rewrite Z.shiftl_1_l. pose proof (Z.mod_pos_bound i 8 ltac:(lia)).
  split; [apply Z.pow_nonneg; lia|]. apply Z.pow_lt_mono_r; lia.
Qed.

Lemma zlen_set_bit bm i : zlen (set_bit bm i) = zlen bm.
Proof. unfold zlen, set_bit. by rewrite length_insert. Qed.

(** ** Well-formed representations

    The buffer is [2^k] bytes and holds [2^radix] bits, bit 0 is on, no bit is on at or above [2^radix], and the radix is that of
    the highest bit: what [assert(radix() == ToRadix(HighestBit()))] checks. *)
Record RepWf (r : Rep) : Prop := {
  wf_zeroth : is_u16 (zeroth_server r);
  wf_radix : 0 <= radix r <= kMaxRadix;
  wf_bytes : bytes_ok (bitmap r);
  wf_cap : exists k, 4 <= k /\ bitmap_capacity r = 2 ^ k /\ radix r <= k + 3;
  wf_root : rawbit (bitmap r) 0 = true;
  wf_top : forall i, 2 ^ radix r <= i -> rawbit (bitmap r) i = false;
  wf_tight : exists i, 0 <= i /\ rawbit (bitmap r) i = true /\ ToRadix i = radix r
}.

Lemma bitmap_size_spec r : 0 <= radix r -> 2 ^ radix r <= bitmap_size r * 8 < 2 ^ radix r + 8.
Proof.
  intros. unfold bitmap_size. rewrite Z.shiftl_1_l.
  pose proof (Z.div_mod (2 ^ radix r + 7) 8 ltac:(lia)).
  pose proof (Z.mod_pos_bound (2 ^ radix r + 7) 8 ltac:(lia)). lia.
Qed.

(** Under the invariant [Rep::bit] reads the buffer. *)
Lemma bit_rawbit r i : RepWf r -> bit r i = rawbit (bitmap r) i.
Proof.
  intros Hwf. unfold bit. rewrite test_bit_rawbit.
  pose proof (bitmap_size_spec r ltac:(apply Hwf)).
  destruct (Z.ltb_spec i (bitmap_size r * 8)); [done|].
  symmetry. apply (wf_top r Hwf). lia.
Qed.

Lemma bit_lt r i : RepWf r -> bit r i = true -> i < 2 ^ radix r.
Proof.
  intros Hwf Hb. rewrite bit_rawbit in Hb by done.
  destruct (Z.lt_ge_cases i (2 ^ radix r)); [done|].
  by rewrite (wf_top r Hwf) in Hb.
Qed.

Lemma bit_root r : RepWf r -> bit r 0 = true.
Proof. intros. rewrite bit_rawbit by done. by apply wf_root. Qed.

(** ** Routing *)

(** [i] is the deepest existing partition covering [hash]. *)
Definition deepest (r : Rep) (hash : bytes) (i : Z) : Prop :=
  bit r i = true /\ covers i hash /\ forall j, bit r j = true -> covers j hash -> j <= i.

Lemma deepest_unique r hash i j : deepest r hash i -> deepest r hash j -> i = j.
Proof.
  intros (Hi & Hc & Hm) (Hj & Hc' & Hm').
  pose proof (Hm j Hj Hc'). pose proof (Hm' i Hi Hc). lia.
Qed.

Lemma HashToIndex_loop_spec r hash fuel : forall i,
  RepWf r -> covers i hash -> i < 2 ^ Z.of_nat fuel ->
  (forall j, bit r j = true -> covers j hash -> j <= i) ->
  deepest r hash (HashToIndex_loop fuel r i).
Proof.
  induction fuel as [|fuel IH]; intros i Hwf Hc Hlt Hmax; simpl;
    pose proof (covers_nonneg _ _ Hc).
  - assert (i = 0) as -> by (simpl in Hlt; lia).
    split; [by apply bit_root|done].
  - destruct (bit r i) eqn:Hb; simpl; [by split|].
    assert (0 < i). { assert (i <> 0); [|lia]. intros ->. by rewrite bit_root in Hb. }
    apply IH; [done|by apply covers_parent| |].
    + pose proof (ToParentIndex_lt i ltac:(done)).
      assert (2 ^ (ToRadix i - 1) <= 2 ^ Z.of_nat fuel); [|lia].
      apply Z.pow_le_mono_r; [lia|].
      pose proof (ToRadix_le i (Z.of_nat (S fuel)) ltac:(lia) ltac:(lia) ltac:(lia)). lia.
    + intros j Hj Hcj. apply covers_lt_parent with hash; try done.
      pose proof (Hmax j Hj Hcj). assert (j <> i) by congruence. lia.
Qed.

(** Routing returns the deepest existing partition covering the hash. *)
Lemma HashToIndex_deepest r hash : RepWf r -> deepest r hash (HashToIndex r hash).
Proof.
  intros Hwf. pose proof (wf_radix r Hwf) as Hr. unfold kMaxRadix in Hr.
  unfold HashToIndex. rewrite ComputeIndexFromHash_mod by done.
  apply HashToIndex_loop_spec; [done|apply covers_mod; lia| |].
  - pose proof (Z.mod_pos_bound (hash16 hash) (2 ^ radix r)
                  ltac:(apply Z.pow_pos_nonneg; lia)).
    assert (2 ^ radix r <= 2 ^ Z.of_nat 16); [|lia]. apply Z.pow_le_mono_r; lia.
  - intros j Hj Hcj. pose proof (covers_nonneg _ _ Hcj). pose proof (bit_lt r j Hwf Hj).
    pose proof (ToRadix_le j (radix r) ltac:(lia) ltac:(lia) ltac:(lia)).
    pose proof (ToRadix_nonneg j). rewrite Hcj.
    rewrite <- (mod_pow2_mod _ (ToRadix j) (radix r)) by lia.
    apply Z.mod_le; [|by apply Z.pow_pos_nonneg].
    apply Z.mod_pos_bound, Z.pow_pos_nonneg; lia.
Qed.

(** Routing depends only on which partitions exist. *)
Lemma HashToIndex_ext r r' hash :
  RepWf r -> RepWf r' -> (forall i, 0 <= i -> bit r i = bit r' i) ->
  HashToIndex r hash = HashToIndex r' hash.
Proof.
  intros Hwf Hwf' Heq. apply (deepest_unique r hash); [by apply HashToIndex_deepest|].
  destruct (HashToIndex_deepest r' hash Hwf') as (Hb & Hc & Hm).
  pose proof (covers_nonneg _ _ Hc). split; [by rewrite Heq by lia|].
  split; [done|]. intros j Hj Hcj. apply Hm; [|done].
  pose proof (covers_nonneg _ _ Hcj). by rewrite <- Heq by lia.
Qed.

(** ** Growing the buffer *)

Lemma ScaleUp_rawbit r f i : rawbit (bitmap (ScaleUp r f)) i = rawbit (bitmap r) i.
Proof.
  unfold ScaleUp. case_match; [|done]. unfold rawbit, set_bitmap. cbn [bitmap].
  by rewrite byte_at_app_zeros.
Qed.

Lemma ScaleUp_capacity r f : 1 <= f -> bitmap_capacity (ScaleUp r f) = bitmap_capacity r * f.
Proof.
  intros. unfold ScaleUp. pose proof (zlen_nonneg (bitmap r)).
  destruct (Z.ltb_spec 1 f).
  - unfold bitmap_capacity, set_bitmap in *. cbn [bitmap]. rewrite zlen_app.
    unfold zlen at 2. rewrite length_replicate. nia.
  - unfold bitmap_capacity. nia.
Qed.

Lemma ScaleUp_ok r f : bytes_ok (bitmap r) -> bytes_ok (bitmap (ScaleUp r f)).
Proof.
  intros. unfold ScaleUp. case_match; [|done]. cbn [set_bitmap bitmap].
  apply bytes_ok_app. split; [done|]. apply Forall_replicate. apply in_width_0. lia.
Qed.

Lemma ScaleUp_fields r f :
  zeroth_server (ScaleUp r f) = zeroth_server r /\ radix (ScaleUp r f) = radix r.
Proof. unfold ScaleUp. by case_match. Qed.

Lemma ScaleToSize_loop_spec fuel : forall cur cap f,
  1 <= cur -> 1 <= f -> cap <= cur * 2 ^ Z.of_nat fuel ->
  let f' := ScaleToSize_loop fuel cur cap f in
  exists k, 0 <= k /\ f' = f * 2 ^ k /\ cap <= cur * 2 ^ k.
Proof.
  induction fuel as [|fuel IH]; intros cur cap f Hc Hf Hle; simpl.
  - exists 0. rewrite Z.pow_0_r in *. simpl in Hle. lia.
  - destruct (Z.ltb_spec cur cap).
    + rewrite !Z.shiftl_mul_pow2, !Z.pow_1_r by lia.
      destruct (IH (cur * 2) cap (f * 2)) as (k & Hk & -> & Hle'); try lia.
      { rewrite Nat2Z.inj_succ, Z.pow_succ_r in Hle by lia. lia. }
      exists (k + 1). rewrite Z.pow_add_r by lia. split; [lia|]. nia.
    + exists 0. rewrite Z.pow_0_r. lia.
Qed.

Lemma ScaleToSize_loop_min fuel : forall cur cap f,
  exists k, 0 <= k /\ ScaleToSize_loop fuel cur cap f = f * 2 ^ k /\ (k = 0 \/ cur * 2 ^ (k - 1) < cap).
Proof.
  induction fuel as [|fuel IH]; intros cur cap f; cbn [ScaleToSize_loop].
  - exists 0. rewrite Z.pow_0_r. lia.
  - destruct (Z.ltb_spec cur cap); [|exists 0; rewrite Z.pow_0_r; lia].
    rewrite !Z.shiftl_mul_pow2, !Z.pow_1_r by lia.
    destruct (IH (cur * 2) cap (f * 2)) as (k & Hk & -> & Hm). exists (k + 1).
    rewrite Z.pow_add_r by lia. split_and!; [lia|lia|right].
    destruct Hm as [->|Hm]; [rewrite Z.pow_0_r; lia|].
    replace (k + 1 - 1) with (k - 1 + 1) by lia. destruct (Z.eq_dec k 0) as [->|]; [cbn; lia|].
    rewrite Z.pow_add_r by lia. lia.
Qed.

Lemma ScaleToSize_spec r cap :
  1 <= bitmap_capacity r -> cap < 2 ^ 63 ->
  exists m, 0 <= m /\ ScaleToSize r cap = ScaleUp r (2 ^ m) /\
    cap <= bitmap_capacity r * 2 ^ m.
Proof.
  intros Hc Hcap. unfold ScaleToSize.
  destruct (ScaleToSize_loop_spec 64 (bitmap_capacity r) cap 1) as (k & Hk & E & Hle); try lia.
  exists k. rewrite E, Z.mul_1_l. done.
Qed.

Lemma wf_cap_pos r : RepWf r -> 1 <= bitmap_capacity r.
Proof.
  intros Hwf. destruct (wf_cap r Hwf) as (k & Hk & -> & _).
  pose proof (Z.pow_pos_nonneg 2 k). lia.
Qed.

(** Growing keeps the invariant and the bits. *)
Lemma ScaleUp_wf r m : 0 <= m -> RepWf r -> RepWf (ScaleUp r (2 ^ m)).
Proof.
  intros Hm Hwf. destruct (ScaleUp_fields r (2 ^ m)) as [Ez Er].
  pose proof (Z.pow_pos_nonneg 2 m ltac:(lia) Hm).
  pose proof (ScaleUp_capacity r (2 ^ m) ltac:(lia)) as Ec.
  destruct Hwf as [H1 H2 H3 (k & Hk & E4 & H4) H5 H6 H7].
  split; rewrite ?Ez, ?Er; try done.
  - by apply ScaleUp_ok.
  - exists (k + m). rewrite Ec, E4, Z.pow_add_r by lia. lia.
  - by rewrite ScaleUp_rawbit.
  - intros. rewrite ScaleUp_rawbit. by apply H6.
  - destruct H7 as (i & ? & ? & ?). exists i. by rewrite ScaleUp_rawbit.
Qed.

Lemma ScaleUp_bit r m i : 0 <= m -> RepWf r -> bit (ScaleUp r (2 ^ m)) i = bit r i.
Proof.
  intros. rewrite !bit_rawbit by auto using ScaleUp_wf. apply ScaleUp_rawbit.
Qed.

Lemma ScaleToSize_wf r cap : cap < 2 ^ 63 -> RepWf r ->
  RepWf (ScaleToSize r cap) /\ (forall i, bit (ScaleToSize r cap) i = bit r i) /\
  cap <= bitmap_capacity (ScaleToSize r cap) /\
  zeroth_server (ScaleToSize r cap) = zeroth_server r /\
  radix (ScaleToSize r cap) = radix r.
Proof.
  intros Hcap Hwf.
  destruct (ScaleToSize_spec r cap (wf_cap_pos r Hwf) Hcap) as (m & Hm & -> & Hle).
  pose proof (Z.pow_pos_nonneg 2 m ltac:(lia) Hm).
  split_and!; try apply ScaleUp_fields; [by apply ScaleUp_wf| |by rewrite ScaleUp_capacity by lia].
  intros. by apply ScaleUp_bit.
Qed.

(** The buffer never grows beyond what the largest index needs. *)
Lemma ScaleToSize_max r cap :
  RepWf r -> bitmap_capacity r <= kMaxPartitions / 8 -> cap <= kMaxPartitions / 8 ->
  bitmap_capacity (ScaleToSize r cap) <= kMaxPartitions / 8.
Proof.
  change (kMaxPartitions / 8) with (2 ^ 13). intros Hwf Hr Hcap.
  destruct (wf_cap r Hwf) as (a & Ha & Ea & _). unfold ScaleToSize.
  destruct (ScaleToSize_loop_min 64 (bitmap_capacity r) cap 1) as (k & Hk & -> & Hm).
  rewrite Z.mul_1_l. pose proof (Z.pow_pos_nonneg 2 k ltac:(lia) Hk).
  rewrite ScaleUp_capacity by lia. rewrite Ea in *. destruct Hm as [->|Hm]; [lia|].
  destruct (Z.eq_dec k 0) as [->|]; [lia|].
  rewrite <- Z.pow_add_r in Hm |- * by lia.
  assert (2 ^ (a + (k - 1)) < 2 ^ 13) as Hlt by lia. apply Z.pow_lt_mono_r_iff in Hlt; [|lia..].
  apply Z.pow_le_mono_r; lia.
Qed.

(** ** Turning a bit on *)

Lemma pow2_max a b : 0 <= a -> 0 <= b -> 2 ^ Z.max a b = Z.max (2 ^ a) (2 ^ b).
Proof.
  intros. destruct (Z.max_spec a b) as [[? ->]|[? ->]];
    [assert (2 ^ a <= 2 ^ b)|assert (2 ^ b <= 2 ^ a)]; try lia; apply Z.pow_le_mono_r; lia.
Qed.

(** The invariant for a buffer that gained bits below [2^x]. *)
Lemma RepWf_grow r r' (P : Z -> bool) x :
  RepWf r -> 0 <= x <= kMaxRadix ->
  zeroth_server r' = zeroth_server r -> radix r' = Z.max (radix r) x ->
  bytes_ok (bitmap r') ->
  (exists k, 4 <= k /\ bitmap_capacity r' = 2 ^ k /\ Z.max (radix r) x <= k + 3) ->
  (forall j, 0 <= j -> rawbit (bitmap r') j = P j || rawbit (bitmap r) j) ->
  (forall j, 0 <= j -> P j = true -> j < 2 ^ x) ->
  (radix r < x -> exists i, 0 <= i /\ P i = true /\ ToRadix i = x) ->
  RepWf r' /\ (forall j, 0 <= j -> bit r' j = P j || bit r j).
Proof.
  intros Hwf Hx Ez Er Hok Hcap Hraw HP Htight. pose proof Hwf as [H1 H2 H3 H4 H5 H6 H7].
  pose proof (pow2_max (radix r) x ltac:(lia) ltac:(lia)) as Emax.
  assert (RepWf r').
  { split; rewrite ?Ez, ?Er; try done.
    - lia.
    - rewrite Hraw by lia. by rewrite H5, orb_true_r.
    - rewrite Emax. intros j Hj. pose proof (Z.pow_nonneg 2 x ltac:(lia)).
      rewrite Hraw by lia. rewrite H6, orb_false_r by lia.
      destruct (P j) eqn:E; [|done]. specialize (HP j ltac:(lia) E). lia.
    - destruct (Z.max_spec (radix r) x) as [[? ->]|[? ->]].
      + destruct (Htight ltac:(done)) as (i & ? & HPi & ?). exists i. by rewrite Hraw, HPi by done.
      + destruct H7 as (i & ? & E & ?). exists i. by rewrite Hraw, E, orb_true_r by done. }
  split; [done|]. intros. rewrite !bit_rawbit by done. by apply Hraw.
Qed.

Lemma TurnOnBit_aux r i :
  RepWf r -> 0 <= i < kMaxPartitions -> i < bitmap_capacity r * 8 ->
  let r1 := if radix r <? ToRadix i then SetRadix r (ToRadix i) else r in
  let r' := set_bitmap r1 (set_bit (bitmap r1) i) in
  RepWf r' /\ (forall j, 0 <= j -> bit r' j = (j =? i) || bit r j).
Proof.
  change kMaxPartitions with (2 ^ 16).
  intros Hwf Hi Hcap r1 r'. destruct (wf_cap r Hwf) as (k & Hk & Ek & Hrk).
  pose proof (wf_radix r Hwf). unfold kMaxRadix in *. pose proof (ToRadix_nonneg i).
  assert (Hri : ToRadix i <= 16) by (apply ToRadix_le; lia).
  assert (Eb : bitmap r' = set_bit (bitmap r) i) by (unfold r', r1; by case_match).
  apply (RepWf_grow r r' (fun j => j =? i) (ToRadix i)); try done.
  - unfold r', r1; by case_match.
  - unfold r', r1. destruct (Z.ltb_spec (radix r) (ToRadix i)); cbn [set_bitmap SetRadix radix].
    + rewrite u16_small by (unfold in_width; lia). lia.
    + lia.
  - rewrite Eb. by apply set_bit_ok, wf_bytes.
  - exists k. unfold bitmap_capacity in *. rewrite Eb, zlen_set_bit. split_and!; [done..|].
    apply Z.max_lub; [done|]. apply ToRadix_le; [lia..|]. rewrite Z.pow_add_r by lia. lia.
  - intros. rewrite Eb. apply rawbit_set_bit; [|done]. unfold bitmap_capacity in *. lia.
  - intros j Hj ->%Z.eqb_eq. by apply ToRadix_lt.
  - intros _. exists i. rewrite Z.eqb_refl. split_and!; [lia|done..].
Qed.

(** Turning on a bit the buffer can hold after at most one doubling. *)
Lemma TurnOnBit_spec r i :
  RepWf r -> 0 <= i < kMaxPartitions -> i < 2 * bitmap_capacity r * 8 ->
  RepWf (TurnOnBit r i) /\ (forall j, 0 <= j -> bit (TurnOnBit r i) j = (j =? i) || bit r j).
Proof.
  intros Hwf Hi Hcap. unfold TurnOnBit. destruct (Z.leb_spec (bitmap_capacity r * 8) i).
  - destruct (TurnOnBit_aux (ScaleUp r 2) i) as [Hw Hb]; [|done| |].
    + by apply (ScaleUp_wf r 1).
    + rewrite ScaleUp_capacity by lia. lia.
    + split; [exact Hw|]. intros j Hj. rewrite Hb by done. by rewrite (ScaleUp_bit r 1).
  - by apply TurnOnBit_aux.
Qed.

Lemma TurnOnBit_zeroth r i : zeroth_server (TurnOnBit r i) = zeroth_server r.
Proof.
  unfold TurnOnBit. repeat case_match; cbn [set_bitmap SetRadix zeroth_server];
    rewrite ?(proj1 (ScaleUp_fields r 2)); done.
Qed.

Lemma TurnOnBit_capacity r i :
  i < bitmap_capacity r * 8 -> bitmap_capacity (TurnOnBit r i) = bitmap_capacity r.
Proof.
  intros. unfold TurnOnBit. destruct (Z.leb_spec (bitmap_capacity r * 8) i); [lia|].
  unfold bitmap_capacity. case_match; cbn [set_bitmap SetRadix bitmap]; apply zlen_set_bit.
Qed.

(** ** New indices and pre-splitting *)

Lemma NewRep_eq z : NewRep z = mkRep (u16 z) 0 (1 :: replicate 15 0).
Proof. reflexivity. Qed.

Lemma rawbit_one i : 0 <= i -> rawbit (1 :: replicate 15 0) i = (i =? 0).
Proof.
  intros. unfold rawbit. pose proof (Z.div_mod i 8 ltac:(lia)).
  pose proof (Z.mod_pos_bound i 8 ltac:(lia)). pose proof (Z.div_pos i 8 ltac:(lia) ltac:(lia)).
  destruct (Z.eq_dec (i / 8) 0) as [E|].
  - rewrite E. change (byte_at (1 :: replicate 15 0) 0) with (2 ^ 0).
    rewrite Z.pow2_bits_eqb by lia. cmp_cases; lia || done.
  - assert (byte_at (1 :: replicate 15 0) (i / 8) = 0) as ->.
    { unfold byte_at. replace (Z.to_nat (i / 8)) with (S (Z.to_nat (i / 8 - 1))) by lia.
      cbn [nth]. rewrite nth_lookup. destruct (_ !! _) eqn:Hl; [|done].
      by apply lookup_replicate in Hl as [-> _]. }
    rewrite Z.bits_0. cmp_cases; lia || done.
Qed.

Lemma NewRep_wf z : RepWf (NewRep z) /\ (forall j, 0 <= j -> bit (NewRep z) j = (j =? 0)).
Proof.
  rewrite NewRep_eq. assert (RepWf (mkRep (u16 z) 0 (1 :: replicate 15 0))).
  { split; cbn [zeroth_server radix bitmap].
    - apply u16_range.
    - done.
    - constructor; [done|]. apply Forall_replicate. done.
    - exists 4. done.
    - done.
    - intros. rewrite rawbit_one by lia. apply Z.eqb_neq. lia.
    - by exists 0. }
  split; [done|]. intros. rewrite bit_rawbit by done. by apply rawbit_one.
Qed.

Lemma seqZ_app_one n : 0 <= n -> seqZ 0 (n + 1) = seqZ 0 n ++ [n].
Proof. intros. rewrite seqZ_app by lia. done. Qed.

(** Turning on a range of bits the buffer has room for. *)
Lemma TurnOn_range n : forall r,
  0 <= n <= kMaxPartitions -> n <= bitmap_capacity r * 8 -> RepWf r ->
  let r' := fold_left TurnOnBit (seqZ 0 n) r in
  RepWf r' /\ bitmap_capacity r' = bitmap_capacity r /\
  zeroth_server r' = zeroth_server r /\
  (forall j, 0 <= j -> bit r' j = (j <? n) || bit r j).
Proof.
  intros r [Hn Hmax]. revert Hmax. revert n Hn. refine (natlike_ind _ _ _).
  - intros _ Hcap Hwf. simpl. split_and!; try done. intros. by destruct (Z.ltb_spec j 0); [lia|].
  - intros n Hn IH Hmax Hcap Hwf. unfold Z.succ in *. rewrite seqZ_app_one, fold_left_app by done.
    destruct IH as (Hw & Hc & Hz & Hb); [lia|lia|done|]. cbn [fold_left].
    set (r1 := fold_left TurnOnBit (seqZ 0 n) r) in *.
    destruct (TurnOnBit_spec r1 n) as [Hw' Hb']; [done|lia|lia|].
    split_and!; [done|rewrite TurnOnBit_capacity by lia; done|by rewrite TurnOnBit_zeroth|].
    intros j Hj. rewrite Hb', Hb by done.
    destruct (bit r j); [by rewrite !orb_true_r|]. rewrite !orb_false_r.
    cmp_cases; done || lia.
Qed.

(** [SetAll] creates exactly the partitions below [num_virtual_servers]. *)
Lemma SetAll_spec o r :
  0 <= num_virtual_servers o <= kMaxPartitions -> RepWf r ->
  RepWf (SetAll o r) /\ zeroth_server (SetAll o r) = zeroth_server r /\
  (forall j, 0 <= j -> bit (SetAll o r) j = (j <? num_virtual_servers o) || bit r j).
Proof.
  change kMaxPartitions with 65536. intros Hn Hwf. unfold SetAll.
  destruct (ScaleToSize_wf r (num_virtual_servers o)) as (Hw & Hb & Hc & Hz & _);
    [lia|done|]. pose proof (wf_cap_pos _ Hw).
  destruct (TurnOn_range (num_virtual_servers o) (ScaleToSize r (num_virtual_servers o)))
    as (Hw' & _ & Hz' & Hb'); [change kMaxPartitions with 65536; lia|lia|done|].
  split_and!; [done|congruence|]. intros. by rewrite Hb', Hb.
Qed.

(** ** Merging *)

Definition byte_bit (f : Z -> Z) (j : Z) : bool := Z.testbit (f (j / 8)) (j mod 8).

Lemma byte_at_imap f bm i :
  0 <= i < zlen bm -> byte_at (imap f bm) i = f (Z.to_nat i) (byte_at bm i).
Proof.
  intros. unfold byte_at, zlen in *. rewrite !nth_lookup, list_lookup_imap.
  destruct (lookup_lt_is_Some_2 bm (Z.to_nat i)) as [b E]; [lia|]. by rewrite E.
Qed.

Lemma imap_bytes_ok f bm :
  bytes_ok bm -> (forall i b, is_u8 b -> is_u8 (f i b)) -> bytes_ok (imap f bm).
Proof.
  intros Hok Hf. apply Forall_lookup. intros i b E. rewrite list_lookup_imap in E.
  destruct (bm !! i) eqn:Eb; simplify_eq/=. apply Hf. by eapply Forall_lookup_1.
Qed.

(** The merged index has the partitions of both. *)
Lemma DoMerge_spec r osize oradix obyte :
  RepWf r -> 0 <= oradix <= kMaxRadix -> 2 ^ oradix <= osize * 8 -> osize < 2 ^ 62 ->
  (forall i, 0 <= i -> is_u8 (obyte i)) ->
  (forall j, 0 <= j -> byte_bit obyte j = true -> j < 2 ^ oradix) ->
  (exists i, 0 <= i /\ byte_bit obyte i = true /\ ToRadix i = oradix) ->
  let r' := DoMerge r osize oradix obyte in
  RepWf r' /\ zeroth_server r' = zeroth_server r /\
  (forall j, 0 <= j -> bit r' j = byte_bit obyte j || bit r j).
Proof.
  intros Hwf Hor Hos Hos' Hby Htop Htight r'. unfold kMaxRadix in *.
  pose proof (wf_radix r Hwf) as Hr. unfold kMaxRadix in Hr.
  set (nc := Z.max (bitmap_size r) osize).
  assert (Hnc : nc < 2 ^ 63).
  { pose proof (bitmap_size_spec r ltac:(lia)).
    assert (2 ^ radix r <= 2 ^ 16) by (apply Z.pow_le_mono_r; lia). unfold nc. lia. }
  destruct (ScaleToSize_wf r nc Hnc Hwf) as (Hw & Hb & Hc & Hz & Hrd).
  set (r1 := ScaleToSize r nc) in *. destruct (wf_cap r1 Hw) as (k & Hk & Ek & Hrk).
  assert (Ez : zeroth_server r' = zeroth_server r) by exact Hz.
  assert (Ebm : bitmap r' = imap (fun i b => if Z.of_nat i <? nc
            then Z.lor b (obyte (Z.of_nat i)) else b) (bitmap r1)) by done.
  assert (Ecap : bitmap_capacity r' = bitmap_capacity r1)
    by (unfold bitmap_capacity, zlen; rewrite Ebm; by rewrite length_imap).
  destruct (RepWf_grow r1 r' (byte_bit obyte) oradix) as [Hw' Hb']; try done.
  - unfold r', DoMerge. fold nc r1. cbn [set_bitmap SetRadix radix].
    rewrite u16_small; [done|]. unfold in_width. lia.
  - rewrite Ebm. apply imap_bytes_ok; [apply Hw|]. intros i b Hb0. case_match; [|done].
    apply lor_in_width; [lia|done|]. apply Hby. lia.
  - exists k. rewrite Ecap. split_and!; [done..|]. apply Z.max_lub; [done|].
    apply (Z.pow_le_mono_r_iff 2); [lia..|]. rewrite Z.pow_add_r by lia. lia.
  - intros j Hj. unfold rawbit, byte_bit. pose proof (Z.div_pos j 8 Hj ltac:(lia)).
    destruct (Z.lt_ge_cases (j / 8) (zlen (bitmap r1))) as [Hlt|Hge].
    + rewrite Ebm, byte_at_imap by done. rewrite Z2Nat.id by done.
      destruct (Z.ltb_spec (j / 8) nc).
      * rewrite Z.lor_spec. apply orb_comm.
      * destruct (byte_bit obyte j) eqn:E; unfold byte_bit in E; rewrite E; [|done].
        exfalso. specialize (Htop j Hj E). pose proof (Z.div_mod j 8 ltac:(lia)).
        pose proof (Z.mod_pos_bound j 8 ltac:(lia)). lia.
    + rewrite !byte_at_out by (rewrite ?Ebm; unfold zlen in *; rewrite ?length_imap; lia).
      rewrite Z.bits_0, orb_false_r. symmetry.
      destruct (byte_bit obyte j) eqn:E; unfold byte_bit in E; [|done]. exfalso.
      specialize (Htop j Hj E). pose proof (Z.div_mod j 8 ltac:(lia)).
      pose proof (Z.mod_pos_bound j 8 ltac:(lia)). unfold bitmap_capacity in *. lia.
  - split_and!; [done|done|]. intros. by rewrite Hb', Hb.
Qed.

(** ** The highest bit *)

Lemma last_byte_spec bm i :
  (last_byte bm i <= i)%nat /\
  (forall j, (last_byte bm i < j <= i)%nat -> nth j bm 0 = 0) /\
  (nth (last_byte bm i) bm 0 <> 0 \/ (forall j, (j <= i)%nat -> nth j bm 0 = 0)).
Proof.
  induction i as [|i (IH1 & IH2 & IH3)]; cbn [last_byte];
    match goal with |- context [Z.eqb ?a 0] => destruct (Z.eqb_spec a 0) as [E|E] end.
  - split_and!; [done|lia|]. right. intros j Hj. by replace j with 0%nat by lia.
  - split_and!; [done|lia|by left].
  - split_and!; [lia| |].
    + intros j Hj. destruct (decide (j = S i)) as [->|]; [done|]. apply IH2. lia.
    + destruct IH3 as [|IH3]; [by left|right]. intros j Hj.
      destruct (decide (j = S i)) as [->|]; [done|]. apply IH3. lia.
  - split_and!; [done|lia|by left].
Qed.

Lemma land_kBits b off : (Z.land b (kBits (Z.of_nat off)) =? 0) = negb (Z.testbit b (Z.of_nat off)).
Proof.
  pose proof (test_bit_rawbit [b] (Z.of_nat off)) as E. unfold kBits. rewrite Z.shiftl_1_l.
  destruct (Z.testbit b (Z.of_nat off)) eqn:T; simpl.
  - apply Z.eqb_neq. intros C. apply (f_equal (fun z => Z.testbit z (Z.of_nat off))) in C.
    by rewrite Z.land_spec, T, Z.pow2_bits_true, Z.bits_0 in C by lia.
  - apply Z.eqb_eq, Z.bits_inj'. intros j Hj. rewrite Z.land_spec, Z.bits_0.
    destruct (Z.eq_dec j (Z.of_nat off)) as [->|]; [by rewrite T|].
    rewrite Z.pow2_bits_false by lia. apply andb_false_r.
Qed.

Lemma top_bit_spec b off :
  (top_bit b off <= off)%nat /\
  (forall j, (top_bit b off < j <= off)%nat -> Z.testbit b (Z.of_nat j) = false) /\
  (Z.testbit b (Z.of_nat (top_bit b off)) = true \/
   (forall j, (j <= off)%nat -> Z.testbit b (Z.of_nat j) = false)).
Proof.
  induction off as [|off (IH1 & IH2 & IH3)]; cbn [top_bit]; rewrite land_kBits;
    match goal with |- context [negb ?c] => destruct c eqn:E end; cbn [negb].
  - split_and!; [done|lia|by left].
  - split_and!; [done|lia|]. right. intros j Hj. by replace j with 0%nat by lia.
  - split_and!; [done|lia|by left].
  - split_and!; [lia| |].
    + intros j Hj. destruct (decide (j = S off)) as [->|]; [done|]. apply IH2. lia.
    + destruct IH3 as [|IH3]; [by left|right]. intros j Hj.
      destruct (decide (j = S off)) as [->|]; [done|]. apply IH3. lia.
Qed.

Lemma u8_nonzero_bit b : is_u8 b -> b <> 0 -> exists j, (j <= 7)%nat /\ Z.testbit b (Z.of_nat j) = true.
Proof.
  intros [H0 H1] Hb. exists (Z.to_nat (Z.log2 b)). pose proof (Z.log2_nonneg b).
  rewrite Z2Nat.id by done. split; [|apply Z.bit_log2; lia].
  assert (Z.log2 b < 8) by (apply Z.log2_lt_pow2; lia). lia.
Qed.

(** [highest_bit] finds the last set bit of a buffer that has one. *)
Lemma highest_bit_spec bm sz i :
  bytes_ok bm -> 0 <= i < sz * 8 -> rawbit bm i = true ->
  let h := highest_bit bm sz in
  rawbit bm h = true /\ i <= h < sz * 8 /\ (forall j, h < j < sz * 8 -> rawbit bm j = false).
Proof.
  intros Hok Hi Hb h. unfold h, highest_bit.
  destruct (last_byte_spec bm (Z.to_nat (sz - 1))) as (L1 & L2 & L3).
  set (l := last_byte bm (Z.to_nat (sz - 1))) in *.
  assert (Hnth : forall j, rawbit bm j = Z.testbit (nth (Z.to_nat (j / 8)) bm 0) (j mod 8)) by done.
  assert (Hdm : forall j, 0 <= j -> 0 <= j / 8 /\ j = 8 * (j / 8) + j mod 8 /\ 0 <= j mod 8 < 8).
  { intros. split_and!; [apply Z.div_pos; lia|apply Z.div_mod; lia|apply Z.mod_pos_bound; lia..]. }
  destruct (Hdm i ltac:(lia)) as (Hi1 & Hi2 & Hi3).
  destruct L3 as [L3|L3].
  2: { exfalso. rewrite Hnth, L3, Z.bits_0 in Hb by lia. done. }
  destruct (top_bit_spec (nth l bm 0) 7) as (T1 & T2 & T3).
  set (o := top_bit (nth l bm 0) 7) in *.
  destruct T3 as [T3|T3].
  2: { exfalso. destruct (u8_nonzero_bit (nth l bm 0)) as (j & Hj & Hj'); [|done|].
       - pose proof (byte_at_ok bm (Z.of_nat l) Hok) as E. unfold byte_at in E.
         by rewrite Nat2Z.id in E.
       - by rewrite T3 in Hj'. }
  assert (Hd : (Z.of_nat o + Z.of_nat l * 8) / 8 = Z.of_nat l).
  { rewrite Z.div_add, Z.div_small by lia. lia. }
  assert (Hm : (Z.of_nat o + Z.of_nat l * 8) mod 8 = Z.of_nat o).
  { rewrite Z.mod_add, Z.mod_small by lia. done. }
  split_and!.
  - by rewrite Hnth, Hd, Hm, Nat2Z.id.
  - destruct (Z.lt_ge_cases (Z.of_nat l) (i / 8)).
    + exfalso. rewrite Hnth, L2, Z.bits_0 in Hb by lia. done.
    + destruct (Z.lt_ge_cases (Z.of_nat o + Z.of_nat l * 8) i); [|lia]. exfalso.
      assert (Ei : i / 8 = Z.of_nat l) by lia.
      rewrite Hnth, Ei, Nat2Z.id in Hb.
      replace (i mod 8) with (Z.of_nat (Z.to_nat (i mod 8))) in Hb by lia.
      rewrite T2 in Hb by lia. done.
  - lia.
  - intros j Hj. destruct (Hdm j ltac:(lia)) as (Hj1 & Hj2 & Hj3). rewrite Hnth.
    destruct (Z.eq_dec (j / 8) (Z.of_nat l)) as [Ej|].
    + rewrite Ej, Nat2Z.id. replace (j mod 8) with (Z.of_nat (Z.to_nat (j mod 8))) by lia.
      apply T2. lia.
    + rewrite L2, Z.bits_0 by lia. done.
Qed.

Lemma HighestBit_spec r :
  RepWf r -> bit r (HighestBit r) = true /\ 0 <= HighestBit r /\
    (forall j, bit r j = true -> j <= HighestBit r) /\ ToRadix (HighestBit r) = radix r.
Proof.
  intros Hwf. pose proof (wf_radix r Hwf) as Hr.
  destruct (wf_tight r Hwf) as (i & Hi & Hbi & Hti).
  pose proof (bitmap_size_spec r ltac:(lia)) as Hsz.
  assert (Hlt : forall j, bit r j = true -> j < bitmap_size r * 8).
  { intros j Hj. pose proof (bit_lt r j Hwf Hj). lia. }
  rewrite <- bit_rawbit in Hbi by done. pose proof (Hlt i Hbi).
  destruct (highest_bit_spec (bitmap r) (bitmap_size r) i) as (H1 & H2 & H3);
    [apply Hwf|lia|by rewrite <- bit_rawbit|].
  fold (HighestBit r) in *. rewrite <- bit_rawbit in H1 by done.
  assert (Hmax : forall j, bit r j = true -> j <= HighestBit r).
  { intros j Hj. destruct (Z.lt_ge_cases (HighestBit r) j); [|lia].
    pose proof (Hlt j Hj). rewrite bit_rawbit, H3 in Hj by (done || lia). done. }
  split_and!; [done|lia|done|]. apply Z.le_antisymm.
  - apply ToRadix_le; [lia..|]. by apply bit_lt.
  - rewrite <- Hti. apply ToRadix_mono. split; [done|]. by apply Hmax.
Qed.

(** ** Encoding and parsing *)

Lemma ToSlice_size r : RepWf r -> zlen (take (Z.to_nat (bitmap_size r)) (bitmap r)) = bitmap_size r.
Proof.
  intros Hwf. destruct (wf_cap r Hwf) as (k & Hk & Ek & Hrk).
  pose proof (wf_radix r Hwf). pose proof (bitmap_size_spec r ltac:(lia)) as Hs.
  unfold zlen. rewrite length_take. unfold bitmap_capacity, zlen in Ek.
  assert (bitmap_size r <= 2 ^ k); [|lia].
  assert (2 ^ radix r <= 2 ^ (k + 3)) by (apply Z.pow_le_mono_r; lia).
  rewrite Z.pow_add_r in * by lia. lia.
Qed.

(** The view of an encoded index. *)
Definition view_of (r : Rep) : View :=
  mkView (zeroth_server r) (radix r) (take (Z.to_nat (bitmap_size r)) (bitmap r)).

Lemma bitmap_size_pos r : RepWf r -> 1 <= bitmap_size r.
Proof.
  intros Hwf. pose proof (wf_radix r Hwf). pose proof (bitmap_size_spec r ltac:(lia)).
  pose proof (Z.pow_pos_nonneg 2 (radix r) ltac:(lia) ltac:(lia)). lia.
Qed.

Lemma view_of_nonempty r : RepWf r -> bool_decide (v_bitmap (view_of r) = []) = false.
Proof.
  intros Hwf. apply bool_decide_eq_false. intros E.
  pose proof (ToSlice_size r Hwf) as Hz. pose proof (bitmap_size_pos r Hwf).
  cbn [view_of v_bitmap] in E. rewrite E in Hz. unfold zlen in Hz. simpl in Hz. lia.
Qed.

Lemma rawbit_take bm n i : 0 <= i < n * 8 -> rawbit (take (Z.to_nat n) bm) i = rawbit bm i.
Proof.
  intros. unfold rawbit. rewrite byte_at_take; [done|].
  split; [apply Z.div_pos; lia|]. apply Z.div_lt_upper_bound; lia.
Qed.

Lemma ParseDirIndex_ToSlice r paranoid :
  RepWf r -> ParseDirIndex (ToSlice r) paranoid = Some (view_of r).
Proof.
  intros Hwf. pose proof (wf_radix r Hwf) as Hr. unfold kMaxRadix in Hr.
  pose proof (ToSlice_size r Hwf) as Hsz. pose proof (bitmap_size_pos r Hwf).
  assert (Hlen : zlen (ToSlice r) = 4 + bitmap_size r).
  { unfold ToSlice. autorewrite with zlen. rewrite Hsz.
    change (zlen (EncodeFixed16 ?v)) with 2. lia. }
  unfold ParseDirIndex. rewrite Hlen. unfold kHeadSize.
  destruct (Z.ltb_spec (4 + bitmap_size r) 4); [lia|].
  assert (mkView (DecodeFixed16 (ToSlice r)) (DecodeFixed16 (drop 2 (ToSlice r))) (drop 4 (ToSlice r))
          = view_of r) as ->.
  { unfold ToSlice, view_of. f_equal.
    - apply DecodeFixed16_encode, Hwf.
    - change (drop 2 (EncodeFixed16 (zeroth_server r) ++ ?x)) with x.
      apply DecodeFixed16_encode. unfold in_width. lia. }
  change (v_radix (view_of r)) with (radix r). fold (bitmap_size r).
  destruct (Z.ltb_spec (4 + bitmap_size r - 4) (bitmap_size r)); [lia|].
  assert (View_bit (view_of r) 0 = true) as ->.
  { unfold View_bit. rewrite view_of_nonempty by done. cbn [andb view_of v_bitmap].
    rewrite andb_false_r, Hsz, test_bit_rawbit.
    destruct (Z.ltb_spec 0 (bitmap_size r * 8)); [|lia].
    rewrite rawbit_take by lia. apply Hwf. }
  assert (View_HighestBit (view_of r) = HighestBit r) as ->.
  { unfold View_HighestBit. rewrite view_of_nonempty by done. cbn [view_of v_bitmap].
    rewrite Hsz. destruct (HighestBit_spec r Hwf) as (Hb & Hn & Hm & _).
    assert (Htk : forall j, 0 <= j < bitmap_size r * 8 ->
              rawbit (take (Z.to_nat (bitmap_size r)) (bitmap r)) j = bit r j).
    { intros. rewrite rawbit_take by done. by rewrite bit_rawbit. }
    pose proof (bitmap_size_spec r ltac:(lia)). pose proof (bit_lt r _ Hwf Hb).
    destruct (highest_bit_spec (take (Z.to_nat (bitmap_size r)) (bitmap r)) (bitmap_size r)
                (HighestBit r)) as (T1 & T2 & T3).
    - apply Forall_take, Hwf.
    - lia.
    - by rewrite Htk by lia.
    - rewrite Htk in T1 by lia. apply Hm in T1. lia. }
  destruct (HighestBit_spec r Hwf) as (_ & _ & _ & ->). rewrite Z.eqb_refl. cbn [negb].
  by rewrite andb_false_r.
Qed.

(** What [MergeView] needs of an encoded index. *)
Lemma view_of_bytes r :
  RepWf r ->
  (forall i, 0 <= i -> is_u8 (View_byte (view_of r) i)) /\
  (forall j, 0 <= j -> byte_bit (View_byte (view_of r)) j = bit r j).
Proof.
  intros Hwf. pose proof (wf_radix r Hwf) as Hr. pose proof (ToSlice_size r Hwf) as Hsz.
  unfold View_byte. rewrite view_of_nonempty by done. cbn [view_of v_bitmap].
  split.
  - intros i Hi. rewrite andb_false_r. case_match; [|apply in_width_0; lia].
    apply byte_at_ok, Forall_take, Hwf.
  - intros j Hj. unfold byte_bit. rewrite andb_false_r, Hsz.
    pose proof (Z.div_pos j 8 Hj ltac:(lia)). rewrite bit_rawbit by done. unfold rawbit.
    destruct (Z.ltb_spec (j / 8) (bitmap_size r)).
    + by rewrite byte_at_take by lia.
    + rewrite Z.bits_0. symmetry. apply (wf_top r Hwf).
      pose proof (bitmap_size_spec r ltac:(lia)). pose proof (Z.div_mod j 8 ltac:(lia)).
      pose proof (Z.mod_pos_bound j 8 ltac:(lia)). lia.
Qed.

Lemma bitmap_size_bound r : RepWf r -> 2 ^ radix r <= bitmap_size r * 8 /\ bitmap_size r < 2 ^ 62.
Proof.
  intros Hwf. pose proof (wf_radix r Hwf) as Hr. unfold kMaxRadix in Hr.
  pose proof (bitmap_size_spec r ltac:(lia)).
  assert (2 ^ radix r <= 2 ^ 16) by (apply Z.pow_le_mono_r; lia). lia.
Qed.

Lemma MergeView_spec r r2 :
  RepWf r -> RepWf r2 ->
  let r' := MergeView r (view_of r2) in
  RepWf r' /\ zeroth_server r' = zeroth_server r /\
  (forall j, 0 <= j -> bit r' j = bit r2 j || bit r j).
Proof.
  intros Hwf Hwf2 r'. destruct (view_of_bytes r2 Hwf2) as [Hby Hbit].
  destruct (wf_tight r2 Hwf2) as (i & Hi & Hbi & Hti). rewrite <- bit_rawbit in Hbi by done.
  destruct (bitmap_size_bound r2 Hwf2).
  destruct (DoMerge_spec r (zlen (v_bitmap (view_of r2))) (radix r2) (View_byte (view_of r2)))
    as (Hw & Hz & Hb); try done.
  - apply Hwf2.
  - cbn [view_of v_bitmap]. by rewrite ToSlice_size.
  - cbn [view_of v_bitmap]. by rewrite ToSlice_size.
  - intros j Hj Ht. rewrite Hbit in Ht by done. by apply bit_lt.
  - exists i. by rewrite Hbit.
  - split_and!; [done..|]. intros. by rewrite Hb, Hbit.
Qed.

Lemma bitmap_size_max r : RepWf r -> bitmap_size r <= kMaxPartitions / 8.
Proof.
  intros Hwf. pose proof (wf_radix r Hwf) as Hr. unfold kMaxRadix in Hr.
  change (kMaxPartitions / 8) with 8192. unfold bitmap_size. rewrite Z.shiftl_1_l.
  assert (2 ^ radix r <= 2 ^ 16) by (apply Z.pow_le_mono_r; lia).
  assert ((2 ^ radix r + 7) / 8 < 8193); [|lia]. apply Z.div_lt_upper_bound; lia.
Qed.

Lemma bitmap_size_mono r r' : 0 <= radix r <= radix r' -> bitmap_size r <= bitmap_size r'.
Proof.
  intros Hr. unfold bitmap_size. rewrite !Z.shiftl_1_l. apply Z.div_le_mono; [lia|].
  assert (2 ^ radix r <= 2 ^ radix r') by (apply Z.pow_le_mono_r; lia). lia.
Qed.

(** Merging well-formed indices fails no assertion. *)
Lemma DoMerge_assert_ok r r2 osize obyte :
  RepWf r -> RepWf r2 -> bitmap_capacity r <= kMaxPartitions / 8 -> osize = bitmap_size r2 ->
  RepWf (DoMerge r osize (radix r2) obyte) ->
  DoMerge_assert r osize (radix r2) obyte = true /\
  bitmap_capacity (DoMerge r osize (radix r2) obyte) <= kMaxPartitions / 8 /\
  radix (DoMerge r osize (radix r2) obyte) = Z.max (radix r) (radix r2).
Proof.
  intros Hwf Hwf2 Hcap -> Hw. pose proof (wf_radix r Hwf) as R1. pose proof (wf_radix r2 Hwf2) as R2.
  pose proof (bitmap_size_max r Hwf). pose proof (bitmap_size_max r2 Hwf2).
  set (nc := Z.max (bitmap_size r) (bitmap_size r2)).
  pose proof (ScaleToSize_max r nc Hwf Hcap ltac:(lia)) as Hc.
  assert (Ec : bitmap_capacity (DoMerge r (bitmap_size r2) (radix r2) obyte) = bitmap_capacity (ScaleToSize r nc)).
  { unfold DoMerge, bitmap_capacity, zlen. cbn [bitmap set_bitmap SetRadix]. by rewrite length_imap. }
  assert (Er : radix (DoMerge r (bitmap_size r2) (radix r2) obyte) = Z.max (radix r) (radix r2)).
  { unfold DoMerge. cbn [radix set_bitmap SetRadix]. unfold ScaleToSize.
    destruct (ScaleUp_fields r (ScaleToSize_loop 64 (bitmap_capacity r) (Z.max (bitmap_size r) (bitmap_size r2)) 1))
      as [_ ->]. apply u16_small. unfold kMaxRadix, in_width in *. lia. }
  unfold DoMerge_assert. fold nc. rewrite Ec. split_and!; [|done|done].
  destruct (HighestBit_spec _ Hw) as (_ & _ & _ & ->). rewrite Z.eqb_refl.
  assert (Hsz : bitmap_size (DoMerge r (bitmap_size r2) (radix r2) obyte) <= nc).
  { destruct (Z.max_spec (radix r) (radix r2)) as [[_ E]|[_ E]]; rewrite E in Er.
    - pose proof (bitmap_size_mono (DoMerge r (bitmap_size r2) (radix r2) obyte) r2). lia.
    - pose proof (bitmap_size_mono (DoMerge r (bitmap_size r2) (radix r2) obyte) r). lia. }
  rewrite !(proj2 (Z.leb_le _ _)) by lia. done.
Qed.

Lemma MergeView_assert_ok r r2 :
  RepWf r -> RepWf r2 -> bitmap_capacity r <= kMaxPartitions / 8 ->
  let r' := MergeView r (view_of r2) in
  MergeView_assert r (view_of r2) = true /\ bitmap_capacity r' <= kMaxPartitions / 8 /\
  radix r' = Z.max (radix r) (radix r2).
Proof.
  intros Hwf Hwf2 Hcap. apply (DoMerge_assert_ok r r2); try done.
  - apply ToSlice_size, Hwf2.
  - apply (MergeView_spec r r2 Hwf Hwf2).
Qed.

Lemma NewRep_capacity z : bitmap_capacity (NewRep z) <= kMaxPartitions / 8 /\ radix (NewRep z) = 0.
Proof. rewrite NewRep_eq. done. Qed.

Lemma Update_assert_ok o d r2 :
  RepWf r2 -> options d = o ->
  match rep d with Some r => RepWf r /\ bitmap_capacity r <= kMaxPartitions / 8 | None => True end ->
  Update_assert d (Encode r2) = true.
Proof.
  intros Hwf2 <- Hd. unfold Update_assert, Encode. rewrite ParseDirIndex_ToSlice by done.
  destruct (rep d) as [r|].
  - destruct (negb _); [done|]. apply (MergeView_assert_ok r r2); [apply Hd|done|apply Hd].
  - apply MergeView_assert_ok; [apply NewRep_wf|done|apply NewRep_capacity].
Qed.

(** Routing by a well-formed index of a directory with enough virtual servers. *)
Lemma HashToIndex_assert_ok o r hash :
  RepWf r -> 2 ^ radix r <= num_virtual_servers o -> HashToIndex_assert o r hash = true.
Proof.
  intros Hwf Hn. pose proof (wf_radix r Hwf) as Hr. unfold HashToIndex_assert, kMaxRadix in *.
  rewrite bit_root by done. rewrite (proj2 (Z.leb_le _ _)) by lia. cbn [andb]. apply Z.ltb_lt.
  rewrite ComputeIndexFromHash_mod by lia.
  pose proof (Z.mod_pos_bound (hash16 hash) (2 ^ radix r) ltac:(apply Z.pow_pos_nonneg; lia)). lia.
Qed.

(** The radix is determined by the partitions. *)
Lemma radix_ext r r' :
  RepWf r -> RepWf r' -> (forall i, 0 <= i -> bit r i = bit r' i) -> radix r = radix r'.
Proof.
  intros Hw Hw' Hb. destruct (HighestBit_spec r Hw) as (B1 & N1 & M1 & <-).
  destruct (HighestBit_spec r' Hw') as (B2 & N2 & M2 & <-). f_equal. apply Z.le_antisymm.
  - apply M2. by rewrite <- Hb.
  - apply M1. by rewrite Hb.
Qed.

(** Updating an index with the encoding of another of the same directory
    succeeds and yields the union of their partitions. *)
Lemma Update_spec o r r2 :
  RepWf r -> RepWf r2 -> zeroth_server r = zeroth_server r2 ->
  exists r', Update (mkDirIndex o (Some r)) (Encode r2) = Some (mkDirIndex o (Some r')) /\
    RepWf r' /\ zeroth_server r' = zeroth_server r /\
    (forall j, 0 <= j -> bit r' j = bit r2 j || bit r j).
Proof.
  intros Hwf Hwf2 Hz. exists (MergeView r (view_of r2)).
  split; [|by apply MergeView_spec].
  unfold Update, Encode. cbn [rep options]. rewrite ParseDirIndex_ToSlice by done.
  cbn [view_of v_zeroth_server]. by rewrite Hz, Z.eqb_refl.
Qed.

(** Loading an encoded index into an empty one restores it. *)
Lemma Update_empty_spec o r :
  RepWf r ->
  exists r', Update (DirIndex_empty o) (Encode r) = Some (mkDirIndex o (Some r')) /\
    RepWf r' /\ zeroth_server r' = zeroth_server r /\
    (forall j, 0 <= j -> bit r' j = bit r j).
Proof.
  intros Hwf. exists (MergeView (NewRep (zeroth_server r)) (view_of r)).
  destruct (NewRep_wf (zeroth_server r)) as [Hn Hnb].
  destruct (MergeView_spec (NewRep (zeroth_server r)) r Hn Hwf) as (Hw & Hz & Hb).
  split_and!.
  - unfold Update, DirIndex_empty, TEST_Reset, Encode. cbn [rep options].
    by rewrite ParseDirIndex_ToSlice.
  - done.
  - rewrite Hz, NewRep_eq. cbn [zeroth_server]. apply u16_small, Hwf.
  - intros j Hj. rewrite Hb, Hnb by done. destruct (Z.eqb_spec j 0) as [->|].
    + by rewrite bit_root.
    + by rewrite orb_false_r.
Qed.

(** ** Splitting *)

(** [NewIndexForSplitting] finds the first missing child. *)
Lemma IsSplittable_loop_spec o r index fuel : forall x,
  0 <= x -> kMaxRadix - x < Z.of_nat fuel -> IsSplittable_loop fuel o r index x = true ->
  exists k, x <= k < kMaxRadix /\ bit r (ToChildIndex index k) = false /\
    ToChildIndex index k < num_virtual_servers o /\
    (forall j, x <= j < k -> bit r (ToChildIndex index j) = true).
Proof.
  induction fuel as [|fuel IH]; intros x Hx Hf; [done|]. cbn [IsSplittable_loop].
  destruct (Z.ltb_spec x kMaxRadix); [|done].
  destruct (bit r (ToChildIndex index x)) eqn:Hb; cbn [negb].
  - intros (k & Hk & Hbk & Hlt & Hall)%IH; [|lia..]. exists k. split_and!; [lia..|done|done|].
    intros j Hj. destruct (Z.eq_dec j x) as [->|]; [done|]. apply Hall. lia.
  - intros Hlt%Z.ltb_lt. exists x. split_and!; [lia..|done|done|lia].
Qed.

Lemma NewIndex_loop_spec r index k fuel : forall x,
  x <= k -> k - x < Z.of_nat fuel - 1 ->
  bit r (ToChildIndex index k) = false ->
  (forall j, x <= j < k -> bit r (ToChildIndex index j) = true) ->
  forall i, bit r i = true -> NewIndex_loop fuel r index i x = ToChildIndex index k.
Proof.
  induction fuel as [|fuel IH]; intros x Hx Hf Hk Hall i Hi; [lia|].
  cbn [NewIndex_loop]. rewrite Hi. destruct (Z.eq_dec x k) as [->|].
  - destruct fuel as [|fuel]; [lia|]. cbn [NewIndex_loop]. by rewrite Hk.
  - apply IH; try lia; [done| |].
    + intros. apply Hall. lia.
    + apply Hall. lia.
Qed.

Lemma NewIndexForSplitting_spec o r p :
  RepWf r -> 0 <= p -> IsSplittable o r p = true ->
  exists k, ToRadix p <= k < kMaxRadix /\ k <= radix r /\
    NewIndexForSplitting r p = ToChildIndex p k /\ bit r p = true /\
    bit r (ToChildIndex p k) = false /\ ToChildIndex p k < num_virtual_servers o.
Proof.
  intros Hwf Hp. unfold IsSplittable. destruct (bit r p) eqn:Hb; [|done]. cbn [negb].
  pose proof (ToRadix_nonneg p). pose proof (wf_radix r Hwf). intros Hs.
  apply IsSplittable_loop_spec in Hs as (k & Hk & Hbk & Hlt & Hall);
    [|done|unfold kMaxRadix; lia].
  exists k. split_and!; [lia..| | |done|done|done].
  - destruct (Z.eq_dec k (ToRadix p)) as [->|].
    + apply ToRadix_le; [done|lia|]. by apply bit_lt.
    + specialize (Hall (k - 1) ltac:(lia)). apply bit_lt in Hall; [|done].
      unfold ToChildIndex in Hall. rewrite Z.shiftl_1_l in Hall.
      assert (k - 1 < radix r); [|lia]. apply (Z.pow_lt_mono_r_iff 2); lia.
  - apply NewIndex_loop_spec; try done; unfold kMaxRadix in *; lia.
Qed.

Lemma ToChildIndex_bounds p k :
  0 <= p -> ToRadix p <= k -> p < ToChildIndex p k < 2 ^ (k + 1).
Proof.
  intros Hp Hk. pose proof (ToRadix_nonneg p). pose proof (ToRadix_lt p Hp).
  assert (2 ^ ToRadix p <= 2 ^ k) by (apply Z.pow_le_mono_r; lia).
  unfold ToChildIndex. rewrite Z.shiftl_1_l, Z.pow_add_r by lia. lia.
Qed.

(** Creating the child keeps the representation well formed. *)
Lemma split_wf o r p :
  RepWf r -> 0 <= p -> IsSplittable o r p = true ->
  let c := NewIndexForSplitting r p in
  RepWf (TurnOnBit r c) /\ (forall j, 0 <= j -> bit (TurnOnBit r c) j = (j =? c) || bit r j).
Proof.
  intros Hwf Hp Hs c. destruct (NewIndexForSplitting_spec o r p Hwf Hp Hs)
    as (k & Hk & Hkr & Ec & _). unfold c. rewrite Ec.
  pose proof (ToChildIndex_bounds p k Hp ltac:(lia)). unfold kMaxRadix in Hk.
  pose proof (ToRadix_nonneg p). destruct (wf_cap r Hwf) as (m & Hm & Em & Hrm).
  apply TurnOnBit_spec; [done| |].
  - change kMaxPartitions with (2 ^ 16).
    assert (2 ^ (k + 1) <= 2 ^ 16) by (apply Z.pow_le_mono_r; lia). lia.
  - rewrite Em. assert (2 ^ (k + 1) <= 2 ^ (m + 4)) by (apply Z.pow_le_mono_r; lia).
    rewrite (Z.pow_add_r 2 m 4) in * by lia. lia.
Qed.

Lemma deepest_split r r' p k hash :
  0 <= p -> ToRadix p <= k < kMaxRadix -> bit r p = true ->
  (forall j, 0 <= j -> bit r' j = (j =? ToChildIndex p k) || bit r j) ->
  bit r (ToChildIndex p k) = false ->
  deepest r hash (HashToIndex r hash) ->
  deepest r' hash
    (if (HashToIndex r hash =? p) && ToBeMigrated (ToChildIndex p k) hash
     then ToChildIndex p k else HashToIndex r hash).
Proof.
  unfold kMaxRadix. intros Hp Hk Hbp Hb Hc. set (c := ToChildIndex p k) in *.
  set (q := HashToIndex r hash). intros (Hq & Hcq & Hmax).
  pose proof (covers_nonneg _ _ Hcq). pose proof (ToRadix_nonneg p).
  pose proof (ToChildIndex_bounds p k Hp ltac:(lia)) as Hcb. fold c in Hcb.
  assert (2 ^ (k + 1) <= 2 ^ 16) by (apply Z.pow_le_mono_r; lia).
  assert (Hmig : ToBeMigrated c hash = true <-> covers c hash)
    by (apply ToBeMigrated_covers; change kMaxPartitions with (2 ^ 16); lia).
  destruct (Z.eqb_spec q p) as [->|Hne]; cbn [andb].
  - destruct (ToBeMigrated c hash) eqn:Em.
    + pose proof (proj1 Hmig eq_refl). split_and!; [|done|].
      * rewrite Hb by lia. by rewrite Z.eqb_refl.
      * intros j Hj Hcj. pose proof (covers_nonneg _ _ Hcj). rewrite Hb in Hj by lia.
        apply orb_true_iff in Hj as [->%Z.eqb_eq|Hj]; [done|]. specialize (Hmax j Hj Hcj). lia.
    + split_and!; [|done|].
      * rewrite Hb by lia. by rewrite Hq, orb_true_r.
      * intros j Hj Hcj. pose proof (covers_nonneg _ _ Hcj). rewrite Hb in Hj by lia.
        apply orb_true_iff in Hj as [->%Z.eqb_eq|Hj]; [|by apply Hmax].
        by apply Hmig in Hcj.
  - split_and!; [|done|].
    + rewrite Hb by lia. by rewrite Hq, orb_true_r.
    + intros j Hj Hcj. pose proof (covers_nonneg _ _ Hcj). rewrite Hb in Hj by lia.
      apply orb_true_iff in Hj as [->%Z.eqb_eq|Hj]; [|by apply Hmax].
      assert (Hcp : covers p hash).
      { apply covers_parent in Hcj. unfold c in Hcj. by rewrite ToParent_ToChild in Hcj by lia. }
      pose proof (Hmax p Hbp Hcp). assert (q <> c) by (intros E; rewrite E in Hq; congruence).
      destruct (Z.lt_ge_cases q c); [|lia]. exfalso.
      pose proof (covers_lt_parent q c hash Hcq Hcj ltac:(done)) as Hle. unfold c in Hle.
      rewrite ToParent_ToChild in Hle by lia. lia.
Qed.

(** ** Theorems about the index *)

Section Theorems.
Context (o : DirIndexOptions).

(** C31. Splitting a partition: after the bit of the new child is set, the child
    gets exactly the hashes of the split partition that [ToBeMigrated] names;
    every other hash keeps its partition. *)
Theorem giga_split_migrates r p hash
  (Hwf : RepWf r) (Hp : 0 <= p) (Hs : IsSplittable o r p = true) :
  let c := NewIndexForSplitting r p in
  HashToIndex (TurnOnBit r c) hash =
    if (HashToIndex r hash =? p) && ToBeMigrated c hash then c else HashToIndex r hash.
Proof.
  intros c. destruct (split_wf o r p Hwf Hp Hs) as [Hw Hb]. fold c in Hw, Hb.
  destruct (NewIndexForSplitting_spec o r p Hwf Hp Hs) as (k & Hk & _ & Ec & Hbp & Hbc & _).
  apply (deepest_unique (TurnOnBit r c) hash); [by apply HashToIndex_deepest|].
  unfold c in *. rewrite Ec in *. apply deepest_split; try done. by apply HashToIndex_deepest.
Qed.

(** C32. Merging a server's index into a client's: when the client knows a part
    of the server's partitions, [Update] with the server's encoding succeeds, and
    afterwards the client sends every hash to the server the server itself names. *)
Theorem giga_update_converges rc rs hash
  (Hwc : RepWf rc) (Hws : RepWf rs) (Hz : zeroth_server rc = zeroth_server rs)
  (Hsub : forall i, 0 <= i -> bit rc i = true -> bit rs i = true) :
  exists rc', Update (mkDirIndex o (Some rc)) (Encode rs) = Some (mkDirIndex o (Some rc')) /\
    RepWf rc' /\ HashToServer o rc' hash = HashToServer o rs hash.
Proof.
  destruct (Update_spec o rc rs Hwc Hws Hz) as (r' & E & Hw & Hz' & Hb).
  exists r'. split_and!; [done..|]. unfold HashToServer, GetServerForIndex.
  rewrite Hz', Hz. f_equal. apply HashToIndex_ext; [done..|].
  intros i Hi. rewrite Hb by done. specialize (Hsub i Hi).
  destruct (bit rs i), (bit rc i); try done. by rewrite Hsub.
Qed.

End Theorems.

Definition demo_giga : DirIndexOptions := mkGiga 2 4 false.

Lemma giga_split_migrates_witness :
  HashToIndex (TurnOnBit (NewRep 0) 1) [128; 0] = 1 /\ HashToIndex (TurnOnBit (NewRep 0) 1) [0; 0] = 0.
Proof.
  assert (Hs : IsSplittable demo_giga (NewRep 0) 0 = true) by (vm_compute; reflexivity).
  assert (Hc : NewIndexForSplitting (NewRep 0) 0 = 1) by (vm_compute; reflexivity).
  pose proof (fun h => giga_split_migrates demo_giga (NewRep 0) 0 h (proj1 (NewRep_wf 0))
    (Z.le_refl 0) Hs) as H.
  cbv zeta in H. rewrite Hc in H. split; rewrite H; vm_compute; reflexivity.
Defined.

Lemma giga_update_converges_witness :
  exists rc', Update (mkDirIndex demo_giga (Some (NewRep 0))) (Encode (TurnOnBit (NewRep 0) 1))
              = Some (mkDirIndex demo_giga (Some rc')) /\
    HashToServer demo_giga rc' [128; 0] = HashToServer demo_giga (TurnOnBit (NewRep 0) 1) [128; 0].
Proof.
  assert (Hs : IsSplittable demo_giga (NewRep 0) 0 = true) by (vm_compute; reflexivity).
  destruct (split_wf demo_giga (NewRep 0) 0 (proj1 (NewRep_wf 0)) (Z.le_refl 0) Hs) as [Hw Hb].
  change (NewIndexForSplitting (NewRep 0) 0) with 1 in Hw, Hb.
  destruct (giga_update_converges demo_giga (NewRep 0) (TurnOnBit (NewRep 0) 1) [128; 0]
    (proj1 (NewRep_wf 0)) Hw) as (rc' & E & _ & H).
  - vm_compute. reflexivity.
  - intros i Hi Hbit. rewrite (proj2 (NewRep_wf 0)) in Hbit by exact Hi. apply Z.eqb_eq in Hbit as ->.
    vm_compute. reflexivity.
  - exists rc'. split; [exact E|exact H].
Defined.
