(* ===== verification/Lru.v ===== *)
(** * The LRU cache (external/pdlfs-common: include/pdlfs-common/lru.h)

    [LRUCache<E>] with its two entry lists, its hash table and its usage
    counters.  An entry is a heap object named by a number ([E*]); [in_use] and
    [lru] are the circular lists read from their dummy heads ([lru] from the
    oldest entry), [table] is [table_].  The callers compute an entry's hash
    from its key, so the table is indexed by the key alone.

    A deleter runs when an entry loses its last reference; here an operation
    returns the values it passed to the deleter, in order, for the client to
    act on.  [size_t] usages are mathematical integers. *)
From S2P Require Import Prelude.

Section LRUCache.
Context {V : Type}.

Record Entry := mkEntry {
  e_key : bytes; e_value : V; e_charge : Z; e_refs : Z; e_in_cache : bool }.

Record LRU := mkLRU {
  capacity : Z; total_usage : Z; usage : Z;
  in_use : list nat; lru : list nat; table : gmap bytes nat;
  heap : gmap nat Entry; next : nat }.

Definition LRU_empty (cap : Z) : LRU := mkLRU cap 0 0 [] [] ∅ ∅ 0.

Definition set_refs (e : Entry) (n : Z) : Entry :=
  mkEntry (e_key e) (e_value e) (e_charge e) n (e_in_cache e).
Definition set_in_cache (e : Entry) (b : bool) : Entry :=
  mkEntry (e_key e) (e_value e) (e_charge e) (e_refs e) b.

(** [LRU_Remove(e)], whichever list holds it, and [LRU_Append(&lru_, e)] /
    [LRU_Append(&in_use_, e)]. *)
Definition remove_id (id : nat) (l : list nat) : list nat := filter (.≠ id) l.

(** An operation's new cache and the values it sent to the deleter. *)
Definition Unref (c : LRU) (id : nat) : LRU * list V :=
  match heap c !! id with
  | None => (c, [])
  | Some e =>
      let e := set_refs e (e_refs e - 1) in
      if e_refs e =? 0 then
        (mkLRU (capacity c) (total_usage c - e_charge e) (usage c)
           (remove_id id (in_use c)) (remove_id id (lru c)) (table c)
           (delete id (heap c)) (next c),
         [e_value e])
      else if e_in_cache e && (e_refs e =? 1) then
        (mkLRU (capacity c) (total_usage c) (usage c)
           (remove_id id (in_use c)) (remove_id id (lru c) ++ [id]) (table c)
           (<[id := e]> (heap c)) (next c), [])
      else
        (mkLRU (capacity c) (total_usage c) (usage c) (in_use c) (lru c) (table c)
           (<[id := e]> (heap c)) (next c), [])
  end.

(** [Remove(e)]: the entry has already left [table_]. *)
Definition Remove (c : LRU) (id : nat) : LRU * list V :=
  match heap c !! id with
  | None => (c, [])
  | Some e =>
      Unref (mkLRU (capacity c) (total_usage c) (usage c - e_charge e) (in_use c) (lru c)
               (table c) (<[id := set_in_cache e false]> (heap c)) (next c)) id
  end.

Definition set_table (c : LRU) (t : gmap bytes nat) : LRU :=
  mkLRU (capacity c) (total_usage c) (usage c) (in_use c) (lru c) t (heap c) (next c).

(** [table_.Remove(key)] followed by [Remove(victim)]. *)
Definition evict_key (c : LRU) (key : bytes) : LRU * list V :=
  match table c !! key with
  | None => (c, [])
  | Some id => Remove (set_table c (delete key (table c))) id
  end.

(** The loop of [Insert]: evict the oldest idle entries while over capacity.
    Each iteration shortens [lru], so its length bounds the iterations. *)
Fixpoint make_room (fuel : nat) (c : LRU) : LRU * list V :=
  match fuel with
  | O => (c, [])
  | S fuel =>
      match lru c with
      | a :: _ =>
          if capacity c <? usage c then
            match heap c !! a with
            | Some e =>
                let (c, d1) := evict_key c (e_key e) in
                let (c, d2) := make_room fuel c in (c, d1 ++ d2)
            | None => (c, [])
            end
          else (c, [])
      | [] => (c, [])
      end
  end.

Definition Insert (c : LRU) (key : bytes) (value : V) (charge : Z) : nat * LRU * list V :=
  let id := next c in
  let e := mkEntry key value charge 1 false in
  let c := mkLRU (capacity c) (total_usage c + charge) (usage c) (in_use c ++ [id]) (lru c)
             (table c) (<[id := e]> (heap c)) (S id) in
  if capacity c =? 0 then (id, c, [])
  else
    let old := table c !! key in
    let c := mkLRU (capacity c) (total_usage c) (usage c + charge) (in_use c) (lru c)
               (<[key := id]> (table c))
               (<[id := mkEntry key value charge 2 true]> (heap c)) (next c) in
    let (c, d1) := match old with Some o => Remove c o | None => (c, []) end in
    let (c, d2) := make_room (length (lru c)) c in
    let (c, d3) := if capacity c <? usage c then evict_key c key else (c, []) in
    (id, c, d1 ++ d2 ++ d3).

(** [Ref(e)] *)
Definition Ref (c : LRU) (id : nat) : LRU :=
  match heap c !! id with
  | None => c
  | Some e =>
      let move := (e_refs e =? 1) && e_in_cache e in
      mkLRU (capacity c) (total_usage c) (usage c)
        (if move then remove_id id (in_use c) ++ [id] else in_use c)
        (if move then remove_id id (lru c) else lru c)
        (table c) (<[id := set_refs e (e_refs e + 1)]> (heap c)) (next c)
  end.

Definition Lookup (c : LRU) (key : bytes) : option nat * LRU :=
  match table c !! key with
  | Some id => (Some id, Ref c id)
  | None => (None, c)
  end.

Definition Release (c : LRU) (id : nat) : LRU * list V := Unref c id.
Definition Erase (c : LRU) (key : bytes) : LRU * list V := evict_key c key.
Definition Exists (c : LRU) (key : bytes) : bool := bool_decide (is_Some (table c !! key)).
Definition Empty (c : LRU) : bool := bool_decide (table c = ∅).

Fixpoint Prune_loop (fuel : nat) (c : LRU) : LRU * list V :=
  match fuel with
  | O => (c, [])
  | S fuel =>
      match lru c with
      | a :: _ =>
          match heap c !! a with
          | Some e =>
              let (c, d1) := evict_key c (e_key e) in
              let (c, d2) := Prune_loop fuel c in (c, d1 ++ d2)
          | None => (c, [])
          end
      | [] => (c, [])
      end
  end.
Definition Prune (c : LRU) : LRU * list V := Prune_loop (length (lru c)) c.

(** ** Sums over the heap *)

Definition hsum (f : Entry -> Z) (m : gmap nat Entry) : Z :=
  map_fold (fun _ e acc => f e + acc) 0 m.

Lemma hsum_insert f m i e : m !! i = None -> hsum f (<[i := e]> m) = f e + hsum f m.
Proof. intros. unfold hsum. rewrite map_fold_insert_L; [done|intros; lia|done]. Qed.

Lemma hsum_delete f m i e : m !! i = Some e -> hsum f m = f e + hsum f (delete i m).
Proof. intros. unfold hsum. rewrite (map_fold_delete_L _ _ i e); [done|intros; lia|done]. Qed.

Lemma hsum_update f m i e e' :
  m !! i = Some e -> hsum f (<[i := e']> m) = hsum f m - f e + f e'.
Proof.
  intros Hm. rewrite (hsum_delete f m i e Hm).
  rewrite <- insert_delete_eq, hsum_insert by apply lookup_delete_eq. lia.
Qed.

Definition cached_charge (e : Entry) : Z := if e_in_cache e then e_charge e else 0.

Lemma cached_charge_in e : e_in_cache e = true -> cached_charge e = e_charge e.
Proof. intros E. unfold cached_charge. by rewrite E. Qed.
Lemma cached_charge_out e : e_in_cache e = false -> cached_charge e = 0.
Proof. intros E. unfold cached_charge. by rewrite E. Qed.

(** ** The invariant

    [lru] holds the entries referenced only by the cache, [in_use] the others;
    the table indexes exactly the entries in the cache; the counters are the
    sums of the charges; the usage does not exceed the capacity. *)
Definition idle (e : Entry) : Prop := e_refs e = 1 /\ e_in_cache e = true.

(** Everything but the capacity bound, where the entry [x], if any, is still
    marked as cached but has already left the table. *)
Record InvX (x : option nat) (c : LRU) : Prop := {
  inv_in_use : forall id, id ∈ in_use c <-> exists e, heap c !! id = Some e /\ ~ idle e;
  inv_lru : forall id, id ∈ lru c <-> exists e, heap c !! id = Some e /\ idle e;
  inv_nodup_u : NoDup (in_use c);
  inv_nodup_l : NoDup (lru c);
  inv_refs : forall id e, heap c !! id = Some e -> 1 <= e_refs e /\ 0 <= e_charge e;
  inv_table : forall key id, table c !! key = Some id <->
      Some id <> x /\ exists e, heap c !! id = Some e /\ e_key e = key /\ e_in_cache e = true;
  inv_usage : usage c = hsum cached_charge (heap c);
  inv_total : total_usage c = hsum e_charge (heap c);
  inv_next : forall id, is_Some (heap c !! id) -> (id < next c)%nat;
  inv_capacity : 0 <= capacity c;
  inv_off : capacity c = 0 -> table c = ∅
}.

Definition LRUInv (c : LRU) : Prop := InvX None c /\ usage c <= capacity c.

(** ** Lists of ids *)

Lemma elem_of_remove_id x id l : x ∈ remove_id id l <-> x <> id /\ x ∈ l.
Proof. unfold remove_id. by rewrite list_elem_of_filter. Qed.

Lemma NoDup_remove_id id l : NoDup l -> NoDup (remove_id id l).
Proof. apply NoDup_filter. Qed.

Lemma remove_id_not_in id l : id ∉ l -> remove_id id l = l.
Proof.
  intros Hn. unfold remove_id. induction l as [|y l IH]; [done|].
  rewrite filter_cons. rewrite not_elem_of_cons in Hn. destruct Hn as [Hne Hn].
  rewrite decide_True by congruence. by rewrite IH.
Qed.

(** ** Removal from the cache *)

(** [Remove] on the two cases of the reference count. *)
Lemma Remove_eq c o e : heap c !! o = Some e ->
  Remove c o =
    if e_refs e =? 1 then
      (mkLRU (capacity c) (total_usage c - e_charge e) (usage c - e_charge e)
         (remove_id o (in_use c)) (remove_id o (lru c)) (table c)
         (delete o (heap c)) (next c), [e_value e])
    else
      (mkLRU (capacity c) (total_usage c) (usage c - e_charge e) (in_use c) (lru c) (table c)
         (<[o := set_refs (set_in_cache e false) (e_refs e - 1)]> (heap c)) (next c), []).
Proof.
  intros He. unfold Remove. rewrite He. unfold Unref.
  cbn [capacity total_usage usage in_use lru table heap next].
  rewrite lookup_insert_eq. cbn [set_refs set_in_cache e_refs e_in_cache e_charge e_value andb].
  replace (e_refs e - 1 =? 0) with (e_refs e =? 1) by (cmp_cases; lia || done).
  case_match; [by rewrite delete_insert_eq|by rewrite insert_insert_eq].
Qed.

Ltac lru_fields :=
  cbn [fst snd capacity total_usage usage in_use lru table heap next set_table
       set_refs set_in_cache e_refs e_in_cache e_charge e_value e_key] in *.

Lemma Remove_inv c o e :
  InvX (Some o) c -> heap c !! o = Some e -> e_in_cache e = true -> InvX None (fst (Remove c o)).
Proof.
  intros HI He Hc. rewrite (Remove_eq c o e He).
  destruct HI as [Hu Hl Nu Nl Hr Ht Us To Nx Cp Of]. pose proof (Hr o e He) as Hro.
  destruct (Z.eqb_spec (e_refs e) 1) as [E1|E1]; lru_fields.
  - split; lru_fields; try done; try by apply NoDup_remove_id.
    + intros id. rewrite elem_of_remove_id, Hu. setoid_rewrite lookup_delete_Some. naive_solver.
    + intros id. rewrite elem_of_remove_id, Hl. setoid_rewrite lookup_delete_Some. naive_solver.
    + intros id e' [_ He']%lookup_delete_Some. by eapply Hr.
    + intros key id. rewrite Ht. setoid_rewrite lookup_delete_Some. split.
      * intros (Hne & e' & ? & ? & ?). split; [done|]. exists e'.
        split_and!; [congruence|done..].
      * intros (_ & e' & [Hne ?] & ? & ?). split; [congruence|]. by exists e'.
    + pose proof (hsum_delete cached_charge _ _ _ He) as Es. rewrite (cached_charge_in e Hc) in Es. lia.
    + pose proof (hsum_delete e_charge _ _ _ He). lia.
    + intros id [? [_ ?]%lookup_delete_Some]. by apply Nx.
  - assert (Hni : ~ idle e) by (unfold idle; naive_solver).
    split; lru_fields; try done.
    + intros id. rewrite Hu. destruct (decide (id = o)) as [->|].
      * rewrite lookup_insert_eq. unfold idle. naive_solver.
      * by rewrite lookup_insert_ne.
    + intros id. rewrite Hl. destruct (decide (id = o)) as [->|].
      * rewrite lookup_insert_eq. unfold idle in *. naive_solver.
      * by rewrite lookup_insert_ne.
    + intros id e'. destruct (decide (id = o)) as [->|].
      * rewrite lookup_insert_eq. intros [= <-]. lru_fields. lia.
      * rewrite lookup_insert_ne by done. apply Hr.
    + intros key id. rewrite Ht. destruct (decide (id = o)) as [->|].
      * rewrite lookup_insert_eq. split; [intros [? _]; congruence|].
        intros (_ & e' & [= <-] & _ & Hf). done.
      * rewrite lookup_insert_ne by done. split; intros [_ ?]; (split; [congruence|done]).
    + set (e' := set_refs _ _).
      pose proof (hsum_update cached_charge _ _ _ e' He) as Es.
      rewrite (cached_charge_in e Hc), (cached_charge_out e' eq_refl) in Es. lia.
    + set (e' := set_refs _ _). pose proof (hsum_update e_charge _ _ _ e' He) as Es.
      change (e_charge e') with (e_charge e) in Es. lia.
    + intros id. destruct (decide (id = o)) as [->|].
      * intros _. apply Nx. by eexists.
      * rewrite lookup_insert_ne by done. apply Nx.
Qed.

Lemma InvX_set_table c key id :
  InvX None c -> table c !! key = Some id ->
  InvX (Some id) (set_table c (delete key (table c))).
Proof.
  intros [Hu Hl Nu Nl Hr Ht Us To Nx Cp Of] Hk.
  pose proof (proj1 (Ht key id) Hk) as (_ & e & He & Hkey & _).
  split; lru_fields; try done; [|intros Hz; by rewrite (Of Hz), delete_empty].
  intros key' id'. rewrite lookup_delete_Some, Ht. split.
  - intros (Hne & _ & e' & He' & Hk' & Hc'). split; [congruence|by exists e'].
  - intros (Hne & e' & He' & Hk' & Hc').
    assert (table c !! key' = Some id') by (apply Ht; split; [done|by exists e']).
    split; [congruence|]. split; [done|by exists e'].
Qed.

Lemma evict_key_inv c key : InvX None c -> InvX None (fst (evict_key c key)).
Proof.
  intros HI. unfold evict_key. destruct (table c !! key) as [id|] eqn:Hk; [|done].
  pose proof (proj1 (inv_table _ _ HI key id) Hk) as (_ & e & He & _ & Hc).
  eapply Remove_inv; [by apply InvX_set_table|exact He|exact Hc].
Qed.

(** Evicting the oldest idle entry deletes it and nothing else. *)
Lemma evict_head c a l e :
  InvX None c -> lru c = a :: l -> heap c !! a = Some e ->
  evict_key c (e_key e) =
    (mkLRU (capacity c) (total_usage c - e_charge e) (usage c - e_charge e) (in_use c) l
       (delete (e_key e) (table c)) (delete a (heap c)) (next c), [e_value e]).
Proof.
  intros HI Hl He. pose proof HI as [Hu Hlr Nu Nl Hr Ht Us To Nx Cp Of].
  assert (Hidle : idle e).
  { destruct (proj1 (Hlr a)) as (e' & He' & ?); [rewrite Hl; by left|]. congruence. }
  destruct Hidle as [E1 E2].
  assert (Hk : table c !! e_key e = Some a) by (apply Ht; split; [done|by exists e]).
  unfold evict_key. rewrite Hk. rewrite (Remove_eq _ a e) by exact He. rewrite E1. lru_fields.
  cbn. f_equal. f_equal.
  - apply remove_id_not_in. intros Hin. apply Hu in Hin as (e' & He' & Hn).
    apply Hn. assert (e' = e) as -> by congruence. done.
  - rewrite Hl in Nl |- *. apply NoDup_cons in Nl as [Hni _].
    unfold remove_id. rewrite filter_cons, decide_False by naive_solver.
    by apply remove_id_not_in.
Qed.

Lemma lru_head c a l : InvX None c -> lru c = a :: l -> exists e, heap c !! a = Some e.
Proof.
  intros HI Hl. destruct (proj1 (inv_lru _ _ HI a)) as (e & ? & _); [rewrite Hl; by left|by exists e].
Qed.

(** The eviction loop removes a prefix of the idle list, oldest first, and
    stops as soon as the usage fits or nothing idle is left. *)
Record evicted (c c' : LRU) (ev : list nat) : Prop := {
  ev_lru : lru c = ev ++ lru c';
  ev_in_use : in_use c' = in_use c;
  ev_capacity : capacity c' = capacity c;
  ev_next : next c' = next c;
  ev_heap : forall id, heap c' !! id = if decide (id ∈ ev) then None else heap c !! id;
  ev_usage : usage c' <= usage c
}.

Lemma make_room_spec fuel : forall c,
  InvX None c -> (length (lru c) <= fuel)%nat ->
  let c' := fst (make_room fuel c) in
  InvX None c' /\ (exists ev, evicted c c' ev) /\ (usage c' <= capacity c' \/ lru c' = []).
Proof.
  induction fuel as [|fuel IH]; intros c HI Hf; cbn [make_room].
  - assert (lru c = []) as Hl by (apply length_zero_iff_nil; lia).
    split_and!; [done| |by right]. exists []. by split.
  - destruct (lru c) as [|a l] eqn:Hl; [split_and!; [done| |by right]; exists []; by split|].
    destruct (Z.ltb_spec (capacity c) (usage c)).
    2: { split_and!; [done| |left; cbn; lia]. exists []. by split. }
    destruct (lru_head c a l HI Hl) as [e He]. rewrite He.
    pose proof (evict_key_inv c (e_key e) HI) as HI'.
    rewrite (evict_head c a l e HI Hl He) in HI' |- *. set (c1 := mkLRU _ _ _ _ _ _ _ _) in *.
    pose proof (inv_refs _ _ HI a e He) as [_ Hch].
    destruct (IH c1 HI') as (HI2 & (ev & Hev) & Hdone).
    { unfold c1. lru_fields. simpl in Hf. lia. }
    destruct (make_room fuel c1) as [c2 d2] eqn:E2. cbn [fst] in *.
    split_and!; [done| |done]. exists (a :: ev). destruct Hev as [H1 H2 H3 H4 H5 H6].
    unfold c1 in *. lru_fields. split; cbn [app]; try done; try congruence; try lia.
    intros id. rewrite H5. destruct (decide (id = a)) as [->|].
    + rewrite (decide_True (P := a ∈ a :: ev)) by (by left).
      case_decide; [done|]. apply lookup_delete_eq.
    + rewrite lookup_delete_ne by done.
      destruct (decide (id ∈ ev)), (decide (id ∈ a :: ev)); try done; set_solver.
Qed.

(** [Prune] empties the idle list. *)
Lemma Prune_loop_spec fuel : forall c,
  InvX None c -> (length (lru c) <= fuel)%nat ->
  let c' := fst (Prune_loop fuel c) in
  InvX None c' /\ lru c' = [] /\ in_use c' = in_use c /\ capacity c' = capacity c /\
  usage c' <= usage c.
Proof.
  induction fuel as [|fuel IH]; intros c HI Hf; cbn [Prune_loop].
  - assert (lru c = []) as Hl by (apply length_zero_iff_nil; lia). by split_and!.
  - destruct (lru c) as [|a l] eqn:Hl; [by split_and!|].
    destruct (lru_head c a l HI Hl) as [e He]. rewrite He.
    pose proof (evict_key_inv c (e_key e) HI) as HI'.
    rewrite (evict_head c a l e HI Hl He) in HI' |- *. set (c1 := mkLRU _ _ _ _ _ _ _ _) in *.
    pose proof (inv_refs _ _ HI a e He) as [_ Hch].
    destruct (IH c1 HI') as (HI2 & H1 & H2 & H3 & H4).
    { unfold c1. lru_fields. simpl in Hf. lia. }
    destruct (Prune_loop fuel c1) as [c2 d2] eqn:E2. unfold c1 in *. lru_fields.
    split_and!; try done. lia.
Qed.

(** ** Insertion *)

(** The state after the new entry is linked and indexed, before evictions. *)
Definition linked (c : LRU) (key : bytes) (value : V) (charge : Z) : LRU :=
  mkLRU (capacity c) (total_usage c + charge) (usage c + charge) (in_use c ++ [next c]) (lru c)
    (<[key := next c]> (table c))
    (<[next c := mkEntry key value charge 2 true]> (heap c)) (S (next c)).

Lemma next_fresh c x : InvX x c -> heap c !! next c = None.
Proof.
  intros HI. destruct (heap c !! next c) eqn:E; [|done].
  pose proof (inv_next _ _ HI (next c) (mk_is_Some _ _ E)). lia.
Qed.

Lemma linked_inv c key value charge :
  InvX None c -> 0 <= charge -> capacity c <> 0 ->
  InvX (table c !! key) (linked c key value charge).
Proof.
  intros HI Hch Hnz. pose proof (next_fresh _ _ HI) as Hf.
  pose proof HI as [Hu Hl Nu Nl Hr Ht Us To Nx Cp Of].
  assert (Hni : ~ idle (mkEntry key value charge 2 true)) by (unfold idle; cbn; lia).
  split; unfold linked; lru_fields; try done.
  - intros id. rewrite elem_of_app, list_elem_of_singleton, Hu.
    destruct (decide (id = next c)) as [->|].
    + rewrite lookup_insert_eq. split; [intros _; by eexists|intros _; by right].
    + rewrite lookup_insert_ne by done. split; [intros [?|?]; done|intros ?; by left].
  - intros id. rewrite Hl. destruct (decide (id = next c)) as [->|].
    + rewrite lookup_insert_eq, Hf. split; [by intros (? & ? & ?)|].
      intros (e & [= <-] & ?). done.
    + by rewrite lookup_insert_ne.
  - apply NoDup_app. split_and!; [done| |apply NoDup_singleton].
    intros id Hin ->%list_elem_of_singleton. apply Hu in Hin as (e & ? & _). congruence.
  - intros id e. destruct (decide (id = next c)) as [->|].
    + rewrite lookup_insert_eq. intros [= <-]. cbn. lia.
    + rewrite lookup_insert_ne by done. apply Hr.
  - intros key' id. destruct (decide (key' = key)) as [->|Hk].
    + rewrite lookup_insert_eq. split.
      * intros [= <-]. split.
        { intros E. symmetry in E. apply Ht in E as (_ & e & ? & _). congruence. }
        exists (mkEntry key value charge 2 true). by rewrite lookup_insert_eq.
      * intros (Hne & e & He & Hke & Hce). f_equal.
        destruct (decide (id = next c)); [done|]. rewrite lookup_insert_ne in He by done.
        destruct Hne. symmetry. apply Ht. split; [done|by exists e].
    + rewrite lookup_insert_ne, Ht by done. destruct (decide (id = next c)) as [->|].
      * rewrite lookup_insert_eq, Hf. split; [by intros (_ & ? & ? & _)|].
        intros (_ & e & [= <-] & Hke & _). cbn in Hke. congruence.
      * rewrite lookup_insert_ne by done. split.
        { intros (_ & e & He & Hke & Hce). split; [|by exists e]. intros E. symmetry in E.
          apply Ht in E as (_ & e' & He' & Hke' & _). congruence. }
        { intros (_ & e & ?). split; [done|by exists e]. }
  - rewrite hsum_insert by done. rewrite cached_charge_in by done. cbn [e_charge]. lia.
  - rewrite hsum_insert by done. cbn [e_charge]. lia.
  - intros id. destruct (decide (id = next c)) as [->|]; [lia|].
    rewrite lookup_insert_ne by done. intros H. pose proof (Nx id H). lia.
Qed.

(** With caching off the new entry is referenced by the client only. *)
Lemma uncached_inv c key value charge :
  InvX None c -> 0 <= charge ->
  InvX None (mkLRU (capacity c) (total_usage c + charge) (usage c) (in_use c ++ [next c]) (lru c)
               (table c) (<[next c := mkEntry key value charge 1 false]> (heap c)) (S (next c))).
Proof.
  intros HI Hch. pose proof (next_fresh _ _ HI) as Hf.
  pose proof HI as [Hu Hl Nu Nl Hr Ht Us To Nx Cp Of].
  assert (Hni : ~ idle (mkEntry key value charge 1 false)) by (unfold idle; cbn; naive_solver).
  split; lru_fields; try done.
  - intros id. rewrite elem_of_app, list_elem_of_singleton, Hu.
    destruct (decide (id = next c)) as [->|].
    + rewrite lookup_insert_eq. split; [intros _; by eexists|intros _; by right].
    + rewrite lookup_insert_ne by done. split; [intros [?|?]; done|intros ?; by left].
  - intros id. rewrite Hl. destruct (decide (id = next c)) as [->|].
    + rewrite lookup_insert_eq, Hf. split; [by intros (? & ? & ?)|].
      intros (e & [= <-] & ?). done.
    + by rewrite lookup_insert_ne.
  - apply NoDup_app. split_and!; [done| |apply NoDup_singleton].
    intros id Hin ->%list_elem_of_singleton. apply Hu in Hin as (e & ? & _). congruence.
  - intros id e. destruct (decide (id = next c)) as [->|].
    + rewrite lookup_insert_eq. intros [= <-]. cbn. lia.
    + rewrite lookup_insert_ne by done. apply Hr.
  - intros key' id. rewrite Ht. destruct (decide (id = next c)) as [->|].
    + rewrite lookup_insert_eq, Hf. split; [by intros (_ & ? & ? & _)|].
      intros (_ & e & [= <-] & _ & ?). done.
    + by rewrite lookup_insert_ne.
  - rewrite hsum_insert by done. rewrite cached_charge_out by done. lia.
  - rewrite hsum_insert by done. cbn [e_charge]. lia.
  - intros id. destruct (decide (id = next c)) as [->|]; [lia|].
    rewrite lookup_insert_ne by done. intros H. pose proof (Nx id H). lia.
Qed.

(** The entry a key had before the insertion leaves the cache. *)
Lemma drop_old_spec c key value charge :
  InvX None c -> 0 <= charge -> capacity c <> 0 ->
  let c1 := linked c key value charge in
  let c2 := fst (match table c !! key with Some o => Remove c1 o | None => (c1, []) end) in
  InvX None c2 /\ usage c2 <= usage c + charge /\ capacity c2 = capacity c /\
  next c2 = S (next c) /\
  heap c2 !! next c = Some (mkEntry key value charge 2 true) /\
  (forall id e, heap c !! id = Some e -> e_key e <> key -> heap c2 !! id = Some e) /\
  (forall id e, heap c2 !! id = Some e -> id <> next c -> e_key e <> key -> heap c !! id = Some e).
Proof.
  intros HI Hch Hnz c1 c2. pose proof (linked_inv c key value charge HI Hch Hnz) as HL. fold c1 in HL.
  pose proof (next_fresh _ _ HI) as Hf.
  assert (Hnew : heap c1 !! next c = Some (mkEntry key value charge 2 true))
    by (unfold c1, linked; cbn; apply lookup_insert_eq).
  assert (Hold : forall id e, heap c !! id = Some e -> heap c1 !! id = Some e).
  { intros id e He. unfold c1, linked. cbn. rewrite lookup_insert_ne by congruence. done. }
  assert (Hback : forall id e, heap c1 !! id = Some e -> id <> next c -> heap c !! id = Some e).
  { intros id e He Hne. unfold c1, linked in He. cbn in He. by rewrite lookup_insert_ne in He. }
  unfold c2. destruct (table c !! key) as [o|] eqn:Ho.
  2: { cbn [fst]. split_and!; [done|unfold c1; cbn; lia|done|done|done| |]; intros;
       [by apply Hold|by apply Hback]. }
  apply (inv_table _ _ HI) in Ho as (_ & e & He & Hk & Hc).
  pose proof (inv_refs _ _ HI o e He) as [_ Hch'].
  split; [exact (Remove_inv c1 o e HL (Hold o e He) Hc)|].
  assert (Hne : o <> next c) by congruence.
  rewrite (Remove_eq c1 o e (Hold o e He)). case_match; lru_fields.
  - split_and!; [unfold c1; cbn; lia|done|done|by rewrite lookup_delete_ne| |].
    + intros id e' He' Hk'. rewrite lookup_delete_ne by congruence. by apply Hold.
    + intros id e' [_ He']%lookup_delete_Some Hn Hk'. by apply Hback.
  - split_and!; [unfold c1; cbn; lia|done|done|by rewrite lookup_insert_ne| |].
    + intros id e' He' Hk'. rewrite lookup_insert_ne by congruence. by apply Hold.
    + intros id e' [[-> <-]|[_ He']]%lookup_insert_Some Hn Hk'; [done|by apply Hback].
Qed.

(** [Insert] keeps the invariant and the capacity bound, hands back a fresh
    entry with the given key and value, and does not touch entries in use. *)
Lemma Insert_spec c key value charge :
  LRUInv c -> 0 <= charge ->
  let '(id, c', _) := Insert c key value charge in
  LRUInv c' /\ id = next c /\ capacity c' = capacity c /\
  (exists refs ic, heap c' !! id = Some (mkEntry key value charge refs ic) /\
     (refs = 2 /\ ic = true \/ refs = 1 /\ ic = false /\ table c' !! key = None /\ (capacity c <> 0 -> lru c' = []))) /\
  (forall id' e, id' ∈ in_use c -> heap c !! id' = Some e -> e_key e <> key ->
     heap c' !! id' = Some e) /\
  (forall id' e, heap c' !! id' = Some e -> id' <> id -> e_key e <> key ->
     heap c !! id' = Some e).
Proof.
  intros [HI Hcap] Hch. unfold Insert. lru_fields. destruct (Z.eqb_spec (capacity c) 0) as [E0|E0].
  { split_and!; [split; [by apply uncached_inv|done]|done|done| | |].
    3: { intros id' e0 He Hne _. cbn in He. by rewrite lookup_insert_ne in He. }
    - exists 1, false. cbn. split; [apply lookup_insert_eq|right].
      by rewrite (inv_off _ _ HI E0).
    - intros id' e0 _ He _. cbn. rewrite lookup_insert_ne; [done|].
      intros <-. by rewrite (next_fresh _ _ HI) in He. }
  rewrite insert_insert_eq. fold (linked c key value charge).
  pose proof (drop_old_spec c key value charge HI Hch E0) as (HI2 & Hu2 & Hc2 & Hn2 & Hnew & Hoth & Hback).
  destruct (match table c !! key with Some o => Remove (linked c key value charge) o
            | None => (linked c key value charge, []) end) as [c2 d1]. cbn [fst] in *.
  pose proof (make_room_spec (length (lru c2)) c2 HI2 ltac:(done)) as (HI3 & (ev & Hev) & Hdone).
  destruct (make_room (length (lru c2)) c2) as [c3 d2]. cbn [fst] in *.
  destruct Hev as [El Eu Ec En Eh Ele].
  assert (Hev : forall id e, heap c2 !! id = Some e -> ~ idle e -> heap c3 !! id = Some e).
  { intros id e He Hi. rewrite Eh. case_decide as Hin; [|done].
    destruct (proj1 (inv_lru _ _ HI2 id)) as (e' & ? & ?); [|congruence].
    rewrite El. apply elem_of_app. by left. }
  assert (Hnew3 : heap c3 !! next c = Some (mkEntry key value charge 2 true))
    by (apply Hev; [done|unfold idle; cbn; lia]).
  assert (Hoth3 : forall id' e, id' ∈ in_use c -> heap c !! id' = Some e -> e_key e <> key ->
     heap c3 !! id' = Some e).
  { intros id' e Hin He Hk. apply Hev; [by apply Hoth|].
    apply (inv_in_use _ _ HI) in Hin as (e' & ? & ?). congruence. }
  assert (Hback3 : forall id' e, heap c3 !! id' = Some e -> id' <> next c -> e_key e <> key ->
     heap c !! id' = Some e).
  { intros id' e He. rewrite Eh in He. case_decide; [done|]. by apply Hback. }
  destruct (Z.ltb_spec (capacity c3) (usage c3)) as [Hover|Hfit].
  2: { split_and!; [by split|done|congruence| |done|done]. exists 2, true. split; [done|by left]. }
  assert (Hk3 : table c3 !! key = Some (next c)).
  { apply (inv_table _ _ HI3). split; [done|]. by eexists. }
  pose proof (evict_key_inv c3 key HI3) as HI4. unfold evict_key in HI4 |- *.
  rewrite Hk3 in HI4 |- *. rewrite (Remove_eq (set_table c3 (delete key (table c3))) _ _ Hnew3) in HI4 |- *. lru_fields. cbn in HI4 |- *.
  destruct Hdone as [|Hempty]; [lia|].
  split_and!; [split; [done|cbn; lia]|done|congruence| | |].
  3: { intros id' e [[-> <-]|[_ He']]%lookup_insert_Some Hn Hk'; [done|by apply Hback3]. }
  - exists 1, false. rewrite lookup_insert_eq, lookup_delete_eq. split; [done|by right].
  - intros id' e Hin He Hk. rewrite lookup_insert_ne; [by apply Hoth3|].
    intros <-. by rewrite (next_fresh _ _ HI) in He.
Qed.

(** ** References *)

(** [Ref] on a held entry: it moves to [in_use] when it was idle. *)
Lemma Ref_inv c id : InvX None c -> is_Some (heap c !! id) -> InvX None (Ref c id).
Proof.
  intros HI [e He]. pose proof HI as [Hu Hl Nu Nl Hr Ht Us To Nx Cp Of].
  unfold Ref. rewrite He. pose proof (Hr id e He) as Hro.
  assert (Hni : ~ idle (set_refs e (e_refs e + 1))) by (unfold idle; cbn; lia).
  assert (Hmove : (e_refs e =? 1) && e_in_cache e = true <-> idle e).
  { unfold idle. rewrite andb_true_iff, Z.eqb_eq. done. }
  set (e' := set_refs e (e_refs e + 1)) in *.
  split; lru_fields; try done.
  - intros x. destruct (decide (x = id)) as [->|Hx].
    + rewrite lookup_insert_eq. split; [intros _; by exists e'|intros _].
      destruct ((e_refs e =? 1) && e_in_cache e).
      * apply elem_of_app. right. by apply list_elem_of_singleton.
      * apply Hu. exists e. split; [done|]. intros [=]%Hmove.
    + rewrite lookup_insert_ne by done. rewrite <- Hu.
      destruct ((e_refs e =? 1) && e_in_cache e); [|done].
      rewrite elem_of_app, elem_of_remove_id, list_elem_of_singleton. naive_solver.
  - intros x. destruct (decide (x = id)) as [->|Hx].
    + rewrite lookup_insert_eq. split.
      * destruct ((e_refs e =? 1) && e_in_cache e) eqn:Em.
        { by intros [? _]%elem_of_remove_id. }
        intros (e2 & ? & Hi)%Hl. assert (e2 = e) as -> by congruence. by apply Hmove in Hi.
      * intros (e2 & [= <-] & ?). done.
    + rewrite lookup_insert_ne by done. rewrite <- Hl.
      destruct ((e_refs e =? 1) && e_in_cache e); [|done].
      rewrite elem_of_remove_id. naive_solver.
  - destruct ((e_refs e =? 1) && e_in_cache e); [|done].
    apply NoDup_app. split_and!; [by apply NoDup_remove_id| |apply NoDup_singleton].
    intros x [? _]%elem_of_remove_id ->%list_elem_of_singleton. done.
  - destruct ((e_refs e =? 1) && e_in_cache e); [by apply NoDup_remove_id|done].
  - intros x e2. destruct (decide (x = id)) as [->|].
    + rewrite lookup_insert_eq. intros [= <-]. unfold e'. cbn. lia.
    + rewrite lookup_insert_ne by done. apply Hr.
  - intros key x. rewrite Ht. destruct (decide (x = id)) as [->|].
    + rewrite lookup_insert_eq, He. split; intros (? & e2 & [= <-] & ? & ?); split; eauto.
    + by rewrite lookup_insert_ne.
  - rewrite (hsum_update _ _ _ e e' He). change (cached_charge e') with (cached_charge e). lia.
  - rewrite (hsum_update _ _ _ e e' He). change (e_charge e') with (e_charge e). lia.
  - intros x. destruct (decide (x = id)) as [->|].
    + intros _. apply Nx. by eexists.
    + rewrite lookup_insert_ne by done. apply Nx.
Qed.

(** Dropping one of several references to a held entry. *)
Lemma drop_ref_inv c c' id e :
  InvX None c -> heap c !! id = Some e -> ~ idle e -> 1 < e_refs e ->
  let e' := set_refs e (e_refs e - 1) in
  capacity c' = capacity c -> total_usage c' = total_usage c -> usage c' = usage c ->
  table c' = table c -> heap c' = <[id := e']> (heap c) -> next c' = next c ->
  (forall x, x ∈ in_use c' <-> (x <> id \/ ~ idle e') /\ x ∈ in_use c) ->
  (forall x, x ∈ lru c' <-> x = id /\ idle e' \/ x ∈ lru c) ->
  NoDup (in_use c') -> NoDup (lru c') -> InvX None c'.
Proof.
  intros HI He Hni Hrefs e' Q1 Q2 Q3 Q4 Q5 Q6 Q7 Q8 Q9 Q10.
  pose proof HI as [Hu Hl Nu Nl Hr Ht Us To Nx Cp Of]. pose proof (Hr id e He) as Hro.
  assert (Hnl : id ∉ lru c).
  { intros (e2 & ? & ?)%Hl. by assert (e2 = e) as -> by congruence. }
  assert (Hin : id ∈ in_use c) by (apply Hu; by exists e).
  split; rewrite ?Q1, ?Q2, ?Q3, ?Q4, ?Q5, ?Q6; try done.
  - intros x. rewrite Q7. destruct (decide (x = id)) as [->|].
    + rewrite lookup_insert_eq. split; [intros [[?|?] _]; [done|by exists e']|].
      intros (e2 & [= <-] & ?). split; [by right|done].
    + rewrite lookup_insert_ne by done. rewrite <- Hu. naive_solver.
  - intros x. rewrite Q8. destruct (decide (x = id)) as [->|].
    + rewrite lookup_insert_eq. split; [intros [[_ ?]|?]; [by exists e'|done]|].
      intros (e2 & [= <-] & ?). by left.
    + rewrite lookup_insert_ne by done. rewrite <- Hl. naive_solver.
  - intros x e2. destruct (decide (x = id)) as [->|].
    + rewrite lookup_insert_eq. intros [= <-]. unfold e'. cbn. lia.
    + rewrite lookup_insert_ne by done. apply Hr.
  - intros key x. rewrite Ht. destruct (decide (x = id)) as [->|].
    + rewrite lookup_insert_eq, He. split; intros (? & e2 & [= <-] & ? & ?); split; eauto.
    + by rewrite lookup_insert_ne.
  - rewrite (hsum_update _ _ _ e e' He). change (cached_charge e') with (cached_charge e). lia.
  - rewrite (hsum_update _ _ _ e e' He). change (e_charge e') with (e_charge e). lia.
  - intros x. destruct (decide (x = id)) as [->|].
    + intros _. apply Nx. by eexists.
    + rewrite lookup_insert_ne by done. apply Nx.
Qed.

(** [Release] by a client that holds a reference: an entry that left the cache
    dies with its last reference, a cached one becomes idle. *)
Lemma Release_inv c id e :
  InvX None c -> heap c !! id = Some e -> ~ idle e -> InvX None (fst (Release c id)).
Proof.
  intros HI He Hni. pose proof HI as [Hu Hl Nu Nl Hr Ht Us To Nx Cp Of].
  unfold Release, Unref. rewrite He. pose proof (Hr id e He) as Hro. lru_fields.
  assert (Hnl : id ∉ lru c).
  { intros (e2 & ? & ?)%Hl. by assert (e2 = e) as -> by congruence. }
  destruct (Z.eqb_spec (e_refs e - 1) 0) as [E1|E1]; lru_fields.
  { assert (Hc : e_in_cache e = false).
    { destruct (e_in_cache e) eqn:Hc; [|done]. destruct Hni. unfold idle. split; [lia|done]. }
    split; lru_fields; try done; try by apply NoDup_remove_id.
    - intros x. rewrite elem_of_remove_id, Hu. setoid_rewrite lookup_delete_Some. naive_solver.
    - intros x. rewrite elem_of_remove_id, Hl. setoid_rewrite lookup_delete_Some. naive_solver.
    - intros x e' [_ He']%lookup_delete_Some. by eapply Hr.
    - intros key x. rewrite Ht. setoid_rewrite lookup_delete_Some. split.
      + intros (Hne & e' & ? & ? & ?). split; [done|]. exists e'.
        split_and!; [congruence|done..].
      + intros (_ & e' & [Hne ?] & ? & ?). split; [congruence|]. by exists e'.
    - pose proof (hsum_delete cached_charge _ _ _ He) as Es. rewrite (cached_charge_out e Hc) in Es. lia.
    - pose proof (hsum_delete e_charge _ _ _ He). lia.
    - intros x [? [_ ?]%lookup_delete_Some]. by apply Nx. }
  set (e' := set_refs e (e_refs e - 1)) in *.
  assert (Hidle : e_in_cache e && (e_refs e - 1 =? 1) = true <-> idle e').
  { unfold idle, e'. cbn. rewrite andb_true_iff, Z.eqb_eq. naive_solver. }
  destruct (e_in_cache e && (e_refs e - 1 =? 1)); lru_fields;
    apply (drop_ref_inv c _ id e HI He Hni ltac:(lia)); fold e'; try done; cbn [in_use lru].
  - intros x. rewrite elem_of_remove_id. naive_solver.
  - intros x. rewrite elem_of_app, elem_of_remove_id, list_elem_of_singleton.
    assert (x = id -> x ∉ lru c) by (by intros ->). naive_solver.
  - by apply NoDup_remove_id.
  - apply NoDup_app. split_and!; [by apply NoDup_remove_id| |apply NoDup_singleton].
    intros x [? _]%elem_of_remove_id ->%list_elem_of_singleton. done.
  - intros x. naive_solver.
  - intros x. naive_solver.
Qed.

(** ** The reference discipline

    [hs] is the multiset of handles ([Handle*]) the clients hold.  An entry
    has one reference per handle and one more while it is cached. *)
Definition held (hs : list nat) (id : nat) : Z := Z.of_nat (count_occ Nat.eq_dec hs id).

Definition Acct (hs : list nat) (c : LRU) : Prop :=
  forall id, match heap c !! id with
             | Some e => e_refs e = held hs id + Z.b2z (e_in_cache e)
             | None => held hs id = 0
             end.

Lemma held_cons_eq hs id : held (id :: hs) id = held hs id + 1.
Proof. unfold held. rewrite count_occ_cons_eq by done. lia. Qed.
Lemma held_cons_ne hs id id' : id <> id' -> held (id :: hs) id' = held hs id'.
Proof. intros. unfold held. by rewrite count_occ_cons_neq. Qed.
Lemma held_remove h1 h2 id id' : held (h1 ++ id :: h2) id' = held (id :: h1 ++ h2) id'.
Proof.
  unfold held. rewrite count_occ_app. destruct (decide (id = id')) as [->|].
  - rewrite !count_occ_cons_eq, count_occ_app by done. lia.
  - rewrite !count_occ_cons_neq, count_occ_app by done. lia.
Qed.
Lemma held_nonneg hs id : 0 <= held hs id.
Proof. unfold held. lia. Qed.

Lemma Remove_acct hs c o e :
  Acct hs c -> heap c !! o = Some e -> e_in_cache e = true -> Acct hs (fst (Remove c o)).
Proof.
  intros HA He Hc id. pose proof (HA o) as Ho. rewrite He, Hc in Ho. cbn in Ho.
  rewrite (Remove_eq c o e He). destruct (Z.eqb_spec (e_refs e) 1); cbn.
  - destruct (decide (id = o)) as [->|]; [rewrite lookup_delete_eq; lia|].
    rewrite lookup_delete_ne by done. apply HA.
  - destruct (decide (id = o)) as [->|]; [rewrite lookup_insert_eq; cbn; lia|].
    rewrite lookup_insert_ne by done. apply HA.
Qed.

Lemma evict_key_acct hs c key : InvX None c -> Acct hs c -> Acct hs (fst (evict_key c key)).
Proof.
  intros HI HA. unfold evict_key. destruct (table c !! key) as [id|] eqn:Hk; [|done].
  pose proof (proj1 (inv_table _ _ HI key id) Hk) as (_ & e & He & _ & Hc).
  by eapply Remove_acct.
Qed.

Lemma make_room_acct hs fuel : forall c,
  InvX None c -> Acct hs c -> Acct hs (fst (make_room fuel c)).
Proof.
  induction fuel as [|fuel IH]; intros c HI HA; cbn [make_room]; [done|].
  destruct (lru c) as [|a l]; [done|]. case_match; [|done].
  destruct (heap c !! a) as [e|]; [|done].
  pose proof (evict_key_inv c (e_key e) HI). pose proof (evict_key_acct hs c (e_key e) HI HA).
  destruct (evict_key c (e_key e)) as [c1 d1]. cbn [fst] in *.
  specialize (IH c1 ltac:(done) ltac:(done)). by destruct (make_room fuel c1).
Qed.

Lemma Prune_loop_acct hs fuel : forall c,
  InvX None c -> Acct hs c -> Acct hs (fst (Prune_loop fuel c)).
Proof.
  induction fuel as [|fuel IH]; intros c HI HA; cbn [Prune_loop]; [done|].
  destruct (lru c) as [|a l]; [done|]. destruct (heap c !! a) as [e|]; [|done].
  pose proof (evict_key_inv c (e_key e) HI). pose proof (evict_key_acct hs c (e_key e) HI HA).
  destruct (evict_key c (e_key e)) as [c1 d1]. cbn [fst] in *.
  specialize (IH c1 ltac:(done) ltac:(done)). by destruct (Prune_loop fuel c1).
Qed.

Lemma acct_new hs c e t :
  InvX None c -> Acct hs c -> e_refs e = 1 + Z.b2z (e_in_cache e) ->
  heap t = <[next c := e]> (heap c) -> Acct (next c :: hs) t.
Proof.
  intros HI HA He Ht id. rewrite Ht. destruct (decide (id = next c)) as [->|].
  - rewrite lookup_insert_eq, held_cons_eq. pose proof (HA (next c)) as Hn.
    rewrite (next_fresh _ _ HI) in Hn. lia.
  - rewrite lookup_insert_ne, held_cons_ne by done. apply HA.
Qed.

Lemma Insert_acct hs c key value charge :
  LRUInv c -> 0 <= charge -> Acct hs c ->
  let '(id, c', _) := Insert c key value charge in Acct (id :: hs) c'.
Proof.
  intros [HI Hcap] Hch HA. unfold Insert. lru_fields.
  destruct (Z.eqb_spec (capacity c) 0) as [E0|E0].
  { by eapply (acct_new hs c (mkEntry key value charge 1 false)). }
  rewrite insert_insert_eq. fold (linked c key value charge).
  pose proof (drop_old_spec c key value charge HI Hch E0) as (HI2 & _).
  pose proof (acct_new hs c (mkEntry key value charge 2 true) (linked c key value charge)
                HI HA eq_refl eq_refl) as HA1.
  assert (HA2 : Acct (next c :: hs) (fst match table c !! key with
     | Some o => Remove (linked c key value charge) o
     | None => (linked c key value charge, []) end)).
  { destruct (table c !! key) as [o|] eqn:Ho; [|done].
    pose proof (proj1 (inv_table _ _ HI key o) Ho) as (_ & e & He & _ & Hc).
    eapply Remove_acct; [done| |exact Hc]. unfold linked. cbn.
    rewrite lookup_insert_ne; [done|]. intros E. by rewrite <- E, (next_fresh _ _ HI) in He. }
  destruct (match table c !! key with Some o => Remove (linked c key value charge) o
            | None => (linked c key value charge, []) end) as [c2 d1]. cbn [fst] in *.
  pose proof (make_room_spec (length (lru c2)) c2 HI2 ltac:(done)) as (HI3 & _).
  pose proof (make_room_acct _ (length (lru c2)) c2 HI2 HA2) as HA3.
  destruct (make_room (length (lru c2)) c2) as [c3 d2]. cbn [fst] in *.
  destruct (capacity c3 <? usage c3); [|done]. pose proof (evict_key_acct _ c3 key HI3 HA3).
  by destruct (evict_key c3 key).
Qed.

Lemma Ref_acct hs c id : is_Some (heap c !! id) -> Acct hs c -> Acct (id :: hs) (Ref c id).
Proof.
  intros [e He] HA x. unfold Ref. rewrite He. cbn. destruct (decide (x = id)) as [->|].
  - rewrite lookup_insert_eq, held_cons_eq. pose proof (HA id) as Hi. rewrite He in Hi. cbn. lia.
  - rewrite lookup_insert_ne, held_cons_ne by done. apply HA.
Qed.

Lemma Release_acct hs c id e :
  heap c !! id = Some e -> Acct (id :: hs) c -> Acct hs (fst (Release c id)).
Proof.
  intros He HA x. unfold Release, Unref. rewrite He. pose proof (HA id) as Hi.
  rewrite He, held_cons_eq in Hi. pose proof (held_nonneg hs id).
  pose proof (HA x) as Hx. destruct (decide (x = id)) as [->|Hne].
  - repeat case_match; cbn in *; rewrite ?lookup_delete_eq, ?lookup_insert_eq in *; simplify_eq;
      cbn in *; cmp_cases; try congruence; destruct (e_in_cache e); cbn in *; lia.
  - rewrite held_cons_ne in Hx by done.
    repeat case_match; cbn in *; rewrite ?lookup_delete_ne, ?lookup_insert_ne in * by done;
      simplify_eq; done.
Qed.

(** A cache and the handles its clients hold, driven by any sequence of calls
    that releases only handles that are held. *)
Inductive step : LRU * list nat -> LRU * list nat -> Prop :=
  | step_insert c hs key value charge id c' d :
      0 <= charge -> Insert c key value charge = (id, c', d) -> step (c, hs) (c', id :: hs)
  | step_lookup c hs key id c' :
      Lookup c key = (Some id, c') -> step (c, hs) (c', id :: hs)
  | step_release c h1 id h2 c' d :
      Release c id = (c', d) -> step (c, h1 ++ id :: h2) (c', h1 ++ h2)
  | step_erase c hs key c' d : Erase c key = (c', d) -> step (c, hs) (c', hs)
  | step_prune c hs c' d : Prune c = (c', d) -> step (c, hs) (c', hs).

Definition SysInv (s : LRU * list nat) : Prop := LRUInv s.1 /\ Acct s.2 s.1.

Lemma held_not_idle hs c id :
  InvX None c -> Acct (id :: hs) c -> exists e, heap c !! id = Some e /\ ~ idle e.
Proof.
  intros HI HA. pose proof (HA id) as Hi. rewrite held_cons_eq in Hi. pose proof (held_nonneg hs id).
  destruct (heap c !! id) as [e|] eqn:He; [|lia]. exists e. split; [done|].
  intros [H1 H2]. rewrite H2 in Hi. cbn in Hi. lia.
Qed.

Lemma step_inv s s' : SysInv s -> step s s' -> SysInv s'.
Proof.
  intros [HI HA] Hs. destruct Hs as [c hs key v ch id c' d Hch E|c hs key id c' E
    |c h1 id h2 c' d E|c hs key c' d E|c hs c' d E]; cbn [fst snd] in *.
  - pose proof (Insert_spec c key v ch HI Hch) as Hs.
    pose proof (Insert_acct hs c key v ch HI Hch HA) as Ha. rewrite E in Hs, Ha.
    split; [apply Hs|done].
  - destruct HI as [HI Hcap]. unfold Lookup in E.
    destruct (table c !! key) as [i|] eqn:Hk; simplify_eq.
    apply (inv_table _ _ HI) in Hk as (_ & e & He & _).
    split; [split; [by apply Ref_inv|]|apply Ref_acct; done].
    cbn. unfold Ref. by rewrite He.
  - destruct HI as [HI Hcap].
    assert (HA' : Acct (id :: h1 ++ h2) c).
    { intros x. rewrite <- held_remove. apply HA. }
    destruct (held_not_idle _ _ _ HI HA') as (e & He & Hni).
    pose proof (Release_inv c id e HI He Hni) as R1. pose proof (Release_acct _ _ _ _ He HA') as R2.
    assert (R3 : usage (fst (Release c id)) <= capacity (fst (Release c id))).
    { unfold Release, Unref. rewrite He. by repeat case_match. }
    rewrite E in R1, R2, R3. by split.
  - destruct HI as [HI Hcap]. unfold Erase in E.
    pose proof (evict_key_inv c key HI) as R1. pose proof (evict_key_acct hs c key HI HA) as R2.
    assert (R3 : usage (fst (evict_key c key)) <= capacity (fst (evict_key c key))).
    { unfold evict_key. destruct (table c !! key) as [i|] eqn:Hk; [|done].
      pose proof (proj1 (inv_table _ _ HI key i) Hk) as (_ & e & He & _ & _).
      pose proof (inv_refs _ _ HI i e He).
      rewrite (Remove_eq (set_table c (delete key (table c))) _ _ He).
      case_match; cbn; lia. }
    rewrite E in R1, R2, R3. by split.
  - destruct HI as [HI Hcap]. unfold Prune in E.
    pose proof (Prune_loop_spec (length (lru c)) c HI ltac:(done)) as (R1 & _ & _ & Rc & Ru).
    pose proof (Prune_loop_acct hs (length (lru c)) c HI HA) as R2.
    rewrite E in R1, R2, Rc, Ru. cbn [fst] in *. split; [split; cbn; [done|lia]|done].
Qed.

Lemma LRU_empty_inv cap : 0 <= cap -> SysInv (LRU_empty cap, []).
Proof.
  intros. split; [split; [|done]|intros id; cbn; by rewrite lookup_empty].
  split; cbn; try done; try apply NoDup_nil_2.
  - intros id. split; [set_solver|by intros (? & ? & _)].
  - intros id. split; [set_solver|by intros (? & ? & _)].
  - intros key id. split; [done|by intros (_ & ? & ? & _)].
  - intros id [? ?]. done.
Qed.

Lemma reachable_inv cap s : 0 <= cap -> rtc step (LRU_empty cap, []) s -> SysInv s.
Proof.
  intros Hc Hr. pose proof (LRU_empty_inv cap Hc) as Hi. induction Hr; eauto using step_inv.
Qed.

(** ** The deleter

    [kvs] is what the live entries hold; [reaps m m' dead]: some entries die,
    the deleter is called on the value of each of them exactly once, and the
    other entries keep their keys and values. *)
Definition kvs (c : LRU) : gmap nat (bytes * V) := (fun e => (e_key e, e_value e)) <$> heap c.

Definition reaps (m m' : gmap nat (bytes * V)) (dead : list V) : Prop :=
  exists l, dead = l.*2 /\ NoDup l.*1 /\
    (forall id v, (id, v) ∈ l -> snd <$> m !! id = Some v) /\
    forall id, m' !! id = if decide (id ∈ l.*1) then None else m !! id.

Lemma reaps_refl m : reaps m m [].
Proof. exists []. split_and!; [done|apply NoDup_nil_2|set_solver|done]. Qed.

Lemma reaps_trans m1 m2 m3 d1 d2 : reaps m1 m2 d1 -> reaps m2 m3 d2 -> reaps m1 m3 (d1 ++ d2).
Proof.
  intros (l1 & -> & N1 & F1 & E1) (l2 & -> & N2 & F2 & E2). exists (l1 ++ l2).
  assert (Hback : forall id v, (id, v) ∈ l2 -> id ∉ l1.*1 /\ snd <$> m1 !! id = Some v).
  { intros id v H%F2. rewrite E1 in H. by case_decide. }
  split_and!.
  - by rewrite fmap_app.
  - rewrite fmap_app. apply NoDup_app. split_and!; [done| |done].
    intros id H1 ([? v] & -> & H2)%list_elem_of_fmap. by apply Hback in H2 as [? _].
  - intros id v [H|H]%elem_of_app; [by apply F1|by apply Hback].
  - intros id. rewrite E2, E1, fmap_app.
    destruct (decide (id ∈ l1.*1)), (decide (id ∈ l2.*1)), (decide (id ∈ l1.*1 ++ l2.*1));
      set_solver.
Qed.

Lemma reaps_one m id k v : m !! id = Some (k, v) -> reaps m (delete id m) [v].
Proof.
  intros Hm. exists [(id, v)]. split_and!; [done|apply NoDup_singleton| |].
  - intros ? ? [= -> ->]%list_elem_of_singleton. by rewrite Hm.
  - intros i. cbn. case_decide as H.
    + apply list_elem_of_singleton in H as ->. apply lookup_delete_eq.
    + apply lookup_delete_ne. set_solver.
Qed.

Lemma kvs_update c id e e' (h := heap c) :
  h !! id = Some e -> e_key e' = e_key e -> e_value e' = e_value e ->
  (fun e => (e_key e, e_value e)) <$> (<[id := e']> h) = kvs c.
Proof.
  intros He Hk Hv. unfold kvs. rewrite fmap_insert, Hk, Hv, insert_id; [done|].
  rewrite lookup_fmap. fold h. by rewrite He.
Qed.

Lemma Unref_reaps c id : reaps (kvs c) (kvs (Unref c id).1) (Unref c id).2.
Proof.
  unfold Unref. destruct (heap c !! id) as [e|] eqn:He; [|apply reaps_refl].
  assert (Hu : kvs c !! id = Some (e_key e, e_value e)) by (unfold kvs; by rewrite lookup_fmap, He).
  repeat case_match; unfold kvs at 2; cbn.
  - rewrite fmap_delete. by eapply reaps_one.
  - rewrite (kvs_update c id e) by done. apply reaps_refl.
  - rewrite (kvs_update c id e) by done. apply reaps_refl.
Qed.

Lemma Remove_reaps c id : reaps (kvs c) (kvs (Remove c id).1) (Remove c id).2.
Proof.
  unfold Remove. destruct (heap c !! id) as [e|] eqn:He; [|apply reaps_refl].
  pose proof (Unref_reaps (mkLRU (capacity c) (total_usage c) (usage c - e_charge e) (in_use c)
    (lru c) (table c) (<[id := set_in_cache e false]> (heap c)) (next c)) id) as H.
  unfold kvs at 1 in H. cbn [heap] in H. by rewrite (kvs_update c id e) in H.
Qed.

Lemma evict_key_reaps c key : reaps (kvs c) (kvs (evict_key c key).1) (evict_key c key).2.
Proof.
  unfold evict_key. destruct (table c !! key); [|apply reaps_refl].
  apply (Remove_reaps (set_table c (delete key (table c)))).
Qed.

Lemma make_room_reaps fuel : forall c,
  reaps (kvs c) (kvs (make_room fuel c).1) (make_room fuel c).2.
Proof.
  induction fuel as [|fuel IH]; intros c; cbn [make_room]; [apply reaps_refl|].
  destruct (lru c) as [|a l]; [apply reaps_refl|]. case_match; [|apply reaps_refl].
  destruct (heap c !! a) as [e|]; [|apply reaps_refl].
  pose proof (evict_key_reaps c (e_key e)) as H1. destruct (evict_key c (e_key e)) as [c1 d1].
  specialize (IH c1). destruct (make_room fuel c1) as [c2 d2]. by eapply reaps_trans.
Qed.

(** [Insert]: from the entries that were live plus the new one. *)
Lemma Insert_reaps c key value charge :
  let '(id, c', dead) := Insert c key value charge in
  id = next c /\ reaps (<[id := (key, value)]> (kvs c)) (kvs c') dead.
Proof.
  unfold Insert. lru_fields. destruct (capacity c =? 0).
  { split; [done|]. unfold kvs at 2. cbn. rewrite fmap_insert. apply reaps_refl. }
  rewrite insert_insert_eq. fold (linked c key value charge).
  assert (H0 : kvs (linked c key value charge) = <[next c := (key, value)]> (kvs c)).
  { unfold kvs, linked. cbn. by rewrite fmap_insert. }
  set (c1 := linked c key value charge) in *.
  assert (H1 : reaps (kvs c1) (kvs (match table c !! key with Some o => Remove c1 o
    | None => (c1, []) end).1) (match table c !! key with Some o => Remove c1 o
    | None => (c1, []) end).2).
  { destruct (table c !! key); [apply Remove_reaps|apply reaps_refl]. }
  destruct (match table c !! key with Some o => Remove c1 o | None => (c1, []) end) as [c2 d1].
  pose proof (make_room_reaps (length (lru c2)) c2) as H2.
  destruct (make_room (length (lru c2)) c2) as [c3 d2].
  assert (H3 : reaps (kvs c3) (kvs (if capacity c3 <? usage c3 then evict_key c3 key else (c3, [])).1)
    (if capacity c3 <? usage c3 then evict_key c3 key else (c3, [])).2).
  { case_match; [apply evict_key_reaps|apply reaps_refl]. }
  destruct (if capacity c3 <? usage c3 then evict_key c3 key else (c3, [])) as [c4 d3].
  split; [done|]. rewrite <- H0. eapply reaps_trans; [exact H1|]. by eapply reaps_trans.
Qed.

Lemma Ref_kvs c id : kvs (Ref c id) = kvs c.
Proof.
  unfold Ref. destruct (heap c !! id) as [e|] eqn:He; [|done].
  unfold kvs at 1. cbn. by rewrite (kvs_update c id e).
Qed.

Lemma Lookup_kvs c key : kvs (Lookup c key).2 = kvs c.
Proof. unfold Lookup. destruct (table c !! key); [apply Ref_kvs|done]. Qed.

Lemma Prune_loop_reaps fuel : forall c,
  reaps (kvs c) (kvs (Prune_loop fuel c).1) (Prune_loop fuel c).2.
Proof.
  induction fuel as [|fuel IH]; intros c; cbn [Prune_loop]; [apply reaps_refl|].
  destruct (lru c) as [|a l]; [apply reaps_refl|].
  destruct (heap c !! a) as [e|]; [|apply reaps_refl].
  pose proof (evict_key_reaps c (e_key e)) as H1. destruct (evict_key c (e_key e)) as [c1 d1].
  specialize (IH c1). destruct (Prune_loop fuel c1) as [c2 d2]. by eapply reaps_trans.
Qed.

(** The values of the live entries, each as often as there are entries. *)
Definition values (m : gmap nat (bytes * V)) : list V := (map_to_list m).*2.*2.
Definition live (c : LRU) : list V := values (kvs c).

Lemma reaps_values m m' dead : reaps m m' dead -> values m ≡ₚ dead ++ values m'.
Proof.
  intros (l & -> & HN & HV & HE). revert m HV HE. induction l as [|[id v] l IH]; intros m HV HE.
  - assert (m' = m) as ->; [|done]. apply map_eq. intros i. by rewrite HE.
  - cbn in HN. apply NoDup_cons in HN as [Hid HN].
    pose proof (HV id v ltac:(by left)) as Hm.
    destruct (m !! id) as [[k v']|] eqn:Em; [|done]. cbn in Hm. simplify_eq.
    unfold values. rewrite <- (map_to_list_delete m id (k, v)) by done. cbn. f_equiv.
    apply (IH HN (delete id m)).
    + intros j w Hj. rewrite lookup_delete_ne; [by apply HV; right|].
      intros <-. apply Hid, list_elem_of_fmap. by exists (id, w).
    + intros j. rewrite HE. cbn. destruct (decide (j = id)) as [->|Hne].
      * rewrite decide_True by set_solver. rewrite lookup_delete_eq. by case_decide.
      * rewrite lookup_delete_ne by done.
        destruct (decide (j ∈ id :: l.*1)), (decide (j ∈ l.*1)); set_solver.
Qed.

(** A run of the cache, with the values its clients inserted and those the
    deleter was called on, in order. *)
Inductive history (cap : Z) : LRU * list nat -> list V -> list V -> Prop :=
  | h_start : history cap (LRU_empty cap, []) [] []
  | h_insert c hs ins del key value charge id c' d :
      history cap (c, hs) ins del -> 0 <= charge -> Insert c key value charge = (id, c', d) ->
      history cap (c', id :: hs) (value :: ins) (del ++ d)
  | h_lookup c hs ins del key id c' :
      history cap (c, hs) ins del -> Lookup c key = (Some id, c') ->
      history cap (c', id :: hs) ins del
  | h_release c h1 id h2 ins del c' d :
      history cap (c, h1 ++ id :: h2) ins del -> Release c id = (c', d) ->
      history cap (c', h1 ++ h2) ins (del ++ d)
  | h_erase c hs ins del key c' d :
      history cap (c, hs) ins del -> Erase c key = (c', d) -> history cap (c', hs) ins (del ++ d)
  | h_prune c hs ins del c' d :
      history cap (c, hs) ins del -> Prune c = (c', d) -> history cap (c', hs) ins (del ++ d).

Lemma history_inv cap s ins del : 0 <= cap -> history cap s ins del -> SysInv s.
Proof.
  intros Hc. induction 1; [by apply LRU_empty_inv|eapply step_inv; [eassumption|]..].
  - by eapply step_insert.
  - by eapply step_lookup.
  - by eapply step_release.
  - by eapply step_erase.
  - by eapply step_prune.
Qed.

(** Every state the operations reach has a history. *)
Lemma history_complete cap s : rtc step (LRU_empty cap, []) s -> exists ins del, history cap s ins del.
Proof.
  intros Hr. pattern s. eapply rtc_ind_r; [| |exact Hr]; [by exists [], []; constructor|].
  intros s1 s2 _ Hs (ins & del & IH). destruct Hs; do 2 eexists;
    [eapply h_insert|eapply h_lookup|eapply h_release|eapply h_erase|eapply h_prune]; eassumption.
Qed.

Lemma live_reaps c c' ins del d :
  ins ≡ₚ del ++ live c -> reaps (kvs c) (kvs c') d -> ins ≡ₚ (del ++ d) ++ live c'.
Proof. intros H1 H2%reaps_values. unfold live in *. by rewrite H1, H2, app_assoc. Qed.

Lemma history_values cap s ins del : 0 <= cap -> history cap s ins del -> ins ≡ₚ del ++ live s.1.
Proof.
  intros Hc H. induction H as [|c hs ins del key value charge id c' d H IH Hch E
    |c hs ins del key id c' H IH E|c h1 id h2 ins del c' d H IH E|c hs ins del key c' d H IH E
    |c hs ins del c' d H IH E]; cbn [fst] in *.
  - unfold live, values, kvs. cbn. by rewrite fmap_empty, map_to_list_empty.
  - pose proof (Insert_reaps c key value charge) as HR. rewrite E in HR. destruct HR as [-> HR].
    destruct (history_inv _ _ _ _ Hc H) as [[HI _] _]. cbn in HI.
    apply reaps_values in HR. unfold live in *. rewrite <- app_assoc, <- HR. unfold values.
    rewrite map_to_list_insert by (unfold kvs; by rewrite lookup_fmap, (next_fresh _ _ HI)).
    cbn. rewrite <- Permutation_middle. by rewrite IH.
  - unfold live in *. by rewrite <- (Lookup_kvs c key), E in IH.
  - eapply live_reaps; [exact IH|]. pose proof (Unref_reaps c id) as HR. unfold Release in E. by rewrite E in HR.
  - eapply live_reaps; [exact IH|]. pose proof (evict_key_reaps c key) as HR. unfold Erase in E. by rewrite E in HR.
  - eapply live_reaps; [exact IH|]. pose proof (Prune_loop_reaps (length (lru c)) c) as HR.
    unfold Prune in E. by rewrite E in HR.
Qed.

(** C33. Reference, capacity and deletion accounting: in every state a client can
    drive the cache into, releasing only handles it holds, every held handle
    points to a live entry; an entry's reference count is its number of handles
    plus one if it is cached; the idle (evictable) entries are exactly the cached
    ones nobody holds; [usage_] is the charge of the cached entries and stays
    within the capacity; [total_usage_] is the charge of all live entries; and
    the values inserted so far are, each exactly once, those the deleter was
    called on and those of the live entries: none is deleted twice, deleted
    while an entry holds it, or lost. *)
Theorem lru_accounting cap c hs ins del :
  0 <= cap -> history cap (c, hs) ins del ->
  (forall id, id ∈ hs -> is_Some (heap c !! id)) /\
  (forall id e, heap c !! id = Some e -> e_refs e = held hs id + Z.b2z (e_in_cache e)) /\
  (forall id, id ∈ lru c <->
     exists e, heap c !! id = Some e /\ e_in_cache e = true /\ held hs id = 0) /\
  usage c = hsum cached_charge (heap c) /\ usage c <= capacity c /\
  total_usage c = hsum e_charge (heap c) /\
  ins ≡ₚ del ++ live c.
Proof.
  intros Hc Hr. pose proof (history_values _ _ _ _ Hc Hr) as HP.
  apply history_inv in Hr as [[HI Hcap] HA]; [|done]. cbn [fst snd] in *.
  assert (Hrefs : forall id e, heap c !! id = Some e ->
    e_refs e = held hs id + Z.b2z (e_in_cache e)).
  { intros id e He. specialize (HA id). by rewrite He in HA. }
  split_and!; [|done| |apply HI|done|apply HI|done].
  - intros id (h1 & h2 & ->)%list_elem_of_split. specialize (HA id).
    rewrite held_remove, held_cons_eq in HA. pose proof (held_nonneg (h1 ++ h2) id).
    destruct (heap c !! id); [done|lia].
  - intros id. rewrite (inv_lru _ _ HI). unfold idle. split.
    + intros (e & He & H1 & H2). exists e. pose proof (Hrefs id e He) as H3.
      rewrite H2 in H3. cbn in H3. split_and!; [done|done|lia].
    + intros (e & He & H1 & H2). exists e. pose proof (Hrefs id e He) as H3.
      rewrite H1 in H3. cbn in H3. split_and!; [done|lia|done].
Qed.

(** ** A client's view

    What the operations do to a cache whose clients hold the handles [hs]: each
    handle keeps its key and value until it is released; no entry appears that
    was not inserted. *)

Lemma reaps_subseteq m m' d : reaps m m' d -> m' ⊆ m.
Proof.
  intros (l & _ & _ & _ & E). apply map_subseteq_spec. intros id x Hx. rewrite E in Hx.
  by case_decide.
Qed.

Lemma sys_held c hs h : SysInv (c, hs) -> h ∈ hs -> is_Some (kvs c !! h).
Proof.
  intros [_ HA] (h1 & h2 & ->)%list_elem_of_split. specialize (HA h). cbn in HA.
  rewrite held_remove, held_cons_eq in HA. pose proof (held_nonneg (h1 ++ h2) h).
  unfold kvs. rewrite lookup_fmap. destruct (heap c !! h); [by eexists|lia].
Qed.

(** A held handle survives any change that only drops entries. *)
Lemma sys_held_same c' hs h (m : gmap nat (bytes * V)) :
  SysInv (c', hs) -> h ∈ hs -> kvs c' ⊆ m -> kvs c' !! h = m !! h.
Proof.
  intros HS Hh Hm. destruct (sys_held c' hs h HS Hh) as [x Hx].
  rewrite Hx. symmetry. by eapply lookup_weaken.
Qed.

Lemma sys_insert c hs key value id c' d :
  SysInv (c, hs) -> Insert c key value 1 = (id, c', d) ->
  SysInv (c', id :: hs) /\ id ∉ hs /\ kvs c' !! id = Some (key, value) /\
  kvs c' ⊆ <[id := (key, value)]> (kvs c).
Proof.
  intros HS E. assert (HS' : SysInv (c', id :: hs)).
  { eapply step_inv; [exact HS|]. by eapply step_insert; [|exact E]. }
  pose proof (Insert_reaps c key value 1) as HR. rewrite E in HR. destruct HR as [-> HR].
  apply reaps_subseteq in HR. split_and!; [done| | |done].
  - intros Hin. destruct (sys_held _ _ _ HS Hin) as [x Hx]. unfold kvs in Hx.
    by rewrite lookup_fmap, (next_fresh c None (proj1 (proj1 HS))) in Hx.
  - rewrite (sys_held_same _ _ _ _ HS' ltac:(by left) HR). by rewrite lookup_insert_eq.
Qed.

Lemma sys_lookup_hit c hs key id c' :
  SysInv (c, hs) -> Lookup c key = (Some id, c') ->
  SysInv (c', id :: hs) /\ kvs c' = kvs c /\ exists v, kvs c !! id = Some (key, v).
Proof.
  intros HS E. split_and!.
  - eapply step_inv; [exact HS|]. by eapply step_lookup.
  - by rewrite <- (Lookup_kvs c key), E.
  - unfold Lookup in E. destruct (table c !! key) as [i|] eqn:Hk; simplify_eq.
    destruct HS as [[HI _] _]. cbn in HI.
    apply (inv_table _ _ HI) in Hk as (_ & e & He & <- & _).
    exists (e_value e). unfold kvs. by rewrite lookup_fmap, He.
Qed.

Lemma sys_lookup_miss c key c' : Lookup c key = (None, c') -> c' = c /\ table c !! key = None.
Proof. unfold Lookup. case_match; intros; by simplify_eq. Qed.

Lemma sys_release c h1 id h2 c' d :
  SysInv (c, h1 ++ id :: h2) -> Release c id = (c', d) ->
  SysInv (c', h1 ++ h2) /\ kvs c' ⊆ kvs c.
Proof.
  intros HS E. split; [eapply step_inv; [exact HS|by eapply step_release]|].
  pose proof (Unref_reaps c id) as HR. unfold Release in E. rewrite E in HR.
  by apply reaps_subseteq in HR.
Qed.

Lemma sys_erase c hs key c' d :
  SysInv (c, hs) -> Erase c key = (c', d) -> SysInv (c', hs) /\ kvs c' ⊆ kvs c.
Proof.
  intros HS E. split; [eapply step_inv; [exact HS|by eapply step_erase]|].
  pose proof (evict_key_reaps c key) as HR. unfold Erase in E. rewrite E in HR.
  by apply reaps_subseteq in HR.
Qed.

Lemma Erase_table c key : table (Erase c key).1 !! key = None.
Proof.
  unfold Erase, evict_key. destruct (table c !! key) as [id|] eqn:Hk; [|done].
  unfold Remove, Unref. repeat case_match; cbn; by rewrite lookup_delete_eq.
Qed.

(** ** The cache as a partial map from keys to live entries *)

Definition cached (c : LRU) (key : bytes) (id : nat) : Prop := (Lookup c key).1 = Some id.

Lemma cached_table c key id : cached c key id <-> table c !! key = Some id.
Proof. unfold cached, Lookup. by destruct (table c !! key). Qed.

(** Insert/lookup: after [Insert(key, value)] the cache maps [key] to the
    new entry, holding [value], or not at all when the entry cannot fit even
    with every idle entry gone; another key is never remapped, it keeps its
    entry or loses it, and loses it only if no client was holding it. *)
Theorem lru_insert_lookup c key value charge :
  LRUInv c -> 0 <= charge ->
  let '(id, c', _) := Insert c key value charge in
  (exists e, heap c' !! id = Some e /\ e_key e = key /\ e_value e = value /\
     (cached c' key id \/ Lookup c' key = (None, c') /\ (capacity c <> 0 -> lru c' = []))) /\
  (forall k i, k <> key -> cached c' k i -> cached c k i /\ heap c' !! i = heap c !! i) /\
  (forall k i, k <> key -> cached c k i -> i ∈ in_use c -> cached c' k i).
Proof.
  intros HI Hch. pose proof (Insert_spec c key value charge HI Hch) as Hs.
  destruct (Insert c key value charge) as [[id c'] d].
  destruct Hs as ([HI' _] & -> & _ & (refs & ic & Hnew & Hic) & Hkeep & Hback).
  pose proof HI as [HI0 _]. split; [|split].
  - exists (mkEntry key value charge refs ic). split_and!; [done..|].
    destruct Hic as [[-> ->]|(-> & -> & Hkn & Hl)].
    + left. apply cached_table, (inv_table _ _ HI'). split; [done|by eexists].
    + right. split; [|done]. unfold Lookup. by rewrite Hkn.
  - intros k i Hk (_ & e & He & Hke & Hce)%cached_table%(inv_table _ _ HI').
    assert (Hne : i <> next c).
    { intros ->. by simplify_eq. }
    assert (heap c !! i = Some e) as He0 by (apply Hback; [done|done|congruence]).
    split; [|congruence]. apply cached_table, (inv_table _ _ HI0). split; [done|by exists e].
  - intros k i Hk (_ & e & He & Hke & Hce)%cached_table%(inv_table _ _ HI0) Hin.
    apply cached_table, (inv_table _ _ HI'). split; [done|]. exists e.
    split_and!; [|done|done]. apply Hkeep; [done|done|congruence].
Qed.
End LRUCache.

(** ** Witnesses *)

Definition w_cache : LRU := (Insert (LRU_empty 2) [1] true 1).1.2.

(** The entry is released and erased: its value is deleted. *)
Definition w_erased : LRU := (Erase (Release w_cache 0%nat).1 [1]).1.

Lemma lru_accounting_witness :
  is_Some (heap w_cache !! 0%nat) /\ usage w_cache <= capacity w_cache /\ [true] ≡ₚ [true] ++ live w_erased.
Proof.
  assert (H0 : history 2 (w_cache, [0%nat]) [true] []).
  { apply (h_insert _ (LRU_empty 2) [] [] [] [1] true 1 0%nat _ []); [constructor|lia|reflexivity]. }
  assert (H1 : history 2 (w_erased, []) [true] [true]).
  { apply (h_erase _ (Release w_cache 0%nat).1 [] [true] [] [1] _ [true]); [|reflexivity].
    apply (h_release _ w_cache [] 0%nat [] [true] [] _ []); [exact H0|reflexivity]. }
  destruct (lru_accounting 2 w_cache [0%nat] [true] [] ltac:(lia) H0) as (A1 & _ & _ & _ & A2 & _).
  destruct (lru_accounting 2 w_erased [] [true] [true] ltac:(lia) H1) as (_ & _ & _ & _ & _ & _ & B).
  split; [apply A1; left|]. split; [exact A2|exact B].
Defined.

Lemma lru_insert_lookup_witness : cached (Insert w_cache [2] false 1).1.2 [2] 1%nat.
Proof.
  assert (HI : LRUInv w_cache).
  { pose proof (Insert_spec (LRU_empty 2) [1] true 1) as Hs. cbn in Hs. apply Hs; [|lia].
    apply LRU_empty_inv. lia. }
  pose proof (lru_insert_lookup w_cache [2] false 1 HI) as Hs.
  destruct Hs as [(e & _ & _ & _ & [Hc|[Hf _]]) _]; [lia|exact Hc|discriminate Hf].
Defined.
