(* ===== verification/XXHashImpl.v ===== *)
(** * XXHash (external/pdlfs-common: src/xxhash.cc, src/xxhash/xxhash.c)

    The one-shot 32-bit and 64-bit hashes, computed on little-endian reads, as
    an instance of the interface [XXHash] of [Gigaplus].  The components are
    verified for every hash; this instance makes concrete runs of the program
    follow the hash values of the real one.

    The [switch] of the two [finalize] functions falls through its cases so
    that the remaining bytes are consumed by the widest step first; the loops
    below consume them in that order. *)
From S2P Require Import Prelude Coding Gigaplus.

Definition rotl32 (x r : Z) : Z := Z.lor (u32 (Z.shiftl x r)) (Z.shiftr x (32 - r)).
Definition rotl64 (x r : Z) : Z := Z.lor (u64 (Z.shiftl x r)) (Z.shiftr x (64 - r)).

(** ** XXH32 *)

Definition PRIME32_1 : Z := 2654435761.
Definition PRIME32_2 : Z := 2246822519.
Definition PRIME32_3 : Z := 3266489917.
Definition PRIME32_4 : Z := 668265263.
Definition PRIME32_5 : Z := 374761393.

Definition XXH32_round (seed input : Z) : Z :=
  let seed := u32 (seed + u32 (input * PRIME32_2)) in
  let seed := rotl32 seed 13 in u32 (seed * PRIME32_1).

Definition XXH32_avalanche (h32 : Z) : Z :=
  let h32 := Z.lxor h32 (Z.shiftr h32 15) in
  let h32 := u32 (h32 * PRIME32_2) in
  let h32 := Z.lxor h32 (Z.shiftr h32 13) in
  let h32 := u32 (h32 * PRIME32_3) in
  Z.lxor h32 (Z.shiftr h32 16).

Definition PROCESS1 (h32 b : Z) : Z :=
  u32 (rotl32 (u32 (h32 + u32 (b * PRIME32_5))) 11 * PRIME32_1).
Definition PROCESS4 (h32 : Z) (p : bytes) : Z :=
  u32 (rotl32 (u32 (h32 + u32 (DecodeFixed32 p * PRIME32_3))) 17 * PRIME32_4).

Fixpoint XXH32_finalize (fuel : nat) (h32 : Z) (p : bytes) : Z :=
  match fuel with
  | O => XXH32_avalanche h32
  | S fuel =>
      if 4 <=? zlen p then XXH32_finalize fuel (PROCESS4 h32 p) (drop 4 p)
      else XXH32_avalanche (foldl PROCESS1 h32 p)
  end.

(** The loop over 16-byte stripes. *)
Fixpoint XXH32_loop (fuel : nat) (v1 v2 v3 v4 : Z) (p : bytes) : Z * Z * Z * Z * bytes :=
  match fuel with
  | O => (v1, v2, v3, v4, p)
  | S fuel =>
      if 16 <=? zlen p then
        XXH32_loop fuel
          (XXH32_round v1 (DecodeFixed32 p)) (XXH32_round v2 (DecodeFixed32 (drop 4 p)))
          (XXH32_round v3 (DecodeFixed32 (drop 8 p))) (XXH32_round v4 (DecodeFixed32 (drop 12 p)))
          (drop 16 p)
      else (v1, v2, v3, v4, p)
  end.

(** Each iteration of the loops consumes input, so its length is enough fuel. *)
Definition XXH32 (input : bytes) (seed : Z) : Z :=
  let (h32, p) :=
    if 16 <=? zlen input then
      let '(v1, v2, v3, v4, p) :=
        XXH32_loop (length input) (u32 (seed + PRIME32_1 + PRIME32_2)) (u32 (seed + PRIME32_2))
          seed (u32 (seed - PRIME32_1)) input in
      (u32 (rotl32 v1 1 + rotl32 v2 7 + rotl32 v3 12 + rotl32 v4 18), p)
    else (u32 (seed + PRIME32_5), input) in
  XXH32_finalize (length p) (u32 (h32 + u32 (zlen input))) p.

(** ** XXH64 *)

Definition PRIME64_1 : Z := 11400714785074694791.
Definition PRIME64_2 : Z := 14029467366897019727.
Definition PRIME64_3 : Z := 1609587929392839161.
Definition PRIME64_4 : Z := 9650029242287828579.
Definition PRIME64_5 : Z := 2870177450012600261.

Definition XXH64_round (acc input : Z) : Z :=
  let acc := u64 (acc + u64 (input * PRIME64_2)) in
  let acc := rotl64 acc 31 in u64 (acc * PRIME64_1).

Definition XXH64_mergeRound (acc val : Z) : Z :=
  let val := XXH64_round 0 val in
  let acc := Z.lxor acc val in u64 (acc * PRIME64_1 + PRIME64_4).

Definition XXH64_avalanche (h64 : Z) : Z :=
  let h64 := Z.lxor h64 (Z.shiftr h64 33) in
  let h64 := u64 (h64 * PRIME64_2) in
  let h64 := Z.lxor h64 (Z.shiftr h64 29) in
  let h64 := u64 (h64 * PRIME64_3) in
  Z.lxor h64 (Z.shiftr h64 32).

Definition PROCESS1_64 (h64 b : Z) : Z :=
  u64 (rotl64 (Z.lxor h64 (u64 (b * PRIME64_5))) 11 * PRIME64_1).
Definition PROCESS4_64 (h64 : Z) (p : bytes) : Z :=
  u64 (rotl64 (Z.lxor h64 (u64 (DecodeFixed32 p * PRIME64_1))) 23 * PRIME64_2 + PRIME64_3).
Definition PROCESS8_64 (h64 : Z) (p : bytes) : Z :=
  u64 (rotl64 (Z.lxor h64 (XXH64_round 0 (DecodeFixed64 p))) 27 * PRIME64_1 + PRIME64_4).

Fixpoint XXH64_finalize (fuel : nat) (h64 : Z) (p : bytes) : Z :=
  match fuel with
  | O => XXH64_avalanche h64
  | S fuel =>
      if 8 <=? zlen p then XXH64_finalize fuel (PROCESS8_64 h64 p) (drop 8 p)
      else if 4 <=? zlen p then XXH64_finalize fuel (PROCESS4_64 h64 p) (drop 4 p)
      else XXH64_avalanche (foldl PROCESS1_64 h64 p)
  end.

Fixpoint XXH64_loop (fuel : nat) (v1 v2 v3 v4 : Z) (p : bytes) : Z * Z * Z * Z * bytes :=
  match fuel with
  | O => (v1, v2, v3, v4, p)
  | S fuel =>
      if 32 <=? zlen p then
        XXH64_loop fuel
          (XXH64_round v1 (DecodeFixed64 p)) (XXH64_round v2 (DecodeFixed64 (drop 8 p)))
          (XXH64_round v3 (DecodeFixed64 (drop 16 p)))
          (XXH64_round v4 (DecodeFixed64 (drop 24 p))) (drop 32 p)
      else (v1, v2, v3, v4, p)
  end.

Definition XXH64 (input : bytes) (seed : Z) : Z :=
  let (h64, p) :=
    if 32 <=? zlen input then
      let '(v1, v2, v3, v4, p) :=
        XXH64_loop (length input) (u64 (seed + PRIME64_1 + PRIME64_2)) (u64 (seed + PRIME64_2))
          seed (u64 (seed - PRIME64_1)) input in
      let h64 := u64 (rotl64 v1 1 + rotl64 v2 7 + rotl64 v3 12 + rotl64 v4 18) in
      (XXH64_mergeRound (XXH64_mergeRound (XXH64_mergeRound (XXH64_mergeRound h64 v1) v2) v3) v4,
       p)
    else (u64 (seed + PRIME64_5), input) in
  XXH64_finalize (length p) (u64 (h64 + zlen input)) p.

Definition pdlfs_xxhash : XXHash := {| xxhash32 := XXH32; xxhash64 := XXH64 |}.

(** Reference values: of the empty string and of an input longer than one
    stripe. *)
Lemma XXH32_empty : XXH32 [] 0 = 0x02CC5D05.
Proof. by vm_compute. Qed.
Lemma XXH64_empty : XXH64 [] 0 = 0xEF46DB3751D8E999.
Proof. by vm_compute. Qed.
