(* ===== verification/Filter.v ===== *)
(** * Filters of indexed directories (src/libdeltafs/plfsio/v1: filter.h, filter.cc)

    A table of an indexed directory carries a filter over its keys: a Bloom
    filter ([BloomBlock]), or a bitmap with one bit for each key of a small
    domain ([BitmapBlock]), stored in one of seven formats.  Six of them keep
    the keys in a bucketized buffer ([CompressedFormat]) and are written out, at
    the end, as sorted deltas (variable-length bytes, or groups of equally wide
    bit fields) or as buckets; two of them carry a lookup table.

    [None] is a failed assertion or a division by zero.  [std::sort] of integers
    is [sort].  [EmptyFilterBlock] and the reports of memory usage are left out.
    The theorems are in [FilterProps]. *)
From stdpp Require Import sorting.
From S2P Require Import Prelude Coding Gigaplus.

Definition sort : list Z -> list Z := merge_sort Z.le.

(** ** Bloom filters *)

Module Bloom.
Section Bloom.
Context `{XXHash}.

Definition BloomHash (key : bytes) : Z := xxhash64 key 0.

Record BloomBlock := mkBloom {
  bits_per_key_ : Z; finished_ : bool; space_ : bytes; bits_ : Z; k_ : Z }.

(** [bits_per_key_ * 0.69] is at a distance of at least 1/100 from every integer
    when it is below 30, so truncating the rounded product is this division. *)
Definition BloomBlock_new (bf_bits_per_key : Z) : BloomBlock :=
  let k := bf_bits_per_key * 69 / 100 + 1 in
  mkBloom bf_bits_per_key true [] 0 (if 30 <? k then 30 else k).

Definition Reset (b : BloomBlock) (num_keys : Z) : BloomBlock :=
  let bits := u32 (u64 (num_keys * bits_per_key_ b)) in
  let bits := if bits <? 64 then 64 else bits in
  let nbytes := u32 (bits + 7) / 8 in
  mkBloom (bits_per_key_ b) false (replicate (Z.to_nat nbytes) 0 ++ [u8 (k_ b)]) (u32 (nbytes * 8))
    (k_ b).

(** The loop over the [k_] probes of a key. *)
Fixpoint add_probes (k : nat) (h1 h2 bits : Z) (space : bytes) : bytes :=
  match k with
  | O => space
  | S k => add_probes k (u32 (h1 + h2)) h2 bits (set_bit space (h1 mod bits))
  end.

Definition AddKey (b : BloomBlock) (key : bytes) : option BloomBlock :=
  if finished_ b || (bits_ b =? 0) then None
  else
    let hx := BloomHash key in
    Some (mkBloom (bits_per_key_ b) false
      (add_probes (Z.to_nat (k_ b)) (u32 hx) (u32 (Z.shiftr hx 32)) (bits_ b) (space_ b))
      (bits_ b) (k_ b)).

Definition Finish (b : BloomBlock) : option (bytes * BloomBlock) :=
  if finished_ b then None
  else Some (space_ b, mkBloom (bits_per_key_ b) true (space_ b) (bits_ b) (k_ b)).

Fixpoint test_probes (k : nat) (h1 h2 bits : Z) (array : bytes) : bool :=
  match k with
  | O => true
  | S k => if test_bit array (h1 mod bits) then test_probes k (u32 (h1 + h2)) h2 bits array else false
  end.

Definition BloomKeyMayMatch (key input : bytes) : bool :=
  let len := zlen input in
  if len <? 2 then true
  else
    let bits := u32 ((len - 1) * 8) in
    let k := byte_at input (len - 1) in
    if 30 <? k then true
    else
      let hx := BloomHash key in
      test_probes (Z.to_nat k) (u32 hx) (u32 (Z.shiftr hx 32)) bits input.

End Bloom.
End Bloom.

(** ** The buckets of compressed bitmaps *)

Record CompressedFormat := mkCompressed {
  working_space_ : bytes; extra_keys_ : list Z; estimated_bucket_size_ : Z;
  num_buckets_ : Z; num_keys_ : Z; key_bits_ : Z }.

Definition bytes_per_bucket_ (f : CompressedFormat) : Z := estimated_bucket_size_ f + 1.

Module Compressed.

Definition New (key_bits : Z) : CompressedFormat :=
  mkCompressed [] [] 0 (Z.shiftl 1 (key_bits - 8)) 0 key_bits.

Definition Reset (f : CompressedFormat) (num_keys : Z) : CompressedFormat :=
  let estimated := (num_keys + num_buckets_ f - 1) / num_buckets_ f in
  mkCompressed (replicate (Z.to_nat ((estimated + 1) * num_buckets_ f)) 0) [] estimated
    (num_buckets_ f) num_keys (key_bits_ f).

Definition store (ws : bytes) (pos b : Z) : bytes := <[Z.to_nat pos := b]> ws.

Definition Set_ (f : CompressedFormat) (i : Z) : CompressedFormat :=
  let bucket := Z.shiftr i 8 * bytes_per_bucket_ f in
  let bucket_size := byte_at (working_space_ f) bucket in
  let ws := store (working_space_ f) bucket (u8 (bucket_size + 1)) in
  if bucket_size <? estimated_bucket_size_ f
  then mkCompressed (store ws (bucket + 1 + bucket_size) (Z.land i 255)) (extra_keys_ f)
         (estimated_bucket_size_ f) (num_buckets_ f) (num_keys_ f) (key_bits_ f)
  else mkCompressed ws (extra_keys_ f ++ [i])
         (estimated_bucket_size_ f) (num_buckets_ f) (num_keys_ f) (key_bits_ f).

(** [Iter::Fetch]: the keys of the bucket [index], and the position in the
    sorted extra keys afterwards. *)
Fixpoint Fetch_loop (f : CompressedFormat) (index : Z) (js : list Z) (iter : list Z)
  : option (list Z * list Z) :=
  match js with
  | [] => Some ([], iter)
  | i :: js =>
      if i <? estimated_bucket_size_ f then
        let key := byte_at (working_space_ f) (bytes_per_bucket_ f * index + 1 + i) + Z.shiftl index 8 in
        let? (keys, iter) := Fetch_loop f index js iter in Some (key :: keys, iter)
      else
        match iter with
        | [] => None
        | key :: iter => let? (keys, iter) := Fetch_loop f index js iter in Some (key :: keys, iter)
        end
  end.

Definition Fetch (f : CompressedFormat) (index : Z) (iter : list Z) : option (list Z * list Z) :=
  Fetch_loop f index (seqZ 0 (byte_at (working_space_ f) (bytes_per_bucket_ f * index))) iter.

(** The loop over the buckets that [Iter] visits, each sorted. *)
Fixpoint Iter (f : CompressedFormat) (indices : list Z) (iter : list Z) : option (list (list Z)) :=
  match indices with
  | [] => Some []
  | index :: indices =>
      let? (keys, iter) := Fetch f index iter in
      let? buckets := Iter f indices iter in
      Some (sort keys :: buckets)
  end.

(** [CompressedFormat::Finish], which sorts the extra keys, and the buckets. *)
Definition buckets (f : CompressedFormat) : option (list (list Z)) :=
  Iter f (seqZ 0 (num_buckets_ f)) (sort (extra_keys_ f)).

(** The two nested loops of the [Finish] methods. *)
Definition for_keys {A} (f : CompressedFormat) (step : A -> Z -> A) (init : A) : option A :=
  let? bs := buckets f in Some (fold_left (fun a keys => fold_left step keys a) bs init).

End Compressed.

(** ** Variable-length deltas ([VbFormat], [VbPlusFormat], [FastVbPlusFormat]) *)

Module Vb.

(** A 32-bit value takes at most 5 bytes. *)
Fixpoint VbEnc_loop (fuel : nat) (value : Z) : bytes :=
  match fuel with
  | O => []
  | S fuel =>
      if 127 <? value then Z.lor (Z.land value 127) 128 :: VbEnc_loop fuel (Z.shiftr value 7)
      else [Z.land value 127]
  end.
Definition VbEnc (value : Z) : bytes := VbEnc_loop 5 value.

Fixpoint VbDec_loop (i : Z) (result : Z) (input : bytes) : Z * bytes :=
  match input with
  | [] => (result, [])
  | b :: input =>
      let result := Z.lor result (u32 (Z.shiftl (Z.land b 127) (7 * i))) in
      if Z.land b 128 =? 0 then (result, input) else VbDec_loop (i + 1) result input
  end.
Definition VbDec (input : bytes) : Z * bytes := VbDec_loop 0 0 input.

Definition VbPlusEnc (value : Z) : bytes :=
  if value <? 255 then [value] else 255 :: VbEnc (u32 (value - 254)).

Definition VbPlusDec (input : bytes) : Z * bytes :=
  match input with
  | [] => (0, [])
  | b :: input =>
      if b =? 255 then let (r, input) := VbDec input in (u32 (r + 254), input) else (b, input)
  end.

(** The loop of the [Finish] methods: the encodings of the differences. *)
Definition put_dta (enc : Z -> bytes) (acc : bytes * Z) (key : Z) : bytes * Z :=
  let (space, last_key) := acc in (space ++ enc (u32 (key - last_key)), key).

Definition Finish (enc : Z -> bytes) (f : CompressedFormat) : option bytes :=
  fst <$> Compressed.for_keys f (put_dta enc) ([], 0).

(** The loop of the [Test] methods.  Each iteration consumes a byte at least,
    so that [fuel] is left as long as there is input. *)
Fixpoint Test_loop (dec : bytes -> Z * bytes) (fuel : nat) (bit base : Z) (input : bytes) : bool :=
  match input, fuel with
  | [], _ | _, O => false
  | _, S fuel =>
      let (dta, input) := dec input in
      let base := u32 (base + dta) in
      if base =? bit then true
      else if bit <? base then false
      else Test_loop dec fuel bit base input
  end.
Definition Test (dec : bytes -> Z * bytes) (bit : Z) (bitmap : bytes) : bool :=
  Test_loop dec (length bitmap) bit 0 bitmap.

End Vb.

(** ** Lookup tables *)

Record LookupTableBuilder := mkBuilder {
  partition_dta_prefix_ : Z; partition_num_keys_ : Z; partition_index_ : Z }.

Module Table.

Definition partition_size_ : Z := 1024.

(** [EncodeFixed32] into the space at offset [pos] *)
Definition put32 (space : bytes) (pos value : Z) : bytes :=
  take (Z.to_nat pos) space ++ EncodeFixed32 value ++ drop (Z.to_nat pos + 4) space.

Definition New (num_keys : Z) : LookupTableBuilder * bytes :=
  let num_partitions := (num_keys + partition_size_ - 1) / partition_size_ in
  let num_partitions := if num_partitions =? 0 then 1 else num_partitions in
  let space := replicate (Z.to_nat (num_partitions * 8)) 0 in
  (mkBuilder 0 0 0, put32 space 4 (u32 (zlen space))).

Definition Add (t : LookupTableBuilder) (dta : Z) (space : bytes) : LookupTableBuilder * bytes :=
  let '(t, space) :=
    if partition_num_keys_ t =? partition_size_ then
      let space := put32 space (partition_index_ t * 8) (partition_dta_prefix_ t) in
      let index := partition_index_ t + 1 in
      (mkBuilder (partition_dta_prefix_ t) 0 index, put32 space (index * 8 + 4) (u32 (zlen space)))
    else (t, space) in
  (mkBuilder (u32 (partition_dta_prefix_ t + dta)) (partition_num_keys_ t + 1) (partition_index_ t),
   space).

Definition Finish (t : LookupTableBuilder) (space : bytes) : bytes :=
  if negb (partition_num_keys_ t =? 0)
  then put32 space (partition_index_ t * 8) (partition_dta_prefix_ t)
  else space.

Definition get32 (input : bytes) (pos : Z) : Z := DecodeFixed32 (drop (Z.to_nat pos) input).

(** [LookupTable::Lookup]: where to start decoding, and with which base. *)
Fixpoint Lookup_loop (bitmap : bytes) (bit : Z) (parts : list Z) (base : Z) : option (bytes * Z) :=
  match parts with
  | [] => None
  | p :: parts =>
      let prefix := get32 bitmap (p * 8) in
      if bit <=? prefix then Some (drop (Z.to_nat (get32 bitmap (p * 8 + 4))) bitmap, base)
      else Lookup_loop bitmap bit parts prefix
  end.

Definition Lookup (bitmap : bytes) (bit : Z) : option (bytes * Z) :=
  if zlen bitmap <? 8 then None
  else Lookup_loop bitmap bit (seqZ 0 (get32 bitmap 4 / 8)) 0.

End Table.

Module FastVb.

Definition step (acc : LookupTableBuilder * bytes * Z) (key : Z)
  : LookupTableBuilder * bytes * Z :=
  let '(t, space, last_key) := acc in
  let dta := u32 (key - last_key) in
  let (t, space) := Table.Add t dta space in
  (t, space ++ Vb.VbPlusEnc dta, key).

Definition Finish (f : CompressedFormat) : option bytes :=
  let? (t, space, _) := Compressed.for_keys f step (Table.New (num_keys_ f), 0) in
  Some (Table.Finish t space).

Definition Test (bit : Z) (bitmap : bytes) : bool :=
  match Table.Lookup bitmap bit with
  | Some (input, base) => Vb.Test_loop Vb.VbPlusDec (length input) bit base input
  | None => false
  end.

End FastVb.

(** ** Groups of bit fields ([PfDeltaFormat], [FastPfDeltaFormat]) *)

Module Pf.

Definition cohort_size_ : Z := 128.

(** The position of the left-most 1 bit, counted from 1. *)
Definition LeftMostBit (i : Z) : Z := if i =? 0 then 0 else Z.log2 i + 1.

(** The bits of a key, the most significant first: [b] is the byte being
    filled, [bit_index] the next bit of it. *)
Fixpoint put_bits (remaining : nat) (key b bit_index : Z) (output : bytes) : Z * Z * bytes :=
  match remaining with
  | O => (b, bit_index, output)
  | S r =>
      let b := Z.lor b (if 1 <=? Z.land key (Z.shiftl 1 (Z.of_nat r)) then Z.shiftl 1 bit_index else 0) in
      if bit_index =? 0 then put_bits r key 0 7 (output ++ [b])
      else put_bits r key b (bit_index - 1) output
  end.

Fixpoint put_keys (num_bits : nat) (cohort : list Z) (b bit_index : Z) (output : bytes)
  : Z * Z * bytes :=
  match cohort with
  | [] => (b, bit_index, output)
  | key :: cohort =>
      let '(b, bit_index, output) := put_bits num_bits key b bit_index output in
      put_keys num_bits cohort b bit_index output
  end.

Definition PfDtaEnc (output : bytes) (cohort : list Z) (cohort_max : Z) : bytes :=
  let num_bits := LeftMostBit cohort_max in
  let '(b, bit_index, output) :=
    put_keys (Z.to_nat num_bits) cohort 0 7 (output ++ [num_bits]) in
  if negb (bit_index =? 7) then output ++ [b] else output.

Fixpoint get_bits (remaining : nat) (dta b bit_index : Z) (input : bytes) : Z * Z * Z * bytes :=
  match remaining with
  | O => (dta, b, bit_index, input)
  | S r =>
      let '(b, bit_index, input) :=
        if bit_index <? 0 then (hd 0 input, 7, tail input) else (b, bit_index, input) in
      let dta := Z.lor dta
        (if 0 <? Z.land b (Z.shiftl 1 bit_index) then u32 (Z.shiftl 1 (Z.of_nat r)) else 0) in
      get_bits r dta b (bit_index - 1) input
  end.

Fixpoint get_keys (num_keys : nat) (num_bits : nat) (b bit_index : Z) (input : bytes)
  : list Z * bytes :=
  match num_keys with
  | O => ([], input)
  | S n =>
      let '(dta, b, bit_index, input) := get_bits num_bits 0 b bit_index input in
      let (cohort, input) := get_keys n num_bits b bit_index input in
      (dta :: cohort, input)
  end.

(** [8 * input->size() / num_bits] divides by zero for a group of no bits. *)
Definition PfDtaDec (input : bytes) : option (list Z * bytes) :=
  match input with
  | [] => Some ([], [])
  | num_bits :: input =>
      if num_bits =? 0 then None
      else
        let n := 8 * zlen input / num_bits in
        let num_keys := if n <? cohort_size_ then n else cohort_size_ in
        Some (get_keys (Z.to_nat num_keys) (Z.to_nat num_bits) 0 (-1) input)
  end.

(** Cohorts are written when they are full. *)
Definition put_dta (dta : Z) (acc : bytes * list Z * Z) : bytes * list Z * Z :=
  let '(space, cohort, cohort_max) := acc in
  let cohort := cohort ++ [dta] in
  let cohort_max := Z.lor cohort_max dta in
  if zlen cohort =? cohort_size_ then (PfDtaEnc space cohort cohort_max, [], 0)
  else (space, cohort, cohort_max).

Definition put_last (acc : bytes * list Z * Z) : bytes :=
  let '(space, cohort, cohort_max) := acc in
  if decide (cohort = []) then space else PfDtaEnc space cohort cohort_max.

Definition step (acc : bytes * list Z * Z * Z) (key : Z) : bytes * list Z * Z * Z :=
  let '(st, last_key) := acc in (put_dta (u32 (key - last_key)) st, key).

Definition Finish (f : CompressedFormat) : option bytes :=
  let? (st, _) := Compressed.for_keys f step ([], [], 0, 0) in Some (put_last st).

(** The keys of a cohort: found, passed, or neither with the new base. *)
Fixpoint scan (bit base : Z) (cohort : list Z) : bool + Z :=
  match cohort with
  | [] => inr base
  | dta :: cohort =>
      let base := u32 (base + dta) in
      if base =? bit then inl true
      else if bit <? base then inl false
      else scan bit base cohort
  end.

Fixpoint Test_loop (fuel : nat) (bit base : Z) (input : bytes) : option bool :=
  match input, fuel with
  | [], _ | _, O => Some false
  | _, S fuel =>
      let? (cohort, input) := PfDtaDec input in
      match scan bit base cohort with
      | inl r => Some r
      | inr base => Test_loop fuel bit base input
      end
  end.

Definition Test (bit : Z) (bitmap : bytes) : option bool :=
  Test_loop (length bitmap) bit 0 bitmap.

End Pf.

Module FastPf.

Definition step (acc : LookupTableBuilder * (bytes * list Z * Z) * Z) (key : Z)
  : LookupTableBuilder * (bytes * list Z * Z) * Z :=
  let '(t, (space, cohort, cohort_max), last_key) := acc in
  let dta := u32 (key - last_key) in
  let (t, space) := Table.Add t dta space in
  (t, Pf.put_dta dta (space, cohort, cohort_max), key).

(** The table is finished before the last cohort is written. *)
Definition Finish (f : CompressedFormat) : option bytes :=
  let (t, space) := Table.New (num_keys_ f) in
  let? (t, (space, cohort, cohort_max), _) := Compressed.for_keys f step (t, (space, [], 0), 0) in
  Some (Pf.put_last (Table.Finish t space, cohort, cohort_max)).

Definition Test (bit : Z) (bitmap : bytes) : option bool :=
  match Table.Lookup bitmap bit with
  | Some (input, base) => Pf.Test_loop (length input) bit base input
  | None => Some false
  end.

End FastPf.

(** ** Buckets with headers ([RoaringFormat]) *)

Module Roaring.

Definition step (acc : bytes * Z) (keys : list Z) : bytes * Z :=
  let (space, index) := acc in
  (<[Z.to_nat (4 + index) := u8 (zlen keys)]> space ++ ((fun k => Z.land k 255) <$> keys), index + 1).

Definition Finish (f : CompressedFormat) : option bytes :=
  let? bs := Compressed.buckets f in
  let space := EncodeFixed32 (num_buckets_ f) ++ replicate (Z.to_nat (num_buckets_ f)) 0 in
  Some (fold_left step bs (space, 0)).1.

(** The loop over the headers up to the target's. *)
Fixpoint bounds (input : bytes) (num_buckets : Z) (js : list Z) (bucket_start bucket_end : Z)
  : option (Z * Z) :=
  match js with
  | [] => Some (bucket_start, bucket_end)
  | i :: js =>
      if i <? num_buckets
      then bounds input num_buckets js bucket_end (bucket_end + byte_at input i)
      else None
  end.

(** The loop over the bucket. *)
Fixpoint search (input : bytes) (target : Z) (js : list Z) : bool :=
  match js with
  | [] => false
  | i :: js =>
      let key := byte_at input i in
      if target <? key then false
      else if key =? target then true
      else search input target js
  end.

Definition Test (bit : Z) (bitmap : bytes) : bool :=
  if zlen bitmap <? 4 then false
  else
    let num_buckets := DecodeFixed32 bitmap in
    let input := drop 4 bitmap in
    if zlen input <? num_buckets then false
    else
      match bounds input num_buckets (seqZ 0 (Z.shiftr bit 8 + 1)) 0 0 with
      | None => false
      | Some (bucket_start, bucket_end) =>
          let input := drop (Z.to_nat num_buckets) input in
          if bucket_end <=? zlen input
          then search input (Z.land bit 255) (seqZ bucket_start (bucket_end - bucket_start))
          else false
      end.

End Roaring.

(** ** Uncompressed bitmaps *)

Module Uncompressed.

Definition Reset (key_bits : Z) : bytes :=
  replicate (Z.to_nat ((Z.shiftl 1 key_bits + 7) / 8)) 0.

Definition Set_ (key_bits : Z) (space : bytes) (i : Z) : option bytes :=
  if i <? Z.shiftl 1 key_bits then Some (set_bit space i) else None.

Definition Test (i : Z) (input : bytes) : bool :=
  if i <? zlen input * 8 then test_bit input i else false.

End Uncompressed.

(** ** Bitmap filters *)

Inductive BitmapFormat :=
  | kFmtUncompressed | kFmtRoaring | kFmtFastVarintPlus | kFmtVarintPlus | kFmtVarint
  | kFmtFastPfDelta | kFmtPfDelta.

#[export] Instance BitmapFormat_eq_dec : EqDecision BitmapFormat.
Proof. solve_decision. Defined.

Definition format_code (fmt : BitmapFormat) : Z :=
  match fmt with
  | kFmtUncompressed => 0 | kFmtRoaring => 1 | kFmtFastVarintPlus => 2 | kFmtVarintPlus => 3
  | kFmtVarint => 4 | kFmtFastPfDelta => 5 | kFmtPfDelta => 6
  end.

Module Bitmap.

(** The state of [fmt_]: the bytes of an uncompressed bitmap, or buckets. *)
Inductive Rep := Plain (space : bytes) | Buckets (f : CompressedFormat).

Record BitmapBlock := mkBitmap {
  bm_key_bits : Z; bm_fmt : BitmapFormat; finished_ : bool; mask_ : Z; fmt_ : Rep }.

Definition BitmapBlock_new (key_bits : Z) (fmt : BitmapFormat) : BitmapBlock :=
  mkBitmap key_bits fmt true (Z.land (Z.lnot (u32 (Z.shiftl (2 ^ 32 - 1) key_bits))) (2 ^ 32 - 1))
    (match fmt with kFmtUncompressed => Plain [] | _ => Buckets (Compressed.New key_bits) end).

Definition Reset (b : BitmapBlock) (num_keys : Z) : BitmapBlock :=
  mkBitmap (bm_key_bits b) (bm_fmt b) false (mask_ b)
    (match fmt_ b with
     | Plain _ => Plain (Uncompressed.Reset (bm_key_bits b))
     | Buckets f => Buckets (Compressed.Reset f num_keys)
     end).

(** The first 4 bytes of the key, padded with zeros. *)
Definition BitmapIndex (key : bytes) : Z :=
  DecodeFixed32 (take 4 key ++ replicate (4 - length key) 0).

Definition AddKey (b : BitmapBlock) (key : bytes) : option BitmapBlock :=
  if finished_ b then None
  else
    let i := Z.land (BitmapIndex key) (mask_ b) in
    let? rep :=
      match fmt_ b with
      | Plain space => Plain <$> Uncompressed.Set_ (bm_key_bits b) space i
      | Buckets f => Some (Buckets (Compressed.Set_ f i))
      end in
    Some (mkBitmap (bm_key_bits b) (bm_fmt b) false (mask_ b) rep).

(** [fmt_->Finish()] *)
Definition Finish_fmt (b : BitmapBlock) : option bytes :=
  match fmt_ b with
  | Plain space => Some space
  | Buckets f =>
      match bm_fmt b with
      | kFmtUncompressed => None
      | kFmtRoaring => Roaring.Finish f
      | kFmtFastVarintPlus => FastVb.Finish f
      | kFmtVarintPlus => Vb.Finish Vb.VbPlusEnc f
      | kFmtVarint => Vb.Finish Vb.VbEnc f
      | kFmtFastPfDelta => FastPf.Finish f
      | kFmtPfDelta => Pf.Finish f
      end
  end.

(** The contents, and the block, which must be reset before it is used again. *)
Definition Finish (b : BitmapBlock) : option (bytes * BitmapBlock) :=
  let? space := Finish_fmt b in
  Some (space ++ [u8 (bm_key_bits b); format_code (bm_fmt b)],
        mkBitmap (bm_key_bits b) (bm_fmt b) true (mask_ b) (fmt_ b)).

Definition BitmapTestKey (fmt k : Z) (rep : bytes) : option bool :=
  if fmt =? format_code kFmtUncompressed then Some (Uncompressed.Test k rep)
  else if fmt =? format_code kFmtFastVarintPlus then Some (FastVb.Test k rep)
  else if fmt =? format_code kFmtVarintPlus then Some (Vb.Test Vb.VbPlusDec k rep)
  else if fmt =? format_code kFmtVarint then Some (Vb.Test Vb.VbDec k rep)
  else if fmt =? format_code kFmtFastPfDelta then FastPf.Test k rep
  else if fmt =? format_code kFmtPfDelta then Pf.Test k rep
  else if fmt =? format_code kFmtRoaring then Some (Roaring.Test k rep)
  else Some true.

Definition BitmapKeyMustMatch (key input : bytes) : option bool :=
  let len := zlen input in
  if len <? 2 then Some false
  else
    let bitmap := take (length input - 2) input in
    let k := BitmapIndex key in
    let key_bits := byte_at input (len - 2) in
    if u32 (Z.shiftl 1 key_bits) <=? k then Some false
    else BitmapTestKey (byte_at input (len - 1)) k bitmap.

End Bitmap.
