(* ===== verification/FilterLemmas.v ===== *)
(** * Lemmas on the filters of indexed directories

    Bloom filters have no false negatives.  For the bitmaps, the lemmas go through
    the sorted list of the keys: the buckets of [CompressedFormat] yield it
    ([buckets_sorted]), the variable-length formats encode its differences
    ([DeltaCodec], [Test_loop_spec]), and lookup tables lead to the right part
    of them ([table_search]). *)
From stdpp Require Import sorting.
From S2P Require Import Prelude Coding Gigaplus Filter.

#[global] Arguments byte_at : simpl never.
#[global] Arguments Compressed.store : simpl never.
#[global] Arguments zlen : simpl never.

(** A sequence of insertions. *)
Fixpoint add_all {B} (add : B -> bytes -> option B) (b : B) (keys : list bytes) : option B :=
  match keys with
  | [] => Some b
  | key :: keys => let? b := add b key in add_all add b keys
  end.

(** ** Bloom filters *)

Section Bloom.
Import Bloom.
Context `{XXHash}.

Lemma mod_bits h bits : 0 < bits -> 0 <= h mod bits < bits.
Proof. intros. by apply Z.mod_pos_bound. Qed.

Lemma zlen_add_probes k h1 h2 bits sp : zlen (add_probes k h1 h2 bits sp) = zlen sp.
Proof. revert h1 sp. induction k as [|k IH]; intros; cbn; [done|]. by rewrite IH, zlen_set_bit. Qed.

(** Insertions keep the bits that are on, and the bytes after the bitmap. *)
Lemma add_probes_keep k h1 h2 bits sp j :
  0 < bits -> bits <= zlen sp * 8 -> 0 <= j -> rawbit sp j = true ->
  rawbit (add_probes k h1 h2 bits sp) j = true.
Proof.
  intros Hb Hl Hj. revert h1 sp Hl. induction k as [|k IH]; intros h1 sp Hl Hr; cbn; [done|].
  apply IH; [by rewrite zlen_set_bit|]. pose proof (mod_bits h1 bits Hb).
  rewrite rawbit_set_bit by lia. rewrite Hr. by destruct (_ =? _).
Qed.

Lemma add_probes_tail k h1 h2 bits sp j :
  0 < bits -> bits <= j * 8 -> j < zlen sp ->
  byte_at (add_probes k h1 h2 bits sp) j = byte_at sp j.
Proof.
  intros Hb Hj Hl. revert h1 sp Hl. induction k as [|k IH]; intros h1 sp Hl; cbn [add_probes]; [done|].
  pose proof (mod_bits h1 bits Hb). assert (h1 mod bits / 8 < j) by (apply Z.div_lt_upper_bound; lia).
  pose proof (Z.div_pos (h1 mod bits) 8).
  rewrite IH by (by rewrite zlen_set_bit). unfold set_bit. rewrite byte_at_insert by lia.
  destruct (Z.eqb_spec (h1 mod bits / 8) j); [lia|done].
Qed.

(** Every bit that is on in [sp] is on in [sp']. *)
Definition within (sp sp' : bytes) : Prop :=
  forall j, 0 <= j -> rawbit sp j = true -> rawbit sp' j = true.

Lemma add_then_test k h1 h2 bits sp sp' :
  0 < bits -> bits <= zlen sp * 8 -> within (add_probes k h1 h2 bits sp) sp' ->
  test_probes k h1 h2 bits sp' = true.
Proof.
  intros Hb. revert h1 sp. induction k as [|k IH]; intros h1 sp Hl Hw; cbn in *; [done|].
  pose proof (mod_bits h1 bits Hb). rewrite test_bit_rawbit, Hw.
  - eapply IH; [|exact Hw]. by rewrite zlen_set_bit.
  - lia.
  - apply add_probes_keep; [done|by rewrite zlen_set_bit|lia|].
    rewrite rawbit_set_bit by lia. by rewrite Z.eqb_refl.
Qed.

(** A filter under construction: a bitmap of [bits_] bits and the byte [k_]. *)
Record BloomOk (b : BloomBlock) : Prop := {
  bo_open : finished_ b = false;
  bo_bits : 0 < bits_ b < 2 ^ 32;
  bo_size : zlen (space_ b) = bits_ b / 8 + 1;
  bo_eight : bits_ b = bits_ b / 8 * 8;
  bo_k : byte_at (space_ b) (bits_ b / 8) = k_ b;
  bo_probes : 0 <= k_ b <= 30 }.

Lemma Reset_ok bpk n :
  0 <= bpk -> u32 (u64 (n * bpk)) <= 2 ^ 32 - 8 -> BloomOk (Reset (BloomBlock_new bpk) n).
Proof.
  intros Hb Hn. pose proof (u32_range (u64 (n * bpk))) as Hr. unfold Reset. cbn [bits_per_key_ k_ BloomBlock_new].
  set (k := if 30 <? bpk * 69 / 100 + 1 then 30 else bpk * 69 / 100 + 1).
  assert (Hk : 0 <= k <= 30) by (subst k; pose proof (Z.div_pos (bpk * 69) 100); destruct (Z.ltb_spec 30 (bpk * 69 / 100 + 1)); lia).
  set (bits := if _ <? 64 then 64 else _).
  assert (Hbits : 64 <= bits <= 2 ^ 32 - 8) by (subst bits; destruct (Z.ltb_spec (u32 (u64 (n * bpk))) 64); lia).
  rewrite (u32_small (bits + 7)) by (unfold in_width; lia).
  set (nb := (bits + 7) / 8).
  assert (8 <= nb < 2 ^ 29).
  { subst nb. split; [apply Z.div_le_lower_bound|apply Z.div_lt_upper_bound]; lia. }
  rewrite (u32_small (nb * 8)), (u8_small k) by (unfold in_width; lia).
  split; cbn -[Z.div Z.mul byte_at zlen app Z.pow]; rewrite ?Z.div_mul by lia; [done|lia| |lia| |done].
  - unfold zlen. rewrite length_app, length_replicate. cbn [length]. lia.
  - unfold byte_at. rewrite app_nth2 by (rewrite length_replicate; lia).
    rewrite length_replicate, Nat.sub_diag. done.
Qed.

Lemma AddKey_ok b key :
  BloomOk b -> exists b', AddKey b key = Some b' /\ BloomOk b' /\ within (space_ b) (space_ b') /\
    bits_ b' = bits_ b /\ k_ b' = k_ b /\
    space_ b' = add_probes (Z.to_nat (k_ b)) (u32 (BloomHash key))
      (u32 (Z.shiftr (BloomHash key) 32)) (bits_ b) (space_ b).
Proof.
  intros [Ho Hb Hs H8 Hk Hp]. unfold AddKey. rewrite Ho. destruct (Z.eqb_spec (bits_ b) 0); [lia|]. cbn.
  eexists. split; [done|]. split_and!; try done.
  - split; cbn [finished_ bits_ space_ k_]; rewrite ?zlen_add_probes; try done. rewrite add_probes_tail by lia. done.
  - cbn. intros j Hj Hr. apply add_probes_keep; (done || lia).
Qed.

Lemma add_all_ok keys b :
  BloomOk b -> exists b', add_all AddKey b keys = Some b' /\ BloomOk b' /\
    within (space_ b) (space_ b') /\ bits_ b' = bits_ b /\ k_ b' = k_ b /\
    forall key, key ∈ keys ->
      test_probes (Z.to_nat (k_ b)) (u32 (BloomHash key)) (u32 (Z.shiftr (BloomHash key) 32))
        (bits_ b) (space_ b') = true.
Proof.
  revert b. induction keys as [|k keys IH]; intros b Hb; cbn [add_all].
  { exists b. split_and!; [done|done|by intros ?|done|done|]. intros key Hin. by apply elem_of_nil in Hin. }
  destruct (AddKey_ok b k Hb) as (b1 & -> & H1 & Hw1 & Eb & Ek & Es).
  destruct (IH b1 H1) as (b2 & -> & H2 & Hw2 & Eb2 & Ek2 & Ht). rewrite Eb, Ek in *.
  exists b2. split_and!; try done; [unfold within in *; auto|].
  intros key [->|Hin]%elem_of_cons; [|by apply Ht].
  eapply (add_then_test _ _ _ _ (space_ b)); [apply Hb| |rewrite <- Es; exact Hw2].
  destruct Hb. lia.
Qed.

(** C26. A Bloom filter has no false negatives: a filter that is reset for any
    number of keys (its bits in a 32-bit count) takes any keys, and afterwards
    every key inserted may match, whatever the hash function. *)
Theorem bloom_no_false_negatives bpk n keys :
  0 <= bpk -> u32 (u64 (n * bpk)) <= 2 ^ 32 - 8 ->
  exists b out b',
    add_all AddKey (Reset (BloomBlock_new bpk) n) keys = Some b /\ Finish b = Some (out, b') /\
    forall key, key ∈ keys -> BloomKeyMayMatch key out = true.
Proof.
  intros Hb Hn. destruct (add_all_ok keys _ (Reset_ok bpk n Hb Hn)) as (b & E & Hok & _ & Eb & Ek & Ht).
  rewrite <- Eb, <- Ek in Ht.
  destruct Hok as [Ho Hbits Hs H8 Hk Hp]. exists b. do 2 eexists. split_and!; [done|unfold Finish; by rewrite Ho|].
  intros key Hin. unfold BloomKeyMayMatch. rewrite Hs. replace (bits_ b / 8 + 1 - 1) with (bits_ b / 8) by lia.
  rewrite Hk, <- H8, (u32_small (bits_ b)) by (unfold in_width; lia).
  destruct (Z.ltb_spec (bits_ b / 8 + 1) 2); [done|]. destruct (Z.ltb_spec 30 (k_ b)); [lia|]. by apply Ht.
Qed.

End Bloom.

(** ** The buckets of a compressed bitmap *)

(** The keys of bucket [j], in the order of insertion. *)
Definition bucket (j : Z) (l : list Z) : list Z := filter (fun k => Z.shiftr k 8 = j) l.

#[global] Arguments bucket : simpl never.

Lemma bucket_app j l l' : bucket j (l ++ l') = bucket j l ++ bucket j l'.
Proof. apply filter_app. Qed.

Lemma bucket_one j k : bucket j [k] = if Z.shiftr k 8 =? j then [k] else [].
Proof.
  unfold bucket. destruct (Z.eqb_spec (Z.shiftr k 8) j).
  - by rewrite filter_cons_True.
  - by rewrite filter_cons_False.
Qed.

Lemma zlen_bucket_snoc j l k :
  zlen (bucket j (l ++ [k])) = zlen (bucket j l) + if Z.shiftr k 8 =? j then 1 else 0.
Proof. rewrite bucket_app, bucket_one, zlen_app. by destruct (_ =? _). Qed.

Lemma byte_at_bucket_snoc j l k i :
  0 <= i < zlen (bucket j (l ++ [k])) ->
  byte_at (bucket j (l ++ [k])) i
  = if (Z.shiftr k 8 =? j) && (i =? zlen (bucket j l)) then k else byte_at (bucket j l) i.
Proof.
  rewrite zlen_bucket_snoc, bucket_app, bucket_one.
  destruct (_ =? j); cbn; [|by rewrite app_nil_r]. unfold byte_at, zlen in *. intros Hi.
  destruct (Z.eqb_spec i (Z.of_nat (length (bucket j l)))) as [->|].
  - rewrite Nat2Z.id, app_nth2, Nat.sub_diag by lia. done.
  - apply app_nth1. lia.
Qed.

Lemma drop_bucket_snoc j l k (n : nat) :
  drop n (bucket j (l ++ [k]))
  = drop n (bucket j l) ++
    (if (Z.shiftr k 8 =? j) && (Z.of_nat n <=? zlen (bucket j l)) then [k] else []).
Proof.
  rewrite bucket_app, bucket_one. destruct (_ =? j); cbn; [|by rewrite !app_nil_r].
  unfold zlen. destruct (Z.leb_spec (Z.of_nat n) (Z.of_nat (length (bucket j l)))).
  - by rewrite drop_app_le by lia.
  - rewrite !drop_ge; [done|lia|rewrite length_app; cbn; lia].
Qed.

Section Buckets.
Import Compressed.

Record BucketsOk (f : CompressedFormat) (l : list Z) : Prop := {
  bk_est : 0 <= estimated_bucket_size_ f;
  bk_len : zlen (working_space_ f) = bytes_per_bucket_ f * num_buckets_ f;
  bk_size : forall j, 0 <= j < num_buckets_ f ->
    byte_at (working_space_ f) (j * bytes_per_bucket_ f + 0) = zlen (bucket j l);
  bk_keys : forall j i, 0 <= j < num_buckets_ f -> 0 <= i < estimated_bucket_size_ f ->
    i < zlen (bucket j l) ->
    byte_at (working_space_ f) (j * bytes_per_bucket_ f + (1 + i))
    = Z.land (byte_at (bucket j l) i) 255;
  bk_extra : forall j, 0 <= j < num_buckets_ f ->
    bucket j (extra_keys_ f) = drop (Z.to_nat (estimated_bucket_size_ f)) (bucket j l);
  bk_bound : Forall (fun k => 0 <= Z.shiftr k 8 < num_buckets_ f) (extra_keys_ f) }.

Lemma byte_at_zeros n i : byte_at (replicate n 0) i = 0.
Proof. change (replicate n 0) with ([] ++ replicate n 0). rewrite byte_at_app_zeros. unfold byte_at. by destruct (Z.to_nat i). Qed.

Lemma Reset_buckets f n : 0 < num_buckets_ f -> 0 <= n -> BucketsOk (Reset f n) [].
Proof.
  intros Hb Hn. pose proof (Z.div_pos (n + num_buckets_ f - 1) (num_buckets_ f) ltac:(lia) Hb).
  split; cbn [Reset estimated_bucket_size_ working_space_ num_buckets_ extra_keys_]; unfold bytes_per_bucket_;
    cbn [estimated_bucket_size_]; try done.
  - unfold zlen. rewrite length_replicate, Z2Nat.id; cbn; nia.
  - intros. by rewrite byte_at_zeros.
  - intros ? ? ? ? Hi. change (zlen (bucket j [])) with 0 in Hi. lia.
  - intros j _. by destruct (Z.to_nat _).
Qed.

Lemma zlen_store ws pos b : zlen (store ws pos b) = zlen ws.
Proof. unfold zlen, store. by rewrite length_insert. Qed.

(** Byte [a] of bucket [j], in a buffer of [n] buckets of [E] bytes. *)
Lemma byte_at_store ws E n j0 a0 b j a :
  zlen ws = E * n -> 0 <= j0 < n -> 0 <= a0 < E -> 0 <= j < n -> 0 <= a < E ->
  byte_at (store ws (j0 * E + a0) b) (j * E + a)
  = if (j0 =? j) && (a0 =? a) then b else byte_at ws (j * E + a).
Proof.
  intros Hl ? ? ? ?. unfold store. rewrite byte_at_insert by nia.
  destruct (Z.eqb_spec (j0 * E + a0) (j * E + a)) as [Heq|Hne].
  - destruct (Z.div_mod_unique E j0 j a0 a) as [-> ->]; [lia..|]. by rewrite !Z.eqb_refl.
  - destruct (Z.eqb_spec j0 j) as [->|], (Z.eqb_spec a0 a) as [->|]; done.
Qed.

(** [Set_] in terms of slots. *)
Lemma Set_slots f k j n :
  Z.shiftr k 8 = j -> byte_at (working_space_ f) (j * bytes_per_bucket_ f + 0) = n ->
  let ws := store (working_space_ f) (j * bytes_per_bucket_ f + 0) (u8 (n + 1)) in
  Set_ f k =
    if n <? estimated_bucket_size_ f
    then mkCompressed (store ws (j * bytes_per_bucket_ f + (1 + n)) (Z.land k 255)) (extra_keys_ f)
           (estimated_bucket_size_ f) (num_buckets_ f) (num_keys_ f) (key_bits_ f)
    else mkCompressed ws (extra_keys_ f ++ [k]) (estimated_bucket_size_ f) (num_buckets_ f)
           (num_keys_ f) (key_bits_ f).
Proof. intros <- <-. unfold Set_. rewrite Z.add_0_r, <- Z.add_assoc. done. Qed.

Lemma Set_buckets f l k :
  BucketsOk f l -> 0 <= Z.shiftr k 8 < num_buckets_ f -> zlen (bucket (Z.shiftr k 8) l) < 255 ->
  BucketsOk (Set_ f k) (l ++ [k]).
Proof.
  intros [He Hl Hs Hk Hx Hb] Hj Hc. pose proof (zlen_nonneg (bucket (Z.shiftr k 8) l)) as Hn.
  pose proof (Set_slots f k _ _ eq_refl (Hs _ Hj)) as ES. cbv zeta in ES. rewrite ES. clear ES.
  rewrite (u8_small (_ + 1)) by (unfold in_width; lia).
  assert (HE : bytes_per_bucket_ f = estimated_bucket_size_ f + 1) by done.
  destruct (Z.ltb_spec (zlen (bucket (Z.shiftr k 8) l)) (estimated_bucket_size_ f)) as [Hlt|Hge];
    split; cbn; unfold bytes_per_bucket_; cbn [estimated_bucket_size_]; rewrite <- ?HE, ?zlen_store;
    try done.
  - intros j Hj'. erewrite !byte_at_store by (rewrite ?zlen_store; (done || lia)).
    rewrite Hs, zlen_bucket_snoc by done. cmp_cases; subst; cbn; lia.
  - intros j i Hj' Hi Hin. erewrite !byte_at_store by (rewrite ?zlen_store; (done || lia)).
    rewrite byte_at_bucket_snoc by lia. rewrite zlen_bucket_snoc in Hin.
    cmp_cases; subst; cbn; try done; try lia; apply Hk; (done || lia).
  - intros j Hj'. rewrite Hx, drop_bucket_snoc by done. cmp_cases; subst; cbn; try lia; by rewrite app_nil_r.
  - intros j Hj'. erewrite !byte_at_store by (rewrite ?zlen_store; (done || lia)).
    rewrite Hs, zlen_bucket_snoc by done. cmp_cases; subst; cbn; lia.
  - intros j i Hj' Hi Hin. erewrite !byte_at_store by (rewrite ?zlen_store; (done || lia)).
    rewrite byte_at_bucket_snoc by lia. rewrite zlen_bucket_snoc in Hin.
    cmp_cases; subst; cbn; try done; try lia; apply Hk; (done || lia).
  - intros j Hj'. rewrite bucket_app, bucket_one, Hx, drop_bucket_snoc by done.
    cmp_cases; subst; cbn; try lia; done.
  - apply Forall_app. split; [done|]. by apply Forall_singleton.
Qed.

(** *** Sorting by buckets *)

Lemma sort_Permutation l : sort l ≡ₚ l.
Proof. apply merge_sort_Permutation. Qed.

Lemma sort_sorted l : StronglySorted Z.le (sort l).
Proof. apply StronglySorted_merge_sort; [apply _|]. intros ? ?. lia. Qed.

Lemma sort_unique l l' : StronglySorted Z.le l -> l ≡ₚ l' -> l = sort l'.
Proof.
  intros Hs Hp. apply (StronglySorted_unique Z.le); [done|apply sort_sorted|].
  by rewrite sort_Permutation.
Qed.

Lemma sort_perm l l' : l ≡ₚ l' -> sort l = sort l'.
Proof. intros Hp. apply sort_unique; [apply sort_sorted|]. by rewrite sort_Permutation. Qed.

(** The keys of bucket [j] and of the buckets after it. *)
Definition from (j : Z) (l : list Z) : list Z := filter (fun k => j <= Z.shiftr k 8) l.

Lemma shiftr_le a b : a <= b -> Z.shiftr a 8 <= Z.shiftr b 8.
Proof. intros. rewrite !Z.shiftr_div_pow2 by lia. apply Z.div_le_mono; lia. Qed.

Lemma from_split j l : from j l ≡ₚ bucket j l ++ from (j + 1) l.
Proof.
  unfold from, bucket. induction l as [|k l IH]; [done|].
  destruct (Z.lt_trichotomy (Z.shiftr k 8) j) as [|[|]].
  - rewrite !filter_cons_False by lia. done.
  - rewrite filter_cons_True, filter_cons_True, (filter_cons_False _ k) by lia. cbn. by rewrite IH.
  - rewrite filter_cons_True, filter_cons_False, filter_cons_True by lia. rewrite IH. apply Permutation_middle.
Qed.

Lemma StronglySorted_app_le (a b : list Z) :
  StronglySorted Z.le a -> StronglySorted Z.le b -> (forall x y, x ∈ a -> y ∈ b -> x <= y) ->
  StronglySorted Z.le (a ++ b).
Proof.
  induction 1 as [|x a Ha IH Hx]; intros Hb Hab; cbn; [done|]. constructor.
  - apply IH; [done|]. intros. apply Hab; [by right|done].
  - apply Forall_app. split; [done|]. apply Forall_forall. intros y Hy. apply Hab; [by left|done].
Qed.

Lemma sort_from j l : sort (from j l) = sort (bucket j l) ++ sort (from (j + 1) l).
Proof.
  symmetry. apply sort_unique.
  - apply StronglySorted_app_le; [apply sort_sorted..|]. intros x y.
    rewrite !sort_Permutation. unfold bucket, from. rewrite !list_elem_of_filter. intros [? _] [? _].
    destruct (Z.le_gt_cases x y) as [|Hgt]; [done|]. pose proof (shiftr_le y x). lia.
  - rewrite !sort_Permutation. symmetry. apply from_split.
Qed.

Lemma from_all j l : Forall (fun k => j <= Z.shiftr k 8) l -> from j l = l.
Proof. unfold from. induction 1; [done|]. rewrite filter_cons_True by done. by f_equal. Qed.

Lemma from_none j l : Forall (fun k => Z.shiftr k 8 < j) l -> from j l = [].
Proof. unfold from. induction 1; [done|]. by rewrite filter_cons_False by lia. Qed.

(** The sorted buckets together are the sorted keys. *)
Lemma concat_buckets m j l :
  Forall (fun k => Z.shiftr k 8 < j + Z.of_nat m) l ->
  concat ((fun i => sort (bucket i l)) <$> seqZ j (Z.of_nat m)) = sort (from j l).
Proof.
  revert j. induction m as [|m IH]; intros j Hl.
  - rewrite seqZ_nil by lia. rewrite from_none; [done|]. eapply Forall_impl; [exact Hl|]. cbn. lia.
  - rewrite Nat2Z.inj_succ, seqZ_cons by lia. cbn. rewrite sort_from. f_equal.
    rewrite Z.pred_succ, <- IH; [done|]. eapply Forall_impl; [exact Hl|]. cbn. lia.
Qed.

(** *** What the iterator yields *)

Lemma split_key k j : Z.shiftr k 8 = j -> Z.land k 255 + Z.shiftl j 8 = k.
Proof.
  intros <-. change 255 with (Z.ones 8). rewrite Z.land_ones, Z.shiftl_mul_pow2, Z.shiftr_div_pow2 by lia.
  pose proof (Z.div_mod k (2 ^ 8) ltac:(lia)). lia.
Qed.

Lemma bucket_key j l i : 0 <= i < zlen (bucket j l) -> Z.shiftr (byte_at (bucket j l) i) 8 = j.
Proof.
  intros Hi. unfold byte_at, zlen in *.
  destruct (lookup_lt_is_Some_2 (bucket j l) (Z.to_nat i)) as [k Hk]; [lia|].
  rewrite (nth_lookup_Some _ _ _ _ Hk). apply list_elem_of_lookup_2 in Hk.
  by apply list_elem_of_filter in Hk as [? _].
Qed.

(** From key [a] of the bucket on: the keys kept in the buffer, then as many
    extra keys as are missing. *)
Lemma Fetch_loop_spec f l j xs rest m a :
  BucketsOk f l -> 0 <= j < num_buckets_ f ->
  (a + m = length (bucket j l))%nat ->
  length xs = length (drop (Nat.max a (Z.to_nat (estimated_bucket_size_ f))) (bucket j l)) ->
  Fetch_loop f j (seqZ (Z.of_nat a) (Z.of_nat m)) (xs ++ rest)
  = Some (take (Z.to_nat (estimated_bucket_size_ f) - a) (drop a (bucket j l)) ++ xs, rest).
Proof.
  intros Hok Hj. pose proof (bk_est f l Hok) as He. set (e := Z.to_nat (estimated_bucket_size_ f)).
  revert a xs. induction m as [|m IH]; intros a xs Ha Hx.
  { rewrite seqZ_nil by lia. cbn. rewrite (drop_ge (bucket j l) a) by lia. rewrite take_nil.
    rewrite length_drop in Hx. destruct xs; [done|]. cbn in Hx. lia. }
  rewrite Nat2Z.inj_succ, seqZ_cons by lia. cbn [Fetch_loop]. rewrite Z.pred_succ.
  replace (Z.succ (Z.of_nat a)) with (Z.of_nat (S a)) by lia.
  destruct (lookup_lt_is_Some_2 (bucket j l) a) as [k Hk]; [lia|].
  rewrite (drop_S _ k a) by done.
  destruct (Z.ltb_spec (Z.of_nat a) (estimated_bucket_size_ f)).
  - rewrite IH; [|lia|rewrite Hx; do 2 f_equal; lia].
    replace (e - a)%nat with (S (e - S a)) by lia. cbn. do 3 f_equal.
    rewrite (Z.mul_comm (bytes_per_bucket_ f)), <- Z.add_assoc.
    rewrite (bk_keys f l Hok j (Z.of_nat a)) by (unfold zlen; lia).
    rewrite split_key by (apply bucket_key; unfold zlen; lia).
    unfold byte_at. rewrite Nat2Z.id. by apply nth_lookup_Some.
  - rewrite length_drop in Hx. destruct xs as [|x xs]; cbn in Hx; [lia|]. cbn.
    rewrite IH; [|lia|rewrite length_drop; lia]. replace (e - S a)%nat with 0%nat by lia. by replace (e - a)%nat with 0%nat by lia.
Qed.

Lemma Iter_spec f l m j :
  BucketsOk f l -> 0 <= j -> j + Z.of_nat m = num_buckets_ f ->
  Iter f (seqZ j (Z.of_nat m)) (sort (from j (extra_keys_ f)))
  = Some ((fun i => sort (bucket i l)) <$> seqZ j (Z.of_nat m)).
Proof.
  intros Hok. revert j. induction m as [|m IH]; intros j Hj Hm; [by rewrite !seqZ_nil by lia|].
  rewrite Nat2Z.inj_succ, seqZ_cons by lia. cbn [Iter]. rewrite Z.pred_succ, sort_from. unfold Fetch.
  rewrite (Z.mul_comm (bytes_per_bucket_ f)), <- (Z.add_0_r (j * _)), (bk_size f l Hok) by lia.
  pose proof (bk_extra f l Hok j ltac:(lia)) as Hx.
  assert (Hp : sort (bucket j (extra_keys_ f)) ≡ₚ drop (Z.to_nat (estimated_bucket_size_ f)) (bucket j l))
    by (by rewrite sort_Permutation, Hx).
  pose proof (Fetch_loop_spec f l j (sort (bucket j (extra_keys_ f))) (sort (from (j + 1) (extra_keys_ f)))
    (length (bucket j l)) 0 Hok ltac:(lia) eq_refl (Permutation_length Hp)) as EF.
  change (Z.of_nat 0) with 0 in EF. fold (zlen (bucket j l)) in EF. rewrite EF, Nat.sub_0_r, drop_0. clear EF.
  replace (Z.succ j) with (j + 1) by lia. rewrite IH by lia. cbn. do 2 f_equal.
  apply sort_perm. by rewrite Hp, take_drop.
Qed.

(** The buckets yield the keys in order. *)
Lemma buckets_sorted f l :
  BucketsOk f l -> 0 <= num_buckets_ f -> Forall (fun k => 0 <= Z.shiftr k 8 < num_buckets_ f) l ->
  exists bs, buckets f = Some bs /\ bs = (fun i => sort (bucket i l)) <$> seqZ 0 (num_buckets_ f) /\
    concat bs = sort l.
Proof.
  intros Hok Hn Hl. eexists. split_and!; [|done|].
  - unfold buckets. rewrite <- (from_all 0 (extra_keys_ f)).
    + rewrite <- (Z2Nat.id (num_buckets_ f)) by done. apply Iter_spec; [done|lia|lia].
    + eapply Forall_impl; [apply (bk_bound f l Hok)|]. cbn. lia.
  - rewrite <- (Z2Nat.id (num_buckets_ f)) by done. rewrite concat_buckets, from_all; [done|..];
      (eapply Forall_impl; [exact Hl|]); cbn; lia.
Qed.

Lemma fold_left_concat {A B} (step : A -> B -> A) bs a :
  fold_left (fun a l => fold_left step l a) bs a = fold_left step (concat bs) a.
Proof. revert a. induction bs as [|b bs IH]; intros a; cbn; [done|]. by rewrite fold_left_app. Qed.

Lemma for_keys_sorted {A} f l (step : A -> Z -> A) init :
  BucketsOk f l -> 0 <= num_buckets_ f -> Forall (fun k => 0 <= Z.shiftr k 8 < num_buckets_ f) l ->
  for_keys f step init = Some (fold_left step (sort l) init).
Proof.
  intros Hok Hn Hl. destruct (buckets_sorted f l Hok Hn Hl) as (bs & E & _ & Hc). unfold for_keys.
  by rewrite E, fold_left_concat, Hc.
Qed.

End Buckets.

(** ** Encoded differences *)

Fixpoint deltas (last : Z) (keys : list Z) : list Z :=
  match keys with
  | [] => []
  | k :: keys => (k - last) :: deltas k keys
  end.

(** Sorted 32-bit keys from [last] on. *)
Definition ascending (last : Z) (keys : list Z) : Prop :=
  StronglySorted Z.le keys /\ Forall (fun k => last <= k < 2 ^ 32) keys.

Lemma ascending_cons last k keys :
  0 <= last -> ascending last (k :: keys) ->
  u32 (k - last) = k - last /\ u32 (last + (k - last)) = k /\ is_u32 (k - last) /\ 0 <= k /\
  ascending k keys.
Proof.
  intros Hl [[Hs Hk]%StronglySorted_inv [Hr Hf]%Forall_cons]. unfold in_width.
  rewrite !u32_small by (unfold in_width; lia). split_and!; try lia. split; [done|].
  apply Forall_forall. intros x Hx. rewrite Forall_forall in Hk, Hf. specialize (Hk x Hx).
  specialize (Hf x Hx). lia.
Qed.

Lemma ascending_below last k keys bit : ascending last (k :: keys) -> bit < k -> bit ∉ k :: keys.
Proof.
  intros [[Hs Hk]%StronglySorted_inv _] Hb [->|Hin]%elem_of_cons; [lia|].
  rewrite Forall_forall in Hk. specialize (Hk _ Hin). lia.
Qed.

Lemma sort_ascending l : Forall is_u32 l -> ascending 0 (sort l).
Proof.
  intros Hl. split; [apply sort_sorted|]. apply Forall_forall. intros x.
  rewrite sort_Permutation. rewrite Forall_forall in Hl. apply Hl.
Qed.

(** What [VbEnc] and [VbPlusEnc] have in common. *)
Class DeltaCodec (enc : Z -> bytes) (dec : bytes -> Z * bytes) := {
  dc_round : forall d rest, is_u32 d -> dec (enc d ++ rest) = (d, rest);
  dc_size : forall d, 1 <= zlen (enc d) <= 6 }.

Section Vb.
Import Vb.

Lemma VbEnc_varint fuel v : 0 <= v -> VbEnc_loop fuel v = EncodeVarint64_loop fuel v.
Proof.
  revert v. induction fuel as [|fuel IH]; intros v Hv; cbn; [done|]. unfold B.
  destruct (Z.ltb_spec 127 v), (Z.leb_spec 128 v); try lia.
  - rewrite IH by (by apply Z.shiftr_nonneg). done.
  - f_equal. change 127 with (Z.ones 7). rewrite Z.land_ones, Z.mod_small, u8_small by (unfold in_width; lia). done.
Qed.

Lemma land_128 b : is_u8 b -> (Z.land b 128 =? 0) = negb (Z.testbit b 7).
Proof.
  intros Hb. change 128 with (2 ^ 7).
  destruct (Z.testbit b 7) eqn:E.
  - destruct (Z.eqb_spec (Z.land b (2 ^ 7)) 0) as [E0|]; [|done].
    assert (Z.testbit (Z.land b (2 ^ 7)) 7 = true) as Ht by (by rewrite Z.land_spec, E, Z.pow2_bits_true).
    rewrite E0 in Ht. discriminate Ht.
  - apply Z.eqb_eq, Z.bits_inj'. intros i Hi. rewrite Z.land_spec, Z.pow2_bits_eqb, Z.bits_0 by lia.
    destruct (Z.eqb_spec 7 i) as [<-|]; [by rewrite E|apply andb_false_r].
Qed.

Lemma VbDec_varint n i r x v rest :
  bytes_ok x -> GetVarint_loop 32 n (7 * i) r (x ++ rest) = Some (v, rest) ->
  VbDec_loop i r (x ++ rest) = (v, rest).
Proof.
  revert i r x. induction n as [|n IH]; intros i r x Hok Hg; [done|]. destruct x as [|b x].
  { apply GetVarint_loop_suffix in Hg as (pre & E & Hne). destruct pre; [done|].
    apply (f_equal length) in E. rewrite !length_app in E. cbn in E. lia. }
  apply Forall_cons in Hok as [Hb Hok]. cbn [app GetVarint_loop VbDec_loop] in *. rewrite land_128 by done.
  destruct (Z.testbit b 7) eqn:E; cbn [negb].
  - apply IH; [done|]. by replace (7 * (i + 1)) with (7 * i + 7) by lia.
  - rewrite testbit7_small in E by done. apply Z.leb_gt in E.
    assert (Z.land b 127 = b) as ->; [|unfold u32; congruence].
    change 127 with (Z.ones 7). rewrite Z.land_ones by lia. apply Z.mod_small. destruct Hb. lia.
Qed.

Lemma VbDec_round d rest : is_u32 d -> VbDec (VbEnc d ++ rest) = (d, rest).
Proof.
  intros Hd. unfold VbDec, VbEnc. rewrite VbEnc_varint by apply Hd.
  apply (VbDec_varint 5); [apply EncodeVarint64_loop_ok|].
  rewrite (GetVarint_encode 32 5); [|lia|done|destruct Hd; lia..].
  by rewrite Z.shiftl_0_r, Z.lor_0_l.
Qed.

Lemma VbEnc_size d : 1 <= zlen (VbEnc d) <= 5.
Proof.
  unfold VbEnc. assert (H : forall n v, (length (VbEnc_loop n v) <= n)%nat).
  { induction n as [|n IH]; intros v; cbn; [lia|]. destruct (127 <? v); cbn; [specialize (IH (Z.shiftr v 7))|]; lia. }
  specialize (H 5%nat d). unfold zlen. split; [|lia]. cbn. destruct (127 <? d); cbn; lia.
Qed.

#[export] Instance VbCodec : DeltaCodec VbEnc VbDec.
Proof. split; [apply VbDec_round|]. intros d. pose proof (VbEnc_size d). lia. Qed.

#[export] Instance VbPlusCodec : DeltaCodec VbPlusEnc VbPlusDec.
Proof.
  split.
  - intros d rest Hd. pose proof Hd as [? ?]. unfold VbPlusEnc. destruct (Z.ltb_spec d 255); cbn [app VbPlusDec].
    + destruct (Z.eqb_spec d 255); [lia|done].
    + rewrite Z.eqb_refl.
      rewrite u32_small by (unfold in_width; lia). rewrite VbDec_round by (unfold in_width; lia).
      by rewrite Z.sub_add, u32_small.
  - intros d. unfold VbPlusEnc. destruct (d <? 255); [done|]. rewrite zlen_cons.
    pose proof (VbEnc_size (u32 (d - 254))). lia.
Qed.

(** *** Writing and searching sequences of differences *)

Context (enc : Z -> bytes) (dec : bytes -> Z * bytes) `{!DeltaCodec enc dec}.

Definition stream (ds : list Z) : bytes := concat (enc <$> ds).

Lemma put_dta_spec keys last sp :
  0 <= last -> ascending last keys ->
  (fold_left (put_dta enc) keys (sp, last)).1 = sp ++ stream (deltas last keys).
Proof.
  revert last sp. induction keys as [|k keys IH]; intros last sp Hl Ha; cbn; [by rewrite app_nil_r|].
  apply ascending_cons in Ha as (E & _ & _ & Hk & Ha); [|done]. rewrite E, IH by done.
  unfold stream. cbn. by rewrite app_assoc.
Qed.

Lemma stream_cons d ds : exists b bs, stream (d :: ds) = b :: bs.
Proof.
  unfold stream. cbn. destruct (enc d) as [|b x] eqn:E; [|by do 2 eexists].
  pose proof (dc_size (dec := dec) d) as Hs. rewrite E in Hs. unfold zlen in Hs. cbn in Hs. lia.
Qed.

(** The loop decides membership in the keys that were encoded. *)
Lemma Test_loop_spec keys last bit fuel :
  0 <= last -> ascending last keys -> (length keys <= fuel)%nat ->
  Test_loop dec fuel bit last (stream (deltas last keys)) = bool_decide (bit ∈ keys).
Proof.
  revert last fuel. induction keys as [|k keys IH]; intros last fuel Hl Ha Hf.
  { destruct fuel; symmetry; apply bool_decide_eq_false_2, not_elem_of_nil. }
  pose proof (ascending_below last k keys bit Ha) as Hb.
  apply ascending_cons in Ha as (_ & E & Hu & Hk & Ha); [|done]. destruct fuel as [|fuel]; cbn in Hf; [lia|].
  cbn [deltas]. destruct (stream_cons (k - last) (deltas k keys)) as (b & bs & Es).
  cbn [Test_loop]. rewrite Es, <- Es. unfold stream. cbn [fmap list_fmap concat].
  rewrite dc_round, E by done.
  destruct (Z.eqb_spec k bit) as [<-|Hne].
  { symmetry. apply bool_decide_eq_true_2. by left. }
  destruct (Z.ltb_spec bit k); [symmetry; apply bool_decide_eq_false_2; by apply Hb|].
  fold (stream (deltas k keys)). rewrite IH by (done || lia). apply bool_decide_ext. rewrite elem_of_cons. naive_solver.
Qed.

Lemma length_stream ds : (length ds <= length (stream ds))%nat /\ zlen (stream ds) <= 6 * zlen ds.
Proof.
  unfold stream. induction ds as [|d ds [IH1 IH2]]; cbn; [done|].
  pose proof (dc_size (dec := dec) d). rewrite length_app, zlen_app, zlen_cons. unfold zlen in *. lia.
Qed.

Lemma length_deltas last keys : length (deltas last keys) = length keys.
Proof. revert last. induction keys as [|k keys IH]; intros last; cbn; [done|]. by rewrite IH. Qed.

Lemma Test_stream keys bit :
  ascending 0 keys -> Test dec bit (stream (deltas 0 keys)) = bool_decide (bit ∈ keys).
Proof.
  intros Ha. unfold Test. apply Test_loop_spec; [done|done|].
  pose proof (length_stream (deltas 0 keys)). rewrite length_deltas in *. lia.
Qed.

End Vb.

(** ** Lookup tables *)

Definition last_key (l : Z) (keys : list Z) : Z := default l (last keys).

Lemma deltas_app l a b : deltas l (a ++ b) = deltas l a ++ deltas (last_key l a) b.
Proof.
  revert l. induction a as [|x a IH]; intros l; [done|]. cbn. rewrite IH. do 3 f_equal.
  unfold last_key. rewrite last_cons. by destruct (last a).
Qed.

Lemma take_deltas l keys i : take i (deltas l keys) = deltas l (take i keys).
Proof. revert l i. induction keys as [|k keys IH]; intros l [|i]; cbn; [done..|]. by rewrite IH. Qed.

Lemma last_key_snoc l keys k : last_key l (keys ++ [k]) = k.
Proof. unfold last_key. by rewrite last_snoc. Qed.

Lemma last_key_bounds base keys p :
  0 <= base < 2 ^ 32 -> ascending base keys ->
  base <= last_key base (take p keys) < 2 ^ 32 /\
  ascending (last_key base (take p keys)) (drop p keys) /\
  forall x, x ∈ take p keys -> x <= last_key base (take p keys).
Proof.
  intros Hb [Hs Hf]. rewrite <- (take_drop p keys) in Hs, Hf.
  apply StronglySorted_app in Hs as (Hab & Ha & Hd). apply Forall_app in Hf as [Hfa Hfb].
  unfold last_key. destruct (last (take p keys)) as [z|] eqn:E; cbn.
  - apply last_Some in E as [l' E]. rewrite E in Ha, Hfa, Hab |- *.
    apply Forall_app in Hfa as [_ [Hz _]%Forall_cons]. apply StronglySorted_app in Ha as (Ha & _ & _).
    split; [lia|]. split; [split; [done|]|].
    + apply Forall_forall. intros x Hx. rewrite Forall_forall in Hfb. specialize (Hfb x Hx).
      specialize (Hab z x ltac:(set_solver) Hx). lia.
    + intros x [Hx| ->%list_elem_of_singleton]%elem_of_app; [|lia]. apply Ha; [done|by left].
  - apply last_None in E. rewrite E. split; [lia|]. split; [done|]. by intros ? ?%elem_of_nil.
Qed.

Section Table.
Import Table.

(** The table as pairs of a prefix and an offset. *)
Definition entry_bytes (e : Z * Z) : bytes := EncodeFixed32 e.1 ++ EncodeFixed32 e.2.
Definition table_bytes (t : list (Z * Z)) : bytes := concat (entry_bytes <$> t).

Lemma length_fixed32 v : length (EncodeFixed32 v) = 4%nat.
Proof. apply Fixed.length_encode. Qed.

Lemma length_table t : length (table_bytes t) = (8 * length t)%nat.
Proof. unfold table_bytes. induction t as [|e t IH]; cbn; [done|]. rewrite IH. lia. Qed.

Lemma put32_mid x m y pos v :
  pos = zlen x -> length m = 4%nat -> put32 (x ++ m ++ y) pos v = x ++ EncodeFixed32 v ++ y.
Proof.
  intros -> Hm. unfold put32, zlen. rewrite Nat2Z.id, take_app_length. do 2 f_equal.
  rewrite <- Hm, app_assoc, <- length_app. apply drop_app_length.
Qed.

Lemma get32_mid x y pos v : pos = zlen x -> is_u32 v -> get32 (x ++ EncodeFixed32 v ++ y) pos = v.
Proof.
  intros -> Hv. unfold get32, zlen. rewrite Nat2Z.id, drop_app_length. by apply DecodeFixed32_encode.
Qed.

Lemma table_split t p e :
  t !! p = Some e ->
  exists x y, table_bytes t = x ++ entry_bytes e ++ y /\ zlen x = Z.of_nat p * 8 /\
    forall e', table_bytes (<[p := e']> t) = x ++ entry_bytes e' ++ y.
Proof.
  intros Hp. exists (table_bytes (take p t)), (table_bytes (drop (S p) t)).
  pose proof (lookup_lt_Some _ _ _ Hp). unfold table_bytes. split_and!.
  - rewrite <- (take_drop_middle t p e Hp) at 1. by rewrite fmap_app, concat_app.
  - fold (table_bytes (take p t)). unfold zlen. rewrite length_table, length_take. lia.
  - intros e'. rewrite insert_take_drop by done. by rewrite fmap_app, concat_app.
Qed.

Lemma put_prefix t p a b data v :
  t !! p = Some (a, b) ->
  put32 (table_bytes t ++ data) (Z.of_nat p * 8) v = table_bytes (<[p := (v, b)]> t) ++ data.
Proof.
  intros (x & y & -> & Hx & Hi)%table_split. rewrite Hi. unfold entry_bytes. cbn [fst snd].
  rewrite <- !app_assoc. by apply put32_mid.
Qed.

Lemma put_offset t p a b data v :
  t !! p = Some (a, b) ->
  put32 (table_bytes t ++ data) (Z.of_nat p * 8 + 4) v = table_bytes (<[p := (a, v)]> t) ++ data.
Proof.
  intros (x & y & -> & Hx & Hi)%table_split. rewrite Hi. unfold entry_bytes. cbn [fst snd].
  rewrite <- !app_assoc, !(app_assoc x). apply put32_mid; [|done].
  rewrite zlen_app, Hx. unfold zlen. rewrite length_fixed32. lia.
Qed.

Lemma get_prefix t p a b data :
  t !! p = Some (a, b) -> is_u32 a -> get32 (table_bytes t ++ data) (Z.of_nat p * 8) = a.
Proof.
  intros (x & y & -> & Hx & _)%table_split Ha. unfold entry_bytes. cbn [fst snd].
  rewrite <- !app_assoc. by apply get32_mid.
Qed.

Lemma get_offset t p a b data :
  t !! p = Some (a, b) -> is_u32 b -> get32 (table_bytes t ++ data) (Z.of_nat p * 8 + 4) = b.
Proof.
  intros (x & y & -> & Hx & _)%table_split Hb. unfold entry_bytes. cbn [fst snd].
  rewrite <- !app_assoc, !(app_assoc x). apply get32_mid; [|done].
  rewrite zlen_app, Hx. unfold zlen. rewrite length_fixed32. lia.
Qed.

(** *** Building a table

    [D ds] is the data after the differences [ds], [P] the number of partitions. *)

(** The keys of a partition. *)
Definition part : nat := Z.to_nat partition_size_.

Lemma part_eq : Z.of_nat part = 1024.
Proof. done. Qed.

#[global] Opaque part.

Section Build.
Context (D : list Z -> bytes) (P : nat).

Record Building (t : LookupTableBuilder) (tbl : list (Z * Z)) (keys : list Z) : Prop := {
  bd_len : length tbl = P;
  bd_prefix : partition_dta_prefix_ t = last_key 0 keys;
  bd_index : 0 <= partition_index_ t;
  bd_num : partition_num_keys_ t = zlen keys - 1024 * partition_index_ t;
  bd_range : (keys = [] /\ partition_index_ t = 0) \/
    0 < partition_num_keys_ t <= 1024;
  bd_offset : forall p e, tbl !! p = Some e -> Z.of_nat p <= partition_index_ t ->
    e.2 = 8 * Z.of_nat P + zlen (D (deltas 0 (take (part * p) keys)));
  bd_done : forall p e, tbl !! p = Some e -> Z.of_nat p < partition_index_ t ->
    e.1 = last_key 0 (take (part * S p) keys);
  bd_rest : forall p e, tbl !! p = Some e -> partition_index_ t <= Z.of_nat p -> e.1 = 0 }.

(** The table has room for all the keys, and sizes fit 32 bits. *)
Definition room (keys : list Z) : Prop :=
  zlen keys <= 1024 * Z.of_nat P /\ 8 * Z.of_nat P + zlen (D (deltas 0 keys)) < 2 ^ 32.

Lemma zlen_table tbl data : zlen (table_bytes tbl ++ data) = 8 * zlen tbl + zlen data.
Proof. rewrite zlen_app. unfold zlen at 1. rewrite length_table. unfold zlen. lia. Qed.

Lemma take_snoc_le (n : nat) (keys : list Z) k :
  (n <= length keys)%nat -> take n (keys ++ [k]) = take n keys.
Proof. intros. by rewrite take_app_le. Qed.

(** The next key goes to the same partition. *)
Lemma Building_same t tbl keys k :
  Building t tbl keys -> partition_num_keys_ t <> 1024 ->
  Building (mkBuilder k (partition_num_keys_ t + 1) (partition_index_ t)) tbl (keys ++ [k]).
Proof.
  intros [Hl Hp Hi Hn Hr Ho Hd He] Hne.
  pose proof (zlen_nonneg keys).
  pose proof part_eq.
  assert (Hle : 1024 * partition_index_ t <= zlen keys) by (destruct Hr as [[_ E]|]; lia).
  split; cbn [partition_index_ partition_num_keys_ partition_dta_prefix_]; try done.
  - by rewrite last_key_snoc.
  - rewrite zlen_app, Hn. change (zlen [k]) with 1. lia.
  - right. destruct Hr as [[-> E]|]; [|lia]. rewrite Hn, E. change (zlen []) with 0. lia.
  - intros p e Hpe Hp'. rewrite take_snoc_le by (unfold zlen in *; nia). by apply Ho.
  - intros p e Hpe Hp'. rewrite take_snoc_le by (unfold zlen in *; nia). by apply Hd.
Qed.

(** A full partition is closed and the next one opened. *)
Lemma Building_next t tbl keys :
  Building t tbl keys -> partition_num_keys_ t = 1024 -> zlen keys < 1024 * Z.of_nat P ->
  exists a b c i, partition_index_ t = Z.of_nat i /\ tbl !! i = Some (a, b) /\
    tbl !! S i = Some (0, c) /\ zlen keys = 1024 * Z.of_nat (S i).
Proof.
  intros [Hl Hp Hi Hn Hr Ho Hd He] E Hk. set (i := Z.to_nat (partition_index_ t)).
  assert (Ei : partition_index_ t = Z.of_nat i) by lia.
  destruct (lookup_lt_is_Some_2 tbl i) as [[a b] H1]; [lia|].
  destruct (lookup_lt_is_Some_2 tbl (S i)) as [[z c] H2]; [lia|].
  exists a, b, c, i. pose proof (He _ _ H2 ltac:(lia)) as Hz. cbn in Hz. subst z. split_and!; (done || lia).
Qed.

Lemma Building_close t tbl keys k a b c i :
  Building t tbl keys -> partition_num_keys_ t = 1024 -> partition_index_ t = Z.of_nat i ->
  tbl !! i = Some (a, b) -> tbl !! S i = Some (0, c) -> zlen keys = 1024 * Z.of_nat (S i) ->
  Building (mkBuilder k 1 (Z.of_nat (S i)))
    (<[S i := (0, 8 * Z.of_nat P + zlen (D (deltas 0 keys)))]>
      (<[i := (partition_dta_prefix_ t, b)]> tbl)) (keys ++ [k]).
Proof.
  intros [Hl Hp Hi Hn Hr Ho Hd He] E Ei H1 H2 Hz. pose proof part_eq.
  assert (Hk : length keys = (part * S i)%nat) by (unfold zlen in Hz; nia).
  split; cbn [partition_index_ partition_num_keys_ partition_dta_prefix_].
  - by rewrite !length_insert.
  - by rewrite last_key_snoc.
  - lia.
  - rewrite zlen_app. change (zlen [k]) with 1. lia.
  - right. lia.
  - intros p e Hpe Hp'. rewrite take_snoc_le by nia.
    apply list_lookup_insert_Some in Hpe as [(<- & <- & _)|[Hne Hpe]]; [by rewrite <- Hk, firstn_all|].
    apply list_lookup_insert_Some in Hpe as [(<- & <- & _)|[_ Hpe]]; [apply (Ho _ _ H1)|apply (Ho _ _ Hpe)]; lia.
  - intros p e Hpe Hp'. rewrite take_snoc_le by nia.
    apply list_lookup_insert_Some in Hpe as [(<- & <- & _)|[Hne Hpe]]; [lia|].
    apply list_lookup_insert_Some in Hpe as [(<- & <- & _)|[Hne' Hpe]]; [by rewrite <- Hk, firstn_all|].
    apply (Hd _ _ Hpe). lia.
  - intros p e Hpe Hp'. apply list_lookup_insert_Some in Hpe as [(<- & <- & _)|[Hne Hpe]]; [done|].
    apply list_lookup_insert_Some in Hpe as [(<- & _)|[Hne' Hpe]]; [lia|]. apply (He _ _ Hpe). lia.
Qed.

Lemma Add_spec t tbl keys k :
  Building t tbl keys -> ascending 0 (keys ++ [k]) -> room (keys ++ [k]) ->
  8 * Z.of_nat P + zlen (D (deltas 0 keys)) < 2 ^ 32 ->
  exists t' tbl', Add t (k - last_key 0 keys) (table_bytes tbl ++ D (deltas 0 keys))
    = (t', table_bytes tbl' ++ D (deltas 0 keys)) /\ Building t' tbl' (keys ++ [k]).
Proof.
  intros HB Ha [Hr _] Hs. pose proof (bd_prefix _ _ _ HB) as Hp. unfold Add, partition_size_.
  assert (Hk : is_u32 k) by (destruct Ha as [_ Ha]; by apply Forall_app in Ha as [_ [? _]%Forall_cons]).
  assert (Hsum : forall x, x = last_key 0 keys -> u32 (x + (k - last_key 0 keys)) = k).
  { intros x ->. rewrite Zplus_minus. by apply u32_small. }
  destruct (Z.eqb_spec (partition_num_keys_ t) 1024) as [E|E]; cbn [partition_dta_prefix_ partition_num_keys_ partition_index_].
  - rewrite zlen_app in Hr. change (zlen [k]) with 1 in Hr.
    destruct (Building_next t tbl keys HB E ltac:(lia)) as (a & b & c & i & Ei & H1 & H2 & Hz).
    rewrite Ei. rewrite (put_prefix tbl i a b) by done.
    replace (Z.of_nat i + 1) with (Z.of_nat (S i)) by lia.
    rewrite (put_offset _ (S i) 0 c) by (rewrite list_lookup_insert_ne by lia; done).
    rewrite zlen_table. unfold zlen at 1. rewrite length_insert, (bd_len _ _ _ HB).
    rewrite (u32_small (8 * _ + _)) by (unfold in_width; pose proof (zlen_nonneg (D (deltas 0 keys))); lia).
    rewrite Hsum by done. do 2 eexists. split; [done|]. by eapply Building_close.
  - rewrite Hsum by done. do 2 eexists. split; [done|]. by apply Building_same.
Qed.

(** The finished table. *)
Record TableOk (tbl : list (Z * Z)) (keys : list Z) : Prop := {
  tb_len : length tbl = P;
  tb_offset : forall p e, tbl !! p = Some e -> p = 0%nat \/ (part * p < length keys)%nat ->
    e.2 = 8 * Z.of_nat P + zlen (D (deltas 0 (take (part * p) keys)));
  tb_prefix : forall p e, tbl !! p = Some e -> (part * p < length keys)%nat ->
    e.1 = last_key 0 (take (part * S p) keys);
  tb_rest : forall p e, tbl !! p = Some e -> (length keys <= part * p)%nat -> e.1 = 0 }.

Lemma Finish_spec t tbl keys data :
  Building t tbl keys -> zlen keys <= 1024 * Z.of_nat P ->
  exists tbl', Finish t (table_bytes tbl ++ data) = table_bytes tbl' ++ data /\ TableOk tbl' keys.
Proof.
  intros [Hl Hp Hi Hn Hr Ho Hd He] Hroom. pose proof part_eq. unfold Finish.
  destruct (Z.eqb_spec (partition_num_keys_ t) 0) as [E|E]; cbn [negb].
  - exists tbl. split; [done|]. destruct Hr as [[-> Ei]|]; [|lia].
    split; cbn [length]; [done| |lia|].
    + intros p e Hpe [->|]; [|lia]. apply (Ho _ _ Hpe). lia.
    + intros p e Hpe _. apply (He _ _ Hpe). lia.
  - set (i := Z.to_nat (partition_index_ t)). assert (Ei : partition_index_ t = Z.of_nat i) by lia.
    destruct Hr as [[-> E0]|Hr]; [rewrite Hn in E; change (zlen []) with 0 in E; lia|].
    assert (Hk : Z.of_nat (length keys) = partition_num_keys_ t + 1024 * Z.of_nat i) by (unfold zlen in Hn; lia).
    destruct (lookup_lt_is_Some_2 tbl i) as [[a b] H1]; [unfold zlen in *; lia|].
    rewrite Ei, (put_prefix tbl i a b) by done. eexists. split; [done|].
    split; [by rewrite length_insert|..]; intros p e Hpe Hpk;
      apply list_lookup_insert_Some in Hpe as [(<- & <- & _)|[Hne Hpe]]; cbn [fst snd].
    + apply (Ho _ _ H1). lia.
    + apply (Ho _ _ Hpe). nia.
    + by rewrite (take_ge keys) by nia.
    + apply (Hd _ _ Hpe). nia.
    + nia.
    + apply (He _ _ Hpe). nia.
Qed.

End Build.
(** *** Searching with a table

    [T bit base input] is the search from a base on, [D' ds] the complete data
    for the differences [ds], which continues [D] at partition boundaries. *)

Section Search.
Context {R : Type} (ret : bool -> R) (T : Z -> Z -> bytes -> R) (D D' : list Z -> bytes) (P : nat)
  (good : list Z -> Prop).
Hypothesis D'_split : forall p a b, length a = (part * p)%nat -> D' (a ++ b) = D a ++ D' b.
Hypothesis good_split : forall p a b, length a = (part * p)%nat -> good (a ++ b) -> good b.
Hypothesis T_spec : forall keys base bit,
  0 <= base -> ascending base keys -> good (deltas base keys) ->
  T bit base (D' (deltas base keys)) = ret (bool_decide (bit ∈ keys)).

Definition search (bitmap : bytes) (bit : Z) (parts : list Z) (base : Z) : R :=
  match Lookup_loop bitmap bit parts base with
  | Some (input, base) => T bit base input
  | None => ret false
  end.

Context (tbl : list (Z * Z)) (keys : list Z).
Hypothesis Htbl : TableOk D P tbl keys.
Hypothesis Hasc : ascending 0 keys.
Hypothesis Hgood : good (deltas 0 keys).
Hypothesis Hsize : 8 * Z.of_nat P + zlen (D' (deltas 0 keys)) < 2 ^ 32.

Let bitmap : bytes := table_bytes tbl ++ D' (deltas 0 keys).

(** The search in partition [p]. *)
Lemma search_partition p a b bit :
  tbl !! p = Some (a, b) -> p = 0%nat \/ (part * p < length keys)%nat ->
  (forall x, x ∈ take (part * p) keys -> x < bit) ->
  T bit (last_key 0 (take (part * p) keys))
    (drop (Z.to_nat (get32 bitmap (Z.of_nat p * 8 + 4))) bitmap)
  = ret (bool_decide (bit ∈ keys)).
Proof.
  intros Hp Hu Hb. pose proof (tb_offset _ _ _ _ Htbl p _ Hp Hu) as Ho. cbn in Ho.
  destruct (last_key_bounds 0 keys (part * p) ltac:(lia) Hasc) as (Hl & Ha & _).
  assert (Hlen : length (deltas 0 (take (part * p) keys)) = (part * p)%nat).
  { rewrite length_deltas, length_take. destruct Hu as [->|]; lia. }
  assert (ED : deltas 0 keys
    = deltas 0 (take (part * p) keys) ++ deltas (last_key 0 (take (part * p) keys)) (drop (part * p) keys)).
  { by rewrite <- deltas_app, take_drop. }
  assert (Hbm : bitmap = (table_bytes tbl ++ D (deltas 0 (take (part * p) keys))) ++
    D' (deltas (last_key 0 (take (part * p) keys)) (drop (part * p) keys))).
  { unfold bitmap. rewrite ED at 1. by rewrite (D'_split p), app_assoc. }
  assert (Hb32 : is_u32 b).
  { rewrite ED, (D'_split p), zlen_app in Hsize by done. unfold in_width.
    pose proof (zlen_nonneg (D (deltas 0 (take (part * p) keys)))).
    pose proof (zlen_nonneg (D' (deltas (last_key 0 (take (part * p) keys)) (drop (part * p) keys)))). lia. }
  unfold bitmap at 1. rewrite (get_offset tbl p a b) by done. rewrite Hbm, Ho.
  rewrite drop_app_length'.
  - rewrite T_spec; [|lia|done|].
    + f_equal. apply bool_decide_ext. rewrite <- (take_drop (part * p) keys) at 2. rewrite elem_of_app.
      split; [by right|]. intros [Hx|]; [|done]. specialize (Hb _ Hx). lia.
    + rewrite ED in Hgood. by apply (good_split p) in Hgood.
  - rewrite length_app, length_table, (tb_len _ _ _ _ Htbl). unfold zlen. lia.
Qed.

Lemma search_spec m p bit base :
  (p + m = P)%nat -> zlen keys <= 1024 * Z.of_nat P -> 0 <= bit ->
  p = 0%nat \/ 0 < bit -> (forall x, x ∈ take (part * p) keys -> x < bit) ->
  (p = 0%nat \/ (part * p < length keys)%nat -> base = last_key 0 (take (part * p) keys)) ->
  search bitmap bit (seqZ (Z.of_nat p) (Z.of_nat m)) base = ret (bool_decide (bit ∈ keys)).
Proof.
  intros Hm Hroom Hbit. pose proof part_eq. revert p base Hm.
  induction m as [|m IH]; intros p base Hm H0 Hb Hbase; unfold search.
  { rewrite seqZ_nil by lia. cbn. f_equal. symmetry. apply bool_decide_eq_false_2. intros Hin.
    rewrite (take_ge keys) in Hb by (unfold zlen in *; nia). specialize (Hb _ Hin). lia. }
  rewrite Nat2Z.inj_succ, seqZ_cons by lia. cbn [Lookup_loop]. rewrite Z.pred_succ.
  destruct (lookup_lt_is_Some_2 tbl p) as [[a b] Hp]; [rewrite (tb_len _ _ _ _ Htbl); lia|].
  replace (Z.succ (Z.of_nat p)) with (Z.of_nat (S p)) by lia.
  destruct (last_key_bounds 0 keys (part * S p) ltac:(lia) Hasc) as (Hl & _ & Hmax).
  destruct (Nat.lt_ge_cases (part * p) (length keys)) as [Hlt|Hge].
  - pose proof (tb_prefix _ _ _ _ Htbl p _ Hp Hlt) as Ea. cbn [fst] in Ea.
    assert (Hg : get32 bitmap (Z.of_nat p * 8) = a) by (apply (get_prefix tbl p a b); [done|by subst a]).
    rewrite !Hg.
    destruct (Z.leb_spec bit a).
    + rewrite (Hbase ltac:(by right)). by apply (search_partition p a b); [|right|].
    + apply IH; [lia|right; lia| |intros _; exact Ea].
      intros x Hx. specialize (Hmax x Hx). lia.
  - pose proof (tb_rest _ _ _ _ Htbl p _ Hp Hge) as Ea. cbn in Ea. subst a.
    assert (Hg : get32 bitmap (Z.of_nat p * 8) = 0) by (by apply (get_prefix tbl p 0 b)).
    rewrite !Hg.
    destruct (Z.leb_spec bit 0).
    + destruct H0 as [->|]; [|lia]. rewrite (Hbase ltac:(by left)). by apply (search_partition 0 0 b); [|left|].
    + apply IH; [lia|right; lia| |].
      * intros x Hx. apply Hb. rewrite take_ge in Hx by nia. by rewrite take_ge by nia.
      * intros [|]; [lia|nia].
Qed.

Lemma table_search bit :
  (0 < P)%nat -> zlen keys <= 1024 * Z.of_nat P -> 0 <= bit ->
  match Lookup bitmap bit with
  | Some (input, base) => T bit base input
  | None => ret false
  end = ret (bool_decide (bit ∈ keys)).
Proof.
  intros HP Hroom Hbit. unfold Lookup.
  assert (Hz : zlen bitmap = 8 * Z.of_nat P + zlen (D' (deltas 0 keys))).
  { unfold bitmap. rewrite zlen_table. unfold zlen at 1. by rewrite (tb_len _ _ _ _ Htbl). }
  pose proof (zlen_nonneg (D' (deltas 0 keys))). destruct (Z.ltb_spec (zlen bitmap) 8); [lia|].
  destruct (lookup_lt_is_Some_2 tbl 0) as [[a b] Hp]; [rewrite (tb_len _ _ _ _ Htbl); lia|].
  pose proof (tb_offset _ _ _ _ Htbl 0%nat _ Hp ltac:(by left)) as Ho. cbn [snd] in Ho.
  rewrite Nat.mul_0_r in Ho. change (deltas 0 (take 0 keys)) with (@nil Z) in Ho.
  assert (HD : zlen (D []) = 0).
  { pose proof (D'_split 0 [] [] ltac:(cbn; lia)) as E. apply (f_equal zlen) in E.
    rewrite zlen_app in E. cbn [app] in E. lia. }
  assert (Hg : get32 bitmap 4 = b) by (apply (get_offset tbl 0 a b); [done|unfold in_width; lia]).
  rewrite Hg, Ho, HD. replace ((8 * Z.of_nat P + 0) / 8) with (Z.of_nat P)
    by (rewrite Z.add_0_r, Z.mul_comm, Z.div_mul by lia; done).
  apply (search_spec P 0); [done|done|done|by left| |].
  - rewrite Nat.mul_0_r. by intros ? ?%elem_of_nil.
  - intros _. by rewrite Nat.mul_0_r.
Qed.

End Search.
End Table.
