(* ===== verification/FilterPf.v ===== *)
(** * Groups of bit fields: what is written is what is read

    The p-for-delta formats pack the differences of a cohort of keys into bit
    fields of equal width.  The bits of a byte string are numbered from the most
    significant bit of its first byte ([bit_at]); the encoder writes a list of
    bits ([Written]), the decoder reads numbers at bit positions ([field]). *)
From stdpp Require Import sorting.
From S2P Require Import Prelude Coding Gigaplus Filter FilterLemmas.

Definition bit_at (s : bytes) (i : Z) : bool := Z.testbit (byte_at s (i / 8)) (7 - i mod 8).

Definition bit_of (bits : list bool) (i : Z) : bool := nth (Z.to_nat i) bits false.

(** The bits of [x], from bit [n - 1] down. *)
Fixpoint key_bits (n : nat) (x : Z) : list bool :=
  match n with
  | O => []
  | S r => Z.testbit x (Z.of_nat r) :: key_bits r x
  end.

Lemma length_key_bits n x : length (key_bits n x) = n.
Proof. induction n; cbn; by f_equal. Qed.

Lemma bit_of_snoc bits x i :
  0 <= i -> bit_of (bits ++ [x]) i = if i =? zlen bits then x else bit_of bits i.
Proof.
  intros Hi. unfold bit_of, zlen. destruct (Z.eqb_spec i (Z.of_nat (length bits))) as [->|].
  - rewrite Nat2Z.id, app_nth2, Nat.sub_diag by lia. done.
  - destruct (Nat.lt_ge_cases (Z.to_nat i) (length bits)).
    + by apply app_nth1.
    + rewrite !nth_overflow; [done|lia|rewrite length_app; cbn; lia].
Qed.

(** ** The encoder *)

Section Enc.
Import Pf.

(** The output, with the byte being filled, holds exactly these bits. *)
Record Written (b bi : Z) (out : bytes) (bits : list bool) : Prop := {
  wr_index : 0 <= bi <= 7;
  wr_fresh : bi = 7 -> b = 0;
  wr_size : zlen bits = 8 * zlen out + 7 - bi;
  wr_bits : forall i, 0 <= i -> bit_at (out ++ [b]) i = bit_of bits i }.

Lemma byte_at_last out b i : 0 <= i -> byte_at (out ++ [b]) i = if i =? zlen out then b else byte_at out i.
Proof.
  intros Hi. unfold byte_at, zlen. destruct (Z.eqb_spec i (Z.of_nat (length out))) as [->|].
  - rewrite Nat2Z.id, app_nth2, Nat.sub_diag by lia. done.
  - destruct (Nat.lt_ge_cases (Z.to_nat i) (length out)).
    + by apply app_nth1.
    + rewrite !nth_overflow; [done|lia|rewrite length_app; cbn; lia].
Qed.

(** Setting bit [bi] of the last byte sets one bit of the string. *)
Lemma bit_at_set out b bi (x : bool) i :
  0 <= i -> 0 <= bi <= 7 ->
  bit_at (out ++ [Z.lor b (if x then Z.shiftl 1 bi else 0)]) i
  = bit_at (out ++ [b]) i || (x && (i =? 8 * zlen out + 7 - bi)).
Proof.
  intros Hi Hb. unfold bit_at. pose proof (Z.mod_pos_bound i 8 ltac:(lia)).
  pose proof (Z.div_mod i 8 ltac:(lia)). pose proof (zlen_nonneg out).
  pose proof (Z.div_pos i 8 Hi ltac:(lia)). rewrite !byte_at_last by done.
  destruct (Z.eqb_spec (i / 8) (zlen out)).
  - rewrite Z.lor_spec. f_equal. destruct x; cbn [andb]; [|apply Z.bits_0].
    rewrite Z.shiftl_1_l, Z.pow2_bits_eqb by lia.
    destruct (Z.eqb_spec bi (7 - i mod 8)), (Z.eqb_spec i (8 * zlen out + 7 - bi)); lia || done.
  - destruct (Z.eqb_spec i (8 * zlen out + 7 - bi)); [lia|]. by rewrite andb_false_r, orb_false_r.
Qed.

Lemma land_bit key r : 0 <= r -> (1 <=? Z.land key (Z.shiftl 1 r)) = Z.testbit key r.
Proof.
  intros Hr. rewrite Z.shiftl_1_l.
  assert (E : Z.land key (2 ^ r) = if Z.testbit key r then 2 ^ r else 0).
  { apply Z.bits_inj'. intros i Hi. rewrite Z.land_spec, Z.pow2_bits_eqb by lia.
    destruct (Z.eqb_spec r i) as [<-|].
    - destruct (Z.testbit key r) eqn:Et; [by rewrite Z.pow2_bits_true|by rewrite Z.bits_0].
    - rewrite andb_false_r. destruct (Z.testbit key r); [by rewrite Z.pow2_bits_false by lia|by rewrite Z.bits_0]. }
  rewrite E. pose proof (Z.pow_pos_nonneg 2 r ltac:(lia) Hr). destruct (Z.testbit key r); cmp_cases; lia || done.
Qed.

Lemma Written_step b bi out bits (x : bool) :
  Written b bi out bits ->
  let b' := Z.lor b (if x then Z.shiftl 1 bi else 0) in
  if bi =? 0 then Written 0 7 (out ++ [b']) (bits ++ [x])
  else Written b' (bi - 1) out (bits ++ [x]).
Proof.
  intros [Hi Hf Hs Hb] b'.
  assert (Hbits : forall i, 0 <= i -> bit_at (out ++ [b']) i = bit_of (bits ++ [x]) i).
  { intros i Hi'. subst b'. rewrite bit_at_set, Hb, bit_of_snoc, <- Hs by done.
    destruct (Z.eqb_spec i (zlen bits)) as [->|]; [|by rewrite andb_false_r, orb_false_r].
    rewrite andb_true_r. unfold bit_of, zlen. by rewrite Nat2Z.id, nth_overflow. }
  destruct (Z.eqb_spec bi 0); split; try lia; try (rewrite ?zlen_app; change (zlen [x]) with 1; change (zlen [b']) with 1; lia).
  - intros i Hi'. rewrite <- Hbits by done. unfold bit_at. by rewrite (byte_at_app_zeros _ 1).
  - done.
Qed.

Lemma put_bits_spec n key b bi out bits :
  Written b bi out bits ->
  let '(b', bi', out') := put_bits n key b bi out in
  Written b' bi' out' (bits ++ key_bits n key).
Proof.
  revert b bi out bits. induction n as [|r IH]; intros b bi out bits HW; cbn [put_bits key_bits].
  { by rewrite app_nil_r. }
  rewrite land_bit by lia. pose proof (Written_step b bi out bits (Z.testbit key (Z.of_nat r)) HW) as Hs.
  cbv zeta in Hs. rewrite (app_assoc bits [_] _ : bits ++ _ :: _ = _).
  destruct (bi =? 0); apply (IH _ _ _ _ Hs).
Qed.

Definition cohort_bits (n : nat) (cohort : list Z) : list bool := concat (key_bits n <$> cohort).

Lemma length_cohort_bits n cohort : length (cohort_bits n cohort) = (n * length cohort)%nat.
Proof.
  unfold cohort_bits. induction cohort as [|k c IH]; cbn; [lia|].
  rewrite length_app, length_key_bits, IH. lia.
Qed.

Lemma put_keys_spec n cohort b bi out bits :
  Written b bi out bits ->
  let '(b', bi', out') := put_keys n cohort b bi out in
  Written b' bi' out' (bits ++ cohort_bits n cohort).
Proof.
  revert b bi out bits. induction cohort as [|k c IH]; intros b bi out bits HW; cbn [put_keys].
  { by rewrite app_nil_r. }
  pose proof (put_bits_spec n k b bi out bits HW) as Hk.
  destruct (put_bits n k b bi out) as [[b1 bi1] out1]. specialize (IH _ _ _ _ Hk).
  unfold cohort_bits in *. cbn. by rewrite app_assoc.
Qed.

(** The encoder only appends. *)
Lemma put_bits_frame n key b bi pre out :
  put_bits n key b bi (pre ++ out)
  = let '(b', bi', out') := put_bits n key b bi out in (b', bi', pre ++ out').
Proof.
  revert b bi out. induction n as [|r IH]; intros b bi out; cbn; [done|].
  destruct (bi =? 0); [|apply IH]. by rewrite <- app_assoc, IH.
Qed.

Lemma put_keys_frame n cohort b bi pre out :
  put_keys n cohort b bi (pre ++ out)
  = let '(b', bi', out') := put_keys n cohort b bi out in (b', bi', pre ++ out').
Proof.
  revert b bi out. induction cohort as [|k c IH]; intros b bi out; cbn; [done|].
  rewrite put_bits_frame. destruct (put_bits n k b bi out) as [[b' bi'] out']. apply IH.
Qed.

(** The bytes of the fields of a cohort. *)
Definition body (n : nat) (cohort : list Z) : bytes :=
  let '(b, bi, out) := put_keys n cohort 0 7 [] in if negb (bi =? 7) then out ++ [b] else out.

Lemma PfDtaEnc_body output cohort cmax :
  PfDtaEnc output cohort cmax = output ++ LeftMostBit cmax :: body (Z.to_nat (LeftMostBit cmax)) cohort.
Proof.
  unfold PfDtaEnc, body. rewrite <- (app_nil_r (output ++ [_])), put_keys_frame.
  destruct (put_keys _ cohort 0 7 []) as [[b bi] out]. rewrite <- !app_assoc. by destruct (negb _); rewrite <- ?app_assoc.
Qed.

Lemma body_spec n cohort :
  zlen (body n cohort) = (Z.of_nat n * zlen cohort + 7) / 8 /\
  forall i, 0 <= i -> bit_at (body n cohort) i = bit_of (cohort_bits n cohort) i.
Proof.
  unfold body.
  assert (HW : Written 0 7 [] []).
  { split; [lia|done|done|]. intros i Hi. unfold bit_at, bit_of. rewrite (byte_at_zeros 1), Z.bits_0.
    by destruct (Z.to_nat i). }
  pose proof (put_keys_spec n cohort 0 7 [] [] HW) as Hk. cbn [app] in Hk.
  destruct (put_keys n cohort 0 7 []) as [[b bi] out]. destruct Hk as [Hi Hf Hs Hb].
  assert (Hn : Z.of_nat n * zlen cohort = 8 * zlen out + 7 - bi).
  { rewrite <- Hs. unfold zlen. rewrite length_cohort_bits. lia. }
  rewrite Hn. destruct (Z.eqb_spec bi 7) as [E|E]; cbn [negb].
  - split.
    + rewrite E. apply Z.div_unique with 7; lia.
    + intros i Hi'. rewrite <- Hb by done. rewrite (Hf E). unfold bit_at. by rewrite (byte_at_app_zeros _ 1).
  - split; [|done]. rewrite zlen_app. change (zlen [b]) with 1. apply Z.div_unique with (6 - bi); lia.
Qed.

End Enc.

(** ** The decoder *)

Section Dec.
Import Pf.

(** The number in the [n] bits from position [m] on. *)
Fixpoint field (n : nat) (s : bytes) (m : Z) : Z :=
  match n with
  | O => 0
  | S r => Z.lor (if bit_at s m then 2 ^ Z.of_nat r else 0) (field r s (m + 1))
  end.

(** The decoder has read [m] bits of [s]; [c] bytes are consumed. *)
Record Reading (s : bytes) (m c : Z) (b bi : Z) (input : bytes) : Prop := {
  rd_input : input = drop (Z.to_nat c) s;
  rd_pos : 0 <= m /\ 8 * c - (bi + 1) = m;
  rd_index : -1 <= bi <= 6;
  rd_byte : 0 <= bi -> b = byte_at s (c - 1) }.

Lemma land_bit' b r : 0 <= r -> (0 <? Z.land b (Z.shiftl 1 r)) = Z.testbit b r.
Proof. intros Hr. rewrite <- land_bit by done. cmp_cases; lia || done. Qed.

Lemma hd_drop s c : 0 <= c -> hd 0 (drop (Z.to_nat c) s) = byte_at s c /\
  tail (drop (Z.to_nat c) s) = drop (Z.to_nat (c + 1)) s.
Proof.
  intros Hc. replace (Z.to_nat (c + 1)) with (S (Z.to_nat c)) by lia. unfold byte_at.
  generalize (Z.to_nat c) as k. induction s as [|x s IH]; intros k; [by destruct k|].
  destruct k; [done|]. cbn [drop nth]. apply IH.
Qed.

Lemma get_bits_spec n s m c dta b bi input :
  (n <= 32)%nat -> Reading s m c b bi input ->
  exists c' b' bi' input', get_bits n dta b bi input = (Z.lor dta (field n s m), b', bi', input') /\
    Reading s (m + Z.of_nat n) c' b' bi' input'.
Proof.
  intros Hn. revert m c dta b bi input. induction n as [|r IH]; intros m c dta b bi input HR; cbn [get_bits field].
  { rewrite Z.lor_0_r, Z.add_0_r. by exists c, b, bi, input. }
  assert (exists c1 b1 bi1 in1, (if bi <? 0 then (hd 0 input, 7, tail input) else (b, bi, input)) = (b1, bi1, in1)
    /\ Reading s (m + 1) c1 b1 (bi1 - 1) in1 /\ 0 <= bi1 /\ Z.testbit b1 bi1 = bit_at s m)
    as (c1 & b1 & bi1 & in1 & -> & HR1 & Hb1 & Hbit).
  { destruct HR as [-> [Hm Hp] Hi Hb]. destruct (Z.ltb_spec bi 0).
    - destruct (hd_drop s c ltac:(lia)) as [-> ->]. exists (c + 1), (byte_at s c), 7. eexists.
      split; [done|]. split; [|split; [lia|]].
      + split; [done|lia|lia|]. intros _. f_equal. lia.
      + unfold bit_at. replace (m / 8) with c by (apply Z.div_unique with 0; lia).
        by replace (m mod 8) with 0 by (apply Z.mod_unique with c; lia).
    - exists c, b, bi. eexists. split; [done|]. split; [|split; [done|]].
      + split; [done|lia|lia|]. intros _. apply Hb. lia.
      + unfold bit_at. rewrite Hb by done. f_equal; [f_equal|].
        * apply Z.div_unique with (7 - bi); lia.
        * enough (m mod 8 = 7 - bi) by lia. symmetry. apply Z.mod_unique with (c - 1); lia. }
  rewrite land_bit', Hbit by done.
  destruct (IH ltac:(lia) (m + 1) c1 (Z.lor dta (if bit_at s m then u32 (Z.shiftl 1 (Z.of_nat r)) else 0))
    b1 (bi1 - 1) in1 HR1) as (c' & b' & bi' & in' & E & HR').
  exists c', b', bi', in'. split.
  - rewrite E. rewrite <- Z.lor_assoc. do 5 f_equal. destruct (bit_at s m); [|done].
    rewrite Z.shiftl_1_l. apply u32_small. split; [apply Z.pow_nonneg; lia|apply Z.pow_lt_mono_r; lia].
  - by replace (m + Z.of_nat (S r)) with (m + 1 + Z.of_nat r) by lia.
Qed.

Lemma get_keys_spec k n s m c b bi input :
  (n <= 32)%nat -> Reading s m c b bi input ->
  exists c' b' bi' input',
    get_keys k n b bi input
    = ((fun j => field n s (m + Z.of_nat n * Z.of_nat j)) <$> seq 0 k, input') /\
    Reading s (m + Z.of_nat n * Z.of_nat k) c' b' bi' input'.
Proof.
  intros Hn. revert m c b bi input. induction k as [|k IH]; intros m c b bi input HR; cbn [get_keys].
  { rewrite Z.mul_0_r, Z.add_0_r. by exists c, b, bi, input. }
  destruct (get_bits_spec n s m c 0 b bi input Hn HR) as (c1 & b1 & bi1 & in1 & -> & HR1).
  destruct (IH _ _ _ _ _ HR1) as (c2 & b2 & bi2 & in2 & -> & HR2).
  exists c2, b2, bi2, in2. split.
  - rewrite Z.lor_0_l. cbn [seq fmap list_fmap]. rewrite Z.mul_0_r, Z.add_0_r. do 2 f_equal.
    rewrite <- fmap_S_seq, <- list_fmap_compose. apply list_fmap_ext. intros i x _. cbn. f_equal. lia.
  - by replace (m + Z.of_nat n * Z.of_nat (S k)) with (m + Z.of_nat n + Z.of_nat n * Z.of_nat k) by lia.
Qed.

End Dec.

(** ** Cohorts *)

Section Cohort.
Import Pf.

Lemma testbit_mod v n i : 0 <= n -> 0 <= i -> Z.testbit (v mod 2 ^ n) i = (i <? n) && Z.testbit v i.
Proof.
  intros Hn Hi. destruct (Z.ltb_spec i n); cbn.
  - by rewrite Z.mod_pow2_bits_low.
  - by rewrite Z.mod_pow2_bits_high by lia.
Qed.

Lemma field_spec n s m v :
  (forall r, 0 <= r < Z.of_nat n -> bit_at s (m + r) = Z.testbit v (Z.of_nat n - 1 - r)) ->
  field n s m = v mod 2 ^ Z.of_nat n.
Proof.
  revert m. induction n as [|n IH]; intros m Hb; [by rewrite Z.mod_1_r|]. cbn [field].
  rewrite (IH (m + 1)).
  - pose proof (Hb 0 ltac:(lia)) as H0. rewrite Z.add_0_r in H0. rewrite H0.
    replace (Z.of_nat (S n) - 1 - 0) with (Z.of_nat n) by lia.
    apply Z.bits_inj'. intros i Hi. rewrite Z.lor_spec, !testbit_mod by lia.
    assert (E : Z.testbit (if Z.testbit v (Z.of_nat n) then 2 ^ Z.of_nat n else 0) i
      = (Z.of_nat n =? i) && Z.testbit v (Z.of_nat n)).
    { destruct (Z.testbit v (Z.of_nat n)); [rewrite Z.pow2_bits_eqb by lia|rewrite Z.bits_0]; by destruct (_ =? _). }
    rewrite E. destruct (Z.eqb_spec (Z.of_nat n) i) as [<-|].
    + cmp_cases; try lia. cbn. by rewrite orb_false_r.
    + cmp_cases; try lia; done.
  - intros r Hr. replace (m + 1 + r) with (m + (r + 1)) by lia. rewrite Hb by lia. f_equal. lia.
Qed.

Lemma nth_key_bits n x r : (r < n)%nat -> nth r (key_bits n x) false = Z.testbit x (Z.of_nat n - 1 - Z.of_nat r).
Proof.
  revert r. induction n as [|n IH]; intros r Hr; [lia|]. destruct r as [|r]; cbn [key_bits nth].
  - f_equal. lia.
  - rewrite IH by lia. f_equal. lia.
Qed.

Lemma bit_of_cohort n c j r :
  0 <= r < Z.of_nat n ->
  bit_of (cohort_bits n c) (Z.of_nat n * Z.of_nat j + r) = Z.testbit (nth j c 0) (Z.of_nat n - 1 - r).
Proof.
  intros Hr. unfold bit_of. replace (Z.to_nat _) with (n * j + Z.to_nat r)%nat by nia.
  revert j. induction c as [|x c IH]; intros j.
  { replace (nth j [] 0) with 0 by (by destruct j). rewrite Z.bits_0. by destruct (n * j + Z.to_nat r)%nat. }
  unfold cohort_bits in *. cbn [fmap list_fmap concat]. destruct j as [|j].
  - rewrite app_nth1 by (rewrite length_key_bits; lia). rewrite nth_key_bits by lia. cbn [nth]. f_equal. lia.
  - rewrite app_nth2 by (rewrite length_key_bits; nia). rewrite length_key_bits. cbn [nth]. rewrite <- IH.
    f_equal. nia.
Qed.

Lemma bit_at_app s rest i : 0 <= i < 8 * zlen s -> bit_at (s ++ rest) i = bit_at s i.
Proof.
  intros Hi. unfold bit_at. rewrite byte_at_app_l; [done|].
  split; [apply Z.div_pos|apply Z.div_lt_upper_bound]; lia.
Qed.

(** Field [j] of the bytes of a cohort is its element [j], zero past its end. *)
Lemma field_body n c rest j :
  rest = [] \/ (j < length c)%nat ->
  field n (body n c ++ rest) (Z.of_nat n * Z.of_nat j) = nth j c 0 mod 2 ^ Z.of_nat n.
Proof.
  intros Hj. destruct (body_spec n c) as [Hl Hb]. apply field_spec. intros r Hr.
  rewrite <- bit_of_cohort, <- Hb by lia. destruct Hj as [->|Hj]; [by rewrite app_nil_r|].
  apply bit_at_app. split; [lia|]. rewrite Hl. unfold zlen.
  pose proof (Z.mul_div_le (Z.of_nat n * Z.of_nat (length c) + 7) 8 ltac:(lia)).
  pose proof (Z.mod_pos_bound (Z.of_nat n * Z.of_nat (length c) + 7) 8 ltac:(lia)).
  pose proof (Z.div_mod (Z.of_nat n * Z.of_nat (length c) + 7) 8 ltac:(lia)). nia.
Qed.

(** A cohort is decoded with zeros in place of the missing keys of the last. *)
Lemma get_cohort n c k rest :
  (n <= 32)%nat -> Forall (fun d => 0 <= d < 2 ^ Z.of_nat n) c -> (length c <= k)%nat ->
  rest = [] \/ k = length c ->
  exists c' b' bi' input',
    get_keys k n 0 (-1) (body n c ++ rest) = (c ++ replicate (k - length c) 0, input') /\
    Reading (body n c ++ rest) (Z.of_nat n * Z.of_nat k) c' b' bi' input'.
Proof.
  intros Hn Hc Hk Hr.
  assert (HR : Reading (body n c ++ rest) 0 0 0 (-1) (body n c ++ rest)) by (split; [done|lia|lia|lia]).
  destruct (get_keys_spec k n _ _ _ _ _ _ Hn HR) as (c' & b' & bi' & in' & -> & HR').
  exists c', b', bi', in'. split; [|done]. f_equal. apply list_eq. intros j.
  destruct (Nat.lt_ge_cases j k) as [Hj|Hj].
  - rewrite list_lookup_fmap, lookup_seq_lt by done. cbn [fmap option_fmap option_map]. rewrite Z.add_0_l, Nat.add_0_l.
    rewrite field_body by (destruct Hr; [by left|right; lia]).
    destruct (Nat.lt_ge_cases j (length c)).
    + destruct (lookup_lt_is_Some_2 c j) as [d Hd]; [done|]. rewrite lookup_app_l, Hd by done.
      rewrite (nth_lookup_Some _ _ _ _ Hd). f_equal. apply Z.mod_small. exact (Forall_lookup_1 _ _ _ _ Hc Hd).
    + rewrite nth_overflow, Z.mod_0_l by (done || (apply Z.pow_nonzero; lia)).
      by rewrite lookup_app_r, lookup_replicate_2 by lia.
  - rewrite !lookup_ge_None_2; [done|rewrite length_app, length_replicate; lia|].
    by rewrite length_fmap, length_seq.
Qed.

(** *** The width of the fields *)

Definition lor_all (c : list Z) : Z := fold_left Z.lor c 0.
Definition width (c : list Z) : Z := LeftMostBit (lor_all c).
Definition group (c : list Z) : bytes := width c :: body (Z.to_nat (width c)) c.

Lemma lor_all_snoc c d : lor_all (c ++ [d]) = Z.lor (lor_all c) d.
Proof. unfold lor_all. by rewrite fold_left_app. Qed.

Lemma lor_all_bits c i :
  Z.testbit (lor_all c) i = true <-> exists d, d ∈ c /\ Z.testbit d i = true.
Proof.
  induction c as [|d c IH] using rev_ind.
  - unfold lor_all. cbn. rewrite Z.bits_0. split; [done|]. by intros (? & ?%elem_of_nil & _).
  - rewrite lor_all_snoc, Z.lor_spec, orb_true_iff, IH. split.
    + intros [(x & Hx & Hb)|Hb]; [exists x|exists d]; (split; [|done]); apply elem_of_app; [by left|right; by left].
    + intros (x & [Hx| ->%list_elem_of_singleton]%elem_of_app & Hb); [left; by exists x|by right].
Qed.

Lemma lor_all_width w c : 0 <= w -> Forall (in_width w) c -> in_width w (lor_all c).
Proof.
  intros Hw. induction c as [|d c IH] using rev_ind; intros Hc; [by apply in_width_0|].
  apply Forall_app in Hc as [? [? _]%Forall_cons]. rewrite lor_all_snoc. by apply lor_in_width; [|apply IH|].
Qed.

Lemma width_range c : Forall is_u32 c -> 0 <= width c <= 32.
Proof.
  intros Hc. pose proof (lor_all_width 32 c ltac:(lia) Hc) as [H0 H1]. unfold width, LeftMostBit.
  destruct (Z.eqb_spec (lor_all c) 0); [lia|]. pose proof (Z.log2_nonneg (lor_all c)).
  pose proof (proj1 (Z.log2_lt_pow2 (lor_all c) 32 ltac:(lia)) H1). lia.
Qed.

Lemma width_pos c : Forall is_u32 c -> lor_all c <> 0 -> 0 < width c.
Proof.
  intros Hc Hz. unfold width, LeftMostBit. destruct (Z.eqb_spec (lor_all c) 0); [done|].
  pose proof (Z.log2_nonneg (lor_all c)). lia.
Qed.

(** Every difference fits the width of its cohort. *)
Lemma width_fits c : Forall is_u32 c -> Forall (fun d => 0 <= d < 2 ^ Z.of_nat (Z.to_nat (width c))) c.
Proof.
  intros Hc. pose proof (width_range c Hc). apply Forall_forall. intros d Hd.
  rewrite Forall_forall in Hc. pose proof (Hc d Hd) as [H0 _]. rewrite Z2Nat.id by lia.
  pose proof (lor_all_width 32 c ltac:(lia) ltac:(by apply Forall_forall)) as [Hl _].
  apply bits_in_width; [lia|done|]. intros i Hi. destruct (Z.testbit d i) eqn:E; [|done]. exfalso.
  assert (Hb : Z.testbit (lor_all c) i = true) by (apply lor_all_bits; by exists d).
  unfold width, LeftMostBit in Hi. destruct (Z.eqb_spec (lor_all c) 0) as [Ez|].
  - by rewrite Ez, Z.bits_0 in Hb.
  - rewrite Z.bits_above_log2 in Hb by lia. done.
Qed.

Lemma group_size c : Forall is_u32 c -> 0 < zlen c -> 1 <= zlen (group c) <= 6 * zlen c.
Proof.
  intros Hc Hp. pose proof (width_range c Hc). unfold group. rewrite zlen_cons.
  destruct (body_spec (Z.to_nat (width c)) c) as [-> _]. rewrite Z2Nat.id by lia.
  pose proof (Z.div_pos (width c * zlen c + 7) 8 ltac:(nia) ltac:(lia)).
  assert ((width c * zlen c + 7) / 8 <= 5 * zlen c); [|lia]. apply Z.div_le_upper_bound; nia.
Qed.

(** *** Decoding groups *)

Lemma PfDtaDec_full c rest :
  Forall is_u32 c -> lor_all c <> 0 -> zlen c = 128 -> PfDtaDec (group c ++ rest) = Some (c, rest).
Proof.
  intros Hc Hz Hl. pose proof (width_range c Hc). pose proof (width_pos c Hc Hz). unfold group, PfDtaDec.
  cbn [app]. destruct (Z.eqb_spec (width c) 0) as [|_]; [lia|]. unfold cohort_size_.
  set (n := Z.to_nat (width c)). assert (Hn : Z.of_nat n = width c) by lia.
  destruct (body_spec n c) as [Hb _]. rewrite Hn, Hl in Hb.
  assert (Eb : zlen (body n c) = 16 * width c)
    by (rewrite Hb; symmetry; apply Z.div_unique with 7; lia).
  assert (Hk : 128 <= 8 * zlen (body n c ++ rest) / width c).
  { rewrite zlen_app, Eb. pose proof (zlen_nonneg rest). apply Z.div_le_lower_bound; lia. }
  destruct (Z.ltb_spec (8 * zlen (body n c ++ rest) / width c) 128); [lia|].
  destruct (get_cohort n c 128 rest) as (c' & b' & bi' & in' & E & HR);
    [lia|by apply width_fits|unfold zlen in Hl; lia|right; unfold zlen in Hl; lia|].
  change (Z.to_nat 128) with 128%nat. rewrite E. destruct HR as [-> [_ Hp] Hi _].
  assert (c' = 16 * width c) as -> by lia. rewrite <- Eb. unfold zlen. rewrite Nat2Z.id, drop_app_length.
  replace (128 - length c)%nat with 0%nat by (unfold zlen in Hl; lia). cbn. by rewrite app_nil_r.
Qed.

Lemma PfDtaDec_last c :
  Forall is_u32 c -> lor_all c <> 0 -> 0 < zlen c <= 128 ->
  exists k, PfDtaDec (group c) = Some (c ++ replicate k 0, []).
Proof.
  intros Hc Hz Hl. pose proof (width_range c Hc). pose proof (width_pos c Hc Hz). unfold group, PfDtaDec.
  destruct (Z.eqb_spec (width c) 0) as [|_]; [lia|]. unfold cohort_size_.
  set (n := Z.to_nat (width c)). assert (Hn : Z.of_nat n = width c) by lia.
  destruct (body_spec n c) as [Hb _]. rewrite Hn in Hb. set (L := zlen (body n c)) in *.
  pose proof (Z.mod_pos_bound (width c * zlen c + 7) 8 ltac:(lia)).
  pose proof (Z.div_mod (width c * zlen c + 7) 8 ltac:(lia)) as HL. rewrite <- Hb in HL.
  pose proof (Z.mod_pos_bound (8 * L) (width c) ltac:(lia)).
  pose proof (Z.div_mod (8 * L) (width c) ltac:(lia)) as HW.
  set (k := if _ <? 128 then _ else 128).
  assert (Hk : zlen c <= k /\ 8 * (L - 1) < width c * k <= 8 * L).
  { assert (zlen c <= 8 * L / width c) by (apply Z.div_le_lower_bound; lia).
    subst k. destruct (Z.ltb_spec (8 * L / width c) 128); (split; [lia|]); nia. }
  destruct (get_cohort n c (Z.to_nat k) []) as (c' & b' & bi' & in' & E & HR);
    [lia|by apply width_fits|unfold zlen in *; lia|by left|].
  rewrite app_nil_r in *. rewrite E. eexists. do 2 f_equal. destruct HR as [-> [_ Hp] Hi _].
  apply drop_ge. fold (zlen (body n c)). assert (L <= c'); [|unfold L, zlen in *; lia].
  rewrite Hn, Z2Nat.id in Hp by lia. lia.
Qed.

End Cohort.

(** ** Sequences of cohorts *)

Section Stream.
Import Pf.

Definition put_all (ds : list Z) (acc : bytes * list Z * Z) : bytes * list Z * Z :=
  fold_left (fun acc d => put_dta d acc) ds acc.

(** The cohorts that are complete after [ds], and all of them. *)
Definition data (ds : list Z) : bytes := (put_all ds ([], [], 0)).1.1.
Definition data' (ds : list Z) : bytes := put_last (put_all ds ([], [], 0)).

Lemma PfDtaEnc_group sp c : PfDtaEnc sp c (lor_all c) = sp ++ group c.
Proof. apply PfDtaEnc_body. Qed.

(** The pending cohort, which has fewer than 128 differences. *)
Lemma put_dta_pending sp c d :
  put_dta d (sp, c, lor_all c)
  = if zlen c + 1 =? 128 then (sp ++ group (c ++ [d]), [], lor_all [])
    else (sp, c ++ [d], lor_all (c ++ [d])).
Proof.
  unfold put_dta, cohort_size_. rewrite <- lor_all_snoc, PfDtaEnc_group, zlen_app.
  change (zlen [d]) with 1. by destruct (_ =? 128).
Qed.

Lemma put_all_snoc ds d acc : put_all (ds ++ [d]) acc = put_dta d (put_all ds acc).
Proof. unfold put_all. by rewrite fold_left_app. Qed.

Lemma put_all_app a b acc : put_all (a ++ b) acc = put_all b (put_all a acc).
Proof. unfold put_all. by rewrite fold_left_app. Qed.

Lemma put_all_frame ds pre sp c m :
  put_all ds (pre ++ sp, c, m)
  = let '(sp', c', m') := put_all ds (sp, c, m) in (pre ++ sp', c', m').
Proof.
  induction ds as [|d ds IH] using rev_ind; [done|]. rewrite !put_all_snoc, IH.
  destruct (put_all ds (sp, c, m)) as [[sp' c'] m']. unfold put_dta. destruct (_ =? _); [|done].
  by rewrite !PfDtaEnc_body, app_assoc.
Qed.

Lemma put_all_pending ds :
  exists sp c, put_all ds ([], [], 0) = (sp, c, lor_all c) /\ zlen c < 128 /\
    exists k, zlen ds = 128 * k + zlen c /\ 0 <= k.
Proof.
  induction ds as [|d ds IH] using rev_ind.
  { exists [], []. split; [done|]. split; [done|]. by exists 0. }
  destruct IH as (sp & c & E & Hc & k & Hk & Hk0). rewrite put_all_snoc, E, put_dta_pending, zlen_app.
  change (zlen [d]) with 1. destruct (Z.eqb_spec (zlen c + 1) 128).
  - do 2 eexists. split; [done|]. split; [done|]. exists (k + 1). change (zlen []) with 0. lia.
  - do 2 eexists. split; [done|]. rewrite zlen_app. change (zlen [d]) with 1. split; [|exists k]; lia.
Qed.

Lemma put_all_full k a : zlen a = 128 * k -> put_all a ([], [], 0) = (data a, [], 0).
Proof.
  intros Ha. destruct (put_all_pending a) as (sp & c & E & Hc & j & Hj & _). unfold data. rewrite E. cbn.
  pose proof (zlen_nonneg c). assert (Hz : zlen c = 0) by lia. destruct c; [done|]. rewrite zlen_cons in Hz.
  pose proof (zlen_nonneg c). lia.
Qed.

Lemma data_split k a b : zlen a = 128 * k -> data' (a ++ b) = data a ++ data' b.
Proof.
  intros Ha. unfold data'. rewrite put_all_app, (put_all_full k) by done.
  rewrite <- (app_nil_r (data a)) at 1. rewrite put_all_frame.
  destruct (put_all b ([], [], 0)) as [[sp c] m]. unfold put_last. case_decide; [done|].
  by rewrite !PfDtaEnc_body, app_assoc.
Qed.

Lemma put_all_short ds sp c :
  zlen c + zlen ds < 128 -> put_all ds (sp, c, lor_all c) = (sp, c ++ ds, lor_all (c ++ ds)).
Proof.
  revert c. induction ds as [|d ds IH]; intros c Hl; [by rewrite app_nil_r|]. rewrite zlen_cons in Hl.
  pose proof (zlen_nonneg ds). cbn [put_all fold_left]. rewrite put_dta_pending.
  destruct (Z.eqb_spec (zlen c + 1) 128); [lia|]. fold (put_all ds (sp, c ++ [d], lor_all (c ++ [d]))).
  rewrite IH; [by rewrite <- app_assoc|]. rewrite zlen_app. change (zlen [d]) with 1. lia.
Qed.

Lemma data_full c : zlen c = 128 -> data c = group c.
Proof.
  intros Hc. destruct (exists_last (l := c)) as (c' & d & ->); [by intros ->|].
  rewrite zlen_app in Hc. change (zlen [d]) with 1 in Hc. unfold data. rewrite put_all_snoc.
  change 0 with (lor_all []). rewrite put_all_short, app_nil_l, put_dta_pending by (change (zlen []) with 0; lia).
  destruct (Z.eqb_spec (zlen c' + 1) 128); [done|lia].
Qed.

Lemma data_one c : 0 < zlen c <= 128 -> data' c = group c.
Proof.
  intros Hc. destruct (Z.eq_dec (zlen c) 128) as [E|E].
  - rewrite <- (app_nil_r c) at 1. rewrite (data_split 1), data_full by done. by rewrite app_nil_r.
  - unfold data'. change 0 with (lor_all []). rewrite put_all_short by (change (zlen []) with 0; lia).
    unfold put_last. case_decide as Ec; [cbn in Ec; subst c; destruct Hc as [Hc _]; by cbv in Hc|]. apply PfDtaEnc_group.
Qed.

(** No cohort consists of zeros only. *)
Definition good (ds : list Z) : Prop :=
  forall k, (128 * k < length ds)%nat -> lor_all (take 128 (drop (128 * k) ds)) <> 0.

Lemma good_split k a b : length a = (128 * k)%nat -> good (a ++ b) -> good b.
Proof.
  intros Ha Hg j Hj. specialize (Hg (k + j)%nat). rewrite length_app, Ha in Hg.
  replace (128 * (k + j))%nat with (length a + 128 * j)%nat in Hg by lia.
  rewrite <- drop_drop, drop_app_length in Hg. apply Hg. lia.
Qed.

Lemma good_first ds : ds <> [] -> good ds -> lor_all (take 128 ds) <> 0.
Proof. intros Hne Hg. apply (Hg 0%nat). destruct ds; [done|]. cbn. lia. Qed.

(** *** Searching *)

(** A cohort whose keys are all below [bit] is passed; otherwise the answer is
    known.  Zeros after the first difference change nothing. *)
Lemma scan_spec keys base bit k :
  0 <= base -> ascending base keys -> keys <> [] ->
  scan bit base (deltas base keys ++ replicate k 0)
  = if bool_decide (bit ∈ keys) then inl true
    else if bit <? last_key base keys then inl false else inr (last_key base keys).
Proof.
  revert base. induction keys as [|x keys IH]; intros base Hb Ha Hne; [done|].
  pose proof (ascending_below base x keys bit Ha) as Hbelow.
  apply ascending_cons in Ha as (_ & E & _ & Hx & Ha); [|done]. cbn [deltas app scan]. rewrite E.
  assert (El : last_key base (x :: keys) = last_key x keys)
    by (unfold last_key; rewrite last_cons; by destruct (last keys)).
  rewrite El. destruct (Z.eqb_spec x bit) as [->|Hxb].
  { rewrite bool_decide_eq_true_2 by (by left). done. }
  destruct (Z.ltb_spec bit x) as [Hlt|Hge].
  { rewrite bool_decide_eq_false_2 by (by apply Hbelow).
    enough (bit < last_key x keys) by (destruct (Z.ltb_spec bit (last_key x keys)); [done|lia]).
    unfold last_key. destruct (last keys) as [z|] eqn:Ez; cbn; [|lia]. apply last_Some_elem_of in Ez.
    destruct Ha as [_ Ha]. rewrite Forall_forall in Ha. specialize (Ha _ Ez). lia. }
  destruct keys as [|y keys].
  - rewrite bool_decide_eq_false_2 by (rewrite list_elem_of_singleton; congruence). cbn [deltas app].
    unfold last_key. cbn. destruct (Z.ltb_spec bit x); [lia|]. clear -Hxb Hge Hx Ha E Hb.
    induction k as [|k IHk]; cbn; [done|]. assert (E0 : u32 (x + 0) = x).
    { rewrite Z.add_0_r. apply u32_small. revert E. rewrite Zplus_minus. unfold u32, in_width. intros <-. apply wrap_range. lia. }
    rewrite E0. destruct (Z.eqb_spec x bit); [done|]. destruct (Z.ltb_spec bit x); [lia|done].
  - rewrite IH by done. replace (bool_decide (bit ∈ x :: y :: keys)) with (bool_decide (bit ∈ y :: keys)); [done|].
    apply bool_decide_ext. rewrite (elem_of_cons (y :: keys)). naive_solver.
Qed.

Lemma deltas_u32 base keys : 0 <= base -> ascending base keys -> Forall is_u32 (deltas base keys).
Proof.
  revert base. induction keys as [|x keys IH]; intros base Hb Ha; cbn; [constructor|].
  apply ascending_cons in Ha as (_ & _ & Hu & Hx & Ha); [|done]. constructor; [done|]. by apply IH.
Qed.

Lemma ascending_take base keys p : ascending base keys -> ascending base (take p keys).
Proof.
  intros [Hs Hf]. rewrite <- (take_drop p keys) in Hs, Hf. split; [by apply StronglySorted_app in Hs as (_ & ? & _)|].
  by apply Forall_app in Hf as [? _].
Qed.

Lemma zlen_deltas base keys : zlen (deltas base keys) = zlen keys.
Proof. unfold zlen. by rewrite length_deltas. Qed.

(** One iteration of the loop on a cohort that is not the last. *)
Lemma Pf_Test_step fuel keys base bit :
  0 <= base < 2 ^ 32 -> ascending base keys -> good (deltas base keys) -> 128 < zlen keys ->
  let base' := last_key base (take 128 keys) in
  let rest := deltas base' (drop 128 keys) in
  data' (deltas base keys) = group (deltas base (take 128 keys)) ++ data' rest /\
  0 <= base' < 2 ^ 32 /\ ascending base' (drop 128 keys) /\ good rest /\
  (Test_loop fuel bit base' (data' rest) = Some (bool_decide (bit ∈ drop 128 keys)) ->
   Test_loop (S fuel) bit base (data' (deltas base keys)) = Some (bool_decide (bit ∈ keys))).
Proof.
  intros Hb Ha Hg Hz base' rest.
  assert (Ht : zlen (take 128 keys) = 128) by (unfold zlen in *; rewrite length_take; lia).
  assert (Ed : deltas base keys = deltas base (take 128 keys) ++ rest)
    by (unfold rest, base'; by rewrite <- deltas_app, take_drop).
  pose proof (ascending_take base keys 128 Ha) as Hat.
  destruct (last_key_bounds base keys 128 Hb Ha) as (Hlk & Had & _). fold base' in Hlk, Had.
  assert (Hg0 : lor_all (deltas base (take 128 keys)) <> 0).
  { rewrite <- take_deltas. apply good_first; [|done]. intros E. apply (f_equal length) in E.
    rewrite length_deltas in E. unfold zlen in Hz. cbn in E. lia. }
  assert (Es : data' (deltas base keys) = group (deltas base (take 128 keys)) ++ data' rest).
  { rewrite Ed, (data_split 1), data_full; [done|rewrite zlen_deltas; lia..]. }
  split_and!; [done|lia|lia|done| |].
  - rewrite Ed in Hg. apply (good_split 1) in Hg; [done|]. rewrite length_deltas. unfold zlen in Ht. lia.
  - intros IH. rewrite Es.
    pose proof (PfDtaDec_full (deltas base (take 128 keys)) (data' rest)
      (deltas_u32 base _ ltac:(lia) Hat) Hg0 ltac:(rewrite zlen_deltas; lia)) as EP.
    unfold group in *. cbn [app Test_loop] in *. rewrite EP.
    pose proof (scan_spec (take 128 keys) base bit 0 ltac:(lia) Hat
      ltac:(intros E; rewrite E in Ht; discriminate Ht)) as EN.
    cbn [replicate] in EN. rewrite app_nil_r in EN. rewrite EN. fold base'.
    assert (Hin : bit ∈ keys <-> bit ∈ take 128 keys \/ bit ∈ drop 128 keys)
      by (rewrite <- elem_of_app, take_drop; done).
    case_bool_decide as Hbt; [by rewrite bool_decide_eq_true_2 by (apply Hin; by left)|].
    destruct (Z.ltb_spec bit base').
    + rewrite bool_decide_eq_false_2; [done|]. rewrite Hin. intros [?|Hbd]; [done|].
      destruct Had as [_ Hf]. rewrite Forall_forall in Hf. specialize (Hf _ Hbd). lia.
    + rewrite IH. f_equal. apply bool_decide_ext. naive_solver.
Qed.

Lemma Pf_Test_loop fuel keys base bit :
  0 <= base < 2 ^ 32 -> ascending base keys -> good (deltas base keys) ->
  (length (data' (deltas base keys)) <= fuel)%nat ->
  Test_loop fuel bit base (data' (deltas base keys)) = Some (bool_decide (bit ∈ keys)).
Proof.
  revert keys base. induction fuel as [|fuel IH]; intros keys base Hb Ha Hg Hf;
    (destruct (decide (keys = [])) as [->|Hne];
      [by rewrite bool_decide_eq_false_2 by apply not_elem_of_nil|]);
    assert (Hz : 0 < zlen keys) by (destruct keys; [done|]; rewrite zlen_cons; pose proof (zlen_nonneg keys); lia);
    pose proof (zlen_deltas base keys) as Hl; destruct (Z.le_gt_cases (zlen keys) 128) as [Hle|Hgt].
  - rewrite data_one in Hf by lia. cbn in Hf. lia.
  - destruct (Pf_Test_step 0 keys base bit Hb Ha Hg Hgt) as (Es & _). rewrite Es in Hf. cbn in Hf. lia.
  - rewrite data_one by lia. pose proof (deltas_u32 base keys ltac:(lia) Ha) as Hu.
    pose proof (good_first (deltas base keys) ltac:(by destruct keys) Hg) as Hg0.
    rewrite take_ge in Hg0 by (unfold zlen in *; lia).
    destruct (PfDtaDec_last (deltas base keys)) as [k Ed]; [done|done|lia|].
    unfold group in *. cbn [Test_loop]. rewrite Ed, scan_spec by (done || lia).
    case_bool_decide; [done|]. destruct (_ <? _); [done|]. by destruct fuel.
  - destruct (Pf_Test_step fuel keys base bit Hb Ha Hg Hgt) as (Es & Hb' & Ha' & Hg' & Hstep).
    apply Hstep, IH; [done|done|done|]. rewrite Es, length_app in Hf. unfold group in Hf. cbn in Hf. lia.
Qed.

(** *** Sizes *)

Lemma put_all_size ds :
  Forall is_u32 ds ->
  exists sp c, put_all ds ([], [], 0) = (sp, c, lor_all c) /\ zlen sp + 6 * zlen c <= 6 * zlen ds /\
    Forall is_u32 c /\ zlen ds <= zlen sp * 128 + zlen c.
Proof.
  induction ds as [|d ds IH] using rev_ind; intros Hu.
  { exists [], []. split; [done|]. split; [done|]. by split. }
  apply Forall_app in Hu as [Hu Hd]. destruct (IH Hu) as (sp & c & E & Hs & Hc & Hn).
  rewrite put_all_snoc, E, put_dta_pending, zlen_app. change (zlen [d]) with 1.
  assert (Hc' : Forall is_u32 (c ++ [d])) by (by apply Forall_app).
  pose proof (zlen_nonneg c).
  assert (Hz : zlen (c ++ [d]) = zlen c + 1) by (by rewrite zlen_app).
  destruct (Z.eqb_spec (zlen c + 1) 128).
  - pose proof (group_size (c ++ [d]) Hc' ltac:(lia)). do 2 eexists. split; [done|].
    rewrite zlen_app. change (zlen []) with 0. split; [lia|]. split; [done|]. lia.
  - do 2 eexists. split; [done|]. split; [lia|]. split; [done|]. lia.
Qed.

Lemma data_size ds : Forall is_u32 ds -> zlen (data ds) <= 6 * zlen ds /\ zlen (data' ds) <= 6 * zlen ds.
Proof.
  intros Hu. destruct (put_all_size ds Hu) as (sp & c & E & Hs & Hc & _). unfold data, data'. rewrite E. cbn.
  pose proof (zlen_nonneg c). split; [lia|]. unfold put_last. case_decide as Hn; [lia|].
  rewrite PfDtaEnc_group, zlen_app. pose proof (group_size c Hc). destruct c; [done|].
  rewrite zlen_cons in *. pose proof (zlen_nonneg c). lia.
Qed.

End Stream.
