(* ===== verification/FilterProps.v ===== *)
(** * Bitmap filters hold exactly the keys inserted

    The formats of [Filter] one by one, on the sorted keys that the buckets
    yield, then the filter as a whole ([bitmap_exact]), and what happens outside
    of its conditions. *)
From stdpp Require Import sorting.
From S2P Require Import Prelude Coding Gigaplus Filter FilterLemmas FilterPf.
From S2P Require Import XXHashImpl.

(** ** Formats with a lookup table *)

Section Fast.
Import Table.

(** The number of partitions for the declared number of keys. *)
Definition partitions (num_keys : Z) : nat :=
  Z.to_nat (let n := (num_keys + 1023) / 1024 in if n =? 0 then 1 else n).

Lemma partitions_room n : 0 <= n -> (0 < partitions n)%nat /\ n <= 1024 * Z.of_nat (partitions n) <= n + 1024.
Proof.
  intros Hn. unfold partitions. pose proof (Z.div_pos (n + 1023) 1024 ltac:(lia) ltac:(lia)).
  pose proof (Z.mod_pos_bound (n + 1023) 1024 ltac:(lia)). pose proof (Z.div_mod (n + 1023) 1024 ltac:(lia)).
  destruct (Z.eqb_spec ((n + 1023) / 1024) 0); lia.
Qed.

Lemma New_spec D n :
  0 <= n < 2 ^ 32 -> D [] = [] ->
  exists tbl, New n = (mkBuilder 0 0 0, table_bytes tbl ++ D (deltas 0 [])) /\
    Building D (partitions n) (mkBuilder 0 0 0) tbl [].
Proof.
  intros Hn HD. unfold New, partition_size_. destruct (partitions_room n ltac:(lia)) as [HP Hroom].
  assert (EP : (let p := (n + 1024 - 1) / 1024 in if p =? 0 then 1 else p) = Z.of_nat (partitions n)).
  { unfold partitions. replace (n + 1024 - 1) with (n + 1023) by lia. cbv zeta.
    pose proof (Z.div_pos (n + 1023) 1024). destruct (Z.eqb_spec ((n + 1023) / 1024) 0); lia. }
  cbv zeta in EP. rewrite EP. set (P := partitions n) in *.
  assert (ET : replicate (Z.to_nat (Z.of_nat P * 8)) 0 = table_bytes (replicate P (0, 0))).
  { replace (Z.to_nat (Z.of_nat P * 8)) with (P * 8)%nat by lia. clear. unfold table_bytes.
    induction P as [|P IH]; [done|]. cbn [Nat.mul Nat.add replicate fmap list_fmap concat]. rewrite <- IH. done. }
  assert (Ez : zlen (table_bytes (replicate P (0, 0))) = 8 * Z.of_nat P)
    by (unfold zlen; rewrite length_table, length_replicate; lia).
  rewrite ET, Ez, u32_small by (unfold in_width; lia).
  exists (<[0%nat := (0, 8 * Z.of_nat P)]> (replicate P (0, 0))). change (deltas 0 []) with (@nil Z).
  rewrite HD, app_nil_r. split.
  - f_equal. pose proof (put_offset (replicate P (0, 0)) 0 0 0 [] (8 * Z.of_nat P)) as Ep.
    rewrite !app_nil_r in Ep. apply Ep. by apply lookup_replicate_2.
  - split; cbn [partition_dta_prefix_ partition_num_keys_ partition_index_]; try done.
    + by rewrite length_insert, length_replicate.
    + by left.
    + intros p e Hpe Hp. assert (p = 0%nat) as -> by lia.
      rewrite list_lookup_insert_eq in Hpe by (by rewrite length_replicate). injection Hpe as <-.
      rewrite take_nil. change (deltas 0 []) with (@nil Z). rewrite HD. change (zlen (@nil Z)) with 0. cbn [snd]. lia.
    + lia.
    + intros p e Hpe _. apply list_lookup_insert_Some in Hpe as [(_ & <- & _)|[_ Hpe]]; [done|].
      by apply lookup_replicate_1 in Hpe as [-> _].
Qed.

Lemma ascending_snoc base keys k : ascending base (keys ++ [k]) -> ascending base keys.
Proof. intros Ha. apply (ascending_take _ _ (length keys)) in Ha. by rewrite take_app_length in Ha. Qed.

Lemma dta_snoc keys k :
  ascending 0 (keys ++ [k]) ->
  u32 (k - last_key 0 keys) = k - last_key 0 keys /\
  deltas 0 (keys ++ [k]) = deltas 0 keys ++ [k - last_key 0 keys].
Proof.
  intros Ha. rewrite deltas_app. split; [|done].
  destruct (last_key_bounds 0 (keys ++ [k]) (length keys) ltac:(lia) Ha) as (Hb & Hd & _).
  rewrite take_app_length, drop_app_length in *. apply ascending_cons in Hd as (E & _); [done|lia].
Qed.

(** Sizes of the data of the two formats. *)
Definition small (D : list Z -> bytes) : Prop :=
  forall keys, ascending 0 keys -> zlen (D (deltas 0 keys)) <= 6 * zlen keys.

(** Declared numbers of keys for which offsets fit 32 bits. *)
Definition max_keys : Z := 2 ^ 28.

Lemma room_of D n keys :
  small D -> ascending 0 keys -> zlen keys <= n <= max_keys -> room D (partitions n) keys.
Proof.
  intros Hs Ha Hn. specialize (Hs keys Ha). pose proof (zlen_nonneg keys). unfold max_keys in Hn.
  destruct (partitions_room n ltac:(lia)) as [_ ?]. split; lia.
Qed.

(** [FastVbPlusFormat] *)
Lemma FastVb_fold n keys :
  ascending 0 keys -> zlen keys <= n <= max_keys -> small (stream Vb.VbPlusEnc) ->
  exists t tbl, fold_left FastVb.step keys (New n, 0)
    = (t, table_bytes tbl ++ stream Vb.VbPlusEnc (deltas 0 keys), last_key 0 keys) /\
    Building (stream Vb.VbPlusEnc) (partitions n) t tbl keys.
Proof.
  intros Ha Hn Hs. unfold max_keys in *. induction keys as [|k keys IH] using rev_ind.
  { pose proof (zlen_nonneg (@nil Z)). destruct (New_spec (stream Vb.VbPlusEnc) n ltac:(lia) eq_refl) as (tbl & E & HB).
    rewrite E. by exists (mkBuilder 0 0 0), tbl. }
  rewrite zlen_app in Hn. change (zlen [k]) with 1 in Hn. pose proof (ascending_snoc _ _ _ Ha) as Ha'.
  destruct (IH Ha' ltac:(lia)) as (t & tbl & E & HB).
  destruct (dta_snoc keys k Ha) as [Ed Es]. rewrite fold_left_app, E. cbn [fold_left FastVb.step]. rewrite Ed.
  destruct (Add_spec _ _ t tbl keys k HB Ha) as (t' & tbl' & -> & HB').
  - apply room_of; [done|done|]. rewrite zlen_app. change (zlen [k]) with 1. unfold max_keys. lia.
  - apply (room_of _ n keys Hs Ha'). unfold max_keys. lia.
  - exists t', tbl'. split; [|done]. rewrite Es, last_key_snoc, <- app_assoc. do 3 f_equal.
    unfold stream. rewrite fmap_app, concat_app. cbn. by rewrite app_nil_r.
Qed.

Lemma stream_small : small (stream Vb.VbPlusEnc).
Proof.
  intros keys _. destruct (length_stream Vb.VbPlusEnc Vb.VbPlusDec (deltas 0 keys)) as [_ Hs].
  by rewrite zlen_deltas in Hs.
Qed.

Lemma FastVb_exact f keys bit :
  (forall A (step : A -> Z -> A) init,
    Compressed.for_keys f step init = Some (fold_left step keys init)) ->
  ascending 0 keys -> zlen keys <= num_keys_ f <= max_keys -> 0 <= bit ->
  exists out, FastVb.Finish f = Some out /\ FastVb.Test bit out = bool_decide (bit ∈ keys).
Proof.
  intros Hf Ha Hn Hb. unfold FastVb.Finish. rewrite Hf. pose proof (zlen_nonneg keys).
  destruct (FastVb_fold (num_keys_ f) keys Ha Hn stream_small) as (t & tbl & -> & HB).
  destruct (room_of _ _ _ stream_small Ha Hn) as [Hr Hsz].
  destruct (Finish_spec _ _ t tbl keys (stream Vb.VbPlusEnc (deltas 0 keys)) HB Hr) as (tbl' & -> & HT).
  eexists. split; [done|]. unfold FastVb.Test.
  pose proof (table_search (fun b => b) (fun bit base input => Vb.Test_loop Vb.VbPlusDec (length input) bit base input)
    (stream Vb.VbPlusEnc) (stream Vb.VbPlusEnc) (partitions (num_keys_ f)) (fun _ => True)) as HS.
  unfold max_keys in Hn. destruct (partitions_room (num_keys_ f) ltac:(lia)) as [HP _].
  eapply HS; clear HS; try done.
  - intros p a b _. unfold stream. by rewrite fmap_app, concat_app.
  - intros keys' base bit' Hb' Ha' _. apply Test_loop_spec; [apply _|done|done|].
    destruct (length_stream Vb.VbPlusEnc Vb.VbPlusDec (deltas base keys')) as [Hl _]. by rewrite length_deltas in Hl.
Qed.

(** [FastPfDeltaFormat] *)
Lemma data_small : small data /\ small data'.
Proof.
  split; intros keys Ha; rewrite <- (zlen_deltas 0 keys); apply data_size, deltas_u32; done.
Qed.

Lemma FastPf_fold n keys :
  ascending 0 keys -> zlen keys <= n <= max_keys ->
  exists t tbl c, fold_left FastPf.step keys ((New n).1, ((New n).2, [], 0), 0)
    = (t, (table_bytes tbl ++ data (deltas 0 keys), c, lor_all c), last_key 0 keys) /\
    put_all (deltas 0 keys) ([], [], 0) = (data (deltas 0 keys), c, lor_all c) /\
    Building data (partitions n) t tbl keys.
Proof.
  intros Ha Hn. destruct data_small as [Hs _]. unfold max_keys in *. induction keys as [|k keys IH] using rev_ind.
  { pose proof (zlen_nonneg (@nil Z)). destruct (New_spec data n ltac:(lia) eq_refl) as (tbl & E & HB).
    rewrite E. by exists (mkBuilder 0 0 0), tbl, []. }
  rewrite zlen_app in Hn. change (zlen [k]) with 1 in Hn. pose proof (ascending_snoc _ _ _ Ha) as Ha'.
  destruct (IH Ha' ltac:(lia)) as (t & tbl & c & E & Ep & HB).
  destruct (dta_snoc keys k Ha) as [Ed Es]. rewrite fold_left_app, E. cbn [fold_left FastPf.step]. rewrite Ed.
  destruct (Add_spec _ _ t tbl keys k HB Ha) as (t' & tbl' & -> & HB').
  - apply room_of; [done|done|]. rewrite zlen_app. change (zlen [k]) with 1. unfold max_keys. lia.
  - apply (room_of _ n keys Hs Ha'). unfold max_keys. lia.
  - pose proof (put_all_snoc (deltas 0 keys) (k - last_key 0 keys) ([], [], 0)) as Eq.
    rewrite Ep, put_dta_pending, <- Es in Eq. rewrite put_dta_pending, last_key_snoc.
    assert (Hdata : forall sp c', put_all (deltas 0 (keys ++ [k])) ([], [], 0) = (sp, c', lor_all c') ->
      sp = data (deltas 0 (keys ++ [k]))) by (intros sp c' Hp; unfold data; by rewrite Hp).
    exists t', tbl'. destruct (zlen c + 1 =? 128); pose proof (Hdata _ _ Eq) as Hd; eexists;
      (split; [|split; [by rewrite <- Hd|done]]); by rewrite <- Hd, ?app_assoc.
Qed.

Lemma put_last_frame pre sp c m : Pf.put_last (pre ++ sp, c, m) = pre ++ Pf.put_last (sp, c, m).
Proof. unfold Pf.put_last. case_decide; [done|]. by rewrite !PfDtaEnc_body, app_assoc. Qed.

Lemma Pf_Test_data keys base bit :
  0 <= base -> ascending base keys -> good (deltas base keys) ->
  Pf.Test_loop (length (data' (deltas base keys))) bit base (data' (deltas base keys))
  = Some (bool_decide (bit ∈ keys)).
Proof.
  intros Hb Ha Hg. destruct keys as [|k keys]; [by rewrite bool_decide_eq_false_2 by apply not_elem_of_nil|].
  apply Pf_Test_loop; [|done|done|done]. destruct Ha as [_ [? _]%Forall_cons]. lia.
Qed.

Lemma FastPf_exact f keys bit :
  (forall A (step : A -> Z -> A) init,
    Compressed.for_keys f step init = Some (fold_left step keys init)) ->
  ascending 0 keys -> zlen keys <= num_keys_ f <= max_keys -> 0 <= bit -> good (deltas 0 keys) ->
  exists out, FastPf.Finish f = Some out /\ FastPf.Test bit out = Some (bool_decide (bit ∈ keys)).
Proof.
  intros Hf Ha Hn Hb Hg. unfold FastPf.Finish. pose proof (zlen_nonneg keys). destruct data_small as [Hs Hs'].
  destruct (FastPf_fold (num_keys_ f) keys Ha Hn) as (t & tbl & c & E & Ep & HB).
  destruct (New (num_keys_ f)) as [t0 space0]. cbn [fst snd] in E. rewrite Hf, E.
  destruct (room_of _ _ _ Hs Ha Hn) as [Hr _]. destruct (room_of _ _ _ Hs' Ha Hn) as [_ Hsz].
  destruct (Finish_spec _ _ t tbl keys (data (deltas 0 keys)) HB Hr) as (tbl' & -> & HT).
  rewrite put_last_frame, <- Ep. fold (data' (deltas 0 keys)).
  eexists. split; [done|]. unfold FastPf.Test.
  pose proof (table_search Some (fun bit base input => Pf.Test_loop (length input) bit base input)
    data data' (partitions (num_keys_ f)) good) as HS.
  unfold max_keys in Hn. destruct (partitions_room (num_keys_ f) ltac:(lia)) as [HP _].
  pose proof part_eq. eapply HS; clear HS; try done.
  - intros p a b Hl. apply (data_split (8 * Z.of_nat p)). unfold zlen. lia.
  - intros p a b Hl. apply (good_split (8 * p)). lia.
  - intros keys' base bit' Hb' Ha' Hg'. by apply Pf_Test_data.
Qed.

End Fast.

(** ** Formats without a table *)

Section Plain.
Context (f : CompressedFormat) (keys : list Z).
Hypothesis Hf : forall A (step : A -> Z -> A) init,
  Compressed.for_keys f step init = Some (fold_left step keys init).
Hypothesis Ha : ascending 0 keys.

Lemma Vb_exact enc dec bit :
  DeltaCodec enc dec ->
  exists out, Vb.Finish enc f = Some out /\ Vb.Test dec bit out = bool_decide (bit ∈ keys).
Proof using Hf Ha.
  intros HC. unfold Vb.Finish. rewrite Hf. cbn. eexists. split; [done|].
  rewrite put_dta_spec by done. by apply Test_stream.
Qed.

Lemma Pf_fold ks l acc :
  0 <= l -> ascending l ks -> fold_left Pf.step ks (acc, l) = (put_all (deltas l ks) acc, last_key l ks).
Proof.
  clear Hf Ha keys. revert l acc. induction ks as [|k ks IH]; intros l acc Hl Ha; [done|].
  apply ascending_cons in Ha as (E & _ & _ & Hk & Ha); [|done]. cbn. rewrite E, IH by done.
  unfold last_key. rewrite last_cons. by destruct (last ks).
Qed.

Lemma Pf_exact bit :
  good (deltas 0 keys) ->
  exists out, Pf.Finish f = Some out /\ Pf.Test bit out = Some (bool_decide (bit ∈ keys)).
Proof using Hf Ha.
  intros Hg. unfold Pf.Finish. rewrite Hf, Pf_fold by done. eexists. split; [done|].
  apply (Pf_Test_data keys 0 bit); done.
Qed.

End Plain.

(** ** Buckets with headers *)

Section Roaring.
Import Roaring.

Definition low (k : Z) : Z := Z.land k 255.
Definition sizes (bs : list (list Z)) : list Z := (fun keys : list Z => u8 (zlen keys)) <$> bs.
Definition bodies (bs : list (list Z)) : bytes := concat ((fun keys : list Z => low <$> keys) <$> bs).

Lemma roaring_fold bs pre body index :
  4 + index = zlen pre ->
  fold_left step bs (pre ++ replicate (length bs) 0 ++ body, index)
  = (pre ++ sizes bs ++ body ++ bodies bs, index + zlen bs).
Proof.
  revert pre body index. induction bs as [|keys bs IH]; intros pre body index Hi.
  { cbn. unfold bodies. cbn. rewrite app_nil_r. f_equal. change (zlen (@nil (list Z))) with 0. lia. }
  cbn [fold_left length replicate app]. unfold step at 2.
  replace (Z.to_nat (4 + index)) with (length pre + 0)%nat by (unfold zlen in Hi; lia).
  rewrite insert_app_r. cbn [insert list_insert]. change ((fun k => Z.land k 255) <$> keys) with (low <$> keys).
  replace ((pre ++ u8 (zlen keys) :: replicate (length bs) 0 ++ body) ++ (low <$> keys))
    with ((pre ++ [u8 (zlen keys)]) ++ replicate (length bs) 0 ++ (body ++ (low <$> keys)))
    by (rewrite <- !app_assoc; cbn [app]; by rewrite <- !app_assoc).
  rewrite IH by (rewrite zlen_app; change (zlen [u8 (zlen keys)]) with 1; lia).
  unfold sizes, bodies. cbn. rewrite zlen_cons, <- !app_assoc. f_equal. lia.
Qed.

Definition sum (l : list Z) : Z := foldr Z.add 0 l.

Lemma bounds_spec hs x pre rest n s e a :
  a = zlen pre -> a + zlen hs < n ->
  bounds (pre ++ hs ++ x :: rest) n (seqZ a (zlen hs + 1)) s e = Some (e + sum hs, e + sum hs + x).
Proof.
  revert pre s e a. induction hs as [|h hs IH]; intros pre s e a -> Hn.
  - change (zlen (@nil Z)) with 0 in *. rewrite seqZ_cons by lia. cbn [bounds app].
    destruct (Z.ltb_spec (zlen pre) n); [|lia]. rewrite seqZ_nil by lia. cbn [bounds sum foldr].
    unfold byte_at, zlen. rewrite Nat2Z.id, app_nth2, Nat.sub_diag by lia. cbn [nth]. do 2 f_equal; lia.
  - rewrite zlen_cons in *. pose proof (zlen_nonneg hs). rewrite seqZ_cons by lia. cbn [bounds].
    destruct (Z.ltb_spec (zlen pre) n); [|lia].
    assert (Eh : byte_at (pre ++ (h :: hs) ++ x :: rest) (zlen pre) = h).
    { unfold byte_at, zlen. rewrite Nat2Z.id, app_nth2, Nat.sub_diag by lia. done. }
    rewrite Eh. replace (pre ++ (h :: hs) ++ x :: rest) with ((pre ++ [h]) ++ hs ++ x :: rest) by (by rewrite <- app_assoc).
    replace (Z.pred (1 + zlen hs + 1)) with (zlen hs + 1) by lia.
    rewrite IH; [|rewrite zlen_app; change (zlen [h]) with 1; lia|lia]. unfold sum. cbn [foldr]. do 2 f_equal; lia.
Qed.

Lemma search_sorted x target pre post a :
  a = zlen pre -> StronglySorted Z.le x ->
  search (pre ++ x ++ post) target (seqZ a (zlen x)) = bool_decide (target ∈ x).
Proof.
  revert pre a. induction x as [|y x IH]; intros pre a -> Hs.
  { rewrite seqZ_nil by done. by rewrite bool_decide_eq_false_2 by apply not_elem_of_nil. }
  apply StronglySorted_inv in Hs as [Hs Hy]. rewrite zlen_cons. pose proof (zlen_nonneg x).
  rewrite seqZ_cons by lia. cbn [search].
  assert (Ey : byte_at (pre ++ (y :: x) ++ post) (zlen pre) = y).
  { unfold byte_at, zlen. rewrite Nat2Z.id, app_nth2, Nat.sub_diag by lia. done. }
  rewrite Ey. destruct (Z.ltb_spec target y).
  { rewrite bool_decide_eq_false_2; [done|]. intros [->|Hin]%elem_of_cons; [lia|].
    rewrite Forall_forall in Hy. specialize (Hy _ Hin). lia. }
  destruct (Z.eqb_spec y target) as [->|]; [by rewrite bool_decide_eq_true_2 by (by left)|].
  replace (pre ++ (y :: x) ++ post) with ((pre ++ [y]) ++ x ++ post) by (by rewrite <- app_assoc).
  replace (Z.pred (1 + zlen x)) with (zlen x) by lia.
  rewrite IH; [|rewrite zlen_app; change (zlen [y]) with 1; lia|done].
  apply bool_decide_ext. rewrite elem_of_cons. naive_solver.
Qed.

Lemma zlen_bodies bs : Forall (fun keys : list Z => zlen keys < 256) bs -> zlen (bodies bs) = sum (sizes bs).
Proof.
  unfold bodies, sizes. induction 1 as [|keys bs Hk Hbs IH]; cbn; [done|].
  rewrite zlen_app, IH. pose proof (zlen_nonneg keys). rewrite u8_small by (unfold in_width; lia).
  unfold zlen. by rewrite length_fmap.
Qed.

(** The search in a bitmap of these buckets, in the bucket [cur]. *)
Lemma roaring_test pre cur post bit n :
  let bs := pre ++ cur :: post in
  zlen bs = n -> is_u32 n -> Z.shiftr bit 8 = zlen pre ->
  Forall (fun keys : list Z => zlen keys < 256) bs -> StronglySorted Z.le (low <$> cur) ->
  Test bit (EncodeFixed32 n ++ sizes bs ++ bodies bs) = bool_decide (low bit ∈ low <$> cur).
Proof.
  intros bs Hn Hu Hb Hsz Hs. unfold Test.
  assert (Hl : forall l, zlen (EncodeFixed32 n ++ l) = 4 + zlen l).
  { intros l. rewrite zlen_app. unfold zlen at 1. by rewrite length_fixed32. }
  rewrite Hl. pose proof (zlen_nonneg (sizes bs ++ bodies bs)).
  destruct (Z.ltb_spec (4 + zlen (sizes bs ++ bodies bs)) 4); [lia|]. rewrite DecodeFixed32_encode by done.
  change 4%nat with (length (EncodeFixed32 n)). rewrite drop_app_length.
  assert (Hsizes : zlen (sizes bs) = n) by (unfold sizes, zlen; rewrite length_fmap; exact Hn).
  pose proof (zlen_nonneg (bodies bs)).
  destruct (Z.ltb_spec (zlen (sizes bs ++ bodies bs)) n) as [Hx|_]; [rewrite zlen_app in Hx; lia|].
  assert (Es : sizes bs = sizes pre ++ u8 (zlen cur) :: sizes post)
    by (unfold sizes, bs; by rewrite fmap_app).
  assert (Eb : bodies bs = bodies pre ++ (low <$> cur) ++ bodies post)
    by (unfold bodies, bs; by rewrite fmap_app, concat_app).
  assert (Hpre : zlen (sizes pre) = zlen pre) by (unfold sizes, zlen; by rewrite length_fmap).
  apply Forall_app in Hsz as [Hp [Hc Hq]%Forall_cons].
  pose proof (bounds_spec (sizes pre) (u8 (zlen cur)) [] (sizes post ++ bodies bs) n 0 0 0 eq_refl) as EB.
  rewrite Hpre in EB. cbn [app] in EB.
  assert (Hlt : zlen pre < n) by (rewrite <- Hn; unfold bs; rewrite zlen_app, zlen_cons; pose proof (zlen_nonneg post); lia).
  rewrite Hb. rewrite Es at 1. rewrite <- app_assoc. cbn [app]. rewrite EB by lia.
  replace (Z.to_nat n) with (length (sizes bs)) by (unfold zlen in Hsizes; lia). rewrite drop_app_length.
  pose proof (zlen_nonneg cur). rewrite (u8_small (zlen cur)) by (unfold in_width; lia).
  rewrite !Z.add_0_l, <- zlen_bodies by done.
  assert (Elow : zlen (low <$> cur) = zlen cur) by (unfold zlen; by rewrite length_fmap).
  pose proof (zlen_nonneg (bodies post)).
  destruct (Z.leb_spec (zlen (bodies pre) + zlen cur) (zlen (bodies bs))) as [_|Hx].
  - replace (zlen (bodies pre) + zlen cur - zlen (bodies pre)) with (zlen (low <$> cur)) by lia.
    rewrite Eb. by apply search_sorted.
  - rewrite Eb, !zlen_app, Elow in Hx. lia.
Qed.

Lemma low_key j k : Z.shiftr k 8 = j -> k = low k + Z.shiftl j 8.
Proof. intros. symmetry. by apply split_key. Qed.

Lemma StronglySorted_low j x :
  StronglySorted Z.le x -> Forall (fun k => Z.shiftr k 8 = j) x -> StronglySorted Z.le (low <$> x).
Proof.
  induction 1 as [|k x Hx IH Hk]; intros Hj; [constructor|]. apply Forall_cons in Hj as [Ek Hj].
  cbn. constructor; [by apply IH|]. apply Forall_fmap, Forall_forall. intros y Hy. cbn.
  rewrite Forall_forall in Hk, Hj. specialize (Hk y Hy). specialize (Hj y Hy).
  pose proof (low_key j k Ek). pose proof (low_key j y Hj). lia.
Qed.

Lemma Roaring_exact f l bit :
  BucketsOk f l -> Forall (fun k => 0 <= Z.shiftr k 8 < num_buckets_ f) l -> is_u32 (num_buckets_ f) ->
  (forall j, zlen (bucket j l) < 256) -> 0 <= Z.shiftr bit 8 < num_buckets_ f ->
  exists out, Finish f = Some out /\ Test bit out = bool_decide (bit ∈ l).
Proof.
  intros Hok Hl Hn Hc Hb. destruct (buckets_sorted f l Hok (proj1 Hn) Hl) as (bs & E & Ebs & _).
  unfold Finish. rewrite E. set (n := num_buckets_ f) in *. set (j := Z.shiftr bit 8) in *.
  assert (Hbl : length bs = Z.to_nat n) by (rewrite Ebs, length_fmap, length_seqZ; done).
  rewrite <- Hbl. pose proof (roaring_fold bs (EncodeFixed32 n) [] 0) as EF. rewrite app_nil_r in EF.
  rewrite EF by (unfold zlen; by rewrite length_fixed32). cbn [fst app].
  eexists. split; [done|]. set (B := fun i => sort (bucket i l)) in *.
  assert (Hs : bs = (B <$> seqZ 0 j) ++ B j :: (B <$> seqZ (j + 1) (n - j - 1))).
  { rewrite Ebs. replace n with (j + (1 + (n - j - 1))) at 1 by lia. rewrite seqZ_app, Z.add_0_l, fmap_app by lia.
    f_equal. rewrite seqZ_cons by lia. cbn. do 2 f_equal. f_equal; lia. }
  assert (Hsz : Forall (fun keys : list Z => zlen keys < 256) bs).
  { rewrite Ebs. apply Forall_fmap, Forall_forall. intros i _. unfold B. cbn. unfold zlen.
    rewrite sort_Permutation. apply Hc. }
  assert (Hj : Forall (fun k => Z.shiftr k 8 = j) (B j)).
  { apply Forall_forall. intros k. unfold B. rewrite sort_Permutation. unfold bucket.
    by intros [? _]%list_elem_of_filter. }
  rewrite Hs in Hsz |- *. rewrite roaring_test; [| |done| |done|].
  - apply bool_decide_ext. rewrite list_elem_of_fmap. transitivity (bit ∈ B j).
    + split; [|intros; by exists bit]. intros (k & Hk & Hin). rewrite Forall_forall in Hj.
      rewrite (low_key j bit eq_refl), Hk, <- (low_key j k (Hj _ Hin)). done.
    + unfold B. rewrite sort_Permutation. unfold bucket. rewrite list_elem_of_filter. naive_solver.
  - rewrite <- Hs. unfold zlen. rewrite Hbl. apply Z2Nat.id. apply Hn.
  - fold j. unfold zlen. rewrite length_fmap, length_seqZ. lia.
  - apply (StronglySorted_low j); [apply sort_sorted|done].
Qed.

End Roaring.

(** ** Bitmap filters *)

Section Bitmap.
Import Bitmap.

(** No cohort of distinct keys is all zeros, unless 0 is the only key. *)
Lemma deltas_pos base keys :
  ascending base keys -> NoDup (base :: keys) -> Forall (fun d => 0 < d) (deltas base keys).
Proof.
  revert base. induction keys as [|k keys IH]; intros base Ha Hd; cbn; [constructor|].
  apply NoDup_cons in Hd as [Hn Hd]. destruct Ha as [Hs Hf]. pose proof Hf as [Hk _]%Forall_cons.
  apply StronglySorted_inv in Hs as [Hs Hx]. constructor.
  - destruct (Z.eq_dec base k) as [->|]; [|lia]. destruct Hn. by left.
  - apply IH; [|done]. split; [done|]. apply Forall_forall. intros x Hin.
    rewrite Forall_forall in Hx, Hf. specialize (Hx x Hin). specialize (Hf x ltac:(by right)). lia.
Qed.

Lemma lor_all_pos c d : d ∈ c -> d <> 0 -> lor_all c <> 0.
Proof.
  intros Hin Hd E. apply Hd, Z.bits_inj'. intros i Hi. rewrite Z.bits_0.
  destruct (Z.testbit d i) eqn:Hb; [|done].
  assert (Z.testbit (lor_all c) i = true) as Ht by (apply lor_all_bits; by exists d).
  by rewrite E, Z.bits_0 in Ht.
Qed.

Lemma good_distinct keys : ascending 0 keys -> NoDup keys -> keys <> [0] -> good (deltas 0 keys).
Proof.
  intros Ha Hd Hz k Hk. destruct keys as [|x keys]; [cbn in Hk; lia|].
  apply ascending_cons in Ha as (_ & _ & _ & Hx & Ha); [|lia]. cbn [deltas] in *. rewrite Z.sub_0_r.
  pose proof (deltas_pos x keys Ha Hd) as Hp.
  assert (Hin : exists d, d ∈ take 128 (drop (128 * k) (x :: deltas x keys)) /\ d <> 0).
  { destruct k as [|k].
    - rewrite Nat.mul_0_r, drop_0. destruct keys as [|y keys].
      + exists x. split; [by left|]. congruence.
      + exists (y - x). split; [right; by left|]. apply Forall_cons in Hp as [? _]. lia.
    - replace (128 * S k)%nat with (S (127 + 128 * k)) in * by lia. cbn [drop length] in *.
      destruct (drop (127 + 128 * k) (deltas x keys)) as [|d ds] eqn:E.
      + apply (f_equal length) in E. rewrite length_drop in E. cbn in E. lia.
      + exists d. split; [by left|]. assert (d ∈ deltas x keys) as Hin.
        { rewrite <- (take_drop (127 + 128 * k) (deltas x keys)), E. apply elem_of_app. right. by left. }
        rewrite Forall_forall in Hp. specialize (Hp _ Hin). lia. }
  destruct Hin as (d & Hin & Hnz). by eapply lor_all_pos.
Qed.

(** *** Keys as numbers *)

Lemma decode_range x : bytes_ok x -> in_width (8 * zlen x) (Fixed.decode x).
Proof.
  induction 1 as [|b x Hb Hx IH]; [by cbv|]. cbn [Fixed.decode]. rewrite zlen_cons.
  pose proof (zlen_nonneg x). replace (8 * (1 + zlen x)) with (8 * zlen x + 8) by lia.
  apply lor_in_width; [lia| |].
  - apply (in_width_mono 8); [lia|done].
  - apply shiftl_in_width; [lia|done].
Qed.

Lemma BitmapIndex_range key : bytes_ok key -> is_u32 (BitmapIndex key).
Proof.
  intros Hk. unfold BitmapIndex, DecodeFixed32.
  set (x := take 4 key ++ replicate (4 - length key) 0).
  apply (in_width_mono (8 * zlen (take 4 x))).
  { unfold zlen. rewrite length_take. lia. }
  apply decode_range, Forall_take, Forall_app. split; [by apply Forall_take|].
  apply Forall_replicate. by cbv.
Qed.

(** The bit of a key. *)
Definition index (key_bits : Z) (key : bytes) : Z := BitmapIndex key mod 2 ^ key_bits.

Lemma mask_index kb fmt key : 0 <= kb < 32 ->
  Z.land (BitmapIndex key) (mask_ (BitmapBlock_new kb fmt)) = index kb key.
Proof.
  intros Hk. cbn [mask_ BitmapBlock_new]. unfold index.
  assert (E : Z.land (Z.lnot (u32 (Z.shiftl (2 ^ 32 - 1) kb))) (2 ^ 32 - 1) = Z.ones kb).
  { apply Z.bits_inj'. intros i Hi. change (2 ^ 32 - 1) with (Z.ones 32). unfold u32.
    rewrite Z.land_spec, Z.lnot_spec, testbit_mod, Z.shiftl_spec by lia.
    rewrite !Z.testbit_ones by lia. cmp_cases; lia || done. }
  rewrite E, Z.land_ones by lia. done.
Qed.

(** *** Uncompressed *)

Lemma plain_sets l kb sp :
  (forall i, i ∈ l -> 0 <= i < 2 ^ kb) -> 2 ^ kb <= zlen sp * 8 ->
  forall i, 0 <= i ->
  rawbit (fold_left set_bit l sp) i = bool_decide (i ∈ l) || rawbit sp i.
Proof.
  revert sp. induction l as [|x l IH]; intros sp Hl Hs i Hi; cbn.
  { by rewrite bool_decide_eq_false_2 by apply not_elem_of_nil. }
  pose proof (Hl x ltac:(by left)). rewrite IH; [|intros; apply Hl; by right|by rewrite zlen_set_bit|done].
  rewrite rawbit_set_bit by lia. rewrite orb_assoc. f_equal.
  destruct (Z.eqb_spec i x) as [->|].
  - rewrite orb_true_r. symmetry. apply bool_decide_eq_true_2. by left.
  - rewrite orb_false_r. apply bool_decide_ext. rewrite elem_of_cons. naive_solver.
Qed.

Lemma zlen_sets l sp : zlen (fold_left set_bit l sp) = zlen sp.
Proof. revert sp. induction l as [|x l IH]; intros sp; cbn; [done|]. by rewrite IH, zlen_set_bit. Qed.

Lemma plain_test kb l bit :
  0 <= kb -> (forall i, i ∈ l -> 0 <= i < 2 ^ kb) -> 0 <= bit < 2 ^ kb ->
  Uncompressed.Test bit (fold_left set_bit l (Uncompressed.Reset kb)) = bool_decide (bit ∈ l).
Proof.
  intros Hk Hl Hb. unfold Uncompressed.Test.
  assert (Hz : 2 ^ kb <= zlen (Uncompressed.Reset kb) * 8).
  { unfold Uncompressed.Reset, zlen. rewrite length_replicate, Z.shiftl_1_l.
    pose proof (Z.mod_pos_bound (2 ^ kb + 7) 8 ltac:(lia)). pose proof (Z.div_mod (2 ^ kb + 7) 8 ltac:(lia)).
    pose proof (Z.pow_pos_nonneg 2 kb ltac:(lia) Hk). pose proof (Z.div_pos (2 ^ kb + 7) 8). lia. }
  rewrite zlen_sets. destruct (Z.ltb_spec bit (zlen (Uncompressed.Reset kb) * 8)); [|lia].
  rewrite test_bit_rawbit, (plain_sets l kb) by (done || lia).
  assert (E : rawbit (Uncompressed.Reset kb) bit = false).
  { unfold rawbit, Uncompressed.Reset. by rewrite byte_at_zeros, Z.bits_0. }
  by rewrite E, orb_false_r.
Qed.

(** *** Insertions *)

Section Insert.
Context (kb : Z) (fmt : BitmapFormat).
Hypothesis Hkb : 8 <= kb < 32.

Let mask := mask_ (BitmapBlock_new kb fmt).

Lemma index_range key : 0 <= index kb key < 2 ^ kb.
Proof. apply Z.mod_pos_bound, Z.pow_pos_nonneg; lia. Qed.

Lemma add_plain keys sp :
  add_all AddKey (mkBitmap kb fmt false mask (Plain sp)) keys
  = Some (mkBitmap kb fmt false mask (Plain (fold_left set_bit (index kb <$> keys) sp))).
Proof.
  revert sp. induction keys as [|k keys IH]; intros sp; [done|]. cbn [add_all].
  unfold AddKey at 1. cbn [finished_ fmt_ mask_ bm_key_bits bm_fmt]. unfold mask. rewrite mask_index by lia. fold mask.
  unfold Uncompressed.Set_. rewrite Z.shiftl_1_l. pose proof (index_range k).
  destruct (Z.ltb_spec (index kb k) (2 ^ kb)); [|lia]. cbn [fmap option_fmap option_map]. apply IH.
Qed.

Lemma add_buckets keys f :
  add_all AddKey (mkBitmap kb fmt false mask (Buckets f)) keys
  = Some (mkBitmap kb fmt false mask (Buckets (fold_left Compressed.Set_ (index kb <$> keys) f))).
Proof.
  revert f. induction keys as [|k keys IH]; intros f; [done|]. cbn [add_all].
  unfold AddKey at 1. cbn [finished_ fmt_ mask_ bm_key_bits bm_fmt]. unfold mask. rewrite mask_index by lia. fold mask.
  apply IH.
Qed.

Lemma index_bucket key : 0 <= Z.shiftr (index kb key) 8 < 2 ^ (kb - 8).
Proof. apply (shiftr_in_width kb (index kb key) 8); [lia..|apply index_range]. Qed.

End Insert.

(** No bucket of 256 keys receives 256 insertions. *)
Definition roomy (l : list Z) : Prop := forall j, zlen (bucket j l) < 256.

Lemma Set_params f k :
  num_buckets_ (Compressed.Set_ f k) = num_buckets_ f /\ num_keys_ (Compressed.Set_ f k) = num_keys_ f.
Proof. unfold Compressed.Set_. by destruct (_ <? _). Qed.

Lemma sets_buckets idxs f l :
  BucketsOk f l -> roomy (l ++ idxs) -> Forall (fun k => 0 <= Z.shiftr k 8 < num_buckets_ f) idxs ->
  let f' := fold_left Compressed.Set_ idxs f in
  BucketsOk f' (l ++ idxs) /\ num_buckets_ f' = num_buckets_ f /\ num_keys_ f' = num_keys_ f.
Proof.
  revert f l. induction idxs as [|k idxs IH]; intros f l Hok Hr Hf; cbn; [by rewrite app_nil_r|].
  apply Forall_cons in Hf as [Hk Hf]. destruct (Set_params f k) as [E1 E2].
  rewrite (app_assoc l [k] idxs : l ++ k :: idxs = _) in *.
  destruct (IH (Compressed.Set_ f k) (l ++ [k])) as (H1 & H2 & H3); [|done|by rewrite E1|].
  - apply Set_buckets; [done|done|]. specialize (Hr (Z.shiftr k 8)).
    rewrite bucket_app, zlen_app, zlen_bucket_snoc, Z.eqb_refl in Hr.
    pose proof (zlen_nonneg (bucket (Z.shiftr k 8) idxs)). lia.
  - by rewrite H2, H3.
Qed.

(** The format can hold these keys. *)
Definition supported (fmt : BitmapFormat) (l : list Z) : Prop :=
  match fmt with
  | kFmtUncompressed => True
  | kFmtFastPfDelta | kFmtPfDelta => roomy l /\ NoDup l /\ l <> [0]
  | _ => roomy l
  end.

Lemma for_keys_of f l :
  BucketsOk f l -> 0 <= num_buckets_ f -> Forall (fun k => 0 <= Z.shiftr k 8 < num_buckets_ f) l ->
  forall A (step : A -> Z -> A) init, Compressed.for_keys f step init = Some (fold_left step (sort l) init).
Proof. intros. by apply for_keys_sorted. Qed.

Lemma sort_good l :
  Forall is_u32 l -> NoDup l -> l <> [0] -> good (deltas 0 (sort l)).
Proof.
  intros Hu Hd Hz. apply good_distinct; [by apply sort_ascending|by rewrite sort_Permutation|].
  intros E. apply Hz. apply Permutation_singleton_r. rewrite <- E. symmetry. apply sort_Permutation.
Qed.

(** Every compressed format. *)
Lemma compressed_exact kb fmt m f l bit :
  fmt <> kFmtUncompressed -> supported fmt l -> roomy l -> BucketsOk f l ->
  is_u32 (num_buckets_ f) -> Forall (fun k => 0 <= Z.shiftr k 8 < num_buckets_ f) l ->
  Forall is_u32 l -> zlen l <= num_keys_ f <= max_keys -> 0 <= bit -> 0 <= Z.shiftr bit 8 < num_buckets_ f ->
  exists rep, Finish_fmt (mkBitmap kb fmt false m (Buckets f)) = Some rep /\
    BitmapTestKey (format_code fmt) bit rep = Some (bool_decide (bit ∈ l)).
Proof.
  intros Hf Hs Hr Hok Hn Hb Hu Hk H0 Hbit.
  pose proof (for_keys_of f l Hok (proj1 Hn) Hb) as HF. pose proof (sort_ascending l Hu) as Ha.
  assert (Hz : zlen (sort l) = zlen l) by (unfold zlen; by rewrite sort_Permutation).
  assert (Hin : bool_decide (bit ∈ sort l) = bool_decide (bit ∈ l)).
  { apply bool_decide_ext. by rewrite sort_Permutation. }
  rewrite <- Hin. unfold Finish_fmt. cbn [fmt_ bm_fmt]. destruct fmt; [done|..]; cbn [supported] in Hs.
  - destruct (Roaring_exact f l bit Hok Hb Hn Hr Hbit) as (out & E & Ht). exists out. split; [done|].
    cbn. by rewrite Hin, Ht.
  - destruct (FastVb_exact f (sort l) bit HF Ha ltac:(lia) H0) as (out & E & Ht). exists out.
    split; [done|]. cbn. by rewrite Ht.
  - destruct (Vb_exact f (sort l) HF Ha Vb.VbPlusEnc Vb.VbPlusDec bit _) as (out & E & Ht). exists out.
    split; [done|]. cbn. by rewrite Ht.
  - destruct (Vb_exact f (sort l) HF Ha Vb.VbEnc Vb.VbDec bit _) as (out & E & Ht). exists out.
    split; [done|]. cbn. by rewrite Ht.
  - destruct Hs as (_ & Hd & Hne).
    destruct (FastPf_exact f (sort l) bit HF Ha ltac:(lia) H0) as (out & E & Ht); [by apply sort_good|].
    exists out. split; [done|]. cbn. by rewrite Ht.
  - destruct Hs as (_ & Hd & Hne).
    destruct (Pf_exact f (sort l) HF Ha bit) as (out & E & Ht); [by apply sort_good|].
    exists out. split; [done|]. cbn. by rewrite Ht.
Qed.

(** What [BitmapKeyMustMatch] reads from the two last bytes. *)
Lemma MustMatch_fields key rep kb fmt :
  0 <= kb < 32 ->
  BitmapKeyMustMatch key (rep ++ [u8 kb; format_code fmt])
  = if 2 ^ kb <=? BitmapIndex key then Some false
    else BitmapTestKey (format_code fmt) (BitmapIndex key) rep.
Proof.
  intros Hk. unfold BitmapKeyMustMatch. set (tl := [u8 kb; format_code fmt]).
  assert (Hl : zlen (rep ++ tl) = zlen rep + 2) by (by rewrite zlen_app).
  assert (Hn : length (rep ++ tl) = (length rep + 2)%nat) by (by rewrite length_app).
  rewrite Hl, Hn. pose proof (zlen_nonneg rep). destruct (Z.ltb_spec (zlen rep + 2) 2); [lia|].
  assert (E1 : byte_at (rep ++ tl) (zlen rep + 2 - 2) = u8 kb).
  { unfold byte_at. replace (Z.to_nat _) with (length rep) by (unfold zlen; lia).
    by rewrite app_nth2, Nat.sub_diag by lia. }
  assert (E2 : byte_at (rep ++ tl) (zlen rep + 2 - 1) = format_code fmt).
  { unfold byte_at. replace (Z.to_nat _) with (length rep + 1)%nat by (unfold zlen; lia).
    rewrite app_nth2 by lia. by replace (length rep + 1 - length rep)%nat with 1%nat by lia. }
  rewrite E1, E2. replace (length rep + 2 - 2)%nat with (length rep) by lia. rewrite take_app_length.
  rewrite u8_small, Z.shiftl_1_l, u32_small; [done| |unfold in_width; lia].
  split; [apply Z.pow_nonneg; lia|apply Z.pow_lt_mono_r; lia].
Qed.

(** The representation of any keys the format supports, tested at any index. *)
Lemma bitmap_rep kb fmt n keys :
  8 <= kb < 32 -> zlen keys <= n <= max_keys -> supported fmt (index kb <$> keys) ->
  exists b, add_all AddKey (Reset (BitmapBlock_new kb fmt) n) keys = Some b /\
    bm_key_bits b = kb /\ bm_fmt b = fmt /\
    forall bit, 0 <= bit < 2 ^ kb -> exists rep, Finish_fmt b = Some rep /\
      BitmapTestKey (format_code fmt) bit rep = Some (bool_decide (bit ∈ index kb <$> keys)).
Proof.
  intros Hkb Hn Hs. set (l := index kb <$> keys) in *.
  assert (Hl : forall i, i ∈ l -> 0 <= i < 2 ^ kb).
  { intros i (k & -> & _)%list_elem_of_fmap. by apply index_range. }
  pose proof (zlen_nonneg keys). unfold max_keys in Hn.
  destruct (decide (fmt = kFmtUncompressed)) as [->|Hf].
  - unfold Reset. cbn [fmt_ BitmapBlock_new bm_key_bits bm_fmt mask_].
    pose proof (add_plain kb kFmtUncompressed Hkb keys (Uncompressed.Reset kb)) as E. cbn [mask_ BitmapBlock_new] in E.
    rewrite E. eexists. split_and!; [done..|]. intros bit Hb. eexists. split; [done|].
    fold l. cbn [BitmapTestKey format_code]. cbn. f_equal. apply plain_test; [lia|done|done].
  - assert (E0 : Reset (BitmapBlock_new kb fmt) n
      = mkBitmap kb fmt false (mask_ (BitmapBlock_new kb fmt)) (Buckets (Compressed.Reset (Compressed.New kb) n)))
      by (by destruct fmt).
    rewrite E0, add_buckets by done. eexists. split_and!; [done..|]. intros bit Hb. fold l.
    assert (Hnb : num_buckets_ (Compressed.Reset (Compressed.New kb) n) = 2 ^ (kb - 8))
      by (cbn; by rewrite Z.shiftl_1_l).
    assert (Hp : 0 < 2 ^ (kb - 8) < 2 ^ 32)
      by (split; [apply Z.pow_pos_nonneg; lia|apply Z.pow_lt_mono_r; lia]).
    assert (Hr : roomy l) by (destruct fmt; cbn in Hs; [done|..]; tauto).
    assert (Hb0 : Forall (fun k => 0 <= Z.shiftr k 8 < num_buckets_ (Compressed.Reset (Compressed.New kb) n)) l).
    { rewrite Hnb. apply Forall_fmap, Forall_forall. intros k _. by apply index_bucket. }
    destruct (sets_buckets l (Compressed.Reset (Compressed.New kb) n) []) as (Hok & E1 & E2);
      [apply Reset_buckets; cbn; rewrite ?Z.shiftl_1_l; lia|done|done|].
    cbn [app] in Hok. rewrite <- E1 in Hb0.
    apply compressed_exact; try done; rewrite ?E1, ?E2, ?Hnb; [unfold in_width; lia| | |lia|].
    + apply Forall_forall. intros i Hi. specialize (Hl i Hi). split; [lia|].
      apply Z.lt_trans with (2 ^ kb); [lia|]. apply Z.pow_lt_mono_r; lia.
    + cbn. unfold max_keys, l, zlen in *. rewrite length_fmap. lia.
    + apply (shiftr_in_width kb bit 8); [lia|lia|done].
Qed.

(** C25. A bitmap filter, in any of the seven formats, holds exactly the keys
    inserted: with a domain of 8 to 31 bits and at most the declared number of
    keys (at most 2^28), inserting them and finishing the filter succeeds, and
    then a key matches if and only if its first four bytes are in the domain and
    are those of an inserted key reduced to the domain.  The compressed formats
    need fewer than 256 insertions into each bucket of 256 keys, and the
    p-for-delta formats distinct keys other than 0 alone. *)
Theorem bitmap_exact kb fmt n keys :
  8 <= kb < 32 -> zlen keys <= n <= max_keys -> supported fmt (index kb <$> keys) ->
  exists b out b',
    add_all AddKey (Reset (BitmapBlock_new kb fmt) n) keys = Some b /\ Finish b = Some (out, b') /\
    forall key, bytes_ok key ->
      BitmapKeyMustMatch key out
      = Some (bool_decide (BitmapIndex key < 2 ^ kb /\ BitmapIndex key ∈ index kb <$> keys)).
Proof.
  intros Hkb Hn Hs. destruct (bitmap_rep kb fmt n keys Hkb Hn Hs) as (b & E & Ek & Ef & Ht).
  destruct (Ht 0) as (rep & Er & _); [split; [done|apply Z.pow_pos_nonneg; lia]|].
  exists b, (rep ++ [u8 kb; format_code fmt]). eexists. split; [done|]. unfold Finish. rewrite Er, Ek, Ef. split; [done|].
  intros key Hok. rewrite MustMatch_fields by lia. pose proof (BitmapIndex_range key Hok) as [Hi _].
  destruct (Z.leb_spec (2 ^ kb) (BitmapIndex key)).
  - rewrite bool_decide_eq_false_2 by lia. done.
  - destruct (Ht (BitmapIndex key) ltac:(lia)) as (rep' & Er' & Et). rewrite Er in Er'. injection Er' as <-. rewrite Et. f_equal.
    apply bool_decide_ext. naive_solver.
Qed.

End Bitmap.

(** ** Examples *)

Module FilterDemo.
Import Bitmap.
#[local] Existing Instance XXHashImpl.pdlfs_xxhash.

Definition keys : list bytes := EncodeFixed32 <$> [5; 3; 900; 255; 256; 901].

(** Whether the keys [ps] match the filter of [ks]. *)
Definition run (fmt : BitmapFormat) (kb : Z) (ks ps : list Z) : option (list (option bool)) :=
  let? b := add_all AddKey (Reset (BitmapBlock_new kb fmt) (zlen ks)) (EncodeFixed32 <$> ks) in
  let? (out, _) := Finish b in
  Some ((fun p => BitmapKeyMustMatch (EncodeFixed32 p) out) <$> ps).

Definition formats : list BitmapFormat :=
  [kFmtUncompressed; kFmtRoaring; kFmtFastVarintPlus; kFmtVarintPlus; kFmtVarint; kFmtFastPfDelta;
   kFmtPfDelta].

Lemma run_formats :
  (fun fmt => run fmt 10 [5; 3; 900; 255; 256; 901] [3; 5; 900; 901; 1023; 0; 257]) <$> formats
  = replicate 7 (Some [Some true; Some true; Some true; Some true; Some false; Some false; Some false]).
Proof. by vm_compute. Qed.

(** A bucket whose 256 keys are all inserted is lost: its one-byte count wraps
    around to 0. *)
Lemma full_bucket_lost :
  (fun fmt => run fmt 8 (seqZ 0 256) [0; 100]) <$> formats
  = Some [Some true; Some true] :: replicate 6 (Some [Some false; Some false]).
Proof. by vm_compute. Qed.

(** A p-for-delta bitmap of the key 0 alone divides by zero when it is tested. *)
Lemma zero_key_crashes :
  run kFmtPfDelta 10 [0] [0; 1] = Some [None; None] /\
  run kFmtFastPfDelta 10 [0] [0] = Some [None].
Proof. by vm_compute. Qed.

(** A key outside of the domain is inserted as another key and not found. *)
Lemma out_of_domain : run kFmtUncompressed 8 [257] [257; 1] = Some [Some false; Some true].
Proof. by vm_compute. Qed.

Lemma keys_supported : supported kFmtPfDelta (index 10 <$> keys).
Proof.
  split; [|split; [|done]].
  - intros j. unfold zlen, bucket.
    pose proof (length_filter (fun k => Z.shiftr k 8 = j) (index 10 <$> keys)) as Hl. change (length (index 10 <$> keys)) with 6%nat in Hl. lia.
  - apply NoDup_ListNoDup. vm_compute. repeat (constructor; [cbn; lia|]). constructor.
Qed.

Lemma bitmap_exact_witness :
  exists b out b', add_all AddKey (Reset (BitmapBlock_new 10 kFmtPfDelta) 6) keys = Some b /\
    Finish b = Some (out, b') /\ BitmapKeyMustMatch [132; 3] out = Some true /\
    BitmapKeyMustMatch [4] out = Some false.
Proof.
  destruct (bitmap_exact 10 kFmtPfDelta 6 keys) as (b & out & b' & E & Ef & Hm);
    [done|by vm_compute|exact keys_supported|].
  exists b, out, b'. split; [exact E|]. split; [exact Ef|].
  assert (H1 : bytes_ok [132; 3]) by (repeat constructor; done).
  assert (H2 : bytes_ok [4]) by (repeat constructor; done).
  rewrite (Hm [132; 3] H1), (Hm [4] H2). split; by vm_compute.
Defined.

Lemma bloom_no_false_negatives_witness :
  exists b out b', add_all Bloom.AddKey (Bloom.Reset (Bloom.BloomBlock_new 10) 2) [[1; 2]; [3]] = Some b /\
    Bloom.Finish b = Some (out, b') /\ Bloom.BloomKeyMayMatch [3] out = true.
Proof.
  destruct (bloom_no_false_negatives 10 2 [[1; 2]; [3]]) as (b & out & b' & E & Ef & Hm); [done|by vm_compute|].
  exists b, out, b'. split; [exact E|]. split; [exact Ef|]. apply Hm. right. by left.
Defined.

End FilterDemo.
