(* ===== verification/Cuckoo.v ===== *)
(** * Cuckoo filters of indexed directories (src/libdeltafs/plfsio/v1: cuckoo.h, cuckoo.cc)

    A cuckoo filter maps the fingerprint of a key to the values the key was added
    with.  [CuckooTable<k, v>] is an array of buckets of four cells, each cell a
    bit field of a fingerprint ([k] bits) and a value ([v] bits); an entry is in
    one of the two buckets of its key.  An insertion moves other entries to their
    other bucket to make room, and gives up after [max_cuckoo_moves_] moves: the
    entry left over is the victim of the table, and the table is full.
    [CuckooBlock<k, v>] stages the keys that come later and builds more tables of
    them at the end.  [CuckooKeyTester] reads what [Finish] writes.

    [None] is a failed assertion, or a memory access or conversion whose
    behaviour is undefined.  Doubles are the binary64 numbers of [SpecFloat].
    The buckets are packed structs of bit fields, laid out from the least
    significant bit of the first byte on, as the System V ABI does. *)
From Stdlib Require Import Floats.SpecFloat.
From S2P Require Import Prelude Coding Gigaplus.

(** ** Pseudo-random numbers (pdlfs-common/random.h) *)

Module Random.

Definition M : Z := 2147483647.
Definition A : Z := 16807.

Definition New (s : Z) : Z :=
  let seed := Z.land s 2147483647 in
  if (seed =? 0) || (seed =? 2147483647) then 1 else seed.

(** [Next]: the number returned is the new seed. *)
Definition Next (seed : Z) : Z :=
  let product := u64 (seed * A) in
  let seed := u32 (Z.shiftr product 31 + Z.land product M) in
  if M <? seed then u32 (seed - M) else seed.

End Random.

(** ** Doubles *)

Module F64.

Definition of_Z (z : Z) : spec_float := binary_normalize 53 1024 z 0 false.
Definition mul : spec_float -> spec_float -> spec_float := SFmul 53 1024.
Definition div : spec_float -> spec_float -> spec_float := SFdiv 53 1024.
Definition ltb : spec_float -> spec_float -> bool := SFltb.

(** [static_cast<size_t>(ceil(x))]. *)
Definition ceil_to_size_t (x : spec_float) : option Z :=
  match x with
  | S754_zero _ => Some 0
  | S754_finite false m e =>
      let z := if 0 <=? e then Z.pos m * 2 ^ e else - (- Z.pos m / 2 ^ (- e)) in
      if z <? 2 ^ 64 then Some z else None
  | S754_finite true m e => if (e <? 0) && (Z.pos m <? 2 ^ (- e)) then Some 0 else None
  | _ => None
  end.

End F64.

(** ** Hashing *)

(** The result is an [uint64_t]. *)
Definition CuckooHash `{XXHash} (key : bytes) : Z := u64 (xxhash64 key 0).

Definition CuckooFingerprint (ha bits_per_key : Z) : Z :=
  let bits_to_move := 64 - bits_per_key in
  let fp := u32 (Z.shiftr ha bits_to_move) in
  u32 (fp + (if fp =? 0 then 1 else 0)).

Definition CuckooAlt (i fp : Z) : Z := Z.lxor i (u32 (fp * 1540483477)).

Definition UpperPower2 (x : Z) : Z :=
  let x := u64 (x - 1) in
  let x := Z.lor x (Z.shiftr x 1) in
  let x := Z.lor x (Z.shiftr x 2) in
  let x := Z.lor x (Z.shiftr x 4) in
  let x := Z.lor x (Z.shiftr x 8) in
  let x := Z.lor x (Z.shiftr x 16) in
  let x := Z.lor x (Z.shiftr x 32) in
  u64 (x + 1).

(** ** Tables *)

Record CuckooTable := mkTable {
  frac_ : spec_float; space_ : bytes; num_buckets_ : Z;
  victim_index_ : Z; victim_data_ : Z; victim_fp_ : Z; full_ : bool }.

Definition set_space (s : bytes) (r : CuckooTable) : CuckooTable :=
  mkTable (frac_ r) s (num_buckets_ r) (victim_index_ r) (victim_data_ r) (victim_fp_ r) (full_ r).

(** [CuckooBucket]: four bit fields of [w] bits. *)
Module CuckooBucket.

Definition sizeof (w : Z) : Z := (4 * w + 7) / 8.

Definition load (s : bytes) (w i : Z) : Z :=
  Fixed.decode (take (Z.to_nat (sizeof w)) (drop (Z.to_nat (i * sizeof w)) s)).

Definition get (s : bytes) (w i j : Z) : Z := Z.land (Z.shiftr (load s w i) (j * w)) (Z.ones w).

Definition set_field (b w j x : Z) : Z :=
  Z.lor (Z.ldiff b (Z.shiftl (Z.ones w) (j * w))) (Z.shiftl (Z.land x (Z.ones w)) (j * w)).

Definition put (s : bytes) (w i j x : Z) : bytes :=
  take (Z.to_nat (i * sizeof w)) s
    ++ Fixed.encode (Z.to_nat (sizeof w)) (set_field (load s w i) w j x)
    ++ drop (Z.to_nat ((i + 1) * sizeof w)) s.

End CuckooBucket.

(** [CuckooReader], which the tester uses, and the readers of [CuckooTable]. *)
Module CuckooReader.
Section CuckooReader.
Context (k v : Z).

Definition Read (s : bytes) (num_buckets i j : Z) : option Z :=
  if (i <? num_buckets) && (j <? 4) then Some (CuckooBucket.get s (k + v) i j) else None.

Definition pair (s : bytes) (num_buckets i j : Z) : option (Z * Z) :=
  let? x := Read s num_buckets i j in
  Some (if negb (v =? 0) then (u32 (Z.shiftr x v), Z.land x (Z.shiftl 1 v - 1)) else (u32 x, 0)).

Definition key (s : bytes) (num_buckets i j : Z) : option Z :=
  let? x := Read s num_buckets i j in
  Some (if negb (v =? 0) then u32 (Z.shiftr x v) else u32 x).

End CuckooReader.
End CuckooReader.

Module Table.
Section Table.
Context (k v : Z).

Definition Write (r : CuckooTable) (i j fp data : Z) : option CuckooTable :=
  if full_ r || (fp =? 0) || negb (i <? num_buckets_ r) || negb (j <? 4) then None
  else
    let x := if negb (v =? 0) then Z.lor (u64 (Z.shiftl fp v)) (Z.land data (Z.shiftl 1 v - 1)) else fp in
    Some (set_space (CuckooBucket.put (space_ r) (k + v) i j x) r).

Definition pair (r : CuckooTable) (i j : Z) : option (Z * Z) :=
  CuckooReader.pair k v (space_ r) (num_buckets_ r) i j.

Definition key (r : CuckooTable) (i j : Z) : option Z :=
  CuckooReader.key k v (space_ r) (num_buckets_ r) i j.

Definition buckets_for (frac : spec_float) (num_keys : Z) : option Z :=
  let? n :=
    (if F64.ltb (F64.of_Z 0) frac then
       F64.ceil_to_size_t (F64.div (F64.mul (F64.div (F64.of_Z 1) frac) (F64.of_Z (u32 (num_keys + 3))))
                             (F64.of_Z 4))
     else Some (u32 (num_keys + 3) / 4)) in
  Some (if negb (n =? 0) then UpperPower2 n else 1).

Definition Resize (r : CuckooTable) (num_keys : Z) : option CuckooTable :=
  let? n := buckets_for (frac_ r) num_keys in
  Some (mkTable (frac_ r) (replicate (Z.to_nat (u64 (n * CuckooBucket.sizeof (k + v)))) 0) n
          (victim_index_ r) (victim_data_ r) (victim_fp_ r) (full_ r)).

Definition Reset (r : CuckooTable) (num_keys : Z) : option CuckooTable :=
  let? r := Resize r num_keys in
  Some (mkTable (frac_ r) (space_ r) (num_buckets_ r) 0 0 0 false).

Definition New (frac : spec_float) : option CuckooTable :=
  Reset (mkTable frac [] 0 0 0 0 false) 0.

(** The four numbers at the end of a table. *)
Definition Seal (r : CuckooTable) : CuckooTable :=
  set_space (space_ r ++ EncodeFixed32 (u32 (num_buckets_ r)) ++ EncodeFixed32 (victim_index_ r)
               ++ EncodeFixed32 (victim_data_ r) ++ EncodeFixed32 (victim_fp_ r)) r.

End Table.
End Table.

(** ** Blocks *)

Record CuckooBlock := mkBlock {
  key_sizes_ : list Z; values_ : list Z; keys_ : bytes; max_cuckoo_moves_ : Z;
  finished_ : bool; rnd_ : Z; morereps_ : list CuckooTable; rep_ : CuckooTable }.

Record CuckooOptions := mkCuckooOptions {
  cuckoo_seed : Z; cuckoo_max_moves : Z; cuckoo_frac : spec_float }.

Definition set_rep (r : CuckooTable) (rnd : Z) (b : CuckooBlock) : CuckooBlock :=
  mkBlock (key_sizes_ b) (values_ b) (keys_ b) (max_cuckoo_moves_ b) (finished_ b) rnd (morereps_ b) r.

Module Block.
Section Block.
Context `{XXHash} (k v : Z).

Definition New (options : CuckooOptions) : option CuckooBlock :=
  let? r := Table.New k v (cuckoo_frac options) in
  Some (mkBlock [] [] [] (cuckoo_max_moves options) true (Random.New (cuckoo_seed options)) [] r).

Definition Reset (b : CuckooBlock) (num_keys : Z) : option CuckooBlock :=
  let? r := Table.Reset k v (rep_ b) num_keys in
  Some (mkBlock [] [] [] (max_cuckoo_moves_ b) false (rnd_ b) [] r).

(** The scan of the cells of bucket [i]: the table when the entry is placed or
    already there, [Some None] when every cell holds another entry. *)
Fixpoint place (js : list Z) (r : CuckooTable) (i fp data : Z) : option (option CuckooTable) :=
  match js with
  | [] => Some None
  | j :: js =>
      let? kv := Table.pair k v r i j in
      if kv.1 =? 0 then let? r := Table.Write k v r i j fp data in Some (Some r)
      else if kv.1 =? fp then
        if v =? 0 then Some (Some r)
        else if kv.2 =? Z.land data (Z.shiftl 1 v - 1) then Some (Some r)
        else place js r i fp data
      else place js r i fp data
  end.

(** The entry of a random cell of bucket [i] makes room. *)
Definition kick (r : CuckooTable) (i fp data rnd : Z) : option (CuckooTable * (Z * Z) * Z) :=
  let rnd := Random.Next rnd in
  let victim := Z.land rnd 3 in
  let? kv := Table.pair k v r i victim in
  if (kv.1 =? 0) || ((kv.1 =? fp) && ((v =? 0) || (kv.2 =? data))) then None
  else let? r := Table.Write k v r i victim fp data in Some (r, kv, rnd).

Fixpoint AddTo_loop (n : nat) (moves : Z) (r : CuckooTable) (i fp data rnd : Z)
  : option (CuckooTable * Z) :=
  match n with
  | O => Some (mkTable (frac_ r) (space_ r) (num_buckets_ r) (u32 i) data fp true, rnd)
  | S n =>
      let? placed := place [0; 1; 2; 3] r i fp data in
      match placed with
      | Some r => Some (r, rnd)
      | None =>
          let? (r, kv, rnd) :=
            (if negb (moves =? 0) then kick r i fp data rnd else Some (r, (fp, data), rnd)) in
          let i := Z.land (CuckooAlt i kv.1) (num_buckets_ r - 1) in
          AddTo_loop n (moves + 1) r i kv.1 kv.2 rnd
      end
  end.

Definition AddTo (max_moves : Z) (ha fp data : Z) (r : CuckooTable) (rnd : Z) : option (CuckooTable * Z) :=
  if full_ r then None
  else AddTo_loop (Z.to_nat max_moves) 0 r (Z.land ha (num_buckets_ r - 1)) fp data rnd.

Definition AddMore (b : CuckooBlock) (key : bytes) (value : Z) : CuckooBlock :=
  mkBlock (key_sizes_ b ++ [u32 (zlen key)]) (if negb (v =? 0) then values_ b ++ [value] else values_ b)
    (keys_ b ++ key) (max_cuckoo_moves_ b) (finished_ b) (rnd_ b) (morereps_ b) (rep_ b).

Definition AddKey (b : CuckooBlock) (key : bytes) (value : Z) : option CuckooBlock :=
  if finished_ b then None
  else
    let ha := CuckooHash key in
    let fp := CuckooFingerprint ha k in
    if full_ (rep_ b) then Some (AddMore b key value)
    else
      let? (r, rnd) := AddTo (max_cuckoo_moves_ b) ha fp value (rep_ b) (rnd_ b) in
      Some (set_rep r rnd b).

Definition TEST_AddKey (b : CuckooBlock) (key : bytes) (value : Z) : option (bool * CuckooBlock) :=
  if finished_ b then None
  else if full_ (rep_ b) then Some (false, b)
  else let? b := AddKey b key value in Some (true, b).

Definition Exists (ha fp : Z) (r : CuckooTable) : option bool :=
  if (num_buckets_ r =? 0) || (fp =? 0) then None
  else
    let i1 := Z.land ha (num_buckets_ r - 1) in
    let i2 := Z.land (CuckooAlt i1 fp) (num_buckets_ r - 1) in
    if full_ r && (victim_fp_ r =? fp) && ((victim_index_ r =? i1) || (victim_index_ r =? i2))
    then Some true
    else
      (fix loop (js : list Z) : option bool :=
         match js with
         | [] => Some false
         | j :: js =>
             let? f1 := Table.key k v r i1 j in
             if f1 =? fp then Some true
             else
               let? f2 := Table.key k v r i2 j in
               if f2 =? fp then Some true else loop js
         end) [0; 1; 2; 3].

(** [Slice(start, n)] over the staged keys, whose buffer ends in a null byte. *)
Definition key_at (b : CuckooBlock) (start n : Z) : option bytes :=
  if start + n <=? zlen (keys_ b) + 1
  then Some (take (Z.to_nat n) (drop (Z.to_nat start) (keys_ b ++ [0]))) else None.

(** The loop that moves the staged keys from [i] on into the table [r]. *)
Fixpoint fill (n : nat) (b : CuckooBlock) (i start : Z) (r : CuckooTable) (rnd : Z)
  : option (CuckooTable * Z * Z * Z) :=
  match n with
  | O => Some (r, rnd, i, start)
  | S n =>
      let? size := key_sizes_ b !! Z.to_nat i in
      let? key := key_at b start size in
      let ha := CuckooHash key in
      let fp := CuckooFingerprint ha k in
      let start := start + size in
      let? value := (if negb (v =? 0) then values_ b !! Z.to_nat i else Some 0) in
      let? (r, rnd) := AddTo (max_cuckoo_moves_ b) ha fp value r rnd in
      if full_ r then Some (r, rnd, i, start) else fill n b (i + 1) start r rnd
  end.

Definition frac_aux : spec_float := F64.div (F64.of_Z 95) (F64.of_Z 100).

(** One round of the outer loop: a new table from the keys from [i] on. *)
Definition build_table (b : CuckooBlock) (limit i start rnd : Z) : option (CuckooTable * Z * Z * Z) :=
  let? r := Table.New k v frac_aux in
  let? r := Table.Resize k v r (u32 (limit - i)) in
  fill (Z.to_nat (limit - i)) b i start r rnd.

Fixpoint build_loop (fuel : nat) (b : CuckooBlock) (limit i start rnd : Z) : option (list CuckooTable * Z) :=
  if i =? limit then Some ([], rnd)
  else
    match fuel with
    | O => None
    | S fuel =>
        let? (r, rnd, i, start) := build_table b limit i start rnd in
        let? (rs, rnd) := build_loop fuel b limit i start rnd in
        Some (Table.Seal r :: rs, rnd)
    end.

(** A round moves at least one key when a move is allowed, so [limit] rounds
    are enough. *)
Definition MaybeBuildMoreTables (b : CuckooBlock) : option CuckooBlock :=
  let limit := u32 (zlen (key_sizes_ b)) in
  let? (rs, rnd) := build_loop (Z.to_nat limit) b limit 0 0 (rnd_ b) in
  Some (mkBlock (key_sizes_ b) (values_ b) (keys_ b) (max_cuckoo_moves_ b) (finished_ b) rnd
          (morereps_ b ++ rs) (rep_ b)).

Definition Finish (b : CuckooBlock) : option (bytes * CuckooBlock) :=
  if finished_ b then None
  else
    let b := mkBlock (key_sizes_ b) (values_ b) (keys_ b) (max_cuckoo_moves_ b) true (rnd_ b)
               (morereps_ b) (Table.Seal (rep_ b)) in
    let? b := MaybeBuildMoreTables b in
    let space := space_ (rep_ b) ++ concat (space_ <$> morereps_ b)
                   ++ EncodeFixed32 (u32 (1 + zlen (morereps_ b))) ++ EncodeFixed32 v ++ EncodeFixed32 k in
    Some (space, set_rep (set_space space (rep_ b)) (rnd_ b) b).

Definition num_victims (b : CuckooBlock) : Z := zlen (key_sizes_ b).
Definition TEST_NumCuckooTables (b : CuckooBlock) : Z := 1 + zlen (morereps_ b).
Definition TEST_NumBuckets (b : CuckooBlock) : Z :=
  foldr (fun r n => num_buckets_ r + n) (num_buckets_ (rep_ b)) (morereps_ b).

End Block.
End Block.

(** ** Reading a filter *)

Module CuckooKeyTester.
Section CuckooKeyTester.
Context `{XXHash} (k v : Z).

(** A 32-bit number that starts [n] bytes before the offset [tail]. *)
Definition fixed_before (input : bytes) (tail n : Z) : Z := DecodeFixed32 (drop (Z.to_nat (tail - n)) input).

(** The values wanted, if any: [v != 0 && values]. *)
Definition wanted (values : option (list Z)) : option (list Z) := if negb (v =? 0) then values else None.

(** The loops over the four cells of both buckets. *)
Fixpoint fetch_values (js : list Z) (buckets : bytes) (nb i1 i2 fp : Z) (vs : list Z) : option (list Z) :=
  match js with
  | [] => Some vs
  | j :: js =>
      let? kv1 := CuckooReader.pair k v buckets nb i1 j in
      let vs := if kv1.1 =? fp then vs ++ [kv1.2] else vs in
      let? kv2 := CuckooReader.pair k v buckets nb i2 j in
      let vs := if kv2.1 =? fp then vs ++ [kv2.2] else vs in
      fetch_values js buckets nb i1 i2 fp vs
  end.

Fixpoint fetch_key (js : list Z) (buckets : bytes) (nb i1 i2 fp : Z) : option bool :=
  match js with
  | [] => Some false
  | j :: js =>
      let? f1 := CuckooReader.key k v buckets nb i1 j in
      if f1 =? fp then Some true
      else
        let? f2 := CuckooReader.key k v buckets nb i2 j in
        if f2 =? fp then Some true else fetch_key js buckets nb i1 i2 fp
  end.

Definition Fetch (ha fp num_buckets : Z) (input : bytes) (values : option (list Z))
  : option (bool * option (list Z)) :=
  let tail := zlen input in
  if (tail <? 16) || (num_buckets =? 0) then None
  else
    let i1 := Z.land ha (num_buckets - 1) in
    let i2 := Z.land (CuckooAlt i1 fp) (num_buckets - 1) in
    let victim :=
      (fixed_before input tail 4 =? fp)
      && ((fixed_before input tail 12 =? i1) || (fixed_before input tail 12 =? i2)) in
    let buckets := take (Z.to_nat (tail - 16)) input in
    let nb := u32 (zlen buckets / CuckooBucket.sizeof (k + v)) in
    match wanted values with
    | Some vs =>
        let vs := if victim then vs ++ [fixed_before input tail 8] else vs in
        let? vs := fetch_values [0; 1; 2; 3] buckets nb i1 i2 fp vs in
        Some (bool_decide (vs <> []), Some vs)
    | None =>
        if victim then Some (true, values)
        else let? found := fetch_key [0; 1; 2; 3] buckets nb i1 i2 fp in Some (found, values)
    end.

(** The loop over the tables, from the last one.  [tail] is always
    [remaining_size] bytes into the input; a round consumes at least 12 bytes. *)
Fixpoint tables_loop (fuel : nat) (num_tables ha fp remaining_size table_size : Z) (input : bytes)
    (values : option (list Z)) : option (bool * option (list Z)) :=
  if num_tables =? 0 then
    Some (match wanted values with Some vs => bool_decide (vs <> []) | None => false end, values)
  else
    match fuel with
    | O => None
    | S fuel =>
        if remaining_size <? table_size then None
        else
          let remaining_size := remaining_size - table_size in
          if remaining_size <? 16 then Some (true, values)
          else
            let num_buckets := fixed_before input remaining_size 16 in
            let table_size := num_buckets * CuckooBucket.sizeof (k + v) + 16 in
            if num_buckets =? 0 then Some (true, values)
            else if remaining_size <? table_size then Some (true, values)
            else
              let cuckoo_table :=
                take (Z.to_nat table_size) (drop (Z.to_nat (remaining_size - table_size)) input) in
              let? (found, values) := Fetch ha fp num_buckets cuckoo_table values in
              if found && bool_decide (wanted values = None) then Some (true, values)
              else tables_loop fuel (num_tables - 1) ha fp remaining_size table_size input values
    end.

Definition run (key input : bytes) (values : option (list Z)) : option (bool * option (list Z)) :=
  let tail := zlen input in
  if tail <? 12 then Some (true, values)
  else if negb (fixed_before input tail 8 =? v) || negb (fixed_before input tail 4 =? k) then None
  else
    let num_tables := fixed_before input tail 12 in
    if num_tables =? 0 then Some (true, values)
    else
      let ha := CuckooHash key in
      let fp := CuckooFingerprint ha k in
      tables_loop (length input) num_tables ha fp tail 12 input values.

End CuckooKeyTester.
End CuckooKeyTester.

Section CuckooValues.
Context `{XXHash}.

(** The instances of the templates. *)
Definition instance (keybits valbits : Z) : bool :=
  if (valbits =? 32) || (valbits =? 0)
  then bool_decide (keybits ∈ [28; 26; 24; 22; 20; 18; 16; 14])
  else if (keybits =? 8) || (keybits =? 4)
  then bool_decide (valbits ∈ [24; 22; 20; 18; 16; 14; 12; 10])
  else false.

Definition CuckooValues (key input : bytes) (values : option (list Z)) : option (bool * option (list Z)) :=
  let len := zlen input in
  if len <? 8 then Some (true, values)
  else
    let valbits := CuckooKeyTester.fixed_before input len 8 in
    let keybits := CuckooKeyTester.fixed_before input len 4 in
    if instance keybits valbits then CuckooKeyTester.run keybits valbits key input values
    else Some (true, values).

Definition CuckooKeyMayMatch (key input : bytes) : option bool :=
  let? (found, _) := CuckooValues key input None in Some found.

End CuckooValues.
