(* ===== verification/CuckooLemmas.v ===== *)
(** * Cuckoo filters: cells, entries and insertion

    The cells of a table behave as an array ([Write_spec]).  A table stores a set
    of entries (bucket, fingerprint, value), its victim included; moving an entry
    to its other bucket keeps the keys it stands for ([Repr], [moved]).  An
    insertion keeps every entry, up to such moves ([AddTo_spec]). *)
From S2P Require Import Prelude Coding Gigaplus Cuckoo.

(** ** Bit fields *)

Section Bits.
Import CuckooBucket.

Lemma decode_width bs : bytes_ok bs -> in_width (8 * zlen bs) (Fixed.decode bs).
Proof.
  induction 1 as [|b bs Hb _ IH]; cbn [Fixed.decode]; [by vm_compute|].
  rewrite zlen_cons. pose proof (zlen_nonneg bs). replace (8 * (1 + zlen bs)) with (8 * zlen bs + 8) by lia.
  apply lor_in_width; [lia| |apply shiftl_in_width; [lia|done]].
  eapply in_width_mono; [|exact Hb]. lia.
Qed.

Context (w : Z) (Hw : 0 < w).

Lemma sizeof_pos : 0 < sizeof w.
Proof. unfold sizeof. apply Z.div_str_pos. lia. Qed.

Lemma sizeof_bits : 4 * w <= 8 * sizeof w.
Proof. unfold sizeof. pose proof (Z.mod_pos_bound (4 * w + 7) 8 ltac:(lia)). pose proof (Z.div_mod (4 * w + 7) 8 ltac:(lia)). lia. Qed.

Lemma load_range s i : bytes_ok s -> in_width (8 * sizeof w) (load s w i).
Proof.
  intros Hs. pose proof sizeof_pos. unfold load. set (l := take _ _).
  eapply in_width_mono; [|apply decode_width].
  - subst l. unfold zlen. rewrite length_take. lia.
  - subst l. by apply Forall_take, Forall_drop.
Qed.

Lemma set_field_bits b j x n :
  0 <= j -> 0 <= n ->
  Z.testbit (set_field b w j x) n
  = if (j * w <=? n) && (n <? j * w + w) then Z.testbit x (n - j * w) else Z.testbit b n.
Proof.
  intros Hj Hn. unfold set_field.
  rewrite Z.lor_spec, Z.ldiff_spec, !Z.shiftl_spec, Z.land_spec, !Z.testbit_ones by lia.
  destruct (Z.leb_spec (j * w) n), (Z.ltb_spec n (j * w + w)); cbn [andb];
    destruct (Z.leb_spec 0 (n - j * w)), (Z.ltb_spec (n - j * w) w); try lia; cbn;
    rewrite ?andb_true_r, ?andb_false_r, ?orb_false_r; done.
Qed.

Lemma field_bits b j n :
  0 <= j -> 0 <= n -> Z.testbit (Z.land (Z.shiftr b (j * w)) (Z.ones w)) n = Z.testbit b (n + j * w) && (n <? w).
Proof.
  intros. rewrite Z.land_spec, Z.shiftr_spec, Z.testbit_ones by lia.
  destruct (Z.leb_spec 0 n); [|lia]. done.
Qed.

Lemma get_set_field b j x j' :
  0 <= j -> 0 <= j' ->
  Z.land (Z.shiftr (set_field b w j x) (j' * w)) (Z.ones w)
  = if j =? j' then Z.land x (Z.ones w) else Z.land (Z.shiftr b (j' * w)) (Z.ones w).
Proof.
  intros Hj Hj'. apply Z.bits_inj'. intros n Hn. rewrite field_bits, set_field_bits by nia.
  destruct (Z.eqb_spec j j') as [<-|Hne].
  - rewrite Z.land_spec, Z.testbit_ones by lia. replace (n + j * w - j * w) with n by lia.
    cmp_cases; cbn; rewrite ?andb_true_r, ?andb_false_r; lia || done.
  - rewrite field_bits by lia. destruct (Z.ltb_spec n w); [|by rewrite !andb_false_r].
    destruct (Z.leb_spec (j * w) (n + j' * w)), (Z.ltb_spec (n + j' * w) (j * w + w)); try done.
    exfalso. nia.
Qed.

Lemma set_field_range b j x :
  0 <= j < 4 -> in_width (8 * sizeof w) b -> in_width (8 * sizeof w) (set_field b w j x).
Proof.
  intros Hj Hb. pose proof sizeof_bits. pose proof sizeof_pos.
  assert (0 <= set_field b w j x).
  { unfold set_field. apply Z.lor_nonneg. split.
    - apply Z.ldiff_nonneg. left. apply Hb.
    - apply Z.shiftl_nonneg, (land_ones_range x w). lia. }
  apply bits_in_width; [lia|done|]. intros n Hn. rewrite set_field_bits by lia.
  destruct (Z.ltb_spec n (j * w + w)); [nia|]. rewrite andb_false_r.
  by apply (in_width_bits _ _ _ Hb).
Qed.

Lemma put_ok s i j x : bytes_ok s -> bytes_ok (put s w i j x).
Proof.
  intros Hs. unfold put. apply bytes_ok_app. split; [by apply Forall_take|].
  apply bytes_ok_app. split; [apply Fixed.encode_ok|by apply Forall_drop].
Qed.

Context (s : bytes) (nb : Z) (Hs : bytes_ok s) (Hlen : zlen s = nb * sizeof w).

Lemma zlen_put i j x : 0 <= i < nb -> zlen (put s w i j x) = zlen s.
Proof.
  intros Hi. pose proof sizeof_pos. unfold put, zlen in *.
  rewrite !length_app, length_take, length_drop, Fixed.length_encode. nia.
Qed.

Lemma load_put i j x i' :
  0 <= i < nb -> 0 <= i' < nb -> 0 <= j < 4 ->
  load (put s w i j x) w i' = if i =? i' then set_field (load s w i) w j x else load s w i'.
Proof.
  intros Hi Hi' Hj. pose proof sizeof_pos. unfold zlen in *. unfold load at 1, put.
  set (sz := sizeof w) in *. set (new := Fixed.encode _ _).
  assert (Hnew : length new = Z.to_nat sz) by apply Fixed.length_encode.
  destruct (Z.eqb_spec i i') as [<-|Hne].
  - rewrite drop_app_length' by (rewrite length_take; nia).
    rewrite take_app_length' by lia. unfold new.
    apply Fixed.decode_encode. rewrite Z2Nat.id by lia. apply set_field_range; [done|by apply load_range].
  - unfold load. fold sz. f_equal. destruct (Z.lt_ge_cases i' i).
    + rewrite drop_app_le by (rewrite length_take; nia).
      rewrite take_app_le by (rewrite length_drop, length_take; nia).
      rewrite skipn_firstn_comm, take_take. f_equal. nia.
    + rewrite (app_assoc (take _ _)), drop_app_ge by (rewrite length_app, length_take; nia).
      rewrite drop_drop. do 2 f_equal. rewrite length_app, length_take. nia.
Qed.

Lemma get_put i j x i' j' :
  0 <= i < nb -> 0 <= i' < nb -> 0 <= j < 4 -> 0 <= j' < 4 ->
  get (put s w i j x) w i' j'
  = if (i =? i') && (j =? j') then Z.land x (Z.ones w) else get s w i' j'.
Proof.
  intros. unfold get. rewrite load_put by done. destruct (Z.eqb_spec i i') as [<-|]; cbn [andb]; [|done].
  by rewrite get_set_field by lia.
Qed.

End Bits.

(** ** Powers of two *)

(** [z] has a bit wherever [y] has one within the [n] bits above. *)
Definition smeared (n y z : Z) : Prop :=
  forall i, 0 <= i -> Z.testbit z i = true <-> exists d, 0 <= d < n /\ Z.testbit y (i + d) = true.

Lemma smeared_double n m y z : 0 <= n -> m = n + n -> smeared n y z -> smeared m y (Z.lor z (Z.shiftr z n)).
Proof.
  intros Hn -> Hz i Hi. rewrite Z.lor_spec, Z.shiftr_spec, orb_true_iff, (Hz i), (Hz (i + n)) by lia. split.
  - intros [(d & Hd & Ht)|(d & Hd & Ht)]; [exists d; split; [lia|done]|exists (n + d); split; [lia|]].
    by replace (i + (n + d)) with (i + n + d) by lia.
  - intros (d & Hd & Ht). destruct (Z.lt_ge_cases d n); [left; exists d; split; [lia|done]|right; exists (d - n)].
    split; [lia|]. by replace (i + n + (d - n)) with (i + d) by lia.
Qed.

Lemma smeared_ones y z : 0 < y < 2 ^ 64 -> 0 <= z -> smeared 64 y z -> z = Z.ones (Z.log2 y + 1).
Proof.
  intros Hy Hz Hs. pose proof (Z.log2_nonneg y). assert (Z.log2 y < 64) by (apply Z.log2_lt_pow2; lia).
  apply Z.bits_inj'. intros i Hi. rewrite Z.testbit_ones by lia.
  apply eq_true_iff_eq. rewrite (Hs i Hi), andb_true_iff, Z.leb_le, Z.ltb_lt. split.
  - intros (d & Hd & Ht). split; [done|]. destruct (Z.le_gt_cases (i + d) (Z.log2 y)); [lia|].
    by rewrite Z.bits_above_log2 in Ht by lia.
  - intros [_ Hl]. exists (Z.log2 y - i). split; [lia|].
    replace (i + (Z.log2 y - i)) with (Z.log2 y) by lia. apply Z.bit_log2. lia.
Qed.

Lemma UpperPower2_spec x :
  1 <= x < 2 ^ 64 -> exists p, 0 <= p <= 64 /\ UpperPower2 x = u64 (2 ^ p) /\ x <= 2 ^ p.
Proof.
  intros Hx. unfold UpperPower2. rewrite (u64_small (x - 1)) by (unfold in_width; lia).
  destruct (Z.eq_dec x 1) as [->|Hne]; [by exists 0|].
  set (y := x - 1). assert (H1 : smeared 1 y y).
  { intros i Hi. split; [intros; exists 0; split; [lia|by rewrite Z.add_0_r]|].
    intros (d & Hd & Ht). by replace (i + d) with i in Ht by lia. }
  apply (smeared_double 1 2) in H1; [|done..]. apply (smeared_double 2 4) in H1; [|done..].
  apply (smeared_double 4 8) in H1; [|done..]. apply (smeared_double 8 16) in H1; [|done..].
  apply (smeared_double 16 32) in H1; [|done..]. apply (smeared_double 32 64) in H1; [|done..].
  apply smeared_ones in H1; [|unfold y; lia|].
  2: { repeat first [apply Z.lor_nonneg; split|apply Z.shiftr_nonneg]; unfold y; lia. }
  rewrite H1. pose proof (Z.log2_nonneg y).
  assert (Z.log2 y < 64) by (apply Z.log2_lt_pow2; unfold y; lia).
  rewrite Z.ones_equiv. exists (Z.log2 y + 1). split; [lia|].
  pose proof (Z.log2_spec y ltac:(unfold y; lia)) as [_ Hl]. unfold Z.succ in Hl.
  split; [f_equal; lia|]. unfold y in *. lia.
Qed.

(** ** Cells *)

Section Cells.
Context (k v : Z) (Hk : 0 < k <= 32) (Hv : 0 <= v <= 32).

(** A value as a cell keeps it. *)
Definition mask (data : Z) : Z := if v =? 0 then 0 else data mod 2 ^ v.

Definition fuse (fp data : Z) : Z :=
  if negb (v =? 0) then Z.lor (u64 (Z.shiftl fp v)) (Z.land data (Z.shiftl 1 v - 1)) else fp.

Definition split_cell (x : Z) : Z * Z :=
  if negb (v =? 0) then (u32 (Z.shiftr x v), Z.land x (Z.shiftl 1 v - 1)) else (u32 x, 0).

Definition cell (r : CuckooTable) (i j : Z) : Z * Z :=
  split_cell (CuckooBucket.get (space_ r) (k + v) i j).

Lemma land_mask d : Z.land d (Z.shiftl 1 v - 1) = d mod 2 ^ v.
Proof. by rewrite <- Z.land_ones by lia. Qed.

Lemma mask_range d : v <> 0 -> 0 <= mask d < 2 ^ v.
Proof. unfold mask. intros. destruct (Z.eqb_spec v 0); [done|]. apply Z.mod_pos_bound, Z.pow_pos_nonneg; lia. Qed.

Lemma mask_idemp d : mask (mask d) = mask d.
Proof.
  unfold mask. destruct (Z.eqb_spec v 0); [done|]. rewrite Z.mod_mod; [done|apply Z.pow_nonzero; lia].
Qed.

Lemma fuse_eq fp data : 0 <= fp < 2 ^ k -> fuse fp data = fp * 2 ^ v + mask data.
Proof.
  intros Hf. unfold fuse, mask. destruct (Z.eqb_spec v 0) as [E|Hne]; cbn [negb]; [rewrite E, Z.pow_0_r; lia|].
  rewrite land_mask. pose proof (shiftl_in_width k fp v ltac:(lia) Hf) as Hs.
  rewrite u64_small by (eapply in_width_mono; [|exact Hs]; lia).
  rewrite <- Z.shiftl_mul_pow2 by lia. symmetry. rewrite <- Z.land_ones by lia.
  apply Z.add_nocarry_lor, Z.bits_inj'. intros n Hn.
  rewrite !Z.land_spec, Z.shiftl_spec, Z.testbit_ones, Z.bits_0 by lia.
  destruct (Z.lt_ge_cases n v); [by rewrite Z.testbit_neg_r by lia|].
  destruct (Z.ltb_spec n v); [lia|]. by rewrite !andb_false_r.
Qed.

Lemma split_fuse fp data : 0 <= fp < 2 ^ k -> split_cell (fuse fp data) = (fp, mask data).
Proof.
  intros Hf. rewrite fuse_eq by done. unfold split_cell.
  assert (is_u32 fp) by (eapply in_width_mono; [|exact Hf]; lia).
  destruct (Z.eqb_spec v 0) as [Hv0|Hne]; cbn [negb].
  - unfold mask. rewrite Hv0, Z.pow_0_r. cbn [Z.eqb]. rewrite Z.mul_1_r, Z.add_0_r. by rewrite u32_small.
  - pose proof (mask_range data Hne). rewrite land_mask, Z.shiftr_div_pow2 by lia.
    rewrite Z.div_add_l, Z.div_small, Z.add_0_r, u32_small by (done || lia).
    rewrite Z.add_comm, Z_mod_plus_full, Z.mod_small by done. done.
Qed.

Lemma fuse_range fp data : 0 <= fp < 2 ^ k -> in_width (k + v) (fuse fp data).
Proof.
  intros Hf. rewrite fuse_eq by done. unfold in_width. rewrite Z.pow_add_r by lia.
  assert (0 <= mask data < 2 ^ v).
  { destruct (Z.eq_dec v 0) as [E|]; [|by apply mask_range]. unfold mask. rewrite E. cbn. lia. }
  nia.
Qed.

Lemma split_range x : in_width (k + v) x -> 0 <= (split_cell x).1 < 2 ^ k /\ mask (split_cell x).2 = (split_cell x).2.
Proof.
  intros Hx. unfold split_cell, mask. destruct (Z.eqb_spec v 0) as [Hv0|]; cbn [negb fst snd].
  - rewrite Hv0, Z.add_0_r in Hx. split; [|done].
    rewrite u32_small; [done|]. eapply in_width_mono; [|exact Hx]. lia.
  - pose proof (shiftr_in_width (k + v) x v ltac:(lia) ltac:(lia) Hx) as Hr. replace (k + v - v) with k in Hr by lia.
    rewrite u32_small by (eapply in_width_mono; [|exact Hr]; lia). split; [done|].
    rewrite land_mask, Z.mod_mod; [done|apply Z.pow_nonzero; lia].
Qed.

(** The state of a table while keys are added and after it is full. *)
Record TableOk (r : CuckooTable) : Prop := {
  to_pow : exists p, 0 <= p < 32 /\ num_buckets_ r = 2 ^ p;
  to_len : zlen (space_ r) = num_buckets_ r * CuckooBucket.sizeof (k + v);
  to_bytes : bytes_ok (space_ r) }.

Lemma to_pos r : TableOk r -> 0 < num_buckets_ r < 2 ^ 32.
Proof.
  intros [(p & Hp & ->) _ _]. split; [apply Z.pow_pos_nonneg; lia|]. apply Z.pow_lt_mono_r; lia.
Qed.

Lemma pair_cell r i j : i < num_buckets_ r -> j < 4 -> Table.pair k v r i j = Some (cell r i j).
Proof.
  intros Hi Hj. unfold Table.pair, CuckooReader.pair, CuckooReader.Read.
  destruct (Z.ltb_spec i (num_buckets_ r)), (Z.ltb_spec j 4); try lia. done.
Qed.

Lemma cell_range r i j :
  0 <= (cell r i j).1 < 2 ^ k /\ mask (cell r i j).2 = (cell r i j).2.
Proof. apply split_range, land_ones_range. lia. Qed.

Lemma Write_spec r i j fp data :
  TableOk r -> full_ r = false -> 0 < fp < 2 ^ k -> 0 <= i < num_buckets_ r -> 0 <= j < 4 ->
  exists s, Table.Write k v r i j fp data = Some (set_space s r) /\ TableOk (set_space s r) /\
    forall i' j', 0 <= i' < num_buckets_ r -> 0 <= j' < 4 ->
      cell (set_space s r) i' j' = if (i =? i') && (j =? j') then (fp, mask data) else cell r i' j'.
Proof.
  intros [Hp Hl Hb] Hf Hfp Hi Hj. unfold Table.Write. rewrite Hf.
  destruct (Z.eqb_spec fp 0), (Z.ltb_spec i (num_buckets_ r)), (Z.ltb_spec j 4); try lia. cbn [orb negb].
  fold (fuse fp data). eexists. split; [done|]. split.
  - split; cbn; [done| |by apply put_ok]. rewrite (zlen_put (k + v) ltac:(lia) _ (num_buckets_ r)); done.
  - intros i' j' Hi' Hj'. unfold cell, set_space. cbn [space_].
    rewrite (get_put (k + v) ltac:(lia) _ (num_buckets_ r)) by done.
    destruct (_ && _); [|done]. pose proof (fuse_range fp data ltac:(lia)).
    rewrite Z.land_ones, wrap_small by (done || lia). apply split_fuse. lia.
Qed.

End Cells.

(** ** Buckets of a key *)

Definition alt (nb i fp : Z) : Z := Z.land (CuckooAlt i fp) (nb - 1).

Record Entry := mkEntry { e_hash : Z; e_fp : Z; e_data : Z }.

(** Bucket [i] is one of the two buckets of the entry. *)
Definition home (nb : Z) (e : Entry) (i : Z) : Prop :=
  let i1 := Z.land (e_hash e) (nb - 1) in i = i1 \/ i = alt nb i1 (e_fp e).

Section Homes.
Context (nb : Z) (Hnb : exists p, 0 <= p < 32 /\ nb = 2 ^ p).

Lemma mask_bucket_range x : 0 <= Z.land x (nb - 1) < nb.
Proof.
  destruct Hnb as (p & Hp & ->). replace (2 ^ p - 1) with (Z.ones p) by (rewrite Z.ones_equiv; lia).
  apply land_ones_range. lia.
Qed.

Lemma alt_alt i fp : 0 <= i < nb -> alt nb (alt nb i fp) fp = i.
Proof.
  unfold alt, CuckooAlt. destruct Hnb as (p & Hp & ->). intros Hi.
  replace (2 ^ p - 1) with (Z.ones p) by (rewrite Z.ones_equiv; lia).
  apply Z.bits_inj'. intros n Hn. rewrite !Z.land_spec, !Z.lxor_spec, Z.land_spec, Z.lxor_spec, Z.testbit_ones by lia.
  destruct (Z.leb_spec 0 n), (Z.ltb_spec n p); cbn [andb]; try lia.
  - rewrite !andb_true_r. by destruct (Z.testbit i n), (Z.testbit _ n).
  - rewrite !andb_false_r. symmetry. by apply (in_width_bits p).
Qed.

Lemma home_range e i : home nb e i -> 0 <= i < nb.
Proof. intros [->| ->]; apply mask_bucket_range. Qed.

Lemma home_alt e i : home nb e i -> home nb e (alt nb i (e_fp e)).
Proof. intros [->| ->]; [by right|left]. apply alt_alt, mask_bucket_range. Qed.

End Homes.

(** ** Entries of a table *)

Section Entries.
Context (k v : Z) (Hk : 0 < k <= 32) (Hv : 0 <= v <= 32).
Abbreviation mask := (mask v).
Abbreviation cell := (cell k v).
Abbreviation TableOk := (TableOk k v).

Definition in_cells (r : CuckooTable) (i f d : Z) : Prop :=
  f <> 0 /\ 0 <= i < num_buckets_ r /\ exists j, 0 <= j < 4 /\ cell r i j = (f, d).

Definition stored (r : CuckooTable) (i f d : Z) : Prop :=
  in_cells r i f d
  \/ full_ r = true /\ victim_index_ r = i /\ victim_fp_ r = f /\ mask (victim_data_ r) = d.

(** The entries while the entry [f0], [d0] waits for a cell of bucket [i0]. *)
Definition waiting (r : CuckooTable) (i0 f0 d0 i f d : Z) : Prop :=
  in_cells r i f d \/ i = i0 /\ f = f0 /\ d = mask d0.

(** The entries [S] are exactly those of the list, each in one of its buckets. *)
Definition Repr (nb : Z) (S : Z -> Z -> Z -> Prop) (l : list Entry) : Prop :=
  (forall e, e ∈ l -> exists i, home nb e i /\ S i (e_fp e) (mask (e_data e))) /\
  (forall i f d, S i f d -> exists e, e ∈ l /\ home nb e i /\ e_fp e = f /\ mask (e_data e) = d).

Definition moved (nb : Z) (S S' : Z -> Z -> Z -> Prop) : Prop :=
  forall i f d, 0 <= i < nb -> S i f d -> S' i f d \/ S' (alt nb i f) f d.

Lemma Repr_moved nb S S' l :
  (exists p, 0 <= p < 32 /\ nb = 2 ^ p) -> (forall i f d, S' i f d -> 0 <= i < nb) ->
  moved nb S S' -> moved nb S' S -> Repr nb S l -> Repr nb S' l.
Proof.
  intros Hnb Hr' H1 H2 [Hc Hs]. split.
  - intros e He. destruct (Hc e He) as (i & Hi & HS).
    destruct (H1 _ _ _ (home_range _ Hnb _ _ Hi) HS); eauto using home_alt.
  - intros i f d HS. pose proof (Hr' _ _ _ HS) as Hi.
    destruct (H2 _ _ _ Hi HS) as [HS'|HS']; destruct (Hs _ _ _ HS') as (e & He & Hh & <- & <-).
    + eauto.
    + exists e. apply home_alt in Hh; [|done]. rewrite alt_alt in Hh by done. done.
Qed.

(** A value that fits its cell. *)
Definition data_ok (d : Z) : Prop := is_u32 d /\ (v <> 0 -> d < 2 ^ v).

Record VictimOk (r : CuckooTable) : Prop := {
  vo_none : full_ r = false -> victim_index_ r = 0 /\ victim_data_ r = 0 /\ victim_fp_ r = 0;
  vo_some : full_ r = true ->
    0 <= victim_index_ r < num_buckets_ r /\ 0 < victim_fp_ r < 2 ^ k /\ data_ok (victim_data_ r) }.

Lemma mask_data d : data_ok d -> v <> 0 -> mask d = d.
Proof. intros [[? ?] Hd] Hne. unfold mask. destruct (Z.eqb_spec v 0); [done|]. apply Z.mod_small. auto. Qed.

Lemma cell_data r i j : data_ok (cell r i j).2.
Proof.
  pose proof (cell_range k v Hk Hv r i j) as [_ Hm]. destruct (cell r i j) as [f d]. cbn in *.
  unfold CuckooLemmas.mask in Hm. destruct (Z.eqb_spec v 0); [subst d; split; [by vm_compute|done]|].
  pose proof (Z.mod_pos_bound d (2 ^ v) ltac:(apply Z.pow_pos_nonneg; lia)).
  rewrite Hm in *. split; [|lia]. eapply (in_width_mono v); [lia|done].
Qed.

(** Putting an entry into a cell replaces what the cell held. *)
Lemma in_cells_write r i0 j0 f0 d0 s :
  f0 <> 0 -> 0 <= i0 < num_buckets_ r -> 0 <= j0 < 4 ->
  (forall i' j', 0 <= i' < num_buckets_ r -> 0 <= j' < 4 ->
     cell (set_space s r) i' j' = if (i0 =? i') && (j0 =? j') then (f0, mask d0) else cell r i' j') ->
  let r' := set_space s r in
  in_cells r' i0 f0 (mask d0) /\
  (forall i f d, in_cells r i f d -> in_cells r' i f d \/ (i = i0 /\ (f, d) = cell r i0 j0)) /\
  (forall i f d, in_cells r' i f d -> in_cells r i f d \/ (i = i0 /\ f = f0 /\ d = mask d0)).
Proof.
  intros Hf Hi0 Hj0 Hcell r'. split; [|split].
  - split; [done|]. split; [done|]. exists j0. split; [done|]. rewrite Hcell by done. by rewrite !Z.eqb_refl.
  - intros i f d (Hn & Hi & j & Hj & Hc). destruct (Z.eqb_spec i0 i) as [<-|Hne].
    + destruct (Z.eqb_spec j0 j) as [<-|Hnj]; [by right|].
      left. split; [done|]. split; [done|]. exists j. split; [done|]. rewrite Hcell by done.
      destruct (Z.eqb_spec j0 j); [lia|]. by rewrite andb_false_r.
    + left. split; [done|]. split; [done|]. exists j. split; [done|]. rewrite Hcell by done.
      destruct (Z.eqb_spec i0 i); [lia|]. done.
  - intros i f d (Hn & Hi & j & Hj & Hc). cbn in Hi. rewrite Hcell in Hc by done.
    destruct (Z.eqb_spec i0 i) as [<-|], (Z.eqb_spec j0 j) as [<-|]; cbn [andb] in Hc;
      try (left; split; [done|]; split; [done|]; by eauto).
    simplify_eq. by right.
Qed.

Section Insert.
Context (r : CuckooTable) (Hr : TableOk r) (Hnf : full_ r = false).

Definition other (i f d j : Z) : Prop := (cell r i j).1 <> 0 /\ cell r i j <> (f, mask d).

(** What the scan of a bucket can find. *)
Lemma place_spec js i f d :
  0 <= i < num_buckets_ r -> 0 < f < 2 ^ k -> Forall (fun j => 0 <= j < 4) js ->
  (exists j s, 0 <= j < 4 /\ (cell r i j).1 = 0 /\ Block.place k v js r i f d = Some (Some (set_space s r)) /\
     TableOk (set_space s r) /\
     forall i' j', 0 <= i' < num_buckets_ r -> 0 <= j' < 4 ->
       cell (set_space s r) i' j' = if (i =? i') && (j =? j') then (f, mask d) else cell r i' j')
  \/ (exists j, 0 <= j < 4 /\ cell r i j = (f, mask d) /\ Block.place k v js r i f d = Some (Some r))
  \/ (Block.place k v js r i f d = Some None /\ Forall (other i f d) js).
Proof.
  intros Hi Hf. induction 1 as [|j js Hj _ IH]; cbn [Block.place]; [by right; right|].
  rewrite pair_cell by lia. cbn. pose proof (cell_range k v Hk Hv r i j) as [_ Hm].
  destruct (Z.eqb_spec (cell r i j).1 0) as [H0|H0].
  { left. destruct (Write_spec k v Hk Hv r i j f d) as (s & -> & Hok & Hc); [done..|].
    exists j, s. by rewrite H0. }
  assert (Hskip : cell r i j <> (f, mask d) -> forall x, x = Block.place k v js r i f d ->
    (exists j s, 0 <= j < 4 /\ (cell r i j).1 = 0 /\ x = Some (Some (set_space s r)) /\ TableOk (set_space s r) /\
       forall i' j', 0 <= i' < num_buckets_ r -> 0 <= j' < 4 ->
       cell (set_space s r) i' j' = if (i =? i') && (j =? j') then (f, mask d) else cell r i' j')
    \/ (exists j, 0 <= j < 4 /\ cell r i j = (f, mask d) /\ x = Some (Some r))
    \/ (x = Some None /\ Forall (other i f d) (j :: js))).
  { intros Ho x ->. destruct IH as [?|[?|[? ?]]]; [by left|by right; left|].
    right; right. split; [done|]. by constructor. }
  destruct (cell r i j) as [f' d'] eqn:Ec. cbn [fst snd] in *.
  destruct (Z.eqb_spec f' f) as [->|Hne]; [|apply Hskip; [congruence|done]].
  destruct (Z.eqb_spec v 0) as [Hv0|Hv0].
  - right; left. exists j. split; [done|]. split; [|done]. rewrite Ec. f_equal.
    rewrite <- Hm. unfold CuckooLemmas.mask. by rewrite Hv0.
  - rewrite (land_mask v Hv). destruct (Z.eqb_spec d' (d mod 2 ^ v)) as [->|Hd].
    + right; left. exists j. split; [done|]. split; [|done]. rewrite Ec. f_equal.
      unfold CuckooLemmas.mask. by destruct (Z.eqb_spec v 0).
    + apply Hskip; [|done]. unfold CuckooLemmas.mask. destruct (Z.eqb_spec v 0); [done|]. congruence.
Qed.

Lemma victim_index rnd : 0 <= Z.land rnd 3 < 4.
Proof. change 3 with (Z.ones 2). apply (land_ones_range rnd 2). lia. Qed.

Lemma kick_spec i f d rnd :
  0 <= i < num_buckets_ r -> 0 < f < 2 ^ k -> data_ok d -> Forall (other i f d) [0; 1; 2; 3] ->
  exists j s rnd', 0 <= j < 4 /\ (cell r i j).1 <> 0 /\
    Block.kick k v r i f d rnd = Some (set_space s r, cell r i j, rnd') /\ TableOk (set_space s r) /\
    forall i' j', 0 <= i' < num_buckets_ r -> 0 <= j' < 4 ->
      cell (set_space s r) i' j' = if (i =? i') && (j =? j') then (f, mask d) else cell r i' j'.
Proof.
  intros Hi Hf Hd Ho. unfold Block.kick. set (rnd' := Random.Next rnd).
  pose proof (victim_index rnd') as Hj. set (j := Z.land rnd' 3) in *.
  assert (Hoj : other i f d j).
  { rewrite Forall_forall in Ho. apply Ho. destruct (Z.eq_dec j 0); [set_solver|].
    destruct (Z.eq_dec j 1); [set_solver|]. destruct (Z.eq_dec j 2); [set_solver|].
    replace j with 3 by lia. set_solver. }
  destruct Hoj as [Hn0 Hoj]. rewrite pair_cell by lia. cbn.
  pose proof (cell_range k v Hk Hv r i j) as [_ Hm].
  destruct (Z.eqb_spec (cell r i j).1 0); [done|]. cbn [orb].
  assert (Ha : ((cell r i j).1 =? f) && ((v =? 0) || ((cell r i j).2 =? d)) = false).
  { destruct (cell r i j) as [f' d'] eqn:Ec. cbn [fst snd] in *.
    destruct (Z.eqb_spec f' f) as [->|]; [cbn [andb]|done].
    destruct (Z.eqb_spec v 0) as [Hv0|]; cbn [orb].
    - exfalso. apply Hoj. f_equal. rewrite <- Hm. unfold CuckooLemmas.mask. by rewrite Hv0.
    - destruct (Z.eqb_spec d' d) as [->|]; [|done]. exfalso. apply Hoj. by rewrite Hm. }
  rewrite Ha. destruct (Write_spec k v Hk Hv r i j f d) as (s & -> & Hok & Hc); [done..|].
  exists j, s, rnd'. done.
Qed.

End Insert.

(** The entries across the steps of an insertion. *)
Section Steps.
Context (r : CuckooTable) (Hr : TableOk r) (Hnf : full_ r = false).
Context (i f d : Z) (Hi : 0 <= i < num_buckets_ r) (Hf : 0 < f < 2 ^ k) (l : list Entry).
Context (HR : Repr (num_buckets_ r) (waiting r i f d) l).

Lemma waiting_full :
  Repr (num_buckets_ r) (stored (mkTable (frac_ r) (space_ r) (num_buckets_ r) i d f true)) l.
Proof.
  eapply Repr_moved; [apply Hr| | | |exact HR].
  - intros i' f' d' [(_ & ? & _)|(_ & <- & _)]; done.
  - intros i' f' d' Hi' [?|(-> & -> & ->)]; left; [by left|by right].
  - intros i' f' d' Hi' [?|(_ & <- & <- & <-)]; left; [by left|by right].
Qed.

Lemma waiting_found j : 0 <= j < 4 -> cell r i j = (f, mask d) -> Repr (num_buckets_ r) (stored r) l.
Proof.
  intros Hj Hc. eapply Repr_moved; [apply Hr| | | |exact HR].
  - intros i' f' d' [(_ & ? & _)|(Hfull & _)]; [done|]. congruence.
  - intros i' f' d' Hi' [Hin|(-> & -> & ->)]; left; left; [done|].
    split; [lia|]. split; [done|]. by exists j.
  - intros i' f' d' Hi' [Hin|(Hfull & _)]; [|congruence]. left. by left.
Qed.

Lemma waiting_alt : Repr (num_buckets_ r) (waiting r (alt (num_buckets_ r) i f) f d) l.
Proof.
  eapply Repr_moved; [apply Hr| | | |exact HR].
  - intros i' f' d' [(_ & ? & _)|(-> & _)]; [done|]. apply mask_bucket_range, Hr.
  - intros i' f' d' Hi' [Hin|(-> & -> & ->)]; [left; by left|]. right. by right.
  - intros i' f' d' Hi' [Hin|(-> & -> & ->)]; [left; by left|]. right. right.
    rewrite alt_alt by (done || apply Hr). done.
Qed.

Context (s : bytes) (j : Z) (Hj : 0 <= j < 4).
Context (Hc : forall i' j', 0 <= i' < num_buckets_ r -> 0 <= j' < 4 ->
  cell (set_space s r) i' j' = if (i =? i') && (j =? j') then (f, mask d) else cell r i' j').

Lemma waiting_placed : (cell r i j).1 = 0 -> Repr (num_buckets_ r) (stored (set_space s r)) l.
Proof.
  intros H0. destruct (in_cells_write r i j f d s) as (Hn & Ho & Hb); [lia|done|done|done|].
  eapply Repr_moved; [apply Hr| | | |exact HR].
  - intros i' f' d' [(_ & ? & _)|(Hfull & _)]; [done|]. cbn in Hfull. congruence.
  - intros i' f' d' Hi' [Hin|(-> & -> & ->)]; left; left; [|done].
    destruct (Ho _ _ _ Hin) as [?|[-> He]]; [done|]. destruct Hin as (Hz & _). rewrite <- He in H0. done.
  - intros i' f' d' Hi' [Hin|(Hfull & _)]; [|cbn in Hfull; congruence]. left.
    destruct (Hb _ _ _ Hin) as [?|?]; [by left|by right].
Qed.

Lemma waiting_kicked :
  let c := cell r i j in
  c.1 <> 0 -> Repr (num_buckets_ r) (waiting (set_space s r) (alt (num_buckets_ r) i c.1) c.1 c.2) l.
Proof.
  intros c H0. destruct (in_cells_write r i j f d s) as (Hn & Ho & Hb); [lia|done|done|done|].
  pose proof (cell_range k v Hk Hv r i j) as [Hfr Hdm]. fold c in Hfr, Hdm, Ho.
  eapply Repr_moved; [apply Hr| | | |exact HR].
  - intros i' f' d' [(_ & ? & _)|(-> & _)]; [done|]. apply mask_bucket_range, Hr.
  - intros i' f' d' Hi' [Hin|(-> & -> & ->)]; [|left; by left].
    destruct (Ho _ _ _ Hin) as [?|[-> He]]; [left; by left|]. right. right.
    rewrite <- He in *. cbn in *. by rewrite Hdm.
  - intros i' f' d' Hi' [Hin|(-> & -> & ->)].
    + destruct (Hb _ _ _ Hin) as [?|?]; [left; by left|left; by right].
    + right. left. rewrite alt_alt by (done || apply Hr). rewrite Hdm.
      split; [done|]. split; [done|]. exists j. split; [done|]. subst c. by destruct (cell r i j).
Qed.

End Steps.

Lemma AddTo_loop_spec n : forall moves r i f d rnd l,
  TableOk r -> full_ r = false -> VictimOk r -> 0 <= i < num_buckets_ r -> 0 < f < 2 ^ k -> data_ok d ->
  Repr (num_buckets_ r) (waiting r i f d) l ->
  exists r' rnd', Block.AddTo_loop k v n moves r i f d rnd = Some (r', rnd') /\
    TableOk r' /\ VictimOk r' /\ num_buckets_ r' = num_buckets_ r /\ Repr (num_buckets_ r) (stored r') l.
Proof.
  induction n as [|n IH]; intros moves r i f d rnd l Hr Hnf Hvo Hi Hf Hd HR; cbn [Block.AddTo_loop].
  - pose proof (to_pos k v r Hr). rewrite u32_small by (unfold in_width; lia).
    eexists _, _. split; [done|]. split; [by destruct Hr|]. split; [by split|]. split; [done|].
    by apply waiting_full.
  - destruct (place_spec r Hr Hnf [0; 1; 2; 3] i f d) as [(j & s & Hj & H0 & -> & Hok & Hc)|[(j & Hj & Hc & ->)|[-> Ho]]];
      [done|done|repeat constructor; lia|..]; cbn.
    + exists (set_space s r), rnd. split; [done|]. split; [done|]. split; [by destruct Hvo|]. split; [done|].
      eauto using waiting_placed.
    + exists r, rnd. split_and!; eauto using waiting_found.
    + destruct (negb (moves =? 0)).
      * destruct (kick_spec r Hr Hnf i f d rnd) as (j & s & rnd' & Hj & Hn0 & -> & Hok & Hc); [done..|]. cbn.
        pose proof (cell_range k v Hk Hv r i j) as [Hfr Hdm].
        apply (IH (moves + 1) (set_space s r)); [done|done|by destruct Hvo|apply mask_bucket_range, Hr|lia|apply cell_data|].
        eapply (waiting_kicked r); eauto.
      * cbn. apply IH; try done; [apply mask_bucket_range, Hr|]. by apply waiting_alt.
Qed.

(** An insertion adds its entry and keeps the others. *)
Lemma AddTo_spec max_moves e data r rnd l :
  TableOk r -> full_ r = false -> VictimOk r -> 0 < e_fp e < 2 ^ k -> data_ok data -> mask data = mask (e_data e) ->
  Repr (num_buckets_ r) (stored r) l ->
  exists r' rnd', Block.AddTo k v max_moves (e_hash e) (e_fp e) data r rnd = Some (r', rnd') /\
    TableOk r' /\ VictimOk r' /\ num_buckets_ r' = num_buckets_ r /\ Repr (num_buckets_ r) (stored r') (l ++ [e]).
Proof.
  intros Hr Hnf Hvo Hf Hd Hm [Hc Hs]. unfold Block.AddTo. rewrite Hnf.
  apply AddTo_loop_spec; try done; [apply mask_bucket_range, Hr|]. split.
  - intros e' [He|He%list_elem_of_singleton]%elem_of_app.
    + destruct (Hc e' He) as (i & Hi & [?|(Hfull & _)]); [|congruence]. exists i. split; [done|]. by left.
    + subst e'. eexists. split; [by left|]. by right.
  - intros i f d [Hin|(-> & -> & ->)].
    + destruct (Hs i f d (or_introl Hin)) as (e' & He & ?). exists e'. split; [|done]. apply elem_of_app. by left.
    + exists e. split; [set_solver|]. split; [by left|done].
Qed.

(** An empty table. *)
Lemma in_cells_empty r n i f d : space_ r = replicate n 0 -> ~ in_cells r i f d.
Proof.
  intros Hs (Hf & _ & j & _ & Hc). apply Hf. unfold CuckooLemmas.cell, split_cell, CuckooBucket.get, CuckooBucket.load in Hc.
  rewrite Hs, drop_replicate, take_replicate in Hc.
  assert (E : forall m, Fixed.decode (replicate m 0) = 0) by (intros m; induction m as [|m IH]; cbn; [done|by rewrite IH]).
  rewrite E, Z.shiftr_0_l, Z.land_0_l, Z.shiftr_0_l in Hc. by destruct (negb (v =? 0)); simplify_eq.
Qed.

Lemma empty_Repr r n : space_ r = replicate n 0 -> full_ r = false -> Repr (num_buckets_ r) (stored r) [].
Proof.
  intros Hs Hnf. split; [set_solver|].
  intros i f d [Hin|(Hfull & _)]; [by destruct (in_cells_empty r n i f d Hs)|congruence].
Qed.

End Entries.
