(* ===== verification/CuckooProps.v ===== *)
(** * Cuckoo filters: what is added is found

    A block keeps its keys in a main table and a list of staged keys
    ([BlockOk]); the staged keys fill the auxiliary tables.  The tester finds in
    the bytes of [Finish] exactly the entries of the tables ([tables_spec]).
    [cuckoo_exact] puts both together, for blocks that need at most one
    auxiliary table; [CuckooDemo.second_table_values] shows what happens beyond
    that. *)
From S2P Require Import Prelude Coding Gigaplus XXHashImpl Cuckoo CuckooLemmas.

#[local] Opaque F64.div F64.mul F64.of_Z UpperPower2.

Section Block.
Context `{XXHash} (k v : Z) (Hk : 0 < k <= 28) (Hv : 0 <= v <= 32).

Definition entry_of (item : bytes * Z) : Entry :=
  mkEntry (CuckooHash item.1) (CuckooFingerprint (CuckooHash item.1) k) item.2.

Lemma fingerprint_range key : 0 < CuckooFingerprint (CuckooHash key) k < 2 ^ k.
Proof.
  unfold CuckooFingerprint. pose proof (u64_range (xxhash64 key 0)) as Hu. fold (CuckooHash key) in Hu.
  apply (shiftr_in_width 64 _ (64 - k)) in Hu; [|lia..]. replace (64 - (64 - k)) with k in Hu by lia.
  set (x := Z.shiftr _ _) in *. assert (2 ^ k < 2 ^ 32) by (apply Z.pow_lt_mono_r; lia).
  assert (2 ^ 1 <= 2 ^ k) by (apply Z.pow_le_mono_r; lia).
  destruct Hu as [? ?]. rewrite (u32_small x) by (unfold in_width; lia).
  destruct (Z.eqb_spec x 0); rewrite u32_small by (unfold in_width; lia); lia.
Qed.

(** ** Fresh tables *)

Lemma sizeof_small : 0 < CuckooBucket.sizeof (k + v) < 2 ^ 6.
Proof.
  split; [apply sizeof_pos; lia|]. unfold CuckooBucket.sizeof. apply Z.div_lt_upper_bound; lia.
Qed.

Lemma ceil_range x n : F64.ceil_to_size_t x = Some n -> 0 <= n < 2 ^ 64.
Proof.
  unfold F64.ceil_to_size_t. intros Hc. destruct x as [| | |s m e]; simplify_eq; [lia|].
  destruct s; [destruct (_ && _); simplify_eq; lia|].
  destruct (Z.ltb_spec (if 0 <=? e then Z.pos m * 2 ^ e else - (- Z.pos m / 2 ^ (- e))) (2 ^ 64)); simplify_eq.
  split; [|done]. destruct (Z.leb_spec 0 e); [pose proof (Z.pow_nonneg 2 e); lia|].
  pose proof (Z.pow_pos_nonneg 2 (- e) ltac:(lia) ltac:(lia)).
  pose proof (Z.div_lt_upper_bound (- Z.pos m) (2 ^ (- e)) 1 ltac:(lia) ltac:(lia)). lia.
Qed.

Lemma pow2_buckets p nb :
  0 <= p <= 64 -> nb = u64 (2 ^ p) -> 0 < nb < 2 ^ 32 -> exists p, 0 <= p < 32 /\ nb = 2 ^ p.
Proof.
  intros Hp -> Hnb. destruct (Z.eq_dec p 64) as [->|].
  { unfold u64 in Hnb. rewrite Z.mod_same in Hnb by lia. lia. }
  pose proof (Z.pow_pos_nonneg 2 p ltac:(lia) ltac:(lia)).
  assert (2 ^ p < 2 ^ 64) by (apply Z.pow_lt_mono_r; lia).
  assert (E : u64 (2 ^ p) = 2 ^ p) by (apply u64_small; unfold in_width; lia).
  exists p. split; [|done]. split; [lia|]. apply (Z.pow_lt_mono_r_iff 2); lia.
Qed.

Lemma buckets_for_pow frac n nb :
  Table.buckets_for frac n = Some nb -> 0 < nb < 2 ^ 32 -> exists p, 0 <= p < 32 /\ nb = 2 ^ p.
Proof.
  unfold Table.buckets_for. intros Hb Hnb.
  assert (nb = 1 \/ exists m, 1 <= m < 2 ^ 64 /\ nb = UpperPower2 m) as [->|(m & Hm & E)].
  { destruct (if F64.ltb _ _ then _ else _) as [m|] eqn:Ec; [|done].
    assert (0 <= m < 2 ^ 64).
    { destruct (F64.ltb _ _); [by apply ceil_range in Ec|]. pose proof (u32_range (n + 3)) as [? ?].
      injection Ec as <-. split; [apply Z.div_pos; lia|]. apply Z.div_lt_upper_bound; lia. }
    injection Hb as <-. destruct (Z.eqb_spec m 0); [by left|right]. exists m. split; [lia|done]. }
  - by exists 0.
  - destruct (UpperPower2_spec m Hm) as (p & Hp & E' & _). apply (pow2_buckets p); [done|congruence|done].
Qed.

Lemma Resize_table r n r' :
  Table.Resize k v r n = Some r' -> full_ r = false -> VictimOk k v r -> 0 < num_buckets_ r' < 2 ^ 32 ->
  TableOk k v r' /\ VictimOk k v r' /\ full_ r' = false /\ Repr v (num_buckets_ r') (stored k v r') [].
Proof.
  unfold Table.Resize. intros Hz Hnf Hvo Hnb. destruct (Table.buckets_for _ _) as [nb|] eqn:Eb; [|done].
  cbn in Hz. simplify_eq. cbn [num_buckets_] in Hnb. pose proof sizeof_small.
  pose proof (buckets_for_pow _ _ _ Eb Hnb).
  assert (is_u64 (nb * CuckooBucket.sizeof (k + v))) by (unfold in_width; nia).
  split_and!; [split; cbn| |done|].
  - done.
  - unfold zlen. rewrite length_replicate, u64_small by done. nia.
  - apply Forall_replicate. by apply in_width_0.
  - destruct Hvo as [Hn Hs]. split; cbn; [done|]. congruence.
  - eapply empty_Repr; [lia|lia|reflexivity|done].
Qed.

Lemma Resize_buckets r n r' : Table.Resize k v r n = Some r' -> Table.buckets_for (frac_ r) n = Some (num_buckets_ r').
Proof. unfold Table.Resize. destruct (Table.buckets_for _ _); [|done]. cbn. by intros [= <-]. Qed.

Lemma New_table frac r : Table.New k v frac = Some r -> frac_ r = frac /\ full_ r = false /\ VictimOk k v r.
Proof.
  unfold Table.New, Table.Reset, Table.Resize. cbn [frac_]. destruct (Table.buckets_for _ _); [|done].
  cbn [mbind option_bind frac_ space_ num_buckets_]. intros [= <-]. split; [done|]. split; [done|]. by split.
Qed.

Lemma Reset_table r n r' :
  Table.Reset k v r n = Some r' -> 0 < num_buckets_ r' < 2 ^ 32 ->
  TableOk k v r' /\ VictimOk k v r' /\ full_ r' = false /\ Repr v (num_buckets_ r') (stored k v r') [].
Proof.
  unfold Table.Reset, Table.Resize. destruct (Table.buckets_for _ _) as [nb|] eqn:Eb; [|done].
  cbn. intros Hr Hnb. apply (Resize_table (mkTable (frac_ r) [] 0 0 0 0 false) n); [|done|by split|done].
  unfold Table.Resize. cbn. rewrite Eb. by simplify_eq.
Qed.

(** ** Adding keys *)

Definition item_ok (item : bytes * Z) : Prop := zlen item.1 < 2 ^ 32 /\ data_ok v item.2.

(** A block: [l1] is in the main table, [l2] is staged. *)
Record BlockOk (b : CuckooBlock) (l1 l2 : list (bytes * Z)) : Prop := {
  bo_table : TableOk k v (rep_ b);
  bo_victim : VictimOk k v (rep_ b);
  bo_repr : Repr v (num_buckets_ (rep_ b)) (stored k v (rep_ b)) (entry_of <$> l1);
  bo_open : finished_ b = false;
  bo_more : morereps_ b = [];
  bo_sizes : key_sizes_ b = (fun item => zlen item.1) <$> l2;
  bo_keys : keys_ b = concat (fst <$> l2);
  bo_values : v <> 0 -> values_ b = snd <$> l2;
  bo_staged : full_ (rep_ b) = false -> l2 = [];
  bo_items : Forall item_ok l2 }.

Lemma AddKey_block b l1 l2 item :
  BlockOk b l1 l2 -> item_ok item ->
  exists b', Block.AddKey k v b item.1 item.2 = Some b' /\ num_buckets_ (rep_ b') = num_buckets_ (rep_ b) /\
    (BlockOk b' l1 (l2 ++ [item]) \/ l2 = [] /\ BlockOk b' (l1 ++ [item]) []).
Proof.
  intros [Ht Hvo Hrep Ho Hm Hs Hks Hvs Hst Hit] [Hlen Hd]. unfold Block.AddKey. rewrite Ho.
  destruct (full_ (rep_ b)) eqn:Ef.
  - eexists. split; [done|]. split; [done|]. left. split; cbn; try done.
    + rewrite Hs, fmap_app. cbn. rewrite u32_small; [done|]. pose proof (zlen_nonneg item.1). unfold in_width. lia.
    + rewrite Hks, fmap_app, concat_app. cbn. by rewrite app_nil_r.
    + intros Hne. destruct (Z.eqb_spec v 0); [done|]. cbn. by rewrite Hvs, fmap_app.
    + by rewrite Ef.
    + apply Forall_app. split; [done|]. by apply Forall_singleton.
  - destruct (AddTo_spec k v ltac:(lia) Hv (max_cuckoo_moves_ b) (entry_of item) item.2 (rep_ b) (rnd_ b) (entry_of <$> l1))
      as (r' & rnd' & HA & Ht' & Hv' & Hn' & HR'); [done..|apply fingerprint_range|done|done|done|].
    cbn in HA. rewrite HA. cbn. eexists. split; [done|]. split; [done|]. right.
    specialize (Hst eq_refl) as ->. split; [done|]. split; cbn; try done.
    by rewrite fmap_app, Hn'.
Qed.

(** The keys of a list, added one by one. *)
Fixpoint AddKeys (b : CuckooBlock) (items : list (bytes * Z)) : option CuckooBlock :=
  match items with
  | [] => Some b
  | item :: items => let? b := Block.AddKey k v b item.1 item.2 in AddKeys b items
  end.

Lemma AddKeys_ok items b l1 l2 :
  BlockOk b l1 l2 -> Forall item_ok items ->
  exists b' l1' l2', AddKeys b items = Some b' /\ BlockOk b' l1' l2' /\ l1' ++ l2' = l1 ++ l2 ++ items.
Proof.
  intros Hb Hit. revert b l1 l2 Hb. induction Hit as [|item items Hi _ IH]; intros b l1 l2 Hb; cbn [AddKeys].
  { exists b, l1, l2. by rewrite app_nil_r. }
  destruct (AddKey_block b l1 l2 item Hb Hi) as (b' & -> & _ & [Hb'|[-> Hb']]); cbn.
  - destruct (IH _ _ _ Hb') as (b'' & l1' & l2' & ? & ? & E). exists b'', l1', l2'.
    split; [done|]. split; [done|]. rewrite E. by rewrite <- (app_assoc l2).
  - destruct (IH _ _ _ Hb') as (b'' & l1' & l2' & ? & ? & E). exists b'', l1', l2'.
    split; [done|]. split; [done|]. rewrite E. by rewrite <- app_assoc.
Qed.

(** ** Auxiliary tables *)

(** The staged keys of a block. *)
Definition Staged (b : CuckooBlock) (l : list (bytes * Z)) : Prop :=
  key_sizes_ b = ((fun item => zlen item.1) <$> l) /\ keys_ b = concat (fst <$> l) /\
  (v <> 0 -> values_ b = snd <$> l) /\ Forall item_ok l.

Lemma key_at_staged b pre key rest :
  keys_ b = concat (fst <$> (pre : list (bytes * Z))) ++ key ++ rest ->
  Block.key_at b (zlen (concat (fst <$> pre))) (zlen key) = Some key.
Proof.
  intros Hks. unfold Block.key_at. rewrite Hks, !zlen_app. pose proof (zlen_nonneg rest).
  destruct (Z.leb_spec (zlen (concat (fst <$> pre)) + zlen key)
    (zlen (concat (fst <$> pre)) + (zlen key + zlen rest) + 1)); [|lia].
  f_equal. unfold zlen. rewrite !Nat2Z.id, <- !app_assoc, drop_app_length, take_app_length. done.
Qed.

Lemma fill_spec b pre rest r rnd l :
  Staged b (pre ++ rest) -> TableOk k v r -> VictimOk k v r -> full_ r = false ->
  Repr v (num_buckets_ r) (stored k v r) (entry_of <$> l) ->
  exists r' rnd' i' start',
    Block.fill k v (length rest) b (zlen pre) (zlen (concat (fst <$> pre))) r rnd = Some (r', rnd', i', start') /\
    TableOk k v r' /\ VictimOk k v r' /\ num_buckets_ r' = num_buckets_ r /\
    (full_ r' = false -> i' = zlen (pre ++ rest) /\
       Repr v (num_buckets_ r') (stored k v r') (entry_of <$> (l ++ rest))).
Proof.
  revert pre r rnd l. induction rest as [|item rest IH]; intros pre r rnd l HS Ht Hvo Hnf HR; cbn [Block.fill length].
  { eexists _, _, _, _. split; [done|]. rewrite !app_nil_r. done. }
  pose proof HS as (Hs & Hks & Hvs & Hit).
  assert (Hl : ((fun item => zlen item.1) <$> pre ++ item :: rest) !! Z.to_nat (zlen pre) = Some (zlen item.1)).
  { unfold zlen. rewrite Nat2Z.id, list_lookup_fmap, list_lookup_middle by done. done. }
  rewrite Hs, Hl. cbn [mbind option_bind].
  rewrite (key_at_staged b pre item.1 (concat (fst <$> rest))).
  2: { rewrite Hks, fmap_app, concat_app. done. }
  cbn [mbind option_bind].
  assert (Hitem : item_ok item) by (apply (Forall_app item_ok pre (item :: rest)) in Hit as [_ Hc]; by inversion Hc).
  assert (Hval : exists value, (if negb (v =? 0) then values_ b !! Z.to_nat (zlen pre) else Some 0) = Some value /\
    data_ok v value /\ mask v value = mask v item.2).
  { destruct (Z.eqb_spec v 0) as [Hv0|Hne]; cbn [negb].
    - exists 0. split; [done|]. split; [split; [by apply in_width_0|done]|]. unfold mask. by rewrite Hv0.
    - exists item.2. rewrite Hvs by done. split; [|split; [apply Hitem|done]].
      unfold zlen. rewrite Nat2Z.id, list_lookup_fmap, list_lookup_middle by done. done. }
  destruct Hval as (value & -> & Hd & Hm). cbn [mbind option_bind].
  destruct (AddTo_spec k v ltac:(lia) Hv (max_cuckoo_moves_ b) (entry_of item) value r rnd (entry_of <$> l))
    as (r1 & rnd1 & HA & Ht1 & Hvo1 & Hn1 & HR1); [done..|apply fingerprint_range|done|done|done|].
  cbn in HA. rewrite HA. cbn [mbind option_bind]. destruct (full_ r1) eqn:Ef.
  { eexists _, _, _, _. split; [done|]. rewrite Ef. done. }
  destruct (IH (pre ++ [item]) r1 rnd1 (l ++ [item])) as (r' & rnd' & i' & start' & HF & Ht' & Hvo' & Hn' & Hfin).
  - by rewrite <- app_assoc.
  - done.
  - done.
  - done.
  - by rewrite Hn1, fmap_app.
  - rewrite fmap_app, concat_app, !zlen_app in HF. cbn in HF. rewrite app_nil_r in HF.
    exists r', rnd', i', start'. rewrite <- !app_assoc in Hfin. split_and!; [done..|lia|done].
Qed.

Lemma fill_ext n b b' i start r rnd :
  key_sizes_ b = key_sizes_ b' -> values_ b = values_ b' -> keys_ b = keys_ b' ->
  max_cuckoo_moves_ b = max_cuckoo_moves_ b' ->
  Block.fill k v n b i start r rnd = Block.fill k v n b' i start r rnd.
Proof.
  intros E1 E2 E3 E4. revert i start r rnd. induction n as [|n IH]; intros i start r rnd; cbn [Block.fill]; [done|].
  unfold Block.key_at. rewrite E1, E2, E3, E4. destruct (key_sizes_ b' !! _); [cbn|done].
  destruct (_ <=? _); [cbn|done]. destruct (if negb (v =? 0) then _ else _); [cbn|done].
  destruct (Block.AddTo _ _ _ _ _ _ _ _) as [[r' rnd']|]; [cbn|done]. destruct (full_ r'); [done|]. apply IH.
Qed.

(** The staged keys fit one auxiliary table (of less than 2^32 buckets). *)
Definition aux_ok (b : CuckooBlock) : bool :=
  let limit := u32 (zlen (key_sizes_ b)) in
  (limit =? 0) ||
  match Table.buckets_for Block.frac_aux limit, Block.build_table k v b limit 0 0 (rnd_ b) with
  | Some nb, Some (r, _, _, _) => (0 <? nb) && (nb <? 2 ^ 32) && negb (full_ r)
  | _, _ => false
  end.

(** A finished table and the items in it. *)
Definition Holds (r : CuckooTable) (l : list (bytes * Z)) : Prop :=
  TableOk k v r /\ VictimOk k v r /\ Repr v (num_buckets_ r) (stored k v r) (entry_of <$> l).

Definition sealed (r : CuckooTable) : bytes := space_ (Table.Seal r).

Definition layout (rs : list CuckooTable) : bytes :=
  concat (sealed <$> rs) ++ EncodeFixed32 (u32 (zlen rs)) ++ EncodeFixed32 v ++ EncodeFixed32 k.

Lemma build_aux b l2 :
  Staged b l2 -> 0 < zlen l2 < 2 ^ 32 -> aux_ok b = true ->
  exists r rnd start, Block.build_table k v b (zlen l2) 0 0 (rnd_ b) = Some (r, rnd, zlen l2, start) /\ Holds r l2.
Proof.
  intros HS Hl Ha. unfold aux_ok in Ha. pose proof HS as (Hs & _).
  assert (Hz : u32 (zlen (key_sizes_ b)) = zlen l2).
  { rewrite Hs. unfold zlen in *. rewrite length_fmap. apply u32_small. unfold in_width. lia. }
  rewrite Hz in Ha. destruct (Z.eqb_spec (zlen l2) 0); [lia|]. cbn [orb] in Ha.
  destruct (Table.buckets_for Block.frac_aux (zlen l2)) as [nb|] eqn:Eb; [|done].
  unfold Block.build_table in *. rewrite Z.sub_0_r, (u32_small (zlen l2)) in * by (unfold in_width; lia).
  destruct (Table.New k v Block.frac_aux) as [r0|] eqn:E0; [|done]. cbn [mbind option_bind] in *.
  destruct (New_table _ _ E0) as (Hfr & Hnf0 & Hvo0).
  destruct (Table.Resize k v r0 (zlen l2)) as [r|] eqn:E1; [|done]. cbn [mbind option_bind] in *.
  assert (Hnb : num_buckets_ r = nb).
  { pose proof (Resize_buckets _ _ _ E1) as E2. rewrite Hfr, Eb in E2. by injection E2. }
  replace (Z.to_nat (zlen l2)) with (length l2) in * by (unfold zlen; lia).
  assert (Hb : 0 < nb < 2 ^ 32).
  { destruct (Block.fill _ _ _ _ _ _ _ _) as [[[[? ?] ?] ?]|]; [|discriminate].
    apply andb_true_iff in Ha as [[? ?]%andb_true_iff _]. lia. }
  destruct (Resize_table r0 _ r E1) as (Ht & Hvo & Hnf & HR); [done|done|lia|].
  destruct (fill_spec b [] l2 r (rnd_ b) []) as (r' & rnd' & i' & start' & HF & Ht' & Hvo' & Hn' & Hfin); [done..|].
  change (zlen (concat (fst <$> []))) with 0 in HF. change (zlen []) with 0 in HF.
  rewrite HF in Ha. rewrite HF. destruct (full_ r'); [by rewrite andb_false_r in Ha|]. destruct Hfin as [-> HR']; [reflexivity|].
  exists r', rnd', start'. split; [reflexivity|]. by split_and!.
Qed.

Lemma Finish_block b l1 l2 :
  BlockOk b l1 l2 -> zlen l2 < 2 ^ 32 -> aux_ok b = true ->
  exists b' rs ls, Block.Finish k v b = Some (layout rs, b') /\ Forall2 Holds rs ls /\ concat ls = l1 ++ l2 /\
    0 < zlen rs <= 2.
Proof.
  intros [Ht Hvo HR Ho Hm Hs Hks Hvs _ Hit] Hl Ha. unfold Block.Finish. rewrite Ho.
  set (b0 := mkBlock _ _ _ _ _ _ _ _). unfold Block.MaybeBuildMoreTables.
  assert (Hz : u32 (zlen (key_sizes_ b0)) = zlen l2).
  { cbn. rewrite Hs. unfold zlen in *. rewrite length_fmap. apply u32_small. unfold in_width. lia. }
  rewrite Hz. destruct l2 as [|item l2].
  - change (zlen []) with 0. cbn [Z.to_nat Block.build_loop Z.eqb mbind option_bind]. eexists _, [rep_ b], [l1].
    split; [|split; [by apply Forall2_cons|done]]. unfold layout, sealed. subst b0.
    cbn [morereps_ rep_ set_rep app fmap list_fmap concat]. rewrite Hm. cbn [app fmap list_fmap concat].
    rewrite app_nil_r. reflexivity.
  - set (l := item :: l2) in *. assert (0 < zlen l) by (unfold l; rewrite zlen_cons; pose proof (zlen_nonneg l2); lia).
    destruct (build_aux b l) as (r & rnd & start & HB & Hr); [by split_and!|lia|done|].
    assert (HB0 : Block.build_table k v b0 (zlen l) 0 0 (rnd_ b0) = Some (r, rnd, zlen l, start)).
    { rewrite <- HB. unfold Block.build_table. destruct (Table.New _ _ _); [cbn|done].
      destruct (Table.Resize _ _ _ _); [cbn|done]. by apply fill_ext. }
    destruct (Z.to_nat (zlen l)) as [|fuel] eqn:En; [lia|]. cbn [Block.build_loop].
    destruct (Z.eqb_spec 0 (zlen l)); [lia|]. rewrite HB0. cbn [mbind option_bind].
    assert (Hend : Block.build_loop k v fuel b0 (zlen l) (zlen l) start rnd = Some ([], rnd)).
    { destruct fuel; cbn [Block.build_loop]; by rewrite Z.eqb_refl. }
    rewrite Hend. cbn [mbind option_bind]. eexists _, [rep_ b; r], [l1; l].
    clear HB HB0 Hend. split; [|split; [|split]].
    + unfold layout, sealed. subst b0. cbn [morereps_ rep_ set_rep]. rewrite Hm. cbn [app fmap list_fmap concat].
      rewrite !app_nil_r, <- !app_assoc. reflexivity.
    + constructor; [by split_and!|]. constructor; [exact Hr|constructor].
    + cbn [concat]. by rewrite app_nil_r.
    + unfold zlen. cbn [length]. lia.
Qed.

(** ** Reading *)

Import CuckooKeyTester.

Lemma fixed_before_at a x c n :
  is_u32 x -> n = 4 + zlen c -> fixed_before (a ++ EncodeFixed32 x ++ c) (zlen (a ++ EncodeFixed32 x ++ c)) n = x.
Proof.
  intros Hx ->. unfold fixed_before. rewrite !zlen_app. change (zlen (EncodeFixed32 x)) with 4.
  replace (zlen a + (4 + zlen c) - (4 + zlen c)) with (zlen a) by lia.
  unfold zlen. rewrite Nat2Z.id, drop_app_length. by apply DecodeFixed32_encode.
Qed.

Lemma fixed_before_app s rest n :
  4 <= n <= zlen s -> fixed_before (s ++ rest) (zlen s) n = fixed_before s (zlen s) n.
Proof.
  intros Hn. unfold fixed_before, DecodeFixed32. unfold zlen in *.
  rewrite drop_app_le, take_app_le by (rewrite ?length_drop; lia). done.
Qed.

Section Table.
Context (r : CuckooTable) (Ht : TableOk k v r) (Hvo : VictimOk k v r).

Lemma victim_u32 : is_u32 (victim_index_ r) /\ is_u32 (victim_data_ r) /\ is_u32 (victim_fp_ r).
Proof.
  pose proof (to_pos k v r Ht). destruct Hvo as [Hn Hs]. unfold in_width.
  assert (2 ^ k < 2 ^ 32) by (apply Z.pow_lt_mono_r; lia).
  destruct (full_ r); [destruct (Hs eq_refl) as (? & ? & [[? ?] _])|destruct (Hn eq_refl) as (-> & -> & ->)]; lia.
Qed.

Lemma zlen_sealed : zlen (sealed r) = num_buckets_ r * CuckooBucket.sizeof (k + v) + 16.
Proof. unfold sealed, Table.Seal. cbn [space_ set_space]. rewrite !zlen_app, (to_len _ _ _ Ht). change (zlen (EncodeFixed32 _)) with 4. lia. Qed.

Lemma sealed_fields :
  fixed_before (sealed r) (zlen (sealed r)) 16 = num_buckets_ r /\
  fixed_before (sealed r) (zlen (sealed r)) 12 = victim_index_ r /\
  fixed_before (sealed r) (zlen (sealed r)) 8 = victim_data_ r /\
  fixed_before (sealed r) (zlen (sealed r)) 4 = victim_fp_ r.
Proof.
  pose proof (to_pos k v r Ht) as Hp. destruct victim_u32 as (H1 & H2 & H3).
  assert (H0 : is_u32 (num_buckets_ r)) by (unfold in_width; lia).
  unfold sealed, Table.Seal. cbn [space_ set_space]. rewrite (u32_small _ H0).
  set (e1 := EncodeFixed32 (num_buckets_ r)). set (e2 := EncodeFixed32 (victim_index_ r)).
  set (e3 := EncodeFixed32 (victim_data_ r)). set (e4 := EncodeFixed32 (victim_fp_ r)). split_and!.
  - by apply fixed_before_at.
  - rewrite (app_assoc (space_ r)). by apply fixed_before_at.
  - rewrite (app_assoc (space_ r)), (app_assoc (_ ++ e1)). by apply fixed_before_at.
  - rewrite (app_assoc (space_ r)), (app_assoc (_ ++ e1)), (app_assoc ((_ ++ e1) ++ e2)), <- (app_nil_r e4).
    by apply fixed_before_at.
Qed.

Lemma sealed_buckets :
  take (Z.to_nat (zlen (sealed r) - 16)) (sealed r) = space_ r /\
  u32 (zlen (space_ r) / CuckooBucket.sizeof (k + v)) = num_buckets_ r.
Proof.
  rewrite zlen_sealed. pose proof (to_pos k v r Ht). pose proof sizeof_small. pose proof (to_len _ _ _ Ht) as Hl. split.
  - unfold sealed, Table.Seal. cbn [space_ set_space]. apply take_app_length'. unfold zlen in Hl. lia.
  - rewrite Hl, Z.div_mul by lia. apply u32_small. unfold in_width. lia.
Qed.

End Table.

Section Scan.
Context (r : CuckooTable).

(** The entry [f], [d] is in a cell of bucket [i1] or [i2]. *)
Definition in_cell (i1 i2 f d j : Z) : Prop := cell k v r i1 j = (f, d) \/ cell k v r i2 j = (f, d).

Context (i1 i2 f : Z) (H1 : i1 < num_buckets_ r) (H2 : i2 < num_buckets_ r).

Lemma fetch_values_spec js vs :
  Forall (fun j => j < 4) js ->
  exists vs', fetch_values k v js (space_ r) (num_buckets_ r) i1 i2 f vs = Some (vs ++ vs') /\
    forall x, x ∈ vs' <-> exists j, j ∈ js /\ in_cell i1 i2 f x j.
Proof.
  intros Hjs. revert vs. induction Hjs as [|j js Hj _ IH]; intros vs; cbn [fetch_values].
  { exists []. rewrite app_nil_r. split; [done|]. intros x. split; [set_solver|]. intros (j & Hj & _). set_solver. }
  fold (Table.pair k v r i1 j). fold (Table.pair k v r i2 j).
  rewrite !pair_cell by done. cbn [mbind option_bind].
  set (a1 := if (cell k v r i1 j).1 =? f then [(cell k v r i1 j).2] else []).
  set (a2 := if (cell k v r i2 j).1 =? f then [(cell k v r i2 j).2] else []).
  assert (Ea : forall (c : bool) (l : list Z) x, (if c then l ++ [x] else l) = l ++ if c then [x] else []).
  { intros []; [done|]. intros. by rewrite app_nil_r. }
  rewrite !Ea. fold a1 a2. destruct (IH ((vs ++ a1) ++ a2)) as (vs' & -> & Hvs).
  exists (a1 ++ a2 ++ vs'). split; [by rewrite <- !app_assoc|].
  assert (Ha : forall c : Z * Z, forall x, x ∈ (if c.1 =? f then [c.2] else []) <-> c = (f, x)).
  { intros [f' d'] x. cbn. destruct (Z.eqb_spec f' f); [|set_solver by congruence].
    rewrite list_elem_of_singleton. naive_solver. }
  intros x. rewrite !elem_of_app, Hvs. unfold a1, a2. rewrite !Ha. unfold in_cell.
  split.
  - intros [?|[?|(j' & ? & ?)]]; [exists j; set_solver..|exists j'; set_solver].
  - intros (j' & [->|?]%elem_of_cons & ?); naive_solver.
Qed.

Lemma fetch_key_spec js :
  Forall (fun j => j < 4) js ->
  exists found, fetch_key k v js (space_ r) (num_buckets_ r) i1 i2 f = Some found /\
    (found = true <-> exists j d, j ∈ js /\ in_cell i1 i2 f d j).
Proof.
  assert (Hkey : forall i j, i < num_buckets_ r -> j < 4 ->
    CuckooReader.key k v (space_ r) (num_buckets_ r) i j = Some (cell k v r i j).1).
  { intros i j Hi Hj. unfold CuckooReader.key, CuckooReader.Read, cell, split_cell.
    destruct (Z.ltb_spec i (num_buckets_ r)), (Z.ltb_spec j 4); try lia. cbn. by destruct (negb _). }
  induction 1 as [|j js Hj _ IH]; cbn [fetch_key].
  { exists false. split; [done|]. split; [done|]. intros (j & d & Hj & _). set_solver. }
  rewrite !Hkey by done. cbn [mbind option_bind]. unfold in_cell in *.
  destruct (Z.eqb_spec (cell k v r i1 j).1 f) as [E|N1].
  { exists true. split; [done|]. split; [|done]. intros _. exists j, (cell k v r i1 j).2. split; [set_solver|].
    left. rewrite <- E. by destruct (cell k v r i1 j). }
  destruct (Z.eqb_spec (cell k v r i2 j).1 f) as [E|N2].
  { exists true. split; [done|]. split; [|done]. intros _. exists j, (cell k v r i2 j).2. split; [set_solver|].
    right. rewrite <- E. by destruct (cell k v r i2 j). }
  destruct IH as (found & -> & Hf). exists found. split; [done|]. rewrite Hf. split.
  - intros (j' & d & ? & ?). exists j', d. set_solver.
  - intros (j' & d & [->|?]%elem_of_cons & Hc); [|by eauto]. exfalso. destruct Hc as [Hc|Hc]; rewrite Hc in *; done.
Qed.

End Scan.

(** The table has an entry for the key of [e], with value [x]. *)
Definition found (r : CuckooTable) (e : Entry) (x : Z) : Prop :=
  exists i, home (num_buckets_ r) e i /\ stored k v r i (e_fp e) x.

Section Fetch.
Context (r : CuckooTable) (Ht : TableOk k v r) (Hvo : VictimOk k v r) (e : Entry) (He : e_fp e <> 0).

Let nb := num_buckets_ r.
Let i1 := Z.land (e_hash e) (nb - 1).
Let i2 := alt nb i1 (e_fp e).

Definition is_victim : bool :=
  (victim_fp_ r =? e_fp e) && ((victim_index_ r =? i1) || (victim_index_ r =? i2)).

Lemma found_split x :
  found r e x <-> (is_victim = true /\ mask v (victim_data_ r) = x)
    \/ exists j, j ∈ [0; 1; 2; 3] /\ in_cell r i1 i2 (e_fp e) x j.
Proof.
  assert (Hj : forall j, j ∈ [0; 1; 2; 3] <-> 0 <= j < 4).
  { intros j. rewrite !elem_of_cons, elem_of_nil. lia. }
  unfold found, is_victim, stored, in_cells, in_cell. split.
  - intros (i & Hh & [(_ & _ & j & Hj' & Hc)|(_ & <- & Hf & <-)]).
    + right. exists j. rewrite Hj. split; [done|]. destruct Hh as [->| ->]; [by left|by right].
    + left. split; [|done]. rewrite Hf, Z.eqb_refl. cbn [andb].
      destruct Hh as [->| ->]; [by rewrite Z.eqb_refl|]. unfold i2, i1, nb. by rewrite Z.eqb_refl, orb_true_r.
  - intros [[Hv' <-]|(j & Hj'%Hj & Hc)].
    + apply andb_true_iff in Hv' as [Hf%Z.eqb_eq Hi]. exists (victim_index_ r). split.
      * unfold home. fold nb. fold i1. fold i2. apply orb_true_iff in Hi as [Hi|Hi]; apply Z.eqb_eq in Hi; [by left|by right].
      * right. split; [|done]. destruct (full_ r) eqn:Ef; [done|]. destruct (vo_none _ _ _ Hvo Ef) as (_ & _ & E0). congruence.
    + pose proof (mask_bucket_range nb (to_pow _ _ _ Ht)) as Hr. destruct Hc as [Hc|Hc].
      * exists i1. split; [by left|]. left. split; [done|]. split; [apply Hr|]. by exists j.
      * exists i2. split; [by right|]. left. split; [done|]. split; [apply Hr|]. by exists j.
Qed.

Lemma Fetch_head values :
  Fetch k v (e_hash e) (e_fp e) nb (sealed r) values
  = match wanted v values with
    | Some vs =>
        let? vs := fetch_values k v [0; 1; 2; 3] (space_ r) nb i1 i2 (e_fp e)
                     (if is_victim then vs ++ [victim_data_ r] else vs) in
        Some (bool_decide (vs <> []), Some vs)
    | None =>
        if is_victim then Some (true, values)
        else let? found := fetch_key k v [0; 1; 2; 3] (space_ r) nb i1 i2 (e_fp e) in Some (found, values)
    end.
Proof.
  unfold Fetch. destruct (sealed_fields r Ht Hvo) as (_ & -> & -> & ->). destruct (sealed_buckets r Ht) as [-> ->].
  pose proof (to_pos k v r Ht). pose proof sizeof_small. rewrite zlen_sealed by done.
  destruct (Z.ltb_spec (num_buckets_ r * CuckooBucket.sizeof (k + v) + 16) 16); [nia|].
  unfold nb. destruct (Z.eqb_spec (num_buckets_ r) 0); [lia|]. done.
Qed.

Lemma cells_range : i1 < nb /\ i2 < nb /\ Forall (fun j => j < 4) [0; 1; 2; 3].
Proof.
  pose proof (mask_bucket_range nb (to_pow _ _ _ Ht)) as Hr. split; [apply Hr|]. split; [apply Hr|].
  repeat constructor.
Qed.

Lemma Fetch_none values :
  wanted v values = None ->
  exists b, Fetch k v (e_hash e) (e_fp e) nb (sealed r) values = Some (b, values) /\ (b = true <-> exists x, found r e x).
Proof.
  intros Hw. rewrite Fetch_head, Hw. destruct cells_range as (H1 & H2 & Hjs). destruct is_victim eqn:Ev.
  - exists true. split; [done|]. split; [|done]. intros _. exists (mask v (victim_data_ r)). apply found_split. by left.
  - destruct (fetch_key_spec r i1 i2 (e_fp e) H1 H2 _ Hjs) as (b & Hfk & Hb).
    fold nb in Hfk. rewrite Hfk. exists b. split; [done|].
    rewrite Hb. split.
    + intros (j & d & ?). exists d. apply found_split. right. by exists j.
    + intros (x & [[? _]|(j & ?)]%found_split); [congruence|]. by exists j, x.
Qed.

Lemma Fetch_some vs :
  v <> 0 ->
  exists b vs', Fetch k v (e_hash e) (e_fp e) nb (sealed r) (Some vs) = Some (b, Some (vs ++ vs')) /\
    forall x, x ∈ vs' <-> found r e x.
Proof.
  intros Hne. rewrite Fetch_head. unfold wanted. destruct (Z.eqb_spec v 0); [done|]. cbn [negb].
  destruct cells_range as (H1 & H2 & Hjs).
  set (a := if is_victim then [victim_data_ r] else []).
  assert (Ea : (if is_victim then vs ++ [victim_data_ r] else vs) = vs ++ a).
  { subst a. destruct is_victim; [done|by rewrite app_nil_r]. }
  rewrite Ea. destruct (fetch_values_spec r i1 i2 (e_fp e) H1 H2 _ (vs ++ a) Hjs) as (vs' & Hfv & Hvs).
  fold nb in Hfv. rewrite Hfv.
  cbn [mbind option_bind]. rewrite <- app_assoc. eexists _, (a ++ vs'). split; [done|].
  intros x. rewrite elem_of_app, Hvs, found_split. apply or_iff_compat_r. subst a. destruct is_victim eqn:Ev.
  - rewrite list_elem_of_singleton. assert (Hd : data_ok v (victim_data_ r)).
    { destruct (full_ r) eqn:Ef; [apply (vo_some _ _ _ Hvo Ef)|].
      unfold is_victim in Ev. destruct (vo_none _ _ _ Hvo Ef) as (_ & _ & E0). rewrite E0 in Ev.
      destruct (Z.eqb_spec 0 (e_fp e)); [congruence|done]. }
    rewrite (mask_data v) by (done || lia). naive_solver.
  - set_solver.
Qed.

End Fetch.

(** ** The loop over the tables *)

Section Tables.
Context (e : Entry) (He : e_fp e <> 0).

Definition TabOk (r : CuckooTable) : Prop := TableOk k v r /\ VictimOk k v r.

Lemma zlen_concat_pos rs r : TabOk r -> zlen (concat (sealed <$> (rs ++ [r]))) = zlen (concat (sealed <$> rs)) + zlen (sealed r).
Proof. intros _. rewrite fmap_app, concat_app, zlen_app. cbn. by rewrite app_nil_r. Qed.

(** One round reads the last table that is left. *)
Lemma tables_step fuel rs r ts rest values :
  TabOk r ->
  let s := concat (sealed <$> rs) in
  tables_loop k v (S fuel) (zlen (rs ++ [r])) (e_hash e) (e_fp e)
    (zlen (concat (sealed <$> (rs ++ [r]))) + ts) ts (concat (sealed <$> (rs ++ [r])) ++ rest) values
  = (let? (found, values) := Fetch k v (e_hash e) (e_fp e) (num_buckets_ r) (sealed r) values in
     if found && bool_decide (wanted v values = None) then Some (true, values)
     else tables_loop k v fuel (zlen rs) (e_hash e) (e_fp e) (zlen s + zlen (sealed r)) (zlen (sealed r))
            (s ++ sealed r ++ rest) values).
Proof.
  intros [Ht Hvo] s. assert (Hpos := zlen_nonneg s). pose proof (zlen_nonneg rs) as Hrs.
  rewrite zlen_concat_pos by done. fold s. pose proof (to_pos k v r Ht). pose proof sizeof_small.
  assert (Einp : concat (sealed <$> (rs ++ [r])) ++ rest = s ++ sealed r ++ rest).
  { rewrite fmap_app, concat_app. cbn. by rewrite app_nil_r, <- app_assoc. }
  rewrite Einp. cbn [tables_loop]. rewrite zlen_app. change (zlen [r]) with 1.
  destruct (Z.eqb_spec (zlen rs + 1) 0); [lia|]. pose proof (zlen_sealed r Ht) as Hz.
  destruct (Z.ltb_spec (zlen s + zlen (sealed r) + ts) ts); [nia|].
  replace (zlen s + zlen (sealed r) + ts - ts) with (zlen (s ++ sealed r)) by (rewrite zlen_app; lia).
  rewrite zlen_app. destruct (Z.ltb_spec (zlen s + zlen (sealed r)) 16); [nia|].
  assert (Hnb : fixed_before (s ++ sealed r ++ rest) (zlen s + zlen (sealed r)) 16 = num_buckets_ r).
  { rewrite <- zlen_app, app_assoc, fixed_before_app by (rewrite zlen_app; nia).
    destruct (sealed_fields r Ht Hvo) as [Hf _]. rewrite <- Hf. unfold fixed_before.
    rewrite zlen_app. f_equal. unfold zlen in *. rewrite drop_app_ge by nia. f_equal. lia. }
  rewrite Hnb. destruct (Z.eqb_spec (num_buckets_ r) 0); [lia|]. rewrite <- Hz.
  destruct (Z.ltb_spec (zlen s + zlen (sealed r)) (zlen (sealed r))); [lia|].
  assert (Etab : take (Z.to_nat (zlen (sealed r))) (drop (Z.to_nat (zlen s + zlen (sealed r) - zlen (sealed r))) (s ++ sealed r ++ rest))
    = sealed r).
  { replace (zlen s + zlen (sealed r) - zlen (sealed r)) with (zlen s) by lia. unfold zlen.
    by rewrite !Nat2Z.id, drop_app_length, take_app_length. }
  rewrite Etab. replace (zlen rs + 1 - 1) with (zlen rs) by lia. done.
Qed.

Lemma tables_none rs fuel ts rest values :
  Forall TabOk rs -> (length rs <= fuel)%nat -> wanted v values = None ->
  exists b, tables_loop k v fuel (zlen rs) (e_hash e) (e_fp e) (zlen (concat (sealed <$> rs)) + ts) ts
      (concat (sealed <$> rs) ++ rest) values = Some (b, values) /\
    (b = true <-> exists r x, r ∈ rs /\ found r e x).
Proof.
  intros Hrs Hf Hw. revert fuel ts rest Hf. induction rs as [|r rs IH] using rev_ind; intros fuel ts rest Hf.
  { exists false. destruct fuel; cbn; rewrite Hw; (split; [done|]); (split; [done|]); intros (r & x & Hr & _); set_solver. }
  apply Forall_app in Hrs as [Hrs [Hr _]%Forall_cons]. rewrite length_app in Hf. cbn in Hf.
  destruct fuel as [|fuel]; [lia|]. rewrite tables_step by done.
  destruct (Fetch_none r ltac:(apply Hr) ltac:(apply Hr) e He values Hw) as (b & -> & Hb). cbn [mbind option_bind].
  rewrite bool_decide_eq_true_2, andb_true_r by done. destruct b.
  - exists true. split; [done|]. split; [|done]. intros _. destruct Hb as [[x Hx] _]; [done|]. exists r, x. set_solver.
  - destruct (IH Hrs fuel (zlen (sealed r)) (sealed r ++ rest) ltac:(lia)) as (b & -> & Hb'). exists b. split; [done|].
    rewrite Hb'. split; [intros (r' & x & ? & ?); exists r', x; set_solver|].
    intros (r' & x & [?|Hr'%list_elem_of_singleton]%elem_of_app & Hx); [by eauto|]. subst r'.
    destruct Hb as [_ Hb]. by discriminate Hb; eauto.
Qed.

Lemma tables_some rs fuel ts rest vs :
  v <> 0 -> Forall TabOk rs -> (length rs <= fuel)%nat ->
  exists vs', tables_loop k v fuel (zlen rs) (e_hash e) (e_fp e) (zlen (concat (sealed <$> rs)) + ts) ts
      (concat (sealed <$> rs) ++ rest) (Some vs) = Some (bool_decide (vs ++ vs' <> []), Some (vs ++ vs')) /\
    forall x, x ∈ vs' <-> exists r, r ∈ rs /\ found r e x.
Proof.
  intros Hne Hrs Hf.
  assert (Hw : forall l, wanted v (Some l) = Some l) by (intros l; unfold wanted; by destruct (Z.eqb_spec v 0)).
  revert fuel ts rest vs Hf. induction rs as [|r rs IH] using rev_ind; intros fuel ts rest vs Hf.
  { exists []. rewrite app_nil_r. split; [destruct fuel; cbn; by rewrite Hw|]. set_solver. }
  apply Forall_app in Hrs as [Hrs [Hr _]%Forall_cons]. rewrite length_app in Hf. cbn in Hf.
  destruct fuel as [|fuel]; [lia|]. rewrite tables_step by done.
  destruct (Fetch_some r ltac:(apply Hr) ltac:(apply Hr) e He vs Hne) as (b & a & -> & Ha). cbn [mbind option_bind].
  rewrite Hw, bool_decide_eq_false_2, andb_false_r by done.
  destruct (IH Hrs fuel (zlen (sealed r)) (sealed r ++ rest) (vs ++ a) ltac:(lia)) as (vs' & -> & Hvs).
  exists (a ++ vs'). rewrite <- !app_assoc. split; [done|]. intros x. rewrite elem_of_app, Ha, Hvs.
  split; [intros [?|(r' & ? & ?)]; [exists r|exists r']; set_solver|].
  intros (r' & [?|Hr'%list_elem_of_singleton]%elem_of_app & Hx); [right; by eauto|]. subst r'. by left.
Qed.

End Tables.

(** ** What a finished block answers *)

Lemma found_items r l key x :
  Holds r l ->
  (found r (entry_of (key, 0)) x ->
   exists item, item ∈ l /\ e_fp (entry_of item) = e_fp (entry_of (key, 0)) /\ mask v item.2 = x) /\
  (forall value, (key, value) ∈ l -> found r (entry_of (key, 0)) (mask v value)).
Proof.
  intros (Ht & Hvo & Hc & Hs). split.
  - intros (i & _ & Hst). destruct (Hs _ _ _ Hst) as (e & (item & -> & Hin)%list_elem_of_fmap & _ & Hf & Hm). by exists item.
  - intros value Hin. destruct (Hc (entry_of (key, value))) as (i & Hh & Hst); [by apply list_elem_of_fmap_2|].
    by exists i.
Qed.

(** The tables of a block find exactly what was put into them. *)
Lemma found_tables rs ls key x :
  Forall2 Holds rs ls ->
  ((exists r, r ∈ rs /\ found r (entry_of (key, 0)) x) ->
   exists item, item ∈ concat ls /\ e_fp (entry_of item) = e_fp (entry_of (key, 0)) /\ mask v item.2 = x) /\
  (forall value, (key, value) ∈ concat ls -> exists r, r ∈ rs /\ found r (entry_of (key, 0)) (mask v value)).
Proof.
  induction 1 as [|r l rs ls Hr _ IH]; cbn [concat].
  { split; [intros (r & Hr & _); set_solver|intros value Hin; set_solver]. }
  destruct (found_items r l key x Hr) as [Hs1 Hc1]. destruct IH as [Hs2 Hc2]. split.
  - intros (r' & [->|Hr']%elem_of_cons & Hx).
    + destruct (Hs1 Hx) as (item & ? & ?). exists item. set_solver.
    + destruct Hs2 as (item & ? & ?); [by exists r'|]. exists item. set_solver.
  - intros value [Hin|Hin]%elem_of_app; [exists r; set_solver|]. destruct (Hc2 value Hin) as (r' & ? & ?).
    exists r'. set_solver.
Qed.

Lemma layout_fields rs :
  zlen rs < 2 ^ 32 ->
  zlen (layout rs) = zlen (concat (sealed <$> rs)) + 12 /\
  fixed_before (layout rs) (zlen (layout rs)) 12 = zlen rs /\
  fixed_before (layout rs) (zlen (layout rs)) 8 = v /\
  fixed_before (layout rs) (zlen (layout rs)) 4 = k.
Proof.
  intros Hrs. pose proof (zlen_nonneg rs). unfold layout. rewrite (u32_small (zlen rs)) by (unfold in_width; lia).
  set (c := concat _). set (e1 := EncodeFixed32 (zlen rs)). set (e2 := EncodeFixed32 v). set (e3 := EncodeFixed32 k).
  split; [by rewrite !zlen_app|]. split_and!.
  - apply fixed_before_at; [unfold in_width; lia|done].
  - rewrite (app_assoc c). apply fixed_before_at; [unfold in_width; lia|done].
  - rewrite (app_assoc c), (app_assoc (c ++ e1)), <- (app_nil_r e3). apply fixed_before_at; [unfold in_width; lia|done].
Qed.

Lemma run_layout key rs values :
  instance k v = true -> 0 < zlen rs <= 2 ->
  CuckooValues key (layout rs) values
  = tables_loop k v (length (layout rs)) (zlen rs) (CuckooHash key) (CuckooFingerprint (CuckooHash key) k)
      (zlen (concat (sealed <$> rs)) + 12) 12 (layout rs) values.
Proof.
  intros Hi Hrs. destruct (layout_fields rs ltac:(lia)) as (Hz & H12 & H8 & H4). pose proof (zlen_nonneg (concat (sealed <$> rs))).
  unfold CuckooValues, run. rewrite H8, H4, H12, Hi, !Z.eqb_refl. cbn [negb orb].
  destruct (Z.ltb_spec (zlen (layout rs)) 8); [lia|]. destruct (Z.ltb_spec (zlen (layout rs)) 12); [lia|].
  destruct (Z.eqb_spec (zlen rs) 0); [lia|]. by rewrite Hz.
Qed.

Lemma layout_answers rs ls key :
  instance k v = true -> 0 < zlen rs <= 2 -> Forall2 Holds rs ls -> Forall item_ok (concat ls) ->
  let same item := e_fp (entry_of item) = e_fp (entry_of (key, 0)) in
  (exists b, CuckooKeyMayMatch key (layout rs) = Some b /\
     (forall value, (key, value) ∈ concat ls -> b = true) /\
     (b = true -> exists item, item ∈ concat ls /\ same item)) /\
  (v <> 0 -> exists vs, CuckooValues key (layout rs) (Some []) = Some (bool_decide (vs <> []), Some vs) /\
     (forall value, (key, value) ∈ concat ls -> value ∈ vs) /\
     (forall x, x ∈ vs -> exists key', (key', x) ∈ concat ls /\ same (key', x))).
Proof.
  intros Hi Hrs HF Hok same. set (e := entry_of (key, 0)) in *.
  assert (He : e_fp e <> 0) by (pose proof (fingerprint_range key); cbn; lia).
  assert (Htab : Forall TabOk rs).
  { clear - HF. induction HF as [|r l rs ls (Ht & Hvo & _)]; constructor; [by split|done]. }
  assert (Hfuel : (length rs <= length (layout rs))%nat).
  { destruct (layout_fields rs ltac:(lia)) as [Hz _]. pose proof (zlen_nonneg (concat (sealed <$> rs))). unfold zlen in *. lia. }
  assert (Hmask : forall item, v <> 0 -> item ∈ concat ls -> mask v item.2 = item.2).
  { intros item Hne Hin. rewrite Forall_forall in Hok. apply mask_data; [|done]. by apply Hok. }
  split.
  - unfold CuckooKeyMayMatch. rewrite run_layout by done.
    destruct (tables_none e He rs (length (layout rs)) 12 (EncodeFixed32 (u32 (zlen rs)) ++ EncodeFixed32 v ++ EncodeFixed32 k) None)
      as (b & HT & Hb); [done|done|unfold wanted; by destruct (negb _)|].
    cbn [e_hash e_fp e entry_of fst] in HT. fold (layout rs) in HT. rewrite HT. exists b. split; [done|]. split.
    + intros value Hin. apply Hb. destruct (found_tables rs ls key 0 HF) as [_ Hc].
      destruct (Hc value Hin) as (r & ? & ?). by exists r, (mask v value).
    + intros Hbt. destruct Hb as [Hb _]. destruct (Hb Hbt) as (r & x & Hr & Hx).
      destruct (found_tables rs ls key x HF) as [Hs _]. destruct Hs as (item & ? & ? & _); [by exists r|]. by exists item.
  - intros Hne. rewrite run_layout by done.
    destruct (tables_some e He rs (length (layout rs)) 12 (EncodeFixed32 (u32 (zlen rs)) ++ EncodeFixed32 v ++ EncodeFixed32 k) [])
      as (vs & HT & Hvs); [done|done|done|].
    cbn [e_hash e_fp e entry_of fst app] in HT. fold (layout rs) in HT. rewrite HT. exists vs. split; [done|]. split.
    + intros value Hin. destruct (found_tables rs ls key 0 HF) as [_ Hc].
      apply Hvs. pose proof (Hmask (key, value) Hne Hin) as E. cbn [snd] in E. rewrite <- E. by apply Hc.
    + intros x Hx. destruct (found_tables rs ls key x HF) as [Hs _].
      destruct Hs as ([key' value] & Hin & Hf & Hm); [by apply Hvs|]. rewrite (Hmask _ Hne Hin) in Hm. cbn in Hm. subst value.
      by exists key'.
Qed.

End Block.

Lemma instance_range k v : instance k v = true -> 0 < k <= 28 /\ 0 <= v <= 32.
Proof.
  unfold instance. intros Hi.
  destruct (Z.eqb_spec v 32), (Z.eqb_spec v 0), (Z.eqb_spec k 8), (Z.eqb_spec k 4); cbn [orb] in Hi; try done;
    apply bool_decide_eq_true in Hi; rewrite !elem_of_cons, elem_of_nil in Hi; lia.
Qed.

Lemma reset_block `{XXHash} k v b n b0 :
  0 < k <= 28 -> 0 <= v <= 32 -> Block.Reset k v b n = Some b0 -> 0 < num_buckets_ (rep_ b0) < 2 ^ 32 ->
  BlockOk k v b0 [] [].
Proof.
  intros Hk Hv Hb Hnb. unfold Block.Reset in Hb. destruct (Table.Reset k v (rep_ b) n) as [r|] eqn:Er; [|done].
  cbn [mbind option_bind] in Hb. injection Hb as <-. cbn [rep_] in Hnb.
  destruct (Reset_table k v Hk Hv _ _ _ Er Hnb) as (Ht & Hvo & Hnf & HR). split; try done.
Qed.

(** C27.  A cuckoo filter answers exactly.  Add any items (key, value) to a reset
    block, whatever insertions move around; no assertion fails.  If the keys
    that do not fit the main table fit one auxiliary table, [Finish] produces
    bytes in which every key added is found, a key found shares its fingerprint
    with a key added, and the values reported for a key are its own and those
    of keys with the same fingerprint. *)
Theorem cuckoo_exact `{XXHash} k v b n b0 items :
  instance k v = true -> Block.Reset k v b n = Some b0 -> 0 < num_buckets_ (rep_ b0) < 2 ^ 32 ->
  Forall (item_ok v) items -> zlen items < 2 ^ 32 ->
  exists b1, AddKeys k v b0 items = Some b1 /\
    (aux_ok k v b1 = true ->
     exists input b2, Block.Finish k v b1 = Some (input, b2) /\
     forall key,
       let same key' := CuckooFingerprint (CuckooHash key') k = CuckooFingerprint (CuckooHash key) k in
       (exists found, CuckooKeyMayMatch key input = Some found /\
          (forall value, (key, value) ∈ items -> found = true) /\
          (found = true -> exists item, item ∈ items /\ same item.1)) /\
       (v <> 0 -> exists values,
          CuckooValues key input (Some []) = Some (bool_decide (values <> []), Some values) /\
          (forall value, (key, value) ∈ items -> value ∈ values) /\
          (forall x, x ∈ values -> exists key', (key', x) ∈ items /\ same key'))).
Proof.
  intros Hi Hr Hnb Hit Hn. destruct (instance_range k v Hi) as [Hk Hv].
  pose proof (reset_block k v b n b0 Hk Hv Hr Hnb) as Hb0.
  destruct (AddKeys_ok k v Hk Hv items b0 [] [] Hb0 Hit) as (b1 & l1 & l2 & HA & Hb1 & El). cbn [app] in El.
  exists b1. split; [done|]. intros Ha.
  assert (zlen l2 < 2 ^ 32) by (rewrite <- El, zlen_app in Hn; pose proof (zlen_nonneg l1); lia).
  destruct (Finish_block k v Hk Hv b1 l1 l2 Hb1) as (b2 & rs & ls & HF & Hrs & Ec & Hl); [done|done|].
  exists (layout k v rs), b2. split; [done|]. intros key same.
  rewrite <- El, <- Ec in Hit |- *. apply (layout_answers k v Hk Hv rs ls key); done.
Qed.

(** ** Arbitrary bytes *)

Section Robust.
Context `{XXHash} (k v : Z) (Hk : 0 < k <= 28) (Hv : 0 <= v <= 32).
Import CuckooKeyTester.

Lemma fixed_before_u32 input tail n : bytes_ok input -> is_u32 (fixed_before input tail n).
Proof.
  intros Hb. unfold fixed_before, DecodeFixed32. set (l := take 4 _).
  assert (Hl : bytes_ok l) by (apply Forall_take, Forall_drop, Hb).
  eapply in_width_mono; [|exact (decode_width l Hl)]. unfold l, zlen. rewrite length_take. lia.
Qed.

Lemma land_below x nb : 0 < nb -> Z.land x (nb - 1) < nb.
Proof.
  intros Hn. pose proof (Z.land_nonneg x (nb - 1)). destruct (Z.eq_dec (Z.land x (nb - 1)) 0); [lia|].
  assert (0 < Z.land x (nb - 1)) by lia. destruct (Z.eq_dec nb 1) as [->|]; [by rewrite Z.land_0_r in *|].
  assert (E : Z.ldiff (nb - 1) x + Z.land x (nb - 1) = nb - 1).
  { rewrite Z.add_nocarry_lor.
    - rewrite (Z.land_comm x). apply Z.bits_inj'. intros i Hi.
      rewrite Z.lor_spec, Z.ldiff_spec, Z.land_spec. by destruct (Z.testbit (nb - 1) i), (Z.testbit x i).
    - apply Z.bits_inj'. intros i Hi. rewrite !Z.land_spec, Z.ldiff_spec, Z.bits_0.
      by destruct (Z.testbit (nb - 1) i), (Z.testbit x i). }
  assert (0 <= Z.ldiff (nb - 1) x) by (apply Z.ldiff_nonneg; lia). lia.
Qed.

Lemma Read_total s nb i j : i < nb -> j < 4 -> is_Some (CuckooReader.Read k v s nb i j).
Proof. intros Hi Hj. unfold CuckooReader.Read. destruct (Z.ltb_spec i nb), (Z.ltb_spec j 4); try lia. by eexists. Qed.

Lemma fetch_values_total js s nb i1 i2 f vs :
  i1 < nb -> i2 < nb -> Forall (fun j => j < 4) js -> is_Some (fetch_values k v js s nb i1 i2 f vs).
Proof.
  intros H1 H2 Hjs. revert vs. induction Hjs as [|j js Hj _ IH]; intros vs; cbn [fetch_values]; [by eexists|].
  unfold CuckooReader.pair. destruct (Read_total s nb i1 j H1 Hj) as [x ->]. cbn [mbind option_bind].
  destruct (Read_total s nb i2 j H2 Hj) as [y ->]. apply IH.
Qed.

Lemma fetch_key_total js s nb i1 i2 f :
  i1 < nb -> i2 < nb -> Forall (fun j => j < 4) js -> is_Some (fetch_key k v js s nb i1 i2 f).
Proof.
  intros H1 H2. induction 1 as [|j js Hj _ IH]; cbn [fetch_key]; [by eexists|].
  unfold CuckooReader.key. destruct (Read_total s nb i1 j H1 Hj) as [x ->]. cbn [mbind option_bind].
  destruct (_ =? f); [by eexists|]. destruct (Read_total s nb i2 j H2 Hj) as [y ->]. cbn [mbind option_bind].
  by destruct (_ =? f); [eexists|].
Qed.

Lemma Fetch_total ha f nb s values :
  0 < nb < 2 ^ 32 -> zlen s = nb * CuckooBucket.sizeof (k + v) + 16 -> is_Some (Fetch k v ha f nb s values).
Proof.
  intros Hnb Hs. pose proof (sizeof_small k v Hk Hv). unfold Fetch.
  destruct (Z.ltb_spec (zlen s) 16); [nia|]. destruct (Z.eqb_spec nb 0); [lia|]. cbn [orb].
  assert (E : u32 (zlen (take (Z.to_nat (zlen s - 16)) s) / CuckooBucket.sizeof (k + v)) = nb).
  { unfold zlen at 1. rewrite length_take. unfold zlen in *.
    replace (Z.of_nat (Z.to_nat (Z.of_nat (length s) - 16) `min` length s)) with (nb * CuckooBucket.sizeof (k + v)) by nia.
    rewrite Z.div_mul by lia. apply u32_small. unfold in_width. lia. }
  rewrite E. destruct (wanted v values) as [vs|].
  - match goal with |- context [fetch_values k v ?a ?b ?c ?d ?e ?g ?h] =>
      destruct (fetch_values_total a b c d e g h) as [l ->] end; [apply land_below; lia..|repeat constructor|]. by eexists.
  - destruct (_ && _); [by eexists|].
    match goal with |- context [fetch_key k v ?a ?b ?c ?d ?e ?g] =>
      destruct (fetch_key_total a b c d e g) as [l ->] end; [apply land_below; lia..|repeat constructor|]. by eexists.
Qed.

Lemma tables_total input fuel : bytes_ok input -> forall num ha f remaining ts values,
  1 <= ts <= remaining -> remaining <= zlen input -> remaining <= Z.of_nat fuel ->
  is_Some (tables_loop k v fuel num ha f remaining ts input values).
Proof.
  intros Hb. pose proof (sizeof_small k v Hk Hv).
  induction fuel as [|fuel IH]; intros num ha f remaining ts values Hts Hrem Hfuel; [lia|]. cbn [tables_loop].
  destruct (num =? 0); [by eexists|]. destruct (Z.ltb_spec remaining ts); [lia|].
  destruct (Z.ltb_spec (remaining - ts) 16); [by eexists|].
  pose proof (fixed_before_u32 input (remaining - ts) 16 Hb) as [Hn0 Hn1]. set (nb := fixed_before _ _ _) in *.
  destruct (Z.eqb_spec nb 0); [by eexists|].
  destruct (Z.ltb_spec (remaining - ts) (nb * CuckooBucket.sizeof (k + v) + 16)); [by eexists|].
  match goal with |- context [Fetch k v ?a ?b ?c ?d ?e] => destruct (Fetch_total a b c d e) as [[found vals] ->] end; [lia| |].
  { unfold zlen in *. rewrite length_take, length_drop. nia. }
  cbn [mbind option_bind]. destruct (_ && _); [by eexists|]. apply IH; nia.
Qed.

End Robust.

(** C28.  Reading a filter is safe on any bytes: whatever the input, a truncated or
    corrupted filter included, the tester stops with an answer, without a failed
    assertion and without reading outside the input. *)
Theorem cuckoo_robust `{XXHash} key input values :
  bytes_ok input -> exists found values', CuckooValues key input values = Some (found, values').
Proof.
  intros Hb. unfold CuckooValues. destruct (Z.ltb_spec (zlen input) 8); [by eauto|].
  destruct (instance _ _) eqn:Hi; [|by eauto]. destruct (instance_range _ _ Hi) as [Hk Hv].
  unfold CuckooKeyTester.run. destruct (Z.ltb_spec (zlen input) 12); [by eauto|].
  rewrite !Z.eqb_refl. cbn [negb orb]. destruct (_ =? 0); [by eauto|].
  match goal with |- context [CuckooKeyTester.tables_loop ?k ?v ?fuel ?n ?ha ?f ?rem ?ts _ _] =>
    destruct (tables_total k v Hk Hv input fuel Hb n ha f rem ts values) as [[found vals] ->] end;
    [lia|lia|unfold zlen; lia|by eauto].
Qed.

(** ** A block of deltafs_api.cc *)

Module CuckooDemo.

#[local] Existing Instance XXHashImpl.pdlfs_xxhash.

(** The options of a side filter: the defaults, with a main table of exact size. *)
Definition side_options : CuckooOptions := mkCuckooOptions 301 500 (F64.of_Z (-1)).

Definition fresh (num_keys : Z) : option CuckooBlock :=
  let? b := Block.New 16 32 side_options in Block.Reset 16 32 b num_keys.

Definition keys_of (ks : list Z) : list (bytes * Z) := (fun c => ([c], 10 * c)) <$> ks.

(** Nine keys in a block for four: five stay in the main table. *)
Definition few : list (bytes * Z) := keys_of [1; 2; 3; 4; 5; 6; 7; 8; 9].

Definition no_block : CuckooBlock := mkBlock [] [] [] 0 false 0 [] (mkTable (F64.of_Z 0) [] 0 0 0 0 false).
Definition unreset : CuckooBlock := Eval vm_compute in default no_block (Block.New 16 32 side_options).
Definition reset4 : CuckooBlock := Eval vm_compute in default no_block (fresh 4).
Definition added : CuckooBlock := Eval vm_compute in default no_block (AddKeys 16 32 reset4 few).

Lemma few_ok : Forall (item_ok 32) few.
Proof.
  unfold few, keys_of. cbn [fmap list_fmap].
  repeat (constructor; [unfold item_ok, data_ok, in_width, zlen; cbn [fst snd length]; lia|]). constructor.
Qed.

Lemma reset4_runs : Block.Reset 16 32 unreset 4 = Some reset4.
Proof. vm_compute. reflexivity. Qed.

Lemma added_runs : AddKeys 16 32 reset4 few = Some added /\ aux_ok 16 32 added = true /\ Block.num_victims added = 4.
Proof. vm_compute. done. Qed.

Lemma cuckoo_exact_witness :
  exists input b2, Block.Finish 16 32 added = Some (input, b2) /\ CuckooKeyMayMatch [7] input = Some true.
Proof.
  destruct (cuckoo_exact 16 32 unreset 4 reset4 few) as (b1 & HA & Hfin);
    [reflexivity|exact reset4_runs|cbn; lia|exact few_ok|reflexivity|].
  destruct added_runs as (HA' & Haux & _). pose proof (Some_inj _ _ (eq_trans (eq_sym HA') HA)) as E. subst b1.
  destruct (Hfin Haux) as (input & b2 & HF & Hkey). exists input, b2. split; [exact HF|].
  destruct (Hkey [7]) as [(found & Hf & Hin & _) _]. rewrite Hf. f_equal. apply (Hin 70).
  apply (list_elem_of_lookup_2 few 6). reflexivity.
Defined.

Definition corrupted : bytes := [0; 0; 0; 0; 255; 255; 255; 255; 1; 2; 3; 4; 9; 0; 0; 0; 32; 0; 0; 0; 16; 0; 0; 0].

Lemma cuckoo_robust_witness : exists found values', CuckooValues [7] corrupted None = Some (found, values').
Proof. apply cuckoo_robust. repeat constructor; lia. Defined.

(** Staged keys that fill an auxiliary table: nine values of the key 97 (more
    than its two buckets hold), then three other keys. *)
Definition staged : list (bytes * Z) :=
  ((fun i => ([97], 100 + i)) <$> seqZ 0 9) ++ [([98], 200); ([99], 201); ([100], 202)].

(** After the first auxiliary table is full the next one is built with the keys
    shifted against their values: the value 200 of the key 98 is lost and
    another key's value 108 is reported for it, and the value 202 is nowhere. *)
Lemma second_table_values :
  exists input, (let? b := AddKeys 16 32 reset4 (keys_of [1; 2; 3; 4; 5] ++ staged) in
                 let? (input, b) := Block.Finish 16 32 b in
                 Some (input, Block.TEST_NumCuckooTables b)) = Some (input, 3) /\
    CuckooValues [98] input (Some []) = Some (true, Some [108]) /\
    CuckooValues [100] input (Some []) = Some (true, Some [201; 201]).
Proof. eexists. split; [vm_compute; reflexivity|]. vm_compute. done. Qed.

End CuckooDemo.
