(* ===== verification/PlfsFormat.v ===== *)
(** * Formats of indexed directories (plfsio/v1: types.h, format.h, format.cc;
      pdlfs-common: leveldb/format.h, format.cc)

    Options, block handles, the handles of tables and epochs, the stones that
    seal epochs and the footer of a log, with their encodings, and the keys of
    the meta index blocks.

    [None] is a failed assertion of an encoder, or an input a decoder refuses
    (the status is then Corruption). *)
From Stdlib Require Import Floats.SpecFloat.
From S2P Require Import Prelude Coding Status Filter SstBlock.

(** ** Options *)

Inductive DirMode := kDmMultiMap | kDmMultiMapUnordered | kDmUniqueUnordered | kDmUniqueDrop | kDmUniqueKey.

#[export] Instance DirMode_eq_dec : EqDecision DirMode.
Proof. solve_decision. Defined.

Definition mode_code (m : DirMode) : Z :=
  match m with
  | kDmMultiMap => 0x00 | kDmMultiMapUnordered => 0x10 | kDmUniqueUnordered => 0x90
  | kDmUniqueDrop => 0x81 | kDmUniqueKey => 0x80
  end.

(** The check of [Footer::DecodeFrom]. *)
Definition mode_of_code (c : Z) : option DirMode :=
  match c with
  | 0x00 => Some kDmMultiMap | 0x10 => Some kDmMultiMapUnordered | 0x90 => Some kDmUniqueUnordered
  | 0x81 => Some kDmUniqueDrop | 0x80 => Some kDmUniqueKey | _ => None
  end.

(** A footer may hold any byte as the type of a filter. *)
Inductive FilterType := kFtNoFilter | kFtBloomFilter | kFtBitmap | kFtUnknown (code : Z).

Definition filter_code (f : FilterType) : Z :=
  match f with kFtNoFilter => 0 | kFtBloomFilter => 1 | kFtBitmap => 2 | kFtUnknown c => c end.

Definition filter_of_code (c : Z) : FilterType :=
  match c with 0 => kFtNoFilter | 1 => kFtBloomFilter | 2 => kFtBitmap | _ => kFtUnknown c end.

Record DirOptions := mkOptions {
  leveldb_compatible : bool; skip_sort : bool; fixed_kv_length : bool; key_size : Z; value_size : Z;
  filter_type : FilterType; bf_bits_per_key : Z; bm_fmt : BitmapFormat; bm_key_bits : Z;
  block_size : Z; block_util : spec_float; block_padding : bool; block_batch_size : Z;
  index_buffer : Z; data_buffer : Z; epoch_log_rotation : bool; tail_padding : bool;
  parallel_reads : bool; paranoid_checks : bool; ignore_filters : bool;
  compression : CompressionType; index_compression : CompressionType; force_compression : bool;
  verify_checksums : bool; skip_checksums : bool; num_epochs : Z; lg_parts : Z; mode : DirMode }.

Definition IsKeyUniqueAndOrdered (m : DirMode) : bool := Z.land (mode_code m) 0xF0 =? 0x80.
Definition IsKeyUnique (m : DirMode) : bool := Z.land (mode_code m) 0x80 =? 0x80.
Definition IsKeyUnOrdered (m : DirMode) : bool := Z.land (mode_code m) 0x10 =? 0x10.

(** ** Handles *)

(** The value of a field that has not been set. *)
Definition unset64 : Z := 2 ^ 64 - 1.
Definition unset32 : Z := 2 ^ 32 - 1.

Record BlockHandle := mkHandle { offset_ : Z; size_ : Z }.

Module BlockHandle.

Definition kMaxEncodedLength : Z := 20.

Definition New : BlockHandle := mkHandle unset64 unset64.

Definition EncodeTo (h : BlockHandle) : option bytes :=
  if (offset_ h =? unset64) || (size_ h =? unset64) then None
  else Some (EncodeVarint64 (offset_ h) ++ EncodeVarint64 (size_ h)).

Definition DecodeFrom (input : bytes) : option (BlockHandle * bytes) :=
  let? (offset, input) := GetVarint64 input in
  let? (size, input) := GetVarint64 input in
  Some (mkHandle offset size, input).

End BlockHandle.

Record TableHandle := mkTable {
  smallest_key : bytes; largest_key : bytes; filter_offset : Z; filter_size : Z; index_offset : Z; index_size : Z }.

Module TableHandle.

Definition EncodeTo (h : TableHandle) : option bytes :=
  if (filter_offset h =? unset64) || (filter_size h =? unset64) || (index_offset h =? unset64)
     || (index_size h =? unset64) || seq (smallest_key h) [] || seq (largest_key h) []
  then None
  else Some (PutLengthPrefixedSlice (smallest_key h) ++ PutLengthPrefixedSlice (largest_key h)
               ++ EncodeVarint64 (filter_offset h) ++ EncodeVarint64 (filter_size h)
               ++ EncodeVarint64 (index_offset h) ++ EncodeVarint64 (index_size h)).

Definition DecodeFrom (input : bytes) : option (TableHandle * bytes) :=
  let? (smallest, input) := GetLengthPrefixedSlice input in
  let? (largest, input) := GetLengthPrefixedSlice input in
  let? (fo, input) := GetVarint64 input in
  let? (fs, input) := GetVarint64 input in
  let? (xo, input) := GetVarint64 input in
  let? (xs, input) := GetVarint64 input in
  Some (mkTable smallest largest fo fs xo xs, input).

End TableHandle.

Record EpochHandle := mkEpoch { ep_index_offset : Z; ep_index_size : Z; num_tables : Z; num_ents : Z }.

Module EpochHandle.

Definition EncodeTo (h : EpochHandle) : option bytes :=
  if (ep_index_offset h =? unset64) || (ep_index_size h =? unset64) || (num_tables h =? unset32) || (num_ents h =? unset32)
  then None
  else Some (EncodeVarint64 (ep_index_offset h) ++ EncodeVarint64 (ep_index_size h)
               ++ EncodeVarint32 (num_tables h) ++ EncodeVarint32 (num_ents h)).

Definition DecodeFrom (input : bytes) : option (EpochHandle * bytes) :=
  let? (xo, input) := GetVarint64 input in
  let? (xs, input) := GetVarint64 input in
  let? (nt, input) := GetVarint32 input in
  let? (ne, input) := GetVarint32 input in
  Some (mkEpoch xo xs nt ne, input).

End EpochHandle.

Record EpochStone := mkStone { stone_handle : BlockHandle; stone_id : Z }.

Module EpochStone.

Definition EncodeTo (s : EpochStone) : option bytes :=
  if stone_id s =? unset32 then None
  else let? h := BlockHandle.EncodeTo (stone_handle s) in Some (h ++ EncodeVarint32 (stone_id s)).

Definition DecodeFrom (input : bytes) : option (EpochStone * bytes) :=
  let? (h, input) := BlockHandle.DecodeFrom input in
  let? (id, input) := GetVarint32 input in
  Some (mkStone h id, input).

End EpochStone.

(** ** The footer *)

Record Footer := mkFooter {
  epoch_index_handle : BlockHandle; lg_parts_ : Z; num_epochs_ : Z; value_size_ : Z; key_size_ : Z;
  fixed_kv_length_ : Z; leveldb_compatible_ : Z; epoch_log_rotation_ : Z; skip_checksums_ : Z;
  filter_type_ : Z; mode_ : Z }.

Definition kTableMagicNumber : Z := 0xdb4775248b80fb57.

Module Footer.

Definition kEncodedLength : Z := BlockHandle.kMaxEncodedLength + 22 + 8.

Definition EncodeTo (f : Footer) : option bytes :=
  if (lg_parts_ f =? unset32) || (num_epochs_ f =? unset32) || (value_size_ f =? unset32) || (key_size_ f =? unset32)
     || (fixed_kv_length_ f =? 255) || (leveldb_compatible_ f =? 255) || (epoch_log_rotation_ f =? 255)
     || (skip_checksums_ f =? 255) || (filter_type_ f =? 255) || (mode_ f =? 255)
  then None
  else
    let? h := BlockHandle.EncodeTo (epoch_index_handle f) in
    Some (resize (Z.to_nat BlockHandle.kMaxEncodedLength) 0 h
            ++ EncodeFixed32 (Z.land kTableMagicNumber 0xFFFFFFFF) ++ EncodeFixed32 (Z.shiftr kTableMagicNumber 32)
            ++ EncodeFixed32 (lg_parts_ f) ++ EncodeFixed32 (num_epochs_ f)
            ++ EncodeFixed32 (value_size_ f) ++ EncodeFixed32 (key_size_ f)
            ++ [fixed_kv_length_ f; leveldb_compatible_ f; epoch_log_rotation_ f; skip_checksums_ f; filter_type_ f; mode_ f]).

Definition byte_at (input : bytes) (i : Z) : Z := default 0 (input !! Z.to_nat i).
Definition fixed_at (input : bytes) (i : Z) : Z := DecodeFixed32 (drop (Z.to_nat i) input).

Definition DecodeFrom (input : bytes) : option (Footer * bytes) :=
  if zlen input <? kEncodedLength then None
  else
    let magic := Z.lor (Z.shiftl (fixed_at input (BlockHandle.kMaxEncodedLength + 4)) 32)
                   (fixed_at input BlockHandle.kMaxEncodedLength) in
    if negb (magic =? kTableMagicNumber) then None
    else
      let? _ := mode_of_code (byte_at input (kEncodedLength - 1)) in
      let? (h, _) := BlockHandle.DecodeFrom input in
      Some (mkFooter h (fixed_at input (kEncodedLength - 22)) (fixed_at input (kEncodedLength - 18))
              (fixed_at input (kEncodedLength - 14)) (fixed_at input (kEncodedLength - 10))
              (byte_at input (kEncodedLength - 6)) (byte_at input (kEncodedLength - 5))
              (byte_at input (kEncodedLength - 4)) (byte_at input (kEncodedLength - 3))
              (byte_at input (kEncodedLength - 2)) (byte_at input (kEncodedLength - 1)),
            drop (Z.to_nat kEncodedLength) input).

End Footer.

Definition b2z (b : bool) : Z := if b then 1 else 0.

(** [Mkfoot]; the handle and the number of epochs are set by the callers. *)
Definition Mkfoot (o : DirOptions) : Footer :=
  mkFooter BlockHandle.New (u32 (lg_parts o)) unset32 (u32 (value_size o)) (u32 (key_size o))
    (b2z (fixed_kv_length o)) (b2z (leveldb_compatible o)) (b2z (epoch_log_rotation o)) (b2z (skip_checksums o))
    (u8 (filter_code (filter_type o))) (u8 (mode_code (mode o))).

Definition set_epoch_index_handle (h : BlockHandle) (f : Footer) : Footer :=
  mkFooter h (lg_parts_ f) (num_epochs_ f) (value_size_ f) (key_size_ f) (fixed_kv_length_ f) (leveldb_compatible_ f)
    (epoch_log_rotation_ f) (skip_checksums_ f) (filter_type_ f) (mode_ f).

Definition set_num_epochs (n : Z) (f : Footer) : Footer :=
  mkFooter (epoch_index_handle f) (lg_parts_ f) n (value_size_ f) (key_size_ f) (fixed_kv_length_ f) (leveldb_compatible_ f)
    (epoch_log_rotation_ f) (skip_checksums_ f) (filter_type_ f) (mode_ f).

(** [ApplyFooter]; [None] never, for the footers [DecodeFrom] returns. *)
Definition ApplyFooter (o : DirOptions) (f : Footer) : option DirOptions :=
  let? m := mode_of_code (mode_ f) in
  Some (mkOptions (negb (leveldb_compatible_ f =? 0)) (skip_sort o) (negb (fixed_kv_length_ f =? 0))
          (key_size_ f) (value_size_ f) (filter_of_code (filter_type_ f)) (bf_bits_per_key o) (bm_fmt o) (bm_key_bits o)
          (block_size o) (block_util o) (block_padding o) (block_batch_size o) (index_buffer o) (data_buffer o)
          (negb (epoch_log_rotation_ f =? 0)) (tail_padding o) (parallel_reads o) (paranoid_checks o) (ignore_filters o)
          (compression o) (index_compression o) (force_compression o) (verify_checksums o)
          (negb (skip_checksums_ f =? 0)) (s32 (num_epochs_ f)) (s32 (lg_parts_ f)) m).

(** ** Keys of the meta index blocks *)

Definition kMaxTableNo : Z := 9999.
Definition kMaxEpochNo : Z := 9999.

(** [%04d] of a number below 10000. *)
Fixpoint digits (n : nat) (x : Z) : bytes :=
  match n with
  | O => []
  | S n => (48 + x / 10 ^ Z.of_nat n) :: digits n (x mod 10 ^ Z.of_nat n)
  end.

Definition EpochKey (epoch : Z) : option bytes :=
  if epoch <=? kMaxEpochNo then Some (digits 4 epoch) else None.

Definition EpochTableKey (epoch table : Z) : option bytes :=
  if (epoch <=? kMaxEpochNo) && (table <=? kMaxTableNo) then Some (digits 4 epoch ++ [45] ++ digits 4 table) else None.
