(* ===== verification/PlfsFormatLemmas.v ===== *)
(** * Formats of indexed directories: what is encoded is decoded

    Every handle, stone and footer whose fields are set reads back as it was
    written, and the keys of the meta index blocks are ordered as the numbers in
    them. *)
From S2P Require Import Prelude Coding Status Filter SstBlock SstBlockProps PlfsFormat.

(** A field of 64 (32) bits that has been set. *)
Definition set64 (x : Z) : Prop := 0 <= x < unset64.
Definition set32 (x : Z) : Prop := 0 <= x < unset32.

Lemma set64_u64 x : set64 x -> is_u64 x.
Proof. unfold set64, unset64, in_width. lia. Qed.
Lemma set32_u32 x : set32 x -> is_u32 x.
Proof. unfold set32, unset32, in_width. lia. Qed.
Lemma set64_neq x : set64 x -> (x =? unset64) = false.
Proof. unfold set64. intros. apply Z.eqb_neq. lia. Qed.
Lemma set32_neq x : set32 x -> (x =? unset32) = false.
Proof. unfold set32. intros. apply Z.eqb_neq. lia. Qed.

Create HintDb plfs.
#[export] Hint Resolve set64_u64 set32_u32 : plfs.

(** ** Handles *)

Record handle_wf (h : BlockHandle) : Prop := { hw_offset : set64 (offset_ h); hw_size : set64 (size_ h) }.

Definition handle_bytes (h : BlockHandle) : bytes := EncodeVarint64 (offset_ h) ++ EncodeVarint64 (size_ h).

Lemma handle_EncodeTo h : handle_wf h -> BlockHandle.EncodeTo h = Some (handle_bytes h).
Proof. intros [Ho Hs]. unfold BlockHandle.EncodeTo. by rewrite !set64_neq. Qed.

Lemma handle_decode h rest : handle_wf h -> BlockHandle.DecodeFrom (handle_bytes h ++ rest) = Some (h, rest).
Proof.
  intros [Ho Hs]. unfold BlockHandle.DecodeFrom, handle_bytes. rewrite <- app_assoc.
  rewrite !GetVarint64_encode by eauto with plfs. by destruct h.
Qed.

Lemma handle_bytes_ok h : bytes_ok (handle_bytes h).
Proof. apply bytes_ok_app. split; apply EncodeVarint64_ok. Qed.

Lemma handle_bytes_size h : zlen (handle_bytes h) <= 20.
Proof. unfold handle_bytes. rewrite zlen_app. pose proof (length_EncodeVarint64 (offset_ h)). pose proof (length_EncodeVarint64 (size_ h)). lia. Qed.

Record table_wf (h : TableHandle) : Prop := {
  tw_small : smallest_key h <> [] /\ zlen (smallest_key h) < 2 ^ 32;
  tw_large : largest_key h <> [] /\ zlen (largest_key h) < 2 ^ 32;
  tw_fo : set64 (filter_offset h); tw_fs : set64 (filter_size h);
  tw_io : set64 (index_offset h); tw_is : set64 (index_size h) }.

Definition table_bytes (h : TableHandle) : bytes :=
  PutLengthPrefixedSlice (smallest_key h) ++ PutLengthPrefixedSlice (largest_key h)
    ++ EncodeVarint64 (filter_offset h) ++ EncodeVarint64 (filter_size h)
    ++ EncodeVarint64 (index_offset h) ++ EncodeVarint64 (index_size h).

Lemma seq_nil k : k <> [] -> seq k [] = false.
Proof. intros. by apply bool_decide_eq_false. Qed.

Lemma table_EncodeTo h : table_wf h -> TableHandle.EncodeTo h = Some (table_bytes h).
Proof. intros [[] [] ? ? ? ?]. unfold TableHandle.EncodeTo. by rewrite !set64_neq, !seq_nil. Qed.

Lemma table_decode h rest : table_wf h -> TableHandle.DecodeFrom (table_bytes h ++ rest) = Some (h, rest).
Proof.
  intros [[] [] ? ? ? ?]. unfold TableHandle.DecodeFrom, table_bytes. rewrite <- !app_assoc.
  rewrite !GetLengthPrefixedSlice_put by (split; [apply zlen_nonneg|done]).
  rewrite !GetVarint64_encode by eauto with plfs. by destruct h.
Qed.

Lemma Put_ok k : bytes_ok k -> bytes_ok (PutLengthPrefixedSlice k).
Proof. intros. apply bytes_ok_app. split; [|done]. apply EncodeVarint32_ok, u32_range. Qed.

Lemma zlen_Put k : zlen (PutLengthPrefixedSlice k) <= zlen k + 5.
Proof. unfold PutLengthPrefixedSlice. rewrite zlen_app. pose proof (length_EncodeVarint32 (u32 (zlen k))). lia. Qed.

Lemma table_bytes_ok h : bytes_ok (smallest_key h) -> bytes_ok (largest_key h) -> bytes_ok (table_bytes h).
Proof. intros. unfold table_bytes. rewrite !bytes_ok_app. split_and!; try apply EncodeVarint64_ok; by apply Put_ok. Qed.

Lemma table_bytes_size h : zlen (table_bytes h) <= zlen (smallest_key h) + zlen (largest_key h) + 50.
Proof.
  unfold table_bytes. rewrite !zlen_app. pose proof (zlen_Put (smallest_key h)). pose proof (zlen_Put (largest_key h)).
  pose proof (length_EncodeVarint64 (filter_offset h)). pose proof (length_EncodeVarint64 (filter_size h)).
  pose proof (length_EncodeVarint64 (index_offset h)). pose proof (length_EncodeVarint64 (index_size h)). lia.
Qed.

Record epoch_wf (h : EpochHandle) : Prop := {
  ew_io : set64 (ep_index_offset h); ew_is : set64 (ep_index_size h); ew_nt : set32 (num_tables h); ew_ne : set32 (num_ents h) }.

Definition epoch_bytes (h : EpochHandle) : bytes :=
  EncodeVarint64 (ep_index_offset h) ++ EncodeVarint64 (ep_index_size h)
    ++ EncodeVarint32 (num_tables h) ++ EncodeVarint32 (num_ents h).

Lemma epoch_EncodeTo h : epoch_wf h -> EpochHandle.EncodeTo h = Some (epoch_bytes h).
Proof. intros []. unfold EpochHandle.EncodeTo. by rewrite !set64_neq, !set32_neq. Qed.

Lemma epoch_decode h rest : epoch_wf h -> EpochHandle.DecodeFrom (epoch_bytes h ++ rest) = Some (h, rest).
Proof.
  intros []. unfold EpochHandle.DecodeFrom, epoch_bytes. rewrite <- !app_assoc.
  rewrite !GetVarint64_encode, !GetVarint32_encode by eauto with plfs. by destruct h.
Qed.

(** The handle of an epoch begins with the handle of its index block. *)
Lemma epoch_block_decode h :
  epoch_wf h -> exists rest, BlockHandle.DecodeFrom (epoch_bytes h) = Some (mkHandle (ep_index_offset h) (ep_index_size h), rest).
Proof.
  intros []. eexists. unfold BlockHandle.DecodeFrom, epoch_bytes. by rewrite !GetVarint64_encode by eauto with plfs.
Qed.

Lemma epoch_bytes_ok h : epoch_wf h -> bytes_ok (epoch_bytes h).
Proof. intros []. unfold epoch_bytes. rewrite !bytes_ok_app. split_and!; first [apply EncodeVarint64_ok|by apply EncodeVarint32_ok, set32_u32]. Qed.

Lemma epoch_bytes_size h : zlen (epoch_bytes h) <= 30.
Proof.
  unfold epoch_bytes. rewrite !zlen_app. pose proof (length_EncodeVarint64 (ep_index_offset h)). pose proof (length_EncodeVarint64 (ep_index_size h)).
  pose proof (length_EncodeVarint32 (num_tables h)). pose proof (length_EncodeVarint32 (num_ents h)). lia.
Qed.

Lemma stone_round s rest :
  handle_wf (stone_handle s) -> set32 (stone_id s) ->
  exists bs, EpochStone.EncodeTo s = Some bs /\ bytes_ok bs /\ zlen bs <= 25 /\ EpochStone.DecodeFrom (bs ++ rest) = Some (s, rest).
Proof.
  intros Hh Hi. unfold EpochStone.EncodeTo. rewrite set32_neq, handle_EncodeTo by done. eexists. split; [done|].
  split; [apply bytes_ok_app; split; [apply handle_bytes_ok|by apply EncodeVarint32_ok, set32_u32]|]. split.
  { rewrite zlen_app. pose proof (handle_bytes_size (stone_handle s)). pose proof (length_EncodeVarint32 (stone_id s)). lia. }
  unfold EpochStone.DecodeFrom. rewrite <- app_assoc, handle_decode, GetVarint32_encode by eauto with plfs. by destruct s.
Qed.

(** ** The footer *)

Record footer_wf (f : Footer) : Prop := {
  fw_handle : handle_wf (epoch_index_handle f);
  fw_32 : Forall set32 [lg_parts_ f; num_epochs_ f; value_size_ f; key_size_ f];
  fw_8 : Forall (fun x => 0 <= x < 255) [fixed_kv_length_ f; leveldb_compatible_ f; epoch_log_rotation_ f; skip_checksums_ f; filter_type_ f; mode_ f];
  fw_mode : mode_of_code (mode_ f) <> None }.

Lemma footer_round f :
  footer_wf f ->
  exists bs, Footer.EncodeTo f = Some bs /\ zlen bs = Footer.kEncodedLength /\ bytes_ok bs /\ Footer.DecodeFrom bs = Some (f, []).
Proof.
  intros [Hh H32 H8 Hm]. unfold Footer.EncodeTo. rewrite handle_EncodeTo by done.
  repeat match goal with H : Forall _ (_ :: _) |- _ => apply Forall_cons in H as [? H] end.
  rewrite !set32_neq by done. rewrite !(proj2 (Z.eqb_neq _ 255)) by lia. cbn [orb]. eexists. split; [done|].
  pose proof (handle_bytes_size (epoch_index_handle f)) as Hz.
  rewrite resize_ge by (unfold zlen in Hz; change (Z.to_nat BlockHandle.kMaxEncodedLength) with 20%nat; lia).
  set (h := handle_bytes (epoch_index_handle f)) in *. set (pad := (Z.to_nat BlockHandle.kMaxEncodedLength - length h)%nat).
  set (hd := h ++ replicate pad 0).
  assert (Hhd : length hd = 20%nat).
  { subst hd pad. rewrite length_app, length_replicate. change (Z.to_nat BlockHandle.kMaxEncodedLength) with 20%nat. unfold zlen in Hz. lia. }
  set (tail := EncodeFixed32 (Z.land kTableMagicNumber 0xFFFFFFFF) ++ _).
  assert (Hfix : forall i, (20 <= i)%nat -> drop i (hd ++ tail) = drop (i - 20) tail).
  { intros i Hi. rewrite <- Hhd. apply drop_app_ge. lia. }
  assert (Hbyte : forall i, (20 <= i)%nat -> (hd ++ tail) !! i = tail !! (i - 20)%nat).
  { intros i Hi. rewrite <- Hhd. apply lookup_app_r. lia. }
  split; [rewrite zlen_app; unfold zlen; rewrite Hhd; reflexivity|]. split.
  { subst hd tail. rewrite !bytes_ok_app. split_and!; try apply Fixed.encode_ok; [apply handle_bytes_ok|by apply Forall_replicate|].
    repeat constructor; unfold in_width; lia. }
  unfold Footer.DecodeFrom. replace (zlen (hd ++ tail)) with 50 by (rewrite zlen_app; unfold zlen; by rewrite Hhd).
  change (50 <? Footer.kEncodedLength) with false. cbn iota.
  unfold Footer.fixed_at, Footer.byte_at.
  change (Z.to_nat (BlockHandle.kMaxEncodedLength + 4)) with 24%nat. change (Z.to_nat BlockHandle.kMaxEncodedLength) with 20%nat.
  change (Z.to_nat (Footer.kEncodedLength - 22)) with 28%nat. change (Z.to_nat (Footer.kEncodedLength - 18)) with 32%nat.
  change (Z.to_nat (Footer.kEncodedLength - 14)) with 36%nat. change (Z.to_nat (Footer.kEncodedLength - 10)) with 40%nat.
  change (Z.to_nat (Footer.kEncodedLength - 6)) with 44%nat. change (Z.to_nat (Footer.kEncodedLength - 5)) with 45%nat.
  change (Z.to_nat (Footer.kEncodedLength - 4)) with 46%nat. change (Z.to_nat (Footer.kEncodedLength - 3)) with 47%nat.
  change (Z.to_nat (Footer.kEncodedLength - 2)) with 48%nat. change (Z.to_nat (Footer.kEncodedLength - 1)) with 49%nat.
  rewrite !Hfix, !Hbyte by lia. cbn [Nat.sub].
  assert (Hm' : mode_of_code (default 0 (tail !! 29%nat)) = mode_of_code (mode_ f)) by done.
  rewrite Hm'. change (DecodeFixed32 (drop 4 tail)) with (Z.shiftr kTableMagicNumber 32).
  change (DecodeFixed32 (drop 0 tail)) with (Z.land kTableMagicNumber 0xFFFFFFFF). cbn [negb].
  change (negb (Z.lor (Z.shiftl (Z.shiftr kTableMagicNumber 32) 32) (Z.land kTableMagicNumber 0xFFFFFFFF) =? kTableMagicNumber)) with false.
  cbn iota. destruct (mode_of_code (mode_ f)); [|done].
  assert (Hdec : BlockHandle.DecodeFrom (hd ++ tail) = Some (epoch_index_handle f, replicate pad 0 ++ tail)).
  { subst hd. rewrite <- app_assoc. by apply handle_decode. }
  rewrite Hdec.
  f_equal. f_equal.
  - assert (Hd : forall n v rest, set32 v -> drop n tail = EncodeFixed32 v ++ rest -> DecodeFixed32 (drop n tail) = v).
    { intros n v rest Hv ->. by apply DecodeFixed32_encode, set32_u32. }
    rewrite (Hd 8%nat (lg_parts_ f) _ ltac:(done) eq_refl), (Hd 12%nat (num_epochs_ f) _ ltac:(done) eq_refl),
      (Hd 16%nat (value_size_ f) _ ltac:(done) eq_refl), (Hd 20%nat (key_size_ f) _ ltac:(done) eq_refl). by destruct f.
  - apply drop_ge. rewrite length_app, Hhd. done.
Qed.

(** ** Keys *)

Lemma length_digits n x : length (digits n x) = n.
Proof. revert x. induction n as [|n IH]; intros x; cbn; [done|]. by rewrite IH. Qed.

Lemma digits_ok n x : 0 <= x < 10 ^ Z.of_nat n -> bytes_ok (digits n x).
Proof.
  revert x. induction n as [|n IH]; intros x Hx; cbn [digits]; [constructor|].
  assert (0 < 10 ^ Z.of_nat n) by (apply Z.pow_pos_nonneg; lia).
  rewrite Nat2Z.inj_succ, Z.pow_succ_r in Hx by lia.
  constructor; [|apply IH, Z.mod_pos_bound; lia]. unfold byte_ok, in_width.
  assert (0 <= x / 10 ^ Z.of_nat n) by (apply Z.div_pos; lia). assert (x / 10 ^ Z.of_nat n < 10) by (apply Z.div_lt_upper_bound; lia). lia.
Qed.

(** Numbers of the same width are ordered as their digits are. *)
Lemma compare_digits n x y a b :
  0 <= x < 10 ^ Z.of_nat n -> 0 <= y < 10 ^ Z.of_nat n ->
  compare (digits n x ++ a) (digits n y ++ b) = match x ?= y with Eq => compare a b | c => c end.
Proof.
  revert x y. induction n as [|n IH]; intros x y Hx Hy; cbn [digits app compare].
  { replace x with 0 by (cbn in Hx; lia). replace y with 0 by (cbn in Hy; lia). done. }
  rewrite Nat2Z.inj_succ, Z.pow_succ_r in Hx, Hy by lia. set (p := 10 ^ Z.of_nat n) in *.
  assert (0 < p) by (apply Z.pow_pos_nonneg; lia).
  pose proof (Z.div_mod x p ltac:(lia)). pose proof (Z.div_mod y p ltac:(lia)).
  pose proof (Z.mod_pos_bound x p ltac:(lia)). pose proof (Z.mod_pos_bound y p ltac:(lia)).
  rewrite IH by done.
  destruct (Z.compare_spec (48 + x / p) (48 + y / p)) as [Eq|Hlt|Hgt].
  - replace (x / p) with (y / p) in * by lia. 
    replace (x ?= y) with (x mod p ?= y mod p); [done|].
    destruct (Z.compare_spec (x mod p) (y mod p)), (Z.compare_spec x y); done || lia.
  - replace (x ?= y) with Lt; [done|]. symmetry. apply Z.compare_lt_iff. nia.
  - replace (x ?= y) with Gt; [done|]. symmetry. apply Z.compare_gt_iff. nia.
Qed.

Definition epoch_key (e : Z) : bytes := digits 4 e.
Definition table_key (e t : Z) : bytes := digits 4 e ++ [45] ++ digits 4 t.

#[global] Arguments epoch_key : simpl never.
#[global] Arguments table_key : simpl never.

Lemma EpochKey_ok e : e <= kMaxEpochNo -> EpochKey e = Some (epoch_key e).
Proof. intros. unfold EpochKey. by destruct (Z.leb_spec e kMaxEpochNo); [|lia]. Qed.

Lemma EpochTableKey_ok e t : e <= kMaxEpochNo -> t <= kMaxTableNo -> EpochTableKey e t = Some (table_key e t).
Proof. intros. unfold EpochTableKey. destruct (Z.leb_spec e kMaxEpochNo); [|lia]. by destruct (Z.leb_spec t kMaxTableNo); [|lia]. Qed.

Lemma compare_epoch_key e e' : 0 <= e <= kMaxEpochNo -> 0 <= e' <= kMaxEpochNo -> compare (epoch_key e) (epoch_key e') = (e ?= e').
Proof.
  unfold kMaxEpochNo. intros. unfold epoch_key. rewrite <- (app_nil_r (digits 4 e)), <- (app_nil_r (digits 4 e')).
  rewrite compare_digits by (change (10 ^ Z.of_nat 4) with 10000; lia). by destruct (e ?= e').
Qed.

Lemma compare_table_key e t t' :
  0 <= e <= kMaxEpochNo -> 0 <= t <= kMaxTableNo -> 0 <= t' <= kMaxTableNo -> compare (table_key e t) (table_key e t') = (t ?= t').
Proof.
  unfold kMaxEpochNo, kMaxTableNo. intros. unfold table_key.
  rewrite compare_digits by (change (10 ^ Z.of_nat 4) with 10000; lia). rewrite Z.compare_refl.
  cbn [app]. rewrite compare_cons. rewrite <- (app_nil_r (digits 4 t)), <- (app_nil_r (digits 4 t')).
  rewrite compare_digits by (change (10 ^ Z.of_nat 4) with 10000; lia). by destruct (t ?= t').
Qed.
