(* ===== verification/PlfsLog.v ===== *)
(** * Logs of indexed directories (plfsio/v1: io.h, io.cc, recov.h, recov.cc, and
      [ReadBlock] of internal.cc)

    A [LogSink] appends to a log file, or to one file after another when the log
    is rotated; a [LogWriter] writes index blocks to it as chunks with headers
    and checksums; a [LogSource] reads the files back, and [ReadBlock] takes a
    block from them, checks and decompresses it.

    Storage may fail: [outcomes_] are the results of the operations to come on the
    file of a sink, each a status and, for a failed append, how many bytes reached
    the file; operations succeed once the list is used up.  A failed close has lost
    its buffer if the number is 0, and has failed after it otherwise.  [read_status]
    of a source is the status of each read; what a read returns is always what the
    file holds.  Buffered data counts as written.  [None] is undefined behaviour or
    a failed assertion. *)
From S2P Require Import Prelude Coding Status Crc32c Filter SstBlock PlfsFormat.

(** ** Sinks *)

(** [files_]: the files by their rolling index, which is -1 for a log that is not
    rotated. *)
Record LogSink := mkSink {
  files_ : gmap Z bytes; index_ : Z; rotated_ : bool; buffered_ : bool; open_ : bool;
  prev_off_ : Z; off_ : Z; finish_status_ : Status; outcomes_ : list (Status * nat) }.

Module LogSink.

Definition Open (rotation buffered : bool) (outcomes : list (Status * nat)) : LogSink :=
  let index := if rotation then 0 else -1 in
  mkSink {[index := []]} index rotation buffered true 0 0 kOk outcomes.

Definition file (s : LogSink) : bytes := default [] (files_ s !! index_ s).

Definition next_outcome (s : LogSink) : Status * nat * LogSink :=
  match outcomes_ s with
  | [] => (kOk, O, s)
  | (st, n) :: rest =>
      (st, n, mkSink (files_ s) (index_ s) (rotated_ s) (buffered_ s) (open_ s) (prev_off_ s) (off_ s) (finish_status_ s) rest)
  end.

Definition append (data : bytes) (off : Z) (s : LogSink) : LogSink :=
  mkSink (<[index_ s := file s ++ data]> (files_ s)) (index_ s) (rotated_ s) (buffered_ s) (open_ s)
    (prev_off_ s) off (finish_status_ s) (outcomes_ s).

Definition Ltell (s : LogSink) : Z := off_ s.

Definition Ptell (s : LogSink) : option Z :=
  if prev_off_ s <=? off_ s then Some (off_ s - prev_off_ s) else None.

Definition Lwrite (data : bytes) (s : LogSink) : Status * LogSink :=
  if negb (open_ s) then (kDisconnected, s)
  else
    let '(st, n, s) := next_outcome s in
    if ok st then (kOk, append data (u64 (off_ s + zlen data)) s)
    else (st, append (take n data) (off_ s) s).

Definition Lsync (s : LogSink) : Status * LogSink :=
  if negb (open_ s) then (kDisconnected, s) else let '(st, _, s) := next_outcome s in (st, s).

Definition Lrotate (index : Z) (s : LogSink) : Status * LogSink :=
  if negb (rotated_ s) then (kAssertionFailed, s)
  else if negb (open_ s) then (kAssertionFailed, s)
  else
    let '(st, _, s) := next_outcome s in
    if ok st
    then (kOk, mkSink (<[index := []]> (files_ s)) index (rotated_ s) (buffered_ s) (open_ s) (off_ s) (off_ s)
                 (finish_status_ s) (outcomes_ s))
    else (st, s).

(** [Finish]: [buf_store_] is a null pointer when writes are not buffered. *)
Definition Finish (st : Status) (s : LogSink) : option (Status * LogSink) :=
  if negb (buffered_ s) then None
  else Some (st, mkSink (files_ s) (index_ s) (rotated_ s) (buffered_ s) false (prev_off_ s) (off_ s)
                   (if ok st then finish_status_ s else st) (outcomes_ s)).

Definition Lclose (s : LogSink) : option (Status * LogSink) :=
  if negb (open_ s) then Some (finish_status_ s, s)
  else
    let '(st, n, s) := next_outcome s in
    if negb (ok st) && (n =? 0)%nat then Some (st, s) else Finish st s.

End LogSink.

(** ** Chunks *)

Inductive ChunkType := kUnknown | kIdxChunk | kSbfChunk | kBmpChunk | kMetaChunk | kRtChunk | kEpochStone | kFooter.

Definition chunk_code (t : ChunkType) : Z :=
  match t with
  | kUnknown => 0x00 | kIdxChunk => 0x01 | kSbfChunk => 0x02 | kBmpChunk => 0x03
  | kMetaChunk => 0x71 | kRtChunk => 0x72 | kEpochStone => 0xf0 | kFooter => 0xfe
  end.

Definition kChunkHeaderSize : Z := 9.

Module LogWriter.
Section Writer.
Context `{Snappy} (o : DirOptions).

(** [Lwrite] of one slice after another. *)
Fixpoint write_all (slis : list bytes) (s : LogSink) : Status * LogSink :=
  match slis with
  | [] => (kOk, s)
  | d :: slis => let (st, s) := LogSink.Lwrite d s in if ok st then write_all slis s else (st, s)
  end.

(** The first five bytes of a header. *)
Definition header5 (t : ChunkType) (contents : bytes) : bytes := chunk_code t :: EncodeFixed32 (u32 (zlen contents)).

Definition LogSpecial (t : ChunkType) (contents : bytes) (s : LogSink) : Status * LogSink :=
  let crc := Crc32c.Extend (Crc32c.Value contents) (header5 t contents) in
  let header := header5 t contents ++ EncodeFixed32 (if negb (skip_checksums o) then Crc32c.Mask crc else 0) in
  write_all [header; contents] s.

(** The handle is only set when all is written. *)
Definition LogRaw (t : ChunkType) (c : CompressionType) (contents : bytes) (s : LogSink)
  : (Status * BlockHandle) * LogSink :=
  let crc := Crc32c.Extend (Crc32c.Value contents) [compression_code c] in
  let trailer := compression_code c :: EncodeFixed32 (if negb (skip_checksums o) then Crc32c.Mask crc else 0) in
  let header := header5 t contents
    ++ EncodeFixed32 (if negb (skip_checksums o) then Crc32c.Mask (Crc32c.Extend crc (header5 t contents)) else 0) in
  let off := LogSink.Ltell s in
  let (st, s) := write_all [header; contents; trailer] s in
  (st, if ok st then mkHandle (u64 (off + kChunkHeaderSize)) (zlen contents) else BlockHandle.New, s).

Definition Write (t : ChunkType) (block_contents : bytes) (s : LogSink) : (Status * BlockHandle) * LogSink :=
  let '(c, raw) :=
    match index_compression o with
    | kNoCompression => (kNoCompression, block_contents)
    | kSnappyCompression =>
        match Snappy_Compress block_contents with
        | Some x =>
            if force_compression o || (zlen x <? zlen block_contents - zlen block_contents / 8)
            then (kSnappyCompression, x) else (kNoCompression, block_contents)
        | None => (kNoCompression, block_contents)
        end
    end in
  LogRaw t c raw s.

Definition SealEpoch (epoch_stone : bytes) (s : LogSink) : Status * LogSink := LogSpecial kEpochStone epoch_stone s.

(** With [tail_padding] the size of the log becomes a multiple of [index_buffer];
    [None] is a division by zero. *)
Definition pad_tail (footer_size : Z) (s : LogSink) : option (Status * LogSink) :=
  if tail_padding o then
    if index_buffer o =? 0 then None
    else
      let overflow := u64 (LogSink.Ltell s + footer_size) mod index_buffer o in
      if negb (overflow =? 0)
      then Some (LogSink.Lwrite (replicate (Z.to_nat (index_buffer o - overflow)) 0) s) else Some (kOk, s)
  else Some (kOk, s).

Definition Finish (footer : bytes) (s : LogSink) : option (Status * LogSink) :=
  let? (st, s) := pad_tail (zlen footer + kChunkHeaderSize) s in
  if ok st then Some (LogSpecial kFooter footer s) else Some (st, s).

End Writer.
End LogWriter.

(** ** Sources *)

Record LogSource := mkSource { src_files : list bytes; read_status : Z -> Z -> Z -> Status }.

Module LogSource.

(** [Open]: a log that was never rotated ([num_rotas] is -1) or the first files of
    one that was; the file sizes are those of the files. *)
Definition Open (files : gmap Z bytes) (num_rotas : Z) (read_status : Z -> Z -> Z -> Status) : Status + LogSource :=
  let names := if num_rotas =? -1 then [-1] else seqZ 0 num_rotas in
  match mapM (fun i => files !! i) names with
  | Some fs => inr (mkSource fs read_status)
  | None => inl kNotFound
  end.

Definition Read (offset n index : Z) (s : LogSource) : Status * bytes :=
  match src_files s !! Z.to_nat index with
  | Some f =>
      let st := read_status s index offset n in
      (st, if ok st then take (Z.to_nat n) (drop (Z.to_nat offset) f) else [])
  | None => (kOk, [])
  end.

Definition Size (index : Z) (s : LogSource) : Z := zlen (default [] (src_files s !! Z.to_nat index)).

Definition LastFileIndex (s : LogSource) : Z :=
  match src_files s with [] => 2 ^ 64 - 1 | fs => zlen fs - 1 end.

Definition TotalSize (s : LogSource) : Z := fold_left (fun acc f => u64 (acc + zlen f)) (src_files s) 0.

End LogSource.

Section ReadBlock.
Context `{Snappy}.

(** [ReadBlock] of internal.cc; [None] when the size of the block with its trailer
    does not fit 64 bits. *)
Definition ReadBlock (source : LogSource) (o : DirOptions) (h : BlockHandle) (file_index : Z) : option (Status * bytes) :=
  let n := size_ h in
  let m := n + kBlockTrailerSize in
  if 2 ^ 64 <=? m then None
  else
    let (st, contents) := LogSource.Read (offset_ h) m file_index source in
    if negb (ok st) then Some (st, [])
    else if negb (zlen contents =? m) then Some (kCorruption, [])
    else
      let data := take (Z.to_nat n) contents in
      let type := default 0 (contents !! Z.to_nat n) in
      if negb (skip_checksums o) && verify_checksums o
         && negb (Crc32c.Value (take (Z.to_nat (n + 1)) contents)
                  =? Crc32c.Unmask (DecodeFixed32 (drop (Z.to_nat (n + 1)) contents)))
      then Some (kCorruption, [])
      else if type =? compression_code kSnappyCompression then
        match Snappy_Uncompress data with
        | Some u => Some (kOk, u)
        | None => Some (kCorruption, [])
        end
      else Some (kOk, data).

End ReadBlock.
