(* ===== verification/PlfsLogLemmas.v ===== *)
(** * Logs: what is written is what is read

    [Sink] is the invariant of a sink whose writes have succeeded so far, [Grows]
    that a sink has only been appended to.  [BlockAt] says that a file holds a
    block at a handle; it stays true as the file grows, and [ReadBlock] returns
    the block. *)
From S2P Require Import Prelude Coding Status Crc32c Filter SstBlock SstBlockProps PlfsFormat PlfsFormatLemmas PlfsLog.

(** ** Sinks *)

Record Sink (s : LogSink) : Prop := {
  sk_open : open_ s = true;
  sk_file : is_Some (files_ s !! index_ s);
  sk_prev : 0 <= prev_off_ s;
  sk_off : off_ s = prev_off_ s + zlen (LogSink.file s) }.

Record Grows (s s' : LogSink) : Prop := {
  gr_index : index_ s' = index_ s; gr_prev : prev_off_ s' = prev_off_ s; gr_rotated : rotated_ s' = rotated_ s;
  gr_open : open_ s' = open_ s; gr_others : forall i, i <> index_ s -> files_ s' !! i = files_ s !! i;
  gr_file : exists x, LogSink.file s' = LogSink.file s ++ x }.

Definition quiet (s : LogSink) : Prop := outcomes_ s = [].

Lemma Grows_refl s : Grows s s.
Proof. by constructor; try done; exists []; rewrite app_nil_r. Qed.

Lemma Grows_trans a b c : Grows a b -> Grows b c -> Grows a c.
Proof.
  intros [H1 H2 H3 H4 H5 [x Hx]] [H1' H2' H3' H4' H5' [y Hy]]. constructor; try congruence.
  - intros i Hi. rewrite H5' by congruence. by apply H5.
  - exists (x ++ y). by rewrite Hy, Hx, app_assoc.
Qed.

#[export] Instance Grows_preorder : PreOrder Grows.
Proof. split; [exact Grows_refl|exact Grows_trans]. Qed.

Lemma file_append d off s : LogSink.file (LogSink.append d off s) = LogSink.file s ++ d.
Proof. unfold LogSink.file at 1. cbn. by rewrite lookup_insert_eq. Qed.

Lemma append_Grows d off s : Grows s (LogSink.append d off s).
Proof. constructor; try done; [|exists d; apply file_append]. intros i Hi. cbn. by rewrite lookup_insert_ne. Qed.

Lemma next_outcome_spec s st n s' :
  LogSink.next_outcome s = (st, n, s') ->
  files_ s' = files_ s /\ index_ s' = index_ s /\ rotated_ s' = rotated_ s /\ buffered_ s' = buffered_ s /\ open_ s' = open_ s
  /\ prev_off_ s' = prev_off_ s /\ off_ s' = off_ s /\ finish_status_ s' = finish_status_ s
  /\ (quiet s -> st = kOk /\ s' = s).
Proof. unfold LogSink.next_outcome, quiet. destruct (outcomes_ s) as [|[st' n'] rest]; intros [= <- <- <-]; naive_solver. Qed.

Lemma Lwrite_spec d s :
  exists st s', LogSink.Lwrite d s = (st, s') /\ Grows s s' /\ (quiet s -> quiet s' /\ (open_ s = true -> st = kOk))
    /\ (st = kOk -> Sink s -> off_ s + zlen d < 2 ^ 64 -> Sink s' /\ LogSink.file s' = LogSink.file s ++ d).
Proof.
  unfold LogSink.Lwrite. destruct (open_ s) eqn:Ho; cbn [negb]; [|by exists kDisconnected, s; split_and!; [|reflexivity|split|]].
  destruct (LogSink.next_outcome s) as [[st n] s1] eqn:E. apply next_outcome_spec in E as (E1 & E2 & E3 & E4 & E5 & E6 & E7 & E8 & Hq).
  assert (Hf : LogSink.file s1 = LogSink.file s) by (unfold LogSink.file; by rewrite E1, E2).
  assert (Hg : forall d off, Grows s (LogSink.append d off s1)).
  { intros d' off. constructor; cbn; try done; [|exists d'; rewrite file_append, Hf; done].
    intros i Hi. rewrite E2, lookup_insert_ne by done. by rewrite E1. }
  destruct (ok st) eqn:Hok.
  - exists kOk. eexists. split; [done|]. split; [done|]. split; [intros Hq'; destruct (Hq Hq') as [_ ->]; by split|].
    intros _ [HS1 HS2 HS3 HS4] Hoff. split; [|by rewrite file_append, Hf].
    constructor; [cbn; congruence|cbn; rewrite lookup_insert_eq; by eexists|cbn; lia|].
    rewrite file_append, Hf, zlen_app. cbn. rewrite E6, E7. pose proof (zlen_nonneg d). pose proof (zlen_nonneg (LogSink.file s)).
    rewrite u64_small by (unfold in_width; lia). lia.
  - exists st. eexists. split; [done|]. split; [done|]. apply ok_false in Hok. split; [|done].
    intros Hq'. destruct (Hq Hq') as [-> _]. done.
Qed.

Lemma write_all_spec slis s :
  exists st s', LogWriter.write_all slis s = (st, s') /\ Grows s s' /\ (quiet s -> quiet s' /\ (open_ s = true -> st = kOk))
    /\ (st = kOk -> Sink s -> off_ s + zlen (concat slis) < 2 ^ 64 -> Sink s' /\ LogSink.file s' = LogSink.file s ++ concat slis).
Proof.
  revert s. induction slis as [|d slis IH]; intros s; cbn [LogWriter.write_all concat].
  { exists kOk, s. split_and!; [done|reflexivity|done|]. intros. by rewrite app_nil_r. }
  destruct (Lwrite_spec d s) as (st & s1 & -> & Hg & Hq & Hw). destruct (ok st) eqn:Hok.
  - apply ok_true in Hok as ->. destruct (IH s1) as (st & s2 & -> & Hg2 & Hq2 & Hw2). exists st, s2. split; [done|].
    split; [by etrans|]. split.
    { intros Hqs. destruct (Hq Hqs) as [Hq1 _]. destruct (Hq2 Hq1) as [? Hst]. split; [done|]. intros. apply Hst. by rewrite (gr_open _ _ Hg). }
    intros -> HS Hoff. rewrite zlen_app in Hoff. pose proof (zlen_nonneg d). pose proof (zlen_nonneg (concat slis)).
    destruct (Hw eq_refl HS ltac:(lia)) as [HS1 Hf1].
    assert (off_ s1 = off_ s + zlen d) by (rewrite (sk_off _ HS1), (sk_off _ HS), Hf1, zlen_app, (gr_prev _ _ Hg); lia).
    destruct (Hw2 eq_refl HS1 ltac:(lia)) as [HS2 Hf2].
    split; [done|]. by rewrite Hf2, Hf1, app_assoc.
  - exists st, s1. split_and!; [done..|]. intros ->. done.
Qed.

(** ** Blocks in files *)

Section Blocks.
Context `{Snappy} (o : DirOptions).

(** The file [f] has the block [c] at [h]. *)
Definition BlockAt (f : bytes) (h : BlockHandle) (c : bytes) : Prop :=
  set64 (offset_ h) /\ 0 <= size_ h /\ size_ h + kBlockTrailerSize < 2 ^ 64 /\
  exists pre raw type rest,
    f = pre ++ raw ++ Buffer.trailer type (negb (skip_checksums o)) raw ++ rest
    /\ zlen pre = offset_ h /\ zlen raw = size_ h /\ bytes_ok raw
    /\ (type = kNoCompression /\ raw = c \/ type = kSnappyCompression /\ Snappy_Uncompress raw = Some c).

Lemma BlockAt_wf f h c : BlockAt f h c -> handle_wf h.
Proof. intros (Ho & Hs & Hm & _). split; [done|]. unfold set64, unset64, kBlockTrailerSize in *. lia. Qed.

Lemma BlockAt_app f x h c : BlockAt f h c -> BlockAt (f ++ x) h c.
Proof.
  intros (Ho & Hs & Hm & pre & raw & type & rest & -> & Hp & Hr & Hok & Ht). split_and!; [done..|].
  exists pre, raw, type, (rest ++ x). split_and!; [|done..]. by rewrite <- !app_assoc.
Qed.

Lemma BlockAt_grows s s' h c : Grows s s' -> BlockAt (LogSink.file s) h c -> BlockAt (LogSink.file s') h c.
Proof. intros Hg Hb. destruct (gr_file _ _ Hg) as [x ->]. by apply BlockAt_app. Qed.

Lemma code_ok c : bytes_ok [compression_code c].
Proof. repeat constructor; destruct c; cbn; lia. Qed.

Lemma length_trailer type crc raw : length (Buffer.trailer type crc raw) = 5%nat.
Proof. unfold Buffer.trailer. by destruct crc. Qed.

Lemma trailer_ok type crc raw : bytes_ok (Buffer.trailer type crc raw).
Proof. unfold Buffer.trailer. apply (bytes_ok_app [_]). split; [apply code_ok|]. destruct crc; apply Fixed.encode_ok. Qed.

(** A block that is in the file is read, unless the read fails. *)
Lemma ReadBlock_BlockAt src f i h c :
  BlockAt f h c -> src_files src !! Z.to_nat i = Some f ->
  exists st x, ReadBlock src o h i = Some (st, x)
    /\ st = read_status src i (offset_ h) (size_ h + kBlockTrailerSize)
    /\ (st = kOk -> x = c).
Proof.
  intros (Ho & Hs & Hm & pre & raw & type & rest & -> & Hp & Hr & Hok & Ht) Hf. unfold ReadBlock, LogSource.Read. rewrite Hf.
  destruct (Z.leb_spec (2 ^ 64) (size_ h + kBlockTrailerSize)); [lia|].
  set (st := read_status src i (offset_ h) (size_ h + kBlockTrailerSize)).
  destruct (ok st) eqn:Hst; cbn [negb].
  2: { exists st, []. split_and!; [done..|]. apply ok_false in Hst. done. }
  apply ok_true in Hst. rewrite Hst.
  rewrite drop_app_length' by (unfold zlen in *; lia). rewrite app_assoc.
  set (crc := negb (skip_checksums o)). set (tr := Buffer.trailer type crc raw).
  assert (Htr : length tr = 5%nat) by apply length_trailer.
  rewrite take_app_length' by (rewrite length_app, Htr; unfold zlen, kBlockTrailerSize in *; lia).
  destruct (Z.eqb_spec (zlen (raw ++ tr)) (size_ h + kBlockTrailerSize)) as [_|Hne]; cbn [negb].
  2: { exfalso. apply Hne. rewrite zlen_app. unfold zlen at 2. rewrite Htr. unfold kBlockTrailerSize. lia. }
  assert (Hn : Z.to_nat (size_ h) = length raw) by (unfold zlen in Hr; lia).
  assert (Hn1 : Z.to_nat (size_ h + 1) = (length raw + 1)%nat) by (unfold zlen in Hr; lia).
  rewrite Hn, Hn1, take_app_length, lookup_app_r, Nat.sub_diag by lia.
  change (tr !! 0%nat) with (Some (compression_code type)). cbn [default].
  assert (Hcrc : crc && verify_checksums o && negb (Crc32c.Value (take (length raw + 1) (raw ++ tr))
      =? Crc32c.Unmask (DecodeFixed32 (drop (length raw + 1) (raw ++ tr)))) = false).
  { destruct (verify_checksums o); [|by rewrite andb_false_r]. rewrite andb_true_r. destruct crc eqn:Ec; [|done]. cbn [andb].
    subst tr. unfold Buffer.trailer. apply negb_false_iff, Z.eqb_eq.
    rewrite take_app_add, drop_app_add. cbn [take drop]. unfold Crc32c.Value.
    rewrite Crc32c.Extend_app by (done || apply code_ok || by split).
    rewrite take_0, drop_0, <- (app_nil_r (EncodeFixed32 _)), DecodeFixed32_encode by apply u32_range.
    rewrite Crc32c.Unmask_Mask; [done|]. apply Crc32c.Extend_range; [|apply code_ok]. apply Crc32c.Extend_range; [by split|done]. }
  rewrite Hcrc. destruct Ht as [[-> ->]|[-> Hu]]; cbn [compression_code]; cbn iota beta.
  - exists kOk, c. by split_and!.
  - change (1 =? compression_code kSnappyCompression) with true. cbn iota. rewrite Hu. exists kOk, c. by split_and!.
Qed.

(** ** The writer *)

Lemma LogRaw_spec t c raw s :
  exists st h s', LogWriter.LogRaw o t c raw s = ((st, h), s') /\ Grows s s' /\ (quiet s -> quiet s' /\ (open_ s = true -> st = kOk))
    /\ (st = kOk -> Sink s -> prev_off_ s = 0 -> bytes_ok raw -> off_ s + zlen raw + 14 < 2 ^ 64 - 16 ->
        Sink s' /\ off_ s' = off_ s + zlen raw + 14 /\ size_ h = zlen raw /\ offset_ h = off_ s + 9 /\
        forall x, c = kNoCompression /\ raw = x \/ c = kSnappyCompression /\ Snappy_Uncompress raw = Some x ->
          BlockAt (LogSink.file s') h x).
Proof.
  unfold LogWriter.LogRaw.
  set (header := LogWriter.header5 t raw ++ EncodeFixed32 _). set (tr := compression_code c :: _).
  assert (Etr : tr = Buffer.trailer c (negb (skip_checksums o)) raw).
  { subst tr. unfold Buffer.trailer. by destruct (skip_checksums o). }
  assert (Hh : zlen header = 9) by done. assert (Ht : zlen tr = 5) by done.
  destruct (write_all_spec [header; raw; tr] s) as (st & s' & -> & Hg & Hq & Hw). do 3 eexists. split; [done|]. split; [done|].
  split; [done|]. intros -> HS Hp Hok Hoff. change (ok kOk) with true. cbn iota.
  assert (Hz : zlen (concat [header; raw; tr]) = zlen raw + 14).
  { cbn [concat]. rewrite app_nil_r, !zlen_app. lia. }
  pose proof (zlen_nonneg raw). destruct (Hw eq_refl HS ltac:(lia)) as [HS' Hf].
  pose proof (sk_off _ HS) as Ho. pose proof (zlen_nonneg (LogSink.file s)).
  assert (Hoff' : off_ s' = off_ s + zlen raw + 14).
  { rewrite (sk_off _ HS'), Hf, zlen_app, Hz, (gr_prev _ _ Hg). lia. }
  split; [done|]. split; [done|]. cbn [size_ offset_]. unfold LogSink.Ltell, kChunkHeaderSize.
  rewrite u64_small by (unfold in_width; lia). split; [done|]. split; [done|].
  intros x Hx. unfold BlockAt. cbn [size_ offset_]. unfold set64, unset64, kBlockTrailerSize. split; [lia|]. split; [done|]. split; [lia|].
  exists (LogSink.file s ++ header), raw, c, []. split_and!; [|rewrite zlen_app; lia|done|done|done].
  rewrite Hf, <- Etr. cbn [concat]. by rewrite !app_nil_r, <- !app_assoc.
Qed.

(** A written index block is in the log, whatever the compression. *)
Lemma log_Write_spec t c s :
  exists st h s', LogWriter.Write o t c s = ((st, h), s') /\ Grows s s' /\ (quiet s -> quiet s' /\ (open_ s = true -> st = kOk))
    /\ (st = kOk -> Sink s -> prev_off_ s = 0 -> bytes_ok c -> off_ s + 2 * zlen c + 46 < 2 ^ 64 - 16 ->
        Sink s' /\ off_ s' <= off_ s + 2 * zlen c + 46 /\ BlockAt (LogSink.file s') h c).
Proof.
  unfold LogWriter.Write.
  set (cr := match index_compression o with kNoCompression => _ | kSnappyCompression => _ end).
  assert (Hcr : (cr.1 = kNoCompression /\ cr.2 = c) \/ (cr.1 = kSnappyCompression /\ Snappy_Compress c = Some cr.2)).
  { subst cr. destruct (index_compression o); [by left|]. destruct (Snappy_Compress c) as [x|]; [|by left].
    destruct (_ || _); [by right|by left]. }
  destruct cr as [ty raw]. cbn [fst snd] in Hcr.
  destruct (LogRaw_spec t ty raw s) as (st & h & s' & -> & Hg & Hq & Hw). exists st, h, s'. split; [done|]. split; [done|]. split; [done|].
  intros -> HS Hp Hok Hoff. pose proof (zlen_nonneg c).
  assert (Hraw : bytes_ok raw /\ zlen raw <= 32 + 2 * zlen c).
  { destruct Hcr as [[-> ->]|[-> Hc]]; [split; [done|lia]|]. split; [by eapply Snappy_bytes|].
    pose proof (Snappy_max _ _ Hc). assert (zlen c / 6 <= zlen c) by (apply Z.div_le_upper_bound; lia). lia. }
  destruct Hraw as [Hro Hrz]. destruct (Hw eq_refl HS Hp Hro ltac:(lia)) as (HS' & Ho & _ & _ & Hb).
  split; [done|]. split; [lia|]. apply Hb. destruct Hcr as [[-> ->]|[-> Hc]]; [by left|right]. split; [done|]. by apply Snappy_round.
Qed.

Lemma LogSpecial_spec t c s :
  exists st s', LogWriter.LogSpecial o t c s = (st, s') /\ Grows s s' /\ (quiet s -> quiet s' /\ (open_ s = true -> st = kOk))
    /\ (st = kOk -> Sink s -> off_ s + zlen c + 9 < 2 ^ 64 ->
        Sink s' /\ off_ s' = off_ s + zlen c + 9 /\ exists header, LogSink.file s' = LogSink.file s ++ header ++ c).
Proof.
  unfold LogWriter.LogSpecial. set (header := LogWriter.header5 t c ++ _). assert (Hh : zlen header = 9) by done.
  destruct (write_all_spec [header; c] s) as (st & s' & -> & Hg & Hq & Hw). exists st, s'. split_and!; [done..|].
  intros -> HS Hoff. cbn [concat] in Hw. rewrite app_nil_r in Hw.
  destruct (Hw eq_refl HS) as [HS' Hf]; [rewrite zlen_app; lia|]. split; [done|]. split; [|by exists header].
  rewrite (sk_off _ HS'), (sk_off _ HS), Hf, !zlen_app, (gr_prev _ _ Hg). lia.
Qed.

Lemma pad_tail_spec n s :
  (tail_padding o = true -> 0 < index_buffer o) ->
  exists st s1, LogWriter.pad_tail o n s = Some (st, s1) /\ Grows s s1 /\ (quiet s -> quiet s1 /\ (open_ s = true -> st = kOk))
    /\ (st = kOk -> Sink s -> off_ s + index_buffer o < 2 ^ 64 -> 0 <= index_buffer o -> Sink s1 /\ off_ s1 <= off_ s + index_buffer o).
Proof.
  intros Hib. unfold LogWriter.pad_tail.
  assert (Hskip : Grows s s /\ (quiet s -> quiet s /\ (open_ s = true -> kOk = kOk))
    /\ (kOk = kOk -> Sink s -> off_ s + index_buffer o < 2 ^ 64 -> 0 <= index_buffer o -> Sink s /\ off_ s <= off_ s + index_buffer o)).
  { split_and!; [reflexivity|done|]. intros. split; [done|lia]. }
  destruct (tail_padding o); [|exists kOk, s; split; [done|exact Hskip]]. specialize (Hib eq_refl).
  destruct (Z.eqb_spec (index_buffer o) 0); [lia|]. set (overflow := _ mod _). cbv zeta.
  destruct (negb (overflow =? 0)); [|exists kOk, s; split; [done|exact Hskip]].
  destruct (Lwrite_spec (replicate (Z.to_nat (index_buffer o - overflow)) 0) s) as (st & s1 & -> & Hg & Hq & Hw).
  exists st, s1. split_and!; [done..|]. intros -> HS Ho _.
  assert (Hn : zlen (replicate (Z.to_nat (index_buffer o - overflow)) 0) <= index_buffer o).
  { unfold zlen. rewrite length_replicate. pose proof (Z.mod_pos_bound (u64 (LogSink.Ltell s + n)) (index_buffer o) Hib). lia. }
  destruct (Hw eq_refl HS ltac:(lia)) as [HS' Hf]. split; [done|].
  rewrite (sk_off _ HS'), (sk_off _ HS), Hf, !zlen_app, (gr_prev _ _ Hg). lia.
Qed.

(** The footer ends the log. *)
Lemma log_Finish_spec footer s :
  (tail_padding o = true -> 0 < index_buffer o) ->
  exists st s', LogWriter.Finish o footer s = Some (st, s') /\ Grows s s' /\ (quiet s -> quiet s' /\ (open_ s = true -> st = kOk))
    /\ (st = kOk -> Sink s -> off_ s + index_buffer o + zlen footer + 9 < 2 ^ 64 -> 0 <= index_buffer o ->
        Sink s' /\ exists x, LogSink.file s' = x ++ footer).
Proof.
  intros Hib. unfold LogWriter.Finish.
  destruct (pad_tail_spec (zlen footer + kChunkHeaderSize) s Hib) as (st & s1 & -> & Hg & Hq & Hw). destruct (ok st) eqn:Hok.
  2: { apply ok_false in Hok. exists st, s1. split_and!; [done..|]. intros ->. done. }
  apply ok_true in Hok as ->. destruct (LogSpecial_spec kFooter footer s1) as (st & s2 & -> & Hg2 & Hq2 & Hw2). exists st, s2.
  split; [done|]. split; [by etrans|]. split.
  { intros Hqs. destruct (Hq Hqs) as [Hq1 _]. destruct (Hq2 Hq1) as [? Hst]. split; [done|]. intros. apply Hst. by rewrite (gr_open _ _ Hg). }
  intros -> HS Ho Hi. pose proof (zlen_nonneg footer). destruct (Hw eq_refl HS ltac:(lia) Hi) as [HS1 Ho1].
  destruct (Hw2 eq_refl HS1 ltac:(lia)) as (HS2 & _ & header & Hf). split; [done|]. exists (LogSink.file s1 ++ header). by rewrite Hf, app_assoc.
Qed.

End Blocks.
