(* ===== verification/PlfsBuilder.v ===== *)
(** * Building indexed directories (plfsio/v1: builder.h, builder.cc)

    A directory is a data log, with the entries in data blocks, and an index log.
    [SeqDirBuilder] takes sorted entries (unsorted ones in the unordered modes) and
    cuts them into data blocks, collects finished blocks in a buffer until they are
    committed to the data log, and writes for every table an index block and a
    filter, for every epoch a meta index block, and at the end a root block and the
    footer.

    The type of data blocks is a parameter, as it is a template parameter in the
    code: [DataBlock] has the operations, with one instance for blocks of sorted
    strings and one for arrays of entries of a fixed size.

    The data log is shared by all partitions of a directory, so the operations take
    and return it; the index log belongs to the builder.  [last_tabl_info_] and
    [last_epok_info_] are written in full before every use and are locals here;
    [pending_meta_entry_] and [pending_root_entry_] are only set between two
    statements that cannot return.  [None] is a failed assertion. *)
From Stdlib Require Import Floats.SpecFloat.
From S2P Require Import Prelude Coding Status Crc32c Filter Cuckoo SstBlock PlfsFormat PlfsLog.

(** ** Data blocks *)

(** What [SeqDirBuilder] uses of its template parameter. *)
Class DataBlock (T : Type) := {
  db_New : DirOptions -> T;
  db_buf : T -> Buffer;
  db_set_buf : Buffer -> T -> T;
  db_Add : bytes -> bytes -> T -> option T;
  db_Finish : CompressionType -> bool -> T -> option (bytes * T);
  db_CurrentSizeEstimate : T -> Z;
  db_Reset : T -> T }.

Record ArrayBlockBuilder := mkArray { abuf : Buffer; a_value_size_ : Z; a_key_size_ : Z; n_ : Z }.

Module ArrayBlockBuilder.
Section Blocks.
Context `{Snappy}.

Definition New (o : DirOptions) (force_unordered : bool) : ArrayBlockBuilder :=
  mkArray (Buffer.New (negb (force_unordered || IsKeyUnOrdered (mode o)))) (value_size o) (key_size o) 0.

Definition set_buf (buf : Buffer) (b : ArrayBlockBuilder) : ArrayBlockBuilder :=
  mkArray buf (a_value_size_ b) (a_key_size_ b) (n_ b).

Definition Add (key value : bytes) (b : ArrayBlockBuilder) : option ArrayBlockBuilder :=
  if negb (zlen key =? a_key_size_ b) || negb (zlen value =? a_value_size_ b) then None
  else Some (mkArray (Buffer.append (key ++ value) (abuf b)) (a_value_size_ b) (a_key_size_ b) (n_ b + 1)).

Definition Reset (b : ArrayBlockBuilder) : ArrayBlockBuilder :=
  mkArray (Buffer.Reset (abuf b)) (a_value_size_ b) (a_key_size_ b) 0.

Definition Finish (compression : CompressionType) (force : bool) (b : ArrayBlockBuilder)
  : option (bytes * ArrayBlockBuilder) :=
  if finished_ (abuf b) then None
  else
    let s := EncodeFixed32 (u32 (a_value_size_ b)) ++ EncodeFixed32 (u32 (a_key_size_ b)) in
    let? (contents, buf) := Buffer.Finish compression force (Buffer.append s (abuf b)) in
    Some (contents, set_buf buf b).

Definition CurrentSizeEstimate (b : ArrayBlockBuilder) : Z :=
  let result := zlen (buffer_ (abuf b)) - buffer_start_ (abuf b) in
  if negb (finished_ (abuf b)) then result + 8 else result.

End Blocks.
End ArrayBlockBuilder.

(** [SortedStringBlockBuilder]. *)
Definition SortedString_New (o : DirOptions) : BlockBuilder := BlockBuilder.New 16 (negb (IsKeyUnOrdered (mode o))).

#[export] Instance sst_block `{Snappy} : DataBlock BlockBuilder := {|
  db_New := SortedString_New; db_buf := buf; db_set_buf := BlockBuilder.set_buf; db_Add := BlockBuilder.Add;
  db_Finish := BlockBuilder.Finish; db_CurrentSizeEstimate := BlockBuilder.CurrentSizeEstimate;
  db_Reset := BlockBuilder.Reset |}.

#[export] Instance array_block `{Snappy} : DataBlock ArrayBlockBuilder := {|
  db_New o := ArrayBlockBuilder.New o false; db_buf := abuf; db_set_buf := ArrayBlockBuilder.set_buf;
  db_Add := ArrayBlockBuilder.Add; db_Finish := ArrayBlockBuilder.Finish;
  db_CurrentSizeEstimate := ArrayBlockBuilder.CurrentSizeEstimate; db_Reset := ArrayBlockBuilder.Reset |}.

(** ** Statistics *)

Record DirOutputStats := mkStats {
  total_num_keys_ : Z; total_num_dropped_keys_ : Z; total_num_blocks_ : Z; total_num_tables_ : Z;
  final_data_size : Z; data_size : Z; final_meta_index_size : Z; meta_index_size : Z;
  final_index_size : Z; stats_index_size : Z; final_filter_size : Z; stats_filter_size : Z;
  stats_value_size : Z; stats_key_size : Z }.

Module DirOutputStats.

Definition New : DirOutputStats := mkStats 0 0 0 0 0 0 0 0 0 0 0 0 0 0.

Definition entry (key value : bytes) (s : DirOutputStats) : DirOutputStats :=
  mkStats (total_num_keys_ s) (total_num_dropped_keys_ s) (total_num_blocks_ s) (total_num_tables_ s)
    (final_data_size s) (data_size s) (final_meta_index_size s) (meta_index_size s)
    (final_index_size s) (stats_index_size s) (final_filter_size s) (stats_filter_size s)
    (u64 (stats_value_size s + zlen value)) (u64 (stats_key_size s + zlen key)).

Definition counts (keys dropped blocks tables : Z) (s : DirOutputStats) : DirOutputStats :=
  mkStats (u32 (total_num_keys_ s + keys)) (u32 (total_num_dropped_keys_ s + dropped))
    (u32 (total_num_blocks_ s + blocks)) (u32 (total_num_tables_ s + tables))
    (final_data_size s) (data_size s) (final_meta_index_size s) (meta_index_size s)
    (final_index_size s) (stats_index_size s) (final_filter_size s) (stats_filter_size s)
    (stats_value_size s) (stats_key_size s).

Definition data (final raw : Z) (s : DirOutputStats) : DirOutputStats :=
  mkStats (total_num_keys_ s) (total_num_dropped_keys_ s) (total_num_blocks_ s) (total_num_tables_ s)
    (u64 (final_data_size s + final)) (u64 (data_size s + raw)) (final_meta_index_size s) (meta_index_size s)
    (final_index_size s) (stats_index_size s) (final_filter_size s) (stats_filter_size s)
    (stats_value_size s) (stats_key_size s).

Definition meta (final raw : Z) (s : DirOutputStats) : DirOutputStats :=
  mkStats (total_num_keys_ s) (total_num_dropped_keys_ s) (total_num_blocks_ s) (total_num_tables_ s)
    (final_data_size s) (data_size s) (u64 (final_meta_index_size s + final)) (u64 (meta_index_size s + raw))
    (final_index_size s) (stats_index_size s) (final_filter_size s) (stats_filter_size s)
    (stats_value_size s) (stats_key_size s).

Definition index (final raw : Z) (s : DirOutputStats) : DirOutputStats :=
  mkStats (total_num_keys_ s) (total_num_dropped_keys_ s) (total_num_blocks_ s) (total_num_tables_ s)
    (final_data_size s) (data_size s) (final_meta_index_size s) (meta_index_size s)
    (u64 (final_index_size s + final)) (u64 (stats_index_size s + raw)) (final_filter_size s) (stats_filter_size s)
    (stats_value_size s) (stats_key_size s).

Definition filter (final raw : Z) (s : DirOutputStats) : DirOutputStats :=
  mkStats (total_num_keys_ s) (total_num_dropped_keys_ s) (total_num_blocks_ s) (total_num_tables_ s)
    (final_data_size s) (data_size s) (final_meta_index_size s) (meta_index_size s)
    (final_index_size s) (stats_index_size s) (u64 (final_filter_size s + final)) (u64 (stats_filter_size s + raw))
    (stats_value_size s) (stats_key_size s).

End DirOutputStats.

(** ** The builder *)

(** [status_b], [last_key_b] and [finished_b] are [status_], [last_key_] and
    [finished_] of the code. *)
Record SeqDirBuilder (T : Type) := mkDirBuilder {
  o_ : DirOptions; status_b : Status; num_entries_ : Z; num_tabls_ : Z; num_eps_ : Z; stats_ : DirOutputStats;
  keys_ : list bytes; smallest_key_ : bytes; largest_key_ : bytes; last_key_b : bytes;
  num_uncommitted_indx_ : Z; num_uncommitted_data_ : Z; pending_restart_ : bool; pending_commit_ : bool;
  block_threshold_ : Z; data_block_ : T; indx_block_ : BlockBuilder; epok_block_ : BlockBuilder;
  root_block_ : BlockBuilder; pending_indx_entry_ : bool; last_data_info_ : BlockHandle;
  uncommitted_indexes_ : bytes; data_offset_ : Z; indx_sink_ : LogSink; finished_b : bool }.
Arguments o_ {T} _.
Arguments status_b {T} _.
Arguments num_entries_ {T} _.
Arguments num_tabls_ {T} _.
Arguments num_eps_ {T} _.
Arguments stats_ {T} _.
Arguments keys_ {T} _.
Arguments smallest_key_ {T} _.
Arguments largest_key_ {T} _.
Arguments last_key_b {T} _.
Arguments num_uncommitted_indx_ {T} _.
Arguments num_uncommitted_data_ {T} _.
Arguments pending_restart_ {T} _.
Arguments pending_commit_ {T} _.
Arguments block_threshold_ {T} _.
Arguments data_block_ {T} _.
Arguments indx_block_ {T} _.
Arguments epok_block_ {T} _.
Arguments root_block_ {T} _.
Arguments pending_indx_entry_ {T} _.
Arguments last_data_info_ {T} _.
Arguments uncommitted_indexes_ {T} _.
Arguments data_offset_ {T} _.
Arguments indx_sink_ {T} _.
Arguments finished_b {T} _.
Arguments mkDirBuilder {T}.

Definition set_status_b {T} (x : Status) (b : SeqDirBuilder T) : SeqDirBuilder T :=
    mkDirBuilder (o_ b) x (num_entries_ b) (num_tabls_ b) (num_eps_ b) (stats_ b) (keys_ b) (smallest_key_ b)
    (largest_key_ b) (last_key_b b) (num_uncommitted_indx_ b) (num_uncommitted_data_ b) (pending_restart_ b)
    (pending_commit_ b) (block_threshold_ b) (data_block_ b) (indx_block_ b) (epok_block_ b) (root_block_ b)
    (pending_indx_entry_ b) (last_data_info_ b) (uncommitted_indexes_ b) (data_offset_ b) (indx_sink_ b)
    (finished_b b).
Definition set_num_entries_ {T} (x : Z) (b : SeqDirBuilder T) : SeqDirBuilder T :=
    mkDirBuilder (o_ b) (status_b b) x (num_tabls_ b) (num_eps_ b) (stats_ b) (keys_ b) (smallest_key_ b)
    (largest_key_ b) (last_key_b b) (num_uncommitted_indx_ b) (num_uncommitted_data_ b) (pending_restart_ b)
    (pending_commit_ b) (block_threshold_ b) (data_block_ b) (indx_block_ b) (epok_block_ b) (root_block_ b)
    (pending_indx_entry_ b) (last_data_info_ b) (uncommitted_indexes_ b) (data_offset_ b) (indx_sink_ b)
    (finished_b b).
Definition set_num_tabls_ {T} (x : Z) (b : SeqDirBuilder T) : SeqDirBuilder T :=
    mkDirBuilder (o_ b) (status_b b) (num_entries_ b) x (num_eps_ b) (stats_ b) (keys_ b) (smallest_key_ b)
    (largest_key_ b) (last_key_b b) (num_uncommitted_indx_ b) (num_uncommitted_data_ b) (pending_restart_ b)
    (pending_commit_ b) (block_threshold_ b) (data_block_ b) (indx_block_ b) (epok_block_ b) (root_block_ b)
    (pending_indx_entry_ b) (last_data_info_ b) (uncommitted_indexes_ b) (data_offset_ b) (indx_sink_ b)
    (finished_b b).
Definition set_num_eps_ {T} (x : Z) (b : SeqDirBuilder T) : SeqDirBuilder T :=
    mkDirBuilder (o_ b) (status_b b) (num_entries_ b) (num_tabls_ b) x (stats_ b) (keys_ b) (smallest_key_ b)
    (largest_key_ b) (last_key_b b) (num_uncommitted_indx_ b) (num_uncommitted_data_ b) (pending_restart_ b)
    (pending_commit_ b) (block_threshold_ b) (data_block_ b) (indx_block_ b) (epok_block_ b) (root_block_ b)
    (pending_indx_entry_ b) (last_data_info_ b) (uncommitted_indexes_ b) (data_offset_ b) (indx_sink_ b)
    (finished_b b).
Definition set_stats_ {T} (x : DirOutputStats) (b : SeqDirBuilder T) : SeqDirBuilder T :=
    mkDirBuilder (o_ b) (status_b b) (num_entries_ b) (num_tabls_ b) (num_eps_ b) x (keys_ b) (smallest_key_ b)
    (largest_key_ b) (last_key_b b) (num_uncommitted_indx_ b) (num_uncommitted_data_ b) (pending_restart_ b)
    (pending_commit_ b) (block_threshold_ b) (data_block_ b) (indx_block_ b) (epok_block_ b) (root_block_ b)
    (pending_indx_entry_ b) (last_data_info_ b) (uncommitted_indexes_ b) (data_offset_ b) (indx_sink_ b)
    (finished_b b).
Definition set_keys_ {T} (x : list bytes) (b : SeqDirBuilder T) : SeqDirBuilder T :=
    mkDirBuilder (o_ b) (status_b b) (num_entries_ b) (num_tabls_ b) (num_eps_ b) (stats_ b) x (smallest_key_ b)
    (largest_key_ b) (last_key_b b) (num_uncommitted_indx_ b) (num_uncommitted_data_ b) (pending_restart_ b)
    (pending_commit_ b) (block_threshold_ b) (data_block_ b) (indx_block_ b) (epok_block_ b) (root_block_ b)
    (pending_indx_entry_ b) (last_data_info_ b) (uncommitted_indexes_ b) (data_offset_ b) (indx_sink_ b)
    (finished_b b).
Definition set_last_key_b {T} (x : bytes) (b : SeqDirBuilder T) : SeqDirBuilder T :=
    mkDirBuilder (o_ b) (status_b b) (num_entries_ b) (num_tabls_ b) (num_eps_ b) (stats_ b) (keys_ b)
    (smallest_key_ b) (largest_key_ b) x (num_uncommitted_indx_ b) (num_uncommitted_data_ b) (pending_restart_
    b) (pending_commit_ b) (block_threshold_ b) (data_block_ b) (indx_block_ b) (epok_block_ b) (root_block_ b)
    (pending_indx_entry_ b) (last_data_info_ b) (uncommitted_indexes_ b) (data_offset_ b) (indx_sink_ b)
    (finished_b b).
Definition set_num_uncommitted_indx_ {T} (x : Z) (b : SeqDirBuilder T) : SeqDirBuilder T :=
    mkDirBuilder (o_ b) (status_b b) (num_entries_ b) (num_tabls_ b) (num_eps_ b) (stats_ b) (keys_ b)
    (smallest_key_ b) (largest_key_ b) (last_key_b b) x (num_uncommitted_data_ b) (pending_restart_ b)
    (pending_commit_ b) (block_threshold_ b) (data_block_ b) (indx_block_ b) (epok_block_ b) (root_block_ b)
    (pending_indx_entry_ b) (last_data_info_ b) (uncommitted_indexes_ b) (data_offset_ b) (indx_sink_ b)
    (finished_b b).
Definition set_num_uncommitted_data_ {T} (x : Z) (b : SeqDirBuilder T) : SeqDirBuilder T :=
    mkDirBuilder (o_ b) (status_b b) (num_entries_ b) (num_tabls_ b) (num_eps_ b) (stats_ b) (keys_ b)
    (smallest_key_ b) (largest_key_ b) (last_key_b b) (num_uncommitted_indx_ b) x (pending_restart_ b)
    (pending_commit_ b) (block_threshold_ b) (data_block_ b) (indx_block_ b) (epok_block_ b) (root_block_ b)
    (pending_indx_entry_ b) (last_data_info_ b) (uncommitted_indexes_ b) (data_offset_ b) (indx_sink_ b)
    (finished_b b).
Definition set_pending_restart_ {T} (x : bool) (b : SeqDirBuilder T) : SeqDirBuilder T :=
    mkDirBuilder (o_ b) (status_b b) (num_entries_ b) (num_tabls_ b) (num_eps_ b) (stats_ b) (keys_ b)
    (smallest_key_ b) (largest_key_ b) (last_key_b b) (num_uncommitted_indx_ b) (num_uncommitted_data_ b) x
    (pending_commit_ b) (block_threshold_ b) (data_block_ b) (indx_block_ b) (epok_block_ b) (root_block_ b)
    (pending_indx_entry_ b) (last_data_info_ b) (uncommitted_indexes_ b) (data_offset_ b) (indx_sink_ b)
    (finished_b b).
Definition set_pending_commit_ {T} (x : bool) (b : SeqDirBuilder T) : SeqDirBuilder T :=
    mkDirBuilder (o_ b) (status_b b) (num_entries_ b) (num_tabls_ b) (num_eps_ b) (stats_ b) (keys_ b)
    (smallest_key_ b) (largest_key_ b) (last_key_b b) (num_uncommitted_indx_ b) (num_uncommitted_data_ b)
    (pending_restart_ b) x (block_threshold_ b) (data_block_ b) (indx_block_ b) (epok_block_ b) (root_block_ b)
    (pending_indx_entry_ b) (last_data_info_ b) (uncommitted_indexes_ b) (data_offset_ b) (indx_sink_ b)
    (finished_b b).
Definition set_data_block_ {T} (x : T) (b : SeqDirBuilder T) : SeqDirBuilder T :=
    mkDirBuilder (o_ b) (status_b b) (num_entries_ b) (num_tabls_ b) (num_eps_ b) (stats_ b) (keys_ b)
    (smallest_key_ b) (largest_key_ b) (last_key_b b) (num_uncommitted_indx_ b) (num_uncommitted_data_ b)
    (pending_restart_ b) (pending_commit_ b) (block_threshold_ b) x (indx_block_ b) (epok_block_ b) (root_block_
    b) (pending_indx_entry_ b) (last_data_info_ b) (uncommitted_indexes_ b) (data_offset_ b) (indx_sink_ b)
    (finished_b b).
Definition set_indx_block_ {T} (x : BlockBuilder) (b : SeqDirBuilder T) : SeqDirBuilder T :=
    mkDirBuilder (o_ b) (status_b b) (num_entries_ b) (num_tabls_ b) (num_eps_ b) (stats_ b) (keys_ b)
    (smallest_key_ b) (largest_key_ b) (last_key_b b) (num_uncommitted_indx_ b) (num_uncommitted_data_ b)
    (pending_restart_ b) (pending_commit_ b) (block_threshold_ b) (data_block_ b) x (epok_block_ b) (root_block_
    b) (pending_indx_entry_ b) (last_data_info_ b) (uncommitted_indexes_ b) (data_offset_ b) (indx_sink_ b)
    (finished_b b).
Definition set_epok_block_ {T} (x : BlockBuilder) (b : SeqDirBuilder T) : SeqDirBuilder T :=
    mkDirBuilder (o_ b) (status_b b) (num_entries_ b) (num_tabls_ b) (num_eps_ b) (stats_ b) (keys_ b)
    (smallest_key_ b) (largest_key_ b) (last_key_b b) (num_uncommitted_indx_ b) (num_uncommitted_data_ b)
    (pending_restart_ b) (pending_commit_ b) (block_threshold_ b) (data_block_ b) (indx_block_ b) x (root_block_
    b) (pending_indx_entry_ b) (last_data_info_ b) (uncommitted_indexes_ b) (data_offset_ b) (indx_sink_ b)
    (finished_b b).
Definition set_root_block_ {T} (x : BlockBuilder) (b : SeqDirBuilder T) : SeqDirBuilder T :=
    mkDirBuilder (o_ b) (status_b b) (num_entries_ b) (num_tabls_ b) (num_eps_ b) (stats_ b) (keys_ b)
    (smallest_key_ b) (largest_key_ b) (last_key_b b) (num_uncommitted_indx_ b) (num_uncommitted_data_ b)
    (pending_restart_ b) (pending_commit_ b) (block_threshold_ b) (data_block_ b) (indx_block_ b) (epok_block_
    b) x (pending_indx_entry_ b) (last_data_info_ b) (uncommitted_indexes_ b) (data_offset_ b) (indx_sink_ b)
    (finished_b b).
Definition set_pending_indx_entry_ {T} (x : bool) (b : SeqDirBuilder T) : SeqDirBuilder T :=
    mkDirBuilder (o_ b) (status_b b) (num_entries_ b) (num_tabls_ b) (num_eps_ b) (stats_ b) (keys_ b)
    (smallest_key_ b) (largest_key_ b) (last_key_b b) (num_uncommitted_indx_ b) (num_uncommitted_data_ b)
    (pending_restart_ b) (pending_commit_ b) (block_threshold_ b) (data_block_ b) (indx_block_ b) (epok_block_
    b) (root_block_ b) x (last_data_info_ b) (uncommitted_indexes_ b) (data_offset_ b) (indx_sink_ b)
    (finished_b b).
Definition set_last_data_info_ {T} (x : BlockHandle) (b : SeqDirBuilder T) : SeqDirBuilder T :=
    mkDirBuilder (o_ b) (status_b b) (num_entries_ b) (num_tabls_ b) (num_eps_ b) (stats_ b) (keys_ b)
    (smallest_key_ b) (largest_key_ b) (last_key_b b) (num_uncommitted_indx_ b) (num_uncommitted_data_ b)
    (pending_restart_ b) (pending_commit_ b) (block_threshold_ b) (data_block_ b) (indx_block_ b) (epok_block_
    b) (root_block_ b) (pending_indx_entry_ b) x (uncommitted_indexes_ b) (data_offset_ b) (indx_sink_ b)
    (finished_b b).
Definition set_uncommitted_indexes_ {T} (x : bytes) (b : SeqDirBuilder T) : SeqDirBuilder T :=
    mkDirBuilder (o_ b) (status_b b) (num_entries_ b) (num_tabls_ b) (num_eps_ b) (stats_ b) (keys_ b)
    (smallest_key_ b) (largest_key_ b) (last_key_b b) (num_uncommitted_indx_ b) (num_uncommitted_data_ b)
    (pending_restart_ b) (pending_commit_ b) (block_threshold_ b) (data_block_ b) (indx_block_ b) (epok_block_
    b) (root_block_ b) (pending_indx_entry_ b) (last_data_info_ b) x (data_offset_ b) (indx_sink_ b) (finished_b
    b).
Definition set_data_offset_ {T} (x : Z) (b : SeqDirBuilder T) : SeqDirBuilder T :=
    mkDirBuilder (o_ b) (status_b b) (num_entries_ b) (num_tabls_ b) (num_eps_ b) (stats_ b) (keys_ b)
    (smallest_key_ b) (largest_key_ b) (last_key_b b) (num_uncommitted_indx_ b) (num_uncommitted_data_ b)
    (pending_restart_ b) (pending_commit_ b) (block_threshold_ b) (data_block_ b) (indx_block_ b) (epok_block_
    b) (root_block_ b) (pending_indx_entry_ b) (last_data_info_ b) (uncommitted_indexes_ b) x (indx_sink_ b)
    (finished_b b).
Definition set_indx_sink_ {T} (x : LogSink) (b : SeqDirBuilder T) : SeqDirBuilder T :=
    mkDirBuilder (o_ b) (status_b b) (num_entries_ b) (num_tabls_ b) (num_eps_ b) (stats_ b) (keys_ b)
    (smallest_key_ b) (largest_key_ b) (last_key_b b) (num_uncommitted_indx_ b) (num_uncommitted_data_ b)
    (pending_restart_ b) (pending_commit_ b) (block_threshold_ b) (data_block_ b) (indx_block_ b) (epok_block_
    b) (root_block_ b) (pending_indx_entry_ b) (last_data_info_ b) (uncommitted_indexes_ b) (data_offset_ b) x
    (finished_b b).
Definition set_finished_b {T} (x : bool) (b : SeqDirBuilder T) : SeqDirBuilder T :=
    mkDirBuilder (o_ b) (status_b b) (num_entries_ b) (num_tabls_ b) (num_eps_ b) (stats_ b) (keys_ b)
    (smallest_key_ b) (largest_key_ b) (last_key_b b) (num_uncommitted_indx_ b) (num_uncommitted_data_ b)
    (pending_restart_ b) (pending_commit_ b) (block_threshold_ b) (data_block_ b) (indx_block_ b) (epok_block_
    b) (root_block_ b) (pending_indx_entry_ b) (last_data_info_ b) (uncommitted_indexes_ b) (data_offset_ b)
    (indx_sink_ b) x.
Definition set_smallest_key_ {T} (x : bytes) (b : SeqDirBuilder T) : SeqDirBuilder T :=
    mkDirBuilder (o_ b) (status_b b) (num_entries_ b) (num_tabls_ b) (num_eps_ b) (stats_ b) (keys_ b) x
    (largest_key_ b) (last_key_b b) (num_uncommitted_indx_ b) (num_uncommitted_data_ b) (pending_restart_ b)
    (pending_commit_ b) (block_threshold_ b) (data_block_ b) (indx_block_ b) (epok_block_ b) (root_block_ b)
    (pending_indx_entry_ b) (last_data_info_ b) (uncommitted_indexes_ b) (data_offset_ b) (indx_sink_ b)
    (finished_b b).
Definition set_largest_key_ {T} (x : bytes) (b : SeqDirBuilder T) : SeqDirBuilder T :=
    mkDirBuilder (o_ b) (status_b b) (num_entries_ b) (num_tabls_ b) (num_eps_ b) (stats_ b) (keys_ b)
    (smallest_key_ b) x (last_key_b b) (num_uncommitted_indx_ b) (num_uncommitted_data_ b) (pending_restart_ b)
    (pending_commit_ b) (block_threshold_ b) (data_block_ b) (indx_block_ b) (epok_block_ b) (root_block_ b)
    (pending_indx_entry_ b) (last_data_info_ b) (uncommitted_indexes_ b) (data_offset_ b) (indx_sink_ b)
    (finished_b b).

(** [static_cast<size_t>(floor(x))]. *)
Definition floor_to_size_t (x : spec_float) : option Z :=
  match x with
  | S754_zero _ => Some 0
  | S754_finite false m e =>
      let z := if 0 <=? e then Z.pos m * 2 ^ e else Z.pos m / 2 ^ (- e) in
      if z <? 2 ^ 64 then Some z else None
  | _ => None
  end.

Module SeqDirBuilder.
Section Operations.
Context `{Snappy} {T : Type} `{!DataBlock T}.
Abbreviation Builder := (SeqDirBuilder T).

Definition okb (b : Builder) : bool := ok (status_b b).

Definition buffer_store (b : Builder) : bytes := buffer_ (db_buf (data_block_ b)).

Definition update_buf (f : Buffer -> Buffer) (t : T) : T := db_set_buf (f (db_buf t)) t.

Definition update_stats (f : DirOutputStats -> DirOutputStats) (b : Builder) : Builder := set_stats_ (f (stats_ b)) b.

Definition New (o : DirOptions) (indx : LogSink) : option Builder :=
  let? threshold := floor_to_size_t (F64.mul (F64.of_Z (block_size o)) (block_util o)) in
  Some (mkDirBuilder o kOk 0 0 0 DirOutputStats.New [] [] [] [] 0 0 true false threshold
          (update_buf Buffer.clear (db_New o)) (BlockBuilder.New 1 true) (BlockBuilder.New 1 true) (BlockBuilder.New 1 true)
          false BlockHandle.New [] 0 indx false).

(** The target of the padding is the first that holds the block. *)
Fixpoint padding_loop (fuel : nat) (block_size size target : Z) : option Z :=
  match fuel with
  | O => None
  | S fuel =>
      if target <? size + kBlockTrailerSize then padding_loop fuel block_size size (u64 (target + block_size))
      else Some target
  end.

Definition padding_target (o : DirOptions) (size : Z) : option Z :=
  padding_loop (Z.to_nat (size + kBlockTrailerSize) + 1) (block_size o) size
    (u64 (block_size o - BlockHandle.kMaxEncodedLength)).

Definition EndBlock (b : Builder) : option Builder :=
  let o := o_ b in
  if finished_b b then None
  else if pending_restart_ b then Some b
  else if Buffer.empty (db_buf (data_block_ b)) then Some b
  else if negb (okb b) then Some b
  else
    let? (contents, block) := db_Finish (compression o) (force_compression o) (data_block_ b) in
    let size := zlen contents in
    let? (final, buf) :=
      (if block_padding o then
         let? target := padding_target o size in
         Buffer.Finalize (negb (skip_checksums o)) (u32 target) 0xff (db_buf block)
       else Buffer.Finalize (negb (skip_checksums o)) 0 0 (db_buf block)) in
    let block := db_set_buf buf block in
    let offset := zlen (buffer_ buf) - zlen final in
    if pending_indx_entry_ b then None
    else
      let b := update_stats (fun s => DirOutputStats.counts 0 0 1 0 (DirOutputStats.data (zlen final) size s)) b in
      let b := set_pending_restart_ true (set_data_block_ block b) in
      let b := set_pending_indx_entry_ true (set_last_data_info_ (mkHandle offset size) b) in
      Some (set_num_uncommitted_data_ (u32 (num_uncommitted_data_ b + 1)) b).

(** An index entry for the last data block, with the key [sep]. *)
Definition add_index_entry (sep : bytes) (b : Builder) : option Builder :=
  let? h := BlockHandle.EncodeTo (last_data_info_ b) in
  let b := set_uncommitted_indexes_ (uncommitted_indexes_ b ++ PutLengthPrefixedSlice sep ++ h) b in
  let b := set_pending_indx_entry_ false b in
  Some (set_num_uncommitted_indx_ (u32 (num_uncommitted_indx_ b + 1)) b).

(** [memcpy] into a buffer. *)
Definition overwrite (pos : Z) (s buffer : bytes) : bytes :=
  take (Z.to_nat pos) buffer ++ s ++ drop (Z.to_nat pos + length s) buffer.

(** The loop of [Commit] over the uncommitted index entries; it takes an entry of
    at least one byte every time. *)
Fixpoint commit_loop (fuel : nat) (o : DirOptions) (base : Z) (input buffer : bytes) (indx : BlockBuilder) (n : Z)
  : option (bytes * BlockBuilder * Z) :=
  match fuel with
  | O => Some (buffer, indx, n)
  | S fuel =>
      match input with
      | [] => Some (buffer, indx, n)
      | _ :: _ =>
          match GetLengthPrefixedSlice input with
          | None => Some (buffer, indx, n)
          | Some (key, input) =>
              let? (h, input) := BlockHandle.DecodeFrom input in
              let offset := offset_ h in
              let? enc := BlockHandle.EncodeTo (mkHandle (u64 (base + offset)) (size_ h)) in
              let pos := offset - BlockHandle.kMaxEncodedLength in
              if (offset <? BlockHandle.kMaxEncodedLength)
                 || negb (seq (take (Z.to_nat BlockHandle.kMaxEncodedLength) (drop (Z.to_nat pos) buffer))
                            (replicate (Z.to_nat BlockHandle.kMaxEncodedLength) 0))
                 || (block_padding o && negb (u64 (base + offset - BlockHandle.kMaxEncodedLength) mod block_size o =? 0))
              then None
              else
                let? indx := BlockBuilder.Add key enc indx in
                commit_loop fuel o base input (overwrite pos enc buffer) indx (n + 1)
          end
      end
  end.

Definition Commit (b : Builder) (data : LogSink) : option (Builder * LogSink) :=
  let o := o_ b in
  if finished_b b then None
  else if seq (buffer_store b) [] then Some (b, data)
  else if negb (okb b) then Some (b, data)
  else if negb (num_uncommitted_data_ b =? num_uncommitted_indx_ b) then None
  else if block_padding o && negb (zlen (buffer_store b) mod block_size o =? 0) then None
  else
    let? base := LogSink.Ptell data in
    let input := uncommitted_indexes_ b in
    let? (buffer, indx, n) := commit_loop (length input) o base input (buffer_store b) (indx_block_ b) 0 in
    if negb (n =? num_uncommitted_indx_ b) then None
    else
      let (st, data) := LogSink.Lwrite buffer data in
      let b := set_data_block_ (update_buf (Buffer.set_buffer buffer) (data_block_ b)) b in
      let b := set_indx_block_ indx (set_status_b st b) in
      let b := set_data_offset_ (u64 (base + zlen buffer)) b in
      if negb (okb b) then Some (b, data)
      else
        let b := set_uncommitted_indexes_ [] (set_num_uncommitted_data_ 0 (set_num_uncommitted_indx_ 0 b)) in
        let b := set_data_block_ (update_buf Buffer.clear (data_block_ b)) b in
        Some (set_pending_restart_ true (set_pending_commit_ false b), data).

(** The filter of a table, if there is one. *)
Definition write_filter (filter_contents : bytes) (filter_type : ChunkType) (b : Builder) : BlockHandle * Builder :=
  match filter_contents with
  | [] => (mkHandle 0 0, b)
  | _ :: _ =>
      let '(st, h, sink) := LogWriter.Write (o_ b) filter_type filter_contents (indx_sink_ b) in
      let b := set_indx_sink_ sink (set_status_b st b) in
      (h, if okb b
          then update_stats (DirOutputStats.filter (size_ h + kBlockTrailerSize) (zlen filter_contents)) b else b)
  end.

(** The entry of a table in the meta index block. *)
Definition add_table (index_handle filter_handle : BlockHandle) (b : Builder) : option Builder :=
  let b := set_indx_block_ (BlockBuilder.Reset (indx_block_ b)) b in
  let b := set_largest_key_ (Comparator.FindShortSuccessor (largest_key_ b)) b in
  let? handle := TableHandle.EncodeTo
    (mkTable (smallest_key_ b) (largest_key_ b) (offset_ filter_handle) (size_ filter_handle)
       (offset_ index_handle) (size_ index_handle)) in
  let? key := EpochTableKey (num_eps_ b) (num_tabls_ b) in
  let? epok := BlockBuilder.Add key handle (epok_block_ b) in
  let b := update_stats (DirOutputStats.counts 0 0 0 1) (set_epok_block_ epok b) in
  let b := set_num_tabls_ (u32 (num_tabls_ b + 1)) b in
  Some (set_smallest_key_ [] (set_largest_key_ [] (set_last_key_b [] b))).

(** The part of [EndTable] after the data blocks are committed. *)
Definition write_table (filter_contents : bytes) (filter_type : ChunkType) (b : Builder) : option Builder :=
  let? (index_contents, indx) := BlockBuilder.Finish kNoCompression false (indx_block_ b) in
  let b := set_indx_block_ indx b in
  let '(st, index_handle, sink) := LogWriter.Write (o_ b) kIdxChunk index_contents (indx_sink_ b) in
  let b := set_indx_sink_ sink (set_status_b st b) in
  if negb (okb b) then Some b
  else
    let b := update_stats (DirOutputStats.index (size_ index_handle + kBlockTrailerSize) (zlen index_contents)) b in
    let (filter_handle, b) := write_filter filter_contents filter_type b in
    if negb (okb b) then Some b else add_table index_handle filter_handle b.

Definition EndTable (filter_contents : bytes) (filter_type : ChunkType) (b : Builder) (data : LogSink)
  : option (Builder * LogSink) :=
  if finished_b b then None
  else
    let? b := EndBlock b in
    if negb (okb b) then Some (b, data)
    else
      let? b :=
        (if pending_indx_entry_ b then
           let b := set_last_key_b (Comparator.FindShortSuccessor (last_key_b b)) b in
           add_index_entry (last_key_b b) b
         else Some b) in
      let? (b, data) := Commit b data in
      if negb (okb b) then Some (b, data)
      else if Buffer.empty (buf (indx_block_ b)) then Some (b, data)
      else let? b := write_table filter_contents filter_type b in Some (b, data).

(** The part of [FinishEpoch] after the last table, which is not empty. *)
Definition write_epoch (ep_seq : Z) (b : Builder) : option Builder :=
  let o := o_ b in
  let? (contents, epok) := BlockBuilder.Finish kNoCompression false (epok_block_ b) in
  let b := set_epok_block_ epok b in
  let '(st, h, sink) := LogWriter.Write o kMetaChunk contents (indx_sink_ b) in
  let b := set_indx_sink_ sink (set_status_b st b) in
  if negb (okb b) then Some b
  else
    let b := update_stats (DirOutputStats.meta (size_ h + kBlockTrailerSize) (zlen contents)) b in
    let b := set_epok_block_ (BlockBuilder.Reset (epok_block_ b)) b in
    let? handle := EpochHandle.EncodeTo (mkEpoch (offset_ h) (size_ h) (num_tabls_ b) (num_entries_ b)) in
    let? key := EpochKey (num_eps_ b) in
    let? root := BlockBuilder.Add key handle (root_block_ b) in
    let b := set_root_block_ root b in
    let? stone := EpochStone.EncodeTo (mkStone h (num_eps_ b)) in
    let (st, sink) := LogWriter.SealEpoch o stone (indx_sink_ b) in
    let b := set_indx_sink_ sink (set_status_b st b) in
    if negb (okb b) then Some b
    else Some (set_num_eps_ (u32 (ep_seq + 1)) (set_keys_ [] (set_num_entries_ 0 (set_num_tabls_ 0 b)))).

Definition FinishEpoch (ep_seq : Z) (b : Builder) (data : LogSink) : option (Builder * LogSink) :=
  if finished_b b then None
  else if ep_seq <? num_eps_ b then Some (b, data)
  else
    let? (b, data) := EndTable [] kUnknown b data in
    if negb (okb b) then Some (b, data)
    else if num_tabls_ b =? 0 then Some (set_num_eps_ (u32 (ep_seq + 1)) b, data)
    else let? b := write_epoch ep_seq b in Some (b, data).

(** What [Add] does to the key range of the table; [inl] when the key is dropped. *)
Definition add_key (key : bytes) (b : Builder) : option (Builder + Builder) :=
  if IsKeyUnOrdered (mode (o_ b)) then
    let b := if seq (smallest_key_ b) [] || slt key (smallest_key_ b) then set_smallest_key_ key b else b in
    let b := if seq (largest_key_ b) [] || slt (largest_key_ b) key then set_largest_key_ key b else b in
    Some (inr b)
  else
    let? dropped :=
      (if negb (seq (last_key_b b) []) then
         if negb (sle (last_key_b b) key) then None
         else
           match mode (o_ b) with
           | kDmUniqueDrop => Some (seq key (last_key_b b))
           | m => if IsKeyUnique m && seq key (last_key_b b) then None else Some false
           end
       else Some false) in
    if dropped then Some (inl (update_stats (DirOutputStats.counts 0 1 0 0) b))
    else
      let b := if seq (smallest_key_ b) [] then set_smallest_key_ key b else b in
      Some (inr (set_largest_key_ key b)).

(** A new block begins in the buffer after the last one, with room for a handle. *)
Definition begin_block (b : Builder) : Builder :=
  if pending_restart_ b then
    let block := update_buf (Buffer.Pad (Z.to_nat BlockHandle.kMaxEncodedLength)) (update_buf Buffer.SwitchBuffer (data_block_ b)) in
    set_data_block_ (db_Reset block) (set_pending_restart_ false b)
  else b.

(** The entry goes into the open block. *)
Definition put_entry (key value : bytes) (b : Builder) : option Builder :=
  let b := update_stats (DirOutputStats.entry key value) (set_last_key_b key b) in
  let? b :=
    match mode (o_ b) with
    | kDmUniqueKey => if bool_decide (key ∈ keys_ b) then None else Some (set_keys_ (key :: keys_ b) b)
    | _ => Some b
    end in
  let? block := db_Add key value (data_block_ b) in
  let b := update_stats (DirOutputStats.counts 1 0 0 0) (set_data_block_ block b) in
  Some (set_num_entries_ (u32 (num_entries_ b + 1)) b).

(** [Add] from the restart of the block buffer. *)
Definition add_entry (key value : bytes) (b : Builder) : option Builder :=
  let o := o_ b in
  let? b := put_entry key value (begin_block b) in
  if IsKeyUnOrdered (mode o) then Some b
  else if block_threshold_ b <=? db_CurrentSizeEstimate (data_block_ b) + kBlockTrailerSize + BlockHandle.kMaxEncodedLength then
    let? b := EndBlock b in
    Some (if block_batch_size o <? zlen (buffer_store b) + block_size o then set_pending_commit_ true b else b)
  else Some b.

Definition Add (key value : bytes) (b : Builder) (data : LogSink) : option (Builder * LogSink) :=
  if finished_b b then None
  else if seq key [] then None
  else if negb (okb b) then Some (b, data)
  else
    let? r := add_key key b in
    match r with
    | inl b => Some (b, data)
    | inr b =>
        let? b :=
          (if pending_indx_entry_ b then
             let b := set_last_key_b (Comparator.FindShortestSeparator (last_key_b b) key) b in
             add_index_entry (last_key_b b) b
           else Some b) in
        let? (b, data) := (if pending_commit_ b then Commit b data else Some (b, data)) in
        if negb (okb b) then Some (b, data)
        else let? b := add_entry key value b in Some (b, data)
    end.

(** The root block and the footer. *)
Definition write_root (b : Builder) : option Builder :=
  let o := o_ b in
  let? (contents, root) := BlockBuilder.Finish kNoCompression false (root_block_ b) in
  let b := set_root_block_ root b in
  let '(st, h, sink) := LogWriter.Write o kRtChunk contents (indx_sink_ b) in
  let b := set_indx_sink_ sink (set_status_b st b) in
  if negb (okb b) then Some b
  else
    let b := update_stats (DirOutputStats.meta (size_ h + kBlockTrailerSize) (zlen contents)) b in
    let? footer := Footer.EncodeTo (set_num_epochs (num_eps_ b) (set_epoch_index_handle h (Mkfoot o))) in
    let? (st, sink) := LogWriter.Finish o footer (indx_sink_ b) in
    Some (set_indx_sink_ sink (set_status_b st b)).

Definition Finish (ep_seq : Z) (b : Builder) (data : LogSink) : option (Builder * LogSink) :=
  if finished_b b then None
  else
    let ep_seq := if ep_seq <? num_eps_ b then num_eps_ b else ep_seq in
    let? (b, data) := EndTable [] kUnknown b data in
    let? (b, data) := (if okb b && negb (num_tabls_ b =? 0) then FinishEpoch ep_seq b data else Some (b, data)) in
    let b := set_finished_b true b in
    if negb (okb b) then Some (b, data)
    else if pending_indx_entry_ b then None
    else let? b := write_root b in Some (b, data).

End Operations.
End SeqDirBuilder.
