(* ===== verification/PlfsReader.v ===== *)
(** * Reading indexed directories (plfsio/v1: builder.cc, [ArrayBlock]; internal.cc, [Dir])

    [Dir] reads one partition of a directory: it opens the index log by its footer
    and finds keys through the root block (epochs), the meta index blocks (tables),
    the filters, the index blocks (data blocks) and the data blocks.

    Epochs are read one after the other, as they are without a thread pool.  Every
    call of a saver is one element of a list of saved entries; a user callback may
    stop a scan.  Counts of seeks, and buffers supplied by the user, are left out.
    [None] is a failed assertion, undefined behaviour, or a loop that has not ended
    within its fuel. *)
From S2P Require Import Prelude Coding Status Crc32c Gigaplus Filter SstBlock PlfsFormat PlfsLog.

(** ** Data blocks *)

Record ArrayIter := mkArrayIter {
  ai_cmp : bool; ai_data : bytes; ai_limit : Z; ai_value_size : Z; ai_key_size : Z; ai_current : Z }.

Module ArrayIter.

Definition entry_size (it : ArrayIter) : Z := u32 (ai_key_size it + ai_value_size it).

Definition move (it : ArrayIter) (current : Z) : ArrayIter :=
  mkArrayIter (ai_cmp it) (ai_data it) (ai_limit it) (ai_value_size it) (ai_key_size it) current.

Definition sub (it : ArrayIter) (pos size : Z) : bytes := take (Z.to_nat size) (drop (Z.to_nat pos) (ai_data it)).

Definition Valid (it : ArrayIter) : bool := ai_current it <? ai_limit it.
Definition key (it : ArrayIter) : bytes := sub it (ai_current it) (ai_key_size it).
Definition value (it : ArrayIter) : bytes := sub it (ai_current it + ai_key_size it) (ai_value_size it).

Definition Next (it : ArrayIter) : ArrayIter := move it (u32 (ai_current it + entry_size it)).

Definition Prev (it : ArrayIter) : ArrayIter :=
  if entry_size it <=? ai_current it then move it (ai_current it - entry_size it) else move it (ai_limit it).

Definition SeekToFirst (it : ArrayIter) : ArrayIter := move it 0.

Definition SeekToLast (it : ArrayIter) : ArrayIter :=
  if entry_size it <=? ai_limit it then move it (ai_limit it - ai_key_size it - ai_value_size it) else move it 0.

(** The binary search; a round halves the range. *)
Fixpoint search (fuel : nat) (it : ArrayIter) (target : bytes) (left right : Z) : Z :=
  match fuel with
  | O => left
  | S fuel =>
      if left <? right then
        let mid := (left + right + 1) / 2 in
        if slt (sub it (u32 (mid * entry_size it)) (ai_key_size it)) target then search fuel it target mid right
        else search fuel it target left (mid - 1)
      else left
  end.

(** The linear search, for a key for which [stop] holds. *)
Fixpoint advance (fuel : nat) (stop : bytes -> bool) (it : ArrayIter) : ArrayIter :=
  match fuel with
  | O => it
  | S fuel => if negb (Valid it) then it else if stop (key it) then it else advance fuel stop (Next it)
  end.

Definition Seek (it : ArrayIter) (target : bytes) : ArrayIter :=
  let num_entries := ai_limit it / entry_size it in
  let fuel := S (length (ai_data it)) in
  if ai_cmp it && negb (num_entries =? 0) then
    let left := search (Z.to_nat num_entries) it target 0 (num_entries - 1) in
    advance fuel (sle target) (move it (u32 (left * entry_size it)))
  else advance fuel (seq target) (SeekToFirst it).

End ArrayIter.

Module ArrayBlock.

(** The iterator, or the status of an empty or an error iterator. *)
Definition NewIterator (cmp : bool) (data : bytes) : option (Status + ArrayIter) :=
  let size := zlen data in
  if size <? 8 then Some (inl kCorruption)
  else
    let value_size := DecodeFixed32 (drop (Z.to_nat (size - 8)) data) in
    let key_size := DecodeFixed32 (drop (Z.to_nat (size - 4)) data) in
    if key_size =? 0 then Some (inl kCorruption)
    else
      let entry_size := u32 (key_size + value_size) in
      if entry_size =? 0 then None
      else
        let max_entries := u32 (size - 8) / entry_size in
        let limit := u32 (max_entries * entry_size) in
        if negb (limit =? 0) then Some (inr (mkArrayIter cmp data limit value_size key_size limit)) else Some (inl kOk).

End ArrayBlock.

Inductive DirIter := SstIter (it : Iter) | ArrIter (it : ArrayIter) | StatusIter (st : Status).

Module DirIter.

Definition Valid (it : DirIter) : bool :=
  match it with SstIter it => Iter.Valid it | ArrIter it => ArrayIter.Valid it | StatusIter _ => false end.
Definition key (it : DirIter) : bytes :=
  match it with SstIter it => Iter.key it | ArrIter it => ArrayIter.key it | StatusIter _ => [] end.
Definition value (it : DirIter) : bytes :=
  match it with SstIter it => Iter.value it | ArrIter it => ArrayIter.value it | StatusIter _ => [] end.
Definition status (it : DirIter) : Status :=
  match it with SstIter it => status_ it | ArrIter _ => kOk | StatusIter st => st end.
Definition Next (it : DirIter) : DirIter :=
  match it with SstIter it => SstIter (Iter.Next it) | ArrIter it => ArrIter (ArrayIter.Next it) | it => it end.
Definition SeekToFirst (it : DirIter) : DirIter :=
  match it with SstIter it => SstIter (Iter.SeekToFirst it) | ArrIter it => ArrIter (ArrayIter.SeekToFirst it) | it => it end.
Definition Seek (it : DirIter) (target : bytes) : DirIter :=
  match it with SstIter it => SstIter (Iter.Seek it target) | ArrIter it => ArrIter (ArrayIter.Seek it target) | it => it end.

End DirIter.

Definition OpenBlock (data : bytes) : DirIter :=
  match Block.NewIterator data with inl st => StatusIter st | inr it => SstIter it end.

Definition OpenDirBlock (o : DirOptions) (data : bytes) : option DirIter :=
  if negb (leveldb_compatible o) && fixed_kv_length o then
    let? r := ArrayBlock.NewIterator (negb (IsKeyUnOrdered (mode o))) data in
    Some (match r with inl st => StatusIter st | inr it => ArrIter it end)
  else Some (OpenBlock data).

(** ** The directory *)

Record Dir := mkDir { d_options : DirOptions; d_num_eps : Z; d_data : LogSource; d_indx : LogSource; d_rt : bytes }.

Record EpochRange := mkRange { epoch_start : Z; epoch_end : Z }.

Module Dir.
Section Reader.
Context `{Snappy} `{XXHash} (d : Dir).
Definition opts := d_options d.

(** [while (iter->Valid() && key > iter->key()) iter->Next()] *)
Fixpoint skip_loop (fuel : nat) (key : bytes) (it : DirIter) : option DirIter :=
  match fuel with
  | O => None
  | S fuel => if DirIter.Valid it && slt (DirIter.key it) key then skip_loop fuel key (DirIter.Next it) else Some it
  end.

(** The first position to look at, in a data block or in an index block. *)
Definition first_position (fuel : nat) (key : bytes) (it : DirIter) : option DirIter :=
  if IsKeyUniqueAndOrdered (mode opts) then Some (DirIter.Seek it key)
  else
    let it := DirIter.SeekToFirst it in
    if negb (IsKeyUnOrdered (mode opts)) then skip_loop fuel key it else Some it.

(** Collecting the values of a key in a block: the values saved, [found],
    [exhausted] and the iterator. *)
Fixpoint collect (fuel : nat) (key : bytes) (exhausted : bool) (it : DirIter)
  : option (list bytes * bool * bool * DirIter) :=
  match fuel with
  | O => None
  | S fuel =>
      if negb (DirIter.Valid it) then Some ([], false, exhausted, it)
      else if seq (DirIter.key it) key then
        let v := DirIter.value it in
        if IsKeyUnique (mode opts) then Some ([v], true, exhausted, it)
        else let? (vs, found, exhausted, it) := collect fuel key exhausted (DirIter.Next it) in Some (v :: vs, found, exhausted, it)
      else if negb (IsKeyUnOrdered (mode opts)) then Some ([], false, true, it)
      else collect fuel key exhausted (DirIter.Next it)
  end.

(** [Fetch] from a data block, whose handle is encoded in [input]. *)
Definition Fetch_block (key input : bytes) (file_index : Z) : option (Status * list bytes * bool * bool) :=
  match BlockHandle.DecodeFrom input with
  | None => Some (kCorruption, [], false, false)
  | Some (h, _) =>
      let? (st, contents) := ReadBlock (d_data d) opts h file_index in
      if negb (ok st) then Some (st, [], false, false)
      else
        let? it := OpenDirBlock opts contents in
        let fuel := S (length contents) in
        let? it := first_position fuel key it in
        let exhausted := negb (IsKeyUnOrdered (mode opts)) && negb (DirIter.Valid it) in
        let? (vs, found, exhausted, it) := collect fuel key exhausted it in
        Some (DirIter.status it, vs, found, exhausted)
  end.

Definition KeyMayMatch (key : bytes) (h : BlockHandle) : option bool :=
  let? (st, contents) := ReadBlock (d_indx d) opts h 0 in
  if ok st then
    match filter_type opts with
    | kFtBloomFilter => Some (Bloom.BloomKeyMayMatch key contents)
    | kFtBitmap => Bitmap.BitmapKeyMustMatch key contents
    | _ => Some true
    end
  else Some true.

(** The loop of [Fetch] over the data blocks of a table. *)
Fixpoint fetch_loop (fuel : nat) (key : bytes) (file_index : Z) (it : DirIter) : option (Status * list bytes) :=
  match fuel with
  | O => None
  | S fuel =>
      if negb (DirIter.Valid it) then Some (DirIter.status it, [])
      else
        let? (st, vs, found, exhausted) := Fetch_block key (DirIter.value it) file_index in
        if negb (ok st) then Some (st, vs)
        else if IsKeyUniqueAndOrdered (mode opts) || (exhausted && negb (IsKeyUnOrdered (mode opts)))
                || (found && IsKeyUnique (mode opts))
        then Some (DirIter.status it, vs)
        else let? (st, vs') := fetch_loop fuel key file_index (DirIter.Next it) in Some (st, vs ++ vs')
  end.

(** [Fetch] from a table. *)
Definition Fetch_table (key : bytes) (h : TableHandle) (file_index : Z) : option (Status * list bytes) :=
  if slt key (smallest_key h) || slt (largest_key h) key then Some (kOk, [])
  else
    let? may :=
      (if negb (ignore_filters opts) && negb (filter_size h =? 0)
       then KeyMayMatch key (mkHandle (filter_offset h) (filter_size h)) else Some true) in
    if negb may then Some (kOk, [])
    else
      let? (st, contents) := ReadBlock (d_indx d) opts (mkHandle (index_offset h) (index_size h)) 0 in
      if negb (ok st) then Some (st, [])
      else
        let fuel := S (length contents) in
        let? it := first_position fuel key (OpenBlock contents) in
        fetch_loop fuel key file_index it.

(** Moving an iterator to a key, reusing its position if possible; [inr] when
    there is no such key. *)
Definition position (key : bytes) (it : DirIter) : DirIter + DirIter :=
  if negb (DirIter.Valid it) || negb (seq (DirIter.key it) key) then
    let it := DirIter.Seek it key in
    if negb (DirIter.Valid it) then inr it
    else if negb (seq (DirIter.key it) key) then inr it
    else inl it
  else inl it.

Definition file_index (epoch : Z) : Z := if epoch_log_rotation opts then epoch else 0.

(** The tables of an epoch in [DoGet]; [EpochTableKey] bounds their number. *)
Fixpoint get_loop (fuel : nat) (key : bytes) (epoch table : Z) (it : DirIter) : option (Status * list bytes) :=
  match fuel with
  | O => None
  | S fuel =>
      let? epoch_table_key := EpochTableKey epoch table in
      match position epoch_table_key it with
      | inr it => Some (DirIter.status it, [])
      | inl it =>
          match TableHandle.DecodeFrom (DirIter.value it) with
          | None => Some (kCorruption, [])
          | Some (h, _) =>
              let it := DirIter.Next it in
              let? (st, vs) := Fetch_table key h (file_index epoch) in
              if negb (ok st) then Some (st, vs)
              else if match vs with [] => false | _ => IsKeyUnique (mode opts) end then Some (DirIter.status it, vs)
              else let? (st, vs') := get_loop fuel key epoch (table + 1) it in Some (st, vs ++ vs')
          end
      end
  end.

Definition DoGet (key : bytes) (h : BlockHandle) (epoch : Z) : option (Status * list bytes) :=
  let? (st, contents) := ReadBlock (d_indx d) opts h 0 in
  if negb (ok st) then Some (st, [])
  else get_loop (Z.to_nat kMaxTableNo + 2) key epoch 0 (DirIter.SeekToFirst (OpenBlock contents)).

(** *** Point reads *)

(** [rt_iter] is shared by the epochs unless reads may be parallel. *)
Record GetContext := mkGet { rt_iter : option DirIter; g_status : Status; dst : bytes; offsets : list Z; buffer : bytes }.

Definition NewRtIterator : DirIter := DirIter.SeekToFirst (OpenBlock (d_rt d)).

(** [SaveValue], [ParaSaveValue]. *)
Definition save (epoch : Z) (ctx : GetContext) (value : bytes) : GetContext :=
  if parallel_reads opts
  then mkGet (rt_iter ctx) (g_status ctx) (dst ctx) (offsets ctx ++ [u32 (zlen (buffer ctx))])
         (buffer ctx ++ EncodeVarint32 epoch ++ PutLengthPrefixedSlice value)
  else mkGet (rt_iter ctx) (g_status ctx) (dst ctx ++ value) (offsets ctx) (buffer ctx).

Definition Get (key : bytes) (epoch : Z) (ctx : GetContext) : option GetContext :=
  if negb (ok (g_status ctx)) then Some ctx
  else
    let it := match rt_iter ctx with Some it => it | None => NewRtIterator end in
    let? epoch_key := EpochKey epoch in
    let? (st, vs, it) :=
      match position epoch_key it with
      | inr it => Some (kOk, [], it)
      | inl it =>
          match BlockHandle.DecodeFrom (DirIter.value it) with
          | None => Some (kCorruption, [], DirIter.Next it)
          | Some (h, _) => let? (st, vs) := DoGet key h epoch in Some (st, vs, DirIter.Next it)
          end
      end in
    let st := if ok st then DirIter.status it else st in
    let ctx := fold_left (save epoch) vs ctx in
    Some (mkGet (match rt_iter ctx with Some _ => Some it | None => None end) st (dst ctx) (offsets ctx) (buffer ctx)).

Fixpoint read_loop (key : bytes) (epochs : list Z) (ctx : GetContext) : option GetContext :=
  match epochs with
  | [] => Some ctx
  | e :: epochs =>
      let? ctx := Get key e ctx in
      if ok (g_status ctx) then read_loop key epochs ctx else Some ctx
  end.

(** The epochs of a range. *)
Definition epochs (r : EpochRange) : list Z :=
  if d_num_eps d =? 0 then []
  else seqZ (epoch_start r) (Z.min (d_num_eps d) (epoch_end r) - epoch_start r).

Definition GetEpoch (buffer : bytes) (off : Z) : option Z :=
  let? (e, _) := GetVarint32 (drop (Z.to_nat off) buffer) in Some e.

(** [std::stable_sort] of offsets with their epochs. *)
Fixpoint insert_stable (x : Z * Z) (l : list (Z * Z)) : list (Z * Z) :=
  match l with
  | [] => [x]
  | y :: l' => if x.1 <? y.1 then x :: l else y :: insert_stable x l'
  end.

Definition stable_sort (l : list (Z * Z)) : list (Z * Z) := fold_left (fun acc x => insert_stable x acc) l [].

Fixpoint merge_loop (buffer : bytes) (offs : list (Z * Z)) : option bytes :=
  match offs with
  | [] => Some []
  | (_, off) :: offs =>
      let? (_, input) := GetVarint32 (drop (Z.to_nat off) buffer) in
      let? (value, _) := GetLengthPrefixedSlice input in
      let? rest := merge_loop buffer offs in
      Some (value ++ rest)
  end.

Definition Merge (ctx : GetContext) : option bytes :=
  let? keyed := mapM (fun off => let? e := GetEpoch (buffer ctx) off in Some (e, off)) (offsets ctx) in
  let? values := merge_loop (buffer ctx) (stable_sort keyed) in
  Some (dst ctx ++ values).

Definition Read (r : EpochRange) (key dst0 : bytes) : option (Status * bytes) :=
  let ctx := mkGet (if parallel_reads opts then None else Some NewRtIterator) kOk dst0 [] [] in
  let? ctx := read_loop key (epochs r) ctx in
  if ok (g_status ctx) && parallel_reads opts then let? dst := Merge ctx in Some (kOk, dst)
  else Some (g_status ctx, dst ctx).

(** *** Scans *)

(** The entries a scan hands out, and whether the user wants more: [saver] is the
    user's callback, on the entries before and the next one. *)
Context (saver : list (bytes * bytes) -> bytes * bytes -> bool).
Definition Saved : Type := list (bytes * bytes).

(** The loop of [Iter] over a data block. *)
Fixpoint iter_loop (fuel : nat) (saved : Saved) (it : DirIter) : option (Saved * DirIter) :=
  match fuel with
  | O => None
  | S fuel =>
      if negb (DirIter.Valid it) then Some (saved, it)
      else
        let e := (DirIter.key it, DirIter.value it) in
        if saver saved e then iter_loop fuel (saved ++ [e]) (DirIter.Next it) else Some (saved ++ [e], it)
  end.

Definition Iter_block (saved : Saved) (input : bytes) (file_index : Z) : option (Status * Saved) :=
  match BlockHandle.DecodeFrom input with
  | None => Some (kCorruption, saved)
  | Some (h, _) =>
      let? (st, contents) := ReadBlock (d_data d) opts h file_index in
      if negb (ok st) then Some (st, saved)
      else
        let? it := OpenDirBlock opts contents in
        let? (saved, it) := iter_loop (S (length contents)) saved (DirIter.SeekToFirst it) in
        Some (DirIter.status it, saved)
  end.

Fixpoint iter_blocks (fuel : nat) (file_index : Z) (saved : Saved) (it : DirIter) : option (Status * Saved) :=
  match fuel with
  | O => None
  | S fuel =>
      if negb (DirIter.Valid it) then Some (DirIter.status it, saved)
      else
        let? (st, saved) := Iter_block saved (DirIter.value it) file_index in
        if negb (ok st) then Some (st, saved) else iter_blocks fuel file_index saved (DirIter.Next it)
  end.

Definition Iter_table (saved : Saved) (h : TableHandle) (file_index : Z) : option (Status * Saved) :=
  let? (st, contents) := ReadBlock (d_indx d) opts (mkHandle (index_offset h) (index_size h)) 0 in
  if negb (ok st) then Some (st, saved)
  else iter_blocks (S (length contents)) file_index saved (DirIter.SeekToFirst (OpenBlock contents)).

(** The tables of an epoch in [DoList]: a handle that cannot be decoded does not
    end the loop, and its status is lost. *)
Fixpoint list_loop (fuel : nat) (epoch table : Z) (st : Status) (saved : Saved) (it : DirIter) : option (Status * Saved) :=
  match fuel with
  | O => None
  | S fuel =>
      let? epoch_table_key := EpochTableKey epoch table in
      match position epoch_table_key it with
      | inr it => Some (if ok st then DirIter.status it else st, saved)
      | inl it =>
          match TableHandle.DecodeFrom (DirIter.value it) with
          | None => list_loop fuel epoch (table + 1) kCorruption saved (DirIter.Next it)
          | Some (h, _) =>
              let? (st, saved) := Iter_table saved h (file_index epoch) in
              if negb (ok st) then Some (st, saved) else list_loop fuel epoch (table + 1) kOk saved (DirIter.Next it)
          end
      end
  end.

Definition DoList (h : BlockHandle) (epoch : Z) (saved : Saved) : option (Status * Saved) :=
  let? (st, contents) := ReadBlock (d_indx d) opts h 0 in
  if negb (ok st) then Some (st, saved)
  else list_loop (Z.to_nat kMaxTableNo + 2) epoch 0 kOk saved (DirIter.SeekToFirst (OpenBlock contents)).

Definition List (epoch : Z) (it : DirIter) (saved : Saved) : option (Status * Saved * DirIter) :=
  let? epoch_key := EpochKey epoch in
  let? (st, saved, it) :=
    match position epoch_key it with
    | inr it => Some (kOk, saved, it)
    | inl it =>
        match BlockHandle.DecodeFrom (DirIter.value it) with
        | None => Some (kCorruption, saved, DirIter.Next it)
        | Some (h, _) => let? (st, saved) := DoList h epoch saved in Some (st, saved, DirIter.Next it)
        end
    end in
  Some (if ok st then DirIter.status it else st, saved, it).

Fixpoint scan_loop (es : list Z) (it : DirIter) (saved : Saved) : option (Status * Saved) :=
  match es with
  | [] => Some (kOk, saved)
  | e :: es =>
      let? (st, saved, it) := List e (if parallel_reads opts then NewRtIterator else it) saved in
      if negb (ok st) then Some (st, saved) else scan_loop es it saved
  end.

Definition Scan (r : EpochRange) : option (Status * Saved) := scan_loop (epochs r) NewRtIterator [].

(** *** Counting *)

Fixpoint count_loop (es : list Z) (it : DirIter) (result : Z) : option (Status * Z) :=
  match es with
  | [] => Some (DirIter.status it, result)
  | e :: es =>
      let? epoch_key := EpochKey e in
      match position epoch_key it with
      | inr it => Some (DirIter.status it, result)
      | inl it =>
          match EpochHandle.DecodeFrom (DirIter.value it) with
          | None => Some (kCorruption, result)
          | Some (h, _) => count_loop es (DirIter.Next it) (u64 (result + num_ents h))
          end
      end
  end.

Definition Count (r : EpochRange) : option (Status * Z) := count_loop (epochs r) NewRtIterator 0.

End Reader.

(** *** Opening *)

(** [VerifyOptions]. *)
Definition VerifyOptions (o : DirOptions) (f : Footer) : Status :=
  if negb (lg_parts o =? s32 (lg_parts_ f)) || negb (key_size o =? key_size_ f) || negb (value_size o =? value_size_ f)
     || negb (eqb (fixed_kv_length o) (negb (fixed_kv_length_ f =? 0)))
     || negb (eqb (leveldb_compatible o) (negb (leveldb_compatible_ f =? 0)))
     || negb (eqb (epoch_log_rotation o) (negb (epoch_log_rotation_ f =? 0)))
     || negb (eqb (skip_checksums o) (negb (skip_checksums_ f =? 0)))
     || negb (filter_code (filter_type o) =? filter_type_ f) || negb (mode_code (mode o) =? mode_ f)
  then kAssertionFailed else kOk.

Definition Open `{Snappy} (o : DirOptions) (indx data : LogSource) : option (Status + Dir) :=
  if LogSource.Size 0 indx <? Footer.kEncodedLength then Some (inl kCorruption)
  else
    let (st, input) := LogSource.Read (LogSource.Size 0 indx - Footer.kEncodedLength) Footer.kEncodedLength 0 indx in
    if negb (ok st) then Some (inl st)
    else
      match Footer.DecodeFrom input with
      | None => Some (inl kCorruption)
      | Some (f, _) =>
          let st := if paranoid_checks o then VerifyOptions o f else kOk in
          if negb (ok st) then Some (inl st)
          else
            let? (st, contents) := ReadBlock indx o (epoch_index_handle f) 0 in
            if negb (ok st) then Some (inl st)
            else
              let n := num_epochs_ f in
              let n := if negb (num_epochs o =? -1) && (num_epochs o <? s32 n) then u32 (num_epochs o) else n in
              Some (inr (mkDir o n data indx contents))
      end.

End Dir.
