(* ===== verification/PlfsBlocks.v ===== *)
(** * Data blocks: both formats keep their promise

    [DAt] says where an iterator over a data block stands, for blocks of sorted
    strings and for array blocks alike; the reader of a directory uses only the
    lemmas about it.  [DataBlockLaws] is what the builder of a directory uses of a
    block builder; both formats are instances. *)
From stdpp Require Import sorting.
From S2P Require Import Prelude Coding Status Crc32c Filter SstBlock SstBlockProps PlfsFormat PlfsFormatLemmas PlfsLog PlfsBuilder PlfsReader.

(** ** Array blocks *)

Definition flat (es : list entry) : bytes := concat ((fun e => e.1 ++ e.2) <$> es).

Lemma flat_app a b : flat (a ++ b) = flat a ++ flat b.
Proof. unfold flat. by rewrite fmap_app, concat_app. Qed.

Definition sized (ks vs : Z) (es : list entry) : Prop := Forall (fun e => zlen e.1 = ks /\ zlen e.2 = vs) es.

Lemma zlen_flat ks vs es : sized ks vs es -> zlen (flat es) = zlen es * (ks + vs).
Proof.
  induction 1 as [|[k v] es [Hk Hv] _ IH]; [done|]. cbn [fst snd] in *.
  change (flat ((k, v) :: es)) with ((k ++ v) ++ flat es). rewrite !zlen_app, zlen_cons, IH. lia.
Qed.

Lemma drop_flat ks vs es n rest :
  sized ks vs es -> 0 <= ks + vs -> drop (Z.to_nat (Z.of_nat n * (ks + vs))) (flat es ++ rest) = flat (drop n es) ++ drop (Z.to_nat (Z.of_nat (n - length es) * (ks + vs))) rest.
Proof.
  intros Hs He. revert n. induction Hs as [|[k v] es [Hk Hv] Hs IH]; intros n.
  { rewrite drop_nil. cbn. by rewrite Nat.sub_0_r. }
  destruct n as [|n]; [by rewrite !drop_0|]. cbn [drop length]. rewrite Nat.sub_succ, <- IH.
  change (flat ((k, v) :: es)) with ((k ++ v) ++ flat es). rewrite <- app_assoc.
  replace (Z.to_nat (Z.of_nat (S n) * (ks + vs))) with (length (k ++ v) + Z.to_nat (Z.of_nat n * (ks + vs)))%nat.
  { by rewrite <- drop_drop, drop_app_length. }
  rewrite length_app. cbn [fst snd] in *. unfold zlen in *. nia.
Qed.

Lemma drop_tail {A} n (l : list A) x rest : drop n l = x :: rest -> drop (S n) l = rest.
Proof. intros E. replace (S n) with (n + 1)%nat by lia. by rewrite <- drop_drop, E. Qed.

Record AAt_ (es : list entry) (it : ArrayIter) (l : list entry) (n : nat) : Prop := {
  aa_l : l = drop n es; aa_n : (n <= length es)%nat;
  aa_cur : ai_current it = Z.of_nat n * (ai_key_size it + ai_value_size it);
  aa_lim : ai_limit it = zlen es * (ai_key_size it + ai_value_size it);
  aa_key : 0 < ai_key_size it; aa_value : 0 <= ai_value_size it;
  aa_fits : ai_key_size it + ai_value_size it + ai_limit it < 2 ^ 32;
  aa_data : exists rest, ai_data it = flat es ++ rest;
  aa_sized : sized (ai_key_size it) (ai_value_size it) es }.

Definition AAt (es : list entry) (it : ArrayIter) (l : list entry) : Prop := exists n, AAt_ es it l n.

Lemma entry_size_eq es it l n : AAt_ es it l n -> ArrayIter.entry_size it = ai_key_size it + ai_value_size it.
Proof.
  intros [_ _ _ Hl Hk Hv Hf _ _]. unfold ArrayIter.entry_size. apply u32_small. unfold in_width.
  pose proof (zlen_nonneg es). nia.
Qed.

Lemma AAt_move es it l n m :
  AAt_ es it l n -> (m <= length es)%nat ->
  AAt_ es (ArrayIter.move it (Z.of_nat m * (ai_key_size it + ai_value_size it))) (drop m es) m.
Proof. intros [Hl Hn Hc Hlim Hk Hv Hf Hd Hs] Hm. by constructor. Qed.

Lemma array_Valid es it l n : AAt_ es it l n -> ArrayIter.Valid it = (n <? length es)%nat.
Proof.
  intros [_ Hn Hc Hlim Hk Hv _ _ _]. unfold ArrayIter.Valid. rewrite Hc, Hlim. unfold zlen.
  destruct (Nat.ltb_spec n (length es)); [apply Z.ltb_lt|apply Z.ltb_ge]; nia.
Qed.

(** The entry at an index. *)
Lemma array_sub es it l n m k v rest :
  AAt_ es it l n -> drop m es = (k, v) :: rest ->
  ArrayIter.sub it (Z.of_nat m * (ai_key_size it + ai_value_size it)) (ai_key_size it) = k
  /\ ArrayIter.sub it (Z.of_nat m * (ai_key_size it + ai_value_size it) + ai_key_size it) (ai_value_size it) = v.
Proof.
  intros [Hl Hn Hc Hlim Hk Hv Hf [tl Hd] Hs] Hm. unfold ArrayIter.sub. rewrite Hd.
  assert (Hkv : zlen k = ai_key_size it /\ zlen v = ai_value_size it).
  { apply (Forall_forall (fun e => zlen e.1 = ai_key_size it /\ zlen e.2 = ai_value_size it) es) with (x := (k, v)); [done|].
    apply (subseteq_drop m). rewrite Hm. set_solver. }
  destruct Hkv as [Ek Ev].
  assert (Hdrop : drop (Z.to_nat (Z.of_nat m * (ai_key_size it + ai_value_size it))) (flat es ++ tl)
    = k ++ v ++ flat rest ++ drop (Z.to_nat (Z.of_nat (m - length es) * (ai_key_size it + ai_value_size it))) tl).
  { rewrite drop_flat by (done || lia). rewrite Hm. change (flat ((k, v) :: rest)) with ((k ++ v) ++ flat rest). by rewrite <- !app_assoc. }
  rewrite Z2Nat.inj_add by lia. rewrite <- drop_drop, Hdrop. split.
  - apply take_app_length'. unfold zlen in Ek. lia.
  - rewrite drop_app_length' by (unfold zlen in Ek; lia). apply take_app_length'. unfold zlen in Ev. lia.
Qed.

Lemma array_cons es it l n k v :
  AAt_ es it ((k, v) :: l) n ->
  ArrayIter.Valid it = true /\ ArrayIter.key it = k /\ ArrayIter.value it = v /\ AAt_ es (ArrayIter.Next it) l (S n).
Proof.
  intros Ha. pose proof Ha as [Hl Hn Hc Hlim Hk Hv Hf Hd Hs].
  assert (Hlt : (n < length es)%nat).
  { destruct (decide (n < length es)%nat); [done|]. rewrite drop_ge in Hl by lia. done. }
  split; [rewrite (array_Valid _ _ _ _ Ha); by apply Nat.ltb_lt|].
  destruct (array_sub _ _ _ _ n k v l Ha (eq_sym Hl)) as [Ek Ev].
  split; [unfold ArrayIter.key; by rewrite Hc|]. split; [unfold ArrayIter.value; by rewrite Hc|].
  unfold ArrayIter.Next. rewrite (entry_size_eq _ _ _ _ Ha), Hc.
  rewrite <- (drop_tail _ _ _ _ (eq_sym Hl)).
  replace (u32 _) with (Z.of_nat (S n) * (ai_key_size it + ai_value_size it)); [by eapply AAt_move|].
  rewrite u32_small; [lia|]. unfold in_width, zlen in *. nia.
Qed.

Lemma array_nil es it n : AAt_ es it [] n -> ArrayIter.Valid it = false.
Proof.
  intros Ha. rewrite (array_Valid _ _ _ _ Ha). apply Nat.ltb_ge. pose proof (f_equal length (aa_l _ _ _ _ Ha)) as E.
  rewrite length_drop in E. cbn in E. lia.
Qed.

Lemma array_First es it l n : AAt_ es it l n -> AAt_ es (ArrayIter.SeekToFirst it) es 0.
Proof. intros Ha. rewrite <- (drop_0 es) at 2. apply (AAt_move es it l n 0 Ha). lia. Qed.

(** The linear search. *)
Lemma array_advance fuel es it l n target :
  AAt_ es it l n -> (length l < fuel)%nat -> AAt es (ArrayIter.advance fuel (sle target) it) (skip_less target l).
Proof.
  revert it l n. induction fuel as [|fuel IH]; intros it l n Ha Hf; [lia|]. cbn [ArrayIter.advance].
  destruct l as [|[k v] l].
  { rewrite (array_nil _ _ _ Ha). cbn. by exists n. }
  destruct (array_cons _ _ _ _ _ _ Ha) as (-> & -> & _ & Hn). cbn [negb skip_less fst]. rewrite slt_sle.
  destruct (sle target k); cbn [negb]; [by exists n|]. eapply IH; [done|cbn in Hf; lia].
Qed.

Lemma array_search fuel es it l n target left right :
  AAt_ es it l n -> sorted es -> 0 <= left -> right < zlen es -> left < zlen es ->
  Forall (fun e => slt e.1 target = true) (take (Z.to_nat left) es) ->
  exists j, ArrayIter.search fuel it target left right = Z.of_nat j /\ (j < length es)%nat
    /\ Forall (fun e => slt e.1 target = true) (take j es).
Proof.
  intros Ha Hso. revert left right. induction fuel as [|fuel IH]; intros left right H0 Hr Hl Hleft; cbn [ArrayIter.search].
  { exists (Z.to_nat left). split; [lia|]. split; [unfold zlen in *; lia|done]. }
  destruct (Z.ltb_spec left right).
  2: { exists (Z.to_nat left). split; [lia|]. split; [unfold zlen in *; lia|done]. }
  set (mid := (left + right + 1) / 2).
  assert (Hmid : left < mid <= right).
  { subst mid. pose proof (Z.div_mod (left + right + 1) 2 ltac:(lia)). pose proof (Z.mod_pos_bound (left + right + 1) 2). lia. }
  destruct (drop (Z.to_nat mid) es) as [|[k v] rest] eqn:Ed.
  { apply (f_equal length) in Ed. rewrite length_drop in Ed. cbn in Ed. unfold zlen in *. lia. }
  destruct (array_sub _ _ _ _ _ _ _ _ Ha Ed) as [Ek _]. rewrite Z2Nat.id in Ek by lia.
  rewrite (entry_size_eq _ _ _ _ Ha), u32_small, Ek.
  2: { pose proof Ha as [_ _ _ Hlim Hk Hv Hf _ _]. unfold in_width. nia. }
  destruct (slt k target) eqn:Hlt.
  - apply IH; [lia..|]. by eapply sorted_before.
  - apply IH; [lia..|done].
Qed.

Lemma array_Seek es it l n target :
  AAt_ es it l n -> ai_cmp it = true -> sorted es -> es <> [] -> AAt es (ArrayIter.Seek it target) (skip_less target es).
Proof.
  intros Ha Hcmp Hso Hne. unfold ArrayIter.Seek. rewrite Hcmp. pose proof Ha as [_ _ _ Hlim Hk Hv Hf [tl Hd] Hs].
  assert (Hpos : 0 < zlen es) by (destruct es; [done|rewrite zlen_cons; pose proof (zlen_nonneg es); lia]).
  rewrite (entry_size_eq _ _ _ _ Ha), Hlim, Z.div_mul by lia. destruct (Z.eqb_spec (zlen es) 0); [lia|]. cbn [negb andb].
  destruct (array_search (Z.to_nat (zlen es)) es it l n target 0 (zlen es - 1) Ha Hso) as (j & -> & Hj & Hlt); [lia..|by rewrite take_0|].
  rewrite u32_small by (unfold in_width, zlen in *; nia). rewrite <- (take_drop j es), skip_less_app, (take_drop j es) by done.
  eapply array_advance; [eapply AAt_move; [exact Ha|lia]|]. rewrite length_drop, Hd, length_app.
  pose proof (zlen_flat _ _ _ Hs). unfold zlen in *. nia.
Qed.

(** ** Iterators over data blocks *)

Definition ordered_iter (it : DirIter) : Prop := match it with ArrIter it => ai_cmp it = true | _ => True end.

Definition DAt (es : list entry) (it : DirIter) (l : list entry) : Prop :=
  match it with SstIter it => At es it l | ArrIter it => AAt es it l | StatusIter _ => False end.

Lemma DAt_nil es it : DAt es it [] -> DirIter.Valid it = false /\ DirIter.status it = kOk.
Proof. destruct it as [it|it|st]; cbn; [apply At_nil| |done]. intros [n Ha]. split; [by eapply array_nil|done]. Qed.

Lemma DAt_cons es it k v l :
  DAt es it ((k, v) :: l) ->
  DirIter.Valid it = true /\ DirIter.key it = k /\ DirIter.value it = v /\ DAt es (DirIter.Next it) l /\ DirIter.status it = kOk.
Proof.
  destruct it as [it|it|st]; cbn; [| |done].
  - intros Ha. destruct (At_cons _ _ _ _ _ Ha) as (? & ? & ? & ?). split_and!; try done. by eapply Next_At.
  - intros [n Ha]. destruct (array_cons _ _ _ _ _ _ Ha) as (? & ? & ? & ?). split_and!; try done. by eexists.
Qed.

Lemma DAt_status es it l : DAt es it l -> DirIter.status it = kOk.
Proof. destruct l as [|[k v] l]; intros Ha; [apply (DAt_nil _ _ Ha)|apply (DAt_cons _ _ _ _ _ Ha)]. Qed.

Lemma DAt_ordered_Next it : ordered_iter it -> ordered_iter (DirIter.Next it).
Proof. by destruct it. Qed.

Lemma DAt_First es it l : DAt es it l -> DAt es (DirIter.SeekToFirst it) es.
Proof. destruct it as [it|it|st]; cbn; [apply SeekToFirst_At| |done]. intros [n Ha]. eexists. by eapply array_First. Qed.

Lemma DAt_Seek es it l target :
  sorted es -> es <> [] -> ordered_iter it -> DAt es it l -> DAt es (DirIter.Seek it target) (skip_less target es).
Proof.
  intros Hso Hne. destruct it as [it|it|st]; cbn; [intros _; by apply Seek_At| |done]. intros Hc [n Ha]. by eapply array_Seek.
Qed.

Lemma DAt_suffix es it l : DAt es it l -> exists pre, es = pre ++ l.
Proof. destruct it as [it|it|st]; cbn; [by intros [? _]| |done]. intros [n [-> _ _ _ _ _ _ _ _]]. exists (take n es). by rewrite take_drop. Qed.

(** Iterators over blocks of sorted strings seek in empty blocks too. *)
Definition sst_iter (it : DirIter) : Prop := match it with SstIter _ => True | _ => False end.

Lemma DAt_Seek_sst es it l target :
  sorted es -> sst_iter it -> DAt es it l -> DAt es (DirIter.Seek it target) (skip_less target es) /\ sst_iter (DirIter.Seek it target).
Proof. intros Hso. destruct it; cbn; [|done..]. intros _ Ha. split; [by eapply Seek_At|done]. Qed.

Lemma sst_Next it : sst_iter it -> sst_iter (DirIter.Next it).
Proof. by destruct it. Qed.
Lemma sst_First it : sst_iter it -> sst_iter (DirIter.SeekToFirst it).
Proof. by destruct it. Qed.

(** The block [contents] has the entries [es]. *)
Definition BlockGood (o : DirOptions) (contents : bytes) (es : list entry) : Prop :=
  (length es <= length contents)%nat /\
  exists it, OpenDirBlock o contents = Some it /\ DAt es it [] /\ (IsKeyUnOrdered (mode o) = false -> ordered_iter it).

(** Index blocks are always blocks of sorted strings. *)
Lemma OpenBlock_At data es :
  BlockOk data es -> DAt es (OpenBlock data) [] /\ sst_iter (OpenBlock data) /\ (length es <= length data)%nat.
Proof.
  intros Hok. destruct (NewIterator_At _ _ Hok) as (it & E & Hat). unfold OpenBlock. rewrite E. split; [done|]. split; [done|].
  destruct Hok as (s & offs & idx & HL). pose proof (Enc_length _ _ _ (la_enc _ _ _ _ _ HL)). pose proof (zlen_data _ _ _ _ _ HL).
  unfold zlen in *. lia.
Qed.

(** ** Bytes of blocks *)

Definition entries_ok (es : list entry) : Prop := Forall (fun e => bytes_ok e.1 /\ bytes_ok e.2) es.

Lemma Enc_ok last s es : Enc last s es -> zlen s < 2 ^ 32 -> entries_ok es -> bytes_ok s.
Proof.
  induction 1 as [|last shared k v rest es H1 H2 H3 H4 _ IH]; intros Hz Hes; [constructor|].
  apply Forall_cons in Hes as [[Hk Hv] Hes]. cbn [fst snd] in *. rewrite zlen_app in Hz.
  pose proof (zlen_nonneg rest). pose proof (zlen_nonneg (entry_bytes shared k v)).
  apply bytes_ok_app. split; [|apply IH; [lia|done]]. unfold entry_bytes in *. rewrite !zlen_app in *.
  pose proof (zlen_nonneg (EncodeVarint32 (Z.of_nat shared))). pose proof (zlen_nonneg (EncodeVarint32 (Z.of_nat (length k - shared)))).
  pose proof (zlen_nonneg (EncodeVarint32 (zlen v))). pose proof (zlen_nonneg (drop shared k)). pose proof (zlen_nonneg v).
  rewrite !bytes_ok_app. split_and!; try apply EncodeVarint32_ok; try (unfold in_width, zlen in *; lia); [by apply Forall_drop|done].
Qed.

Lemma fixed32s_ok offs : bytes_ok (concat (EncodeFixed32 <$> offs)).
Proof. induction offs as [|x offs IH]; [constructor|]. cbn [fmap list_fmap concat]. apply bytes_ok_app. split; [apply Fixed.encode_ok|done]. Qed.

Lemma BlockOk_bytes data es : BlockOk data es -> entries_ok es -> bytes_ok data.
Proof.
  intros (s & offs & idx & HL) Hes. pose proof (zlen_data _ _ _ _ _ HL). pose proof (la_size _ _ _ _ _ HL). pose proof (zlen_nonneg offs).
  rewrite (la_data _ _ _ _ _ HL). rewrite !bytes_ok_app. split_and!; [|apply fixed32s_ok|apply Fixed.encode_ok].
  eapply Enc_ok; [apply (la_enc _ _ _ _ _ HL)|lia|done].
Qed.

(** ** What the builder of a directory relies on *)

(** The part of the buffer before the block, and the parameters of the builder. *)
Definition same_frame (b b' : Buffer) : Prop :=
  buffer_start_ b' = buffer_start_ b /\ cmp_ b' = cmp_ b /\ compression_ b' = compression_ b
  /\ take (Z.to_nat (buffer_start_ b)) (buffer_ b') = take (Z.to_nat (buffer_start_ b)) (buffer_ b).

Definition start_ok (b : Buffer) : Prop := 0 <= buffer_start_ b <= zlen (buffer_ b).

Class DataBlockLaws `{Snappy} (o : DirOptions) (T : Type) `{!DataBlock T} := {
  db_shape : T -> Prop;
  db_builds : T -> list entry -> Prop;
  db_takes : bytes -> bytes -> Prop;
  law_new : db_shape (db_New o) /\ compression_ (db_buf (db_New o)) = kNoCompression;
  law_set_buf : forall b t, db_shape t -> cmp_ b = cmp_ (db_buf t) -> db_shape (db_set_buf b t) /\ db_buf (db_set_buf b t) = b;
  law_reset : forall t, db_shape t -> start_ok (db_buf t) ->
    db_shape (db_Reset t) /\ db_builds (db_Reset t) [] /\ same_frame (db_buf t) (db_buf (db_Reset t))
    /\ zlen (buffer_ (db_buf (db_Reset t))) = buffer_start_ (db_buf t) /\ db_CurrentSizeEstimate (db_Reset t) = 8;
  law_open : forall t es, db_builds t es ->
    finished_ (db_buf t) = false /\ start_ok (db_buf t) /\ (es <> [] -> Buffer.empty (db_buf t) = false)
    /\ zlen (buffer_ (db_buf t)) - buffer_start_ (db_buf t) <= db_CurrentSizeEstimate t;
  law_add : forall t es k v, db_shape t -> db_builds t es -> db_takes k v ->
    (IsKeyUnOrdered (mode o) = true \/ es = [] \/ sle (last_of [] es) k = true) ->
    db_CurrentSizeEstimate t + zlen k + zlen v + 20 < 2 ^ 31 ->
    exists t', db_Add k v t = Some t' /\ db_shape t' /\ db_builds t' (es ++ [(k, v)]) /\ same_frame (db_buf t) (db_buf t')
      /\ db_CurrentSizeEstimate t' <= db_CurrentSizeEstimate t + zlen k + zlen v + 19;
  law_finish : forall t es force, db_shape t -> db_builds t es -> es <> [] -> entries_ok es -> db_CurrentSizeEstimate t < 2 ^ 31 ->
    exists contents t', db_Finish kNoCompression force t = Some (contents, t') /\ db_shape t'
      /\ BlockGood o contents es /\ bytes_ok contents /\ contents = Buffer.contents (db_buf t')
      /\ finished_ (db_buf t') = true /\ start_ok (db_buf t') /\ same_frame (db_buf t) (db_buf t')
      /\ zlen contents = db_CurrentSizeEstimate t }.

Section Instances.
Context `{Snappy} (o : DirOptions).

Definition array_format : bool := negb (leveldb_compatible o) && fixed_kv_length o.

Lemma Building_nonempty b s idx es : Building b s idx es -> es <> [] -> Buffer.empty (buf b) = false.
Proof.
  intros [Hopen Hst Hc He _ _ _ _ _ _] Hne. unfold Buffer.empty. apply Z.leb_gt.
  pose proof (zlen_contents _ Hst) as Hz. rewrite Hc in Hz. pose proof (Enc_length _ _ _ He).
  destruct es; [done|]. unfold zlen in Hz at 1. cbn in *. lia.
Qed.

Lemma Add_compression k v b b' : BlockBuilder.Add k v b = Some b' -> compression_ (buf b') = compression_ (buf b).
Proof. unfold BlockBuilder.Add. intros E. by repeat case_match; simplify_eq. Qed.

#[refine] Instance sst_laws (Hf : array_format = false) : DataBlockLaws o BlockBuilder := {|
  db_shape b := cmp_ (buf b) = negb (IsKeyUnOrdered (mode o)) /\ 1 <= restart_interval_ b;
  db_builds := Builds;
  db_takes _ _ := True |}.
Proof.
  - done.
  - intros b t [Hc Hr] E. cbn in *. by rewrite E.
  - intros t [Hc Hr] Hs. cbn in *. split; [done|]. split; [by apply Reset_Builds|].
    unfold same_frame, start_ok, zlen in *. cbn. rewrite take_take, Nat.min_id, length_take. split; [done|].
    split; [lia|]. unfold BlockBuilder.CurrentSizeEstimate. cbn. unfold zlen. rewrite ?length_take. cbn. lia.
  - intros t es (s & idx & HB). pose proof HB as [Hopen Hst Hc He _ _ _ _ _ _]. split; [done|]. split; [done|].
    split; [by eapply Building_nonempty|]. cbn. unfold BlockBuilder.CurrentSizeEstimate. rewrite Hopen. cbn.
    pose proof (zlen_nonneg (restarts_ t)). lia.
  - intros t es k v [Hc Hr] HB _ Hord Hsz. cbn in *.
    destruct (Add_Builds t es k v HB) as (t' & E & HB' & Hr' & Hc' & Hs' & Ht' & Hsz').
    { rewrite Hc. destruct Hord as [->|?]; [by left|by right]. }
    { lia. }
    exists t'. split; [done|]. split; [rewrite Hr', Hc'; done|]. split; [done|]. split; [|done].
    unfold same_frame. rewrite (Add_compression _ _ _ _ E). done.
  - intros t es force [Hc Hr] HB Hne Hes Hsz. cbn in *.
    destruct (Finish_Builds kNoCompression force t es HB ltac:(lia)) as (data & contents & t' & E & Hok & Hz & Hfin).
    destruct Hfin as (Hfi & Hcon & Hs' & Hc' & Hr' & Ht' & [[-> Hcomp]|(? & _)]); [|done].
    exists data, t'. split; [done|]. split; [by rewrite Hc', Hr'|]. pose proof (OpenBlock_At _ _ Hok) as (Hat & Hsst & Hlen).
    split. { split; [done|]. exists (OpenBlock data). unfold OpenDirBlock. unfold array_format in Hf. rewrite Hf. split; [done|]. split; [done|]. intros _. by destruct (OpenBlock data). }
    split; [by eapply BlockOk_bytes|]. split; [done|]. split; [done|]. split; [|by unfold same_frame].
    destruct HB as (s & idx & [Hopen Hst Hcc He _ _ _ _ _ _]). unfold start_ok. rewrite Hs'.
    apply (f_equal length) in Ht'. rewrite !length_take in Ht'. unfold zlen in *. lia.
Defined.

Definition array_builds (b : ArrayBlockBuilder) (es : list entry) : Prop :=
  finished_ (abuf b) = false /\ start_ok (abuf b) /\ Buffer.contents (abuf b) = flat es /\ sized (a_key_size_ b) (a_value_size_ b) es
  /\ 0 < a_key_size_ b /\ 0 <= a_value_size_ b.

Lemma flat_ok es : entries_ok es -> bytes_ok (flat es).
Proof.
  induction 1 as [|[k v] es [Hk Hv] _ IH]; [constructor|]. change (flat ((k, v) :: es)) with ((k ++ v) ++ flat es).
  rewrite !bytes_ok_app. by split_and!.
Qed.

Lemma array_BlockGood es :
  array_format = true -> 0 < key_size o < 2 ^ 31 -> 0 <= value_size o < 2 ^ 31 -> sized (key_size o) (value_size o) es -> es <> [] ->
  zlen (flat es) + 8 < 2 ^ 31 ->
  BlockGood o (flat es ++ EncodeFixed32 (u32 (value_size o)) ++ EncodeFixed32 (u32 (key_size o))) es.
Proof.
  intros Hf Hk Hv Hs Hne Hz. rewrite !u32_small by (unfold in_width; lia).
  set (data := flat es ++ _). pose proof (zlen_flat _ _ _ Hs) as Hzf.
  assert (Hpos : 0 < zlen es) by (destruct es; [done|rewrite zlen_cons; pose proof (zlen_nonneg es); lia]).
  assert (Hzd : zlen data = zlen (flat es) + 8) by (subst data; rewrite !zlen_app; done).
  split; [unfold zlen in *; nia|].
  assert (Hdv : DecodeFixed32 (drop (Z.to_nat (zlen data - 8)) data) = value_size o).
  { subst data. rewrite Hzd. rewrite drop_app_length' by (unfold zlen; lia). apply DecodeFixed32_encode. unfold in_width. lia. }
  assert (Hdk : DecodeFixed32 (drop (Z.to_nat (zlen data - 4)) data) = key_size o).
  { subst data. rewrite Hzd. rewrite app_assoc, drop_app_length'.
    - rewrite <- (app_nil_r (EncodeFixed32 _)). apply DecodeFixed32_encode. unfold in_width. lia.
    - rewrite length_app. change (length (EncodeFixed32 (value_size o))) with 4%nat. unfold zlen in *. lia. }
  unfold OpenDirBlock. fold array_format. rewrite Hf. unfold ArrayBlock.NewIterator. rewrite Hdv, Hdk, Hzd.
  destruct (Z.ltb_spec (zlen (flat es) + 8) 8); [lia|]. destruct (Z.eqb_spec (key_size o) 0); [lia|].
  rewrite (u32_small (key_size o + value_size o)) by (unfold in_width; nia).
  destruct (Z.eqb_spec (key_size o + value_size o) 0); [lia|].
  replace (zlen (flat es) + 8 - 8) with (zlen es * (key_size o + value_size o)) by lia.
  rewrite (u32_small (zlen es * _)), Z.div_mul by (unfold in_width; nia).
  rewrite u32_small by (unfold in_width; nia). destruct (Z.eqb_spec (zlen es * (key_size o + value_size o)) 0); [nia|]. cbn [negb].
  eexists. split; [done|]. split; [|intros ->; done]. exists (length es). constructor; cbn; try done; try nia.
  - by rewrite drop_ge.
  - subst data. by eexists.
Qed.

#[refine] Instance array_laws (Hf : array_format = true) (Hk : 0 < key_size o < 2 ^ 31) (Hv : 0 <= value_size o < 2 ^ 31)
  : DataBlockLaws o ArrayBlockBuilder := {|
  db_shape b := a_key_size_ b = key_size o /\ a_value_size_ b = value_size o;
  db_builds := array_builds;
  db_takes k v := zlen k = key_size o /\ zlen v = value_size o |}.
Proof.
  - done.
  - intros b t Hs _. by destruct Hs.
  - intros t [Hsk Hsv] Hs. cbn [db_buf db_Reset db_CurrentSizeEstimate array_block] in *.
    assert (Hz : zlen (take (Z.to_nat (buffer_start_ (abuf t))) (buffer_ (abuf t))) = buffer_start_ (abuf t)).
    { unfold start_ok, zlen in *. rewrite length_take. lia. }
    assert (Hst : start_ok (abuf (ArrayBlockBuilder.Reset t))) by (unfold start_ok in *; cbn; lia).
    split; [done|]. split.
    { split; [done|]. split; [done|]. split; [|cbn; rewrite Hsk, Hsv; split; [constructor|lia]].
      unfold Buffer.contents. cbn. apply drop_ge. rewrite length_take. lia. }
    split; [unfold same_frame; cbn; by rewrite take_take, Nat.min_id|]. split; [done|].
    unfold ArrayBlockBuilder.CurrentSizeEstimate. cbn. lia.
  - intros t es (Hopen & Hst & Hc & Hsz & Hk0 & Hv0). split; [done|]. split; [done|]. pose proof (zlen_contents _ Hst) as Hz. split.
    + intros Hne. unfold Buffer.empty. apply Z.leb_gt. cbn. rewrite Hc, (zlen_flat _ _ _ Hsz) in Hz.
      assert (0 < zlen es) by (destruct es; [done|rewrite zlen_cons; pose proof (zlen_nonneg es); lia]). nia.
    + cbn. unfold ArrayBlockBuilder.CurrentSizeEstimate. rewrite Hopen. cbn. lia.
  - intros t es k v [Hsk Hsv] (Hopen & Hst & Hc & Hsz & Hk0 & Hv0) [Ek Ev] _ Hb. cbn in *. unfold ArrayBlockBuilder.Add.
    rewrite Hsk, Hsv, Ek, Ev, !Z.eqb_refl. cbn [negb orb]. eexists. split; [done|]. split; [done|].
    split. { split; [done|]. split; [unfold start_ok in *; cbn; rewrite zlen_app; pose proof (zlen_nonneg (k ++ v)); lia|].
      split; [cbn [abuf]; rewrite contents_append, Hc, flat_app by done; cbn; by rewrite app_nil_r|].
      cbn [a_key_size_ a_value_size_]. rewrite Hsk, Hsv in Hsz. split; [|lia]. apply Forall_app. split; [done|].
      constructor; [|constructor]. cbn. lia. }
    unfold same_frame, ArrayBlockBuilder.CurrentSizeEstimate in *. cbn. rewrite Hopen in *. cbn in *. rewrite !zlen_app.
    split; [|lia]. split_and!; try done. apply take_app_le. unfold start_ok, zlen in Hst. lia.
  - intros t es force [Hsk Hsv] (Hopen & Hst & Hc & Hsz & Hk0 & Hv0) Hne Hes Hb. cbn in *. unfold ArrayBlockBuilder.Finish. rewrite Hopen, Hsk, Hsv.
    unfold Buffer.Finish. cbn [Buffer.append Buffer.set_buffer finished_ cmp_ buffer_ buffer_start_ compression_]. rewrite Hopen.
    set (t8 := EncodeFixed32 (u32 (value_size o)) ++ EncodeFixed32 (u32 (key_size o))).
    assert (HC : forall f, Buffer.contents (mkBuffer (cmp_ (abuf t)) (buffer_ (abuf t) ++ t8) (buffer_start_ (abuf t)) (compression_ (abuf t)) f) = flat es ++ t8).
    { intros f. rewrite <- Hc. apply (contents_append t8 (abuf t) Hst). }
    rewrite HC. do 2 eexists. split; [reflexivity|]. split; [done|]. rewrite Hsk, Hsv in Hsz.
    assert (Hz : zlen (flat es) + 8 = ArrayBlockBuilder.CurrentSizeEstimate t).
    { unfold ArrayBlockBuilder.CurrentSizeEstimate. rewrite Hopen, <- Hc, zlen_contents by done. done. }
    split; [by apply array_BlockGood; [..|lia]|].
    split. { unfold t8. rewrite !bytes_ok_app. split_and!; [by apply flat_ok|apply Fixed.encode_ok..]. }
    cbn [ArrayBlockBuilder.set_buf abuf]. rewrite HC. split; [done|]. split; [done|].
    split; [unfold start_ok in *; cbn [buffer_start_ buffer_]; rewrite zlen_app; pose proof (zlen_nonneg t8); lia|].
    split; [|rewrite zlen_app; change (zlen t8) with 8; lia]. unfold same_frame. cbn [buffer_start_ buffer_ cmp_ compression_]. split_and!; try done.
    apply take_app_le. unfold start_ok, zlen in Hst. lia.
Defined.
End Instances.
