(* ===== verification/PlfsReaderLemmas.v ===== *)
(** * Reading: the blocks, tables and epochs that are there are found

    [TableAt], [EpochAt] and [RootAt] describe well-formed logs; reading a key from
    them gives the values stored under it ([values]; only the first one, [pick], in
    the modes with unique keys).  Reads may fail: the result is right whenever the
    status is OK, and the status is OK when no read fails. *)
From stdpp Require Import sorting.
From S2P Require Import Prelude Coding Status Crc32c Gigaplus Filter SstBlock SstBlockProps PlfsFormat PlfsFormatLemmas PlfsLog PlfsLogLemmas.
From S2P Require Import PlfsBuilder PlfsReader PlfsBlocks.

(** ** Values of a key *)

Definition values (key : bytes) (es : list entry) : list bytes :=
  omap (fun e => if seq e.1 key then Some e.2 else None) es.

Definition pick {A} (unique : bool) (l : list A) : list A := if unique then take 1 l else l.

Lemma values_app key a b : values key (a ++ b) = values key a ++ values key b.
Proof. apply omap_app. Qed.

Lemma values_none key es : (forall e, e ∈ es -> e.1 <> key) -> values key es = [].
Proof.
  induction es as [|e es IH]; intros Hne; [done|]. cbn. unfold seq. rewrite bool_decide_eq_false_2 by (apply Hne; set_solver).
  apply IH. intros. apply Hne. set_solver.
Qed.

Lemma values_less key es : Forall (fun e => slt e.1 key = true) es -> values key es = [].
Proof.
  intros Hall. apply values_none. intros e He Ek. rewrite Forall_forall in Hall. specialize (Hall _ He). cbn in Hall. by rewrite Ek, slt_irrefl in Hall.
Qed.

Lemma values_greater key es : Forall (fun e => slt key e.1 = true) es -> values key es = [].
Proof.
  intros Hall. apply values_none. intros e He Ek. rewrite Forall_forall in Hall. specialize (Hall _ He). cbn in Hall. by rewrite Ek, slt_irrefl in Hall.
Qed.

Lemma values_skip key es : values key (skip_less key es) = values key es.
Proof. destruct (skip_less_suffix key es) as (a & E & Ha). rewrite E at 2. by rewrite values_app, (values_less _ _ Ha). Qed.

Lemma pick_app {A} u (a b : list A) : pick u (pick u a ++ b) = pick u (a ++ b).
Proof. destruct u; [|done]. cbn. destruct a as [|x [|y a]]; done. Qed.

Lemma pick_some {A} (a b : list A) : a <> [] -> pick true (a ++ b) = pick true a.
Proof. by destruct a. Qed.

(** A position from which all keys are not below [key]. *)
Lemma skip_less_ge key es : sorted es -> Forall (fun e => sle key e.1 = true) (skip_less key es).
Proof. intros Hso. rewrite skip_less_filter by done. apply Forall_forall. by intros e [? _]%list_elem_of_filter. Qed.

Lemma sorted_suffix a b : sorted (a ++ b) -> sorted b.
Proof. apply StronglySorted_app_1_r. Qed.

Lemma skip_less_sorted key es : sorted es -> sorted (skip_less key es).
Proof. intros Hso. destruct (skip_less_suffix key es) as (a & E & _). rewrite E in Hso. by eapply sorted_suffix. Qed.

(** ** Modes *)

Lemma unique_ordered m : IsKeyUniqueAndOrdered m = IsKeyUnique m && negb (IsKeyUnOrdered m).
Proof. by destruct m. Qed.

Section Reader.
Context `{Snappy} `{XXHash} (d : Dir).
Local Abbreviation o := (d_options d).
Local Abbreviation unordered := (IsKeyUnOrdered (mode o)).
Local Abbreviation unique := (IsKeyUnique (mode o)).

Definition faultless (s : LogSource) : Prop := forall i off n, read_status s i off n = kOk.
Definition no_faults : Prop := faultless (d_data d) /\ faultless (d_indx d).

(** ** A data block *)

Lemma skip_loop_spec fuel key es it l :
  DAt es it l -> (length l < fuel)%nat -> exists it', Dir.skip_loop fuel key it = Some it' /\ DAt es it' (skip_less key l) /\ (ordered_iter it -> ordered_iter it').
Proof.
  revert it l. induction fuel as [|fuel IH]; intros it l Ha Hf; [lia|]. cbn [Dir.skip_loop].
  destruct l as [|[k v] l].
  { destruct (DAt_nil _ _ Ha) as [-> _]. cbn. by exists it. }
  destruct (DAt_cons _ _ _ _ _ Ha) as (-> & -> & _ & Hn & _). cbn [andb skip_less fst].
  destruct (slt k key); [|by exists it]. destruct (IH _ _ Hn) as (it' & E & Ha' & Hi); [cbn in Hf; lia|].
  exists it'. split; [done|]. split; [done|]. intros. by apply Hi, DAt_ordered_Next.
Qed.

Definition from (key : bytes) (es : list entry) : list entry := if unordered then es else skip_less key es.

Lemma first_position_spec fuel key es it l :
  DAt es it l -> (length es < fuel)%nat -> es <> [] -> (unordered = false -> sorted es /\ ordered_iter it) ->
  exists it', Dir.first_position d fuel key it = Some it' /\ DAt es it' (from key es).
Proof.
  intros Ha Hf Hne Hord. unfold Dir.first_position, from, Dir.opts. rewrite unique_ordered.
  destruct unordered eqn:Eu; cbn [negb]; rewrite ?andb_false_r, ?andb_true_r.
  - eexists. split; [done|]. by eapply DAt_First.
  - destruct (Hord eq_refl) as [Hso Hi]. destruct unique; [eexists; split; [done|]; by eapply DAt_Seek|].
    destruct (skip_loop_spec fuel key es _ es (DAt_First _ _ _ Ha) Hf) as (it' & E & Ha' & _). by exists it'.
Qed.

Lemma collect_spec fuel key e0 es it l :
  DAt es it l -> (length l < fuel)%nat ->
  (unordered = false -> sorted l /\ Forall (fun e => sle key e.1 = true) l) ->
  exists found exh it', Dir.collect d fuel key e0 it = Some (pick unique (values key l), found, exh, it')
    /\ DirIter.status it' = kOk /\ (found = true <-> unique = true /\ values key l <> [])
    /\ (unordered = false -> exh = true -> e0 = true \/ exists e, e ∈ l /\ slt key e.1 = true).
Proof.
  revert it l. induction fuel as [|fuel IH]; intros it l Ha Hf Hord; [lia|]. cbn [Dir.collect]. unfold Dir.opts.
  destruct l as [|[k v] l].
  { destruct (DAt_nil _ _ Ha) as [-> Hst]. cbn [negb]. exists false, e0, it.
    split; [by destruct unique|]. split; [done|]. split; [naive_solver|]. auto. }
  destruct (DAt_cons _ _ _ _ _ Ha) as (-> & -> & -> & Hn & Hst). cbn [negb values omap list_omap fst snd].
  assert (Htl : unordered = false -> sorted l /\ Forall (fun e => sle key e.1 = true) l).
  { intros Eu. destruct (Hord Eu) as [Hso Hall]. apply StronglySorted_inv in Hso as [? _]. by apply Forall_cons in Hall as [_ ?]. }
  fold (values key l). destruct (seq k key) eqn:Ek.
  - destruct unique eqn:Eq.
    + exists true, e0, it. split; [done|]. split; [done|]. split; [naive_solver|]. auto.
    + destruct (IH _ _ Hn ltac:(cbn in Hf; lia) Htl) as (found & exh & it' & -> & Hs & Hfo & Hex). cbn [pick].
      exists found, exh, it'. split; [done|]. split; [done|]. split; [naive_solver|].
      intros Eu Ex. destruct (Hex Eu Ex) as [?|(e & ? & ?)]; [by left|right]. exists e. split; [set_solver|done].
  - destruct unordered eqn:Eu; cbn [negb].
    + destruct (IH _ _ Hn ltac:(cbn in Hf; lia) Htl) as (found & exh & it' & -> & Hs & Hfo & Hex).
      exists found, exh, it'. split; [done|]. split; [done|]. split; [naive_solver|]. done.
    + destruct (Hord eq_refl) as [Hso Hall]. apply Forall_cons in Hall as [Hle _]. cbn [fst] in Hle.
      assert (Hlt : slt key k = true).
      { destruct (sle_cases _ _ Hle) as [->|]; [|done]. unfold seq in Ek. rewrite bool_decide_eq_true_2 in Ek by done. done. }
      assert (Hv : values key l = []).
      { apply values_greater. apply StronglySorted_inv in Hso as [_ Hso]. eapply Forall_impl; [exact Hso|]. intros e He. cbn in He. by eapply slt_sle_trans. }
      rewrite Hv. exists false, true, it. split; [by destruct unique|]. split; [done|]. split; [naive_solver|].
      intros _ _. right. exists (k, v). split; [set_solver|done].
Qed.

(** A data block of a table, with the key of its index entry. *)
Record DataBlk := mkBlk { bk_sep : bytes; bk_h : BlockHandle; bk_es : list entry }.

Definition BlkAt (f : bytes) (b : DataBlk) : Prop :=
  bk_es b <> [] /\ exists contents, BlockAt o f (bk_h b) contents /\ BlockGood o contents (bk_es b).

Lemma Fetch_block_spec f fi b key :
  BlkAt f b -> src_files (d_data d) !! Z.to_nat fi = Some f -> (unordered = false -> sorted (bk_es b)) ->
  exists st vs found exh, Dir.Fetch_block d key (handle_bytes (bk_h b)) fi = Some (st, vs, found, exh)
    /\ (no_faults -> st = kOk)
    /\ (st = kOk -> vs = pick unique (values key (bk_es b)) /\ (found = true <-> unique = true /\ vs <> [])
        /\ (unordered = false -> exh = true ->
            Forall (fun e => slt e.1 key = true) (bk_es b) \/ exists e, e ∈ bk_es b /\ slt key e.1 = true)).
Proof.
  intros (Hne & contents & Hb & Hlen & it & Eo & Ha & Hoi) Hf Hso. unfold Dir.Fetch_block.
  rewrite <- (app_nil_r (handle_bytes _)), handle_decode by (by eapply BlockAt_wf).
  destruct (ReadBlock_BlockAt o (d_data d) f fi (bk_h b) contents Hb Hf) as (st & x & Er & Hst & Hx). unfold Dir.opts. rewrite Er.
  destruct (ok st) eqn:Hok; cbn [negb].
  2: { apply ok_false in Hok. exists st, [], false, false. split; [done|]. split; [|done]. intros [Hd _]. by rewrite Hst, Hd. }
  apply ok_true in Hok. rewrite (Hx Hok), Eo.
  destruct (first_position_spec (S (length contents)) key (bk_es b) it [] Ha) as (it1 & -> & Ha1); [lia|done|by auto|].
  assert (Hlf : (length (from key (bk_es b)) < S (length contents))%nat).
  { unfold from. destruct unordered; [lia|]. destruct (skip_less_suffix key (bk_es b)) as (a & E & _). apply (f_equal length) in E.
    rewrite length_app in E. lia. }
  destruct (collect_spec (S (length contents)) key (negb unordered && negb (DirIter.Valid it1)) _ _ _ Ha1 Hlf) as (found & exh & it2 & -> & Hs2 & Hfo & Hex).
  { intros Eu. unfold from. rewrite Eu. split; [by apply skip_less_sorted, Hso|by apply skip_less_ge, Hso]. }
  assert (Hvf : values key (from key (bk_es b)) = values key (bk_es b)) by (unfold from; destruct unordered; [done|apply values_skip]).
  rewrite Hvf in *. do 4 eexists. split; [done|]. split; [done|]. intros _. split; [done|]. split.
  { rewrite Hfo. destruct unique; [|naive_solver]. by destruct (values key (bk_es b)). }
  intros Eu Ex. destruct (Hex Eu Ex) as [He|(e & He & Hlt)].
  - rewrite Eu in He. cbn in He. left. unfold from in Ha1. rewrite Eu in Ha1.
    destruct (skip_less_suffix key (bk_es b)) as (a & E & Hall). destruct (skip_less key (bk_es b)) as [|[k v] l]; [by rewrite E, app_nil_r|].
    destruct (DAt_cons _ _ _ _ _ Ha1) as (Hv & _). by rewrite Hv in He.
  - right. exists e. split; [|done]. unfold from in He. rewrite Eu in He. destruct (skip_less_suffix key (bk_es b)) as (a & -> & _). set_solver.
Qed.

(** ** The data blocks of a table *)

Definition index_entries (bs : list DataBlk) : list entry := (fun b => (bk_sep b, handle_bytes (bk_h b))) <$> bs.
Definition table_entries (bs : list DataBlk) : list entry := concat (bk_es <$> bs).

Definition strict (es : list entry) : Prop := StronglySorted (fun a b => slt a.1 b.1 = true) es.

Lemma strict_sorted es : strict es -> sorted es.
Proof. induction 1 as [|e es _ IH Hall]; constructor; [done|]. eapply Forall_impl; [exact Hall|]. intros e' He. by apply slt_weaken. Qed.

(** The separators of the blocks of an ordered table. *)
Fixpoint Seps (bs : list DataBlk) : Prop :=
  match bs with
  | [] => True
  | b :: bs =>
      Forall (fun e => sle e.1 (bk_sep b) = true) (bk_es b)
      /\ (bk_sep b = last_of [] (bk_es b) \/ Forall (fun e => slt (bk_sep b) e.1 = true) (table_entries bs))
      /\ Seps bs
  end.

(** What an ordered table promises. *)
Definition Ordered (bs : list DataBlk) : Prop :=
  Seps bs /\ sorted (table_entries bs) /\ (unique = true -> strict (table_entries bs)).

Lemma Ordered_tail b bs : Ordered (b :: bs) -> Ordered bs.
Proof.
  intros ((_ & _ & HS) & Hso & Hst). unfold table_entries in *. cbn [fmap list_fmap concat] in *. split; [done|]. split; [by eapply sorted_suffix|].
  intros Hu. eapply StronglySorted_app_1_r. by apply Hst.
Qed.

Lemma last_of_elem es : es <> [] -> exists v, (last_of [] es, v) ∈ es.
Proof.
  intros Hne. unfold last_of. destruct (list.last es) as [[k v]|] eqn:E; [|by apply last_None in E].
  exists v. apply last_Some in E as [es' ->]. set_solver.
Qed.

(** No key of the blocks after [b] is below its separator. *)
Lemma sep_after b bs :
  bk_es b <> [] -> Ordered (b :: bs) -> Forall (fun e => sle (bk_sep b) e.1 = true) (table_entries bs).
Proof.
  intros Hne ((_ & Hsep & _) & Hso & _). destruct Hsep as [->|Hall].
  - destruct (last_of_elem _ Hne) as [v Hv]. unfold table_entries in Hso. cbn [fmap list_fmap concat] in Hso.
    apply StronglySorted_app in Hso as (Hx & _ & _). apply Forall_forall. intros e He. by apply (Hx (last_of [] (bk_es b), v) e).
  - eapply Forall_impl; [exact Hall|]. intros e He. by apply slt_weaken.
Qed.

Lemma block_seps_sorted bs : Forall (fun b => bk_es b <> []) bs -> Ordered bs -> sorted (index_entries bs).
Proof.
  induction bs as [|b bs IH]; intros Hne HO; [constructor|]. apply Forall_cons in Hne as [Hb Hne]. cbn. constructor.
  - apply IH; [done|by eapply Ordered_tail].
  - apply Forall_fmap. pose proof (sep_after b bs Hb HO) as Hall. apply Ordered_tail in HO as (HS & _ & _). clear IH Hb.
    revert HS Hne Hall. induction bs as [|c bs IH]; intros HS Hne Hall; [constructor|]. apply Forall_cons in Hne as [Hc Hne].
    destruct HS as (Hle & _ & HS). unfold table_entries in Hall. cbn [fmap list_fmap concat] in Hall. apply Forall_app in Hall as [Ha Hall].
    constructor; [|by apply IH]. cbn. destruct (bk_es c) as [|e es]; [done|].
    apply Forall_cons in Ha as [Ha _]. apply Forall_cons in Hle as [Hle _]. by eapply sle_trans.
Qed.

(** When a lookup may stop after the block [b]: the later ones do not have the key. *)
Lemma rest_empty b bs key :
  bk_es b <> [] -> Ordered (b :: bs) -> sle key (bk_sep b) = true ->
  unique = true \/ (exists e, e ∈ bk_es b /\ slt key e.1 = true) \/ Forall (fun e => slt e.1 key = true) (bk_es b) ->
  values key (table_entries bs) = [].
Proof.
  intros Hne HO Hk Hwhy. pose proof HO as ((Hle & Hsep & _) & Hso & Hst). unfold table_entries in Hso, Hst. cbn [fmap list_fmap concat] in Hso, Hst.
  destruct Hsep as [Hlast|Hall].
  2: { apply values_greater. eapply Forall_impl; [exact Hall|]. intros e He. by eapply sle_slt_trans. }
  destruct (last_of_elem _ Hne) as [v Hv]. rewrite Hlast in Hk. destruct Hwhy as [Hu|[(e & He & Hlt)|Hless]].
  - apply values_greater, Forall_forall. intros e He. eapply sle_slt_trans; [exact Hk|].
    specialize (Hst Hu). apply StronglySorted_app in Hst as (Hx & _ & _). by apply (Hx (last_of [] (bk_es b), v) e).
  - apply values_greater, Forall_forall. intros e' He'. eapply slt_sle_trans; [exact Hlt|].
    apply StronglySorted_app in Hso as (Hx & _ & _). by apply (Hx e e').
  - rewrite Forall_forall in Hless. specialize (Hless _ Hv). cbn in Hless. rewrite slt_sle, Hk in Hless. done.
Qed.

Lemma fetch_loop_spec fuel f fi key idx it bs :
  Forall (BlkAt f) bs -> src_files (d_data d) !! Z.to_nat fi = Some f ->
  (unordered = false -> Ordered bs /\ forall b, head bs = Some b -> sle key (bk_sep b) = true) ->
  DAt idx it (index_entries bs) -> (length bs < fuel)%nat ->
  exists st vs, Dir.fetch_loop d fuel key fi it = Some (st, vs) /\ (no_faults -> st = kOk)
    /\ (st = kOk -> vs = pick unique (values key (table_entries bs))).
Proof.
  intros Hall Hf. revert it fuel. induction Hall as [|b bs Hb Hall IH]; intros it fuel Hord Ha Hfu; (destruct fuel as [|fuel]; [cbn in Hfu; lia|]);
    cbn [Dir.fetch_loop]; unfold Dir.opts.
  { destruct (DAt_nil _ _ Ha) as [-> ->]. cbn [negb]. exists kOk, []. split; [done|]. split; [done|]. by destruct unique. }
  destruct (DAt_cons _ _ _ _ _ Ha) as (-> & _ & -> & Hn & ->). cbn [negb].
  assert (Hso : unordered = false -> sorted (bk_es b)).
  { intros Eu. destruct (Hord Eu) as [(_ & Hs & _) _]. unfold table_entries in Hs. cbn [fmap list_fmap concat] in Hs. by eapply StronglySorted_app_1_l. }
  destruct (Fetch_block_spec f fi b key Hb Hf Hso) as (st & vs & found & exh & -> & Hnf & Hok).
  destruct (ok st) eqn:Est; cbn [negb].
  2: { apply ok_false in Est. exists st, vs. split; [done|]. split; [done|]. done. }
  apply ok_true in Est. destruct (Hok Est) as (-> & Hfo & Hex). rewrite unique_ordered.
  change (table_entries (b :: bs)) with (bk_es b ++ table_entries bs). rewrite values_app.
  assert (Hstop : values key (table_entries bs) = [] \/ unique = true /\ values key (bk_es b) <> [] ->
    exists st' vs', Some (kOk, pick unique (values key (bk_es b))) = Some (st', vs') /\ (no_faults -> st' = kOk)
      /\ (st' = kOk -> vs' = pick unique (values key (bk_es b) ++ values key (table_entries bs)))).
  { intros Hw. exists kOk. eexists. split; [done|]. split; [done|]. intros _. destruct Hw as [->|[-> Hne]]; [by rewrite app_nil_r|by rewrite pick_some]. }
  destruct Hb as [Hne Hb].
  destruct (unique && negb unordered) eqn:Euo; cbn [orb].
  { apply andb_true_iff in Euo as [Eq Eu%negb_true_iff]. apply Hstop. left. destruct (Hord Eu) as [HO Hk].
    apply (rest_empty b); [done|done|by apply Hk|by left]. }
  destruct (exh && negb unordered) eqn:Ee; cbn [orb].
  { apply andb_true_iff in Ee as [Ex Eu%negb_true_iff]. apply Hstop. left. destruct (Hord Eu) as [HO Hk].
    apply (rest_empty b); [done|done|by apply Hk|right]. destruct (Hex Eu Ex); [by right|by left]. }
  destruct (found && unique) eqn:Ef.
  { apply andb_true_iff in Ef as [Efo Eq]. apply Hstop. right. split; [done|]. apply Hfo in Efo as [_ Hv]. intros Hz. by rewrite Hz, Eq in Hv. }
  destruct (IH (DirIter.Next it) fuel) as (st' & vs' & -> & Hnf' & Hok').
  { intros Eu. destruct (Hord Eu) as [HO Hk]. split; [by eapply Ordered_tail|]. intros c Hc. destruct bs as [|c' bs]; [done|]. cbn in Hc. simplify_eq.
    pose proof (sep_after b (c :: bs) Hne HO) as Hsa. apply Ordered_tail in HO as ((Hle & _) & _ & _).
    apply Forall_cons in Hall as [[Hcne _] _]. destruct (bk_es c) as [|e es] eqn:Ec; [done|].
    unfold table_entries in Hsa. cbn [fmap list_fmap concat] in Hsa. rewrite Ec in Hsa. apply Forall_app in Hsa as [Hsa _].
    apply Forall_cons in Hsa as [Hsa _]. apply Forall_cons in Hle as [Hle _].
    eapply sle_trans; [by apply Hk|]. by eapply sle_trans. }
  { exact Hn. }
  { cbn in Hfu. lia. }
  exists st', (pick unique (values key (bk_es b)) ++ vs'). split; [done|]. split; [done|]. intros Est'. rewrite (Hok' Est').
  destruct unique eqn:Eq; [|done]. cbn in Euo. apply andb_false_iff in Ef as [Ef|?]; [|done].
  assert (Hv : values key (bk_es b) = []).
  { destruct (values key (bk_es b)) eqn:Ev; [done|]. assert (found = true) as ->; [|done]. apply Hfo. by rewrite ?Ev. }
  by rewrite Hv.
Qed.

(** ** Tables *)

Definition filter_result (ft : FilterType) (fc key : bytes) : option bool :=
  match ft with
  | kFtBloomFilter => Some (Bloom.BloomKeyMayMatch key fc)
  | kFtBitmap => Bitmap.BitmapKeyMustMatch key fc
  | _ => Some true
  end.

(** A filter that answers for every key and lets those of [es] pass. *)
Definition FilterGood (ft : FilterType) (fc : bytes) (es : list entry) : Prop :=
  forall key, bytes_ok key -> exists b, filter_result ft fc key = Some b /\ ((exists v, (key, v) ∈ es) -> b = true).

Record TableAt (fx fd : bytes) (th : TableHandle) (bs : list DataBlk) : Prop := {
  ta_wf : table_wf th;
  ta_ne : bs <> [];
  ta_index : exists c, BlockAt o fx (mkHandle (index_offset th) (index_size th)) c /\ BlockOk c (index_entries bs);
  ta_data : Forall (BlkAt fd) bs;
  ta_filter : filter_size th = 0 \/
    exists fc, BlockAt o fx (mkHandle (filter_offset th) (filter_size th)) fc /\ FilterGood (filter_type o) fc (table_entries bs);
  ta_range : Forall (fun e => sle (smallest_key th) e.1 = true /\ sle e.1 (largest_key th) = true) (table_entries bs);
  ta_ordered : unordered = false -> Ordered bs }.

Context (fx : bytes) (Hfx : src_files (d_indx d) !! 0%nat = Some fx).

Lemma KeyMayMatch_spec key h fc es :
  BlockAt o fx h fc -> FilterGood (filter_type o) fc es -> bytes_ok key ->
  exists b, Dir.KeyMayMatch d key h = Some b /\ ((exists v, (key, v) ∈ es) -> b = true).
Proof.
  intros Hb Hg Hk. unfold Dir.KeyMayMatch, Dir.opts.
  destruct (ReadBlock_BlockAt o (d_indx d) fx 0 h fc Hb Hfx) as (st & x & -> & _ & Hx).
  destruct (ok st) eqn:Est; [|by exists true]. apply ok_true in Est. rewrite (Hx Est). exact (Hg key Hk).
Qed.

Lemma Forall_BlkAt_ne fd bs : Forall (BlkAt fd) bs -> Forall (fun b => bk_es b <> []) bs.
Proof. intros Hall. eapply Forall_impl; [exact Hall|]. by intros b [? _]. Qed.

(** The blocks a lookup skips do not have the key. *)
Lemma skip_blocks key bs :
  Ordered bs -> exists bs', skip_less key (index_entries bs) = index_entries bs' /\ Ordered bs'
    /\ values key (table_entries bs') = values key (table_entries bs) /\ (exists pre, bs = pre ++ bs')
    /\ forall b, head bs' = Some b -> sle key (bk_sep b) = true.
Proof.
  induction bs as [|b bs IH]; intros HO; [by exists []; split_and!; try done; exists []|].
  change (index_entries (b :: bs)) with ((bk_sep b, handle_bytes (bk_h b)) :: index_entries bs).
  cbn [skip_less fst]. rewrite slt_sle. destruct (sle key (bk_sep b)) eqn:Ek; cbn [negb].
  - exists (b :: bs). split; [done|]. split; [done|]. split; [done|]. split; [by exists []|]. intros c [= <-]. done.
  - destruct (IH (Ordered_tail _ _ HO)) as (bs' & -> & HO' & Hv & [pre ->] & Hh). exists bs'. split; [done|]. split; [done|]. split; [|split; [by exists (b :: pre)|done]].
    rewrite Hv. change (table_entries (b :: pre ++ bs')) with (bk_es b ++ table_entries (pre ++ bs')). rewrite values_app.
    rewrite (values_less key (bk_es b)); [done|]. destruct HO as ((Hle & _) & _ & _). eapply Forall_impl; [exact Hle|].
    intros e He. cbn in He. eapply sle_slt_trans; [exact He|]. by rewrite slt_sle, Ek.
Qed.

Lemma Fetch_table_spec fd fi th bs key :
  TableAt fx fd th bs -> src_files (d_data d) !! Z.to_nat fi = Some fd -> bytes_ok key ->
  exists st vs, Dir.Fetch_table d key th fi = Some (st, vs) /\ (no_faults -> st = kOk)
    /\ (st = kOk -> vs = pick unique (values key (table_entries bs))).
Proof.
  intros [Hwf Hne (c & Hb & Hok) Hdata Hfil Hran Hord] Hfd Hk. unfold Dir.Fetch_table, Dir.opts.
  assert (Hnone : (forall v, (key, v) ∉ table_entries bs) -> exists st vs, Some (kOk, []) = Some (st, vs) /\ (no_faults -> st = kOk)
    /\ (st = kOk -> vs = pick unique (values key (table_entries bs)))).
  { intros Hno. exists kOk, []. split; [done|]. split; [done|]. intros _. rewrite values_none; [by destruct unique|].
    intros [k v] He. cbn. intros ->. by apply (Hno v). }
  destruct (slt key (smallest_key th) || slt (largest_key th) key) eqn:Er.
  { apply Hnone. intros v Hv. rewrite Forall_forall in Hran. destruct (Hran _ Hv) as [H1 H2]. cbn in H1, H2.
    rewrite !slt_sle, H1, H2 in Er. done. }
  assert (Hmay : exists may,
    (if negb (ignore_filters o) && negb (filter_size th =? 0)
     then Dir.KeyMayMatch d key (mkHandle (filter_offset th) (filter_size th)) else Some true) = Some may
    /\ ((exists v, (key, v) ∈ table_entries bs) -> may = true)).
  { destruct (ignore_filters o); [by exists true|]. cbn [negb andb]. destruct Hfil as [->|(fc & Hfb & Hg)]; [by exists true|].
    destruct (filter_size th =? 0); [by exists true|]. by apply (KeyMayMatch_spec key _ fc). }
  destruct Hmay as (may & -> & Hmay). destruct may; cbn [negb].
  2: { apply Hnone. intros v Hv. by discriminate Hmay; exists v. }
  destruct (ReadBlock_BlockAt o (d_indx d) fx 0 _ _ Hb Hfx) as (st & x & -> & Hst & Hx).
  destruct (ok st) eqn:Est; cbn [negb].
  2: { apply ok_false in Est. exists st, []. split; [done|]. split; [|done]. intros [_ Hi]. by rewrite Hst, Hi. }
  apply ok_true in Est. rewrite (Hx Est). pose proof (OpenBlock_At _ _ Hok) as (Ha & Hsst & Hlen).
  assert (Hie : length (index_entries bs) = length bs) by (unfold index_entries; by rewrite length_fmap).
  destruct (first_position_spec (S (length c)) key (index_entries bs) (OpenBlock c) [] Ha) as (it & -> & Hat).
  { lia. }
  { by destruct bs. }
  { intros Eu. split; [apply block_seps_sorted; [by eapply Forall_BlkAt_ne|by apply Hord]|by destruct (OpenBlock c)]. }
  unfold from in Hat. destruct unordered eqn:Eu.
  - destruct (fetch_loop_spec (S (length c)) fd fi key (index_entries bs) it bs Hdata Hfd) as (st' & vs & E & Hn & Hv); [by rewrite Eu|done|lia|].
    by exists st', vs.
  - destruct (skip_blocks key bs (Hord eq_refl)) as (bs' & Es & HO & Hv & [pre Hpre] & Hh). rewrite Es in Hat.
    destruct (fetch_loop_spec (S (length c)) fd fi key (index_entries bs) it bs') as (st' & vs & E & Hn & Hvs); [|done|done|done| |].
    + rewrite Hpre in Hdata. by apply Forall_app in Hdata as [_ ?].
    + apply (f_equal length) in Hpre. rewrite length_app in Hpre. lia.
    + exists st', vs. split; [done|]. split; [done|]. intros Est'. by rewrite (Hvs Est'), Hv.
Qed.

(** ** Epochs *)

Definition Tables : Type := list (TableHandle * list DataBlk).

Definition meta_entries (e : Z) (ts : Tables) : list entry := imap (fun i t => (table_key e (Z.of_nat i), table_bytes t.1)) ts.
Definition epoch_entries (ts : Tables) : list entry := concat ((fun t => table_entries t.2) <$> ts).

Record EpochAt (fd : bytes) (e : Z) (h : BlockHandle) (ts : Tables) : Prop := {
  ea_no : 0 <= e <= kMaxEpochNo;
  ea_num : Z.of_nat (length ts) <= kMaxTableNo;
  ea_meta : exists c, BlockAt o fx h c /\ BlockOk c (meta_entries e ts);
  ea_tables : Forall (fun t => TableAt fx fd t.1 t.2) ts }.

Lemma meta_drop e ts n t rest :
  drop n ts = t :: rest -> drop n (meta_entries e ts) = (table_key e (Z.of_nat n), table_bytes t.1) :: drop (S n) (meta_entries e ts).
Proof.
  intros Hd. assert (Hl : ts !! n = Some t) by (rewrite <- (Nat.add_0_r n), <- lookup_drop, Hd; done).
  apply drop_S. unfold meta_entries. by rewrite list_lookup_imap, Hl.
Qed.

Lemma meta_strict e ts :
  0 <= e <= kMaxEpochNo -> Z.of_nat (length ts) <= kMaxTableNo ->
  strict (meta_entries e ts) /\ Forall (fun x => slt x.1 (table_key e (Z.of_nat (length ts))) = true) (meta_entries e ts).
Proof.
  intros He Hn. assert (Hlt : forall i j, (i < j <= length ts)%nat -> slt (table_key e (Z.of_nat i)) (table_key e (Z.of_nat j)) = true).
  { intros i j Hij. unfold slt. rewrite compare_table_key by (unfold kMaxTableNo in *; lia). by rewrite (proj2 (Z.compare_lt_iff _ _)) by lia. }
  split.
  - assert (Hgen : forall k ts', (k + length ts' <= length ts)%nat ->
      StronglySorted (fun a b => slt a.1 b.1 = true) (imap (fun i t => (table_key e (Z.of_nat (k + i)), table_bytes t.1)) (ts' : Tables))).
    { intros k ts'. revert k. induction ts' as [|t ts' IH]; intros k Hk; [constructor|]. cbn [imap]. constructor.
      - specialize (IH (S k) ltac:(cbn in Hk; lia)). erewrite imap_ext; [exact IH|]. intros i x _. cbn. by rewrite Nat.add_succ_r.
      - apply Forall_lookup_2. intros i x Hx. rewrite list_lookup_imap in Hx. destruct (ts' !! i) eqn:Ei; [|done]. cbn in Hx. simplify_eq. cbn.
        rewrite Nat.add_0_r. apply Hlt. apply lookup_lt_Some in Ei. cbn in Hk. lia. }
    apply (Hgen 0%nat ts). lia.
  - apply Forall_lookup_2. intros i x Hx. unfold meta_entries in Hx. rewrite list_lookup_imap in Hx. destruct (ts !! i) eqn:Ei; [|done]. cbn in Hx. simplify_eq. cbn.
    apply Hlt. apply lookup_lt_Some in Ei. lia.
Qed.

Lemma skip_less_all key es : Forall (fun e => slt e.1 key = true) es -> skip_less key es = [].
Proof. induction 1 as [|e es He _ IH]; [done|]. cbn. by rewrite He. Qed.

Lemma get_loop_spec fuel fd key e ts n it :
  0 <= e <= kMaxEpochNo -> Z.of_nat (length ts) <= kMaxTableNo -> Forall (fun t => TableAt fx fd t.1 t.2) ts ->
  src_files (d_data d) !! Z.to_nat (Dir.file_index d e) = Some fd -> bytes_ok key ->
  DAt (meta_entries e ts) it (drop n (meta_entries e ts)) -> sst_iter it -> (n <= length ts)%nat -> (length ts - n < fuel)%nat ->
  exists st vs, Dir.get_loop d fuel key e (Z.of_nat n) it = Some (st, vs) /\ (no_faults -> st = kOk)
    /\ (st = kOk -> vs = pick unique (values key (epoch_entries (drop n ts)))).
Proof.
  intros He Hn Hall Hfd Hk. revert n it. induction fuel as [|fuel IH]; intros n it Ha Hs Hle Hf; [lia|].
  cbn [Dir.get_loop]. rewrite EpochTableKey_ok by (unfold kMaxTableNo in *; lia). unfold Dir.opts.
  destruct (drop n ts) as [|t rest] eqn:Ed.
  - assert (n = length ts) as -> by (apply (f_equal length) in Ed; rewrite length_drop in Ed; cbn in Ed; lia).
    assert (Hnil : drop (length ts) (meta_entries e ts) = []) by (apply drop_ge; unfold meta_entries; by rewrite length_imap).
    rewrite Hnil in Ha. unfold Dir.position. destruct (DAt_nil _ _ Ha) as [-> _]. cbn [negb orb].
    destruct (meta_strict e ts He Hn) as [Hst Hall2].
    destruct (DAt_Seek_sst _ _ _ (table_key e (Z.of_nat (length ts))) (strict_sorted _ Hst) Hs Ha) as [Ha' _].
    rewrite (skip_less_all _ _ Hall2) in Ha'. destruct (DAt_nil _ _ Ha') as [-> Hst']. cbn [negb]. rewrite Hst'.
    exists kOk, []. split; [done|]. split; [done|]. by destruct unique.
  - rewrite (meta_drop e ts n t rest Ed) in Ha. destruct (DAt_cons _ _ _ _ _ Ha) as (Hv & Hkey & Hval & Hnext & _).
    unfold Dir.position. rewrite Hv, Hkey. unfold seq at 1. rewrite bool_decide_eq_true_2 by done. cbn [negb orb]. rewrite Hval.
    assert (Ht : TableAt fx fd t.1 t.2).
    { apply (Forall_forall (fun t => TableAt fx fd t.1 t.2) ts); [done|]. apply (subseteq_drop n). rewrite Ed. set_solver. }
    rewrite <- (app_nil_r (table_bytes t.1)), table_decode by apply Ht.
    destruct (Fetch_table_spec fd (Dir.file_index d e) t.1 t.2 key Ht Hfd Hk) as (st & vs & -> & Hnf & Hok).
    destruct (ok st) eqn:Est; cbn [negb]; [|apply ok_false in Est; by exists st, vs].
    apply ok_true in Est. rewrite (Hok Est). change (epoch_entries (t :: rest)) with (table_entries t.2 ++ epoch_entries rest). rewrite values_app.
    assert (Hgo : exists st' vs', (let? (st, vs') := Dir.get_loop d fuel key e (Z.of_nat n + 1) (DirIter.Next it) in
        Some (st, pick unique (values key (table_entries t.2)) ++ vs')) = Some (st', vs') /\ (no_faults -> st' = kOk)
        /\ (st' = kOk -> vs' = pick unique (values key (table_entries t.2)) ++ pick unique (values key (epoch_entries rest)))).
    { assert (Hln : (n < length ts)%nat) by (apply (f_equal length) in Ed; rewrite length_drop in Ed; cbn in Ed; lia).
      destruct (IH (S n) (DirIter.Next it)) as (st' & vs' & E & Hnf' & Hok'); [done|by apply sst_Next|lia|lia|].
      replace (Z.of_nat n + 1) with (Z.of_nat (S n)) by lia. rewrite E. do 2 eexists. split; [done|]. split; [done|].
      intros Est'. rewrite (Hok' Est'). by rewrite (drop_tail _ _ _ _ Ed). }
    destruct unique eqn:Eq.
    + destruct (values key (table_entries t.2)) as [|x l] eqn:Ev; cbn [pick take].
      * destruct Hgo as (st' & vs' & E & Hnf' & Hok'). cbn [pick take] in E. rewrite E. by exists st', vs'.
      * exists kOk, [x]. rewrite (DAt_status _ _ _ Hnext). done.
    + assert (Hm : forall vs : list bytes, match vs with [] => false | _ => false end = false) by by intros [].
      rewrite Hm. destruct Hgo as (st' & vs' & E & Hnf' & Hok'). rewrite E. by exists st', vs'.
Qed.

Lemma DoGet_spec fd key e h ts :
  EpochAt fd e h ts -> src_files (d_data d) !! Z.to_nat (Dir.file_index d e) = Some fd -> bytes_ok key ->
  exists st vs, Dir.DoGet d key h e = Some (st, vs) /\ (no_faults -> st = kOk)
    /\ (st = kOk -> vs = pick unique (values key (epoch_entries ts))).
Proof.
  intros [He Hn (c & Hb & Hok) Hts] Hfd Hk. unfold Dir.DoGet, Dir.opts.
  destruct (ReadBlock_BlockAt o (d_indx d) fx 0 _ _ Hb Hfx) as (st & x & -> & Hst & Hx).
  destruct (ok st) eqn:Est; cbn [negb].
  2: { apply ok_false in Est. exists st, []. split; [done|]. split; [|done]. intros [_ Hi]. by rewrite Hst, Hi. }
  apply ok_true in Est. rewrite (Hx Est). pose proof (OpenBlock_At _ _ Hok) as (Ha & Hsst & Hlen).
  destruct (get_loop_spec (Z.to_nat kMaxTableNo + 2) fd key e ts 0 (DirIter.SeekToFirst (OpenBlock c))) as (st' & vs & E & Hnf & Hv); try done.
  - rewrite drop_0. by eapply DAt_First.
  - by apply sst_First.
  - lia.
  - unfold kMaxTableNo in *. lia.
  - change (Z.of_nat 0) with 0 in E. rewrite E. by exists st', vs.
Qed.

(** ** The directory *)

Definition Epochs : Type := list (Z * (EpochHandle * Tables)).

Definition root_entries (eps : Epochs) : list entry := (fun x => (epoch_key x.1, epoch_bytes x.2.1)) <$> eps.

Fixpoint tables_of (eps : Epochs) (e : Z) : Tables :=
  match eps with [] => [] | (e', (_, ts)) :: eps => if e =? e' then ts else tables_of eps e end.

(** The entries of an epoch, in the order of its tables. *)
Definition stored (eps : Epochs) (e : Z) : list entry := epoch_entries (tables_of eps e).

Record DirAt (eps : Epochs) : Prop := {
  da_root : BlockOk (d_rt d) (root_entries eps);
  da_inc : StronglySorted (fun a b => a.1 < b.1) eps;
  da_epochs : Forall (fun x => epoch_wf x.2.1 /\ exists fd, src_files (d_data d) !! Z.to_nat (Dir.file_index d x.1) = Some fd
    /\ EpochAt fd x.1 (mkHandle (ep_index_offset x.2.1) (ep_index_size x.2.1)) x.2.2) eps }.

Lemma root_strict eps : DirAt eps -> strict (root_entries eps).
Proof.
  intros [_ Hinc Hall]. unfold strict, root_entries. revert Hall. induction Hinc as [|x eps Hinc IH Hlt]; intros Hall; [constructor|].
  apply Forall_cons in Hall as [(_ & fd & _ & [Hx _ _ _]) Hall]. cbn. constructor; [by apply IH|]. apply Forall_fmap.
  apply Forall_forall. intros y Hy. rewrite Forall_forall in Hlt, Hall. destruct (Hall _ Hy) as (_ & fd' & _ & [Hy' _ _ _]). specialize (Hlt _ Hy).
  cbn. unfold slt. rewrite compare_epoch_key by done. by rewrite (proj2 (Z.compare_lt_iff _ _)).
Qed.

(** An epoch is found through its key. *)
Lemma root_elem eps e v :
  DirAt eps -> 0 <= e <= kMaxEpochNo -> (epoch_key e, v) ∈ root_entries eps ->
  exists h, v = epoch_bytes h /\ (e, (h, tables_of eps e)) ∈ eps.
Proof.
  intros [_ Hinc Hall] He. revert Hall. induction Hinc as [|x eps Hinc IH Hlt]; intros Hall Hin; [by apply elem_of_nil in Hin|].
  apply Forall_cons in Hall as [(_ & fd & _ & [Hx _ _ _]) Hall]. destruct x as [e' [h ts]]. cbn [fst snd] in *. cbn in Hin.
  assert (Hkey : forall a b, 0 <= a <= kMaxEpochNo -> 0 <= b <= kMaxEpochNo -> epoch_key a = epoch_key b -> a = b).
  { intros a b Ha Hb E. pose proof (compare_epoch_key a b Ha Hb) as Hc. rewrite E, compare_refl in Hc. symmetry in Hc. by apply Z.compare_eq_iff in Hc. }
  apply elem_of_cons in Hin as [Hin|Hin].
  - pose proof (f_equal fst Hin) as Ek. pose proof (f_equal snd Hin) as Ev. cbn [fst snd] in Ek, Ev. clear Hin. subst v.
    rewrite (Hkey e e' He Hx Ek). cbn. rewrite Z.eqb_refl. exists h. split; [done|by apply elem_of_cons; left].
  - destruct (IH Hall Hin) as (h' & -> & Hin'). exists h'. split; [done|]. cbn. rewrite Forall_forall in Hlt. specialize (Hlt _ Hin'). cbn in Hlt.
    destruct (Z.eqb_spec e e'); [lia|]. by apply elem_of_cons; right.
Qed.

Lemma root_absent eps e : (forall v, (epoch_key e, v) ∉ root_entries eps) -> tables_of eps e = [].
Proof.
  induction eps as [|[e' [h ts]] eps IH]; intros Hno; [done|]. cbn. destruct (Z.eqb_spec e e') as [->|].
  - exfalso. apply (Hno (epoch_bytes h)). by apply elem_of_cons; left.
  - apply IH. intros v Hv. apply (Hno v). by apply elem_of_cons; right.
Qed.

Lemma position_spec key es it l :
  DAt es it l -> sst_iter it -> strict es ->
  (exists it' v rest, Dir.position key it = inl it' /\ sst_iter it' /\ DAt es it' ((key, v) :: rest) /\ (key, v) ∈ es)
  \/ (exists it' l', Dir.position key it = inr it' /\ sst_iter it' /\ DAt es it' l' /\ forall v, (key, v) ∉ es).
Proof.
  intros Ha Hs Hst. unfold Dir.position. pose proof (strict_sorted _ Hst) as Hso.
  assert (Hseek : (exists it' v rest,
      (if negb (DirIter.Valid (DirIter.Seek it key)) then inr (DirIter.Seek it key)
       else if negb (seq (DirIter.key (DirIter.Seek it key)) key) then inr (DirIter.Seek it key) else inl (DirIter.Seek it key)) = inl it'
       /\ sst_iter it' /\ DAt es it' ((key, v) :: rest) /\ (key, v) ∈ es)
    \/ (exists it' l',
      (if negb (DirIter.Valid (DirIter.Seek it key)) then inr (DirIter.Seek it key)
       else if negb (seq (DirIter.key (DirIter.Seek it key)) key) then inr (DirIter.Seek it key) else inl (DirIter.Seek it key)) = inr it'
       /\ sst_iter it' /\ DAt es it' l' /\ forall v, (key, v) ∉ es)).
  { destruct (DAt_Seek_sst _ _ _ key Hso Hs Ha) as [Ha' Hs']. destruct (skip_less_suffix key es) as (pre & E & Hpre).
    pose proof (skip_less_ge key es Hso) as Hge. pose proof (skip_less_sorted key es Hso) as Hso'. rewrite Forall_forall in Hpre.
    destruct (skip_less key es) as [|[k v] rest].
    - right. destruct (DAt_nil _ _ Ha') as [-> _]. cbn [negb]. do 2 eexists. split; [done|]. split; [done|]. split; [done|].
      intros v Hv. rewrite E, app_nil_r in Hv. specialize (Hpre _ Hv). cbn in Hpre. by rewrite slt_irrefl in Hpre.
    - destruct (DAt_cons _ _ _ _ _ Ha') as (-> & -> & _ & _ & _). cbn [negb]. unfold seq. destruct (bool_decide_reflect (k = key)) as [->|Hne]; cbn [negb].
      + left. do 3 eexists. split; [done|]. split; [done|]. split; [done|]. rewrite E. set_solver.
      + right. do 2 eexists. split; [done|]. split; [done|]. split; [done|]. intros v' Hv. rewrite E in Hv. apply elem_of_app in Hv as [Hv|Hv].
        { specialize (Hpre _ Hv). cbn in Hpre. by rewrite slt_irrefl in Hpre. }
        apply elem_of_cons in Hv as [Hv|Hv]; [by simplify_eq|]. apply StronglySorted_inv in Hso' as [_ Hall].
        rewrite Forall_forall in Hall. specialize (Hall _ Hv). cbn in Hall. apply Forall_cons in Hge as [Hge _]. cbn in Hge. by apply Hne, sle_antisym. }
  destruct l as [|[k v] l].
  - destruct (DAt_nil _ _ Ha) as [-> _]. exact Hseek.
  - pose proof Ha as Ha0. destruct (DAt_cons _ _ _ _ _ Ha) as (-> & -> & _ & _ & _). cbn [negb orb].
    destruct (seq k key) eqn:Ek; cbn [negb].
    + apply bool_decide_eq_true in Ek as ->. left. do 3 eexists. split; [done|]. split; [done|]. split; [exact Ha0|]. destruct (DAt_suffix _ _ _ Ha0) as [pre ->]. set_solver.
    + exact Hseek.
Qed.

Section ReadKey.
Context (eps : Epochs) (HD : DirAt eps) (key : bytes) (Hk : bytes_ok key).

Definition RtOk (ctx : Dir.GetContext) : Prop :=
  match Dir.rt_iter ctx with Some it => sst_iter it /\ exists l, DAt (root_entries eps) it l | None => True end.

Definition found (e : Z) : list bytes := pick unique (values key (stored eps e)).

Lemma NewRt_ok : sst_iter (Dir.NewRtIterator d) /\ exists l, DAt (root_entries eps) (Dir.NewRtIterator d) l.
Proof.
  pose proof (OpenBlock_At _ _ (da_root _ HD)) as (Ha & Hs & _). split; [by apply sst_First|]. eexists. by eapply DAt_First.
Qed.

Lemma fold_save_iter e vs ctx :
  Dir.rt_iter (fold_left (Dir.save d e) vs ctx) = Dir.rt_iter ctx /\ Dir.g_status (fold_left (Dir.save d e) vs ctx) = Dir.g_status ctx.
Proof.
  revert ctx. induction vs as [|v vs IH]; intros ctx; [done|]. cbn. destruct (IH (Dir.save d e ctx v)) as [-> ->].
  unfold Dir.save. by destruct (parallel_reads _).
Qed.

Lemma Get_spec e ctx :
  0 <= e <= kMaxEpochNo -> RtOk ctx -> Dir.g_status ctx = kOk ->
  exists ctx', Dir.Get d key e ctx = Some ctx' /\ RtOk ctx' /\ (no_faults -> Dir.g_status ctx' = kOk)
    /\ (Dir.g_status ctx' = kOk ->
        let s := fold_left (Dir.save d e) (found e) ctx in
        Dir.dst ctx' = Dir.dst s /\ Dir.offsets ctx' = Dir.offsets s /\ Dir.buffer ctx' = Dir.buffer s).
Proof.
  intros He Hrt Hst. unfold Dir.Get. rewrite Hst. change (negb (ok kOk)) with false. cbn iota. rewrite EpochKey_ok by lia.
  set (it := match Dir.rt_iter ctx with Some it => it | None => Dir.NewRtIterator d end).
  assert (Hit : sst_iter it /\ exists l, DAt (root_entries eps) it l).
  { subst it. unfold RtOk in Hrt. destruct (Dir.rt_iter ctx); [done|apply NewRt_ok]. }
  destruct Hit as [Hs [l Ha]].
  assert (Hres : exists st vs it', match Dir.position (epoch_key e) it with
      | inr it => Some (kOk, [], it)
      | inl it => match BlockHandle.DecodeFrom (DirIter.value it) with
          | None => Some (kCorruption, [], DirIter.Next it)
          | Some (h, _) => let? (st, vs) := Dir.DoGet d key h e in Some (st, vs, DirIter.Next it)
          end
      end = Some (st, vs, it') /\ sst_iter it' /\ (exists l', DAt (root_entries eps) it' l') /\ (no_faults -> st = kOk)
      /\ (st = kOk -> vs = found e)).
  { destruct (position_spec (epoch_key e) _ _ _ Ha Hs (root_strict eps HD)) as [(it' & v & rest & -> & Hs' & Ha' & Hin)|(it' & l' & -> & Hs' & Ha' & Hno)].
    - destruct (root_elem eps e v HD He Hin) as (h & -> & Hin'). destruct (DAt_cons _ _ _ _ _ Ha') as (_ & _ & -> & Hn & _).
      pose proof (da_epochs _ HD) as Hall. rewrite Forall_forall in Hall. destruct (Hall _ Hin') as (Hwf & fd & Hfd & HE). cbn [fst snd] in *.
      destruct (epoch_block_decode h Hwf) as [r ->]. destruct (DoGet_spec fd key e _ _ HE Hfd Hk) as (st & vs & -> & Hnf & Hv).
      exists st, vs, (DirIter.Next it'). split; [done|]. split; [by apply sst_Next|]. split; [by eexists|]. split; [done|]. done.
    - exists kOk, [], it'. split; [done|]. split; [done|]. split; [by eexists|]. split; [done|]. intros _.
      unfold found, stored. rewrite (root_absent _ _ Hno). by destruct unique. }
  destruct Hres as (st & vs & it' & -> & Hs' & [l' Ha'] & Hnf & Hv). rewrite (DAt_status _ _ _ Ha').
  eexists. split; [done|]. destruct (fold_save_iter e vs ctx) as [Ei _]. split.
  { unfold RtOk. cbn. rewrite Ei. destruct (Dir.rt_iter ctx); [|done]. split; [done|by eexists]. }
  cbn [Dir.g_status]. split; [intros Hn; by rewrite (Hnf Hn)|]. intros Hst'.
  assert (Est : st = kOk) by (destruct (ok st) eqn:E; [by apply ok_true|done]). by rewrite (Hv Est).
Qed.

(** The reads of a list of epochs, in terms of what is saved. *)
Lemma read_loop_spec es ctx :
  Forall (fun e => 0 <= e <= kMaxEpochNo) es -> RtOk ctx -> Dir.g_status ctx = kOk ->
  exists ctx', Dir.read_loop d key es ctx = Some ctx' /\ (no_faults -> Dir.g_status ctx' = kOk)
    /\ (Dir.g_status ctx' = kOk ->
        let s := fold_left (fun c e => fold_left (Dir.save d e) (found e) c) es ctx in
        Dir.dst ctx' = Dir.dst s /\ Dir.offsets ctx' = Dir.offsets s /\ Dir.buffer ctx' = Dir.buffer s).
Proof.
  intros Hall. revert ctx. induction Hall as [|e es He Hall IH]; intros ctx Hrt Hst; cbn [Dir.read_loop]; [by exists ctx|].
  destruct (Get_spec e ctx He Hrt Hst) as (c1 & -> & Hrt1 & Hnf1 & Hv1). destruct (ok (Dir.g_status c1)) eqn:Eo.
  2: { apply ok_false in Eo. exists c1. split; [done|]. split; [done|]. done. }
  apply ok_true in Eo. destruct (IH c1 Hrt1 Eo) as (c2 & -> & Hnf2 & Hv2). exists c2. split; [done|]. split; [done|]. intros Hst2.
  specialize (Hv2 Hst2). specialize (Hv1 Eo). cbn [fold_left]. cbv zeta in *.
  set (s1 := fold_left (Dir.save d e) (found e) ctx) in *.
  assert (Hext : forall es a b, Dir.dst a = Dir.dst b /\ Dir.offsets a = Dir.offsets b /\ Dir.buffer a = Dir.buffer b ->
    let f := fold_left (fun c e => fold_left (Dir.save d e) (found e) c) es in
    Dir.dst (f a) = Dir.dst (f b) /\ Dir.offsets (f a) = Dir.offsets (f b) /\ Dir.buffer (f a) = Dir.buffer (f b)).
  { clear. induction es as [|x es IH]; intros a b Hab; [done|]. cbn. apply IH. generalize (found x). intros vs. revert a b Hab.
    induction vs as [|v vs IHv]; intros a b (H1 & H2 & H3); [done|]. cbn. apply IHv. unfold Dir.save. destruct (parallel_reads _); cbn; by rewrite ?H1, ?H2, ?H3. }
  destruct (Hext es c1 s1 Hv1) as (E1 & E2 & E3). destruct Hv2 as (F1 & F2 & F3). by rewrite F1, F2, F3, E1, E2, E3.
Qed.

(** *** Collecting the results *)

Definition item_bytes (x : Z * bytes) : bytes := EncodeVarint32 x.1 ++ PutLengthPrefixedSlice x.2.

Fixpoint positions (start : Z) (items : list (Z * bytes)) : list (Z * Z) :=
  match items with [] => [] | x :: items => (x.1, start) :: positions (start + zlen (item_bytes x)) items end.

Definition items (es : list Z) : list (Z * bytes) := concat ((fun e => (fun v => (e, v)) <$> found e) <$> es).

Lemma fold_saves es ctx :
  fold_left (fun c e => fold_left (Dir.save d e) (found e) c) es ctx = fold_left (fun c x => Dir.save d x.1 c x.2) (items es) ctx.
Proof.
  revert ctx. induction es as [|e es IH]; intros ctx; [done|]. unfold items. cbn [fmap list_fmap concat fold_left]. rewrite fold_left_app, IH. f_equal.
  generalize ctx. clear IH. induction (found e) as [|v vs IHv]; intros c; [done|]. cbn. apply IHv.
Qed.

Lemma serial_saves xs ctx :
  parallel_reads o = false -> Dir.dst (fold_left (fun c x => Dir.save d x.1 c x.2) xs ctx) = Dir.dst ctx ++ concat xs.*2.
Proof.
  intros Hp. revert ctx. induction xs as [|x xs IH]; intros ctx; cbn; [by rewrite app_nil_r|]. rewrite IH. unfold Dir.save, Dir.opts. rewrite Hp. cbn. by rewrite app_assoc.
Qed.

Lemma parallel_saves xs ctx :
  parallel_reads o = true -> zlen (Dir.buffer ctx) + zlen (concat (item_bytes <$> xs)) < 2 ^ 32 ->
  let c := fold_left (fun c x => Dir.save d x.1 c x.2) xs ctx in
  Dir.dst c = Dir.dst ctx /\ Dir.buffer c = Dir.buffer ctx ++ concat (item_bytes <$> xs)
  /\ Dir.offsets c = Dir.offsets ctx ++ (positions (zlen (Dir.buffer ctx)) xs).*2.
Proof.
  intros Hp. cbv zeta. revert ctx. induction xs as [|x xs IH]; intros ctx Hz; cbn [fold_left fmap list_fmap concat positions]; [by rewrite !app_nil_r|].
  cbn [fmap list_fmap concat] in Hz. rewrite zlen_app in Hz. pose proof (zlen_nonneg (Dir.buffer ctx)). pose proof (zlen_nonneg (concat (item_bytes <$> xs))). pose proof (zlen_nonneg (item_bytes x)).
  assert (Es : Dir.save d x.1 ctx x.2 = Dir.mkGet (Dir.rt_iter ctx) (Dir.g_status ctx) (Dir.dst ctx) (Dir.offsets ctx ++ [zlen (Dir.buffer ctx)]) (Dir.buffer ctx ++ item_bytes x)).
  { unfold Dir.save, Dir.opts. rewrite Hp, u32_small by (unfold in_width; lia). done. }
  rewrite Es. destruct (IH (Dir.mkGet (Dir.rt_iter ctx) (Dir.g_status ctx) (Dir.dst ctx) (Dir.offsets ctx ++ [zlen (Dir.buffer ctx)]) (Dir.buffer ctx ++ item_bytes x))) as (-> & -> & ->).
  { cbn. rewrite zlen_app. lia. }
  cbn. split; [done|]. rewrite zlen_app, <- !app_assoc. done.
Qed.

Lemma merge_positions xs pre :
  Forall (fun x => is_u32 x.1) xs -> zlen pre + zlen (concat (item_bytes <$> xs)) < 2 ^ 32 ->
  mapM (fun off => let? e := Dir.GetEpoch (pre ++ concat (item_bytes <$> xs)) off in Some (e, off)) (positions (zlen pre) xs).*2 = Some (positions (zlen pre) xs)
  /\ Dir.merge_loop (pre ++ concat (item_bytes <$> xs)) (positions (zlen pre) xs) = Some (concat xs.*2).
Proof.
  intros Hall. revert pre. induction Hall as [|x xs Hx Hall IH]; intros pre Hz; cbn [fmap list_fmap concat positions Dir.merge_loop]; [done|].
  cbn [fmap list_fmap concat] in Hz. rewrite zlen_app in Hz. pose proof (zlen_nonneg pre). pose proof (zlen_nonneg (concat (item_bytes <$> xs))).
  assert (Hpre : pre ++ item_bytes x ++ concat (item_bytes <$> xs) = (pre ++ item_bytes x) ++ concat (item_bytes <$> xs)) by by rewrite app_assoc.
  assert (Hv : is_u32 (zlen x.2)).
  { pose proof (zlen_nonneg x.2). unfold item_bytes at 1 in Hz. unfold PutLengthPrefixedSlice in Hz. rewrite !zlen_app in Hz. pose proof (zlen_nonneg (EncodeVarint32 x.1)).
    pose proof (zlen_nonneg (EncodeVarint32 (u32 (zlen x.2)))). unfold in_width. lia. }
  assert (Hd : drop (Z.to_nat (zlen pre)) (pre ++ item_bytes x ++ concat (item_bytes <$> xs)) = EncodeVarint32 x.1 ++ PutLengthPrefixedSlice x.2 ++ concat (item_bytes <$> xs)).
  { rewrite drop_app_length' by (unfold zlen; lia). unfold item_bytes at 1. by rewrite <- app_assoc. }
  destruct (IH (pre ++ item_bytes x)) as [HA HB]; [rewrite zlen_app; lia|]. rewrite <- Hpre, zlen_app in HA, HB. split.
  - assert (HG : Dir.GetEpoch (pre ++ item_bytes x ++ concat (item_bytes <$> xs)) (zlen pre) = Some x.1).
    { unfold Dir.GetEpoch. by rewrite Hd, GetVarint32_encode. }
    cbn [mapM snd]. rewrite HG. cbn [mbind option_bind]. rewrite HA. done.
  - rewrite Hd, GetVarint32_encode, GetLengthPrefixedSlice_put by done. rewrite HB. done.
Qed.

Lemma insert_last x l : Forall (fun y => y.1 <= x.1) l -> Dir.insert_stable x l = l ++ [x].
Proof. induction 1 as [|y l Hy _ IH]; [done|]. cbn. destruct (Z.ltb_spec x.1 y.1); [lia|]. by rewrite IH. Qed.

Lemma stable_sorted l : StronglySorted (fun a b => a.1 <= b.1) l -> Dir.stable_sort l = l.
Proof.
  intros Hl. unfold Dir.stable_sort.
  assert (Hgen : forall acc, Forall (fun a => Forall (fun b => a.1 <= b.1) l) acc -> fold_left (fun acc x => Dir.insert_stable x acc) l acc = acc ++ l).
  { induction Hl as [|x l Hl IH Hx]; intros acc Hacc; cbn; [by rewrite app_nil_r|]. rewrite insert_last.
    - rewrite IH; [by rewrite <- app_assoc|]. apply Forall_app. split; [|by constructor]. eapply Forall_impl; [exact Hacc|]. by intros a [_ ?]%Forall_cons.
    - eapply Forall_impl; [exact Hacc|]. by intros a [? _]%Forall_cons. }
  rewrite Hgen; [done|constructor].
Qed.

Lemma items_epoch es x : x ∈ items es -> x.1 ∈ es.
Proof.
  induction es as [|e es IH]; intros Hx; [by apply elem_of_nil in Hx|]. unfold items in Hx. cbn [fmap list_fmap concat] in Hx.
  apply elem_of_app in Hx as [Hx|Hx]; apply elem_of_cons; [left|right; by apply IH].
  by apply list_elem_of_fmap in Hx as (v & -> & _).
Qed.

Lemma items_sorted es :
  StronglySorted Z.lt es -> forall start, StronglySorted (fun a b => a.1 <= b.1) (positions start (items es)).
Proof.
  assert (Hmem : forall xs start p, p ∈ positions start xs -> exists x, x ∈ xs /\ x.1 = p.1).
  { induction xs as [|x xs IH]; intros start p Hp; [by apply elem_of_nil in Hp|]. cbn in Hp. apply elem_of_cons in Hp as [->|Hp]; [exists x; split; [apply elem_of_cons; by left|done]|].
    destruct (IH _ _ Hp) as (y & ? & ?). exists y. split; [apply elem_of_cons; by right|done]. }
  induction 1 as [|e es Hes IH Hlt]; intros start; [constructor|]. unfold items. cbn [fmap list_fmap concat]. fold (items es).
  revert start. induction (found e) as [|v vs IHv]; intros start; cbn; [apply IH|]. constructor; [apply IHv|].
  apply Forall_forall. intros p Hp. cbn. destruct (Hmem _ _ _ Hp) as (x & Hx & <-). apply elem_of_app in Hx as [Hx|Hx].
  - apply list_elem_of_fmap in Hx as (v' & -> & _). done.
  - apply items_epoch in Hx. rewrite Forall_forall in Hlt. specialize (Hlt _ Hx). cbn in Hlt |- *. lia.
Qed.

Lemma seqZ_sorted a n : StronglySorted Z.lt (seqZ a n).
Proof.
  destruct (decide (0 <= n)) as [Hn|]; [|rewrite seqZ_nil by lia; constructor].
  revert a. pattern n. apply natlike_ind; [intros a; constructor| |done]. intros m Hm IH a. rewrite seqZ_cons, Z.pred_succ by lia. constructor; [apply IH|].
  apply Forall_forall. intros x Hx%elem_of_seqZ. lia.
Qed.

(** Reading a range of epochs. *)
Lemma Read_spec r dst0 :
  0 <= epoch_start r -> d_num_eps d <= kMaxEpochNo + 1 ->
  (parallel_reads o = true -> zlen (concat (item_bytes <$> items (Dir.epochs d r))) < 2 ^ 32) ->
  exists st out, Dir.Read d r key dst0 = Some (st, out) /\ (no_faults -> st = kOk)
    /\ (st = kOk -> out = dst0 ++ concat (concat (found <$> Dir.epochs d r))).
Proof.
  intros Hs Hn Hpar. unfold Dir.Read. set (es := Dir.epochs d r) in *.
  assert (Hes : Forall (fun e => 0 <= e <= kMaxEpochNo) es /\ StronglySorted Z.lt es).
  { subst es. unfold Dir.epochs. destruct (d_num_eps d =? 0); [split; constructor|]. split.
    - apply Forall_forall. intros e He%elem_of_seqZ. lia.
    - apply seqZ_sorted. }
  destruct Hes as [Hes Hso].
  set (ctx := Dir.mkGet _ _ _ _ _).
  assert (Hrt : RtOk ctx) by (unfold RtOk; subst ctx; cbn; destruct (parallel_reads _); [done|apply NewRt_ok]).
  destruct (read_loop_spec es ctx Hes Hrt eq_refl) as (c & -> & Hnf & Hv). unfold Dir.opts.
  assert (Hitems : (items es).*2 = concat (found <$> es)).
  { clear. induction es as [|e es IH]; [done|]. unfold items. cbn [fmap list_fmap concat]. fold (items es). rewrite fmap_app, IH. f_equal.
    rewrite <- list_fmap_compose. apply list_fmap_id. }
  destruct (ok (Dir.g_status c)) eqn:Eo; cbn [andb].
  2: { apply ok_false in Eo. do 2 eexists. split; [done|]. split; [done|]. done. }
  apply ok_true in Eo. specialize (Hv Eo). cbv zeta in Hv. rewrite fold_saves in Hv. destruct (parallel_reads o) eqn:Ep.
  - destruct (parallel_saves (items es) ctx Ep) as (E1 & E2 & E3); [subst ctx; cbn; by apply Hpar|]. cbv zeta in *. destruct Hv as (F1 & F2 & F3).
    unfold Dir.Merge. rewrite F1, F2, F3, E1, E2, E3. subst ctx. cbn [Dir.buffer Dir.offsets Dir.dst app].
    destruct (merge_positions (items es) []) as [HA HB].
    { apply Forall_forall. intros x Hx%items_epoch. rewrite Forall_forall in Hes. specialize (Hes _ Hx). cbn in Hes. unfold kMaxEpochNo in Hes. unfold in_width. lia. }
    { by apply Hpar. }
    cbn [app] in HA, HB. rewrite HA, stable_sorted, HB by by apply items_sorted. do 2 eexists. split; [done|]. split; [done|]. by rewrite Hitems.
  - destruct Hv as (F1 & _ & _). rewrite F1, serial_saves by done. do 2 eexists. split; [done|]. split; [by rewrite Eo|]. intros _. by rewrite Hitems.
Qed.

End ReadKey.

End Reader.
