(* ===== verification/PlfsChunks.v ===== *)
(** * Building indexed directories: chunks, index blocks and separators

    What [SeqDirBuilder] keeps between two commits, in terms of chunks: a chunk is
    a finished data block with the room for its handle before it.  [commit_loop]
    is shown to give every chunk its handle and its index entry.  [IndexBlk] is
    the invariant of the index, meta index and root blocks under construction;
    [SepsT] is that of the separators while entries are still being added. *)
From stdpp Require Import sorting.
From S2P Require Import Prelude Coding Status Crc32c Filter SstBlock SstBlockProps PlfsFormat PlfsFormatLemmas PlfsLog PlfsLogLemmas.
From S2P Require Import PlfsBuilder PlfsReader PlfsBlocks PlfsReaderLemmas.

(** ** Index blocks under construction *)

Section IndexBlk.
Context `{Snappy}.

Definition IndexBlk (b : BlockBuilder) (es : list entry) : Prop :=
  Builds b es /\ compression_ (buf b) = kNoCompression /\ BlockBuilder.CurrentSizeEstimate b <= 8 + weight es.

Lemma weight_app a b : weight (a ++ b) = weight a + weight b.
Proof. induction a as [|[k v] a IH]; cbn [weight app]; [done|]. rewrite IH. lia. Qed.

Lemma IndexBlk_New : IndexBlk (BlockBuilder.New 1 true) [].
Proof. split; [apply New_Builds|]. split; [done|]. by vm_compute. Qed.

Lemma IndexBlk_Add b es k v :
  IndexBlk b es -> es = [] \/ sle (last_of [] es) k = true -> weight es + zlen k + zlen v + 28 < 2 ^ 31 ->
  exists b', BlockBuilder.Add k v b = Some b' /\ IndexBlk b' (es ++ [(k, v)]).
Proof.
  intros (HB & Hc & He) Ho Hs. destruct (Add_Builds b es k v HB) as (b' & E & HB' & _ & _ & _ & _ & He'); [by right|lia|].
  exists b'. split; [done|]. split; [done|]. split; [by rewrite (Add_compression _ _ _ _ E)|]. rewrite weight_app. cbn [weight]. lia.
Qed.

Lemma IndexBlk_Finish b es :
  IndexBlk b es -> weight es + 8 < 2 ^ 31 -> entries_ok es ->
  exists c b', BlockBuilder.Finish kNoCompression false b = Some (c, b') /\ BlockOk c es /\ zlen c <= 8 + weight es /\ bytes_ok c
    /\ IndexBlk (BlockBuilder.Reset b') [].
Proof.
  intros (HB & Hc & He) Hs Hok. destruct (Finish_Builds kNoCompression false b es HB ltac:(lia)) as (c & c' & b' & E & Hblk & Hz & Hf).
  destruct Hf as (_ & Hcon & Hst & _ & Hri & Ht & [[-> Hcomp]|(? & _)]); [|done].
  exists c, b'. split; [done|]. split; [done|]. split; [lia|]. split; [by eapply BlockOk_bytes|].
  destruct HB as (s & idx & [Hopen Hst0 _ _ _ _ _ _ _ Hi]).
  assert (Hs0 : 0 <= buffer_start_ (buf b') <= zlen (buffer_ (buf b'))).
  { rewrite Hst. apply (f_equal length) in Ht. rewrite !length_take in Ht. unfold zlen in *. lia. }
  split; [apply Reset_Builds; [done|lia]|]. split; [cbn; congruence|].
  unfold BlockBuilder.CurrentSizeEstimate, BlockBuilder.Reset, Buffer.Reset. cbn [buf finished_ restarts_ buffer_ buffer_start_ negb].
  change (zlen [0]) with 1. unfold zlen in *. rewrite length_take. cbn [weight]. lia.
Qed.

End IndexBlk.

(** ** Separators *)

Lemma separator_ok a b : bytes_ok a -> bytes_ok b -> bytes_ok (Comparator.FindShortestSeparator a b).
Proof.
  intros Ha Hb. unfold Comparator.FindShortestSeparator. repeat case_match; try done. apply bytes_ok_app. split; [by apply Forall_take|].
  constructor; [|constructor]. pose proof (Forall_lookup_1 _ _ _ _ Ha H). apply andb_true_iff in H1 as [H1%Z.ltb_lt _]. unfold byte_ok, in_width in *. lia.
Qed.

Lemma separator_size a b : zlen (Comparator.FindShortestSeparator a b) <= zlen a.
Proof.
  unfold Comparator.FindShortestSeparator. repeat case_match; try lia. apply lookup_lt_Some in H.
  unfold zlen. rewrite length_app, length_take. cbn. lia.
Qed.

Lemma successor_ok a : bytes_ok a -> bytes_ok (Comparator.FindShortSuccessor a).
Proof.
  induction 1 as [|b a Hb Ha IH]; cbn; [constructor|]. destruct (Z.eqb_spec b 255); cbn [negb]; repeat constructor; try done; unfold byte_ok, in_width in *; lia.
Qed.

Lemma successor_size a : zlen (Comparator.FindShortSuccessor a) <= zlen a.
Proof.
  induction a as [|b a IH]; cbn; [done|]. pose proof (zlen_nonneg a). destruct (negb (b =? 255)); rewrite !zlen_cons; change (zlen []) with 0; lia.
Qed.

Lemma successor_ne a : a <> [] -> Comparator.FindShortSuccessor a <> [].
Proof. destruct a as [|b a]; [done|]. cbn. by destruct (negb _). Qed.

(** [Seps] with the entries [tail] after the blocks. *)
Fixpoint SepsT (bs : list DataBlk) (tail : list entry) : Prop :=
  match bs with
  | [] => True
  | b :: bs =>
      Forall (fun e => sle e.1 (bk_sep b) = true) (bk_es b)
      /\ (bk_sep b = last_of [] (bk_es b) \/ Forall (fun e => slt (bk_sep b) e.1 = true) (table_entries bs ++ tail))
      /\ SepsT bs tail
  end.

Lemma table_entries_app a b : table_entries (a ++ b) = table_entries a ++ table_entries b.
Proof. unfold table_entries. by rewrite fmap_app, concat_app. Qed.

Lemma SepsT_nil bs : SepsT bs [] -> Seps bs.
Proof. induction bs as [|b bs IH]; cbn; [done|]. rewrite app_nil_r. intros (? & ? & ?). split_and!; auto. Qed.

(** One more entry. *)
Lemma SepsT_snoc bs tail k v :
  SepsT bs tail -> tail <> [] -> Forall (fun e => sle e.1 k = true) tail -> SepsT bs (tail ++ [(k, v)]).
Proof.
  intros HS Hne Hle. induction bs as [|b bs IH]; cbn in *; [done|]. destruct HS as (H1 & H2 & H3). split; [done|]. split; [|by apply IH].
  destruct H2 as [H2|H2]; [by left|right]. rewrite app_assoc. apply Forall_app. split; [done|]. constructor; [|constructor]. cbn.
  apply Forall_app in H2 as [_ H2]. destruct tail as [|e tail]; [done|]. apply Forall_cons in Hle as [He _]. apply Forall_cons in H2 as [H2 _]. by eapply slt_sle_trans.
Qed.

(** One more block, made of the first entries of the tail. *)
Lemma SepsT_block bs b tail :
  SepsT bs (bk_es b ++ tail) -> Forall (fun e => sle e.1 (bk_sep b) = true) (bk_es b) ->
  (bk_sep b = last_of [] (bk_es b) \/ Forall (fun e => slt (bk_sep b) e.1 = true) tail) -> SepsT (bs ++ [b]) tail.
Proof.
  intros HS Hle Hsep. induction bs as [|b' bs IH]; cbn in *; [done|]. destruct HS as (H1 & H2 & H3). split; [done|]. split; [|by apply IH].
  destruct H2 as [H2|H2]; [by left|right]. rewrite table_entries_app. unfold table_entries at 2. cbn. by rewrite app_nil_r, <- app_assoc.
Qed.

(** The separators do not depend on where the blocks are. *)
Definition same_blk (a b : DataBlk) : Prop := bk_sep a = bk_sep b /\ bk_es a = bk_es b.

Lemma table_entries_same l l' : Forall2 same_blk l l' -> table_entries l = table_entries l'.
Proof. unfold table_entries. induction 1 as [|a b l l' [_ E] _ IH]; [done|]. cbn. by rewrite E, IH. Qed.

Lemma SepsT_same l l' tail : Forall2 same_blk l l' -> SepsT l tail -> SepsT l' tail.
Proof.
  induction 1 as [|a b l l' [E1 E2] Hl IH]; cbn; [done|]. rewrite E1, E2, (table_entries_same _ _ Hl). intros (? & ? & ?). split_and!; auto.
Qed.

Lemma same_blk_refl l : Forall2 same_blk l l.
Proof. induction l; constructor; done. Qed.

(** The keys of the index entries are in order. *)
Lemma seps_sorted bs tail :
  SepsT bs tail -> sorted (table_entries bs) -> Forall (fun b => bk_es b <> []) bs -> sorted (index_entries bs).
Proof.
  unfold sorted, index_entries. induction bs as [|b bs IH]; intros HS Hso Hne; cbn; [constructor|]. destruct HS as (H1 & H2 & H3).
  apply Forall_cons in Hne as [Hb Hne]. unfold table_entries in Hso. cbn in Hso. fold (table_entries bs) in *.
  constructor; [apply IH; [done|by eapply sorted_suffix|done]|]. apply Forall_fmap, Forall_forall. intros b' Hb'. cbn.
  rewrite Forall_forall in Hne. destruct (last_of_elem _ (Hne _ Hb')) as [v Hv].
  assert (Hin : (last_of [] (bk_es b'), v) ∈ table_entries bs).
  { unfold table_entries. apply list_elem_of_In, in_concat. exists (bk_es b'). split; apply list_elem_of_In; [|done]. by apply list_elem_of_fmap_2. }
  assert (Hle' : sle (last_of [] (bk_es b')) (bk_sep b') = true).
  { clear -H3 Hb' Hv. induction bs as [|x bs IH]; [by apply elem_of_nil in Hb'|]. destruct H3 as (H1 & _ & H3).
    apply elem_of_cons in Hb' as [->|Hb']; [|by apply IH]. rewrite Forall_forall in H1. apply (H1 _ Hv). }
  eapply sle_trans; [|exact Hle']. destruct H2 as [->|H2].
  - destruct (last_of_elem _ Hb) as [w Hw]. apply StronglySorted_app in Hso as (Hcross & _ & _). by apply (Hcross _ _ Hw Hin).
  - apply Forall_app in H2 as [H2 _]. rewrite Forall_forall in H2. apply slt_weaken. apply (H2 _ Hin).
Qed.

(** ** Chunks *)

Record Chunk := mkChunk { ck_sep : bytes; ck_contents : bytes; ck_pad : bytes; ck_es : list entry }.

Definition zeros : bytes := replicate (Z.to_nat BlockHandle.kMaxEncodedLength) 0.

Lemma zlen_zeros : zlen zeros = 20.
Proof. done. Qed.

#[global] Arguments zeros : simpl never.

Section Chunks.
Context `{Snappy} (o : DirOptions).

Definition body (c : Chunk) : bytes :=
  ck_contents c ++ Buffer.trailer kNoCompression (negb (skip_checksums o)) (ck_contents c) ++ ck_pad c.

Definition chunk (c : Chunk) : bytes := zeros ++ body c.

Definition chunks (cs : list Chunk) : bytes := concat (chunk <$> cs).

Lemma chunks_app a b : chunks (a ++ b) = chunks a ++ chunks b.
Proof. unfold chunks. by rewrite fmap_app, concat_app. Qed.

Lemma chunks_one c : chunks [c] = chunk c.
Proof. unfold chunks. cbn. by rewrite app_nil_r. Qed.

(** The blocks of chunks in a file, the first chunk at [start]. *)
Fixpoint placed (start : Z) (cs : list Chunk) : list DataBlk :=
  match cs with
  | [] => []
  | c :: cs => mkBlk (ck_sep c) (mkHandle (start + 20) (zlen (ck_contents c))) (ck_es c) :: placed (start + zlen (chunk c)) cs
  end.

(** The chunks with their handles. *)
Fixpoint patched (start : Z) (cs : list Chunk) : bytes :=
  match cs with
  | [] => []
  | c :: cs =>
      let enc := handle_bytes (mkHandle (start + 20) (zlen (ck_contents c))) in
      (enc ++ drop (length enc) zeros) ++ body c ++ patched (start + zlen (chunk c)) cs
  end.

Definition index_bytes (b : DataBlk) : bytes := PutLengthPrefixedSlice (bk_sep b) ++ handle_bytes (bk_h b).
Definition indexes (bs : list DataBlk) : bytes := concat (index_bytes <$> bs).

Lemma placed_app start a b : placed start (a ++ b) = placed start a ++ placed (start + zlen (chunks a)) b.
Proof.
  revert start. induction a as [|c a IH]; intros start; cbn; [by rewrite Z.add_0_r|]. rewrite IH.
  change (chunks (c :: a)) with (chunk c ++ chunks a). by rewrite zlen_app, Z.add_assoc.
Qed.

Lemma placed_same start start' cs : Forall2 same_blk (placed start cs) (placed start' cs).
Proof. revert start start'. induction cs as [|c cs IH]; intros; cbn; constructor; [done|apply IH]. Qed.

Lemma table_entries_placed start cs : table_entries (placed start cs) = concat (ck_es <$> cs).
Proof. revert start. induction cs as [|c cs IH]; intros; [done|]. unfold table_entries in *. cbn. by rewrite IH. Qed.

Lemma length_patched start cs : zlen (patched start cs) = zlen (chunks cs).
Proof.
  revert start. induction cs as [|c cs IH]; intros start; [done|]. cbn [patched]. change (chunks (c :: cs)) with (chunk c ++ chunks cs). unfold chunk at 2.
  rewrite !zlen_app, IH. pose proof (handle_bytes_size (mkHandle (start + 20) (zlen (ck_contents c)))) as Hz. rewrite zlen_zeros.
  unfold zlen in *. rewrite length_drop. change (length zeros) with 20%nat. lia.
Qed.

(** What holds of a finished chunk; [d] reads as the builder writes. *)
Record ChunkOk (d : Dir) (c : Chunk) : Prop := {
  co_ne : ck_es c <> [];
  co_good : BlockGood (d_options d) (ck_contents c) (ck_es c);
  co_bytes : bytes_ok (ck_contents c);
  co_sep : zlen (ck_sep c) <= zlen (last_of [] (ck_es c)) /\ bytes_ok (ck_sep c);
  co_align : block_padding o = true -> (block_size o | zlen (chunk c)) }.

Lemma zlen_chunk c : zlen (chunk c) = 20 + zlen (ck_contents c) + 5 + zlen (ck_pad c).
Proof.
  unfold chunk, body. rewrite !zlen_app, zlen_zeros. assert (zlen (Buffer.trailer kNoCompression (negb (skip_checksums o)) (ck_contents c)) = 5); [|lia].
  unfold zlen. by rewrite length_trailer.
Qed.

(** After the commit the blocks are in the file. *)
Lemma patched_BlkAt d f cs :
  skip_checksums (d_options d) = skip_checksums o -> Forall (ChunkOk d) cs -> zlen f + zlen (chunks cs) < 2 ^ 63 ->
  Forall (BlkAt d (f ++ patched (zlen f) cs)) (placed (zlen f) cs).
Proof.
  intros Hsk Hall. revert f. induction Hall as [|c cs Hc Hall IH]; intros f Hz; cbn [placed patched]; [constructor|].
  change (chunks (c :: cs)) with (chunk c ++ chunks cs) in Hz. rewrite zlen_app in Hz.
  set (enc := handle_bytes _). set (head := enc ++ drop (length enc) zeros).
  assert (Hh : zlen head = 20).
  { subst head. rewrite zlen_app. pose proof (handle_bytes_size (mkHandle (zlen f + 20) (zlen (ck_contents c)))). fold enc in H0. unfold zlen in *. rewrite length_drop.
    change (length zeros) with 20%nat. lia. }
  pose proof (zlen_nonneg f). pose proof (zlen_nonneg (chunks cs)). pose proof (zlen_nonneg (ck_contents c)). pose proof (zlen_nonneg (ck_pad c)).
  pose proof (zlen_chunk c). constructor.
  - split; [apply Hc|]. exists (ck_contents c). split; [|apply Hc]. unfold BlockAt. cbn [offset_ size_ bk_h]. unfold set64, unset64, kBlockTrailerSize.
    split; [lia|]. split; [done|]. split; [lia|]. exists (f ++ head), (ck_contents c), kNoCompression, (ck_pad c ++ patched (zlen f + zlen (chunk c)) cs).
    split; [unfold body; rewrite Hsk; by rewrite <- !app_assoc|]. split; [rewrite zlen_app; lia|]. split; [done|]. split; [apply Hc|by left].
  - assert (E : zlen f + zlen (chunk c) = zlen (f ++ head ++ body c)).
    { rewrite !zlen_app, Hh. unfold chunk. rewrite zlen_app, zlen_zeros. lia. }
    rewrite E. replace (f ++ head ++ body c ++ patched _ cs) with ((f ++ head ++ body c) ++ patched (zlen (f ++ head ++ body c)) cs) by by rewrite <- !app_assoc.
    apply IH. rewrite <- E. lia.
Qed.

(** ** The loop of a commit *)

Lemma overwrite_chunk pre enc c rest :
  zlen enc <= 20 ->
  SeqDirBuilder.overwrite (zlen pre) enc (pre ++ chunk c ++ rest) = (pre ++ (enc ++ drop (length enc) zeros) ++ body c) ++ rest.
Proof.
  intros He. unfold SeqDirBuilder.overwrite, chunk. rewrite take_app_length' by (unfold zlen; lia).
  replace (Z.to_nat (zlen pre) + length enc)%nat with (length pre + length enc)%nat by (unfold zlen; lia).
  rewrite drop_app_add. rewrite <- (app_assoc zeros), drop_app_le by (change (length zeros) with 20%nat; unfold zlen in He; lia).
  by rewrite <- !app_assoc.
Qed.

Lemma commit_loop_spec cs fuel base pre indx es n :
  (length cs <= fuel)%nat -> IndexBlk indx es -> sorted (es ++ index_entries (placed (base + zlen pre) cs)) ->
  weight (es ++ index_entries (placed (base + zlen pre) cs)) + 28 < 2 ^ 31 ->
  Forall (fun c => zlen (ck_sep c) < 2 ^ 32) cs -> 0 <= base -> base + zlen pre + zlen (chunks cs) < 2 ^ 63 ->
  (block_padding o = true -> 0 < block_size o /\ (block_size o | base + zlen pre) /\ Forall (fun c => (block_size o | zlen (chunk c))) cs) ->
  exists indx', SeqDirBuilder.commit_loop fuel o base (indexes (placed (zlen pre) cs)) (pre ++ chunks cs) indx n
      = Some (pre ++ patched (base + zlen pre) cs, indx', n + zlen cs)
    /\ IndexBlk indx' (es ++ index_entries (placed (base + zlen pre) cs)).
Proof.
  revert fuel pre indx es n. induction cs as [|c cs IH]; intros fuel pre indx es n Hf HI Hso Hw Hsep Hb Hz Hal.
  { exists indx. cbn. rewrite !app_nil_r, Z.add_0_r. split; [|done]. by destruct fuel. }
  destruct fuel as [|fuel]; [cbn in Hf; lia|]. cbn [placed patched] in *. set (h := mkHandle (zlen pre + 20) (zlen (ck_contents c))).
  change (chunks (c :: cs)) with (chunk c ++ chunks cs) in *. rewrite zlen_app in Hz. apply Forall_cons in Hsep as [Hs Hsep].
  set (h' := mkHandle (base + zlen pre + 20) (zlen (ck_contents c))) in *.
  set (bs := placed (zlen pre + zlen (chunk c)) cs). set (bs' := placed (base + zlen pre + zlen (chunk c)) cs) in *.
  pose proof (zlen_nonneg pre). pose proof (zlen_nonneg (chunks cs)). pose proof (zlen_nonneg (ck_contents c)). pose proof (zlen_nonneg (ck_pad c)).
  pose proof (zlen_chunk c) as Hzc.
  assert (Hwf : handle_wf h) by (split; cbn; unfold set64, unset64; lia).
  assert (Hwf' : handle_wf h') by (split; cbn; unfold set64, unset64; lia).
  assert (Ein : indexes (mkBlk (ck_sep c) h (ck_es c) :: bs) = PutLengthPrefixedSlice (ck_sep c) ++ handle_bytes h ++ indexes bs).
  { unfold indexes. cbn. unfold index_bytes at 1. cbn. by rewrite <- app_assoc. }
  assert (Hne : exists x y, indexes (mkBlk (ck_sep c) h (ck_es c) :: bs) = x :: y).
  { rewrite Ein. unfold PutLengthPrefixedSlice. assert (EncodeVarint32 (u32 (zlen (ck_sep c))) <> []) as Hv.
    { pose proof (GetVarint32_encode (u32 (zlen (ck_sep c))) [] (u32_range _)) as E. intros Hn. rewrite Hn in E. done. }
    destruct (EncodeVarint32 _) as [|x y]; [done|]. by do 2 eexists. }
  cbn [SeqDirBuilder.commit_loop]. destruct Hne as (x & y & Hne). rewrite Hne. rewrite <- Hne, Ein. clear Hne x y Ein.
  rewrite GetLengthPrefixedSlice_put by (split; [apply zlen_nonneg|done]). rewrite handle_decode by done. cbn [offset_ size_ h].
  rewrite u64_small by (unfold in_width; lia). replace (base + (zlen pre + 20)) with (base + zlen pre + 20) by lia. fold h'.
  rewrite handle_EncodeTo by done. unfold BlockHandle.kMaxEncodedLength. replace (zlen pre + 20 - 20) with (zlen pre) by lia.
  replace (base + zlen pre + 20 - 20) with (base + zlen pre) by lia. rewrite (u64_small (base + zlen pre)) by (unfold in_width; lia).
  destruct (Z.ltb_spec (zlen pre + 20) 20); [lia|]. cbn [orb].
  assert (Hzero : take (Z.to_nat 20) (drop (Z.to_nat (zlen pre)) (pre ++ chunk c ++ chunks cs)) = replicate (Z.to_nat 20) 0).
  { rewrite drop_app_length' by (unfold zlen; lia). unfold chunk. by rewrite <- app_assoc, take_app_length'. }
  rewrite Hzero. unfold seq at 1. rewrite bool_decide_eq_true_2 by done. cbn [negb orb].
  assert (Hpad : block_padding o && negb ((base + zlen pre) mod block_size o =? 0) = false).
  { destruct (block_padding o); [|done]. destruct (Hal eq_refl) as (Hp & Hd & _). cbn. by rewrite (proj2 (Z.mod_divide (base + zlen pre) (block_size o) ltac:(lia)) Hd). }
  rewrite Hpad. cbn iota. change (index_entries (_ :: bs')) with ((ck_sep c, handle_bytes h') :: index_entries bs') in *.
  rewrite weight_app in Hw. cbn [weight] in Hw. pose proof (weight_nonneg es). pose proof (weight_nonneg (index_entries bs')).
  destruct (IndexBlk_Add indx es (ck_sep c) (handle_bytes h') HI) as (indx1 & -> & HI1).
  { destruct (decide (es = [])) as [->|Hne]; [by left|right]. destruct (last_of_elem _ Hne) as [v Hv].
    apply StronglySorted_app in Hso as (Hcross & _ & _). apply (Hcross _ (ck_sep c, handle_bytes h') Hv). by left. }
  { lia. }
  rewrite overwrite_chunk by apply handle_bytes_size. set (pre1 := pre ++ _ ++ body c).
  assert (Hpre1 : zlen pre1 = zlen pre + zlen (chunk c)).
  { subst pre1. rewrite !zlen_app. unfold chunk. rewrite zlen_app, zlen_zeros. pose proof (handle_bytes_size h') as Hz'. unfold zlen in *. rewrite length_drop.
    change (length zeros) with 20%nat. lia. }
  assert (Ebs' : bs' = placed (base + zlen pre1) cs) by (subst bs'; rewrite Hpre1; f_equal; lia).
  destruct (IH fuel pre1 indx1 (es ++ [(ck_sep c, handle_bytes h')]) (n + 1)) as (indx2 & E & HI2); try done.
  - cbn in Hf. lia.
  - by rewrite <- Ebs', <- app_assoc.
  - rewrite <- Ebs', <- app_assoc, weight_app. cbn [app weight]. lia.
  - rewrite Hpre1. lia.
  - intros Hp. destruct (Hal Hp) as (Hp0 & Hd & Hall). apply Forall_cons in Hall as [Hc Hall]. split; [done|]. split; [|done].
    rewrite Hpre1, Z.add_assoc. by apply Z.divide_add_r.
  - exists indx2. rewrite <- Ebs', <- app_assoc in HI2. split; [|done]. subst bs. rewrite <- Hpre1, E, zlen_cons.
    replace (base + zlen pre + zlen (chunk c)) with (base + zlen pre1) by lia. replace (n + (1 + zlen cs)) with (n + 1 + zlen cs) by lia.
    do 3 f_equal. subst pre1. by rewrite <- !app_assoc.
Qed.

End Chunks.
