(* ===== verification/PlfsBuilderInv.v ===== *)
(** * Building indexed directories: the invariant

    [Core] relates a [SeqDirBuilder] and its logs to what has been added: finished
    epochs, the tables of the current epoch, and for the current table the blocks
    in the data log, the chunks still in the buffer, the block whose index entry
    is pending and the entries of the open block.  Writes may fail: [Out] says that
    an operation keeps the invariant when the status is still OK, and that the
    status is OK when no write fails. *)
From stdpp Require Import sorting.
From S2P Require Import Prelude Coding Status Crc32c Gigaplus Filter SstBlock SstBlockProps PlfsFormat PlfsFormatLemmas PlfsLog PlfsLogLemmas.
From S2P Require Import PlfsBuilder PlfsReader PlfsBlocks PlfsReaderLemmas PlfsChunks.

(** The options a footer records are those of the builder. *)
Record agree (o ro : DirOptions) : Prop := {
  ag_lg : lg_parts ro = lg_parts o; ag_value : value_size ro = value_size o; ag_key : key_size ro = key_size o;
  ag_fixed : fixed_kv_length ro = fixed_kv_length o; ag_ldb : leveldb_compatible ro = leveldb_compatible o;
  ag_rotation : epoch_log_rotation ro = epoch_log_rotation o; ag_skip : skip_checksums ro = skip_checksums o;
  ag_filter : filter_type ro = filter_type o; ag_mode : mode ro = mode o }.

(** The options of the builders considered here. *)
Record Config (o : DirOptions) : Prop := {
  cf_compression : compression o = kNoCompression;
  cf_block : 0 <= block_size o < 2 ^ 30;
  cf_padding : block_padding o = true -> 20 < block_size o;
  cf_buffer : 0 <= index_buffer o;
  cf_tail : tail_padding o = true -> 0 < index_buffer o;
  cf_rotation : epoch_log_rotation o = false;
  cf_lg : 0 <= lg_parts o < 2 ^ 31; cf_key : set32 (key_size o); cf_value : set32 (value_size o);
  cf_filter : 0 <= filter_code (filter_type o) < 255 }.

(** ** Finishing a block *)

Section Padding.
Context `{Snappy} (o : DirOptions).

Lemma padding_loop_spec fuel size target :
  0 < block_size o < 2 ^ 31 -> 0 <= target -> target < 2 ^ 63 -> 0 <= size < 2 ^ 62 -> size + 5 - target < Z.of_nat fuel -> (0 < fuel)%nat ->
  exists t, SeqDirBuilder.padding_loop fuel (block_size o) size target = Some t /\ size + 5 <= t /\ (block_size o | t - target)
    /\ t <= Z.max target (size + 5 + block_size o).
Proof.
  intros Hb. revert target. induction fuel as [|fuel IH]; intros target Ht Ht' Hs Hf Hf0; cbn [SeqDirBuilder.padding_loop].
  - lia.
  - unfold kBlockTrailerSize. destruct (Z.ltb_spec target (size + 5)).
    + rewrite u64_small by (unfold in_width; lia). destruct (IH (target + block_size o)) as (t & E & H1 & H2 & H3); [lia..|].
      exists t. split; [done|]. split; [done|]. split; [|lia].
      replace (t - target) with (t - (target + block_size o) + block_size o) by lia. apply Z.divide_add_r; [done|apply Z.divide_refl].
    + exists target. split; [done|]. split; [done|]. split; [rewrite Z.sub_diag; apply Z.divide_0_r|lia].
Qed.

Lemma padding_target_spec size :
  20 < block_size o < 2 ^ 30 -> 0 <= size < 2 ^ 31 ->
  exists t, SeqDirBuilder.padding_target o size = Some t /\ size + 5 <= t <= size + 5 + block_size o /\ (block_size o | t + 20).
Proof.
  intros Hb Hs. unfold SeqDirBuilder.padding_target, BlockHandle.kMaxEncodedLength, kBlockTrailerSize. rewrite u64_small by (unfold in_width; lia).
  destruct (padding_loop_spec (Z.to_nat (size + 5) + 1) size (block_size o - 20)) as (t & E & H1 & H2 & H3); [lia..|].
  exists t. split; [done|]. split; [lia|]. replace (t + 20) with (t - (block_size o - 20) + block_size o) by lia.
  apply Z.divide_add_r; [done|apply Z.divide_refl].
Qed.

Lemma Finalize_spec crc target char b :
  finished_ b = true -> compression_ b = kNoCompression -> start_ok b -> 0 <= target ->
  exists pad final b', Buffer.Finalize crc target char b = Some (final, b')
    /\ buffer_ b' = buffer_ b ++ Buffer.trailer kNoCompression crc (Buffer.contents b) ++ pad
    /\ zlen final = zlen (Buffer.contents b) + 5 + zlen pad /\ cmp_ b' = cmp_ b /\ compression_ b' = kNoCompression
    /\ (target = 0 -> pad = []) /\ (zlen (Buffer.contents b) + 5 <= target -> zlen pad = target - (zlen (Buffer.contents b) + 5)).
Proof.
  intros Hf Hc Hs Ht. unfold Buffer.Finalize. rewrite Hf, Hc. cbn [negb].
  set (tr := Buffer.trailer kNoCompression crc (Buffer.contents b)). set (b1 := Buffer.append tr b).
  assert (Htr : zlen tr = 5) by (subst tr; unfold zlen; by rewrite length_trailer).
  assert (Hz1 : zlen (buffer_ b1) = zlen (buffer_ b) + 5) by (subst b1; cbn; rewrite zlen_app; lia).
  pose proof (zlen_contents b Hs) as Hzc. change (buffer_start_ b1) with (buffer_start_ b).
  assert (Hs1 : start_ok b1) by (unfold start_ok in *; change (buffer_start_ b1) with (buffer_start_ b); lia).
  destruct (negb (target =? 0) && (zlen (buffer_ b1) <? buffer_start_ b + target)) eqn:E.
  - set (pad := replicate _ char). exists pad. do 2 eexists. split; [reflexivity|]. apply andb_true_iff in E as [E1 E2].
    apply negb_true_iff, Z.eqb_neq in E1. apply Z.ltb_lt in E2.
    assert (Hzp : zlen pad = buffer_start_ b + target - zlen (buffer_ b1)) by (subst pad; unfold zlen at 1; rewrite length_replicate; lia).
    rewrite contents_append by exact Hs1. split; [transitivity ((buffer_ b ++ tr) ++ pad); [done|by rewrite <- app_assoc]|].
    assert (Hc1 : zlen (Buffer.contents b1) = zlen (Buffer.contents b) + 5) by (rewrite zlen_contents by exact Hs1; change (buffer_start_ b1) with (buffer_start_ b); lia).
    rewrite zlen_app, Hc1. split_and!; try done; try lia.
  - exists []. do 2 eexists. split; [reflexivity|]. rewrite app_nil_r. split; [done|].
    rewrite zlen_contents by exact Hs1. change (buffer_start_ b1) with (buffer_start_ b). change (zlen []) with 0. split; [lia|]. split_and!; try done.
    intros Hle. apply andb_false_iff in E as [E|E]; [apply negb_false_iff, Z.eqb_eq in E; pose proof (zlen_nonneg (Buffer.contents b)); lia|].
    apply Z.ltb_ge in E. lia.
Qed.

End Padding.

(** ** The invariant *)

(** Finished epochs, the tables of the current one, the blocks of the current
    table in the data log, those in the buffer, the block with a pending index
    entry, and the entries of the open block. *)
Record Ghost := mkGhost {
  g_eps : Epochs; g_ts : Tables; g_bs : list DataBlk; g_us : list Chunk; g_pend : list Chunk; g_cur : list entry }.

Definition grown (f f' : bytes) : Prop := exists x, f' = f ++ x.

Lemma grown_refl f : grown f f.
Proof. exists []. by rewrite app_nil_r. Qed.

Section Inv.
Context `{Snappy} `{XXHash} (o : DirOptions) {T : Type} `{!DataBlock T} `{!DataBlockLaws o T} (d : Dir).
Context (Hcf : Config o) (Hag : agree o (d_options d)).
Local Abbreviation Builder := (SeqDirBuilder T).
Local Abbreviation unordered := (IsKeyUnOrdered (mode o)).

Lemma BlkAt_grown f f' b : grown f f' -> BlkAt d f b -> BlkAt d f' b.
Proof. intros [x ->] (Hne & c & Hb & Hg). split; [done|]. exists c. split; [by apply BlockAt_app|done]. Qed.

Lemma TableAt_grown fx fx' fd fd' th bs : grown fx fx' -> grown fd fd' -> TableAt d fx fd th bs -> TableAt d fx' fd' th bs.
Proof.
  intros [x ->] Hd [H1 H2 (c & Hc & Hok) H4 H5 H6 H7]. constructor; try done.
  - exists c. split; [by apply BlockAt_app|done].
  - eapply Forall_impl; [exact H4|]. intros b. by apply BlkAt_grown.
  - destruct H5 as [?|(fc & Hf & Hg)]; [by left|right]. exists fc. split; [by apply BlockAt_app|done].
Qed.

Lemma EpochAt_grown fx fx' fd fd' e h ts : grown fx fx' -> grown fd fd' -> EpochAt d fx fd e h ts -> EpochAt d fx' fd' e h ts.
Proof.
  intros Hx Hd [H1 H2 (c & Hc & Hok) H4]. constructor; try done.
  - exists c. destruct Hx as [x ->]. split; [by apply BlockAt_app|done].
  - eapply Forall_impl; [exact H4|]. intros t. by apply TableAt_grown.
Qed.

Definition EpochsAt (fx fd : bytes) (eps : Epochs) : Prop :=
  Forall (fun x => epoch_wf x.2.1 /\ EpochAt d fx fd x.1 (mkHandle (ep_index_offset x.2.1) (ep_index_size x.2.1)) x.2.2) eps.

Definition TablesAt (fx fd : bytes) (ts : Tables) : Prop := Forall (fun t => TableAt d fx fd t.1 t.2) ts.

Lemma EpochsAt_grown fx fx' fd fd' eps : grown fx fx' -> grown fd fd' -> EpochsAt fx fd eps -> EpochsAt fx' fd' eps.
Proof. intros Hx Hd Hall. eapply Forall_impl; [exact Hall|]. intros x [? He]. split; [done|]. by eapply EpochAt_grown. Qed.

Lemma TablesAt_grown fx fx' fd fd' ts : grown fx fx' -> grown fd fd' -> TablesAt fx fd ts -> TablesAt fx' fd' ts.
Proof. intros Hx Hd Hall. eapply Forall_impl; [exact Hall|]. intros t. by apply TableAt_grown. Qed.

Definition closed (g : Ghost) : list DataBlk := g_bs g ++ placed o 0 (g_us g).
Definition pend_es (g : Ghost) : list entry := concat (ck_es <$> g_pend g).
Definition g_table (g : Ghost) : list entry := table_entries (closed g) ++ pend_es g ++ g_cur g.

(** The buffer of the data block. *)
Definition Buf (b : Builder) (g : Ghost) : Prop :=
  if pending_restart_ b then g_cur g = [] /\ SeqDirBuilder.buffer_store b = chunks o (g_us g ++ g_pend g)
  else
    let t := data_block_ b in
    g_cur g <> [] /\ g_pend g = [] /\ db_builds t (g_cur g) /\ db_CurrentSizeEstimate t <= 8 + weight (g_cur g)
    /\ take (Z.to_nat (buffer_start_ (db_buf t))) (buffer_ (db_buf t)) = chunks o (g_us g) ++ zeros
    /\ buffer_start_ (db_buf t) = zlen (chunks o (g_us g)) + 20.

Definition Pending (b : Builder) (g : Ghost) : Prop :=
  match g_pend g with
  | [] => pending_indx_entry_ b = false
  | [c] => pending_indx_entry_ b = true /\ last_data_info_ b = mkHandle (zlen (chunks o (g_us g)) + 20) (zlen (ck_contents c))
  | _ => False
  end.

(** The separator of a block is not longer than its last key. *)
Definition SepOk (b : DataBlk) : Prop := zlen (bk_sep b) <= zlen (last_of [] (bk_es b)) /\ bytes_ok (bk_sep b).

(** The entries [tail] follow the closed blocks of the table. *)
Record Core (b : Builder) (data : LogSink) (g : Ghost) (tail : list entry) : Prop := {
  c_opt : o_ b = o; c_status : status_b b = kOk; c_open : finished_b b = false;
  c_data : Sink data /\ prev_off_ data = 0;
  c_indx : Sink (indx_sink_ b) /\ prev_off_ (indx_sink_ b) = 0;
  c_align : block_padding o = true -> (block_size o | zlen (LogSink.file data));
  c_shape : db_shape (data_block_ b) /\ compression_ (db_buf (data_block_ b)) = kNoCompression;
  c_buf : Buf b g;
  c_commit : pending_commit_ b = true -> pending_restart_ b = true /\ g_us g ++ g_pend g <> [];
  c_chunks : Forall (ChunkOk o d) (g_us g ++ g_pend g);
  c_indexes : uncommitted_indexes_ b = indexes (placed o 0 (g_us g));
  c_num : num_uncommitted_data_ b = zlen (g_us g ++ g_pend g) /\ num_uncommitted_indx_ b = zlen (g_us g);
  c_pend : Pending b g;
  c_index : IndexBlk (indx_block_ b) (index_entries (g_bs g));
  c_blks : Forall (BlkAt d (LogSink.file data)) (g_bs g);
  c_sepok : Forall SepOk (g_bs g);
  c_sorted : sorted (index_entries (closed g));
  c_seps : unordered = false -> SepsT (closed g) tail /\ sorted (table_entries (closed g) ++ tail);
  c_epok : IndexBlk (epok_block_ b) (meta_entries (num_eps_ b) (g_ts g)) /\ entries_ok (meta_entries (num_eps_ b) (g_ts g));
  c_tabls : num_tabls_ b = zlen (g_ts g);
  c_tables : TablesAt (LogSink.file (indx_sink_ b)) (LogSink.file data) (g_ts g);
  c_root : IndexBlk (root_block_ b) (root_entries (g_eps g)) /\ entries_ok (root_entries (g_eps g));
  c_epochs : EpochsAt (LogSink.file (indx_sink_ b)) (LogSink.file data) (g_eps g);
  c_inc : StronglySorted (fun a b => a.1 < b.1) (g_eps g) /\ Forall (fun x => x.1 < num_eps_ b) (g_eps g);
  c_eps : 0 <= num_eps_ b <= kMaxEpochNo + 1 }.

(** An operation that may write. *)
Definition Out (b : Builder) (data : LogSink) (b' : Builder) (data' : LogSink) (P : Prop) : Prop :=
  Grows data data' /\ finished_b b' = false /\ o_ b' = o
  /\ (quiet data -> quiet (indx_sink_ b) -> quiet data' /\ quiet (indx_sink_ b') /\ status_b b' = kOk)
  /\ (status_b b' = kOk -> P).

Lemma Out_done b data g tail (P : Prop) : Core b data g tail -> P -> Out b data b data P.
Proof. intros HC HP. split; [reflexivity|]. split; [apply HC|]. split; [apply HC|]. split; [intros; split_and!; try done; apply HC|done]. Qed.

Lemma Out_trans b data b1 d1 b2 d2 (P Q : Prop) :
  Out b data b1 d1 P -> (P -> status_b b1 = kOk -> Out b1 d1 b2 d2 Q) -> (status_b b1 <> kOk -> b2 = b1 /\ d2 = d1) -> Out b data b2 d2 Q.
Proof.
  intros (H1 & H2 & H3 & H4 & H5) Hok Herr. destruct (decide (status_b b1 = kOk)) as [E|E].
  - destruct (Hok (H5 E) E) as (G1 & G2 & G3 & G4 & G5). split; [by etrans|]. split; [done|]. split; [done|]. split; [|done].
    intros Hq1 Hq2. destruct (H4 Hq1 Hq2) as (Q1 & Q2 & _). by apply G4.
  - destruct (Herr E) as [-> ->]. done.
Qed.

(** What the operations on blocks leave alone. *)
Record frame (b b' : Builder) : Prop := {
  f_last : last_key_b b' = last_key_b b; f_small : smallest_key_ b' = smallest_key_ b; f_large : largest_key_ b' = largest_key_ b;
  f_keys : keys_ b' = keys_ b; f_entries : num_entries_ b' = num_entries_ b; f_eps : num_eps_ b' = num_eps_ b }.

Lemma frame_trans a b c : frame a b -> frame b c -> frame a c.
Proof. intros [] []. constructor; congruence. Qed.

(** The bytes the data of the builder takes in the data log, at most. *)
Definition room (g : Ghost) : Z :=
  match g_cur g with
  | [] => zlen (chunks o (g_us g ++ g_pend g))
  | _ :: _ => zlen (chunks o (g_us g)) + 33 + block_size o + weight (g_cur g)
  end.

Lemma BlockGood_agree c es : BlockGood o c es -> BlockGood (d_options d) c es.
Proof.
  intros (Hl & it & E & Ha & Hi). split; [done|]. exists it. unfold OpenDirBlock, ArrayBlock.NewIterator in *.
  rewrite (ag_fixed _ _ Hag), (ag_ldb _ _ Hag), (ag_mode _ _ Hag). done.
Qed.

Lemma zlen_pos {A} (l : list A) : l <> [] -> 0 < zlen l.
Proof. destruct l as [|x l]; [done|]. intros _. rewrite zlen_cons. pose proof (zlen_nonneg l). lia. Qed.

(** *** Ending a block *)

Definition end_ghost (g : Ghost) (c : Chunk) : Ghost := mkGhost (g_eps g) (g_ts g) (g_bs g) (g_us g) [c] [].

(** The data block is finished in the buffer. *)
Lemma finish_block_spec (t : T) us cur :
  db_shape t -> compression_ (db_buf t) = kNoCompression -> cur <> [] -> db_builds t cur -> entries_ok cur ->
  db_CurrentSizeEstimate t <= 8 + weight cur -> weight cur + 8 < 2 ^ 31 ->
  take (Z.to_nat (buffer_start_ (db_buf t))) (buffer_ (db_buf t)) = chunks o us ++ zeros ->
  buffer_start_ (db_buf t) = zlen (chunks o us) + 20 ->
  exists contents t' pad final buf',
    db_Finish (compression o) (force_compression o) t = Some (contents, t')
    /\ (if block_padding o then let? target := SeqDirBuilder.padding_target o (zlen contents) in
          Buffer.Finalize (negb (skip_checksums o)) (u32 target) 0xff (db_buf t')
        else Buffer.Finalize (negb (skip_checksums o)) 0 0 (db_buf t')) = Some (final, buf')
    /\ db_shape (db_set_buf buf' t') /\ db_buf (db_set_buf buf' t') = buf' /\ compression_ buf' = kNoCompression
    /\ buffer_ buf' = chunks o (us ++ [mkChunk [] contents pad cur])
    /\ zlen (buffer_ buf') - zlen final = zlen (chunks o us) + 20
    /\ ChunkOk o d (mkChunk [] contents pad cur)
    /\ zlen (chunks o (us ++ [mkChunk [] contents pad cur])) <= zlen (chunks o us) + 33 + block_size o + weight cur.
Proof.
  intros Hsh Hcomp Hne HB Hes Hest Hw Htake Hstart.
  destruct (law_finish t cur (force_compression o) Hsh HB Hne Hes ltac:(lia))
    as (contents & t' & E & Hsh' & Hgood & Hbytes & Hcon & Hfin & Hst & (Hs1 & Hcmp & Hc1 & Ht1) & Hz).
  assert (Hbuf : buffer_ (db_buf t') = (chunks o us ++ zeros) ++ contents).
  { rewrite <- (take_drop (Z.to_nat (buffer_start_ (db_buf t'))) (buffer_ (db_buf t'))). rewrite Hs1, Ht1, Htake. f_equal. rewrite Hcon, <- Hs1. done. }
  pose proof (cf_block _ Hcf) as Hbs. pose proof (zlen_nonneg contents).
  assert (Hfz : exists pad final buf', (if block_padding o then let? target := SeqDirBuilder.padding_target o (zlen contents) in
          Buffer.Finalize (negb (skip_checksums o)) (u32 target) 0xff (db_buf t')
        else Buffer.Finalize (negb (skip_checksums o)) 0 0 (db_buf t')) = Some (final, buf')
    /\ buffer_ buf' = buffer_ (db_buf t') ++ Buffer.trailer kNoCompression (negb (skip_checksums o)) contents ++ pad
    /\ zlen final = zlen contents + 5 + zlen pad /\ cmp_ buf' = cmp_ (db_buf t') /\ compression_ buf' = kNoCompression
    /\ zlen pad <= block_size o /\ (block_padding o = true -> (block_size o | 25 + zlen contents + zlen pad))).
  { destruct (block_padding o) eqn:Ep.
    - destruct (padding_target_spec o (zlen contents)) as (tg & -> & Htg & Hdiv); [pose proof (cf_padding _ Hcf Ep); lia|lia|].
      rewrite u32_small by (unfold in_width; lia).
      destruct (Finalize_spec (negb (skip_checksums o)) tg 255 (db_buf t') Hfin ltac:(congruence) Hst ltac:(lia)) as (pad & final & buf' & Ef & Hb & Hzf & Hcm & Hco & _ & Hpad).
      rewrite <- Hcon in *. exists pad, final, buf'. specialize (Hpad ltac:(lia)). split_and!; try done; [lia|]. intros _.
      replace (25 + zlen contents + zlen pad) with (tg + 20) by lia. done.
    - destruct (Finalize_spec (negb (skip_checksums o)) 0 0 (db_buf t') Hfin ltac:(congruence) Hst ltac:(lia)) as (pad & final & buf' & Ef & Hb & Hzf & Hcm & Hco & Hpad & _).
      rewrite <- Hcon in *. exists pad, final, buf'. rewrite (Hpad eq_refl). rewrite (Hpad eq_refl) in Hb, Hzf. split_and!; try done. change (zlen []) with 0. lia. }
  destruct Hfz as (pad & final & buf' & Ef & Hb & Hzf & Hcm & Hco & Hpz & Hal).
  destruct (law_set_buf buf' t' Hsh' Hcm) as [Hsh2 Hbuf2]. exists contents, t', pad, final, buf'. rewrite (cf_compression _ Hcf).
  set (c := mkChunk [] contents pad cur). pose proof (zlen_chunk o c) as Hzc. cbn [ck_contents ck_pad c] in Hzc.
  assert (Hb' : buffer_ buf' = chunks o (us ++ [c])).
  { rewrite Hb, Hbuf, chunks_app, chunks_one. unfold chunk, body. cbn [ck_contents ck_pad c]. by rewrite <- !app_assoc. }
  assert (Hzb : zlen (buffer_ buf') = zlen (chunks o us) + zlen (chunk o c)) by by rewrite Hb', chunks_app, chunks_one, zlen_app.
  split; [done|]. split; [done|]. split; [done|]. split; [done|]. split; [done|]. split; [done|]. split; [lia|]. split.
  - constructor; cbn; [done|by apply BlockGood_agree|done|split; [apply zlen_nonneg|constructor]|]. intros Hp. fold c. rewrite Hzc.
    replace (20 + zlen contents + 5 + zlen pad) with (25 + zlen contents + zlen pad) by lia. by apply Hal.
  - rewrite <- Hb'. lia.
Qed.

Lemma EndBlock_spec b data g tail :
  Core b data g tail -> entries_ok (g_cur g) -> weight (g_cur g) + 8 < 2 ^ 31 -> zlen (g_us g) + 1 < 2 ^ 32 ->
  exists b', SeqDirBuilder.EndBlock b = Some b' /\ frame b b' /\ pending_restart_ b' = true /\ indx_sink_ b' = indx_sink_ b
    /\ (g_cur g = [] -> b' = b)
    /\ (g_cur g <> [] -> exists c, ck_es c = g_cur g /\ g_pend g = [] /\ Core b' data (end_ghost g c) tail /\ room (end_ghost g c) <= room g).
Proof.
  intros HC Hes Hw Hn. unfold SeqDirBuilder.EndBlock. rewrite (c_open _ _ _ _ HC). pose proof (c_buf _ _ _ _ HC) as HB. unfold Buf in HB.
  destruct (pending_restart_ b) eqn:Er.
  { destruct HB as [Hc _]. exists b. split; [done|]. split; [by constructor|]. split; [done|]. split; [done|]. split; [done|]. intros Hne. by destruct Hne. }
  destruct HB as (Hne & Hpend & HB & Hest & Htake & Hstart). destruct (law_open _ _ HB) as (_ & _ & Hemp & _). rewrite (Hemp Hne).
  unfold SeqDirBuilder.okb. rewrite (c_status _ _ _ _ HC). change (ok kOk) with true. cbn [negb]. rewrite (c_opt _ _ _ _ HC).
  destruct (c_shape _ _ _ _ HC) as [Hsh Hcomp].
  destruct (finish_block_spec (data_block_ b) (g_us g) (g_cur g) Hsh Hcomp Hne HB Hes Hest Hw Htake Hstart)
    as (contents & t' & pad & final & buf' & -> & -> & Hsh' & Hbuf' & Hcomp' & Hbf & Hoff & Hco & Hroom).
  set (c := mkChunk [] contents pad (g_cur g)) in *. pose proof (c_pend _ _ _ _ HC) as HP. unfold Pending in HP. rewrite Hpend in HP. rewrite HP.
  rewrite Hoff. eexists. split; [reflexivity|]. split; [by constructor|]. split; [done|]. split; [done|]. split; [by intros|]. intros _.
  exists c. split; [done|]. split; [done|]. destruct HC. rewrite Hpend, app_nil_r in *. split.
  - constructor; cbn; try done.
    + by rewrite Hbuf'.
    + unfold Buf. cbn. split; [done|]. unfold SeqDirBuilder.buffer_store. cbn. by rewrite Hbuf'.
    + intros Hcm. split; [done|]. intros E%(f_equal length). rewrite length_app in E. cbn in E. lia.
    + apply Forall_app. split; [done|by constructor].
    + destruct c_num0 as [-> ->]. rewrite zlen_app. change (zlen [c]) with 1. rewrite u32_small; [done|]. pose proof (zlen_nonneg (g_us g)). unfold in_width. lia.
  - unfold room. cbn [end_ghost g_cur g_us g_pend]. destruct (g_cur g); [done|]. exact Hroom.
Qed.

(** *** The index entry of a block *)

Definition set_sep (sep : bytes) (c : Chunk) : Chunk := mkChunk sep (ck_contents c) (ck_pad c) (ck_es c).

Definition sep_ghost (g : Ghost) (c : Chunk) : Ghost := mkGhost (g_eps g) (g_ts g) (g_bs g) (g_us g ++ [c]) [] (g_cur g).

Lemma closed_sep g c : closed (sep_ghost g c) = closed g ++ placed o (zlen (chunks o (g_us g))) [c].
Proof. unfold closed. cbn. by rewrite placed_app, app_assoc, Z.add_0_l. Qed.

Lemma add_index_spec b data g tail tail' c sep :
  Core b data g tail -> g_pend g = [c] -> g_cur g = [] -> zlen (chunks o (g_us g)) + zlen (ck_contents c) < 2 ^ 63 -> zlen (g_us g) + 1 < 2 ^ 32 ->
  zlen sep <= zlen (last_of [] (ck_es c)) -> bytes_ok sep ->
  let g' := sep_ghost g (set_sep sep c) in
  sorted (index_entries (closed g')) -> (unordered = false -> SepsT (closed g') tail' /\ sorted (table_entries (closed g') ++ tail')) ->
  exists b', SeqDirBuilder.add_index_entry sep b = Some b' /\ frame b b' /\ indx_sink_ b' = indx_sink_ b /\ Core b' data g' tail'
    /\ pending_restart_ b' = pending_restart_ b /\ pending_commit_ b' = pending_commit_ b /\ room g' = room g.
Proof.
  intros HC Hp Hcur Hz Hn Hsl Hsb g' Hso Hseps. unfold SeqDirBuilder.add_index_entry. pose proof (c_pend _ _ _ _ HC) as HP. unfold Pending in HP. rewrite Hp in HP.
  destruct HP as [HP1 HP2]. rewrite HP2. pose proof (zlen_nonneg (chunks o (g_us g))). pose proof (zlen_nonneg (ck_contents c)).
  rewrite handle_EncodeTo by (split; cbn; unfold set64, unset64; lia). eexists. split; [reflexivity|]. split; [by constructor|]. split; [done|].
  assert (Hchunks : chunks o (g_us g') = chunks o (g_us g ++ [c])) by (subst g'; cbn [sep_ghost g_us]; by rewrite !chunks_app, !chunks_one).
  assert (Hall : ChunkOk o d c -> ChunkOk o d (set_sep sep c)) by by intros [].
  split; [|split; [done|]; split; [done|]; unfold room; cbn [g_cur sep_ghost g']; rewrite Hcur, Hp; cbn; rewrite app_nil_r, <- Hchunks; done].
  destruct HC. rewrite Hp in *. constructor; try done.
  - unfold Buf in *. cbn [pending_restart_ set_num_uncommitted_indx_ set_pending_indx_entry_ set_uncommitted_indexes_]. destruct (pending_restart_ b).
    + destruct c_buf0 as [_ Hb]. split; [done|]. cbn [sep_ghost g_us g_pend g']. rewrite app_nil_r. rewrite Hp in Hb. etrans; [exact Hb|exact (eq_sym Hchunks)].
    + destruct c_buf0 as (? & _). done.
  - intros Hcm. destruct (c_commit0 Hcm) as [? _]. split; [done|]. subst g'. cbn. rewrite app_nil_r. by destruct (g_us g).
  - subst g'. cbn. rewrite app_nil_r. apply Forall_app in c_chunks0 as [? [? _]%Forall_cons]. apply Forall_app. split; [done|]. apply Forall_singleton. by apply Hall.
  - subst g'. cbn [set_num_uncommitted_indx_ set_pending_indx_entry_ set_uncommitted_indexes_ uncommitted_indexes_ sep_ghost g_us]. rewrite c_indexes0, placed_app. unfold indexes. rewrite fmap_app, concat_app. cbn. by rewrite app_nil_r.
  - destruct c_num0 as [Hn1 Hn2]. subst g'. cbn. rewrite app_nil_r. split; [rewrite Hn1, !zlen_app; done|]. rewrite Hn2, zlen_app. change (zlen [set_sep sep c]) with 1.
    apply u32_small. pose proof (zlen_nonneg (g_us g)). unfold in_width. lia.
Qed.

(** *** Committing the buffer *)

Lemma weight_key k v es : (k, v) ∈ es -> zlen k + zlen v + 19 <= weight es.
Proof.
  induction es as [|[k' v'] es IH]; intros Hin; [by apply elem_of_nil in Hin|]. cbn [weight]. pose proof (zlen_nonneg k'). pose proof (zlen_nonneg v').
  pose proof (weight_nonneg es). apply elem_of_cons in Hin as [[= -> ->]|Hin]; [lia|]. specialize (IH Hin). lia.
Qed.

Lemma sorted_same l l' : Forall2 same_blk l l' -> sorted (index_entries l) -> sorted (index_entries l').
Proof.
  unfold sorted, index_entries. induction 1 as [|a b l l' [E1 E2] Hl IH]; [done|]. cbn. intros [Hs Ha]%StronglySorted_inv. constructor; [by apply IH|].
  clear IH Hs. induction Hl as [|x y l l' [E3 E4] Hl IH]; [constructor|]. apply Forall_cons in Ha as [Hx Ha]. cbn in *. constructor; [cbn; congruence|by apply IH].
Qed.

Lemma weight_same l l' :
  Forall2 same_blk l l' -> Forall (fun b => zlen (handle_bytes (bk_h b)) <= 20) l' -> weight (index_entries l') <= weight (index_entries l) + 20 * zlen l.
Proof.
  induction 1 as [|a b l l' [E1 E2] Hl IH]; intros Hall; [done|]. apply Forall_cons in Hall as [Hb Hall]. specialize (IH Hall).
  change (index_entries (?x :: ?y)) with ((bk_sep x, handle_bytes (bk_h x)) :: index_entries y). cbn [weight]. rewrite zlen_cons, E1. pose proof (zlen_nonneg (handle_bytes (bk_h a))). lia.
Qed.

Definition commit_ghost (g : Ghost) (base : Z) : Ghost :=
  mkGhost (g_eps g) (g_ts g) (g_bs g ++ placed o base (g_us g)) [] (g_pend g) (g_cur g).

Lemma chunks_nil us : chunks o us = [] -> us = [].
Proof.
  destruct us as [|c us]; [done|]. change (chunks o (c :: us)) with (chunk o c ++ chunks o us). intros E%(f_equal length).
  rewrite length_app in E. pose proof (zlen_chunk o c). pose proof (zlen_nonneg (ck_contents c)). pose proof (zlen_nonneg (ck_pad c)). unfold zlen in *. cbn in E. lia.
Qed.

Lemma closed_commit g base : Forall2 same_blk (closed g) (closed (commit_ghost g base)).
Proof. unfold closed. cbn. rewrite app_nil_r. apply Forall2_app; [apply same_blk_refl|apply placed_same]. Qed.

Lemma length_placed start us : zlen (placed o start us) = zlen us.
Proof. revert start. induction us as [|c us IH]; intros; [done|]. cbn [placed]. by rewrite !zlen_cons, IH. Qed.

Lemma indexes_length us start : (length us <= length (indexes (placed o start us)))%nat.
Proof.
  revert start. induction us as [|c us IH]; intros start; [done|]. cbn [placed length]. change (indexes (?x :: ?y)) with (index_bytes x ++ indexes y).
  rewrite length_app. specialize (IH (start + zlen (chunk o c))). assert (0 < length (index_bytes (mkBlk (ck_sep c) (mkHandle (start + 20) (zlen (ck_contents c))) (ck_es c))))%nat; [|lia].
  unfold index_bytes, PutLengthPrefixedSlice. cbn. rewrite !length_app.
  assert (EncodeVarint32 (u32 (zlen (ck_sep c))) <> []) as Hv.
  { pose proof (GetVarint32_encode (u32 (zlen (ck_sep c))) [] (u32_range _)) as E. intros Hn. rewrite Hn in E. done. }
  destruct (EncodeVarint32 _); [done|cbn; lia].
Qed.

Lemma Chunk_SepOk start us : Forall (ChunkOk o d) us -> Forall SepOk (placed o start us).
Proof. intros Hall. revert start. induction Hall as [|c us Hc Hall IH]; intros start; constructor; [by destruct Hc|apply IH]. Qed.

Lemma builder_Commit_spec b data g tail :
  Core b data g tail -> g_pend g = [] -> g_cur g = [] ->
  weight (index_entries (closed (commit_ghost g (zlen (LogSink.file data))))) + 28 < 2 ^ 31 ->
  zlen (LogSink.file data) + zlen (chunks o (g_us g)) < 2 ^ 63 ->
  exists b' data', SeqDirBuilder.Commit b data = Some (b', data') /\ Out b data b' data'
    (Core b' data' (commit_ghost g (zlen (LogSink.file data))) tail /\ frame b b' /\ indx_sink_ b' = indx_sink_ b /\ pending_commit_ b' = false
     /\ pending_restart_ b' = true /\ off_ data' = off_ data + zlen (chunks o (g_us g))).
Proof.
  intros HC Hp Hcur Hw Hz. unfold SeqDirBuilder.Commit. rewrite (c_open _ _ _ _ HC). pose proof (c_buf _ _ _ _ HC) as HB. unfold Buf in HB.
  destruct (pending_restart_ b) eqn:Er; [|by destruct HB]. destruct HB as [_ HB]. rewrite Hp, app_nil_r in HB. rewrite HB.
  unfold SeqDirBuilder.okb. rewrite (c_status _ _ _ _ HC). change (ok kOk) with true. cbn [negb]. unfold seq at 1.
  case_bool_decide as En.
  { apply chunks_nil in En. exists b, data. split; [done|]. eapply Out_done; [exact HC|]. rewrite En. cbn. rewrite Z.add_0_r.
    assert (Eg : commit_ghost g (zlen (LogSink.file data)) = g) by (destruct g; cbn in *; subst; unfold commit_ghost; cbn; by rewrite app_nil_r).
    rewrite Eg. split_and!; try done. destruct (pending_commit_ b) eqn:Ec; [|done]. destruct (c_commit _ _ _ _ HC Ec) as [_ Hne]. by rewrite En, Hp in Hne. }
  destruct (c_num _ _ _ _ HC) as [-> ->]. rewrite Hp, app_nil_r, Z.eqb_refl. cbn [negb]. rewrite (c_opt _ _ _ _ HC).
  pose proof (c_chunks _ _ _ _ HC) as Hch. rewrite Hp, app_nil_r in Hch.
  assert (Hdiv : block_padding o = true -> 0 < block_size o /\ Forall (fun c => (block_size o | zlen (chunk o c))) (g_us g)).
  { intros Hpad. pose proof (cf_padding _ Hcf Hpad). split; [lia|]. eapply Forall_impl; [exact Hch|]. intros c Hc. by apply Hc. }
  assert (Hdivs : block_padding o = true -> (block_size o | zlen (chunks o (g_us g)))).
  { intros Hpad. destruct (Hdiv Hpad) as [_ Hall]. clear -Hall. induction Hall as [|c us Hc Hall IH]; [apply Z.divide_0_r|].
    change (chunks o (c :: us)) with (chunk o c ++ chunks o us). rewrite zlen_app. by apply Z.divide_add_r. }
  assert (Hpadz : block_padding o && negb (zlen (chunks o (g_us g)) mod block_size o =? 0) = false).
  { destruct (block_padding o) eqn:Epad; [|done]. destruct (Hdiv eq_refl) as [Hpos _]. cbn.
    by rewrite (proj2 (Z.mod_divide (zlen (chunks o (g_us g))) (block_size o) ltac:(lia)) (Hdivs eq_refl)). }
  rewrite Hpadz. destruct (c_data _ _ _ _ HC) as [HS Hprev]. pose proof (sk_off _ HS) as Hoff. rewrite Hprev, Z.add_0_l in Hoff.
  unfold LogSink.Ptell. pose proof (zlen_nonneg (LogSink.file data)). rewrite Hprev, Hoff, Z.sub_0_r. destruct (Z.leb_spec 0 (zlen (LogSink.file data))); [|lia].
  set (base := zlen (LogSink.file data)) in *. rewrite (c_indexes _ _ _ _ HC).
  pose proof (sorted_same _ _ (closed_commit g base) (c_sorted _ _ _ _ HC)) as Hso. unfold closed in Hso, Hw. cbn [commit_ghost g_bs g_us placed] in Hso, Hw. rewrite app_nil_r in Hso, Hw.
  assert (Happ : forall a b, index_entries (a ++ b) = index_entries a ++ index_entries b) by (intros; unfold index_entries; apply fmap_app).
  destruct (commit_loop_spec o (g_us g) (length (indexes (placed o 0 (g_us g)))) base [] (indx_block_ b) (index_entries (g_bs g)) 0) as (indx' & E & HI).
  { apply indexes_length. }
  { apply HC. }
  { cbn [zlen length]. rewrite Z.add_0_r, <- Happ. exact Hso. }
  { cbn [zlen length]. rewrite Z.add_0_r, <- Happ. exact Hw. }
  { clear -Hw Happ. rewrite Happ, weight_app in Hw. pose proof (weight_nonneg (index_entries (g_bs g))). revert Hw. generalize base. induction (g_us g) as [|c us IH]; intros st Hw; [constructor|].
    cbn [placed] in Hw. change (index_entries (?x :: ?y)) with ((bk_sep x, handle_bytes (bk_h x)) :: index_entries y) in Hw. cbn [weight bk_sep] in Hw.
    pose proof (zlen_nonneg (ck_sep c)). pose proof (weight_nonneg (index_entries (placed o (st + zlen (chunk o c)) us))).
    pose proof (zlen_nonneg (handle_bytes (bk_h (mkBlk (ck_sep c) (mkHandle (st + 20) (zlen (ck_contents c))) (ck_es c))))).
    constructor; [lia|]. apply (IH (st + zlen (chunk o c))). lia. }
  { done. }
  { change (zlen []) with 0. lia. }
  { intros Hpad. destruct (Hdiv Hpad). split; [done|]. split; [|done]. change (zlen []) with 0. rewrite Z.add_0_r. by apply HC. }
  change (zlen []) with 0 in E. cbn [app] in E. rewrite E, Z.add_0_l, Z.eqb_refl. cbn [negb]. rewrite Z.add_0_r in *. clear E.
  destruct (Lwrite_spec (patched o base (g_us g)) data) as (st & data' & -> & Hg & Hq & Hwr). cbn [status_b set_status_b set_indx_block_ set_data_offset_].
  pose proof (length_patched o base (g_us g)) as Hzp.
  destruct (ok st) eqn:Est; cbn [negb].
  2: { apply ok_false in Est. do 2 eexists. split; [reflexivity|]. split; [done|]. split; [apply HC|]. split; [apply HC|]. cbn. split; [|done].
       intros Hq1 _. destruct (Hq Hq1) as [_ Hst]. by rewrite (Hst (sk_open _ HS)) in Est. }
  apply ok_true in Est as ->. destruct (Hwr eq_refl HS ltac:(lia)) as [HS' Hf'].
  assert (Hoff' : off_ data' = off_ data + zlen (chunks o (g_us g))).
  { rewrite (sk_off _ HS'), (sk_off _ HS), Hf', zlen_app, (gr_prev _ _ Hg), Hzp. lia. }
  do 2 eexists. split; [reflexivity|]. split; [done|]. split; [apply HC|]. split; [apply HC|].
  split; [intros Hq1 Hq2; destruct (Hq Hq1); split_and!; done|]. intros _. split; [|split; [by constructor|]; split_and!; try done; lia].
  assert (Hgr : grown (LogSink.file data) (LogSink.file data')) by by eexists.
  destruct HC. constructor; try done.
  - split; [done|]. by rewrite (gr_prev _ _ Hg).
  - intros Hpad. rewrite Hf', zlen_app, Hzp. apply Z.divide_add_r; [by apply c_align0|by apply Hdivs].
  - destruct c_shape0 as [Hsh Hco]. cbn. unfold SeqDirBuilder.update_buf.
    destruct (law_set_buf (Buffer.set_buffer (patched o base (g_us g)) (db_buf (data_block_ b))) (data_block_ b) Hsh eq_refl) as [Hsh1 Hb1].
    destruct (law_set_buf (Buffer.clear (db_buf (db_set_buf (Buffer.set_buffer (patched o base (g_us g)) (db_buf (data_block_ b))) (data_block_ b)))) _ Hsh1 eq_refl) as [Hsh2 Hb2].
    split; [done|]. rewrite Hb2. cbn. rewrite Hb1. done.
  - unfold Buf. cbn. split; [done|]. rewrite Hp. unfold SeqDirBuilder.buffer_store, SeqDirBuilder.update_buf. cbn. destruct c_shape0 as [Hsh Hco].
    destruct (law_set_buf (Buffer.set_buffer (patched o base (g_us g)) (db_buf (data_block_ b))) (data_block_ b) Hsh eq_refl) as [Hsh1 Hb1].
    destruct (law_set_buf (Buffer.clear (db_buf (db_set_buf (Buffer.set_buffer (patched o base (g_us g)) (db_buf (data_block_ b))) (data_block_ b)))) _ Hsh1 eq_refl) as [Hsh2 Hb2].
    rewrite Hb2. done.
  - cbn. by rewrite Hp.
  - cbn. by rewrite Hp.
  - unfold Pending in *. cbn. by rewrite Hp in *.
  - cbn. by rewrite Happ.
  - cbn. apply Forall_app. split; [eapply Forall_impl; [exact c_blks0|]; intros x; by apply BlkAt_grown|]. rewrite Hf'. apply patched_BlkAt; [apply Hag|done|done].
  - cbn. apply Forall_app. split; [done|]. by apply Chunk_SepOk.
  - by apply (sorted_same _ _ (closed_commit g base)).
  - intros Hu. destruct (c_seps0 Hu) as [Hs1 Hs2]. split; [by eapply SepsT_same; [apply closed_commit|]|]. by rewrite <- (table_entries_same _ _ (closed_commit g base)).
  - by eapply TablesAt_grown; [apply grown_refl|exact Hgr|].
  - by eapply EpochsAt_grown; [apply grown_refl|exact Hgr|].
Qed.

(** *** The end of a table *)

(** The key range of the table. *)
Record Range (b : Builder) (es : list entry) : Prop := {
  r_small : exists v, (smallest_key_ b, v) ∈ es;
  r_large : exists v, (largest_key_ b, v) ∈ es;
  r_all : Forall (fun e => sle (smallest_key_ b) e.1 = true /\ sle e.1 (largest_key_ b) = true) es }.

Definition table_ghost (g : Ghost) (th : TableHandle) : Ghost := mkGhost (g_eps g) (g_ts g ++ [(th, g_bs g)]) [] [] [] [].

Definition TableDone (b b' : Builder) (data : LogSink) (g : Ghost) : Prop :=
  exists th, Core b' data (table_ghost g th) [] /\ last_key_b b' = [] /\ smallest_key_ b' = [] /\ largest_key_ b' = []
    /\ keys_ b' = keys_ b /\ num_entries_ b' = num_entries_ b /\ num_eps_ b' = num_eps_ b
    /\ pending_commit_ b' = pending_commit_ b /\ pending_restart_ b' = pending_restart_ b
    /\ zlen (table_bytes th) <= zlen (smallest_key_ b) + zlen (largest_key_ b) + 50.

Lemma meta_app e ts t : meta_entries e (ts ++ [t]) = meta_entries e ts ++ [(table_key e (zlen ts), table_bytes t.1)].
Proof. unfold meta_entries. rewrite imap_app. cbn. by rewrite Nat.add_0_r. Qed.

Lemma table_key_ok e t : 0 <= e <= kMaxEpochNo -> 0 <= t <= kMaxTableNo -> bytes_ok (table_key e t) /\ zlen (table_key e t) = 9.
Proof.
  unfold kMaxEpochNo, kMaxTableNo. intros He Ht. unfold table_key. split.
  - rewrite !bytes_ok_app. split_and!; [apply digits_ok; cbn; lia| |apply digits_ok; cbn; lia]. repeat constructor; cbn; lia.
  - rewrite !zlen_app. unfold zlen. by rewrite !length_digits.
Qed.

Lemma last_of_forall (P : bytes -> Prop) es : es <> [] -> Forall (fun e => P e.1) es -> P (last_of [] es).
Proof. intros Hne Hall. destruct (last_of_elem _ Hne) as [v Hv]. rewrite Forall_forall in Hall. apply (Hall _ Hv). Qed.

Lemma index_entries_ok bs : Forall SepOk bs -> entries_ok (index_entries bs).
Proof. intros Hall. unfold entries_ok, index_entries. apply Forall_fmap. eapply Forall_impl; [exact Hall|]. intros b [_ Hb]. cbn. split; [done|apply handle_bytes_ok]. Qed.

(** The blocks of the table are all in the log. *)
Definition all_committed (g : Ghost) : Prop := g_us g = [] /\ g_pend g = [] /\ g_cur g = [] /\ g_bs g <> [].

Lemma BlockAt_agree f h c : BlockAt o f h c -> BlockAt (d_options d) f h c.
Proof. intros Hb. unfold BlockAt in *. by rewrite (ag_skip _ _ Hag). Qed.

Lemma Grows_grown s s' : Grows s s' -> grown (LogSink.file s) (LogSink.file s').
Proof. intros Hg. exact (gr_file _ _ Hg). Qed.

Section Table.
Context (b : Builder) (data : LogSink) (g : Ghost) (HC : Core b data g []) (Hall : all_committed g).
Context (HR : Range b (table_entries (g_bs g))) (Hok : entries_ok (table_entries (g_bs g))).
Context (Hkey : Forall (fun e => e.1 <> []) (table_entries (g_bs g))).
Context (Hstrict : IsKeyUnique (mode o) = true -> unordered = false -> strict (table_entries (g_bs g))).
Context (Hep : num_eps_ b <= kMaxEpochNo) (Hnt : zlen (g_ts g) < kMaxTableNo).
Context (Hmeta : weight (meta_entries (num_eps_ b) (g_ts g)) + zlen (smallest_key_ b) + zlen (largest_key_ b) + 200 < 2 ^ 31).

Lemma new_table (fx : bytes) (ih fh : BlockHandle) c :
  BlockAt o fx ih c -> BlockOk c (index_entries (g_bs g)) ->
  (fh = mkHandle 0 0 \/ exists fc, BlockAt o fx fh fc /\ FilterGood (filter_type o) fc (table_entries (g_bs g))) ->
  let th := mkTable (smallest_key_ b) (Comparator.FindShortSuccessor (largest_key_ b)) (offset_ fh) (size_ fh) (offset_ ih) (size_ ih) in
  TableAt d fx (LogSink.file data) th (g_bs g) /\ bytes_ok (table_bytes th)
  /\ zlen (table_bytes th) <= zlen (smallest_key_ b) + zlen (largest_key_ b) + 50.
Proof.
  intros Hih Hc Hfh th. destruct Hall as (Hus & Hp & Hcur & Hne). destruct HR as [[v1 Hs] [v2 Hl] Hr].
  rewrite Forall_forall in Hkey. unfold entries_ok in Hok. rewrite Forall_forall in Hok. pose proof (Hkey _ Hs) as Hks. pose proof (Hkey _ Hl) as Hkl.
  pose proof (Hok _ Hs) as [Hbs _]. pose proof (Hok _ Hl) as [Hbl _]. cbn [fst snd] in *. pose proof (successor_size (largest_key_ b)).
  pose proof (weight_nonneg (meta_entries (num_eps_ b) (g_ts g))). pose proof (zlen_nonneg (smallest_key_ b)). pose proof (zlen_nonneg (largest_key_ b)).
  assert (Hfw : set64 (offset_ fh) /\ set64 (size_ fh)).
  { destruct Hfh as [->|(fc & Hb & _)]; [by split; cbn; unfold set64, unset64; lia|]. by destruct (BlockAt_wf _ _ _ _ Hb). }
  destruct (BlockAt_wf _ _ _ _ Hih) as [Hi1 Hi2]. split; [|split].
  - constructor; cbn; try done.
    + constructor; cbn; try by destruct Hfw. { split; [done|lia]. } { split; [by apply successor_ne|lia]. }
    + exists c. split; [|done]. apply BlockAt_agree. by destruct ih.
    + apply HC.
    + destruct Hfh as [->|(fc & Hb & Hg)]; [by left|right]. exists fc. rewrite (ag_filter _ _ Hag). split; [|done]. apply BlockAt_agree. by destruct fh.
    + eapply Forall_impl; [exact Hr|]. intros e [? He]. split; [done|]. eapply sle_trans; [exact He|apply successor_spec].
    + rewrite (ag_mode _ _ Hag). intros Hu. destruct (c_seps _ _ _ _ HC Hu) as [HS Hso]. unfold closed in *. rewrite Hus in *. cbn [placed] in *. rewrite !app_nil_r in *.
      split; [by apply SepsT_nil|]. split; [done|]. rewrite (ag_mode _ _ Hag). intros Hq. by apply Hstrict.
  - apply table_bytes_ok; cbn; [done|by apply successor_ok].
  - pose proof (table_bytes_size th) as Hz. cbn [smallest_key largest_key th] in Hz. lia.
Qed.

Lemma add_table_spec (indx : BlockBuilder) (s1 : LogSink) x (ih fh : BlockHandle) c :
  IndexBlk (BlockBuilder.Reset indx) [] -> Sink s1 -> Grows (indx_sink_ b) s1 ->
  BlockAt o (LogSink.file s1) ih c -> BlockOk c (index_entries (g_bs g)) ->
  (fh = mkHandle 0 0 \/ exists fc, BlockAt o (LogSink.file s1) fh fc /\ FilterGood (filter_type o) fc (table_entries (g_bs g))) ->
  exists b', SeqDirBuilder.add_table ih fh (set_stats_ x (set_indx_sink_ s1 (set_status_b kOk (set_indx_block_ indx b)))) = Some b'
    /\ indx_sink_ b' = s1 /\ TableDone b b' data g.
Proof.
  intros HI HS1 Hg1 Hih Hc Hfh. destruct (new_table _ _ _ _ Hih Hc Hfh) as (HT & Htb & Htz). set (th := mkTable _ _ _ _ _ _) in *.
  pose proof (c_tabls _ _ _ _ HC) as Htn. pose proof (c_eps _ _ _ _ HC) as [He0 _]. pose proof (zlen_nonneg (g_ts g)).
  unfold SeqDirBuilder.add_table. cbn [smallest_key_ largest_key_ set_largest_key_ set_indx_block_ set_stats_ set_indx_sink_ set_status_b num_eps_ num_tabls_ epok_block_ indx_block_].
  fold th. rewrite (table_EncodeTo th) by apply HT. rewrite EpochTableKey_ok by (unfold kMaxTableNo in *; lia). rewrite Htn.
  destruct (table_key_ok (num_eps_ b) (zlen (g_ts g)) ltac:(done) ltac:(lia)) as [Hkb Hkz].
  destruct (c_epok _ _ _ _ HC) as [HIe Hoke]. destruct (meta_strict (num_eps_ b) (g_ts g) ltac:(done)) as [Hms Hml]; [unfold zlen in *; lia|].
  destruct (IndexBlk_Add _ _ (table_key (num_eps_ b) (zlen (g_ts g))) (table_bytes th) HIe) as (epok & -> & HIe').
  { destruct (decide (meta_entries (num_eps_ b) (g_ts g) = [])) as [->|Hme]; [by left|right]. apply slt_weaken.
    apply (last_of_forall (fun k => slt k _ = true)); [done|]. exact Hml. }
  { lia. }
  assert (Hgr : grown (LogSink.file (indx_sink_ b)) (LogSink.file s1)) by by apply Grows_grown.
  destruct Hall as (Hus & Hp & Hcur & Hne).
  eexists. split; [reflexivity|]. split; [done|]. exists th. split; [|split_and!; done].
  destruct HC. constructor; cbn -[table_key meta_entries] in *; try done.
  - split; [done|]. rewrite (gr_prev _ _ Hg1). by destruct c_indx0.
  - unfold Buf in *. cbn. destruct (pending_restart_ b); [|by destruct c_buf0 as (? & _)]. rewrite Hus, Hp in c_buf0. by destruct c_buf0.
  - rewrite Hus, Hp in c_commit0. intros Hcm. by destruct (c_commit0 Hcm) as [_ ?].
  - by rewrite Hus in c_indexes0.
  - destruct c_num0 as [-> ->]. by rewrite Hus, Hp.
  - unfold Pending in *. cbn. by rewrite Hp in c_pend0.
  - constructor.
  - intros _. split; [done|constructor].
  - rewrite meta_app. split; [done|]. apply Forall_app. split; [done|]. apply Forall_singleton. by split.
  - rewrite zlen_app, zlen_cons. change (zlen []) with 0. unfold kMaxTableNo in *. rewrite u32_small by (unfold in_width; lia). lia.
  - apply Forall_app. split; [by eapply TablesAt_grown; [exact Hgr|apply grown_refl|]|]. by apply Forall_singleton.
  - by eapply EpochsAt_grown; [exact Hgr|apply grown_refl|].
Qed.

Lemma write_filter_spec fc ft (b1 : Builder) :
  (fc = [] \/ bytes_ok fc /\ FilterGood (filter_type o) fc (table_entries (g_bs g))) ->
  o_ b1 = o -> status_b b1 = kOk -> Sink (indx_sink_ b1) -> prev_off_ (indx_sink_ b1) = 0 ->
  off_ (indx_sink_ b1) + 2 * zlen fc + 46 < 2 ^ 63 ->
  exists fh st s2 x, SeqDirBuilder.write_filter fc ft b1 = (fh, set_stats_ x (set_indx_sink_ s2 (set_status_b st b1)))
    /\ Grows (indx_sink_ b1) s2 /\ (quiet (indx_sink_ b1) -> quiet s2 /\ st = kOk)
    /\ (st = kOk -> Sink s2 /\ off_ s2 <= off_ (indx_sink_ b1) + 2 * zlen fc + 46
          /\ (fh = mkHandle 0 0 \/ exists fc, BlockAt o (LogSink.file s2) fh fc /\ FilterGood (filter_type o) fc (table_entries (g_bs g)))).
Proof.
  intros Hfc Ho Hst HS Hp Hz. unfold SeqDirBuilder.write_filter. pose proof (zlen_nonneg fc). destruct fc as [|y fc'] eqn:Efc.
  { exists (mkHandle 0 0), kOk, (indx_sink_ b1), (stats_ b1). split; [f_equal; destruct b1; cbn in *; by subst|]. split; [reflexivity|]. split; [done|].
    intros _. split; [done|]. split; [lia|by left]. }
  rewrite <- Efc in *. destruct Hfc as [?|[Hb Hg]]; [congruence|]. rewrite Ho.
  destruct (log_Write_spec o ft fc (indx_sink_ b1)) as (st & h & s2 & -> & Hgr & Hq & Hw).
  exists h, st, s2, (if ok st then DirOutputStats.filter (size_ h + kBlockTrailerSize) (zlen fc) (stats_ b1) else stats_ b1).
  split; [unfold SeqDirBuilder.update_stats, SeqDirBuilder.okb; cbn [status_b set_indx_sink_ set_status_b]; destruct (ok st); reflexivity|].
  split; [done|]. split; [intros Hqs; destruct (Hq Hqs) as [? Hs]; split; [done|apply Hs, HS]|]. intros ->.
  destruct (Hw eq_refl HS Hp Hb ltac:(lia)) as (HS2 & Ho2 & HB). split; [done|]. split; [lia|]. right. by exists fc.
Qed.

Lemma write_table_spec fc ft :
  (fc = [] \/ bytes_ok fc /\ FilterGood (filter_type o) fc (table_entries (g_bs g))) ->
  weight (index_entries (g_bs g)) + 8 < 2 ^ 31 ->
  off_ (indx_sink_ b) + 2 * weight (index_entries (g_bs g)) + 2 * zlen fc + 108 < 2 ^ 63 ->
  exists b', SeqDirBuilder.write_table fc ft b = Some b' /\ Out b data b' data
    (TableDone b b' data g /\ off_ (indx_sink_ b') <= off_ (indx_sink_ b) + 2 * weight (index_entries (g_bs g)) + 2 * zlen fc + 108).
Proof.
  intros Hfc Hw Hz. unfold SeqDirBuilder.write_table. pose proof (zlen_nonneg fc).
  destruct (IndexBlk_Finish _ _ (c_index _ _ _ _ HC) ltac:(lia) (index_entries_ok _ (c_sepok _ _ _ _ HC))) as (c & indx & -> & Hc & Hcz & Hcb & HI).
  destruct (c_indx _ _ _ _ HC) as [HS Hp]. cbn [o_ indx_sink_ set_indx_block_]. rewrite (c_opt _ _ _ _ HC).
  destruct (log_Write_spec o kIdxChunk c (indx_sink_ b)) as (st & ih & s1 & -> & Hg1 & Hq1 & Hw1).
  unfold SeqDirBuilder.okb at 1. cbn [status_b set_status_b set_indx_sink_]. destruct (ok st) eqn:Est; cbn [negb].
  2: { apply ok_false in Est. eexists. split; [reflexivity|]. split; [reflexivity|]. split; [apply HC|]. split; [apply HC|]. cbn. split; [|done].
       intros _ Hq. destruct (Hq1 Hq) as [_ Hst]. by rewrite (Hst (sk_open _ HS)) in Est. }
  apply ok_true in Est as ->. pose proof (weight_nonneg (index_entries (g_bs g))). destruct (Hw1 eq_refl HS Hp Hcb ltac:(lia)) as (HS1 & Ho1 & HB1).
  assert (Hp1 : prev_off_ s1 = 0) by by rewrite (gr_prev _ _ Hg1).
  match goal with |- context [SeqDirBuilder.write_filter fc ft ?b1] => destruct (write_filter_spec fc ft b1 Hfc) as (fh & st & s2 & x & -> & Hg2 & Hq2 & Hw2) end;
    [apply HC|done|done|done|cbn; lia|].
  cbn [indx_sink_ set_indx_sink_ SeqDirBuilder.update_stats set_stats_] in *. unfold SeqDirBuilder.okb at 1. cbn [status_b set_stats_ set_indx_sink_ set_status_b].
  assert (Hquiet : quiet (indx_sink_ b) -> quiet s2 /\ st = kOk) by (intros Hq; apply Hq2, (Hq1 Hq)).
  destruct (ok st) eqn:Est; cbn [negb].
  2: { apply ok_false in Est. eexists. split; [reflexivity|]. split; [reflexivity|]. split; [apply HC|]. split; [apply HC|]. cbn. split; [|done].
       intros _ Hq. by destruct (Hquiet Hq) as [_ ->]. }
  apply ok_true in Est as ->. destruct (Hw2 eq_refl) as (HS2 & Ho2 & HB2).
  destruct (add_table_spec indx s2 x ih fh c HI HS2 ltac:(by etrans) ltac:(by eapply BlockAt_grows) Hc HB2) as (b' & E & Es & HD).
  exists b'. split; [exact E|]. pose proof HD as (th & HC' & _). split; [reflexivity|]. split; [apply HC'|]. split; [apply HC'|].
  split; [intros Hqd Hq; rewrite Es; split_and!; [done|by apply Hquiet|apply HC']|]. intros _. split; [done|]. rewrite Es. lia.
Qed.

End Table.

End Inv.
