(* ===== verification/PlfsBuilderSpec.v ===== *)
(** * Building indexed directories: the specification and its refinement

    [Spec] is what a directory under construction means: the entries of the
    finished epochs, of the finished tables of the current epoch and of the
    current table.  Every operation of [SeqDirBuilder] implements the operation of
    the specification, as long as the writes succeed and the sizes stay within the
    budgets: [B] bounds the logs and [E] the current epoch. *)
From stdpp Require Import sorting.
From S2P Require Import Prelude Coding Status Crc32c Gigaplus Filter SstBlock SstBlockProps PlfsFormat PlfsFormatLemmas PlfsLog PlfsLogLemmas.
From S2P Require Import PlfsBuilder PlfsReader PlfsBlocks PlfsReaderLemmas PlfsChunks PlfsBuilderInv.

(** ** The specification *)

Record Spec := mkSpec {
  s_eps : list (Z * list entry); s_epoch : list entry; s_table : list entry; s_tabs : Z; s_next : Z }.

Definition spec_New : Spec := mkSpec [] [] [] 0 0.

Section Spec.
Context (o : DirOptions).

(** Repeated keys are dropped in the mode that says so. *)
Definition spec_Add (k v : bytes) (s : Spec) : Spec :=
  if bool_decide (mode o = kDmUniqueDrop) && negb (seq (last_of [] (s_table s)) []) && seq k (last_of [] (s_table s)) then s
  else mkSpec (s_eps s) (s_epoch s) (s_table s ++ [(k, v)]) (s_tabs s) (s_next s).

Definition spec_EndTable (s : Spec) : Spec :=
  match s_table s with
  | [] => s
  | _ :: _ => mkSpec (s_eps s) (s_epoch s ++ s_table s) [] (s_tabs s + 1) (s_next s)
  end.

(** The epoch that ends is the one after the last, whatever its number. *)
Definition spec_FinishEpoch (ep : Z) (s : Spec) : Spec :=
  if ep <? s_next s then s
  else
    let s := spec_EndTable s in
    if s_tabs s =? 0 then mkSpec (s_eps s) (s_epoch s) (s_table s) (s_tabs s) (ep + 1)
    else mkSpec (s_eps s ++ [(s_next s, s_epoch s)]) [] [] 0 (ep + 1).

Definition spec_Finish (ep : Z) (s : Spec) : Spec :=
  let ep := if ep <? s_next s then s_next s else ep in
  let s := spec_EndTable s in
  if s_tabs s =? 0 then s else spec_FinishEpoch ep s.

End Spec.

(** The entries of an epoch. *)
Fixpoint spec_entries (eps : list (Z * list entry)) (e : Z) : list entry :=
  match eps with [] => [] | (e', es) :: eps => if e =? e' then es else spec_entries eps e end.

(** ** Sizes *)

Fixpoint kweight (es : list entry) : Z :=
  match es with [] => 0 | (k, _) :: es => zlen k + 39 + kweight es end.

Lemma kweight_nonneg es : 0 <= kweight es.
Proof. induction es as [|[k v] es IH]; cbn; [done|]. pose proof (zlen_nonneg k). lia. Qed.

Lemma kweight_app a b : kweight (a ++ b) = kweight a + kweight b.
Proof. induction a as [|[k v] a IH]; cbn; [done|]. rewrite IH. lia. Qed.

Lemma kweight_elem k v es : (k, v) ∈ es -> zlen k + 39 <= kweight es.
Proof.
  induction es as [|[k' v'] es IH]; intros Hin; [by apply elem_of_nil in Hin|]. cbn [kweight]. pose proof (zlen_nonneg k'). pose proof (kweight_nonneg es).
  apply elem_of_cons in Hin as [[= -> ->]|Hin]; [lia|]. specialize (IH Hin). lia.
Qed.

Lemma kweight_length es : zlen es <= kweight es.
Proof. induction es as [|[k v] es IH]; [done|]. cbn [kweight]. rewrite zlen_cons. pose proof (zlen_nonneg k). lia. Qed.

Lemma weight_index bs : Forall SepOk bs -> Forall (fun b => bk_es b <> []) bs -> weight (index_entries bs) <= kweight (table_entries bs).
Proof.
  induction 1 as [|b bs [Hs _] _ IH]; intros Hne; [done|]. apply Forall_cons in Hne as [Hb Hne]. specialize (IH Hne).
  change (index_entries (b :: bs)) with ((bk_sep b, handle_bytes (bk_h b)) :: index_entries bs). change (table_entries (b :: bs)) with (bk_es b ++ table_entries bs).
  cbn [weight]. rewrite kweight_app. destruct (last_of_elem _ Hb) as [v Hv]. apply kweight_elem in Hv. pose proof (handle_bytes_size (bk_h b)). lia.
Qed.

Lemma last_of_app a es l : es <> [] -> last_of l (a ++ es) = last_of [] es.
Proof. intros Hne. unfold last_of. rewrite last_app. destruct (list.last es) eqn:E; [done|]. by apply last_None in E. Qed.

Section Ops.
Context `{Snappy} `{XXHash} (o : DirOptions) {T : Type} `{!DataBlock T} `{!DataBlockLaws o T} (d : Dir).
Context (Hcf : Config o) (Hag : agree o (d_options d)).
Local Abbreviation Builder := (SeqDirBuilder T).
Local Abbreviation unordered := (IsKeyUnOrdered (mode o)).
Local Abbreviation Core := (Core o d).
Local Abbreviation Out := (Out o).

(** ** The invariant between operations *)

Record Rest (b : Builder) (data : LogSink) (g : Ghost) (s : Spec) (B E : Z) : Prop := {
  i_core : Core b data g (pend_es g ++ g_cur g);
  i_table : g_table o g = s_table s;
  i_epoch : epoch_entries (g_ts g) = s_epoch s;
  i_tabs : zlen (g_ts g) = s_tabs s /\ s_tabs s <= kMaxTableNo;
  i_next : num_eps_ b = s_next s;
  i_eps : (fun x => (x.1, epoch_entries x.2.2)) <$> g_eps g = s_eps s;
  i_last : last_key_b b = last_of [] (s_table s);
  i_range : s_table s = [] /\ smallest_key_ b = [] /\ largest_key_ b = [] \/ Range b (s_table s);
  i_unordered : unordered = true -> g_bs g = [] /\ g_us g = [] /\ g_pend g = [];
  i_open : g_pend g = [] -> g_cur g = [] -> closed o g = [];
  i_strict : IsKeyUnique (mode o) = true -> unordered = false -> strict (s_table s);
  i_keys : mode o = kDmUniqueKey -> forall k, k ∈ keys_ b <-> k ∈ (s_epoch s ++ s_table s).*1;
  i_entries : num_entries_ b = zlen (s_epoch s ++ s_table s);
  i_ok : entries_ok (s_table s) /\ Forall (fun e => e.1 <> []) (s_table s);
  i_live : s_table s <> [] \/ 0 < s_tabs s -> s_next s <= kMaxEpochNo;
  i_root : weight (root_entries (g_eps g)) <= 53 * s_next s;
  i_E : 6 * kweight (s_table s) + weight (s_table s) + 2 * weight (meta_entries (num_eps_ b) (g_ts g)) + zlen (s_epoch s) <= E;
  i_D : off_ data + room o g <= B;
  i_X : off_ (indx_sink_ b) + 6 * kweight (s_table s) + 2 * weight (meta_entries (num_eps_ b) (g_ts g)) + 2 * weight (root_entries (g_eps g)) <= B }.

Lemma Core_last b data g tail x : Core b data g tail -> Core (set_last_key_b x b) data g tail.
Proof. intros []. by constructor. Qed.

Lemma chunks_ne us : Forall (ChunkOk o d) us -> Forall (fun b => bk_es b <> []) (placed o 0 us).
Proof. generalize 0. intros st Hall. revert st. induction Hall as [|c us Hc Hall IH]; intros st; constructor; [apply Hc|apply IH]. Qed.

Lemma closed_ne b data g tail : Core b data g tail -> Forall (fun b => bk_es b <> []) (closed o g) /\ Forall SepOk (closed o g).
Proof.
  intros HC. pose proof (c_chunks _ _ _ _ _ _ HC) as [Hu _]%Forall_app. split; apply Forall_app; split.
  - eapply Forall_BlkAt_ne. apply HC.
  - by apply chunks_ne.
  - apply HC.
  - by eapply Chunk_SepOk.
Qed.

Lemma table_entries_nil bs : Forall (fun b => bk_es b <> []) bs -> table_entries bs = [] -> bs = [].
Proof. destruct bs as [|b bs]; [done|]. intros [Hb _]%Forall_cons. unfold table_entries. cbn. intros [? _]%app_eq_nil. done. Qed.

Lemma blocks_count bs : Forall (fun b => bk_es b <> []) bs -> zlen bs <= zlen (table_entries bs).
Proof.
  induction 1 as [|b bs Hb _ IH]; [done|]. change (table_entries (b :: bs)) with (bk_es b ++ table_entries bs). rewrite zlen_cons, zlen_app.
  apply zlen_pos in Hb. lia.
Qed.

Lemma sorted_last es : sorted es -> Forall (fun e => sle e.1 (last_of [] es) = true) es.
Proof.
  intros Hso. destruct (decide (es = [])) as [->|Hne]; [constructor|]. destruct (exists_last Hne) as (es' & [k v] & ->). rewrite last_of_snoc.
  apply StronglySorted_app in Hso as (Hcross & _ & _). apply Forall_app. split; [|by constructor; [apply sle_refl|constructor]].
  apply Forall_forall. intros e He. apply (Hcross e (k, v)); [done|]. by apply elem_of_cons; left.
Qed.

Lemma us_count b data g tail : Core b data g tail -> zlen (g_us g) <= zlen (table_entries (closed o g)).
Proof.
  intros HC. destruct (closed_ne _ _ _ _ HC) as [Hne _]. apply blocks_count in Hne. unfold closed in *. rewrite zlen_app, length_placed in Hne.
  pose proof (zlen_nonneg (g_bs g)). lia.
Qed.

(** *** The end of the last block of a table *)

Record SameParts (g g' : Ghost) : Prop := {
  sp_eps : g_eps g' = g_eps g; sp_ts : g_ts g' = g_ts g; sp_bs : g_bs g' = g_bs g }.

Lemma close_block b data g tail es :
  Core b data g tail -> tail = pend_es g ++ g_cur g -> g_table o g = es -> entries_ok es -> weight es + 8 < 2 ^ 31 -> kweight es < 2 ^ 31 ->
  exists b1 g1, SeqDirBuilder.EndBlock b = Some b1 /\ frame b b1 /\ indx_sink_ b1 = indx_sink_ b /\ pending_restart_ b1 = true
    /\ Core b1 data g1 (pend_es g1) /\ g_cur g1 = [] /\ g_table o g1 = es /\ SameParts g g1 /\ g_us g1 = g_us g /\ room o g1 <= room o g
    /\ (g_cur g <> [] -> g_pend g1 <> []) /\ (g_cur g = [] -> b1 = b).
Proof.
  intros HC Htail Hes Hok Hw Hk. pose proof (us_count _ _ _ _ HC) as Hn. unfold g_table in Hes. pose proof (kweight_length es). subst es tail.
  rewrite !weight_app in Hw. pose proof (weight_nonneg (table_entries (closed o g))). pose proof (weight_nonneg (pend_es g)). pose proof (weight_nonneg (g_cur g)).
  rewrite !zlen_app in *. pose proof (zlen_nonneg (pend_es g)). pose proof (zlen_nonneg (g_cur g)).
  apply Forall_app in Hok as [_ [_ Hok]%Forall_app].
  destruct (EndBlock_spec o d Hcf Hag b data g _ HC Hok ltac:(lia) ltac:(lia)) as (b1 & E & Hf & Hr & Hs & Hsame & Hend). exists b1.
  destruct (decide (g_cur g = [])) as [Hc|Hc].
  - exists g. rewrite (Hsame Hc) in *. split_and!; try done. by rewrite Hc, app_nil_r in HC.
  - destruct (Hend Hc) as (c & Ec & Hp & HC1 & Hroom). exists (end_ghost g c). split_and!; try done.
    + unfold pend_es in *. rewrite Hp in HC1. cbn in *. by rewrite Ec, app_nil_r.
    + unfold g_table, pend_es, closed. cbn. by rewrite Ec, !app_nil_r, Hp.
Qed.

Lemma close_table b1 data g1 es :
  Core b1 data g1 (pend_es g1) -> g_cur g1 = [] -> g_table o g1 = es -> last_key_b b1 = last_of [] es -> entries_ok es ->
  (unordered = true -> g_bs g1 = [] /\ g_us g1 = []) -> kweight es < 2 ^ 31 -> room o g1 < 2 ^ 62 ->
  exists b2 g2,
    (if pending_indx_entry_ b1 then
       SeqDirBuilder.add_index_entry (last_key_b (set_last_key_b (Comparator.FindShortSuccessor (last_key_b b1)) b1))
         (set_last_key_b (Comparator.FindShortSuccessor (last_key_b b1)) b1)
     else Some b1) = Some b2
    /\ Core b2 data g2 [] /\ g_pend g2 = [] /\ g_cur g2 = [] /\ table_entries (closed o g2) = es /\ SameParts g1 g2 /\ room o g2 = room o g1
    /\ indx_sink_ b2 = indx_sink_ b1 /\ smallest_key_ b2 = smallest_key_ b1 /\ largest_key_ b2 = largest_key_ b1 /\ keys_ b2 = keys_ b1
    /\ num_entries_ b2 = num_entries_ b1 /\ num_eps_ b2 = num_eps_ b1 /\ (es = [] -> b2 = b1).
Proof.
  intros HC Hcur Hes Hlast Hok Hun Hk Hroom. pose proof (c_pend _ _ _ _ _ _ HC) as HP. unfold Pending in HP. unfold g_table in Hes. rewrite Hcur, app_nil_r in Hes.
  pose proof (us_count _ _ _ _ HC) as Hn. pose proof (kweight_length es). pose proof (zlen_nonneg (pend_es g1)).
  destruct (g_pend g1) as [|c [|? ?]] eqn:Ep; [|destruct HP as [HP _]|done].
  - exists b1, g1. rewrite HP. unfold pend_es in Hes, HC. rewrite Ep in Hes, HC. cbn in Hes, HC. rewrite app_nil_r in Hes. by split_and!.
  - rewrite HP. cbn zeta. assert (Hpe : pend_es g1 = ck_es c) by (unfold pend_es; rewrite Ep; cbn; by rewrite app_nil_r). rewrite Hpe in *.
    pose proof (c_chunks _ _ _ _ _ _ HC) as Hch. rewrite Ep in Hch. apply Forall_app in Hch as [_ [Hcok _]%Forall_cons].
    pose proof (co_ne _ _ _ Hcok) as Hcne. rewrite <- Hes, last_of_app in Hlast by done. rewrite Hlast.
    assert (Hz : zlen (chunks o (g_us g1)) + zlen (ck_contents c) < 2 ^ 63).
    { unfold room in Hroom. rewrite Hcur, Ep, chunks_app, chunks_one, zlen_app, zlen_chunk in Hroom. pose proof (zlen_nonneg (ck_pad c)). lia. }
    rewrite <- Hes in Hok. apply Forall_app in Hok as [_ Hok].
    set (sep := Comparator.FindShortSuccessor (last_of [] (ck_es c))). set (c' := set_sep sep c).
    set (blk := mkBlk sep (mkHandle (zlen (chunks o (g_us g1)) + 20) (zlen (ck_contents c))) (ck_es c)).
    assert (Ecl : closed o (sep_ghost g1 c') = closed o g1 ++ [blk]) by by rewrite closed_sep.
    assert (Etab : table_entries (closed o g1 ++ [blk]) = es) by (rewrite table_entries_app, <- Hes; unfold table_entries at 2; cbn; by rewrite app_nil_r).
    assert (Hseps : unordered = false -> SepsT (closed o g1 ++ [blk]) [] /\ sorted (table_entries (closed o g1 ++ [blk]) ++ [])).
    { intros Hu. destruct (c_seps _ _ _ _ _ _ HC Hu) as [HS Hso]. rewrite app_nil_r, Etab, <- Hes. split; [|done]. apply SepsT_block; cbn; [by rewrite app_nil_r| |by right].
      apply sorted_suffix in Hso. eapply Forall_impl; [apply (sorted_last _ Hso)|]. intros e He. eapply sle_trans; [exact He|apply successor_spec]. }
    cbn [last_key_b set_last_key_b].
    destruct (add_index_spec o d (set_last_key_b sep b1) data g1 _ [] c sep (Core_last _ _ _ _ sep HC) Ep Hcur Hz) as (b2 & E & Hf & Hs & HC2 & _ & _ & Hr); try done.
    + rewrite <- Hes, zlen_app in *. lia.
    + apply successor_size.
    + apply successor_ok. apply (last_of_forall bytes_ok); [done|]. eapply Forall_impl; [exact Hok|]. by intros e [? _].
    + fold c'. rewrite Ecl. destruct (closed_ne _ _ _ _ HC) as [Hne _]. destruct unordered eqn:Eu.
      * destruct (Hun eq_refl) as [Hb Hu]. unfold closed. rewrite Hb, Hu. repeat constructor.
      * destruct (Hseps eq_refl) as [HS Hso]. rewrite app_nil_r in Hso. eapply seps_sorted; [exact HS|exact Hso|]. apply Forall_app. split; [done|]. by apply Forall_singleton.
    + fold c'. rewrite Ecl. exact Hseps.
    + exists b2, (sep_ghost g1 c'). destruct Hf. split_and!; try done.
      * rewrite Ecl. exact Etab.
      * intros Hnil. rewrite Hnil in Hes. by apply app_eq_nil in Hes as [_ ?].
Qed.

Lemma Out_start (b b0 : Builder) data (b' : Builder) data' P : indx_sink_ b0 = indx_sink_ b -> Out b0 data b' data' P -> Out b data b' data' P.
Proof. unfold PlfsBuilderInv.Out. by intros ->. Qed.

Lemma Out_impl (b : Builder) data (b' : Builder) data' (P Q : Prop) : (P -> Q) -> Out b data b' data' P -> Out b data b' data' Q.
Proof. intros HPQ (H1 & H2 & H3 & H4 & H5). split_and!; auto. Qed.

Lemma same_ok l l' : Forall2 same_blk l l' -> Forall SepOk l /\ Forall (fun b => bk_es b <> []) l -> Forall SepOk l' /\ Forall (fun b => bk_es b <> []) l'.
Proof.
  induction 1 as [|a b l l' [E1 E2] _ IH]; [done|]. intros [[H1 H2]%Forall_cons [H3 H4]%Forall_cons]. destruct (IH (conj H2 H4)).
  split; constructor; try done; [|congruence]. destruct H1. split; congruence.
Qed.

(** *** The commit at the end of a table *)

Lemma commit_table b data g es :
  Core b data g [] -> g_pend g = [] -> g_cur g = [] -> table_entries (closed o g) = es -> kweight es + 28 < 2 ^ 31 -> off_ data + room o g < 2 ^ 62 ->
  exists b' data', SeqDirBuilder.Commit b data = Some (b', data') /\ Out b data b' data'
    (exists bs, Core b' data' (mkGhost (g_eps g) (g_ts g) bs [] [] []) [] /\ table_entries bs = es /\ weight (index_entries bs) <= kweight es
     /\ frame b b' /\ indx_sink_ b' = indx_sink_ b /\ pending_restart_ b' = true /\ off_ data' <= off_ data + room o g).
Proof.
  intros HC Hp Hcur Hes Hk Hroom. destruct (c_data _ _ _ _ _ _ HC) as [HS Hpr]. pose proof (sk_off _ HS) as Hoff. rewrite Hpr, Z.add_0_l in Hoff.
  set (base := zlen (LogSink.file data)) in *. pose proof (closed_commit o g base) as Hsame. pose proof (closed_ne _ _ _ _ HC) as [Hne Hsep].
  destruct (same_ok _ _ Hsame (conj Hsep Hne)) as [Hsep' Hne'].
  assert (Hw : weight (index_entries (closed o (commit_ghost o g base))) <= kweight es).
  { rewrite <- Hes, (table_entries_same _ _ Hsame). by apply weight_index. }
  assert (Er : room o g = zlen (chunks o (g_us g))) by (unfold room; by rewrite Hcur, Hp, app_nil_r).
  destruct (builder_Commit_spec o d Hcf Hag b data g [] HC Hp Hcur) as (b' & data' & -> & HO); [fold base; lia|fold base; lia|].
  exists b', data'. split; [done|]. eapply Out_impl; [|exact HO]. intros (HC' & Hf & Hs & _ & Hr & Ho). exists (closed o (commit_ghost o g base)).
  unfold closed in *. cbn [commit_ghost g_bs g_us placed] in *. rewrite app_nil_r in *. rewrite <- (table_entries_same _ _ Hsame). split_and!; try done; [|lia].
  unfold commit_ghost in HC'. by rewrite Hp, Hcur in HC'.
Qed.

Lemma IndexBlk_empty b es : IndexBlk b es -> Buffer.empty (buf b) = bool_decide (es = []).
Proof.
  intros ((st & idx & HB) & _). case_bool_decide as Hes; [|by eapply Building_nonempty]. subst es.
  pose proof (bu_enc _ _ _ _ HB) as He. inversion He as [Hl Hst|]. subst st. unfold Buffer.empty. apply Z.leb_le.
  pose proof (zlen_contents _ (bu_start _ _ _ _ HB)) as Hz. rewrite (bu_contents _ _ _ _ HB) in Hz. change (zlen []) with 0 in Hz. lia.
Qed.

Lemma Rest_empty b data g s B E :
  Rest b data g s B E -> s_table s = [] -> g_bs g = [] /\ g_us g = [] /\ g_pend g = [] /\ g_cur g = [].
Proof.
  intros HR Hnil. pose proof (i_core _ _ _ _ _ _ HR) as HC. pose proof (i_table _ _ _ _ _ _ HR) as Ht. rewrite Hnil in Ht. unfold g_table in Ht.
  apply app_eq_nil in Ht as [Ht [Hp Hc]%app_eq_nil]. destruct (closed_ne _ _ _ _ HC) as [Hne _]. apply (table_entries_nil _ Hne) in Ht.
  unfold closed in Ht. apply app_eq_nil in Ht as [Hb Hu]. split; [done|]. split; [by destruct (g_us g)|]. split; [|done].
  pose proof (c_chunks _ _ _ _ _ _ HC) as [_ Hch]%Forall_app. unfold pend_es in Hp. destruct (g_pend g) as [|c p]; [done|].
  apply Forall_cons in Hch as [Hco _]. cbn in Hp. apply app_eq_nil in Hp as [Hp _]. by destruct (co_ne _ _ _ Hco).
Qed.

(** *** [EndTable] *)

Lemma range_sizes b es : Range b es -> zlen (smallest_key_ (T := T) b) + 39 <= kweight es /\ zlen (largest_key_ b) + 39 <= kweight es.
Proof. intros [[v Hs] [w Hl] _]. apply kweight_elem in Hs, Hl. done. Qed.

Lemma Range_eq (b b' : Builder) es : smallest_key_ b' = smallest_key_ b -> largest_key_ b' = largest_key_ b -> Range b es -> Range b' es.
Proof. intros E1 E2 []. constructor; by rewrite ?E1, ?E2. Qed.

(** The invariant after the end of an empty table. *)
Lemma rest_same b data g s B E b' data' :
  Rest b data g s B E -> s_table s = [] -> Core b' data' (mkGhost (g_eps g) (g_ts g) [] [] [] []) [] -> frame b b' ->
  indx_sink_ b' = indx_sink_ b -> off_ data' <= B -> Rest b' data' (mkGhost (g_eps g) (g_ts g) [] [] [] []) s B E.
Proof.
  intros HR Hnil HC [F1 F2 F3 F4 F5 F6] Hi Hd. destruct HR. constructor; rewrite ?F1, ?F2, ?F3, ?F4, ?F5, ?F6, ?Hi; try done.
  - destruct i_range0 as [?|[[v Hv] _ _]]; [by left|]. rewrite Hnil in Hv. by apply elem_of_nil in Hv.
  - unfold room. cbn. change (zlen []) with 0. lia.
Qed.

(** The fields of the builder the end of a table leaves alone. *)
Record frame_keys (b b' : Builder) : Prop := {
  fk_small : smallest_key_ b' = smallest_key_ b; fk_large : largest_key_ b' = largest_key_ b; fk_keys : keys_ b' = keys_ b;
  fk_entries : num_entries_ b' = num_entries_ b; fk_eps : num_eps_ b' = num_eps_ b }.

(** The invariant after the end of a table with entries. *)
Lemma rest_table b data g s B E b3 data3 bs b4 n :
  Rest b data g s B E -> s_table s <> [] -> table_entries bs = s_table s -> s_tabs s < kMaxTableNo -> 0 <= n ->
  frame_keys b b3 -> Range b (s_table s) -> weight (index_entries bs) <= kweight (s_table s) ->
  TableDone o d b3 b4 data3 (mkGhost (g_eps g) (g_ts g) bs [] [] []) ->
  off_ (indx_sink_ b4) <= off_ (indx_sink_ b) + 2 * weight (index_entries bs) + n + 108 -> off_ data3 <= B ->
  exists g', Rest b4 data3 g' (spec_EndTable s) (B + n + 300) (E + 300).
Proof.
  intros HR Hne Hbs Hnt Hn [F1 F2 F3 F4 F5] Hrg Hwi (th & HC & Hl & Hsm & Hla & Hke & Hnu & Hep & _ & _ & Htz) Hx Hd. exists (table_ghost (mkGhost (g_eps g) (g_ts g) bs [] [] []) th).
  destruct (range_sizes _ _ Hrg) as [Z1 Z2]. rewrite F1, F2 in Htz. pose proof (zlen_nonneg (g_ts g)) as Hts.
  assert (Es : spec_EndTable s = mkSpec (s_eps s) (s_epoch s ++ s_table s) [] (s_tabs s + 1) (s_next s)) by (unfold spec_EndTable; by destruct (s_table s)).
  rewrite Es. destruct HR. destruct i_tabs0 as [Htab Htab']. pose proof (kweight_nonneg (s_table s)). pose proof (kweight_length (s_table s)). pose proof (weight_nonneg (s_table s)).
  pose proof (i_live0 (or_introl Hne)) as Hlive. pose proof (c_eps _ _ _ _ _ _ i_core0) as [He0 _]. rewrite i_next0 in He0.
  assert (Hmw : weight (meta_entries (num_eps_ b4) (g_ts g ++ [(th, bs)])) <= weight (meta_entries (num_eps_ b) (g_ts g)) + 78 + zlen (smallest_key_ b) + zlen (largest_key_ b)).
  { rewrite Hep, F5, meta_app, weight_app. cbn [weight fst]. destruct (table_key_ok (num_eps_ b) (zlen (g_ts g))) as [_ Hkz]; [lia|lia|]. lia. }
  constructor; cbn [table_ghost g_bs g_eps g_ts s_table s_epoch s_tabs s_next s_eps]; try done.
  - unfold epoch_entries in *. rewrite fmap_app, concat_app, i_epoch0. cbn [fmap list_fmap concat snd g_bs]. by rewrite app_nil_r, Hbs.
  - rewrite zlen_app, Htab, zlen_cons. unfold zlen at 1. cbn. lia.
  - congruence.
  - by left.
  - intros _ _. constructor.
  - intros Hm k. rewrite app_nil_r, Hke, F3. by apply i_keys0.
  - rewrite app_nil_r. congruence.
  - split; constructor.
  - rewrite zlen_app. cbn [kweight weight]. lia.
  - unfold room. cbn. change (zlen []) with 0. lia.
  - cbn [kweight]. lia.
Qed.

Lemma EndTable_spec fc ft b data g s B E :
  Rest b data g s B E -> (fc = [] \/ bytes_ok fc /\ FilterGood (filter_type o) fc (s_table s)) -> s_tabs s < kMaxTableNo ->
  B + 2 * zlen fc + 300 < 2 ^ 62 -> E + 300 < 2 ^ 31 ->
  exists b' data', SeqDirBuilder.EndTable fc ft b data = Some (b', data')
    /\ Out b data b' data' (exists g', Rest b' data' g' (spec_EndTable s) (B + 2 * zlen fc + 300) (E + 300)).
Proof.
  intros HR Hfc Hnt HB HE. pose proof (i_core _ _ _ _ _ _ HR) as HC. unfold SeqDirBuilder.EndTable. rewrite (c_open _ _ _ _ _ _ HC).
  destruct (i_ok _ _ _ _ _ _ HR) as [Hok Hkey]. pose proof (i_E _ _ _ _ _ _ HR) as HEb. pose proof (i_D _ _ _ _ _ _ HR) as HD. pose proof (i_X _ _ _ _ _ _ HR) as HX.
  pose proof (kweight_nonneg (s_table s)). pose proof (weight_nonneg (s_table s)). pose proof (weight_nonneg (meta_entries (num_eps_ b) (g_ts g))).
  pose proof (weight_nonneg (root_entries (g_eps g))). pose proof (zlen_nonneg fc). pose proof (zlen_nonneg (s_epoch s)).
  assert (Hoff0 : 0 <= off_ data) by (destruct (c_data _ _ _ _ _ _ HC) as [HS Hp]; rewrite (sk_off _ HS), Hp; pose proof (zlen_nonneg (LogSink.file data)); lia).
  destruct (close_block _ _ _ _ _ HC eq_refl (i_table _ _ _ _ _ _ HR) Hok ltac:(lia) ltac:(lia)) as (b1 & g1 & -> & Hf1 & Hs1 & _ & HC1 & Hcur1 & Ht1 & [P1 P2 P3] & Hu1 & Hr1 & Hnp & _).
  unfold SeqDirBuilder.okb at 1. rewrite (c_status _ _ _ _ _ _ HC1). change (ok kOk) with true. cbn [negb].
  destruct (close_table b1 data g1 (s_table s) HC1 Hcur1 Ht1) as (b2 & g2 & -> & HC2 & Hp2 & Hcur2 & Ht2 & [Q1 Q2 Q3] & Hr2 & Hs2 & K1 & K2 & K3 & K4 & K5 & Hsame).
  { rewrite (f_last _ _ Hf1). apply HR. }
  { done. }
  { intros Hu. destruct (i_unordered _ _ _ _ _ _ HR Hu) as (? & ? & _). by rewrite P3, Hu1. }
  { lia. }
  { lia. }
  destruct (commit_table b2 data g2 _ HC2 Hp2 Hcur2 Ht2 ltac:(lia) ltac:(lia)) as (b3 & data3 & -> & HO). rewrite Q1, Q2, P1, P2 in HO.
  apply (Out_start b) in HO; [|congruence]. unfold SeqDirBuilder.okb at 1. destruct (ok (status_b b3)) eqn:Est; cbn [negb].
  2: { apply ok_false in Est. exists b3, data3. split; [done|]. eapply Out_trans; [exact HO|by intros _ ?|done]. }
  apply ok_true in Est. pose proof HO as (_ & _ & _ & _ & HP). destruct (HP Est) as (bs & HC3 & Hbs & Hwi & Hf3 & Hs3 & Hr3 & Ho3). clear HP.
  rewrite (IndexBlk_empty _ _ (c_index _ _ _ _ _ _ HC3)). cbn [g_bs]. destruct (closed_ne _ _ _ _ HC3) as [Hne3 _]. unfold closed in Hne3. cbn [g_bs g_us placed] in Hne3. rewrite app_nil_r in Hne3.
  case_bool_decide as Hnil.
  - assert (bs = []) as -> by by destruct bs. change (table_entries []) with (@nil entry) in Hbs. exists b3, data3. split; [done|]. eapply Out_trans; [exact HO| |done].
    intros _ _. eapply Out_done; [exact HC3|]. eexists. unfold spec_EndTable. rewrite <- Hbs. symmetry in Hbs. rewrite (Hsame Hbs) in *.
    assert (HR' : Rest b3 data3 (mkGhost (g_eps g) (g_ts g) [] [] [] []) s B E) by (eapply rest_same; [exact HR|done|done|by eapply frame_trans|congruence|lia]).
    destruct HR'. constructor; try done; lia.
  - assert (Hne : s_table s <> []) by (rewrite <- Hbs; intros Hx; apply Hnil; by rewrite (table_entries_nil _ Hne3 Hx)).
    assert (HRg : Range b (s_table s)) by (destruct (i_range _ _ _ _ _ _ HR) as [[? _]|?]; done). destruct (range_sizes _ _ HRg) as [Z1 Z2].
    assert (Hfk : frame_keys b b3) by (destruct Hf1, Hf3; constructor; congruence). pose proof Hfk as [F1 F2 F3 F4 F5].
    assert (Hal : all_committed (mkGhost (g_eps g) (g_ts g) bs [] [] [])) by (split_and!; try done; cbn; by intros ->).
    destruct (write_table_spec o d Hag b3 data3 _ HC3 Hal) with (fc := fc) (ft := ft) as (b4 & -> & HO4); cbn [g_bs g_ts]; rewrite ?Hbs; try done.
    + by eapply Range_eq.
    + by apply HR.
    + rewrite F5, (i_next _ _ _ _ _ _ HR). apply (i_live _ _ _ _ _ _ HR). by left.
    + destruct (i_tabs _ _ _ _ _ _ HR) as [-> _]. done.
    + rewrite F1, F2, F5. lia.
    + lia.
    + rewrite Hs3, Hs2, Hs1. lia.
    + exists b4, data3. split; [done|]. eapply Out_trans; [exact HO| |by intros ?]. intros _ _. eapply Out_impl; [|exact HO4]. cbn [g_bs]. intros [HD4 Hx4].
      eapply rest_table; try done; [lia| |lia]. rewrite Hs3, Hs2, Hs1 in Hx4. lia.
Qed.

(** *** [FinishEpoch] *)

Lemma epoch_key_ok e : 0 <= e <= kMaxEpochNo -> bytes_ok (epoch_key e) /\ zlen (epoch_key e) = 4.
Proof. unfold kMaxEpochNo. intros He. unfold epoch_key. split; [apply digits_ok; cbn; lia|]. unfold zlen. by rewrite length_digits. Qed.

Lemma root_app eps x : root_entries (eps ++ [x]) = root_entries eps ++ [(epoch_key x.1, epoch_bytes x.2.1)].
Proof. unfold root_entries. by rewrite fmap_app. Qed.

Lemma root_below b data g tail :
  Core b data g tail -> num_eps_ b <= kMaxEpochNo -> root_entries (g_eps g) = [] \/ sle (last_of [] (root_entries (g_eps g))) (epoch_key (num_eps_ b)) = true.
Proof.
  intros HC He. destruct (decide (root_entries (g_eps g) = [])) as [|Hne]; [by left|right]. apply slt_weaken. apply (last_of_forall (fun k => slt k _ = true)); [done|].
  unfold root_entries. apply Forall_fmap. pose proof (c_inc _ _ _ _ _ _ HC) as [_ Hlt]. pose proof (c_epochs _ _ _ _ _ _ HC) as Hep. unfold EpochsAt in Hep.
  pose proof (c_eps _ _ _ _ _ _ HC). rewrite Forall_forall in Hlt, Hep. apply Forall_forall. intros x Hx. specialize (Hlt _ Hx). destruct (Hep _ Hx) as [_ [Hx' _ _ _]].
  cbn. unfold slt. rewrite compare_epoch_key by lia. by rewrite (proj2 (Z.compare_lt_iff _ _)).
Qed.

(** The ghost state after the epoch is written. *)
Definition epoch_ghost (g : Ghost) (e : Z) (h : EpochHandle) : Ghost := mkGhost (g_eps g ++ [(e, (h, g_ts g))]) [] [] [] [] [].

Lemma rest_epoch b data g s B E ep (b' : Builder) s1 h c :
  Rest b data g s B E -> s_table s = [] -> 0 < s_tabs s -> s_next s <= ep <= kMaxEpochNo -> E + 300 < 2 ^ 31 ->
  BlockAt o (LogSink.file s1) h c -> BlockOk c (meta_entries (num_eps_ b) (g_ts g)) -> grown (LogSink.file (indx_sink_ b)) (LogSink.file s1) ->
  Sink s1 -> prev_off_ s1 = 0 -> off_ s1 <= off_ (indx_sink_ b) + 2 * weight (meta_entries (num_eps_ b) (g_ts g)) + 96 ->
  let eh := mkEpoch (offset_ h) (size_ h) (num_tabls_ b) (num_entries_ b) in
  forall root epok x, IndexBlk root (root_entries (g_eps g ++ [(num_eps_ b, (eh, g_ts g))])) -> IndexBlk epok [] ->
  b' = set_num_eps_ (ep + 1) (set_keys_ [] (set_num_entries_ 0 (set_num_tabls_ 0
         (set_indx_sink_ s1 (set_status_b kOk (set_root_block_ root (set_epok_block_ epok (set_stats_ x b)))))))) ->
  Rest b' data (epoch_ghost g (num_eps_ b) eh) (mkSpec (s_eps s ++ [(s_next s, s_epoch s)]) [] [] 0 (ep + 1)) (B + 300) 0.
Proof.
  intros HR Hnil Htab Hep HE Hb Hc Hgr HS1 Hp1 Ho1 eh root epok x HIr HIe ->. destruct (Rest_empty _ _ _ _ _ _ HR Hnil) as (G1 & G2 & G3 & G4).
  pose proof (i_live _ _ _ _ _ _ HR (or_intror Htab)) as Hlive. destruct HR. destruct i_core0. destruct (BlockAt_wf _ _ _ _ Hb) as [Hw1 Hw2].
  destruct i_tabs0 as [Htz Htm]. rewrite Hnil, ?app_nil_r in *. pose proof (weight_nonneg (meta_entries (num_eps_ b) (g_ts g))). cbn [kweight weight] in *.
  assert (Hwf : epoch_wf eh).
  { constructor; cbn; try done; unfold set32, unset32; [unfold kMaxTableNo in *; lia|]. pose proof (zlen_nonneg (s_epoch s)). lia. }
  assert (Hne : num_eps_ b <= kMaxEpochNo) by lia.
  constructor; cbn [epoch_ghost g_eps g_ts g_bs g_us g_pend g_cur s_table s_epoch s_tabs s_next s_eps]; try done.
  - constructor; cbn -[meta_entries root_entries] in *; try done.
    + unfold Buf in *. cbn. rewrite G2, G3, G4 in c_buf. destruct (pending_restart_ b); [done|]. by destruct c_buf as [? _].
    + rewrite G2, G3 in c_commit. intros Hcm. by destruct (c_commit Hcm) as [_ ?].
    + by rewrite G2 in c_indexes.
    + rewrite G2, G3 in c_num. done.
    + unfold Pending in *. cbn. by rewrite G3 in c_pend.
    + by rewrite G1 in c_index.
    + constructor.
    + intros _. split; [done|constructor].
    + split; [done|constructor].
    + constructor.
    + split; [done|]. rewrite root_app. apply Forall_app. split; [apply c_root|]. apply Forall_singleton. cbn -[epoch_key epoch_bytes].
      split; [apply epoch_key_ok; lia|by apply epoch_bytes_ok].
    + apply Forall_app. split; [by eapply EpochsAt_grown; [exact Hgr|apply grown_refl|]|]. apply Forall_singleton. split; [done|]. constructor; cbn; try done.
      * lia.
      * unfold zlen in Htz. lia.
      * exists c. split; [|done]. apply (BlockAt_agree o d Hag). by destruct h.
      * by eapply TablesAt_grown; [exact Hgr|apply grown_refl|].
    + destruct c_inc as [Hi Hl]. split.
      * apply StronglySorted_app_2; [|done|by repeat constructor]. intros y z Hy Hz. apply list_elem_of_singleton in Hz as ->. rewrite Forall_forall in Hl. apply (Hl _ Hy).
      * apply Forall_app. split; [eapply Forall_impl; [exact Hl|]; intros y Hy; cbn in *; lia|]. apply Forall_singleton. cbn. lia.
    + unfold kMaxEpochNo in *. lia.
  - rewrite fmap_app, i_eps0. cbn [fmap list_fmap fst snd]. by rewrite i_next0, i_epoch0.
  - left. destruct i_range0 as [?|[[v Hv] _ _]]; [done|by apply elem_of_nil in Hv].
  - intros [?|?]; [done|lia].
  - rewrite root_app, weight_app. cbn [weight fst snd]. destruct (epoch_key_ok (num_eps_ b)) as [_ Hz]; [lia|]. pose proof (epoch_bytes_size eh). lia.
  - unfold room in *. rewrite G2, G3, G4 in i_D0. change (room o _) with 0. cbn in *. change (zlen []) with 0 in *. lia.
  - rewrite root_app, weight_app. cbn [weight fst snd indx_sink_ set_num_eps_ set_keys_ set_num_entries_ set_num_tabls_ set_indx_sink_]. destruct (epoch_key_ok (num_eps_ b)) as [_ Hz]; [lia|]. pose proof (epoch_bytes_size eh). cbn. lia.
Qed.

Lemma write_epoch_spec ep b data g s B E :
  Rest b data g s B E -> s_table s = [] -> 0 < s_tabs s -> s_next s <= ep <= kMaxEpochNo -> B + 300 < 2 ^ 62 -> E + 300 < 2 ^ 31 ->
  exists b', SeqDirBuilder.write_epoch ep b = Some b' /\ Out b data b' data
    (exists g', Rest b' data g' (mkSpec (s_eps s ++ [(s_next s, s_epoch s)]) [] [] 0 (ep + 1)) (B + 300) 0).
Proof.
  intros HR Hnil Htab Hep HB HE. pose proof (i_core _ _ _ _ _ _ HR) as HC. pose proof (i_live _ _ _ _ _ _ HR (or_intror Htab)) as Hlive.
  pose proof (i_E _ _ _ _ _ _ HR) as HEb. pose proof (i_X _ _ _ _ _ _ HR) as HX. rewrite Hnil in HEb, HX. cbn [kweight weight] in HEb, HX.
  pose proof (weight_nonneg (meta_entries (num_eps_ b) (g_ts g))). pose proof (weight_nonneg (root_entries (g_eps g))). pose proof (zlen_nonneg (s_epoch s)).
  pose proof (i_next _ _ _ _ _ _ HR) as Hnx. pose proof (c_eps _ _ _ _ _ _ HC) as [He0 _]. pose proof (i_root _ _ _ _ _ _ HR) as Hroot.
  destruct (c_epok _ _ _ _ _ _ HC) as [HIm Hmok]. destruct (IndexBlk_Finish _ _ HIm ltac:(lia) Hmok) as (c & epok & Efin & Hc & Hcz & Hcb & HIe).
  unfold SeqDirBuilder.write_epoch. rewrite Efin. cbn [o_ indx_sink_ set_epok_block_]. rewrite (c_opt _ _ _ _ _ _ HC). destruct (c_indx _ _ _ _ _ _ HC) as [HS Hp].
  destruct (log_Write_spec o kMetaChunk c (indx_sink_ b)) as (st & h & s1 & -> & Hg1 & Hq1 & Hw1). unfold SeqDirBuilder.okb at 1. cbn [status_b set_status_b set_indx_sink_].
  destruct (ok st) eqn:Est; cbn [negb].
  2: { apply ok_false in Est. eexists. split; [reflexivity|]. split; [reflexivity|]. split; [apply HC|]. split; [apply HC|]. cbn. split; [|done].
       intros _ Hq. destruct (Hq1 Hq) as [_ Hst]. by rewrite (Hst (sk_open _ HS)) in Est. }
  apply ok_true in Est as ->. destruct (Hw1 eq_refl HS Hp Hcb ltac:(lia)) as (HS1 & Ho1 & HB1).
  pose proof (BlockAt_wf _ _ _ _ HB1) as [Hh1 Hh2]. destruct (i_tabs _ _ _ _ _ _ HR) as [Htz Htm]. pose proof (c_tabls _ _ _ _ _ _ HC) as Htn.
  pose proof (i_entries _ _ _ _ _ _ HR) as Hen. rewrite Hnil, app_nil_r in Hen.
  unfold SeqDirBuilder.update_stats. cbn [num_tabls_ num_entries_ num_eps_ root_block_ indx_sink_ epok_block_ stats_ set_stats_ set_indx_sink_ set_status_b set_epok_block_ set_root_block_ status_b].
  rewrite epoch_EncodeTo by (constructor; cbn; try done; unfold set32, unset32, kMaxTableNo in *; lia). rewrite EpochKey_ok by lia.
  set (eh := mkEpoch _ _ _ _). destruct (epoch_key_ok (num_eps_ b)) as [Hkb Hkz]; [lia|]. pose proof (epoch_bytes_size eh).
  destruct (IndexBlk_Add _ _ (epoch_key (num_eps_ b)) (epoch_bytes eh) (proj1 (c_root _ _ _ _ _ _ HC)) (root_below _ _ _ _ HC ltac:(lia))) as (root & -> & HIr).
  { unfold kMaxEpochNo in *. lia. }
  destruct (stone_round (mkStone h (num_eps_ b)) []) as (stone & -> & Hsb & Hsz & _); [by split|cbn; unfold set32, unset32, kMaxEpochNo in *; lia|].
  cbn [indx_sink_ set_indx_sink_ set_root_block_ set_status_b set_epok_block_ set_stats_ status_b]. unfold LogWriter.SealEpoch.
  destruct (LogSpecial_spec o kEpochStone stone s1) as (st & s2 & -> & Hg2 & Hq2 & Hw2). unfold SeqDirBuilder.okb at 1. cbn [status_b set_status_b set_indx_sink_].
  assert (Hquiet : quiet (indx_sink_ b) -> quiet s2 /\ st = kOk).
  { intros Hq. destruct (Hq1 Hq) as [Hqs1 _]. destruct (Hq2 Hqs1) as [? Hst]. split; [done|apply Hst, HS1]. }
  destruct (ok st) eqn:Est; cbn [negb].
  2: { apply ok_false in Est. eexists. split; [reflexivity|]. split; [reflexivity|]. split; [apply HC|]. split; [apply HC|]. cbn. split; [|done].
       intros _ Hq. by destruct (Hquiet Hq) as [_ ->]. }
  apply ok_true in Est as ->. pose proof (zlen_nonneg stone). destruct (Hw2 eq_refl HS1 ltac:(lia)) as (HS2 & Ho2 & _).
  rewrite u32_small by (unfold in_width, kMaxEpochNo in *; lia). eexists. split; [reflexivity|].
  match goal with |- Out _ _ ?b' _ _ => assert (HR' : Rest b' data (epoch_ghost g (num_eps_ b) eh) (mkSpec (s_eps s ++ [(s_next s, s_epoch s)]) [] [] 0 (ep + 1)) (B + 300) 0) end.
  { eapply (rest_epoch b data g s B E ep _ s2 h c); try done; [by eapply BlockAt_grows|apply Grows_grown; by etrans| |lia|by rewrite root_app]. by rewrite (gr_prev _ _ Hg2), (gr_prev _ _ Hg1). }
  split; [reflexivity|]. split; [apply HC|]. split; [apply HC|]. split; [intros ? Hq; split_and!; [done|by apply Hquiet|done]|]. intros _. by eexists.
Qed.

Lemma rest_weaken b data g s B E B' E' : Rest b data g s B E -> B <= B' -> E <= E' -> Rest b data g s B' E'.
Proof. intros [] HB HE. constructor; try done; lia. Qed.

(** The budget of an epoch starts again when the epoch ends. *)
Definition spec_budget (ep : Z) (s : Spec) (E : Z) : Z := if ep <? s_next s then E else 0.

Lemma FinishEpoch_spec ep b data g s B E :
  Rest b data g s B E -> ep <= kMaxEpochNo -> s_tabs s < kMaxTableNo -> B + 600 < 2 ^ 62 -> E + 600 < 2 ^ 31 ->
  exists b' data', SeqDirBuilder.FinishEpoch ep b data = Some (b', data')
    /\ Out b data b' data' (exists g', Rest b' data' g' (spec_FinishEpoch ep s) (B + 600) (spec_budget ep s E)).
Proof.
  intros HR Hep Hnt HB HE. pose proof (i_core _ _ _ _ _ _ HR) as HC. unfold SeqDirBuilder.FinishEpoch, spec_FinishEpoch, spec_budget. rewrite (c_open _ _ _ _ _ _ HC), (i_next _ _ _ _ _ _ HR).
  destruct (Z.ltb_spec ep (s_next s)) as [Hlt|Hge].
  { exists b, data. split; [done|]. eapply Out_done; [exact HC|]. exists g. eapply rest_weaken; [exact HR|lia|lia]. }
  destruct (EndTable_spec [] kUnknown b data g s B E HR ltac:(by left) Hnt) as (b1 & d1 & -> & HO); [change (zlen []) with 0; lia|lia|]. change (2 * zlen []) with 0 in HO.
  unfold SeqDirBuilder.okb at 1. destruct (ok (status_b b1)) eqn:Est; cbn [negb].
  2: { apply ok_false in Est. exists b1, d1. split; [done|]. eapply Out_trans; [exact HO|by intros _ ?|done]. }
  apply ok_true in Est. pose proof HO as (_ & _ & _ & _ & HP). destruct (HP Est) as (g1 & HR1). clear HP.
  assert (Hs1 : s_table (spec_EndTable s) = [] /\ s_next (spec_EndTable s) = s_next s) by (unfold spec_EndTable; by destruct (s_table s) eqn:Et). destruct Hs1 as [Hnil Hnx].
  rewrite (c_tabls _ _ _ _ _ _ (i_core _ _ _ _ _ _ HR1)). destruct (i_tabs _ _ _ _ _ _ HR1) as [Htz Htm]. rewrite Htz.
  destruct (Z.eqb_spec (s_tabs (spec_EndTable s)) 0) as [Et|Et].
  - pose proof (i_core _ _ _ _ _ _ HR1) as HC1. pose proof (c_eps _ _ _ _ _ _ HC1) as He1. rewrite (i_next _ _ _ _ _ _ HR1), Hnx in He1.
    do 2 eexists. split; [reflexivity|]. eapply Out_trans; [exact HO| |done]. intros _ _. rewrite u32_small by (unfold in_width, kMaxEpochNo in *; lia).
    assert (Hts : g_ts g1 = []) by (destruct (g_ts g1) as [|t l]; [done|rewrite zlen_cons in Htz; pose proof (zlen_nonneg l); lia]).
    assert (HC' : Core (set_num_eps_ (ep + 1) b1) d1 g1 (pend_es g1 ++ g_cur g1)).
    { destruct HC1. constructor; cbn -[meta_entries] in *; try done; [by rewrite Hts in *| |unfold kMaxEpochNo in *; lia].
      destruct c_inc as [? Hl]. split; [done|]. eapply Forall_impl; [exact Hl|]. intros x Hx. cbn in *. rewrite (i_next _ _ _ _ _ _ HR1), Hnx in Hx. lia. }
    assert (Hse : s_epoch (spec_EndTable s) = []) by (rewrite <- (i_epoch _ _ _ _ _ _ HR1), Hts; done).
    split; [reflexivity|]. split; [apply HC'|]. split; [apply HC'|]. split; [intros ? ?; split_and!; try done; apply HC'|]. intros _. exists g1.
    destruct HR1. rewrite ?Hnil, ?Hse, ?Hts in *. constructor; cbn -[meta_entries] in *; try done; try lia.
    + by rewrite Hts.
    + by rewrite Hts.
    + left. destruct i_range0 as [?|[[v Hv] _ _]]; [done|by apply elem_of_nil in Hv].
    + intros [?|?]; [done|lia].
    + rewrite Hts. change (2 * weight (meta_entries (ep + 1) [])) with 0. change (zlen []) with 0. lia.
    + rewrite Hts. change (2 * weight (meta_entries (ep + 1) [])) with 0. change (weight (meta_entries (num_eps_ b1) [])) with 0 in *. lia.
  - assert (Hpos : 0 < s_tabs (spec_EndTable s)) by (pose proof (zlen_nonneg (g_ts g1)); lia).
    destruct (write_epoch_spec ep b1 d1 g1 _ _ _ HR1 Hnil Hpos) as (b2 & -> & HO2); [lia|lia|lia|].
    exists b2, d1. split; [done|]. eapply Out_trans; [exact HO| |by intros ?]. intros _ _. eapply Out_impl; [|exact HO2]. intros (g2 & HR2). exists g2. rewrite Hnx in *.
    eapply rest_weaken; [exact HR2|lia|lia].
Qed.

End Ops.
