(* ===== verification/PlfsBuilderAdd.v ===== *)
(** * Building indexed directories: adding entries

    [Add] of [SeqDirBuilder] implements [spec_Add]: the key range, the separator of
    a finished block, the commit of a full buffer, the open block and its end. *)
From stdpp Require Import sorting.
From S2P Require Import Prelude Coding Status Crc32c Gigaplus Filter SstBlock SstBlockProps PlfsFormat PlfsFormatLemmas PlfsLog PlfsLogLemmas.
From S2P Require Import PlfsBuilder PlfsReader PlfsBlocks PlfsReaderLemmas PlfsChunks PlfsBuilderInv PlfsBuilderSpec.

Section Add.
Context `{Snappy} `{XXHash} (o : DirOptions) {T : Type} `{!DataBlock T} `{!DataBlockLaws o T} (d : Dir).
Context (Hcf : Config o) (Hag : agree o (d_options d)).
Local Abbreviation Builder := (SeqDirBuilder T).
Local Abbreviation unordered := (IsKeyUnOrdered (mode o)).
Local Abbreviation Core := (Core o d).
Local Abbreviation Out := (Out o).
Local Abbreviation Rest := (Rest o d).

(** ** The key *)

Lemma Core_range b data g tail x y z : Core b data g tail -> Core (set_stats_ z (set_smallest_key_ x (set_largest_key_ y b))) data g tail.
Proof. intros []. by constructor. Qed.

(** What may be added. *)
Record AddOk (k v : bytes) (s : Spec) : Prop := {
  ao_ne : k <> []; ao_bytes : bytes_ok k /\ bytes_ok v; ao_takes : db_takes (T := T) k v; ao_next : s_next s <= kMaxEpochNo;
  ao_order : unordered = false -> s_table s = [] \/ sle (last_of [] (s_table s)) k = true;
  ao_unique : mode o = kDmUniqueKey -> k ∉ (s_epoch s ++ s_table s).*1 }.

Lemma last_ne s b data g B E : Rest b data g s B E -> seq (last_key_b b) [] = bool_decide (s_table s = []).
Proof.
  intros HR. rewrite (i_last _ _ _ _ _ _ _ _ HR). destruct (i_ok _ _ _ _ _ _ _ _ HR) as [_ Hk]. case_bool_decide as Hs; [by rewrite Hs|].
  apply seq_nil. apply (last_of_forall (fun k => k <> [])); done.
Qed.

Lemma range_first (b : Builder) k v : Range (set_smallest_key_ k (set_largest_key_ k b)) [(k, v)].
Proof. constructor; cbn; [exists v; by left|exists v; by left|]. repeat constructor; cbn; by rewrite sle_refl. Qed.

(** The range with one more key. *)
Lemma range_snoc (b : Builder) es k v sm la :
  Range b es -> (sm = k \/ sm = smallest_key_ b) -> (la = k \/ la = largest_key_ b) ->
  sle sm (smallest_key_ b) = true -> sle sm k = true -> sle (largest_key_ b) la = true -> sle k la = true ->
  Range (set_smallest_key_ sm (set_largest_key_ la b)) (es ++ [(k, v)]).
Proof.
  intros [[v1 H1] [v2 H2] Hall] Hsm Hla L1 L2 L3 L4. constructor; cbn.
  - destruct Hsm as [->| ->]; [exists v; apply elem_of_app; right; by left|exists v1; apply elem_of_app; by left].
  - destruct Hla as [->| ->]; [exists v; apply elem_of_app; right; by left|exists v2; apply elem_of_app; by left].
  - apply Forall_app. split; [|by repeat constructor]. eapply Forall_impl; [exact Hall|]. intros e [Ha Hb]. split; [exact (sle_trans _ _ _ L1 Ha)|exact (sle_trans _ _ _ Hb L3)].
Qed.

Definition spec_put (k v : bytes) (s : Spec) : Spec := mkSpec (s_eps s) (s_epoch s) (s_table s ++ [(k, v)]) (s_tabs s) (s_next s).

Lemma set_range_id (b : Builder) : b = set_smallest_key_ (smallest_key_ b) (set_largest_key_ (largest_key_ b) b).
Proof. by destruct b. Qed.

Lemma unordered_key k (b : Builder) :
  o_ b = o -> unordered = true ->
  SeqDirBuilder.add_key k b = Some (inr (set_smallest_key_ (if seq (smallest_key_ b) [] || slt k (smallest_key_ b) then k else smallest_key_ b)
    (set_largest_key_ (if seq (largest_key_ b) [] || slt (largest_key_ b) k then k else largest_key_ b) b))).
Proof.
  intros Ho Hu. unfold SeqDirBuilder.add_key. rewrite Ho, Hu. do 2 f_equal.
  destruct (seq (smallest_key_ b) [] || slt k (smallest_key_ b)); cbn [largest_key_ set_smallest_key_]; destruct (seq (largest_key_ b) [] || slt (largest_key_ b) k); by destruct b.
Qed.

Lemma strict_snoc es k v : strict es -> Forall (fun e => slt e.1 k = true) es -> strict (es ++ [(k, v)]).
Proof.
  intros Hs Hall. apply StronglySorted_app_2; [|done|repeat constructor]. intros x y Hx Hy. apply list_elem_of_singleton in Hy as ->.
  rewrite Forall_forall in Hall. apply (Hall _ Hx).
Qed.

(** Keys in order, and not repeated. *)
Lemma strict_below es k : sorted es -> sle (last_of [] es) k = true -> last_of [] es <> k -> Forall (fun e => slt e.1 k = true) es.
Proof.
  intros Hso Hle Hne. eapply Forall_impl; [apply (sorted_last _ Hso)|]. intros e He. cbn in He. eapply sle_slt_trans; [exact He|].
  apply sle_cases in Hle as [?|?]; [done|done].
Qed.

Lemma add_key_spec k v b data g s B E :
  Rest b data g s B E -> AddOk k v s ->
  (spec_Add o k v s = s /\ exists x, SeqDirBuilder.add_key k b = Some (inl (set_stats_ x b)))
  \/ (spec_Add o k v s = spec_put k v s /\ exists sm la,
        SeqDirBuilder.add_key k b = Some (inr (set_smallest_key_ sm (set_largest_key_ la b)))
        /\ Range (set_smallest_key_ sm (set_largest_key_ la b)) (s_table s ++ [(k, v)])
        /\ (unordered = false -> sorted (s_table s ++ [(k, v)]))
        /\ (IsKeyUnique (mode o) = true -> unordered = false -> strict (s_table s ++ [(k, v)]))).
Proof.
  intros HR [Hne Hb Ht Hnx Hord Huq]. pose proof (i_core _ _ _ _ _ _ _ _ HR) as HC. pose proof (last_ne _ _ _ _ _ _ HR) as Hln.
  pose proof (i_last _ _ _ _ _ _ _ _ HR) as Hlast. pose proof (i_range _ _ _ _ _ _ _ _ HR) as Hrange. pose proof (c_opt _ _ _ _ _ _ HC) as Ho.
  destruct unordered eqn:Eu.
  - right. split. { unfold spec_Add. destruct (bool_decide_reflect (mode o = kDmUniqueDrop)) as [Em|]; [|done]. by rewrite Em in Eu. }
    rewrite (unordered_key k b Ho Eu). do 2 eexists. split; [reflexivity|]. split; [|by split]. destruct Hrange as [(Es & Hs & Hl)|HRg].
    + rewrite Es, Hs, Hl. cbn. apply range_first.
    + pose proof HRg as [[v1 Hv1] [v2 Hv2] _]. destruct (i_ok _ _ _ _ _ _ _ _ HR) as [_ Hk]. rewrite Forall_forall in Hk.
      rewrite !seq_nil by (apply (Hk _ Hv1) || apply (Hk _ Hv2)). cbn [orb]. apply range_snoc; [done|..].
      all: repeat match goal with |- context [if slt ?a ?b then _ else _] => destruct (slt a b) eqn:? end; auto using sle_refl, slt_weaken.
      all: rewrite sle_slt; by apply negb_true_iff.
  - assert (Hso0 : sorted (s_table s)).
    { destruct (c_seps _ _ _ _ _ _ HC Eu) as [_ Hso]. rewrite <- (i_table _ _ _ _ _ _ _ _ HR). exact Hso. }
    unfold SeqDirBuilder.add_key. rewrite Ho, Eu, Hln. unfold spec_Add. rewrite Hlast in *. rewrite Hln. destruct (bool_decide_reflect (s_table s = [])) as [Es|Es].
    + right. rewrite andb_false_r. cbn [negb andb]. split; [done|]. destruct Hrange as [(_ & Hs & Hl)|[[v1 Hv1] _ _]]; [|rewrite Es in Hv1; by apply elem_of_nil in Hv1].
      rewrite Hs. cbn. exists k, k. split; [done|]. rewrite Es. cbn [app]. split; [apply range_first|]. split; intros; repeat constructor.
    + destruct (Hord eq_refl) as [?|Hle]; [done|]. rewrite Hle. cbn [negb]. rewrite andb_true_r.
      destruct Hrange as [[? _]|HRg]; [done|]. pose proof HRg as [[v1 Hv1] [v2 Hv2] Hall]. destruct (i_ok _ _ _ _ _ _ _ _ HR) as [_ Hk]. rewrite Forall_forall in Hk, Hall.
      assert (Hput : exists sm la, (let b0 := if seq (smallest_key_ b) [] then set_smallest_key_ k b else b in set_largest_key_ k b0) = set_smallest_key_ sm (set_largest_key_ la b)
          /\ Range (set_smallest_key_ sm (set_largest_key_ la b)) (s_table s ++ [(k, v)])).
      { rewrite seq_nil by apply (Hk _ Hv1). exists (smallest_key_ b), k. split; [by destruct b|]. destruct (last_of_elem _ Es) as [w Hw].
        apply range_snoc; auto using sle_refl.
        - eapply sle_trans; [apply (proj1 (Hall _ Hw))|exact Hle].
        - pose proof (sorted_last _ Hso0) as Hsl. rewrite Forall_forall in Hsl. eapply sle_trans; [apply (Hsl _ Hv2)|exact Hle]. }
      destruct Hput as (sm & la & Eput & Hput).
      assert (Hsk : sorted (s_table s ++ [(k, v)])).
      { apply StronglySorted_app_2; [|done|repeat constructor]. intros x y Hx Hy. apply list_elem_of_singleton in Hy as ->. pose proof (sorted_last _ Hso0) as Hsl.
        rewrite Forall_forall in Hsl. eapply sle_trans; [apply (Hsl _ Hx)|exact Hle]. }
      assert (Hstrict : seq k (last_of [] (s_table s)) = false -> IsKeyUnique (mode o) = true -> strict (s_table s ++ [(k, v)])).
      { intros Hseq Hq. apply strict_snoc; [by apply HR|]. apply strict_below; [done|done|]. intros Heq. unfold seq in Hseq. by rewrite Heq, bool_decide_eq_true_2 in Hseq. }
      destruct (mode o) eqn:Em; try done.
      * right. split; [done|]. exists sm, la. split; [by rewrite <- Eput|]. by split_and!.
      * destruct (seq k (last_of [] (s_table s))) eqn:Eq; [left|right]; (split; [done|]).
        { by eexists. }
        exists sm, la. split; [by rewrite <- Eput|]. split_and!; try done. intros _ _. by apply Hstrict.
      * assert (Eq : seq k (last_of [] (s_table s)) = false).
        { unfold seq. apply bool_decide_eq_false_2. intros ->. destruct (last_of_elem _ Es) as [w Hw]. apply (Huq eq_refl). rewrite fmap_app. apply elem_of_app. right.
          apply list_elem_of_fmap. eexists. split; [|exact Hw]. done. }
        rewrite Eq, andb_false_r. right. split; [done|]. exists sm, la. split; [by rewrite <- Eput|]. split_and!; try done. intros _ _. by apply Hstrict.
Qed.

(** ** The index entry of the block before *)

Lemma Core_tail b data g tail tail' :
  Core b data g tail -> (unordered = false -> SepsT (closed o g) tail' /\ sorted (table_entries (closed o g) ++ tail')) -> Core b data g tail'.
Proof. intros [] Hs. by constructor. Qed.

Lemma sorted_le es k v : sorted (es ++ [(k, v)]) -> Forall (fun e => sle e.1 k = true) es.
Proof. intros (Hc & _ & _)%StronglySorted_app. apply Forall_forall. intros e He. apply (Hc e (k, v)); [done|by left]. Qed.

(** What the steps before the entry is added leave alone. *)
Record frame_add (b b' : Builder) : Prop := {
  fa_small : smallest_key_ b' = smallest_key_ b; fa_large : largest_key_ b' = largest_key_ b; fa_keys : keys_ b' = keys_ b;
  fa_entries : num_entries_ b' = num_entries_ b; fa_eps : num_eps_ b' = num_eps_ b; fa_indx : indx_sink_ b' = indx_sink_ b }.

Lemma settle k v b1 data g es :
  Core b1 data g (pend_es g ++ g_cur g) -> g_table o g = es -> last_key_b b1 = last_of [] es -> entries_ok es -> bytes_ok k ->
  (g_pend g = [] -> g_cur g = [] -> closed o g = []) -> (unordered = true -> g_bs g = [] /\ g_us g = [] /\ g_pend g = []) ->
  (unordered = false -> sorted (es ++ [(k, v)])) -> kweight es < 2 ^ 31 -> room o g < 2 ^ 62 ->
  let sep := Comparator.FindShortestSeparator (last_key_b b1) k in
  exists b2 g2, (if pending_indx_entry_ b1 then SeqDirBuilder.add_index_entry (last_key_b (set_last_key_b sep b1)) (set_last_key_b sep b1) else Some b1) = Some b2
    /\ Core b2 data g2 (g_cur g2 ++ [(k, v)]) /\ g_pend g2 = [] /\ g_cur g2 = g_cur g /\ table_entries (closed o g2) ++ g_cur g2 = es
    /\ SameParts g g2 /\ room o g2 = room o g /\ frame_add b1 b2 /\ (g_pend g = [] -> g2 = g).
Proof.
  intros HC Hes Hlast Hok Hkb Hopen Hun Hso Hk Hroom sep. pose proof (c_pend _ _ _ _ _ _ HC) as HP. unfold Pending in HP. unfold g_table in Hes.
  pose proof (us_count _ _ _ _ _ _ HC) as Hn. pose proof (kweight_length es).
  destruct (g_pend g) as [|c [|? ?]] eqn:Ep; [|destruct HP as [HP _]|done].
  - assert (Hpe : pend_es g = []) by (unfold pend_es; by rewrite Ep). rewrite Hpe in *. cbn [app] in *. rewrite HP. exists b1, g. split; [done|]. split; [|by split_and!].
    apply (Core_tail _ _ _ _ _ HC). intros Hu. specialize (Hso Hu). rewrite <- Hes, <- app_assoc in Hso. split; [|done]. destruct (c_seps _ _ _ _ _ _ HC Hu) as [HS _].
    destruct (decide (g_cur g = [])) as [Hc|Hc]; [by rewrite (Hopen eq_refl Hc)|]. apply SepsT_snoc; [done|done|]. rewrite app_assoc in Hso. apply sorted_le in Hso.
    by apply Forall_app in Hso as [_ ?].
  - assert (Hu : unordered = false) by (destruct unordered; [destruct (Hun eq_refl) as (_ & _ & ?); done|done]).
    assert (Hcur : g_cur g = []).
    { pose proof (c_buf _ _ _ _ _ _ HC) as HB. unfold Buf in HB. destruct (pending_restart_ b1); [by destruct HB|]. destruct HB as (_ & Hpn & _). by rewrite Hpn in Ep. }
    assert (Hpe : pend_es g = ck_es c) by (unfold pend_es; rewrite Ep; cbn; by rewrite app_nil_r). rewrite Hpe, Hcur, app_nil_r in *. rewrite HP.
    pose proof (c_chunks _ _ _ _ _ _ HC) as Hch. rewrite Ep in Hch. apply Forall_app in Hch as [_ [Hcok _]%Forall_cons]. pose proof (co_ne _ _ _ Hcok) as Hcne.
    specialize (Hso Hu). pose proof (sorted_le _ _ _ Hso) as Hle. rewrite <- Hes, last_of_app in Hlast by done. rewrite <- Hes in Hle. apply Forall_app in Hle as [_ Hle].
    assert (Hlk : sle (last_of [] (ck_es c)) k = true) by by apply (last_of_forall (fun x => sle x k = true)).
    assert (Hz : zlen (chunks o (g_us g)) + zlen (ck_contents c) < 2 ^ 63).
    { unfold room in Hroom. rewrite Hcur, Ep, chunks_app, chunks_one, zlen_app, zlen_chunk in Hroom. pose proof (zlen_nonneg (ck_pad c)). lia. }
    assert (Hokc : entries_ok (ck_es c)) by (rewrite <- Hes in Hok; by apply Forall_app in Hok as [_ ?]).
    assert (Hlb : bytes_ok (last_of [] (ck_es c))) by (apply (last_of_forall bytes_ok); [done|]; eapply Forall_impl; [exact Hokc|]; by intros e [? _]).
    destruct (separator_spec _ _ Hlk) as (S1 & S2 & S3). subst sep. rewrite Hlast in *. set (sep := Comparator.FindShortestSeparator (last_of [] (ck_es c)) k) in *.
    set (blk := mkBlk sep (mkHandle (zlen (chunks o (g_us g)) + 20) (zlen (ck_contents c))) (ck_es c)).
    assert (Ecl : closed o (sep_ghost g (set_sep sep c)) = closed o g ++ [blk]) by by rewrite closed_sep.
    assert (Etab : table_entries (closed o g ++ [blk]) = es) by (rewrite table_entries_app, <- Hes; unfold table_entries at 2; cbn; by rewrite app_nil_r).
    destruct (c_seps _ _ _ _ _ _ HC Hu) as [HS Hso0].
    assert (Hseps : SepsT (closed o g ++ [blk]) [(k, v)] /\ sorted (table_entries (closed o g ++ [blk]) ++ [(k, v)])).
    { rewrite Etab. split; [|done]. apply SepsT_block; cbn [bk_es bk_sep blk].
      - by apply SepsT_snoc.
      - apply sorted_suffix in Hso0. eapply Forall_impl; [apply (sorted_last _ Hso0)|]. intros e He. eapply sle_trans; [exact He|exact S1].
      - apply sle_cases in Hlk as [Heq|Hlt]; [left; by rewrite (S3 Heq)|right]. apply Forall_singleton. cbn. by apply S2. }
    cbn [last_key_b set_last_key_b].
    destruct (add_index_spec o d (set_last_key_b sep b1) data g _ [(k, v)] c sep (Core_last _ _ _ _ _ _ sep HC) Ep Hcur Hz) as (b2 & E & Hf & Hs & HC2 & _ & Hpc & Hr); try done.
    + rewrite <- Hes, zlen_app in *. pose proof (zlen_nonneg (ck_es c)). lia.
    + apply separator_size.
    + by apply separator_ok.
    + rewrite Ecl. destruct (closed_ne _ _ _ _ _ _ HC) as [Hne _]. destruct Hseps as [HS' _]. eapply seps_sorted; [exact HS'|by rewrite Etab; apply StronglySorted_app_1_l in Hso|].
      apply Forall_app. split; [done|]. by apply Forall_singleton.
    + by rewrite Ecl.
    + exists b2, (sep_ghost g (set_sep sep c)). destruct Hf. split; [done|]. cbn [g_cur sep_ghost]. rewrite Hcur. split; [done|]. split; [done|]. split; [done|].
      split; [rewrite app_nil_r, Ecl; exact Etab|]. by split_and!.
Qed.

(** ** The commit of a full buffer *)

Lemma commit_add b data g tail :
  Core b data g (g_cur g ++ tail) -> g_pend g = [] -> kweight (table_entries (closed o g)) + 28 < 2 ^ 31 -> off_ data + room o g < 2 ^ 62 ->
  exists b' data', (if pending_commit_ b then SeqDirBuilder.Commit b data else Some (b, data)) = Some (b', data') /\ Out b data b' data'
    (exists g', Core b' data' g' (g_cur g' ++ tail) /\ g_pend g' = [] /\ g_cur g' = g_cur g /\ table_entries (closed o g') = table_entries (closed o g)
     /\ g_eps g' = g_eps g /\ g_ts g' = g_ts g /\ (g_bs g = [] -> g_us g = [] -> g_bs g' = [] /\ g_us g' = [])
     /\ frame_add b b' /\ pending_commit_ b' = false /\ off_ data' + room o g' <= off_ data + room o g).
Proof.
  intros HC Hp Hk Hroom. destruct (pending_commit_ b) eqn:Epc.
  2: { exists b, data. split; [done|]. eapply Out_done; [exact HC|]. exists g. by split_and!. }
  destruct (c_commit _ _ _ _ _ _ HC Epc) as [Hr _].
  assert (Hcur : g_cur g = []) by (pose proof (c_buf _ _ _ _ _ _ HC) as HB; unfold Buf in HB; rewrite Hr in HB; by destruct HB).
  destruct (c_data _ _ _ _ _ _ HC) as [HS Hpr]. pose proof (sk_off _ HS) as Hoff. rewrite Hpr, Z.add_0_l in Hoff.
  set (base := zlen (LogSink.file data)) in *. pose proof (closed_commit o g base) as Hsame. pose proof (closed_ne _ _ _ _ _ _ HC) as [Hne Hsep].
  destruct (same_ok _ _ Hsame (conj Hsep Hne)) as [Hsep' Hne'].
  assert (Hw : weight (index_entries (closed o (commit_ghost o g base))) <= kweight (table_entries (closed o g))).
  { rewrite (table_entries_same _ _ Hsame). by apply weight_index. }
  assert (Er : room o g = zlen (chunks o (g_us g))) by (unfold room; by rewrite Hcur, Hp, app_nil_r).
  destruct (builder_Commit_spec o d Hcf Hag b data g _ HC Hp Hcur) as (b' & data' & -> & HO); [fold base; lia|fold base; lia|].
  exists b', data'. split; [done|]. eapply Out_impl; [|exact HO]. intros (HC' & [] & Hs & Hpc & _ & Ho). exists (commit_ghost o g base).
  cbn [commit_ghost g_cur g_pend g_eps g_ts g_bs g_us]. split_and!; try done.
  - by rewrite <- (table_entries_same _ _ Hsame).
  - by intros -> ->.
  - unfold room at 1. cbn [commit_ghost g_cur g_us g_pend]. rewrite Hcur, Hp. change (zlen (chunks o ([] ++ []))) with 0. lia.
Qed.

(** ** The open block *)

Definition put_ghost (g : Ghost) (k v : bytes) : Ghost := mkGhost (g_eps g) (g_ts g) (g_bs g) (g_us g) (g_pend g) (g_cur g ++ [(k, v)]).

(** A new block begins after the room for its handle. *)
Lemma restart_block b data g tail :
  Core b data g tail -> g_pend g = [] -> pending_restart_ b = true ->
  let t := db_Reset (SeqDirBuilder.update_buf (Buffer.Pad (Z.to_nat BlockHandle.kMaxEncodedLength)) (SeqDirBuilder.update_buf Buffer.SwitchBuffer (data_block_ b))) in
  db_shape t /\ compression_ (db_buf t) = kNoCompression /\ db_builds t [] /\ db_CurrentSizeEstimate t = 8
  /\ take (Z.to_nat (buffer_start_ (db_buf t))) (buffer_ (db_buf t)) = chunks o (g_us g) ++ zeros
  /\ buffer_start_ (db_buf t) = zlen (chunks o (g_us g)) + 20.
Proof.
  intros HC Hp Hr t. pose proof (c_buf _ _ _ _ _ _ HC) as HB. unfold Buf in HB. rewrite Hr in HB. destruct HB as [_ HB]. rewrite Hp, app_nil_r in HB.
  unfold SeqDirBuilder.buffer_store in HB. destruct (c_shape _ _ _ _ _ _ HC) as [Hsh Hco]. subst t. unfold SeqDirBuilder.update_buf.
  destruct (law_set_buf (Buffer.SwitchBuffer (db_buf (data_block_ b))) (data_block_ b) Hsh eq_refl) as [Hsh1 Hb1]. set (t1 := db_set_buf (Buffer.SwitchBuffer _) _) in *.
  destruct (law_set_buf (Buffer.Pad (Z.to_nat BlockHandle.kMaxEncodedLength) (db_buf t1)) t1 Hsh1 eq_refl) as [Hsh2 Hb2]. set (t2 := db_set_buf (Buffer.Pad _ _) _) in *.
  assert (Hbuf : buffer_ (db_buf t2) = chunks o (g_us g) ++ zeros) by (rewrite Hb2, Hb1; cbn; by rewrite HB).
  assert (Hst : buffer_start_ (db_buf t2) = zlen (chunks o (g_us g)) + 20).
  { rewrite Hb2, Hb1. cbn -[zlen]. rewrite HB, zlen_app. done. }
  assert (Hso : start_ok (db_buf t2)) by (unfold start_ok; rewrite Hbuf, Hst, zlen_app, zlen_zeros; pose proof (zlen_nonneg (chunks o (g_us g))); lia).
  destruct (law_reset t2 Hsh2 Hso) as (H1 & H2 & (F1 & F2 & F3 & F4) & H4 & H5).
  split; [done|]. split; [rewrite F3, Hb2, Hb1; done|]. split; [done|]. split; [done|]. rewrite F1, F4. split; [|done].
  rewrite Hbuf, Hst. apply take_ge. rewrite length_app. change (length zeros) with 20%nat. unfold zlen. lia.
Qed.

Lemma begin_block_spec b data g tail :
  Core b data g tail -> g_pend g = [] -> pending_commit_ b = false ->
  let b1 := SeqDirBuilder.begin_block b in
  exists t, b1 = set_data_block_ t (set_pending_restart_ false b) /\ db_shape t /\ compression_ (db_buf t) = kNoCompression /\ db_builds t (g_cur g)
    /\ db_CurrentSizeEstimate t <= 8 + weight (g_cur g)
    /\ take (Z.to_nat (buffer_start_ (db_buf t))) (buffer_ (db_buf t)) = chunks o (g_us g) ++ zeros
    /\ buffer_start_ (db_buf t) = zlen (chunks o (g_us g)) + 20.
Proof.
  intros HC Hp Hpc b1. subst b1. unfold SeqDirBuilder.begin_block. pose proof (c_buf _ _ _ _ _ _ HC) as HB. unfold Buf in HB. destruct (pending_restart_ b) eqn:Er.
  - destruct HB as [Hcur _]. rewrite Hcur. destruct (restart_block b data g tail HC Hp Er) as (H1 & H2 & H3 & H4 & H5 & H6). eexists. split; [reflexivity|].
    split_and!; try done. cbn [weight]. lia.
  - destruct HB as (_ & _ & H1 & H2 & H3 & H4). destruct (c_shape _ _ _ _ _ _ HC). exists (data_block_ b). split; [by destruct b; cbn in *; subst|]. done.
Qed.

Lemma put_entry_spec k v b data g :
  Core b data g (g_cur g ++ [(k, v)]) -> g_pend g = [] -> pending_commit_ b = false -> db_takes (T := T) k v ->
  (unordered = false -> g_cur g = [] \/ sle (last_of [] (g_cur g)) k = true) -> (mode o = kDmUniqueKey -> k ∉ keys_ b) ->
  weight (g_cur g) + zlen k + zlen v + 28 < 2 ^ 31 -> 0 <= num_entries_ b < 2 ^ 31 ->
  exists b', SeqDirBuilder.put_entry k v (SeqDirBuilder.begin_block b) = Some b'
    /\ Core b' data (put_ghost g k v) (g_cur g ++ [(k, v)]) /\ last_key_b b' = k /\ smallest_key_ b' = smallest_key_ b /\ largest_key_ b' = largest_key_ b
    /\ keys_ b' = (if bool_decide (mode o = kDmUniqueKey) then k :: keys_ b else keys_ b) /\ num_entries_ b' = num_entries_ b + 1
    /\ num_eps_ b' = num_eps_ b /\ indx_sink_ b' = indx_sink_ b /\ pending_commit_ b' = false.
Proof.
  intros HC Hp Hpc Htk Hord Huq Hw Hn. destruct (begin_block_spec b data g _ HC Hp Hpc) as (t & -> & Hsh & Hco & HB & Hest & Htake & Hst).
  destruct (law_add t (g_cur g) k v Hsh HB Htk) as (t' & Ea & Hsh' & HB' & (F1 & F2 & F3 & F4) & Hest').
  { destruct unordered; [by left|right]. by apply Hord. }
  { lia. }
  unfold SeqDirBuilder.put_entry. unfold SeqDirBuilder.update_stats. cbn [o_ keys_ set_stats_ set_last_key_b set_data_block_ set_pending_restart_]. rewrite (c_opt _ _ _ _ _ _ HC).
  set (b0 := set_stats_ _ _).
  assert (Hkeys : (match mode o with kDmUniqueKey => if bool_decide (k ∈ keys_ b) then None else Some (set_keys_ (k :: keys_ b) b0) | _ => Some b0 end)
    = Some (set_keys_ (if bool_decide (mode o = kDmUniqueKey) then k :: keys_ b else keys_ b) b0)).
  { destruct (mode o) eqn:Em; cbn; try (subst b0; by destruct b). rewrite bool_decide_eq_false_2; [done|]. by apply Huq. }
  rewrite Hkeys. clear Hkeys. cbn [data_block_ set_keys_ set_stats_ set_last_key_b set_data_block_ b0]. rewrite Ea.
  assert (Hu : u32 (num_entries_ b + 1) = num_entries_ b + 1) by (apply u32_small; unfold in_width; lia).
  eexists. split; [reflexivity|]. split; [|split_and!; try done].
  assert (Hne : g_cur g ++ [(k, v)] <> []) by by destruct (g_cur g).
  destruct HC. constructor; try done.
  - cbn. by rewrite F3.
  - unfold Buf. cbn [set_num_entries_ set_stats_ set_data_block_ set_keys_ set_last_key_b pending_restart_ data_block_ put_ghost g_cur g_pend g_us b0].
    split; [done|]. split; [done|]. split; [done|]. split; [rewrite weight_app; cbn [weight]; lia|]. by rewrite F1, F4.
  - cbn. by rewrite Hpc.
Qed.

(** What [add_entry] does to the fields outside the blocks. *)
Record added (k : bytes) (b b' : Builder) : Prop := {
  ad_last : last_key_b b' = k; ad_small : smallest_key_ b' = smallest_key_ b; ad_large : largest_key_ b' = largest_key_ b;
  ad_keys : keys_ b' = (if bool_decide (mode o = kDmUniqueKey) then k :: keys_ b else keys_ b); ad_entries : num_entries_ b' = num_entries_ b + 1;
  ad_eps : num_eps_ b' = num_eps_ b; ad_indx : indx_sink_ b' = indx_sink_ b }.

Lemma Core_commit b data g tail : Core b data g tail -> pending_restart_ b = true -> g_us g ++ g_pend g <> [] -> Core (set_pending_commit_ true b) data g tail.
Proof. intros [] Hr Hne. by constructor. Qed.

Lemma room_put g k v : g_pend g = [] -> room o (put_ghost g k v) <= room o g + zlen k + zlen v + 52 + block_size o.
Proof.
  intros Hp. pose proof (cf_block _ Hcf). unfold room. cbn [put_ghost g_cur g_us g_pend]. rewrite Hp, app_nil_r. destruct (g_cur g) as [|e cur].
  - cbn [app weight]. lia.
  - change ((e :: cur) ++ [(k, v)]) with (e :: (cur ++ [(k, v)])). cbn [app]. change (e :: cur ++ [(k, v)]) with ((e :: cur) ++ [(k, v)]). rewrite weight_app. cbn [weight]. lia.
Qed.

Lemma add_entry_spec k v b data g es :
  Core b data g (g_cur g ++ [(k, v)]) -> g_pend g = [] -> pending_commit_ b = false -> db_takes (T := T) k v ->
  (unordered = false -> g_cur g = [] \/ sle (last_of [] (g_cur g)) k = true) -> (mode o = kDmUniqueKey -> k ∉ keys_ b) -> 0 <= num_entries_ b < 2 ^ 31 ->
  table_entries (closed o g) ++ g_cur g ++ [(k, v)] = es -> entries_ok es -> weight es + 28 < 2 ^ 31 -> kweight es < 2 ^ 31 ->
  exists b' g', SeqDirBuilder.add_entry k v b = Some b' /\ Core b' data g' (pend_es g' ++ g_cur g') /\ g_table o g' = es /\ SameParts g g' /\ g_us g' = g_us g
    /\ (g_pend g' = [] -> g_cur g' <> []) /\ (unordered = true -> g_pend g' = []) /\ added k b b' /\ room o g' <= room o g + zlen k + zlen v + 52 + block_size o.
Proof.
  intros HC Hp Hpc Htk Hord Huq Hn Hes Hok Hw Hk. pose proof (room_put g k v Hp) as Hroom.
  assert (Hw' : weight (g_cur g) + zlen k + zlen v + 28 < 2 ^ 31).
  { rewrite <- Hes, !weight_app in Hw. cbn [weight] in Hw. pose proof (weight_nonneg (table_entries (closed o g))). lia. }
  destruct (put_entry_spec k v b data g HC Hp Hpc Htk Hord Huq Hw' Hn) as (b1 & E1 & HC1 & A1 & A2 & A3 & A4 & A5 & A6 & A7 & A8).
  unfold SeqDirBuilder.add_entry. rewrite E1, (c_opt _ _ _ _ _ _ HC).
  assert (Hpe : pend_es (put_ghost g k v) = []) by (unfold pend_es; cbn; by rewrite Hp).
  assert (Ht : g_table o (put_ghost g k v) = es) by (unfold g_table; by rewrite Hpe).
  assert (Hne : g_cur (put_ghost g k v) <> []) by (cbn; by destruct (g_cur g)).
  assert (Hdone : Core b1 data (put_ghost g k v) (pend_es (put_ghost g k v) ++ g_cur (put_ghost g k v))) by by rewrite Hpe.
  destruct unordered eqn:Eu.
  { exists b1, (put_ghost g k v). split_and!; try done. }
  destruct (block_threshold_ b1 <=? _); [|exists b1, (put_ghost g k v); by split_and!].
  destruct (close_block o d Hcf Hag b1 data _ _ es Hdone eq_refl Ht Hok ltac:(lia) Hk) as (b2 & g2 & -> & [F1 F2 F3 F4 F5 F6] & Fi & Hr & HC2 & Hc2 & Ht2 & [P1 P2 P3] & Hu2 & Hroom2 & Hp2 & _).
  assert (Had : added k b b2) by (constructor; congruence).
  assert (HC2' : Core b2 data g2 (pend_es g2 ++ g_cur g2)) by by rewrite Hc2, app_nil_r.
  eexists _, g2. split; [reflexivity|]. split.
  { destruct (_ <? _); [|done]. apply Core_commit; [done|done|]. intros [_ Hx]%app_eq_nil. by apply Hp2. }
  split; [done|]. split; [by split|]. split; [done|]. split; [intros Hx; by destruct (Hp2 Hne)|]. split; [done|]. split; [|lia].
  destruct (_ <? _); [|done]. by destruct Had.
Qed.

(** ** [Add] *)

Definition add_cost (k v : bytes) : Z := 7 * zlen k + zlen v + 300.

Lemma Rest_stats b data g s B E x : Rest b data g s B E -> Rest (set_stats_ x b) data g s B E.
Proof.
  intros []. constructor; try done; [by destruct i_core; constructor|]. destruct i_range as [?|[]]; [by left|right]. by constructor.
Qed.

(** The invariant after an entry has been added. *)
Lemma rest_add k v b data g s B E b1 b2 data2 g2 :
  Rest b data g s B E -> AddOk k v s ->
  Core b2 data2 g2 (pend_es g2 ++ g_cur g2) -> g_table o g2 = s_table s ++ [(k, v)] -> g_eps g2 = g_eps g -> g_ts g2 = g_ts g ->
  (unordered = true -> g_bs g2 = [] /\ g_us g2 = [] /\ g_pend g2 = []) -> (g_pend g2 = [] -> g_cur g2 <> []) ->
  added k b1 b2 -> keys_ b1 = keys_ b -> num_entries_ b1 = num_entries_ b -> num_eps_ b1 = num_eps_ b -> indx_sink_ b1 = indx_sink_ b ->
  Range b1 (s_table s ++ [(k, v)]) -> (IsKeyUnique (mode o) = true -> unordered = false -> strict (s_table s ++ [(k, v)])) ->
  off_ data2 + room o g2 <= B + add_cost k v + block_size o -> 
  Rest b2 data2 g2 (spec_put k v s) (B + add_cost k v + block_size o) (E + add_cost k v).
Proof.
  intros HR [Hne [Hkb Hvb] _ Hnx _ _] HC Ht He Hts Hun Hop [A1 A2 A3 A4 A5 A6 A7] K1 K2 K3 K4 HRg Hst Hd. destruct HR. pose proof (cf_block _ Hcf).
  pose proof (zlen_nonneg k). pose proof (zlen_nonneg v). unfold add_cost in *.
  constructor; cbn [spec_put s_eps s_epoch s_table s_tabs s_next]; rewrite ?He, ?Hts; try done.
  - congruence.
  - by rewrite A1, last_of_snoc.
  - right. by eapply Range_eq.
  - intros Hp Hc. by destruct (Hop Hp).
  - intros Hm x. rewrite A4, bool_decide_eq_true_2, K1, app_assoc, fmap_app by done. cbn. rewrite elem_of_cons, elem_of_app, list_elem_of_singleton, (i_keys Hm). naive_solver.
  - rewrite A5, K2, i_entries, app_assoc, (zlen_app (s_epoch s ++ s_table s)). done.
  - destruct i_ok. split; apply Forall_app; (split; [done|]); by apply Forall_singleton.
  - rewrite A6, K3, kweight_app, weight_app. cbn [kweight weight]. lia.
  - rewrite A6, K3, A7, K4, kweight_app. cbn [kweight]. lia.
Qed.

Lemma builder_Add_spec k v b data g s B E :
  Rest b data g s B E -> AddOk k v s -> B + add_cost k v + block_size o < 2 ^ 62 -> E + add_cost k v < 2 ^ 31 ->
  exists b' data', SeqDirBuilder.Add k v b data = Some (b', data')
    /\ Out b data b' data' (exists g', Rest b' data' g' (spec_Add o k v s) (B + add_cost k v + block_size o) (E + add_cost k v)).
Proof.
  intros HR HA HB HE. pose proof (i_core _ _ _ _ _ _ _ _ HR) as HC. pose proof HA as [Hne [Hkb Hvb] Htk Hnx Hord Huq]. pose proof (cf_block _ Hcf).
  pose proof (zlen_nonneg k). pose proof (zlen_nonneg v). unfold add_cost in *. unfold SeqDirBuilder.Add, SeqDirBuilder.okb.
  rewrite (c_open _ _ _ _ _ _ HC), seq_nil, (c_status _ _ _ _ _ _ HC) by done. change (ok kOk) with true. cbn [negb].
  destruct (add_key_spec k v b data g s B E HR HA) as [(-> & x & ->)|(-> & sm & la & -> & HRg & Hso & Hst)].
  { do 2 eexists. split; [reflexivity|]. pose proof (Rest_stats _ _ _ _ _ _ x HR) as HR'. eapply (Out_start o b (set_stats_ x b)); [done|].
    eapply Out_done; [exact (i_core _ _ _ _ _ _ _ _ HR')|]. exists g. eapply rest_weaken; [exact HR'|lia|lia]. }
  set (b1 := set_smallest_key_ sm (set_largest_key_ la b)) in *.
  assert (HC1 : Core b1 data g (pend_es g ++ g_cur g)) by by (destruct HC; constructor).
  pose proof (i_E _ _ _ _ _ _ _ _ HR) as HEb. pose proof (i_D _ _ _ _ _ _ _ _ HR) as HD. destruct (i_ok _ _ _ _ _ _ _ _ HR) as [Hok Hkey].
  pose proof (kweight_nonneg (s_table s)). pose proof (weight_nonneg (s_table s)). pose proof (weight_nonneg (meta_entries (num_eps_ b) (g_ts g))). pose proof (zlen_nonneg (s_epoch s)).
  assert (Hoff0 : 0 <= off_ data) by (destruct (c_data _ _ _ _ _ _ HC) as [HS Hp]; rewrite (sk_off _ HS), Hp; pose proof (zlen_nonneg (LogSink.file data)); lia).
  destruct (settle k v b1 data g (s_table s) HC1 (i_table _ _ _ _ _ _ _ _ HR) (i_last _ _ _ _ _ _ _ _ HR) Hok Hkb (i_open _ _ _ _ _ _ _ _ HR) (i_unordered _ _ _ _ _ _ _ _ HR) Hso ltac:(lia) ltac:(lia))
    as (b2 & g2 & -> & HC2 & Hp2 & Hc2 & Ht2 & [P1 P2 P3] & Hr2 & [S1 S2 S3 S4 S5 S6] & Hg2).
  assert (Hkt : kweight (table_entries (closed o g2)) <= kweight (s_table s)) by (rewrite <- Ht2, kweight_app; pose proof (kweight_nonneg (g_cur g2)); lia).
  destruct (commit_add b2 data g2 [(k, v)] HC2 Hp2 ltac:(lia) ltac:(lia)) as (b3 & data3 & -> & HO3). apply (Out_start o b) in HO3; [|done].
  unfold SeqDirBuilder.okb. destruct (ok (status_b b3)) eqn:Est; cbn [negb].
  2: { apply ok_false in Est. exists b3, data3. split; [done|]. eapply Out_trans; [exact HO3|by intros _ ?|done]. }
  apply ok_true in Est. pose proof HO3 as (_ & _ & _ & _ & HP). destruct (HP Est) as (g3 & HC3 & Hp3 & Hc3 & Ht3 & Q1 & Q2 & Q3 & [R1 R2 R3 R4 R5 R6] & Hpc3 & Hr3). clear HP.
  assert (Hes : table_entries (closed o g3) ++ g_cur g3 ++ [(k, v)] = s_table s ++ [(k, v)]) by (rewrite Ht3, Hc3, app_assoc, Ht2; done).
  assert (Hlast3 : unordered = false -> g_cur g3 = [] \/ sle (last_of [] (g_cur g3)) k = true).
  { intros Hu. destruct (decide (g_cur g3 = [])) as [|Hn3]; [by left|right]. specialize (Hso Hu). apply sorted_le in Hso.
    rewrite <- Ht2, <- Hc3 in Hso. apply Forall_app in Hso as [_ Hso]. by apply (last_of_forall (fun x => sle x k = true)). }
  assert (Hzt : zlen (s_table s) <= kweight (s_table s)) by apply kweight_length.
  destruct (add_entry_spec k v b3 data3 g3 (s_table s ++ [(k, v)]) HC3 Hp3 Hpc3 Htk Hlast3) as (b4 & g4 & -> & HC4 & Ht4 & [U1 U2 U3] & Hu4 & Hop4 & Hup4 & Had & Hr4); try done.
  - intros Hm. rewrite R3, S3. change (keys_ b1) with (keys_ b). rewrite (i_keys _ _ _ _ _ _ _ _ HR Hm). by apply Huq.
  - rewrite R4, S4. change (num_entries_ b1) with (num_entries_ b). rewrite (i_entries _ _ _ _ _ _ _ _ HR), zlen_app. pose proof (zlen_nonneg (s_table s)). lia.
  - apply Forall_app. split; [done|]. by apply Forall_singleton.
  - rewrite weight_app. cbn [weight]. lia.
  - rewrite kweight_app. cbn [kweight]. lia.
  - exists b4, data3. split; [done|]. eapply Out_trans; [exact HO3| |by intros ?]. intros _ _.
    eapply (Out_start o b3 b4); [apply Had|]. eapply Out_done; [exact HC4|]. exists g4.
    change (keys_ b1) with (keys_ b) in S3. change (num_entries_ b1) with (num_entries_ b) in S4. change (num_eps_ b1) with (num_eps_ b) in S5.
    change (indx_sink_ b1) with (indx_sink_ b) in S6. fold (add_cost k v). eapply (rest_add k v b data g s B E b3 b4); try done; try congruence.
    + intros Hu. destruct (i_unordered _ _ _ _ _ _ _ _ HR Hu) as (G1 & G2 & G3).
      destruct Q3 as [Q3 Q3']; [congruence|by rewrite (Hg2 G3)|]. split_and!; [congruence|congruence|by apply Hup4].
    + by eapply Range_eq; [| |exact HRg]; [rewrite R1, S1|rewrite R2, S2].
    + unfold add_cost. lia.
Qed.

End Add.
