(* ===== verification/PlfsBuilderRun.v ===== *)
(** * Building indexed directories: whole runs

    A run of a builder: entries, tables and epochs in any order, with the writes of
    the other partitions to the shared data log in between, and the end of the
    directory.  [Valid] says what a run may do and that it stays within the sizes
    the formats allow; [finished] says what the logs hold at the end. *)
From stdpp Require Import sorting.
From S2P Require Import Prelude Coding Status Crc32c Gigaplus Filter SstBlock SstBlockProps PlfsFormat PlfsFormatLemmas PlfsLog PlfsLogLemmas.
From S2P Require Import PlfsBuilder PlfsReader PlfsBlocks PlfsReaderLemmas PlfsChunks PlfsBuilderInv PlfsBuilderSpec PlfsBuilderAdd.

(** ** Runs *)

Inductive Op :=
  | OpAdd (k v : bytes)
  | OpEndTable (filter_contents : bytes) (filter_type : ChunkType)
  | OpFinishEpoch (ep : Z)
  | OpOther (x : bytes).  (** another partition writes to the data log *)

Section Run.
Context `{Snappy} `{XXHash} (o : DirOptions) {T : Type} `{!DataBlock T}.
Local Abbreviation Builder := (SeqDirBuilder T).

(** A run stops when the write of another partition fails; the last component is
    the status of these writes. *)
Fixpoint run (ops : list Op) (b : Builder) (data : LogSink) : option (Builder * LogSink * Status) :=
  match ops with
  | [] => Some (b, data, kOk)
  | OpAdd k v :: ops => let? (b, data) := SeqDirBuilder.Add k v b data in run ops b data
  | OpEndTable fc ft :: ops => let? (b, data) := SeqDirBuilder.EndTable fc ft b data in run ops b data
  | OpFinishEpoch ep :: ops => let? (b, data) := SeqDirBuilder.FinishEpoch ep b data in run ops b data
  | OpOther x :: ops => let (st, data) := LogSink.Lwrite x data in if ok st then run ops b data else Some (b, data, st)
  end.

(** The directory is finished if the run was not stopped. *)
Definition run_finish (ops : list Op) (ep : Z) (b : Builder) (data : LogSink) : option (Builder * LogSink * Status) :=
  let? (b, data, st) := run ops b data in
  if ok st then let? (b, data) := SeqDirBuilder.Finish ep b data in Some (b, data, kOk) else Some (b, data, st).

Definition spec_op (op : Op) (s : Spec) : Spec :=
  match op with
  | OpAdd k v => spec_Add o k v s
  | OpEndTable _ _ => spec_EndTable s
  | OpFinishEpoch ep => spec_FinishEpoch ep s
  | OpOther _ => s
  end.

Definition spec_run (ops : list Op) (s : Spec) : Spec := fold_left (fun s op => spec_op op s) ops s.

Context `{!DataBlockLaws o T}.

Definition op_ok (op : Op) (s : Spec) : Prop :=
  match op with
  | OpAdd k v => AddOk o (T := T) k v s
  | OpEndTable fc _ => (fc = [] \/ bytes_ok fc /\ FilterGood (filter_type o) fc (s_table s)) /\ s_tabs s < kMaxTableNo
  | OpFinishEpoch ep => ep <= kMaxEpochNo /\ s_tabs s < kMaxTableNo
  | OpOther x => block_padding o = true -> (block_size o | zlen x)
  end.

(** What an operation adds to the logs, and to the epoch, at most. *)
Definition cost (op : Op) : Z :=
  match op with
  | OpAdd k v => add_cost k v + block_size o
  | OpEndTable fc _ => 2 * zlen fc + 300
  | OpFinishEpoch _ => 600
  | OpOther x => zlen x
  end.

Definition epoch_cost (op : Op) (s : Spec) (E : Z) : Z :=
  match op with
  | OpAdd k v => E + add_cost k v
  | OpEndTable _ _ => E + 300
  | OpFinishEpoch ep => spec_budget ep s E
  | OpOther _ => E
  end.

Fixpoint Valid (ops : list Op) (ep : Z) (s : Spec) (B E : Z) : Prop :=
  match ops with
  | [] => ep <= kMaxEpochNo /\ s_tabs s + 1 < kMaxTableNo /\ B + 2 ^ 22 + index_buffer o < 2 ^ 62 /\ E + 1000 < 2 ^ 31
  | op :: ops => op_ok op s /\ B + cost op < 2 ^ 62 /\ E + 600 < 2 ^ 31 /\ epoch_cost op s E < 2 ^ 31
      /\ Valid ops ep (spec_op op s) (B + cost op) (epoch_cost op s E)
  end.

(** ** Failed writes *)

Definition Err (b : Builder) : Prop := status_b b <> kOk /\ finished_b b = false.

Lemma err_ok b : Err b -> SeqDirBuilder.okb b = false.
Proof. intros [Hs _]. unfold SeqDirBuilder.okb. by apply ok_false. Qed.

Lemma EndTable_err fc ft b data : Err b -> SeqDirBuilder.EndTable fc ft b data = Some (b, data).
Proof.
  intros He. pose proof (err_ok _ He) as Ho. destruct He as [_ Hf]. unfold SeqDirBuilder.EndTable, SeqDirBuilder.EndBlock. rewrite Hf, Ho. cbn [negb].
  destruct (pending_restart_ b); [by rewrite Ho|]. destruct (Buffer.empty _); by rewrite Ho.
Qed.

Lemma FinishEpoch_err ep b data : Err b -> SeqDirBuilder.FinishEpoch ep b data = Some (b, data).
Proof.
  intros He. pose proof (err_ok _ He) as Ho. unfold SeqDirBuilder.FinishEpoch. rewrite EndTable_err by done. destruct He as [_ Hf]. rewrite Hf.
  destruct (ep <? num_eps_ b); [done|]. by rewrite Ho.
Qed.

Lemma Add_err k v b data : k <> [] -> Err b -> SeqDirBuilder.Add k v b data = Some (b, data).
Proof. intros Hk He. pose proof (err_ok _ He) as Ho. unfold SeqDirBuilder.Add. destruct He as [_ Hf]. by rewrite Hf, seq_nil, Ho. Qed.

Lemma Finish_err ep b data : Err b -> SeqDirBuilder.Finish ep b data = Some (set_finished_b true b, data).
Proof.
  intros He. pose proof (err_ok _ He) as Ho. unfold SeqDirBuilder.Finish. rewrite EndTable_err by done. destruct He as [_ Hf]. rewrite Hf, Ho. cbn [andb].
  unfold SeqDirBuilder.okb in *. cbn. by rewrite Ho.
Qed.

(** ** Runs keep the invariant *)

Section RunSpec.
Context (d : Dir) (Hcf : Config o) (Hag : agree o (d_options d)).
Local Abbreviation Core := (Core o d).
Local Abbreviation Out := (Out o).
Local Abbreviation Rest := (Rest o d).

Lemma Other_spec x b data g s B E :
  Rest b data g s B E -> (block_padding o = true -> (block_size o | zlen x)) -> B + zlen x < 2 ^ 62 ->
  exists st data', LogSink.Lwrite x data = (st, data') /\ Grows data data' /\ (quiet data -> quiet data' /\ st = kOk)
    /\ (st = kOk -> Rest b data' g s (B + zlen x) E).
Proof.
  intros HR Hal HB. pose proof (i_core _ _ _ _ _ _ _ _ HR) as HC. destruct (c_data _ _ _ _ _ _ HC) as [HS Hp].
  destruct (Lwrite_spec x data) as (st & data' & -> & Hg & Hq & Hw). exists st, data'. split; [done|]. split; [done|].
  split; [intros Hqs; destruct (Hq Hqs) as [? Hst]; split; [done|apply Hst, HS]|]. intros ->. pose proof (zlen_nonneg x).
  pose proof (i_D _ _ _ _ _ _ _ _ HR) as HD. pose proof (cf_block _ Hcf).
  assert (Hroom : 0 <= room o g).
  { unfold room. destruct (g_cur g) as [|e cur] eqn:Ec; [apply zlen_nonneg|]. pose proof (zlen_nonneg (chunks o (g_us g))). pose proof (weight_nonneg (e :: cur)). lia. }
  destruct (Hw eq_refl HS ltac:(lia)) as [HS' Hf']. pose proof (Grows_grown _ _ Hg) as Hgr.
  assert (Ho' : off_ data' = off_ data + zlen x) by (rewrite (sk_off _ HS'), (sk_off _ HS), Hf', zlen_app, (gr_prev _ _ Hg); lia).
  assert (HC' : Core b data' g (pend_es g ++ g_cur g)).
  { destruct HC. constructor; try done.
    - by rewrite (gr_prev _ _ Hg).
    - intros Hpad. rewrite Hf', zlen_app. apply Z.divide_add_r; [by apply c_align|by apply Hal].
    - eapply Forall_impl; [exact c_blks|]. intros y. by apply BlkAt_grown.
    - by eapply TablesAt_grown; [apply grown_refl|exact Hgr|].
    - by eapply EpochsAt_grown; [apply grown_refl|exact Hgr|]. }
  destruct HR. constructor; try done; lia.
Qed.

(** One operation of the builder itself. *)
Definition step (op : Op) (b : Builder) (data : LogSink) : option (Builder * LogSink) :=
  match op with
  | OpAdd k v => SeqDirBuilder.Add k v b data
  | OpEndTable fc ft => SeqDirBuilder.EndTable fc ft b data
  | OpFinishEpoch ep => SeqDirBuilder.FinishEpoch ep b data
  | OpOther _ => Some (b, data)
  end.

Lemma step_spec op b data g s B E :
  Rest b data g s B E -> op_ok op s -> B + cost op < 2 ^ 62 -> E + 600 < 2 ^ 31 -> epoch_cost op s E < 2 ^ 31 -> (forall x, op <> OpOther x) ->
  exists b' data', step op b data = Some (b', data') /\ Out b data b' data' (exists g', Rest b' data' g' (spec_op op s) (B + cost op) (epoch_cost op s E)).
Proof.
  intros HR Hok HB HE1 HE2 Hno. destruct op as [k v|fc ft|ep|x]; cbn [step op_ok cost epoch_cost spec_op] in *.
  - destruct (builder_Add_spec o d Hcf Hag k v b data g s B E HR Hok) as (b' & data' & E1 & HO); [lia|done|]. exists b', data'. split; [done|]. by rewrite Z.add_assoc.
  - destruct Hok as [Hfc Hnt]. destruct (EndTable_spec o d Hcf Hag fc ft b data g s B E HR Hfc Hnt) as (b' & data' & E1 & HO); [lia|lia|]. exists b', data'. split; [done|]. by rewrite Z.add_assoc.
  - destruct Hok as [Hep Hnt]. by apply FinishEpoch_spec with (g := g).
  - by destruct (Hno x).
Qed.

Lemma run_err ops rest ep s B E b data :
  Err b -> Valid (ops ++ rest) ep s B E -> exists data' st, run ops b data = Some (b, data', st) /\ Grows data data'.
Proof.
  revert s B E data. induction ops as [|op ops IH]; intros s B E data He HV; [by exists data, kOk|]. destruct HV as (Hok & _ & _ & _ & HV). destruct op as [k v|fc ft|ep'|x]; cbn [run].
  - rewrite Add_err; [by eapply IH|apply Hok|done].
  - rewrite EndTable_err by done. by eapply IH.
  - rewrite FinishEpoch_err by done. by eapply IH.
  - destruct (Lwrite_spec x data) as (st & data' & -> & Hg & _). destruct (ok st); [|by exists data', st].
    destruct (IH _ _ _ data' He HV) as (data2 & st2 & -> & Hg2). exists data2, st2. split; [done|]. by etrans.
Qed.

(** The status of the builder and of the other writes, and the invariant at the
    end of a run; [rest] is still to be done. *)
Definition Ran (ops rest : list Op) (ep : Z) (s : Spec) (B E : Z) (b : Builder) (data : LogSink) : Prop :=
  exists b' data' st, run ops b data = Some (b', data', st) /\ finished_b b' = false /\ Grows data data'
    /\ (quiet data -> quiet (indx_sink_ b) -> quiet data' /\ quiet (indx_sink_ b') /\ status_b b' = kOk /\ st = kOk)
    /\ (status_b b' = kOk -> st = kOk -> exists g' B' E', Rest b' data' g' (spec_run ops s) B' E' /\ Valid rest ep (spec_run ops s) B' E').

Lemma builder_run_spec ops rest ep s B E b data g : Rest b data g s B E -> Valid (ops ++ rest) ep s B E -> Ran ops rest ep s B E b data.
Proof.
  revert s B E b data g. induction ops as [|op ops IH]; intros s B E b data g HR HV.
  { exists b, data, kOk. pose proof (i_core _ _ _ _ _ _ _ _ HR) as HC. split; [done|]. split; [apply HC|]. split; [reflexivity|]. split; [intros; split_and!; try done; apply HC|].
    intros _ _. by exists g, B, E. }
  destruct HV as (Hok & HB & HE1 & HE2 & HV).
  assert (Hcase : (exists x, op = OpOther x) \/ (forall x, op <> OpOther x)) by (destruct op; [right; by intros ?..|left; by eexists]). destruct Hcase as [[x ->]|Hno].
  - destruct (Other_spec x b data g s B E HR Hok HB) as (st & data1 & E1 & Hg & Hq & HR1). unfold Ran. cbn [run]. rewrite E1. destruct (ok st) eqn:Est.
    + apply ok_true in Est. destruct (IH _ _ _ _ _ _ (HR1 Est) HV) as (b2 & data2 & st2 & E2 & Hf & Hg2 & Hq2 & HR2). exists b2, data2, st2. split; [done|]. split; [done|].
      split; [by etrans|]. split; [|done]. intros Hqd Hqi. apply Hq2; [by apply Hq|done].
    + apply ok_false in Est. exists b, data1, st. split; [done|]. split; [apply (i_core _ _ _ _ _ _ _ _ HR)|]. split; [done|]. split; [|done]. intros Hqd _. by destruct (Hq Hqd) as [_ ?].
  - destruct (step_spec op b data g s B E HR Hok HB HE1 HE2 Hno) as (b1 & data1 & E1 & (Hg & Hf & _ & Hq & HR1)).
    assert (Erun : run (op :: ops) b data = run ops b1 data1).
    { destruct op as [k v|fc ft|ep'|x]; cbn [run step] in *; [by rewrite E1..|]. by destruct (Hno x). }
    unfold Ran. rewrite Erun. destruct (decide (status_b b1 = kOk)) as [Est|Est].
    + destruct (HR1 Est) as [g1 HR1']. destruct (IH _ _ _ _ _ _ HR1' HV) as (b2 & data2 & st2 & E2 & Hf2 & Hg2 & Hq2 & HR2). exists b2, data2, st2.
      split; [done|]. split; [done|]. split; [by etrans|]. split; [|done]. intros Hqd Hqi. destruct (Hq Hqd Hqi) as (? & ? & _). by apply Hq2.
    + destruct (run_err ops rest ep _ _ _ b1 data1 (conj Est Hf) HV) as (data2 & st2 & E2 & Hg2). exists b1, data2, st2. split; [done|]. split; [done|]. split; [by etrans|].
      split; [|done]. intros Hqd Hqi. by destruct (Hq Hqd Hqi) as (_ & _ & ?).
Qed.

(** ** The end of the directory *)

(** What the logs of a finished directory hold. *)
Definition LogsAt (fx fd : bytes) (s : Spec) : Prop :=
  exists eps h c x fb, let f := set_num_epochs (s_next s) (set_epoch_index_handle h (Mkfoot o)) in
    Footer.DecodeFrom fb = Some (f, []) /\ zlen fb = Footer.kEncodedLength /\ fx = x ++ fb /\ BlockAt o fx h c /\ BlockOk c (root_entries eps)
    /\ EpochsAt d fx fd eps /\ StronglySorted (fun a b => a.1 < b.1) eps /\ (fun x => (x.1, epoch_entries x.2.2)) <$> eps = s_eps s
    /\ 0 <= s_next s <= kMaxEpochNo + 1.

Lemma footer_ok h n : handle_wf h -> 0 <= n <= kMaxEpochNo + 1 -> footer_wf (set_num_epochs n (set_epoch_index_handle h (Mkfoot o))).
Proof.
  intros Hh Hn. destruct Hcf. unfold set32, unset32, kMaxEpochNo in *. constructor; cbn.
  - done.
  - rewrite !u32_small by (unfold in_width; lia). rewrite !Forall_cons, Forall_nil. unfold set32, unset32. split_and!; try done; lia.
  - rewrite u8_small by (unfold in_width; lia). assert (0 <= u8 (mode_code (mode o)) < 255) by (by destruct (mode o)).
    assert (Hbit : forall b, 0 <= b2z b < 255) by (by intros []). rewrite !Forall_cons, Forall_nil. repeat (split; [apply Hbit || done|]). done.
  - by destruct (mode o).
Qed.

Lemma write_root_spec b data g s B E :
  Rest (set_finished_b false b) data g s B E -> s_table s = [] -> B + 2 ^ 21 + index_buffer o < 2 ^ 62 ->
  exists b', SeqDirBuilder.write_root b = Some b' /\ (quiet (indx_sink_ b) -> status_b b' = kOk) /\ Grows (indx_sink_ b) (indx_sink_ b')
    /\ (status_b b' = kOk -> LogsAt (LogSink.file (indx_sink_ b')) (LogSink.file data) s).
Proof.
  intros HR Hnil HB. pose proof (i_core _ _ _ _ _ _ _ _ HR) as HC. unfold SeqDirBuilder.write_root. destruct (c_root _ _ _ _ _ _ HC) as [HIr Hrok]. cbn [root_block_ set_finished_b] in HIr.
  pose proof (i_root _ _ _ _ _ _ _ _ HR) as Hroot. pose proof (c_eps _ _ _ _ _ _ HC) as Hne. pose proof (i_next _ _ _ _ _ _ _ _ HR) as Hnx. cbn [num_eps_ set_finished_b] in Hne, Hnx.
  pose proof (i_X _ _ _ _ _ _ _ _ HR) as HX. rewrite Hnil in HX. cbn [kweight indx_sink_ set_finished_b num_eps_] in HX.
  pose proof (weight_nonneg (root_entries (g_eps g))). pose proof (weight_nonneg (meta_entries (num_eps_ b) (g_ts g))). unfold kMaxEpochNo in *. pose proof (cf_buffer _ Hcf).
  destruct (IndexBlk_Finish _ _ HIr ltac:(lia) Hrok) as (c & root & -> & Hc & Hcz & Hcb & _). cbn [indx_sink_ set_root_block_].
  pose proof (c_opt _ _ _ _ _ _ HC) as Ho. cbn [o_ set_finished_b] in Ho. rewrite Ho. destruct (c_indx _ _ _ _ _ _ HC) as [HS Hp]. cbn [indx_sink_ set_finished_b] in HS, Hp.
  destruct (log_Write_spec o kRtChunk c (indx_sink_ b)) as (st & h & s1 & -> & Hg1 & Hq1 & Hw1). unfold SeqDirBuilder.okb at 1. cbn [status_b set_status_b set_indx_sink_].
  destruct (ok st) eqn:Est; cbn [negb].
  2: { apply ok_false in Est. eexists. split; [reflexivity|]. cbn. split; [|done]. intros Hq. destruct (Hq1 Hq) as [_ Hst]. apply Hst, HS. }
  apply ok_true in Est as ->. destruct (Hw1 eq_refl HS Hp Hcb ltac:(lia)) as (HS1 & Ho1 & HB1). unfold SeqDirBuilder.update_stats. cbn [num_eps_ set_stats_ set_indx_sink_ set_status_b set_root_block_ indx_sink_].
  destruct (footer_round _ (footer_ok h (num_eps_ b) (BlockAt_wf _ _ _ _ HB1) Hne)) as (fb & -> & Hfz & Hfb & Hfd).
  destruct (log_Finish_spec o fb s1 (cf_tail _ Hcf)) as (st & s2 & -> & Hg2 & Hq2 & Hw2). eexists. split; [reflexivity|]. cbn [status_b set_indx_sink_ set_status_b indx_sink_].
  split; [intros Hq; destruct (Hq1 Hq) as [Hqs _]; destruct (Hq2 Hqs) as [_ Hst]; apply Hst, HS1|]. split; [by etrans|]. intros ->.
  change Footer.kEncodedLength with 50 in Hfz. destruct (Hw2 eq_refl HS1 ltac:(lia) ltac:(lia)) as (HS2 & x & Hfx). unfold LogsAt. rewrite <- Hnx.
  assert (Hgr : grown (LogSink.file (indx_sink_ b)) (LogSink.file s2)) by (apply Grows_grown; by etrans).
  exists (g_eps g), h, c, x, fb. split; [done|]. split; [done|]. split; [done|]. split; [by eapply BlockAt_grows|]. split; [done|].
  split; [eapply EpochsAt_grown; [exact Hgr|apply grown_refl|apply HC]|]. split; [apply HC|]. split; [apply HR|]. done.
Qed.

(** The whole of [Finish]. *)
Lemma Finish_builder_spec ep b data g s B E :
  Rest b data g s B E -> Valid [] ep s B E ->
  exists b' data', SeqDirBuilder.Finish ep b data = Some (b', data') /\ Grows data data'
    /\ (quiet data -> quiet (indx_sink_ b) -> status_b b' = kOk)
    /\ (status_b b' = kOk -> LogsAt (LogSink.file (indx_sink_ b')) (LogSink.file data') (spec_Finish ep s)).
Proof.
  intros HR (Hep & Hnt & HB & HE). pose proof (i_core _ _ _ _ _ _ _ _ HR) as HC. pose proof (cf_buffer _ Hcf). unfold SeqDirBuilder.Finish, spec_Finish. rewrite (c_open _ _ _ _ _ _ HC), (i_next _ _ _ _ _ _ _ _ HR).
  set (ep' := if ep <? s_next s then s_next s else ep).
  destruct (EndTable_spec o d Hcf Hag [] kUnknown b data g s B E HR ltac:(by left) ltac:(lia)) as (b1 & d1 & -> & HO1); [change (zlen []) with 0; lia|lia|]. change (2 * zlen []) with 0 in HO1.
  assert (Hs1 : s_table (spec_EndTable s) = [] /\ s_next (spec_EndTable s) = s_next s /\ s_tabs (spec_EndTable s) <= s_tabs s + 1).
  { unfold spec_EndTable. destruct (s_table s) eqn:Et; cbn; split_and!; try done; lia. }
  destruct Hs1 as (Hnil & Hnx & Hnt1). set (s1 := spec_EndTable s) in *.
  assert (HO2 : exists b2 d2, (if SeqDirBuilder.okb b1 && negb (num_tabls_ b1 =? 0) then SeqDirBuilder.FinishEpoch ep' b1 d1 else Some (b1, d1)) = Some (b2, d2)
    /\ Out b data b2 d2 (exists g2 E2, Rest b2 d2 g2 (if s_tabs s1 =? 0 then s1 else spec_FinishEpoch ep' s1) (B + 900) E2)).
  { destruct (decide (status_b b1 = kOk)) as [Est|Est].
    2: { exists b1, d1. unfold SeqDirBuilder.okb. rewrite (proj2 (ok_false _) Est). split; [done|]. eapply Out_trans; [exact HO1|by intros _ ?|done]. }
    pose proof HO1 as (_ & _ & _ & _ & HP). destruct (HP Est) as (g1 & HR1). clear HP. unfold SeqDirBuilder.okb. rewrite Est. change (ok kOk) with true. cbn [andb].
    rewrite (c_tabls _ _ _ _ _ _ (i_core _ _ _ _ _ _ _ _ HR1)). destruct (i_tabs _ _ _ _ _ _ _ _ HR1) as [Htz _]. rewrite Htz.
    destruct (Z.eqb_spec (s_tabs s1) 0) as [Et|Et]; cbn [negb].
    - exists b1, d1. split; [done|]. eapply Out_impl; [|exact HO1]. intros (g2 & HR2). exists g2, (E + 300). eapply rest_weaken; [exact HR2|lia|lia].
    - assert (Hlive : s_next s1 <= kMaxEpochNo) by (apply (i_live _ _ _ _ _ _ _ _ HR1); right; pose proof (zlen_nonneg (g_ts g1)); lia).
      destruct (FinishEpoch_spec o d Hcf Hag ep' b1 d1 g1 s1 _ _ HR1) as (b2 & d2 & -> & HO2); [subst ep'; destruct (ep <? s_next s); lia|lia|lia|lia|].
      exists b2, d2. split; [done|]. eapply Out_trans; [exact HO1| |done]. intros _ _. eapply Out_impl; [|exact HO2]. intros (g2 & HR2). eexists g2, _. eapply rest_weaken; [exact HR2|lia|reflexivity]. }
  destruct HO2 as (b2 & d2 & -> & (Hg2 & Hf2 & _ & Hq2 & HP2)). unfold SeqDirBuilder.okb at 1. cbn [status_b set_finished_b].
  destruct (ok (status_b b2)) eqn:Est; cbn [negb].
  2: { apply ok_false in Est. do 2 eexists. split; [reflexivity|]. split; [done|]. cbn. split; [|done]. intros Hqd Hqi. by destruct (Hq2 Hqd Hqi) as (_ & _ & ?). }
  apply ok_true in Est. destruct (HP2 Est) as (g2 & E2 & HR2). set (s2 := if s_tabs s1 =? 0 then s1 else spec_FinishEpoch ep' s1) in *.
  assert (Hnil2 : s_table s2 = []).
  { subst s2. destruct (s_tabs s1 =? 0) eqn:Et; [done|]. unfold spec_FinishEpoch. destruct (ep' <? s_next s1); [done|].
    assert (Es1 : spec_EndTable s1 = s1) by (unfold spec_EndTable at 1; by rewrite Hnil). by rewrite Es1, Et. }
  destruct (Rest_empty _ _ _ _ _ _ _ _ HR2 Hnil2) as (_ & _ & Hp2 & _). pose proof (c_pend _ _ _ _ _ _ (i_core _ _ _ _ _ _ _ _ HR2)) as HP. unfold Pending in HP. rewrite Hp2 in HP.
  cbn [pending_indx_entry_ set_finished_b]. rewrite HP.
  assert (HR3 : Rest (set_finished_b false (set_finished_b true b2)) d2 g2 s2 (B + 900) E2) by (replace (set_finished_b false (set_finished_b true b2)) with b2; [done|by destruct b2; cbn in *; subst]).
  destruct (write_root_spec (set_finished_b true b2) d2 g2 s2 _ _ HR3 Hnil2) as (b3 & -> & Hq3 & _ & HL); [lia|].
  exists b3, d2. split; [done|]. split; [done|]. split; [|done]. intros Hqd Hqi. apply Hq3. by apply Hq2.
Qed.

End RunSpec.

End Run.
