(* ===== verification/PlfsProps.v ===== *)
(** * Indexed directories: what is added is what is read

    The end-to-end property of the builder and the reader of a directory, for both
    formats of data blocks. *)
From stdpp Require Import sorting.
From S2P Require Import Prelude Coding Status Crc32c Gigaplus XXHashImpl Filter Cuckoo SstBlock SstBlockProps PlfsFormat PlfsFormatLemmas PlfsLog PlfsLogLemmas.
From S2P Require Import PlfsBuilder PlfsReader PlfsBlocks PlfsReaderLemmas PlfsChunks PlfsBuilderInv PlfsBuilderSpec PlfsBuilderAdd PlfsBuilderRun.

(** ** New builders and logs *)

Section New.
Context `{Snappy} `{XXHash} (o : DirOptions) {T : Type} `{!DataBlock T} `{!DataBlockLaws o T} (d : Dir).
Context (Hcf : Config o) (Hag : agree o (d_options d)).

Lemma Open_Sink buffered outs : let s := LogSink.Open false buffered outs in Sink s /\ prev_off_ s = 0 /\ LogSink.file s = [] /\ off_ s = 0 /\ index_ s = -1.
Proof.
  assert (Hf : LogSink.file (LogSink.Open false buffered outs) = []) by reflexivity.
  by split_and!.
Qed.

Lemma builder_New_spec buffered outs buffered' outs' b :
  SeqDirBuilder.New o (LogSink.Open false buffered outs) = Some b ->
  Rest o d (T := T) b (LogSink.Open false buffered' outs') (mkGhost [] [] [] [] [] []) spec_New 0 0 /\ indx_sink_ b = LogSink.Open false buffered outs.
Proof.
  unfold SeqDirBuilder.New. destruct (floor_to_size_t _) as [th|]; [|done]. intros [= <-]. split; [|done].
  destruct (Open_Sink buffered outs) as (S1 & S2 & S3 & S4 & _). destruct (Open_Sink buffered' outs') as (S1' & S2' & S3' & S4' & _).
  destruct law_new as [Hsh Hco]. unfold SeqDirBuilder.update_buf. destruct (law_set_buf (Buffer.clear (db_buf (db_New o))) (db_New o) Hsh eq_refl) as [Hsh1 Hb1].
  constructor; try done.
  - constructor; try done; try apply IndexBlk_New; try (split; [apply IndexBlk_New|by constructor]); try (by constructor); try (by split; constructor);
      try (by intros _; split; [|constructor]).
    + intros _. rewrite S3'. apply Z.divide_0_r.
    + cbn. by rewrite Hb1.
    + unfold Buf. cbn. split; [done|]. unfold SeqDirBuilder.buffer_store. cbn. by rewrite Hb1.
  - by left.
  - intros _ _. constructor.
  - split; constructor.
Qed.

End New.

(** ** Opening a directory *)

Section Open.
Context `{Snappy} `{XXHash} (o ro : DirOptions) (Hcf : Config o) (Hag : agree o ro).

Lemma Verify_ok h n : Dir.VerifyOptions ro (set_num_epochs n (set_epoch_index_handle h (Mkfoot o))) = kOk.
Proof.
  destruct Hcf, Hag. unfold Dir.VerifyOptions, set32, unset32 in *. cbn. rewrite ag_lg, ag_key, ag_value, ag_fixed, ag_ldb, ag_rotation, ag_skip, ag_filter, ag_mode.
  rewrite !u32_small by (unfold in_width; lia). rewrite s32_small by lia. rewrite !Z.eqb_refl. rewrite u8_small by (unfold in_width; lia). rewrite Z.eqb_refl.
  rewrite u8_small by (by destruct (mode o)). rewrite Z.eqb_refl.
  by destruct (fixed_kv_length o), (leveldb_compatible o), (epoch_log_rotation o), (skip_checksums o).
Qed.

(** The predicates on logs depend on the options only. *)
Lemma EpochsAt_options d d' fx fd eps : d_options d = d_options d' -> EpochsAt d fx fd eps -> EpochsAt d' fx fd eps.
Proof.
  intros Ed Hall. eapply Forall_impl; [exact Hall|]. intros x [Hw [H1 H2 (c & Hc & Hok) H4]]. split; [done|]. constructor; try done.
  - exists c. by rewrite <- Ed.
  - eapply Forall_impl; [exact H4|]. intros t [T1 T2 (c' & Tc & Tok) T4 T5 T6 T7]. constructor; try done.
    + exists c'. by rewrite <- Ed.
    + eapply Forall_impl; [exact T4|]. intros b (Hne & y & Hb & Hg). split; [done|]. exists y. by rewrite <- Ed.
    + by rewrite <- Ed.
    + rewrite <- Ed. intros Hu. destruct (T7 Hu) as (? & ? & ?). split; [done|]. split; [done|]. by rewrite <- Ed.
Qed.

Lemma spec_entries_stored eps e : spec_entries ((fun x => (x.1, epoch_entries x.2.2)) <$> eps) e = stored eps e.
Proof. unfold stored. induction eps as [|[e' [h ts]] eps IH]; [done|]. cbn -[epoch_entries]. by destruct (e =? e'). Qed.

Context (d0 : Dir) (Hd0 : d_options d0 = ro) (Hn : num_epochs ro = -1).

Lemma Open_spec fx fd s ri rd :
  LogsAt o d0 fx fd s ->
  let indx := mkSource [fx] ri in let data := mkSource [fd] rd in
  (exists st, Dir.Open ro indx data = Some (inl st) /\ st <> kOk /\ ~ faultless indx)
  \/ exists d eps, Dir.Open ro indx data = Some (inr d) /\ d_options d = ro /\ d_num_eps d = s_next s /\ d_data d = data /\ d_indx d = indx
       /\ DirAt d fx eps /\ forall e, stored eps e = spec_entries (s_eps s) e.
Proof.
  intros (eps & h & c & x & fb & Hdec & Hfz & Hfx & HB & Hc & HE & Hinc & Heps & Hnx) indx data. unfold Dir.Open.
  assert (Hsz : LogSource.Size 0 indx = zlen x + 50) by (change (LogSource.Size 0 indx) with (zlen fx); rewrite Hfx, zlen_app, Hfz; done).
  pose proof (zlen_nonneg x). change Footer.kEncodedLength with 50 in *. rewrite Hsz. destruct (Z.ltb_spec (zlen x + 50) 50); [lia|].
  replace (zlen x + 50 - 50) with (zlen x) by lia. unfold LogSource.Read. change (src_files indx !! Z.to_nat 0) with (Some fx).
  set (st := read_status indx 0 (zlen x) 50). destruct (ok st) eqn:Est; cbn iota; rewrite Est; cbn [negb].
  2: { left. apply ok_false in Est. exists st. split; [done|]. split; [done|]. intros Hf. apply Est, Hf. }
  assert (Hread : take (Z.to_nat 50) (drop (Z.to_nat (zlen x)) fx) = fb).
  { rewrite Hfx, drop_app_length' by (unfold zlen; lia). apply take_ge. unfold zlen in Hfz. lia. }
  rewrite Hread, Hdec. cbn [epoch_index_handle set_num_epochs set_epoch_index_handle num_epochs_].
  assert (Hver : (if paranoid_checks ro then Dir.VerifyOptions ro (set_num_epochs (s_next s) (set_epoch_index_handle h (Mkfoot o))) else kOk) = kOk) by (rewrite Verify_ok; by destruct (paranoid_checks ro)).
  rewrite Hver. change (ok kOk) with true. cbn [negb].
  assert (HB' : BlockAt ro fx h c) by (unfold BlockAt in *; by rewrite (ag_skip _ _ Hag)).
  destruct (ReadBlock_BlockAt ro indx fx 0 h c HB' eq_refl) as (st2 & y & -> & Hst2 & Hy). destruct (ok st2) eqn:Est2; cbn [negb].
  2: { left. apply ok_false in Est2. exists st2. split; [done|]. split; [done|]. intros Hf. apply Est2. rewrite Hst2. apply Hf. }
  apply ok_true in Est2. rewrite (Hy Est2), Hn. cbn [negb andb Z.eqb]. right. eexists _, eps. split; [reflexivity|]. cbn [d_options d_num_eps d_data d_indx].
  split_and!; try done; [|intros e; by rewrite <- Heps, spec_entries_stored]. constructor; cbn [d_rt d_data]; try done.
  eapply Forall_impl; [exact (EpochsAt_options d0 (mkDir ro (s_next s) data indx c) _ _ _ Hd0 HE)|]. intros z [Hw Hz]. split; [done|]. exists fd. split; [|done].
  unfold Dir.file_index, Dir.opts. cbn [d_options]. by rewrite (ag_rotation _ _ Hag), (cf_rotation _ Hcf).
Qed.

End Open.

(** ** The round trip *)

(** The values of a key in an epoch: all of them, or the first one where keys are
    unique. *)
Definition spec_values (o : DirOptions) (s : Spec) (key : bytes) (e : Z) : list bytes :=
  pick (IsKeyUnique (mode o)) (values key (spec_entries (s_eps s) e)).

Definition spec_epochs (s : Spec) (r : EpochRange) : list Z := seqZ (epoch_start r) (Z.min (s_next s) (epoch_end r) - epoch_start r).

(** What a read of a range of epochs appends to its result. *)
Definition spec_read (o : DirOptions) (s : Spec) (key : bytes) (r : EpochRange) : bytes :=
  concat (concat (spec_values o s key <$> spec_epochs s r)).

(** The size of the buffer that collects the results of parallel reads. *)
Definition spec_buffer (o : DirOptions) (s : Spec) (key : bytes) (r : EpochRange) : Z :=
  zlen (concat (item_bytes <$> concat ((fun e => (fun v => (e, v)) <$> spec_values o s key e) <$> spec_epochs s r))).

Section Round.
Context `{Snappy} `{XXHash} (o ro : DirOptions) {T : Type} `{!DataBlock T} `{!DataBlockLaws o T}.

(** A finished directory reads as the specification says. *)
Definition ReadsAs (s : Spec) (indx data : LogSource) : Prop :=
  exists x, Dir.Open ro indx data = Some x /\ (faultless indx -> exists d, x = inr d)
    /\ forall d, x = inr d -> forall key r dst, bytes_ok key -> 0 <= epoch_start r ->
         (parallel_reads ro = true -> spec_buffer o s key r < 2 ^ 32) ->
         exists st out, Dir.Read d r key dst = Some (st, out) /\ (faultless indx -> faultless data -> st = kOk)
           /\ (st = kOk -> out = dst ++ spec_read o s key r).

Lemma logs_read d0 fx fd s ri rd :
  Config o -> agree o ro -> d_options d0 = ro -> num_epochs ro = -1 -> LogsAt o d0 fx fd s -> ReadsAs s (mkSource [fx] ri) (mkSource [fd] rd).
Proof.
  intros Hcf Hag Hd0 Hn HL. pose proof HL as (_ & _ & _ & _ & _ & _ & _ & _ & _ & _ & _ & _ & _ & Hnx).
  destruct (Open_spec o ro Hcf Hag d0 Hd0 Hn fx fd s ri rd HL) as [(st & E & Hst & Hf)|(d & eps & E & Ho & Hne & Hdd & Hdi & HD & Hs)].
  { exists (inl st). split; [done|]. split; [by intros ?%Hf|done]. }
  exists (inr d). split; [done|]. split; [by eexists|]. intros d' [= <-] key r dst Hk Hr Hpar.
  assert (Ees : Dir.epochs d r = spec_epochs s r).
  { unfold Dir.epochs, spec_epochs. rewrite Hne. destruct (Z.eqb_spec (s_next s) 0) as [E0|]; [|done]. rewrite E0. by rewrite seqZ_nil by lia. }
  assert (Ef : forall e, found d eps key e = spec_values o s key e) by (intros e; unfold found, spec_values; by rewrite Ho, (ag_mode _ _ Hag), Hs).
  assert (Ei : items d eps key (spec_epochs s r) = concat ((fun e => (fun v => (e, v)) <$> spec_values o s key e) <$> spec_epochs s r)).
  { unfold items. f_equal. apply list_fmap_ext. intros i e _. by rewrite Ef. }
  destruct (Read_spec d fx ltac:(by rewrite Hdi) eps HD key Hk r dst Hr) as (st & out & ER & Hnf & Hout).
  { rewrite Hne. unfold kMaxEpochNo in *. lia. }
  { rewrite Ho, Ees, Ei. exact Hpar. }
  exists st, out. split; [done|]. split; [intros F1 F2; apply Hnf; split; by rewrite ?Hdd, ?Hdi|]. intros Hst. rewrite (Hout Hst), Ees. unfold spec_read. do 3 f_equal.
  apply list_fmap_ext. intros i e _. apply Ef.
Qed.

(** C5. Round trip of indexed directories.  A directory is built by any valid run:
    entries are added, tables and epochs end, other partitions write to the shared
    data log in between, and the directory is finished.  No assertion fails, and
    the status is OK when no write fails.  When the status is OK the logs can be
    opened, and reading a key over a range of epochs gives exactly the values added
    under it, epoch by epoch in the order of their addition, only the first one in
    the modes with unique keys: with any layout of blocks, tables and padding, any
    index compression, with and without filters and parallel reads, and for both
    formats of data blocks.  Reads that fail are reported. *)
Theorem plfsdir_round ops ep outs outs' b0 :
  Config o -> agree o ro -> num_epochs ro = -1 ->
  SeqDirBuilder.New o (LogSink.Open false true outs) = Some b0 -> Valid o (T := T) ops ep spec_New 0 0 ->
  exists b data st, run_finish ops ep b0 (LogSink.Open false true outs') = Some (b, data, st)
    /\ (outs = [] -> outs' = [] -> status_b b = kOk /\ st = kOk)
    /\ (status_b b = kOk -> st = kOk -> forall ri rd,
          ReadsAs (spec_Finish ep (spec_run o ops spec_New)) (mkSource [LogSink.file (indx_sink_ b)] ri) (mkSource [LogSink.file data] rd)).
Proof.
  intros Hcf Hag Hn Hnew HV. set (d0 := mkDir ro 0 (mkSource [] (fun _ _ _ => kOk)) (mkSource [] (fun _ _ _ => kOk)) []).
  destruct (builder_New_spec o d0 true outs true outs' b0 Hnew) as [HR Hi].
  rewrite <- (app_nil_r ops) in HV. destruct (builder_run_spec o d0 Hcf Hag ops [] ep _ _ _ _ _ _ HR HV) as (b1 & data1 & st1 & E1 & Hf1 & _ & Hq1 & HR1). unfold run_finish. rewrite E1.
  assert (Hquiet : outs = [] -> outs' = [] -> quiet data1 /\ quiet (indx_sink_ b1) /\ status_b b1 = kOk /\ st1 = kOk) by (intros -> ->; apply Hq1; [done|by rewrite Hi]).
  destruct (ok st1) eqn:Est1.
  2: { apply ok_false in Est1. exists b1, data1, st1. split; [done|]. split; [|done]. intros Ho1 Ho2. destruct (Hquiet Ho1 Ho2) as (_ & _ & ? & ?). done. }
  apply ok_true in Est1. destruct (decide (status_b b1 = kOk)) as [Es|Es].
  - destruct (HR1 Es Est1) as (g' & B' & E' & HR' & HV'). destruct (Finish_builder_spec o d0 Hcf Hag ep b1 data1 g' _ B' E' HR' HV') as (b2 & data2 & -> & _ & Hq2 & HL).
    exists b2, data2, kOk. split; [done|]. split; [intros Ho1 Ho2; destruct (Hquiet Ho1 Ho2) as (? & ? & _); split; [by apply Hq2|done]|].
    intros Hs2 _ ri rd. eapply (logs_read d0); try done. by apply HL.
  - rewrite Finish_err by done. exists (set_finished_b true b1), data1, kOk. split; [done|]. split; [|done]. intros Ho1 Ho2. by destruct (Hquiet Ho1 Ho2) as (_ & _ & ? & _).
Qed.

End Round.

(** ** A directory *)

(** Entries in two epochs and three tables, small padded blocks, compressed index
    blocks and parallel reads; another partition writes in between. *)
Module PlfsDemo.
Import SstBlockProps.ZeroSnappy.
#[local] Existing Instance XXHashImpl.pdlfs_xxhash.

Definition o : DirOptions :=
  mkOptions false false false 8 8 kFtNoFilter 8 kFmtUncompressed 24 48 (F64.of_Z 1) true 96 0 0 false false
    true false false kNoCompression kSnappyCompression true true false (-1) 0 kDmMultiMap.

Definition k1 : bytes := [97; 97].
Definition k2 : bytes := [98; 98].
Definition k3 : bytes := [99].

Definition ops : list Op :=
  [OpAdd k1 [1; 2]; OpAdd k2 [3]; OpAdd k2 [4]; OpAdd k3 [5]; OpEndTable [] kUnknown; OpAdd k2 [6]; OpFinishEpoch 0;
   OpOther (replicate 48 7); OpAdd k2 [8; 9]].

Definition log0 : LogSink := LogSink.Open false true [].

Definition built : option (SeqDirBuilder BlockBuilder * LogSink * Status) :=
  let? b0 := SeqDirBuilder.New (T := BlockBuilder) o log0 in run_finish ops 1 b0 log0.

Definition read (key : bytes) (r : EpochRange) : option (Status * bytes) :=
  let? (b, data, st) := built in
  let source f := mkSource [f] (fun _ _ _ => kOk) in
  match Dir.Open o (source (LogSink.file (indx_sink_ b))) (source (LogSink.file data)) with
  | Some (inr d) => Dir.Read d r key []
  | _ => None
  end.

Example demo_reads :
  read k2 (mkRange 0 10) = Some (kOk, [3; 4; 6; 8; 9]) /\ read k2 (mkRange 1 2) = Some (kOk, [8; 9]) /\ read k1 (mkRange 0 1) = Some (kOk, [1; 2])
  /\ (let? (b, _, _) := built in Some (total_num_blocks_ (stats_ b), total_num_tables_ (stats_ b))) = Some (4, 3).
Proof. vm_compute. done. Qed.

#[local] Instance demo_laws : DataBlockLaws o BlockBuilder := sst_laws o eq_refl.

Lemma Valid_cons op ops ep s B E :
  op_ok o (T := BlockBuilder) op s -> (B + cost o op <? 2 ^ 62) && (E + 600 <? 2 ^ 31) && (epoch_cost op s E <? 2 ^ 31) = true ->
  Valid o (T := BlockBuilder) ops ep (spec_op o op s) (B + cost o op) (epoch_cost op s E) -> Valid o (T := BlockBuilder) (op :: ops) ep s B E.
Proof. intros Hok [[H1%Z.ltb_lt H2%Z.ltb_lt]%andb_true_iff H3%Z.ltb_lt]%andb_true_iff HV. cbn [Valid]. by split_and!. Qed.

Lemma demo_add k v s :
  k <> [] -> bytes_ok k -> bytes_ok v -> (s_next s <=? 9999) && (seq (last_of [] (s_table s)) [] || sle (last_of [] (s_table s)) k) = true -> s_table s = [] \/ last_of [] (s_table s) <> [] ->
  op_ok o (T := BlockBuilder) (OpAdd k v) s.
Proof.
  intros H1 H2 H3 [H4%Z.leb_le H5]%andb_true_iff H6. constructor; try done. intros _. destruct H6 as [?|H6]; [by left|right]. by rewrite (seq_nil _ H6) in H5.
Qed.

Ltac valid_steps :=
  lazymatch goal with
  | |- Valid _ (_ :: _) _ _ _ _ => apply Valid_cons; [|by vm_compute|valid_steps]
  | _ => idtac
  end.

Lemma demo_valid : Valid o (T := BlockBuilder) ops 1 spec_New 0 0.
Proof.
  unfold ops. valid_steps.
  all: try (apply demo_add; [done|by repeat constructor|by repeat constructor|by vm_compute|first [left; by vm_compute|right; by vm_compute]]).
  - split; [by left|by vm_compute].
  - split; by vm_compute.
  - intros _. by exists 1.
  - split_and!; by vm_compute.
Qed.

Lemma demo_new : exists b0, SeqDirBuilder.New (T := BlockBuilder) o log0 = Some b0.
Proof.
  unfold SeqDirBuilder.New. assert (E : floor_to_size_t (F64.mul (F64.of_Z (block_size o)) (block_util o)) = Some 48) by by vm_compute.
  rewrite E. by eexists.
Qed.

Lemma demo_config : Config o.
Proof. constructor; try done; by vm_compute. Qed.

Lemma demo_agree : agree o o.
Proof. by constructor. Qed.

Lemma plfsdir_round_witness :
  exists b0 b data st, SeqDirBuilder.New (T := BlockBuilder) o log0 = Some b0 /\ run_finish ops 1 b0 log0 = Some (b, data, st)
    /\ forall ri rd, ReadsAs o o (spec_Finish 1 (spec_run o ops spec_New)) (mkSource [LogSink.file (indx_sink_ b)] ri) (mkSource [LogSink.file data] rd).
Proof.
  pose proof demo_new as [b0 Hnew]. pose proof demo_config as Hcf.
  pose proof (plfsdir_round o o (T := BlockBuilder) (DataBlockLaws0 := demo_laws) ops 1 [] [] b0 Hcf demo_agree eq_refl Hnew demo_valid) as (b & data & st & E & Hok & HR).
  destruct (Hok eq_refl eq_refl) as [Hb Hst]. exists b0, b, data, st. split; [exact Hnew|]. split; [exact E|]. exact (HR Hb Hst).
Defined.

End PlfsDemo.
