(* ===== verification/PlfsBuffer.v ===== *)
(** * Write buffers and compaction (plfsio/v1: internal.h, internal.cc)

    [WriteBuffer] collects the entries of a table in memory: their encodings one
    after the other and the offset of each; [Finish] sorts the offsets by key.
    [FilteredDirCompactor] writes a finished buffer as a table: every entry goes
    to the filter and to the builder, then the table ends with the filter.
    [CompactMemtable] has what [DirIndexer] does to the buffer and the compactor
    while it does not hold its mutex.

    [std::sort] is the class [StdSort]: some arrangement of the elements in which
    none is smaller than one before it; nothing is said of equal elements.  Memory
    reservations are left out.  [None] is a failed assertion. *)
From Stdlib Require Import Floats.SpecFloat.
From S2P Require Import Prelude Coding Status Gigaplus Filter Cuckoo SstBlock PlfsFormat PlfsLog PlfsBuilder.

Class StdSort := {
  std_sort : (Z -> Z -> bool) -> list Z -> list Z;
  std_sort_perm : forall lt l, std_sort lt l ≡ₚ l;
  std_sort_sorted : forall lt l,
    (forall a, lt a a = false) -> (forall a b c, a ∈ l -> b ∈ l -> c ∈ l -> lt a b = true -> lt b c = true -> lt a c = true) ->
    (forall a b c, a ∈ l -> b ∈ l -> c ∈ l -> lt a b = false -> lt b c = false -> lt a c = false) ->
    forall i j a b, (i < j)%nat -> std_sort lt l !! i = Some a -> std_sort lt l !! j = Some b -> lt b a = false }.

(** ** Buffers *)

Record WriteBuffer := mkWb { wb_offsets : list Z; wb_buffer : bytes; wb_num_entries : Z; wb_finished : bool }.

Module WriteBuffer.

Definition New : WriteBuffer := mkWb [] [] 0 false.

Definition CurrentBufferSize (b : WriteBuffer) : Z := zlen (wb_buffer b).
Definition NumEntries (b : WriteBuffer) : Z := wb_num_entries b.
Definition NeedCompaction (b : WriteBuffer) : bool := false.

Definition Add (key value : bytes) (b : WriteBuffer) : option WriteBuffer :=
  if wb_finished b then None
  else if zlen key =? 0 then None
  else
    let offset := zlen (wb_buffer b) in
    Some (mkWb (wb_offsets b ++ [u32 offset]) (wb_buffer b ++ PutLengthPrefixedSlice key ++ PutLengthPrefixedSlice value)
            (u32 (wb_num_entries b + 1)) false).

(** [STLLessThan]: a key that cannot be read is empty, an assertion aside. *)
Definition GetKey (buffer : bytes) (offset : Z) : bytes :=
  match GetLengthPrefixedSlice (drop (Z.to_nat offset) buffer) with Some (key, _) => key | None => [] end.

Definition STLLessThan (buffer : bytes) (a b : Z) : bool := slt (GetKey buffer a) (GetKey buffer b).

Definition Finish `{StdSort} (skip_sort : bool) (b : WriteBuffer) : option WriteBuffer :=
  if wb_finished b then None
  else
    let offsets := if skip_sort then wb_offsets b else std_sort (STLLessThan (wb_buffer b)) (wb_offsets b) in
    Some (mkWb offsets (wb_buffer b) (wb_num_entries b) true).

Definition Reset (b : WriteBuffer) : WriteBuffer := mkWb [] [] 0 false.

End WriteBuffer.

(** ** Iterators *)

Record BufIter := mkBufIter { it_status : Status; it_value : bytes; it_key : bytes; it_buffer : WriteBuffer; it_cursor : Z }.

Module BufIter.

Definition Valid (it : BufIter) : bool := ok (it_status it) && (it_cursor it <? wb_num_entries (it_buffer it)).

(** [None]: the offset is past the end. *)
Definition TryParseNextEntry (it : BufIter) : option BufIter :=
  if Valid it then
    let? offset := wb_offsets (it_buffer it) !! Z.to_nat (it_cursor it) in
    let buffer := wb_buffer (it_buffer it) in
    if zlen buffer <? offset then None
    else
      Some (match GetLengthPrefixedSlice (drop (Z.to_nat offset) buffer) with
            | Some (key, input) =>
                match GetLengthPrefixedSlice input with
                | Some (value, _) => mkBufIter (it_status it) value key (it_buffer it) (it_cursor it)
                | None => mkBufIter kCorruption (it_value it) key (it_buffer it) (it_cursor it)
                end
            | None => mkBufIter kCorruption (it_value it) (it_key it) (it_buffer it) (it_cursor it)
            end)
  else Some it.

Definition at_ (cursor : Z) (it : BufIter) : BufIter := mkBufIter (it_status it) (it_value it) (it_key it) (it_buffer it) cursor.

Definition New (b : WriteBuffer) : option BufIter :=
  if wb_finished b then Some (mkBufIter kOk [] [] b (wb_num_entries b)) else None.

Definition SeekToFirst (it : BufIter) : option BufIter := TryParseNextEntry (at_ 0 it).
Definition SeekToLast (it : BufIter) : option BufIter :=
  let n := wb_num_entries (it_buffer it) in TryParseNextEntry (at_ (if negb (n =? 0) then n - 1 else 0) it).
Definition Next (it : BufIter) : option BufIter := if Valid it then TryParseNextEntry (at_ (u32 (it_cursor it + 1)) it) else None.
Definition Prev (it : BufIter) : option BufIter := if Valid it then TryParseNextEntry (at_ (u32 (it_cursor it - 1)) it) else None.

End BufIter.

(** ** Filters *)

(** The template argument [T] of the compactor with its object; a Bloom filter of 0
    bits per key is a null pointer, as the filter of [EmptyFilterBlock] is. *)
Inductive FilterBlock := FBloom (f : option Bloom.BloomBlock) | FBitmap (f : Bitmap.BitmapBlock) | FEmpty.

Module FilterBlock.
Section Filters.
Context `{XXHash}.

(** [OpenCompactor] and [OpenBitmapCompactor]. *)
Definition Open (o : DirOptions) : FilterBlock :=
  match filter_type o with
  | kFtBitmap => FBitmap (Bitmap.BitmapBlock_new (bm_key_bits o) (bm_fmt o))
  | kFtBloomFilter => FBloom (if negb (bf_bits_per_key o =? 0) then Some (Bloom.BloomBlock_new (bf_bits_per_key o)) else None)
  | _ => FEmpty
  end.

Definition Reset (num_keys : Z) (f : FilterBlock) : FilterBlock :=
  match f with
  | FBloom (Some f) => FBloom (Some (Bloom.Reset f num_keys))
  | FBitmap f => FBitmap (Bitmap.Reset f num_keys)
  | f => f
  end.

Definition AddKey (key : bytes) (f : FilterBlock) : option FilterBlock :=
  match f with
  | FBloom (Some f) => let? f := Bloom.AddKey f key in Some (FBloom (Some f))
  | FBitmap f => let? f := Bitmap.AddKey f key in Some (FBitmap f)
  | f => Some f
  end.

(** Without a filter the contents are empty. *)
Definition Finish (f : FilterBlock) : option (bytes * FilterBlock) :=
  match f with
  | FBloom (Some f) => let? (c, f) := Bloom.Finish f in Some (c, FBloom (Some f))
  | FBitmap f => let? (c, f) := Bitmap.Finish f in Some (c, FBitmap f)
  | f => Some ([], f)
  end.

Definition chunk_type (f : FilterBlock) : ChunkType :=
  match f with FBloom _ => kSbfChunk | FBitmap _ => kBmpChunk | FEmpty => kUnknown end.

End Filters.
End FilterBlock.

(** ** Compactors *)

Record Compactor (T : Type) := mkCompactor { c_filter : FilterBlock; c_builder : SeqDirBuilder T }.
Arguments mkCompactor {T}. Arguments c_filter {T}. Arguments c_builder {T}.

(** A compaction: its epoch and what it was asked to do. *)
Record Compaction := mkCompaction { c_epoch : Z; is_forced_ : bool; is_epoch_flush_ : bool; is_final : bool }.

Module Compactor.
Section Compactor.
Context `{Snappy} `{XXHash} `{StdSort} {T : Type} `{!DataBlock T}.
Local Abbreviation Builder := (SeqDirBuilder T).

Definition ok_ (c : Compactor T) : bool := ok (status_b (c_builder c)).

(** The loop of [Compact] over the entries. *)
Fixpoint compact_loop (fuel : nat) (it : BufIter) (f : FilterBlock) (b : Builder) (data : LogSink)
  : option (FilterBlock * Builder * LogSink) :=
  match fuel with
  | O => None
  | S fuel =>
      if BufIter.Valid it then
        let? f := FilterBlock.AddKey (it_key it) f in
        let? (b, data) := SeqDirBuilder.Add (it_key it) (it_value it) b data in
        if ok (status_b b) then let? it := BufIter.Next it in compact_loop fuel it f b data else Some (f, b, data)
      else Some (f, b, data)
  end.

Definition Compact (buf : WriteBuffer) (c : Compactor T) (data : LogSink) : option (Compactor T * LogSink) :=
  let? it := BufIter.New buf in
  let? it := BufIter.SeekToFirst it in
  let f := FilterBlock.Reset (WriteBuffer.NumEntries buf) (c_filter c) in
  let? (f, b, data) := compact_loop (S (length (wb_offsets buf))) it f (c_builder c) data in
  if negb (ok (status_b b)) then Some (mkCompactor f b, data)
  else
    let? (contents, f) := FilterBlock.Finish f in
    let? (b, data) := SeqDirBuilder.EndTable contents (FilterBlock.chunk_type f) b data in
    Some (mkCompactor f b, data).

Definition FinishEpoch (ep_seq : Z) (c : Compactor T) (data : LogSink) : option (Compactor T * LogSink) :=
  let? (b, data) := SeqDirBuilder.FinishEpoch ep_seq (c_builder c) data in Some (mkCompactor (c_filter c) b, data).

Definition Finish (ep_seq : Z) (c : Compactor T) (data : LogSink) : option (Compactor T * LogSink) :=
  let? (b, data) := SeqDirBuilder.Finish ep_seq (c_builder c) data in Some (mkCompactor (c_filter c) b, data).

(** What [CompactMemtable] does with a finished buffer while it does not hold the
    mutex. *)
Definition write_memtable (c : Compaction) (buf : WriteBuffer) (dir : Compactor T) (data : LogSink) : option (Compactor T * LogSink) :=
  let? (dir, data) := Compact buf dir data in
  if ok_ dir then
    if is_epoch_flush_ c && is_final c then Finish (c_epoch c) dir data
    else if is_epoch_flush_ c then FinishEpoch (c_epoch c) dir data
    else Some (dir, data)
  else Some (dir, data).

(** The part of [CompactMemtable] without the mutex; the buffer is reset later. *)
Definition CompactMemtable (o : DirOptions) (c : Compaction) (buf : WriteBuffer) (dir : Compactor T) (data : LogSink)
  : option (Compactor T * LogSink) :=
  let? buf := WriteBuffer.Finish (IsKeyUnOrdered (mode o) || skip_sort o) buf in
  write_memtable c buf dir data.

End Compactor.
End Compactor.

(** ** Sizes *)

(** The sizes [DirIndexer] computes: of a table, and the fill at which a buffer is
    switched.  [None] is a conversion of a float that is out of range. *)
Definition tb_bytes_ (total_memtable_budget : Z) (o : DirOptions) : Z :=
  u64 (total_memtable_budget / u32 (2 ^ lg_parts o) - block_batch_size o) / 2.

Definition buf_threshold_ (total_memtable_budget : Z) (memtable_util : spec_float) (o : DirOptions) : option Z :=
  floor_to_size_t (F64.mul (F64.of_Z (tb_bytes_ total_memtable_budget o)) memtable_util).
