(* ===== verification/PlfsBufferProps.v ===== *)
(** * Write buffers hold what was added

    [Holds b es]: an unfinished buffer has the entries [es], in the order in which
    they were added. *)
From stdpp Require Import sorting.
From S2P Require Import Prelude Coding Status Gigaplus SstBlock SstBlockProps PlfsFormat PlfsLog PlfsBuilder PlfsBlocks PlfsBuilderInv PlfsBuffer.

Definition enc (e : bytes * bytes) : bytes := PutLengthPrefixedSlice e.1 ++ PutLengthPrefixedSlice e.2.

(** The offsets of entries that start at [pos]. *)
Fixpoint starts (pos : Z) (es : list (bytes * bytes)) : list Z :=
  match es with [] => [] | e :: es => pos :: starts (pos + zlen (enc e)) es end.

Definition entry_ok (e : bytes * bytes) : Prop := e.1 <> [] /\ is_u32 (zlen e.1) /\ is_u32 (zlen e.2).

Record Holds (b : WriteBuffer) (es : list (bytes * bytes)) : Prop := {
  ho_buffer : wb_buffer b = concat (enc <$> es); ho_offsets : wb_offsets b = starts 0 es; ho_num : wb_num_entries b = zlen es;
  ho_open : wb_finished b = false; ho_size : zlen (wb_buffer b) < 2 ^ 32; ho_ok : Forall entry_ok es }.

Lemma Holds_New : Holds WriteBuffer.New [].
Proof. by constructor. Qed.

Lemma Holds_Reset b : Holds (WriteBuffer.Reset b) [].
Proof. by constructor. Qed.

Lemma zlen_enc e : 0 < zlen (enc e).
Proof.
  unfold enc, PutLengthPrefixedSlice. rewrite !zlen_app. pose proof (zlen_nonneg e.1). pose proof (zlen_nonneg e.2). pose proof (zlen_nonneg (EncodeVarint32 (u32 (zlen e.2)))).
  assert (0 < zlen (EncodeVarint32 (u32 (zlen e.1)))); [|lia]. apply zlen_pos. unfold EncodeVarint32. repeat case_match; done.
Qed.

Lemma starts_app pos es es' : starts pos (es ++ es') = starts pos es ++ starts (pos + zlen (concat (enc <$> es))) es'.
Proof.
  revert pos. induction es as [|e es IH]; intros pos; cbn; [by rewrite zlen_nil, Z.add_0_r|]. rewrite IH, zlen_app. do 3 f_equal. lia.
Qed.

Lemma starts_length pos es : zlen (starts pos es) = zlen es.
Proof. revert pos. induction es as [|e es IH]; intros pos; [done|]. cbn. by rewrite !zlen_cons, IH. Qed.

Lemma entries_count es : zlen es <= zlen (concat (enc <$> es)).
Proof. induction es as [|e es IH]; [done|]. cbn. rewrite zlen_cons, zlen_app. pose proof (zlen_enc e). lia. Qed.

Lemma Holds_Add b es k v :
  Holds b es -> entry_ok (k, v) -> zlen (wb_buffer b) + zlen (enc (k, v)) < 2 ^ 32 ->
  exists b', WriteBuffer.Add k v b = Some b' /\ Holds b' (es ++ [(k, v)]) /\ zlen (wb_buffer b') = zlen (wb_buffer b) + zlen (enc (k, v)).
Proof.
  intros [H1 H2 H3 H4 H5 H6] Hok Hz. pose proof Hok as (Hk & _). cbn in Hk. unfold WriteBuffer.Add. rewrite H4.
  apply zlen_pos in Hk. destruct (Z.eqb_spec (zlen k) 0) as [E|_]; [lia|]. eexists. split; [reflexivity|].
  assert (Eb : zlen (wb_buffer b ++ PutLengthPrefixedSlice k ++ PutLengthPrefixedSlice v) = zlen (wb_buffer b) + zlen (enc (k, v))) by (by rewrite zlen_app).
  pose proof (zlen_nonneg (wb_buffer b)). pose proof (zlen_enc (k, v)). split; [|done]. constructor; cbn [wb_buffer wb_offsets wb_num_entries wb_finished]; try done.
  - rewrite H1, fmap_app, concat_app. cbn. by rewrite app_nil_r.
  - rewrite H2, starts_app, u32_small by (unfold in_width; lia). cbn. by rewrite H1, Z.add_0_l.
  - rewrite H3, zlen_app, u32_small; [done|]. pose proof (entries_count es). rewrite <- H1 in *. pose proof (zlen_nonneg es). unfold in_width. lia.
  - lia.
  - apply Forall_app. split; [done|by constructor].
Qed.
