(* ===== verification/PlfsWriter.v ===== *)
(** * Writers of indexed directories (plfsio/v1: v1.cc, DirWriter; internal.cc, DirIndexer)

    A [DirWriter] takes entries from any number of threads, spreads them over its
    partitions by a hash of the key, and ends epochs.  Each partition is a
    [DirIndexer] with two write buffers: one is filled while the other is
    compacted, by a thread of a pool, or by the thread that filled it when there is
    no pool.

    The state is one record for everything the mutex protects.  A step is what one
    thread does from the moment it gets the mutex until it gives it up: when it
    returns, when it waits on a condition variable, or when it compacts a buffer or
    rotates the logs.  A thread that waits is asleep until a [SignalAll] of its
    condition variable.  [DirIndexer::Flush] is called with [wait] unset only.  The
    outcome of I/O (compactions, rotations, syncing) is part of the label of a
    step.  [calls] and [added] record what was given to the compactor and what was
    put into buffers; they are read by nobody. *)
From S2P Require Import Prelude Coding Status Gigaplus SstBlock PlfsFormat PlfsLog PlfsBuilder PlfsBuffer.

(** ** The hash function (hash.cc) *)

Definition hash_m : Z := 0xc6a4a793.

Fixpoint hash_loop (fuel : nat) (data : bytes) (h : Z) : Z :=
  match data with
  | a :: b :: c :: d :: data =>
      match fuel with
      | O => h
      | S fuel =>
          let h := u32 (u32 (h + DecodeFixed32 [a; b; c; d]) * hash_m) in hash_loop fuel data (Z.lxor h (Z.shiftr h 16))
      end
  | [a; b; c] => let h := u32 (u32 (h + Z.shiftl c 16 + Z.shiftl b 8 + a) * hash_m) in Z.lxor h (Z.shiftr h 24)
  | [a; b] => let h := u32 (u32 (h + Z.shiftl b 8 + a) * hash_m) in Z.lxor h (Z.shiftr h 24)
  | [a] => let h := u32 (u32 (h + a) * hash_m) in Z.lxor h (Z.shiftr h 24)
  | [] => h
  end.

Definition Hash (data : bytes) (seed : Z) : Z := hash_loop (length data) data (Z.lxor seed (u32 (zlen data * hash_m))).

(** ** State *)

(** The background work of a partition. *)
Inductive Bg := NoBg | Scheduled | Working.

Record DirIndexer := mkIdx {
  num_flush_requested_ : Z; num_flush_completed_ : Z; has_bg_compaction_ : bool; bg_status_ : Status;
  buf0_ : WriteBuffer; buf1_ : WriteBuffer;
  mem_buf_ : bool;            (* which of the two *)
  imm_buf_ : option bool; imm_compac_ : option Compaction; bg_ : Bg;
  calls : list (Compaction * WriteBuffer * Status); added : list (Z * (bytes * bytes)) }.

Definition new_indexer : DirIndexer := mkIdx 0 0 false kOk WriteBuffer.New WriteBuffer.New false None None NoBg [] [].

Definition buf (which : bool) (x : DirIndexer) : WriteBuffer := if which then buf1_ x else buf0_ x.

Definition set_buf (which : bool) (b : WriteBuffer) (x : DirIndexer) : DirIndexer :=
  mkIdx (num_flush_requested_ x) (num_flush_completed_ x) (has_bg_compaction_ x) (bg_status_ x)
    (if which then buf0_ x else b) (if which then b else buf1_ x) (mem_buf_ x) (imm_buf_ x) (imm_compac_ x) (bg_ x) (calls x) (added x).
Definition set_mem_buf_ (which : bool) (x : DirIndexer) : DirIndexer :=
  mkIdx (num_flush_requested_ x) (num_flush_completed_ x) (has_bg_compaction_ x) (bg_status_ x)
    (buf0_ x) (buf1_ x) which (imm_buf_ x) (imm_compac_ x) (bg_ x) (calls x) (added x).
Definition set_imm (b : option bool) (c : option Compaction) (x : DirIndexer) : DirIndexer :=
  mkIdx (num_flush_requested_ x) (num_flush_completed_ x) (has_bg_compaction_ x) (bg_status_ x)
    (buf0_ x) (buf1_ x) (mem_buf_ x) b c (bg_ x) (calls x) (added x).
Definition set_bg (has : bool) (bg : Bg) (x : DirIndexer) : DirIndexer :=
  mkIdx (num_flush_requested_ x) (num_flush_completed_ x) has (bg_status_ x)
    (buf0_ x) (buf1_ x) (mem_buf_ x) (imm_buf_ x) (imm_compac_ x) bg (calls x) (added x).
Definition set_bg_status_ (st : Status) (x : DirIndexer) : DirIndexer :=
  mkIdx (num_flush_requested_ x) (num_flush_completed_ x) (has_bg_compaction_ x) st
    (buf0_ x) (buf1_ x) (mem_buf_ x) (imm_buf_ x) (imm_compac_ x) (bg_ x) (calls x) (added x).
Definition set_flushes (requested completed : Z) (x : DirIndexer) : DirIndexer :=
  mkIdx requested completed (has_bg_compaction_ x) (bg_status_ x)
    (buf0_ x) (buf1_ x) (mem_buf_ x) (imm_buf_ x) (imm_compac_ x) (bg_ x) (calls x) (added x).
Definition set_history (c : list (Compaction * WriteBuffer * Status)) (a : list (Z * (bytes * bytes))) (x : DirIndexer) : DirIndexer :=
  mkIdx (num_flush_requested_ x) (num_flush_completed_ x) (has_bg_compaction_ x) (bg_status_ x)
    (buf0_ x) (buf1_ x) (mem_buf_ x) (imm_buf_ x) (imm_compac_ x) (bg_ x) c a.

Record Epoch := mkEpoch { seq_ : Z; num_ongoing_ops_ : Z; committing_ : bool }.

(** Operations; an epoch of -1 is the current one. *)
Inductive Op :=
  | OAdd (fid data : bytes) (epoch : Z) | OFlush (epoch : Z) | OEpochFlush (epoch : Z) | OFinish | OWait | OSync.

(** The operation that flushes, and the one that waits for compactions. *)
Inductive Flusher := FlFlush | FlEpoch | FlFinish.
#[export] Instance Flusher_eq_dec : EqDecision Flusher.
Proof. solve_decision. Defined.
Inductive Waiter := WtRotate | WtFinish | WtWait | WtSync.

(** What is done when [Prepare] returns. *)
Inductive Frame := FrAdd (fid data : bytes) | FrFlush (who : Flusher) (todo waiting : list nat).

(** Where a thread is while it does not hold the mutex. *)
Inductive Pc :=
  | Idle
  | Returned (st : Status)
  | AtLoop (op : Op)                                                (* r->cv_ *)
  | AtDrain (who : Flusher) (cur : Z)                               (* cur->cv_ *)
  | AtPrepare (cur : Z) (part : nat) (force ef fi : bool) (fr : Frame)  (* bg_cv_ *)
  | AtFlush (who : Flusher) (cur : Z) (remaining : list nat)        (* bg_cv_ *)
  | AtWait (w : Waiter) (cur : Z)                                   (* bg_cv_ *)
  | Rotating (cur : Z)
  | Compacting (cur : Z) (part : nat) (current_buf : bool) (fr : Frame).

Inductive Cv := CvEpochs | CvOps | CvBg.

Definition sleeps_on (pc : Pc) : option Cv :=
  match pc with
  | AtLoop _ => Some CvEpochs
  | AtDrain _ _ => Some CvOps
  | AtPrepare _ _ _ _ _ _ | AtFlush _ _ _ | AtWait _ _ => Some CvBg
  | _ => None
  end.

#[export] Instance Cv_eq_dec : EqDecision Cv.
Proof. solve_decision. Defined.

(** A thread: where it is, and whether it is awake. *)
Abbreviation Thread := (Pc * bool)%type.

Record Writer := mkWriter {
  idxers_ : list DirIndexer; epoch_ : option Epoch; finished_ : bool; finish_status_ : Status; threads : gmap nat Thread }.

Definition set_idxer (part : nat) (x : DirIndexer) (s : Writer) : Writer :=
  mkWriter (<[part := x]> (idxers_ s)) (epoch_ s) (finished_ s) (finish_status_ s) (threads s).
Definition set_epoch (e : option Epoch) (s : Writer) : Writer :=
  mkWriter (idxers_ s) e (finished_ s) (finish_status_ s) (threads s).
Definition set_finished (st : Status) (s : Writer) : Writer := mkWriter (idxers_ s) (epoch_ s) true st (threads s).
Definition set_threads (ts : gmap nat Thread) (s : Writer) : Writer :=
  mkWriter (idxers_ s) (epoch_ s) (finished_ s) (finish_status_ s) ts.

Definition wake (cv : Cv) (th : Thread) : Thread := if bool_decide (sleeps_on th.1 = Some cv) then (th.1, true) else th.
Definition SignalAll (cv : Cv) (s : Writer) : Writer := set_threads (wake cv <$> threads s) s.

(** ** Outcomes *)

(** The line of an assertion that fails, or of a loop that does not end. *)
Inductive Res (A : Type) := Ret (a : A) | Fault (line : Z).
Arguments Ret {A} _. Arguments Fault {A} _.

Definition rbind {A B} (m : Res A) (k : A -> Res B) : Res B := match m with Ret a => k a | Fault l => Fault l end.
Notation "'let!' x ':=' m 'in' k" := (rbind m (fun x => k)) (at level 200, x pattern, m at level 100, k at level 200).

Definition assert_ (line : Z) (b : bool) : Res () := if b then Ret tt else Fault line.
Definition the {A} (line : Z) (x : option A) : Res A := match x with Some a => Ret a | None => Fault line end.

(** A thread stops with a new place to be. *)
Definition Stop : Type := Writer * Thread.
Definition asleep (pc : Pc) (s : Writer) : Res Stop := Ret (s, (pc, false)).
Definition return_ (st : Status) (s : Writer) : Res Stop := Ret (s, (Returned st, true)).

Section Writer.
Context `{StdSort} (num_parts : nat) (buf_threshold : Z) (pool rotation skip : bool).

Definition Rep : Writer := mkWriter (replicate num_parts new_indexer) (Some (mkEpoch 0 0 false)) false kOk ∅.

Definition idxer (part : nat) (s : Writer) : Res DirIndexer := the 262 (idxers_ s !! part).

(** ** DirIndexer *)

(** [buffer->Finish] at the start of a compaction, which then works without the
    mutex. *)
Definition start_compaction (x : DirIndexer) : Res DirIndexer :=
  let! _ := assert_ 650 (has_bg_compaction_ x) in
  let! b := the 651 (imm_buf_ x) in
  let! _ := the 652 (imm_compac_ x) in
  let! y := the 192 (WriteBuffer.Finish skip (buf b x)) in
  Ret (set_bg true Working (set_buf b y x)).

(** The end of [CompactMemtable] and of [DoCompaction]. *)
Definition end_compaction (st : Status) (x : DirIndexer) : Res DirIndexer :=
  let! b := the 651 (imm_buf_ x) in
  let! c := the 652 (imm_compac_ x) in
  let x := set_history (calls x ++ [(c, buf b x, st)]) (added x) (set_bg_status_ st x) in
  let x := if is_forced_ c then set_flushes (num_flush_requested_ x) (u32 (num_flush_completed_ x + 1)) x else x in
  Ret (set_bg false NoBg (set_imm None None (set_buf b (WriteBuffer.Reset (buf b x)) x))).

(** [Prepare]: it returns a status, or the thread stops. *)
Fixpoint Prepare (fuel : nat) (cur : Z) (part : nat) (force ef fi : bool) (fr : Frame) (s : Writer)
  : Res (Writer * (Status + Thread)) :=
  match fuel with
  | O => Fault 578
  | S fuel =>
      let! x := idxer part s in
      if negb (ok (bg_status_ x)) then Ret (s, inl (bg_status_ x))
      else if negb force && negb (WriteBuffer.NeedCompaction (buf (mem_buf_ x) x))
              && (WriteBuffer.CurrentBufferSize (buf (mem_buf_ x) x) <? buf_threshold) then Ret (s, inl kOk)
      else
        match imm_buf_ x with
        | Some _ => Ret (s, inr (AtPrepare cur part force ef fi fr, false))
        | None =>
            let! _ := assert_ 599 (match imm_compac_ x with None => true | Some _ => false end) in
            let current_buf := mem_buf_ x in
            let x := set_imm (Some current_buf) (Some (mkCompaction cur force ef fi)) x in
            (* MaybeScheduleCompaction *)
            if has_bg_compaction_ x then Prepare fuel cur part false false false fr (set_idxer part (set_mem_buf_ (negb current_buf) x) s)
            else if pool then
              Prepare fuel cur part false false false fr (set_idxer part (set_mem_buf_ (negb current_buf) (set_bg true Scheduled x)) s)
            else
              let! x := start_compaction (set_bg true Scheduled x) in
              Ret (set_idxer part x s, inr (Compacting cur part current_buf fr, true))
        end
  end.

(** The loop takes a second round after a switch. *)
Definition prepare_fuel : nat := 3.

(** ** DirWriter *)

Definition the_epoch (line cur : Z) (s : Writer) : Res Epoch :=
  let! e := the line (epoch_ s) in let! _ := assert_ line (seq_ e =? cur) in Ret e.

(** The end of [Add] and [Flush]. *)
Definition end_op (cur : Z) (st : Status) (s : Writer) : Res Stop :=
  let! e := the_epoch 460 cur s in
  let! _ := assert_ 460 (negb (num_ongoing_ops_ e =? 0)) in
  let n := u32 (num_ongoing_ops_ e - 1) in
  let s := set_epoch (Some (mkEpoch (seq_ e) n (committing_ e))) s in
  return_ st (if committing_ e && (n =? 0) then SignalAll CvOps s else s).

Definition next_epoch (cur : Z) (st : Status) (s : Writer) : Res Stop :=
  let! _ := the_epoch 389 cur s in
  return_ st (SignalAll CvEpochs (set_epoch (Some (mkEpoch (u32 (1 + cur)) 0 false)) s)).

Definition finish_end (st : Status) (s : Writer) : Res Stop :=
  return_ st (SignalAll CvEpochs (set_epoch None (set_finished st s))).

(** The first status that is not OK. *)
Definition ObtainCompactionStatus (s : Writer) : Status :=
  default kOk (list_find (fun x => negb (ok (bg_status_ x)) = true) (idxers_ s) ≫= fun x => Some (bg_status_ x.2)).
Definition HasCompaction (s : Writer) : bool := existsb has_bg_compaction_ (idxers_ s).

(** After [WaitForCompaction]; [io] is the status of the I/O that follows. *)
Definition wait_end (io : Status) (w : Waiter) (cur : Z) (st : Status) (s : Writer) : Res Stop :=
  match w with
  | WtRotate => if ok st then Ret (s, (Rotating cur, true)) else next_epoch cur st s
  | WtFinish =>
      if ok st then let! _ := assert_ 174 (negb (HasCompaction s)) in finish_end io s
      else finish_end st s
  | WtWait => return_ st s
  | WtSync => return_ (if ok st then io else st) s
  end.

Definition WaitForCompaction (io : Status) (w : Waiter) (cur : Z) (s : Writer) : Res Stop :=
  let st := ObtainCompactionStatus s in
  if ok st && HasCompaction s then asleep (AtWait w cur) s else wait_end io w cur st s.

(** After [TryFlush]. *)
Definition flush_end (io : Status) (who : Flusher) (cur : Z) (st : Status) (s : Writer) : Res Stop :=
  match who with
  | FlFlush => end_op cur st s
  | FlEpoch => if ok st && rotation then WaitForCompaction io WtRotate cur s else next_epoch cur st s
  | FlFinish => if ok st then WaitForCompaction io WtFinish cur s else finish_end st s
  end.

Definition epoch_flush (who : Flusher) : bool := match who with FlFlush => false | _ => true end.
Definition finalize (who : Flusher) : bool := match who with FlFinish => true | _ => false end.

(** The loop of [TryFlush] over the remaining partitions: [Flush] with and then
    without [dry_run]. *)
Fixpoint flush_scan (io : Status) (who : Flusher) (cur : Z) (todo waiting : list nat) (s : Writer) : Res Stop :=
  match todo with
  | [] => match waiting with [] => flush_end io who cur kOk s | _ => asleep (AtFlush who cur waiting) s end
  | part :: todo =>
      let! x := idxer part s in
      match imm_buf_ x with
      | Some _ => flush_scan io who cur todo (waiting ++ [part]) s
      | None =>
          if negb (ok (bg_status_ x)) then flush_end io who cur (bg_status_ x) s
          else
            let s := set_idxer part (set_flushes (u32 (num_flush_requested_ x + 1)) (num_flush_completed_ x) x) s in
            let! (s, r) := Prepare prepare_fuel cur part true (epoch_flush who) (finalize who) (FrFlush who todo waiting) s in
            match r with
            | inl _ => flush_scan io who cur todo waiting s
            | inr th => Ret (s, th)
            end
      end
  end.

Definition TryFlush (io : Status) (who : Flusher) (cur : Z) (s : Writer) : Res Stop :=
  let! e := the_epoch 276 cur s in
  let! _ := assert_ 276 (if epoch_flush who then committing_ e && (num_ongoing_ops_ e =? 0) else negb (num_ongoing_ops_ e =? 0)) in
  flush_scan io who cur (List.seq 0 (length (idxers_ s))) [] s.

(** [Prepare] has returned a status. *)
Definition return_to (io : Status) (fr : Frame) (cur : Z) (part : nat) (st : Status) (s : Writer) : Res Stop :=
  match fr with
  | FrAdd fid data =>
      if ok st then
        let! x := idxer part s in
        let! b := the 219 (WriteBuffer.Add fid data (buf (mem_buf_ x) x)) in
        end_op cur kOk (set_idxer part (set_history (calls x) (added x ++ [(cur, (fid, data))]) (set_buf (mem_buf_ x) b x)) s)
      else end_op cur st s
  | FrFlush who todo waiting => flush_scan io who cur todo waiting s
  end.

Definition run_Prepare (io : Status) (cur : Z) (part : nat) (force ef fi : bool) (fr : Frame) (s : Writer) : Res Stop :=
  let! (s, r) := Prepare prepare_fuel cur part force ef fi fr s in
  match r with inl st => return_to io fr cur part st s | inr th => Ret (s, th) end.

Definition part_of (fid : bytes) : nat := Z.to_nat (Z.land (Hash fid 0) (Z.of_nat num_parts - 1)).

Definition TryAdd (io : Status) (cur : Z) (fid data : bytes) (s : Writer) : Res Stop :=
  let! e := the_epoch 258 cur s in
  let! _ := assert_ 258 (negb (num_ongoing_ops_ e =? 0)) in
  run_Prepare io cur (part_of fid) false false false (FrAdd fid data) s.

(** Waiting for the operations of the epoch to end, in [EpochFlush] and [Finish]. *)
Definition drain (io : Status) (who : Flusher) (cur : Z) (s : Writer) : Res Stop :=
  let! e := the_epoch 333 cur s in
  if negb (num_ongoing_ops_ e =? 0) then asleep (AtDrain who cur) s else TryFlush io who cur s.

Definition commit (io : Status) (who : Flusher) (e : Epoch) (s : Writer) : Res Stop :=
  drain io who (seq_ e) (set_epoch (Some (mkEpoch (seq_ e) (num_ongoing_ops_ e) true)) s).

(** The checks at the top of [Add], [Flush] and [EpochFlush]. *)
Definition enter (op : Op) (epoch : Z) (body : Epoch -> Writer -> Res Stop) (s : Writer) : Res Stop :=
  if finished_ s then return_ kAssertionFailed s
  else
    let! e := the 448 (epoch_ s) in
    if (epoch =? -1) && committing_ e then asleep (AtLoop op) s
    else if negb (epoch =? -1) && negb (epoch =? s32 (seq_ e)) then return_ kAssertionFailed s
    else if committing_ e then return_ kAssertionFailed s
    else body e s.

Definition begin_op (e : Epoch) (s : Writer) : Writer :=
  set_epoch (Some (mkEpoch (seq_ e) (u32 (num_ongoing_ops_ e + 1)) (committing_ e))) s.

Definition Add (io : Status) (fid data : bytes) (epoch : Z) (s : Writer) : Res Stop :=
  enter (OAdd fid data epoch) epoch (fun e s => TryAdd io (seq_ e) fid data (begin_op e s)) s.
Definition Flush (io : Status) (epoch : Z) (s : Writer) : Res Stop :=
  enter (OFlush epoch) epoch (fun e s => TryFlush io FlFlush (seq_ e) (begin_op e s)) s.
Definition EpochFlush (io : Status) (epoch : Z) (s : Writer) : Res Stop :=
  enter (OEpochFlush epoch) epoch (fun e s => commit io FlEpoch e s) s.

Definition Finish (io : Status) (s : Writer) : Res Stop :=
  if finished_ s then return_ (finish_status_ s) s
  else
    let! e := the 333 (epoch_ s) in
    if committing_ e then asleep (AtLoop OFinish) s else commit io FlFinish e s.

Definition Wait (io : Status) (s : Writer) : Res Stop :=
  if negb (finished_ s) then WaitForCompaction io WtWait 0 s else return_ (finish_status_ s) s.
Definition Sync (io : Status) (s : Writer) : Res Stop :=
  if finished_ s then return_ (finish_status_ s) s else WaitForCompaction io WtSync 0 s.

Definition run_op (io : Status) (op : Op) (s : Writer) : Res Stop :=
  match op with
  | OAdd fid data epoch => Add io fid data epoch s
  | OFlush epoch => Flush io epoch s
  | OEpochFlush epoch => EpochFlush io epoch s
  | OFinish => Finish io s
  | OWait => Wait io s
  | OSync => Sync io s
  end.

(** A thread gets the mutex. *)
Definition resume (io : Status) (pc : Pc) (s : Writer) : option (Res Stop) :=
  match pc with
  | Idle | Returned _ => None
  | AtLoop op => Some (run_op io op s)
  | AtDrain who cur => Some (drain io who cur s)
  | AtPrepare cur part force ef fi fr => Some (run_Prepare io cur part force ef fi fr s)
  | AtFlush who cur remaining => Some (flush_scan io who cur remaining [] s)
  | AtWait w cur => Some (WaitForCompaction io w cur s)
  | Rotating cur => Some (next_epoch cur io s)
  | Compacting cur part current_buf fr =>
      Some (let! x := idxer part s in
            let! x := end_compaction io x in
            let s := SignalAll CvBg (set_idxer part x s) in
            let! x := idxer part s in
            run_Prepare io cur part false false false fr (set_idxer part (set_mem_buf_ (negb current_buf) x) s))
  end.

(** ** Steps *)

(** A thread calls an operation, goes on, or a thread of the pool starts or ends a
    compaction. *)
Inductive Label := LCall (t : nat) (op : Op) | LRun (t : nat) (io : Status) | LStart (part : nat) | LEnd (part : nat) (st : Status).

Definition stop (t : nat) (r : Res Stop) : Res Writer :=
  let! (s, th) := r in Ret (set_threads (<[t := th]> (threads s)) s).

(** [None]: the step cannot be taken. *)
Definition step (l : Label) (s : Writer) : option (Res Writer) :=
  match l with
  | LCall t op =>
      match threads s !! t with
      | None | Some (Idle, _) | Some (Returned _, _) => Some (Ret (set_threads (<[t := (AtLoop op, true)]> (threads s)) s))
      | _ => None
      end
  | LRun t io =>
      match threads s !! t with
      | Some (pc, true) => let? r := resume io pc s in Some (stop t r)
      | _ => None
      end
  | LStart part =>
      let? x := idxers_ s !! part in
      match bg_ x with Scheduled => Some (let! x := start_compaction x in Ret (set_idxer part x s)) | _ => None end
  | LEnd part st =>
      let? x := idxers_ s !! part in
      match bg_ x with
      | Working => if pool then Some (let! x := end_compaction st x in Ret (SignalAll CvBg (set_idxer part x s))) else None
      | _ => None
      end
  end.

End Writer.
