(* ===== verification/PlfsWriterInv.v ===== *)
(** * Writers of indexed directories: the invariant

    [Threads]: what the threads inside the writer are doing agrees with the current
    epoch.  [Idx]: what a partition has in its buffers and what its compactor was
    given.  [Layout]: compactions are grouped into epochs. *)
From S2P Require Import Prelude Coding Status Gigaplus SstBlock PlfsFormat PlfsLog PlfsBuilder PlfsBuffer PlfsBufferProps PlfsWriter.

Abbreviation entry := (bytes * bytes)%type.

(** ** Threads *)

(** An entry that is small enough for the offsets of a buffer. *)
Definition small (e : entry) : Prop := e.1 <> [] /\ zlen e.1 + zlen e.2 < 2 ^ 29.

Definition op_ok (op : Op) : Prop := match op with OAdd fid data _ => small (fid, data) | _ => True end.

(** Counted by [num_ongoing_ops_]. *)
Definition in_op (pc : Pc) : bool :=
  match pc with AtPrepare _ _ _ _ _ (FrAdd _ _) | AtFlush FlFlush _ _ => true | _ => false end.

(** The thread that set [committing_]. *)
Definition committer (pc : Pc) : bool :=
  match pc with
  | AtDrain _ _ | AtFlush FlEpoch _ _ | AtFlush FlFinish _ _ | AtWait WtRotate _ | AtWait WtFinish _ | Rotating _ => true
  | _ => false
  end.

Definition draining (pc : Pc) : bool := match pc with AtDrain _ _ => true | _ => false end.

Definition epoch_of (pc : Pc) : option Z :=
  match pc with
  | AtDrain _ cur | AtPrepare cur _ _ _ _ _ | AtFlush _ cur _ | AtWait WtRotate cur | AtWait WtFinish cur | Rotating cur => Some cur
  | _ => None
  end.

Section Threads.
Context (num_parts : nat).

Definition shape (pc : Pc) : Prop :=
  match pc with
  | AtLoop op => op_ok op
  | AtDrain who _ => who <> FlFlush
  | AtPrepare _ part force ef fi fr => (part < num_parts)%nat /\ force = false /\ ef = false /\ fi = false /\ exists k v, fr = FrAdd k v /\ small (k, v)
  | AtFlush _ _ rem => NoDup rem /\ Forall (fun p => p < num_parts)%nat rem
  | Compacting _ _ _ _ => False
  | _ => True
  end.

Definition count (m : gmap nat Pc) : Z := Z.of_nat (base.size (filter (fun x => in_op x.2 = true) m)).

Record Threads (e : option Epoch) (fin : bool) (m : gmap nat Pc) : Prop := {
  th_shape : forall t pc, m !! t = Some pc -> shape pc;
  th_cur : forall t pc cur, m !! t = Some pc -> epoch_of pc = Some cur -> exists n c, e = Some (mkEpoch cur n c);
  th_one : forall t t' pc pc', m !! t = Some pc -> m !! t' = Some pc' -> committer pc = true -> committer pc' = true -> t = t';
  th_drained : forall t pc, m !! t = Some pc -> committer pc = true -> draining pc = false -> count m = 0;
  th_ids : forall t, is_Some (m !! t) -> Z.of_nat t < 2 ^ 32 - 1;
  th_epoch : match e with
             | Some e => fin = false /\ num_ongoing_ops_ e = count m
                 /\ (committing_ e = true <-> exists t pc, m !! t = Some pc /\ committer pc = true)
             | None => fin = true /\ forall t pc, m !! t = Some pc -> in_op pc = false /\ committer pc = false
             end }.

Lemma in_ops_insert m t pc pc' : 
  count (<[t := pc']> m) = count (<[t := pc]> m) - (if in_op pc then 1 else 0) + (if in_op pc' then 1 else 0).
Proof.
  assert (E : forall q, count (<[t := q]> m) = count (delete t m) + (if in_op q then 1 else 0)).
  { intros q. unfold count. rewrite <- insert_delete_eq. destruct (in_op q) eqn:Eq.
    - rewrite map_filter_insert_True by done. rewrite map_size_insert_None; [lia|]. rewrite map_lookup_filter, lookup_delete_eq. done.
    - rewrite map_filter_insert_False by (cbn; by rewrite Eq). rewrite delete_delete_eq. lia. }
  rewrite !E. lia.
Qed.

Lemma in_ops_nonneg m : 0 <= count m.
Proof. unfold count. lia. Qed.

Lemma count_bound m : (forall t, is_Some (m !! t) -> Z.of_nat t < 2 ^ 32 - 1) -> count m < 2 ^ 32.
Proof.
  intros Hb. unfold count. rewrite <- size_dom. assert (dom (filter (fun x => in_op x.2 = true) m) ⊆ set_seq 0 (Z.to_nat (2 ^ 32 - 1))) as Hs.
  { intros t [pc Hp]%elem_of_dom. apply map_lookup_filter_Some in Hp as [Hp _]. apply elem_of_set_seq. specialize (Hb t (mk_is_Some _ _ Hp)). lia. }
  apply subseteq_size in Hs. rewrite size_set_seq in Hs. lia.
Qed.

Lemma in_ops_pos m t pc : m !! t = Some pc -> in_op pc = true -> 0 < count m.
Proof.
  intros Hm Hi. unfold count. destruct (base.size _) eqn:E; [|lia]. apply map_size_empty_inv in E.
  assert (filter (fun x => in_op x.2 = true) m !! t = Some pc) as Hf by (by apply map_lookup_filter_Some). by rewrite E in Hf.
Qed.

Lemma insert_cases {A} (m : gmap nat A) t a t' a' : <[t := a]> m !! t' = Some a' -> t = t' /\ a = a' \/ t <> t' /\ m !! t' = Some a'.
Proof. intros [?|?]%lookup_insert_Some; tauto. Qed.

(** A thread moves, and the epoch with it. *)
Lemma Threads_move e fin e' fin' m t pc pc' :
  Threads e fin (<[t := pc]> m) -> shape pc' ->
  (forall cur, epoch_of pc' = Some cur -> exists n c, e' = Some (mkEpoch cur n c)) ->
  (forall t' q cur, t <> t' -> m !! t' = Some q -> epoch_of q = Some cur -> exists n c, e' = Some (mkEpoch cur n c)) ->
  (committer pc' = true -> committer pc = true \/ forall t' q, t <> t' -> m !! t' = Some q -> committer q = false) ->
  (committer pc' = true -> draining pc' = false -> count (<[t := pc']> m) = 0) ->
  (forall t' q, t <> t' -> m !! t' = Some q -> committer q = true -> draining q = false -> in_op pc' = true -> in_op pc = true) ->
  (match e' with
   | Some e' => fin' = false /\ num_ongoing_ops_ e' = count (<[t := pc']> m)
       /\ (committing_ e' = true <-> committer pc' = true \/ exists t' q, t <> t' /\ m !! t' = Some q /\ committer q = true)
   | None => fin' = true /\ in_op pc' = false /\ committer pc' = false /\ forall t' q, t <> t' -> m !! t' = Some q -> in_op q = false /\ committer q = false
   end) ->
  Threads e' fin' (<[t := pc']> m).
Proof.
  intros HT Hs Hc Hco H1 H2 H3 H4. destruct HT as [T1 T2 T3 T4 T5 T6]. constructor.
  - intros t' q [[<- <-]|[Hn Hq]]%insert_cases; [done|]. apply (T1 t'). by rewrite lookup_insert_ne.
  - intros t' q cur [[<- <-]|[Hn Hq]]%insert_cases; [apply Hc|by eapply Hco].
  - intros t1 t2 q1 q2 [[<- <-]|[Hn Hq]]%insert_cases [[<- <-]|[Hn' Hq']]%insert_cases Hc1 Hc2; [done| | |].
    + destruct (H1 Hc1) as [Hp|Hp]; [|by rewrite (Hp _ _ Hn' Hq') in Hc2]. apply (T3 t t2 pc q2); try done; [by rewrite lookup_insert_eq|by rewrite lookup_insert_ne].
    + destruct (H1 Hc2) as [Hp|Hp]; [|by rewrite (Hp _ _ Hn Hq) in Hc1]. apply (T3 t1 t q1 pc); try done; [by rewrite lookup_insert_ne|by rewrite lookup_insert_eq].
    + apply (T3 t1 t2 q1 q2); try done; by rewrite lookup_insert_ne.
  - intros t' q [[<- <-]|[Hn Hq]]%insert_cases Hq1 Hq2; [by apply H2|]. assert (E0 : count (<[t := pc]> m) = 0) by (apply (T4 t' q); [by rewrite lookup_insert_ne|done|done]).
    rewrite (in_ops_insert _ _ pc). pose proof (in_ops_nonneg (<[t := pc']> m)) as Hn0. rewrite (in_ops_insert _ _ pc) in Hn0. specialize (H3 _ _ Hn Hq Hq1 Hq2).
    destruct (in_op pc') eqn:E1, (in_op pc) eqn:E2; try lia; by specialize (H3 eq_refl).
  - intros t' Ht'. apply T5. destruct (decide (t = t')) as [<-|Hn]; [rewrite lookup_insert_eq; by eexists|by rewrite lookup_insert_ne in Ht' |- *].
  - destruct e' as [e'|].
    + destruct H4 as (? & ? & Hiff). split_and!; try done. rewrite Hiff. split.
      * intros [Hp|(t' & q & Hn & Hq & Hcq)]; [exists t, pc'; by rewrite lookup_insert_eq|exists t', q; by rewrite lookup_insert_ne].
      * intros (t' & q & [[<- <-]|[Hn Hq]]%insert_cases & Hcq); [by left|right; by exists t', q].
    + destruct H4 as (? & ? & ? & Ho). split; [done|]. intros t' q [[<- <-]|[Hn Hq]]%insert_cases; [done|by eapply Ho].
Qed.

End Threads.

(** ** Epochs *)

(** The entries added in an epoch. *)
Definition by_epoch (added : list (Z * entry)) (e : Z) : list entry := snd <$> filter (fun x => x.1 = e) added.

(** The entries of the epochs that have ended, and those after the last end. *)
Fixpoint collect (cs : list (Compaction * list entry)) (acc : list entry) : list (list entry) * list entry :=
  match cs with
  | [] => ([], acc)
  | (c, es) :: cs =>
      if is_epoch_flush_ c then let (l, rest) := collect cs [] in ((acc ++ es) :: l, rest) else collect cs (acc ++ es)
  end.

(** Compactions carry the number of their epoch. *)
Fixpoint tagged (k : Z) (cs : list (Compaction * list entry)) : Prop :=
  match cs with [] => True | (c, _) :: cs => c_epoch c = k /\ tagged (if is_epoch_flush_ c then k + 1 else k) cs end.

Definition no_final (cs : list (Compaction * list entry)) : Prop := Forall (fun ce => is_final ce.1 = false) cs.

Definition finals (cs : list (Compaction * list entry)) (fin : bool) : Prop :=
  if fin then exists cs0 c es, cs = cs0 ++ [(c, es)] /\ is_final c = true /\ is_epoch_flush_ c = true /\ no_final cs0 else no_final cs.

(** [n] epochs have ended; the last of the compactions is the final one if [fin]. *)
Record Layout (cs : list (Compaction * list entry)) (mes : list entry) (added : list (Z * entry)) (n : Z) (fin : bool) : Prop := {
  la_rest : exists rest, collect cs [] = (by_epoch added <$> seqZ 0 n, rest) /\ rest ++ mes = by_epoch added n;
  la_n : 0 <= n;
  la_tags : tagged 0 cs;
  la_final : finals cs fin;
  la_range : Forall (fun a => 0 <= a.1 <= n) added }.

Lemma collect_app cs acc c es :
  collect (cs ++ [(c, es)]) acc =
  let (l, rest) := collect cs acc in if is_epoch_flush_ c then (l ++ [rest ++ es], []) else (l, rest ++ es).
Proof.
  revert acc. induction cs as [|[c' es'] cs IH]; intros acc; cbn; [by destruct (is_epoch_flush_ c)|].
  destruct (is_epoch_flush_ c'); rewrite IH; destruct (collect cs _) as [l rest]; [|done]. by destruct (is_epoch_flush_ c).
Qed.

Lemma tagged_app k cs c es acc : tagged k cs -> c_epoch c = k + zlen (collect cs acc).1 -> tagged k (cs ++ [(c, es)]).
Proof.
  revert k acc. induction cs as [|[c' es'] cs IH]; intros k acc; cbn; [rewrite zlen_nil; intros _ E; split; [lia|done]|]. intros [E1 E2] E. split; [done|].
  destruct (is_epoch_flush_ c').
  - apply (IH _ []); [done|]. destruct (collect cs []) as [l rest]. cbn in E. rewrite zlen_cons in E. cbn. lia.
  - by apply (IH _ (acc ++ es')).
Qed.

Lemma by_epoch_app a b e : by_epoch (a ++ b) e = by_epoch a e ++ by_epoch b e.
Proof. unfold by_epoch. by rewrite filter_app, fmap_app. Qed.

Lemma by_epoch_one n x e : by_epoch [(n, x)] e = if n =? e then [x] else [].
Proof.
  unfold by_epoch. destruct (Z.eqb_spec n e) as [->|Hn]; [by rewrite filter_cons_True|]. by rewrite filter_cons_False.
Qed.

Lemma Layout_nil : Layout [] [] [] 0 false.
Proof. constructor; try done; [by exists []|constructor]. Qed.

Lemma Layout_add cs mes added n x : Layout cs mes added n false -> Layout cs (mes ++ [x]) (added ++ [(n, x)]) n false.
Proof.
  intros [(rest & E1 & E2) H1 H2 H3 H4]. constructor; try done.
  - exists rest. split.
    + rewrite E1. f_equal. apply list_fmap_ext. intros i e He. apply lookup_seqZ in He. rewrite by_epoch_app, by_epoch_one. destruct (Z.eqb_spec n e); [lia|]. by rewrite app_nil_r.
    + by rewrite app_assoc, E2, by_epoch_app, by_epoch_one, Z.eqb_refl.
  - apply Forall_app. split; [done|]. constructor; [cbn; lia|done].
Qed.

Lemma Layout_compact cs mes added n force :
  Layout cs mes added n false -> Layout (cs ++ [(mkCompaction n force false false, mes)]) [] added n false.
Proof.
  intros [(rest & E1 & E2) H1 H2 H3 H4]. constructor; try done.
  - exists (rest ++ mes). rewrite collect_app, E1. cbn. by rewrite app_nil_r.
  - apply (tagged_app _ _ _ _ []); [done|]. rewrite E1. cbn. unfold zlen. rewrite length_fmap, length_seqZ. lia.
  - apply Forall_app. split; [done|]. by constructor.
Qed.

Lemma by_epoch_none added n : Forall (fun a => a.1 < n) added -> by_epoch added n = [].
Proof. intros Hf. unfold by_epoch. induction Hf as [|x l Hx _ IH]; [done|]. rewrite filter_cons_False by lia. done. Qed.

Lemma Layout_epoch cs mes added n fin force :
  Layout cs mes added n false -> Layout (cs ++ [(mkCompaction n force true fin, mes)]) [] added (n + 1) fin.
Proof.
  intros [(rest & E1 & E2) H1 H2 H3 H4]. constructor; try lia.
  - exists []. rewrite collect_app, E1. cbn. split.
    + rewrite seqZ_app by lia. rewrite fmap_app. cbn. by rewrite E2.
    + rewrite by_epoch_none; [done|]. eapply Forall_impl; [exact H4|]. cbn. lia.
  - apply (tagged_app _ _ _ _ []); [done|]. rewrite E1. cbn. unfold zlen. rewrite length_fmap, length_seqZ. lia.
  - destruct fin; cbn; [by eexists _, _, _|]. apply Forall_app. split; [done|]. by constructor.
  - eapply Forall_impl; [exact H4|]. cbn. lia.
Qed.

(** ** Partitions *)

Section Idx.
Context `{StdSort} (skip : bool).

Definition Sealed (b : WriteBuffer) (es : list entry) : Prop := exists b0, Holds b0 es /\ WriteBuffer.Finish skip b0 = Some b.

Definition imm_entries (ims : option (Compaction * list entry)) : list entry := match ims with Some (_, es) => es | None => [] end.

Record Idx (x : DirIndexer) (css : list (Compaction * list entry)) (ims : option (Compaction * list entry)) (mes : list entry) : Prop := {
  ix_mem : Holds (buf (mem_buf_ x) x) mes;
  ix_small : zlen (wb_buffer (buf (mem_buf_ x) x)) < 2 ^ 31;
  ix_imm : match imm_buf_ x, ims with
           | None, None => has_bg_compaction_ x = false /\ bg_ x = NoBg /\ imm_compac_ x = None /\ Holds (buf (negb (mem_buf_ x)) x) []
           | Some b, Some (c, ies) =>
               b = negb (mem_buf_ x) /\ has_bg_compaction_ x = true /\ bg_status_ x = kOk /\ imm_compac_ x = Some c
               /\ match bg_ x with NoBg => False | Scheduled => Holds (buf b x) ies | Working => Sealed (buf b x) ies end
           | _, _ => False
           end;
  ix_calls : Forall2 (fun call ce => call.1.1 = ce.1 /\ Sealed call.1.2 ce.2) (calls x) css;
  ix_status : bg_status_ x = kOk -> Forall (fun call => call.2 = kOk) (calls x);
  ix_added : snd <$> added x = concat (snd <$> css) ++ imm_entries ims ++ mes }.

Lemma Idx_new : Idx new_indexer [] None [].
Proof. constructor; try done; by split_and!; [..|apply Holds_New] || apply Holds_New. Qed.

Lemma buf_set_buf b y x : buf b (set_buf b y x) = y.
Proof. by destruct b. Qed.

Lemma buf_set_buf_ne b y x : buf (negb b) (set_buf b y x) = buf (negb b) x.
Proof. by destruct b. Qed.

(** An entry is added. *)
Lemma Idx_add x css ims mes cur e :
  Idx x css ims mes -> small e -> zlen (wb_buffer (buf (mem_buf_ x) x)) < 2 ^ 30 ->
  exists b, WriteBuffer.Add e.1 e.2 (buf (mem_buf_ x) x) = Some b
    /\ Idx (set_history (calls x) (added x ++ [(cur, e)]) (set_buf (mem_buf_ x) b x)) css ims (mes ++ [e]).
Proof.
  intros [H1 H2 H3 H4 H5 H6] [Hk Hs] Hz. pose proof (zlen_nonneg e.1). pose proof (zlen_nonneg e.2).
  assert (He : zlen (enc e) <= zlen e.1 + zlen e.2 + 10).
  { unfold enc, PutLengthPrefixedSlice. rewrite !zlen_app. pose proof (length_EncodeVarint32 (u32 (zlen e.1))). pose proof (length_EncodeVarint32 (u32 (zlen e.2))). lia. }
  destruct (Holds_Add _ _ e.1 e.2 H1) as (b & -> & Hb & Ez); [split_and!; [done|..]; unfold in_width; cbn; lia|destruct e; cbn in *; lia|].
  exists b. split; [done|]. replace (e.1, e.2) with e in * by (by destruct e). constructor; cbn [set_history mem_buf_ set_buf buf0_ buf1_ imm_buf_ imm_compac_ bg_ calls added bg_status_ has_bg_compaction_ buf]; try done.
  - by destruct (mem_buf_ x).
  - destruct (mem_buf_ x); cbn; lia.
  - destruct (imm_buf_ x) as [i|], ims as [[c ies]|]; try done; [|by destruct (mem_buf_ x)]. destruct H3 as (-> & ? & ? & ? & ?). split_and!; try done. by destruct (mem_buf_ x), (bg_ x).
  - rewrite fmap_app, H6. cbn. by rewrite !app_assoc.
Qed.

(** The buffers are switched. *)
Definition switched (c : Compaction) (x : DirIndexer) : DirIndexer :=
  set_mem_buf_ (negb (mem_buf_ x)) (set_bg true Scheduled (set_imm (Some (mem_buf_ x)) (Some c) x)).

Lemma Idx_switch x css mes c : Idx x css None mes -> bg_status_ x = kOk -> Idx (switched c x) css (Some (c, mes)) [].
Proof.
  intros [H1 H2 H3 H4 H5 H6] Hb. destruct (imm_buf_ x); [done|]. destruct H3 as (? & ? & ? & Hh). constructor; try done.
  - cbn. replace (buf _ _) with (buf (negb (mem_buf_ x)) x) by (by destruct (mem_buf_ x)). rewrite (ho_buffer _ _ Hh). done.
  - cbn. rewrite negb_involutive. by destruct (mem_buf_ x).
  - rewrite app_nil_r. cbn. by rewrite H6.
Qed.

(** A compaction starts. *)
Lemma Idx_start x css ims mes : Idx x css ims mes -> bg_ x = Scheduled -> exists x', start_compaction skip x = Ret x' /\ Idx x' css ims mes
  /\ bg_status_ x' = bg_status_ x /\ added x' = added x /\ imm_buf_ x' = imm_buf_ x /\ has_bg_compaction_ x' = has_bg_compaction_ x.
Proof.
  intros [H1 H2 H3 H4 H5 H6] Hb. unfold start_compaction. destruct (imm_buf_ x) as [b|] eqn:Ei, ims as [[c ies]|]; try done; [|by destruct H3 as (_ & ? & _); congruence].
  destruct H3 as (-> & Hg & Hs & Hc & Hh). rewrite Hg, Hc. cbn [rbind assert_ the]. rewrite Hb in Hh. destruct (WriteBuffer.Finish skip (buf (negb (mem_buf_ x)) x)) as [y|] eqn:Ef.
  2: { unfold WriteBuffer.Finish in Ef. by rewrite (ho_open _ _ Hh) in Ef. }
  cbn. eexists. split; [reflexivity|]. split; [|done]. constructor; cbn; try done.
  - by destruct (mem_buf_ x).
  - by destruct (mem_buf_ x).
  - rewrite Ei. split_and!; try done. exists (buf (negb (mem_buf_ x)) x). split; [done|]. by destruct (mem_buf_ x).
Qed.

(** A compaction ends. *)
Lemma Idx_end x css ims mes st : Idx x css ims mes -> bg_ x = Working -> exists x' c ies, end_compaction st x = Ret x' /\ ims = Some (c, ies)
  /\ Idx x' (css ++ [(c, ies)]) None mes /\ bg_status_ x' = st /\ added x' = added x /\ bg_status_ x = kOk /\ imm_buf_ x' = None /\ has_bg_compaction_ x' = false.
Proof.
  intros [H1 H2 H3 H4 H5 H6] Hb. unfold end_compaction. destruct (imm_buf_ x) as [b|] eqn:Ei, ims as [[c ies]|]; try done; [|by destruct H3 as (_ & ? & _); congruence].
  destruct H3 as (-> & Hg & Hs & Hc & Hh). rewrite Hc. cbn [rbind assert_ the]. rewrite Hb in Hh.
  assert (HI : forall n1 n2, Idx (set_bg false NoBg (set_imm None None (set_buf (negb (mem_buf_ x)) (WriteBuffer.Reset (buf (negb (mem_buf_ x)) x))
     (set_flushes n1 n2 (set_history (calls x ++ [(c, buf (negb (mem_buf_ x)) x, st)]) (added x) (set_bg_status_ st x)))))) (css ++ [(c, ies)]) None mes).
  { intros n1 n2. constructor; cbn; try done.
    - by destruct (mem_buf_ x).
    - by destruct (mem_buf_ x).
    - split_and!; try done. destruct (mem_buf_ x); apply Holds_Reset.
    - apply Forall2_app; [done|]. by repeat constructor.
    - intros ->. apply Forall_app. split; [by apply H5|]. by constructor.
    - rewrite fmap_app, concat_app, H6. cbn. by rewrite app_nil_r, !app_assoc. }
  destruct (is_forced_ c); (eexists _, c, ies; split; [reflexivity|]; split; [done|]; split; [|done]); apply HI.
Qed.

End Idx.
