(* ===== verification/PlfsWriterProps.v ===== *)
(** * Writers of indexed directories: every interleaving is safe

    With a pool of threads for compactions, no assertion of the writer fails in any
    interleaving of its operations and compactions, and what the compactor of a
    partition is given is what was added, epoch by epoch. *)
From S2P Require Import Prelude Coding Status Gigaplus SstBlock PlfsFormat PlfsLog PlfsBuilder PlfsBuffer PlfsBufferProps PlfsWriter PlfsWriterInv.

(** ** Partitions and the epoch *)

(** Whether a thread has flushed partition [p] for the end of the epoch, and
    whether the directory ends with it. *)
Definition pc_flushed (pc : Pc) (p : nat) : option bool :=
  match pc with
  | AtFlush FlEpoch _ rem => if bool_decide (p ∈ rem) then None else Some false
  | AtFlush FlFinish _ rem => if bool_decide (p ∈ rem) then None else Some true
  | AtWait WtRotate _ | Rotating _ => Some false
  | AtWait WtFinish _ => Some true
  | _ => None
  end.

(** How many epochs of partition [p] have ended while [e] is the current one. *)
Definition Stage (m : gmap nat Pc) (p : nat) (e n : Z) (fin : bool) : Prop :=
  (n = e /\ fin = false /\ forall t pc, m !! t = Some pc -> pc_flushed pc p = None)
  \/ (n = e + 1 /\ exists t pc, m !! t = Some pc /\ pc_flushed pc p = Some fin).

Definition Clean (xs : list DirIndexer) : Prop := Forall (fun x => bg_status_ x = kOk) xs.

Definition PL (m : gmap nat Pc) (p : nat) (e : Z) (x : DirIndexer) (cs : list (Compaction * list entry)) (mes : list entry) : Prop :=
  Forall (fun a => a.1 <= e) (added x) /\ exists n fin, Layout cs mes (added x) n fin /\ Stage m p e n fin.

Lemma flushed_committer pc p fin : pc_flushed pc p = Some fin -> committer pc = true /\ draining pc = false.
Proof. by destruct pc as [| | | | |[]| []| |]. Qed.

Lemma Stage_move m t pc pc' p e n fin : pc_flushed pc p = pc_flushed pc' p -> Stage (<[t := pc]> m) p e n fin -> Stage (<[t := pc']> m) p e n fin.
Proof.
  intros E [(H1 & H2 & H3)|(H1 & t' & q & H2 & H3)].
  - left. split_and!; try done. intros t' q [[<- <-]|[Hn Hq]]%insert_cases; [rewrite <- E; apply (H3 t); by rewrite lookup_insert_eq|apply (H3 t'); by rewrite lookup_insert_ne].
  - right. split; [done|]. apply insert_cases in H2 as [[<- <-]|[Hn Hq]]; [exists t, pc'; by rewrite lookup_insert_eq, <- E|exists t', q; by rewrite lookup_insert_ne].
Qed.

Lemma land_le_l a b : 0 <= a -> Z.land a b <= a.
Proof.
  intros Ha. assert (E : a - Z.land a b = Z.ldiff a (Z.land a b)).
  { apply Z.sub_nocarry_ldiff. apply Z.bits_inj'. intros n Hn. rewrite Z.ldiff_spec, Z.land_spec, Z.bits_0. by destruct (Z.testbit a n), (Z.testbit b n). }
  assert (0 <= Z.ldiff a (Z.land a b)); [apply Z.ldiff_nonneg; lia|lia].
Qed.

Section Safety.
Context `{StdSort} (num_parts : nat) (buf_threshold : Z) (rotation skip : bool).
Context (Hparts : (0 < num_parts)%nat) (Hthr : 0 < buf_threshold <= 2 ^ 30).

Record Parts (xs : list DirIndexer) (e : option Epoch) (fs : Status) (m : gmap nat Pc) : Prop := {
  pt_len : length xs = num_parts;
  pt_part : forall p x, xs !! p = Some x -> exists css ims mes, Idx skip x css ims mes
    /\ (Clean xs -> forall ep, e = Some ep -> PL m p (seq_ ep) x (css ++ option_list ims) mes);
  pt_done : e = None -> fs = kOk -> Clean xs /\ exists last, forall p x, xs !! p = Some x ->
    exists css, Idx skip x css None [] /\ Layout css [] (added x) (last + 1) true /\ Forall (fun a => a.1 <= last) (added x) }.

Record Safe (N : Z) (s : Writer) (m : gmap nat Pc) : Prop := {
  sf_threads : Threads num_parts (epoch_ s) (finished_ s) m;
  sf_parts : Parts (idxers_ s) (epoch_ s) (finish_status_ s) m;
  sf_seq : forall e, epoch_ s = Some e -> 0 <= seq_ e <= N }.

Lemma Safe_mono N N' s m : Safe N s m -> N <= N' -> Safe N' s m.
Proof. intros [H1 H2 H3] Hn. constructor; try done. intros e He. specialize (H3 e He). lia. Qed.

Lemma Parts_move xs e e' fs m t pc pc' :
  Parts xs e fs (<[t := pc]> m) -> (forall p, pc_flushed pc p = pc_flushed pc' p) -> seq_ <$> e = seq_ <$> e' -> Parts xs e' fs (<[t := pc']> m).
Proof.
  intros [H1 H2 H3] Hf He. constructor; [done| |].
  - intros p x Hx. destruct (H2 p x Hx) as (css & ims & mes & Hi & Hl). exists css, ims, mes. split; [done|]. intros Hc ep' ->. destruct e as [ep|]; [|done].
    cbn in He. injection He as <-. destruct (Hl Hc ep eq_refl) as (Ha & n & fin & HL & HS). split; [done|]. exists n, fin. split; [done|]. eapply (Stage_move _ _ pc); [apply Hf|done].
  - intros ->. destruct e; [done|]. by apply H3.
Qed.

(** A partition changes. *)
Lemma Parts_set xs e fs m m' p x x' :
  Parts xs e fs m -> xs !! p = Some x -> (bg_status_ x' = kOk -> bg_status_ x = kOk) ->
  (forall q ep n fin, q <> p -> Stage m q ep n fin -> Stage m' q ep n fin) ->
  (e = None -> fs = kOk -> False) ->
  (forall css ims mes, Idx skip x css ims mes -> (Clean xs -> forall ep, e = Some ep -> PL m p (seq_ ep) x (css ++ option_list ims) mes) ->
     exists css' ims' mes', Idx skip x' css' ims' mes' /\ (bg_status_ x' = kOk -> Clean xs -> forall ep, e = Some ep -> PL m' p (seq_ ep) x' (css' ++ option_list ims') mes')) ->
  Parts (<[p := x']> xs) e fs m'.
Proof.
  intros [H1 H2 H3] Hx Hb HS Hd Hn.
  assert (Hcl : Clean (<[p := x']> xs) -> bg_status_ x' = kOk /\ Clean xs).
  { intros Hc. assert (Hx' : bg_status_ x' = kOk) by (apply (Forall_lookup_1 _ _ p x' Hc); by rewrite list_lookup_insert_eq by (by eapply lookup_lt_Some)).
    split; [done|]. apply Forall_lookup. intros q y Hq. destruct (decide (q = p)) as [->|Hne]; [assert (y = x) as -> by congruence; by apply Hb|].
    apply (Forall_lookup_1 _ _ q y Hc). by rewrite list_lookup_insert_ne. }
  constructor.
  - by rewrite length_insert.
  - intros q y Hq. destruct (decide (q = p)) as [->|Hne].
    + rewrite list_lookup_insert_eq in Hq by (by eapply lookup_lt_Some). injection Hq as <-. destruct (H2 p x Hx) as (css & ims & mes & Hi & Hl).
      destruct (Hn css ims mes Hi Hl) as (css' & ims' & mes' & Hi' & Hl'). exists css', ims', mes'. split; [done|]. intros [Hc1 Hc2]%Hcl. by apply Hl'.
    + rewrite list_lookup_insert_ne in Hq by done. destruct (H2 q y Hq) as (css & ims & mes & Hi & Hl). exists css, ims, mes. split; [done|]. intros [_ Hc]%Hcl ep He.
      destruct (Hl Hc ep He) as (Ha & n & fin & HL & Hst). split; [done|]. exists n, fin. split; [done|]. by apply HS.
  - intros He Hf. by destruct (Hd He Hf).
Qed.

(** While an operation is going on no partition has been flushed for the end of
    the epoch. *)
Lemma in_op_unflushed e fin m t pc t' q p :
  Threads num_parts e fin m -> m !! t = Some pc -> in_op pc = true -> m !! t' = Some q -> pc_flushed q p = None.
Proof.
  intros HT Ht Hi Hq. destruct (pc_flushed q p) as [f|] eqn:E; [|done]. apply flushed_committer in E as [E1 E2]. pose proof (th_drained _ _ _ _ HT _ _ Hq E1 E2).
  pose proof (in_ops_pos _ _ _ Ht Hi). lia.
Qed.

Lemma Stage_unflushed m p e n fin : Stage m p e n fin -> (forall t pc, m !! t = Some pc -> pc_flushed pc p = None) -> n = e /\ fin = false.
Proof. intros [(? & ? & _)|(_ & t & pc & Hm & Hf)] Hn; [done|]. by rewrite (Hn _ _ Hm) in Hf. Qed.

Lemma Stage_flushed e fin' m t pc p ep n fin f :
  Threads num_parts e fin' m -> m !! t = Some pc -> pc_flushed pc p = Some f -> Stage m p ep n fin -> n = ep + 1 /\ fin = f.
Proof.
  intros HT Ht Hf [(_ & _ & Hn)|(-> & t' & q & Hq & Hqf)]; [by rewrite (Hn _ _ Ht) in Hf|]. split; [done|].
  destruct (flushed_committer _ _ _ Hf) as [Hc _], (flushed_committer _ _ _ Hqf) as [Hc' _]. pose proof (th_one _ _ _ _ HT _ _ _ _ Ht Hq Hc Hc') as <-.
  assert (q = pc) as -> by congruence. congruence.
Qed.

(** ** Stretches of code *)

(** What a thread that is asleep waits for has not happened. *)
Definition sleep_ok (s : Writer) (pc : Pc) : Prop :=
  match pc with
  | AtLoop _ => exists e, epoch_ s = Some e /\ committing_ e = true
  | AtDrain _ _ => exists e, epoch_ s = Some e /\ committing_ e = true /\ num_ongoing_ops_ e <> 0
  | AtPrepare _ part _ _ _ _ => exists x, idxers_ s !! part = Some x /\ imm_buf_ x <> None
  | AtFlush _ _ rem => exists p x, p ∈ rem /\ idxers_ s !! p = Some x /\ imm_buf_ x <> None
  | AtWait _ _ => HasCompaction s = true
  | _ => False
  end.

(** The threads still asleep wait for something that has not happened. *)
Definition Live (s s' : Writer) : Prop :=
  forall t pc, threads s' !! t = Some (pc, false) -> threads s !! t = Some (pc, false) /\ (sleep_ok s pc -> sleep_ok s' pc).

(** A stretch ends with the thread at a new place. *)
Definition Runs (N : Z) (t : nat) (m : gmap nat Pc) (s : Writer) (r : Res Stop) : Prop :=
  exists s' th, r = Ret (s', th) /\ Safe (N + 1) s' (<[t := th.1]> m) /\ (fst <$> threads s') = (fst <$> threads s)
    /\ Live s s' /\ (th.2 = false -> sleep_ok s' th.1).

Lemma Live_refl s : Live s s.
Proof. by intros t pc. Qed.

Lemma Live_trans s1 s2 s3 : Live s1 s2 -> Live s2 s3 -> Live s1 s3.
Proof. intros H1 H2 t pc Ht. destruct (H2 t pc Ht) as [Ht2 H3], (H1 t pc ltac:(done)) as [? ?]; auto. Qed.

(** Nobody sleeps on a condition variable that was signalled. *)
Lemma Live_signal cv s s' :
  threads s' = threads s -> (forall pc, sleeps_on pc <> Some cv -> sleep_ok s pc -> sleep_ok s' pc) -> Live s (SignalAll cv s').
Proof.
  intros Et Hs t pc. cbn. rewrite lookup_fmap, Et. destruct (threads s !! t) as [[q a]|]; [|done]. cbn. unfold wake. cbn.
  case_bool_decide as Hq; [done|]. intros [= <- ->]. split; [done|]. intros Hok. apply (Hs q Hq) in Hok. by destruct q.
Qed.

Lemma Live_same s s' : threads s' = threads s -> (forall pc, sleep_ok s pc -> sleep_ok s' pc) -> Live s s'.
Proof. intros Et Hs t pc. rewrite Et. auto. Qed.

Lemma HasCompaction_spec s : HasCompaction s = true <-> exists p x, idxers_ s !! p = Some x /\ has_bg_compaction_ x = true.
Proof.
  unfold HasCompaction. rewrite existsb_exists. split.
  - intros (x & Hx%list_elem_of_In%list_elem_of_lookup & Hb). destruct Hx as [p Hx]. by exists p, x.
  - intros (p & x & Hx & Hb). exists x. split; [|done]. apply list_elem_of_In. by eapply list_elem_of_lookup_2.
Qed.

(** A partition changes, with a compaction going on if there was one. *)
Lemma Live_idxer s p x x' :
  idxers_ s !! p = Some x -> (imm_buf_ x <> None -> imm_buf_ x' <> None) -> (has_bg_compaction_ x = true -> has_bg_compaction_ x' = true) -> Live s (set_idxer p x' s).
Proof.
  intros Hx Hi Hb. assert (Hl : forall q y, idxers_ s !! q = Some y -> exists y', <[p := x']> (idxers_ s) !! q = Some y' /\ (imm_buf_ y <> None -> imm_buf_ y' <> None)
    /\ (has_bg_compaction_ y = true -> has_bg_compaction_ y' = true)).
  { intros q y Hq. destruct (decide (p = q)) as [<-|Hn]; [exists x'; rewrite list_lookup_insert_eq by (by eapply lookup_lt_Some)|exists y; rewrite list_lookup_insert_ne by done]; [|done].
    assert (y = x) as -> by congruence. done. }
  apply Live_same; [done|]. intros pc. destruct pc as [| | | |cur part ? ? ? ?|who cur rem|w cur| |]; try done; cbn [sleep_ok idxers_ set_idxer epoch_].
  - intros (y & Hy & Hn). destruct (Hl _ _ Hy) as (y' & Hy' & Hi' & _). exists y'. auto.
  - intros (q & y & Hq & Hy & Hn). destruct (Hl _ _ Hy) as (y' & Hy' & Hi' & _). exists q, y'. auto.
  - rewrite !HasCompaction_spec. intros (q & y & Hy & Hn). destruct (Hl _ _ Hy) as (y' & Hy' & _ & Hb'). exists q, y'. auto.
Qed.

Lemma SignalAll_pcs cv s : fst <$> threads (SignalAll cv s) = fst <$> threads s.
Proof. cbn. rewrite <- map_fmap_compose. apply map_fmap_ext. intros t th _. unfold wake. cbn. by case_bool_decide. Qed.

Lemma Safe_same N s s' m :
  Safe N s m -> idxers_ s' = idxers_ s -> epoch_ s' = epoch_ s -> finished_ s' = finished_ s -> finish_status_ s' = finish_status_ s -> Safe N s' m.
Proof. intros [H1 H2 H3] E1 E2 E3 E4. constructor; by rewrite ?E1, ?E2, ?E3, ?E4. Qed.

Lemma Safe_signal N s m cv : Safe N s m -> Safe N (SignalAll cv s) m.
Proof. intros HS. by apply (Safe_same N s). Qed.

Lemma the_epoch_spec N s m t pc cur line :
  Safe N s m -> m !! t = Some pc -> epoch_of pc = Some cur -> exists n c, epoch_ s = Some (mkEpoch cur n c) /\ the_epoch line cur s = Ret (mkEpoch cur n c) /\ finished_ s = false.
Proof.
  intros [HT _ _] Hm He. destruct (th_cur _ _ _ _ HT _ _ _ Hm He) as (n & c & E). pose proof (th_epoch _ _ _ _ HT) as Hep. rewrite E in Hep. exists n, c.
  unfold the_epoch. rewrite E. cbn. rewrite Z.eqb_refl. split_and!; [done|done|apply Hep].
Qed.

(** The thread only moves; the epoch stays. *)
Lemma Safe_pc N s m t pc pc' :
  Safe N s (<[t := pc]> m) -> shape num_parts pc' -> (forall p, pc_flushed pc p = pc_flushed pc' p) -> in_op pc' = in_op pc -> committer pc' = committer pc ->
  (committer pc' = true -> draining pc = false) -> epoch_of pc' = epoch_of pc -> Safe N s (<[t := pc']> m).
Proof.
  intros [HT HP HN] Hs Hf Hi Hc Hd He. constructor; [|apply (Parts_move _ _ _ _ _ _ _ _ HP Hf eq_refl)|done]. pose proof (th_epoch _ _ _ _ HT) as Hep.
  assert (Ecnt : count (<[t := pc']> m) = count (<[t := pc]> m)) by (rewrite (in_ops_insert m t pc pc'), Hi; lia).
  apply (Threads_move _ _ _ _ _ _ _ _ _ HT); try done.
  - intros cur Hcur. rewrite He in Hcur. apply (th_cur _ _ _ _ HT t pc); [by rewrite lookup_insert_eq|done].
  - intros t' q cur Hn Hq. apply (th_cur _ _ _ _ HT t' q). by rewrite lookup_insert_ne.
  - intros Hp. left. congruence.
  - intros Hp Hd'. rewrite Ecnt. apply (th_drained _ _ _ _ HT t pc); [by rewrite lookup_insert_eq|congruence|by apply Hd].
  - intros; congruence.
  - destruct (epoch_ s) as [e|].
    + destruct Hep as (? & ? & Hiff). split_and!; [done|by rewrite Ecnt|]. rewrite Hiff. split.
      * intros (t' & q & [[<- <-]|[Hn Hq]]%insert_cases & Hq'); [left; congruence|right; by exists t', q].
      * intros [Hp|(t' & q & Hn & Hq & Hq')]; [exists t, pc; rewrite lookup_insert_eq; split; [done|congruence]|exists t', q; by rewrite lookup_insert_ne].
    + destruct Hep as [? Hno]. destruct (Hno t pc) as [? ?]; [by rewrite lookup_insert_eq|]. split_and!; try congruence. intros t' q Hn Hq. apply (Hno t'). by rewrite lookup_insert_ne.
Qed.

Lemma Runs_return N t m s pc st :
  Safe N s (<[t := pc]> m) -> in_op pc = false -> committer pc = false -> (forall p, pc_flushed pc p = None) -> epoch_of pc = None -> Runs N t m s (return_ st s).
Proof.
  intros HS Hi Hc Hf He. eexists _, _. split; [reflexivity|]. split_and!; [|done|apply Live_refl|done]. eapply Safe_mono; [|shelve]. apply (Safe_pc N s m t pc); try done; by rewrite ?Hi, ?Hc, ?He.
  Unshelve. lia.
Qed.

Lemma Runs_asleep N t m s pc : Safe N s (<[t := pc]> m) -> sleep_ok s pc -> Runs N t m s (asleep pc s).
Proof. intros HS Hs. eexists _, _. split; [reflexivity|]. split_and!; [|done|apply Live_refl|done]. eapply Safe_mono; [exact HS|lia]. Qed.

Lemma in_op_facts pc : in_op pc = true -> committer pc = false /\ (forall p, pc_flushed pc p = None) /\ exists cur, epoch_of pc = Some cur.
Proof. destruct pc as [| | | |? ? ? ? ? []|[]| []| |]; try done; intros _; (split_and!; try done); by eexists. Qed.

(** What the other threads do not depend on. *)
Lemma others_cur e fin m t pc t' q cur :
  Threads num_parts e fin (<[t := pc]> m) -> t <> t' -> m !! t' = Some q -> epoch_of q = Some cur -> exists n c, e = Some (mkEpoch cur n c).
Proof. intros HT Hn Hq. apply (th_cur _ _ _ _ HT t' q). by rewrite lookup_insert_ne. Qed.

Lemma committing_others cur fin m t pc n c :
  Threads num_parts (Some (mkEpoch cur n c)) fin (<[t := pc]> m) ->
  (c = true <-> committer pc = true \/ exists t' q, t <> t' /\ m !! t' = Some q /\ committer q = true).
Proof.
  intros HT. destruct (th_epoch _ _ _ _ HT) as (_ & _ & Hiff). cbn in Hiff. rewrite Hiff. split.
  - intros (t' & q & [[<- <-]|[Hn Hq]]%insert_cases & Hq'); [by left|right; by exists t', q].
  - intros [Hp|(t' & q & Hn & Hq & Hq')]; [exists t, pc; by rewrite lookup_insert_eq|exists t', q; by rewrite lookup_insert_ne].
Qed.

Lemma end_op_runs N t m s pc cur st : Safe N s (<[t := pc]> m) -> in_op pc = true -> epoch_of pc = Some cur -> Runs N t m s (end_op cur st s).
Proof.
  intros HS Hi He. destruct (the_epoch_spec _ _ _ t pc cur 460 HS ltac:(by rewrite lookup_insert_eq) He) as (n & c & Es & Et & Hfin). pose proof HS as [HT HP HN].
  destruct (in_op_facts _ Hi) as (Hc & Hf & _). unfold end_op. rewrite Et. cbn [rbind num_ongoing_ops_ seq_ committing_].
  assert (Hn : n = count (<[t := pc]> m)) by (pose proof (th_epoch _ _ _ _ HT) as Hep; rewrite Es in Hep; apply Hep).
  pose proof (in_ops_pos (<[t := pc]> m) t pc ltac:(by rewrite lookup_insert_eq) Hi). pose proof (count_bound _ (th_ids _ _ _ _ HT)).
  destruct (Z.eqb_spec n 0); [lia|]. cbn [negb assert_ rbind]. rewrite (u32_small (n - 1)) by (unfold in_width; lia).
  assert (HS' : Safe (N + 1) (set_epoch (Some (mkEpoch cur (n - 1) c)) s) (<[t := Returned st]> m)).
  { constructor.
    - apply (Threads_move _ _ _ _ _ _ _ _ _ HT); cbn; try done.
      + intros t' q cur' Hne Hq Hq'. destruct (others_cur _ _ _ _ _ _ _ _ HT Hne Hq Hq') as (n' & c' & E). rewrite Es in E. injection E as <- <- <-. by eexists _, _.
      + split_and!; [done|rewrite (in_ops_insert m t pc), Hi; cbn; lia|]. rewrite Es in HT. rewrite (committing_others _ _ _ _ _ _ _ HT), Hc. done.
    - eapply (Parts_move _ (epoch_ s) _ _ _ _ pc); [done| |by rewrite Es]. intros p. by rewrite Hf.
    - intros e [= <-]. specialize (HN _ Es). cbn in *. lia. }
  assert (Hl : forall q, sleeps_on q <> Some CvOps -> sleep_ok s q -> sleep_ok (set_epoch (Some (mkEpoch cur (n - 1) c)) s) q).
  { intros q Hq Hok. destruct q; try done. destruct Hok as (e & Ee & Hce). rewrite Es in Ee. injection Ee as <-. by eexists. }
  destruct (c && (n - 1 =? 0)) eqn:Ec; (eexists _, _; split; [reflexivity|]; split_and!); try done; [by apply Safe_signal|apply (SignalAll_pcs CvOps (set_epoch _ s))|by apply Live_signal|].
  apply Live_same; [done|]. intros q Hq. destruct (decide (sleeps_on q = Some CvOps)) as [Eq|]; [|by apply Hl]. destruct q; try done. destruct Hq as (e & Ee & Hce & _). rewrite Es in Ee. injection Ee as <-. cbn in Hce. subst c.
  apply andb_false_iff in Ec as [?|Ec%Z.eqb_neq]; [done|]. eexists. split_and!; [done|done|done].
Qed.

(** A committer past the draining has the writer to itself. *)
Lemma alone N s m t pc : Safe N s (<[t := pc]> m) -> committer pc = true -> draining pc = false ->
  count (<[t := pc]> m) = 0 /\ forall t' q, t <> t' -> m !! t' = Some q -> in_op q = false /\ committer q = false /\ epoch_of q = None.
Proof.
  intros [HT _ _] Hc Hd. pose proof (th_drained _ _ _ _ HT t pc ltac:(by rewrite lookup_insert_eq) Hc Hd) as H0. split; [done|]. intros t' q Hn Hq.
  assert (Hq' : <[t := pc]> m !! t' = Some q) by (by rewrite lookup_insert_ne).
  assert (Hcq : committer q = false) by (destruct (committer q) eqn:E; [|done]; destruct Hn; eapply (th_one _ _ _ _ HT t t'); [by rewrite lookup_insert_eq|exact Hq'|done|done]).
  assert (Hiq : in_op q = false) by (destruct (in_op q) eqn:E; [pose proof (in_ops_pos _ _ _ Hq' E); lia|done]). pose proof (th_shape _ _ _ _ HT _ _ Hq') as Hsh.
  split_and!; try done. destruct q as [| | | |? ? ? ? ? []|[]|[]| |]; try done. cbn in Hsh. by destruct Hsh as (_ & _ & _ & _ & ? & ? & ? & _).
Qed.

Lemma next_epoch_runs N t m s pc cur st :
  Safe N s (<[t := pc]> m) -> committer pc = true -> draining pc = false -> epoch_of pc = Some cur -> N + 1 < 2 ^ 32 ->
  (Clean (idxers_ s) -> forall p, (p < num_parts)%nat -> pc_flushed pc p = Some false) -> Runs N t m s (next_epoch cur st s).
Proof.
  intros HS Hc Hd He HN1 Hf. destruct (the_epoch_spec _ _ _ t pc cur 389 HS ltac:(by rewrite lookup_insert_eq) He) as (n & c & Es & Et & Hfin). pose proof HS as [HT HP HN].
  destruct (alone _ _ _ _ _ HS Hc Hd) as [H0 Hoth]. unfold next_epoch. rewrite Et. cbn [rbind]. specialize (HN _ Es). cbn in HN. rewrite u32_small by (unfold in_width; lia).
  assert (Hcnt : count (<[t := Returned st]> m) = 0).
  { rewrite (in_ops_insert m t pc), H0. assert (in_op pc = false) as ->; [|done]. destruct (in_op pc) eqn:E; [|done]. apply in_op_facts in E as [? _]. congruence. }
  assert (Hn0 : n = 0) by (pose proof (th_epoch _ _ _ _ HT) as Hep; rewrite Es in Hep; destruct Hep as (_ & Hn & _); cbn in Hn; congruence).
  eexists _, _. split; [reflexivity|]. split_and!; [apply Safe_signal|apply (SignalAll_pcs CvEpochs (set_epoch _ s))| |done].
  2: { apply Live_signal; [done|]. intros q Hq Hok. destruct q; try done. destruct Hok as (e & Ee & _ & Hne). rewrite Es in Ee. by injection Ee as <-. }
  constructor.
  - apply (Threads_move _ _ _ _ _ _ _ _ _ HT); cbn; try done.
    + intros t' q cur' Hne Hq Hq'. destruct (Hoth _ _ Hne Hq) as (_ & _ & ?). congruence.
    + split_and!; try done. split; [done|]. intros [?|(t' & q & Hne & Hq & Hq')]; [done|]. destruct (Hoth _ _ Hne Hq) as (_ & ? & _). congruence.
  - cbn. destruct HP as [P1 P2 P3]. constructor; [done| |done]. intros p x Hx. destruct (P2 p x Hx) as (css & ims & mes & HI & HL). exists css, ims, mes. split; [done|].
    intros Hcl ep [= <-]. destruct (HL Hcl _ Es) as (Ha & n' & fin & HLa & HSt). cbn [seq_] in *. split; [eapply Forall_impl; [exact Ha|]; cbn; lia|].
    destruct (Stage_flushed _ _ _ t pc p cur n' fin false HT ltac:(by rewrite lookup_insert_eq) (Hf Hcl p ltac:(rewrite <- P1; by eapply lookup_lt_Some)) HSt) as [-> ->].
    exists (cur + 1), false. split; [done|]. left. split_and!; [lia|done|]. intros t' q [[<- <-]|[Hne Hq]]%insert_cases; [done|].
    destruct (Hoth _ _ Hne Hq) as (_ & ? & _). destruct (pc_flushed q p) eqn:E; [|done]. apply flushed_committer in E as [? _]. congruence.
  - intros e [= <-]. cbn. lia.
Qed.

Lemma finish_end_runs N t m s pc cur st :
  Safe N s (<[t := pc]> m) -> committer pc = true -> draining pc = false -> epoch_of pc = Some cur ->
  (st = kOk -> Clean (idxers_ s) /\ HasCompaction s = false /\ forall p, pc_flushed pc p = Some true) -> Runs N t m s (finish_end st s).
Proof.
  intros HS Hc Hd He Hst. destruct (the_epoch_spec _ _ _ t pc cur 389 HS ltac:(by rewrite lookup_insert_eq) He) as (n & c & Es & _ & Hfin). pose proof HS as [HT HP HN].
  destruct (alone _ _ _ _ _ HS Hc Hd) as [H0 Hoth]. assert (Hn0 : n = 0) by (pose proof (th_epoch _ _ _ _ HT) as Hep; rewrite Es in Hep; destruct Hep as (_ & Hn & _); cbn in Hn; congruence).
  eexists _, _. split; [reflexivity|]. split_and!; [apply Safe_signal|apply (SignalAll_pcs CvEpochs (set_epoch _ (set_finished _ s)))| |done].
  2: { apply Live_signal; [done|]. intros q Hq Hok. destruct q; try done. destruct Hok as (e & Ee & _ & Hne). rewrite Es in Ee. by injection Ee as <-. }
  constructor.
  - apply (Threads_move _ _ _ _ _ _ _ _ _ HT); cbn; try done.
    + intros t' q cur' Hne Hq Hq'. destruct (Hoth _ _ Hne Hq) as (_ & _ & ?). congruence.
    + split_and!; try done. intros t' q Hne Hq. by destruct (Hoth _ _ Hne Hq) as (? & ? & _).
  - cbn. destruct HP as [P1 P2 P3]. constructor; [done| |].
    + intros p x Hx. destruct (P2 p x Hx) as (css & ims & mes & HI & HL). by exists css, ims, mes.
    + intros _ ->. destruct (Hst eq_refl) as (Hcl & Hhc & Hf). split; [done|]. exists cur. intros p x Hx. destruct (P2 p x Hx) as (css & ims & mes & HI & HL).
      assert (Hbg : has_bg_compaction_ x = false).
      { destruct (has_bg_compaction_ x) eqn:Eb; [|done]. unfold HasCompaction in Hhc. rewrite <- Hhc. symmetry. apply existsb_exists. exists x. split; [|done]. by apply list_elem_of_In, list_elem_of_lookup_2 with p. }
      assert (ims = None) as ->. { pose proof (ix_imm _ _ _ _ _ HI) as Him. destruct (imm_buf_ x), ims as [[c0 ies]|]; try done. destruct Him as (_ & ? & _). congruence. }
      destruct (HL Hcl _ Es) as (Ha & n' & fin & HLa & HSt). cbn [seq_ option_list] in *. rewrite app_nil_r in HLa.
      destruct (Stage_flushed _ _ _ t pc p cur n' fin true HT ltac:(by rewrite lookup_insert_eq) (Hf p) HSt) as [-> ->].
      destruct (la_rest _ _ _ _ _ HLa) as (rest & _ & Er). rewrite (by_epoch_none (added x) (cur + 1)) in Er by (eapply Forall_impl; [exact Ha|]; intros a ?; cbn in *; lia).
      apply app_eq_nil in Er as [_ ->]. by exists css.
  - done.
Qed.

Lemma obtain_spec s : (ObtainCompactionStatus s = kOk -> Clean (idxers_ s)) /\ (ObtainCompactionStatus s <> kOk -> ~ Clean (idxers_ s)).
Proof.
  unfold ObtainCompactionStatus, Clean. destruct (list_find _ (idxers_ s)) as [[i x]|] eqn:E; cbn.
  - apply list_find_Some in E as (Hi & Hx & _). apply negb_true_iff, ok_false in Hx. split; [done|]. intros _ Hc. by apply Hx, (Forall_lookup_1 _ _ i x Hc).
  - split; [|done]. intros _. apply list_find_None in E. eapply Forall_impl; [exact E|]. intros x Hx. cbn in Hx. destruct (ok (bg_status_ x)) eqn:Eo; [by apply ok_true|done].
Qed.

Lemma WaitForCompaction_runs N t m s w cur io :
  Safe N s (<[t := AtWait w cur]> m) -> N + 1 < 2 ^ 32 -> Runs N t m s (WaitForCompaction io w cur s).
Proof.
  intros HS HN1. unfold WaitForCompaction. destruct (obtain_spec s) as [Ho1 Ho2]. destruct (ok (ObtainCompactionStatus s)) eqn:Eo; cbn [andb].
  - destruct (HasCompaction s) eqn:Eh; [by apply Runs_asleep|]. apply ok_true in Eo. unfold wait_end. rewrite Eo. cbn [ok]. change (ok kOk) with true. cbn iota. destruct w.
    + eexists _, _. split; [reflexivity|]. split_and!; [|done|apply Live_refl|done]. eapply Safe_mono; [by apply (Safe_pc N s m t (AtWait WtRotate cur))|lia].
    + rewrite Eh. cbn [negb assert_ rbind]. apply (finish_end_runs N t m s (AtWait WtFinish cur) cur); try done. intros ->. split_and!; [by apply Ho1|done|done].
    + by apply (Runs_return N t m s (AtWait WtWait cur)).
    + by apply (Runs_return N t m s (AtWait WtSync cur)).
  - pose proof Eo as Eo'. apply ok_false in Eo'. unfold wait_end. rewrite Eo. destruct w.
    + apply (next_epoch_runs N t m s (AtWait WtRotate cur) cur); done.
    + apply (finish_end_runs N t m s (AtWait WtFinish cur) cur); done.
    + by apply (Runs_return N t m s (AtWait WtWait cur)).
    + by apply (Runs_return N t m s (AtWait WtSync cur)).
Qed.

(** ** Prepare *)

Lemma part_lookup N s m p : Safe N s m -> (p < num_parts)%nat -> exists x, idxers_ s !! p = Some x /\ idxer p s = Ret x.
Proof.
  intros [_ [P1 _ _] _] Hp. rewrite <- P1 in Hp. apply lookup_lt_is_Some in Hp as [x Hx]. exists x. unfold idxer. by rewrite Hx.
Qed.

Lemma Prepare_switch cur part force ef fi fr s x css mes :
  idxers_ s !! part = Some x -> Idx skip x css None mes -> bg_status_ x = kOk ->
  force = true \/ buf_threshold <= zlen (wb_buffer (buf (mem_buf_ x) x)) ->
  Prepare buf_threshold true skip prepare_fuel cur part force ef fi fr s = Ret (set_idxer part (switched (mkCompaction cur force ef fi) x) s, inl kOk).
Proof.
  intros Hx HI Hb Hfull. pose proof (ix_imm _ _ _ _ _ HI) as Him. destruct (imm_buf_ x) eqn:Ei; [done|]. destruct Him as (Hg & _ & Hc & Hh).
  assert (Er : negb force && negb (WriteBuffer.NeedCompaction (buf (mem_buf_ x) x)) && (WriteBuffer.CurrentBufferSize (buf (mem_buf_ x) x) <? buf_threshold) = false).
  { destruct Hfull as [->|Hf]; [done|]. unfold WriteBuffer.CurrentBufferSize. destruct (Z.ltb_spec (zlen (wb_buffer (buf (mem_buf_ x) x))) buf_threshold); [lia|]. by rewrite !andb_false_r. }
  unfold prepare_fuel. cbn [Prepare]. unfold idxer. rewrite Hx. cbn [the rbind]. rewrite Hb. change (ok kOk) with true. cbn [negb]. rewrite Er, Ei, Hc. cbn [assert_ rbind].
  cbn [has_bg_compaction_ set_imm]. rewrite Hg. change (set_mem_buf_ (negb (mem_buf_ x)) (set_bg true Scheduled (set_imm (Some (mem_buf_ x)) (Some (mkCompaction cur force ef fi)) x)))
    with (switched (mkCompaction cur force ef fi) x). cbn [idxers_ set_idxer].
  rewrite list_lookup_insert_eq by (by eapply lookup_lt_Some). cbn [the rbind]. change (bg_status_ (switched _ x)) with (bg_status_ x). rewrite Hb. change (ok kOk) with true. cbn [negb andb].
  assert (Ez : WriteBuffer.CurrentBufferSize (buf (mem_buf_ (switched (mkCompaction cur force ef fi) x)) (switched (mkCompaction cur force ef fi) x)) = 0).
  { change (mem_buf_ (switched _ x)) with (negb (mem_buf_ x)). unfold WriteBuffer.CurrentBufferSize. replace (buf _ _) with (buf (negb (mem_buf_ x)) x) by (by destruct (mem_buf_ x)). by rewrite (ho_buffer _ _ Hh). }
  rewrite Ez. destruct (Z.ltb_spec 0 buf_threshold); [|lia]. done.
Qed.

Lemma switched_safe N s m m' p x c :
  Safe N s m -> Threads num_parts (epoch_ s) (finished_ s) m' -> idxers_ s !! p = Some x -> bg_status_ x = kOk -> imm_buf_ x = None ->
  (exists ep, epoch_ s = Some ep) ->
  (forall q ep n fin, q <> p -> Stage m q ep n fin -> Stage m' q ep n fin) ->
  (forall css mes ep, epoch_ s = Some ep -> Idx skip x css None mes -> Clean (idxers_ s) -> PL m p (seq_ ep) x css mes -> PL m' p (seq_ ep) (switched c x) (css ++ [(c, mes)]) []) ->
  Safe N (set_idxer p (switched c x) s) m'.
Proof.
  intros [HT HP HN] HT' Hx Hb Hi [ep0 He] HSt HL. constructor; [done| |done]. cbn. apply (Parts_set _ _ _ m _ _ x); try done; [by rewrite He|]. intros css ims mes HI HPL.
  assert (ims = None) as ->. { pose proof (ix_imm _ _ _ _ _ HI) as Him. rewrite Hi in Him. by destruct ims. }
  exists css, (Some (c, mes)), []. split; [by apply Idx_switch|]. intros _ Hc ep He'. cbn [option_list]. apply (HL css mes ep He' HI Hc).
  specialize (HPL Hc ep He'). cbn [option_list] in HPL. by rewrite app_nil_r in HPL.
Qed.

Lemma Prepare_add N s m t cur part k v :
  let pc := AtPrepare cur part false false false (FrAdd k v) in
  Safe N s (<[t := pc]> m) ->
  exists s' r, Prepare buf_threshold true skip prepare_fuel cur part false false false (FrAdd k v) s = Ret (s', r)
    /\ Safe N s' (<[t := pc]> m) /\ threads s' = threads s /\ Live s s'
    /\ match r with
       | inl st => st = kOk -> exists x, idxers_ s' !! part = Some x /\ zlen (wb_buffer (buf (mem_buf_ x) x)) < buf_threshold
       | inr th => th = (pc, false) /\ sleep_ok s' pc
       end.
Proof.
  intros pc HS. pose proof HS as [HT HP HN]. assert (Hpc : <[t := pc]> m !! t = Some pc) by (by rewrite lookup_insert_eq).
  pose proof (th_shape _ _ _ _ HT _ _ Hpc) as (Hp & _). destruct (part_lookup _ _ _ _ HS Hp) as (x & Hx & Hix).
  destruct (pt_part _ _ _ _ HP _ _ Hx) as (css & ims & mes & HI & HPL). destruct (the_epoch_spec _ _ _ t pc cur 0 HS Hpc eq_refl) as (n & c & Es & _ & _).
  destruct (decide (bg_status_ x = kOk)) as [Hb|Hb].
  2: { exists s, (inl (bg_status_ x)). split; [|split_and!; [done|done|apply Live_refl|intros; congruence]]. unfold prepare_fuel. cbn [Prepare]. rewrite Hix. cbn [rbind]. apply ok_false in Hb. by rewrite Hb. }
  destruct (decide (buf_threshold <= zlen (wb_buffer (buf (mem_buf_ x) x)))) as [Hf|Hf].
  2: { eexists s, (inl kOk). split; [|split_and!; [done|done|apply Live_refl|intros _; exists x; split; [done|lia]]]. unfold prepare_fuel. cbn [Prepare]. rewrite Hix. cbn [rbind]. rewrite Hb. change (ok kOk) with true. cbn [negb andb].
       unfold WriteBuffer.CurrentBufferSize. destruct (Z.ltb_spec (zlen (wb_buffer (buf (mem_buf_ x) x))) buf_threshold); [done|lia]. }
  destruct (imm_buf_ x) as [b|] eqn:Ei.
  - eexists s, (inr (pc, false)). split; [|split_and!; [done|done|apply Live_refl|done|exists x; split; [done|congruence]]]. unfold prepare_fuel. cbn [Prepare]. rewrite Hix. cbn [rbind]. rewrite Hb. change (ok kOk) with true. cbn [negb andb].
    unfold WriteBuffer.CurrentBufferSize. destruct (Z.ltb_spec (zlen (wb_buffer (buf (mem_buf_ x) x))) buf_threshold); [lia|]. by rewrite Ei.
  - assert (ims = None) as ->. { pose proof (ix_imm _ _ _ _ _ HI) as Him. rewrite Ei in Him. by destruct ims. }
    eexists _, (inl kOk). split; [by apply (Prepare_switch _ _ _ _ _ _ _ x css mes); auto|]. split_and!; [|done|by apply (Live_idxer s part x)|].
    + apply (switched_safe N s (<[t := pc]> m)); try done; [by eexists|]. intros css' mes' ep He _ _ (Ha & n' & fin & HL & HSt). rewrite Es in He. injection He as <-. cbn [seq_] in *.
      destruct (Stage_unflushed _ _ _ _ _ HSt) as [-> ->]; [intros t' q Hq; by eapply (in_op_unflushed _ _ _ t pc)|].
      split; [done|]. exists cur, false. split; [|done]. by apply Layout_compact.
    + intros _. eexists. cbn [idxers_ set_idxer]. rewrite list_lookup_insert_eq by (by eapply lookup_lt_Some). split; [done|].
      pose proof (ix_imm _ _ _ _ _ HI) as Him. rewrite Ei in Him. destruct Him as (_ & _ & _ & Hh). change (mem_buf_ (switched _ x)) with (negb (mem_buf_ x)).
      replace (buf _ _) with (buf (negb (mem_buf_ x)) x) by (by destruct (mem_buf_ x)). rewrite (ho_buffer _ _ Hh). cbn [fmap list_fmap concat]. rewrite zlen_nil. lia.
Qed.

Lemma Runs_from N t m s s2 r : fst <$> threads s2 = fst <$> threads s -> Live s s2 -> Runs N t m s2 r -> Runs N t m s r.
Proof. intros E HL (s' & th & H1 & H2 & H3 & H4 & H5). exists s', th. split_and!; [done|done|congruence|by eapply Live_trans|done]. Qed.

Lemma run_add_runs N t m s cur part k v io :
  Safe N s (<[t := AtPrepare cur part false false false (FrAdd k v)]> m) ->
  Runs N t m s (run_Prepare buf_threshold true rotation skip io cur part false false false (FrAdd k v) s).
Proof.
  intros HS. set (pc := AtPrepare cur part false false false (FrAdd k v)) in *. unfold run_Prepare.
  destruct (Prepare_add N s m t cur part k v HS) as (s1 & r & -> & HS1 & Eth & HL1 & Hr). cbn [rbind]. apply (Runs_from _ _ _ _ s1); [by rewrite Eth|done|].
  destruct r as [st|th]; [|destruct Hr as [-> Hsl]; by apply Runs_asleep]. unfold return_to.
  destruct (ok st) eqn:Eo; [|by apply (end_op_runs N t m s1 pc)]. apply ok_true in Eo. destruct (Hr Eo) as (x & Hx & Hz). unfold idxer at 1. rewrite Hx. cbn [the rbind].
  pose proof HS1 as [HT HP HN]. assert (Hpc : <[t := pc]> m !! t = Some pc) by (by rewrite lookup_insert_eq).
  pose proof (th_shape _ _ _ _ HT _ _ Hpc) as (_ & _ & _ & _ & k' & v' & [= <- <-] & Hsm). destruct (the_epoch_spec _ _ _ t pc cur 0 HS1 Hpc eq_refl) as (n & c & Es & _ & _).
  destruct (pt_part _ _ _ _ HP _ _ Hx) as (css & ims & mes & HI & _). destruct (Idx_add skip x css ims mes cur (k, v) HI Hsm ltac:(lia)) as (b & Eb & _). cbn in Eb. rewrite Eb. cbn [the rbind].
  set (x' := set_history _ _ _). assert (HS2 : Safe N (set_idxer part x' s1) (<[t := pc]> m)).
  { constructor; [done| |done]. cbn. apply (Parts_set _ _ _ (<[t := pc]> m) _ _ x); try done; [by rewrite Es|]. intros css' ims' mes' HI' HPL.
    destruct (Idx_add skip x css' ims' mes' cur (k, v) HI' Hsm ltac:(lia)) as (b' & Eb' & HI2). cbn in Eb'. assert (b' = b) as -> by congruence. exists css', ims', (mes' ++ [(k, v)]). split; [done|].
    intros _ Hc ep He. destruct (HPL Hc ep He) as (Ha & n' & fin & HL & HSt). rewrite Es in He. injection He as <-. cbn [seq_] in *.
    destruct (Stage_unflushed _ _ _ _ _ HSt) as [-> ->]; [intros t' q Hq; by eapply (in_op_unflushed _ _ _ t pc)|]. split; [apply Forall_app; split; [done|]; by repeat constructor|].
    exists cur, false. split; [|done]. by apply Layout_add. }
  apply (Runs_from _ _ _ _ (set_idxer part x' s1)); [done|by apply (Live_idxer s1 part x)|]. by apply (end_op_runs N t m _ pc).
Qed.

(** ** TryFlush *)

Lemma flushed_nil who cur p : pc_flushed (AtFlush who cur []) p = match who with FlFlush => None | FlEpoch => Some false | FlFinish => Some true end.
Proof. by destruct who. Qed.

Lemma AtFlush_facts who cur rem : epoch_of (AtFlush who cur rem) = Some cur /\ draining (AtFlush who cur rem) = false
  /\ (who = FlFlush -> in_op (AtFlush who cur rem) = true) /\ (who <> FlFlush -> committer (AtFlush who cur rem) = true).
Proof. by destruct who. Qed.

(** All partitions are flushed, or one of them has failed. *)
Lemma flush_end_runs N t m s who cur rem st io :
  Safe N s (<[t := AtFlush who cur rem]> m) -> N + 1 < 2 ^ 32 -> (st = kOk /\ rem = []) \/ (st <> kOk /\ ~ Clean (idxers_ s)) ->
  Runs N t m s (flush_end rotation io who cur st s).
Proof.
  intros HS HN Hst. assert (Hfl : Clean (idxers_ s) -> rem = []) by (destruct Hst as [[_ ?]|[_ ?]]; [done|by intros ?]). destruct who; cbn [flush_end].
  - by apply (end_op_runs N t m s (AtFlush FlFlush cur rem)).
  - destruct (ok st) eqn:Eo; cbn [andb].
    + apply ok_true in Eo. destruct Hst as [[_ ->]|[? _]]; [|done]. destruct rotation.
      * apply WaitForCompaction_runs; [|done]. by apply (Safe_pc N s m t (AtFlush FlEpoch cur [])).
      * by apply (next_epoch_runs N t m s (AtFlush FlEpoch cur []) cur).
    + apply (next_epoch_runs N t m s (AtFlush FlEpoch cur rem) cur); try done. intros Hc p _. by rewrite (Hfl Hc).
  - destruct (ok st) eqn:Eo.
    + apply ok_true in Eo. destruct Hst as [[_ ->]|[? _]]; [|done]. apply WaitForCompaction_runs; [|done]. by apply (Safe_pc N s m t (AtFlush FlFinish cur [])).
    + apply ok_false in Eo. by apply (finish_end_runs N t m s (AtFlush FlFinish cur rem) cur).
Qed.

Lemma flushed_perm who cur r r' p : r ≡ₚ r' -> pc_flushed (AtFlush who cur r) p = pc_flushed (AtFlush who cur r') p.
Proof. intros E. cbn. assert (Hb : bool_decide (p ∈ r) = bool_decide (p ∈ r')) by (apply bool_decide_ext; by rewrite E). by rewrite Hb. Qed.

Lemma Safe_perm N s m t who cur r r' : r ≡ₚ r' -> Safe N s (<[t := AtFlush who cur r]> m) -> Safe N s (<[t := AtFlush who cur r']> m).
Proof.
  intros E HS. pose proof (th_shape _ _ _ _ (sf_threads _ _ _ HS) t _ ltac:(by rewrite lookup_insert_eq)) as [Hn Hf]. apply (Safe_pc N s m t (AtFlush who cur r)); try done.
  - cbn. by rewrite <- E.
  - intros p. by apply flushed_perm.
Qed.

(** One partition is flushed. *)
Lemma flush_one N s m t who cur p rem x n1 n2 :
  Safe N s (<[t := AtFlush who cur (p :: rem)]> m) -> idxers_ s !! p = Some x -> bg_status_ x = kOk -> imm_buf_ x = None ->
  Safe N (set_idxer p (switched (mkCompaction cur true (epoch_flush who) (finalize who)) (set_flushes n1 n2 x)) s) (<[t := AtFlush who cur rem]> m).
Proof.
  intros HS Hx Hb Hi. set (pc := AtFlush who cur (p :: rem)) in *. set (pc' := AtFlush who cur rem). pose proof HS as [HT HP HN].
  assert (Hpc : <[t := pc]> m !! t = Some pc) by (by rewrite lookup_insert_eq). pose proof (th_shape _ _ _ _ HT _ _ Hpc) as [[Hni Hnd]%NoDup_cons [Hp Hfa]%Forall_cons].
  destruct (AtFlush_facts who cur (p :: rem)) as (He & Hd & Hio & Hco). destruct (the_epoch_spec _ _ _ t pc cur 0 HS Hpc He) as (n & c & Es & _ & _).
  assert (Hq : forall q, q <> p -> pc_flushed pc q = pc_flushed pc' q).
  { intros q Hne. unfold pc, pc', pc_flushed. assert (E : bool_decide (q ∈ p :: rem) = bool_decide (q ∈ rem)); [|by rewrite E]. apply bool_decide_ext. rewrite elem_of_cons. split; [by intros [?|?]|by right]. }
  assert (HT' : Threads num_parts (epoch_ s) (finished_ s) (<[t := pc']> m)).
  { pose proof (th_epoch _ _ _ _ HT) as Hep. assert (Ecnt : count (<[t := pc']> m) = count (<[t := pc]> m)) by (rewrite (in_ops_insert m t pc pc'); destruct who; cbn; lia).
    apply (Threads_move _ _ _ _ _ _ _ _ _ HT); try done.
    - intros cur' Hc'. assert (cur' = cur) as -> by (destruct who; cbn in Hc'; congruence). by eexists _, _.
    - intros t' q cur' Hne Hq'. by apply (others_cur _ _ _ _ _ _ _ _ HT Hne Hq').
    - intros Hp'. left. by destruct who.
    - intros Hp' _. rewrite Ecnt. apply (th_drained _ _ _ _ HT t pc Hpc); by destruct who.
    - rewrite Es in *. destruct Hep as (? & ? & _). split_and!; [done|by rewrite Ecnt|]. rewrite (committing_others _ _ _ _ _ _ _ HT). by destruct who. }
  apply (switched_safe N (set_idxer p (set_flushes n1 n2 x) s) (<[t := pc]> m)) with (p := p) (x := set_flushes n1 n2 x) (m' := <[t := pc']> m) (c := mkCompaction cur true (epoch_flush who) (finalize who)) in HT' as HR; try done.
  - eapply (Safe_same _ _ (set_idxer p _ s)) in HR; [exact HR|cbn; by rewrite list_insert_insert_eq|done|done|done].
  - constructor; [done| |done]. cbn. apply (Parts_set _ _ _ (<[t := pc]> m) _ _ x); try done; [by rewrite Es|]. intros css ims mes HI HPL. exists css, ims, mes. split; [|done]. by destruct HI; constructor.
  - cbn. by rewrite list_lookup_insert_eq by (by eapply lookup_lt_Some).
  - by eexists.
  - intros q ep n' fin Hne. apply Stage_move. by apply Hq.
  - intros css mes ep Hep HI Hcl (Ha & n' & fin & HL & HSt). cbn [epoch_ set_idxer] in Hep. rewrite Es in Hep. injection Hep as <-. cbn [seq_] in *.
    assert (Hun : n' = cur /\ fin = false).
    { apply (Stage_unflushed _ _ _ _ _ HSt). intros t' q Hq'. destruct (decide (who = FlFlush)) as [Hw|Hw]; [exact (in_op_unflushed _ _ _ t pc t' q p HT Hpc (Hio Hw) Hq')|].
      destruct (pc_flushed q p) as [f|] eqn:E; [|done]. destruct (flushed_committer _ _ _ E) as [Hcq _]. pose proof (th_one _ _ _ _ HT _ _ _ _ Hpc Hq' (Hco Hw) Hcq) as <-.
      assert (q = pc) as -> by congruence. unfold pc, pc_flushed in E. rewrite bool_decide_eq_true_2 in E by (by left). by destruct who. }
    destruct Hun as [-> ->]. split; [done|]. destruct who; cbn [epoch_flush finalize].
    + exists cur, false. split; [by apply (Layout_compact css mes)|]. eapply (Stage_move _ _ pc); [done|exact HSt].
    + exists (cur + 1), false. split; [by apply (Layout_epoch css mes)|]. right. split; [done|]. exists t, pc'. rewrite lookup_insert_eq. split; [done|]. cbn. by rewrite bool_decide_eq_false_2.
    + exists (cur + 1), true. split; [by apply (Layout_epoch css mes)|]. right. split; [done|]. exists t, pc'. rewrite lookup_insert_eq. split; [done|]. cbn. by rewrite bool_decide_eq_false_2.
Qed.

Lemma flush_scan_runs N t m io who cur todo waiting s :
  Safe N s (<[t := AtFlush who cur (todo ++ waiting)]> m) -> N + 1 < 2 ^ 32 -> Forall (fun p => exists x, idxers_ s !! p = Some x /\ imm_buf_ x <> None) waiting ->
  Runs N t m s (flush_scan buf_threshold true rotation skip io who cur todo waiting s).
Proof.
  intros HS HN. revert s waiting HS. induction todo as [|p todo IH]; intros s waiting HS Hw; cbn [flush_scan].
  { destruct waiting as [|q waiting]; [apply (flush_end_runs N t m s who cur []); [done|done|by left]|apply Runs_asleep; [done|]].
    apply Forall_cons in Hw as [(x & Hx & Hi) _]. exists q, x. split_and!; [by left|done|done]. }
  pose proof (th_shape _ _ _ _ (sf_threads _ _ _ HS) t _ ltac:(by rewrite lookup_insert_eq)) as [_ Hfa]. apply Forall_cons in Hfa as [Hp _].
  destruct (part_lookup _ _ _ _ HS Hp) as (x & Hx & ->). cbn [rbind]. destruct (imm_buf_ x) eqn:Ei.
  { apply IH; [eapply Safe_perm; [|exact HS]; cbn; rewrite app_assoc; apply Permutation_cons_append|]. apply Forall_app. split; [done|]. constructor; [|done]. exists x. split; [done|congruence]. }
  destruct (ok (bg_status_ x)) eqn:Eb; cbn [negb].
  2: { apply ok_false in Eb. apply (flush_end_runs N t m s who cur (p :: todo ++ waiting)); [done|done|]. right. split; [done|]. intros Hc. by apply Eb, (Forall_lookup_1 _ _ p x Hc). }
  apply ok_true in Eb. set (x1 := set_flushes _ _ x). destruct (pt_part _ _ _ _ (sf_parts _ _ _ HS) _ _ Hx) as (css & ims & mes & HI & _).
  assert (ims = None) as ->. { pose proof (ix_imm _ _ _ _ _ HI) as Him. rewrite Ei in Him. by destruct ims. }
  assert (HI1 : Idx skip x1 css None mes) by (by destruct HI; constructor).
  rewrite (Prepare_switch _ _ _ _ _ _ _ x1 css mes); [|cbn; by rewrite list_lookup_insert_eq by (by eapply lookup_lt_Some)|done|done|by left]. cbn [rbind].
  apply (Runs_from _ _ _ _ (set_idxer p (switched (mkCompaction cur true (epoch_flush who) (finalize who)) x1) (set_idxer p x1 s))); [done| |].
  { eapply Live_trans; [by apply (Live_idxer s p x x1)|]. eapply (Live_idxer _ _ x1); [cbn; by rewrite list_lookup_insert_eq by (by eapply lookup_lt_Some)|done..]. }
  apply IH; [|eapply Forall_impl; [exact Hw|]; intros q (y & Hy & Hyi); cbn; rewrite list_insert_insert_eq].
  2: { destruct (decide (p = q)) as [<-|Hne]; [eexists; rewrite list_lookup_insert_eq by (by eapply lookup_lt_Some); done|exists y; by rewrite list_lookup_insert_ne]. }
  apply (Safe_same N (set_idxer p (switched (mkCompaction cur true (epoch_flush who) (finalize who)) x1) s)); try done; [by apply flush_one|]. cbn. by rewrite list_insert_insert_eq.
Qed.

(** An operation that starts a flush is at its beginning. *)
Lemma TryFlush_runs N t m io who cur s :
  Safe N s (<[t := AtFlush who cur (List.seq 0 num_parts)]> m) -> N + 1 < 2 ^ 32 -> Runs N t m s (TryFlush buf_threshold true rotation skip io who cur s).
Proof.
  intros HS HN. set (pc := AtFlush who cur (List.seq 0 num_parts)) in *. assert (Hpc : <[t := pc]> m !! t = Some pc) by (by rewrite lookup_insert_eq).
  destruct (AtFlush_facts who cur (List.seq 0 num_parts)) as (He & Hd & Hio & Hco). destruct (the_epoch_spec _ _ _ t pc cur 276 HS Hpc He) as (n & c & Es & Et & _).
  unfold TryFlush. rewrite Et. cbn [rbind committing_ num_ongoing_ops_]. pose proof (th_epoch _ _ _ _ (sf_threads _ _ _ HS)) as Hep. rewrite Es in Hep. destruct Hep as (_ & Hn & Hc). cbn in Hn, Hc.
  assert (Ha : (if epoch_flush who then c && (n =? 0) else negb (n =? 0)) = true).
  { destruct who; cbn [epoch_flush].
    - pose proof (in_ops_pos _ t pc Hpc (Hio eq_refl)). destruct (Z.eqb_spec n 0); [lia|done].
    - rewrite Hn, (th_drained _ _ _ _ (sf_threads _ _ _ HS) t pc Hpc eq_refl eq_refl). assert (c = true) as -> by (apply Hc; by exists t, pc). done.
    - rewrite Hn, (th_drained _ _ _ _ (sf_threads _ _ _ HS) t pc Hpc eq_refl eq_refl). assert (c = true) as -> by (apply Hc; by exists t, pc). done. }
  rewrite Ha. cbn [assert_ rbind]. apply flush_scan_runs; [|done|done]. rewrite app_nil_r, (pt_len _ _ _ _ (sf_parts _ _ _ HS)). done.
Qed.

Lemma seq_shape who cur : shape num_parts (AtFlush who cur (List.seq 0 num_parts)).
Proof. split; [apply NoDup_seq|]. apply Forall_forall. intros p Hp%elem_of_seq. lia. Qed.

Lemma flushed_all who cur p : (p < num_parts)%nat -> pc_flushed (AtFlush who cur (List.seq 0 num_parts)) p = None.
Proof. intros Hp. cbn. rewrite bool_decide_eq_true_2 by (apply elem_of_seq; lia). by destruct who. Qed.

(** Partitions beyond the last do not matter. *)
Lemma Parts_pc xs e e' fs m t pc pc' :
  Parts xs e fs (<[t := pc]> m) -> (forall p, (p < num_parts)%nat -> pc_flushed pc p = pc_flushed pc' p) -> seq_ <$> e = seq_ <$> e' -> Parts xs e' fs (<[t := pc']> m).
Proof.
  intros [H1 H2 H3] Hf He. constructor; [done| |].
  - intros p x Hx. destruct (H2 p x Hx) as (css & ims & mes & Hi & Hl). exists css, ims, mes. split; [done|]. intros Hc ep' ->. destruct e as [ep|]; [|done].
    cbn in He. injection He as <-. destruct (Hl Hc ep eq_refl) as (Ha & n & fin & HL & HS). split; [done|]. exists n, fin. split; [done|].
    eapply (Stage_move _ _ pc); [apply Hf; rewrite <- H1; by eapply lookup_lt_Some|done].
  - intros ->. destruct e; [done|]. by apply H3.
Qed.

Lemma drain_runs N t m io who cur s :
  Safe N s (<[t := AtDrain who cur]> m) -> N + 1 < 2 ^ 32 -> Runs N t m s (drain buf_threshold true rotation skip io who cur s).
Proof.
  intros HS HN. set (pc := AtDrain who cur) in *. assert (Hpc : <[t := pc]> m !! t = Some pc) by (by rewrite lookup_insert_eq).
  destruct (the_epoch_spec _ _ _ t pc cur 333 HS Hpc eq_refl) as (n & c & Es & Et & _). unfold drain. rewrite Et. cbn [rbind num_ongoing_ops_].
  destruct (Z.eqb_spec n 0) as [E0|E0]; cbn [negb].
  2: { apply Runs_asleep; [done|]. eexists. split; [exact Es|]. split; [|done]. pose proof (th_epoch _ _ _ _ (sf_threads _ _ _ HS)) as Hep. rewrite Es in Hep. destruct Hep as (_ & _ & Hc). apply Hc. by exists t, pc. }
  apply TryFlush_runs; [|done]. pose proof HS as [HT HP HNs]. pose proof (th_shape _ _ _ _ HT _ _ Hpc) as Hw.
  pose proof (th_epoch _ _ _ _ HT) as Hep. rewrite Es in Hep. destruct Hep as (Hfi & Hn & Hc). cbn in Hn, Hc.
  assert (Ecnt : count (<[t := AtFlush who cur (List.seq 0 num_parts)]> m) = 0) by (rewrite (in_ops_insert m t pc); destruct who; cbn in *; [done|lia|lia]).
  constructor; [|eapply Parts_pc; [exact HP| |done]|done].
  - apply (Threads_move _ _ _ _ _ _ _ _ _ HT); try done.
    + apply seq_shape.
    + intros cur' Hc'. assert (cur' = cur) as -> by (destruct who; cbn in Hc'; congruence). by eexists _, _.
    + intros t' q cur' Hne Hq'. by apply (others_cur _ _ _ _ _ _ _ _ HT Hne Hq').
    + intros _. by left.
    + intros. by destruct who.
    + rewrite Es in *. split_and!; [done|cbn; lia|]. rewrite (committing_others _ _ _ _ _ _ _ HT). by destruct who.
  - intros p Hp. by rewrite flushed_all.
Qed.

Lemma enter_runs N t m op epoch body s :
  Safe N s (<[t := AtLoop op]> m) ->
  (forall e, epoch_ s = Some e -> finished_ s = false -> committing_ e = false -> Runs N t m s (body e s)) -> Runs N t m s (enter op epoch body s).
Proof.
  intros HS Hb. assert (Hr : forall st, Runs N t m s (return_ st s)) by (intros st; by apply (Runs_return N t m s (AtLoop op))). unfold enter. destruct (finished_ s) eqn:Ef; [apply Hr|].
  pose proof (th_epoch _ _ _ _ (sf_threads _ _ _ HS)) as Hep. destruct (epoch_ s) as [e|] eqn:Es; [|by destruct Hep as [? _]; congruence]. cbn [the rbind].
  destruct ((epoch =? -1) && committing_ e) eqn:Ew; [apply Runs_asleep; [done|]; apply andb_true_iff in Ew as [_ ?]; by exists e|]. destruct (negb (epoch =? -1) && negb (epoch =? s32 (seq_ e))); [apply Hr|]. destruct (committing_ e) eqn:Ec; [apply Hr|]. by apply Hb.
Qed.

(** The beginning of an operation of the current epoch. *)
Lemma begin_op_safe N t m s op e pc' :
  Safe N s (<[t := AtLoop op]> m) -> epoch_ s = Some e -> committing_ e = false -> shape num_parts pc' -> in_op pc' = true -> epoch_of pc' = Some (seq_ e) ->
  Safe N (begin_op e s) (<[t := pc']> m).
Proof.
  intros [HT HP HN] Es Ec Hsh Hi He. destruct (in_op_facts _ Hi) as (Hc & Hf & _). destruct e as [cur n c]. cbn in Ec. subst c. pose proof (th_epoch _ _ _ _ HT) as Hep. rewrite Es in Hep. destruct Hep as (Hfi & Hn & _). cbn in Hn.
  pose proof (in_ops_nonneg (<[t := AtLoop op]> m)).
  assert (Hids : forall t', is_Some (<[t := pc']> m !! t') -> Z.of_nat t' < 2 ^ 32 - 1).
  { intros t' Ht'. apply (th_ids _ _ _ _ HT). destruct (decide (t = t')) as [<-|Hne]; [by rewrite lookup_insert_eq|by rewrite lookup_insert_ne in Ht' |- *]. }
  pose proof (count_bound _ Hids) as Hb. assert (Ecnt : count (<[t := pc']> m) = n + 1) by (rewrite (in_ops_insert m t (AtLoop op)), Hi; cbn; lia).
  unfold begin_op. cbn [seq_ num_ongoing_ops_ committing_]. rewrite u32_small by (unfold in_width; lia). constructor; cbn [epoch_ finished_ idxers_ finish_status_ set_epoch].
  - rewrite Es in HT. apply (Threads_move _ _ _ _ _ _ _ _ _ HT); try done.
    + intros cur' Hc'. rewrite He in Hc'. injection Hc' as <-. by eexists _, _.
    + intros t' q cur' Hne Hq Hq'. destruct (others_cur _ _ _ _ _ _ _ _ HT Hne Hq Hq') as (n' & c' & E). injection E as <- <- <-. by eexists _, _.
    + congruence.
    + congruence.
    + intros t' q Hne Hq Hcq _ _. assert (false = true); [|done]. rewrite (committing_others _ _ _ _ _ _ _ HT). right. by exists t', q.
    + split_and!; [done|cbn; lia|]. rewrite (committing_others _ _ _ _ _ _ _ HT), Hc. done.
  - eapply (Parts_move _ (epoch_ s) _ _ _ _ (AtLoop op)); [done| |by rewrite Es]. intros p. by rewrite Hf.
  - intros e' [= <-]. specialize (HN _ Es). done.
Qed.

Lemma begin_op_live s e : epoch_ s = Some e -> committing_ e = false -> Live s (begin_op e s).
Proof.
  intros Es Ec. apply Live_same; [done|]. intros q Hq. destruct q; try done; cbn in *; destruct Hq as (e' & Ee & Hce); rewrite Es in Ee; injection Ee as <-; [congruence|destruct Hce; congruence].
Qed.

Lemma commit_runs N t m io who e op s :
  Safe N s (<[t := AtLoop op]> m) -> epoch_ s = Some e -> committing_ e = false -> who <> FlFlush -> N + 1 < 2 ^ 32 ->
  Runs N t m s (commit buf_threshold true rotation skip io who e s).
Proof.
  intros [HT HP HN] Es Ec Hw HN1. destruct e as [cur n c]. cbn in Ec. subst c. unfold commit. cbn [seq_ num_ongoing_ops_].
  apply (Runs_from _ _ _ _ (set_epoch (Some (mkEpoch cur n true)) s)); [done| |].
  { apply Live_same; [done|]. intros q Hq. destruct q; try done; cbn in *; destruct Hq as (e & Ee & Hce); rewrite Es in Ee; injection Ee as <-; cbn in Hce; [done|by destruct Hce]. }
  apply drain_runs; [|done]. pose proof (th_epoch _ _ _ _ HT) as Hep. rewrite Es in Hep. destruct Hep as (Hfi & Hn & _). cbn in Hn.
  assert (Hno : forall t' q, t <> t' -> m !! t' = Some q -> committer q = false).
  { intros t' q Hne Hq. destruct (committer q) eqn:E; [|done]. rewrite Es in HT. assert (false = true); [|done]. rewrite (committing_others _ _ _ _ _ _ _ HT). right. by exists t', q. }
  constructor; cbn [epoch_ finished_ idxers_ finish_status_ set_epoch].
  - rewrite Es in HT. apply (Threads_move _ _ _ _ _ _ _ _ _ HT); try done.
    + intros cur' [= <-]. by eexists _, _.
    + intros t' q cur' Hne Hq Hq'. destruct (others_cur _ _ _ _ _ _ _ _ HT Hne Hq Hq') as (n' & c' & E). injection E as <- <- <-. by eexists _, _.
    + intros _. by right.
    + split_and!; [done|rewrite (in_ops_insert m t (AtLoop op)); cbn; lia|]. cbn. tauto.
  - eapply (Parts_move _ (epoch_ s) _ _ _ _ (AtLoop op)); [done|done|by rewrite Es].
  - intros e' [= <-]. specialize (HN _ Es). done.
Qed.

Lemma part_of_lt fid : (part_of num_parts fid < num_parts)%nat.
Proof.
  unfold part_of. assert (0 <= Z.land (Hash fid 0) (Z.of_nat num_parts - 1) <= Z.of_nat num_parts - 1); [|lia]. rewrite Z.land_comm.
  split; [apply Z.land_nonneg; lia|]. apply land_le_l. lia.
Qed.

Lemma run_op_runs N t m io op s :
  Safe N s (<[t := AtLoop op]> m) -> N + 1 < 2 ^ 32 -> Runs N t m s (run_op num_parts buf_threshold true rotation skip io op s).
Proof.
  intros HS HN. pose proof (th_shape _ _ _ _ (sf_threads _ _ _ HS) t _ ltac:(by rewrite lookup_insert_eq)) as Hop.
  assert (Hr : forall st, Runs N t m s (return_ st s)) by (intros st; by apply (Runs_return N t m s (AtLoop op))). destruct op as [fid data epoch|epoch|epoch| | |]; cbn [run_op].
  - apply enter_runs; [done|]. intros e Es _ Ec. apply (Runs_from _ _ _ _ (begin_op e s)); [done|by apply begin_op_live|]. set (pc := AtPrepare (seq_ e) (part_of num_parts fid) false false false (FrAdd fid data)).
    assert (HS' : Safe N (begin_op e s) (<[t := pc]> m)).
    { apply (begin_op_safe N t m s _ e pc HS); try done. split_and!; [apply part_of_lt|done|done|done|]. by exists fid, data. }
    unfold TryAdd. destruct (the_epoch_spec _ _ _ t pc (seq_ e) 258 HS' ltac:(by rewrite lookup_insert_eq) eq_refl) as (n & c & Eb & -> & _). cbn [rbind num_ongoing_ops_].
    pose proof (th_epoch _ _ _ _ (sf_threads _ _ _ HS')) as Hep. rewrite Eb in Hep. destruct Hep as (_ & Hn & _). cbn in Hn. pose proof (in_ops_pos (<[t := pc]> m) t pc ltac:(by rewrite lookup_insert_eq) eq_refl).
    destruct (Z.eqb_spec n 0); [lia|]. cbn [negb assert_ rbind]. by apply run_add_runs.
  - apply enter_runs; [done|]. intros e Es _ Ec. apply (Runs_from _ _ _ _ (begin_op e s)); [done|by apply begin_op_live|]. apply TryFlush_runs; [|done].
    apply (begin_op_safe N t m s _ e _ HS); try done. apply seq_shape.
  - apply enter_runs; [done|]. intros e Es _ Ec. by apply (commit_runs N t m io FlEpoch e (OEpochFlush epoch)).
  - unfold Finish. destruct (finished_ s) eqn:Ef; [apply Hr|]. pose proof (th_epoch _ _ _ _ (sf_threads _ _ _ HS)) as Hep.
    destruct (epoch_ s) as [e|] eqn:Es; [|by destruct Hep as [? _]; congruence]. cbn [the rbind]. destruct (committing_ e) eqn:Ec; [apply Runs_asleep; [done|by exists e]|]. by apply (commit_runs N t m io FlFinish e OFinish).
  - unfold Wait. destruct (finished_ s); [apply Hr|]. apply WaitForCompaction_runs; [|done]. by apply (Safe_pc N s m t (AtLoop OWait)).
  - unfold Sync. destruct (finished_ s); [apply Hr|]. apply WaitForCompaction_runs; [|done]. by apply (Safe_pc N s m t (AtLoop OSync)).
Qed.

Lemma resume_runs N t m io pc s r :
  Safe N s (<[t := pc]> m) -> N + 1 < 2 ^ 32 -> resume num_parts buf_threshold true rotation skip io pc s = Some r -> Runs N t m s r.
Proof.
  intros HS HN. pose proof (th_shape _ _ _ _ (sf_threads _ _ _ HS) t _ ltac:(by rewrite lookup_insert_eq)) as Hsh. destruct pc as [| |op|who cur|cur part force ef fi fr|who cur rem|w cur|cur|]; cbn in Hsh; try done; intros [= <-].
  - by apply run_op_runs.
  - by apply drain_runs.
  - destruct Hsh as (_ & -> & -> & -> & k & v & -> & _). by apply run_add_runs.
  - apply flush_scan_runs; [by rewrite app_nil_r|done|done].
  - by apply WaitForCompaction_runs.
  - by apply (next_epoch_runs N t m s (Rotating cur) cur).
Qed.

(** ** Steps *)

(** Operations with small entries, of threads that can be counted. *)
Definition label_ok (l : Label) : Prop := match l with LCall t op => Z.of_nat t < 2 ^ 32 - 1 /\ op_ok op | _ => True end.

Definition pcs (s : Writer) : gmap nat Pc := fst <$> threads s.

Lemma Call_safe N s t op : Safe N s (pcs s) -> label_ok (LCall t op) ->
  match threads s !! t with None | Some (Idle, _) | Some (Returned _, _) => True | _ => False end -> Safe N s (<[t := AtLoop op]> (pcs s)).
Proof.
  intros [HT HP HN] [Hid Hop] Hth. assert (Hold : forall q, pcs s !! t = Some q -> in_op q = false /\ committer q = false /\ forall p, pc_flushed q p = None).
  { intros q Hq. unfold pcs in Hq. rewrite lookup_fmap in Hq. revert Hq Hth. destruct (threads s !! t) as [[pc b]|]; [|done]. intros [= <-]. by destruct pc. }
  assert (Hcase : forall t' q, <[t := AtLoop op]> (pcs s) !! t' = Some q -> q = AtLoop op \/ t <> t' /\ pcs s !! t' = Some q) by (intros t' q [[<- <-]|[? ?]]%insert_cases; auto).
  assert (Ecnt : count (<[t := AtLoop op]> (pcs s)) = count (pcs s)).
  { destruct (pcs s !! t) as [q|] eqn:Eq.
    - destruct (Hold q eq_refl) as [Hi _]. rewrite (in_ops_insert _ t q), Hi. rewrite insert_id by done. cbn. lia.
    - unfold count. rewrite map_filter_insert_False by done. by rewrite delete_id. }
  constructor; [|destruct HP as [P1 P2 P3]; constructor; try done|done].
  - destruct HT as [T1 T2 T3 T4 T5 T6]. constructor.
    + intros t' q [->|[_ Hq]]%Hcase; [done|by eapply T1].
    + intros t' q cur [->|[_ Hq]]%Hcase; [done|by eapply T2].
    + intros t1 t2 q1 q2 [->|[_ Hq1]]%Hcase [->|[_ Hq2]]%Hcase; try done. by eapply T3.
    + intros t' q [->|[_ Hq]]%Hcase; [done|]. rewrite Ecnt. by eapply T4.
    + intros t' Ht'. destruct (decide (t = t')) as [<-|Hne]; [done|]. rewrite lookup_insert_ne in Ht' by done. by apply T5.
    + destruct (epoch_ s) as [e|].
      * destruct T6 as (? & ? & Hiff). rewrite Ecnt. split_and!; try done. rewrite Hiff. split; intros (t' & q & Hq & Hc).
        -- exists t', q. split; [|done]. rewrite lookup_insert_ne; [done|]. intros <-. destruct (Hold q Hq) as (_ & ? & _). congruence.
        -- apply Hcase in Hq as [->|[_ Hq]]; [done|by exists t', q].
      * destruct T6 as [? Hn]. split; [done|]. intros t' q [->|[_ Hq]]%Hcase; [done|by eapply Hn].
  - intros p x Hx. destruct (P2 p x Hx) as (css & ims & mes & HI & HL). exists css, ims, mes. split; [done|]. intros Hc ep He. destruct (HL Hc ep He) as (Ha & n & fin & HLa & HSt). split; [done|]. exists n, fin. split; [done|].
    destruct HSt as [(-> & -> & Hn)|(-> & t' & q & Hq & Hf)].
    + left. split_and!; try done. intros t' q [->|[_ Hq]]%Hcase; [done|by eapply Hn].
    + right. split; [done|]. exists t', q. split; [|done]. rewrite lookup_insert_ne; [done|]. intros <-. destruct (Hold q Hq) as (_ & _ & ?). congruence.
Qed.

(** The threads of the pool. *)
Lemma bg_safe N s p x x' m :
  Safe N s m -> idxers_ s !! p = Some x -> bg_ x <> NoBg -> (bg_status_ x' = kOk -> bg_status_ x = kOk) ->
  (forall css ims mes, Idx skip x css ims mes -> added x' = added x /\ exists css' ims', Idx skip x' css' ims' mes /\ css' ++ option_list ims' = css ++ option_list ims) ->
  Safe N (set_idxer p x' s) m.
Proof.
  intros [HT HP HN] Hx Hbg Hb Hi. constructor; [done| |done]. cbn. apply (Parts_set _ _ _ m _ _ x); try done.
  - intros He Hf. destruct (pt_done _ _ _ _ HP He Hf) as (_ & last & Hall). destruct (Hall p x Hx) as (css & HI & _). pose proof (ix_imm _ _ _ _ _ HI) as Him.
    destruct (imm_buf_ x); [done|]. by destruct Him as (_ & ? & _).
  - intros css ims mes HI HPL. destruct (Hi css ims mes HI) as (Ea & css' & ims' & HI' & El). exists css', ims', mes. split; [done|]. intros _ Hc ep He. unfold PL. rewrite El, Ea. by apply HPL.
Qed.

Lemma step_safe N l s r :
  Safe N s (pcs s) -> N + 1 < 2 ^ 32 -> label_ok l -> step num_parts buf_threshold true rotation skip l s = Some r -> exists s', r = Ret s' /\ Safe (N + 1) s' (pcs s').
Proof.
  intros HS HN Hl. destruct l as [t op|t io|p|p st]; cbn [step].
  - intros Hr. assert (Hth : match threads s !! t with None | Some (Idle, _) | Some (Returned _, _) => True | _ => False end /\ r = Ret (set_threads (<[t := (AtLoop op, true)]> (threads s)) s)).
    { destruct (threads s !! t) as [[[] ?]|]; try done; injection Hr as <-; by split. }
    destruct Hth as [Hth ->]. eexists. split; [reflexivity|]. unfold pcs. cbn [threads set_threads]. rewrite fmap_insert. eapply Safe_mono; [eapply Safe_same; [by apply (Call_safe N s t op)|done..]|lia].
  - destruct (threads s !! t) as [[pc []]|] eqn:Et; try done. destruct (resume _ _ _ _ _ io pc s) as [r'|] eqn:Er; [|done]. intros [= <-].
    assert (Em : pcs s = <[t := pc]> (pcs s)) by (symmetry; apply insert_id; unfold pcs; by rewrite lookup_fmap, Et). rewrite Em in HS.
    destruct (resume_runs N t (pcs s) io pc s r' HS HN Er) as (s' & th & -> & HS' & Eth & _). cbn. eexists. split; [reflexivity|]. unfold pcs at 1. cbn [threads set_threads]. rewrite fmap_insert, Eth. eapply Safe_same; [exact HS'|done..].
  - destruct (idxers_ s !! p) as [x|] eqn:Hx; [|done]. cbn. destruct (bg_ x) eqn:Eb; try done. intros [= <-]. destruct (pt_part _ _ _ _ (sf_parts _ _ _ HS) _ _ Hx) as (css & ims & mes & HI & _).
    destruct (Idx_start skip x css ims mes HI Eb) as (x' & Ex & _ & Ebs & Ea & _). rewrite Ex. cbn. eexists. split; [reflexivity|]. unfold pcs. cbn [threads set_idxer].
    apply (Safe_mono N); [|lia]. apply (bg_safe N s p x x'); [done|done|congruence|congruence|]. intros css' ims' mes' HI'. destruct (Idx_start skip x css' ims' mes' HI' Eb) as (x2 & E2 & HI2 & _).
    split; [done|]. exists css', ims'. split; [|done]. by assert (x2 = x') as <- by congruence.
  - destruct (idxers_ s !! p) as [x|] eqn:Hx; [|done]. cbn. destruct (bg_ x) eqn:Eb; try done. intros [= <-]. destruct (pt_part _ _ _ _ (sf_parts _ _ _ HS) _ _ Hx) as (css & ims & mes & HI & _).
    destruct (Idx_end skip x css ims mes st HI Eb) as (x' & c & ies & Ex & _ & _ & Ebs & Ea & Eok & _). rewrite Ex. cbn. eexists. split; [reflexivity|].
    unfold pcs at 1. rewrite (SignalAll_pcs CvBg (set_idxer p x' s)). apply Safe_signal, (Safe_mono N); [|lia].
    apply (bg_safe N s p x x'); [done|done|congruence|done|]. intros css' ims' mes' HI'. destruct (Idx_end skip x css' ims' mes' st HI' Eb) as (x2 & c2 & ies2 & E2 & -> & HI2 & _).
    split; [done|]. exists (css' ++ [(c2, ies2)]), None. split; [by assert (x2 = x') as <- by congruence|]. cbn. by rewrite app_nil_r.
Qed.

Lemma Rep_safe : Safe 0 (Rep num_parts) (pcs (Rep num_parts)).
Proof.
  unfold pcs, Rep. cbn [threads]. rewrite fmap_empty. constructor; cbn [epoch_ finished_ idxers_ finish_status_].
  - constructor; try (intros *; by rewrite lookup_empty). split_and!; [done|done|]. cbn. split; [done|]. intros (t & pc & Hm & _). by rewrite lookup_empty in Hm.
  - constructor; [by rewrite length_replicate| |done]. intros p x [-> _]%lookup_replicate. exists [], None, []. split; [apply Idx_new|]. intros _ ep [= <-]. cbn. split; [constructor|].
    exists 0, false. split; [apply Layout_nil|]. left. split_and!; [done|done|]. intros t pc. by rewrite lookup_empty.
  - intros e [= <-]. cbn. lia.
Qed.

(** States reached in [n] steps. *)
Inductive Reach : Z -> Writer -> Prop :=
  | Reach_init : Reach 0 (Rep num_parts)
  | Reach_step n l s s' : Reach n s -> label_ok l -> step num_parts buf_threshold true rotation skip l s = Some (Ret s') -> Reach (n + 1) s'.

Lemma Reach_safe n s : Reach n s -> n < 2 ^ 32 -> 0 <= n /\ Safe n s (pcs s).
Proof.
  induction 1 as [|n l s s' _ IH Hl E]; intros Hn; [split; [done|apply Rep_safe]|]. destruct (IH ltac:(lia)) as [Hn0 HS].
  destruct (step_safe n l s _ HS Hn Hl E) as (s2 & [= <-] & HS'). split; [lia|done].
Qed.

Definition Sleepers (s : Writer) : Prop := forall t pc, threads s !! t = Some (pc, false) -> sleep_ok s pc.

Lemma sleep_ok_threads ts s pc : sleep_ok (set_threads ts s) pc <-> sleep_ok s pc.
Proof. by destruct pc. Qed.

Lemma Live_Sleepers s s' : Live s s' -> Sleepers s -> Sleepers s'.
Proof. intros HL Hs t pc Ht. destruct (HL t pc Ht) as [Ht0 Hok]. apply Hok. by apply (Hs t). Qed.

Lemma step_sleepers N l s s' :
  Safe N s (pcs s) -> N + 1 < 2 ^ 32 -> Sleepers s -> step num_parts buf_threshold true rotation skip l s = Some (Ret s') -> Sleepers s'.
Proof.
  intros HS HN Hs. destruct l as [t op|t io|p|p st]; cbn [step].
  - intros Hr. assert (s' = set_threads (<[t := (AtLoop op, true)]> (threads s)) s) as ->.
    { destruct (threads s !! t) as [[[] ?]|]; try done; by injection Hr as <-. }
    intros t' pc [[_ ?]|[_ Ht']]%insert_cases; [done|]. apply sleep_ok_threads. by apply (Hs t').
  - destruct (threads s !! t) as [[pc []]|] eqn:Et; try done. destruct (resume _ _ _ _ _ io pc s) as [r'|] eqn:Er; [|done]. intros [= Hr].
    assert (Em : pcs s = <[t := pc]> (pcs s)) by (symmetry; apply insert_id; unfold pcs; by rewrite lookup_fmap, Et). rewrite Em in HS.
    destruct (resume_runs N t (pcs s) io pc s r' HS HN Er) as (s1 & th & -> & _ & _ & HL & Hth). cbn in Hr. injection Hr as <-.
    intros t' q [[<- ->]|[_ Ht']]%insert_cases; apply sleep_ok_threads; [by apply Hth|]. by apply (Live_Sleepers _ _ HL Hs t').
  - destruct (idxers_ s !! p) as [x|] eqn:Hx; [|done]. cbn. destruct (bg_ x) eqn:Eb; try done. destruct (pt_part _ _ _ _ (sf_parts _ _ _ HS) _ _ Hx) as (css & ims & mes & HI & _).
    destruct (Idx_start skip x css ims mes HI Eb) as (x' & -> & _ & _ & _ & Ei & Eh). cbn. intros [= <-]. eapply Live_Sleepers; [|exact Hs]. apply (Live_idxer s p x); [done|congruence|congruence].
  - destruct (idxers_ s !! p) as [x|] eqn:Hx; [|done]. cbn. destruct (bg_ x) eqn:Eb; try done. destruct (pt_part _ _ _ _ (sf_parts _ _ _ HS) _ _ Hx) as (css & ims & mes & HI & _).
    destruct (Idx_end skip x css ims mes st HI Eb) as (x' & c & ies & -> & _). cbn. intros [= <-]. eapply Live_Sleepers; [|exact Hs]. apply Live_signal; [done|]. intros q Hq. by destruct q.
Qed.

Lemma Reach_sleepers n s : Reach n s -> n < 2 ^ 32 -> Sleepers s.
Proof.
  induction 1 as [|n l s s' HR IH Hl E]; intros Hn; [intros t pc; cbn; by rewrite lookup_empty|]. destruct (Reach_safe n s HR ltac:(lia)) as [_ HS].
  apply (step_sleepers n l s s'); try done. apply IH. lia.
Qed.

(** ** Progress *)

(** A step that is not a new call. *)
Definition can_step (s : Writer) : Prop :=
  exists l s', step num_parts buf_threshold true rotation skip l s = Some (Ret s') /\ match l with LCall _ _ => False | _ => True end.

Lemma awake_steps N s t pc :
  Safe N s (pcs s) -> N + 1 < 2 ^ 32 -> threads s !! t = Some (pc, true) -> match pc with Idle | Returned _ => False | _ => True end -> can_step s.
Proof.
  intros HS HN Ht Hpc. assert (Hr : exists r, step num_parts buf_threshold true rotation skip (LRun t kOk) s = Some r) by (cbn [step]; rewrite Ht; destruct pc; try done; by eexists).
  destruct Hr as [r Hr]. destruct (step_safe N (LRun t kOk) s r HS HN I Hr) as (s' & -> & _). by exists (LRun t kOk), s'.
Qed.

Lemma compaction_steps N s p x : Safe N s (pcs s) -> N + 1 < 2 ^ 32 -> idxers_ s !! p = Some x -> imm_buf_ x <> None \/ has_bg_compaction_ x = true -> can_step s.
Proof.
  intros HS HN Hx Hi. destruct (pt_part _ _ _ _ (sf_parts _ _ _ HS) _ _ Hx) as (css & ims & mes & HI & _).
  assert (Hl : exists l r, step num_parts buf_threshold true rotation skip l s = Some r /\ label_ok l /\ match l with LCall _ _ => False | _ => True end).
  { pose proof (ix_imm _ _ _ _ _ HI) as Him. destruct (imm_buf_ x) as [b|], ims as [[c ies]|]; try done; [|destruct Him as (? & _); destruct Hi; congruence].
    destruct Him as (_ & _ & _ & _ & Hb). destruct (bg_ x) eqn:Eb; [done|exists (LStart p)|exists (LEnd p kOk)]; cbn [step]; rewrite Hx; cbn; rewrite Eb; by eexists. }
  destruct Hl as (l & r & Hr & Hl & Hc). destruct (step_safe N l s r HS HN Hl Hr) as (s' & -> & _). by exists l, s'.
Qed.

(** A thread that works for the partitions, or waits for them. *)
Lemma bg_steps N s t pc a :
  Safe N s (pcs s) -> N + 1 < 2 ^ 32 -> Sleepers s -> threads s !! t = Some (pc, a) ->
  match pc with AtPrepare _ _ _ _ _ _ | AtFlush _ _ _ | AtWait _ _ | Rotating _ => True | _ => False end -> can_step s.
Proof.
  intros HS HN Hs Ht Hpc. destruct a; [apply (awake_steps N s t pc); try done; by destruct pc|]. pose proof (Hs t pc Ht) as Hok. destruct pc; try done; cbn in Hok.
  - destruct Hok as (x & Hx & Hi). apply (compaction_steps N s part x); auto.
  - destruct Hok as (p & x & _ & Hx & Hi). apply (compaction_steps N s p x); auto.
  - apply HasCompaction_spec in Hok as (p & x & Hx & Hb). apply (compaction_steps N s p x); auto.
Qed.

Lemma pcs_lookup s t pc : pcs s !! t = Some pc -> exists a, threads s !! t = Some (pc, a).
Proof. unfold pcs. rewrite lookup_fmap. intros ([q a] & Hq & [= <-])%fmap_Some. by exists a. Qed.

Lemma drain_steps N s t who cur a :
  Safe N s (pcs s) -> N + 1 < 2 ^ 32 -> Sleepers s -> threads s !! t = Some (AtDrain who cur, a) -> can_step s.
Proof.
  intros HS HN Hs Ht. destruct a; [by apply (awake_steps N s t (AtDrain who cur))|]. destruct (Hs t _ Ht) as (e & Ee & _ & Hne).
  pose proof (th_epoch _ _ _ _ (sf_threads _ _ _ HS)) as Hep. rewrite Ee in Hep. destruct Hep as (_ & Hn & _). rewrite Hn in Hne. unfold count in Hne.
  destruct (map_choose (filter (fun x => in_op x.2 = true) (pcs s))) as (t' & q & Hq); [intros E; by rewrite E in Hne|]. apply map_lookup_filter_Some in Hq as [Hq Hi]. cbn in Hi.
  apply pcs_lookup in Hq as [a Hq]. apply (bg_steps N s t' q a); try done. by destruct q.
Qed.

(** C8. No deadlock: while some thread is inside the writer, a thread can go on or
    a compaction can start or end.  Every thread that sleeps on a condition variable
    waits for something that has not happened, so no wakeup is lost: a full buffer
    waits for a compaction that is going on, the end of an epoch for an operation of
    that epoch, and the operations of the next epoch for the thread that ends the
    current one. *)
Theorem writer_no_deadlock n s t pc a : Reach n s -> n + 1 < 2 ^ 32 -> threads s !! t = Some (pc, a) ->
  match pc with Idle | Returned _ => False | _ => True end -> can_step s /\ (a = false -> sleep_ok s pc).
Proof.
  intros HR Hn Ht Hpc. destruct (Reach_safe n s HR ltac:(lia)) as [_ HS]. pose proof (Reach_sleepers n s HR ltac:(lia)) as Hs. split; [|intros ->; by apply (Hs t)].
  destruct a; [by apply (awake_steps n s t pc)|]. pose proof (Hs t pc Ht) as Hok. destruct pc; try done; try exact (bg_steps n s t _ false HS Hn Hs Ht I); [|exact (drain_steps n s t _ _ false HS Hn Hs Ht)].
  destruct Hok as (e & Ee & Hc). pose proof (th_epoch _ _ _ _ (sf_threads _ _ _ HS)) as Hep. rewrite Ee in Hep. destruct Hep as (_ & _ & Hiff).
  apply Hiff in Hc as (t' & q & Hq & Hc). apply pcs_lookup in Hq as [a Hq]. destruct q; try done; [exact (drain_steps n s t' _ _ a HS Hn Hs Hq)|exact (bg_steps n s t' _ a HS Hn Hs Hq I)..].
Qed.

(** What the compactor of a partition has been given. *)
Definition given (x : DirIndexer) (css : list (Compaction * list entry)) : Prop :=
  Forall2 (fun call ce => call.1.1 = ce.1 /\ Sealed skip call.1.2 ce.2) (calls x) css.

(** What a finished directory has given its compactors. *)
Lemma finished_calls n s : Reach n s -> n < 2 ^ 32 -> finished_ s = true -> finish_status_ s = kOk -> exists last, forall p x, idxers_ s !! p = Some x ->
  exists css, given x css /\ Forall (fun call => call.2 = kOk) (calls x) /\ snd <$> added x = concat (snd <$> css)
    /\ collect css [] = (by_epoch (added x) <$> seqZ 0 (last + 1), []) /\ tagged 0 css /\ finals css true /\ Forall (fun a => 0 <= a.1 <= last) (added x).
Proof.
  intros HR Hn Hf Hs. destruct (Reach_safe n s HR Hn) as [_ HS]. pose proof (th_epoch _ _ _ _ (sf_threads _ _ _ HS)) as Hep. destruct (epoch_ s) eqn:Es; [by destruct Hep as [? _]; congruence|].
  destruct (pt_done _ _ _ _ (sf_parts _ _ _ HS) Es Hs) as (Hcl & last & Hall). exists last. intros p x Hx. destruct (Hall p x Hx) as (css & HI & HL & Ha). exists css.
  destruct (la_rest _ _ _ _ _ HL) as (rest & Ec & Er). rewrite app_nil_r, (by_epoch_none (added x)) in Er by (eapply Forall_impl; [exact Ha|]; cbn; lia). subst rest.
  split_and!; [apply HI|apply (ix_status _ _ _ _ _ HI), (Forall_lookup_1 _ _ p x Hcl), Hx| |done|apply HL|apply HL|].
  - rewrite (ix_added _ _ _ _ _ HI). cbn. by rewrite app_nil_r.
  - pose proof (la_range _ _ _ _ _ HL) as Hr. rewrite Forall_forall in Ha, Hr |- *. intros a Hin. specialize (Ha a Hin). specialize (Hr a Hin). cbn in *. lia.
Qed.

(** C7. Concurrent writers.  Threads add entries, flush, end epochs, wait, sync and
    finish a directory in any interleaving, with compactions in the background, any
    of which may fail.  No assertion of the writer fails and no loop spins.  Every
    entry that was added is in exactly one of the compactions of its partition, in
    the buffer being compacted or in the one being filled, in the order of the
    additions.  When the directory is finished with status OK, all compactions have
    succeeded and hold every entry, grouped into epochs: the entries compacted up to
    the [n]-th end of an epoch and after the one before it are exactly those added in
    epoch [n]; compactions carry the number of their epoch, and only the last is the
    final one. *)
Theorem writer_epochs n s l : Reach n s -> n + 1 < 2 ^ 32 -> label_ok l ->
  (forall r, step num_parts buf_threshold true rotation skip l s = Some r -> exists s', r = Ret s')
  /\ (forall p x, idxers_ s !! p = Some x -> exists css ims mes, given x css /\ snd <$> added x = concat (snd <$> css) ++ ims ++ mes
        /\ Holds (buf (mem_buf_ x) x) mes /\ (imm_buf_ x = None -> ims = []))
  /\ (finished_ s = true -> finish_status_ s = kOk -> exists last, forall p x, idxers_ s !! p = Some x ->
        exists css, given x css /\ Forall (fun call => call.2 = kOk) (calls x) /\ snd <$> added x = concat (snd <$> css)
          /\ collect css [] = (by_epoch (added x) <$> seqZ 0 (last + 1), []) /\ tagged 0 css /\ finals css true).
Proof.
  intros HR Hn Hl. destruct (Reach_safe n s HR ltac:(lia)) as [_ HS]. split_and!.
  - intros r E. destruct (step_safe n l s r HS Hn Hl E) as (s' & -> & _). by exists s'.
  - intros p x Hx. destruct (pt_part _ _ _ _ (sf_parts _ _ _ HS) _ _ Hx) as (css & ims & mes & HI & _). exists css, (imm_entries ims), mes. split_and!; try apply HI.
    intros Ei. pose proof (ix_imm _ _ _ _ _ HI) as Him. rewrite Ei in Him. by destruct ims.
  - intros Hf Hs. destruct (finished_calls n s HR ltac:(lia) Hf Hs) as (last & Hall). exists last. intros p x Hx.
    destruct (Hall p x Hx) as (css & ? & ? & ? & ? & ? & ? & _). by exists css.
Qed.

End Safety.
