(* ===== verification/PlfsWriterDemo.v ===== *)
(** * Writers of indexed directories: concrete runs

    Insertion sort as [std::sort]; runs of a writer with two partitions that reach
    the hypotheses of the theorems, and two runs in settings outside of them: with
    compactions in the calling thread, and with buffers without room. *)
From stdpp Require Import sorting.
From S2P Require Import Prelude Coding Status Gigaplus SstBlock PlfsFormat PlfsLog PlfsBuilder PlfsBuffer PlfsBufferProps PlfsWriter PlfsWriterInv PlfsWriterProps.

(** ** Sorting *)

Fixpoint insert_by (lt : Z -> Z -> bool) (a : Z) (l : list Z) : list Z :=
  match l with [] => [a] | b :: l' => if lt b a then b :: insert_by lt a l' else a :: l end.

Definition insertion_sort (lt : Z -> Z -> bool) (l : list Z) : list Z := foldr (insert_by lt) [] l.

Lemma insert_by_perm lt a l : insert_by lt a l ≡ₚ a :: l.
Proof. induction l as [|b l IH]; [done|]. cbn. destruct (lt b a); [|done]. rewrite IH. apply Permutation_swap. Qed.

Lemma insertion_sort_perm lt l : insertion_sort lt l ≡ₚ l.
Proof. induction l as [|a l IH]; [done|]. change (insertion_sort lt (a :: l)) with (insert_by lt a (insertion_sort lt l)). by rewrite insert_by_perm, IH. Qed.

Section Sort.
Context (lt : Z -> Z -> bool) (l : list Z).
Context (Hirr : forall a, lt a a = false).
Context (Htrans : forall a b c, a ∈ l -> b ∈ l -> c ∈ l -> lt a b = true -> lt b c = true -> lt a c = true).
Context (Hneg : forall a b c, a ∈ l -> b ∈ l -> c ∈ l -> lt a b = false -> lt b c = false -> lt a c = false).

Lemma insert_by_sorted a l' :
  a ∈ l -> l' ⊆ l -> StronglySorted (fun a b => lt b a = false) l' -> StronglySorted (fun a b => lt b a = false) (insert_by lt a l').
Proof.
  intros Ha. induction l' as [|b l' IH]; intros Hl HS; cbn; [repeat constructor|]. apply StronglySorted_inv in HS as [HS Hb].
  assert (Hbl : b ∈ l) by (apply Hl; left). assert (Hl' : l' ⊆ l) by (intros x Hx; apply Hl; by right). destruct (lt b a) eqn:Eba.
  - constructor; [by apply IH|]. rewrite insert_by_perm. constructor; [|done]. destruct (lt a b) eqn:Eab; [|done]. by rewrite <- (Hirr a), (Htrans a b a).
  - constructor; [by constructor|]. constructor; [done|]. apply Forall_forall. intros c Hc. rewrite Forall_forall in Hb. apply (Hneg c b a); auto.
Qed.

Lemma insertion_sort_sorted l' : l' ⊆ l -> StronglySorted (fun a b => lt b a = false) (insertion_sort lt l').
Proof.
  induction l' as [|a l' IH]; intros Hl; [constructor|]. change (insertion_sort lt (a :: l')) with (insert_by lt a (insertion_sort lt l')). assert (Hl' : l' ⊆ l) by (intros x Hx; apply Hl; by right).
  apply insert_by_sorted; [apply Hl; left| |by apply IH]. intros x. rewrite insertion_sort_perm. apply Hl'.
Qed.
End Sort.

Lemma insertion_sort_laws lt l :
  (forall a, lt a a = false) -> (forall a b c, a ∈ l -> b ∈ l -> c ∈ l -> lt a b = true -> lt b c = true -> lt a c = true) ->
  (forall a b c, a ∈ l -> b ∈ l -> c ∈ l -> lt a b = false -> lt b c = false -> lt a c = false) ->
  forall i j a b, (i < j)%nat -> insertion_sort lt l !! i = Some a -> insertion_sort lt l !! j = Some b -> lt b a = false.
Proof.
  intros H1 H2 H3 i j a b Hij Hi Hj. pose proof (insertion_sort_sorted lt l H1 H2 H3 l (reflexivity _)) as HS.
  revert i j Hij Hi Hj. induction HS as [|c cs HS IH Hc]; intros i j Hij Hi Hj; [done|].
  destruct j as [|j]; [lia|]. cbn in Hj. destruct i as [|i]; cbn in Hi; [|by apply (IH i j ltac:(lia))].
  injection Hi as ->. rewrite Forall_lookup in Hc. by apply (Hc j).
Qed.

(** ** Runs *)

Module WriterDemo.

#[local] Instance demo_sort : StdSort := {| std_sort := insertion_sort; std_sort_perm := insertion_sort_perm; std_sort_sorted := insertion_sort_laws |}.

Fixpoint run_labels (pool : bool) (parts : nat) (threshold : Z) (ls : list Label) (s : Writer) : option (Res Writer) :=
  match ls with
  | [] => Some (Ret s)
  | l :: ls =>
      let? r := step parts threshold pool false false l s in
      match r with Ret s => run_labels pool parts threshold ls s | Fault n => Some (Fault n) end
  end.

(** Thread [t] calls an operation and runs until it stops. *)
Definition call (t : nat) (op : Op) : list Label := [LCall t op; LRun t kOk].
Definition work (part : nat) (st : Status) : list Label := [LStart part; LEnd part st].

(** The entries of three threads in epoch 0; a buffer of partition 1 is full; the
    end of the epoch waits for its compaction, and the next addition for the end of
    the epoch. *)
Definition waiting_labels : list Label :=
  call 1 (OAdd [98] [1; 2; 3] (-1)) ++ call 2 (OAdd [97] [4] 0) ++ call 1 (OAdd [99] [5; 6; 7; 8; 9] (-1)) ++ call 2 (OAdd [100] [4] 0)
  ++ call 3 (OEpochFlush 0) ++ [LStart 0; LCall 1 (OAdd [101] [] (-1)); LRun 1 kOk; LStart 1].

(** The epoch ends, the addition falls into the next one, and the directory is
    finished. *)
Definition finish_labels : list Label :=
  waiting_labels ++ [LEnd 0 kOk; LEnd 1 kOk; LRun 3 kOk; LRun 1 kOk] ++ work 1 kOk ++ call 3 OFinish ++ work 0 kOk ++ work 1 kOk ++ [LRun 3 kOk].

Definition state_after (ls : list Label) : Writer :=
  match run_labels true 2 8 ls (Rep 2) with Some (Ret s) => s | _ => Rep 2 end.

Lemma waiting_runs : threads (state_after waiting_labels) !! 1%nat = Some (AtLoop (OAdd [101] [] (-1)), false)
  /\ threads (state_after waiting_labels) !! 3%nat = Some (AtFlush FlEpoch 0 [1%nat], false).
Proof. by vm_compute. Qed.

Lemma finish_runs : let s := state_after finish_labels in
  finished_ s = true /\ finish_status_ s = kOk
  /\ (fun x => (fun c => (c_epoch c.1.1, wb_offsets c.1.2, wb_buffer c.1.2, is_epoch_flush_ c.1.1, is_final c.1.1)) <$> calls x) <$> idxers_ s
     = [[(0, [6; 0], [1; 98; 3; 1; 2; 3; 1; 97; 1; 4], true, false); (1, [0], [1; 101; 0], true, true)];
        [(0, [0], [1; 99; 5; 5; 6; 7; 8; 9], false, false); (0, [0], [1; 100; 1; 4], true, false); (1, [], [], true, true)]].
Proof. by vm_compute. Qed.

Definition DemoReach : Z -> Writer -> Prop := Reach 2 8 false false.

Lemma run_reach ls : forall n s s', DemoReach n s -> Forall label_ok ls -> run_labels true 2 8 ls s = Some (Ret s') -> DemoReach (n + zlen ls) s'.
Proof.
  induction ls as [|l ls IH]; intros n s s' HR Hok; cbn [run_labels].
  - intros [= <-]. by rewrite zlen_nil, Z.add_0_r.
  - apply Forall_cons in Hok as [Hl Hls]. destruct (step _ _ _ _ _ l s) as [[s1|]|] eqn:E; cbn; try done. intros Hr.
    rewrite zlen_cons, Z.add_assoc. apply (IH _ s1); try done. by apply (Reach_step _ _ _ _ n l s).
Qed.

Definition small_label (l : Label) : bool :=
  match l with
  | LCall t (OAdd fid data _) => (t <? 100)%nat && negb (zlen fid =? 0) && (zlen fid + zlen data <? 100)
  | LCall t _ => (t <? 100)%nat
  | _ => true
  end.

Lemma small_label_ok l : small_label l = true -> label_ok l.
Proof.
  destruct l as [t [fid data e| | | | |]| | |]; cbn [small_label label_ok]; try done; try (intros Ht%Nat.ltb_lt; split; [lia|done]).
  intros [[Ht%Nat.ltb_lt Hk]%andb_prop Hs%Z.ltb_lt]%andb_prop. split; [lia|]. split; [by intros [= ->]|cbn [fst snd]; lia].
Qed.

Lemma labels_ok : Forall label_ok finish_labels.
Proof. assert (Hb : Forall (fun l => small_label l = true) finish_labels) by repeat constructor. eapply Forall_impl; [exact Hb|]. exact small_label_ok. Qed.

Definition runs (ls : list Label) : bool := match run_labels true 2 8 ls (Rep 2) with Some (Ret _) => true | _ => false end.

Lemma state_reach ls : Forall label_ok ls -> runs ls = true -> DemoReach (zlen ls) (state_after ls).
Proof.
  intros Hok Hr. unfold runs, state_after in *. destruct (run_labels true 2 8 ls (Rep 2)) as [[s|]|] eqn:E; try done.
  exact (run_reach ls 0 (Rep 2) s (Reach_init _ _ _ _) Hok E).
Qed.

Lemma waiting_reach : DemoReach (zlen waiting_labels) (state_after waiting_labels).
Proof. apply state_reach; [|by vm_compute]. pose proof labels_ok as Hok. unfold finish_labels in Hok. by apply Forall_app in Hok as [? _]. Qed.

Lemma finish_reach : DemoReach (zlen finish_labels) (state_after finish_labels).
Proof. apply state_reach; [apply labels_ok|by vm_compute]. Qed.

(** Witness of [writer_epochs]: a directory of two epochs, finished with status OK. *)
Lemma writer_epochs_witness : exists last, forall p x, idxers_ (state_after finish_labels) !! p = Some x ->
  exists css, given false x css /\ Forall (fun call => call.2 = kOk) (calls x) /\ snd <$> added x = concat (snd <$> css)
    /\ collect css [] = (by_epoch (added x) <$> seqZ 0 (last + 1), []) /\ tagged 0 css /\ finals css true.
Proof.
  apply (writer_epochs 2 8 false false ltac:(lia) ltac:(lia) (zlen finish_labels) (state_after finish_labels) (LStart 0));
    [exact finish_reach|vm_compute; reflexivity|exact I|vm_compute; reflexivity|vm_compute; reflexivity].
Defined.

(** Witness of [writer_no_deadlock]: a thread that waits for the next epoch. *)
Lemma writer_no_deadlock_witness : can_step 2 8 false false (state_after waiting_labels)
  /\ (false = false -> sleep_ok (state_after waiting_labels) (AtLoop (OAdd [101] [] (-1)))).
Proof.
  apply (writer_no_deadlock 2 8 false false ltac:(lia) ltac:(lia) (zlen waiting_labels) (state_after waiting_labels) 1);
    [exact waiting_reach|vm_compute; reflexivity|vm_compute; reflexivity|exact I].
Defined.

(** ** Compactions in the calling thread *)

(** Without a pool the thread that flushes compacts the buffer itself, without the
    mutex and before the buffers are switched: an addition of another thread finds
    room in the buffer that is being compacted, and fails the assertion that it is
    not finished. *)
Example inline_compaction_race :
  run_labels false 2 8 (call 1 (OAdd [97] [5] (-1)) ++ call 1 (OFlush (-1)) ++ call 2 (OAdd [98] [] (-1))) (Rep 2) = Some (Fault 219).
Proof. by vm_compute. Qed.

(** ** Buffers without room *)

(** With a threshold of 0 the loop of [Prepare] switches buffers for ever: an empty
    buffer is compacted, and the addition waits for the next one. *)
Example no_room_never_adds :
  let rounds := flat_map (fun _ => work 1 kOk ++ [LRun 1 kOk]) (List.seq 0 20) in
  match run_labels true 2 0 (call 1 (OAdd [99] [5] (-1)) ++ rounds) (Rep 2) with
  | Some (Ret s) => (fun x => (length (calls x), added x)) <$> idxers_ s = [(0%nat, []); (20%nat, [])]
  | _ => False
  end.
Proof. by vm_compute. Qed.

(** The default sizes give such a threshold to two partitions, and wrap around with
    four: a budget of 4 MB with 2 MB reserved for the compaction of each. *)
Lemma default_budget_two_parts o : lg_parts o = 1 -> block_batch_size o = 2 ^ 21 -> tb_bytes_ (2 ^ 22) o = 0.
Proof. intros E1 E2. unfold tb_bytes_. by rewrite E1, E2. Qed.

Lemma default_budget_four_parts o : lg_parts o = 2 -> block_batch_size o = 2 ^ 21 -> tb_bytes_ (2 ^ 22) o = 2 ^ 63 - 2 ^ 19.
Proof. intros E1 E2. unfold tb_bytes_. by rewrite E1, E2. Qed.

End WriterDemo.
