(* ===== verification/PlfsCompact.v ===== *)
(** * Compaction: from write buffers to directories that can be read

    A finished buffer is written as a run of the builder: its entries in the order
    of the sorted offsets, and the end of a table with a filter of their keys.
    [compact_all] writes the buffers of a partition one after the other, with the
    writes of other partitions to the shared data log in between. *)
From stdpp Require Import sorting.
From S2P Require Import Prelude Coding Status Gigaplus Filter FilterLemmas SstBlock SstBlockProps PlfsFormat PlfsLog PlfsLogLemmas PlfsBuilder PlfsReader PlfsBlocks PlfsReaderLemmas PlfsBuilderInv PlfsBuilderSpec PlfsBuilderAdd PlfsBuilderRun PlfsProps.
From S2P Require Import PlfsBuffer PlfsBufferProps PlfsWriter PlfsWriterInv.

(** ** Reading a buffer *)

Lemma zlen_fmap {A B} (f : A -> B) l : zlen (f <$> l) = zlen l.
Proof. unfold zlen. by rewrite length_fmap. Qed.

Definition entry_at (buffer : bytes) (off : Z) (e : entry) : Prop :=
  0 <= off <= zlen buffer /\ exists r r', GetLengthPrefixedSlice (drop (Z.to_nat off) buffer) = Some (e.1, r) /\ GetLengthPrefixedSlice r = Some (e.2, r').

Lemma starts_at pre es post : Forall entry_ok es -> Forall2 (entry_at (pre ++ concat (enc <$> es) ++ post)) (starts (zlen pre) es) es.
Proof.
  revert pre. induction es as [|e es IH]; intros pre Hok; [constructor|]. apply Forall_cons in Hok as [(Hk & Hk1 & Hk2) Hok]. cbn [starts].
  replace (pre ++ concat (enc <$> e :: es) ++ post) with ((pre ++ enc e) ++ concat (enc <$> es) ++ post) by (cbn; by rewrite !app_assoc).
  constructor; [|rewrite <- zlen_app; by apply IH]. rewrite <- app_assoc. split; [rewrite zlen_app; pose proof (zlen_nonneg pre); pose proof (zlen_nonneg (enc e ++ concat (enc <$> es) ++ post)); lia|].
  rewrite drop_app_length' by (unfold zlen; lia). unfold enc at 1. rewrite <- !app_assoc. eexists _, _. split; by apply GetLengthPrefixedSlice_put.
Qed.

Lemma entry_at_key buffer off e : entry_at buffer off e -> WriteBuffer.GetKey buffer off = e.1.
Proof. intros (_ & r & r' & E & _). unfold WriteBuffer.GetKey. by rewrite E. Qed.

(** Lists in relation, the first one arranged anew. *)
Lemma Forall2_arrange {A B} (R : A -> B -> Prop) l l' k : l' ≡ₚ l -> Forall2 R l k -> exists k', k' ≡ₚ k /\ Forall2 R l' k'.
Proof.
  intros Hp. revert k. induction Hp as [|a l' l _ IH|a b l|l1 l2 l3 _ IH1 _ IH2]; intros k HF.
  - by exists k.
  - apply Forall2_cons_inv_l in HF as (c & k0 & Hc & HF & ->). destruct (IH k0 HF) as (k' & Hk & HF'). exists (c :: k'). split; [by constructor|by constructor].
  - apply Forall2_cons_inv_l in HF as (c & k0 & Hc & HF & ->). apply Forall2_cons_inv_l in HF as (d & k1 & Hd & HF & ->). exists (d :: c :: k1). split; [apply Permutation_swap|by repeat constructor].
  - destruct (IH2 k HF) as (k2 & Hk2 & HF2). destruct (IH1 k2 HF2) as (k1 & Hk1 & HF1). exists k1. split; [by etrans|done].
Qed.

Lemma pairs_sorted es : (forall i j a b, (i < j)%nat -> es !! i = Some a -> es !! j = Some b -> sle a.1 b.1 = true) -> sorted es.
Proof.
  induction es as [|e es IH]; intros Hp; [constructor|]. constructor.
  - apply IH. intros i j a b Hij Ha Hb. by apply (Hp (S i) (S j) a b ltac:(lia)).
  - apply Forall_lookup. intros i b Hb. by apply (Hp 0%nat (S i) e b ltac:(lia)).
Qed.

Section Sorted.
Context `{StdSort}.

(** What a finished buffer gives its iterator. *)
Record Reads (b : WriteBuffer) (es : list entry) : Prop := {
  re_finished : wb_finished b = true; re_num : wb_num_entries b = zlen es; re_small : zlen es < 2 ^ 32;
  re_at : Forall2 (entry_at (wb_buffer b)) (wb_offsets b) es; re_ok : Forall entry_ok es }.

Lemma Sealed_Reads skip b es : Sealed skip b es ->
  exists es', es' ≡ₚ es /\ Reads b es' /\ (skip = false -> sorted es') /\ wb_buffer b = concat (enc <$> es).
Proof.
  intros (b0 & [H1 H2 H3 H4 H5 H6] & E). unfold WriteBuffer.Finish in E. rewrite H4 in E. injection E as <-. cbn [wb_buffer].
  pose proof (starts_at [] es [] H6) as HA. cbn [app] in HA. rewrite app_nil_r, zlen_nil, <- H1, <- H2 in HA.
  assert (Hz : zlen es < 2 ^ 32) by (pose proof (entries_count es); rewrite <- H1 in *; lia). destruct skip.
  { exists es. by split_and!. }
  destruct (Forall2_arrange _ _ _ _ (std_sort_perm (WriteBuffer.STLLessThan (wb_buffer b0)) (wb_offsets b0)) HA) as (es' & Hp & HA').
  exists es'. split; [done|]. assert (Hzl : zlen es' = zlen es) by (unfold zlen; by rewrite Hp). split; [constructor; cbn; try done; [by rewrite Hzl|lia|by rewrite Hp]|]. split; [|done]. intros _.
  apply pairs_sorted. intros i j a c Hij Ha Hc. destruct (Forall2_lookup_r _ _ _ _ _ HA' Ha) as (oa & Hoa & Ea). destruct (Forall2_lookup_r _ _ _ _ _ HA' Hc) as (oc & Hoc & Ec).
  rewrite sle_slt, <- (entry_at_key _ _ _ Ea), <- (entry_at_key _ _ _ Ec). apply negb_true_iff.
  apply (std_sort_sorted (WriteBuffer.STLLessThan (wb_buffer b0)) (wb_offsets b0)) with (i := i) (j := j); try done; unfold WriteBuffer.STLLessThan.
  - intros x. apply slt_irrefl.
  - intros x y z _ _ _. apply slt_trans.
  - intros x y z _ _ _ Hxy Hyz. rewrite slt_sle in *. apply negb_false_iff in Hxy, Hyz. apply negb_false_iff. by eapply sle_trans.
Qed.

End Sorted.

(** ** Filters of tables *)

Section Filters.
Context `{XXHash} (o : DirOptions).

(** A filter object as good as new. *)
Definition fresh (f : FilterBlock) : Prop := forall n, FilterBlock.Reset n f = FilterBlock.Reset n (FilterBlock.Open o).

Definition add_key (f : FilterBlock) (key : bytes) : option FilterBlock := FilterBlock.AddKey key f.

Definition FilterConf : Prop := filter_type o <> kFtBitmap /\ 0 <= bf_bits_per_key o.

Lemma add_all_bloom keys b : add_all add_key (FBloom (Some b)) keys = (b ← add_all Bloom.AddKey b keys; Some (FBloom (Some b))).
Proof.
  revert b. induction keys as [|k keys IH]; intros b; [done|]. cbn [add_all add_key FilterBlock.AddKey]. destruct (Bloom.AddKey b k) as [b1|]; cbn; [apply IH|done].
Qed.

Lemma add_all_none keys f : (f = FEmpty \/ f = FBloom None) -> add_all add_key f keys = Some f.
Proof. intros [->| ->]; induction keys as [|k keys IH]; done. Qed.

Lemma add_probes_ok k h1 h2 bits sp : bytes_ok sp -> bytes_ok (Bloom.add_probes k h1 h2 bits sp).
Proof.
  revert h1 sp. induction k as [|k IH]; intros h1 sp Hs; [done|]. cbn. by apply IH, set_bit_ok.
Qed.

Lemma bloom_add_fields keys b b' : add_all Bloom.AddKey b keys = Some b' ->
  Bloom.bits_per_key_ b' = Bloom.bits_per_key_ b /\ (bytes_ok (Bloom.space_ b) -> bytes_ok (Bloom.space_ b')).
Proof.
  revert b. induction keys as [|k keys IH]; intros b; cbn [add_all]; [by intros [= <-]|]. unfold Bloom.AddKey at 1. destruct (_ || _); [done|]. intros E.
  destruct (IH _ E) as [-> H2]. split; [done|]. intros Hs. apply H2. cbn. by apply add_probes_ok.
Qed.

(** The filter of a table: its contents are small bytes, and let its keys pass. *)
Lemma filter_run keys :
  FilterConf -> zlen keys * bf_bits_per_key o <= 2 ^ 32 - 8 ->
  exists f fc f', add_all add_key (FilterBlock.Reset (zlen keys) (FilterBlock.Open o)) keys = Some f /\ FilterBlock.Finish f = Some (fc, f') /\ fresh f'
    /\ zlen fc <= 2 ^ 29 /\ (fc = [] \/ bytes_ok fc /\ forall es, es.*1 = keys -> FilterGood (filter_type o) fc es).
Proof.
  intros [Hb Hp] Hn. pose proof (zlen_nonneg keys) as Hz. unfold fresh, FilterBlock.Open.
  destruct (filter_type o) eqn:Ef; try (exists FEmpty, [], FEmpty; split_and!; [apply add_all_none; by left|done|done|done|by left]); [|done].
  destruct (Z.eqb_spec (bf_bits_per_key o) 0) as [E0|E0]; cbn [negb].
  { exists (FBloom None), [], (FBloom None). split_and!; [apply add_all_none; by right|done|done|done|by left]. }
  set (b0 := Bloom.BloomBlock_new (bf_bits_per_key o)). cbn [FilterBlock.Reset]. rewrite add_all_bloom.
  assert (Hu : u32 (u64 (zlen keys * bf_bits_per_key o)) <= 2 ^ 32 - 8) by (rewrite u64_small, u32_small by (unfold in_width; nia); lia).
  destruct (add_all_ok keys _ (Reset_ok (bf_bits_per_key o) (zlen keys) Hp Hu)) as (b & E & Hok & _ & Eb & Ek & Ht).
  fold b0 in E, Eb, Ek, Ht. rewrite E. cbn. destruct (bloom_add_fields _ _ _ E) as [Epk Hbytes]. destruct Hok as [Ho Hbits Hs H8 Hk Hpr].
  eexists _, _, _. split; [reflexivity|]. cbn [FilterBlock.Finish]. unfold Bloom.Finish. rewrite Ho. split; [reflexivity|]. split_and!.
  - intros n. cbn [FilterBlock.Reset]. unfold Bloom.Reset. cbn. rewrite Epk, Ek. done.
  - rewrite Hs. assert (Bloom.bits_ b / 8 < 2 ^ 29) by (apply Z.div_lt_upper_bound; lia). lia.
  - right. split.
    + apply Hbytes. unfold Bloom.Reset. cbn. apply bytes_ok_app. split; [apply Forall_replicate; by apply in_width_0|]. constructor; [apply u8_range|constructor].
    + intros es <- key Hkey. eexists. split; [reflexivity|]. intros [v Hin]. unfold Bloom.BloomKeyMayMatch. rewrite Hs. replace (Bloom.bits_ b / 8 + 1 - 1) with (Bloom.bits_ b / 8) by lia.
      rewrite Hk, <- H8, (u32_small (Bloom.bits_ b)) by (unfold in_width; lia).
      destruct (Z.ltb_spec (Bloom.bits_ b / 8 + 1) 2); [done|]. destruct (Z.ltb_spec 30 (Bloom.k_ b)); [lia|]. rewrite Eb, Ek. apply Ht. apply list_elem_of_fmap. by exists (key, v).
Qed.

End Filters.

(** ** A buffer as a run of the builder *)

Definition adds (es : list entry) : list PlfsBuilderRun.Op := (fun e => OpAdd e.1 e.2) <$> es.

(** The iterator is at entry [i]. *)
Record At (b : WriteBuffer) (es : list entry) (it : BufIter) (i : nat) : Prop := {
  at_status : it_status it = kOk; at_buffer : it_buffer it = b; at_cursor : it_cursor it = Z.of_nat i;
  at_entry : forall e, es !! i = Some e -> it_key it = e.1 /\ it_value it = e.2 }.

Lemma parse_at b es it i :
  Reads b es -> it_status it = kOk -> it_buffer it = b -> it_cursor it = Z.of_nat i -> exists it', BufIter.TryParseNextEntry it = Some it' /\ At b es it' i.
Proof.
  intros [H1 H2 H3 H4 H5] Hs Hb Hc. unfold BufIter.TryParseNextEntry, BufIter.Valid. rewrite Hs, Hb, Hc, H2. cbn [ok andb].
  destruct (Z.ltb_spec (Z.of_nat i) (zlen es)) as [Hi|Hi].
  - unfold zlen in Hi. destruct (lookup_lt_is_Some_2 es i ltac:(lia)) as [e He]. destruct (Forall2_lookup_r _ _ _ _ _ H4 He) as (off & Ho & (Hr & r & r' & E1 & E2)).
    rewrite Nat2Z.id, Ho. destruct (Z.ltb_spec (zlen (wb_buffer b)) off); [lia|]. rewrite E1, E2. eexists. split; [reflexivity|]. constructor; cbn; try done. intros e' [= <-]%(eq_trans (eq_sym He)). done.
  - eexists. split; [reflexivity|]. constructor; try done. intros e He%lookup_lt_Some. unfold zlen in Hi. lia.
Qed.

Lemma At_Valid b es it i : Reads b es -> At b es it i -> BufIter.Valid it = bool_decide (i < length es)%nat.
Proof.
  intros HR [H1 H2 H3 _]. unfold BufIter.Valid. rewrite H1, H2, H3, (re_num _ _ HR). cbn [ok andb]. unfold zlen. case_bool_decide; destruct (Z.ltb_spec (Z.of_nat i) (Z.of_nat (length es))); lia || done.
Qed.

Lemma At_step b es it i : Reads b es -> At b es it i -> (i < length es)%nat -> exists it', BufIter.Next it = Some it' /\ At b es it' (S i).
Proof.
  intros HR HA Hi. unfold BufIter.Next. rewrite (At_Valid b es it i HR HA), bool_decide_eq_true_2 by done. destruct HA as [H1 H2 H3 _]. pose proof (re_small _ _ HR) as Hz. unfold zlen in Hz.
  apply (parse_at b es); try done. cbn. rewrite H3, u32_small; [lia|]. unfold in_width. lia.
Qed.

Lemma At_First b es : Reads b es -> exists it it', BufIter.New b = Some it /\ BufIter.SeekToFirst it = Some it' /\ At b es it' 0.
Proof.
  intros HR. unfold BufIter.New. rewrite (re_finished _ _ HR). eexists. destruct (parse_at b es (BufIter.at_ 0 (mkBufIter kOk [] [] b (wb_num_entries b))) 0 HR) as (it' & E & HA); try done.
  exists it'. split; [reflexivity|done].
Qed.

(** What other partitions write to the data log, and the compaction after it. *)
Abbreviation Item := (list bytes * (Compaction * WriteBuffer))%type.

Section Compact.
Context `{Snappy} `{XXHash} `{StdSort} (o : DirOptions) {T : Type} `{!DataBlock T} `{!DataBlockLaws o T} (d : Dir).
Context (Hcf : Config o) (Hag : agree o (d_options d)).
Local Abbreviation Builder := (SeqDirBuilder T).
Local Abbreviation Rest := (Rest o d).
Local Abbreviation Valid := (Valid o (T := T)).

Lemma adds_err es (b : Builder) data : Err b -> Forall entry_ok es -> run (adds es) b data = Some (b, data, kOk).
Proof.
  intros He. induction 1 as [|e es [Hk _] _ IH]; [done|]. cbn [adds fmap list_fmap run]. rewrite Add_err by done. exact IH.
Qed.

(** The loop over the entries adds them until the builder fails. *)
Lemma compact_loop_run b es rest ep fend todo : forall i fuel it f (bu : Builder) data g s B E,
  Reads b es -> drop i es = todo -> At b es it i -> (length todo < fuel)%nat -> add_all add_key f (todo.*1) = Some fend ->
  Rest bu data g s B E -> Valid (adds todo ++ rest) ep s B E ->
  exists f' bu' data', Compactor.compact_loop fuel it f bu data = Some (f', bu', data') /\ run (adds todo) bu data = Some (bu', data', kOk)
    /\ (status_b bu' = kOk /\ f' = fend \/ Err bu').
Proof.
  induction todo as [|e todo IH]; intros i fuel it f bu data g s B E HR Hd HA Hf Hadd HRs HV; (destruct fuel as [|fuel]; [cbn in Hf; lia|]); cbn [Compactor.compact_loop]; rewrite (At_Valid b es it i HR HA).
  - rewrite bool_decide_eq_false_2 by (apply (f_equal length) in Hd; rewrite length_drop in Hd; cbn in Hd; lia). cbn in Hadd. injection Hadd as <-.
    exists f, bu, data. split; [done|]. split; [done|]. left. split; [apply (i_core _ _ _ _ _ _ _ _ HRs)|done].
  - assert (He : es !! i = Some e) by (rewrite <- (Nat.add_0_r i), <- lookup_drop, Hd; done). pose proof (lookup_lt_Some _ _ _ He) as Hi.
    rewrite bool_decide_eq_true_2 by done. destruct (at_entry _ _ _ _ HA e He) as [-> ->]. cbn [fmap list_fmap add_all] in Hadd. unfold add_key at 1 in Hadd. destruct (FilterBlock.AddKey e.1 f) as [f1|]; [|done].
    destruct HV as (Hok & HB & HE1 & HE2 & HV). destruct (step_spec o d Hcf Hag (OpAdd e.1 e.2) bu data g s B E HRs Hok HB HE1 HE2 ltac:(done)) as (b1 & data1 & E1 & (_ & Hfin & _ & _ & HR1)).
    cbn [PlfsBuilderRun.step] in E1. cbn [adds fmap list_fmap run]. rewrite E1. destruct (decide (status_b b1 = kOk)) as [Est|Est].
    + rewrite (proj2 (ok_true _) Est). destruct (HR1 Est) as [g1 HR1']. destruct (At_step b es it i HR HA Hi) as (it' & -> & HA').
      eapply (IH (S i) fuel it' f1 b1 data1 g1); try done; [|cbn in Hf; lia]. by rewrite <- Nat.add_1_r, <- drop_drop, Hd.
    + rewrite (proj2 (ok_false _) Est). exists f1, b1, data1. split; [done|]. split; [|by right].
      change ((fun e0 => OpAdd e0.1 e0.2) <$> todo) with (adds todo). apply adds_err; [done|]. eapply Forall_cons. rewrite <- Hd. apply Forall_drop, HR.
Qed.

(** The filter of a table, and the run that writes the table. *)
Definition table_filter (es : list entry) : option (bytes * FilterBlock) :=
  let? f := add_all add_key (FilterBlock.Reset (zlen es) (FilterBlock.Open o)) es.*1 in FilterBlock.Finish f.

Definition table_end (es : list entry) : PlfsBuilderRun.Op :=
  match table_filter es with Some (fc, f) => OpEndTable fc (FilterBlock.chunk_type f) | None => OpEndTable [] kUnknown end.

Definition table_ops (es : list entry) : list PlfsBuilderRun.Op := adds es ++ [table_end es].

Definition filters_fit (es : list entry) : Prop := zlen es * bf_bits_per_key o <= 2 ^ 32 - 8.

Lemma run_app ops ops' (b : Builder) data :
  run (ops ++ ops') b data = match run ops b data with Some (b, data, st) => if ok st then run ops' b data else Some (b, data, st) | None => None end.
Proof.
  revert b data. induction ops as [|op ops IH]; intros b data; [done|]. cbn [app run]. destruct op as [k v|fc ft|ep|x].
  - destruct (SeqDirBuilder.Add k v b data) as [[b1 d1]|]; [apply IH|done].
  - destruct (SeqDirBuilder.EndTable fc ft b data) as [[b1 d1]|]; [apply IH|done].
  - destruct (SeqDirBuilder.FinishEpoch ep b data) as [[b1 d1]|]; [apply IH|done].
  - destruct (LogSink.Lwrite x data) as [st d1]. destruct (ok st) eqn:Est; [apply IH|by rewrite Est].
Qed.

(** [Compact] is the run that writes the table. *)
Lemma Compact_run b es rest ep f (bu : Builder) data g s B E :
  Reads b es -> fresh o f -> FilterConf o -> filters_fit es -> Rest bu data g s B E -> Valid (table_ops es ++ rest) ep s B E ->
  exists f' bu' data', Compactor.Compact b (mkCompactor f bu) data = Some (mkCompactor f' bu', data') /\ run (table_ops es) bu data = Some (bu', data', kOk)
    /\ (status_b bu' = kOk -> fresh o f').
Proof.
  intros HR Hf Hfc Hff HRs HV. destruct (filter_run o es.*1 Hfc) as (fe & fc & f2 & Ea & Efin & Hf2 & _); [by rewrite zlen_fmap|]. rewrite zlen_fmap in Ea.
  assert (Ete : table_end es = OpEndTable fc (FilterBlock.chunk_type f2)) by (unfold table_end, table_filter; by rewrite Ea, Efin). unfold table_ops in *. rewrite <- app_assoc in HV.
  destruct (At_First b es HR) as (it0 & it & E0 & E1 & HA). unfold Compactor.Compact. rewrite E0, E1. cbn [c_filter c_builder].
  replace (FilterBlock.Reset (WriteBuffer.NumEntries b) f) with (FilterBlock.Reset (zlen es) (FilterBlock.Open o)) by (unfold WriteBuffer.NumEntries; by rewrite (re_num _ _ HR), Hf).
  destruct (compact_loop_run b es ([table_end es] ++ rest) ep fe es 0 (S (length (wb_offsets b))) it (FilterBlock.Reset (zlen es) (FilterBlock.Open o)) bu data g s B E HR eq_refl HA) as (f' & b1 & data1 & E2 & E3 & Hcase); try done.
  { rewrite (Forall2_length _ _ _ (re_at _ _ HR)). lia. }
  rewrite E2, run_app, E3. change (ok kOk) with true. cbn iota. rewrite Ete. cbn [run]. destruct Hcase as [[Est ->]|He].
  - rewrite (proj2 (ok_true _) Est), Efin. cbn [negb].
    destruct (builder_run_spec o d Hcf Hag (adds es) ([table_end es] ++ rest) ep s B E bu data g HRs HV) as (b1' & data1' & st & E4 & _ & _ & _ & HR1). rewrite E3 in E4. injection E4 as <- <- <-.
    destruct (HR1 Est eq_refl) as (g1 & B1 & E1' & HRs1 & (Hok & HB & HE1 & HE2 & _)). rewrite Ete in Hok, HB, HE2.
    destruct (step_spec o d Hcf Hag _ b1 data1 g1 _ _ _ HRs1 Hok HB HE1 HE2 ltac:(done)) as (b2 & data2 & E5 & _). cbn [PlfsBuilderRun.step] in E5. rewrite E5.
    exists f2, b2, data2. split_and!; [done|done|by intros _].
  - pose proof He as [Hs _]. rewrite (proj2 (ok_false _) Hs), EndTable_err by done. cbn [negb]. exists f', b1, data1. split_and!; [done|done|]. intros Hs'. done.
Qed.

(** ** All compactions of a partition *)

Fixpoint write_others (xs : list bytes) (data : LogSink) : Status * LogSink :=
  match xs with
  | [] => (kOk, data)
  | x :: xs => let (st, data) := LogSink.Lwrite x data in if ok st then write_others xs data else (st, data)
  end.

(** No compaction is scheduled after one that failed.  The status is that of the
    other partitions. *)
Fixpoint compact_all (items : list Item) (dir : Compactor T) (data : LogSink) : option (Compactor T * LogSink * Status) :=
  match items with
  | [] => Some (dir, data, kOk)
  | (xs, (c, b)) :: items =>
      let (st, data) := write_others xs data in
      if ok st then
        let? (dir, data) := Compactor.write_memtable c b dir data in
        if Compactor.ok_ dir then compact_all items dir data else Some (dir, data, kOk)
      else Some (dir, data, st)
  end.

Definition others (xs : list bytes) : list PlfsBuilderRun.Op := OpOther <$> xs.
Definition epoch_end (c : Compaction) : list PlfsBuilderRun.Op :=
  if is_epoch_flush_ c && negb (is_final c) then [OpFinishEpoch (c_epoch c)] else [].

Definition item_ops (it : Item) (es : list entry) : list PlfsBuilderRun.Op := others it.1 ++ table_ops es ++ epoch_end it.2.1.

Fixpoint all_ops (items : list Item) (ess : list (list entry)) : list PlfsBuilderRun.Op :=
  match items, ess with it :: items, es :: ess => item_ops it es ++ all_ops items ess | _, _ => [] end.

(** The last compaction, with the given epoch, is the final one. *)
Inductive Ends : list Item -> Z -> Prop :=
  | Ends_one xs c b : is_final c = true -> is_epoch_flush_ c = true -> Ends [(xs, (c, b))] (c_epoch c)
  | Ends_cons it items ep : is_final it.2.1 = false -> Ends items ep -> Ends (it :: items) ep.

Lemma write_others_run xs (b : Builder) data : run (others xs) b data = let (st, data) := write_others xs data in Some (b, data, st).
Proof.
  revert data. induction xs as [|x xs IH]; intros data; [done|]. cbn [others fmap list_fmap run write_others]. destruct (LogSink.Lwrite x data) as [st data1]. destruct (ok st); [apply IH|done].
Qed.

(** A compaction that is not the final one is a run, too. *)
Lemma write_memtable_run c b es rest ep f (bu : Builder) data g s B E :
  is_final c = false -> Reads b es -> fresh o f -> FilterConf o -> filters_fit es -> Rest bu data g s B E ->
  Valid ((table_ops es ++ epoch_end c) ++ rest) ep s B E ->
  exists f' bu' data', Compactor.write_memtable c b (mkCompactor f bu) data = Some (mkCompactor f' bu', data')
    /\ run (table_ops es ++ epoch_end c) bu data = Some (bu', data', kOk) /\ (status_b bu' = kOk -> fresh o f').
Proof.
  intros Hfin HR Hf Hfc Hff HRs HV. unfold epoch_end in *. rewrite Hfin, <- app_assoc in *. rewrite andb_true_r in *.
  destruct (Compact_run b es _ ep f bu data g s B E HR Hf Hfc Hff HRs HV) as (f1 & b1 & data1 & E1 & E2 & Hf1).
  destruct (builder_run_spec o d Hcf Hag (table_ops es) _ ep s B E bu data g HRs HV) as (b1' & data1' & st & E2' & Hfinb & _ & _ & HR1). rewrite E2 in E2'. injection E2' as <- <- <-.
  unfold Compactor.write_memtable. rewrite E1, run_app, E2, Hfin, andb_false_r. change (ok kOk) with true. unfold Compactor.ok_. cbn [c_builder].
  destruct (is_epoch_flush_ c); [|destruct (ok (status_b b1)); by eexists _, _, _].
  destruct (decide (status_b b1 = kOk)) as [Est|Est].
  - rewrite (proj2 (ok_true _) Est). destruct (HR1 Est eq_refl) as (g1 & B1 & E1' & HRs1 & (Hok & HB & HE1 & HE2 & _)).
    destruct (step_spec o d Hcf Hag _ b1 data1 g1 _ _ _ HRs1 Hok HB HE1 HE2 ltac:(done)) as (b2 & data2 & E5 & _). cbn [PlfsBuilderRun.step] in E5.
    unfold Compactor.FinishEpoch. cbn [c_builder c_filter run]. rewrite E5. eexists _, _, _. split_and!; [done|done|]. intros _. by apply Hf1.
  - rewrite (proj2 (ok_false _) Est). cbn [run]. rewrite FinishEpoch_err by done. by eexists _, _, _.
Qed.

Lemma spec_run_app ops ops' s : spec_run o (ops ++ ops') s = spec_run o ops' (spec_run o ops s).
Proof. unfold spec_run. by rewrite fold_left_app. Qed.

Lemma spec_run_others xs s : spec_run o (others xs) s = s.
Proof. induction xs as [|x xs IH]; [done|]. exact IH. Qed.

Lemma others_spec xs rest ep (bu : Builder) data g s B E :
  Rest bu data g s B E -> Valid (others xs ++ rest) ep s B E ->
  exists st data', write_others xs data = (st, data') /\ (quiet data -> quiet (indx_sink_ bu) -> quiet data' /\ st = kOk)
    /\ (st = kOk -> exists g' B' E', Rest bu data' g' s B' E' /\ Valid rest ep s B' E').
Proof.
  intros HR HV. destruct (builder_run_spec o d Hcf Hag (others xs) rest ep s B E bu data g HR HV) as (b' & data' & st & E1 & _ & _ & Hq & HR'). rewrite write_others_run in E1.
  destruct (write_others xs data) as [st1 data1] eqn:Ew. injection E1 as <- <- <-. exists st1, data1. split; [done|]. rewrite spec_run_others in HR'. pose proof (i_core _ _ _ _ _ _ _ _ HR) as HC.
  split; [|intros Hs; apply HR'; [apply HC|done]]. intros Hqd Hqi. by destruct (Hq Hqd Hqi) as (? & _ & _ & ?).
Qed.

Definition Table (it : Item) (es : list entry) : Prop := Reads it.2.2 es /\ filters_fit es.

Lemma compact_all_spec items ep : Ends items ep -> forall ess f (bu : Builder) data g s B E,
  Forall2 Table items ess -> FilterConf o -> fresh o f -> Rest bu data g s B E -> Valid (all_ops items ess) ep s B E ->
  exists dir data' st, compact_all items (mkCompactor f bu) data = Some (dir, data', st)
    /\ (quiet data -> quiet (indx_sink_ bu) -> status_b (c_builder dir) = kOk /\ st = kOk)
    /\ (status_b (c_builder dir) = kOk -> st = kOk ->
        LogsAt o d (LogSink.file (indx_sink_ (c_builder dir))) (LogSink.file data') (spec_Finish ep (spec_run o (all_ops items ess) s))).
Proof.
  induction 1 as [xs c b Hfin Hfl|[xs [c b]] items ep Hfin HE IH]; intros ess f bu data g s B E HT Hfc Hf HRs HV;
    apply Forall2_cons_inv_l in HT as (es & ess' & [HR Hff] & HT & ->); cbn [all_ops] in HV |- *; unfold item_ops in HV |- *; cbn [fst snd] in *.
  - apply Forall2_nil_inv_l in HT as ->. cbn [all_ops] in HV |- *. unfold epoch_end in HV |- *. rewrite Hfin, Hfl in HV |- *. cbn [andb negb] in HV |- *. rewrite !app_nil_r in HV |- *. cbn [compact_all].
    destruct (others_spec xs _ _ bu data g s B E HRs HV) as (st0 & data0 & -> & Hq0 & HR0). destruct (decide (st0 = kOk)) as [->|Hst0].
    2: { rewrite (proj2 (ok_false _) Hst0). eexists _, _, _. split; [reflexivity|]. split; [|done]. intros Hqd Hqi. by destruct (Hq0 Hqd Hqi). }
    change (ok kOk) with true. cbn iota. destruct (HR0 eq_refl) as (g0 & B0 & E0 & HRs0 & HV0). rewrite <- (app_nil_r (table_ops es)) in HV0.
    destruct (Compact_run b es [] _ f bu data0 g0 s B0 E0 HR Hf Hfc Hff HRs0 HV0) as (f1 & b1 & data1 & E1 & E2 & _).
    destruct (builder_run_spec o d Hcf Hag (table_ops es) [] _ s B0 E0 bu data0 g0 HRs0 HV0) as (b1' & data1' & st & E2' & Hfinb & _ & Hq1 & HR1). rewrite E2 in E2'. injection E2' as <- <- <-.
    unfold Compactor.write_memtable. rewrite E1, Hfin, Hfl. unfold Compactor.ok_. cbn [c_builder andb]. rewrite spec_run_app, spec_run_others. destruct (decide (status_b b1 = kOk)) as [Est|Est].
    + rewrite (proj2 (ok_true _) Est). destruct (HR1 Est eq_refl) as (g1 & B1 & E1' & HRs1 & HV1).
      destruct (Finish_builder_spec o d Hcf Hag (c_epoch c) b1 data1 g1 _ _ _ HRs1 HV1) as (b2 & data2 & E3 & _ & Hq2 & HL). unfold Compactor.Finish. cbn [c_builder c_filter]. rewrite E3.
      exists (mkCompactor f1 b2), data2, kOk. cbn [c_builder]. split; [by destruct (ok (status_b b2))|]. split; [|by intros Hs _; apply HL]. intros Hqd Hqi.
      destruct (Hq0 Hqd Hqi) as [Hqd0 _]. destruct (Hq1 Hqd0 Hqi) as (? & ? & _). split; [by apply Hq2|done].
    + rewrite (proj2 (ok_false _) Est). cbn [c_builder]. rewrite (proj2 (ok_false _) Est). eexists _, _, _. split; [reflexivity|]. cbn [c_builder]. split; [|done]. intros Hqd Hqi.
      destruct (Hq0 Hqd Hqi) as [Hqd0 _]. by destruct (Hq1 Hqd0 Hqi) as (_ & _ & ? & _).
  - rewrite <- app_assoc in HV. cbn [compact_all].
    destruct (others_spec xs _ _ bu data g s B E HRs HV) as (st0 & data0 & -> & Hq0 & HR0). destruct (decide (st0 = kOk)) as [->|Hst0].
    2: { rewrite (proj2 (ok_false _) Hst0). eexists _, _, _. split; [reflexivity|]. split; [|done]. intros Hqd Hqi. by destruct (Hq0 Hqd Hqi). }
    change (ok kOk) with true. cbn iota. destruct (HR0 eq_refl) as (g0 & B0 & E0 & HRs0 & HV0).
    destruct (write_memtable_run c b es _ ep f bu data0 g0 s B0 E0 Hfin HR Hf Hfc Hff HRs0 HV0) as (f1 & b1 & data1 & -> & E2 & Hf1).
    destruct (builder_run_spec o d Hcf Hag (table_ops es ++ epoch_end c) _ _ s B0 E0 bu data0 g0 HRs0 HV0) as (b1' & data1' & st & E2' & Hfinb & _ & Hq1 & HR1). rewrite E2 in E2'. injection E2' as <- <- <-.
    unfold Compactor.ok_. cbn [c_builder]. destruct (decide (status_b b1 = kOk)) as [Est|Est].
    + rewrite (proj2 (ok_true _) Est). destruct (HR1 Est eq_refl) as (g1 & B1 & E1' & HRs1 & HV1).
      destruct (IH ess' f1 b1 data1 g1 _ B1 E1' HT Hfc (Hf1 Est) HRs1 HV1) as (dir & data2 & st & -> & Hq2 & HL). exists dir, data2, st. split; [done|]. split.
      * intros Hqd Hqi. destruct (Hq0 Hqd Hqi) as [Hqd0 _]. destruct (Hq1 Hqd0 Hqi) as (? & ? & _). by apply Hq2.
      * intros Hs Hst. specialize (HL Hs Hst). by rewrite <- app_assoc, spec_run_app, spec_run_others, spec_run_app.
    + rewrite (proj2 (ok_false _) Est). eexists _, _, _. split; [reflexivity|]. cbn [c_builder]. split; [|done]. intros Hqd Hqi.
      destruct (Hq0 Hqd Hqi) as [Hqd0 _]. by destruct (Hq1 Hqd0 Hqi) as (_ & _ & ? & _).
Qed.

End Compact.
