(* ===== verification/PlfsRound.v ===== *)
(** * Directories read as they were written by concurrent threads

    The compactions of a partition of a writer ([PlfsWriterProps]) make a valid run
    of the builder, so the logs they leave read back, epoch by epoch, as what the
    threads added. *)
From stdpp Require Import sorting.
From S2P Require Import Prelude Coding Status Gigaplus Filter FilterLemmas Cuckoo SstBlock SstBlockProps PlfsFormat PlfsLog PlfsLogLemmas PlfsBuilder PlfsReader PlfsBlocks PlfsReaderLemmas PlfsBuilderInv PlfsBuilderSpec PlfsBuilderAdd PlfsBuilderRun PlfsProps.
From S2P Require Import PlfsBuffer PlfsBufferProps PlfsWriter PlfsWriterInv PlfsWriterProps PlfsWriterDemo PlfsCompact XXHashImpl.

(** ** Sizes *)

Fixpoint entries_cost (es : list entry) : Z := match es with [] => 0 | e :: es => add_cost e.1 e.2 + entries_cost es end.

#[export] Instance entries_cost_proper : Proper ((≡ₚ) ==> (=)) entries_cost.
Proof. induction 1; cbn; lia. Qed.

Lemma add_cost_pos k v : 300 <= add_cost k v.
Proof. unfold add_cost. pose proof (zlen_nonneg k). pose proof (zlen_nonneg v). lia. Qed.

Lemma entries_cost_nonneg es : 0 <= entries_cost es.
Proof. induction es as [|e es IH]; cbn; [done|]. pose proof (add_cost_pos e.1 e.2). lia. Qed.

(** What the entries of a buffer cost, from the sizes of the buffer. *)
Lemma entries_cost_enc es : Forall entry_ok es -> entries_cost es <= 7 * zlen (concat (enc <$> es)) + 300 * zlen es.
Proof.
  induction 1 as [|e es (_ & H1 & H2) _ IH]; [done|]. cbn [entries_cost fmap list_fmap concat]. rewrite zlen_app, zlen_cons. unfold enc at 1, PutLengthPrefixedSlice, add_cost.
  rewrite !zlen_app. pose proof (zlen_nonneg e.1). pose proof (zlen_nonneg e.2). pose proof (zlen_nonneg (EncodeVarint32 (u32 (zlen e.1)))). pose proof (zlen_nonneg (EncodeVarint32 (u32 (zlen e.2)))). lia.
Qed.

Section Round.
Context `{Snappy} `{XXHash} `{StdSort} (o : DirOptions) {T : Type} `{!DataBlock T} `{!DataBlockLaws o T}.
Context (Hcf : Config o) (Hmode : mode o <> kDmUniqueDrop) (Hfc : FilterConf o).
Local Abbreviation Valid := (Valid o (T := T)).
Local Abbreviation unordered := (IsKeyUnOrdered (mode o)).

(** ** Adding the entries of a table *)

Definition puts (es : list entry) (s : Spec) : Spec := mkSpec (s_eps s) (s_epoch s) (s_table s ++ es) (s_tabs s) (s_next s).

Lemma spec_Add_put k v s : spec_Add o k v s = puts [(k, v)] s.
Proof. unfold spec_Add. by rewrite bool_decide_eq_false_2. Qed.

Lemma spec_run_adds es s : spec_run o (adds es) s = puts es s.
Proof.
  revert s. induction es as [|[k v] es IH]; intros s; [unfold puts; rewrite app_nil_r; by destruct s|]. cbn [adds fmap list_fmap]. unfold spec_run. cbn [fold_left spec_op fst snd].
  change (spec_run o (adds es) (spec_Add o k v s) = puts ((k, v) :: es) s). rewrite IH, spec_Add_put. unfold puts. cbn. by rewrite <- app_assoc.
Qed.

Definition good_entry (e : entry) : Prop := e.1 <> [] /\ bytes_ok e.1 /\ bytes_ok e.2 /\ db_takes (T := T) e.1 e.2.

(** The entries can be added in this order. *)
Record AddsOk (es : list entry) (s : Spec) : Prop := {
  as_good : Forall good_entry es; as_next : s_next s <= kMaxEpochNo;
  as_sorted : unordered = false -> sorted (s_table s ++ es);
  as_unique : mode o = kDmUniqueKey -> NoDup (s_epoch s ++ s_table s ++ es).*1 }.

Lemma AddsOk_cons k v es s : AddsOk ((k, v) :: es) s -> AddOk o (T := T) k v s /\ AddsOk es (puts [(k, v)] s).
Proof.
  intros [A1 A2 A3 A4]. apply Forall_cons in A1 as [(Hk & Hb1 & Hb2 & Ht) A1]. split; [constructor; try done|constructor; cbn; try done].
  - intros Hu. specialize (A3 Hu). destruct (decide (s_table s = [])) as [?|Hne]; [by left|right].
    apply (last_of_forall (fun x => sle x k = true)); [done|]. apply Forall_forall. intros e He. apply (StronglySorted_app_1_elem_of _ _ _ e (k, v) A3); [done|by left].
  - intros Hu Hin. specialize (A4 Hu). rewrite app_assoc, fmap_app in A4. apply NoDup_app in A4 as (_ & Hd & _). by apply (Hd k Hin); left.
  - intros Hu. specialize (A3 Hu). by rewrite <- app_assoc.
  - intros Hu. specialize (A4 Hu). by rewrite <- !app_assoc.
Qed.

Lemma Valid_adds es rest ep s B E :
  AddsOk es s -> B + entries_cost es + zlen es * block_size o < 2 ^ 62 -> E + entries_cost es + 600 < 2 ^ 31 ->
  Valid rest ep (puts es s) (B + entries_cost es + zlen es * block_size o) (E + entries_cost es) -> Valid (adds es ++ rest) ep s B E.
Proof.
  pose proof (cf_block _ Hcf) as Hbs. revert s B E. induction es as [|[k v] es IH]; intros s B E Hok HB HE HV.
  { replace (puts [] s) with s in HV by (unfold puts; rewrite app_nil_r; by destruct s). change (zlen []) with 0 in HV. cbn [entries_cost] in HV.
    replace (B + 0 + 0 * block_size o) with B in HV by lia. by replace (E + 0) with E in HV by lia. }
  destruct (AddsOk_cons k v es s Hok) as [Hadd Hok']. cbn [entries_cost fst snd] in *. rewrite zlen_cons in *. pose proof (entries_cost_nonneg es). pose proof (add_cost_pos k v). pose proof (zlen_nonneg es).
  cbn [adds fmap list_fmap app]. change ((fun e => OpAdd e.1 e.2) <$> es) with (adds es). cbn [PlfsBuilderRun.Valid PlfsBuilderRun.op_ok cost epoch_cost spec_op fst snd]. rewrite spec_Add_put.
  split_and!; try done; try nia. apply IH; try done; [nia|lia|].
  replace (B + (add_cost k v + block_size o) + entries_cost es + zlen es * block_size o) with (B + (add_cost k v + entries_cost es) + (1 + zlen es) * block_size o) by lia.
  replace (E + add_cost k v + entries_cost es) with (E + (add_cost k v + entries_cost es)) by lia. replace (puts es (puts [(k, v)] s)) with (puts ((k, v) :: es) s); [done|]. unfold puts. cbn. by rewrite <- app_assoc.
Qed.

(** ** The compactions are a valid run *)

Fixpoint others_cost (xs : list bytes) : Z := match xs with [] => 0 | x :: xs => zlen x + others_cost xs end.
Definition buf_cost (b : WriteBuffer) : Z := 7 * zlen (wb_buffer b) + 300 * wb_num_entries b.

(** The sizes of a directory within the limits of its format: [tabs] tables and [E]
    bytes of index in the epoch, [B] bytes in the logs. *)
Fixpoint fits (items : list Item) (tabs B E : Z) : bool :=
  match items with
  | [] => B + 2 ^ 22 + index_buffer o <? 2 ^ 62
  | (xs, (c, b)) :: items =>
      let B' := B + others_cost xs + buf_cost b + wb_num_entries b * block_size o + 2 ^ 30 + 1000 in
      let E' := E + buf_cost b + 300 in
      (E' + 1000 <? 2 ^ 31) && (tabs + 2 <? kMaxTableNo) && (c_epoch c <=? kMaxEpochNo) && (wb_num_entries b * bf_bits_per_key o <=? 2 ^ 32 - 8)
      && (if is_epoch_flush_ c then fits items 0 B' 0 else fits items (tabs + 1) B' E')
  end.

Lemma others_cost_nonneg xs : 0 <= others_cost xs.
Proof. induction xs as [|x xs IH]; cbn; [done|]. pose proof (zlen_nonneg x). lia. Qed.

Definition padded (xs : list bytes) : Prop := block_padding o = true -> Forall (fun x => (block_size o | zlen x)) xs.

Lemma Valid_others xs rest ep s B E :
  padded xs -> B + others_cost xs < 2 ^ 62 -> E + 600 < 2 ^ 31 -> Valid rest ep s (B + others_cost xs) E -> Valid (others xs ++ rest) ep s B E.
Proof.
  revert B. induction xs as [|x xs IH]; intros B Hp HB HE HV; [cbn in HV |- *; by rewrite Z.add_0_r in HV|]. cbn [others_cost] in *. pose proof (others_cost_nonneg xs).
  cbn [others fmap list_fmap app]. change (OpOther <$> xs) with (others xs). cbn [PlfsBuilderRun.Valid PlfsBuilderRun.op_ok cost epoch_cost spec_op].
  split_and!; try lia; [intros Hpad; by destruct (proj1 (Forall_cons _ _ _) (Hp Hpad))|]. apply IH; [intros Hpad; by destruct (proj1 (Forall_cons _ _ _) (Hp Hpad))|lia|done|by rewrite <- Z.add_assoc].
Qed.

(** A table has been written. *)
Definition put_table (es : list entry) (s : Spec) : Spec := spec_EndTable (puts es s).

Lemma put_table_fields es s : s_table s = [] ->
  s_table (put_table es s) = [] /\ s_next (put_table es s) = s_next s /\ s_epoch (put_table es s) = s_epoch s ++ es /\ s_eps (put_table es s) = s_eps s
  /\ s_tabs (put_table es s) = (if decide (es = []) then s_tabs s else s_tabs s + 1).
Proof.
  intros Ht. unfold put_table, spec_EndTable, puts. cbn. rewrite Ht. cbn. destruct es as [|e es]; cbn; [by rewrite app_nil_r|done].
Qed.

Lemma Valid_table es rest ep s B E :
  s_table s = [] -> AddsOk es s -> filters_fit o es -> s_tabs s < kMaxTableNo ->
  B + entries_cost es + zlen es * block_size o + 2 ^ 30 + 300 < 2 ^ 62 -> E + entries_cost es + 600 < 2 ^ 31 ->
  (forall B', B' <= B + entries_cost es + zlen es * block_size o + 2 ^ 30 + 300 -> Valid rest ep (put_table es s) B' (E + entries_cost es + 300)) ->
  Valid (table_ops o es ++ rest) ep s B E.
Proof.
  intros Ht Hok Hff Htab HB HE HV. unfold table_ops. rewrite <- app_assoc. apply Valid_adds; try done; [lia|].
  destruct (filter_run o es.*1 Hfc) as (fe & fc & f2 & Ea & Efin & _ & Hz & Hgood); [by rewrite zlen_fmap|]. rewrite zlen_fmap in Ea.
  assert (Ete : table_end o es = OpEndTable fc (FilterBlock.chunk_type f2)) by (unfold table_end, table_filter; by rewrite Ea, Efin). rewrite Ete.
  pose proof (zlen_nonneg fc). cbn [app PlfsBuilderRun.Valid PlfsBuilderRun.op_ok cost epoch_cost spec_op]. split; [split; [|done]|split_and!; [lia..|]].
  - destruct Hgood as [?|[Hb Hg]]; [by left|right]. split; [done|]. apply Hg. unfold puts. cbn. by rewrite Ht.
  - apply HV. lia.
Qed.

(** The compactions with the entries their buffers give. *)
Definition tables (items : list Item) (ess : list (list entry)) : list (Compaction * list entry) := zip_with (fun it es => (it.2.1, es)) items ess.

Record TableOk (it : Item) (es : list entry) : Prop := {
  to_reads : Reads it.2.2 es; to_good : Forall good_entry es; to_sorted : unordered = false -> sorted es;
  to_cost : entries_cost es <= buf_cost it.2.2; to_padded : padded it.1 }.

(** The first epoch to end has the entries collected so far. *)
Lemma collect_head items ep : Ends items ep -> forall ess acc, length ess = length items -> exists m l, (collect (tables items ess) acc).1 = (acc ++ m) :: l.
Proof.
  induction 1 as [xs c b Hfin Hfl|it items ep Hfin _ IH]; intros [|es ess] acc Hl; try done; cbn [tables zip_with collect].
  - cbn [fst snd]. rewrite Hfl. by eexists _, _.
  - cbn in Hl. destruct (is_epoch_flush_ it.2.1); [destruct (collect (zip_with _ _ _) []) as [l rest]; by eexists _, _|].
    destruct (IH ess (acc ++ es) ltac:(lia)) as (m & l & E). exists (es ++ m), l. by rewrite app_assoc.
Qed.

Lemma fits_bound items tabs B E : fits items tabs B E = true -> Forall (fun it => 0 <= wb_num_entries it.2.2) items -> B + 2 ^ 22 + index_buffer o < 2 ^ 62.
Proof.
  pose proof (cf_block _ Hcf). revert tabs B E. induction items as [|[xs [c b]] items IH]; intros tabs B E Hf Hn; cbn [fits] in Hf; [by apply Z.ltb_lt|].
  apply Forall_cons in Hn as [Hn0 Hn]. cbn in Hn0. apply andb_prop in Hf as [_ Hf]. pose proof (others_cost_nonneg xs). pose proof (zlen_nonneg (wb_buffer b)). unfold buf_cost in *.
  destruct (is_epoch_flush_ c); specialize (IH _ _ _ Hf Hn); nia.
Qed.

(** What the buffers of the writer satisfy, at a state of the specification. *)
Record Start (items : list Item) (ess : list (list entry)) (s : Spec) (tabs : Z) : Prop := {
  st_tables : Forall2 TableOk items ess; st_tags : tagged (s_next s) (tables items ess);
  st_unique : mode o = kDmUniqueKey -> Forall (fun es => NoDup es.*1) (collect (tables items ess) (s_epoch s)).1;
  st_table : s_table s = []; st_tabs : 0 <= s_tabs s <= tabs; st_empty : s_tabs s = 0 <-> s_epoch s = [] }.

Lemma Start_count items ess s tabs : Start items ess s tabs -> Forall (fun it => 0 <= wb_num_entries it.2.2) items.
Proof. intros [HT _ _ _ _ _]. induction HT as [|it es items ess HT _ IH]; constructor; [|done]. rewrite (re_num _ _ (to_reads _ _ HT)). apply zlen_nonneg. Qed.

Lemma Start_adds xs c b items ep es ess s tabs :
  Ends ((xs, (c, b)) :: items) ep -> Start ((xs, (c, b)) :: items) (es :: ess) s tabs -> c_epoch c <= kMaxEpochNo -> AddsOk es s.
Proof.
  intros HEnds [HT [Htag _] Huniq Ht _ _] Hep. apply Forall2_cons in HT as [[HR Hgood Hsort _ _] HT]. cbn [fst snd] in *. constructor; [done|lia|by rewrite Ht|].
  intros Hu. specialize (Huniq Hu). rewrite Ht. cbn [app tables zip_with collect fst snd] in *.
  assert (Hh : exists m l, (if is_epoch_flush_ c then let (l, rest) := collect (tables items ess) [] in ((s_epoch s ++ es) :: l, rest) else collect (tables items ess) (s_epoch s ++ es)).1 = ((s_epoch s ++ es) ++ m) :: l).
  { destruct (is_epoch_flush_ c) eqn:Efl; [destruct (collect _ _) as [l r]; exists [], l; by rewrite app_nil_r|]. inversion HEnds as [? ? ? Hfin Hfl|? ? ? Hfin HE']; subst; [congruence|].
    apply (collect_head items ep); [done|]. symmetry. by eapply Forall2_length. }
  destruct Hh as (m & l & Eh). unfold tables in Eh. rewrite Eh in Huniq. apply Forall_cons in Huniq as [Hd _]. rewrite fmap_app in Hd. by apply NoDup_app in Hd as [? _].
Qed.

Lemma fits_cons xs c b items tabs B E : fits ((xs, (c, b)) :: items) tabs B E = true ->
  E + buf_cost b + 300 + 1000 < 2 ^ 31 /\ tabs + 2 < kMaxTableNo /\ c_epoch c <= kMaxEpochNo /\ wb_num_entries b * bf_bits_per_key o <= 2 ^ 32 - 8
  /\ (if is_epoch_flush_ c then fits items 0 (B + others_cost xs + buf_cost b + wb_num_entries b * block_size o + 2 ^ 30 + 1000) 0
      else fits items (tabs + 1) (B + others_cost xs + buf_cost b + wb_num_entries b * block_size o + 2 ^ 30 + 1000) (E + buf_cost b + 300)) = true.
Proof. cbn [fits]. rewrite !andb_true_iff, !Z.ltb_lt, !Z.leb_le. tauto. Qed.

Lemma fits_tables items ess tabs B E : fits items tabs B E = true -> Forall2 TableOk items ess -> Forall2 (Table o) items ess.
Proof.
  intros Hf HT. revert tabs B E Hf. induction HT as [|[xs [c b]] es items ess HT _ IH]; intros tabs B E Hf; constructor.
  - destruct (fits_cons _ _ _ _ _ _ _ Hf) as (_ & _ & _ & Hb & _). pose proof (to_reads _ _ HT) as HR. split; [done|]. unfold filters_fit. by rewrite <- (re_num _ _ HR).
  - destruct (fits_cons _ _ _ _ _ _ _ Hf) as (_ & _ & _ & _ & Hf'). destruct (is_epoch_flush_ c); by eapply IH.
Qed.

(** One compaction of the run. *)
Lemma item_valid xs c b items ep es ess s tabs B0 E0 B E rest :
  Ends ((xs, (c, b)) :: items) ep -> Start ((xs, (c, b)) :: items) (es :: ess) s tabs -> fits ((xs, (c, b)) :: items) tabs B E = true -> B0 <= B -> E0 <= E ->
  (forall B', B' <= B + others_cost xs + buf_cost b + wb_num_entries b * block_size o + 2 ^ 30 + 300 -> Valid rest ep (put_table es s) B' (E0 + entries_cost es + 300)) ->
  Valid (others xs ++ table_ops o es ++ rest) ep s B0 E0.
Proof.
  intros HEnds HS Hf HB HE Hrest. pose proof (cf_block _ Hcf) as Hbs. pose proof (cf_buffer _ Hcf) as Hib. pose proof (Start_count _ _ _ _ HS) as Hn. apply Forall_cons in Hn as [_ Hn].
  destruct (fits_cons _ _ _ _ _ _ _ Hf) as (HE1 & Htb & Hep & Hbits & Hf'). pose proof (Start_adds _ _ _ _ _ _ _ _ _ HEnds HS Hep) as Hadds.
  destruct HS as [HT _ _ Ht Htabs _]. apply Forall2_cons in HT as [[HR _ _ Hcost Hpad] _]. cbn [fst snd] in *.
  assert (HBB : B + others_cost xs + buf_cost b + wb_num_entries b * block_size o + 2 ^ 30 + 1000 + 2 ^ 22 + index_buffer o < 2 ^ 62) by (destruct (is_epoch_flush_ c); exact (fits_bound _ _ _ _ Hf' Hn)).
  pose proof (entries_cost_nonneg es). pose proof (zlen_nonneg es). pose proof (others_cost_nonneg xs). rewrite (re_num _ _ HR) in *.
  apply Valid_others; [done|nia|lia|]. apply Valid_table; try done; try lia. intros B' HB'. apply Hrest. lia.
Qed.

Lemma put_table_empty es s : s_table s = [] -> 0 <= s_tabs s -> (s_tabs s = 0 <-> s_epoch s = []) -> (s_tabs (put_table es s) = 0 <-> s_epoch (put_table es s) = []).
Proof.
  intros Ht Hz He. destruct (put_table_fields es s Ht) as (_ & _ & -> & _ & ->). destruct (decide (es = [])) as [->|Hne]; [by rewrite app_nil_r|]. split; [lia|]. intros [_ ?]%app_eq_nil. done.
Qed.

(** The end of the current epoch. *)
Lemma spec_FinishEpoch_fields s : s_table s = [] -> (s_tabs s = 0 <-> s_epoch s = []) ->
  let s' := spec_FinishEpoch (s_next s) s in
  s_table s' = [] /\ s_next s' = s_next s + 1 /\ s_epoch s' = [] /\ s_tabs s' = 0 /\ s_eps s' = s_eps s ++ (if decide (s_epoch s = []) then [] else [(s_next s, s_epoch s)]).
Proof.
  intros Ht He. unfold spec_FinishEpoch. rewrite Z.ltb_irrefl. assert (Es : spec_EndTable s = s) by (unfold spec_EndTable; by rewrite Ht). rewrite Es.
  destruct (Z.eqb_spec (s_tabs s) 0) as [E0|E0]; cbn; rewrite ?Ht.
  - rewrite decide_True by (by apply He). rewrite app_nil_r. split_and!; try done. by apply He.
  - rewrite decide_False by (by intros ?%He). done.
Qed.

(** A compaction that is not the final one. *)
Definition after (c : Compaction) (es : list entry) (s : Spec) : Spec :=
  if is_epoch_flush_ c then spec_FinishEpoch (c_epoch c) (put_table es s) else put_table es s.

Lemma after_epoch xs c b items es ess s tabs : Start ((xs, (c, b)) :: items) (es :: ess) s tabs ->
  s_epoch (after c es s) = if is_epoch_flush_ c then [] else s_epoch s ++ es.
Proof.
  intros [_ [Htag _] _ Ht Htabs He]. destruct (put_table_fields es s Ht) as (P1 & P2 & P3 & _). cbn in Htag. unfold after. destruct (is_epoch_flush_ c); [|done]. rewrite Htag, <- P2.
  apply spec_FinishEpoch_fields; [done|]. apply put_table_empty; try done. lia.
Qed.

Lemma Start_after xs c b items es ess s tabs : Start ((xs, (c, b)) :: items) (es :: ess) s tabs ->
  Start items ess (after c es s) (if is_epoch_flush_ c then 0 else tabs + 1).
Proof.
  intros HS. pose proof (after_epoch _ _ _ _ _ _ _ _ HS) as Hae. destruct HS as [HT [Htag Htags] Hu Ht Htabs He]. apply Forall2_cons in HT as [_ HT].
  destruct (put_table_fields es s Ht) as (P1 & P2 & P3 & P4 & P5). pose proof (put_table_empty es s Ht ltac:(lia) He) as He'. cbn [fst snd tables zip_with collect] in *.
  assert (Hn : s_table (after c es s) = [] /\ s_next (after c es s) = (if is_epoch_flush_ c then s_next s + 1 else s_next s)
    /\ 0 <= s_tabs (after c es s) <= (if is_epoch_flush_ c then 0 else tabs + 1) /\ (s_tabs (after c es s) = 0 <-> s_epoch (after c es s) = [])).
  { unfold after. destruct (is_epoch_flush_ c); [|split_and!; try done; rewrite P5; destruct (decide (es = [])); lia]. rewrite Htag, <- P2.
    destruct (spec_FinishEpoch_fields (put_table es s) P1 He') as (F1 & F2 & F3 & F4 & _). cbn zeta in *. rewrite F2, F3, F4. split_and!; done || lia. }
  destruct Hn as (N1 & N2 & N3 & N4). constructor; try done; [by rewrite N2|]. intros Hm. specialize (Hu Hm). rewrite Hae. unfold tables.
  destruct (is_epoch_flush_ c); [|done]. destruct (collect _ []) as [l r]. by apply Forall_cons in Hu as [_ ?].
Qed.

(** All compactions up to the final one make a valid run. *)
Lemma all_valid items ep : Ends items ep -> forall ess s B0 E0 tabs B E,
  fits items tabs B E = true -> Start items ess s tabs -> B0 <= B -> E0 <= E -> Valid (all_ops o items ess) ep s B0 E0.
Proof.
  pose proof (cf_buffer _ Hcf) as Hib.
  induction 1 as [xs c b Hfin Hfl|[xs [c b]] items ep Hfin HEnds IH]; intros ess s B0 E0 tabs B E Hf HS HB HE; pose proof (st_tables _ _ _ _ HS) as HT;
    apply Forall2_cons_inv_l in HT as (es & ess' & HT0 & HT & ->); cbn [all_ops]; unfold item_ops; cbn [fst snd] in *; rewrite <- !app_assoc;
    destruct (fits_cons _ _ _ _ _ _ _ Hf) as (HE1 & Htb & Hep & Hbits & Hf'); destruct (put_table_fields es s (st_table _ _ _ _ HS)) as (P1 & P2 & P3 & P4 & P5);
    pose proof (st_tabs _ _ _ _ HS) as Htabs; pose proof (to_cost _ _ HT0) as Hcost; cbn [fst snd] in Hcost;
    assert (Ht2 : s_tabs (put_table es s) <= tabs + 1) by (rewrite P5; destruct (decide (es = [])); lia).
  - apply (item_valid _ c b [] _ _ [] _ tabs _ _ B E); try done; [by constructor|by apply Forall2_nil_inv_l in HT as ->|]. intros B' HB'. rewrite Hfl in Hf'. cbn [fits] in Hf'. apply Z.ltb_lt in Hf'.
    unfold epoch_end. rewrite Hfl, Hfin. cbn [andb negb app]. apply Forall2_nil_inv_l in HT as ->. cbn [all_ops PlfsBuilderRun.Valid]. split_and!; [done|lia..].
  - apply (item_valid _ c b items _ _ ess' _ tabs _ _ B E); try done; [by constructor|]. intros B' HB'. pose proof (Start_after _ _ _ _ _ _ _ _ HS) as HS'. destruct (st_tags _ _ _ _ HS) as [Htag _]. cbn [fst snd] in Htag.
    pose proof (Start_count _ _ _ _ HS) as Hn. apply Forall_cons in Hn as [_ Hn]. unfold epoch_end, after in *. rewrite Hfin, andb_true_r. destruct (is_epoch_flush_ c); [|cbn [app]; eapply IH; [exact Hf'|done|lia|lia]].
    pose proof (fits_bound _ _ _ _ Hf' Hn) as HBB. cbn [app PlfsBuilderRun.Valid PlfsBuilderRun.op_ok cost epoch_cost spec_op]. unfold spec_budget. replace (c_epoch c <? s_next (put_table es s)) with false by (rewrite P2, Htag; symmetry; apply Z.ltb_irrefl).
    split; [split; lia|]. split_and!; [lia..|]. eapply IH; [exact Hf'|done|lia|lia].
Qed.

(** ** What the run stores *)

Lemma spec_run_table es s : spec_run o (table_ops o es) s = put_table es s.
Proof. unfold table_ops. rewrite spec_run_app, spec_run_adds. unfold table_end. by destruct (table_filter o es) as [[fc f]|]. Qed.

Lemma spec_entries_snoc eps k es e : Forall (fun x => x.1 < k) eps -> spec_entries (eps ++ [(k, es)]) e = if e =? k then es else spec_entries eps e.
Proof.
  induction 1 as [|[k' es'] eps Hk _ IH]; cbn; [done|]. cbn in Hk. destruct (Z.eqb_spec e k') as [->|]; [|done]. by destruct (Z.eqb_spec k' k); [lia|].
Qed.

(** [l] lists the entries of the epochs that have ended. *)
Record SpecAt (s : Spec) (l : list (list entry)) : Prop := {
  sa_next : s_next s = zlen l; sa_below : Forall (fun x => x.1 < s_next s) (s_eps s);
  sa_entries : forall e, 0 <= e -> spec_entries (s_eps s) e = default [] (l !! Z.to_nat e) }.

Lemma SpecAt_New : SpecAt spec_New [].
Proof. by constructor. Qed.

Lemma SpecAt_put es s l : s_table s = [] -> SpecAt s l -> SpecAt (put_table es s) l.
Proof. intros Ht []. destruct (put_table_fields es s Ht) as (_ & E1 & _ & E2 & _). constructor; by rewrite ?E1, ?E2. Qed.

Lemma default_snoc {A} (l : list (list A)) x i : default [] ((l ++ [x]) !! i) = if decide (i = length l) then x else default [] (l !! i).
Proof.
  destruct (decide (i = length l)) as [->|Hi]; [by rewrite list_lookup_middle|]. destruct (decide (i < length l)%nat); [by rewrite lookup_app_l|].
  rewrite !(lookup_ge_None_2 _ i); [done|lia|rewrite length_app; cbn; lia].
Qed.

Lemma SpecAt_epoch s l : s_table s = [] -> (s_tabs s = 0 <-> s_epoch s = []) -> SpecAt s l -> SpecAt (spec_FinishEpoch (s_next s) s) (l ++ [s_epoch s]).
Proof.
  intros Ht He [A1 A2 A3]. destruct (spec_FinishEpoch_fields s Ht He) as (_ & E1 & _ & _ & E2). cbn zeta in *. constructor; rewrite ?E1, ?E2.
  - rewrite zlen_app, A1. done.
  - apply Forall_app. split; [eapply Forall_impl; [exact A2|]; cbn; lia|]. destruct (decide _); repeat constructor. cbn. lia.
  - intros e He0. rewrite default_snoc, <- A3 by done. assert (Hee : (e =? s_next s) = bool_decide (Z.to_nat e = length l)).
    { rewrite A1. unfold zlen. case_bool_decide; destruct (Z.eqb_spec e (Z.of_nat (length l))); lia || done. }
    destruct (decide (s_epoch s = [])) as [Ee|Ee].
    + rewrite app_nil_r. destruct (decide (Z.to_nat e = length l)) as [El|]; [|done]. by rewrite A3, El, lookup_ge_None_2, Ee.
    + rewrite spec_entries_snoc by done. rewrite Hee. case_bool_decide; by destruct (decide _).
Qed.

(** A specification that stores the epochs [l]. *)
Definition Stores (s : Spec) (l : list (list entry)) : Prop :=
  (forall e, 0 <= e -> spec_entries (s_eps s) e = default [] (l !! Z.to_nat e)) /\ s_next s <= zlen l /\ forall e, s_next s <= e -> 0 <= e -> default [] (l !! Z.to_nat e) = [].

Lemma SpecAt_Stores s l : SpecAt s l -> Stores s l.
Proof. intros [A1 _ A3]. split_and!; [done|lia|]. intros e He _. rewrite lookup_ge_None_2; [done|]. unfold zlen in A1. lia. Qed.

Lemma SpecAt_after xs c b items es ess s tabs l : Start ((xs, (c, b)) :: items) (es :: ess) s tabs -> SpecAt s l ->
  SpecAt (after c es s) (if is_epoch_flush_ c then l ++ [s_epoch s ++ es] else l).
Proof.
  intros [_ [Htag _] _ Ht Htabs He] HA. destruct (put_table_fields es s Ht) as (P1 & P2 & P3 & _). cbn in Htag. pose proof (SpecAt_put es s l Ht HA) as HP. unfold after.
  destruct (is_epoch_flush_ c); [|done]. rewrite Htag, <- P2, <- P3. apply SpecAt_epoch; try done. apply put_table_empty; try done. lia.
Qed.

(** The end of the directory: an epoch without entries is not written. *)
Lemma Stores_Finish s l : s_table s = [] -> (s_tabs s = 0 <-> s_epoch s = []) -> SpecAt s l -> Stores (spec_Finish (s_next s) s) (l ++ [s_epoch s]).
Proof.
  intros Ht He HA. unfold spec_Finish. rewrite Z.ltb_irrefl. assert (Es : spec_EndTable s = s) by (unfold spec_EndTable; by rewrite Ht). rewrite Es.
  destruct (Z.eqb_spec (s_tabs s) 0) as [E0|E0]; [|by apply SpecAt_Stores, SpecAt_epoch]. apply He in E0 as ->. destruct (SpecAt_Stores _ _ HA) as (S1 & S2 & S3). split_and!.
  - intros e He0. rewrite default_snoc, S1 by done. destruct (decide (Z.to_nat e = length l)) as [El|]; [by rewrite El, lookup_ge_None_2|done].
  - rewrite zlen_app. pose proof (zlen_nonneg [@nil entry]). lia.
  - intros e E1 E2. rewrite default_snoc, S3 by done. by destruct (decide (Z.to_nat e = length l)).
Qed.

Lemma all_spec items ep : Ends items ep -> forall ess s l tabs, Start items ess s tabs -> SpecAt s l ->
  Stores (spec_Finish ep (spec_run o (all_ops o items ess) s)) (l ++ (collect (tables items ess) (s_epoch s)).1).
Proof.
  induction 1 as [xs c b Hfin Hfl|[xs [c b]] items ep Hfin HEnds IH]; intros ess s l tabs HS HA; pose proof (st_tables _ _ _ _ HS) as HT;
    apply Forall2_cons_inv_l in HT as (es & ess' & _ & HT & ->); cbn [all_ops]; unfold item_ops; cbn [fst snd] in *; rewrite !spec_run_app, spec_run_others, spec_run_table.
  - apply Forall2_nil_inv_l in HT as ->. unfold epoch_end. rewrite Hfin, Hfl. cbn [andb negb tables zip_with collect fst snd all_ops]. rewrite Hfl. cbn [fst].
    destruct HS as [_ [Htag _] _ Ht Htabs He]. destruct (put_table_fields es s Ht) as (P1 & P2 & P3 & _). cbn in Htag. rewrite Htag, <- P2, <- P3.
    apply Stores_Finish; [done| |by apply SpecAt_put]. apply put_table_empty; try done. lia.
  - pose proof (IH ess' _ _ _ (Start_after _ _ _ _ _ _ _ _ HS) (SpecAt_after _ _ _ _ _ _ _ _ _ HS HA)) as HG. rewrite (after_epoch _ _ _ _ _ _ _ _ HS) in HG.
    unfold epoch_end, after in *. rewrite Hfin, andb_true_r. cbn [tables zip_with collect fst snd]. fold (tables items ess'). destruct (is_epoch_flush_ c); [|done].
    destruct (collect (tables items ess') []) as [lc r]. cbn [fst] in *. by rewrite <- app_assoc in HG.
Qed.

(** ** From the writer to the reader *)

Lemma collect_perm a b acc acc' : Forall2 (fun x y => x.1 = y.1 /\ x.2 ≡ₚ y.2) a b -> acc ≡ₚ acc' -> Forall2 (≡ₚ) (collect a acc).1 (collect b acc').1.
Proof.
  intros HF. revert acc acc'. induction HF as [|[c es] [c' es'] a b [Ec Ep] _ IH]; intros acc acc' Hacc; [constructor|]. cbn in *. subst c'. destruct (is_epoch_flush_ c); [|apply IH; by rewrite Hacc, Ep].
  specialize (IH [] [] (reflexivity _)). destruct (collect a []), (collect b []). constructor; [by rewrite Hacc, Ep|done].
Qed.

Lemma tagged_perm k a b : Forall2 (fun x y => x.1 = y.1 /\ x.2 ≡ₚ y.2) a b -> tagged k b -> tagged k a.
Proof. intros HF. revert k. induction HF as [|[c es] [c' es'] a b [Ec _] _ IH]; intros k; [done|]. cbn in *. subst c'. intros [? ?]. split; [done|by apply IH]. Qed.

(** The compactions with the writes of others before each. *)
Definition with_others (xss : list (list bytes)) (calls : list (Compaction * WriteBuffer * Status)) : list Item := zip_with (fun xs call => (xs, call.1)) xss calls.

Lemma with_others_Ends xss cls css skip : length xss = length cls -> Forall2 (fun call ce => call.1.1 = ce.1 /\ Sealed skip call.1.2 ce.2) cls css -> finals css true ->
  exists ep, Ends (with_others xss cls) ep.
Proof.
  intros Hl HF (cs0 & c & es & -> & Hfin & Hfl & Hno). revert xss cls Hl HF Hno. induction cs0 as [|ce cs0 IH]; intros xss cls Hl HF Hno;
    apply Forall2_cons_inv_r in HF as ([[c' b] st] & cls' & [E1 _] & HF & ->); (destruct xss as [|xs xss]; [done|]); cbn in E1 |- *.
  - apply Forall2_nil_inv_r in HF as ->. destruct xss; [|done]. cbn. subst c'. exists (c_epoch c). by constructor.
  - apply Forall_cons in Hno as [Hf0 Hno]. destruct (IH xss cls' ltac:(cbn in Hl; lia) HF Hno) as [ep HE]. exists ep. constructor; [cbn; by rewrite E1|done].
Qed.

(** The entries that the iterators of the buffers give. *)
Lemma with_others_tables xss cls css skip :
  (skip = false \/ unordered = true) -> length xss = length cls -> Forall padded xss -> Forall (Forall good_entry) (snd <$> css) ->
  Forall2 (fun call ce => call.1.1 = ce.1 /\ Sealed skip call.1.2 ce.2) cls css ->
  exists ess, Forall2 TableOk (with_others xss cls) ess /\ Forall2 (fun x y => x.1 = y.1 /\ x.2 ≡ₚ y.2) (tables (with_others xss cls) ess) css.
Proof.
  intros Hskip Hl Hpad Hgood HF. revert xss Hl Hpad Hgood. induction HF as [|[[c b] st] [c' es] cls css [E1 Hs] _ IH]; intros [|xs xss] Hl Hpad Hgood; try done; [by exists []|].
  apply Forall_cons in Hpad as [Hp Hpad]. cbn in Hgood. apply Forall_cons in Hgood as [Hg Hgood]. cbn in E1, Hs. subst c'. destruct (IH xss ltac:(cbn in Hl; lia) Hpad Hgood) as (ess & HT & HP).
  destruct (Sealed_Reads skip b es Hs) as (es' & Hperm & HR & Hsort & Hbuf). exists (es' :: ess). cbn. split; [|by constructor]. constructor; [|done]. constructor; cbn; try done.
  - by rewrite Hperm.
  - intros Hu. apply Hsort. destruct Hskip; congruence.
  - rewrite Hperm. unfold buf_cost. rewrite (re_num _ _ HR), Hbuf. assert (Hz : zlen es' = zlen es) by (unfold zlen; by rewrite Hperm). rewrite Hz. apply entries_cost_enc. rewrite <- Hperm. apply HR.
Qed.

Lemma Start_New items ess css : Forall2 TableOk items ess -> Forall2 (fun x y => x.1 = y.1 /\ x.2 ≡ₚ y.2) (tables items ess) css -> tagged 0 css ->
  (mode o = kDmUniqueKey -> Forall (fun es => NoDup es.*1) (collect css []).1) -> Start items ess spec_New 0.
Proof.
  intros HT HP Htag Hu. constructor; try done; [by eapply tagged_perm|]. intros Hm. pose proof (collect_perm _ _ [] [] HP (reflexivity _)) as HC. cbn [s_epoch spec_New].
  eapply Forall2_Forall_l; [exact HC|]. eapply Forall_impl; [exact (Hu Hm)|]. intros l Hd l' Hp. cbn in *. by rewrite Hp.
Qed.

End Round.

Section WriterReader.
Context `{Snappy} `{XXHash} `{StdSort} (o ro : DirOptions) {T : Type} `{!DataBlock T} `{!DataBlockLaws o T}.
Context (num_parts : nat) (buf_threshold : Z) (Hparts : (0 < num_parts)%nat) (Hthr : 0 < buf_threshold <= 2 ^ 30).

(** Options a directory can be written and read with. *)
Record Writable : Prop := {
  wr_config : Config o; wr_agree : agree o ro; wr_epochs : num_epochs ro = -1; wr_mode : mode o <> kDmUniqueDrop; wr_filter : FilterConf o;
  wr_sort : skip_sort o = true -> IsKeyUnOrdered (mode o) = true }.

(** Entries the format can take; with unique keys, no key twice in an epoch. *)
Record Takes (es : list (Z * entry)) : Prop := {
  tk_good : Forall (good_entry o (T := T)) (snd <$> es); tk_unique : mode o = kDmUniqueKey -> forall e, NoDup (by_epoch es e).*1 }.

Definition skip_ : bool := IsKeyUnOrdered (mode o) || skip_sort o.

Lemma Stores_added sp l es last :
  Stores sp l -> Forall2 (≡ₚ) l (by_epoch es <$> seqZ 0 (last + 1)) -> Forall (fun a => 0 <= a.1 <= last) es ->
  (forall e, 0 <= e -> spec_entries (s_eps sp) e ≡ₚ by_epoch es e) /\ forall e, 0 <= e -> s_next sp <= e -> by_epoch es e = [].
Proof.
  intros (S1 & S2 & S3) HP Hr.
  assert (Hl : forall e, 0 <= e -> default [] (l !! Z.to_nat e) ≡ₚ by_epoch es e).
  { intros e He. destruct (l !! Z.to_nat e) as [le|] eqn:El; cbn.
    - destruct (Forall2_lookup_l _ _ _ _ _ HP El) as (y & Hy & Hp). rewrite list_lookup_fmap in Hy. apply fmap_Some in Hy as (e' & He' & ->). apply lookup_seqZ in He' as [-> _]. by replace (0 + Z.of_nat (Z.to_nat e)) with e in Hp by lia.
    - apply lookup_ge_None in El. rewrite (Forall2_length _ _ _ HP), length_fmap, length_seqZ in El.
      assert (Hn : by_epoch es e = []); [|by rewrite Hn]. apply by_epoch_none. eapply Forall_impl; [exact Hr|]. cbn. lia. }
  split; [intros e He; by rewrite S1, Hl by done|]. intros e He Hn. apply Permutation_nil. by rewrite <- Hl, S3 by done.
Qed.

(** C6. From concurrent writers to the reader.  When threads have finished a
    directory with status OK, writing the compactions of any partition of it, in
    their order and with the writes of other partitions to the shared data log in
    between, fails no assertion, and fails only if a write does.  When it does not
    fail, the logs can be opened, and reading a key over a range of epochs gives
    the values that were added to that partition under the key in each epoch, each
    as often as it was added (only one of them in the modes with unique keys): with
    and without Bloom filters, sorted and unsorted, for both formats of blocks. *)
Theorem writer_reads_back n s p x xss outs outs' b0 :
  Writable -> Reach num_parts buf_threshold false skip_ n s -> n < 2 ^ 32 -> finished_ s = true -> finish_status_ s = kOk -> idxers_ s !! p = Some x ->
  Takes (added x) -> length xss = length (calls x) -> Forall (padded o) xss -> fits o (with_others xss (calls x)) 0 0 0 = true ->
  SeqDirBuilder.New o (LogSink.Open false true outs) = Some b0 ->
  exists dir data st, compact_all (T := T) (with_others xss (calls x)) (mkCompactor (FilterBlock.Open o) b0) (LogSink.Open false true outs') = Some (dir, data, st)
    /\ (outs = [] -> outs' = [] -> status_b (c_builder dir) = kOk /\ st = kOk)
    /\ (status_b (c_builder dir) = kOk -> st = kOk -> exists sp,
          (forall e, 0 <= e -> spec_entries (s_eps sp) e ≡ₚ by_epoch (added x) e) /\ (forall e, 0 <= e -> s_next sp <= e -> by_epoch (added x) e = [])
          /\ forall ri rd, ReadsAs o ro sp (mkSource [LogSink.file (indx_sink_ (c_builder dir))] ri) (mkSource [LogSink.file data] rd)).
Proof.
  intros [Hcf Hag Hne Hmode Hfc Hsort] HR Hn Hfin Hst Hx [Hgood Huniq] Hlen Hpad Hfits Hnew.
  destruct (finished_calls num_parts buf_threshold false skip_ Hparts Hthr n s HR Hn Hfin Hst) as (last & Hall). destruct (Hall p x Hx) as (css & Hgiv & _ & Hadd & Hcol & Htag & Hfn & Hrange).
  assert (Hgood' : Forall (Forall (good_entry o (T := T))) (snd <$> css)) by (apply Forall_concat; by rewrite <- Hadd).
  destruct (with_others_tables o xss (calls x) css skip_) as (ess & HT & HP); try done.
  { unfold skip_. destruct (IsKeyUnOrdered (mode o)) eqn:Eu; [by right|]. destruct (skip_sort o) eqn:Es; [by right; apply Hsort|by left]. }
  destruct (with_others_Ends xss (calls x) css skip_ Hlen Hgiv Hfn) as [ep HE].
  assert (HS : Start o (with_others xss (calls x)) ess spec_New 0).
  { apply (Start_New o _ _ css); try done. intros Hm. rewrite Hcol. cbn. apply Forall_fmap, Forall_forall. intros e _. by apply Huniq. }
  set (d0 := mkDir ro 0 (mkSource [] (fun _ _ _ => kOk)) (mkSource [] (fun _ _ _ => kOk)) []).
  destruct (builder_New_spec o d0 true outs true outs' b0 Hnew) as [HRest Hi].
  pose proof (all_valid o Hcf Hmode Hfc _ ep HE ess spec_New 0 0 0 0 0 Hfits HS ltac:(lia) ltac:(lia)) as HV.
  destruct (compact_all_spec o d0 Hcf Hag _ ep HE ess (FilterBlock.Open o) b0 _ _ _ 0 0 (fits_tables o _ _ _ _ _ Hfits HT) Hfc ltac:(done) HRest HV) as (dir & data & st & E & Hq & HL).
  exists dir, data, st. split; [done|]. split; [intros -> ->; apply Hq; [done|by rewrite Hi]|]. intros Hs1 Hs2. specialize (HL Hs1 Hs2). eexists. split; [|split]; [..|intros ri rd; by eapply (logs_read o ro d0)].
  all: eapply Stores_added; [exact (all_spec o Hmode _ ep HE ess spec_New [] 0 HS SpecAt_New)| |exact Hrange]; cbn [app]; pose proof (collect_perm _ _ [] [] HP (reflexivity _)) as HC; by rewrite Hcol in HC.
Qed.

End WriterReader.

(** ** A directory written by three threads *)

Module RoundDemo.
Import SstBlockProps.ZeroSnappy WriterDemo.
#[local] Existing Instance XXHashImpl.pdlfs_xxhash.
#[local] Existing Instance WriterDemo.demo_sort.

(** Padded blocks and Bloom filters. *)
Definition o : DirOptions :=
  mkOptions false false false 8 8 kFtBloomFilter 8 kFmtUncompressed 24 48 (F64.of_Z 1) true 96 0 0 false false
    true false false kNoCompression kSnappyCompression true true false (-1) 0 kDmMultiMap.

#[local] Instance demo_laws : DataBlockLaws o BlockBuilder := sst_laws o eq_refl.

Definition log0 : LogSink := LogSink.Open false true [].

(** The first partition of the finished writer; another one writes a block. *)
Definition part0 : DirIndexer := default new_indexer (idxers_ (state_after finish_labels) !! 0%nat).
Definition xss : list (list bytes) := [[]; [replicate 48 7]].

Definition built : option (Compactor BlockBuilder * LogSink * Status) :=
  let? b0 := SeqDirBuilder.New (T := BlockBuilder) o log0 in compact_all (with_others xss (calls part0)) (mkCompactor (FilterBlock.Open o) b0) log0.

Definition read (key : bytes) (r : EpochRange) : option (Status * bytes) :=
  let? (c, data, st) := built in
  let source f := mkSource [f] (fun _ _ _ => kOk) in
  match Dir.Open o (source (LogSink.file (indx_sink_ (c_builder c)))) (source (LogSink.file data)) with
  | Some (inr d) => Dir.Read d r key []
  | _ => None
  end.

Example demo_reads_back :
  read [97] (mkRange 0 10) = Some (kOk, [4]) /\ read [98] (mkRange 0 10) = Some (kOk, [1; 2; 3]) /\ read [98] (mkRange 1 10) = Some (kOk, [])
  /\ read [101] (mkRange 0 10) = Some (kOk, []) /\ (let? (c, _, _) := built in Some (total_num_blocks_ (stats_ (c_builder c)), total_num_tables_ (stats_ (c_builder c)))) = Some (2, 2).
Proof. vm_compute. done. Qed.

Lemma lookup_default {A} (x : A) (l : list A) (i : nat) : match l !! i with Some _ => true | None => false end = true -> l !! i = Some (default x (l !! i)).
Proof. by destruct (l !! i). Qed.

Lemma part0_lookup : idxers_ (state_after finish_labels) !! 0%nat = Some part0.
Proof. apply lookup_default. by vm_compute. Qed.

Lemma round_new : exists b0, SeqDirBuilder.New (T := BlockBuilder) o log0 = Some b0.
Proof.
  unfold SeqDirBuilder.New. assert (E : floor_to_size_t (F64.mul (F64.of_Z (block_size o)) (block_util o)) = Some 48) by by vm_compute.
  rewrite E. by eexists.
Qed.

Lemma demo_writable : Writable o o.
Proof. constructor; try done; constructor; done || by vm_compute. Qed.

Definition small_entry (a : Z * entry) : bool := negb (zlen a.2.1 =? 0) && forallb (fun b => (0 <=? b) && (b <? 256)) (a.2.1 ++ a.2.2).

Lemma small_entry_good a : small_entry a = true -> good_entry o (T := BlockBuilder) a.2.
Proof.
  unfold small_entry. intros [Hk Hb]%andb_prop. rewrite forallb_app in Hb. apply andb_prop in Hb as [H1 H2].
  assert (Hok : forall l, forallb (fun b => (0 <=? b) && (b <? 256)) l = true -> bytes_ok l).
  { intros l Hl. apply Forall_forall. intros b Hin%list_elem_of_In. rewrite forallb_forall in Hl. specialize (Hl b Hin). apply andb_prop in Hl as [?%Z.leb_le ?%Z.ltb_lt]. unfold byte_ok, in_width. lia. }
  split_and!; [by intros E; rewrite E in Hk|by apply Hok|by apply Hok|done].
Qed.

Lemma demo_takes : Takes o (T := BlockBuilder) (added part0).
Proof.
  constructor; [|done]. apply Forall_fmap. assert (Hb : forallb small_entry (added part0) = true) by by vm_compute. rewrite forallb_forall in Hb.
  apply Forall_forall. intros a Ha%list_elem_of_In. by apply small_entry_good, Hb.
Qed.

(** Witness of [writer_reads_back]. *)
Lemma writer_reads_back_witness : exists b0 dir data, SeqDirBuilder.New o log0 = Some b0
  /\ compact_all (T := BlockBuilder) (with_others xss (calls part0)) (mkCompactor (FilterBlock.Open o) b0) log0 = Some (dir, data, kOk)
  /\ exists sp, (forall e, 0 <= e -> spec_entries (s_eps sp) e ≡ₚ by_epoch (added part0) e)
     /\ forall ri rd, ReadsAs o o sp (mkSource [LogSink.file (indx_sink_ (c_builder dir))] ri) (mkSource [LogSink.file data] rd).
Proof.
  pose proof round_new as [b0 Hnew].
  pose proof (writer_reads_back o o (T := BlockBuilder) (DataBlockLaws0 := demo_laws) 2 8 ltac:(lia) ltac:(lia) (zlen finish_labels) (state_after finish_labels) 0 part0 xss [] [] b0
    demo_writable finish_reach ltac:(by vm_compute) ltac:(by vm_compute) ltac:(by vm_compute) part0_lookup demo_takes ltac:(by vm_compute)
    ltac:(by intros; repeat constructor; exists 1) ltac:(by vm_compute) Hnew) as (dir & data & st & E & Hok & Hr).
  destruct (Hok eq_refl eq_refl) as [Hb Hst]. destruct (Hr Hb Hst) as (sp & H1 & _ & H2). subst st. exists b0, dir, data. split; [exact Hnew|]. split; [exact E|]. exists sp. split; [exact H1|exact H2].
Defined.

End RoundDemo.
