(* ===== verification/Tables.v ===== *)
(** * The caches built on [LRUCache] (src/libdeltafs/util)

    [DirTable] (dcntl.cc) and [LeaseTable] (lease.cc) hold the server's
    directory and lease objects, by address; [LookupCache] (lookup_cache.cc)
    and [IndexCache] (index_cache.cc) hold the client's lookup results and
    directory indices.  Each computes its key from a directory id, and a name
    hash where it has one, and calls the LRU cache under its optional mutex.
    The server's tables refuse to replace an entry ([EEXIST]); the client's
    caches replace it. *)
From S2P Require Import Prelude Coding FsTypes Gigaplus Lru.

(** [LRUKey] of the caches keyed by a directory, and of those keyed by a
    directory and a name hash.  The code builds the keys in buffers of 30 and of 50
    bytes without checking the length of the hash: the latter is enough for hashes
    of up to 20 bytes ([name_key_size]), and those of [DirIndex::PutHash] have 8. *)
Definition dir_key (id : DirId) : bytes := EncodeId id.
Definition name_key (pid : DirId) (nhash : bytes) : bytes := EncodeId pid ++ nhash.

Module DirTable.
Definition DirTable_new (capacity : Z) : LRU (V := nat) := LRU_empty capacity.
Definition LRUKey (id : DirId) : bytes := dir_key id.
Definition Lookup (t : LRU (V := nat)) (id : DirId) : option nat * LRU (V := nat) :=
  Lru.Lookup t (LRUKey id).
(** [None] is [throw EEXIST]; otherwise the new handle, the new table and the
    values handed to [DeleteDir]. *)
Definition Insert (t : LRU (V := nat)) (id : DirId) (dir : nat)
  : option (nat * LRU (V := nat) * list nat) :=
  if Exists t (LRUKey id) then None else Some (Lru.Insert t (LRUKey id) dir 1).
Definition Release (t : LRU (V := nat)) (ref : nat) : LRU (V := nat) * list nat :=
  Lru.Release t ref.
Definition Erase (t : LRU (V := nat)) (id : DirId) : LRU (V := nat) * list nat :=
  Lru.Erase t (LRUKey id).
End DirTable.

Module LeaseTable.
Definition LeaseTable_new (max_num_leases : Z) : LRU (V := nat) := LRU_empty max_num_leases.
Definition LRUKey (pid : DirId) (nhash : bytes) : bytes := name_key pid nhash.
Definition Lookup (t : LRU (V := nat)) (pid : DirId) (nhash : bytes)
  : option nat * LRU (V := nat) := Lru.Lookup t (LRUKey pid nhash).
Definition Insert (t : LRU (V := nat)) (pid : DirId) (nhash : bytes) (lease : nat)
  : option (nat * LRU (V := nat) * list nat) :=
  if Exists t (LRUKey pid nhash) then None
  else Some (Lru.Insert t (LRUKey pid nhash) lease 1).
Definition Release (t : LRU (V := nat)) (ref : nat) : LRU (V := nat) * list nat :=
  Lru.Release t ref.
Definition Erase (t : LRU (V := nat)) (pid : DirId) (nhash : bytes)
  : LRU (V := nat) * list nat := Lru.Erase t (LRUKey pid nhash).
End LeaseTable.

Module LookupCache.
Definition LookupCache_new (capacity : Z) : LRU (V := LookupStat) := LRU_empty capacity.
Definition LRUKey (pid : DirId) (nhash : bytes) : bytes := name_key pid nhash.
Definition Value (t : LRU (V := LookupStat)) (handle : nat) : option LookupStat :=
  e_value <$> heap t !! handle.
Definition Lookup (t : LRU (V := LookupStat)) (pid : DirId) (nhash : bytes)
  : option nat * LRU (V := LookupStat) := Lru.Lookup t (LRUKey pid nhash).
Definition Insert (t : LRU (V := LookupStat)) (pid : DirId) (nhash : bytes) (stat : LookupStat)
  : nat * LRU (V := LookupStat) :=
  (Lru.Insert t (LRUKey pid nhash) stat 1).1.
Definition Release (t : LRU (V := LookupStat)) (handle : nat) : LRU (V := LookupStat) :=
  (Lru.Release t handle).1.
Definition Erase (t : LRU (V := LookupStat)) (pid : DirId) (nhash : bytes)
  : LRU (V := LookupStat) := (Lru.Erase t (LRUKey pid nhash)).1.
End LookupCache.

Module IndexCache.
Definition IndexCache_new (capacity : Z) : LRU (V := Rep) := LRU_empty capacity.
Definition LRUKey (id : DirId) : bytes := dir_key id.
Definition Value (t : LRU (V := Rep)) (handle : nat) : option Rep :=
  e_value <$> heap t !! handle.
Definition Lookup (t : LRU (V := Rep)) (id : DirId) : option nat * LRU (V := Rep) :=
  Lru.Lookup t (LRUKey id).
Definition Insert (t : LRU (V := Rep)) (id : DirId) (index : Rep) : nat * LRU (V := Rep) :=
  (Lru.Insert t (LRUKey id) index 1).1.
Definition Release (t : LRU (V := Rep)) (handle : nat) : LRU (V := Rep) :=
  (Lru.Release t handle).1.
Definition Erase (t : LRU (V := Rep)) (id : DirId) : LRU (V := Rep) :=
  (Lru.Erase t (LRUKey id)).1.
End IndexCache.

(** ** Keys *)

Lemma dir_key_inj id id' : DirId_wf id -> DirId_wf id' -> dir_key id = dir_key id' -> id = id'.
Proof.
  intros Hw Hw' E. unfold dir_key in E. pose proof (GetDirId_encode id [] Hw) as D.
  rewrite E, GetDirId_encode in D by done. by simplify_eq.
Qed.

Lemma name_key_inj id h id' h' :
  DirId_wf id -> DirId_wf id' -> name_key id h = name_key id' h' -> id = id' /\ h = h'.
Proof.
  intros Hw Hw' E. unfold name_key in E.
  pose proof (GetDirId_encode id h Hw) as D. rewrite E, GetDirId_encode in D by done.
  by simplify_eq.
Qed.

(** The scratch buffers of the callers: 30 and 50 bytes, the latter for hashes
    of at most 20 bytes. *)
Lemma dir_key_size id : zlen (dir_key id) <= 30.
Proof. apply EncodeId_size. Qed.
Lemma name_key_size id h : zlen h <= 20 -> zlen (name_key id h) <= 50.
Proof. intros. unfold name_key. rewrite zlen_app. pose proof (EncodeId_size id). lia. Qed.

(** The client's lookup cache: after [Insert(pid, nhash, stat)] the handle
    it returned reads [stat]; a later [Lookup] of the same name returns that
    entry or misses; a [Lookup] of any other name never returns it. *)
Theorem lookup_cache_insert t pid nhash stat pid' nhash' :
  LRUInv t -> DirId_wf pid -> DirId_wf pid' ->
  let (h, t') := LookupCache.Insert t pid nhash stat in
  LookupCache.Value t' h = Some stat /\
  match LookupCache.Lookup t' pid' nhash' with
  | (Some h', _) => h' = h <-> pid' = pid /\ nhash' = nhash
  | (None, _) => True
  end.
Proof.
  intros HI Hw Hw'. unfold LookupCache.Insert, LookupCache.Lookup, LookupCache.LRUKey.
  pose proof (Insert_spec t (name_key pid nhash) stat 1 HI ltac:(lia)) as Hs.
  destruct (Lru.Insert t (name_key pid nhash) stat 1) as [[h t'] d]. cbn [fst].
  destruct Hs as ([HI' _] & -> & _ & (refs & ic & Hnew & Hic) & _).
  split; [unfold LookupCache.Value; by rewrite Hnew|].
  unfold Lru.Lookup. destruct (table t' !! name_key pid' nhash') as [i|] eqn:Ht; [|done].
  apply (inv_table _ _ HI') in Ht as Ht'. destruct Ht' as (_ & e & He & Hk & Hc). split.
  - intros ->. rewrite Hnew in He. simplify_eq. cbn in Hk.
    apply name_key_inj in Hk as [-> ->]; done.
  - intros [-> ->]. destruct Hic as [[-> ->]|(_ & _ & Hn & _)]; [|congruence].
    assert (table t' !! name_key pid nhash = Some (next t)) as E; [|congruence].
    apply (inv_table _ _ HI'). split; [done|by eexists].
Qed.

Lemma lookup_cache_insert_witness :
  let pid := mkDirId 0 0 1 in
  let stat := mkLookupStat 0 0 2 0 511 0 0 0 in
  LookupCache.Value (LookupCache.Insert (LRU_empty 4) pid [7] stat).2 0%nat = Some stat.
Proof.
  pose proof (lookup_cache_insert (LRU_empty 4) (mkDirId 0 0 1) [7]
    (mkLookupStat 0 0 2 0 511 0 0 0) (mkDirId 0 0 1) [7]) as H.
  apply H; [apply LRU_empty_inv; lia|by vm_compute..].
Defined.
