(* ===== verification/Mdb.v ===== *)
(** * The metadata store (src/libdeltafs/util/mdb.h, mdb.cc; pdlfs-common fsdb0.h)

    [MDB] keeps file system records as key-value pairs of an underlying [DB]:
    a directory entry under [kDirEntType], the GIGA+ index of a directory under
    [kDirIdxType] and its size and mtime under [kDirMetaType].  The [DB] itself
    (a LevelDB) is the class [KV] below: its operations, the map it contains,
    and what its header documents about them.  The definitions and theorems of
    this file and of the server hold for every implementation of [KV];
    [MemDB], a map with a list of injected errors, is one. *)
From Stdlib Require Import Sorted.
From S2P Require Import Prelude Coding Status FsTypes Gigaplus.

(** ** The underlying store *)

(** [WriteBatch] *)
Inductive BatchOp := BPut (k v : bytes) | BDel (k : bytes).

Definition apply_op (m : gmap bytes bytes) (b : BatchOp) : gmap bytes bytes :=
  match b with BPut k v => <[k := v]> m | BDel k => delete k m end.
Definition apply_batch (m : gmap bytes bytes) (bat : list BatchOp) : gmap bytes bytes :=
  fold_left apply_op bat m.

(** [BytewiseComparator]: [a <= b]. *)
Fixpoint bytes_le (a b : bytes) : bool :=
  match a, b with
  | [], _ => true
  | _ :: _, [] => false
  | x :: a, y :: b => if x <? y then true else if y <? x then false else bytes_le a b
  end.

(** The entries of a map at or after a key, in key order. *)
Fixpoint insert_sorted (e : bytes * bytes) (l : list (bytes * bytes)) : list (bytes * bytes) :=
  match l with
  | [] => [e]
  | x :: l' => if bytes_le e.1 x.1 then e :: l else x :: insert_sorted e l'
  end.
Definition entries_from (m : gmap bytes bytes) (k : bytes) : list (bytes * bytes) :=
  foldr insert_sorted [] (filter (fun e => bytes_le k e.1 = true) (map_to_list m)).

Class KV := {
  DB : Type;
  Snapshot : Type;
  (** what the store, or a snapshot of it, contains *)
  view : DB -> gmap bytes bytes;
  snap_view : Snapshot -> gmap bytes bytes;
  (** [Get]: the status, the value when the status is OK *)
  db_Get : DB -> option Snapshot -> bytes -> Status * bytes * DB;
  db_Write : DB -> list BatchOp -> Status * DB;
  db_GetSnapshot : DB -> Snapshot;
  (** [NewIterator], [Seek(k)], then [Next] while [Valid] *)
  db_Scan : DB -> option Snapshot -> bytes -> list (bytes * bytes) * DB;

  read_view (d : DB) (s : option Snapshot) : gmap bytes bytes :=
    match s with Some s => snap_view s | None => view d end;

  db_GetSnapshot_view : forall d, snap_view (db_GetSnapshot d) = view d;
  db_Get_view : forall d s k, view (db_Get d s k).2 = view d;
  db_Get_ok : forall d s k, (db_Get d s k).1.1 = kOk ->
    read_view d s !! k = Some (db_Get d s k).1.2;
  db_Get_notfound : forall d s k, (db_Get d s k).1.1 = kNotFound -> read_view d s !! k = None;
  db_Write_ok : forall d b, (db_Write d b).1 = kOk -> view (db_Write d b).2 = apply_batch (view d) b;
  db_Write_err : forall d b, (db_Write d b).1 <> kOk -> view (db_Write d b).2 = view d;
  db_Scan_view : forall d s k, view (db_Scan d s k).2 = view d;
  (** an iterator that hits an error becomes invalid early *)
  db_Scan_prefix : forall d s k, (db_Scan d s k).1 `prefix_of` entries_from (read_view d s) k;
}.

(** ** [MDB] *)
Section MDB.
Context {kv : KV}.

(** [MDB::Tx] *)
Record Tx := mkTx { tx_snap : option Snapshot; tx_bat : list BatchOp }.

Definition CreateTx (d : DB) : Tx := mkTx (Some (db_GetSnapshot d)) [].

Definition snap_of (tx : option Tx) : option Snapshot :=
  match tx with Some t => tx_snap t | None => None end.

(** [XSTATUS] *)
Definition XSTATUS (s : Status) : Status := if IsNotFound s then kNotFound else kIOError.

(** The value part of a directory entry: the [Stat] then the file name. *)
Definition encode_node (stat : Stat) (name : bytes) : bytes :=
  Stat_EncodeTo stat ++ PutLengthPrefixedSlice name.
Definition decode_node (value : bytes) : option (Stat * bytes) :=
  let? (stat, input) := Stat_DecodeFrom value in
  let? (name, _) := GetLengthPrefixedSlice input in
  Some (stat, name).

(** [GetNode]: [GET] with the file name requested. *)
Definition GetNode (d : DB) (id : DirId) (hash : bytes) (tx : option Tx)
  : (Status * option (Stat * bytes)) * DB :=
  let '(st, tmp, d) := db_Get d (snap_of tx) (Key_Encode id kDirEntType hash) in
  if ok st then
    match decode_node tmp with
    | Some r => (kOk, Some r, d)
    | None => (kCorruption, None, d)
    end
  else (XSTATUS st, None, d).

(** A write goes to the transaction's batch, or straight to the store. *)
Definition put_op (d : DB) (tx : option Tx) (b : BatchOp) : Status * option Tx * DB :=
  match tx with
  | Some t => (kOk, Some (mkTx (tx_snap t) (tx_bat t ++ [b])), d)
  | None => let (s, d) := db_Write d [b] in (s, None, d)
  end.

(** [SetNode] and [DelNode]: [PUT] and [DELETE] convert the store's status. *)
Definition SetNode (d : DB) (id : DirId) (hash : bytes) (stat : Stat) (name : bytes)
  (tx : option Tx) : Status * option Tx * DB :=
  let '(s, tx, d) := put_op d tx (BPut (Key_Encode id kDirEntType hash) (encode_node stat name)) in
  (if ok s then kOk else XSTATUS s, tx, d).
Definition DelNode (d : DB) (id : DirId) (hash : bytes) (tx : option Tx)
  : Status * option Tx * DB :=
  let '(s, tx, d) := put_op d tx (BDel (Key_Encode id kDirEntType hash)) in
  (if ok s then kOk else XSTATUS s, tx, d).

Definition GetDirIdx (d : DB) (id : DirId) (idx : DirIndex) (tx : option Tx)
  : Status * DirIndex * DB :=
  let '(s, tmp, d) := db_Get d (snap_of tx) (PackPrefix id kDirIdxType) in
  if ok s then
    match Update idx tmp with
    | Some idx => (kOk, idx, d)
    | None => (kCorruption, idx, d)
    end
  else (s, idx, d).
Definition SetDirIdx (d : DB) (id : DirId) (r : Rep) (tx : option Tx) : Status * option Tx * DB :=
  put_op d tx (BPut (PackPrefix id kDirIdxType) (Encode r)).
Definition DelDirIdx (d : DB) (id : DirId) (tx : option Tx) : Status * option Tx * DB :=
  put_op d tx (BDel (PackPrefix id kDirIdxType)).

(** [GetInfo] reads into a 20-byte buffer. *)
Definition GetInfo (d : DB) (id : DirId) (tx : option Tx) : (Status * option DirInfo) * DB :=
  let '(s, result, d) := db_Get d (snap_of tx) (PackPrefix id kDirMetaType) in
  if ok s then
    if 20 <? zlen result then (kBufferFull, None, d)
    else
      match DirInfo_DecodeFrom result with
      | Some (info, _) => (kOk, Some info, d)
      | None => (kCorruption, None, d)
      end
  else (s, None, d).
Definition SetInfo (d : DB) (id : DirId) (info : DirInfo) (tx : option Tx)
  : Status * option Tx * DB :=
  put_op d tx (BPut (PackPrefix id kDirMetaType) (DirInfo_EncodeTo info)).
Definition DelInfo (d : DB) (id : DirId) (tx : option Tx) : Status * option Tx * DB :=
  put_op d tx (BDel (PackPrefix id kDirMetaType)).

Fixpoint starts_with (prefix key : bytes) : bool :=
  match prefix, key with
  | [], _ => true
  | _ :: _, [] => false
  | x :: p, y :: k => (x =? y) && starts_with p k
  end.

(** The loop of [LIST] over what the iterator yields. *)
Fixpoint LIST_loop (prefix : bytes) (limit : nat) (it : list (bytes * bytes))
  : list (Stat * bytes) :=
  match it, limit with
  | (key, value) :: it, S limit =>
      if negb (starts_with prefix key) then []
      else match decode_node value with
           | Some r => r :: LIST_loop prefix limit it
           | None => []
           end
  | _, _ => []
  end.

Definition List_ (d : DB) (id : DirId) (tx : option Tx) (limit : nat)
  : list (Stat * bytes) * DB :=
  let prefix := PackPrefix id kDirEntType in
  let (it, d) := db_Scan d (snap_of tx) prefix in
  (LIST_loop prefix limit it, d).

Definition Exists_ (d : DB) (id : DirId) (hash : bytes) (tx : option Tx) : bool * DB :=
  let '(st, _, d) := db_Get d (snap_of tx) (Key_Encode id kDirEntType hash) in
  (ok (if ok st then kOk else XSTATUS st), d).

(** [Commit]: one atomic write of the whole batch. *)
Definition Commit (d : DB) (tx : option Tx) : Status * DB :=
  match tx with
  | Some t => db_Write d (tx_bat t)
  | None => (kOk, d)
  end.

(** ** What the operations do *)

Lemma ok_kOk : ok kOk = true.
Proof. done. Qed.

(** A directory entry of a view: absent, undecodable or a [Stat] and a name. *)
Definition node_key (id : DirId) (hash : bytes) : bytes := Key_Encode id kDirEntType hash.
Definition node (m : gmap bytes bytes) (id : DirId) (hash : bytes) : option (Stat * bytes) :=
  m !! node_key id hash ≫= decode_node.

Lemma decode_encode_node stat name :
  Stat_wf stat -> is_u32 (zlen name) -> decode_node (encode_node stat name) = Some (stat, name).
Proof.
  intros Hs Hn. unfold decode_node, encode_node. rewrite Stat_DecodeFrom_encode by done.
  rewrite <- (app_nil_r (PutLengthPrefixedSlice name)).
  by rewrite GetLengthPrefixedSlice_put.
Qed.

Lemma db_Get_spec d s k :
  let '(st, v, d') := db_Get d s k in
  view d' = view d /\ (st = kOk -> read_view d s !! k = Some v) /\
  (st = kNotFound -> read_view d s !! k = None).
Proof.
  pose proof (db_Get_view d s k) as Hv. pose proof (db_Get_ok d s k) as Ho.
  pose proof (db_Get_notfound d s k) as Hn. by destruct (db_Get d s k) as [[st v] d'].
Qed.

Lemma GetNode_spec d id hash tx :
  let '(s, r, d') := GetNode d id hash tx in
  let m := read_view d (snap_of tx) in
  view d' = view d /\
  (s = kOk -> exists p, r = Some p /\ node m id hash = Some p) /\
  (s = kNotFound -> m !! node_key id hash = None) /\
  (s <> kOk -> r = None).
Proof.
  unfold GetNode, node, node_key. set (k := Key_Encode id kDirEntType hash).
  clearbody k. pose proof (db_Get_spec d (snap_of tx) k) as Hg.
  destruct (db_Get d (snap_of tx) k) as [[st v] d']. destruct Hg as (Hv & Ho & Hn).
  destruct (ok st) eqn:Eok.
  - apply ok_true in Eok. rewrite (Ho Eok). cbn.
    destruct (decode_node v) as [p|]; split_and!; try done. intros _. by exists p.
  - unfold XSTATUS. destruct (IsNotFound st) eqn:En; split_and!; try done.
    intros _. apply Hn. by apply bool_decide_eq_true in En.
Qed.

Lemma GetInfo_spec d id tx :
  let '(s, r, d') := GetInfo d id tx in
  let m := read_view d (snap_of tx) in
  let k := PackPrefix id kDirMetaType in
  view d' = view d /\
  (s = kOk -> exists i v, r = Some i /\ m !! k = Some v /\ fst <$> DirInfo_DecodeFrom v = Some i) /\
  (s = kNotFound -> m !! k = None) /\
  (s <> kOk -> r = None).
Proof.
  unfold GetInfo. set (k := PackPrefix id kDirMetaType).
  clearbody k. pose proof (db_Get_spec d (snap_of tx) k) as Hg.
  destruct (db_Get d (snap_of tx) k) as [[st v] d']. destruct Hg as (Hv & Ho & Hn).
  destruct (ok st) eqn:Eok.
  - apply ok_true in Eok. specialize (Ho Eok). destruct (20 <? zlen v); [by split_and!|].
    destruct (DirInfo_DecodeFrom v) as [[i rest]|] eqn:Ei; split_and!; try done.
    intros _. exists i, v. by rewrite Ei.
  - split_and!; try done. intros ->. done.
Qed.

Lemma GetDirIdx_spec d id idx tx :
  let '(s, idx', d') := GetDirIdx d id idx tx in
  let m := read_view d (snap_of tx) in
  let k := PackPrefix id kDirIdxType in
  view d' = view d /\
  (s = kOk -> exists v, m !! k = Some v /\ Update idx v = Some idx') /\
  (s = kNotFound -> m !! k = None) /\
  (s <> kOk -> idx' = idx).
Proof.
  unfold GetDirIdx. set (k := PackPrefix id kDirIdxType).
  clearbody k. pose proof (db_Get_spec d (snap_of tx) k) as Hg.
  destruct (db_Get d (snap_of tx) k) as [[st v] d']. destruct Hg as (Hv & Ho & Hn).
  destruct (ok st) eqn:Eok.
  - apply ok_true in Eok. specialize (Ho Eok).
    destruct (Update idx v) as [i|] eqn:Ei; split_and!; try done. intros _. by exists v.
  - split_and!; try done. intros ->. done.
Qed.

Lemma Commit_spec d t :
  let (s, d') := Commit d (Some t) in
  view d' = if ok s then apply_batch (view d) (tx_bat t) else view d.
Proof.
  cbn. pose proof (db_Write_ok d (tx_bat t)). pose proof (db_Write_err d (tx_bat t)).
  destruct (db_Write d (tx_bat t)) as [s d']. cbn in *. destruct (ok s) eqn:E.
  - apply ok_true in E. auto.
  - apply ok_false in E. auto.
Qed.

(** ** Keys of different records never collide *)

Lemma node_key_inj id h id' h' :
  DirId_wf id -> DirId_wf id' -> node_key id h = node_key id' h' <-> id = id' /\ h = h'.
Proof.
  intros Hw Hw'. split; [|by intros [-> ->]]. intros E.
  by apply Key_Encode_inj in E as (-> & _ & ->).
Qed.

Lemma node_key_other id h id' t :
  DirId_wf id -> DirId_wf id' -> t <> kDirEntType -> PackPrefix id' t <> node_key id h.
Proof.
  intros Hw Hw' Ht E. rewrite PackPrefix_key in E. by apply Key_Encode_inj in E as (_ & ? & _).
Qed.

Lemma meta_key_inj id t id' t' :
  DirId_wf id -> DirId_wf id' -> PackPrefix id t = PackPrefix id' t' -> id = id' /\ t = t'.
Proof.
  intros Hw Hw' E. rewrite !PackPrefix_key in E. by apply Key_Encode_inj in E as (-> & -> & _).
Qed.

(** ** Listing *)

Lemma bytes_le_refl a : bytes_le a a = true.
Proof. induction a as [|x a IH]; cbn; [done|]. by rewrite Z.ltb_irrefl. Qed.

Lemma bytes_le_total a b : bytes_le a b = false -> bytes_le b a = true.
Proof.
  revert b. induction a as [|x a IH]; intros [|y b]; cbn; try done.
  cmp_cases; try lia; try done. apply IH.
Qed.

Lemma bytes_le_trans a b c : bytes_le a b = true -> bytes_le b c = true -> bytes_le a c = true.
Proof.
  revert b c. induction a as [|x a IH]; intros [|y b] [|z c]; cbn; try done.
  intros H1 H2. cmp_cases; try lia; try done. by eapply IH.
Qed.

Lemma bytes_le_antisym a b : bytes_le a b = true -> bytes_le b a = true -> a = b.
Proof.
  revert b. induction a as [|x a IH]; intros [|y b]; cbn; try done.
  intros H1 H2. cmp_cases; try lia; try done.
  assert (x = y) as -> by lia. f_equal. by apply IH.
Qed.

Lemma starts_with_prefix p k : starts_with p k = true <-> p `prefix_of` k.
Proof.
  revert k. induction p as [|x p IH]; intros [|y k]; cbn.
  - split; [intros _; apply prefix_nil|done].
  - split; [intros _; apply prefix_nil|done].
  - split; [done|]. intros H. by apply prefix_nil_not in H.
  - rewrite andb_true_iff, Z.eqb_eq, IH. split.
    + intros [-> H]. by apply prefix_cons.
    + intros H. split; [by eapply prefix_cons_inv_1|by eapply prefix_cons_inv_2].
Qed.

(** Keys with a prefix are contiguous, starting at the prefix itself. *)
Lemma prefix_le p k : p `prefix_of` k -> bytes_le p k = true.
Proof.
  intros [s ->]. induction p as [|x p IH]; cbn; [done|]. by rewrite Z.ltb_irrefl.
Qed.

Lemma prefix_contiguous p a b :
  bytes_le p a = true -> bytes_le a b = true -> p `prefix_of` b -> p `prefix_of` a.
Proof.
  revert a b. induction p as [|x p IH]; intros a b Ha Hb Hp; [apply prefix_nil|].
  destruct Hp as [s ->]. destruct a as [|y a]; [done|]. cbn in Ha, Hb.
  cmp_cases; try lia; try done. assert (x = y) as -> by lia. apply prefix_cons.
  eapply IH; [done|exact Hb|by exists s].
Qed.

Definition key_le (a b : bytes * bytes) : Prop := bytes_le a.1 b.1 = true.

Lemma insert_sorted_perm e l : insert_sorted e l ≡ₚ e :: l.
Proof.
  induction l as [|x l IH]; cbn; [done|]. case_match; [done|].
  rewrite IH. apply Permutation_swap.
Qed.

Lemma insert_sorted_sorted e l : StronglySorted key_le l -> StronglySorted key_le (insert_sorted e l).
Proof.
  induction 1 as [|x l Hs IH Hf]; cbn; [by repeat constructor|].
  destruct (bytes_le e.1 x.1) eqn:E.
  - constructor; [by constructor|]. constructor; [done|].
    eapply Forall_impl; [exact Hf|]. intros y Hy. by eapply bytes_le_trans.
  - constructor; [done|]. rewrite insert_sorted_perm. constructor; [by apply bytes_le_total|done].
Qed.

Lemma entries_from_perm m k :
  entries_from m k ≡ₚ filter (fun e => bytes_le k e.1 = true) (map_to_list m).
Proof.
  unfold entries_from. induction (filter _ _) as [|e l IH]; cbn; [done|].
  by rewrite insert_sorted_perm, IH.
Qed.

Lemma entries_from_sorted m k : StronglySorted key_le (entries_from m k).
Proof.
  unfold entries_from. induction (filter _ _) as [|e l IH]; cbn; [constructor|].
  by apply insert_sorted_sorted.
Qed.

Lemma elem_of_entries_from m p k v :
  (k, v) ∈ entries_from m p <-> m !! k = Some v /\ bytes_le p k = true.
Proof.
  rewrite entries_from_perm, list_elem_of_filter, elem_of_map_to_list. cbn. naive_solver.
Qed.

(** The entries of a directory, in key order. *)
Definition dir_entries (m : gmap bytes bytes) (id : DirId) : list (bytes * bytes) :=
  let p := PackPrefix id kDirEntType in
  filter (fun e => starts_with p e.1 = true) (entries_from m p).

(** Sorted entries at or after a prefix: those that start with it come first. *)
Lemma prefix_first p l :
  StronglySorted key_le l -> Forall (fun e => bytes_le p e.1 = true) l ->
  exists rest, l = filter (fun e => starts_with p e.1 = true) l ++ rest /\
    Forall (fun e => starts_with p e.1 = false) rest.
Proof.
  induction 1 as [|x l Hs IH Hf]; intros Hp; [by exists []|].
  apply Forall_cons in Hp as [Hx Hp]. destruct (IH Hp) as (rest & E & Hr).
  rewrite filter_cons. case_decide as Hd.
  - exists rest. split; [cbn; by rewrite <- E|done].
  - assert (Hall : Forall (fun e => starts_with p e.1 = false) (x :: l)).
    { constructor; [by destruct (starts_with p x.1)|].
      apply Forall_forall. intros y Hy. rewrite Forall_forall in Hf.
      destruct (starts_with p y.1) eqn:Ey; [|done]. destruct Hd.
      apply starts_with_prefix. apply starts_with_prefix in Ey.
      eapply prefix_contiguous; [exact Hx|by apply Hf|done]. }
    exists (x :: l). split; [|done]. assert (filter (fun e => starts_with p e.1 = true) l = []) as ->.
    { apply Forall_cons in Hall as [_ Hall]. clear -Hall.
      induction Hall as [|y l Hy _ IH]; [done|]. by rewrite filter_cons, decide_False by congruence. }
    done.
Qed.

(** The reference: the entries up to the first one that does not decode. *)
Fixpoint decodable (l : list (bytes * bytes)) : list (Stat * bytes) :=
  match l with
  | [] => []
  | e :: l => match decode_node e.2 with Some r => r :: decodable l | None => [] end
  end.

Lemma decodable_all l :
  Forall (fun e => is_Some (decode_node e.2)) l -> Forall2 (fun r e => decode_node e.2 = Some r) (decodable l) l.
Proof. induction 1 as [|e l [r Hr] _ IH]; cbn; [done|]. rewrite Hr. by constructor. Qed.

Lemma LIST_loop_spec p limit l rest :
  Forall (fun e => starts_with p e.1 = true) l ->
  Forall (fun e => starts_with p e.1 = false) rest ->
  LIST_loop p limit (l ++ rest) = take limit (decodable l).
Proof.
  intros Hl Hr. revert limit. induction l as [|[k v] l IH]; intros limit.
  - cbn [app decodable]. rewrite take_nil. destruct rest as [|[k v] rest], limit; cbn; try done.
    apply Forall_cons in Hr as [Hk _]. cbn in Hk. by rewrite Hk.
  - apply Forall_cons in Hl as [Hk Hl]. destruct limit as [|limit]; [done|].
    cbn in Hk |- *. rewrite Hk. cbn. destruct (decode_node v) as [r|]; [|done].
    cbn. f_equal. by apply IH.
Qed.
Lemma elem_of_dir_entries m id k v :
  (k, v) ∈ dir_entries m id <-> m !! k = Some v /\ exists h, k = node_key id h.
Proof.
  unfold dir_entries. rewrite list_elem_of_filter, elem_of_entries_from. cbn.
  rewrite starts_with_prefix. split.
  - intros ([h ->] & Hm & _). split; [done|by exists h].
  - intros (Hm & h & ->). split_and!; [by exists h|done|]. apply prefix_le. by exists h.
Qed.

Lemma StronglySorted_prefix l l' : StronglySorted key_le l -> l' `prefix_of` l -> StronglySorted key_le l'.
Proof.
  intros Hs [s ->]. induction l' as [|x l' IH]; [constructor|]. inv Hs. constructor; [by apply IH|].
  by apply Forall_app in H2 as [? _].
Qed.

Lemma dir_entries_sorted m id : StronglySorted key_le (dir_entries m id).
Proof.
  unfold dir_entries. pose proof (entries_from_sorted m (PackPrefix id kDirEntType)) as Ha.
  induction Ha as [|x l _ IH Hx]; [constructor|]. rewrite filter_cons. case_decide; [|done].
  constructor; [done|]. apply Forall_forall. intros y [_ Hy]%list_elem_of_filter.
  by eapply Forall_forall in Hx.
Qed.

(** C34. Listing a directory: [List] leaves the store alone; the entries of a
    directory are its keys in order, and no other's; [seen], those of them that
    the iterator delivers, are the first ones (all, unless the scan failed); and [List] returns
    exactly the decoded entries of [seen] before the first one that does not
    decode, cut off at [limit].  So with a complete scan and no corrupt entry
    it returns the first [limit] entries. *)
Theorem list_entries d id tx limit :
  let m := read_view d (snap_of tx) in
  let '(out, d') := List_ d id tx limit in
  view d' = view d /\
  StronglySorted key_le (dir_entries m id) /\
  (forall k v, (k, v) ∈ dir_entries m id <-> m !! k = Some v /\ exists h, k = node_key id h) /\
  let seen := filter (fun e => starts_with (PackPrefix id kDirEntType) e.1 = true)
                (db_Scan d (snap_of tx) (PackPrefix id kDirEntType)).1 in
    seen `prefix_of` dir_entries m id /\
    ((db_Scan d (snap_of tx) (PackPrefix id kDirEntType)).1
       = entries_from m (PackPrefix id kDirEntType) -> seen = dir_entries m id) /\
    out = take limit (decodable seen) /\
    (Forall (fun e => is_Some (decode_node e.2)) seen ->
     Forall2 (fun r e => decode_node e.2 = Some r) out (take limit seen)).
Proof.
  unfold List_. set (p := PackPrefix id kDirEntType). cbv zeta.
  pose proof (db_Scan_view d (snap_of tx) p) as Hv.
  pose proof (db_Scan_prefix d (snap_of tx) p) as Hp.
  destruct (db_Scan d (snap_of tx) p) as [it d']. cbn [fst snd] in *.
  set (m := read_view d (snap_of tx)) in *.
  pose proof (entries_from_sorted m p) as Hs. pose proof (StronglySorted_prefix _ _ Hs Hp) as Hsi.
  assert (Hle : Forall (fun e => bytes_le p e.1 = true) it).
  { apply Forall_forall. intros [k v] Hin.
    assert ((k, v) ∈ entries_from m p) as [_ ?]%elem_of_entries_from by (eapply elem_of_prefix; eauto).
    done. }
  destruct (prefix_first p it Hsi Hle) as (rest & Ei & Hr).
  set (seen := filter (fun e => starts_with p e.1 = true) it) in *.
  assert (El : LIST_loop p limit it = take limit (decodable seen)).
  { rewrite Ei. apply LIST_loop_spec; [|done]. by apply Forall_forall; intros ? [? _]%list_elem_of_filter. }
  destruct Hp as [tl Etl]. split_and!; [done|by apply dir_entries_sorted|apply elem_of_dir_entries| |intros Hi; unfold seen; by rewrite Hi|done|].
  - exists (filter (fun e => starts_with p e.1 = true) tl). unfold dir_entries. fold p.
    by rewrite Etl, filter_app.
  - intros Hd. rewrite El. by apply Forall2_take, decodable_all.
Qed.
End MDB.

(** ** A store in memory, with injected errors *)

Record MemDB := mkMemDB { mem : gmap bytes bytes; errors : list Status }.

Definition next_error (d : MemDB) : Status := match errors d with e :: _ => e | [] => kOk end.
Definition pop_error (d : MemDB) : MemDB := mkMemDB (mem d) (tail (errors d)).

Definition MemDB_Get (d : MemDB) (s : option (gmap bytes bytes)) (k : bytes)
  : Status * bytes * MemDB :=
  let m := match s with Some m => m | None => mem d end in
  (if ok (next_error d) || IsNotFound (next_error d)
   then match m !! k with Some v => (kOk, v) | None => (kNotFound, []) end
   else (next_error d, []), pop_error d).
Definition MemDB_Write (d : MemDB) (b : list BatchOp) : Status * MemDB :=
  if ok (next_error d) then (kOk, mkMemDB (apply_batch (mem d) b) (tail (errors d)))
  else (next_error d, pop_error d).
Definition MemDB_Scan (d : MemDB) (s : option (gmap bytes bytes)) (k : bytes)
  : list (bytes * bytes) * MemDB :=
  let m := match s with Some m => m | None => mem d end in
  (if ok (next_error d) then entries_from m k else [], pop_error d).

#[export, refine] Instance MemKV : KV :=
  {| DB := MemDB; Snapshot := gmap bytes bytes; view := mem; snap_view := id;
     db_Get := MemDB_Get; db_Write := MemDB_Write; db_GetSnapshot := mem;
     db_Scan := MemDB_Scan |}.
Proof.
  - done.
  - done.
  - intros d s k. unfold MemDB_Get. cbn. destruct (_ || _) eqn:E.
    + by destruct (match s with Some m => m | None => mem d end !! k); destruct s.
    + intros H. apply orb_false_iff in E as [E _]. cbn in H. by rewrite H in E.
  - intros d s k. unfold MemDB_Get. cbn. destruct (_ || _) eqn:E.
    + by destruct s as [m|]; cbn; [destruct (m !! k)|destruct (mem d !! k)].
    + intros H. apply orb_false_iff in E as [_ E]. cbn in H. by rewrite H in E.
  - intros d b. unfold MemDB_Write. destruct (ok (next_error d)) eqn:E; [done|].
    cbn. intros H. by rewrite H in E.
  - intros d b. unfold MemDB_Write. by destruct (ok (next_error d)).
  - done.
  - intros d s k. unfold MemDB_Scan. cbn. destruct (ok (next_error d)); [|apply prefix_nil].
    by destruct s.
Defined.

(** A directory whose second entry is corrupt: the listing stops there. *)
Module ListDemo.
Definition dir : DirId := mkDirId 0 0 7.
Definition stat (i : Z) : Stat := mkStat 0 0 i 0 0 0 0 0 0 0.
Definition db : MemDB :=
  mkMemDB (<[node_key dir [1] := encode_node (stat 1) [65]]>
    (<[node_key dir [2] := [255]]> (<[node_key dir [3] := encode_node (stat 3) [67]]> ∅))) [].

Lemma list_entries_witness : (List_ (kv := MemKV) db dir None 10).1 = [(stat 1, [65])].
Proof.
  pose proof (list_entries (kv := MemKV) db dir None 10) as H.
  destruct (List_ (kv := MemKV) db dir None 10) as [out d'].
  destruct H as (_ & _ & _ & _ & Hs & Ho & _). cbn [fst].
  rewrite Ho, Hs by reflexivity. vm_compute. reflexivity.
Defined.
End ListDemo.
