(* ===== verification/BlkDb.v ===== *)
(** * File data in a key-value store (src/libdeltafs/util/blkdb.h, blkdb.cc)

    [BlkDB] implements the file interface [Fio]: a file is a stream of data
    blocks of any size, each one record of the store whose key ends in the offset
    of the last byte of the block, most significant byte first, and a header
    record per writer with the size and the modification time.  A handle is a
    [Stream]: size, position, the number of writes and of writes covered by the
    header, and a cursor into the store that is kept from read to read.

    The store is the class [Store]: writes that may fail, and cursors over the
    contents the store had when they were made.  Operations run one at a time; a
    write on a handle drops its cursor, as in the code. *)
From S2P Require Import Prelude Coding Status FsTypes Gigaplus Mdb.

(** ** The store *)

Class Store := {
  Db : Type;
  Cursor : Type;
  s_view : Db -> gmap bytes bytes;
  s_Put : bool -> bytes -> bytes -> Db -> Status * Db;
  s_SyncWAL : Db -> Status * Db;
  s_NewIterator : Db -> Cursor;
  c_Seek : bytes -> Cursor -> Cursor;
  c_Next : Cursor -> Cursor;
  (** the current entry, while [Valid()] *)
  c_entry : Cursor -> option (bytes * bytes);
  c_status : Cursor -> Status;
  (** the contents a cursor ranges over *)
  c_view : Cursor -> gmap bytes bytes;

  s_Put_ok : forall sync k v d, (s_Put sync k v d).1 = kOk -> s_view (s_Put sync k v d).2 = <[k := v]> (s_view d);
  s_Put_err : forall sync k v d, (s_Put sync k v d).1 <> kOk -> s_view (s_Put sync k v d).2 = s_view d;
  s_SyncWAL_view : forall d, s_view (s_SyncWAL d).2 = s_view d;
  s_NewIterator_view : forall d, c_view (s_NewIterator d) = s_view d;
  c_Seek_view : forall k c, c_view (c_Seek k c) = c_view c;
  c_Next_view : forall c, c_view (c_Next c) = c_view c;
  c_entry_view : forall c k v, c_entry c = Some (k, v) -> c_view c !! k = Some v;
  c_Seek_entry : forall k c e, c_entry (c_Seek k c) = Some e -> head (entries_from (c_view c) k) = Some e;
  c_Seek_end : forall k c, c_entry (c_Seek k c) = None -> c_status (c_Seek k c) = kOk -> entries_from (c_view c) k = [];
  c_Next_entry : forall c k v e, c_entry c = Some (k, v) -> c_entry (c_Next c) = Some e ->
    head (tail (entries_from (c_view c) k)) = Some e;
  c_Next_end : forall c k v, c_entry c = Some (k, v) -> c_entry (c_Next c) = None -> c_status (c_Next c) = kOk ->
    tail (entries_from (c_view c) k) = [];
}.

(** ** Keys *)

(** [htobe64] and [memcpy]. *)
Definition be64 (x : Z) : bytes := rev (EncodeFixed64 x).

(** [Fentry::UntypedKeyPrefix]: the identity of the file and a type of 0. *)
Definition UntypedKeyPrefix (e : Fentry) : bytes :=
  EncodeVarint64 (RegId (fe_stat e)) ++ EncodeVarint64 (SnapId (fe_stat e)) ++ EncodeVarint64 (InodeNo (fe_stat e)) ++ [0].

Definition kDataDesType : Z := 5.
Definition kDataBlockType : Z := 6.

(** A [Key] under construction is its prefix; [SetOffset] gives the suffix. *)
Definition Key_SetType (t : Z) (prefix : bytes) : bytes := take (length prefix - 1) prefix ++ [t].
Definition Key_SetOffset (off : Z) (prefix : bytes) : bytes := prefix ++ be64 off.

(** ** Headers and blocks *)

Record StreamHeader := mkHeader { h_mtime : Z; h_size : Z }.

Definition StreamHeader_DecodeFrom (input : bytes) : option (StreamHeader * bytes) :=
  let? (mtime, input) := GetVarint64 input in
  let? (size, input) := GetVarint64 input in
  Some (mkHeader mtime size, input).

Definition StreamHeader_EncodeTo (h : StreamHeader) : bytes := EncodeVarint64 (h_mtime h) ++ EncodeVarint64 (h_size h).

Definition FetchOffset (encoding : bytes) : option Z :=
  if zlen encoding <? 8 then None else Some (DecodeFixed64 (rev (take 8 encoding))).

Record BlkInfo := mkBlk { blk_size : Z; blk_off : Z }.

Definition ParseFrom (k v : bytes) : option BlkInfo :=
  let? end_ := FetchOffset k in Some (mkBlk (zlen v) (u64 (u64 (end_ - zlen v) + 1))).

(** ** Streams *)

Record BlkDBOptions := mkBlkOptions { uniquefier : Z; sync_ : bool }.

Section BlkDB.
Context `{Store} (opts : BlkDBOptions).

Record Stream := mkStream {
  st_mtime : Z; st_size : Z; st_off : Z; st_iter : option Cursor; st_nwrites : Z; st_nflus : Z }.

Definition set_iter (it : option Cursor) (s : Stream) : Stream :=
  mkStream (st_mtime s) (st_size s) (st_off s) it (st_nwrites s) (st_nflus s).
Definition set_off (off : Z) (s : Stream) : Stream :=
  mkStream (st_mtime s) (st_size s) off (st_iter s) (st_nwrites s) (st_nflus s).
Definition set_counts (nwrites nflus : Z) (s : Stream) : Stream :=
  mkStream (st_mtime s) (st_size s) (st_off s) (st_iter s) nwrites nflus.

Definition NoMoreUpdates : Status := kIOError.
Definition bad_state (s : Stream) : bool := (st_nflus s <? 0) || (st_nwrites s <? 0).

Definition header_prefix (e : Fentry) : bytes := Key_SetType kDataDesType (UntypedKeyPrefix e).
Definition block_prefix (e : Fentry) : bytes := Key_SetType kDataBlockType (UntypedKeyPrefix e).
Definition header_key (e : Fentry) : bytes := Key_SetOffset (u64 (uniquefier opts)) (header_prefix e).

Definition Fstat (s : Stream) : Status + Z * Z :=
  if bad_state s then inl NoMoreUpdates else inr (st_mtime s, st_size s).

Definition Creat (e : Fentry) (d : Db) : (Status + Stream) * Db :=
  let (s, d) := s_Put (sync_ opts) (header_key e) (StreamHeader_EncodeTo (mkHeader 0 0)) d in
  (if ok s then inr (mkStream 0 0 0 None 0 0) else inl s, d).

(** The loop of [Open] over the header records, up to the first record that is
    not one or cannot be decoded. *)
Fixpoint header_loop (fuel : nat) (prefix : bytes) (c : Cursor) (mtime size : Z) (found : bool)
  : option (Status * Z * Z * bool * Cursor) :=
  match fuel with
  | O => None
  | S fuel =>
      match c_entry c with
      | Some (k, v) =>
          if starts_with prefix k then
            match StreamHeader_DecodeFrom v with
            | Some (h, _) => header_loop fuel prefix (c_Next c) (Z.max mtime (h_mtime h)) (Z.max size (h_size h)) true
            | None => Some (kCorruption, mtime, size, true, c_Next c)
            end
          else Some (kOk, mtime, size, found, c)
      | None => Some (kOk, mtime, size, found, c)
      end
  end.

Definition loop_fuel (c : Cursor) : nat := S (base.size (c_view c)).

Definition Open (e : Fentry) (create_if_missing truncate_if_exists : bool) (d : Db)
  : option ((Status + Z * Z * Stream) * Db) :=
  let c := c_Seek (header_prefix e) (s_NewIterator d) in
  let? (s, mtime, size, found, c) := header_loop (loop_fuel c) (header_prefix e) c 0 0 false in
  if negb (ok s) then Some (inl s, d)
  else if found && truncate_if_exists then Some (inl kNotSupported, d)
  else if negb found && negb create_if_missing then Some (inl kNotFound, d)
  else if found then Some (inr (mtime, size, mkStream mtime size 0 (Some c) 0 0), d)
  else
    let (s, d) := s_Put (sync_ opts) (header_key e) (StreamHeader_EncodeTo (mkHeader mtime size)) d in
    Some (if ok s then inr (mtime, size, mkStream mtime size 0 None 0 0) else inl s, d).

Definition Trunc (e : Fentry) (size : Z) (d : Db) : Status * Db := (kNotSupported, d).
Definition Stat_ (e : Fentry) (d : Db) : Status * Db := (kNotSupported, d).
Definition Drop (e : Fentry) (d : Db) : Status * Db := (kNotSupported, d).
Definition Ftrunc (e : Fentry) (size : Z) (s : Stream) (d : Db) : Status * Stream * Db := (kNotSupported, s, d).

Definition Flush (e : Fentry) (force_sync : bool) (s : Stream) (d : Db) : Status * Stream * Db :=
  if bad_state s then (NoMoreUpdates, s, d)
  else if force_sync || (st_nflus s <? st_nwrites s) then
    let (st, d) :=
      if st_nflus s <? st_nwrites s
      then s_Put (force_sync || sync_ opts) (header_key e) (StreamHeader_EncodeTo (mkHeader (st_mtime s) (st_size s))) d
      else s_SyncWAL d in
    (st, if ok st then set_counts (st_nwrites s) (Z.max (st_nwrites s) (st_nflus s)) s else set_counts (-1) (-1) s, d)
  else (kOk, s, d).

(** The loop of [Close]; the stream is gone afterwards and the status is OK. *)
Fixpoint close_loop (fuel : nat) (e : Fentry) (s : Stream) (d : Db) : option Db :=
  match fuel with
  | O => None
  | S fuel =>
      if st_nflus s <? st_nwrites s then
        let '(st, s, d) := Flush e false s d in
        if ok st then close_loop fuel e s d else Some d
      else Some d
  end.

Definition Close (e : Fentry) (s : Stream) (d : Db) : option (Status * Db) :=
  let? d := close_loop 2 e s d in Some (kOk, d).

(** [now] is what [CurrentMicros] returns. *)
Definition WriteTo (e : Fentry) (data : bytes) (off now : Z) (s : Stream) (d : Db) : Status * Stream * Db :=
  let end_ := u64 (off + zlen data) in
  let (st, d) := s_Put (sync_ opts) (Key_SetOffset (u64 (end_ - 1)) (block_prefix e)) data d in
  if ok st then
    (st, mkStream (Z.max now (st_mtime s)) (Z.max end_ (st_size s)) (st_off s) None (s32 (st_nwrites s + 1)) (st_nflus s), d)
  else (st, set_counts (-1) (-1) s, d).

Definition Write (e : Fentry) (data : bytes) (now : Z) (s : Stream) (d : Db) : Status * Stream * Db :=
  if bad_state s then (NoMoreUpdates, s, d)
  else
    let off := st_off s in
    let '(st, s, d) := WriteTo e data off now s d in
    (st, if ok st then set_off (u64 (off + zlen data)) s else s, d).

Definition Pwrite (e : Fentry) (data : bytes) (off now : Z) (s : Stream) (d : Db) : Status * Stream * Db :=
  if bad_state s then (NoMoreUpdates, s, d) else WriteTo e data off now s d.

(** The cursor of the last read is used again when it is at the block with [off],
    or at the one before it. *)
Definition reuse (prefix : bytes) (off : Z) (c : Cursor) : option Cursor :=
  let? (k, v) := c_entry c in
  if starts_with prefix k then
    let? b := ParseFrom (drop (length prefix) k) v in
    if blk_off b <=? off then
      if off <? u64 (blk_off b + blk_size b) then Some c
      else if off =? u64 (blk_off b + blk_size b) then Some (c_Next c)
      else None
    else None
  else None.

Definition position (prefix : bytes) (off : Z) (c : Cursor) : Cursor :=
  match reuse prefix off c with Some c => c | None => c_Seek (Key_SetOffset off prefix) c end.

(** The part of a block that is read: zeros for the hole before it, then its data. *)
Definition read_block (b : BlkInfo) (data : bytes) (off size : Z) (out : bytes) : Z * Z * bytes :=
  let '(off, size, out) :=
    if off <? blk_off b then
      let n := Z.min size (u64 (blk_off b - off)) in (u64 (off + n), size - n, out ++ replicate (Z.to_nat n) 0)
    else (off, size, out) in
  if negb (size =? 0) && (off <? u64 (blk_off b + blk_size b)) then
    let n := Z.min size (u64 (u64 (blk_off b + blk_size b) - off)) in
    (u64 (off + n), size - n, out ++ take (Z.to_nat n) (drop (Z.to_nat (off - blk_off b)) data))
  else (off, size, out).

Fixpoint read_loop (fuel : nat) (prefix : bytes) (off size : Z) (out : bytes) (c : Cursor) : option (bytes * Cursor) :=
  match fuel with
  | O => None
  | S fuel =>
      if size =? 0 then Some (out, c)
      else
        match c_entry c with
        | None => Some (out, c)
        | Some (k, v) =>
            if starts_with prefix k then
              match ParseFrom (drop (length prefix) k) v with
              | None => read_loop fuel prefix off size out (c_Next c)
              | Some b =>
                  let '(off, size, out) := read_block b v off size out in
                  read_loop fuel prefix off size out (if size =? 0 then c else c_Next c)
              end
            else Some (out, c)
        end
  end.

(** [result] is what the caller's slice holds; it is not set at or after the end. *)
Definition ReadFrom (e : Fentry) (off size : Z) (result : bytes) (s : Stream) (d : Db)
  : option (Status * bytes * Stream) :=
  let c := match st_iter s with Some c => c | None => s_NewIterator d end in
  let? (st, result, c) :=
    if off <? st_size s then
      let size := if st_size s <? u64 (off + size) then st_size s - off else size in
      let c := position (block_prefix e) off c in
      let? (out, c) := read_loop (S (loop_fuel c)) (block_prefix e) off size [] c in
      Some (match c_entry c with None => c_status c | Some _ => kOk end, out, c)
    else Some (kOk, result, c) in
  Some (st, result, set_iter (if ok st then Some c else None) s).

Definition Read (e : Fentry) (size : Z) (result : bytes) (s : Stream) (d : Db) : option (Status * bytes * Stream) :=
  let off := st_off s in
  let? (st, result, s) := ReadFrom e off size result s d in
  Some (st, result, if ok st then set_off (u64 (off + zlen result)) s else s).

Definition Pread (e : Fentry) (off size : Z) (result : bytes) (s : Stream) (d : Db) : option (Status * bytes * Stream) :=
  ReadFrom e off size result s d.

End BlkDB.
Arguments Stream {_}.
