(* ===== verification/BlkDbProps.v ===== *)
(** * Files in a key-value store: reads return what was written

    [FileSpec] is a file as an array of bytes with a position, and the extents
    written so far; [spec_write] overwrites a range and fills holes with zeros.
    The blocks of a file in the store are described by [Blocks]; the read loop
    over them returns a range of the array ([blk_read_loop_spec]); [Inv] relates a
    stream and the store to the array.  [blkdb_refines] is the refinement for any
    sequence of operations, [blkdb_reopen] the round trip through [Close] and
    [Open]. *)
From Stdlib Require Import Sorted.
From stdpp Require Import sorting.
From S2P Require Import Prelude Coding Status FsTypes Gigaplus Mdb BlkDb.

(** ** Keys *)

Lemma bytes_le_app p a b : bytes_le (p ++ a) (p ++ b) = bytes_le a b.
Proof. induction p as [|x p IH]; cbn; [done|]. by rewrite Z.ltb_irrefl. Qed.

Lemma bytes_le_snoc a b x y : length a = length b ->
  bytes_le (a ++ [x]) (b ++ [y]) = if decide (a = b) then x <=? y else bytes_le a b.
Proof.
  revert b. induction a as [|u a IH]; intros [|v b]; cbn; try done.
  - intros _. by destruct (Z.ltb_spec x y), (Z.ltb_spec y x), (Z.leb_spec x y); try lia.
  - intros [= E]. rewrite IH by done. destruct (Z.ltb_spec u v), (Z.ltb_spec v u); try lia.
    + by rewrite decide_False by (intros [=]; lia).
    + by rewrite decide_False by (intros [=]; lia).
    + assert (u = v) as -> by lia. destruct (decide (a = b)) as [->|]; [by rewrite decide_True|by rewrite decide_False by congruence].
Qed.

Lemma big_endian_le n a b : in_width (8 * Z.of_nat n) a -> in_width (8 * Z.of_nat n) b ->
  bytes_le (rev (Fixed.encode n a)) (rev (Fixed.encode n b)) = (a <=? b).
Proof.
  revert a b. induction n as [|n IH]; intros a b Ha Hb.
  { unfold in_width in *. cbn in *. assert (a = b) as -> by lia. symmetry. apply Z.leb_refl. }
  cbn [Fixed.encode rev]. rewrite bytes_le_snoc by (by rewrite !length_rev, !Fixed.length_encode).
  assert (Hs : forall v, in_width (8 * Z.of_nat (S n)) v -> in_width (8 * Z.of_nat n) (Z.shiftr v 8)).
  { intros v Hv. replace (8 * Z.of_nat n) with (8 * Z.of_nat (S n) - 8) by lia. apply shiftr_in_width; [lia..|done]. }
  assert (E : forall v, v = 256 * Z.shiftr v 8 + Z.land v 255 /\ 0 <= Z.land v 255 < 256).
  { intros v. change 255 with (Z.ones 8). rewrite Z.land_ones, Z.shiftr_div_pow2 by lia. change (2 ^ 8) with 256. pose proof (Z.div_mod v 256). pose proof (Z.mod_pos_bound v 256). lia. }
  pose proof (E a) as [Ea Hra]. pose proof (E b) as [Eb Hrb].
  rewrite IH by auto. case_decide as Hd.
  - apply (f_equal (@rev Z)) in Hd. rewrite !rev_involutive in Hd. apply (f_equal Fixed.decode) in Hd. rewrite !Fixed.decode_encode in Hd by auto.
    destruct (Z.leb_spec (Z.land a 255) (Z.land b 255)), (Z.leb_spec a b); lia.
  - assert (Z.shiftr a 8 <> Z.shiftr b 8) by congruence. destruct (Z.leb_spec (Z.shiftr a 8) (Z.shiftr b 8)), (Z.leb_spec a b); lia.
Qed.

Lemma be64_le a b : is_u64 a -> is_u64 b -> bytes_le (be64 a) (be64 b) = (a <=? b).
Proof. intros. by apply (big_endian_le 8). Qed.

Lemma length_be64 x : length (be64 x) = 8%nat.
Proof. unfold be64. by rewrite length_rev. Qed.

Lemma FetchOffset_be64 x : is_u64 x -> FetchOffset (be64 x) = Some x.
Proof.
  intros Hx. unfold FetchOffset, zlen. rewrite length_be64. cbn [Z.of_nat]. rewrite Z.ltb_irrefl || cbn.
  rewrite take_ge by (by rewrite length_be64). unfold be64. rewrite rev_involutive. f_equal. by apply (Fixed.decode_encode 8).
Qed.

Lemma be64_inj x y : is_u64 x -> is_u64 y -> be64 x = be64 y -> x = y.
Proof. intros Hx Hy E. apply FetchOffset_be64 in Hx, Hy. congruence. Qed.

(** ** Entries of a store *)

Lemma entries_from_in m k e : e ∈ entries_from m k <-> m !! e.1 = Some e.2 /\ bytes_le k e.1 = true.
Proof. destruct e. apply elem_of_entries_from. Qed.

Lemma entries_unique (m : gmap bytes bytes) (l1 l2 : list (bytes * bytes)) :
  StronglySorted key_le l1 -> StronglySorted key_le l2 -> NoDup l1 -> NoDup l2 -> (forall e, e ∈ l1 -> m !! e.1 = Some e.2) ->
  (forall e, e ∈ l1 <-> e ∈ l2) -> l1 = l2.
Proof.
  intros H1 H2 N1 N2 Hm Hi. eapply (StronglySorted_unique_strong key_le); [|done..|by apply NoDup_Permutation].
  intros [k v] [k' v'] I1 I2 L1 L2. unfold key_le in *. cbn in *. assert (k = k') as -> by by apply bytes_le_antisym.
  apply Hm in I1. apply Hi, Hm in I2. cbn in *. congruence.
Qed.

Lemma entries_from_NoDup m k : NoDup (entries_from m k).
Proof. rewrite entries_from_perm. apply NoDup_filter, NoDup_map_to_list. Qed.

Lemma StronglySorted_app_r {A} (R : A -> A -> Prop) l1 l2 : StronglySorted R (l1 ++ l2) -> StronglySorted R l2.
Proof. induction l1 as [|x l1 IH]; [done|]. intros Hs. inv Hs. auto. Qed.

(** What follows an entry are the entries from its key on. *)
Lemma entries_from_suffix m k l1 e l2 : entries_from m k = l1 ++ e :: l2 -> entries_from m e.1 = e :: l2.
Proof.
  intros E. pose proof (entries_from_sorted m k) as Hs. pose proof (entries_from_NoDup m k) as Hn. rewrite E in Hs, Hn.
  apply NoDup_app in Hn as (_ & Hd & Hn). pose proof (StronglySorted_app_r _ _ _ Hs) as Hs2.
  apply (entries_unique m); [apply entries_from_sorted|done|apply entries_from_NoDup|done|by intros x [? _]%entries_from_in|].
  assert (Ie : e ∈ entries_from m k) by (rewrite E; apply elem_of_app; right; left).
  intros x. rewrite entries_from_in. split.
  - intros [Hm Hx]. assert (Ix : x ∈ entries_from m k). { apply entries_from_in. split; [done|]. apply entries_from_in in Ie as [_ ?]. by eapply bytes_le_trans. }
    rewrite E in Ix. apply elem_of_app in Ix as [Ix|]; [|done]. exfalso.
    assert (Hle : bytes_le x.1 e.1 = true).
    { clear -Hs Ix. induction l1 as [|y l1 IH]; [by apply elem_of_nil in Ix|]. cbn in Hs. inversion Hs as [|? ? Hs' Hf]; subst. apply elem_of_cons in Ix as [->|Ix]; [|auto].
      rewrite Forall_forall in Hf. apply Hf, elem_of_app. right. left. }
    assert (x.1 = e.1) as Ek by by apply bytes_le_antisym. apply entries_from_in in Ie as [Hme _]. rewrite Ek in Hm.
    assert (x = e) as -> by (destruct x, e; cbn in *; congruence). eapply Hd; [exact Ix|left].
  - intros Ix. assert (Ix' : x ∈ entries_from m k) by (rewrite E; apply elem_of_app; by right). apply entries_from_in in Ix' as [? _]. split; [done|].
    inversion Hs2 as [|? ? _ Hf]; subst. apply elem_of_cons in Ix as [->|Ix]; [apply bytes_le_refl|]. rewrite Forall_forall in Hf. by apply Hf.
Qed.

Lemma entries_from_head m k v : m !! k = Some v -> exists l, entries_from m k = (k, v) :: l.
Proof.
  intros Hm. assert (I : (k, v) ∈ entries_from m k) by (apply elem_of_entries_from; split; [done|apply bytes_le_refl]).
  apply list_elem_of_split in I as (l1 & l2 & E). exists l2. exact (entries_from_suffix _ _ _ _ _ E).
Qed.

(** ** Files as arrays *)

(** The bytes from [s] to [x], both included. *)
Definition slice (F : bytes) (s x : Z) : bytes := take (Z.to_nat (x - s + 1)) (drop (Z.to_nat s) F).

(** [f_ext] maps the last offset of a block to its first. *)
Record FileSpec := mkFile { f_data : bytes; f_pos : Z; f_ext : gmap Z Z }.

Definition spec_write (F : bytes) (off : Z) (data : bytes) : bytes :=
  let F := F ++ replicate (Z.to_nat (off + zlen data - zlen F)) 0 in
  take (Z.to_nat off) F ++ data ++ drop (Z.to_nat (off + zlen data)) F.

Definition spec_pwrite (f : FileSpec) (off : Z) (data : bytes) : FileSpec :=
  mkFile (spec_write (f_data f) off data) (f_pos f) (<[off + zlen data - 1 := off]> (f_ext f)).

Definition spec_pread (f : FileSpec) (off size : Z) : bytes := take (Z.to_nat size) (drop (Z.to_nat off) (f_data f)).

(** A write that is not empty and overlaps no block, except one with the same end
    that it covers. *)
Definition Fresh (f : FileSpec) (off : Z) (data : bytes) : Prop :=
  0 < zlen data /\ 0 <= off /\ off + zlen data < 2 ^ 63 /\
  forall x s, f_ext f !! x = Some s -> x < off \/ off + zlen data <= s \/ (x = off + zlen data - 1 /\ off <= s).

Record Layout (f : FileSpec) : Prop := {
  ly_ext : forall x s, f_ext f !! x = Some s -> 0 <= s <= x /\ x < zlen (f_data f);
  ly_disjoint : forall x s y s', f_ext f !! x = Some s -> f_ext f !! y = Some s' -> x < y -> x < s';
  ly_hole : forall i, 0 <= i < zlen (f_data f) -> (forall x s, f_ext f !! x = Some s -> i < s \/ x < i) -> f_data f !! Z.to_nat i = Some 0;
  ly_last : f_data f <> [] -> is_Some (f_ext f !! (zlen (f_data f) - 1));
  ly_size : zlen (f_data f) < 2 ^ 63 }.

Lemma lookup_spec_write F off data i : 0 <= off -> 
  spec_write F off data !! i =
    if decide (Z.of_nat i < off) then (F ++ replicate (Z.to_nat (off + zlen data - zlen F)) 0) !! i
    else if decide (Z.of_nat i < off + zlen data) then data !! (i - Z.to_nat off)%nat else F !! i.
Proof.
  intros Ho. unfold spec_write. set (F' := F ++ _). pose proof (zlen_nonneg data).
  assert (Hl : Z.of_nat (length F') >= off + zlen data) by (subst F'; rewrite length_app, length_replicate; unfold zlen in *; lia).
  assert (Ht : length (take (Z.to_nat off) F') = Z.to_nat off) by (rewrite length_take; lia).
  case_decide.
  { rewrite lookup_app_l by lia. rewrite lookup_take. by rewrite decide_True by lia. }
  rewrite lookup_app_r, Ht by lia. case_decide.
  { rewrite lookup_app_l by (unfold zlen in *; lia). done. }
  rewrite lookup_app_r by (unfold zlen in *; lia). rewrite lookup_drop.
  replace (Z.to_nat (off + zlen data) + (i - Z.to_nat off - length data))%nat with i by (unfold zlen in *; lia).
  subst F'. destruct (decide (i < length F)%nat); [by rewrite lookup_app_l|].
  rewrite lookup_app_r, (lookup_ge_None_2 F) by lia. apply lookup_ge_None_2. rewrite length_replicate. unfold zlen in *. lia.
Qed.

Lemma zlen_spec_write F off data : 0 <= off -> zlen (spec_write F off data) = Z.max (zlen F) (off + zlen data).
Proof. intros. unfold spec_write, zlen. rewrite !length_app, length_take, length_drop, !length_app, length_replicate. unfold zlen. lia. Qed.

Lemma lookup_slice F s x i : 0 <= s -> slice F s x !! i = if decide (Z.of_nat i <= x - s) then F !! (Z.to_nat s + i)%nat else None.
Proof.
  intros Hs. unfold slice. rewrite lookup_take, lookup_drop.
  destruct (decide (i < Z.to_nat (x - s + 1))%nat), (decide (Z.of_nat i <= x - s)); try done; lia.
Qed.

Lemma slice_write_in F off data : 0 <= off -> slice (spec_write F off data) off (off + zlen data - 1) = data.
Proof.
  intros Ho. apply list_eq. intros i. rewrite lookup_slice by done. rewrite lookup_spec_write by done.
  case_decide; [|symmetry; apply lookup_ge_None_2; unfold zlen in *; lia].
  rewrite decide_False, decide_True by lia. f_equal. lia.
Qed.

Lemma slice_write_out F off data s x : 0 <= off -> 0 <= s <= x -> x < zlen F -> x < off \/ off + zlen data <= s ->
  slice (spec_write F off data) s x = slice F s x.
Proof.
  intros Ho Hs Hx Hd. apply list_eq. intros i. rewrite !lookup_slice by lia. case_decide; [|done].
  rewrite lookup_spec_write by done. pose proof (zlen_nonneg data). destruct Hd.
  - rewrite decide_True by lia. rewrite lookup_app_l; [done|]. unfold zlen in *. lia.
  - by rewrite !decide_False by lia.
Qed.

Lemma Layout_write f off data : Layout f -> Fresh f off data -> Layout (spec_pwrite f off data).
Proof.
  intros [He Hd Hh Hl Hs] (Hp & Ho & Hb & Hf). constructor; cbn.
  - intros x s. rewrite zlen_spec_write by done. intros [[<- <-]|[_ Hx]]%lookup_insert_Some; [lia|]. apply He in Hx. lia.
  - intros x s y s' [[<- <-]|[Nx Hx]]%lookup_insert_Some [[<- <-]|[Ny Hy]]%lookup_insert_Some Hlt.
    + lia.
    + pose proof (He _ _ Hy). destruct (Hf _ _ Hy) as [|[]]; lia.
    + destruct (Hf _ _ Hx) as [|[]]; [lia|apply He in Hx; lia|lia].
    + eauto.
  - intros i Hi Hn. rewrite zlen_spec_write in Hi by done. rewrite lookup_spec_write by done.
    assert (Hni : i < off \/ off + zlen data - 1 < i) by (apply (Hn (off + zlen data - 1)), lookup_insert_eq).
    assert (HF : i < zlen (f_data f) -> f_data f !! Z.to_nat i = Some 0).
    { intros Hlt. apply Hh; [lia|]. intros x s Hx. destruct (decide (x = off + zlen data - 1)) as [->|Nx].
      - destruct (Hf _ _ Hx) as [|[]]; [apply He in Hx; lia|apply He in Hx; lia|lia].
      - apply Hn. by rewrite lookup_insert_ne. }
    rewrite Z2Nat.id by lia. case_decide.
    + destruct (decide (i < zlen (f_data f))); [rewrite lookup_app_l; [auto|unfold zlen in *; lia]|].
      rewrite lookup_app_r by (unfold zlen in *; lia). apply lookup_replicate. split; [done|]. unfold zlen in *. lia.
    + rewrite decide_False by lia. apply HF. lia.
  - intros _. rewrite zlen_spec_write by done. destruct (decide (zlen (f_data f) <= off + zlen data)).
    + rewrite Z.max_r by done. rewrite lookup_insert_eq. by eexists.
    + rewrite Z.max_l by lia. rewrite lookup_insert_ne by lia. apply Hl. intros E. rewrite E, zlen_nil in *. lia.
  - rewrite zlen_spec_write by done. lia.
Qed.

(** ** The blocks of a file in the store *)

Section Props.
Context `{Store} (opts : BlkDBOptions) (e : Fentry).

Definition block_key (x : Z) : bytes := block_prefix e ++ be64 x.

Record Blocks (m : gmap bytes bytes) (f : FileSpec) : Prop := {
  bl_block : forall x, is_u64 x -> m !! block_key x = (fun s => slice (f_data f) s x) <$> f_ext f !! x;
  bl_form : forall k v, m !! k = Some v -> block_prefix e `prefix_of` k -> exists x, is_u64 x /\ k = block_key x }.

Lemma block_key_le x y : is_u64 x -> is_u64 y -> bytes_le (block_key x) (block_key y) = (x <=? y).
Proof. intros. unfold block_key. rewrite bytes_le_app. by apply be64_le. Qed.

Lemma block_key_inj x y : is_u64 x -> is_u64 y -> block_key x = block_key y -> x = y.
Proof. intros Hx Hy E. apply app_inv_head in E. by apply be64_inj. Qed.

Lemma starts_block x : starts_with (block_prefix e) (block_key x) = true.
Proof. apply starts_with_prefix. by exists (be64 x). Qed.

Lemma ext_u64 f x s : Layout f -> f_ext f !! x = Some s -> is_u64 x.
Proof. intros HL Hx. pose proof (ly_ext _ HL _ _ Hx). pose proof (ly_size _ HL). unfold in_width. lia. Qed.

Lemma zlen_slice f x s : Layout f -> f_ext f !! x = Some s -> zlen (slice (f_data f) s x) = x - s + 1.
Proof. intros HL Hx. pose proof (ly_ext _ HL _ _ Hx). unfold slice, zlen in *. rewrite length_take, length_drop. lia. Qed.

Lemma ParseFrom_block f x s : Layout f -> f_ext f !! x = Some s ->
  ParseFrom (drop (length (block_prefix e)) (block_key x)) (slice (f_data f) s x) = Some (mkBlk (x - s + 1) s).
Proof.
  intros HL Hx. unfold ParseFrom, block_key. rewrite drop_app_length. rewrite FetchOffset_be64 by by eapply ext_u64.
  rewrite (zlen_slice _ _ _ HL Hx). pose proof (ly_ext _ HL _ _ Hx). pose proof (ly_size _ HL). do 2 f_equal.
  destruct (Z.eq_dec s 0) as [->|].
  - replace (x - (x - 0 + 1)) with (-1) by lia. done.
  - rewrite (u64_small (x - _)) by (unfold in_width; lia). rewrite u64_small by (unfold in_width; lia). lia.
Qed.

(** ** Cursors *)

(** The entries a cursor has before it, unless it stopped at an error. *)
Definition At (c : Cursor) (l : list (bytes * bytes)) : Prop :=
  match c_entry c with
  | Some x => entries_from (c_view c) x.1 = l /\ head l = Some x
  | None => c_status c = kOk -> l = []
  end.

Lemma At_here c k v : c_entry c = Some (k, v) -> At c (entries_from (c_view c) k).
Proof.
  intros E. unfold At. rewrite E. split; [done|]. destruct (entries_from_head _ _ _ (c_entry_view _ _ _ E)) as [l El]. cbn. by rewrite El.
Qed.

Lemma At_head m k x : head (entries_from m k) = Some x -> entries_from m x.1 = entries_from m k.
Proof. intros E. destruct (entries_from m k) as [|y l] eqn:El; [done|]. injection E as <-. by apply (entries_from_suffix m k []). Qed.

Lemma At_Seek k c : At (c_Seek k c) (entries_from (c_view c) k).
Proof.
  unfold At. rewrite c_Seek_view. destruct (c_entry (c_Seek k c)) as [x|] eqn:E.
  - apply c_Seek_entry in E. split; [by apply At_head|done].
  - intros Hs. by apply c_Seek_end.
Qed.

Lemma At_Next c x l : At c (x :: l) -> c_entry c = Some x -> At (c_Next c) l.
Proof.
  unfold At. intros HA E. rewrite E in HA. destruct HA as [El _]. destruct x as [k v]. rewrite c_Next_view.
  destruct (c_entry (c_Next c)) as [y|] eqn:E'.
  - pose proof (c_Next_entry _ _ _ _ E E') as Hy. cbn in El. rewrite El in Hy. cbn in Hy. destruct l as [|y' l]; [done|]. injection Hy as ->.
    split; [|done]. by apply (entries_from_suffix _ k [(k, v)]).
  - intros Hs. pose proof (c_Next_end _ _ _ E E' Hs) as Ht. cbn in El. by rewrite El in Ht.
Qed.

(** The entries ahead are those of the blocks that end at [off] or later, and
    entries of other keys. *)
Record Ahead (m : gmap bytes bytes) (f : FileSpec) (l : list (bytes * bytes)) (off : Z) : Prop := {
  ah_in : forall x, x ∈ l -> m !! x.1 = Some x.2 /\ bytes_le (block_prefix e) x.1 = true;
  ah_sorted : StronglySorted key_le l;
  ah_nodup : NoDup l;
  ah_blocks : forall x s, f_ext f !! x = Some s -> (off <= x <-> (block_key x, slice (f_data f) s x) ∈ l) }.

Lemma prefix_le_key x : bytes_le (block_prefix e) (block_key x) = true.
Proof. apply prefix_le. by exists (be64 x). Qed.

Lemma Ahead_from m f off : Layout f -> Blocks m f -> is_u64 off -> Ahead m f (entries_from m (block_key off)) off.
Proof.
  intros HL HB Ho. constructor.
  - intros x [Hm Hx]%entries_from_in. split; [done|]. eapply bytes_le_trans; [apply prefix_le_key|exact Hx].
  - apply entries_from_sorted.
  - apply entries_from_NoDup.
  - intros x s Hx. pose proof (ext_u64 _ _ _ HL Hx). rewrite elem_of_entries_from, block_key_le, (bl_block _ _ HB), Hx by done. cbn.
    rewrite Z.leb_le. naive_solver.
Qed.

Lemma Ahead_next m f x l off z s : Layout f -> Blocks m f -> Ahead m f ((block_key z, x) :: l) off -> f_ext f !! z = Some s -> off <= z ->
  Ahead m f l (z + 1).
Proof.
  intros HL HB HA Hz Ho. pose proof (ext_u64 _ _ _ HL Hz) as Uz. destruct HA as [Hi Hs Hn Hb]. inversion Hs as [|? ? Hs' Hf]; subst. apply NoDup_cons in Hn as [Hn Hn'].
  constructor; [intros; apply Hi; by right|done|done|]. intros y s' Hy. pose proof (ext_u64 _ _ _ HL Hy) as Uy. split.
  - intros Hlt. assert (I : (block_key y, slice (f_data f) s' y) ∈ (block_key z, x) :: l) by (apply (Hb y s' Hy); lia).
    apply elem_of_cons in I as [E|]; [|done]. injection E as E _. apply block_key_inj in E; [lia|done|done].
  - intros I. rewrite Forall_forall in Hf. pose proof (Hf _ I) as Hle. unfold key_le in Hle. cbn in Hle. rewrite block_key_le in Hle by done.
    apply Z.leb_le in Hle. destruct (decide (y = z)) as [->|]; [|lia]. exfalso. apply Hn.
    assert (I' : (block_key z, slice (f_data f) s' z) ∈ (block_key z, x) :: l) by by right.
    apply Hi in I' as [E1 _]. destruct (Hi (block_key z, x)) as [E2 _]; [left|]. cbn in *. rewrite E1 in E2. injection E2 as <-. done.
Qed.

(** ** Reading *)

Lemma take_drop_split (F : bytes) (off n m : Z) : 0 <= off -> 0 <= n -> 0 <= m ->
  take (Z.to_nat n) (drop (Z.to_nat off) F) ++ take (Z.to_nat m) (drop (Z.to_nat (off + n)) F) = take (Z.to_nat (n + m)) (drop (Z.to_nat off) F).
Proof.
  intros. rewrite Z2Nat.inj_add by lia. rewrite <- (drop_drop F), !(Z2Nat.inj_add n) by lia.
  rewrite <- (take_drop (Z.to_nat n) (take (Z.to_nat n + Z.to_nat m) (drop (Z.to_nat off) F))).
  rewrite take_take, Nat.min_l by lia. f_equal. rewrite take_drop_commute. done.
Qed.

Lemma read_hole f off n : Layout f -> 0 <= off -> 0 <= n -> off + n <= zlen (f_data f) ->
  (forall i x s, off <= i < off + n -> f_ext f !! x = Some s -> i < s \/ x < i) ->
  replicate (Z.to_nat n) 0 = take (Z.to_nat n) (drop (Z.to_nat off) (f_data f)).
Proof.
  intros HL Ho Hn Hb Hh. apply list_eq. intros i. rewrite lookup_take, lookup_drop. case_decide.
  - rewrite lookup_replicate_2 by done. symmetry. replace (Z.to_nat off + i)%nat with (Z.to_nat (off + Z.of_nat i)) by lia.
    apply (ly_hole _ HL); [lia|]. intros x s Hx. apply Hh; [lia|done].
  - apply lookup_ge_None_2. rewrite length_replicate. lia.
Qed.

Lemma read_data F off n s x : 0 <= s <= off -> 0 <= n -> off + n <= x + 1 ->
  take (Z.to_nat n) (drop (Z.to_nat (off - s)) (slice F s x)) = take (Z.to_nat n) (drop (Z.to_nat off) F).
Proof.
  intros. unfold slice. rewrite skipn_firstn_comm, drop_drop, take_take. f_equal; [lia|]. f_equal. lia.
Qed.

Lemma read_block_spec f x s off size out :
  Layout f -> f_ext f !! x = Some s -> 0 <= off <= x -> 0 < size -> off + size <= zlen (f_data f) ->
  (forall i y s', off <= i < s -> f_ext f !! y = Some s' -> i < s' \/ y < i) ->
  read_block (mkBlk (x - s + 1) s) (slice (f_data f) s x) off size out =
    (off + Z.min size (x + 1 - off), size - Z.min size (x + 1 - off), out ++ take (Z.to_nat (Z.min size (x + 1 - off))) (drop (Z.to_nat off) (f_data f))).
Proof.
  intros HL Hx Ho Hs Hb Hh. pose proof (ly_ext _ HL _ _ Hx). pose proof (ly_size _ HL). unfold read_block. cbn [blk_off blk_size].
  rewrite (u64_small (s + _)) by (unfold in_width; lia). replace (s + (x - s + 1)) with (x + 1) by lia.
  destruct (Z.ltb_spec off s) as [Hlt|Hge].
  - rewrite (u64_small (s - off)) by (unfold in_width; lia). remember (Z.min size (s - off)) as n eqn:En.
    rewrite (u64_small (off + n)) by (unfold in_width; lia).
    rewrite (read_hole f off n) by first [done|lia|intros; eapply Hh; [lia|done]].
    destruct (Z.eqb_spec (size - n) 0) as [E|E]; cbn [negb andb].
    + replace (Z.min size (x + 1 - off)) with n by lia. done.
    + replace (off + n) with s by lia. destruct (Z.ltb_spec s (x + 1)); [|lia]. rewrite (u64_small (x + 1 - s)) by (unfold in_width; lia).
      remember (Z.min (size - n) (x + 1 - s)) as n' eqn:En'. rewrite u64_small by (unfold in_width; lia). rewrite read_data by lia.
      rewrite <- (app_assoc out). replace (drop (Z.to_nat s)) with (@drop Z (Z.to_nat (off + n))) by (f_equal; lia). rewrite take_drop_split by lia.
      replace (n + n') with (Z.min size (x + 1 - off)) by lia. f_equal. f_equal; lia.
  - destruct (Z.eqb_spec size 0) as [|_]; [lia|]. destruct (Z.ltb_spec off (x + 1)); [|lia]. cbn [negb andb].
    rewrite (u64_small (x + 1 - off)) by (unfold in_width; lia). rewrite u64_small by (unfold in_width; lia). by rewrite read_data by lia.
Qed.

Lemma blk_read_loop_spec m f l : Layout f -> Blocks m f -> forall fuel off size out c,
  c_view c = m -> At c l -> Ahead m f l off -> 0 <= off -> 0 <= size -> off + size <= zlen (f_data f) -> (length l + 2 <= fuel)%nat ->
  exists out' c', read_loop fuel (block_prefix e) off size out c = Some (out', c') /\ c_view c' = m
    /\ ((c_entry c' = None /\ c_status c' <> kOk) \/ out' = out ++ take (Z.to_nat size) (drop (Z.to_nat off) (f_data f))).
Proof.
  intros HL HB. induction l as [|y l IH]; intros fuel off size out c Hv HA HH Ho Hs Hb Hf; (destruct fuel as [|fuel]; [cbn in Hf; lia|]); cbn [read_loop].
  all: destruct (Z.eqb_spec size 0) as [->|Hn]; [exists out, c; split_and!; [done|done|right; by rewrite app_nil_r]|].
  all: destruct (ly_last _ HL) as [s Hlast]; [intros E; rewrite E, zlen_nil in Hb; lia|].
  all: pose proof (proj1 (ah_blocks _ _ _ _ HH _ _ Hlast) ltac:(lia)) as Il.
  all: pose proof HA as HA'; unfold At in HA'; destruct (c_entry c) as [[k v]|] eqn:Ec.
  - destruct HA' as [_ [=]].
  - exists out, c. split_and!; [done|done|left; split; [done|]]. intros E. by apply elem_of_nil in Il.
  - destruct HA' as [_ [= ->]]. destruct (ah_in _ _ _ _ HH (k, v)) as [Hm Hp]; [left|]. cbn in Hm, Hp.
    assert (Hpre : block_prefix e `prefix_of` k).
    { apply (prefix_contiguous _ _ (block_key (zlen (f_data f) - 1)) Hp); [|by exists (be64 (zlen (f_data f) - 1))]. pose proof (ah_sorted _ _ _ _ HH) as Hso. inversion Hso as [|? ? _ Hfa]; subst.
      apply elem_of_cons in Il as [[= -> _]|Il]; [apply bytes_le_refl|]. rewrite Forall_forall in Hfa. by apply (Hfa _ Il). }
    destruct (bl_form _ _ HB _ _ Hm Hpre) as (x & Ux & ->). rewrite (bl_block _ _ HB) in Hm by done.
    destruct (f_ext f !! x) as [sx|] eqn:Hx; [|done]. injection Hm as <-. rewrite starts_block, (ParseFrom_block _ _ _ HL Hx).
    assert (Hox : off <= x) by (apply (ah_blocks _ _ _ _ HH _ _ Hx); left).
    pose proof (ly_ext _ HL _ _ Hx) as Hsx. pose proof (Ahead_next _ _ _ _ _ _ _ HL HB HH Hx Hox) as HH'.
    rewrite (read_block_spec f x sx off size out HL Hx) by first [done|lia|
      intros i y s' Hi Hy; destruct (decide (i < s' \/ y < i)) as [|Hno]; [done|]; exfalso;
      assert (y <> x) by (intros ->; rewrite Hx in Hy; injection Hy as ->; lia);
      assert (Iy : (block_key y, slice (f_data f) s' y) ∈ l) by (
        destruct (proj1 (elem_of_cons _ _ _) (proj1 (ah_blocks _ _ _ _ HH _ _ Hy) ltac:(lia))) as [[= E _]|]; [apply block_key_inj in E; [done|by eapply ext_u64|done]|done]);
      apply (ah_blocks _ _ _ _ HH' _ _ Hy) in Iy; pose proof (ly_disjoint _ HL _ _ _ _ Hx Hy ltac:(lia)); lia].
    remember (Z.min size (x + 1 - off)) as n eqn:En. destruct (Z.eqb_spec (size - n) 0) as [E|E].
    + destruct fuel as [|fuel]; [cbn in Hf; lia|]. cbn [read_loop]. rewrite E. cbn. exists (out ++ take (Z.to_nat n) (drop (Z.to_nat off) (f_data f))), c. split_and!; [done|done|]. right. by replace size with n by lia.
    + destruct (IH fuel (off + n) (size - n) (out ++ take (Z.to_nat n) (drop (Z.to_nat off) (f_data f))) (c_Next c)) as (out' & c' & -> & Hv' & Hr);
        [by rewrite c_Next_view|by eapply At_Next|replace (off + n) with (x + 1) by lia; done|lia|lia|lia|cbn in Hf; lia|].
      exists out', c'. split_and!; [done|done|]. destruct Hr as [|Hr]; [by left|right]. rewrite Hr, <- app_assoc, take_drop_split by lia. do 2 f_equal. f_equal. lia.
  - exists out, c. split_and!; [done|done|left; split; [done|]]. intros E. by apply HA' in E.
Qed.

Lemma length_entries m k : (length (entries_from m k) <= base.size m)%nat.
Proof. rewrite entries_from_perm. rewrite <- length_map_to_list. apply length_filter. Qed.

Lemma Ahead_here f x s off m : Layout f -> Blocks m f -> f_ext f !! x = Some s -> s <= off <= x ->
  Ahead m f (entries_from m (block_key x)) off.
Proof.
  intros HL HB Hx Ho. destruct (Ahead_from m f x HL HB (ext_u64 _ _ _ HL Hx)) as [Hi Hs Hn Hb]. constructor; [done..|].
  intros y s' Hy. rewrite <- (Hb _ _ Hy). split; [|lia]. intros Hle. destruct (Z.lt_ge_cases y x) as [Hlt|]; [|done].
  pose proof (ly_disjoint _ HL _ _ _ _ Hy Hx Hlt). lia.
Qed.

Lemma blk_position_spec f off c : Layout f -> Blocks (c_view c) f -> 0 <= off < zlen (f_data f) ->
  c_view (position (block_prefix e) off c) = c_view c
  /\ exists l, At (position (block_prefix e) off c) l /\ Ahead (c_view c) f l off /\ (length l <= base.size (c_view c))%nat.
Proof.
  intros HL HB Ho. pose proof (ly_size _ HL). assert (Uo : is_u64 off) by (unfold in_width; lia).
  assert (Hseek : c_view (c_Seek (block_key off) c) = c_view c
    /\ exists l, At (c_Seek (block_key off) c) l /\ Ahead (c_view c) f l off /\ (length l <= base.size (c_view c))%nat).
  { split; [apply c_Seek_view|]. eexists. split; [apply At_Seek|]. split; [by apply Ahead_from|apply length_entries]. }
  unfold position, reuse. destruct (c_entry c) as [[k v]|] eqn:Ec; [|exact Hseek].
  destruct (starts_with (block_prefix e) k) eqn:Ek; [|exact Hseek]. apply starts_with_prefix in Ek. pose proof (c_entry_view _ _ _ Ec) as Hm.
  destruct (bl_form _ _ HB _ _ Hm Ek) as (x & Ux & ->). pose proof Hm as Hm'. rewrite (bl_block _ _ HB) in Hm by done.
  destruct (f_ext f !! x) as [s|] eqn:Hx; [|done]. injection Hm as <-. rewrite (ParseFrom_block _ _ _ HL Hx). cbn [blk_off blk_size].
  pose proof (ly_ext _ HL _ _ Hx). rewrite u64_small by (unfold in_width; lia). replace (s + (x - s + 1)) with (x + 1) by lia.
  destruct (Z.leb_spec s off); [|exact Hseek]. destruct (Z.ltb_spec off (x + 1)).
  { split; [done|]. eexists. split; [by eapply At_here|]. split; [apply (Ahead_here f x s); [done|done|done|lia]|apply length_entries]. }
  destruct (Z.eqb_spec off (x + 1)) as [->|]; [|exact Hseek]. split; [apply c_Next_view|].
  destruct (entries_from_head _ _ _ Hm') as [l El]. exists l. split; [|split].
  - eapply At_Next; [|done]. rewrite <- El. by eapply At_here.
  - eapply (Ahead_next _ _ _ _ x x s); [done|done|rewrite <- El; by apply Ahead_from|done|lia].
  - pose proof (length_entries (c_view c) (block_key x)) as Hl. rewrite El in Hl. cbn in Hl. lia.
Qed.

(** ** The invariant of a stream *)

(** The header records; [flushed] when one of them has the size of the file. *)
Record Headers (m : gmap bytes bytes) (f : FileSpec) (flushed : bool) : Prop := {
  hd_ok : forall k v, m !! k = Some v -> header_prefix e `prefix_of` k ->
    exists h rest, StreamHeader_DecodeFrom v = Some (h, rest) /\ 0 <= h_size h <= zlen (f_data f) /\ is_u64 (h_mtime h);
  hd_last : flushed = true -> exists k v h rest, m !! k = Some v /\ header_prefix e `prefix_of` k
    /\ StreamHeader_DecodeFrom v = Some (h, rest) /\ h_size h = zlen (f_data f) }.

Definition counts_ok (s : Stream) (n : Z) : Prop :=
  (st_nflus s = -1 /\ st_nwrites s = -1) \/ (0 <= st_nflus s <= st_nwrites s /\ st_nwrites s + n < 2 ^ 31).

Definition flushed (s : Stream) : bool := (0 <=? st_nwrites s) && (st_nflus s =? st_nwrites s).

(** [n] more operations are to come. *)
Record Inv (s : Stream) (d : Db) (f : FileSpec) (n : Z) : Prop := {
  iv_layout : Layout f;
  iv_blocks : Blocks (s_view d) f;
  iv_iter : forall c, st_iter s = Some c -> Blocks (c_view c) f;
  iv_size : st_size s = zlen (f_data f);
  iv_pos : st_off s = f_pos f /\ 0 <= f_pos f;
  iv_counts : counts_ok s n;
  iv_mtime : is_u64 (st_mtime s);
  iv_headers : Headers (s_view d) f (flushed s) }.

Lemma prefixes_differ k : header_prefix e `prefix_of` k -> block_prefix e `prefix_of` k -> False.
Proof.
  unfold header_prefix, block_prefix, Key_SetType. set (q := take _ _). intros [a ->] [b E]. rewrite <- !app_assoc in E. apply app_inv_head in E. done.
Qed.

Lemma Blocks_header m f k v : header_prefix e `prefix_of` k -> Blocks m f -> Blocks (<[k := v]> m) f.
Proof.
  intros Hk [Hb Hf]. constructor.
  - intros x Hx. rewrite lookup_insert_ne; [by apply Hb|]. intros ->. eapply prefixes_differ; [done|by exists (be64 x)].
  - intros k' v' [[<- <-]|[_ Hm]]%lookup_insert_Some Hp; [exfalso; by eapply prefixes_differ|eauto].
Qed.

Lemma Blocks_write m f off data : Layout f -> Fresh f off data -> Blocks m f ->
  Blocks (<[block_key (off + zlen data - 1) := data]> m) (spec_pwrite f off data).
Proof.
  intros HL HF [Hb Hf]. pose proof HF as (Hp & Ho & Hbd & Hfr). assert (Uz : is_u64 (off + zlen data - 1)) by (unfold in_width; lia). constructor.
  - intros x Hx. cbn [f_ext f_data spec_pwrite]. destruct (decide (x = off + zlen data - 1)) as [->|Hn].
    + rewrite !lookup_insert_eq. cbn. f_equal. symmetry. by apply slice_write_in.
    + rewrite !lookup_insert_ne by (try done; intros E; apply block_key_inj in E; done). rewrite Hb by done.
      destruct (f_ext f !! x) as [s|] eqn:E; [|done]. cbn. f_equal. symmetry. pose proof (ly_ext _ HL _ _ E). apply slice_write_out; [done|lia|lia|].
      destruct (Hfr _ _ E) as [|[|[]]]; auto; lia.
  - intros k v [[<- _]|[_ Hm]]%lookup_insert_Some Hpre; [by eexists|eauto].
Qed.

Lemma Headers_write m f off data b k : Layout f -> Fresh f off data -> block_prefix e `prefix_of` k -> Headers m f b -> Headers (<[k := data]> m) (spec_pwrite f off data) false.
Proof.
  intros HL (? & Ho & _) Hk [Hh _]. constructor; [|done].
  intros k' v [[<- _]|[_ Hm]]%lookup_insert_Some Hp; [exfalso; by eapply prefixes_differ|]. destruct (Hh _ _ Hm Hp) as (h & r & E & Hs & Ht).
  exists h, r. split; [done|]. split; [|done]. cbn. rewrite zlen_spec_write by done. lia.
Qed.

Lemma header_decode h : is_u64 (h_mtime h) -> is_u64 (h_size h) -> StreamHeader_DecodeFrom (StreamHeader_EncodeTo h) = Some (h, []).
Proof.
  intros. unfold StreamHeader_DecodeFrom, StreamHeader_EncodeTo. rewrite <- (app_nil_r (EncodeVarint64 (h_size h))). codec_step. by destruct h.
Qed.

Lemma Headers_flush m f mt b : Layout f -> is_u64 mt -> Headers m f b ->
  Headers (<[header_key opts e := StreamHeader_EncodeTo (mkHeader mt (zlen (f_data f)))]> m) f true.
Proof.
  intros HL Hmt [Hh _]. pose proof (ly_size _ HL). pose proof (zlen_nonneg (f_data f)).
  pose proof (header_decode (mkHeader mt (zlen (f_data f))) Hmt ltac:(cbn; unfold in_width; lia)) as E.
  assert (Hk : header_prefix e `prefix_of` header_key opts e) by (by eexists). constructor.
  - intros k v [[<- <-]|[_ Hm]]%lookup_insert_Some Hp; [|eauto]. eexists _, _. split; [exact E|]. split; [cbn; lia|done].
  - intros _. eexists _, _, _, _. rewrite lookup_insert_eq. eauto.
Qed.

(** ** Operations *)

Inductive FileOp := OWrite (data : bytes) (now : Z) | OPwrite (data : bytes) (off now : Z)
  | ORead (size : Z) | OPread (off size : Z) | OFlush (force_sync : bool) | OFstat.

(** The status and, for reads, the bytes; for [Fstat], the size. *)
Record FileRes := mkRes { r_status : Status; r_data : bytes; r_size : Z }.

Definition run_op (op : FileOp) (s : Stream) (d : Db) : option (FileRes * Stream * Db) :=
  match op with
  | OWrite data now => let '(st, s, d) := Write opts e data now s d in Some (mkRes st [] 0, s, d)
  | OPwrite data off now => let '(st, s, d) := Pwrite opts e data off now s d in Some (mkRes st [] 0, s, d)
  | ORead size => let? (st, out, s) := Read e size [] s d in Some (mkRes st out 0, s, d)
  | OPread off size => let? (st, out, s) := Pread e off size [] s d in Some (mkRes st out 0, s, d)
  | OFlush force => let '(st, s, d) := Flush opts e force s d in Some (mkRes st [] 0, s, d)
  | OFstat => Some (match Fstat s with inl st => mkRes st [] 0 | inr (_, size) => mkRes kOk [] size end, s, d)
  end.

Definition spec_op (op : FileOp) (f : FileSpec) : FileSpec :=
  match op with
  | OWrite data _ => let f' := spec_pwrite f (f_pos f) data in mkFile (f_data f') (f_pos f + zlen data) (f_ext f')
  | OPwrite data off _ => spec_pwrite f off data
  | ORead size => mkFile (f_data f) (f_pos f + zlen (spec_pread f (f_pos f) size)) (f_ext f)
  | OPread _ _ | OFlush _ | OFstat => f
  end.

Definition spec_res (op : FileOp) (f : FileSpec) : FileRes :=
  match op with
  | OWrite _ _ | OPwrite _ _ _ | OFlush _ => mkRes kOk [] 0
  | ORead size => mkRes kOk (spec_pread f (f_pos f) size) 0
  | OPread off size => mkRes kOk (spec_pread f off size) 0
  | OFstat => mkRes kOk [] (zlen (f_data f))
  end.

Definition ValidOp (op : FileOp) (f : FileSpec) : Prop :=
  match op with
  | OWrite data now => Fresh f (f_pos f) data /\ is_u64 now
  | OPwrite data off now => Fresh f off data /\ is_u64 now
  | ORead size => 0 <= size /\ f_pos f + size < 2 ^ 64
  | OPread off size => 0 <= off /\ 0 <= size /\ off + size < 2 ^ 64
  | OFlush _ | OFstat => True
  end.

Lemma bad_state_counts s n : counts_ok s n -> bad_state s = negb (0 <=? st_nwrites s) /\ (bad_state s = false -> 0 <= st_nflus s <= st_nwrites s /\ st_nwrites s + n < 2 ^ 31).
Proof.
  unfold counts_ok, bad_state. intros [[-> ->]|[H1 H2]]; [done|].
  destruct (Z.ltb_spec (st_nflus s) 0), (Z.ltb_spec (st_nwrites s) 0), (Z.leb_spec 0 (st_nwrites s)); cbn; (split; [try done; lia|done || lia]).
Qed.

Lemma Inv_weaken s d f n n' : n' <= n -> Inv s d f n -> Inv s d f n'.
Proof. intros Hle [? ? ? ? ? Hc ? ?]. constructor; try done. unfold counts_ok in *. lia. Qed.

(** A failed update leaves the stream in a state in which it can only be read. *)
Lemma Inv_fail s d d' f n : s_view d' = s_view d -> Inv s d f n -> Inv (set_counts (-1) (-1) s) d' f n.
Proof.
  intros Hv [? ? ? ? ? ? ? [Hh _]]. constructor; cbn; try done; [by rewrite Hv|by left|]. constructor; rewrite Hv; done.
Qed.

Lemma WriteTo_spec off data now s d f n : 0 <= n -> Inv s d f (n + 1) -> bad_state s = false -> Fresh f off data -> is_u64 now ->
  exists st s' d', WriteTo opts e data off now s d = (st, s', d')
    /\ (st = kOk -> Inv s' d' (spec_pwrite f off data) n) /\ (st <> kOk -> Inv s' d' f n).
Proof.
  intros Hn HI Hb HF Hnow. pose proof HF as (Hp & Ho & Hbd & _). destruct (bad_state_counts _ _ (iv_counts _ _ _ _ HI)) as [_ Hc]. specialize (Hc Hb).
  unfold WriteTo. rewrite (u64_small (off + _)) by (unfold in_width; lia). rewrite u64_small by (unfold in_width; lia).
  change (Key_SetOffset (off + zlen data - 1) (block_prefix e)) with (block_key (off + zlen data - 1)).
  pose proof (s_Put_ok (sync_ opts) (block_key (off + zlen data - 1)) data d) as Hok. pose proof (s_Put_err (sync_ opts) (block_key (off + zlen data - 1)) data d) as Herr.
  destruct (s_Put _ _ _ d) as [st d']. cbn in Hok, Herr. destruct (ok st) eqn:Est.
  - apply ok_true in Est as ->. specialize (Hok eq_refl). eexists _, _, _. split; [done|]. split; [intros _|done].
    destruct HI as [HL HB _ Hs Hpos _ Hm Hh]. constructor; cbn -[zlen spec_write].
    + by apply Layout_write.
    + rewrite Hok. by apply Blocks_write.
    + done.
    + rewrite zlen_spec_write, Hs by done. apply Z.max_comm.
    + done.
    + right. cbn. rewrite s32_small by lia. lia.
    + destruct (Z.max_spec now (st_mtime s)) as [[_ ->]|[_ ->]]; done.
    + rewrite Hok. unfold flushed. cbn. rewrite s32_small by lia. destruct (Z.eqb_spec (st_nflus s) (st_nwrites s + 1)); [lia|]. rewrite andb_false_r.
      eapply Headers_write; [done|done|by eexists|done].
  - apply ok_false in Est. eexists _, _, _. split; [done|]. split; [done|]. intros _. eapply Inv_fail; [by apply Herr|]. eapply Inv_weaken; [|done]. lia.
Qed.

Lemma ReadFrom_spec off size s d f n : Inv s d f n -> 0 <= off -> 0 <= size -> off + size < 2 ^ 64 ->
  exists st out it, ReadFrom e off size [] s d = Some (st, out, set_iter it s) /\ Inv (set_iter it s) d f n /\ (st = kOk -> out = spec_pread f off size).
Proof.
  intros HI Ho Hs Hb. unfold ReadFrom. set (c := match st_iter s with Some c => c | None => s_NewIterator d end).
  pose proof HI as [HL HB Hit Hsz Hpos Hc Hm Hh]. pose proof (ly_size _ HL) as Hlt.
  assert (HBc : Blocks (c_view c) f). { subst c. destruct (st_iter s) as [c|] eqn:E; [by apply Hit|]. by rewrite s_NewIterator_view. }
  assert (Hset : forall it, (forall c, it = Some c -> Blocks (c_view c) f) -> Inv (set_iter it s) d f n) by (intros it Hi; by constructor).
  rewrite Hsz. destruct (Z.ltb_spec off (zlen (f_data f))) as [Hin|Hout].
  - rewrite (u64_small (off + size)) by (unfold in_width; lia).
    set (size' := if zlen (f_data f) <? off + size then zlen (f_data f) - off else size).
    assert (Hs' : 0 <= size' /\ off + size' <= zlen (f_data f)) by (unfold size'; destruct (Z.ltb_spec (zlen (f_data f)) (off + size)); lia).
    assert (Er : spec_pread f off size = spec_pread f off size').
    { unfold spec_pread, size'. destruct (Z.ltb_spec (zlen (f_data f)) (off + size)); [|done]. rewrite !take_ge; [done|rewrite length_drop; unfold zlen in *; lia..]. }
    destruct (blk_position_spec f off c HL HBc ltac:(lia)) as (Hv & l & HA & HH & Hl).
    destruct (blk_read_loop_spec (c_view c) f l HL HBc (S (loop_fuel (position (block_prefix e) off c))) off size' [] _ Hv HA HH Ho (proj1 Hs') (proj2 Hs')) as (out & c' & -> & Hv' & Hr).
    { unfold loop_fuel. rewrite Hv. lia. }
    eexists _, out, _. split; [done|]. split.
    + apply Hset. intros c'' E. case_match; [|done]. injection E as <-. by rewrite Hv'.
    + intros Hst. rewrite Er. destruct Hr as [[Hn Hbad]|Hr]; [by rewrite Hn in Hst|done].
  - eexists _, [], _. split; [done|]. split; [|intros _; unfold spec_pread; by rewrite drop_ge, take_nil by (unfold zlen in *; lia)].
    apply Hset. cbn. by intros ? [= <-].
Qed.

Lemma Flush_spec force s d f n : Inv s d f n ->
  exists st s' d', Flush opts e force s d = (st, s', d') /\ Inv s' d' f n /\ (st = kOk -> flushed s' = true).
Proof.
  intros HI. unfold Flush. destruct (bad_state_counts _ _ (iv_counts _ _ _ _ HI)) as [Eb Hc]. destruct (bad_state s) eqn:E; [by eexists _, _, _|].
  specialize (Hc eq_refl). clear Eb. pose proof HI as [HL HB Hit Hsz Hpos _ Hm Hh]. destruct (Z.ltb_spec (st_nflus s) (st_nwrites s)) as [Hlt|Hge].
  - rewrite orb_true_r. rewrite Hsz. set (v := StreamHeader_EncodeTo _).
    pose proof (s_Put_ok (force || sync_ opts) (header_key opts e) v d) as Hok. pose proof (s_Put_err (force || sync_ opts) (header_key opts e) v d) as Herr.
    destruct (s_Put _ _ _ d) as [st d']. cbn in Hok, Herr. eexists _, _, _. split; [done|]. destruct (ok st) eqn:Est.
    + apply ok_true in Est as ->. specialize (Hok eq_refl). assert (Hfl : flushed (set_counts (st_nwrites s) (Z.max (st_nwrites s) (st_nflus s)) s) = true).
      { unfold flushed. cbn. rewrite Z.max_l, Z.eqb_refl, andb_true_r by lia. apply Z.leb_le. lia. }
      split; [|done]. constructor; try done; cbn.
      * rewrite Hok. apply Blocks_header; [by eexists|done].
      * right. cbn. lia.
      * rewrite Hfl, Hok. by eapply Headers_flush.
    + apply ok_false in Est. split; [|done]. eapply Inv_fail; [by apply Herr|done].
  - assert (Hfl : flushed s = true) by (unfold flushed; destruct (Z.leb_spec 0 (st_nwrites s)), (Z.eqb_spec (st_nflus s) (st_nwrites s)); cbn; lia || done).
    destruct force; cbn [orb]; [|by eexists _, _, _]. pose proof (s_SyncWAL_view d) as Hv. destruct (s_SyncWAL d) as [st d']. cbn in Hv.
    eexists _, _, _. split; [done|]. destruct (ok st) eqn:Est.
    + assert (Es : set_counts (st_nwrites s) (Z.max (st_nwrites s) (st_nflus s)) s = s). { rewrite Z.max_l by lia. unfold set_counts. destruct s; cbn in *. f_equal; lia. }
      rewrite Es. split; [|done]. constructor; rewrite ?Hv; try done. apply (iv_counts _ _ _ _ HI).
    + apply ok_false in Est. split; [|done]. by eapply Inv_fail.
Qed.

Lemma run_op_spec op s d f n : 0 <= n -> Inv s d f (n + 1) -> ValidOp op f ->
  exists r s' d', run_op op s d = Some (r, s', d')
    /\ (r_status r = kOk -> r = spec_res op f /\ Inv s' d' (spec_op op f) n) /\ (r_status r <> kOk -> Inv s' d' f n).
Proof.
  intros Hn HI HV. pose proof (Inv_weaken _ _ _ (n + 1) n ltac:(lia) HI) as HI'.
  destruct op as [data now|data off now|size|off size|force|]; cbn [run_op spec_op spec_res ValidOp] in *.
  - destruct HV as [HF Hnow]. unfold Write. destruct (bad_state s) eqn:Eb; [by eexists _, _, _|]. rewrite (proj1 (iv_pos _ _ _ _ HI)).
    destruct (WriteTo_spec (f_pos f) data now s d f n Hn HI Eb HF Hnow) as (st & s' & d' & -> & H1 & H2). eexists _, _, _. split; [done|]. cbn [r_status]. split.
    + intros ->. change (ok kOk) with true. split; [done|]. destruct (H1 eq_refl) as [HL HB Hit Hsz Hpos Hc Hm Hh]. destruct HF as (? & ? & ? & _). constructor; try done; cbn.
      * by destruct HL.
      * by destruct HB.
      * intros c Hc'. by destruct (Hit c Hc').
      * rewrite u64_small by (unfold in_width; lia). lia.
      * by destruct Hh.
    + intros Hst. apply ok_false in Hst as E. rewrite E. auto.
  - destruct HV as [HF Hnow]. unfold Pwrite. destruct (bad_state s) eqn:Eb; [by eexists _, _, _|].
    destruct (WriteTo_spec off data now s d f n Hn HI Eb HF Hnow) as (st & s' & d' & -> & H1 & H2). eexists _, _, _. split; [done|]. cbn [r_status]. split; [intros ->; auto|auto].
  - destruct HV as [Hs Hb]. unfold Read. rewrite (proj1 (iv_pos _ _ _ _ HI)).
    pose proof (proj2 (iv_pos _ _ _ _ HI)) as Hp.
    destruct (ReadFrom_spec (f_pos f) size s d f n HI' Hp Hs Hb) as (st & out & it & -> & Hi & Ho). eexists _, _, _. split; [done|]. cbn [r_status]. split.
    + intros ->. change (ok kOk) with true. specialize (Ho eq_refl) as ->. split; [done|]. destruct Hi as [HL HB Hit Hsz Hpos Hc Hm Hh]. constructor; try done; cbn.
      * by destruct HL.
      * by destruct HB.
      * intros c Hc'. by destruct (Hit c Hc').
      * unfold spec_pread. pose proof (zlen_nonneg (take (Z.to_nat size) (drop (Z.to_nat (f_pos f)) (f_data f)))). rewrite u64_small; [lia|]. unfold in_width, zlen in *. rewrite length_take in *. lia.
      * by destruct Hh.
    + intros Hst. apply ok_false in Hst as E. by rewrite E.
  - destruct HV as (Ho & Hs & Hb). unfold Pread. destruct (ReadFrom_spec off size s d f n HI' Ho Hs Hb) as (st & out & it & -> & Hi & Hout).
    eexists _, _, _. split; [done|]. cbn [r_status]. split; [intros ->; by rewrite Hout|done].
  - destruct (Flush_spec force s d f n HI') as (st & s' & d' & -> & Hi & _). eexists _, _, _. split; [done|]. cbn [r_status]. split; [by intros ->|done].
  - unfold Fstat. destruct (bad_state s); eexists _, _, _; (split; [done|]); cbn [r_status]; (split; [intros E|done]); [done|]. split; [|done]. by rewrite (iv_size _ _ _ _ HI).
Qed.

(** ** Opening and closing *)

(** No operation of the store fails. *)
Definition Reliable : Prop :=
  (forall sync k v d, (s_Put sync k v d).1 = kOk) /\ (forall c, c_status c = kOk) /\ (forall d, (s_SyncWAL d).1 = kOk).

Definition Unused (d : Db) : Prop :=
  forall k v, s_view d !! k = Some v -> ~ header_prefix e `prefix_of` k /\ ~ block_prefix e `prefix_of` k.

Definition new_file : FileSpec := mkFile [] 0 ∅.

Lemma Creat_spec d s d' n : Unused d -> n < 2 ^ 31 -> Creat opts e d = (inr s, d') -> Inv s d' new_file n.
Proof.
  unfold Creat. intros Hu Hn. set (v := StreamHeader_EncodeTo _). pose proof (s_Put_ok (sync_ opts) (header_key opts e) v d) as Hok.
  destruct (s_Put _ _ _ d) as [st d1]. cbn in Hok. destruct (ok st) eqn:Est; [|done]. intros [= <- <-]. apply ok_true in Est. specialize (Hok Est).
  assert (HL : Layout new_file). { constructor; cbn; [intros ? ?; by rewrite lookup_empty|intros ? ? ? ?; by rewrite lookup_empty|intros i Hi; unfold zlen in Hi; cbn in Hi; lia|done|done]. }
  assert (HB : Blocks (s_view d) new_file).
  { constructor; cbn; [|intros k v' Hm Hp; by apply Hu in Hm as [_ ?]]. intros x _. rewrite lookup_empty. cbn. apply eq_None_not_Some. intros [w Hw]. apply Hu in Hw as [_ []]. by exists (be64 x). }
  constructor; cbn; try done.
  - rewrite Hok. apply Blocks_header; [by eexists|done].
  - right. cbn. lia.
  - rewrite Hok. apply (Headers_flush (s_view d) new_file 0 false); [done|done|]. constructor; [|done]. intros k w Hm Hp. by apply Hu in Hm as [? _].
Qed.

(** The entries with the prefix of the headers come first. *)
Lemma header_loop_spec f m l fuel : Reliable -> Headers m f true -> forall c mtime size found, c_view c = m -> At c l ->
  (forall x, x ∈ l -> m !! x.1 = Some x.2 /\ bytes_le (header_prefix e) x.1 = true) -> StronglySorted key_le l -> (length l < fuel)%nat ->
  is_u64 mtime -> 0 <= size <= zlen (f_data f) ->
  exists mtime' size' found' c', header_loop fuel (header_prefix e) c mtime size found = Some (kOk, mtime', size', found', c') /\ c_view c' = m
    /\ is_u64 mtime' /\ size <= size' <= zlen (f_data f) /\ (found = true -> found' = true)
    /\ forall k v h rest, (k, v) ∈ l -> header_prefix e `prefix_of` k -> StreamHeader_DecodeFrom v = Some (h, rest) -> found' = true /\ h_size h <= size'.
Proof.
  intros HR HH. revert fuel. induction l as [|y l IH]; intros fuel c mtime size found Hv HA Hi Hs Hf Hmt Hsz; (destruct fuel as [|fuel]; [cbn in Hf; lia|]); cbn [header_loop].
  all: pose proof HA as HA'; unfold At in HA'; destruct (c_entry c) as [[k v]|] eqn:Ec; [destruct HA' as [_ HA']|specialize (HA' (proj1 (proj2 HR) c))]; try done.
  { eexists _, _, _, c. split_and!; try done; try lia. intros. by apply elem_of_nil in H0. }
  injection HA' as ->. destruct (Hi (k, v)) as [Hm Hle]; [left|]. cbn in Hm, Hle. inversion Hs as [|? ? Hs' Hfa]; subst.
  destruct (starts_with (header_prefix e) k) eqn:Ek.
  - apply starts_with_prefix in Ek. destruct (hd_ok _ _ _ HH _ _ Hm Ek) as (h & rest & Eh & Hsh & Hth). rewrite Eh.
    destruct (IH fuel (c_Next c) (Z.max mtime (h_mtime h)) (Z.max size (h_size h)) true) as (mt & sz & fo & c' & E & Hv' & Hmt' & Hsz' & Hfo & Hall);
      [by rewrite c_Next_view|by eapply At_Next|intros; apply Hi; by right|done|cbn in Hf; lia|destruct (Z.max_spec mtime (h_mtime h)) as [[_ ->]|[_ ->]]; done|lia|].
    exists mt, sz, fo, c'. split_and!; [done|done|done|lia|lia|auto|]. intros k' v' h' r' [[= -> ->]|I]%elem_of_cons Hp E'; [|eauto].
    rewrite Eh in E'. injection E' as <- <-. split; [auto|lia].
  - eexists _, _, _, c. split_and!; try done; try lia. intros k' v' h' r' I Hp. exfalso.
    assert (Hkk : bytes_le k k' = true). { apply elem_of_cons in I as [[= -> _]|I]; [apply bytes_le_refl|]. rewrite Forall_forall in Hfa. exact (Hfa _ I). }
    pose proof (prefix_contiguous _ _ _ Hle Hkk Hp) as Hpk. apply starts_with_prefix in Hpk. congruence.
Qed.

Lemma Open_flushed_spec f d n create : Reliable -> Layout f -> Blocks (s_view d) f -> Headers (s_view d) f true -> n < 2 ^ 31 ->
  exists mtime s, Open opts e create false d = Some (inr (mtime, zlen (f_data f), s), d) /\ Inv s d (mkFile (f_data f) 0 (f_ext f)) n.
Proof.
  intros HR HL HB HH Hn. unfold Open. set (c := c_Seek (header_prefix e) (s_NewIterator d)).
  assert (Hv : c_view c = s_view d) by (subst c; by rewrite c_Seek_view, s_NewIterator_view).
  destruct (header_loop_spec f (s_view d) (entries_from (s_view d) (header_prefix e)) (loop_fuel c) HR HH c 0 0 false) as (mt & sz & fo & c' & -> & Hv' & Hmt & Hsz & _ & Hall).
  { done. }
  { unfold c. rewrite <- (s_NewIterator_view d). apply At_Seek. }
  { intros x [? ?]%entries_from_in. done. }
  { apply entries_from_sorted. }
  { unfold loop_fuel. rewrite Hv. pose proof (length_entries (s_view d) (header_prefix e)). lia. }
  { done. }
  { pose proof (zlen_nonneg (f_data f)). lia. }
  destruct (hd_last _ _ _ HH eq_refl) as (k & v & h & rest & Hm & Hp & Eh & Es).
  destruct (Hall k v h rest) as [-> Hge]; [apply elem_of_entries_from; split; [done|by apply prefix_le]|done|done|].
  change (ok kOk) with true. cbn [negb andb]. assert (sz = zlen (f_data f)) as -> by lia. eexists _, _. split; [done|].
  constructor; cbn; try done; try lia.
  - by destruct HL.
  - by destruct HB.
  - intros c'' [= <-]. rewrite Hv'. by destruct HB.
  - right. cbn. lia.
  - by destruct HH.
Qed.

Lemma Close_spec s d f n : Reliable -> Inv s d f n -> bad_state s = false ->
  exists d', Close opts e s d = Some (kOk, d') /\ Blocks (s_view d') f /\ Headers (s_view d') f true.
Proof.
  intros HR HI Hb. destruct (bad_state_counts _ _ (iv_counts _ _ _ _ HI)) as [_ Hc]. specialize (Hc Hb). unfold Close. cbn [close_loop].
  destruct (Z.ltb_spec (st_nflus s) (st_nwrites s)) as [Hlt|Hge].
  - destruct (Flush_spec false s d f n HI) as (st & s' & d' & E & HI' & Hfl). pose proof E as E'. rewrite E.
    assert (st = kOk) as ->.
    { unfold Flush in E'. rewrite Hb in E'. destruct (Z.ltb_spec (st_nflus s) (st_nwrites s)); [|lia]. cbn [orb] in E'.
      pose proof (proj1 HR (sync_ opts) (header_key opts e) (StreamHeader_EncodeTo (mkHeader (st_mtime s) (st_size s))) d) as Hp.
      destruct (s_Put _ _ _ d) as [st1 d1]. cbn in Hp. subst st1. by injection E' as <- _ _. }
    change (ok kOk) with true. cbv iota. specialize (Hfl eq_refl). exists d'. destruct HI' as [? ? ? ? ? ? ? Hh]. rewrite Hfl in Hh.
    unfold flushed in Hfl. apply andb_true_iff in Hfl as [_ Ef%Z.eqb_eq]. rewrite Ef, Z.ltb_irrefl. done.
  - exists d. destruct HI as [? ? ? ? ? ? ? Hh]. assert (Hfl : flushed s = true).
    { unfold flushed. destruct (Z.leb_spec 0 (st_nwrites s)), (Z.eqb_spec (st_nflus s) (st_nwrites s)); cbn; lia || done. }
    rewrite Hfl in Hh. done.
Qed.

(** ** Handles that refuse updates *)

(** The operations that look at the state of the handle first: all but reads. *)
Definition guarded (op : FileOp) : bool := match op with ORead _ | OPread _ _ => false | _ => true end.

Lemma run_op_refused op s d : bad_state s = true -> guarded op = true -> run_op op s d = Some (mkRes NoMoreUpdates [] 0, s, d).
Proof. intros Hb Hg. destruct op; try done; cbn [run_op]; unfold Write, Pwrite, Flush, Fstat; by rewrite Hb. Qed.

Lemma ReadFrom_keeps off size out s d st out' s' : ReadFrom e off size out s d = Some (st, out', s') ->
  bad_state s' = bad_state s /\ (Reliable -> st = kOk).
Proof.
  unfold ReadFrom. destruct (off <? st_size s); cbv zeta.
  - destruct (read_loop _ _ _ _ _ _) as [[o c]|]; [|done]. intros [= <- <- <-]. split; [done|]. intros HR. case_match; [done|apply HR].
  - intros [= <- <- <-]. done.
Qed.

Lemma WriteTo_state off data now s d f n st s' d' : 0 <= n -> Inv s d f (n + 1) -> bad_state s = false ->
  WriteTo opts e data off now s d = (st, s', d') -> bad_state s' = negb (ok st) /\ (Reliable -> st = kOk).
Proof.
  intros Hn HI Hb. destruct (bad_state_counts _ _ (iv_counts _ _ _ _ HI)) as [_ Hc]. specialize (Hc Hb). unfold WriteTo. set (k := Key_SetOffset _ _).
  pose proof (fun HR : Reliable => proj1 HR (sync_ opts) k data d) as Hr. destruct (s_Put _ _ _ d) as [st1 d1]. cbn in Hr. destruct (ok st1) eqn:E; intros [= <- <- <-]; rewrite E; (split; [|done]).
  - unfold bad_state. cbn. rewrite s32_small by lia. destruct (Z.ltb_spec (st_nflus s) 0), (Z.ltb_spec (st_nwrites s + 1) 0); lia || done.
  - done.
Qed.

Lemma Flush_state force s d st s' d' : bad_state s = false -> Flush opts e force s d = (st, s', d') -> bad_state s' = negb (ok st) /\ (Reliable -> st = kOk).
Proof.
  intros Hb. unfold Flush. rewrite Hb. destruct (force || _); [|intros [= <- <- <-]; done].
  match goal with |- (let (_, _) := ?m in _) = _ -> _ => assert (Hr : Reliable -> m.1 = kOk) by (intros HR; case_match; apply HR); destruct m as [st1 d1] end.
  cbn in Hr. intros [= <- <- <-]. split; [|done]. destruct (ok st1); [|done]. revert Hb. unfold bad_state. cbn.
  destruct (Z.ltb_spec (st_nflus s) 0), (Z.ltb_spec (st_nwrites s) 0), (Z.ltb_spec (Z.max (st_nwrites s) (st_nflus s)) 0); cbn; lia || done.
Qed.

(** An update that fails makes the handle refuse, nothing else does; a handle that
    does not refuse fails only where the store does. *)
Lemma run_op_state op s d f n r s' d' : 0 <= n -> Inv s d f (n + 1) -> run_op op s d = Some (r, s', d') ->
  bad_state s' = bad_state s || guarded op && negb (ok (r_status r)) /\ (bad_state s && guarded op = false -> Reliable -> r_status r = kOk).
Proof.
  intros Hn HI. destruct (bad_state s && guarded op) eqn:Eg.
  { apply andb_true_iff in Eg as [Hb Hg]. rewrite run_op_refused by done. intros [= <- <- <-]. by rewrite Hb. }
  intros E. enough (bad_state s' = bad_state s || guarded op && negb (ok (r_status r)) /\ (Reliable -> r_status r = kOk)) by tauto. revert E.
  destruct op as [data now|data off now|size|off size|force|]; cbn [run_op guarded] in *; rewrite ?andb_false_r, ?andb_true_r, ?andb_true_l, ?orb_false_r in *; rewrite ?Eg.
  - unfold Write. rewrite Eg. destruct (WriteTo _ _ _ _ _ _ _) as [[st s1] d1] eqn:E. destruct (WriteTo_state _ _ _ _ _ _ _ _ _ _ Hn HI Eg E) as [H1 H2]. intros [= <- <- <-]. destruct (ok st) eqn:Eo; cbn; rewrite ?Eo; done.
  - unfold Pwrite. rewrite Eg. destruct (WriteTo _ _ _ _ _ _ _) as [[st s1] d1] eqn:E. destruct (WriteTo_state _ _ _ _ _ _ _ _ _ _ Hn HI Eg E) as [H1 H2]. intros [= <- <- <-]. done.
  - unfold Read. destruct (ReadFrom _ _ _ _ _ _) as [[[st out] s1]|] eqn:E; [|done]. destruct (ReadFrom_keeps _ _ _ _ _ _ _ _ E) as [H1 H2]. intros [= <- <- <-]. split; [|done]. by destruct (ok st).
  - unfold Pread. destruct (ReadFrom _ _ _ _ _ _) as [[[st out] s1]|] eqn:E; [|done]. destruct (ReadFrom_keeps _ _ _ _ _ _ _ _ E) as [H1 H2]. intros [= <- <- <-]. done.
  - destruct (Flush _ _ _ _ _) as [[st s1] d1] eqn:E. destruct (Flush_state _ _ _ _ _ _ Eg E) as [H1 H2]. intros [= <- <- <-]. done.
  - unfold Fstat. rewrite Eg. intros [= <- <- <-]. by rewrite Eg.
Qed.

(** ** The theorems *)

(** Every operation of a run that is valid for the file at that point returns, and
    if its status is OK, returns what the array does; an operation that fails leaves
    the file as it is.  [refusing] is whether an update failed before: then every
    further one (and [Fstat]) is refused and touches neither the handle nor the
    store.  A handle that does not refuse fails only if the store does.  [P] holds
    at the end. *)
Fixpoint Runs (P : FileSpec -> bool -> Stream -> Db -> Prop) (f : FileSpec) (refusing : bool) (ops : list FileOp) (s : Stream) (d : Db) : Prop :=
  match ops with
  | [] => P f refusing s d
  | op :: ops => ValidOp op f -> exists r s' d', run_op op s d = Some (r, s', d')
      /\ (r_status r = kOk -> r = spec_res op f)
      /\ (refusing = true -> guarded op = true -> r = mkRes NoMoreUpdates [] 0 /\ s' = s /\ d' = d)
      /\ (refusing && guarded op = false -> Reliable -> r_status r = kOk)
      /\ Runs P (if ok (r_status r) then spec_op op f else f) (refusing || guarded op && negb (ok (r_status r))) ops s' d'
  end.

Lemma Runs_Inv (P : FileSpec -> bool -> Stream -> Db -> Prop) ops : forall f s d n, 0 <= n -> Inv s d f (n + zlen ops) ->
  (forall f s d, Inv s d f n -> P f (bad_state s) s d) -> Runs P f (bad_state s) ops s d.
Proof.
  induction ops as [|op ops IH]; intros f s d n Hn HI HP; cbn [Runs].
  - apply HP. by rewrite zlen_nil, Z.add_0_r in HI.
  - intros HV. rewrite zlen_cons in HI. replace (n + (1 + zlen ops)) with ((n + zlen ops) + 1) in HI by lia. pose proof (zlen_nonneg ops).
    destruct (run_op_spec op s d f (n + zlen ops) ltac:(lia) HI HV) as (r & s' & d' & E & H1 & H2). exists r, s', d'.
    destruct (run_op_state op s d f (n + zlen ops) r s' d' ltac:(lia) HI E) as [H3 H4].
    split_and!; [done|intros Hr; by apply H1|intros Hb Hg; rewrite run_op_refused in E by done; by injection E|done|]. rewrite <- H3.
    destruct (ok (r_status r)) eqn:Er; [apply ok_true in Er|apply ok_false in Er]; apply (IH _ _ _ n Hn); auto. by apply H1.
Qed.

(** Every operation that is valid at its point succeeds and returns what the array
    does. *)
Fixpoint Works (P : FileSpec -> Stream -> Db -> Prop) (f : FileSpec) (ops : list FileOp) (s : Stream) (d : Db) : Prop :=
  match ops with
  | [] => P f s d
  | op :: ops => ValidOp op f -> exists s' d', run_op op s d = Some (spec_res op f, s', d') /\ Works P (spec_op op f) ops s' d'
  end.

Lemma Runs_Works (P : FileSpec -> bool -> Stream -> Db -> Prop) ops : Reliable -> forall f s d,
  Runs P f false ops s d -> Works (fun f => P f false) f ops s d.
Proof.
  intros HR. induction ops as [|op ops IH]; intros f s d; cbn [Runs Works]; [done|]. intros HO HV.
  destruct (HO HV) as (r & s' & d' & E & H1 & _ & H2 & H3). specialize (H2 eq_refl HR). rewrite H2 in H3. rewrite (H1 H2) in E. cbn in H3. rewrite andb_false_r in H3. exists s', d'. auto.
Qed.

Lemma Works_mono (P Q : FileSpec -> Stream -> Db -> Prop) ops : (forall f s d, P f s d -> Q f s d) -> forall f s d, Works P f ops s d -> Works Q f ops s d.
Proof.
  intros HPQ. induction ops as [|op ops IH]; intros f s d; cbn [Works]; [apply HPQ|]. intros HW HV.
  destruct (HW HV) as (s' & d' & E & HW'). exists s', d'. auto.
Qed.

Lemma bad_state_new s d d' : Creat opts e d = (inr s, d') -> bad_state s = false.
Proof. unfold Creat. destruct (s_Put _ _ _ d) as [st d1]. destruct (ok st); [|done]. by intros [= <- _]. Qed.


Lemma Open_state create d r s d' : Open opts e create false d = Some (inr (r, s), d') -> bad_state s = false.
Proof.
  unfold Open. destruct (header_loop _ _ _ _ _ _) as [[[[[st mt] sz] fo] c]|]; [|done]. cbv zeta beta iota.
  repeat case_match; intros; simplify_eq; done.
Qed.

(** C11. A file that is closed and opened again has its size and contents: when the
    store does not fail, every sequence of operations on a new file succeeds, closing
    the file succeeds, and opening it again gives the size of the file and a handle
    at position 0 on the same bytes, on which every further sequence of operations
    succeeds and returns what the array does.  The operations are those of
    [blkdb_refines]: writes that are not empty and overlap no earlier block unless
    they replace it. *)
Theorem blkdb_reopen ops create d s d' :
  Reliable -> Unused d -> zlen ops < 2 ^ 31 -> Creat opts e d = (inr s, d') ->
  Works (fun f s d => exists d', Close opts e s d = Some (kOk, d')
      /\ exists mtime s', Open opts e create false d' = Some (inr (mtime, zlen (f_data f), s'), d')
      /\ forall ops', zlen ops' < 2 ^ 31 -> Works (fun _ _ _ => True) (mkFile (f_data f) 0 (f_ext f)) ops' s' d') new_file ops s d'.
Proof.
  intros HR Hu Hn HC. eapply Works_mono; [|apply (Runs_Works (fun f bad s d => bad = bad_state s /\ Inv s d f 0) ops HR)].
  - clear -HR. cbv beta. intros f s d [Hb HI]. symmetry in Hb. destruct (Close_spec s d f 0 HR HI Hb) as (d' & Ec & HB & HH). exists d'. split; [done|].
    assert (HO : forall n, n < 2 ^ 31 -> _) by (intros n Hn; exact (Open_flushed_spec f d' n create HR (iv_layout _ _ _ _ HI) HB HH Hn)).
    destruct (HO 0 ltac:(lia)) as (mt & s' & Eo & _). exists mt, s'. split; [done|]. intros ops' Hn'.
    destruct (HO (zlen ops') Hn') as (mt' & s'' & Eo' & HI'). rewrite Eo in Eo'. injection Eo' as <- <-.
    apply (Runs_Works (fun _ _ _ _ => True)); [done|]. rewrite <- (Open_state _ _ _ _ _ Eo). by apply (Runs_Inv _ ops' _ _ _ 0).
  - rewrite <- (bad_state_new _ _ _ HC). apply (Runs_Inv _ ops _ _ _ 0); [lia|by eapply Creat_spec|done].
Qed.

End Props.

(** ** A store in memory *)

(** Statuses for the next updates, and the number of moves after which cursors
    fail; both count only when [faulty]. *)
Record MemStoreDb := mkMemStore { ms_map : gmap bytes bytes; ms_errors : list Status; ms_moves : option nat }.
Record MemCursor := mkMemCursor { mc_map : gmap bytes bytes; mc_key : option bytes; mc_status : Status; mc_moves : option nat }.

Section MemStore.
Context (faulty : bool).

Definition ms_status (d : MemStoreDb) : Status := if faulty then default kOk (head (ms_errors d)) else kOk.
Definition ms_Put (sync : bool) (k v : bytes) (d : MemStoreDb) : Status * MemStoreDb :=
  (ms_status d, mkMemStore (if ok (ms_status d) then <[k := v]> (ms_map d) else ms_map d) (tail (ms_errors d)) (ms_moves d)).
Definition ms_SyncWAL (d : MemStoreDb) : Status * MemStoreDb := (ms_status d, mkMemStore (ms_map d) (tail (ms_errors d)) (ms_moves d)).
Definition ms_NewIterator (d : MemStoreDb) : MemCursor := mkMemCursor (ms_map d) None kOk (if faulty then ms_moves d else None).

Definition mc_move (l : list (bytes * bytes)) (c : MemCursor) : MemCursor :=
  match (if faulty then mc_moves c else None) with
  | Some O => mkMemCursor (mc_map c) None kIOError (Some O)
  | n => mkMemCursor (mc_map c) (fst <$> head l) kOk (pred <$> n)
  end.
Definition mc_Seek (k : bytes) (c : MemCursor) : MemCursor := mc_move (entries_from (mc_map c) k) c.
Definition mc_Next (c : MemCursor) : MemCursor :=
  match mc_key c with Some k => mc_move (tail (entries_from (mc_map c) k)) c | None => c end.
Definition mc_entry (c : MemCursor) : option (bytes * bytes) :=
  let? k := mc_key c in let? v := mc_map c !! k in Some (k, v).

Lemma mc_map_move l c : mc_map (mc_move l c) = mc_map c.
Proof. unfold mc_move. by destruct (if faulty then _ else _) as [[]|]. Qed.

Lemma mc_entry_move l c x : (forall y, y ∈ l -> mc_map c !! y.1 = Some y.2) -> mc_entry (mc_move l c) = Some x -> head l = Some x.
Proof.
  intros Hl. unfold mc_entry, mc_move. destruct l as [|y l].
  - by destruct (if faulty then _ else _) as [[]|].
  - assert (Hy : mc_map c !! y.1 = Some y.2) by (apply Hl; left). destruct (if faulty then _ else _) as [[]|]; cbn; [done|..]; rewrite Hy; intros [= <-]; by destruct y.
Qed.

Lemma mc_entry_move_end l c : (forall y, y ∈ l -> mc_map c !! y.1 = Some y.2) -> mc_entry (mc_move l c) = None ->
  (if faulty then mc_status (mc_move l c) else kOk) = kOk -> l = [].
Proof.
  intros Hl. unfold mc_entry, mc_move. destruct l as [|y l]; [done|].
  assert (Hy : mc_map c !! y.1 = Some y.2) by (apply Hl; left).
  destruct faulty; [destruct (mc_moves c) as [[]|]|]; cbn; rewrite ?Hy; done.
Qed.

Lemma entries_in_map m k y : y ∈ entries_from m k -> m !! y.1 = Some y.2.
Proof. by intros [? _]%entries_from_in. Qed.

Lemma tail_entries_in_map m k y : y ∈ tail (entries_from m k) -> m !! y.1 = Some y.2.
Proof. intros Hy. apply (entries_in_map m k). destruct (entries_from m k); [done|]. by right. Qed.

Lemma mc_entry_key c k v : mc_entry c = Some (k, v) -> mc_key c = Some k /\ mc_map c !! k = Some v.
Proof. unfold mc_entry. destruct (mc_key c) as [k'|]; [|done]. destruct (mc_map c !! k') eqn:E; [|done]. by intros [= <- <-]. Qed.

#[refine] Instance mem_store : Store := {|
  Db := MemStoreDb; Cursor := MemCursor; s_view := ms_map; s_Put := ms_Put; s_SyncWAL := ms_SyncWAL;
  s_NewIterator := ms_NewIterator; c_Seek := mc_Seek; c_Next := mc_Next; c_entry := mc_entry;
  c_status := fun c => if faulty then mc_status c else kOk; c_view := mc_map |}.
Proof.
  - intros sync k v d E. cbn in *. by rewrite E.
  - intros sync k v d E. cbn in *. apply ok_false in E. by rewrite E.
  - done.
  - done.
  - intros. apply mc_map_move.
  - intros c. unfold mc_Next. destruct (mc_key c); [apply mc_map_move|done].
  - by intros c k v [_ ?]%mc_entry_key.
  - intros k c x E. eapply mc_entry_move; [|exact E]. apply entries_in_map.
  - intros k c E Hs. eapply mc_entry_move_end; [|exact E|exact Hs]. apply entries_in_map.
  - intros c k v x [Hk _]%mc_entry_key E. unfold mc_Next in E. rewrite Hk in E. eapply mc_entry_move; [|exact E]. apply tail_entries_in_map.
  - intros c k v [Hk _]%mc_entry_key E Hs. unfold mc_Next in E, Hs. rewrite Hk in E, Hs. eapply mc_entry_move_end; [|exact E|exact Hs]. apply tail_entries_in_map.
Defined.
End MemStore.

Module BlkDemo.

Definition opts : BlkDBOptions := mkBlkOptions 1 false.
Definition file : Fentry := mkFentry (mkStat 0 0 7 0 33188 0 0 0 0 0) [] (mkDirId 0 0 1) 0.
Definition empty (errors : list Status) (moves : option nat) : MemStoreDb := mkMemStore ∅ errors moves.

Definition start (b : bool) (d : MemStoreDb) := Creat (H := mem_store b) opts file d.

(** The results of operations on a new file. *)
Fixpoint results (b : bool) (ops : list FileOp) (s : Stream (H := mem_store b)) (d : Db (Store := mem_store b)) : list FileRes :=
  match ops with
  | [] => []
  | op :: ops => match run_op (H := mem_store b) opts file op s d with Some (r, s, d) => r :: results b ops s d | None => [] end
  end.
Definition on_new_file (b : bool) (ops : list FileOp) (d : MemStoreDb) : list FileRes :=
  match start b d with (inr s, d) => results b ops s d | _ => [] end.

Definition script : list FileOp :=
  [OWrite [1; 2; 3] 10; OPwrite [7; 8] 6 11; OWrite [4; 5] 12; OPread 0 100; ORead 2; OPread 4 3; OFlush true; OFstat].

Example script_results : on_new_file false script (empty [] None) =
  [mkRes kOk [] 0; mkRes kOk [] 0; mkRes kOk [] 0; mkRes kOk [1; 2; 3; 4; 5; 0; 7; 8] 0; mkRes kOk [0; 7] 0; mkRes kOk [5; 0; 7] 0;
   mkRes kOk [] 0; mkRes kOk [] 8].
Proof. vm_compute. reflexivity. Qed.

(** An empty write at the end of a block replaces the block: its data reads as
    zeros afterwards. *)
Example empty_write_erases : on_new_file false [OWrite [1; 2; 3] 10; OWrite [] 11; OPread 0 3] (empty [] None) =
  [mkRes kOk [] 0; mkRes kOk [] 0; mkRes kOk [0; 0; 0] 0].
Proof. vm_compute. reflexivity. Qed.

(** A write inside an earlier block hides the start of it. *)
Example overlapping_write_hides : on_new_file false [OPwrite [1; 2; 3; 4; 5; 6] 0 10; OPwrite [9] 3 11; OPread 0 6] (empty [] None) =
  [mkRes kOk [] 0; mkRes kOk [] 0; mkRes kOk [0; 0; 0; 9; 5; 6] 0].
Proof. vm_compute. reflexivity. Qed.
(** [Close] reports OK when the header could not be written: the file is empty when
    it is opened again. *)
Definition write_and_close (d : MemStoreDb) : option (Status * Z) :=
  match start true d with
  | (inr s, d) =>
      let '(_, s, d) := Write (H := mem_store true) opts file [1; 2; 3] 10 s d in
      let? (st, d) := Close (H := mem_store true) opts file s d in
      match Open (H := mem_store true) opts file false false d with Some (inr (_, size, _), _) => Some (st, size) | _ => None end
  | _ => None
  end.
Example close_hides_error : write_and_close (empty [kOk; kOk; kIOError] None) = Some (kOk, 0) /\ write_and_close (empty [] None) = Some (kOk, 3).
Proof. split; vm_compute; reflexivity. Qed.

(** [Open] takes a read error for the end of the header records, finds no header
    and writes an empty one over that of the file. *)
Definition reopen_after_read_error (moves : option nat) : option (Z * option (StreamHeader * bytes)) :=
  match start true (empty [] None) with
  | (inr s, d) =>
      let '(_, s, d) := Write (H := mem_store true) opts file [1; 2; 3] 10 s d in
      let? (_, d) := Close (H := mem_store true) opts file s d in
      match Open (H := mem_store true) opts file true false (mkMemStore (ms_map d) [] moves) with
      | Some (inr (_, size, _), d) => Some (size, let? v := ms_map d !! header_key opts file in StreamHeader_DecodeFrom v)
      | _ => None
      end
  | _ => None
  end.
Example open_ignores_read_error :
  reopen_after_read_error (Some O) = Some (0, Some (mkHeader 0 0, [])) /\ reopen_after_read_error None = Some (3, Some (mkHeader 10 3, [])).
Proof. split; vm_compute; reflexivity. Qed.

Lemma empty_unused b errors moves : Unused (H := mem_store b) file (empty errors moves).
Proof. intros k v Hm. cbn in Hm. by rewrite lookup_empty in Hm. Qed.

(** After a failed write the handle refuses to write, flush and stat, and still reads. *)
Example failed_write_refuses :
  on_new_file true [OWrite [1; 2] 10; OWrite [3] 11; OPwrite [4] 9 12; OFlush true; OFstat; OPread 0 9] (empty [kOk; kOk; kIOError] None) =
  [mkRes kOk [] 0; mkRes kIOError [] 0; mkRes kIOError [] 0; mkRes kIOError [] 0; mkRes kIOError [] 0; mkRes kOk [1; 2] 0].
Proof. vm_compute. reflexivity. Qed.


Lemma blkdb_reopen_witness :
  exists s d', start false (empty [] None) = (inr s, d')
    /\ Works (H := mem_store false) opts file (fun f s d =>
         exists d', Close (H := mem_store false) opts file s d = Some (kOk, d')
           /\ exists mtime s', Open (H := mem_store false) opts file false false d' = Some (inr (mtime, zlen (f_data f), s'), d')
           /\ forall ops', zlen ops' < 2 ^ 31 -> Works (H := mem_store false) opts file (fun _ _ _ => True) (mkFile (f_data f) 0 (f_ext f)) ops' s' d')
         new_file script s d'.
Proof.
  eexists _, _. split; [reflexivity|].
  apply (blkdb_reopen (H := mem_store false) opts file script false (empty [] None)); [by split|apply empty_unused|by vm_compute|reflexivity].
Defined.
End BlkDemo.
