(* ===== verification/MdsApi.v ===== *)
(** * The metadata interface (src/libdeltafs/mds_api.h)

    [class MDS]: the options and results of its fifteen operations, the
    interface itself as a record of operations over the implementation's state,
    and the implementations that wrap another one: [MDSWrapper] and the two
    call monitors.  [MDS::SRV] implements it in [MdsSrv], the RPC client and
    server in [MdsRpc]. *)
From S2P Require Import Prelude Coding Status FsTypes.

(** ** File modes and flags *)

Definition S_IFMT : Z := 0xf000.
Definition S_IFREG : Z := 0x8000.
Definition S_IFDIR : Z := 0x4000.
Definition ACCESSPERMS : Z := 0x1ff.
Definition DELTAFS_DIR_MASK : Z := 0xf0000.
Definition DELTAFS_DIR_PLFS_STYLE : Z := 0x10000.
Definition DELTAFS_DIR_IS_PLFS_STYLE (mode : Z) : bool :=
  Z.land mode DELTAFS_DIR_MASK =? DELTAFS_DIR_PLFS_STYLE.
Definition S_IRUSR : Z := 256.
Definition S_IWUSR : Z := 128.
Definition S_IXUSR : Z := 64.
Definition S_IRGRP : Z := 32.
Definition S_IWGRP : Z := 16.
Definition S_IXGRP : Z := 8.
Definition S_IROTH : Z := 4.
Definition S_IWOTH : Z := 2.
Definition S_IXOTH : Z := 1.
Definition R_OK : Z := 4.
Definition W_OK : Z := 2.
Definition X_OK : Z := 1.
Definition O_EXCL : Z := 0x80.
Definition DELTAFS_MAX_MICROS : Z := 2 ^ 63 - 1.
Definition DELTAFS_NAME_MAX : Z := 255.
Definition S_ISREG (mode : Z) : bool := Z.land mode S_IFMT =? S_IFREG.
Definition S_ISDIR (mode : Z) : bool := Z.land mode S_IFMT =? S_IFDIR.
(** [DELTAFS_NON_MOD], [DELTAFS_NON_UID] and [DELTAFS_NON_GID] *)
Definition DELTAFS_NON : Z := 2 ^ 32 - 1.

(** ** Requests and replies *)

Record BaseOptions := mkBase {
  dir_id : DirId; session_id : Z; op_due : Z; name_hash : bytes; name : bytes }.

Record FcreatOptions := mkFcreat {
  fc_base : BaseOptions; fc_flags : Z; fc_mode : Z; fc_uid : Z; fc_gid : Z }.
Record MkdirOptions := mkMkdir {
  mk_base : BaseOptions; mk_flags : Z; mk_mode : Z; mk_uid : Z; mk_gid : Z }.
Record ChmodOptions := mkChmod { cm_base : BaseOptions; cm_mode : Z }.
Record ChownOptions := mkChown { co_base : BaseOptions; co_uid : Z; co_gid : Z }.
Record UpermOptions := mkUperm {
  up_base : BaseOptions; up_mode : Z; up_uid : Z; up_gid : Z }.
Record UtimeOptions := mkUtime { ut_base : BaseOptions; ut_atime : Z; ut_mtime : Z }.
Record TruncOptions := mkTrunc { tr_base : BaseOptions; tr_mtime : Z; tr_size : Z }.
Record UnlinkOptions := mkUnlink { un_base : BaseOptions; un_flags : Z }.

(** [created] is an [unsigned char] the server only sets to 0 or 1. *)
Record FcreatRet := mkFcreatRet { created : bool; fc_stat : Stat }.
Record OpensessionRet := mkOpensessionRet {
  os_env_name : bytes; os_env_conf : bytes; os_fio_name : bytes; os_fio_conf : bytes;
  os_session_id : Z }.

(** What a handler does: return OK with its reply filled in, return an error
    status, or throw a [Redirect] holding an encoded directory index. *)
Inductive Outcome (A : Type) :=
  | Ok (ret : A)
  | Error (s : Status)
  | Redirected (idx : bytes).
Arguments Ok {A} _.
Arguments Error {A} _.
Arguments Redirected {A} _.

Definition map_outcome {A B} (f : A -> B) (out : Outcome A) : Outcome B :=
  match out with Ok a => Ok (f a) | Error s => Error s | Redirected i => Redirected i end.

(** The requests of all operations under one type, and their replies. *)
Inductive Request :=
  | RFstat (b : BaseOptions) | RFcreat (q : FcreatOptions) | RMkdir (q : MkdirOptions)
  | RChmod (q : ChmodOptions) | RChown (q : ChownOptions) | RUperm (q : UpermOptions)
  | RUtime (q : UtimeOptions) | RTrunc (q : TruncOptions) | RUnlink (q : UnlinkOptions)
  | RLookup (b : BaseOptions) | RListdir (b : BaseOptions) | RReadidx (b : BaseOptions)
  | ROpensession | RGetinput | RGetoutput.

Inductive Reply :=
  | PStat (s : Stat) | PFcreat (r : FcreatRet) | PLookup (s : LookupStat)
  | PNames (l : list bytes) | PBytes (b : bytes) | PSession (r : OpensessionRet).

(** The directory a request is about. *)
Definition target (r : Request) : option DirId :=
  match r with
  | RFstat b | RLookup b | RListdir b | RReadidx b => Some (dir_id b)
  | RFcreat q => Some (dir_id (fc_base q)) | RMkdir q => Some (dir_id (mk_base q))
  | RChmod q => Some (dir_id (cm_base q)) | RChown q => Some (dir_id (co_base q))
  | RUperm q => Some (dir_id (up_base q)) | RUtime q => Some (dir_id (ut_base q))
  | RTrunc q => Some (dir_id (tr_base q)) | RUnlink q => Some (dir_id (un_base q))
  | ROpensession | RGetinput | RGetoutput => None
  end.

Definition req_wf (r : Request) : Prop :=
  match target r with Some id => DirId_wf id | None => True end.

(** ** Operation codes (the enumeration of mds_api.cc) *)

Inductive Op :=
  | kNonop | kFstat | kFcreat | kMkdir | kChmod | kChown | kUperm | kUtime | kTrunc
  | kUnlink | kLookup | kListdir | kReadidx | kOpensession | kGetinput | kGetoutput.

#[export] Instance Op_eq_dec : EqDecision Op.
Proof. solve_decision. Defined.

Definition op_code (p : Op) : Z :=
  match p with
  | kNonop => 0 | kFstat => 1 | kFcreat => 2 | kMkdir => 3 | kChmod => 4 | kChown => 5
  | kUperm => 6 | kUtime => 7 | kTrunc => 8 | kUnlink => 9 | kLookup => 10
  | kListdir => 11 | kReadidx => 12 | kOpensession => 13 | kGetinput => 14
  | kGetoutput => 15
  end.

Definition request_op (r : Request) : Op :=
  match r with
  | RFstat _ => kFstat | RFcreat _ => kFcreat | RMkdir _ => kMkdir | RChmod _ => kChmod
  | RChown _ => kChown | RUperm _ => kUperm | RUtime _ => kUtime | RTrunc _ => kTrunc
  | RUnlink _ => kUnlink | RLookup _ => kLookup | RListdir _ => kListdir
  | RReadidx _ => kReadidx | ROpensession => kOpensession | RGetinput => kGetinput
  | RGetoutput => kGetoutput
  end.

(** ** The interface *)

(** A call comes back, or the process it runs in goes wrong on the way: a
    message body is written past the end of its buffer, [Status::FromCode] is
    given a number that is no error code, or an exception leaves a function
    that must not throw. *)
Inductive Crashed := BufOverflow | FromCodeRange | UncaughtRedirect.

Inductive Run (A : Type) :=
  | Done (out : Outcome A)
  | Crash (c : Crashed).
Arguments Done {A} _.
Arguments Crash {A} _.

Definition map_run {A B} (f : A -> B) (r : Run A) : Run B :=
  match r with Done out => Done (map_outcome f out) | Crash c => Crash c end.

Definition run_ok {A} (r : Run A) : bool :=
  match r with Done (Ok _) => true | _ => false end.

Record MDS (St : Type) := mkMDS {
  call_Fstat : BaseOptions -> St -> Run Stat * St;
  call_Fcreat : FcreatOptions -> St -> Run FcreatRet * St;
  call_Mkdir : MkdirOptions -> St -> Run Stat * St;
  call_Chmod : ChmodOptions -> St -> Run Stat * St;
  call_Chown : ChownOptions -> St -> Run Stat * St;
  call_Uperm : UpermOptions -> St -> Run Stat * St;
  call_Utime : UtimeOptions -> St -> Run Stat * St;
  call_Trunc : TruncOptions -> St -> Run Stat * St;
  call_Unlink : UnlinkOptions -> St -> Run Stat * St;
  call_Lookup : BaseOptions -> St -> Run LookupStat * St;
  call_Listdir : BaseOptions -> St -> Run (list bytes) * St;
  call_Readidx : BaseOptions -> St -> Run bytes * St;
  call_Opensession : unit -> St -> Run OpensessionRet * St;
  call_Getinput : unit -> St -> Run bytes * St;
  call_Getoutput : unit -> St -> Run bytes * St
}.
Arguments mkMDS {St} _ _ _ _ _ _ _ _ _ _ _ _ _ _ _.
Arguments call_Fstat {St} _ _ _.
Arguments call_Fcreat {St} _ _ _.
Arguments call_Mkdir {St} _ _ _.
Arguments call_Chmod {St} _ _ _.
Arguments call_Chown {St} _ _ _.
Arguments call_Uperm {St} _ _ _.
Arguments call_Utime {St} _ _ _.
Arguments call_Trunc {St} _ _ _.
Arguments call_Unlink {St} _ _ _.
Arguments call_Lookup {St} _ _ _.
Arguments call_Listdir {St} _ _ _.
Arguments call_Readidx {St} _ _ _.
Arguments call_Opensession {St} _ _ _.
Arguments call_Getinput {St} _ _ _.
Arguments call_Getoutput {St} _ _ _.

Definition answer {A St} (f : A -> Reply) (r : Run A * St) : Run Reply * St :=
  (map_run f r.1, r.2).

(** One request through the interface, and a sequence of them. *)
Definition mds_call {St} (m : MDS St) (r : Request) (st : St) : Run Reply * St :=
  match r with
  | RFstat q => answer PStat (call_Fstat m q st)
  | RFcreat q => answer PFcreat (call_Fcreat m q st)
  | RMkdir q => answer PStat (call_Mkdir m q st)
  | RChmod q => answer PStat (call_Chmod m q st)
  | RChown q => answer PStat (call_Chown m q st)
  | RUperm q => answer PStat (call_Uperm m q st)
  | RUtime q => answer PStat (call_Utime m q st)
  | RTrunc q => answer PStat (call_Trunc m q st)
  | RUnlink q => answer PStat (call_Unlink m q st)
  | RLookup q => answer PLookup (call_Lookup m q st)
  | RListdir q => answer PNames (call_Listdir m q st)
  | RReadidx q => answer PBytes (call_Readidx m q st)
  | ROpensession => answer PSession (call_Opensession m tt st)
  | RGetinput => answer PBytes (call_Getinput m tt st)
  | RGetoutput => answer PBytes (call_Getoutput m tt st)
  end.

Fixpoint mds_run {St} (m : MDS St) (rs : list Request) (st : St)
  : list (Run Reply) * St :=
  match rs with
  | [] => ([], st)
  | r :: rs =>
      let (a, st) := mds_call m r st in
      let (l, st) := mds_run m rs st in (a :: l, st)
  end.

(** ** MDSWrapper *)

Section Wrapper.
Context {St : Type} (base_ : option (MDS St)).

(** [DEF_OP]: forward to [base_], or [NotSupported] when there is none. *)
Definition wrap_op {Q A} (f : MDS St -> Q -> St -> Run A * St) (q : Q) (st : St) : Run A * St :=
  match base_ with
  | Some base => f base q st
  | None => (Done (Error kNotSupported), st)
  end.

Definition MDSWrapper : MDS St :=
  mkMDS (wrap_op call_Fstat) (wrap_op call_Fcreat) (wrap_op call_Mkdir) (wrap_op call_Chmod)
    (wrap_op call_Chown) (wrap_op call_Uperm) (wrap_op call_Utime) (wrap_op call_Trunc)
    (wrap_op call_Unlink) (wrap_op call_Lookup) (wrap_op call_Listdir) (wrap_op call_Readidx)
    (wrap_op call_Opensession) (wrap_op call_Getinput) (wrap_op call_Getoutput).

End Wrapper.

(** ** Monitors *)

Definition bump {K} `{EqDecision K} (k : K) (c : K -> Z) : K -> Z :=
  fun k' => if decide (k' = k) then u64 (c k' + 1) else c k'.

(** The operations that have a counter: the three administrative ones are
    inherited from [MDSWrapper]. *)
Definition monitored (p : Op) : bool :=
  match p with kNonop | kOpensession | kGetinput | kGetoutput => false | _ => true end.

(** [SimpleMDSMonitor]: a counter per operation, next to the state of the base. *)
Module SimpleMDSMonitor.
Section Monitor.
Context {St : Type} (base : option (MDS St)).

Definition State : Type := (Op -> Z) * St.
Definition Reset (st : State) : State := (fun _ => 0, st.2).
Definition Get_count (p : Op) (st : State) : Z := st.1 p.

(** [DEF_OP] *)
Definition def_op {Q A} (p : Op) (f : MDS St -> Q -> St -> Run A * St) (q : Q) (st : State)
  : Run A * State :=
  let (s, st') := f (MDSWrapper base) q st.2 in
  (s, (if run_ok s then bump p st.1 else st.1, st')).

Definition inherit {Q A} (f : MDS St -> Q -> St -> Run A * St) (q : Q) (st : State)
  : Run A * State :=
  let (s, st') := f (MDSWrapper base) q st.2 in (s, (st.1, st')).

Definition Monitor : MDS State :=
  mkMDS (def_op kFstat call_Fstat) (def_op kFcreat call_Fcreat) (def_op kMkdir call_Mkdir)
    (def_op kChmod call_Chmod) (def_op kChown call_Chown) (def_op kUperm call_Uperm)
    (def_op kUtime call_Utime) (def_op kTrunc call_Trunc) (def_op kUnlink call_Unlink)
    (def_op kLookup call_Lookup) (def_op kListdir call_Listdir)
    (def_op kReadidx call_Readidx) (inherit call_Opensession) (inherit call_Getinput)
    (inherit call_Getoutput).
End Monitor.
End SimpleMDSMonitor.

(** [PseudoConcurrentMDSMonitor]: 16 counters per operation.  A call is counted
    in the slot of the calling thread; [hash] is the hash of its thread id,
    which the environment supplies with the call. *)
Module PseudoConcurrentMDSMonitor.
Section Monitor.
Context {St : Type} (base : option (MDS St)).

Definition N : Z := 16.
Definition State : Type := (Op * Z -> Z) * St.
Definition Reset (st : State) : State := (fun _ => 0, st.2).
(** The loop that sums the slots. *)
Definition Get_count (p : Op) (st : State) : Z :=
  foldl (fun sum i => u64 (sum + st.1 (p, i))) 0 (Z.of_nat <$> seq 0 16).

Definition def_op {Q A} (hash : Z) (p : Op) (f : MDS St -> Q -> St -> Run A * St) (q : Q)
  (st : State) : Run A * State :=
  let (s, st') := f (MDSWrapper base) q st.2 in
  (s, (if run_ok s then bump (p, hash mod N) st.1 else st.1, st')).

Definition inherit {Q A} (f : MDS St -> Q -> St -> Run A * St) (q : Q) (st : State)
  : Run A * State :=
  let (s, st') := f (MDSWrapper base) q st.2 in (s, (st.1, st')).

Definition Monitor (hash : Z) : MDS State :=
  let op {Q A} := @def_op Q A hash in
  mkMDS (op kFstat call_Fstat) (op kFcreat call_Fcreat) (op kMkdir call_Mkdir)
    (op kChmod call_Chmod) (op kChown call_Chown) (op kUperm call_Uperm)
    (op kUtime call_Utime) (op kTrunc call_Trunc) (op kUnlink call_Unlink)
    (op kLookup call_Lookup) (op kListdir call_Listdir)
    (op kReadidx call_Readidx) (inherit call_Opensession) (inherit call_Getinput)
    (inherit call_Getoutput).

(** Calls of several threads, one after the other. *)
Fixpoint run (rs : list (Z * Request)) (st : State) : list (Run Reply) * State :=
  match rs with
  | [] => ([], st)
  | (hash, r) :: rs =>
      let (a, st) := mds_call (Monitor hash) r st in
      let (l, st) := run rs st in (a :: l, st)
  end.
End Monitor.
End PseudoConcurrentMDSMonitor.

(** ** The monitors count every successful call, and change nothing else *)

Section Monitors.
Context {St : Type}.

(** The successful calls of an operation among the answers to [rs]. *)
Definition ok_calls (p : Op) (rs : list Request) (answers : list (Run Reply)) : Z :=
  zlen (filter (fun x => request_op x.1 = p /\ run_ok x.2 = true) (zip rs answers)).

Lemma run_ok_map {A B} (f : A -> B) (r : Run A) : run_ok (map_run f r) = run_ok r.
Proof. by destruct r as [[]|]. Qed.

Lemma ok_calls_cons p r a rs answers :
  ok_calls p (r :: rs) (a :: answers)
  = (if decide (request_op r = p) then if run_ok a then 1 else 0 else 0)
    + ok_calls p rs answers.
Proof.
  unfold ok_calls. cbn [zip zip_with]. rewrite filter_cons. simpl.
  destruct (decide (request_op r = p)), (run_ok a); rewrite ?decide_True, ?decide_False by naive_solver;
    autorewrite with zlen; lia.
Qed.

Ltac one_call :=
  match goal with
  | r : Request |- _ =>
      destruct r; cbn [mds_call request_op monitored]; unfold answer; cbn;
      match goal with |- context [let (_, _) := ?x in _] => destruct x as [?s ?st'] end;
      cbn; rewrite run_ok_map, ?andb_true_r, ?andb_false_r; done
  end.

Lemma Simple_call (base : MDS St) r c st :
  mds_call (SimpleMDSMonitor.Monitor (Some base)) r (c, st)
  = let (a, st') := mds_call base r st in
    (a, (if run_ok a && monitored (request_op r) then bump (request_op r) c else c, st')).
Proof.
  unfold SimpleMDSMonitor.Monitor, SimpleMDSMonitor.def_op, SimpleMDSMonitor.inherit, MDSWrapper,
    wrap_op. one_call.
Qed.

Lemma Pseudo_call (base : MDS St) hash r c st :
  mds_call (PseudoConcurrentMDSMonitor.Monitor (Some base) hash) r (c, st)
  = let (a, st') := mds_call base r st in
    (a, (if run_ok a && monitored (request_op r)
         then bump (request_op r, hash mod PseudoConcurrentMDSMonitor.N) c else c, st')).
Proof.
  unfold PseudoConcurrentMDSMonitor.Monitor, PseudoConcurrentMDSMonitor.def_op,
    PseudoConcurrentMDSMonitor.inherit, MDSWrapper, wrap_op. one_call.
Qed.

Lemma Simple_run (base : MDS St) rs : forall c st,
  let (answers, st') := mds_run (SimpleMDSMonitor.Monitor (Some base)) rs (c, st) in
  mds_run base rs st = (answers, st'.2) /\
  forall p, st'.1 p = if monitored p then if ok_calls p rs answers =? 0 then c p
                                         else u64 (c p + ok_calls p rs answers)
                      else c p.
Proof.
  induction rs as [|r rs IH]; intros c st; cbn [mds_run].
  { split; [done|]. intros p. by destruct (monitored p). }
  rewrite Simple_call. destruct (mds_call base r st) as [a st1].
  set (c1 := if run_ok a && _ then _ else _). specialize (IH c1 st1).
  destruct (mds_run (SimpleMDSMonitor.Monitor (Some base)) rs (c1, st1)) as [answers [c2 st2]].
  cbn in IH |- *. destruct IH as [-> IH].
  split; [done|]. intros p. rewrite IH, ok_calls_cons. subst c1.
  assert (0 <= ok_calls p rs answers) by apply zlen_nonneg.
  unfold bump. destruct (monitored p) eqn:Hp.
  - destruct (run_ok a) eqn:Ha; cbn [andb].
    + destruct (monitored (request_op r)) eqn:Hr; repeat case_decide; try congruence;
        cmp_cases; subst; try done; try lia;
        first [f_equal; lia | unfold u64; rewrite Zplus_mod_idemp_l; f_equal; lia].
    + destruct (decide (request_op r = p)); done.
  - destruct (run_ok a); cbn [andb]; [|done].
    destruct (monitored (request_op r)) eqn:Hr; [|done]. case_decide; congruence.
Qed.

Definition slot_sum (c : Op * Z -> Z) (p : Op) (slots : list Z) : Z :=
  foldr (fun i sum => c (p, i) + sum) 0 slots.

Lemma slot_sum_cons c p i slots : slot_sum c p (i :: slots) = c (p, i) + slot_sum c p slots.
Proof. done. Qed.

Lemma Get_count_sum p c (st : St) :
  PseudoConcurrentMDSMonitor.Get_count p (c, st) = u64 (slot_sum c p (Z.of_nat <$> seq 0 16)).
Proof.
  unfold PseudoConcurrentMDSMonitor.Get_count. cbn [fst]. change 0 with (u64 0) at 1.
  assert (forall l a, foldl (fun sum i => u64 (sum + c (p, i))) (u64 a) l
                      = u64 (a + slot_sum c p l)) as ->; [|done].
  induction l as [|i l IH]; intros a; cbn [foldl].
  { f_equal. unfold slot_sum. simpl. lia. }
  rewrite slot_sum_cons.
  assert (u64 (u64 a + c (p, i)) = u64 (a + c (p, i))) as ->
    by (unfold u64; by rewrite Zplus_mod_idemp_l).
  rewrite IH. f_equal. lia.
Qed.

Lemma slot_sum_bump c p p' i slots :
  NoDup slots ->
  u64 (slot_sum (bump (p', i) c) p slots)
  = u64 (slot_sum c p slots + if bool_decide (p = p' /\ i ∈ slots) then 1 else 0).
Proof.
  induction 1 as [|j slots Hj _ IH].
  { rewrite bool_decide_eq_false_2 by set_solver. done. }
  rewrite !slot_sum_cons.
  set (x := bump (p', i) c (p, j)).
  assert (u64 (x + slot_sum (bump (p', i) c) p slots)
          = u64 (x + (slot_sum c p slots + if bool_decide (p = p' /\ i ∈ slots) then 1 else 0))) as ->.
  { unfold u64 in *. rewrite <- Zplus_mod_idemp_r, IH, Zplus_mod_idemp_r. done. }
  subst x. unfold bump. destruct (decide ((p, j) = (p', i))) as [Hd|Hd].
  - injection Hd as -> ->. rewrite (bool_decide_eq_false_2 (_ /\ _ ∈ slots)), bool_decide_eq_true_2
      by set_solver.
    unfold u64. rewrite Zplus_mod_idemp_l. f_equal. lia.
  - f_equal. case_bool_decide as H1; case_bool_decide as H2; try lia; exfalso; set_solver.
Qed.

Lemma Pseudo_run (base : MDS St) rs : forall c st,
  let (answers, st') := PseudoConcurrentMDSMonitor.run (Some base) rs (c, st) in
  mds_run base rs.*2 st = (answers, st'.2) /\
  forall p, PseudoConcurrentMDSMonitor.Get_count p st'
            = if monitored p then u64 (PseudoConcurrentMDSMonitor.Get_count p (c, st)
                                       + ok_calls p rs.*2 answers)
              else PseudoConcurrentMDSMonitor.Get_count p (c, st).
Proof.
  induction rs as [|[hash r] rs IH]; intros c st; cbn [PseudoConcurrentMDSMonitor.run].
  { split; [done|]. intros p. destruct (monitored p); [|done].
    rewrite Get_count_sum. change (ok_calls _ _ _) with 0. rewrite Z.add_0_r. unfold u64.
    by rewrite Zmod_mod. }
  rewrite Pseudo_call. cbn [fmap list_fmap mds_run snd].
  destruct (mds_call base r st) as [a st1].
  set (c1 := if run_ok a && _ then _ else _). specialize (IH c1 st1).
  destruct (PseudoConcurrentMDSMonitor.run (Some base) rs (c1, st1)) as [answers [c2 st2]].
  cbn [snd] in IH |- *. destruct IH as [-> IH].
  split; [done|]. intros p. rewrite IH, ok_calls_cons, !Get_count_sum. subst c1.
  set (slots := Z.of_nat <$> seq 0 16).
  set (i := hash mod PseudoConcurrentMDSMonitor.N).
  assert (i ∈ slots).
  { assert (0 <= i < 16) by (apply Z.mod_pos_bound; done).
    apply list_elem_of_fmap. exists (Z.to_nat i). rewrite elem_of_seq. lia. }
  assert (NoDup slots) by (apply NoDup_fmap; [apply _|apply NoDup_seq]).
  destruct (run_ok a); cbn [andb]; [|destruct (decide (request_op r = p)); done].
  destruct (monitored (request_op r)) eqn:Hr.
  - rewrite slot_sum_bump by done.
    destruct (decide (request_op r = p)) as [<-|Hne].
    + rewrite Hr, bool_decide_eq_true_2 by done. unfold u64. rewrite !Zplus_mod_idemp_l.
      f_equal. lia.
    + rewrite bool_decide_eq_false_2 by naive_solver. by rewrite Z.add_0_r.
  - destruct (decide (request_op r = p)) as [<-|Hne]; [by rewrite Hr|done].
Qed.

(** A monitored metadata server answers every sequence of requests as the
    server below it does and leaves it in the same state, and after the sequence
    the counter of each monitored operation is the number of calls of it that
    succeeded (modulo 2^64; the administrative operations have no counter). *)
Theorem monitor_counts (base : MDS St) rs c st :
  let (answers, st') :=
    mds_run (SimpleMDSMonitor.Monitor (Some base)) rs (SimpleMDSMonitor.Reset (c, st)) in
  mds_run base rs st = (answers, st'.2) /\
  forall p, SimpleMDSMonitor.Get_count p st'
            = if monitored p then u64 (ok_calls p rs answers) else 0.
Proof.
  pose proof (Simple_run base rs (fun _ => 0) st) as HS. unfold SimpleMDSMonitor.Reset. cbn [snd].
  destruct (mds_run _ rs _) as [answers st']. destruct HS as [HS1 HS2]. split; [done|].
  intros p. unfold SimpleMDSMonitor.Get_count. rewrite HS2. destruct (monitored p); [|done].
  destruct (Z.eqb_spec (ok_calls p rs answers) 0) as [->|]; [done|by rewrite Z.add_0_l].
Qed.

(** The sharded monitor counts the same, whichever threads make the calls:
    the sum of an operation's 16 slots is the number of its successful calls. *)
Theorem pseudo_monitor_counts (base : MDS St) (rs : list (Z * Request)) c st :
  let (answers, st') :=
    PseudoConcurrentMDSMonitor.run (Some base) rs (PseudoConcurrentMDSMonitor.Reset (c, st)) in
  mds_run base rs.*2 st = (answers, st'.2) /\
  forall p, PseudoConcurrentMDSMonitor.Get_count p st'
            = if monitored p then u64 (ok_calls p rs.*2 answers) else 0.
Proof.
  pose proof (Pseudo_run base rs (fun _ => 0) st) as HS.
  unfold PseudoConcurrentMDSMonitor.Reset. cbn [snd].
  destruct (PseudoConcurrentMDSMonitor.run _ rs _) as [answers st']. destruct HS as [HS1 HS2].
  split; [done|]. intros p. rewrite HS2, Get_count_sum. by destruct (monitored p).
Qed.
End Monitors.
