(* ===== verification/DfsClient.v ===== *)
(** * The file system client (src/libdeltafs/deltafs_client.h, deltafs_client.cc)

    [Client] is the POSIX-like interface over the metadata client, the file data
    service [Fio] and the library of indexed (plfs) directories: a table of file
    descriptors, open file entries with reference counts, handles shared between a
    plfs directory and the files opened under it, the umask, the current root and
    working directory.

    What it calls is the class [Services], whatever it does.  Objects are kept at
    addresses, so that a freed object is seen when it is used; a failed assertion,
    a null pointer and a loop that does not end are outcomes.  Operations run one
    at a time: [mutex_] is released only around calls to the services. *)
From S2P Require Import Prelude Coding Status FsTypes Gigaplus MdsApi.

(** <fcntl.h> *)
Definition O_ACCMODE : Z := 3.
Definition O_RDONLY : Z := 0.
Definition O_WRONLY : Z := 1.
Definition O_RDWR : Z := 2.
Definition O_CREAT : Z := 0x40.
Definition O_TRUNC : Z := 0x200.
Definition O_APPEND : Z := 0x400.
Definition O_DIRECTORY : Z := 0x10000.

Definition has (flags bit : Z) : bool := Z.land flags bit =? bit.
Definition accmode (flags : Z) : Z := Z.land flags O_ACCMODE.

(** ** The services *)

Class Services := {
  W : Type;
  (** a handle of [Fio], a [plfsio::DirWriter] *)
  FH : Type;
  DW : Type;
  mds_Fcreat : bytes -> Z -> bool -> option Fentry -> W -> (Status + Fentry * bool) * W;
  mds_Fstat : bytes -> option Fentry -> W -> (Status + Fentry) * W;
  mds_Ftruncate : Fentry -> Z -> Z -> W -> Status * W;
  mds_Mkdir : bytes -> Z -> bool -> bool -> W -> Status * W;
  mds_Chmod : bytes -> Z -> W -> Status * W;
  mds_Chown : bytes -> Z -> Z -> W -> Status * W;
  mds_Unlink : bytes -> W -> (Status + Fentry) * W;
  mds_Listdir : bytes -> W -> (Status + list bytes) * W;
  mds_Accessdir : bytes -> Z -> W -> Status * W;
  mds_Access : bytes -> Z -> W -> Status * W;
  mds_IsReadOk : Stat -> bool;
  mds_IsWriteOk : Stat -> bool;
  fio_Creat : Fentry -> bool -> W -> (Status + FH) * W;
  fio_Open : Fentry -> bool -> bool -> bool -> W -> (Status + Z * Z * FH) * W;
  fio_Fstat : Fentry -> FH -> bool -> W -> (Status + Z * Z) * W;
  fio_Write : Fentry -> FH -> bytes -> W -> Status * W;
  fio_Pwrite : Fentry -> FH -> bytes -> Z -> W -> Status * W;
  fio_Read : Fentry -> FH -> Z -> W -> (Status + bytes) * W;
  fio_Pread : Fentry -> FH -> Z -> Z -> W -> (Status + bytes) * W;
  fio_Ftrunc : Fentry -> FH -> Z -> W -> Status * W;
  fio_Flush : Fentry -> FH -> bool -> W -> Status * W;
  fio_Close : Fentry -> FH -> W -> Status * W;
  fio_Trunc : Fentry -> Z -> W -> Status * W;
  fio_Stat : Fentry -> W -> (Status + Z * Z) * W;
  fio_Drop : Fentry -> W -> Status * W;
  dir_Open : Fentry -> W -> (Status + DW) * W;
  dir_Add : DW -> bytes -> bytes -> W -> Status * W;
  dir_Flush : DW -> W -> Status * W;
  dir_EpochFlush : DW -> W -> Status * W;
  dir_Finish : DW -> W -> Status * W;
  dir_delete : DW -> W -> W }.

(** ** State *)

Section Client.
Context `{Services} (fuel : nat).

(** What [File::fh] points to. *)
Inductive Handle :=
  | HNull
  | HFio (h : FH)
  | HWDir (d : Z)      (* a WritablePlfsDir *)
  | HRDir (d : Z)      (* a ReadablePlfsDir *)
  | HWFile (d : Z)     (* a WritablePlfsFile, with its parent *)
  | HRFile (d : Z).

Record File := mkFile { f_encoding : bytes; f_fh : Handle; f_flags : Z; seq_flush : Z; seq_write : Z; f_refs : Z }.

(** The objects: open files, plfs directories with their reference counts. *)
Record Client := mkClient {
  files : gmap Z File; wdirs : gmap Z (Z * DW); rdirs : gmap Z Z; next_addr : Z;
  fds_ : list (option Z); num_open_fds_ : Z; fd_slot_ : Z;
  mask_ : Z; curroot_ : option bytes; curdir_ : option bytes; world : W }.

Definition max_open_fds_ (c : Client) : Z := zlen (fds_ c).

Definition New (max_open_files : Z) (w : W) : Client :=
  mkClient ∅ ∅ ∅ 1 (replicate (Z.to_nat max_open_files) None) 0 0 (Z.lor S_IWGRP S_IWOTH) None None w.

Definition set_files (x : gmap Z File) (c : Client) : Client :=
  mkClient x (wdirs c) (rdirs c) (next_addr c) (fds_ c) (num_open_fds_ c) (fd_slot_ c) (mask_ c) (curroot_ c) (curdir_ c) (world c).
Definition set_wdirs (x : gmap Z (Z * DW)) (c : Client) : Client :=
  mkClient (files c) x (rdirs c) (next_addr c) (fds_ c) (num_open_fds_ c) (fd_slot_ c) (mask_ c) (curroot_ c) (curdir_ c) (world c).
Definition set_rdirs (x : gmap Z Z) (c : Client) : Client :=
  mkClient (files c) (wdirs c) x (next_addr c) (fds_ c) (num_open_fds_ c) (fd_slot_ c) (mask_ c) (curroot_ c) (curdir_ c) (world c).
Definition set_next (x : Z) (c : Client) : Client :=
  mkClient (files c) (wdirs c) (rdirs c) x (fds_ c) (num_open_fds_ c) (fd_slot_ c) (mask_ c) (curroot_ c) (curdir_ c) (world c).
Definition set_fds (x : list (option Z)) (n slot : Z) (c : Client) : Client :=
  mkClient (files c) (wdirs c) (rdirs c) (next_addr c) x n slot (mask_ c) (curroot_ c) (curdir_ c) (world c).
Definition set_mask (x : Z) (c : Client) : Client :=
  mkClient (files c) (wdirs c) (rdirs c) (next_addr c) (fds_ c) (num_open_fds_ c) (fd_slot_ c) x (curroot_ c) (curdir_ c) (world c).
Definition set_curroot (x : option bytes) (c : Client) : Client :=
  mkClient (files c) (wdirs c) (rdirs c) (next_addr c) (fds_ c) (num_open_fds_ c) (fd_slot_ c) (mask_ c) x (curdir_ c) (world c).
Definition set_curdir (x : option bytes) (c : Client) : Client :=
  mkClient (files c) (wdirs c) (rdirs c) (next_addr c) (fds_ c) (num_open_fds_ c) (fd_slot_ c) (mask_ c) (curroot_ c) x (world c).
Definition set_world (x : W) (c : Client) : Client :=
  mkClient (files c) (wdirs c) (rdirs c) (next_addr c) (fds_ c) (num_open_fds_ c) (fd_slot_ c) (mask_ c) (curroot_ c) (curdir_ c) x.

(** ** Outcomes *)

Inductive Fault :=
  | Dangling                 (* an object that was freed *)
  | Assertion (line : Z)
  | NullPointer (line : Z)
  | Forever (line : Z).      (* a loop took [fuel] rounds *)

Inductive Res (A : Type) := Ret (a : A) | Fail (s : Status) | Abort (f : Fault).
Arguments Ret {A} _. Arguments Fail {A} _. Arguments Abort {A} _.

Definition M (A : Type) : Type := Client -> Res A * Client.
Definition ret {A} (a : A) : M A := fun c => (Ret a, c).
Definition fail {A} (s : Status) : M A := fun c => (Fail s, c).
Definition abort {A} (f : Fault) : M A := fun c => (Abort f, c).
Definition bind {A B} (m : M A) (k : A -> M B) : M B := fun c =>
  match m c with (Ret a, c) => k a c | (Fail s, c) => (Fail s, c) | (Abort f, c) => (Abort f, c) end.
Notation "'let!' x ':=' m 'in' k" := (bind m (fun x => k)) (at level 200, x pattern, m at level 100, k at level 200).

Definition get : M Client := fun c => (Ret c, c).
Definition modify (f : Client -> Client) : M () := fun c => (Ret tt, f c).
Definition assert_ (line : Z) (b : bool) : M () := if b then ret tt else abort (Assertion line).

(** Calls of the services. *)
Definition call (f : W -> Status * W) : M () := fun c =>
  let (s, w) := f (world c) in (if ok s then Ret tt else Fail s, set_world w c).
Definition call_r {A} (f : W -> (Status + A) * W) : M A := fun c =>
  let (r, w) := f (world c) in (match r with inl s => Fail s | inr a => Ret a end, set_world w c).
(** A call whose status is ignored. *)
Definition call_ (f : W -> Status * W) : M () := fun c => let (_, w) := f (world c) in (Ret tt, set_world w c).
(** An operation whose status is the value. *)
Definition attempt {A} (m : M A) : M (Status + A) := fun c =>
  match m c with (Ret a, c) => (Ret (inr a), c) | (Fail s, c) => (Ret (inl s), c) | (Abort f, c) => (Abort f, c) end.
Definition result {A} (r : Status + A) : M A := match r with inl s => fail s | inr a => ret a end.

(** ** Descriptors *)

(** The loop of [Alloc] looks for a free slot from [fd_slot_] on. *)
Fixpoint slot_loop (n : nat) (fds : list (option Z)) (slot : Z) : option Z :=
  match n with
  | O => None
  | S n => match fds !! Z.to_nat slot with Some None => Some slot | _ => slot_loop n fds ((1 + slot) mod zlen fds) end
  end.

Definition Alloc (f : Z) : M Z :=
  let! c := get in
  let! _ := assert_ 216 (num_open_fds_ c <? max_open_fds_ c) in
  match slot_loop (S (length (fds_ c))) (fds_ c) (fd_slot_ c) with
  | None => abort (Forever 217)
  | Some slot =>
      let! _ := modify (set_fds (<[Z.to_nat slot := Some f]> (fds_ c)) (num_open_fds_ c + 1) slot) in ret slot
  end.

Definition Free (index : Z) : M () :=
  let! c := get in
  match mjoin (fds_ c !! Z.to_nat index) with
  | None => abort (Assertion 231)
  | Some _ =>
      let! _ := assert_ 233 (0 <? num_open_fds_ c) in
      modify (set_fds (<[Z.to_nat index := None]> (fds_ c)) (num_open_fds_ c - 1) (fd_slot_ c))
  end.

(** A new object. *)
Definition new_addr : M Z := let! c := get in let! _ := modify (set_next (next_addr c + 1)) in ret (next_addr c).

Definition Open_ (encoding : bytes) (flags : Z) (fh : Handle) : M Z :=
  let! _ := assert_ 241 (negb (zlen encoding =? 0)) in
  let! a := new_addr in
  let! _ := modify (fun c => set_files (<[a := mkFile encoding fh flags 0 0 1]> (files c)) c) in
  Alloc a.

Definition load (a : Z) : M File := let! c := get in match files c !! a with Some f => ret f | None => abort Dangling end.
Definition store (a : Z) (f : File) : M () := modify (fun c => set_files (<[a := f]> (files c)) c).

(** [WritablePlfsDir::Ref], [Unref] and those of [ReadablePlfsDir]. *)
Definition wdir_Ref (d : Z) : M () :=
  let! c := get in
  match wdirs c !! d with Some (r, w) => modify (set_wdirs (<[d := (r + 1, w)]> (wdirs c))) | None => abort Dangling end.
Definition wdir_Unref (d : Z) : M () :=
  let! c := get in
  match wdirs c !! d with
  | Some (r, w) =>
      let! _ := assert_ 144 (0 <? r) in
      if r - 1 =? 0 then modify (fun c => set_world (dir_delete w (world c)) (set_wdirs (delete d (wdirs c)) c))
      else modify (set_wdirs (<[d := (r - 1, w)]> (wdirs c)))
  | None => abort Dangling
  end.
Definition rdir_Ref (d : Z) : M () :=
  let! c := get in
  match rdirs c !! d with Some r => modify (set_rdirs (<[d := r + 1]> (rdirs c))) | None => abort Dangling end.
Definition rdir_Unref (d : Z) : M () :=
  let! c := get in
  match rdirs c !! d with
  | Some r =>
      let! _ := assert_ 73 (0 <? r) in
      if r - 1 =? 0 then modify (set_rdirs (delete d (rdirs c))) else modify (set_rdirs (<[d := r - 1]> (rdirs c)))
  | None => abort Dangling
  end.

(** [ToWritablePlfsDir] and its like: a null pointer fails the assertion, an
    object of another class makes the cast return null. *)
Definition ToWritablePlfsDir (line : Z) (h : Handle) : M Z :=
  match h with HNull => abort (Assertion 154) | HWDir d => ret d | _ => abort (NullPointer line) end.
Definition ToReadablePlfsDir (line : Z) (h : Handle) : M Z :=
  match h with HNull => abort (Assertion 83) | HRDir d => ret d | _ => abort (NullPointer line) end.
Definition ToWritablePlfsFile (line : Z) (h : Handle) : M Z :=
  match h with HNull => abort (Assertion 183) | HWFile d => ret d | _ => abort (NullPointer line) end.
Definition ToReadablePlfsFile (line : Z) (h : Handle) : M Z :=
  match h with HNull => abort (Assertion 112) | HRFile d => ret d | _ => abort (NullPointer line) end.

Definition is_plfs (e : Fentry) : bool := DELTAFS_DIR_IS_PLFS_STYLE (FileMode (fe_stat e)).
Definition is_reg (e : Fentry) : bool := S_ISREG (FileMode (fe_stat e)).
Definition is_dir (e : Fentry) : bool := S_ISDIR (FileMode (fe_stat e)).

(** What is done with the handle when the last reference is gone. *)
Definition release (e : Fentry) (fh : Handle) (flags : Z) : M () :=
  if negb (is_plfs e) then
    if is_reg e then match fh with HFio h => call_ (fio_Close e h) | _ => abort (NullPointer 267) end
    else assert_ 269 (match fh with HNull => true | _ => false end)
  else if is_dir e then
    if accmode flags =? O_WRONLY then let! d := ToWritablePlfsDir 273 fh in wdir_Unref d
    else if accmode flags =? O_RDONLY then let! d := ToReadablePlfsDir 275 fh in rdir_Unref d
    else abort (Assertion 277)
  else
    if accmode flags =? O_WRONLY then let! d := ToWritablePlfsFile 281 fh in wdir_Unref d
    else if accmode flags =? O_RDONLY then let! d := ToReadablePlfsFile 283 fh in rdir_Unref d
    else abort (Assertion 285).

Definition set_refs (n : Z) (f : File) : File := mkFile (f_encoding f) (f_fh f) (f_flags f) (seq_flush f) (seq_write f) n.
Definition set_seq_write (n : Z) (f : File) : File := mkFile (f_encoding f) (f_fh f) (f_flags f) (seq_flush f) n (f_refs f).
Definition set_seq_flush (n : Z) (f : File) : File := mkFile (f_encoding f) (f_fh f) (f_flags f) n (seq_write f) (f_refs f).

Definition Ref (a : Z) : M () := let! f := load a in store a (set_refs (f_refs f + 1) f).

Definition Unref (a : Z) (e : Fentry) : M () :=
  let! f := load a in
  let! _ := assert_ 260 (0 <? f_refs f) in
  if f_refs f - 1 =? 0 then
    let! _ := modify (fun c => set_files (delete a (files c)) c) in release e (f_fh f) (f_flags f)
  else store a (set_refs (f_refs f - 1) f).

Definition IsReadOk (f : File) : bool := negb (accmode (f_flags f) =? O_WRONLY).
Definition IsWriteOk (f : File) : bool := negb (accmode (f_flags f) =? O_RDONLY).

(** [FetchFile]: the object and the entry decoded from it; [index] is [fd] as a
    [size_t]. *)
Definition FetchFile (fd : Z) : M (option (Z * Fentry)) :=
  let! c := get in
  let index := u64 fd in
  if index <? max_open_fds_ c then
    match mjoin (fds_ c !! Z.to_nat index) with
    | None => ret None
    | Some a =>
        let! f := load a in
        match Fentry_DecodeFrom (f_encoding f) with Some (e, _) => ret (Some (a, e)) | None => abort (Assertion 691) end
    end
  else ret None.

Definition BadDescriptor {A} : M A := fail kInvalidFileDescriptor.
Definition FileAccessModeNotMatched {A} : M A := fail kInvalidFileDescriptor.

Definition fetch (fd : Z) : M (Z * Fentry) :=
  let! r := FetchFile fd in match r with Some x => ret x | None => BadDescriptor end.

(** ** Opening *)

Record FileInfo := mkInfo { fi_fd : Z; fi_stat : Stat }.

Definition MaskMode (mode : Z) : M Z := let! c := get in ret (Z.land (u32 (Z.lnot (mask_ c))) mode).

(** "Verify file modes" *)
Definition check_modes (e : Fentry) (flags : Z) : Status :=
  if negb (is_plfs e) then
    if is_dir e then if negb (accmode flags =? O_RDONLY) then kFileExpected else kOk
    else if has flags O_DIRECTORY then kDirExpected else kOk
  else if is_reg e && negb (has flags O_APPEND) then kNotSupported
  else if accmode flags =? O_RDWR then kNotSupported
  else kOk.

(** "Verify I/O permissions" *)
Definition check_permissions (e : Fentry) (flags : Z) : Status :=
  if is_reg e || is_plfs e then
    if negb (accmode flags =? O_RDONLY) && negb (mds_IsWriteOk (fe_stat e)) then kAccessDenied
    else if negb (accmode flags =? O_WRONLY) && negb (mds_IsReadOk (fe_stat e)) then kAccessDenied
    else kOk
  else kOk.

Definition check (s : Status) : M () := if ok s then ret tt else fail s.

(** The handle of a file under the plfs directory [pivot] open in the same mode. *)
Definition plfs_file (mode : Z) (pivot : option (Z * Fentry)) : M Handle :=
  match pivot with
  | Some (a, e) =>
      let! f := load a in
      if is_plfs e && (accmode (f_flags f) =? mode) then
        if mode =? O_WRONLY then let! d := ToWritablePlfsDir 568 (f_fh f) in let! _ := wdir_Ref d in ret (HWFile d)
        else let! d := ToReadablePlfsDir 594 (f_fh f) in let! _ := rdir_Ref d in ret (HRFile d)
      else ret HNull
  | None => ret HNull
  end.

Definition not_null (h : Handle) : M Handle := match h with HNull => fail kInvalidArgument | h => ret h end.

(** "Link file objects": the handle, the size and the modification time. *)
Definition link (e : Fentry) (flags : Z) (is_new : bool) (pivot : option (Z * Fentry)) : M (Handle * Z * Z) :=
  let mtime := ModifyTime (fe_stat e) in
  let size := FileSize (fe_stat e) in
  if negb (is_plfs e) then
    if is_reg e then
      let append_only := has flags O_APPEND in
      if negb is_new then
        let truncate := negb (accmode flags =? O_RDONLY) && has flags O_TRUNC in
        let! (mtime, size, h) := call_r (fio_Open e true truncate append_only) in ret (HFio h, mtime, size)
      else let! h := call_r (fio_Creat e append_only) in ret (HFio h, mtime, size)
    else ret (HNull, mtime, size)
  else if accmode flags =? O_WRONLY then
    let! h :=
      if is_reg e then plfs_file O_WRONLY pivot
      else if is_dir e then
        let! w := call_r (dir_Open e) in
        let! d := new_addr in
        let! _ := modify (fun c => set_wdirs (<[d := (0, w)]> (wdirs c)) c) in ret (HWDir d)
      else ret HNull in
    let! h := not_null h in ret (h, mtime, size)
  else if accmode flags =? O_RDONLY then
    let! h :=
      if is_reg e then plfs_file O_RDONLY pivot
      else if is_dir e then
        let! d := new_addr in
        let! _ := modify (fun c => set_rdirs (<[d := 0]> (rdirs c)) c) in ret (HRDir d)
      else ret HNull in
    let! h := not_null h in ret (h, mtime, size)
  else fail kNotSupported.

(** The first reference of a plfs directory. *)
Definition first_ref (e : Fentry) (flags : Z) (fh : Handle) : M () :=
  if is_dir e && is_plfs e then
    if accmode flags =? O_WRONLY then let! d := ToWritablePlfsDir 621 fh in wdir_Ref d
    else if accmode flags =? O_RDONLY then let! d := ToReadablePlfsDir 623 fh in rdir_Ref d
    else abort (Assertion 625)
  else ret tt.

(** The handle is given back when the table has filled up in the meantime. *)
Definition give_back (e : Fentry) (flags : Z) (fh : Handle) : M () :=
  match fh with
  | HNull => ret tt
  | _ =>
      if negb (is_plfs e) then match fh with HFio h => call_ (fio_Close e h) | _ => abort (NullPointer 635) end
      else if is_dir e then
        if accmode flags =? O_WRONLY then let! d := ToWritablePlfsDir 638 fh in wdir_Unref d
        else if accmode flags =? O_RDONLY then let! d := ToReadablePlfsDir 640 fh in rdir_Unref d
        else abort (Assertion 642)
      else
        if accmode flags =? O_WRONLY then let! d := ToWritablePlfsFile 646 fh in wdir_Unref d
        else if accmode flags =? O_RDONLY then let! d := ToReadablePlfsFile 648 fh in rdir_Unref d
        else abort (Assertion 650)
  end.

(** [SetFileSize] and [SetModifyTime]. *)
Definition set_size_mtime (s : Stat) (size mtime : Z) : Stat :=
  mkStat (RegId s) (SnapId s) (InodeNo s) size (FileMode s) (ZerothServer s) (UserId s) (GroupId s) mtime (ChangeTime s).

Definition InternalOpen (path : bytes) (flags mode : Z) (pivot : option (Z * Fentry)) : M FileInfo :=
  let at_ := snd <$> pivot in
  let! (e, is_new) :=
    if has flags O_CREAT then let! mode := MaskMode mode in call_r (mds_Fcreat path mode (has flags O_EXCL) at_)
    else let! e := call_r (mds_Fstat path at_) in ret (e, false) in
  let! _ := check (check_modes e flags) in
  let! _ := check (check_permissions e flags) in
  let encoding := Fentry_EncodeTo e in
  let! (fh, mtime, size) := link e flags is_new pivot in
  let! _ := first_ref e flags fh in
  let! c := get in
  if max_open_fds_ c <=? num_open_fds_ c then let! _ := give_back e flags fh in fail kTooManyOpens
  else let! fd := Open_ encoding flags fh in ret (mkInfo fd (set_size_mtime (fe_stat e) size mtime)).

Definition slash : Z := 47.

Definition Fopenat (fd : Z) (path : bytes) (flags mode : Z) : M FileInfo :=
  let! x := fetch fd in
  let! c := get in
  if num_open_fds_ c <? max_open_fds_ c then InternalOpen (slash :: path) flags mode (Some x) else fail kTooManyOpens.

(** [SanitizePath] drops the slashes at the end; [None] is InvalidArgument. *)
Fixpoint drop_slashes (rev_path : bytes) : bytes :=
  match rev_path with
  | x :: p => match p with [] => [x] | _ => if x =? slash then drop_slashes p else x :: p end
  | [] => []
  end.
Definition SanitizePath (path : bytes) : Status + bytes :=
  let path := rev (drop_slashes (rev path)) in
  match path with [] => inl kInvalidArgument | _ => inr path end.

Definition expand (curroot curdir : option bytes) (path : bytes) : Status + bytes :=
  match SanitizePath path with
  | inl s => inl s
  | inr path =>
      inr (if bool_decide (head path = Some slash) then match curroot with Some r => r ++ path | None => path end
           else match curdir with Some d => d ++ slash :: path | None => slash :: path end)
  end.

Definition ExpandPath (path : bytes) : M bytes := let! c := get in result (expand (curroot_ c) (curdir_ c) path).

Definition Fopen (path : bytes) (flags mode : Z) : M FileInfo :=
  let! p := ExpandPath path in
  let! c := get in
  if num_open_fds_ c <? max_open_fds_ c then InternalOpen p flags mode None else fail kTooManyOpens.

(** ** Operations on descriptors *)

(** A reference is held during the call of a service. *)
Definition with_ref {A} (a : Z) (e : Fentry) (m : M A) : M A :=
  let! _ := Ref a in
  let! r := attempt m in
  let! _ := Unref a e in
  result r.

Definition Fstat (fd : Z) : M Stat :=
  let! (a, e) := fetch fd in
  with_ref a e (
    if negb (is_plfs e) && is_reg e then
      let! f := load a in
      match f_fh f with
      | HFio h => let! (mtime, size) := call_r (fio_Fstat e h false) in ret (set_size_mtime (fe_stat e) size mtime)
      | _ => abort (NullPointer 716)
      end
    else ret (fe_stat e)).

(** The writer of the directory a plfs file is in. *)
Definition parent_writer (line : Z) (h : Handle) : M DW :=
  let! d := ToWritablePlfsFile line h in
  let! c := get in match wdirs c !! d with Some (_, w) => ret w | None => abort Dangling end.

Definition count_write (a : Z) : M () := let! f := load a in store a (set_seq_write (u32 (seq_write f + 1)) f).

Definition write_with (line : Z) (op : Fentry -> FH -> W -> Status * W) (fd : Z) (data : bytes) : M () :=
  let! (a, e) := fetch fd in
  let! f := load a in
  if negb (is_reg e) then FileAccessModeNotMatched
  else if negb (IsWriteOk f) then FileAccessModeNotMatched
  else
    with_ref a e (
      let! _ :=
        if is_plfs e then let! w := parent_writer line (f_fh f) in call (dir_Add w (fe_nhash e) data)
        else match f_fh f with HFio h => call (op e h) | _ => abort (NullPointer line) end in
      count_write a).

Definition Pwrite (fd : Z) (data : bytes) (off : Z) : M () := write_with 745 (fun e h => fio_Pwrite e h data off) fd data.
Definition Write (fd : Z) (data : bytes) : M () := write_with 775 (fun e h => fio_Write e h data) fd data.

Definition Ftruncate (fd len : Z) : M () :=
  let! (a, e) := fetch fd in
  let! f := load a in
  if is_plfs e then FileAccessModeNotMatched
  else if negb (is_reg e) then FileAccessModeNotMatched
  else if negb (IsWriteOk f) then FileAccessModeNotMatched
  else
    with_ref a e (
      let! _ := match f_fh f with HFio h => call (fio_Ftrunc e h len) | _ => abort (NullPointer 806) end in
      count_write a).

(** [InternalFlush] and [InternalFdatasync] differ in two arguments: data and header
    of the file, then size and time at the metadata server. *)
Definition flush_file (force skip_cache : bool) (a : Z) (e : Fentry) : M () :=
  let! f := load a in
  let sw := seq_write f in
  with_ref a e (
    let! _ :=
      match f_fh f with
      | HFio h =>
          let! _ := call (fio_Flush e h force) in
          if seq_flush f <? sw then
            let! (mtime, size) := call_r (fio_Fstat e h skip_cache) in call (mds_Ftruncate e mtime size)
          else ret tt
      | _ => abort (NullPointer 853)
      end in
    let! f := load a in
    if seq_flush f <? sw then store a (set_seq_flush sw f) else ret tt).

Definition InternalFdatasync : Z -> Fentry -> M () := flush_file true true.
Definition InternalFlush : Z -> Fentry -> M () := flush_file false false.

(** The writer of a plfs directory. *)
Definition dir_writer (line : Z) (h : Handle) : M DW :=
  let! d := ToWritablePlfsDir line h in
  let! c := get in match wdirs c !! d with Some (_, w) => ret w | None => abort Dangling end.

(** [Flush] and [Fdatasync]. *)
Definition flush_with (line : Z) (internal : Z -> Fentry -> M ()) (op : DW -> W -> Status * W) (fd : Z) : M () :=
  let! (a, e) := fetch fd in
  let! f := load a in
  if is_plfs e then if is_dir e then let! w := dir_writer line (f_fh f) in call (op w) else ret tt
  else if negb (is_reg e) then fail kNotSupported
  else if IsWriteOk f then internal a e
  else ret tt.

Definition Fdatasync (fd : Z) : M () := flush_with 829 InternalFdatasync dir_Flush fd.
Definition Flush (fd : Z) : M () := flush_with 949 InternalFlush dir_EpochFlush fd.

Definition read_with (op : Fentry -> FH -> W -> (Status + bytes) * W) (plfs : Fentry -> File -> M bytes) (fd : Z) : M bytes :=
  let! (a, e) := fetch fd in
  let! f := load a in
  if negb (is_reg e) then FileAccessModeNotMatched
  else if negb (IsReadOk f) then FileAccessModeNotMatched
  else
    with_ref a e (
      if negb (is_plfs e) then match f_fh f with HFio h => call_r (op e h) | _ => abort (NullPointer 888) end
      else plfs e f).

(** A read of a plfs file sets no result. *)
Definition Pread (fd off size : Z) : M bytes := read_with (fun e h => fio_Pread e h off size) (fun _ _ => ret []) fd.

(** The reader of a plfs directory is never set, which fails an assertion. *)
Definition Read (fd size : Z) : M bytes :=
  read_with (fun e h => fio_Read e h size)
    (fun e f => let! d := ToReadablePlfsFile 915 (f_fh f) in
                let! c := get in match rdirs c !! d with Some _ => abort (Assertion 916) | None => abort Dangling end) fd.

(** The loop of [Close] flushes until the metadata is up to date, and ignores
    errors. *)
Fixpoint close_loop (n : nat) (fd a : Z) : M () :=
  match n with
  | O => abort (Forever 1011)
  | S n => let! f := load a in
           if seq_flush f <? seq_write f then let! _ := attempt (Flush fd) in close_loop n fd a else ret tt
  end.

Definition Close (fd : Z) : M () :=
  let! (a, e) := fetch fd in
  let! f := load a in
  let! _ :=
    if is_plfs e then
      if is_dir e then let! w := dir_writer 1001 (f_fh f) in call_ (dir_Finish w) else ret tt
    else if is_reg e then close_loop fuel fd a
    else ret tt in
  let! _ := Free (u64 fd) in
  Unref a e.

(** ** Operations on paths *)

Definition on_path (op : bytes -> W -> Status * W) (path : bytes) : M () := let! p := ExpandPath path in call (op p).

Definition Access (path : bytes) (mode : Z) : M () := on_path (fun p => mds_Access p mode) path.
Definition Accessdir (path : bytes) (mode : Z) : M () := on_path (fun p => mds_Accessdir p mode) path.
Definition Listdir (path : bytes) : M (list bytes) := let! p := ExpandPath path in call_r (mds_Listdir p).

Definition Lstat (path : bytes) : M Stat :=
  let! p := ExpandPath path in
  let! e := call_r (mds_Fstat p None) in
  if is_reg e then let! (mtime, size) := call_r (fio_Stat e) in ret (set_size_mtime (fe_stat e) size mtime)
  else ret (fe_stat e).

Definition Getattr (path : bytes) : M Stat :=
  let! p := ExpandPath path in let! e := call_r (mds_Fstat p None) in ret (fe_stat e).

Definition Mkfile (path : bytes) (mode : Z) : M () :=
  let! p := ExpandPath path in let! mode := MaskMode mode in let! _ := call_r (mds_Fcreat p mode true None) in ret tt.
Definition Mkdirs (path : bytes) (mode : Z) : M () :=
  let! p := ExpandPath path in let! mode := MaskMode mode in call (mds_Mkdir p mode true false).
Definition Mkdir (path : bytes) (mode : Z) : M () :=
  let! p := ExpandPath path in let! mode := MaskMode mode in call (mds_Mkdir p mode false true).
Definition Chmod (path : bytes) (mode : Z) : M () := on_path (fun p => mds_Chmod p mode) path.
Definition Chown (path : bytes) (usr grp : Z) : M () := on_path (fun p => mds_Chown p usr grp) path.

Definition Truncate (path : bytes) (len : Z) : M () :=
  let! p := ExpandPath path in let! e := call_r (mds_Fstat p None) in call (fio_Trunc e len).

(** The status of dropping the data is ignored. *)
Definition Unlink (path : bytes) : M () :=
  let! p := ExpandPath path in let! e := call_r (mds_Unlink p) in call_ (fio_Drop e).

Definition Umask (mode : Z) : M Z :=
  let! c := get in let! _ := modify (set_mask (Z.land mode ACCESSPERMS)) in ret (mask_ c).

Definition X_OK : Z := 1.

Definition unless_root (p : bytes) : option bytes := if bool_decide (p = [slash]) then None else Some p.

Definition Chroot (path : bytes) : M () :=
  let! p := ExpandPath path in
  let! _ := call (mds_Accessdir p X_OK) in modify (set_curroot (unless_root p)).
Definition Chdir (path : bytes) : M () :=
  let! p := ExpandPath path in
  let! _ := call (mds_Accessdir p X_OK) in modify (set_curdir (unless_root p)).

(** [size] is the size of the caller's buffer, [None] a null pointer. *)
Definition Getcwd (size : option Z) : M bytes :=
  let! c := get in
  match size with
  | None => fail kInvalidArgument
  | Some n =>
      if n =? 0 then fail kRange
      else let curdir := default [slash] (curdir_ c) in if zlen curdir + 1 <=? n then ret curdir else fail kRange
  end.

End Client.
