(* ===== verification/DfsClientProps.v ===== *)
(** * The file system client: descriptors and handles

    [Touch] relates states that differ only in what the services did and in the
    write counters of open files; every operation on a descriptor or path other
    than opening and closing keeps it.  [Inv] says that descriptors and open files
    correspond one to one, that each file has the kind of handle its entry asks
    for, and that the handles held at the services, and the references of plfs
    directories, are those of the open files.  [descriptors_safe] is the result
    for any sequence of operations. *)
From S2P Require Import Prelude Coding Status FsTypes Gigaplus MdsApi DfsClient.

Arguments Ret {A} _.
Arguments Fail {A} _.
Arguments Abort {A} _.

(** ** What the services promise *)

(** Which handles and writers are open; entries have their types' widths; a path
    is resolved below directories only. *)
Class Lawful `{Services} := {
  held : W -> list FH;
  writers : W -> list DW;
  same w w' := held w' ≡ₚ held w /\ writers w' ≡ₚ writers w;
  law_Fcreat : forall p mode excl at_ w, same w (mds_Fcreat p mode excl at_ w).2
    /\ forall e b, (mds_Fcreat p mode excl at_ w).1 = inr (e, b) -> Fentry_wf e /\ forall e0, at_ = Some e0 -> is_dir e0 = true;
  law_Fstat : forall p at_ w, same w (mds_Fstat p at_ w).2
    /\ forall e, (mds_Fstat p at_ w).1 = inr e -> Fentry_wf e /\ forall e0, at_ = Some e0 -> is_dir e0 = true;
  law_Ftruncate : forall e mtime size w, same w (mds_Ftruncate e mtime size w).2;
  law_Mkdir : forall p mode a b w, same w (mds_Mkdir p mode a b w).2;
  law_Chmod : forall p mode w, same w (mds_Chmod p mode w).2;
  law_Chown : forall p usr grp w, same w (mds_Chown p usr grp w).2;
  law_Unlink : forall p w, same w (mds_Unlink p w).2;
  law_Listdir : forall p w, same w (mds_Listdir p w).2;
  law_Accessdir : forall p mode w, same w (mds_Accessdir p mode w).2;
  law_Access : forall p mode w, same w (mds_Access p mode w).2;
  law_Creat : forall e a w, let (r, w') := fio_Creat e a w in
    writers w' ≡ₚ writers w /\ held w' ≡ₚ match r with inr h => h :: held w | inl _ => held w end;
  law_Open : forall e a b c w, let (r, w') := fio_Open e a b c w in
    writers w' ≡ₚ writers w /\ held w' ≡ₚ match r with inr (_, _, h) => h :: held w | inl _ => held w end;
  law_Close : forall e h w, h ∈ held w -> held w ≡ₚ h :: held (fio_Close e h w).2 /\ writers (fio_Close e h w).2 ≡ₚ writers w;
  law_fio_Fstat : forall e h b w, same w (fio_Fstat e h b w).2;
  law_Write : forall e h data w, same w (fio_Write e h data w).2;
  law_Pwrite : forall e h data off w, same w (fio_Pwrite e h data off w).2;
  law_Read : forall e h size w, same w (fio_Read e h size w).2;
  law_Pread : forall e h off size w, same w (fio_Pread e h off size w).2;
  law_Ftrunc : forall e h len w, same w (fio_Ftrunc e h len w).2;
  law_Flush : forall e h force w, same w (fio_Flush e h force w).2;
  law_Trunc : forall e len w, same w (fio_Trunc e len w).2;
  law_Stat : forall e w, same w (fio_Stat e w).2;
  law_Drop : forall e w, same w (fio_Drop e w).2;
  law_dir_Open : forall e w, let (r, w') := dir_Open e w in
    held w' ≡ₚ held w /\ writers w' ≡ₚ match r with inr d => d :: writers w | inl _ => writers w end;
  law_Add : forall d k v w, same w (dir_Add d k v w).2;
  law_dir_Flush : forall d w, same w (dir_Flush d w).2;
  law_EpochFlush : forall d w, same w (dir_EpochFlush d w).2;
  law_Finish : forall d w, same w (dir_Finish d w).2;
  law_delete : forall d w, d ∈ writers w -> writers w ≡ₚ d :: writers (dir_delete d w) /\ held (dir_delete d w) ≡ₚ held w }.

Create HintDb laws.
#[export] Hint Resolve law_Ftruncate law_Mkdir law_Chmod law_Chown law_Unlink law_Listdir law_Accessdir law_Access law_fio_Fstat law_Write law_Pwrite
  law_Read law_Pread law_Ftrunc law_Flush law_Trunc law_Stat law_Drop law_Add law_dir_Flush law_EpochFlush law_Finish : laws.

Section Props.
Context `{Lawful} (fuel : nat).

(** The faults of the code that are known: a plfs directory opened for reading has
    no writer, its reader is never set, and [Close] flushes for ever. *)
Definition Known (f : Fault) : Prop :=
  f = NullPointer 829 \/ f = NullPointer 949 \/ f = NullPointer 1001 \/ f = Assertion 916 \/ f = Forever 1011.

(** ** States that differ in the services and the counters *)

Definition same_file (f f' : File) : Prop :=
  f_encoding f' = f_encoding f /\ f_fh f' = f_fh f /\ f_flags f' = f_flags f /\ f_refs f' = f_refs f.

Record Touch (c c' : Client) : Prop := {
  to_files : forall a, option_Forall2 same_file (files c !! a) (files c' !! a);
  to_wdirs : wdirs c' = wdirs c; to_rdirs : rdirs c' = rdirs c; to_next : next_addr c' = next_addr c;
  to_fds : fds_ c' = fds_ c; to_num : num_open_fds_ c' = num_open_fds_ c; to_slot : fd_slot_ c' = fd_slot_ c;
  to_world : same (world c) (world c') }.

#[local] Instance same_file_refl : Reflexive same_file.
Proof. by intros f. Qed.

Lemma same_refl w : same w w.
Proof. done. Qed.

Lemma same_trans w1 w2 w3 : same w1 w2 -> same w2 w3 -> same w1 w3.
Proof. intros [A1 A2] [B1 B2]. split; etransitivity; eauto. Qed.

#[local] Instance Touch_refl : Reflexive Touch.
Proof. intros c. by constructor. Qed.

#[local] Instance Touch_trans : Transitive Touch.
Proof.
  intros c1 c2 c3 [F1 W1 R1 N1 D1 U1 S1 O1] [F2 W2 R2 N2 D2 U2 S2 O2]. constructor; try congruence.
  - intros a. pose proof (F1 a) as A1. pose proof (F2 a) as A2. destruct A1 as [f1 f2 E1|]; inversion A2 as [? f3 E2|]; subst; constructor.
    destruct E1 as (? & ? & ? & ?), E2 as (? & ? & ? & ?). split_and!; congruence.
  - by eapply same_trans.
Qed.

Lemma Touch_world c w : same (world c) w -> Touch c (set_world w c).
Proof. intros Hs. by constructor. Qed.

Lemma Touch_store c a f f' : files c !! a = Some f -> same_file f f' -> Touch c (set_files (<[a := f']> (files c)) c).
Proof.
  intros Ha Hf. constructor; try done. intros b. cbn. destruct (decide (a = b)) as [<-|Hn].
  - rewrite Ha, lookup_insert_eq. by constructor.
  - rewrite lookup_insert_ne by done. destruct (files c !! b); by constructor.
Qed.

Lemma Touch_lookup c c' a f : Touch c c' -> files c !! a = Some f -> exists f', files c' !! a = Some f' /\ same_file f f'.
Proof. intros HT Ha. pose proof (to_files _ _ HT a) as Hf. rewrite Ha in Hf. inversion Hf as [? f' Hs E|]; subst. eauto. Qed.

(** [m] ends, keeps the table and the handles, or has a known fault. *)
Definition keeps {A} (m : M A) (c : Client) : Prop :=
  match m c with (Abort f, _) => Known f | (_, c') => Touch c c' end.

Lemma keeps_ret {A} (a : A) c : keeps (ret a) c.
Proof. apply Touch_refl. Qed.

Lemma keeps_fail {A} s c : keeps (A := A) (fail s) c.
Proof. apply Touch_refl. Qed.

Lemma keeps_bind {A B} (m : M A) (k : A -> M B) c :
  keeps m c -> (forall a c', m c = (Ret a, c') -> Touch c c' -> keeps (k a) c') -> keeps (bind m k) c.
Proof.
  unfold keeps, bind. intros Hm Hk. destruct (m c) as [[a|s|f] c'] eqn:E; [|done|done].
  specialize (Hk a c' eq_refl Hm). destruct (k a c') as [[b|s|f] c'']; [by etransitivity|by etransitivity|done].
Qed.

Lemma keeps_call f c : (forall w, same w (f w).2) -> keeps (call f) c.
Proof. intros Hf. unfold keeps, call. specialize (Hf (world c)). destruct (f (world c)) as [s w]. destruct (ok s); by apply Touch_world. Qed.

Lemma keeps_call_ f c : (forall w, same w (f w).2) -> keeps (call_ f) c.
Proof. intros Hf. unfold keeps, call_. specialize (Hf (world c)). destruct (f (world c)) as [s w]. by apply Touch_world. Qed.

Lemma keeps_call_r {A} (f : W -> (Status + A) * W) c : (forall w, same w (f w).2) -> keeps (call_r f) c.
Proof. intros Hf. unfold keeps, call_r. specialize (Hf (world c)). destruct (f (world c)) as [[s|a] w]; by apply Touch_world. Qed.

Lemma keeps_attempt {A} (m : M A) c : keeps m c -> keeps (attempt m) c.
Proof. unfold keeps, attempt. by destruct (m c) as [[a|s|f] c']. Qed.

Lemma keeps_result {A} (r : Status + A) c : keeps (result r) c.
Proof. destruct r; apply Touch_refl. Qed.

Lemma keeps_get (c : Client) : keeps get c.
Proof. apply Touch_refl. Qed.

Lemma keeps_load a f c : files c !! a = Some f -> keeps (load a) c.
Proof. intros Ha. unfold keeps, load, bind, get. rewrite Ha. apply Touch_refl. Qed.

Lemma load_Some a f c : files c !! a = Some f -> load a c = (Ret f, c).
Proof. intros Ha. unfold load, bind, get. by rewrite Ha. Qed.

Lemma load_Ret a f c c' : load a c = (Ret f, c') -> c' = c /\ files c !! a = Some f.
Proof. unfold load, bind, get. destruct (files c !! a); [|done]. by intros [= <- <-]. Qed.

Lemma keeps_store a f f' c : files c !! a = Some f -> same_file f f' -> keeps (store a f') c.
Proof. apply Touch_store. Qed.

(** ** The invariant *)

Definition KindOk (e : Fentry) (flags : Z) (fh : Handle) : Prop :=
  if is_plfs e then
    if is_dir e then (accmode flags = O_WRONLY /\ exists d, fh = HWDir d) \/ (accmode flags = O_RDONLY /\ exists d, fh = HRDir d)
    else (accmode flags = O_WRONLY /\ exists d, fh = HWFile d) \/ (accmode flags = O_RDONLY /\ exists d, fh = HRFile d)
  else if is_reg e then exists h, fh = HFio h else fh = HNull.

Definition EntryOf (f : File) (e : Fentry) : Prop := Fentry_wf e /\ f_encoding f = Fentry_EncodeTo e /\ KindOk e (f_flags f) (f_fh f).

Definition handles (c : Client) : list Handle := snd <$> map_to_list (f_fh <$> files c).

Definition fio_of (h : Handle) : option FH := match h with HFio h => Some h | _ => None end.
Definition uses_w (d : Z) (h : Handle) : bool := match h with HWDir d' | HWFile d' => d =? d' | _ => false end.
Definition uses_r (d : Z) (h : Handle) : bool := match h with HRDir d' | HRFile d' => d =? d' | _ => false end.
Definition refs_w (d : Z) (hs : list Handle) : Z := zlen (filter (fun h => uses_w d h = true) hs).
Definition refs_r (d : Z) (hs : list Handle) : Z := zlen (filter (fun h => uses_r d h = true) hs).

(** The services hold what the handles [hs] stand for, and plfs directories are
    referenced by as many of them as they count. *)
Record Acct (hs : list Handle) (wd : gmap Z (Z * DW)) (rd : gmap Z Z) (w : W) : Prop := {
  ac_held : held w ≡ₚ omap fio_of hs;
  ac_writers : writers w ≡ₚ snd <$> map_to_list (snd <$> wd);
  ac_w : forall d, refs_w d hs = default 0 (fst <$> wd !! d);
  ac_wpos : forall d r x, wd !! d = Some (r, x) -> 0 < r;
  ac_r : forall d, refs_r d hs = default 0 (rd !! d);
  ac_rpos : forall d r, rd !! d = Some r -> 0 < r }.

Record Inv (c : Client) : Prop := {
  iv_desc : forall i a, fds_ c !! i = Some (Some a) -> is_Some (files c !! a);
  iv_inj : forall i j a, fds_ c !! i = Some (Some a) -> fds_ c !! j = Some (Some a) -> i = j;
  iv_file : forall a f, files c !! a = Some f ->
    (exists i, fds_ c !! i = Some (Some a)) /\ f_refs f = 1 /\ (exists e, EntryOf f e) /\ a < next_addr c;
  iv_num : num_open_fds_ c = zlen (filter is_Some (fds_ c));
  iv_slot : 0 <= fd_slot_ c /\ (fds_ c = [] \/ fd_slot_ c < max_open_fds_ c);
  iv_len : max_open_fds_ c < 2 ^ 31;
  iv_acct : Acct (handles c) (wdirs c) (rdirs c) (world c);
  iv_wfresh : forall d x, wdirs c !! d = Some x -> d < next_addr c;
  iv_rfresh : forall d x, rdirs c !! d = Some x -> d < next_addr c }.

Lemma Acct_perm hs hs' wd rd w : hs' ≡ₚ hs -> Acct hs wd rd w -> Acct hs' wd rd w.
Proof.
  intros Hp [A1 A2 A3 A4 A5 A6]. constructor; try done.
  - by rewrite A1, Hp.
  - intros d. rewrite <- A3. unfold refs_w, zlen. by rewrite Hp.
  - intros d. rewrite <- A5. unfold refs_r, zlen. by rewrite Hp.
Qed.

Lemma Acct_same hs wd rd w w' : same w w' -> Acct hs wd rd w -> Acct hs wd rd w'.
Proof. intros [S1 S2] [A1 A2 A3 A4 A5 A6]. constructor; try done; by etransitivity. Qed.

Lemma Touch_handles c c' : Touch c c' -> handles c' = handles c.
Proof.
  intros HT. unfold handles. do 2 f_equal. apply map_eq. intros a. rewrite !lookup_fmap. destruct (to_files _ _ HT a) as [f f' (_ & E & _)|]; cbn; [by rewrite E|done].
Qed.

Lemma Touch_Inv c c' : Touch c c' -> Inv c -> Inv c'.
Proof.
  intros HT [I1 I2 I3 I4 I5 I6 I7 I8 I9]. pose proof HT as [F W1 R1 N1 D1 U1 S1 O1]. unfold max_open_fds_ in *.
  constructor; unfold max_open_fds_; rewrite ?D1, ?U1, ?S1, ?W1, ?R1, ?N1; try done.
  - intros i a Ha. destruct (I1 _ _ Ha) as [f Hf]. destruct (Touch_lookup _ _ _ _ HT Hf) as (f' & -> & _). done.
  - intros a f' Hf'. pose proof (F a) as Fa. rewrite Hf' in Fa. inversion Fa as [f ? Hs E1 E2|]; subst. destruct (I3 a f (eq_sym E1)) as (? & Hr & (e & He) & ?).
    destruct Hs as (Se & Sh & Sf & Sr). split_and!; [done|congruence| |done]. exists e. unfold EntryOf in *. by rewrite Se, Sh, Sf.
  - rewrite (Touch_handles _ _ HT). by eapply Acct_same.
Qed.

(** ** Fetching a descriptor *)

Lemma Fentry_decode e : Fentry_wf e -> Fentry_DecodeFrom (Fentry_EncodeTo e) = Some (e, []).
Proof. intros. rewrite <- (app_nil_r (Fentry_EncodeTo e)). by apply Fentry_DecodeFrom_encode. Qed.

(** The entry and the mode of a descriptor. *)
Definition descriptor (c : Client) (fd : Z) : option (Fentry * Z) :=
  let? a := mjoin (fds_ c !! Z.to_nat (u64 fd)) in
  let? f := files c !! a in
  let? (e, _) := Fentry_DecodeFrom (f_encoding f) in
  Some (e, f_flags f).

Lemma fetch_spec fd c : Inv c ->
  (fetch fd c = (Fail kInvalidFileDescriptor, c) /\ descriptor c fd = None)
  \/ exists a e f, fetch fd c = (Ret (a, e), c) /\ fds_ c !! Z.to_nat (u64 fd) = Some (Some a) /\ files c !! a = Some f
       /\ f_refs f = 1 /\ EntryOf f e /\ descriptor c fd = Some (e, f_flags f).
Proof.
  intros HI. unfold fetch, FetchFile, descriptor, bind, get. destruct (Z.ltb_spec (u64 fd) (max_open_fds_ c)) as [Hlt|Hge].
  - destruct (fds_ c !! Z.to_nat (u64 fd)) as [[a|]|] eqn:Ef; cbn [mjoin option_join]; [|by left|by left]. right.
    destruct (iv_desc _ HI _ _ Ef) as [f Hf]. destruct (iv_file _ HI _ _ Hf) as (_ & Hr & (e & He) & _). pose proof He as (Hwf & Ee & _).
    exists a, e, f. rewrite (load_Some _ _ _ Hf), Hf. cbv beta iota. rewrite Ee, Fentry_decode by done. done.
  - left. split; [done|]. rewrite lookup_ge_None_2; [done|]. unfold max_open_fds_, zlen in Hge. lia.
Qed.

(** ** Operations that open and close nothing *)

Lemma Ref_spec a c f : files c !! a = Some f -> Ref a c = (Ret tt, set_files (<[a := set_refs (f_refs f + 1) f]> (files c)) c).
Proof. intros Ha. unfold Ref, bind, load, get. unfold bind. by rewrite Ha. Qed.

Lemma Unref_keep a e c f : files c !! a = Some f -> f_refs f = 2 -> Unref a e c = (Ret tt, set_files (<[a := set_refs 1 f]> (files c)) c).
Proof. intros Ha Hr. unfold Unref, bind, load, get. unfold bind. rewrite Ha. cbn. by rewrite Hr. Qed.

Lemma keeps_with_ref {A} a e (m : M A) c f : files c !! a = Some f -> f_refs f = 1 ->
  keeps m (set_files (<[a := set_refs 2 f]> (files c)) c) -> keeps (with_ref a e m) c.
Proof.
  intros Ha Hr Hm. set (c1 := set_files (<[a := set_refs 2 f]> (files c)) c) in *.
  assert (Hback : forall c2, Touch c1 c2 -> exists f2, files c2 !! a = Some f2 /\ f_refs f2 = 2 /\ Touch c (set_files (<[a := set_refs 1 f2]> (files c2)) c2)).
  { intros c2 HT. destruct (Touch_lookup _ _ a (set_refs 2 f) HT) as (f2 & E2 & Hs); [cbn; apply lookup_insert_eq|]. exists f2. pose proof Hs as (S1 & S2 & S3 & S4).
    split_and!; [done|by rewrite S4|]. destruct HT as [F1 W1 R1 N1 D1 U1 L1 O1]. constructor; try done. intros b. cbn. destruct (decide (a = b)) as [<-|Hn].
    - rewrite Ha, lookup_insert_eq. constructor. by split_and!.
    - rewrite lookup_insert_ne by done. specialize (F1 b). cbn in F1. by rewrite lookup_insert_ne in F1 by done. }
  unfold keeps, with_ref. unfold bind at 1. rewrite (Ref_spec _ _ _ Ha), Hr. change (1 + 1) with 2. fold c1. unfold bind at 1, attempt.
  unfold keeps in Hm. destruct (m c1) as [[r|s|x] c2]; [| |done].
  all: destruct (Hback _ Hm) as (f2 & E2 & R2 & HT2); unfold bind; by rewrite (Unref_keep _ _ _ _ E2 R2).
Qed.

Lemma keeps_fetch {A} fd (k : Z * Fentry -> M A) c : Inv c ->
  (forall a e f, fds_ c !! Z.to_nat (u64 fd) = Some (Some a) -> files c !! a = Some f -> f_refs f = 1 -> EntryOf f e -> keeps (k (a, e)) c) -> keeps (bind (fetch fd) k) c.
Proof.
  intros HI Hk. destruct (fetch_spec fd c HI) as [[E _]|(a & e & f & E & Hd & Ha & Hr & He & _)]; unfold keeps, bind; rewrite E; [reflexivity|].
  exact (Hk a e f Hd Ha Hr He).
Qed.

Lemma keeps_bind_load {A} a f (k : File -> M A) c : files c !! a = Some f -> keeps (k f) c -> keeps (bind (load a) k) c.
Proof. intros Ha Hk. unfold keeps, bind. by rewrite (load_Some _ _ _ Ha). Qed.

Lemma keeps_count_write a f c : files c !! a = Some f -> keeps (count_write a) c.
Proof. intros Ha. apply (keeps_bind_load _ f); [done|]. by apply (keeps_store _ f). Qed.

Lemma reg_not_dir e : is_reg e = true -> is_dir e = false.
Proof. unfold is_reg, is_dir, S_ISREG, S_ISDIR. intros E%Z.eqb_eq. rewrite E. done. Qed.

Lemma in_handles c a f : files c !! a = Some f -> f_fh f ∈ handles c.
Proof.
  intros Ha. unfold handles. apply list_elem_of_fmap. exists (a, f_fh f). split; [done|]. apply elem_of_map_to_list. by rewrite lookup_fmap, Ha.
Qed.

Lemma refs_pos (p : Handle -> bool) h hs : p h = true -> h ∈ hs -> 0 < zlen (filter (fun h => p h = true) hs).
Proof.
  intros Hp Hi. assert (I : h ∈ filter (fun h => p h = true) hs) by by apply list_elem_of_filter.
  destruct (filter _ hs); [by apply elem_of_nil in I|]. rewrite zlen_cons. pose proof (zlen_nonneg l). lia.
Qed.

Lemma wdir_live c a f d : Inv c -> files c !! a = Some f -> uses_w d (f_fh f) = true -> exists r x, wdirs c !! d = Some (r, x).
Proof.
  intros HI Ha Hu. pose proof (refs_pos _ _ _ Hu (in_handles _ _ _ Ha)) as Hp. pose proof (ac_w _ _ _ _ (iv_acct _ HI) d) as Hd.
  unfold refs_w in Hd. destruct (wdirs c !! d) as [[r x]|]; [eauto|]. cbn in Hd. lia.
Qed.

Lemma rdir_live c a f d : Inv c -> files c !! a = Some f -> uses_r d (f_fh f) = true -> exists r, rdirs c !! d = Some r.
Proof.
  intros HI Ha Hu. pose proof (refs_pos _ _ _ Hu (in_handles _ _ _ Ha)) as Hp. pose proof (ac_r _ _ _ _ (iv_acct _ HI) d) as Hd.
  unfold refs_r in Hd. destruct (rdirs c !! d) as [r|]; [eauto|]. cbn in Hd. lia.
Qed.

(** The handle of a regular file. *)
Lemma kind_fio f e : EntryOf f e -> is_plfs e = false -> is_reg e = true -> exists h, f_fh f = HFio h.
Proof. intros (_ & _ & Hk) Hp Hr. unfold KindOk in Hk. by rewrite Hp, Hr in Hk. Qed.

Lemma kind_wfile f e : EntryOf f e -> is_plfs e = true -> is_reg e = true -> IsWriteOk f = true -> exists d, f_fh f = HWFile d.
Proof.
  intros (_ & _ & Hk) Hp Hr Hw. unfold KindOk in Hk. rewrite Hp, (reg_not_dir _ Hr) in Hk. unfold IsWriteOk in Hw.
  destruct Hk as [[_ Hd]|[E _]]; [done|]. by rewrite E in Hw.
Qed.

Lemma kind_rfile f e : EntryOf f e -> is_plfs e = true -> is_reg e = true -> IsReadOk f = true -> exists d, f_fh f = HRFile d.
Proof.
  intros (_ & _ & Hk) Hp Hr Hw. unfold KindOk in Hk. rewrite Hp, (reg_not_dir _ Hr) in Hk. unfold IsReadOk in Hw.
  destruct Hk as [[E _]|[_ Hd]]; [|done]. by rewrite E in Hw.
Qed.

Lemma kind_dir f e : EntryOf f e -> is_plfs e = true -> is_dir e = true -> (exists d, f_fh f = HWDir d) \/ exists d, f_fh f = HRDir d.
Proof. intros (_ & _ & Hk) Hp Hd. unfold KindOk in Hk. rewrite Hp, Hd in Hk. destruct Hk as [[_ ?]|[_ ?]]; eauto. Qed.

Lemma keeps_write_with line op fd data c : Inv c -> (forall e h w, same w (op e h w).2) -> keeps (write_with line op fd data) c.
Proof.
  intros HI Hop. apply keeps_fetch; [done|]. intros a e f _ Ha Hr He. apply (keeps_bind_load _ f); [done|].
  destruct (is_reg e) eqn:Er; cbn [negb]; [|apply keeps_fail]. destruct (IsWriteOk f) eqn:Ew; cbn [negb]; [|apply keeps_fail].
  apply (keeps_with_ref _ _ _ _ f); [done|done|]. set (c1 := set_files _ c). apply keeps_bind.
  - destruct (is_plfs e) eqn:Ep.
    + destruct (kind_wfile _ _ He Ep Er Ew) as [d Ed]. rewrite Ed. destruct (wdir_live c a f d HI Ha) as (r & x & Ex); [by rewrite Ed; apply Z.eqb_refl|].
      apply keeps_bind; [|intros; apply keeps_call; auto with laws]. unfold keeps, parent_writer, ToWritablePlfsFile, bind, ret, get. cbn [wdirs c1 set_files]. rewrite Ex. reflexivity.
    + destruct (kind_fio _ _ He Ep Er) as [h ->]. apply keeps_call. auto.
  - intros _ c2 _ HT. destruct (Touch_lookup _ _ a (set_refs 2 f) HT) as (f2 & E2 & _); [cbn; apply lookup_insert_eq|]. by eapply keeps_count_write.
Qed.

Lemma keeps_Fstat fd c : Inv c -> keeps (Fstat fd) c.
Proof.
  intros HI. apply keeps_fetch; [done|]. intros a e f _ Ha Hr He. apply (keeps_with_ref _ _ _ _ f); [done|done|].
  destruct (is_plfs e) eqn:Ep; cbn [negb andb]; [apply keeps_ret|]. destruct (is_reg e) eqn:Er; [|apply keeps_ret].
  apply (keeps_bind_load _ (set_refs 2 f)); [cbn; apply lookup_insert_eq|]. destruct (kind_fio _ _ He Ep Er) as [h E]. cbn [f_fh set_refs]. rewrite E.
  apply keeps_bind; [apply keeps_call_r; auto with laws|]. intros [mt sz] c' _ _. apply keeps_ret.
Qed.

Lemma keeps_Ftruncate fd len c : Inv c -> keeps (Ftruncate fd len) c.
Proof.
  intros HI. apply keeps_fetch; [done|]. intros a e f _ Ha Hr He. apply (keeps_bind_load _ f); [done|].
  destruct (is_plfs e) eqn:Ep; [apply keeps_fail|]. destruct (is_reg e) eqn:Er; cbn [negb]; [|apply keeps_fail]. destruct (IsWriteOk f); cbn [negb]; [|apply keeps_fail].
  apply (keeps_with_ref _ _ _ _ f); [done|done|]. destruct (kind_fio _ _ He Ep Er) as [h ->]. apply keeps_bind; [apply keeps_call; auto with laws|].
  intros _ c2 _ HT. destruct (Touch_lookup _ _ a (set_refs 2 f) HT) as (f2 & E2 & _); [cbn; apply lookup_insert_eq|]. by eapply keeps_count_write.
Qed.

Lemma keeps_flush_file force skip a e f c : files c !! a = Some f -> f_refs f = 1 -> EntryOf f e -> is_plfs e = false -> is_reg e = true ->
  keeps (flush_file force skip a e) c.
Proof.
  intros Ha Hr He Ep Er. apply (keeps_bind_load _ f); [done|]. apply (keeps_with_ref _ _ _ _ f); [done|done|].
  destruct (kind_fio _ _ He Ep Er) as [h ->]. apply keeps_bind.
  - apply keeps_bind; [apply keeps_call; auto with laws|]. intros _ c2 _ _. destruct (seq_flush f <? seq_write f); [|apply keeps_ret].
    apply keeps_bind; [apply keeps_call_r; auto with laws|]. intros [mt sz] c3 _ _. apply keeps_call. auto with laws.
  - intros _ c2 _ HT. destruct (Touch_lookup _ _ a (set_refs 2 f) HT) as (f2 & E2 & _); [cbn; apply lookup_insert_eq|].
    apply (keeps_bind_load _ f2); [done|]. destruct (_ <? _); [by apply (keeps_store _ f2)|apply keeps_ret].
Qed.

Lemma keeps_dir_writer line f e a c : Inv c -> files c !! a = Some f -> EntryOf f e -> is_plfs e = true -> is_dir e = true -> Known (NullPointer line) -> keeps (dir_writer line (f_fh f)) c.
Proof.
  intros HI Ha He Ep Ed Hl. unfold keeps, dir_writer, bind, get. destruct (kind_dir _ _ He Ep Ed) as [[d E]|[d E]]; rewrite E; [|exact Hl].
  destruct (wdir_live c a f d HI Ha) as (r & x & Ex); [by rewrite E; apply Z.eqb_refl|]. cbn. rewrite Ex. exact (Touch_refl c).
Qed.

Lemma keeps_flush_with line force skip op fd c : Inv c -> (forall d w, same w (op d w).2) -> Known (NullPointer line) -> keeps (flush_with line (flush_file force skip) op fd) c.
Proof.
  intros HI Hop Hl. apply keeps_fetch; [done|]. intros a e f _ Ha Hr He. apply (keeps_bind_load _ f); [done|]. destruct (is_plfs e) eqn:Ep.
  - destruct (is_dir e) eqn:Ed; [|apply keeps_ret]. apply keeps_bind; [by eapply keeps_dir_writer|]. intros x c' _ _. apply keeps_call. auto.
  - destruct (is_reg e) eqn:Er; cbn [negb]; [|apply keeps_fail]. destruct (IsWriteOk f); [|apply keeps_ret]. by eapply keeps_flush_file.
Qed.

Lemma keeps_Flush fd c : Inv c -> keeps (Flush fd) c.
Proof. intros HI. apply keeps_flush_with; [done|auto with laws|]. unfold Known. auto. Qed.

Lemma keeps_read_with op plfs fd c : Inv c -> (forall e h w, same w (op e h w).2) ->
  (forall e f c1 d r, f_fh f = HRFile d -> rdirs c1 !! d = Some r -> keeps (plfs e f) c1) -> keeps (read_with op plfs fd) c.
Proof.
  intros HI Hop Hplfs. apply keeps_fetch; [done|]. intros a e f _ Ha Hr He. apply (keeps_bind_load _ f); [done|].
  destruct (is_reg e) eqn:Er; cbn [negb]; [|apply keeps_fail]. destruct (IsReadOk f) eqn:Ew; cbn [negb]; [|apply keeps_fail].
  apply (keeps_with_ref _ _ _ _ f); [done|done|]. destruct (is_plfs e) eqn:Ep; cbn [negb].
  - destruct (kind_rfile _ _ He Ep Er Ew) as [d Ed]. destruct (rdir_live c a f d HI Ha) as (r & Ex); [by rewrite Ed; apply Z.eqb_refl|]. by eapply Hplfs.
  - destruct (kind_fio _ _ He Ep Er) as [h ->]. apply keeps_call_r. auto.
Qed.

Lemma keeps_Read fd size c : Inv c -> keeps (Read fd size) c.
Proof.
  intros HI. apply keeps_read_with; [done|auto with laws|]. intros e f c1 d r E Hd. unfold keeps, bind, get, ToReadablePlfsFile. rewrite E. cbn. rewrite Hd. unfold Known. cbn. auto.
Qed.

Lemma keeps_Pread fd off size c : Inv c -> keeps (Pread fd off size) c.
Proof. intros HI. apply keeps_read_with; [done|auto with laws|]. intros. apply keeps_ret. Qed.

(** *** Paths *)

Lemma keeps_ExpandPath path c : keeps (ExpandPath path) c.
Proof. apply keeps_bind; [apply keeps_get|]. intros c' c'' _ _. apply keeps_result. Qed.

Lemma keeps_MaskMode mode c : keeps (MaskMode mode) c.
Proof. apply keeps_bind; [apply keeps_get|]. intros. apply keeps_ret. Qed.

Lemma keeps_Fcreat p mode excl at_ c : keeps (call_r (mds_Fcreat p mode excl at_)) c.
Proof. apply keeps_call_r. intros. apply law_Fcreat. Qed.

Lemma keeps_mds_Fstat p at_ c : keeps (call_r (mds_Fstat p at_)) c.
Proof. apply keeps_call_r. intros. apply law_Fstat. Qed.

(** ** Accounting of handles *)

Lemma refs_w_cons d h hs : refs_w d (h :: hs) = (if uses_w d h then 1 else 0) + refs_w d hs.
Proof. unfold refs_w. rewrite filter_cons. destruct (uses_w d h); [by rewrite decide_True, zlen_cons|by rewrite decide_False]. Qed.

Lemma refs_r_cons d h hs : refs_r d (h :: hs) = (if uses_r d h then 1 else 0) + refs_r d hs.
Proof. unfold refs_r. rewrite filter_cons. destruct (uses_r d h); [by rewrite decide_True, zlen_cons|by rewrite decide_False]. Qed.

Lemma Acct_fio h hs wd rd w w' : Acct hs wd rd w -> writers w' ≡ₚ writers w -> held w' ≡ₚ h :: held w -> Acct (HFio h :: hs) wd rd w'.
Proof.
  intros [A1 A2 A3 A4 A5 A6] Hw Hh. constructor; [cbn; by rewrite Hh, A1|by rewrite Hw|intros d; rewrite refs_w_cons; apply A3|done|intros d; rewrite refs_r_cons; apply A5|done].
Qed.

Lemma Acct_null hs wd rd w : Acct (HNull :: hs) wd rd w <-> Acct hs wd rd w.
Proof.
  split; intros [A1 A2 A3 A4 A5 A6]; (constructor; [done|done| |done| |done]); intros d; specialize (A3 d); specialize (A5 d); rewrite ?refs_w_cons, ?refs_r_cons in *; done.
Qed.

Lemma Acct_close e h hs wd rd w : Acct (HFio h :: hs) wd rd w -> Acct hs wd rd (fio_Close e h w).2.
Proof.
  intros [A1 A2 A3 A4 A5 A6]. destruct (law_Close e h w) as [L1 L2]; [rewrite A1; cbn; left|]. constructor.
  - apply (Permutation_cons_inv (a := h)). by rewrite <- L1, A1.
  - by rewrite L2.
  - intros d. rewrite <- A3. by rewrite refs_w_cons.
  - done.
  - intros d. rewrite <- A5. by rewrite refs_r_cons.
  - done.
Qed.

(** One more handle of an open plfs directory. *)
Lemma Acct_wmore d r x hs wd rd w : Acct hs wd rd w -> wd !! d = Some (r, x) -> Acct (HWFile d :: hs) (<[d := (r + 1, x)]> wd) rd w.
Proof.
  intros [A1 A2 A3 A4 A5 A6] Hd. constructor; [done| | | | |done].
  - rewrite A2. do 2 f_equiv. rewrite fmap_insert. cbn. symmetry. rewrite insert_id; [done|]. by rewrite lookup_fmap, Hd.
  - intros d'. rewrite refs_w_cons, A3. cbn. destruct (Z.eqb_spec d' d) as [->|Hn]; [rewrite lookup_insert_eq, Hd; cbn; lia|by rewrite lookup_insert_ne by done].
  - intros d' r' x' [[<- [= <- <-]]|[_ Hl]]%lookup_insert_Some; [specialize (A4 _ _ _ Hd); lia|eauto].
  - intros d'. rewrite refs_r_cons, A5. done.
Qed.

Lemma Acct_rmore d r hs wd rd w : Acct hs wd rd w -> rd !! d = Some r -> Acct (HRFile d :: hs) wd (<[d := r + 1]> rd) w.
Proof.
  intros [A1 A2 A3 A4 A5 A6] Hd. constructor; [done|done| |done| |].
  - intros d'. rewrite refs_w_cons, A3. done.
  - intros d'. rewrite refs_r_cons, A5. cbn. destruct (Z.eqb_spec d' d) as [->|Hn]; [rewrite lookup_insert_eq, Hd; cbn; lia|by rewrite lookup_insert_ne by done].
  - intros d' r' [[<- <-]|[_ Hl]]%lookup_insert_Some; [specialize (A6 _ _ Hd); lia|eauto].
Qed.

(** A plfs directory that is opened. *)
Lemma Acct_wnew d x hs wd rd w w' : Acct hs wd rd w -> wd !! d = None -> held w' ≡ₚ held w -> writers w' ≡ₚ x :: writers w ->
  Acct (HWDir d :: hs) (<[d := (1, x)]> wd) rd w'.
Proof.
  intros [A1 A2 A3 A4 A5 A6] Hd Hh Hw. constructor; [| | | | |done].
  - cbn. by rewrite Hh.
  - rewrite Hw, A2, fmap_insert, map_to_list_insert; [done|]. by rewrite lookup_fmap, Hd.
  - intros d'. rewrite refs_w_cons, A3. cbn. destruct (Z.eqb_spec d' d) as [->|Hn]; [rewrite lookup_insert_eq, Hd; done|by rewrite lookup_insert_ne by done].
  - intros d' r' x' [[<- [= <- <-]]|[_ Hl]]%lookup_insert_Some; [lia|eauto].
  - intros d'. rewrite refs_r_cons, A5. done.
Qed.

Lemma Acct_rnew d hs wd rd w : Acct hs wd rd w -> rd !! d = None -> Acct (HRDir d :: hs) wd (<[d := 1]> rd) w.
Proof.
  intros [A1 A2 A3 A4 A5 A6] Hd. constructor; [done|done| |done| |].
  - intros d'. rewrite refs_w_cons, A3. done.
  - intros d'. rewrite refs_r_cons, A5. cbn. destruct (Z.eqb_spec d' d) as [->|Hn]; [rewrite lookup_insert_eq, Hd; done|by rewrite lookup_insert_ne by done].
  - intros d' r' [[<- <-]|[_ Hl]]%lookup_insert_Some; [lia|eauto].
Qed.

(** A handle of a plfs directory is given back. *)
Lemma Acct_wdrop d h r x hs wd rd w : Acct (h :: hs) wd rd w -> h = HWDir d \/ h = HWFile d -> wd !! d = Some (r, x) ->
  if r - 1 =? 0 then Acct hs (delete d wd) rd (dir_delete x w) else Acct hs (<[d := (r - 1, x)]> wd) rd w.
Proof.
  intros [A1 A2 A3 A4 A5 A6] Hh Hd. assert (Hu : forall d', uses_w d' h = (d' =? d) /\ uses_r d' h = false /\ fio_of h = None) by (by destruct Hh as [-> | ->]).
  assert (A1' : held w ≡ₚ omap fio_of hs). { rewrite A1. cbn. destruct (Hu 0) as (_ & _ & ->). done. }
  assert (A5' : forall d', refs_r d' hs = default 0 (rd !! d')). { intros d'. rewrite <- A5, refs_r_cons. destruct (Hu d') as (_ & -> & _). done. }
  assert (A3' : forall d', refs_w d' hs = if d' =? d then r - 1 else default 0 (fst <$> wd !! d')).
  { intros d'. specialize (A3 d'). rewrite refs_w_cons in A3. destruct (Hu d') as (E & _ & _). rewrite E in A3.
    destruct (Z.eqb_spec d' d) as [Eq|]; [rewrite Eq, Hd in A3; cbn in A3; subst d'; lia|lia]. }
  destruct (Z.eqb_spec (r - 1) 0) as [E|E].
  - assert (Hx : writers w ≡ₚ x :: (snd <$> map_to_list (snd <$> delete d wd))).
    { rewrite A2. rewrite <- (insert_delete_id (snd <$> wd) d x) by (by rewrite lookup_fmap, Hd). rewrite map_to_list_insert by apply lookup_delete_eq.
      cbn. by rewrite fmap_delete. }
    destruct (law_delete x w) as [L1 L2]; [rewrite Hx; left|]. constructor; [| | | |done|done].
    + by rewrite L2.
    + apply (Permutation_cons_inv (a := x)). by rewrite <- L1.
    + intros d'. rewrite A3'. destruct (Z.eqb_spec d' d) as [->|]; [by rewrite lookup_delete_eq, E|by rewrite lookup_delete_ne by done].
    + intros d' r' x' [_ Hl]%lookup_delete_Some. eauto.
  - constructor; [done| | | |done|done].
    + rewrite A2. do 2 f_equiv. rewrite fmap_insert. cbn. symmetry. rewrite insert_id; [done|]. by rewrite lookup_fmap, Hd.
    + intros d'. rewrite A3'. destruct (Z.eqb_spec d' d) as [->|]; [by rewrite lookup_insert_eq|by rewrite lookup_insert_ne by done].
    + intros d' r' x' [[<- [= <- <-]]|[_ Hl]]%lookup_insert_Some; [specialize (A4 _ _ _ Hd); lia|eauto].
Qed.

Lemma Acct_rdrop d h r hs wd rd w : Acct (h :: hs) wd rd w -> h = HRDir d \/ h = HRFile d -> rd !! d = Some r ->
  Acct hs wd (if r - 1 =? 0 then delete d rd else <[d := r - 1]> rd) w.
Proof.
  intros [A1 A2 A3 A4 A5 A6] Hh Hd. assert (Hu : forall d', uses_r d' h = (d' =? d) /\ uses_w d' h = false /\ fio_of h = None) by (by destruct Hh as [-> | ->]).
  assert (A5' : forall d', refs_r d' hs = if d' =? d then r - 1 else default 0 (rd !! d')).
  { intros d'. specialize (A5 d'). rewrite refs_r_cons in A5. destruct (Hu d') as (E & _ & _). rewrite E in A5.
    destruct (Z.eqb_spec d' d) as [Eq|]; [rewrite Eq, Hd in A5; cbn in A5; subst d'; lia|lia]. }
  constructor; [|done| |done| |].
  - rewrite A1. cbn. destruct (Hu 0) as (_ & _ & ->). done.
  - intros d'. rewrite <- A3, refs_w_cons. destruct (Hu d') as (_ & -> & _). done.
  - intros d'. rewrite A5'. destruct (Z.eqb_spec d' d) as [->|].
    + destruct (Z.eqb_spec (r - 1) 0) as [->|]; [by rewrite lookup_delete_eq|by rewrite lookup_insert_eq].
    + destruct (r - 1 =? 0); [by rewrite lookup_delete_ne by done|by rewrite lookup_insert_ne by done].
  - intros d' r'. destruct (Z.eqb_spec (r - 1) 0); [intros [_ Hl]%lookup_delete_Some; eauto|].
    intros [[<- <-]|[_ Hl]]%lookup_insert_Some; [specialize (A6 _ _ Hd); lia|eauto].
Qed.

(** ** Slots *)

Lemma slot_loop_spec n fds : forall s, 0 <= s < zlen fds -> (exists j, 0 <= j < Z.of_nat n /\ fds !! Z.to_nat ((s + j) mod zlen fds) = Some None) ->
  exists s', slot_loop n fds s = Some s' /\ 0 <= s' < zlen fds /\ fds !! Z.to_nat s' = Some None.
Proof.
  induction n as [|n IH]; intros s Hs (j & Hj & Ej); [lia|]. cbn [slot_loop].
  assert (Hnext : fds !! Z.to_nat s <> Some None -> exists s', slot_loop n fds ((1 + s) mod zlen fds) = Some s' /\ 0 <= s' < zlen fds /\ fds !! Z.to_nat s' = Some None).
  { intros Hn. apply IH; [apply Z.mod_pos_bound; lia|]. exists (j - 1). assert (j <> 0). { intros ->. rewrite Z.add_0_r, Z.mod_small in Ej by lia. done. }
    split; [lia|]. rewrite Zplus_mod_idemp_l. by replace (1 + s + (j - 1)) with (s + j) by lia. }
  destruct (fds !! Z.to_nat s) as [[a|]|] eqn:E; [by apply Hnext|eauto|by apply Hnext].
Qed.

Lemma free_slot fds : zlen (filter is_Some fds) < zlen fds -> exists k, (k < length fds)%nat /\ fds !! k = Some (@None Z).
Proof.
  induction fds as [|[a|] fds IH]; rewrite ?zlen_cons; [done| |].
  - rewrite filter_cons, decide_True by done. rewrite zlen_cons. intros Hlt. destruct IH as (k & Hk & E); [lia|]. exists (S k). cbn. split; [lia|done].
  - intros _. exists O. cbn. split; [lia|done].
Qed.

Lemma count_cons (x : option Z) l : zlen (filter is_Some (x :: l)) = (if x then 1 else 0) + zlen (filter is_Some l).
Proof. destruct x; rewrite filter_cons; [by rewrite decide_True, zlen_cons by done|by rewrite decide_False by (by intros [])]. Qed.

Lemma count_fds_insert fds k (x y : option Z) : fds !! k = Some y ->
  zlen (filter is_Some (<[k := x]> fds)) = zlen (filter is_Some fds) + (if x then 1 else 0) - (if y then 1 else 0).
Proof.
  intros Hk. pose proof (lookup_lt_Some _ _ _ Hk). rewrite insert_take_drop by done.
  pose proof (take_drop_middle _ _ _ Hk) as Em. apply (f_equal (fun l => zlen (filter is_Some l))) in Em.
  rewrite filter_app, zlen_app, count_cons in *. lia.
Qed.

Lemma Alloc_spec a c : num_open_fds_ c = zlen (filter is_Some (fds_ c)) -> 0 <= fd_slot_ c /\ (fds_ c = [] \/ fd_slot_ c < max_open_fds_ c) -> num_open_fds_ c < max_open_fds_ c ->
  exists slot, Alloc a c = (Ret slot, set_fds (<[Z.to_nat slot := Some a]> (fds_ c)) (num_open_fds_ c + 1) slot c)
    /\ 0 <= slot < max_open_fds_ c /\ fds_ c !! Z.to_nat slot = Some None.
Proof.
  intros Hnum Hslot Hlt. unfold Alloc, bind, get, assert_. destruct (Z.ltb_spec (num_open_fds_ c) (max_open_fds_ c)); [|lia]. cbn -[slot_loop].
  unfold max_open_fds_ in *. rewrite Hnum in Hlt. destruct (free_slot _ Hlt) as (k & Hk & Ek). destruct Hslot as [Hs0 [Hn|Hsl]]; [rewrite Hn in Ek; done|].
  unfold max_open_fds_ in Hsl. destruct (slot_loop_spec (S (length (fds_ c))) (fds_ c) (fd_slot_ c)) as (s & -> & Hs & Es); [lia| |].
  - exists ((Z.of_nat k - fd_slot_ c) mod zlen (fds_ c)). pose proof (Z.mod_pos_bound (Z.of_nat k - fd_slot_ c) (zlen (fds_ c))). split; [unfold zlen in *; lia|].
    rewrite Zplus_mod_idemp_r. replace (fd_slot_ c + (Z.of_nat k - fd_slot_ c)) with (Z.of_nat k) by lia. rewrite Z.mod_small by (unfold zlen in *; lia). by rewrite Nat2Z.id.
  - exists s. done.
Qed.

(** ** Opening *)

(** The handle [fh] was made and is not in the table yet. *)
Record Linked (c : Client) (fh : Handle) (c' : Client) : Prop := {
  lk_files : files c' = files c; lk_fds : fds_ c' = fds_ c; lk_num : num_open_fds_ c' = num_open_fds_ c; lk_slot : fd_slot_ c' = fd_slot_ c;
  lk_next : next_addr c <= next_addr c';
  lk_acct : Acct (fh :: handles c) (wdirs c') (rdirs c') (world c');
  lk_wfresh : forall d x, wdirs c' !! d = Some x -> d < next_addr c';
  lk_rfresh : forall d x, rdirs c' !! d = Some x -> d < next_addr c' }.

(** [m] makes a handle of the right kind, or fails and leaves the table. *)
Definition links (e : Fentry) (flags : Z) (m : M (Handle * Z * Z)) (c : Client) : Prop :=
  match bind m (fun x => bind (first_ref e flags x.1.1) (fun _ => ret x)) c with
  | (Ret x, c') => Linked c x.1.1 c' /\ KindOk e flags x.1.1
  | (Fail _, c') => Touch c c'
  | (Abort _, _) => False
  end.

Definition PivotOk (c : Client) (pivot : option (Z * Fentry)) : Prop :=
  match pivot with Some (a, e) => is_dir e = true /\ exists f, files c !! a = Some f /\ EntryOf f e | None => True end.

Lemma first_ref_none e flags fh c : is_dir e && is_plfs e = false -> first_ref e flags fh c = (Ret tt, c).
Proof. intros E. unfold first_ref. by rewrite E. Qed.

Lemma links_fio e flags is_new pivot c : Inv c -> is_plfs e = false -> links e flags (link e flags is_new pivot) c.
Proof.
  intros HI Ep. pose proof HI as [I1 I2 I3 I4 I5 I6 I7 I8 I9]. unfold links, link. rewrite Ep. cbn [negb]. assert (Ef : is_dir e && is_plfs e = false) by (rewrite Ep; apply andb_false_r).
  destruct (is_reg e) eqn:Er.
  - destruct is_new; cbn [negb].
    + unfold bind, call_r. pose proof (law_Creat e (has flags O_APPEND) (world c)) as Hl. destruct (fio_Creat _ _ _) as [[s|h] w]; destruct Hl as [Lw Lh].
      * apply Touch_world. split; done.
      * unfold ret. cbn [fst snd]. rewrite first_ref_none by done. cbn [fst snd]. split; [|unfold KindOk; rewrite Ep, Er; eauto]. constructor; try done. by eapply Acct_fio.
    + unfold bind, call_r. pose proof (law_Open e true (negb (accmode flags =? O_RDONLY) && has flags O_TRUNC) (has flags O_APPEND) (world c)) as Hl.
      destruct (fio_Open _ _ _ _ _) as [[s|[[mt sz] h]] w]; destruct Hl as [Lw Lh].
      * apply Touch_world. split; done.
      * unfold ret. cbn [fst snd]. rewrite first_ref_none by done. cbn [fst snd]. split; [|unfold KindOk; rewrite Ep, Er; eauto]. constructor; try done. by eapply Acct_fio.
  - unfold bind, ret. cbn [fst snd]. rewrite first_ref_none by done. cbn [fst snd]. split; [|unfold KindOk; by rewrite Ep, Er]. constructor; try done. by apply Acct_null.
Qed.

Lemma plfs_file_spec mode pivot c : Inv c -> PivotOk c pivot -> mode = O_WRONLY \/ mode = O_RDONLY ->
  (plfs_file mode pivot c = (Ret HNull, c)) \/
  exists d, (mode = O_WRONLY /\ exists r x, wdirs c !! d = Some (r, x) /\ plfs_file mode pivot c = (Ret (HWFile d), set_wdirs (<[d := (r + 1, x)]> (wdirs c)) c))
    \/ (mode = O_RDONLY /\ exists r, rdirs c !! d = Some r /\ plfs_file mode pivot c = (Ret (HRFile d), set_rdirs (<[d := r + 1]> (rdirs c)) c)).
Proof.
  intros HI HP Hm. unfold plfs_file. destruct pivot as [[a e]|]; [|by left]. destruct HP as (Ed & f & Ha & He). unfold bind. rewrite (load_Some _ _ _ Ha).
  destruct (is_plfs e) eqn:Ep; [|by left]. cbn [andb]. destruct (Z.eqb_spec (accmode (f_flags f)) mode) as [Ea|]; [|by left]. right.
  pose proof He as (_ & _ & Hk). unfold KindOk in Hk. rewrite Ep, Ed, Ea in Hk. destruct Hm as [-> | ->].
  - destruct Hk as [[_ [d E]]|[? _]]; [|done]. rewrite E. destruct (wdir_live c a f d HI Ha) as (r & x & Ex); [by rewrite E; apply Z.eqb_refl|].
    exists d. left. split; [done|]. exists r, x. split; [done|]. cbn. unfold wdir_Ref, bind, get. by rewrite Ex.
  - destruct Hk as [[? _]|[_ [d E]]]; [done|]. rewrite E. destruct (rdir_live c a f d HI Ha) as (r & Ex); [by rewrite E; apply Z.eqb_refl|].
    exists d. right. split; [done|]. exists r. split; [done|]. cbn. unfold rdir_Ref, bind, get. by rewrite Ex.
Qed.

Lemma links_plfs_w e flags is_new pivot c : Inv c -> PivotOk c pivot -> is_plfs e = true -> accmode flags = O_WRONLY -> links e flags (link e flags is_new pivot) c.
Proof.
  intros HI HP Ep Ea. pose proof HI as [I1 I2 I3 I4 I5 I6 I7 I8 I9]. unfold links, link. rewrite Ep, Ea. cbn [negb Z.eqb O_WRONLY Pos.eqb]. unfold bind. destruct (is_reg e) eqn:Er.
  - assert (Ef : is_dir e && is_plfs e = false) by (by rewrite (reg_not_dir _ Er)).
    destruct (plfs_file_spec O_WRONLY pivot c HI HP ltac:(auto)) as [E|(d & [(_ & r & x & Ex & E)|[? _]])]; [| |done]; rewrite E.
    + exact (Touch_refl c).
    + cbn [not_null]. unfold ret. cbn [fst snd]. rewrite first_ref_none by done. cbn [fst snd]. split.
      * constructor; try done; cbn. { by apply Acct_wmore. } intros d' y [[<- <-]|[_ Hy]]%lookup_insert_Some; eauto.
      * unfold KindOk. rewrite Ep, (reg_not_dir _ Er), Ea. eauto.
  - destruct (is_dir e) eqn:Ed; [|exact (Touch_refl c)]. unfold bind, call_r. pose proof (law_dir_Open e (world c)) as Hl. destruct (dir_Open e (world c)) as [[s|x] w]; destruct Hl as [Lh Lw].
    + apply Touch_world. split; done.
    + cbn. unfold first_ref. rewrite Ed, Ep, Ea. cbn. unfold bind, wdir_Ref, get. unfold bind. cbn [ret wdirs]. rewrite lookup_insert_eq. cbn.
      assert (Hd : wdirs c !! next_addr c = None). { destruct (wdirs c !! next_addr c) eqn:E; [|done]. apply I8 in E. lia. }
      split; [|unfold KindOk; rewrite Ep, Ed, Ea; eauto]. constructor; try done; cbn; [lia| | |].
      * rewrite insert_insert_eq. by eapply Acct_wnew.
      * intros d y. rewrite insert_insert_eq. intros [[<- <-]|[_ Hy]]%lookup_insert_Some; [lia|]. apply I8 in Hy. lia.
      * intros d y Hy. apply I9 in Hy. lia.
Qed.

Lemma links_plfs_r e flags is_new pivot c : Inv c -> PivotOk c pivot -> is_plfs e = true -> accmode flags = O_RDONLY -> links e flags (link e flags is_new pivot) c.
Proof.
  intros HI HP Ep Ea. pose proof HI as [I1 I2 I3 I4 I5 I6 I7 I8 I9]. unfold links, link. rewrite Ep, Ea. cbn [negb Z.eqb O_WRONLY O_RDONLY]. unfold bind. destruct (is_reg e) eqn:Er.
  - assert (Ef : is_dir e && is_plfs e = false) by (by rewrite (reg_not_dir _ Er)).
    destruct (plfs_file_spec O_RDONLY pivot c HI HP ltac:(auto)) as [E|(d & [[? _]|(_ & r & Ex & E)])]; [|done|]; rewrite E.
    + exact (Touch_refl c).
    + cbn [not_null]. unfold ret. cbn [fst snd]. rewrite first_ref_none by done. cbn [fst snd]. split.
      * constructor; try done; cbn. { by apply Acct_rmore. } intros d' y [[<- <-]|[_ Hy]]%lookup_insert_Some; eauto.
      * unfold KindOk. rewrite Ep, (reg_not_dir _ Er), Ea. eauto.
  - destruct (is_dir e) eqn:Ed; [|exact (Touch_refl c)]. unfold bind. cbn. unfold first_ref. rewrite Ed, Ep, Ea. cbn. unfold bind, rdir_Ref, get. unfold bind. cbn [ret rdirs]. rewrite lookup_insert_eq. cbn.
    assert (Hd : rdirs c !! next_addr c = None). { destruct (rdirs c !! next_addr c) eqn:E; [|done]. apply I9 in E. lia. }
    split; [|unfold KindOk; rewrite Ep, Ed, Ea; eauto]. constructor; try done; cbn; [lia| | |].
    + rewrite insert_insert_eq. by apply Acct_rnew.
    + intros d y Hy. apply I8 in Hy. lia.
    + intros d y. rewrite insert_insert_eq. intros [[<- <-]|[_ Hy]]%lookup_insert_Some; [lia|]. apply I9 in Hy. lia.
Qed.

Lemma links_link e flags is_new pivot c : Inv c -> PivotOk c pivot -> links e flags (link e flags is_new pivot) c.
Proof.
  intros HI HP. destruct (is_plfs e) eqn:Ep; [|by apply links_fio].
  destruct (Z.eqb_spec (accmode flags) O_WRONLY) as [Ew|Hw]; [by apply links_plfs_w|].
  destruct (Z.eqb_spec (accmode flags) O_RDONLY) as [Er|Hr]; [by apply links_plfs_r|].
  unfold links, link. rewrite Ep. apply Z.eqb_neq in Hw, Hr. rewrite Hw, Hr. exact (Touch_refl c).
Qed.

(** A new file in a slot of the table. *)
Definition opened (c : Client) (encoding : bytes) (flags : Z) (fh : Handle) (slot : Z) : Client :=
  set_fds (<[Z.to_nat slot := Some (next_addr c)]> (fds_ c)) (num_open_fds_ c + 1) slot
    (set_files (<[next_addr c := mkFile encoding fh flags 0 0 1]> (files c)) (set_next (next_addr c + 1) c)).

Lemma handles_insert c a f : files c !! a = None -> snd <$> map_to_list (f_fh <$> <[a := f]> (files c)) ≡ₚ f_fh f :: handles c.
Proof. intros Ha. unfold handles. rewrite fmap_insert, map_to_list_insert; [done|]. by rewrite lookup_fmap, Ha. Qed.

Lemma opened_Inv c0 c fh e flags slot : Inv c0 -> Linked c0 fh c -> Fentry_wf e -> KindOk e flags fh ->
  0 <= slot < max_open_fds_ c -> fds_ c !! Z.to_nat slot = Some None -> Inv (opened c (Fentry_EncodeTo e) flags fh slot).
Proof.
  intros [I1 I2 I3 I4 I5 I6 I7 I8 I9] [K1 K2 K3 K4 K5 K6 K7 K8] Hwf Hk Hs Hfree. unfold max_open_fds_ in *. rewrite K2 in *.
  assert (Hfresh : forall a f, files c0 !! a = Some f -> a < next_addr c) by (intros a f Hf; apply I3 in Hf as (_ & _ & _ & ?); lia).
  assert (Hnone : files c0 !! next_addr c = None). { destruct (files c0 !! next_addr c) eqn:E; [|done]. apply Hfresh in E. lia. }
  assert (Hold : forall i a, fds_ c0 !! i = Some (Some a) -> a <> next_addr c). { intros i a Hi ->. destruct (I1 _ _ Hi) as [f Hf]. congruence. }
  assert (Hlen : (Z.to_nat slot < length (fds_ c0))%nat) by (unfold zlen in Hs; lia).
  constructor; cbn; rewrite ?K1, ?K2, ?K3.
  - intros i a. rewrite list_lookup_insert_Some. intros [(<- & [= <-] & _)|[Hn Hi]]; [rewrite lookup_insert_eq; eauto|].
    rewrite lookup_insert_ne by (intros E; by eapply Hold). eauto.
  - intros i j a. rewrite !list_lookup_insert_Some. intros [(<- & E1 & _)|[Hi Ei]] [(<- & E2 & _)|[Hj Ej]]; [done|injection E1 as <-; by apply Hold in Ej|injection E2 as <-; by apply Hold in Ei|eauto].
  - intros a f [[<- <-]|[Ha Hf]]%lookup_insert_Some.
    + split_and!; [exists (Z.to_nat slot); rewrite list_lookup_insert_eq by done; done|done| |lia]. exists e. done.
    + destruct (I3 _ _ Hf) as ((i & Hi) & ? & ? & ?). split_and!; [|done|done|lia]. exists i. rewrite list_lookup_insert_ne; [done|]. intros <-. congruence.
  - rewrite (count_fds_insert _ _ _ _ Hfree). lia.
  - split; [lia|]. right. unfold max_open_fds_, zlen. cbn. rewrite K2, length_insert. unfold zlen in Hs. lia.
  - unfold max_open_fds_, zlen in *. cbn. rewrite K2, length_insert. done.
  - eapply Acct_perm; [|exact K6]. unfold handles. cbn. rewrite K1. by apply handles_insert.
  - intros d x Hd. apply K7 in Hd. lia.
  - intros d x Hd. apply K8 in Hd. lia.
Qed.

Lemma Touch_descriptor c c' fd : Touch c c' -> descriptor c' fd = descriptor c fd.
Proof.
  intros HT. unfold descriptor. rewrite (to_fds _ _ HT). destruct (mjoin _) as [a|]; [|done].
  destruct (to_files _ _ HT a) as [f f' (E & _ & E' & _)|]; [by rewrite E, E'|done].
Qed.

Lemma Fentry_encoding_nonempty e : zlen (Fentry_EncodeTo e) =? 0 = false.
Proof.
  assert (Hn : Fentry_EncodeTo e <> []).
  { unfold Fentry_EncodeTo, EncodeId. pose proof (EncodeVarint64_loop_cons 9 (reg (fe_pid e))) as Hv. unfold EncodeVarint64 at 1. by destruct (EncodeVarint64_loop 10 (reg (fe_pid e))). }
  destruct (Fentry_EncodeTo e); [done|]. rewrite zlen_cons. pose proof (zlen_nonneg l). apply Z.eqb_neq. lia.
Qed.

Lemma Open_file_spec e flags fh c0 c : Inv c0 -> Linked c0 fh c -> num_open_fds_ c0 < max_open_fds_ c0 ->
  exists slot, Open_ (Fentry_EncodeTo e) flags fh c = (Ret slot, opened c (Fentry_EncodeTo e) flags fh slot)
    /\ 0 <= slot < max_open_fds_ c /\ fds_ c !! Z.to_nat slot = Some None.
Proof.
  intros HI HK Hlt. unfold Open_, bind, assert_, new_addr, get, modify. rewrite Fentry_encoding_nonempty. cbn -[Alloc]. unfold bind. cbn -[Alloc].
  set (c1 := set_files _ _). destruct HK as [K1 K2 K3 K4 K5 K6 K7 K8], HI as [I1 I2 I3 I4 I5 I6 I7 I8 I9]. unfold max_open_fds_ in *.
  destruct (Alloc_spec (next_addr c) c1) as (slot & -> & Hs & Ef); unfold max_open_fds_, c1; cbn; rewrite ?K2, ?K3, ?K4; try done. exists slot.
  unfold max_open_fds_, c1 in Hs, Ef. cbn in Hs, Ef. rewrite K2 in Hs, Ef. unfold opened. rewrite K2, K3. done.
Qed.

Lemma opened_descriptor c encoding flags fh slot e fd : Fentry_DecodeFrom encoding = Some (e, []) -> 0 <= slot < max_open_fds_ c -> fds_ c !! Z.to_nat slot = Some None ->
  (forall i, fds_ c !! i <> Some (Some (next_addr c))) ->
  descriptor (opened c encoding flags fh slot) fd = if u64 fd =? slot then Some (e, flags) else descriptor c fd.
Proof.
  intros Hd Hs Hf Hn. unfold descriptor. cbn. assert (Hl : (Z.to_nat slot < length (fds_ c))%nat) by (unfold max_open_fds_, zlen in Hs; lia).
  destruct (Z.eqb_spec (u64 fd) slot) as [->|Hne].
  - rewrite list_lookup_insert_eq by done. cbn. rewrite lookup_insert_eq. cbn. by rewrite Hd.
  - pose proof (u64_range fd) as Hr. unfold in_width in Hr. rewrite list_lookup_insert_ne by lia. destruct (fds_ c !! Z.to_nat (u64 fd)) as [[a|]|] eqn:Ea; cbn; try done.
    rewrite lookup_insert_ne; [done|]. intros <-. by apply Hn in Ea.
Qed.

(** What opening does to the table of descriptors. *)
Definition opens (m : M FileInfo) (flags : Z) (c : Client) : Prop :=
  match m c with
  | (Ret info, c') => Inv c' /\ 0 <= fi_fd info < max_open_fds_ c /\ descriptor c (fi_fd info) = None
      /\ exists e, forall fd, descriptor c' fd = if u64 fd =? fi_fd info then Some (e, flags) else descriptor c fd
  | (Fail _, c') => Inv c' /\ forall fd, descriptor c' fd = descriptor c fd
  | (Abort _, _) => False
  end.

Lemma opens_bind {A} (m : M A) (k : A -> M FileInfo) flags c : Inv c -> (forall f c', m c <> (Abort f, c')) -> keeps m c ->
  (forall a c', m c = (Ret a, c') -> Touch c c' -> Inv c' -> opens (k a) flags c') -> opens (bind m k) flags c.
Proof.
  intros HI Ha Hm Hk. unfold opens, bind, keeps in *. destruct (m c) as [[a|s|f] c'] eqn:E.
  - specialize (Hk a c' eq_refl Hm (Touch_Inv _ _ Hm HI)). destruct (k a c') as [[info|s|f] c2]; [| |done].
    + destruct Hk as (H1 & H2 & H3 & e & H4). unfold max_open_fds_ in *. rewrite (to_fds _ _ Hm) in H2. rewrite (Touch_descriptor _ _ _ Hm) in H3.
      split_and!; try done; try lia. exists e. intros fd. rewrite H4. by rewrite (Touch_descriptor _ _ _ Hm).
    + destruct Hk as (H1 & H2). split; [done|]. intros fd. rewrite H2. by apply Touch_descriptor.
  - split; [by eapply Touch_Inv|]. intros fd. by apply Touch_descriptor.
  - by destruct (Ha f c').
Qed.

Lemma opens_fail s flags c : Inv c -> opens (fail s) flags c.
Proof. intros HI. by split. Qed.

Lemma opens_check s k flags c : Inv c -> opens k flags c -> opens (bind (check s) (fun _ => k)) flags c.
Proof. intros HI Hk. unfold check. destruct (ok s); [exact Hk|by apply opens_fail]. Qed.

Lemma no_free_address c0 fh c i : Inv c0 -> Linked c0 fh c -> fds_ c !! i <> Some (Some (next_addr c)).
Proof.
  intros HI HK Hi. rewrite (lk_fds _ _ _ HK) in Hi. destruct (iv_desc _ HI _ _ Hi) as [f Hf]. apply (iv_file _ HI) in Hf as (_ & _ & _ & ?). pose proof (lk_next _ _ _ HK). lia.
Qed.

Lemma Linked_descriptor c0 fh c fd : Linked c0 fh c -> descriptor c fd = descriptor c0 fd.
Proof. intros HK. unfold descriptor. by rewrite (lk_fds _ _ _ HK), (lk_files _ _ _ HK). Qed.

(** From the entry on: the handle, then the slot. *)
Lemma opens_link e is_new flags pivot c : Inv c -> PivotOk c pivot -> Fentry_wf e -> num_open_fds_ c < max_open_fds_ c ->
  opens (bind (link e flags is_new pivot) (fun '(fh, mtime, size) => bind (first_ref e flags fh) (fun _ => bind get (fun c =>
    if max_open_fds_ c <=? num_open_fds_ c then bind (give_back e flags fh) (fun _ => fail kTooManyOpens)
    else bind (Open_ (Fentry_EncodeTo e) flags fh) (fun fd => ret (mkInfo fd (set_size_mtime (fe_stat e) size mtime))))))) flags c.
Proof.
  intros HI HP Hwf Hlt. pose proof (links_link e flags is_new pivot c HI HP) as HL. unfold links, opens, bind in *.
  destruct (link e flags is_new pivot c) as [[[[fh mt] sz]|s|f] c1]; [| |done].
  2: { split; [by eapply Touch_Inv|]. intros fd. by apply Touch_descriptor. }
  cbn [fst snd] in HL. destruct (first_ref e flags fh c1) as [[[]|s|f] c2]; [| |done].
  2: { split; [by eapply Touch_Inv|]. intros fd. by apply Touch_descriptor. }
  cbn [get ret fst snd] in *. destruct HL as [HK Hk]. pose proof (lk_fds _ _ _ HK) as Efds.
  assert (Hc : max_open_fds_ c2 <=? num_open_fds_ c2 = false) by (unfold max_open_fds_; rewrite Efds, (lk_num _ _ _ HK); unfold max_open_fds_ in Hlt; apply Z.leb_gt; lia). rewrite Hc.
  destruct (Open_file_spec e flags fh c c2 HI HK Hlt) as (slot & -> & Hs & Hf). cbn [fi_fd].
  assert (Hsl : descriptor c slot = None). { rewrite <- (Linked_descriptor _ _ _ _ HK). unfold descriptor. pose proof (iv_len _ HI) as Hl. unfold max_open_fds_ in Hs, Hl. rewrite Efds in Hs.
    rewrite u64_small by (unfold in_width; lia). by rewrite Hf. }
  assert (Hr : 0 <= slot < max_open_fds_ c) by (unfold max_open_fds_ in *; by rewrite Efds in Hs).
  split; [by eapply opened_Inv|]. split; [exact Hr|]. split; [exact Hsl|]. exists e. intros fd.
  rewrite (opened_descriptor _ _ _ _ _ e) by (first [by apply Fentry_decode|done|intros; by eapply no_free_address]). by rewrite (Linked_descriptor _ _ _ _ HK).
Qed.

(** The entry of the file to open. *)
Definition entry_of (path : bytes) (flags mode : Z) (at_ : option Fentry) : M (Fentry * bool) :=
  if has flags O_CREAT then bind (MaskMode mode) (fun mode => call_r (mds_Fcreat path mode (has flags O_EXCL) at_))
  else bind (call_r (mds_Fstat path at_)) (fun e => ret (e, false)).

Lemma entry_of_spec path flags mode at_ c :
  match entry_of path flags mode at_ c with
  | (Ret (e, _), c') => Touch c c' /\ Fentry_wf e /\ forall e0, at_ = Some e0 -> is_dir e0 = true
  | (Fail _, c') => Touch c c'
  | (Abort _, _) => False
  end.
Proof.
  unfold entry_of. destruct (has flags O_CREAT).
  - unfold MaskMode, bind, get, ret, call_r. cbv beta iota. destruct (law_Fcreat path (Z.land (u32 (Z.lnot (mask_ c))) mode) (has flags O_EXCL) at_ (world c)) as [Ls Le].
    destruct (mds_Fcreat _ _ _ _ _) as [[s|[e b]] w]; cbn in *; [by apply Touch_world|]. split; [by apply Touch_world|]. by eapply Le.
  - unfold bind, ret, call_r. destruct (law_Fstat path at_ (world c)) as [Ls Le]. destruct (mds_Fstat _ _ _) as [[s|e] w]; cbn in *; [by apply Touch_world|].
    split; [by apply Touch_world|]. by apply Le.
Qed.

Lemma opens_InternalOpen path flags mode pivot c : Inv c -> (forall a e, pivot = Some (a, e) -> exists f, files c !! a = Some f /\ EntryOf f e) ->
  num_open_fds_ c < max_open_fds_ c -> opens (InternalOpen path flags mode pivot) flags c.
Proof.
  intros HI HP Hlt. pose proof (entry_of_spec path flags mode (snd <$> pivot) c) as He. unfold InternalOpen. fold (entry_of path flags mode (snd <$> pivot)).
  apply opens_bind; [done| | |].
  - intros f c' E. by rewrite E in He.
  - unfold keeps. destruct (entry_of _ _ _ _ c) as [[[e n]|s|f] c']; [apply He|done|done].
  - intros [e is_new] c' E HT HI'. rewrite E in He. destruct He as (_ & Hwf & Hdir). apply opens_check; [done|]. apply opens_check; [done|].
    apply opens_link; [done| |done|by unfold max_open_fds_; rewrite (to_num _ _ HT), (to_fds _ _ HT)].
    destruct pivot as [[a e0]|]; [|done]. split; [by apply Hdir|]. destruct (HP a e0 eq_refl) as (f & Hf & Hw & Hen & Hk).
    destruct (Touch_lookup _ _ _ _ HT Hf) as (f' & Hf' & S1 & S2 & S3 & _). exists f'. unfold EntryOf. by rewrite S1, S2, S3.
Qed.

Lemma opens_Fopen path flags mode c : Inv c -> opens (Fopen path flags mode) flags c.
Proof.
  intros HI. apply opens_bind; [done| |apply keeps_ExpandPath|].
  - intros f c'. unfold ExpandPath, bind, get. by destruct (expand _ _ _).
  - intros p c' _ _ HI'. unfold bind, get, opens. cbn. destruct (Z.ltb_spec (num_open_fds_ c') (max_open_fds_ c')); [|by apply opens_fail].
    by apply opens_InternalOpen.
Qed.

Lemma opens_Fopenat fd path flags mode c : Inv c -> opens (Fopenat fd path flags mode) flags c.
Proof.
  intros HI. unfold Fopenat, opens, bind. destruct (fetch_spec fd c HI) as [[E _]|(a & e & f & E & _ & Ha & _ & He & _)]; rewrite E; [by split|]. cbn [get].
  destruct (Z.ltb_spec (num_open_fds_ c) (max_open_fds_ c)); [|by apply opens_fail]. apply opens_InternalOpen; [done| |done]. intros a' e' [= <- <-]. eauto.
Qed.

(** ** Closing *)

Lemma keeps_close_loop n fd a : forall c f, Inv c -> files c !! a = Some f -> keeps (close_loop n fd a) c.
Proof.
  induction n as [|n IH]; intros c f HI Ha; cbn [close_loop]; [unfold keeps, abort, Known; auto|]. apply (keeps_bind_load _ f); [done|].
  destruct (_ <? _); [|apply keeps_ret]. apply keeps_bind; [by apply keeps_attempt, keeps_Flush|]. intros r c' _ HT.
  destruct (Touch_lookup _ _ _ _ HT Ha) as (f' & Hf' & _). eapply IH; [by eapply Touch_Inv|done].
Qed.

(** The states between which a handle is given back. *)
Record Released (c c' : Client) (hs : list Handle) : Prop := {
  rl_files : files c' = files c; rl_fds : fds_ c' = fds_ c; rl_num : num_open_fds_ c' = num_open_fds_ c; rl_slot : fd_slot_ c' = fd_slot_ c;
  rl_next : next_addr c' = next_addr c; rl_acct : Acct hs (wdirs c') (rdirs c') (world c');
  rl_w : forall d x, wdirs c' !! d = Some x -> is_Some (wdirs c !! d); rl_r : forall d x, rdirs c' !! d = Some x -> is_Some (rdirs c !! d) }.

Lemma acct_wdir h d hs wd rd w : Acct (h :: hs) wd rd w -> h = HWDir d \/ h = HWFile d -> exists r x, wd !! d = Some (r, x) /\ 0 < r.
Proof.
  intros HA Hh. pose proof (ac_w _ _ _ _ HA d) as Hd. rewrite refs_w_cons in Hd. unfold refs_w in Hd. pose proof (zlen_nonneg (filter (fun h => uses_w d h = true) hs)).
  assert (uses_w d h = true) as E by (destruct Hh as [-> | ->]; apply Z.eqb_refl). rewrite E in Hd. destruct (wd !! d) as [[r x]|] eqn:Ex; [|cbn in Hd; lia].
  exists r, x. split; [done|]. by eapply (ac_wpos _ _ _ _ HA).
Qed.

Lemma acct_rdir h d hs wd rd w : Acct (h :: hs) wd rd w -> h = HRDir d \/ h = HRFile d -> exists r, rd !! d = Some r /\ 0 < r.
Proof.
  intros HA Hh. pose proof (ac_r _ _ _ _ HA d) as Hd. rewrite refs_r_cons in Hd. unfold refs_r in Hd. pose proof (zlen_nonneg (filter (fun h => uses_r d h = true) hs)).
  assert (uses_r d h = true) as E by (destruct Hh as [-> | ->]; apply Z.eqb_refl). rewrite E in Hd. destruct (rd !! d) as [r|] eqn:Ex; [|cbn in Hd; lia].
  exists r. split; [done|]. by eapply (ac_rpos _ _ _ _ HA).
Qed.

Lemma wdir_Unref_spec h d hs c : Acct (h :: hs) (wdirs c) (rdirs c) (world c) -> h = HWDir d \/ h = HWFile d ->
  exists c', wdir_Unref d c = (Ret tt, c') /\ Released c c' hs.
Proof.
  intros HA Hh. destruct (acct_wdir _ _ _ _ _ _ HA Hh) as (r & x & Ex & Hr). pose proof (Acct_wdrop _ _ _ _ _ _ _ _ HA Hh Ex) as HD.
  unfold wdir_Unref, bind, get. rewrite Ex. unfold assert_, modify. destruct (Z.ltb_spec 0 r); [|lia]. cbn.
  destruct (r - 1 =? 0); eexists; (split; [done|]); constructor; try done; cbn; intros d' y.
  - intros [_ Hy]%lookup_delete_Some. eauto.
  - intros [[<- _]|[_ Hy]]%lookup_insert_Some; eauto.
Qed.

Lemma rdir_Unref_spec h d hs c : Acct (h :: hs) (wdirs c) (rdirs c) (world c) -> h = HRDir d \/ h = HRFile d ->
  exists c', rdir_Unref d c = (Ret tt, c') /\ Released c c' hs.
Proof.
  intros HA Hh. destruct (acct_rdir _ _ _ _ _ _ HA Hh) as (r & Ex & Hr). pose proof (Acct_rdrop _ _ _ _ _ _ _ HA Hh Ex) as HD.
  unfold rdir_Unref, bind, get. rewrite Ex. unfold assert_, modify. destruct (Z.ltb_spec 0 r); [|lia]. cbn.
  destruct (r - 1 =? 0); eexists; (split; [done|]); constructor; try done; cbn; intros d' y.
  - intros [_ Hy]%lookup_delete_Some. eauto.
  - intros [[<- _]|[_ Hy]]%lookup_insert_Some; eauto.
Qed.

Lemma release_spec e fh flags hs c : Acct (fh :: hs) (wdirs c) (rdirs c) (world c) -> KindOk e flags fh ->
  exists c', release e fh flags c = (Ret tt, c') /\ Released c c' hs.
Proof.
  intros HA Hk. unfold release, KindOk in *. destruct (is_plfs e); cbn [negb].
  - destruct (is_dir e).
    + destruct Hk as [[-> [d ->]]|[-> [d ->]]]; cbn; unfold bind; cbn [ret]; [eapply wdir_Unref_spec; eauto|eapply rdir_Unref_spec; eauto].
    + destruct Hk as [[-> [d ->]]|[-> [d ->]]]; cbn; unfold bind; cbn [ret]; [eapply wdir_Unref_spec; eauto|eapply rdir_Unref_spec; eauto].
  - destruct (is_reg e).
    + destruct Hk as [h ->]. unfold call_. pose proof (Acct_close e h hs (wdirs c) (rdirs c) (world c) HA) as HC. destruct (fio_Close e h (world c)) as [s w]. cbn in HC.
      eexists. split; [done|]. constructor; try done; cbn; intros ? ? ->; done.
    + subst fh. exists c. split; [done|]. apply (proj1 (Acct_null _ _ _ _)) in HA. constructor; try done; intros ? ? ->; done.
Qed.

(** A descriptor and its file are gone. *)
Definition unlinked (c : Client) (i : nat) (a : Z) : Client :=
  set_files (delete a (files c)) (set_fds (<[i := None]> (fds_ c)) (num_open_fds_ c - 1) (fd_slot_ c) c).

Lemma Released_Inv c i a f c' : Inv c -> fds_ c !! i = Some (Some a) -> files c !! a = Some f ->
  Released (unlinked c i a) c' (snd <$> map_to_list (f_fh <$> delete a (files c))) -> Inv c'.
Proof.
  intros [I1 I2 I3 I4 I5 I6 I7 I8 I9] Hi Ha [R1 R2 R3 R4 R5 R6 R7 R8]. cbn in *. pose proof (lookup_lt_Some _ _ _ Hi) as Hl.
  assert (Hlen : zlen (fds_ c') = zlen (fds_ c)) by (rewrite R2; unfold zlen; by rewrite length_insert).
  assert (Hlk : forall j b, fds_ c' !! j = Some (Some b) <-> j <> i /\ fds_ c !! j = Some (Some b)).
  { intros j b. rewrite R2, list_lookup_insert_Some. split; [intros [(_ & ? & _)|[? ?]]; [done|]; done|]. intros [? ?]. right. done. }
  unfold max_open_fds_ in *. constructor; unfold max_open_fds_; rewrite ?R3, ?R4, ?R5, ?Hlen.
  - intros j b [Hj Hb]%Hlk. rewrite R1, lookup_delete_ne; [eauto|]. intros <-. by apply Hj, (I2 j i a).
  - intros j k b [Hj Hb]%Hlk [Hk Hc]%Hlk. eauto.
  - intros b g. rewrite R1. intros [Hn Hg]%lookup_delete_Some. destruct (I3 _ _ Hg) as ((j & Hj) & ?). split; [|done]. exists j. apply Hlk. split; [|done]. intros ->. congruence.
  - rewrite R2, (count_fds_insert _ _ _ _ Hi). lia.
  - split; [lia|]. destruct I5 as [_ [E|]]; [by rewrite E in Hi|]. right. lia.
  - done.
  - eapply Acct_perm; [|exact R6]. unfold handles. by rewrite R1.
  - intros d x Hd. apply R7 in Hd as [y Hy]. eauto.
  - intros d x Hd. apply R8 in Hd as [y Hy]. eauto.
Qed.

Lemma Free_Unref i a e f c : Inv c -> fds_ c !! Z.to_nat i = Some (Some a) -> files c !! a = Some f -> f_refs f = 1 -> KindOk e (f_flags f) (f_fh f) ->
  exists c', bind (Free i) (fun _ => Unref a e) c = (Ret tt, c') /\ Inv c' /\ files c' = delete a (files c) /\ fds_ c' = <[Z.to_nat i := None]> (fds_ c).
Proof.
  intros HI Hi Ha Hr Hk. assert (Hn : 0 < num_open_fds_ c).
  { rewrite (iv_num _ HI). assert (I : Some a ∈ filter is_Some (fds_ c)) by (apply list_elem_of_filter; split; [done|by eapply list_elem_of_lookup_2]).
    destruct (filter is_Some (fds_ c)); [by apply elem_of_nil in I|]. rewrite zlen_cons. pose proof (zlen_nonneg l). lia. }
  unfold Free, bind, get. rewrite Hi. cbn [mjoin option_join]. unfold assert_. destruct (Z.ltb_spec 0 (num_open_fds_ c)); [|lia]. cbn -[Unref].
  unfold Unref, bind, load, get. unfold bind. cbn. rewrite Ha. cbn. rewrite Hr. cbn. unfold bind, modify.
  change (1 - 1 =? 0) with true. cbv iota beta. cbn [files set_fds]. change (set_files _ _) with (unlinked c (Z.to_nat i) a).
  destruct (release_spec e (f_fh f) (f_flags f) (snd <$> map_to_list (f_fh <$> delete a (files c))) (unlinked c (Z.to_nat i) a)) as (c' & -> & HR); [|done|].
  - eapply Acct_perm; [|exact (iv_acct _ HI)]. cbn. unfold handles. rewrite <- (insert_delete_id (files c) a f Ha) at 2. rewrite fmap_insert, map_to_list_insert; [done|].
    by rewrite lookup_fmap, lookup_delete_eq.
  - exists c'. split; [done|]. split; [by eapply Released_Inv|]. by destruct HR.
Qed.

(** What closing does to the table of descriptors. *)
Definition closes (fd : Z) (c : Client) : Prop :=
  match Close fuel fd c with
  | (Ret _, c') => Inv c' /\ is_Some (descriptor c fd) /\ forall fd', descriptor c' fd' = if u64 fd' =? u64 fd then None else descriptor c fd'
  | (Fail s, c') => s = kInvalidFileDescriptor /\ c' = c /\ descriptor c fd = None
  | (Abort f, _) => Known f
  end.

Lemma Close_closes fd c : Inv c -> closes fd c.
Proof.
  intros HI. unfold closes, Close. unfold bind at 1. destruct (fetch_spec fd c HI) as [[E Hn]|(a & e & f & E & Hd & Ha & Hr & He & Hs)]; rewrite E; [done|].
  unfold bind at 1. rewrite (load_Some _ _ _ Ha). unfold bind at 1. pose proof He as (Hwf & Een & Hk).
  set (m := if is_plfs e then _ else _). assert (Hm : keeps m c).
  { subst m. destruct (is_plfs e) eqn:Ep.
    - destruct (is_dir e) eqn:Ed; [|apply keeps_ret]. apply keeps_bind; [eapply keeps_dir_writer; eauto; unfold Known; auto|]. intros x c1 _ _. apply keeps_call_. auto with laws.
    - destruct (is_reg e); [by eapply keeps_close_loop|apply keeps_ret]. }
  assert (Hnf : forall s c1, m c <> (Fail s, c1)).
  { intros s c1. subst m. destruct (is_plfs e).
    - destruct (is_dir e); [|done]. unfold bind, dir_writer, call_. unfold bind. destruct (f_fh f); cbn; try done. destruct (wdirs c !! d) as [[r x]|]; [|done]. cbn. by destruct (dir_Finish x (world c)).
    - destruct (is_reg e); [|done]. clear. revert c. induction fuel as [|n IH]; intros c; [done|]. cbn [close_loop]. unfold bind, load, get. unfold bind. destruct (files c !! a); [|done]. cbn.
      destruct (_ <? _); [|done]. unfold attempt. destruct (Flush fd c) as [[r|r|r] c2]; cbn; try done; apply IH. }
  unfold keeps in Hm. destruct (m c) as [[u|s|x] c1] eqn:Em; [|by destruct (Hnf s c1)|done]. clear Hnf.
  destruct (Touch_lookup _ _ _ _ Hm Ha) as (f1 & Ha1 & S1 & S2 & S3 & S4). pose proof (Touch_Inv _ _ Hm HI) as HI1. rewrite <- (to_fds _ _ Hm) in Hd.
  destruct (Free_Unref (u64 fd) a e f1 c1 HI1 Hd Ha1 ltac:(congruence) ltac:(by rewrite S2, S3)) as (c' & -> & HI' & Ef & Efd).
  split; [done|]. split; [by eexists|]. intros fd'. rewrite <- (Touch_descriptor _ _ fd' Hm). unfold descriptor. rewrite Ef, Efd.
  pose proof (u64_range fd) as U1. pose proof (u64_range fd') as U2. unfold in_width in U1, U2. destruct (Z.eqb_spec (u64 fd') (u64 fd)) as [->|Hne].
  - rewrite list_lookup_insert_eq by (by eapply lookup_lt_Some). done.
  - rewrite list_lookup_insert_ne by lia. destruct (fds_ c1 !! Z.to_nat (u64 fd')) as [[b|]|] eqn:Eb; cbn; try done.
    rewrite lookup_delete_ne; [done|]. intros <-. pose proof (iv_inj _ HI1 _ _ _ Hd Eb). lia.
Qed.

(** ** All operations *)

Inductive Op :=
  | CFopen (path : bytes) (flags mode : Z) | CFopenat (fd : Z) (path : bytes) (flags mode : Z)
  | CWrite (fd : Z) (data : bytes) | CPwrite (fd : Z) (data : bytes) (off : Z) | CRead (fd size : Z) | CPread (fd off size : Z)
  | CFtruncate (fd len : Z) | CFstat (fd : Z) | CFdatasync (fd : Z) | CFlush (fd : Z) | CClose (fd : Z)
  | CAccess (path : bytes) (mode : Z) | CAccessdir (path : bytes) (mode : Z) | CListdir (path : bytes) | CTruncate (path : bytes) (len : Z)
  | CLstat (path : bytes) | CGetattr (path : bytes) | CMkfile (path : bytes) (mode : Z) | CMkdirs (path : bytes) (mode : Z)
  | CMkdir (path : bytes) (mode : Z) | CChmod (path : bytes) (mode : Z) | CChown (path : bytes) (usr grp : Z) | CUnlink (path : bytes)
  | CGetcwd (size : option Z) | CChroot (path : bytes) | CChdir (path : bytes) | CUmask (mode : Z).

Inductive Out := OUnit | OInfo (i : FileInfo) | OBytes (b : bytes) | OStat (s : Stat) | ONames (l : list bytes) | OMode (m : Z).

Definition as_out {A} (k : A -> Out) (m : M A) : M Out := bind m (fun a => ret (k a)).
Definition unit_out (m : M ()) : M Out := as_out (fun _ => OUnit) m.

Definition exec (op : Op) : M Out :=
  match op with
  | CFopen path flags mode => as_out OInfo (Fopen path flags mode)
  | CFopenat fd path flags mode => as_out OInfo (Fopenat fd path flags mode)
  | CWrite fd data => unit_out (Write fd data)
  | CPwrite fd data off => unit_out (Pwrite fd data off)
  | CRead fd size => as_out OBytes (Read fd size)
  | CPread fd off size => as_out OBytes (Pread fd off size)
  | CFtruncate fd len => unit_out (Ftruncate fd len)
  | CFstat fd => as_out OStat (Fstat fd)
  | CFdatasync fd => unit_out (Fdatasync fd)
  | CFlush fd => unit_out (Flush fd)
  | CClose fd => unit_out (Close fuel fd)
  | CAccess path mode => unit_out (Access path mode)
  | CAccessdir path mode => unit_out (Accessdir path mode)
  | CListdir path => as_out ONames (Listdir path)
  | CTruncate path len => unit_out (Truncate path len)
  | CLstat path => as_out OStat (Lstat path)
  | CGetattr path => as_out OStat (Getattr path)
  | CMkfile path mode => unit_out (Mkfile path mode)
  | CMkdirs path mode => unit_out (Mkdirs path mode)
  | CMkdir path mode => unit_out (Mkdir path mode)
  | CChmod path mode => unit_out (Chmod path mode)
  | CChown path usr grp => unit_out (Chown path usr grp)
  | CUnlink path => unit_out (Unlink path)
  | CGetcwd size => as_out OBytes (Getcwd size)
  | CChroot path => unit_out (Chroot path)
  | CChdir path => unit_out (Chdir path)
  | CUmask mode => as_out OMode (Umask mode)
  end.

Lemma keeps_as_out {A} (k : A -> Out) (m : M A) c : keeps m c -> keeps (as_out k m) c.
Proof. intros Hm. apply keeps_bind; [done|]. intros. apply keeps_ret. Qed.

Lemma keeps_modify f c : Touch c (f c) -> keeps (modify f) c.
Proof. done. Qed.

Lemma keeps_path {A} path (k : bytes -> M A) c : (forall p c', keeps (k p) c') -> keeps (bind (ExpandPath path) k) c.
Proof. intros Hk. apply keeps_bind; [apply keeps_ExpandPath|]. intros p c' _ _. apply Hk. Qed.

Lemma keeps_entry {A} p (k : Fentry -> M A) c : (forall e c', keeps (k e) c') -> keeps (bind (call_r (mds_Fstat p None)) k) c.
Proof. intros Hk. apply keeps_bind; [apply keeps_mds_Fstat|]. intros e c' _ _. apply Hk. Qed.

Lemma keeps_masked {A} mode (k : Z -> M A) c : (forall m c', keeps (k m) c') -> keeps (bind (MaskMode mode) k) c.
Proof. intros Hk. apply keeps_bind; [apply keeps_MaskMode|]. intros m c' _ _. apply Hk. Qed.

Definition is_table_op (op : Op) : bool := match op with CFopen _ _ _ | CFopenat _ _ _ _ | CClose _ => true | _ => false end.

Lemma keeps_exec op c : Inv c -> is_table_op op = false -> keeps (exec op) c.
Proof.
  intros HI Ht. destruct op; try done; apply keeps_as_out.
  - apply keeps_write_with; auto with laws.
  - apply keeps_write_with; auto with laws.
  - by apply keeps_Read.
  - by apply keeps_Pread.
  - by apply keeps_Ftruncate.
  - by apply keeps_Fstat.
  - apply keeps_flush_with; [done|auto with laws|unfold Known; auto].
  - by apply keeps_Flush.
  - apply keeps_path. intros. apply keeps_call. auto with laws.
  - apply keeps_path. intros. apply keeps_call. auto with laws.
  - apply keeps_path. intros. apply keeps_call_r. auto with laws.
  - apply keeps_path. intros. apply keeps_entry. intros. apply keeps_call. auto with laws.
  - apply keeps_path. intros. apply keeps_entry. intros e c2. destruct (is_reg e); [|apply keeps_ret]. apply keeps_bind; [apply keeps_call_r; auto with laws|]. intros [mt sz] c3 _ _. apply keeps_ret.
  - apply keeps_path. intros. apply keeps_entry. intros. apply keeps_ret.
  - apply keeps_path. intros. apply keeps_masked. intros. apply keeps_bind; [apply keeps_Fcreat|]. intros. apply keeps_ret.
  - apply keeps_path. intros. apply keeps_masked. intros. apply keeps_call. auto with laws.
  - apply keeps_path. intros. apply keeps_masked. intros. apply keeps_call. auto with laws.
  - apply keeps_path. intros. apply keeps_call. auto with laws.
  - apply keeps_path. intros. apply keeps_call. auto with laws.
  - apply keeps_path. intros. apply keeps_bind; [apply keeps_call_r; auto with laws|]. intros e c2 _ _. apply keeps_call_. auto with laws.
  - apply keeps_bind; [apply keeps_get|]. intros x c' _ _. destruct size as [n|]; [|apply keeps_fail]. destruct (n =? 0); [apply keeps_fail|]. cbv zeta. destruct (_ <=? _); [apply keeps_ret|apply keeps_fail].
  - apply keeps_path. intros. apply keeps_bind; [apply keeps_call; auto with laws|]. intros. apply keeps_modify. by constructor.
  - apply keeps_path. intros. apply keeps_bind; [apply keeps_call; auto with laws|]. intros. apply keeps_modify. by constructor.
Qed.

(** How an operation changes the descriptors: [T] before, [T'] after. *)
Definition table_step (op : Op) (r : Res Out) (max : Z) (T T' : Z -> option (Fentry * Z)) : Prop :=
  match op, r with
  | CFopen _ flags _, Ret (OInfo i) | CFopenat _ _ flags _, Ret (OInfo i) =>
      0 <= fi_fd i < max /\ T (fi_fd i) = None /\ exists e, forall fd, T' fd = if u64 fd =? fi_fd i then Some (e, flags) else T fd
  | CClose fd, Ret _ => is_Some (T fd) /\ forall fd', T' fd' = if u64 fd' =? u64 fd then None else T fd'
  | _, _ => forall fd, T' fd = T fd
  end.

Lemma exec_step op c : Inv c ->
  match exec op c with
  | (Abort f, _) => Known f
  | (r, c') => Inv c' /\ table_step op r (max_open_fds_ c) (descriptor c) (descriptor c')
  end.
Proof.
  intros HI. destruct (is_table_op op) eqn:Et.
  - destruct op as [path flags mode|fd path flags mode| | | | | | | | |fd| | | | | | | | | | | | | | | |]; try done; unfold exec, as_out, unit_out, as_out, bind.
    + pose proof (opens_Fopen path flags mode c HI) as Ho. unfold opens in Ho. destruct (Fopen path flags mode c) as [[i|s|f] c']; [cbn|cbn|done]; tauto.
    + pose proof (opens_Fopenat fd path flags mode c HI) as Ho. unfold opens in Ho. destruct (Fopenat fd path flags mode c) as [[i|s|f] c']; [cbn|cbn|done]; tauto.
    + pose proof (Close_closes fd c HI) as Ho. unfold closes in Ho. destruct (Close fuel fd c) as [[i|s|f] c']; [cbn; tauto| |done]. destruct Ho as (_ & -> & _). done.
  - pose proof (keeps_exec op c HI Et) as Hk. unfold keeps in Hk.
    destruct (exec op c) as [[a|s|f] c']; [| |done]; (split; [by eapply Touch_Inv|]); destruct op; try done; intros fd'; by apply Touch_descriptor.
Qed.

(** The states of a client. *)
Inductive Reach (max : Z) (w : W) : Client -> Prop :=
  | Reach_new : Reach max w (New max w)
  | Reach_step op c r c' : Reach max w c -> exec op c = (r, c') -> (forall f, r <> Abort f) -> Reach max w c'.

Lemma New_Inv max w : 0 <= max < 2 ^ 31 -> held w = [] -> writers w = [] -> Inv (New max w).
Proof.
  intros Hm Hh Hw. assert (Hl : max_open_fds_ (New max w) = max) by (unfold max_open_fds_, zlen; cbn; rewrite length_replicate; lia).
  assert (Hn : forall i a, fds_ (New max w) !! i <> Some (Some a)) by (intros i a [E _]%lookup_replicate; done).
  constructor; rewrite ?Hl.
  - intros i a Hi. by apply Hn in Hi.
  - intros i j a Hi. by apply Hn in Hi.
  - intros a f Hf. cbn in Hf. by rewrite lookup_empty in Hf.
  - cbn. induction (Z.to_nat max) as [|n IH]; [done|]. cbn [replicate]. rewrite count_cons. lia.
  - cbn. split; [lia|]. destruct (Z.to_nat max) eqn:E; [by left|right; lia].
  - lia.
  - constructor; cbn; try done.
    + by rewrite Hh.
    + by rewrite Hw.
  - intros d x. cbn. by rewrite lookup_empty.
  - intros d x. cbn. by rewrite lookup_empty.
Qed.

Lemma Reach_Inv max w c : 0 <= max < 2 ^ 31 -> held w = [] -> writers w = [] -> Reach max w c -> Inv c.
Proof.
  intros Hm Hh Hw. induction 1 as [|op c r c' _ IH E Hf]; [by apply New_Inv|]. pose proof (exec_step op c IH) as Hs. rewrite E in Hs. destruct r; [apply Hs|apply Hs|by destruct (Hf f)].
Qed.

(** ** The handles of the open descriptors *)

(** The addresses the slots of the table hold, and the handle behind each. *)
Definition open_addrs (c : Client) : list Z := omap id (fds_ c).
Definition open_handles (c : Client) : list Handle := omap (fun a => f_fh <$> files c !! a) (open_addrs c).

Lemma omap_Some_length {A} (l : list (option A)) : zlen (omap id l) = zlen (filter is_Some l).
Proof.
  induction l as [|[a|] l IH]; [done| |].
  - rewrite filter_cons_True by done. cbn. by rewrite !zlen_cons, IH.
  - rewrite filter_cons_False by (by intros [? ?]). done.
Qed.

Lemma NoDup_slots (l : list (option Z)) : (forall i j a, l !! i = Some (Some a) -> l !! j = Some (Some a) -> i = j) -> NoDup (omap id l).
Proof.
  induction l as [|[a|] l IH]; intros Hi; cbn; [constructor| |].
  - constructor; [|apply IH; intros i j b H1 H2; by injection (Hi (S i) (S j) b H1 H2)].
    intros ([b|] & [j Hj]%list_elem_of_lookup & [= ->])%list_elem_of_omap. by specialize (Hi 0%nat (S j) a eq_refl Hj).
  - apply IH. intros i j b H1 H2. by injection (Hi (S i) (S j) b H1 H2).
Qed.

(** The objects of the heap are those the descriptors hold, one for each. *)
Lemma open_addrs_files c : Inv c -> open_addrs c ≡ₚ fst <$> map_to_list (files c).
Proof.
  intros HI. apply NoDup_Permutation; [apply NoDup_slots, HI|apply NoDup_fst_map_to_list|]. intros a. unfold open_addrs. rewrite list_elem_of_omap, list_elem_of_fmap. split.
  - intros ([b|] & [i Hi]%list_elem_of_lookup & [= ->]). destruct (iv_desc _ HI _ _ Hi) as [f Hf]. exists (a, f). split; [done|]. by apply elem_of_map_to_list.
  - intros ([b f] & -> & Hf%elem_of_map_to_list). destruct (iv_file _ HI _ _ Hf) as ([i Hi] & _). exists (Some b). split; [|done]. by eapply list_elem_of_lookup_2.
Qed.

Lemma omap_map_to_list {A} (g : File -> A) (m : gmap Z File) (l : list (Z * File)) : (forall a f, (a, f) ∈ l -> m !! a = Some f) ->
  omap (fun a => g <$> m !! a) (fst <$> l) = (fun p => g p.2) <$> l.
Proof.
  induction l as [|[a f] l IH]; [done|]. intros Hl. cbn. rewrite (Hl a f) by (left). cbn. f_equal. apply IH. intros b x Hb. apply Hl. by right.
Qed.

Lemma open_handles_heap c : Inv c -> open_handles c ≡ₚ handles c.
Proof.
  intros HI. unfold open_handles, handles. rewrite (open_addrs_files c HI), omap_map_to_list by (intros a f; apply elem_of_map_to_list).
  rewrite map_to_list_fmap, <- list_fmap_compose. done.
Qed.

Lemma open_handles_count c : Inv c -> zlen (open_handles c) = num_open_fds_ c.
Proof.
  intros HI. rewrite (iv_num _ HI), <- omap_Some_length. unfold open_handles, zlen. f_equal. fold (open_addrs c).
  assert (Hall : forall a, a ∈ open_addrs c -> is_Some (files c !! a)).
  { intros a ([b|] & [i Hi]%list_elem_of_lookup & [= ->])%list_elem_of_omap. by apply (iv_desc _ HI _ _ Hi). }
  induction (open_addrs c) as [|a l IH]; [done|]. cbn. destruct (Hall a) as [f ->]; [left|]. cbn. f_equal. apply IH. intros b Hb. apply Hall. by right.
Qed.

(** C9. Descriptors of the file system client.  Whatever sequence of operations is
    run and whatever the services below answer: every open descriptor stands for one
    live file object, referenced by the table alone, no two descriptors share an
    object, no object is without a descriptor, and [num_open_fds_] counts them; the
    data handles held at the data service are exactly those of the open descriptors,
    and a plfs directory writer or reader is open exactly while descriptors use it
    and counts those that do, so that nothing leaks and nothing is closed twice.  No
    freed object is used and no assertion fails except in the three known
    situations; opening takes a free descriptor and changes no other, closing frees
    exactly its descriptor, and every other operation leaves the table of
    descriptors as it is. *)
Theorem descriptors_safe max w c op : 0 <= max < 2 ^ 31 -> held w = [] -> writers w = [] -> Reach max w c ->
  (NoDup (open_addrs c) /\ open_addrs c ≡ₚ fst <$> map_to_list (files c)
   /\ (forall a f, files c !! a = Some f -> f_refs f = 1)
   /\ zlen (open_handles c) = num_open_fds_ c /\ num_open_fds_ c <= max_open_fds_ c)
  /\ held (world c) ≡ₚ omap fio_of (open_handles c)
  /\ writers (world c) ≡ₚ snd <$> map_to_list (snd <$> wdirs c)
  /\ (forall d n, fst <$> wdirs c !! d = Some n <-> refs_w d (open_handles c) = n /\ 0 < n)
  /\ (forall d n, rdirs c !! d = Some n <-> refs_r d (open_handles c) = n /\ 0 < n)
  /\ match exec op c with
     | (Abort f, _) => Known f
     | (r, c') => table_step op r (max_open_fds_ c) (descriptor c) (descriptor c')
     end.
Proof.
  intros Hm Hh Hw HR. pose proof (Reach_Inv _ _ _ Hm Hh Hw HR) as HI.
  destruct (Acct_perm _ _ _ _ _ (open_handles_heap c HI) (iv_acct _ HI)) as [A1 A2 A3 A4 A5 A6]. split_and!; [..|].
  - apply NoDup_slots, HI.
  - by apply open_addrs_files.
  - intros a f Hf. by destruct (iv_file _ HI _ _ Hf) as (_ & ? & _).
  - by apply open_handles_count.
  - rewrite (iv_num _ HI). unfold max_open_fds_, zlen. apply Nat2Z.inj_le, length_filter.
  - done.
  - done.
  - intros d n. rewrite A3. specialize (A4 d). destruct (wdirs c !! d) as [[r x]|]; cbn; [specialize (A4 r x eq_refl)|]; naive_solver lia.
  - intros d n. rewrite A5. specialize (A6 d). destruct (rdirs c !! d) as [r|]; cbn; [specialize (A6 r eq_refl)|]; naive_solver lia.
  - pose proof (exec_step op c HI) as Hs. destruct (exec op c) as [[a|s|f] c']; [apply Hs|apply Hs|done].
Qed.

(** C24. The mode a file was opened with holds for its descriptor: writes and
    truncation through a descriptor opened for reading only, and reads through one
    opened for writing only, are refused before any service is called, and change
    nothing. *)
Theorem open_modes_enforced max w c fd e flags data off size : 0 <= max < 2 ^ 31 -> held w = [] -> writers w = [] -> Reach max w c ->
  descriptor c fd = Some (e, flags) ->
  let refused op := exec op c = (Fail kInvalidFileDescriptor, c) in
  (accmode flags = O_RDONLY -> refused (CWrite fd data) /\ refused (CPwrite fd data off) /\ refused (CFtruncate fd size))
  /\ (accmode flags = O_WRONLY -> refused (CRead fd size) /\ refused (CPread fd off size)).
Proof.
  intros Hm Hh Hw HR Hd. pose proof (Reach_Inv _ _ _ Hm Hh Hw HR) as HI.
  destruct (fetch_spec fd c HI) as [[_ E]|(a & e' & f & E & _ & Ha & _ & _ & Hd')]; [congruence|]. rewrite Hd in Hd'. injection Hd' as <- Ef. cbv zeta. rewrite Ef. split; intros Em.
  - unfold exec, unit_out, as_out, Write, Pwrite, write_with, Ftruncate, bind. rewrite E, (load_Some _ _ _ Ha). unfold IsWriteOk. rewrite Em. cbn.
    by destruct (is_reg e), (is_plfs e).
  - unfold exec, as_out, Read, Pread, read_with, bind. rewrite E, (load_Some _ _ _ Ha). unfold IsReadOk. rewrite Em. cbn. by destruct (is_reg e).
Qed.

End Props.
