(* ===== verification/DfsClientDemo.v ===== *)
(** * The file system client over files in a key-value store

    An instance of the services of the client: file data is kept by [BlkDB] over
    a store in memory, names by a map.  It shows that the assumptions of
    [DfsClientProps] can hold, and runs the client on it. *)
From S2P Require Import Prelude Coding Status FsTypes Gigaplus Mdb MdsApi BlkDb BlkDbProps DfsClient DfsClientProps.

Module ClientDemo.

Definition blk : BlkDBOptions := mkBlkOptions 1 false.
#[local] Instance store : Store := mem_store true.

(** Names map to inode number and mode. *)
Record World := mkWorld { w_db : MemStoreDb; w_streams : gmap Z Stream; w_names : gmap bytes (Z * Z); w_writers : list Z }.

Definition with_db (d : MemStoreDb) (w : World) : World := mkWorld d (w_streams w) (w_names w) (w_writers w).
Definition with_streams (m : gmap Z Stream) (w : World) : World := mkWorld (w_db w) m (w_names w) (w_writers w).

Definition entry (x : Z * Z) : Fentry := mkFentry (mkStat 0 0 (u64 x.1) 0 (u32 x.2) 0 0 0 0 0) [] (mkDirId 0 0 1) 0.

Definition below_dir (at_ : option Fentry) : bool := match at_ with Some e => is_dir e | None => true end.

Definition d_Fcreat (p : bytes) (mode : Z) (excl : bool) (at_ : option Fentry) (w : World) : (Status + Fentry * bool) * World :=
  if below_dir at_ then
    match w_names w !! p with
    | Some x => (if excl then inl kAlreadyExists else inr (entry x, false), w)
    | None =>
        let x := (100 + Z.of_nat (base.size (w_names w)), Z.lor S_IFREG mode) in
        (inr (entry x, true), mkWorld (w_db w) (w_streams w) (<[p := x]> (w_names w)) (w_writers w))
    end
  else (inl kDirExpected, w).

Definition d_Fstat (p : bytes) (at_ : option Fentry) (w : World) : (Status + Fentry) * World :=
  (if below_dir at_ then match w_names w !! p with Some x => inr (entry x) | None => inl kNotFound end else inl kDirExpected, w).

(** Data operations look the stream up by its handle. *)
Definition new_stream (s : Stream) (w : World) : Z * World :=
  let h := fresh (dom (w_streams w)) in (h, with_streams (<[h := s]> (w_streams w)) w).
Definition on_stream (f : Stream -> MemStoreDb -> Status * Stream * MemStoreDb) (h : Z) (w : World) : Status * World :=
  match w_streams w !! h with
  | Some s => let '(st, s, d) := f s (w_db w) in (st, with_db d (with_streams (<[h := s]> (w_streams w)) w))
  | None => (kInvalidArgument, w)
  end.
Definition read_stream (f : Stream -> MemStoreDb -> option (Status * bytes * Stream)) (h : Z) (w : World) : (Status + bytes) * World :=
  match w_streams w !! h with
  | Some s =>
      match f s (w_db w) with
      | Some (st, out, s) => (if ok st then inr out else inl st, with_streams (<[h := s]> (w_streams w)) w)
      | None => (inl kIOError, w)
      end
  | None => (inl kInvalidArgument, w)
  end.

Definition d_Creat (e : Fentry) (append : bool) (w : World) : (Status + Z) * World :=
  let (r, d) := BlkDb.Creat blk e (w_db w) in
  match r with inl s => (inl s, with_db d w) | inr s => let (h, w) := new_stream s (with_db d w) in (inr h, w) end.
Definition d_Open (e : Fentry) (create trunc append : bool) (w : World) : (Status + Z * Z * Z) * World :=
  match BlkDb.Open blk e create trunc (w_db w) with
  | Some (inr (mtime, size, s), d) => let (h, w) := new_stream s (with_db d w) in (inr (mtime, size, h), w)
  | Some (inl s, d) => (inl s, with_db d w)
  | None => (inl kIOError, w)
  end.
Definition d_Close (e : Fentry) (h : Z) (w : World) : Status * World :=
  match w_streams w !! h with
  | Some s =>
      match BlkDb.Close blk e s (w_db w) with
      | Some (st, d) => (st, with_db d (with_streams (delete h (w_streams w)) w))
      | None => (kIOError, with_streams (delete h (w_streams w)) w)
      end
  | None => (kInvalidArgument, w)
  end.
Definition d_dir_Open (e : Fentry) (w : World) : (Status + Z) * World :=
  let d := zlen (w_writers w) in (inr d, mkWorld (w_db w) (w_streams w) (w_names w) (d :: w_writers w)).
Fixpoint remove_one (d : Z) (l : list Z) : list Z :=
  match l with [] => [] | x :: l => if x =? d then l else x :: remove_one d l end.
Definition d_delete (d : Z) (w : World) : World := mkWorld (w_db w) (w_streams w) (w_names w) (remove_one d (w_writers w)).

Definition nop {A} (a : A) (w : World) : A * World := (a, w).

#[export] Instance services : Services := {|
  W := World; FH := Z; DW := Z;
  mds_Fcreat := d_Fcreat; mds_Fstat := d_Fstat; mds_Ftruncate := fun _ _ _ => nop kOk; mds_Mkdir := fun _ _ _ _ => nop kOk;
  mds_Chmod := fun _ _ => nop kOk; mds_Chown := fun _ _ _ => nop kOk; mds_Unlink := fun _ => nop (inl kNotFound);
  mds_Listdir := fun _ => nop (inr []); mds_Accessdir := fun _ _ => nop kOk; mds_Access := fun _ _ => nop kOk;
  mds_IsReadOk := fun _ => true; mds_IsWriteOk := fun _ => true;
  fio_Creat := d_Creat; fio_Open := d_Open;
  fio_Fstat := fun e h _ w =>
    (match w_streams w !! h with Some s => BlkDb.Fstat s | None => inl kInvalidArgument end, w);
  fio_Write := fun e h data => on_stream (BlkDb.Write blk e data 1) h;
  fio_Pwrite := fun e h data off => on_stream (BlkDb.Pwrite blk e data off 1) h;
  fio_Read := fun e h size => read_stream (BlkDb.Read e size []) h;
  fio_Pread := fun e h off size => read_stream (BlkDb.Pread e off size []) h;
  fio_Ftrunc := fun e h len => on_stream (BlkDb.Ftrunc e len) h;
  fio_Flush := fun e h force => on_stream (BlkDb.Flush blk e force) h;
  fio_Close := d_Close;
  fio_Trunc := fun _ _ => nop kNotSupported; fio_Stat := fun _ => nop (inl kNotSupported); fio_Drop := fun _ => nop kNotSupported;
  dir_Open := d_dir_Open; dir_Add := fun _ _ _ => nop kOk; dir_Flush := fun _ => nop kOk; dir_EpochFlush := fun _ => nop kOk;
  dir_Finish := fun _ => nop kOk; dir_delete := d_delete |}.

Definition d_held (w : World) : list Z := elements (dom (w_streams w)).

Lemma entry_wf x : Fentry_wf (entry x).
Proof.
  pose proof (u64_range x.1). pose proof (u32_range x.2). unfold Fentry_wf, Stat_wf, DirId_wf, entry; cbn -[u64 u32]. split_and!; try done; unfold in_width, zlen; cbn; lia.
Qed.

Lemma held_on_stream f h w : d_held (on_stream f h w).2 ≡ₚ d_held w /\ w_writers (on_stream f h w).2 ≡ₚ w_writers w.
Proof.
  unfold on_stream. destruct (w_streams w !! h) as [s|] eqn:E; [|done]. destruct (f s (w_db w)) as [[st s'] d]. cbn. split; [|done].
  unfold d_held. cbn. by rewrite dom_insert_lookup_L by eauto.
Qed.

Lemma held_read_stream f h w : d_held (read_stream f h w).2 ≡ₚ d_held w /\ w_writers (read_stream f h w).2 ≡ₚ w_writers w.
Proof.
  unfold read_stream. destruct (w_streams w !! h) as [s|] eqn:E; [|done]. destruct (f s (w_db w)) as [[[st out] s']|]; [|done]. cbn. split; [|done].
  unfold d_held. cbn. by rewrite dom_insert_lookup_L by eauto.
Qed.

Lemma held_new s w : d_held (new_stream s w).2 ≡ₚ (new_stream s w).1 :: d_held w.
Proof. unfold d_held, new_stream. cbn. rewrite dom_insert_L, elements_union_singleton; [done|]. apply is_fresh. Qed.

Lemma remove_one_perm d l : d ∈ l -> l ≡ₚ d :: remove_one d l.
Proof.
  induction l as [|x l IH]; [by intros []%elem_of_nil|]. cbn. destruct (Z.eqb_spec x d) as [->|Hn]; [done|].
  intros [->|Hi]%elem_of_cons; [done|]. rewrite (IH Hi) at 1. constructor.
Qed.

Lemma below_dir_spec at_ : below_dir at_ = true -> forall e0, at_ = Some e0 -> is_dir e0 = true.
Proof. by intros Hb e0 ->. Qed.

Lemma d_Creat_held e a w : let (r, w') := d_Creat e a w in
  w_writers w' ≡ₚ w_writers w /\ d_held w' ≡ₚ match r with inr h => h :: d_held w | inl _ => d_held w end.
Proof. unfold d_Creat. destruct (BlkDb.Creat (H := store) blk e (w_db w)) as [[s|s] d]; [done|]. cbn. split; [done|apply (held_new s (with_db d w))]. Qed.

Lemma d_Open_held e a b c w : let (r, w') := d_Open e a b c w in
  w_writers w' ≡ₚ w_writers w /\ d_held w' ≡ₚ match r with inr (_, _, h) => h :: d_held w | inl _ => d_held w end.
Proof.
  unfold d_Open. destruct (BlkDb.Open (H := store) blk e a b (w_db w)) as [[[s|[[mt sz] s]] d]|]; [done| |done]. cbn. split; [done|apply (held_new s (with_db d w))].
Qed.

Lemma d_Close_held e h w : h ∈ d_held w -> d_held w ≡ₚ h :: d_held (d_Close e h w).2 /\ w_writers (d_Close e h w).2 ≡ₚ w_writers w.
Proof.
  unfold d_held, d_Close. intros Hh. pose proof Hh as Hd%elem_of_elements. pose proof Hd as [s Es]%elem_of_dom. rewrite Es.
  assert (E : elements (dom (w_streams w)) ≡ₚ h :: elements (dom (delete h (w_streams w)))).
  { rewrite dom_delete_L, <- elements_union_singleton by set_solver. by rewrite <- union_difference_singleton_L by done. }
  destruct (BlkDb.Close (H := store) blk e s (w_db w)) as [[st d]|]; cbn; (split; [apply E|done]).
Qed.

#[refine] Instance lawful : Lawful := {| held := d_held; writers := w_writers |}.
Proof.
  all: try (intros; split; done).
  - intros p mode excl at_ w. cbn. unfold d_Fcreat. destruct (below_dir at_) eqn:Eb; [|done]. destruct (w_names w !! p) as [x|]; [destruct excl|]; cbn; (split; [done|]); intros e b;
      try done; intros [= <- _]; (split; [apply entry_wf|by apply below_dir_spec]).
  - intros p at_ w. cbn. unfold d_Fstat. cbn. split; [done|]. intros e. destruct (below_dir at_) eqn:Eb; [|done]. destruct (w_names w !! p); [|done]. intros [= <-].
    split; [apply entry_wf|by apply below_dir_spec].
  - intros e a w. apply d_Creat_held.
  - intros e a b c w. apply d_Open_held.
  - intros e h w Hh. by apply d_Close_held.
  - intros. cbn [services fio_Write fio_Pwrite fio_Read fio_Pread fio_Ftrunc fio_Flush]. apply held_on_stream.
  - intros. cbn [services fio_Write fio_Pwrite fio_Read fio_Pread fio_Ftrunc fio_Flush]. apply held_on_stream.
  - intros. cbn [services fio_Write fio_Pwrite fio_Read fio_Pread fio_Ftrunc fio_Flush]. apply held_read_stream.
  - intros. cbn [services fio_Write fio_Pwrite fio_Read fio_Pread fio_Ftrunc fio_Flush]. apply held_read_stream.
  - intros. cbn [services fio_Write fio_Pwrite fio_Read fio_Pread fio_Ftrunc fio_Flush]. apply held_on_stream.
  - intros. cbn [services fio_Write fio_Pwrite fio_Read fio_Pread fio_Ftrunc fio_Flush]. apply held_on_stream.
  - intros d w Hd. cbn. split; [by apply remove_one_perm|done].
Defined.

(** ** Runs *)

Definition no_db (errors : list Status) : MemStoreDb := mkMemStore ∅ errors None.
Definition w0 : World := mkWorld (no_db []) ∅ ∅ [].
Definition name : bytes := [47; 102].

Fixpoint run (ops : list Op) (c : Client) : list (Res Out) * Client :=
  match ops with
  | [] => ([], c)
  | op :: ops =>
      match exec 3 op c with
      | (Abort f, c) => ([Abort f], c)
      | (r, c) => let (rs, c) := run ops c in (r :: rs, c)
      end
  end.

Lemma run_Reach max w ops c : Reach 3 max w c -> (forall f, Abort f ∉ (run ops c).1) -> Reach 3 max w (run ops c).2.
Proof.
  revert c. induction ops as [|op ops IH]; intros c HR Hf; [done|]. cbn in *. destruct (exec 3 op c) as [r c'] eqn:E.
  destruct r as [o|s|f]; cbn in Hf; [| |by destruct (Hf f); left]; (destruct (run ops c') as [rs c''] eqn:Er; cbn in *; change c'' with (rs, c'').2; rewrite <- Er; apply IH;
    [eapply Reach_step; [exact HR|exact E|done]|intros f Hi; apply (Hf f); right; by rewrite Er in Hi]).
Qed.

Definition shown (r : Res Out) : Res Out :=
  match r with Ret (OInfo i) => Ret (OMode (fi_fd i)) | Ret (OStat s) => Ret (OMode (FileSize s)) | r => r end.
Definition results (ops : list Op) (w : World) : list (Res Out) := shown <$> (run ops (New 4 w)).1.

(** Two descriptors of one file, each with a position of its own; the data is there
    after the file is closed and opened again. *)
Example write_close_reopen :
  results [CFopen name (Z.lor O_CREAT O_RDWR) 420; CWrite 0 [1; 2; 3]; CPread 0 1 9; CClose 0; CFopen name O_RDONLY 0; CFopen name O_WRONLY 0;
           CRead 0 2; CRead 0 9; CRead 1 1; CWrite 0 [4]; CClose 0; CRead 0 1; CFopen [47; 103] O_RDONLY 0; CFstat 1] w0
  = [Ret (OMode 0); Ret OUnit; Ret (OBytes [2; 3]); Ret OUnit; Ret (OMode 0); Ret (OMode 1);
     Ret (OBytes [1; 2]); Ret (OBytes [3]); Fail kInvalidFileDescriptor; Fail kInvalidFileDescriptor; Ret OUnit; Fail kInvalidFileDescriptor;
     Fail kNotFound; Ret (OMode 3)].
Proof. vm_compute. reflexivity. Qed.

(** [Close] flushes until the flush succeeds, which it never does once a write of
    the header has failed: it does not return. *)
Example close_never_returns :
  results [CFopen name (Z.lor O_CREAT O_RDWR) 420; CWrite 0 [1]; CClose 0] (mkWorld (no_db [kOk; kOk; kIOError]) ∅ ∅ [])
  = [Ret (OMode 0); Ret OUnit; Abort (Forever 1011)].
Proof. vm_compute. reflexivity. Qed.

(** A plfs directory opened for reading has no writer to finish. *)
Definition plfs_world : World := mkWorld (no_db []) ∅ {[ name := (9, Z.lor S_IFDIR DELTAFS_DIR_PLFS_STYLE) ]} [].
Example close_of_plfs_reader :
  results [CFopen name O_RDONLY 0; CClose 0] plfs_world = [Ret (OMode 0); Abort (NullPointer 1001)].
Proof. vm_compute. reflexivity. Qed.

(** A file under a plfs directory keeps the directory alive when that is closed. *)
Example plfs_parent_outlives :
  let (rs, c) := run [CFopen name O_WRONLY 0; CFopenat 0 [103] (Z.lor O_CREAT (Z.lor O_APPEND O_WRONLY)) (Z.lor DELTAFS_DIR_PLFS_STYLE 420); CClose 0; CWrite 1 [7]] (New 4 plfs_world) in
  (shown <$> rs, w_writers (world c), w_writers (world (run [CClose 1] c).2))
  = ([Ret (OMode 0); Ret (OMode 1); Ret OUnit; Ret OUnit], [0], []).
Proof. vm_compute. reflexivity. Qed.

(** Under a changed root the root directory gets a slash at its end. *)
Example root_of_chroot : expand (Some name) None [47] = inr (name ++ [47]).
Proof. reflexivity. Qed.

(** ** Witnesses *)

Definition opened : list Op := [CFopen name (Z.lor O_CREAT O_WRONLY) 420].

Lemma opened_Reach : Reach 3 4 w0 (run opened (New 4 w0)).2.
Proof. apply run_Reach; [constructor|]. intros f. vm_compute. by intros [?|[]%elem_of_nil]%elem_of_cons. Qed.

Lemma descriptors_safe_witness :
  let c := (run opened (New 4 w0)).2 in
  length (open_addrs c) = 1%nat /\ length (d_held (world c)) = length (omap fio_of (open_handles c))
  /\ table_step (CClose 0) (exec 3 (CClose 0) c).1 4 (descriptor c) (descriptor (exec 3 (CClose 0) c).2).
Proof.
  intros c. pose proof (@descriptors_safe services lawful 3 4 w0 c (CClose 0) ltac:(lia) eq_refl eq_refl opened_Reach) as (_ & Hh & _ & _ & _ & Hs).
  split; [reflexivity|]. split; [exact (Permutation_length Hh)|exact Hs].
Defined.

Lemma open_modes_enforced_witness :
  let c := (run opened (New 4 w0)).2 in exec 3 (CRead 0 5) c = (Fail kInvalidFileDescriptor, c).
Proof.
  intros c. destruct (descriptor c 0) as [[e flags]|] eqn:Ed; [|done].
  destruct (@open_modes_enforced services lawful 3 4 w0 c 0 e flags [] 0 5 ltac:(lia) eq_refl eq_refl opened_Reach Ed) as [_ Hr]. apply Hr. revert Ed. vm_compute. by intros [= _ <-].
Defined.
End ClientDemo.
