(* ===== verification/MdsCli.v ===== *)
(** * The metadata client (src/libdeltafs/mds_cli.h, mds_cli.cc, mds.cc)

    [MDS::CLI]: resolves paths, one component at a time, with a cache of lookup
    leases; sends each operation to the server the cached directory index names;
    follows the redirections of servers with newer indices.

    The servers are reached through the interface [MDS] of [MdsApi]:
    [factory k] is [factory_->Get(k)], and all servers share one state [world].
    The client's own state is its two caches and its clock.  Its mutex is
    released during calls to servers; the operations are modelled one at a time.

    [Res] is how an operation ends: it returns OK with a result, a status that
    is not OK, or it does not return: an [assert] fails, a null pointer is
    followed, a call to a server crashes, an exception is not caught.  The loops
    that nothing in the code bounds take [fuel]; [OutOfFuel] is a run that goes
    on longer than that. *)
From S2P Require Import Prelude Coding Status FsTypes Gigaplus Lru Tables MdsApi.

Module CLI.

(** ** Options and state *)

Record MDSCliOptions := mkOptions {
  index_cache_size : Z; lookup_cache_size : Z; paranoid_checks : bool;
  atomic_path_resolution : bool; max_redirects_allowed : Z;
  num_virtual_servers : Z; num_servers : Z; session_id_ : Z; uid_ : Z; gid_ : Z }.

Inductive Fault :=
  | Assertion (line : Z)       (* a failed assert of mds_cli.cc *)
  | GigaAssertion              (* a failed assert of gigaplus.cc *)
  | NullPointer (line : Z)     (* a result stored through a null pointer *)
  | DanglingHandle             (* a cache handle of no entry *)
  | CallCrash (c : Crashed)    (* a server call went wrong *)
  | Uncaught (redirect : bytes)
  | OutOfFuel.

Inductive Res (A : Type) :=
  | Ret (a : A)
  | Fail (s : Status)
  | Abort (f : Fault).
Arguments Ret {A} _.
Arguments Fail {A} _.
Arguments Abort {A} _.

Definition map_res {A B} (f : A -> B) (r : Res A) : Res B :=
  match r with Ret a => Ret (f a) | Fail s => Fail s | Abort x => Abort x end.

Section CLI.
Context `{XXHash} {St : Type} (o : MDSCliOptions) (factory : Z -> MDS St) (fuel : nat).

Definition giga_ : DirIndexOptions :=
  mkGiga (num_servers o) (num_virtual_servers o) (paranoid_checks o).

Record CLI := mkCLI {
  lookup_cache_ : LRU (V := LookupStat); index_cache_ : LRU (V := Rep);
  clock : Z; ticks : list Z; world : St }.

Definition CLI_new (now : Z) (ts : list Z) (w : St) : CLI :=
  mkCLI (LookupCache.LookupCache_new (lookup_cache_size o))
    (IndexCache.IndexCache_new (index_cache_size o)) now ts w.

Definition set_lookups (st : CLI) (t : LRU (V := LookupStat)) : CLI :=
  mkCLI t (index_cache_ st) (clock st) (ticks st) (world st).
Definition set_indices (st : CLI) (t : LRU (V := Rep)) : CLI :=
  mkCLI (lookup_cache_ st) t (clock st) (ticks st) (world st).
Definition set_world (st : CLI) (w : St) : CLI :=
  mkCLI (lookup_cache_ st) (index_cache_ st) (clock st) (ticks st) w.

(** Each reading advances the clock by the next element of [ticks]. *)
Definition CurrentMicros (st : CLI) : Z * CLI :=
  let now := u64 (clock st + hd 0 (ticks st)) in
  (now, mkCLI (lookup_cache_ st) (index_cache_ st) now (tail (ticks st)) (world st)).

(** ** The monad of the operations: a status that is not OK ends them early *)

Definition M (A : Type) : Type := CLI -> Res A * CLI.
Definition ret {A} (a : A) : M A := fun st => (Ret a, st).
Definition fail {A} (s : Status) : M A := fun st => (Fail s, st).
Definition abort {A} (f : Fault) : M A := fun st => (Abort f, st).
Definition bind {A B} (m : M A) (k : A -> M B) : M B := fun st =>
  match m st with
  | (Ret a, st) => k a st
  | (Fail s, st) => (Fail s, st)
  | (Abort f, st) => (Abort f, st)
  end.
Notation "'let!' x ':=' e 'in' k" := (bind e (fun x => k))
  (at level 10, x pattern, e at level 100, k at level 200).

Definition assert_ (line : Z) (b : bool) : M () :=
  if b then ret tt else abort (Assertion line).

Definition giga_assert (b : bool) : M () := if b then ret tt else abort GigaAssertion.

(** A server call of an operation that does not catch redirections. *)
Definition call {A} (server : Z) (f : MDS St -> St -> Run A * St) : M A := fun st =>
  let (r, w) := f (factory server) (world st) in
  (match r with
   | Done (Ok a) => Ret a
   | Done (Error s) => Fail s
   | Done (Redirected re) => Abort (Uncaught re)
   | Crash c => Abort (CallCrash c)
   end, set_world st w).

(** ** Directory indices *)

Definition lookup_index (id : DirId) : M (option nat) := fun st =>
  let (h, t) := IndexCache.Lookup (index_cache_ st) id in (Ret h, set_indices st t).
Definition insert_index (id : DirId) (idx : Rep) : M nat := fun st =>
  let (h, t) := IndexCache.Insert (index_cache_ st) id idx in (Ret h, set_indices st t).
Definition release_index (h : nat) (st : CLI) : CLI :=
  set_indices st (IndexCache.Release (index_cache_ st) h).
Definition index_value (h : nat) : M Rep := fun st =>
  match IndexCache.Value (index_cache_ st) h with
  | Some idx => (Ret idx, st)
  | None => (Abort DanglingHandle, st)
  end.

Definition base_options (id : DirId) (op_due : Z) (hash nm : bytes) : BaseOptions :=
  mkBase id (u32 (session_id_ o)) op_due hash nm.

Definition FetchIndex (id : DirId) (zserver : Z) : M nat :=
  let! h := lookup_index id in
  match h with
  | Some h => ret h
  | None =>
      let! _ := assert_ 41 (0 <=? zserver) in
      let server := Z.rem zserver (num_servers o) in
      let! idx := call server (fun m => call_Readidx m (base_options id DELTAFS_MAX_MICROS [] [])) in
      let! _ := giga_assert (Update_assert (DirIndex_empty giga_) idx) in
      match Update (DirIndex_empty giga_) idx with
      | Some (mkDirIndex _ (Some r)) =>
          if negb (zeroth_server r =? zserver) then fail kCorruption else insert_index id r
      | _ => fail kCorruption
      end
  end.

(** [FetchIndex], then the rest of the block with the index under an
    [IndexGuard], which releases the handle when the block is left. *)
Definition with_index {A} (id : DirId) (zserver : Z) (k : Rep -> M A) : M A :=
  let! h := FetchIndex id zserver in
  fun st => let (r, st) := bind (index_value h) k st in (r, release_index h st).

(** ** Following redirections *)

(** [new DirIndex(&giga_)] updated with [*idx] *)
Definition copy_index (idx : Rep) : Rep :=
  default idx (rep (UpdateIndex (DirIndex_empty giga_) idx)).

(** The assertions of that update, where there is no copy yet. *)
Definition copy_assert (idx : Rep) (tmp_idx : option Rep) : bool :=
  match tmp_idx with
  | Some _ => true
  | None => MergeRep_assert (NewRep (zeroth_server idx)) idx
  end.

Definition IsTryAgain (s : Status) : bool := bool_decide (s = kTryAgain).

(** The [do ... while (s.IsTryAgain())] loop of the operations: the reply, the
    index [tmp_idx] if a redirection made one, and the servers' state. *)
Fixpoint redirects {A} (fuel : nat) (line : Z) (f : Z -> St -> Run A * St) (hash : bytes)
    (idx : Rep) (tmp_idx : option Rep) (remaining : Z) (w : St) : Res A * option Rep * St :=
  match fuel with
  | O => (Abort OutOfFuel, tmp_idx, w)
  | S fuel =>
      let latest_idx := default idx tmp_idx in
      let server := HashToServer giga_ latest_idx hash in
      if negb (HashToIndex_assert giga_ latest_idx hash)
      then (Abort GigaAssertion, tmp_idx, w)
      else if negb ((0 <=? server) && (server <? num_servers o))
      then (Abort (Assertion line), tmp_idx, w)
      else
        let (r, w) := f server w in
        match r with
        | Crash c => (Abort (CallCrash c), tmp_idx, w)
        | Done (Ok a) => (Ret a, tmp_idx, w)
        | Done (Error s) =>
            if IsTryAgain s then redirects fuel line f hash idx tmp_idx remaining w
            else (Fail s, tmp_idx, w)
        | Done (Redirected re) =>
            let tmp := default (copy_index idx) tmp_idx in
            if negb (copy_assert idx tmp_idx) then (Abort GigaAssertion, tmp_idx, w)
            else if remaining - 1 =? 0 then (Fail kCorruption, Some tmp, w)
            else if negb (Update_assert (mkDirIndex giga_ (Some tmp)) re)
            then (Abort GigaAssertion, Some tmp, w)
            else
              match Update (mkDirIndex giga_ (Some tmp)) re with
              | Some (mkDirIndex _ (Some t)) =>
                  redirects fuel line f hash idx (Some t) (remaining - 1) w
              | _ => (Fail kCorruption, Some tmp, w)
              end
        end
  end.

(** The paranoid check of the reply. *)
Definition check_reply {A} (check : A -> bool) (r : Res A) : Res A :=
  match r with
  | Ret a => if paranoid_checks o && negb (check a) then Fail kCorruption else r
  | _ => r
  end.

(** A successful operation that was redirected leaves the newer index in the
    cache. *)
Definition save_index {A} (r : Res A) (id : DirId) (tmp_idx : option Rep) (st : CLI) : CLI :=
  match r, tmp_idx with
  | Ret _, Some t =>
      let (h, c) := IndexCache.Insert (index_cache_ st) id t in
      set_indices st (IndexCache.Release c h)
  | _, _ => st
  end.

(** [_Lookup], [_Fstat] and the others, whose bodies differ in the call they
    make and in the check of its reply. *)
Definition send {A} (line : Z) (check : A -> bool) (b : BaseOptions)
    (f : MDS St -> St -> Run A * St) (idx : Rep) : M A := fun st =>
  let '(r, tmp_idx, w) :=
    redirects fuel line (fun k => f (factory k)) (name_hash b) idx None
      (max_redirects_allowed o) (world st) in
  let r := check_reply check r in
  (r, save_index r (dir_id b) tmp_idx (set_world st w)).

Definition no_check {A} (_ : A) : bool := true.

Definition _Lookup (b : BaseOptions) (idx : Rep) : M LookupStat :=
  send 118 (fun s => S_ISDIR (L_DirMode s)) b (fun m => call_Lookup m b) idx.
Definition _Fstat (b : BaseOptions) (idx : Rep) : M Stat :=
  send 456 no_check b (fun m => call_Fstat m b) idx.
Definition _Fcreat (q : FcreatOptions) (idx : Rep) : M FcreatRet :=
  send 582 (fun r => S_ISREG (FileMode (fc_stat r))) (fc_base q) (fun m => call_Fcreat m q) idx.
Definition _Unlink (q : UnlinkOptions) (idx : Rep) : M Stat :=
  send 690 no_check (un_base q) (fun m => call_Unlink m q) idx.
Definition _Mkdir (q : MkdirOptions) (idx : Rep) : M Stat :=
  send 804 (fun s => S_ISDIR (FileMode s)) (mk_base q) (fun m => call_Mkdir m q) idx.
Definition _Chmod (q : ChmodOptions) (idx : Rep) : M Stat :=
  send 900 no_check (cm_base q) (fun m => call_Chmod m q) idx.
Definition _Chown (q : ChownOptions) (idx : Rep) : M Stat :=
  send 989 no_check (co_base q) (fun m => call_Chown m q) idx.

(** ** Lookups of single names *)

Definition lookup_value (h : nat) : M LookupStat := fun st =>
  match LookupCache.Value (lookup_cache_ st) h with
  | Some v => (Ret v, st)
  | None => (Abort DanglingHandle, st)
  end.
Definition release_lookup (h : nat) : M () := fun st =>
  (Ret tt, set_lookups st (LookupCache.Release (lookup_cache_ st) h)).

(** A new lookup state enters the cache, and leaves it at once if it came
    without a lease. *)
Definition insert_lookup (pid : DirId) (nhash : bytes) (stat : LookupStat) : M nat := fun st =>
  let (h, t) := LookupCache.Insert (lookup_cache_ st) pid nhash stat in
  let t := if LeaseDue stat =? 0 then LookupCache.Erase t pid nhash else t in
  (Ret h, set_lookups st t).

(** The cached lookup state [h] can be used at time [now]. *)
Definition usable (t : LRU (V := LookupStat)) (now : Z) (h : option nat) : option nat :=
  match h with
  | None => None
  | Some h =>
      match LookupCache.Value t h with
      | Some v => if LeaseDue v <? u64 (now + 10) then None else Some h
      | None => None
      end
  end.

Definition Lookup (pid : DirId) (nm : bytes) (zserver op_due : Z) : M nat := fun st =>
  let nhash := PutHash nm in
  let (now, st) := CurrentMicros st in
  let (h, t) := LookupCache.Lookup (lookup_cache_ st) pid nhash in
  let st := set_lookups st t in
  match usable t now h with
  | Some h => (Ret h, st)
  | None =>
      let due := if atomic_path_resolution o then op_due else DELTAFS_MAX_MICROS in
      let b := base_options pid due nhash (if paranoid_checks o then nm else []) in
      with_index pid zserver
        (fun idx => let! stat := _Lookup b idx in insert_lookup pid nhash stat) st
  end.

(** ** Permissions *)

(** [usr], [grp] and [oth] are the bits of the owner, of the group and of all
    others for one kind of access; [uid_] and [gid_] are [int]s compared with
    unsigned ids. *)
Definition permitted (uid gid mode usr grp oth : Z) : bool :=
  if uid_ o =? 0 then true
  else if (u32 (uid_ o) =? uid) && (Z.land mode usr =? usr) then true
  else if (u32 (gid_ o) =? gid) && (Z.land mode grp =? grp) then true
  else Z.land mode oth =? oth.

(** The result of a path resolution: the directory of the last component with
    its attributes, and the name and name hash of that component. *)
Record PathInfo := mkPathInfo {
  p_pid : DirId; p_nhash : bytes; p_name : bytes; p_lease_due : Z; p_zserver : Z;
  p_depth : Z; p_mode : Z; p_uid : Z; p_gid : Z }.

Definition IsReadDirOk (i : PathInfo) : bool :=
  permitted (p_uid i) (p_gid i) (p_mode i) S_IRUSR S_IRGRP S_IROTH.
Definition IsWriteDirOk (i : PathInfo) : bool :=
  permitted (p_uid i) (p_gid i) (p_mode i) S_IWUSR S_IWGRP S_IWOTH.
Definition IsLookupOk (i : PathInfo) : bool :=
  permitted (p_uid i) (p_gid i) (p_mode i) S_IXUSR S_IXGRP S_IXOTH.
Definition IsReadOk (s : Stat) : bool :=
  permitted (UserId s) (GroupId s) (FileMode s) S_IRUSR S_IRGRP S_IROTH.
Definition IsWriteOk (s : Stat) : bool :=
  permitted (UserId s) (GroupId s) (FileMode s) S_IWUSR S_IWGRP S_IWOTH.
Definition IsExecOk (s : Stat) : bool :=
  permitted (UserId s) (GroupId s) (FileMode s) S_IXUSR S_IXGRP S_IXOTH.

Definition wants (mode bit : Z) : bool := Z.land mode bit =? bit.

Definition HasAccess (acc_mode : Z) (s : Stat) : bool :=
  if wants acc_mode R_OK && negb (IsReadOk s) then false
  else if wants acc_mode W_OK && negb (IsWriteOk s) then false
  else if wants acc_mode X_OK && negb (IsExecOk s) then false
  else true.

(** ** Path resolution *)

Definition slash : Z := 47.
Definition dot : bytes := [46].
Definition dotdot : bytes := [46; 46].

(** [strchr]: the offset of the first [c] of a string that ends at its first
    zero byte, or at the end of its buffer. *)
Fixpoint strchr (s : bytes) (c : Z) : option nat :=
  match s with
  | [] => None
  | b :: s => if b =? c then Some O else if b =? 0 then None else S <$> strchr s c
  end.

Definition ends_with_slash (s : bytes) : bool := bool_decide (last s = Some slash).

Definition root_mode : Z := Z.lor S_IFDIR (Z.land ACCESSPERMS (Z.lnot S_IWOTH)).

(** [*result] when the resolution starts: the root, or the directory [at]. *)
Definition start_info (at_ : option Fentry) : PathInfo :=
  match at_ with
  | Some a =>
      let s := fe_stat a in
      mkPathInfo (stat_id s) [] [slash] DELTAFS_MAX_MICROS (s32 (ZerothServer s)) 0
        (FileMode s) (UserId s) (GroupId s)
  | None => mkPathInfo (mkDirId 0 0 0) [] [slash] DELTAFS_MAX_MICROS 0 0 root_mode 0 0
  end.

(** The variables of the loop. *)
Record Walk := mkWalk {
  w_input : bytes; w_result : PathInfo; w_parents : list PathInfo; w_depth : Z; w_due : Z }.

Definition set_input (w : Walk) (input : bytes) : Walk :=
  mkWalk input (w_result w) (w_parents w) (w_depth w) (w_due w).
Definition set_name (i : PathInfo) (nm : bytes) : PathInfo :=
  mkPathInfo (p_pid i) (p_nhash i) nm (p_lease_due i) (p_zserver i) (p_depth i) (p_mode i)
    (p_uid i) (p_gid i).
Definition set_dir (i : PathInfo) (s : LookupStat) : PathInfo :=
  mkPathInfo (mkDirId (L_RegId s) (L_SnapId s) (L_InodeNo s)) (p_nhash i) (p_name i)
    (p_lease_due i) (s32 (L_ZerothServer s)) (p_depth i) (L_DirMode s) (L_UserId s) (L_GroupId s).

(** [*result = parents[k]], under the assertion that it exists. *)
Definition parent_at (line : Z) (w : Walk) (k : Z) : M PathInfo :=
  match w_parents w !! Z.to_nat k with
  | Some i => if k <? 0 then abort (Assertion line) else ret i
  | None => abort (Assertion line)
  end.

Definition pred_depth (d : Z) : Z := if 0 <? d then d - 1 else d.

(** One component of the path that a slash follows. *)
Definition resolve_name (nm : bytes) (w : Walk) : M Walk :=
  let r := w_result w in
  let depth := w_depth w in
  if negb (IsLookupOk r) then fail kAccessDenied
  else if decide (nm = dotdot) then
    let! g := parent_at 250 w (depth + 1) in
    ret (mkWalk (w_input w) g (w_parents w) (pred_depth depth) (w_due w))
  else if decide (nm = dot) then ret w
  else if DELTAFS_DIR_IS_PLFS_STYLE (p_mode r) then fail kNotSupported
  else
    let r := set_name r nm in
    let parents := w_parents w ++ [r] in
    let! lh := Lookup (p_pid r) nm (p_zserver r) (w_due w) in
    let! stat := lookup_value lh in
    let! _ := release_lookup lh in
    ret (mkWalk (w_input w) (set_dir r stat) parents (depth + 1) (Z.min (w_due w) (LeaseDue stat))).

(** The loop: each iteration consumes a slash, so the length of the input bounds
    the iterations.  With a [NotFound] comes the path of the missing parent. *)
Fixpoint resolve_loop (n : nat) (path : bytes) (w : Walk) (st : CLI)
  : Res Walk * option bytes * CLI :=
  match strchr (w_input w) slash, n with
  | None, _ => (Ret w, None, st)
  | Some _, O => (Abort OutOfFuel, None, st)
  | Some k, S n =>
      let nm := take k (w_input w) in
      let w := set_input w (drop (S k) (w_input w)) in
      if decide (nm = []) then resolve_loop n path w st
      else
        match resolve_name nm w st with
        | (Ret w, st) => resolve_loop n path w st
        | (Fail s, st) =>
            (Fail s,
             if IsNotFound s then Some (take (length path - length (w_input w) - 1) path) else None,
             st)
        | (Abort f, st) => (Abort f, None, st)
        end
  end.

(** The last component, and the final values of [lease_due] and [depth]. *)
Definition finish_info (i : PathInfo) (due depth : Z) : PathInfo :=
  mkPathInfo (p_pid i) (p_nhash i) (p_name i) due (p_zserver i) depth (p_mode i) (p_uid i)
    (p_gid i).
Definition set_hash (i : PathInfo) (nm : bytes) : PathInfo :=
  mkPathInfo (p_pid i) (PutHash nm) nm (p_lease_due i) (p_zserver i) (p_depth i) (p_mode i)
    (p_uid i) (p_gid i).

Definition resolve_last (w : Walk) : M PathInfo :=
  let r := w_result w in
  let depth := w_depth w in
  let input := w_input w in
  if decide (input = []) then ret (finish_info r (w_due w) depth)
  else if negb (IsLookupOk r) then fail kAccessDenied
  else if decide (input = dotdot) then
    let! g := parent_at 294 w depth in ret (finish_info g (w_due w) (pred_depth depth))
  else if decide (input = dot) then
    let! g := parent_at 298 w (depth + 1) in ret (finish_info g (w_due w) depth)
  else ret (finish_info (set_hash r input) (w_due w) (depth + 1)).

Definition ResolvePath (path : bytes) (at_ : option Fentry) (st : CLI)
  : Res PathInfo * option bytes * CLI :=
  match path with
  | [] => (Abort (Assertion 211), None, st)
  | c :: input =>
      if negb (c =? slash) then (Abort (Assertion 212), None, st)
      else
        let result := start_info at_ in
        let w := mkWalk input result [result; result] 0 (p_lease_due result) in
        if ends_with_slash input then (Abort (Assertion 240), None, st)
        else
          match resolve_loop (length input) path w st with
          | (Ret w, _, st) => let (r, st) := resolve_last w st in (r, None, st)
          | (Fail s, missing, st) => (Fail s, missing, st)
          | (Abort f, missing, st) => (Abort f, missing, st)
          end
  end.

Definition resolve (path : bytes) (at_ : option Fentry) : M PathInfo := fun st =>
  let '(r, _, st) := ResolvePath path at_ st in (r, st).

(** ** Operations on paths *)

(** [options.op_due] of the operations on resolved paths. *)
Definition path_due (p : PathInfo) : Z :=
  if atomic_path_resolution o then p_lease_due p else DELTAFS_MAX_MICROS.

(** The request about the last component; its name is sent with the checks on. *)
Definition path_base (p : PathInfo) (with_name : bool) : BaseOptions :=
  base_options (p_pid p) (path_due p) (p_nhash p) (if with_name then p_name p else []).

(** [*ent] after an operation on [p] that returned [stat]; [None] is a null
    pointer. *)
Definition fill_ent (p : PathInfo) (stat : Stat) (ent : option Fentry) : option Fentry :=
  match ent with
  | Some _ => Some (mkFentry stat (p_nhash p) (p_pid p) (p_zserver p))
  | None => None
  end.

(** The attributes of the root. *)
Definition root_stat : Stat := mkStat 0 0 0 0 root_mode 0 0 0 0 0.

(** The attributes made up for a file under a plfs directory. *)
Definition plfs_mode (p : PathInfo) : Z :=
  let mode := Z.lor DELTAFS_DIR_PLFS_STYLE (Z.lor S_IFREG (Z.land (p_mode p) ACCESSPERMS)) in
  Z.land (Z.land (Z.land mode (Z.lnot S_IXUSR)) (Z.lnot S_IXGRP)) (Z.lnot S_IXOTH).
Definition plfs_stat (p : PathInfo) : Stat :=
  mkStat (reg (p_pid p)) (snap (p_pid p)) 0 0 (plfs_mode p) (u32 (p_zserver p)) (p_uid p) (p_gid p)
    0 0.
Definition plfs_ent (line : Z) (p : PathInfo) (ent : option Fentry) : M (option Fentry) :=
  match ent with
  | Some _ => ret (fill_ent p (plfs_stat p) ent)
  | None => abort (NullPointer line)
  end.

(** The check of [at] at the top of [Fstat], [Fcreat] and [Unlink]. *)
Definition bad_at (at_ : option Fentry) : bool :=
  match at_ with Some a => negb (S_ISDIR (FileMode (fe_stat a))) | None => false end.

Definition at_root (at_ : option Fentry) : bool :=
  match at_ with
  | None => true
  | Some a => bool_decide (stat_id (fe_stat a) = mkDirId 0 0 0)
  end.

(** The entry of the root; [ent->nhash] keeps its value. *)
Definition root_ent (ent : option Fentry) : M (option Fentry) :=
  match ent with
  | Some e => ret (Some (mkFentry root_stat (fe_nhash e) (mkDirId 0 0 0) 0))
  | None => abort (NullPointer 349)
  end.

Definition Fstat (p : bytes) (ent at_ : option Fentry) : M (option Fentry) :=
  if bad_at at_ then fail kInvalidArgument else
  let! path := resolve p at_ in
  if p_depth path =? 0 then
    match (if at_root at_ then None else at_) with
    | None => root_ent ent
    | Some a =>
        let! _ := assert_ 365 (negb (bool_decide (fe_nhash a = []))) in
        let! stat := with_index (fe_pid a) (fe_zserver a)
          (_Fstat (base_options (fe_pid a) DELTAFS_MAX_MICROS (fe_nhash a) [])) in
        ret (match ent with
             | Some _ => Some (mkFentry stat (fe_nhash a) (fe_pid a) (fe_zserver a))
             | None => None
             end)
    end
  else if DELTAFS_DIR_IS_PLFS_STYLE (p_mode path) then plfs_ent 390 path ent
  else
    let! stat := with_index (p_pid path) (p_zserver path)
      (_Fstat (path_base path (paranoid_checks o))) in
    ret (fill_ent path stat ent).

(** [created] is [*created] before and after, [None] for a null pointer. *)
Definition Fcreat (p : bytes) (mode : Z) (ent : option Fentry) (error_if_exists : bool)
    (created_ : option bool) (at_ : option Fentry) : M (option bool * option Fentry) :=
  if bad_at at_ then fail kInvalidFileDescriptor else
  let! path := resolve p at_ in
  if p_depth path =? 0 then fail kAlreadyExists
  else if negb (IsWriteDirOk path) then fail kAccessDenied
  else if DELTAFS_DIR_IS_PLFS_STYLE (p_mode path) then
    if error_if_exists then fail kNotSupported
    else let! ent := plfs_ent 510 path ent in ret (created_, ent)
  else if DELTAFS_NAME_MAX <? zlen (p_name path) then fail kInvalidArgument
  else
    let q := mkFcreat (path_base path true) (if error_if_exists then O_EXCL else 0) mode
               (u32 (uid_ o)) (u32 (gid_ o)) in
    let! r := with_index (p_pid path) (p_zserver path) (_Fcreat q) in
    ret (match created_ with Some _ => Some (created r) | None => None end,
         fill_ent path (fc_stat r) ent).

Definition Unlink (p : bytes) (ent : option Fentry) (error_if_absent : bool)
    (at_ : option Fentry) : M (option Fentry) :=
  if bad_at at_ then fail kInvalidArgument else
  let! path := resolve p at_ in
  if p_depth path =? 0 then fail kFileExpected
  else if negb (IsWriteDirOk path) then fail kAccessDenied
  else if DELTAFS_DIR_IS_PLFS_STYLE (p_mode path) then fail kNotSupported
  else
    let q := mkUnlink (path_base path (paranoid_checks o)) (if error_if_absent then O_EXCL else 0) in
    let! stat := with_index (p_pid path) (p_zserver path) (_Unlink q) in
    ret (fill_ent path stat ent).

(** [Mkdir] once the path is resolved. *)
Definition mkdir_at (path : PathInfo) (mode : Z) (ent : option Fentry) (error_if_exists : bool)
  : M (option Fentry) :=
  if p_depth path =? 0 then fail kAlreadyExists
  else if negb (IsWriteDirOk path) then fail kAccessDenied
  else if DELTAFS_DIR_IS_PLFS_STYLE (p_mode path) then fail kNotSupported
  else if DELTAFS_NAME_MAX <? zlen (p_name path) then fail kInvalidArgument
  else
    let q := mkMkdir (path_base path true) (if error_if_exists then O_EXCL else 0) mode
               (u32 (uid_ o)) (u32 (gid_ o)) in
    let! stat := with_index (p_pid path) (p_zserver path) (_Mkdir q) in
    ret (fill_ent path stat ent).

(** A missing ancestor is created first, then the request is tried again; [n]
    bounds the nesting of these calls. *)
Fixpoint Mkdir (n : nat) (p : bytes) (mode : Z) (ent : option Fentry)
    (create_if_missing error_if_exists : bool) : M (option Fentry) := fun st =>
  match ResolvePath p None st with
  | (Ret path, _, st) => mkdir_at path mode ent error_if_exists st
  | (Fail s, missing_parent, st) =>
      match IsNotFound s && create_if_missing, missing_parent with
      | true, Some ((_ :: _) as m) =>
          match n with
          | O => (Abort OutOfFuel, st)
          | S n =>
              bind (Mkdir n m (Z.land mode (Z.lnot DELTAFS_DIR_MASK)) None true false)
                (fun _ => Mkdir n p mode ent true error_if_exists) st
          end
      | _, _ => (Fail s, st)
      end
  | (Abort f, _, st) => (Abort f, st)
  end.

Definition Chmod (p : bytes) (mode : Z) (ent : option Fentry) : M (option Fentry) :=
  let! path := resolve p None in
  if p_depth path =? 0 then fail kNotSupported
  else if DELTAFS_DIR_IS_PLFS_STYLE (p_mode path) then fail kNotSupported
  else
    let q := mkChmod (path_base path (paranoid_checks o)) mode in
    let! stat := with_index (p_pid path) (p_zserver path) (_Chmod q) in
    ret (fill_ent path stat ent).

Definition Chown (p : bytes) (usr grp : Z) (ent : option Fentry) : M (option Fentry) :=
  let! path := resolve p None in
  if p_depth path =? 0 then fail kNotSupported
  else if DELTAFS_DIR_IS_PLFS_STYLE (p_mode path) then fail kNotSupported
  else
    let q := mkChown (path_base path (paranoid_checks o)) usr grp in
    let! stat := with_index (p_pid path) (p_zserver path) (_Chown q) in
    ret (fill_ent path stat ent).

(** [Ftruncate] releases the old index before it stores the new one. *)
Definition Ftruncate (ent : Fentry) (mtime size : Z) : M () :=
  let! idxh := FetchIndex (fe_pid ent) (fe_zserver ent) in
  let! idx := index_value idxh in
  fun st =>
  let q := mkTrunc (base_options (fe_pid ent) DELTAFS_MAX_MICROS (fe_nhash ent) []) mtime size in
  let '(r, tmp_idx, w) :=
    redirects fuel 1059 (fun k => call_Trunc (factory k) q) (fe_nhash ent) idx None
      (max_redirects_allowed o) (world st) in
  let r := check_reply (fun s => S_ISREG (FileMode s)) r in
  let st := release_index idxh (set_world st w) in
  (map_res (fun _ => tt) r, save_index r (fe_pid ent) tmp_idx st).

(** ** Directory listings and access tests *)

(** The loop over the partitions: the server of each partition that exists is
    asked once, its status is ignored, and its names are appended. *)
Fixpoint list_loop (parts : list Z) (idx : Rep) (b : BaseOptions) (visited : list Z)
    (names : list bytes) : M (list bytes) :=
  match parts with
  | [] => ret names
  | i :: parts =>
      if Gigaplus.bit idx i then
        let server := GetServerForIndex giga_ idx i in
        let! _ := assert_ 1131 ((0 <=? server) && (server <? num_servers o)) in
        if decide (server ∈ visited) then list_loop parts idx b visited names
        else fun st =>
          let (r, w) := call_Listdir (factory server) b (world st) in
          let st := set_world st w in
          match r with
          | Crash c => (Abort (CallCrash c), st)
          | Done (Redirected re) => (Abort (Uncaught re), st)
          | Done out =>
              let names := match out with Ok l => names ++ l | _ => names end in
              let visited := visited ++ [server] in
              if num_servers o <=? zlen visited then (Ret names, st)
              else list_loop parts idx b visited names st
          end
      else list_loop parts idx b visited names
  end.

Definition bad_dir_path (p : bytes) : bool :=
  bool_decide (p = []) || negb ((zlen p =? 1) || negb (ends_with_slash p)).

(** [p + "/_"] *)
Definition fake_path (p : bytes) : bytes := p ++ [slash; 95].

Definition Listdir (p : bytes) (names : list bytes) : M (list bytes) :=
  let! _ := assert_ 1098 (negb (bad_dir_path p)) in
  let! path := resolve (fake_path p) None in
  if negb (IsReadDirOk path) then fail kAccessDenied
  else if DELTAFS_DIR_IS_PLFS_STYLE (p_mode path) then fail kNotSupported
  else
    with_index (p_pid path) (p_zserver path) (fun idx =>
      list_loop (seqZ 0 (Z.shiftl 1 (radix idx))) idx
        (base_options (p_pid path) (path_due path) [] []) [] names).

Definition Accessdir (p : bytes) (mode : Z) : M () :=
  let! _ := assert_ 1154 (negb (bad_dir_path p)) in
  let! path := resolve (fake_path p) None in
  if wants mode R_OK && negb (IsReadDirOk path) then fail kAccessDenied
  else if wants mode W_OK && negb (IsWriteDirOk path) then fail kAccessDenied
  else if wants mode X_OK && negb (IsLookupOk path) then fail kAccessDenied
  else ret tt.

(** [entry] is the caller's uninitialized [Fentry]. *)
Definition Access (p : bytes) (mode : Z) (entry : Fentry) : M () :=
  let! e := Fstat p (Some entry) None in
  match e with
  | Some e => if negb (HasAccess mode (fe_stat e)) then fail kAccessDenied else ret tt
  | None => ret tt
  end.

End CLI.
End CLI.
