(* ===== verification/MdsCliInv.v ===== *)
(** * Invariants of the metadata client

    What holds of [MDS::CLI] whatever the servers answer: both caches stay
    consistent, every index handle an operation takes is released, the handles
    and the [parents] stack are never used out of range.  [wp] is the weakest
    precondition of an operation, with one rule per construct of its monad. *)
From S2P Require Import Prelude Coding Status FsTypes Gigaplus Lru Tables MdsApi MdsCli.
Import CLI.

(** ** Routing stays within the servers for any index *)

Lemma ComputeIndexFromHash_nonneg hash n : 0 <= ComputeIndexFromHash hash n.
Proof.
  unfold ComputeIndexFromHash.
  assert (Hf : forall l acc, 0 <= acc ->
    0 <= fold_left (fun r i => r + Z.shiftl (Reverse (byte_at hash i)) (i * 8)) l acc).
  { induction l as [|i l IH]; intros acc Ha; [done|]. cbn. apply IH.
    assert (0 <= Z.shiftl (Reverse (byte_at hash i)) (i * 8)); [|lia].
    apply Z.shiftl_nonneg. apply Reverse_range. }
  pose proof (Hf (seqZ 0 (n / 8)) 0 ltac:(lia)). case_match; [|done].
  assert (0 <= Z.shiftl (Z.land (Reverse (byte_at hash (n / 8))) (Z.shiftl 1 (n mod 8) - 1)) (n / 8 * 8)); [|lia].
  apply Z.shiftl_nonneg, Z.land_nonneg. left. apply Reverse_range.
Qed.

Lemma ToParentIndex_nonneg i : 0 <= i -> 0 <= ToParentIndex i.
Proof.
  intros. unfold ToParentIndex, ToLog2. destruct (Z.eqb_spec i 0); [done|].
  rewrite Z.shiftl_1_l. pose proof (Z.log2_spec i ltac:(lia)). lia.
Qed.

Lemma HashToIndex_nonneg r hash : 0 <= HashToIndex r hash.
Proof.
  unfold HashToIndex. pose proof (ComputeIndexFromHash_nonneg hash (radix r)) as Hi. revert Hi.
  generalize (ComputeIndexFromHash hash (radix r)). generalize 16%nat as n.
  induction n as [|n IH]; intros i Hi; cbn; [done|]. case_match; [|done].
  by apply IH, ToParentIndex_nonneg.
Qed.

Lemma GetServerForIndex_range g r i :
  0 < Gigaplus.num_servers g -> 0 <= zeroth_server r -> 0 <= i ->
  0 <= GetServerForIndex g r i < Gigaplus.num_servers g.
Proof.
  intros. unfold GetServerForIndex, MapIndexToServer.
  rewrite Z.rem_mod_nonneg by lia. apply Z.mod_pos_bound. lia.
Qed.

Lemma DoMerge_zeroth r a b f : zeroth_server (DoMerge r a b f) = zeroth_server r.
Proof. unfold DoMerge. cbn. apply ScaleUp_fields. Qed.

Lemma Update_zeroth d re d' r' :
  Update d re = Some d' -> rep d' = Some r' ->
  match rep d with Some r => zeroth_server r' = zeroth_server r | None => 0 <= zeroth_server r' end.
Proof.
  unfold Update, TEST_Reset. destruct (rep d) as [r|].
  - destruct (ParseDirIndex _ _); [|done]. case_match; [done|]. intros [= <-] [= <-].
    apply DoMerge_zeroth.
  - destruct (ParseDirIndex _ _) as [v|]; [|done]. intros [= <-] [= <-].
    unfold MergeView. rewrite DoMerge_zeroth, NewRep_eq. apply u16_range.
Qed.

Section Inv.
Context `{XXHash} {St : Type} (o : MDSCliOptions) (factory : Z -> MDS St) (fuel : nat).

(** ** Indices *)

(** An index whose partitions are among the virtual servers, and one in a buffer
    of a size that gigaplus.cc allows: its assertions hold. *)
Definition FitIndex (r : Rep) : Prop := RepWf r /\ 2 ^ radix r <= num_virtual_servers o.
Definition GoodIndex (r : Rep) : Prop := FitIndex r /\ bitmap_capacity r <= kMaxPartitions / 8.

(** The servers send fitting indices only: with a redirection, or when asked for
    the index of a directory. *)
Definition sends (k : Z) (r : Request) (w : St) (re : bytes) : Prop :=
  (mds_call (factory k) r w).1 = Done (Redirected re) \/
  (exists b, r = RReadidx b /\ (mds_call (factory k) r w).1 = Done (Ok (PBytes re))).
Definition sound_servers : Prop :=
  forall k r w re, sends k r w re -> exists i, FitIndex i /\ re = Encode i.

(** What holds of the client's indices, whatever the servers send. *)
Definition IndexOk (r : Rep) : Prop := 0 <= zeroth_server r /\ (sound_servers -> GoodIndex r).

Lemma GoodIndex_merge r r2 :
  GoodIndex r -> FitIndex r2 -> GoodIndex (MergeView r (view_of r2)).
Proof.
  intros [[H1 H2] H3] [G1 G2]. destruct (MergeView_assert_ok r r2 H1 G1 H3) as (_ & Hc & Hr).
  split; [|done]. split; [apply (MergeView_spec r r2 H1 G1)|].
  rewrite Hr, pow2_max; [lia|apply (wf_radix _ H1)|apply (wf_radix _ G1)].
Qed.

Lemma GoodIndex_new z r : FitIndex r -> GoodIndex (NewRep z).
Proof.
  intros [H1 H2]. split; [|apply NewRep_capacity]. split; [apply NewRep_wf|].
  destruct (NewRep_capacity z) as [_ ->]. pose proof (Z.pow_pos_nonneg 2 (radix r) ltac:(lia)) as Hp.
  pose proof (wf_radix _ H1). cbn. lia.
Qed.

(** An index updated with what a sound server sent. *)
Lemma Update_good d re d' r' i :
  FitIndex i -> re = Encode i -> Update d re = Some d' -> rep d' = Some r' ->
  match rep d with Some r => GoodIndex r | None => True end -> GoodIndex r'.
Proof.
  intros Hi -> EU Er Hd. unfold Update, TEST_Reset, Encode in EU.
  rewrite ParseDirIndex_ToSlice in EU by apply Hi. destruct (rep d) as [r|].
  - cbn in EU. destruct (negb _); [done|]. injection EU as <-. injection Er as <-.
    by apply GoodIndex_merge.
  - cbn in EU. injection EU as <-. injection Er as <-.
    apply GoodIndex_merge; [by eapply GoodIndex_new|done].
Qed.

Lemma Update_assert_good d i :
  FitIndex i -> match rep d with Some r => GoodIndex r | None => True end ->
  Update_assert d (Encode i) = true.
Proof.
  intros Hi Hd. apply (Update_assert_ok (options d)); [apply Hi|done|].
  destruct (rep d); [by split; apply Hd|done].
Qed.

(** A copy of a good index is one; its merge is that of the index's encoding. *)
Lemma MergeRep_spec r r2 :
  RepWf r -> RepWf r2 -> RepWf (MergeRep r r2).
Proof.
  intros Hwf Hwf2. destruct (wf_tight r2 Hwf2) as (i & Hi & Hbi & Hti). rewrite <- bit_rawbit in Hbi by done.
  destruct (bitmap_size_bound r2 Hwf2). pose proof (wf_radix r2 Hwf2).
  assert (Hbit : forall j, 0 <= j -> byte_bit (rep_byte r2) j = Gigaplus.bit r2 j).
  { intros j Hj. unfold byte_bit, rep_byte. pose proof (Z.div_pos j 8 Hj ltac:(lia)).
    rewrite bit_rawbit by done. unfold rawbit.
    destruct (Z.ltb_spec (j / 8) (bitmap_size r2)); [done|].
    rewrite Z.bits_0. symmetry. apply (wf_top r2 Hwf2).
    pose proof (bitmap_size_spec r2 ltac:(lia)). pose proof (Z.div_mod j 8 ltac:(lia)).
    pose proof (Z.mod_pos_bound j 8 ltac:(lia)). lia. }
  apply (DoMerge_spec r (bitmap_size r2) (radix r2) (rep_byte r2)); try done.
  - intros j Hj. unfold rep_byte. case_match; [apply byte_at_ok, Hwf2|apply in_width_0; lia].
  - intros j Hj Ht. rewrite Hbit in Ht by done. by apply bit_lt.
  - exists i. by rewrite Hbit.
Qed.

Lemma copy_good idx :
  GoodIndex idx -> GoodIndex (copy_index o idx) /\ copy_assert idx None = true.
Proof.
  intros [[H1 H2] H3]. change (copy_index o idx) with (MergeRep (NewRep (zeroth_server idx)) idx).
  cbn [copy_assert]. destruct (NewRep_capacity (zeroth_server idx)) as [Hc Hr].
  pose proof (proj1 (NewRep_wf (zeroth_server idx))) as Hn.
  pose proof (MergeRep_spec _ idx Hn H1) as Hm.
  destruct (DoMerge_assert_ok (NewRep (zeroth_server idx)) idx (bitmap_size idx) (rep_byte idx)
    Hn H1 Hc eq_refl Hm) as (Ha & Hc' & Hr').
  split; [split; [split; [exact Hm|]|exact Hc']|exact Ha]. unfold MergeRep. rewrite Hr', Hr.
  pose proof (wf_radix _ H1). by rewrite Z.max_r by lia.
Qed.

Lemma copy_index_ok idx : IndexOk idx -> IndexOk (copy_index o idx).
Proof.
  intros [Hz Hg]. split; [|intros Hs; by apply copy_good, Hg].
  change (copy_index o idx) with (MergeRep (NewRep (zeroth_server idx)) idx).
  unfold MergeRep. rewrite DoMerge_zeroth, NewRep_eq. apply u16_range.
Qed.

(** ** Weakest preconditions *)

Definition wp {A} (m : M (St := St) A) (Q : Res A -> CLI -> Prop) (st : CLI) : Prop :=
  let (r, st') := m st in Q r st'.

Lemma wp_ret {A} (a : A) (Q : Res A -> CLI (St := St) -> Prop) st : Q (Ret a) st -> wp (ret a) Q st.
Proof. done. Qed.
Lemma wp_fail {A} s (Q : Res A -> CLI (St := St) -> Prop) st : Q (Fail s) st -> wp (fail s) Q st.
Proof. done. Qed.
Lemma wp_abort {A} f (Q : Res A -> CLI (St := St) -> Prop) st : Q (Abort f) st -> wp (abort f) Q st.
Proof. done. Qed.

Lemma wp_bind {A B} (m : M A) (k : A -> M B) (Q : Res B -> CLI (St := St) -> Prop) st :
  wp m (fun r st => match r with
                    | Ret a => wp (k a) Q st
                    | Fail s => Q (Fail s) st
                    | Abort f => Q (Abort f) st
                    end) st ->
  wp (bind m k) Q st.
Proof. unfold wp, bind. destruct (m st) as [[] ?]; done. Qed.

Lemma wp_mono {A} (m : M A) (Q Q' : Res A -> CLI (St := St) -> Prop) st :
  wp m Q st -> (forall r st, Q r st -> Q' r st) -> wp m Q' st.
Proof. unfold wp. destruct (m st). auto. Qed.

(** ** The invariant *)

(** [hi] and [hl]: the handles held into the two caches. *)
Record Inv (hi hl : list nat) (st : CLI (St := St)) : Prop := {
  inv_indices : SysInv (index_cache_ st, hi);
  inv_lookups : SysInv (lookup_cache_ st, hl);
  inv_index : forall h k r, kvs (index_cache_ st) !! h = Some (k, r) -> IndexOk r
}.

(** The faults that are not the client's: a crashed call, an exception of a call
    that may not throw, a negative zeroth server in a server's reply ([assert] of
    line 41), an assertion on an index that a server sent, and a loop that a
    server keeps going. *)
Definition patient : Prop :=
  1 <= max_redirects_allowed o <= Z.of_nat fuel /\
  forall k r w, (mds_call (factory k) r w).1 <> Done (Error kTryAgain).

Definition foreign (f : Fault) : Prop :=
  match f with
  | CallCrash _ | Uncaught _ => True
  | Assertion line => line = 41
  | GigaAssertion => ~ sound_servers
  | OutOfFuel => ~ patient
  | NullPointer _ | DanglingHandle => False
  end.

(** How an operation may end: with [G] of its result and its final state, or
    with an error or a foreign fault and [I]. *)
Definition ends {A} (I : CLI -> Prop) (G : A -> CLI -> Prop) (r : Res A) (st : CLI (St := St)) : Prop :=
  match r with
  | Ret a => G a st
  | Fail _ => I st
  | Abort f => foreign f /\ I st
  end.

Lemma wp_ends_bind {A B} (m : M A) (k : A -> M B) I G G' st :
  wp m (ends I G) st -> (forall a st, G a st -> wp (k a) (ends I G') st) ->
  wp (bind m k) (ends I G') st.
Proof.
  intros Hm Hk. apply wp_bind. eapply wp_mono; [exact Hm|]. intros [] ?; cbn; auto.
Qed.

Lemma wp_ends_weaken {A} (m : M A) (I I' : CLI -> Prop) (G G' : A -> CLI -> Prop) st :
  wp m (ends I G) st -> (forall st, I st -> I' st) -> (forall a st, G a st -> G' a st) ->
  wp m (ends I' G') st.
Proof. intros Hm HI HG. eapply wp_mono; [exact Hm|]. intros [] ?; cbn; naive_solver. Qed.

Context (Hns : 0 < num_servers o).

(** ** Cache primitives *)

Lemma set_world_inv hi hl st w : Inv hi hl st -> Inv hi hl (set_world st w).
Proof. by intros [? ? ?]. Qed.

Lemma lookup_index_spec id hi hl st :
  Inv hi hl st ->
  wp (lookup_index id)
    (fun r st' => match r with
       | Ret (Some h) => Inv (h :: hi) hl st'
       | Ret None => Inv hi hl st'
       | _ => False
       end /\ world st' = world st) st.
Proof.
  intros [H1 H2 H3]. unfold wp, lookup_index, IndexCache.Lookup.
  destruct (Lru.Lookup (index_cache_ st) (IndexCache.LRUKey id)) as [[h|] t] eqn:E; (split; [|done]).
  - destruct (sys_lookup_hit _ _ _ _ _ H1 E) as (H1' & Hk & _). split; [done|done|].
    cbn. rewrite Hk. exact H3.
  - apply sys_lookup_miss in E as [-> _]. by split.
Qed.

Lemma insert_index_spec id idx hi hl st :
  Inv hi hl st -> IndexOk idx ->
  wp (insert_index id idx)
    (fun r st' => match r with Ret h => Inv (h :: hi) hl st' | _ => False end /\
                  world st' = world st) st.
Proof.
  intros [H1 H2 H3] Hz. unfold wp, insert_index, IndexCache.Insert.
  destruct (Lru.Insert (index_cache_ st) (IndexCache.LRUKey id) idx 1) as [[h t] d] eqn:E.
  cbn [fst]. destruct (sys_insert _ _ _ _ _ _ _ H1 E) as (H1' & _ & _ & Hs).
  split; [|done]. split; [done|done|]. cbn. intros h' k r Hr.
  eapply lookup_weaken in Hr; [|exact Hs].
  apply lookup_insert_Some in Hr as [[_ [= <- <-]]|[_ Hr]]; [done|by eapply H3].
Qed.

Lemma release_index_spec h hi hl st : Inv (h :: hi) hl st -> Inv hi hl (release_index h st).
Proof.
  intros [H1 H2 H3]. unfold release_index, IndexCache.Release.
  destruct (Lru.Release (index_cache_ st) h) as [t d] eqn:E.
  destruct (sys_release _ [] _ _ _ _ H1 E) as [H1' Hs]. split; [done|done|].
  cbn. intros h' k r Hr. eapply H3, lookup_weaken; [exact Hr|exact Hs].
Qed.

Lemma index_value_spec h hi hl st :
  Inv (h :: hi) hl st ->
  wp (index_value h)
    (fun r st' => st' = st /\ match r with Ret idx => IndexOk idx | _ => False end) st.
Proof.
  intros [H1 H2 H3]. unfold wp, index_value, IndexCache.Value.
  destruct (sys_held _ _ h H1) as [[k r] Hk]; [by left|]. pose proof (H3 _ _ _ Hk) as Hz.
  unfold kvs in Hk. rewrite lookup_fmap in Hk.
  destruct (heap (index_cache_ st) !! h) as [e|]; cbn in *; [|done]. by simplify_eq.
Qed.

(** ** Fetching an index *)

Lemma call_spec {A} hi hl server (f : MDS St -> St -> Run A * St) st :
  Inv hi hl st -> wp (call factory server f) (ends (Inv hi hl) (fun _ => Inv hi hl)) st.
Proof.
  intros HI. unfold wp, call. destruct (f (factory server) (world st)) as [[[]|] w];
    cbn; auto using set_world_inv.
Qed.

(** An index that was read from a server: [b] says what was asked. *)
Lemma call_Readidx_spec hi hl server b st :
  Inv hi hl st ->
  wp (call factory server (fun m => call_Readidx m b)) (ends (Inv hi hl) (fun re st' => Inv hi hl st' /\
    world st' = (call_Readidx (factory server) b (world st)).2 /\
    (sound_servers -> exists i, FitIndex i /\ re = Encode i))) st.
Proof.
  intros HI. unfold wp, call. destruct (call_Readidx (factory server) b (world st)) as [[[re| |]|] w] eqn:E;
    cbn; auto using set_world_inv. split; [by apply set_world_inv|]. split; [done|]. intros Hs.
  apply (Hs server (RReadidx b) (world st)). right. exists b. split; [done|]. cbn. unfold answer. by rewrite E.
Qed.

(** Fetching the index of a directory asks one server for it, or none. *)
Definition index_read (id : DirId) (w w' : St) : Prop :=
  w' = w \/ exists k, w' = (call_Readidx (factory k) (base_options o id DELTAFS_MAX_MICROS [] []) w).2.

Lemma cli_FetchIndex_spec id zserver hi hl st :
  Inv hi hl st ->
  wp (FetchIndex o factory id zserver)
    (ends (Inv hi hl) (fun h st' => Inv (h :: hi) hl st' /\ index_read id (world st) (world st'))) st.
Proof.
  intros HI. unfold FetchIndex. apply wp_bind.
  eapply wp_mono; [by apply lookup_index_spec|]. intros [[h|]|s|f] st' [HI' Hw]; try done;
    [by split; [|left]|].
  apply wp_bind. unfold assert_. destruct (Z.leb_spec 0 zserver) as [Hz|Hz]; [|by split].
  apply wp_ret. eapply wp_ends_bind; [by apply call_Readidx_spec|]. intros idx st2 (HI2 & Hw2 & Hidx).
  apply wp_bind. unfold giga_assert. destruct (Update_assert (DirIndex_empty (giga_ o)) idx) eqn:EA.
  2: { apply wp_abort. split; [|done]. intros (i & Hi & ->)%Hidx.
       by rewrite (Update_assert_good (DirIndex_empty (giga_ o)) i Hi I) in EA. }
  apply wp_ret. destruct (Update _ idx) as [[d [r|]]|] eqn:EU; [|by apply wp_fail..].
  destruct (Z.eqb_spec (zeroth_server r) zserver) as [<-|]; [|by apply wp_fail]. cbn [negb].
  assert (Hr : IndexOk r).
  { split; [done|]. intros (i & Hi & Ei)%Hidx. by eapply (Update_good _ _ _ _ _ Hi Ei EU). }
  eapply wp_mono; [apply (insert_index_spec id r hi hl st2); [done|done]|]. intros [] ? [? Ew]; try done.
  split; [done|]. right. eexists. by rewrite Ew, Hw2, Hw.
Qed.

Lemma with_index_spec {A} id zserver hi hl hl' (P : A -> CLI -> Prop) (k : Rep -> M A) st :
  Inv hi hl st -> (forall a h st, P a st -> P a (release_index h st)) ->
  (forall h idx st', Inv (h :: hi) hl st' -> IndexOk idx -> index_read id (world st) (world st') ->
     wp (k idx) (ends (Inv (h :: hi) hl) (fun a st'' => Inv (h :: hi) (hl' a) st'' /\ P a st'')) st') ->
  wp (with_index o factory id zserver k) (ends (Inv hi hl) (fun a st' => Inv hi (hl' a) st' /\ P a st')) st.
Proof.
  intros HI HP Hk. unfold with_index. eapply wp_ends_bind; [by apply cli_FetchIndex_spec|].
  intros h st1 [HI1 Hr]. unfold wp at 1. unfold bind at 1.
  pose proof (index_value_spec h hi hl st1 HI1) as Hv. unfold wp in Hv.
  destruct (index_value h st1) as [[idx|s|f] st2]; destruct Hv as [-> Hv]; try done.
  pose proof (Hk h idx st1 HI1 Hv Hr) as Hw. unfold wp in Hw.
  destruct (k idx st1) as [[a|s|f] st3]; cbn in *;
    [destruct Hw as [Hw Hp]; split; [|by apply HP]|..|destruct Hw as [Hf Hw]; split; [done|]];
    by apply release_index_spec.
Qed.

Lemma wp_ends_and {A} (m : M A) I (G : A -> CLI -> Prop) (P : A -> CLI -> Prop) st :
  wp m (ends I G) st -> (forall a st', m st = (Ret a, st') -> P a st') ->
  wp m (ends I (fun a st' => G a st' /\ P a st')) st.
Proof. unfold wp. destruct (m st) as [[] ?]; cbn; naive_solver. Qed.

(** ** The redirection loop *)

(** [f] is one of the calls of the interface. *)
Definition is_call {A} (f : MDS St -> St -> Run A * St) : Prop :=
  exists r P, forall m w, mds_call m r w = answer P (f m w).

Lemma patient_call {A} (f : MDS St -> St -> Run A * St) k w :
  is_call f -> patient -> (f (factory k) w).1 <> Done (Error kTryAgain).
Proof.
  intros (r & P & E) [_ Hp] Hf. apply (Hp k r w). rewrite E. unfold answer. cbn. by rewrite Hf.
Qed.

(** The redirections of a call of a sound server carry good indices. *)
Definition sound_call {A} (f : Z -> St -> Run A * St) : Prop :=
  sound_servers -> forall k w re, (f k w).1 = Done (Redirected re) -> exists i, FitIndex i /\ re = Encode i.

Lemma is_call_sound {A} (f : MDS St -> St -> Run A * St) : is_call f -> sound_call (fun k => f (factory k)).
Proof.
  intros (r & P & E) Hs k w re Hf. apply (Hs k r w). left. rewrite E. unfold answer. cbn. by rewrite Hf.
Qed.

(** One fuel unit per redirection is enough for servers that never answer
    [TryAgain]. *)
Lemma redirects_spec {A} line (f : Z -> St -> Run A * St) hash idx n : forall tmp remaining w,
  sound_call f -> IndexOk idx -> (forall t, tmp = Some t -> IndexOk t) ->
  let '(r, tmp', w') := redirects o n line f hash idx tmp remaining w in
  (forall t, tmp' = Some t -> IndexOk t) /\
  match r with
  | Abort (CallCrash _) => True
  | Abort GigaAssertion => ~ sound_servers
  | Abort OutOfFuel => ~ (1 <= remaining <= Z.of_nat n /\
                          forall k w, (f k w).1 <> Done (Error kTryAgain))
  | Abort _ => False
  | _ => True
  end.
Proof.
  induction n as [|n IH]; intros tmp remaining w Hsc Hz Ht; cbn [redirects]; [split; [done|lia]|].
  assert (Hl : IndexOk (default idx tmp)) by (destruct tmp; cbn; auto).
  destruct (HashToIndex_assert (giga_ o) (default idx tmp) hash) eqn:EH; cbn [negb].
  2: { split; [done|]. intros Hs. destruct (proj2 Hl Hs) as [[G1 G2] _].
       by rewrite (HashToIndex_assert_ok (giga_ o) _ hash G1 G2) in EH. }
  pose proof (GetServerForIndex_range (giga_ o) _ (HashToIndex (default idx tmp) hash)
    Hns (proj1 Hl) (HashToIndex_nonneg _ _)) as Hr. unfold HashToServer. cbn [giga_ Gigaplus.num_servers] in Hr.
  rewrite (proj2 (Z.leb_le _ _)), (proj2 (Z.ltb_lt _ _)) by apply Hr. cbn [andb negb].
  set (server := GetServerForIndex _ _ _) in *.
  destruct (f server w) as [[[a|s|re]|c] w'] eqn:Ef; [done| | |done].
  - unfold IsTryAgain. case_bool_decide as Es; [|done]. subst s.
    pose proof (IH tmp remaining w' Hsc Hz Ht) as HI.
    destruct (redirects o n line f hash idx tmp remaining w') as [[r tmp'] w2].
    destruct HI as [H1 H2]. split; [done|]. destruct r as [| |[]]; try done.
    intros [_ Hp]. apply (Hp server w). by rewrite Ef.
  - set (tmp0 := default (copy_index o idx) tmp).
    assert (Hd : IndexOk tmp0) by (unfold tmp0; destruct tmp; cbn; [by apply Ht|by apply copy_index_ok]).
    assert (Hd' : forall t, Some tmp0 = Some t -> IndexOk t) by (by intros t [= <-]).
    destruct (copy_assert idx tmp) eqn:EC; cbn [negb].
    2: { split; [done|]. intros Hs. destruct tmp; [done|]. by rewrite (proj2 (copy_good idx (proj2 Hz Hs))) in EC. }
    destruct (Z.eqb_spec (remaining - 1) 0) as [|Hne]; [done|].
    destruct (Update_assert (mkDirIndex (giga_ o) (Some tmp0)) re) eqn:EA; cbn [negb].
    2: { split; [done|]. intros Hs. destruct (Hsc Hs server w re ltac:(by rewrite Ef)) as (i & Hi & ->).
         by rewrite (Update_assert_good (mkDirIndex (giga_ o) (Some tmp0)) i Hi (proj2 Hd Hs)) in EA. }
    destruct (Update _ re) as [[d [t|]]|] eqn:EU; [|done..].
    pose proof (IH (Some t) (remaining - 1) w' Hsc Hz) as HI.
    destruct (redirects o n line f hash idx (Some t) (remaining - 1) w') as [[r tmp'] w2].
    destruct HI as [H1 H2].
    { intros ? [= <-]. split.
      - pose proof (Update_zeroth _ _ _ _ EU eq_refl) as Hu. cbn [rep] in Hu. rewrite Hu. exact (proj1 Hd).
      - intros Hs. destruct (Hsc Hs server w re ltac:(by rewrite Ef)) as (i & Hi & Ei).
        eapply (Update_good _ _ _ _ _ Hi Ei EU); [done|]. exact (proj2 Hd Hs). }
    split; [done|]. destruct r as [| |[]]; try done. intros [Hb Hp]. apply H2. split; [lia|done].
Qed.

Lemma check_reply_ends {A} (c : A -> bool) I (G : A -> CLI (St := St) -> Prop) r st :
  ends I G r st -> (forall a, G a st -> I st) -> ends I G (check_reply o c r) st.
Proof. destruct r; cbn; [|done|done]. intros. case_match; cbn; eauto. Qed.

Lemma save_index_inv {A} (r : Res A) id tmp hi hl st :
  Inv hi hl st -> (forall t, tmp = Some t -> IndexOk t) ->
  Inv hi hl (save_index r id tmp st).
Proof.
  intros HI Ht. destruct r as [a|s|f], tmp as [t|]; cbn; try done.
  pose proof (insert_index_spec id t hi hl st HI (Ht t eq_refl)) as Hi.
  unfold wp, insert_index in Hi. destruct (IndexCache.Insert (index_cache_ st) id t) as [h c].
  destruct Hi as [Hi _]. exact (release_index_spec h hi hl _ Hi).
Qed.

Lemma send_spec {A} line (c : A -> bool) b (f : MDS St -> St -> Run A * St) idx hi hl st :
  is_call f -> Inv hi hl st -> IndexOk idx ->
  wp (send o factory fuel line c b f idx) (ends (Inv hi hl) (fun _ => Inv hi hl)) st.
Proof.
  intros Hf HI Hz. unfold wp, send.
  pose proof (redirects_spec line (fun k => f (factory k)) (name_hash b) idx fuel None
    (max_redirects_allowed o) (world st) (is_call_sound f Hf) Hz ltac:(done)) as HR.
  destruct (redirects _ _ _ _ _ _ _ _ _) as [[r tmp] w]. destruct HR as [Ht Hr].
  pose proof (save_index_inv (check_reply o c r) (dir_id b) tmp hi hl (set_world st w)
    (set_world_inv _ _ _ w HI) Ht) as HI'.
  apply (check_reply_ends c (Inv hi hl) (fun _ => Inv hi hl)); [|done].
  destruct r as [| |[]]; try done; cbn; split; try done.
  intros Hp. apply Hr. split; [apply Hp|]. intros k w2. by apply patient_call.
Qed.

(** A reply is the last answer of the servers to this request: [w0] is their
    state after the answers before it, and nothing was asked after it. *)
Lemma redirects_source {A} line (f : Z -> St -> Run A * St) hash idx n : forall tmp remaining w a tmp' w',
  redirects o n line f hash idx tmp remaining w = (Ret a, tmp', w') ->
  exists k w0, rtc (fun w w' => exists k, w' = (f k w).2) w w0 /\ f k w0 = (Done (Ok a), w').
Proof.
  induction n as [|n IH]; intros tmp remaining w a tmp' w' E; cbn [redirects] in E; [done|].
  do 2 (destruct (negb _); [done|]).
  match type of E with context [f ?k w] => destruct (f k w) as [[[x|s|re]|c] w1] eqn:Ef end; [| | |done].
  - injection E as <- <- <-. do 2 eexists. split; [apply rtc_refl|exact Ef].
  - destruct (IsTryAgain s); [|done]. destruct (IH _ _ _ _ _ _ E) as (k & w0 & Hr & Hk).
    exists k, w0. split; [|done]. eapply rtc_l; [|exact Hr]. eexists. by rewrite Ef.
  - destruct (negb _); [done|]. destruct (_ =? 0); [done|]. destruct (negb _); [done|].
    destruct (Update _ re) as [[d [t|]]|]; [|done..].
    destruct (IH _ _ _ _ _ _ E) as (k & w0 & Hr & Hk).
    exists k, w0. split; [|done]. eapply rtc_l; [|exact Hr]. eexists. by rewrite Ef.
Qed.

Lemma save_index_world {A} (r : Res A) id tmp (st : CLI (St := St)) : world (save_index r id tmp st) = world st.
Proof. destruct r, tmp; cbn; try done. by destruct (IndexCache.Insert _ _ _). Qed.

Lemma send_source {A} line (c : A -> bool) b (f : MDS St -> St -> Run A * St) idx st a st' :
  send o factory fuel line c b f idx st = (Ret a, st') ->
  exists k w0, rtc (fun w w' => exists k, w' = (f (factory k) w).2) (world st) w0 /\
    f (factory k) w0 = (Done (Ok a), world st').
Proof.
  unfold send. destruct (redirects _ _ _ _ _ _ _ _ _) as [[r tmp] w] eqn:E. intros Hs.
  destruct r as [x|s|f']; cbn [check_reply] in Hs; [|done..]. destruct (_ && _); [done|].
  assert (Ex : x = a /\ save_index (Ret x) (dir_id b) tmp (set_world st w) = st') by (split; congruence).
  destruct Ex as [<- <-]. rewrite save_index_world. cbn [world set_world].
  exact (redirects_source line (fun k => f (factory k)) _ _ _ _ _ _ _ _ _ E).
Qed.

Lemma _Lookup_spec b idx hi hl st :
  Inv hi hl st -> IndexOk idx ->
  wp (_Lookup o factory fuel b idx) (ends (Inv hi hl) (fun _ => Inv hi hl)) st.
Proof. intros. apply send_spec; [|done..]. exists (RLookup b), PLookup. done. Qed.
Lemma _Fstat_spec b idx hi hl st :
  Inv hi hl st -> IndexOk idx ->
  wp (_Fstat o factory fuel b idx) (ends (Inv hi hl) (fun _ => Inv hi hl)) st.
Proof. intros. apply send_spec; [|done..]. exists (RFstat b), PStat. done. Qed.
Lemma _Fcreat_spec b idx hi hl st :
  Inv hi hl st -> IndexOk idx ->
  wp (_Fcreat o factory fuel b idx) (ends (Inv hi hl) (fun _ => Inv hi hl)) st.
Proof. intros. apply send_spec; [|done..]. exists (RFcreat b), PFcreat. done. Qed.
Lemma _Unlink_spec b idx hi hl st :
  Inv hi hl st -> IndexOk idx ->
  wp (_Unlink o factory fuel b idx) (ends (Inv hi hl) (fun _ => Inv hi hl)) st.
Proof. intros. apply send_spec; [|done..]. exists (RUnlink b), PStat. done. Qed.
Lemma _Mkdir_spec b idx hi hl st :
  Inv hi hl st -> IndexOk idx ->
  wp (_Mkdir o factory fuel b idx) (ends (Inv hi hl) (fun _ => Inv hi hl)) st.
Proof. intros. apply send_spec; [|done..]. exists (RMkdir b), PStat. done. Qed.
Lemma _Chmod_spec b idx hi hl st :
  Inv hi hl st -> IndexOk idx ->
  wp (_Chmod o factory fuel b idx) (ends (Inv hi hl) (fun _ => Inv hi hl)) st.
Proof. intros. apply send_spec; [|done..]. exists (RChmod b), PStat. done. Qed.
Lemma _Chown_spec b idx hi hl st :
  Inv hi hl st -> IndexOk idx ->
  wp (_Chown o factory fuel b idx) (ends (Inv hi hl) (fun _ => Inv hi hl)) st.
Proof. intros. apply send_spec; [|done..]. exists (RChown b), PStat. done. Qed.

(** ** Lookups *)

(** Expired lookup states keep a handle that nobody releases, so only the index
    handles are balanced. *)
Definition InvE (hi : list nat) (st : CLI) : Prop := exists hl, Inv hi hl st.

Lemma insert_lookup_spec pid nhash stat hi hl st :
  Inv hi hl st ->
  wp (insert_lookup pid nhash stat)
    (fun r st' => match r with
       | Ret h => Inv hi (h :: hl) st' /\ LookupCache.Value (lookup_cache_ st') h = Some stat /\
           (LeaseDue stat = 0 -> table (lookup_cache_ st') !! LookupCache.LRUKey pid nhash = None) /\
           world st' = world st
       | _ => False
       end) st.
Proof.
  intros [H1 H2 H3]. unfold wp, insert_lookup, LookupCache.Insert, LookupCache.Erase.
  destruct (Lru.Insert (lookup_cache_ st) _ stat 1) as [[h t] d] eqn:E. cbn [fst].
  destruct (sys_insert _ _ _ _ _ _ _ H2 E) as (H2' & _ & Hk & _).
  assert (Hv : forall t' : LRU (V := LookupStat), SysInv (t', h :: hl) -> kvs t' ⊆ kvs t ->
    LookupCache.Value t' h = Some stat).
  { intros t' HS Hs. pose proof (sys_held_same _ _ h _ HS ltac:(by left) Hs) as Hx.
    rewrite Hk in Hx. unfold kvs in Hx. rewrite lookup_fmap in Hx. unfold LookupCache.Value.
    destruct (heap t' !! h); cbn in *; by simplify_eq. }
  destruct (Z.eqb_spec (LeaseDue stat) 0) as [E0|E0].
  - destruct (Lru.Erase t _) as [t' d'] eqn:Ee.
    destruct (sys_erase _ _ _ _ _ H2' Ee) as [H2'' Hs]. cbn. split_and!; [by split|by apply Hv| |done].
    intros _. pose proof (Erase_table t (LookupCache.LRUKey pid nhash)) as Ht. by rewrite Ee in Ht.
  - split_and!; [by split|by apply Hv|done|done].
Qed.

Lemma lookup_value_spec h hi hl st :
  Inv hi (h :: hl) st ->
  wp (lookup_value h)
    (fun r st' => st' = st /\ exists v, r = Ret v /\ LookupCache.Value (lookup_cache_ st) h = Some v) st.
Proof.
  intros [H1 H2 H3]. unfold wp, lookup_value.
  destruct (sys_held _ _ h H2) as [[k v] Hk]; [by left|]. unfold kvs in Hk.
  rewrite lookup_fmap in Hk. unfold LookupCache.Value.
  destruct (heap (lookup_cache_ st) !! h) as [e|]; cbn in *; [|done]. split; [done|]. by eexists.
Qed.

Lemma release_lookup_spec h hi hl st :
  Inv hi (h :: hl) st ->
  wp (release_lookup h) (fun r st' => r = Ret tt /\ Inv hi hl st') st.
Proof.
  intros [H1 H2 H3]. unfold wp, release_lookup, LookupCache.Release.
  destruct (Lru.Release (lookup_cache_ st) h) as [t d] eqn:E.
  destruct (sys_release _ [] _ _ _ _ H2 E) as [H2' _]. by split.
Qed.

Lemma lookup_hit_inv pid nhash hi hl st h t :
  Inv hi hl st -> LookupCache.Lookup (lookup_cache_ st) pid nhash = (Some h, t) ->
  Inv hi (h :: hl) (set_lookups st t).
Proof.
  intros [H1 H2 H3] E. destruct (sys_lookup_hit _ _ _ _ _ H2 E) as (H2' & _). by split.
Qed.

Lemma tick_inv hi hl st now ts :
  Inv hi hl st -> Inv hi hl (mkCLI (lookup_cache_ st) (index_cache_ st) now ts (world st)).
Proof. by intros [? ? ?]. Qed.

(** The request a lookup sends. *)
Definition lookup_options (pid : DirId) (nm : bytes) (due : Z) : BaseOptions :=
  base_options o pid (if atomic_path_resolution o then due else DELTAFS_MAX_MICROS) (PutHash nm)
    (if paranoid_checks o then nm else []).

(** What a lookup returns: a cached state whose lease is good for at least ten
    more microseconds, found without asking a server, or the reply that a server
    gave to this lookup: the last answer of the servers during it, after it may
    have read the index and have been redirected. *)
Definition looked_up (pid : DirId) (nm : bytes) (due : Z) (st st' : CLI (St := St)) (h : nat) : Prop :=
  exists v, LookupCache.Value (lookup_cache_ st') h = Some v /\
    ((world st' = world st /\ cached (lookup_cache_ st) (LookupCache.LRUKey pid (PutHash nm)) h /\
      u64 ((CurrentMicros st).1 + 10) <= LeaseDue v) \/
     ((exists w1 w0 k, index_read pid (world st) w1 /\
         rtc (fun w w' => exists k, w' = (call_Lookup (factory k) (lookup_options pid nm due) w).2) w1 w0 /\
         call_Lookup (factory k) (lookup_options pid nm due) w0 = (Done (Ok v), world st')) /\
      (LeaseDue v = 0 -> table (lookup_cache_ st') !! LookupCache.LRUKey pid (PutHash nm) = None))).

Lemma cli_Lookup_spec pid nm zserver due hi hl st :
  Inv hi hl st ->
  wp (Lookup o factory fuel pid nm zserver due)
    (ends (InvE hi) (fun h st' => (exists hl', Inv hi (h :: hl') st') /\
                                  looked_up pid nm due st st' h)) st.
Proof.
  intros HI. unfold wp, Lookup, looked_up, CurrentMicros. cbn zeta. cbn [fst].
  set (now := u64 _). set (st1 := mkCLI _ _ _ _ _).
  assert (HI1 : Inv hi hl st1) by (by apply tick_inv).
  destruct (LookupCache.Lookup (lookup_cache_ st1) pid (PutHash nm)) as [h t] eqn:E.
  assert (exists hl1, Inv hi hl1 (set_lookups st1 t) /\
    forall h', usable t now h = Some h' -> h = Some h' /\ (exists hl2, hl1 = h' :: hl2) /\
      exists v, LookupCache.Value t h' = Some v /\ u64 (now + 10) <= LeaseDue v) as (hl1 & HI2 & Hu).
  { destruct h as [h|].
    - exists (h :: hl). split; [by eapply lookup_hit_inv|]. intros h' Hu. unfold usable in Hu.
      destruct (LookupCache.Value t h) as [v|] eqn:Ev; [|done].
      destruct (Z.ltb_spec (LeaseDue v) (u64 (now + 10))); [done|]. injection Hu as <-. split_and!; [done|by exists hl|by exists v].
    - exists hl. apply sys_lookup_miss in E as [-> _]. by split. }
  destruct (usable t now h) as [h'|].
  { destruct (Hu h' eq_refl) as (-> & [hl2 ->] & v & Hv & Hd). split; [by exists hl2|].
    exists v. split; [done|]. left. split_and!; [done| |done].
    unfold cached, LookupCache.Lookup, LookupCache.LRUKey in *. change (lookup_cache_ st1) with (lookup_cache_ st) in E.
    by rewrite E. }
  set (k := fun idx => _).
  pose proof (with_index_spec pid zserver hi hl1 (fun h => h :: hl1)
    (fun h st' => exists v, LookupCache.Value (lookup_cache_ st') h = Some v /\
       (LeaseDue v = 0 -> table (lookup_cache_ st') !! LookupCache.LRUKey pid (PutHash nm) = None) /\
       exists w1 w0 k, index_read pid (world st) w1 /\
         rtc (fun w w' => exists k, w' = (call_Lookup (factory k) (lookup_options pid nm due) w).2) w1 w0 /\
         call_Lookup (factory k) (lookup_options pid nm due) w0 = (Done (Ok v), world st'))
    k (set_lookups st1 t) HI2) as Hw.
  unfold wp in Hw. destruct (with_index o factory pid zserver k (set_lookups st1 t)) as [r st3].
  unshelve epose proof (Hw _ _) as Hw'.
  { done. }
  { intros h2 idx st2 HIx Hz Hread. eapply wp_ends_bind.
    - eapply wp_ends_and; [by eapply _Lookup_spec|]. intros a st' Ha.
      exact (send_source _ _ _ (fun m => call_Lookup m (lookup_options pid nm due)) _ _ _ _ Ha).
    - intros stat st4 [HI4 (k0 & w0 & Hw0 & Hk0)].
      eapply wp_mono; [apply (insert_lookup_spec pid (PutHash nm) stat (h2 :: hi) hl1 st4 HI4)|].
      intros [] ? Hx; [|done..]. destruct Hx as (Hx & Hv & Ht & Ew). split; [done|].
      exists stat. split_and!; [done|done|]. exists (world st2), w0, k0. by rewrite Ew. }
  destruct r; cbn in *; [|by exists hl1|].
  - destruct Hw' as [HI' (v & Hv & Ht & Hk)]. split; [by exists hl1|]. exists v. auto.
  - destruct Hw'. split; [done|by exists hl1].
Qed.

(** ** Path resolution *)

Definition path_ok (p : bytes) : bool :=
  match p with [] => false | c :: input => (c =? slash) && negb (ends_with_slash input) end.

Lemma strchr_spec s c k :
  strchr s c = Some k -> s = take k s ++ c :: drop (S k) s /\ c ∉ take k s.
Proof.
  revert k. induction s as [|b s IH]; intros k Hk; [done|]. cbn in Hk.
  destruct (Z.eqb_spec b c) as [->|Hne].
  - injection Hk as <-. cbn. split; [done|apply not_elem_of_nil].
  - destruct (b =? 0); [done|]. destruct (strchr s c) as [j|] eqn:E; [|done].
    injection Hk as <-. destruct (IH j eq_refl) as [E1 E2]. split; [cbn; by rewrite <- E1|].
    cbn. apply not_elem_of_cons. by split.
Qed.

(** The stack of parents is deep enough, and the input is the rest of the path. *)
Definition WalkOk (path : bytes) (w : Walk) : Prop :=
  0 <= w_depth w /\ w_depth w + 2 <= zlen (w_parents w) /\
  exists pre, path = slash :: pre ++ w_input w.

Lemma parent_at_spec line w k (Q : Res PathInfo -> CLI (St := St) -> Prop) st :
  0 <= k < zlen (w_parents w) -> (forall i, w_parents w !! Z.to_nat k = Some i -> Q (Ret i) st) ->
  wp (parent_at line w k) Q st.
Proof.
  intros Hk HQ. unfold parent_at.
  destruct (w_parents w !! Z.to_nat k) as [i|] eqn:E.
  - destruct (Z.ltb_spec k 0); [lia|]. apply wp_ret. by apply HQ.
  - apply lookup_ge_None_1 in E. unfold zlen in *. lia.
Qed.

Lemma resolve_name_spec path nm w hi st :
  InvE hi st -> WalkOk path w ->
  wp (resolve_name o factory fuel nm w)
    (ends (InvE hi) (fun w' st' => InvE hi st' /\ WalkOk path w' /\ w_input w' = w_input w)) st.
Proof.
  intros HI (Hd & Hp & Hi). unfold resolve_name.
  repeat case_match; try by (apply wp_fail).
  - apply wp_bind, parent_at_spec; [lia|]. intros i _. apply wp_ret. cbn.
    split_and!; try done. split_and!; cbn; try done; unfold pred_depth; cmp_cases; lia.
  - apply wp_ret. cbn. by split_and!.
  - destruct HI as [hl HI]. eapply wp_ends_bind; [by eapply cli_Lookup_spec|].
    intros lh st1 [[hl1 HI1] _]. apply wp_bind.
    eapply wp_mono; [by eapply lookup_value_spec|]. intros r st2 (-> & v & -> & _).
    apply wp_bind. eapply wp_mono; [by eapply release_lookup_spec|]. intros r st3 [-> HI3].
    apply wp_ret. cbn. split_and!; [by exists hl1| |done].
    split_and!; cbn; [lia| |done]. rewrite zlen_app. unfold zlen in *. cbn. lia.
Qed.

Lemma missing_path_ok path nm input :
  nm <> [] -> slash ∉ nm -> (exists pre, path = slash :: pre ++ nm ++ slash :: input) ->
  path_ok (take (length path - length input - 1) path) = true.
Proof.
  intros Hn Hs [pre ->].
  replace (length _ - length input - 1)%nat with (S (length (pre ++ nm)))
    by (rewrite ?length_cons, ?length_app, ?length_cons; lia).
  cbn. rewrite app_assoc, take_app_length. unfold ends_with_slash. rewrite last_app.
  destruct (last nm) as [c|] eqn:El; [|by apply last_None in El].
  case_bool_decide as Hc; [|done]. simplify_eq. exfalso. apply Hs.
  apply last_Some in El as [l ->]. apply elem_of_app. right. by left.
Qed.

Lemma resolve_loop_spec path hi n : forall w st,
  InvE hi st -> WalkOk path w -> (length (w_input w) <= n)%nat ->
  let '(r, missing, st') := resolve_loop o factory fuel n path w st in
  ends (InvE hi) (fun w' st' => InvE hi st' /\ WalkOk path w') r st' /\
  (forall m, missing = Some m -> path_ok m = true).
Proof.
  induction n as [|n IH]; intros w st HI Hw Hn; cbn [resolve_loop];
    destruct (strchr (w_input w) slash) as [k|] eqn:Ek; try done.
  { destruct (w_input w); [done|cbn in Hn; lia]. }
  destruct (strchr_spec _ _ _ Ek) as [Es Hns'].
  assert (Hl : (length (drop (S k) (w_input w)) <= n)%nat)
    by (apply (f_equal length) in Es; rewrite length_app in Es; cbn in Es; lia).
  set (nm := take k (w_input w)) in *. set (w1 := set_input w _).
  assert (Hw1 : WalkOk path w1).
  { destruct Hw as (H1 & H2 & pre & H3). split_and!; [done|done|].
    exists (pre ++ nm ++ [slash]). rewrite H3, Es at 1. cbn. by rewrite <- !app_assoc. }
  case_decide as Hnm; [by apply IH|].
  pose proof (resolve_name_spec path nm w1 hi st HI Hw1) as Hr. unfold wp in Hr.
  destruct (resolve_name o factory fuel nm w1 st) as [[w2|s|f] st2]; cbn in Hr.
  - destruct Hr as (HI2 & Hw2 & Ei). apply IH; [done|done|]. by rewrite Ei.
  - split; [done|]. intros m Hm. destruct (IsNotFound s); [|done]. injection Hm as <-.
    apply (missing_path_ok path nm); [done|done|].
    destruct Hw as (_ & _ & pre & H3). exists pre. by rewrite H3, Es at 1.
  - by split.
Qed.

Lemma resolve_last_spec path w hi st :
  InvE hi st -> WalkOk path w ->
  wp (resolve_last o w) (ends (InvE hi) (fun _ => InvE hi)) st.
Proof.
  intros HI (Hd & Hp & _). unfold resolve_last.
  repeat case_match; try done; apply wp_bind, parent_at_spec; try lia; done.
Qed.

Lemma cli_ResolvePath_spec p at_ hi st :
  InvE hi st -> path_ok p = true ->
  let '(r, missing, st') := ResolvePath o factory fuel p at_ st in
  ends (InvE hi) (fun _ => InvE hi) r st' /\ (forall m, missing = Some m -> path_ok m = true).
Proof.
  intros HI Hp. destruct p as [|c input]; [done|]. unfold ResolvePath. cbn in Hp.
  apply andb_prop in Hp as [Hc He]. rewrite Hc. cbn [negb].
  destruct (ends_with_slash input); [done|].
  pose proof (resolve_loop_spec (c :: input) hi (length input)
    (mkWalk input (start_info at_) [start_info at_; start_info at_] 0 (p_lease_due (start_info at_)))
    st HI) as Hl.
  destruct (resolve_loop _ _ _ _ _ _ _) as [[[w|s|f] m] st']; (destruct Hl as [Hl Hm];
    [split_and!; [done|done|exists []; apply Z.eqb_eq in Hc; by subst]|done|]); try done.
  destruct Hl as [HI' Hw]. pose proof (resolve_last_spec _ w hi st' HI' Hw) as Hr. unfold wp in Hr.
  by destruct (resolve_last o w st').
Qed.

Lemma resolve_spec p at_ hi st :
  InvE hi st -> path_ok p = true ->
  wp (resolve o factory fuel p at_) (ends (InvE hi) (fun _ => InvE hi)) st.
Proof.
  intros HI Hp. pose proof (cli_ResolvePath_spec p at_ hi st HI Hp) as Hr. unfold wp, resolve.
  destruct (ResolvePath _ _ _ _ _ _) as [[r m] st']. apply Hr.
Qed.

(** ** The operations *)

Lemma with_index_keep {A} id zserver hi (k : Rep -> M A) st :
  InvE hi st ->
  (forall h idx hl st', Inv (h :: hi) hl st' -> IndexOk idx ->
     wp (k idx) (ends (Inv (h :: hi) hl) (fun _ => Inv (h :: hi) hl)) st') ->
  wp (with_index o factory id zserver k) (ends (InvE hi) (fun _ => InvE hi)) st.
Proof.
  intros [hl HI] Hk. eapply wp_ends_weaken.
  - apply (with_index_spec id zserver hi hl (fun _ => hl) (fun _ _ => True)); [done|done|].
    intros. eapply wp_ends_weaken; [by apply Hk|done|done].
  - by exists hl.
  - intros a st' [? _]. by exists hl.
Qed.

(** The common part of the operations: resolve the path, fetch the index of its
    directory, send the request. *)
Ltac op_step :=
  lazymatch goal with
  | |- wp (if ?b then _ else _) _ _ => destruct b eqn:?
  | |- wp (match ?x with Some _ => _ | None => _ end) _ _ => destruct x eqn:?
  | |- wp (match ?x with PLookup _ => _ | _ => _ end) _ _ => destruct x eqn:?
  | |- wp (bind (resolve _ _ _ _ _) _) _ _ =>
      eapply wp_ends_bind; [by apply resolve_spec|intros ? ? ?]
  | |- wp (bind (with_index _ _ _ _ _) _) _ _ =>
      eapply wp_ends_bind; [apply with_index_keep; [done|intros]|intros ? ? ?]
  | |- wp (ret _) _ _ => apply wp_ret
  | |- wp (fail _) _ _ => apply wp_fail
  end.
Ltac op_auto := repeat op_step; try done;
  auto using _Fstat_spec, _Fcreat_spec, _Unlink_spec, _Mkdir_spec, _Chmod_spec, _Chown_spec.

Lemma plfs_ent_spec line p e hi st :
  InvE hi st -> wp (plfs_ent line p (Some e)) (ends (InvE hi) (fun _ => InvE hi)) st.
Proof. done. Qed.

(** A caller's [Fentry] names a directory below the root by its hash. *)
Definition at_ok (at_ : option Fentry) : bool :=
  match at_ with
  | Some a => at_root at_ || negb (bool_decide (fe_nhash a = []))
  | None => true
  end.

Lemma cli_Fstat_spec p e at_ hi st :
  InvE hi st -> path_ok p = true -> at_ok at_ = true ->
  wp (Fstat o factory fuel p (Some e) at_) (ends (InvE hi) (fun _ => InvE hi)) st.
Proof.
  intros HI Hp Ha. unfold Fstat, plfs_ent. op_step; [by apply wp_fail|]. op_step. op_step.
  - assert (Hcase : at_root at_ = true \/ exists x, at_ = Some x /\ at_root at_ = false /\
      negb (bool_decide (fe_nhash x = [])) = true).
    { destruct (at_root at_) eqn:Er; [by left|right]. destruct at_ as [x|]; [|done].
      exists x. unfold at_ok in Ha. rewrite Er in Ha. done. }
    destruct Hcase as [->|(x & -> & -> & Hx)]; [op_auto|]. unfold assert_. rewrite Hx.
    apply wp_bind, wp_ret. op_auto.
  - op_auto.
Qed.

Lemma cli_Fcreat_spec p mode e b c at_ hi st :
  InvE hi st -> path_ok p = true ->
  wp (Fcreat o factory fuel p mode (Some e) b c at_) (ends (InvE hi) (fun _ => InvE hi)) st.
Proof. intros HI Hp. unfold Fcreat, plfs_ent. op_auto. Qed.

Lemma cli_Unlink_spec p ent b at_ hi st :
  InvE hi st -> path_ok p = true ->
  wp (Unlink o factory fuel p ent b at_) (ends (InvE hi) (fun _ => InvE hi)) st.
Proof. intros HI Hp. unfold Unlink. op_auto. Qed.

Lemma cli_Chmod_spec p mode ent hi st :
  InvE hi st -> path_ok p = true ->
  wp (Chmod o factory fuel p mode ent) (ends (InvE hi) (fun _ => InvE hi)) st.
Proof. intros HI Hp. unfold Chmod. op_auto. Qed.

Lemma cli_Chown_spec p usr grp ent hi st :
  InvE hi st -> path_ok p = true ->
  wp (Chown o factory fuel p usr grp ent) (ends (InvE hi) (fun _ => InvE hi)) st.
Proof. intros HI Hp. unfold Chown. op_auto. Qed.

Lemma mkdir_at_spec path mode ent b hi st :
  InvE hi st -> wp (mkdir_at o factory fuel path mode ent b) (ends (InvE hi) (fun _ => InvE hi)) st.
Proof. intros HI. unfold mkdir_at. op_auto. Qed.

(** [Mkdir] may nest deeper than [n] only if it creates missing ancestors. *)
Definition mkdir_ends {A} (create : bool) (hi : list nat) (r : Res A) (st : CLI) : Prop :=
  InvE hi st /\ forall f, r = Abort f -> foreign f \/ (f = OutOfFuel /\ create = true).

Lemma ends_mkdir {A} create hi (r : Res A) st :
  ends (InvE hi) (fun _ => InvE hi) r st -> mkdir_ends create hi r st.
Proof. destruct r; cbn; [by split|by split|]. intros [? ?]. split; [done|]. intros ? [= <-]. by left. Qed.

Lemma cli_Mkdir_spec n : forall p mode ent create b hi st,
  InvE hi st -> path_ok p = true ->
  wp (Mkdir o factory fuel n p mode ent create b) (mkdir_ends create hi) st.
Proof.
  induction n as [|n IH]; intros p mode ent create b hi st HI Hp; unfold wp; cbn [Mkdir];
    pose proof (cli_ResolvePath_spec p None hi st HI Hp) as HR;
    destruct (ResolvePath o factory fuel p None st) as [[[path|s|f] m] st']; destruct HR as [HR Hm];
    try (apply (mkdir_at_spec path mode ent b) in HR; unfold wp in HR;
         destruct (mkdir_at _ _ _ _ _ _ _ _); by apply ends_mkdir);
    try (by apply (ends_mkdir (A := option Fentry) create hi (Abort f)));
    destruct (IsNotFound s), create, m as [[|x m]|]; cbn [andb]; try by split.
  - split; [done|]. intros f [= <-]. by right.
  - pose proof (IH (x :: m) (Z.land mode (Z.lnot DELTAFS_DIR_MASK)) None true false hi st' HR
      (Hm _ eq_refl)) as H1. unfold wp in H1. unfold bind.
    destruct (Mkdir _ _ _ _ _ _ _ _ _ st') as [[e|s1|f1] st1]; destruct H1 as [HI1 H1].
    + exact (IH p mode ent true b hi st1 HI1 Hp).
    + by split.
    + split; [done|]. intros ? [= <-]. by apply H1.
Qed.

Lemma cli_Ftruncate_spec e mtime size hi st :
  InvE hi st -> wp (Ftruncate o factory fuel e mtime size) (ends (InvE hi) (fun _ => InvE hi)) st.
Proof.
  intros [hl HI]. unfold Ftruncate. eapply (wp_ends_bind _ _ _ (fun h => Inv (h :: hi) hl)).
  { eapply wp_ends_weaken; [by apply cli_FetchIndex_spec|by exists hl|by intros ? ? [? _]]. }
  intros h st1 HI1. apply wp_bind.
  eapply wp_mono; [by eapply index_value_spec|]. intros [idx|s|f] ? [-> Hz]; try done.
  unfold wp. set (q := mkTrunc _ _ _).
  pose proof (redirects_spec 1059 (fun k => call_Trunc (factory k) q) (fe_nhash e) idx fuel None (max_redirects_allowed o) (world st1)
    (is_call_sound (fun m => call_Trunc m q) ltac:(by exists (RTrunc q), PStat)) Hz ltac:(done)) as HR.
  destruct (redirects _ _ _ _ _ _ _ _ _) as [[r tmp] w]. destruct HR as [Ht Hr].
  set (st2 := release_index h (set_world st1 w)).
  assert (HI2 : Inv hi hl st2) by (by apply release_index_spec, set_world_inv).
  set (r' := check_reply o _ r).
  pose proof (save_index_inv r' (fe_pid e) tmp hi hl st2 HI2 Ht) as HI3.
  assert (HE : ends (InvE hi) (fun _ => InvE hi) r' (save_index r' (fe_pid e) tmp st2)).
  { apply (check_reply_ends _ (InvE hi) (fun _ => InvE hi)); [|done].
    destruct r as [| |[]]; cbn; try done; try (by exists hl); split; try done; try (by exists hl).
    intros Hp. apply Hr. split; [apply Hp|]. intros k w2. 
    apply (patient_call (fun m => call_Trunc m q)); [|done]. by exists (RTrunc q), PStat. }
  by destruct r'.
Qed.

Lemma list_loop_spec idx b hi hl parts : forall visited names st,
  Inv hi hl st -> IndexOk idx -> Forall (Z.le 0) parts ->
  wp (list_loop o factory parts idx b visited names) (ends (Inv hi hl) (fun _ => Inv hi hl)) st.
Proof.
  induction parts as [|i parts IH]; intros visited names st HI Hz Hp; [done|]. cbn [list_loop].
  apply Forall_cons in Hp as [Hi Hp]. destruct (Gigaplus.bit idx i); [|by apply IH].
  pose proof (GetServerForIndex_range (giga_ o) idx i Hns (proj1 Hz) Hi) as Hr. cbn in Hr.
  set (server := GetServerForIndex _ _ _) in *. unfold assert_.
  rewrite (proj2 (Z.leb_le _ _)), (proj2 (Z.ltb_lt _ _)) by apply Hr. cbn [andb].
  apply wp_bind, wp_ret. case_decide; [by apply IH|]. unfold wp.
  destruct (call_Listdir (factory server) b (world st)) as [[[l|s|re]|c] w];
    pose proof (set_world_inv hi hl st w HI) as HI'; try (by split);
    (destruct (_ <=? _); [done|by apply IH]).
Qed.

Lemma fake_path_ok p : head p = Some slash -> path_ok (fake_path p) = true.
Proof.
  destruct p as [|c p]; [done|]. cbn. intros [= ->]. unfold ends_with_slash, slash.
  rewrite last_app. done.
Qed.

Lemma cli_Listdir_spec p names hi st :
  InvE hi st -> head p = Some slash -> bad_dir_path p = false ->
  wp (Listdir o factory fuel p names) (ends (InvE hi) (fun _ => InvE hi)) st.
Proof.
  intros HI Hh Hb. apply fake_path_ok in Hh as Hp. unfold Listdir, assert_. rewrite Hb. cbn [negb].
  apply wp_bind, wp_ret. op_step. repeat (op_step; [done|]).
  apply with_index_keep; [done|]. intros. apply list_loop_spec; [done|done|].
  apply Forall_forall. intros x Hx. apply elem_of_seqZ in Hx. lia.
Qed.

Lemma cli_Accessdir_spec p mode hi st :
  InvE hi st -> head p = Some slash -> bad_dir_path p = false ->
  wp (Accessdir o factory fuel p mode) (ends (InvE hi) (fun _ => InvE hi)) st.
Proof.
  intros HI Hh Hb. apply fake_path_ok in Hh as Hp. unfold Accessdir, assert_. rewrite Hb. cbn [negb].
  apply wp_bind, wp_ret. op_step. by repeat op_step.
Qed.

Lemma cli_Access_spec p mode e hi st :
  InvE hi st -> path_ok p = true ->
  wp (Access o factory fuel p mode e) (ends (InvE hi) (fun _ => InvE hi)) st.
Proof.
  intros HI Hp. unfold Access. eapply wp_ends_bind; [by apply cli_Fstat_spec|].
  intros [x|] ? ?; [case_match|]; done.
Qed.

End Inv.
