(* ===== verification/MdsCliProps.v ===== *)
(** * Properties of the metadata client

    Safety and termination of every operation of [MDS::CLI], for any servers
    and in any state a client can reach; what a lookup may return; which servers
    a listing asks.  Path resolution is in [MdsPath]. *)
From S2P Require Import Prelude Coding Status FsTypes Gigaplus Lru Tables MdsApi MdsCli MdsCliInv.
Import CLI.

Section Props.
Context `{XXHash} {St : Type} (o : MDSCliOptions) (factory : Z -> MDS St) (fuel : nat).

(** ** The operations under one type *)

Inductive Op :=
  | OFstat (p : bytes) (ent at_ : option Fentry)
  | OFcreat (p : bytes) (mode : Z) (ent : option Fentry) (error_if_exists : bool)
      (created_ : option bool) (at_ : option Fentry)
  | OUnlink (p : bytes) (ent : option Fentry) (error_if_absent : bool) (at_ : option Fentry)
  | OMkdir (p : bytes) (mode : Z) (ent : option Fentry) (create_if_missing error_if_exists : bool)
  | OChmod (p : bytes) (mode : Z) (ent : option Fentry)
  | OChown (p : bytes) (usr grp : Z) (ent : option Fentry)
  | OFtruncate (ent : Fentry) (mtime size : Z)
  | OListdir (p : bytes) (names : list bytes)
  | OAccessdir (p : bytes) (mode : Z)
  | OAccess (p : bytes) (mode : Z) (entry : Fentry).

Definition forget {A} (m : M (St := St) A) : M () := fun st =>
  let (r, st') := m st in (map_res (fun _ => tt) r, st').

(** [n] bounds the nesting of [Mkdir]. *)
Definition perform (n : nat) (op : Op) : M (St := St) () :=
  match op with
  | OFstat p ent at_ => forget (Fstat o factory fuel p ent at_)
  | OFcreat p mode ent b c at_ => forget (Fcreat o factory fuel p mode ent b c at_)
  | OUnlink p ent b at_ => forget (Unlink o factory fuel p ent b at_)
  | OMkdir p mode ent c b => forget (Mkdir o factory fuel n p mode ent c b)
  | OChmod p mode ent => forget (Chmod o factory fuel p mode ent)
  | OChown p usr grp ent => forget (Chown o factory fuel p usr grp ent)
  | OFtruncate ent mtime size => Ftruncate o factory fuel ent mtime size
  | OListdir p names => forget (Listdir o factory fuel p names)
  | OAccessdir p mode => Accessdir o factory fuel p mode
  | OAccess p mode entry => Access o factory fuel p mode entry
  end.

(** What the callers guarantee: absolute paths without trailing slashes, result
    pointers that are not null where the code does not test them, and entries
    of directories that carry a name hash. *)
Definition valid (op : Op) : bool :=
  match op with
  | OFstat p ent at_ => path_ok p && bool_decide (is_Some ent) && at_ok at_
  | OFcreat p _ ent _ _ _ => path_ok p && bool_decide (is_Some ent)
  | OUnlink p _ _ _ | OMkdir p _ _ _ _ | OChmod p _ _ | OChown p _ _ _ | OAccess p _ _ => path_ok p
  | OFtruncate _ _ _ => true
  | OListdir p _ | OAccessdir p _ => bool_decide (head p = Some slash) && negb (bad_dir_path p)
  end.

(** Only [Mkdir] with missing ancestors nests. *)
Definition nests (op : Op) : bool := match op with OMkdir _ _ _ c _ => c | _ => false end.

(** The states of a client between operations: the servers change and the clock
    moves at any time. *)
Inductive reachable : CLI (St := St) -> Prop :=
  | reach_new now ts w : reachable (CLI_new o now ts w)
  | reach_env st now ts w :
      reachable st -> reachable (mkCLI (lookup_cache_ st) (index_cache_ st) now ts w)
  | reach_op st n op : reachable st -> valid op = true -> reachable (perform n op st).2.

Context (Hns : 0 < num_servers o) (Hic : 0 <= index_cache_size o) (Hlc : 0 <= lookup_cache_size o).

Lemma forget_ends {A} (m : M A) create st :
  wp m (mkdir_ends o factory fuel create []) st ->
  wp (forget m) (mkdir_ends o factory fuel create []) st.
Proof.
  unfold wp, forget. destruct (m st) as [r st']. intros [HI Hf]. split; [done|].
  intros f E. apply Hf. destruct r; cbn in E; congruence.
Qed.

Lemma wp_ends_mkdir {A} (m : M A) create st :
  wp m (ends o factory fuel (InvE o factory []) (fun _ => InvE o factory [])) st ->
  wp m (mkdir_ends o factory fuel create []) st.
Proof. intros Hm. eapply wp_mono; [exact Hm|]. intros. by apply ends_mkdir. Qed.

Lemma perform_spec n op st :
  InvE o factory [] st -> valid op = true -> wp (perform n op) (mkdir_ends o factory fuel (nests op) []) st.
Proof.
  intros HI Hv.
  destruct op; cbn [perform nests] in *; unfold valid in Hv;
    repeat match goal with
    | E : _ && _ = true |- _ => apply andb_prop in E as [? ?]
    | E : bool_decide _ = true |- _ => apply bool_decide_eq_true in E
    | E : negb _ = true |- _ => apply negb_true_iff in E
    | E : is_Some _ |- _ => destruct E as [? ->]
    end; try apply forget_ends; try (by apply cli_Mkdir_spec); apply wp_ends_mkdir;
    auto using cli_Fstat_spec, cli_Fcreat_spec, cli_Unlink_spec, cli_Chmod_spec, cli_Chown_spec, cli_Ftruncate_spec,
      cli_Listdir_spec, cli_Accessdir_spec, cli_Access_spec.
Qed.

Lemma reachable_invE st : reachable st -> InvE o factory [] st.
Proof.
  induction 1 as [now ts w|st now ts w Hr [hl [H1 H2 H3]]|st n op Hr IH Hv].
  - exists []. split; [by apply LRU_empty_inv..|]. intros h k r Hk. unfold kvs in Hk.
    by rewrite lookup_fmap in Hk.
  - exists hl. by split.
  - pose proof (perform_spec n op st IH Hv) as Hp. unfold wp in Hp.
    destruct (perform n op st). apply Hp.
Qed.



(** C14. Termination: if no server ever answers [TryAgain], every operation
    that does not create missing ancestors ends, and its redirection loops ask
    at most [max_redirects_allowed] servers each (which must be positive): that
    many iterations of fuel are enough. *)
Theorem client_terminates n op st :
  reachable st -> valid op = true -> nests op = false ->
  1 <= max_redirects_allowed o <= Z.of_nat fuel ->
  (forall k r w, (mds_call (factory k) r w).1 <> Done (Error kTryAgain)) ->
  (perform n op st).1 <> Abort OutOfFuel.
Proof.
  intros Hr Hv Hn Hb Hp E. pose proof (perform_spec n op st (reachable_invE st Hr) Hv) as Hw.
  unfold wp in Hw. destruct (perform n op st) as [r st']. destruct Hw as [_ Hf].
  destruct (Hf _ E) as [Hx|[_ Hx]]; [|congruence]. by apply Hx.
Qed.

(** C16. A lookup respects leases: the state it returns is a cached one only if
    its lease still has at least ten microseconds to run by the client's clock,
    and then no server is asked; otherwise it is the reply a server gave during
    this lookup to this lookup's request: the servers' state is that after this
    reply, which was given in a state they reached from the one at the start by
    the index read and the lookup requests sent before; and a reply without a
    lease does not stay in the cache. *)
Theorem lookup_respects_leases pid nm zserver due st :
  reachable st ->
  let (r, st') := Lookup o factory fuel pid nm zserver due st in
  forall h, r = Ret h -> looked_up o factory pid nm due st st' h.
Proof.
  intros Hr. destruct (reachable_invE st Hr) as [hl HI].
  pose proof (cli_Lookup_spec o factory fuel Hns pid nm zserver due [] hl st HI) as Hl. unfold wp in Hl.
  destruct (Lookup o factory fuel pid nm zserver due st) as [r st']. intros h ->. apply Hl.
Qed.

(** ** Listings *)

(** Ask each server of a list, one after the other, and collect the names. *)
Fixpoint ask_all (servers : list Z) (b : BaseOptions) (names : list bytes) : M (St := St) (list bytes) :=
  fun st =>
  match servers with
  | [] => (Ret names, st)
  | s :: servers =>
      let (r, w) := call_Listdir (factory s) b (world st) in
      match r with
      | Done (Ok l) => ask_all servers b (names ++ l) (set_world st w)
      | Done (Error _) => ask_all servers b names (set_world st w)
      | Done (Redirected re) => (Abort (Uncaught re), set_world st w)
      | Crash c => (Abort (CallCrash c), set_world st w)
      end
  end.

(** The servers of the partitions [parts] that exist, without those of [seen],
    each at its first occurrence. *)
Fixpoint new_servers (idx : Rep) (parts seen : list Z) : list Z :=
  match parts with
  | [] => []
  | i :: parts =>
      let s := GetServerForIndex (giga_ o) idx i in
      if Gigaplus.bit idx i && negb (bool_decide (s ∈ seen))
      then s :: new_servers idx parts (seen ++ [s]) else new_servers idx parts seen
  end.

Lemma elem_of_new_servers idx parts : forall seen s,
  s ∈ new_servers idx parts seen <->
  s ∉ seen /\ exists i, i ∈ parts /\ Gigaplus.bit idx i = true /\ s = GetServerForIndex (giga_ o) idx i.
Proof.
  induction parts as [|i parts IH]; intros seen s; cbn [new_servers].
  { split; [by intros ?%elem_of_nil|]. intros (_ & i & Hi & _). by apply elem_of_nil in Hi. }
  destruct (Gigaplus.bit idx i) eqn:Eb; cbn [andb].
  - case_bool_decide as Hs; cbn [negb]; rewrite ?elem_of_cons, IH; setoid_rewrite elem_of_cons.
    + naive_solver.
    + rewrite elem_of_app, list_elem_of_singleton. split.
      * intros [->|(Hn & i' & Hi & Hb & ->)]; [eauto 6|]. split; [naive_solver|eauto 6].
      * intros (Hn & i' & [->|Hi] & Hb & ->); [by left|].
        destruct (decide (GetServerForIndex (giga_ o) idx i' = GetServerForIndex (giga_ o) idx i)) as [E|E];
          [by left|right]. split; [naive_solver|eauto].
  - rewrite IH. setoid_rewrite elem_of_cons. split; intros (Hn & i' & Hi & Hb & ->).
    + split; [done|]. eauto.
    + split; [done|]. destruct Hi as [->|Hi]; [congruence|]. eauto.
Qed.

Lemma NoDup_new_servers idx parts : forall seen, NoDup (new_servers idx parts seen).
Proof.
  induction parts as [|i parts IH]; intros seen; cbn [new_servers]; [apply NoDup_nil_2|].
  case_match; [|apply IH]. apply NoDup_cons. split; [|apply IH].
  rewrite elem_of_new_servers. intros [Hn _]. apply Hn. apply elem_of_app. right. by left.
Qed.

(** When all servers are in [seen] none is new. *)
Lemma new_servers_full idx parts seen :
  0 <= zeroth_server idx -> Forall (Z.le 0) parts -> NoDup seen ->
  Forall (fun s => 0 <= s < num_servers o) seen -> num_servers o <= zlen seen ->
  new_servers idx parts seen = [].
Proof.
  intros Hz Hp Hn Hr Hl. destruct (new_servers idx parts seen) as [|s l] eqn:E; [done|exfalso].
  assert (Hs : s ∈ new_servers idx parts seen) by (rewrite E; by left).
  apply elem_of_new_servers in Hs as (Hs & i & Hi & _ & ->). apply Hs. apply list_elem_of_In.
  apply (NoDup_length_incl (l := seen) (l' := seqZ 0 (num_servers o))).
  - by apply NoDup_ListNoDup.
  - rewrite length_seqZ. unfold zlen in Hl. lia.
  - intros x Hx. apply list_elem_of_In, elem_of_seqZ. apply list_elem_of_In in Hx.
    rewrite Forall_forall in Hr. specialize (Hr x Hx). lia.
  - apply list_elem_of_In, elem_of_seqZ. rewrite Forall_forall in Hp.
    pose proof (GetServerForIndex_range (giga_ o) idx i Hns Hz (Hp i Hi)) as Hg. cbn in *. lia.
Qed.

Lemma list_loop_asks idx b parts : forall seen names st,
  0 <= zeroth_server idx -> Forall (Z.le 0) parts -> NoDup seen ->
  Forall (fun s => 0 <= s < num_servers o) seen ->
  list_loop o factory parts idx b seen names st
  = ask_all (new_servers idx parts seen) b names st.
Proof.
  induction parts as [|i parts IH]; intros seen names st Hz Hp Hn Hr; [done|].
  apply Forall_cons in Hp as [Hi Hp]. cbn [list_loop new_servers].
  destruct (Gigaplus.bit idx i); cbn [andb]; [|by apply IH].
  pose proof (GetServerForIndex_range (giga_ o) idx i Hns Hz Hi) as Hg. cbn in Hg.
  set (s := GetServerForIndex _ _ _) in *. unfold bind, assert_.
  rewrite (proj2 (Z.leb_le _ _)), (proj2 (Z.ltb_lt _ _)) by apply Hg. cbn [andb ret].
  case_decide as Hs; [rewrite bool_decide_true by done; by apply IH|].
  rewrite bool_decide_false by done. cbn [negb ask_all].
  assert (HN : NoDup (seen ++ [s])).
  { apply NoDup_app. split_and!; [done| |apply NoDup_singleton].
    intros x Hx ->%list_elem_of_singleton. done. }
  assert (HF : Forall (fun s => 0 <= s < num_servers o) (seen ++ [s])).
  { apply Forall_app. split; [done|]. by apply Forall_singleton. }
  destruct (call_Listdir (factory s) b (world st)) as [[[l|e|re]|c] w]; try done;
    (destruct (Z.leb_spec (num_servers o) (zlen (seen ++ [s])));
      [by rewrite (new_servers_full idx parts (seen ++ [s])) by done|by apply IH]).
Qed.

(** C17. A listing asks every server that holds an existing partition of the
    directory, each exactly once, whatever they answer, and returns their names
    in that order: stopping when [num_servers] servers have been asked misses
    none of them. *)
Theorem listing_complete idx b names st :
  0 <= zeroth_server idx ->
  exists servers,
    NoDup servers /\
    (forall s, s ∈ servers <-> exists i, 0 <= i < Z.shiftl 1 (radix idx) /\
       Gigaplus.bit idx i = true /\ s = GetServerForIndex (giga_ o) idx i) /\
    list_loop o factory (seqZ 0 (Z.shiftl 1 (radix idx))) idx b [] names st
    = ask_all servers b names st.
Proof.
  intros Hz. exists (new_servers idx (seqZ 0 (Z.shiftl 1 (radix idx))) []).
  split_and!; [apply NoDup_new_servers| |].
  - intros s. rewrite elem_of_new_servers. setoid_rewrite elem_of_seqZ. split.
    + intros (_ & i & ? & ? & ?). exists i. split; [lia|done].
    + intros (i & ? & ? & ?). split; [apply not_elem_of_nil|]. exists i. split; [lia|done].
  - apply list_loop_asks; [done| |apply NoDup_nil_2|constructor].
    apply Forall_forall. intros x ?%elem_of_seqZ. lia.
Qed.

End Props.
