(* ===== verification/MdsPath.v ===== *)
(** * Path resolution

    What [MDS::CLI::ResolvePath] computes, against a reference that walks a
    directory tree with a stack of the directories it came through.  The client
    relies on an interface, [LookupService]: a lookup finds what the tree has.
    [MdsHonest] discharges it for the client's caches in front of servers that
    answer for one tree. *)
From S2P Require Import Prelude Coding Status FsTypes Gigaplus Lru Tables MdsApi MdsCli MdsCliInv.
Import CLI.

(** ** The reference *)

(** A directory and its attributes. *)
Record Dir := mkDir { d_id : DirId; d_zserver : Z; d_mode : Z; d_uid : Z; d_gid : Z }.

Definition dir_of (s : LookupStat) : Dir :=
  mkDir (mkDirId (L_RegId s) (L_SnapId s) (L_InodeNo s)) (s32 (L_ZerothServer s)) (L_DirMode s)
    (L_UserId s) (L_GroupId s).
Definition info_dir (i : PathInfo) : Dir :=
  mkDir (p_pid i) (p_zserver i) (p_mode i) (p_uid i) (p_gid i).

(** The subdirectories: by directory id and name hash, or the error a lookup
    gives. *)
Definition Tree : Type := DirId -> bytes -> Dir + Status.

(** The components of a path between its slashes. *)
Fixpoint split (s : bytes) : list bytes :=
  match s with
  | [] => [[]]
  | c :: s =>
      if c =? slash then [] :: split s
      else match split s with [] => [[c]] | x :: l => (c :: x) :: l end
  end.

(** The names of the directories of a path, and its last component. *)
Definition dir_names (input : bytes) : list bytes :=
  filter (fun n => n <> []) (removelast (split input)).
Definition last_name (input : bytes) : bytes := List.last (split input) [].

(** The directories walked through, each with its name, the current one first. *)
Definition Stack : Type := list (bytes * Dir).

Inductive Target :=
  | TRoot (d : Dir)                         (* the directory the walk began at *)
  | TEntry (d : Dir) (name : bytes) (depth : Z). (* a name in a directory *)

Section Reference.
Context `{XXHash} (o : MDSCliOptions) (tree : Tree) (root : Dir).

Definition searchable (d : Dir) : bool :=
  permitted o (d_uid d) (d_gid d) (d_mode d) S_IXUSR S_IXGRP S_IXOTH.

Definition cur (s : Stack) : Dir := match s with [] => root | (_, d) :: _ => d end.

Definition walk_name (nm : bytes) (s : Stack) : Stack + Status :=
  if negb (searchable (cur s)) then inr kAccessDenied
  else if decide (nm = dotdot) then inl (tail s)
  else if decide (nm = dot) then inl s
  else if DELTAFS_DIR_IS_PLFS_STYLE (d_mode (cur s)) then inr kNotSupported
  else match tree (d_id (cur s)) (PutHash nm) with
       | inl d => inl ((nm, d) :: s)
       | inr e => inr e
       end.

Fixpoint walk (nms : list bytes) (s : Stack) : Stack + Status :=
  match nms with
  | [] => inl s
  | nm :: nms => match walk_name nm s with inl s => walk nms s | inr e => inr e end
  end.

(** The entry of the current directory in its parent. *)
Definition entry_of (s : Stack) : Target :=
  match s with
  | [] => TRoot root
  | (nm, _) :: s' => TEntry (cur s') nm (zlen s)
  end.

Definition target_of (nm : bytes) (s : Stack) : Target + Status :=
  if decide (nm = []) then inl (entry_of s)
  else if negb (searchable (cur s)) then inr kAccessDenied
  else if decide (nm = dotdot) then inl (entry_of (tail s))
  else if decide (nm = dot) then inl (entry_of s)
  else inl (TEntry (cur s) nm (zlen s + 1)).

(** The path after its first slash. *)
Definition resolve_ref (input : bytes) : Target + Status :=
  match walk (dir_names input) [] with
  | inl s => target_of (last_name input) s
  | inr e => inr e
  end.

End Reference.

(** ** Where the code's stack of parents is right

    [parents] grows with each name and never shrinks.  After a [..] that leaves
    a directory it still ends with the entry of that directory, and a name then
    adds the next entry behind it: from then on entries are at the wrong depth.
    A path is safe if no [..], and no [.] at the end, comes after that. *)
Inductive Phase := Clean | Popped | Misplaced.

Definition safe_step (nm : bytes) (p : Phase * nat) : option (Phase * nat) :=
  let (ph, d) := p in
  if decide (nm = dotdot) then
    match ph with
    | Clean => Some (match d with O => (Clean, O) | S d => (Popped, d) end)
    | Popped => Some (Popped, pred d)
    | Misplaced => None
    end
  else if decide (nm = dot) then Some p
  else Some (match ph with Clean => Clean | _ => Misplaced end, S d).

Fixpoint safe_walk (nms : list bytes) (p : Phase * nat) : option (Phase * nat) :=
  match nms with
  | [] => Some p
  | nm :: nms => let? p := safe_step nm p in safe_walk nms p
  end.

Definition dots_safe (input : bytes) : bool :=
  match safe_walk (dir_names input) (Clean, O) with
  | Some (Misplaced, _) =>
      negb (bool_decide (last_name input = dot) || bool_decide (last_name input = dotdot))
  | Some _ => true
  | None => false
  end.

(** ** The interface *)

Section Service.
Context `{XXHash} {St : Type} (o : MDSCliOptions) (factory : Z -> MDS St) (fuel : nat).

(** What the resolution of one name does with [Lookup]. *)
Definition look_dir (d : Dir) (nm : bytes) (due : Z) : M (St := St) LookupStat :=
  bind (Lookup o factory fuel (d_id d) nm (d_zserver d) due) (fun lh =>
  bind (lookup_value lh) (fun stat =>
  bind (release_lookup lh) (fun _ => ret stat))).

(** In states [I], looking up a name in a directory [ok] gives what [tree] has. *)
Class LookupService (I : CLI (St := St) -> Prop) (ok : Dir -> Prop) (tree : Tree) : Prop := {
  service_lookup : forall d nm due st, I st -> ok d -> nm <> [] ->
    wp (look_dir d nm due)
      (fun r st' => I st' /\
         match r with
         | Ret v => tree (d_id d) (PutHash nm) = inl (dir_of v)
         | Fail e => tree (d_id d) (PutHash nm) = inr e
         | Abort _ => False
         end) st;
  service_ok : forall d h d', ok d -> tree (d_id d) h = inl d' -> ok d'
}.
End Service.
Arguments service_lookup {_ _ _ _ _ _ _ _ _} _ _ _ _ _ _ _.
Arguments service_ok {_ _ _ _ _ _ _ _ _} _ _ _ _ _.

(** ** Splitting as the loop does *)

Lemma split_cons s : exists x l, split s = x :: l.
Proof.
  induction s as [|c s (x & l & IH)]; cbn; [eauto|]. destruct (c =? slash); [eauto|].
  rewrite IH. eauto.
Qed.

Lemma split_no_slash s : slash ∉ s -> split s = [s].
Proof.
  induction s as [|c s IH]; [done|]. intros [Hc Hs]%not_elem_of_cons. cbn.
  rewrite IH by done. by rewrite (proj2 (Z.eqb_neq _ _)) by congruence.
Qed.

Lemma split_slash a b : slash ∉ a -> split (a ++ slash :: b) = a :: split b.
Proof.
  induction a as [|c a IH]; intros Ha; [done|]. apply not_elem_of_cons in Ha as [Hc Ha]. cbn.
  rewrite (proj2 (Z.eqb_neq _ _)) by congruence. by rewrite IH.
Qed.

Lemma dir_names_slash a b :
  slash ∉ a -> dir_names (a ++ slash :: b) = (if decide (a = []) then [] else [a]) ++ dir_names b.
Proof.
  intros Ha. unfold dir_names. rewrite split_slash by done.
  destruct (split_cons b) as (x & l & E). rewrite E.
  change (removelast (a :: x :: l)) with (a :: removelast (x :: l)). rewrite filter_cons.
  repeat case_decide; (done || congruence).
Qed.

Lemma last_name_slash a b : slash ∉ a -> last_name (a ++ slash :: b) = last_name b.
Proof.
  intros Ha. unfold last_name. rewrite split_slash by done.
  by destruct (split_cons b) as (x & l & ->).
Qed.

Lemma names_no_slash s : slash ∉ s -> dir_names s = [] /\ last_name s = s.
Proof. intros Hs. unfold dir_names, last_name. by rewrite split_no_slash. Qed.

Lemma strchr_None s c : 0 ∉ s -> strchr s c = None -> c ∉ s.
Proof.
  induction s as [|b s IH]; intros H0 E; [apply not_elem_of_nil|]. cbn in E.
  apply not_elem_of_cons in H0 as [Hb H0]. destruct (Z.eqb_spec b c); [done|].
  destruct (Z.eqb_spec b 0); [congruence|]. apply not_elem_of_cons. split; [congruence|].
  apply IH; [done|]. by destruct (strchr s c).
Qed.

(** ** The refinement *)

Section Refines.
Context `{XXHash} {St : Type} (o : MDSCliOptions) (factory : Z -> MDS St) (fuel : nat).
Context (I : CLI (St := St) -> Prop) (ok : Dir -> Prop) (tree : Tree).
Context `{!LookupService o factory fuel I ok tree}.
Context (root : Dir) (Hroot : ok root).

(** An element of [parents]: the entry of the directory [s] leads to. *)
Definition frame_ok (s : Stack) (i : PathInfo) : Prop :=
  p_nhash i = [] /\
  match s with
  | [] => info_dir i = root
  | (nm, _) :: s' => info_dir i = cur root s' /\ p_name i = nm
  end.

Record Rel (ph : Phase) (w : Walk) (s : Stack) : Prop := {
  rel_dir : info_dir (w_result w) = cur root s;
  rel_hash : p_nhash (w_result w) = [];
  rel_depth : w_depth w = zlen s;
  rel_zero : exists i, w_parents w !! 0%nat = Some i /\ frame_ok [] i;
  rel_frames : ph <> Misplaced -> forall s', s' `suffix_of` s ->
    exists i, w_parents w !! S (length s') = Some i /\ frame_ok s' i;
  rel_clean : ph = Clean -> length (w_parents w) = (length s + 2)%nat;
  rel_ok : Forall (fun x => ok x.2) s
}.

Lemma cur_ok s : Forall (fun x => ok x.2) s -> ok (cur root s).
Proof. intros Hs. destruct s as [|[nm d] s]; [done|]. by apply Forall_cons in Hs as [? _]. Qed.

Lemma Rel_searchable ph w s : Rel ph w s -> IsLookupOk o (w_result w) = searchable o (cur root s).
Proof. intros [<- _ _ _ _ _ _]. done. Qed.

Lemma pred_depth_tail (s : Stack) : pred_depth (zlen s) = zlen (tail s).
Proof. destruct s as [|x s]; [done|]. unfold pred_depth, zlen. cbn [length tail]. cmp_cases; lia. Qed.

Lemma tail_suffix {A} (s : list A) : tail s `suffix_of` s.
Proof. destruct s as [|x s]; [done|]. by exists [x]. Qed.

Lemma suffix_cons_cases {A} (s' s : list A) x :
  s' `suffix_of` x :: s -> s' = x :: s \/ s' `suffix_of` s.
Proof. destruct s'; [intros; right; apply suffix_nil|apply suffix_cons_inv]. Qed.

(** The entry above the current directory, whose directory is the parent. *)
Lemma frame_cur s i : frame_ok s i -> info_dir i = cur root (tail s) /\ p_nhash i = [].
Proof. intros [? Hf]. destruct s as [|[nm d] s]; cbn; [by split|]. by destruct Hf. Qed.

Lemma resolve_lookup nm w st :
  nm <> dotdot -> nm <> dot -> IsLookupOk o (w_result w) = true ->
  DELTAFS_DIR_IS_PLFS_STYLE (p_mode (w_result w)) = false ->
  resolve_name o factory fuel nm w st
  = bind (look_dir o factory fuel (info_dir (w_result w)) nm (w_due w)) (fun stat =>
      ret (mkWalk (w_input w) (set_dir (set_name (w_result w) nm) stat)
             (w_parents w ++ [set_name (w_result w) nm]) (w_depth w + 1)
             (Z.min (w_due w) (LeaseDue stat)))) st.
Proof.
  intros H1 H2 H3 H4. unfold resolve_name. rewrite H3, H4. cbn [negb].
  rewrite !decide_False by done. unfold look_dir, bind.
  cbn [p_pid p_zserver set_name info_dir d_id d_zserver].
  match goal with |- context [Lookup ?a ?b ?c ?d ?e ?f ?g st] =>
    destruct (Lookup a b c d e f g st) as [[lh|e'|f'] st'] end; [|done|done].
  unfold bind. destruct (lookup_value lh st') as [[v|e|f] st2]; [|done|done].
  by destruct (release_lookup lh st2) as [[[]|e|f] st3].
Qed.

Lemma resolve_name_refines nm ph w s p' st :
  nm <> [] -> Rel ph w s -> I st -> safe_step nm (ph, length s) = Some p' ->
  wp (resolve_name o factory fuel nm w)
    (fun r st' => I st' /\
       match r with
       | Ret w' => exists s', walk_name o tree root nm s = inl s' /\ Rel p'.1 w' s' /\
           p'.2 = length s' /\ w_input w' = w_input w
       | Fail e => walk_name o tree root nm s = inr e
       | Abort _ => False
       end) st.
Proof.
  intros Hne HR HI Hs. pose proof (Rel_searchable _ _ _ HR) as Hsr. pose proof HR as [Rd Rh Rp Rz Rf Rc Ro].
  assert (Hm : p_mode (w_result w) = d_mode (cur root s)) by (by rewrite <- Rd).
  unfold walk_name. destruct (searchable o (cur root s)) eqn:Es; cycle 1.
  { unfold resolve_name. rewrite Hsr. done. }
  destruct (decide (nm = dotdot)) as [->|Hdd].
  { unfold safe_step in Hs. rewrite decide_True in Hs by done.
    assert (Hph : ph <> Misplaced) by (by intros ->).
    destruct (Rf Hph s ltac:(done)) as (i & Hi & Hfi). unfold resolve_name. rewrite Hsr. cbn [negb].
    rewrite decide_True by done. apply wp_bind, parent_at_spec.
    { apply lookup_lt_Some in Hi. unfold zlen in *. lia. }
    intros i' Hi'. replace (Z.to_nat (w_depth w + 1)) with (S (length s)) in Hi'
      by (rewrite Rp; unfold zlen; lia). assert (i' = i) as -> by congruence.
    apply wp_ret. split; [done|]. exists (tail s). destruct (frame_cur s i Hfi) as [Fd Fh].
    split_and!; [done| |by destruct s, ph; cbn in Hs; simplify_eq|done].
    split; cbn; try done.
    - by rewrite Rp, pred_depth_tail.
    - intros _ s' Hs'. apply Rf; [done|]. etrans; [exact Hs'|apply tail_suffix].
    - intros Hc. destruct ph, s as [|x s]; cbn in Hs; simplify_eq; try done. by rewrite Rc.
    - destruct s; [done|]. by apply Forall_cons in Ro as [_ ?]. }
  destruct (decide (nm = dot)) as [->|Hd].
  { unfold resolve_name. rewrite Hsr. cbn [negb]. rewrite decide_False, decide_True by done.
    unfold safe_step in Hs. rewrite decide_False, decide_True in Hs by done. injection Hs as <-.
    apply wp_ret. split; [done|]. by exists s. }
  destruct (DELTAFS_DIR_IS_PLFS_STYLE (d_mode (cur root s))) eqn:Ep.
  { unfold resolve_name. rewrite Hsr. cbn [negb]. rewrite !decide_False by done. by rewrite Hm, Ep. }
  unfold wp. rewrite resolve_lookup by (rewrite ?Hm; done). rewrite Rd.
  apply wp_bind. eapply wp_mono; [apply (service_lookup (cur root s) nm (w_due w) st HI); [by apply cur_ok|done]|].
  intros [v|e|f] st' [HI' Ht]; [|split; [done|by rewrite Ht]|done].
  apply wp_ret. split; [done|]. rewrite Ht. exists ((nm, dir_of v) :: s). split; [done|].
  unfold safe_step in Hs. rewrite !decide_False in Hs by done. injection Hs as <-. cbn [fst snd].
  split_and!; [|done|done]. split; cbn; try done.
  - by rewrite Rp, zlen_cons, Z.add_comm.
  - destruct Rz as (i & Hi & Hf). exists i. split; [|done]. by apply lookup_app_l_Some.
  - intros Hph s' Hs'. assert (ph = Clean) as -> by (by destruct ph).
    apply suffix_cons_cases in Hs' as [->|Hs'].
    + exists (set_name (w_result w) nm). split; [|by split].
      cbn [length]. rewrite lookup_app_r by (rewrite Rc by done; lia).
      rewrite Rc by done. by replace (S (S (length s)) - (length s + 2))%nat with 0%nat by lia.
    + destruct (Rf ltac:(done) s' Hs') as (i & Hi & Hf). exists i. split; [|done].
      by apply lookup_app_l_Some.
  - intros Hph. assert (ph = Clean) as -> by (by destruct ph). rewrite length_app, Rc by done. cbn. lia.
  - apply Forall_cons. split; [|done]. cbn. eapply service_ok; [by apply cur_ok|exact Ht].
Qed.

Lemma ends_with_slash_suffix a b : ends_with_slash (a ++ slash :: b) = false ->
  b <> [] /\ ends_with_slash b = false.
Proof.
  unfold ends_with_slash. rewrite !bool_decide_eq_false, last_app, last_cons. intros Hl.
  destruct (last b) as [x|] eqn:E; [|done]. split; [by intros ->|congruence].
Qed.

Lemma resolve_loop_refines path n : forall w s ph p' st,
  (length (w_input w) <= n)%nat -> Rel ph w s -> I st -> 0 ∉ w_input w ->
  ends_with_slash (w_input w) = false -> (w_input w = [] -> s = []) ->
  safe_walk (dir_names (w_input w)) (ph, length s) = Some p' ->
  let '(r, _, st') := resolve_loop o factory fuel n path w st in
  I st' /\
  match r with
  | Ret w' => exists s', walk o tree root (dir_names (w_input w)) s = inl s' /\ Rel p'.1 w' s' /\
      w_input w' = last_name (w_input w) /\ (w_input w' = [] -> s' = [])
  | Fail e => walk o tree root (dir_names (w_input w)) s = inr e
  | Abort _ => False
  end.
Proof.
  induction n as [|n IH]; intros w s ph p' st Hn HR HI H0 He Hnil Hs; cbn [resolve_loop];
    destruct (strchr (w_input w) slash) as [k|] eqn:Ek.
  - destruct (w_input w); [done|cbn in Hn; lia].
  - destruct (names_no_slash _ (strchr_None _ _ H0 Ek)) as [Ed El]. rewrite Ed in Hs |- *.
    injection Hs as <-. split; [done|]. exists s. by split_and!.
  - destruct (strchr_spec _ _ _ Ek) as [Ei Hsl]. set (nm := take k (w_input w)) in *.
    set (rest := drop (S k) (w_input w)) in *. rewrite Ei in H0, He.
    apply ends_with_slash_suffix in He as [Hrest He].
    apply not_elem_of_app in H0 as [_ [_ H0]%not_elem_of_cons].
    assert (Hl : (length rest <= n)%nat) by (rewrite Ei, length_app in Hn; cbn in Hn; lia).
    rewrite Ei, dir_names_slash, last_name_slash by done.
    rewrite Ei, dir_names_slash in Hs by done.
    assert (HR1 : Rel ph (set_input w rest) s) by (by destruct HR).
    destruct (decide (nm = [])) as [Enm|Hnm]; cbn [app walk safe_walk] in *.
    { by apply (IH (set_input w rest) s ph p' st). }
    destruct (safe_step nm (ph, length s)) as [[ph1 d1]|] eqn:Est; [|done].
    pose proof (resolve_name_refines nm ph (set_input w rest) s (ph1, d1) st Hnm HR1 HI Est) as Hw.
    unfold wp in Hw.
    destruct (resolve_name o factory fuel nm (set_input w rest) st) as [[w2|e|f] st2];
      destruct Hw as [HI2 Hw]; [|split; [done|by rewrite Hw]|done].
    destruct Hw as (s2 & Ew & HR2 & Ed & Ein). rewrite Ew. cbn in Ed, Ein. subst d1.
    pose proof (IH w2 s2 ph1 p' st2) as HI3. rewrite Ein in HI3. by apply HI3.
  - destruct (names_no_slash _ (strchr_None _ _ H0 Ek)) as [Ed El]. rewrite Ed in Hs |- *.
    injection Hs as <-. split; [done|]. exists s. by split_and!.
Qed.

(** A [PathInfo] describes a target. *)
Definition describes (i : PathInfo) (t : Target) : Prop :=
  match t with
  | TRoot d => p_depth i = 0 /\ info_dir i = d
  | TEntry d nm depth => p_depth i = depth /\ info_dir i = d /\ p_name i = nm
  end.

(** The name hash: only a last component that is a name gets one. *)
Definition last_hash (nm : bytes) : bytes :=
  if decide (nm = [] \/ nm = dot \/ nm = dotdot) then [] else PutHash nm.

Lemma frame_describes s i due : frame_ok s i -> describes (finish_info i due (zlen s)) (entry_of root s).
Proof. intros [_ Hf]. destruct s as [|[nm d] s]; [done|]. by destruct Hf. Qed.

Lemma resolve_last_refines ph w s st :
  Rel ph w s -> I st -> (w_input w = [] -> s = []) ->
  (ph = Misplaced -> w_input w <> dot /\ w_input w <> dotdot) ->
  wp (resolve_last o w)
    (fun r st' => I st' /\
       match r with
       | Ret i => (exists t, target_of o root (w_input w) s = inl t /\ describes i t) /\
           p_nhash i = last_hash (w_input w)
       | Fail e => target_of o root (w_input w) s = inr e
       | Abort _ => False
       end) st.
Proof.
  intros HR HI Hnil Hmis. pose proof (Rel_searchable _ _ _ HR) as Hsr.
  destruct HR as [Rd Rh Rp Rz Rf Rc Ro]. unfold resolve_last, target_of, last_hash.
  destruct (decide (w_input w = [])) as [E|E].
  { rewrite decide_True by auto. apply wp_ret. split; [done|]. rewrite (Hnil E) in *. split; [|done].
    eexists. split; [done|]. by split. }
  rewrite Hsr. destruct (searchable o (cur root s)); [|done]. cbn [negb].
  destruct (decide (w_input w = dotdot)) as [Ed|Ed].
  { rewrite (decide_True (P := _ \/ _)) by auto.
    assert (Hph : ph <> Misplaced) by (intros ->; by destruct (Hmis eq_refl)).
    assert (exists i, w_parents w !! length s = Some i /\ frame_ok (tail s) i) as (i & Hi & Hf).
    { destruct s as [|x s']; [exact Rz|]. apply (Rf Hph). by exists [x]. }
    apply wp_bind, parent_at_spec; rewrite Rp.
    { apply lookup_lt_Some in Hi. unfold zlen. lia. }
    intros i' Hi'. unfold zlen in Hi'. rewrite Nat2Z.id in Hi'. assert (i' = i) as -> by congruence.
    apply wp_ret. split; [done|]. split; [|apply Hf]. eexists. split; [done|].
    rewrite pred_depth_tail. by apply frame_describes. }
  destruct (decide (w_input w = dot)) as [Eo|Eo].
  { rewrite (decide_True (P := _ \/ _)) by auto.
    assert (Hph : ph <> Misplaced) by (intros ->; by destruct (Hmis eq_refl)).
    destruct (Rf Hph s ltac:(done)) as (i & Hi & Hf).
    apply wp_bind, parent_at_spec; rewrite Rp.
    { apply lookup_lt_Some in Hi. unfold zlen. lia. }
    intros i' Hi'. replace (Z.to_nat (zlen s + 1)) with (S (length s)) in Hi' by (unfold zlen; lia).
    assert (i' = i) as -> by congruence.
    apply wp_ret. split; [done|]. split; [|apply Hf]. eexists. split; [done|].
    by apply frame_describes. }
  rewrite decide_False by naive_solver. apply wp_ret. split; [done|]. split; [|done].
  eexists. split; [done|]. split_and!; cbn; [by rewrite Rp|done|done].
Qed.

End Refines.

Section Main.
Context `{XXHash} {St : Type} (o : MDSCliOptions) (factory : Z -> MDS St) (fuel : nat).

(** What a resolution ends with, against the reference. *)
Definition resolved (tree : Tree) (at_ : option Fentry) (path : bytes) (r : Res PathInfo) : Prop :=
  let root := info_dir (start_info at_) in
  match r with
  | Ret i => (exists t, resolve_ref o tree root (tail path) = inl t /\ describes i t) /\
             p_nhash i = last_hash (last_name (tail path))
  | Fail e => resolve_ref o tree root (tail path) = inr e
  | Abort _ => False
  end.

(** [ResolvePath] on top of the interface. *)
Lemma ResolvePath_refines (I : CLI (St := St) -> Prop) (ok : Dir -> Prop) (tree : Tree) path at_ st :
  LookupService o factory fuel I ok tree -> ok (info_dir (start_info at_)) ->
  I st -> path_ok path = true -> 0 ∉ path -> dots_safe (tail path) = true ->
  let '(r, _, st') := ResolvePath o factory fuel path at_ st in
  I st' /\ resolved tree at_ path r.
Proof.
  intros LS Hok HI Hp H0 Hsafe. destruct path as [|c inp]; [done|].
  unfold resolved. cbn zeta. set (root := info_dir (start_info at_)) in *. cbn [tail] in *. cbn in Hp. apply andb_prop in Hp as [Hc He]. apply negb_true_iff in He.
  apply not_elem_of_cons in H0 as [_ H0]. unfold ResolvePath. rewrite Hc, He. cbn [negb].
  set (w := mkWalk inp _ _ _ _).
  assert (HF : frame_ok root [] (start_info at_)) by (by destruct at_).
  assert (HR : Rel ok root Clean w []).
  { split; cbn; try done; [by destruct at_|by eexists|]. intros _ s' Hs'.
    apply suffix_nil_inv in Hs' as ->. by eexists. }
  unfold dots_safe in Hsafe.
  destruct (safe_walk (dir_names inp) (Clean, 0%nat)) as [p'|] eqn:Es; [|done].
  pose proof (resolve_loop_refines o factory fuel I ok tree root Hok (c :: inp) (length inp) w [] Clean p' st
    ltac:(done) HR HI H0 He ltac:(done) Es) as Hl.
  unfold resolve_ref. change (w_input w) with inp in Hl.
  destruct (resolve_loop o factory fuel (length inp) (c :: inp) w st) as [[[w'|e|f] m] st'];
    destruct Hl as [HI' Hl]; [|by rewrite Hl|done].
  destruct Hl as (s' & -> & HR' & Ei & Hnil).
  pose proof (resolve_last_refines o I ok root p'.1 w' s' st' HR' HI' Hnil) as Hr.
  unfold wp in Hr. rewrite Ei in Hr. destruct (resolve_last o w' st') as [r st2]. apply Hr.
  intros Em. destruct p' as [ph d]. cbn in Em. subst ph. apply negb_true_iff, orb_false_elim in Hsafe as [H1 H2].
  by apply bool_decide_eq_false in H1, H2.
Qed.

End Main.
