(* ===== verification/MdsHonest.v ===== *)
(** * Lookups through the caches

    The client's [Lookup], with its cache of leased lookup states and its cache
    of directory indices, implements the interface [LookupService] of [MdsPath]
    in front of servers that all answer for one directory tree and one index per
    directory, each for the names the index routes to it. *)
From S2P Require Import Prelude Coding Status FsTypes Gigaplus Lru Tables MdsApi MdsCli MdsCliInv.
From S2P Require Import MdsPath XXHashImpl.
Import CLI.

Section Honest.
Context `{XXHash} {St : Type} (o : MDSCliOptions) (factory : Z -> MDS St) (fuel : nat).
Context (W : St -> Prop) (ok : Dir -> Prop) (index_of : DirId -> Rep) (tree : Tree).

(** The servers, while their state satisfies [W], answer for [index_of] and
    [tree] on the directories [ok]. *)
Class Honest : Prop := {
  honest_dir : forall d, ok d -> DirId_wf (d_id d) /\ RepWf (index_of (d_id d)) /\
    zeroth_server (index_of (d_id d)) = d_zserver d /\
    2 ^ radix (index_of (d_id d)) <= num_virtual_servers o;
  honest_child : forall d h d', ok d -> tree (d_id d) h = inl d' -> ok d';
  honest_readidx : forall d w, W w -> ok d ->
    exists w', call_Readidx (factory (Z.rem (d_zserver d) (num_servers o)))
                 (base_options o (d_id d) DELTAFS_MAX_MICROS [] []) w
               = (Done (Ok (Encode (index_of (d_id d)))), w') /\ W w';
  honest_lookup : forall d nm due w, W w -> ok d -> nm <> [] ->
    exists out w',
      call_Lookup (factory (HashToServer (giga_ o) (index_of (d_id d)) (PutHash nm)))
        (lookup_options o (d_id d) nm due) w = (Done out, w') /\ W w' /\
      match out with
      | Ok v => tree (d_id d) (PutHash nm) = inl (dir_of v) /\ S_ISDIR (L_DirMode v) = true
      | Error e => e <> kTryAgain /\ tree (d_id d) (PutHash nm) = inr e
      | Redirected _ => False
      end
}.

Context `{!Honest} (Hns : 0 < num_servers o) (Hfuel : (0 < fuel)%nat).

(** ** What the caches hold is what the servers have *)

Definition same_index (r r' : Rep) : Prop :=
  RepWf r /\ zeroth_server r = zeroth_server r' /\ forall i, 0 <= i -> Gigaplus.bit r i = Gigaplus.bit r' i.

Record HInv (hi hl : list nat) (st : CLI (St := St)) : Prop := {
  h_inv : Inv o factory hi hl st;
  h_world : W (world st);
  h_index : forall h key r, kvs (index_cache_ st) !! h = Some (key, r) ->
    forall d, ok d -> key = IndexCache.LRUKey (d_id d) -> same_index r (index_of (d_id d));
  h_lookup : forall h key v, kvs (lookup_cache_ st) !! h = Some (key, v) ->
    forall d hash, ok d -> key = LookupCache.LRUKey (d_id d) hash ->
    tree (d_id d) hash = inl (dir_of v)
}.

Lemma same_index_server r r' hash :
  RepWf r' -> same_index r r' -> HashToServer (giga_ o) r hash = HashToServer (giga_ o) r' hash.
Proof.
  intros Hw (Hr & Hz & Hb). unfold HashToServer, GetServerForIndex.
  by rewrite Hz, (HashToIndex_ext r r' hash).
Qed.

Lemma same_index_assert r r' hash :
  RepWf r' -> same_index r r' -> 2 ^ radix r' <= num_virtual_servers o ->
  HashToIndex_assert (giga_ o) r hash = true.
Proof.
  intros Hw (Hr & Hz & Hb) Hf. apply HashToIndex_assert_ok; [done|]. by rewrite (radix_ext r r').
Qed.

Lemma h_release hi hl st h : HInv (h :: hi) hl st -> HInv hi hl (release_index h st).
Proof.
  intros [H1 H2 H3 H4]. split; [by apply release_index_spec|done| |done].
  intros h' key r Hk. apply (H3 h'). unfold release_index, IndexCache.Release in Hk.
  destruct (Lru.Release (index_cache_ st) h) as [t d] eqn:E.
  destruct (sys_release _ [] _ _ _ _ (inv_indices _ _ _ _ _ H1) E) as [_ Hs].
  eapply lookup_weaken; [exact Hk|exact Hs].
Qed.

(** ** Fetching the index *)

Lemma insert_index_honest id idx hi hl st d :
  HInv hi hl st -> ok d -> id = d_id d -> same_index idx (index_of id) -> IndexOk o factory idx ->
  wp (insert_index id idx)
    (fun r st' => exists h, r = Ret h /\ HInv (h :: hi) hl st' /\
       kvs (index_cache_ st') !! h = Some (IndexCache.LRUKey id, idx)) st.
Proof.
  intros [H1 H2 H3 H4] Hd -> Hs Hz.
  pose proof (insert_index_spec o factory (d_id d) idx hi hl st H1 Hz) as HI.
  unfold wp, insert_index, IndexCache.Insert in *.
  destruct (Lru.Insert (index_cache_ st) (IndexCache.LRUKey (d_id d)) idx 1) as [[h t] dead] eqn:E.
  cbn [fst] in *. destruct HI as [HI _].
  destruct (sys_insert _ _ _ _ _ _ _ (inv_indices _ _ _ _ _ H1) E) as (_ & _ & Hh & Hsub).
  exists h. split_and!; [done| |exact Hh]. split; [done|done| |done].
  intros h' key r Hk d' Hd' ->. eapply lookup_weaken in Hk; [|exact Hsub].
  apply lookup_insert_Some in Hk as [[_ [= Ek <-]]|[_ Hk]]; [|by eapply H3].
  apply dir_key_inj in Ek as <-; [done|by apply (honest_dir)..].
Qed.

Lemma FetchIndex_honest d hi hl st :
  HInv hi hl st -> ok d ->
  wp (FetchIndex o factory (d_id d) (d_zserver d))
    (fun r st' => exists h idx, r = Ret h /\ HInv (h :: hi) hl st' /\
       kvs (index_cache_ st') !! h = Some (IndexCache.LRUKey (d_id d), idx) /\
       lookup_cache_ st' = lookup_cache_ st) st.
Proof.
  intros HH Hd. pose proof HH as [H1 H2 H3 H4]. destruct (honest_dir d Hd) as (Hw & Hr & Hz & Hfit).
  unfold FetchIndex, wp, bind at 1, lookup_index, IndexCache.Lookup.
  destruct (Lru.Lookup (index_cache_ st) (IndexCache.LRUKey (d_id d))) as [[h|] t] eqn:E.
  - destruct (sys_lookup_hit _ _ _ _ _ (inv_indices _ _ _ _ _ H1) E) as (Hs & Hk & v & Hv).
    exists h, v. rewrite <- Hk in Hv. split_and!; [done| |done|done].
    pose proof (lookup_index_spec o factory (d_id d) hi hl st H1) as HL. unfold wp, lookup_index, IndexCache.Lookup in HL.
    rewrite E in HL. split; [by apply HL|done| |done]. cbn. rewrite Hk. exact H3.
  - apply sys_lookup_miss in E as [-> _]. unfold assert_, bind at 1.
    assert (0 <= d_zserver d) as Hz0 by (rewrite <- Hz; apply Hr).
    rewrite (proj2 (Z.leb_le _ _)) by done. cbn [ret].
    destruct (honest_readidx d (world st) H2 Hd) as (w' & Ew & Hw').
    unfold bind, call. cbn [world set_indices]. rewrite Ew. unfold giga_assert.
    rewrite (Update_assert_good o (DirIndex_empty (giga_ o)) _ (conj Hr Hfit) I). cbn [ret].
    destruct (Update_empty_spec (giga_ o) (index_of (d_id d)) Hr) as (r' & EU & Hr' & Hz' & Hb).
    rewrite EU.
    rewrite Hz', Hz, Z.eqb_refl. cbn [negb].
    assert (HH2 : HInv hi hl (set_world (set_indices st (index_cache_ st)) w')) by (split; [by destruct H1|done..]).
    pose proof (insert_index_honest (d_id d) r' hi hl _ d HH2 Hd eq_refl) as Hi.
    unfold wp, insert_index in Hi |- *.
    destruct (IndexCache.Insert _ (d_id d) r') as [h t].
    destruct Hi as (h' & [= <-] & Hi & Hk); [by split_and!| |by exists h, r'].
    split; [apply Hr'|]. intros _. eapply (Update_good o _ _ _ _ _ (conj Hr Hfit) eq_refl EU); done.
Qed.

Lemma with_index_honest {A} d hi hl hl' (P : Res A -> CLI -> Prop) (k : Rep -> M A) st :
  HInv hi hl st -> ok d -> (forall r h st, P r st -> P r (release_index h st)) ->
  (forall h idx st', HInv (h :: hi) hl st' -> same_index idx (index_of (d_id d)) ->
     wp (k idx) (fun r st'' => HInv (h :: hi) (hl' r) st'' /\ P r st'') st') ->
  wp (with_index o factory (d_id d) (d_zserver d) k) (fun r st' => HInv hi (hl' r) st' /\ P r st') st.
Proof.
  intros HH Hd HP Hk. unfold with_index. apply wp_bind.
  eapply wp_mono; [by apply FetchIndex_honest|]. intros r st1 (h & idx & -> & HH1 & Hi & _).
  assert (Hs : same_index idx (index_of (d_id d))) by (by eapply h_index).
  unfold wp, bind, index_value, IndexCache.Value. unfold kvs in Hi. rewrite lookup_fmap in Hi.
  destruct (heap (index_cache_ st1) !! h) as [e|]; [|done]. cbn in *. simplify_eq.
  specialize (Hk h (e_value e) st1 HH1 Hs). unfold wp in Hk. destruct (k (e_value e) st1) as [r st2].
  destruct Hk. split; [by apply h_release|by apply HP].
Qed.

(** ** The lookup *)

(** What the tree has for a name. *)
Definition finds (d : Dir) (nm : bytes) (r : Res LookupStat) : Prop :=
  match r with
  | Ret v => tree (d_id d) (PutHash nm) = inl (dir_of v)
  | Fail e => tree (d_id d) (PutHash nm) = inr e
  | Abort _ => False
  end.

Lemma _Lookup_honest d nm due idx hi hl st :
  HInv hi hl st -> ok d -> nm <> [] -> same_index idx (index_of (d_id d)) ->
  wp (_Lookup o factory fuel (lookup_options o (d_id d) nm due) idx)
    (fun r st' => HInv hi hl st' /\ finds d nm r) st.
Proof.
  intros [H1 H2 H3 H4] Hd Hn Hs. destruct (honest_dir d Hd) as (_ & Hr & _ & Hfit).
  unfold wp, _Lookup, send. destruct fuel as [|f]; [lia|]. cbn [redirects default name_hash].
  change (name_hash (lookup_options o (d_id d) nm due)) with (PutHash nm).
  rewrite (same_index_server _ _ _ Hr Hs), (same_index_assert _ _ _ Hr Hs Hfit). cbn [negb].
  pose proof (GetServerForIndex_range (giga_ o) (index_of (d_id d)) (HashToIndex (index_of (d_id d)) (PutHash nm))
    Hns ltac:(apply Hr) (HashToIndex_nonneg _ _)) as Hg. cbn [giga_ Gigaplus.num_servers] in Hg.
  fold (HashToServer (giga_ o) (index_of (d_id d)) (PutHash nm)) in Hg.
  rewrite (proj2 (Z.leb_le _ _)), (proj2 (Z.ltb_lt _ _)) by apply Hg. cbn [andb negb].
  destruct (honest_lookup d nm due (world st) H2 Hd Hn) as (out & w' & -> & Hw' & Ho).
  assert (HI' : HInv hi hl (set_world st w')) by (split; [by destruct H1|done..]).
  destruct out as [v|e|re]; [| |done].
  - destruct Ho as [Ho Hdir]. cbn. rewrite Hdir, andb_false_r. by split.
  - destruct Ho as [Hne Ho]. unfold IsTryAgain. rewrite bool_decide_false by done. by split.
Qed.

Lemma insert_lookup_honest d nm v hi hl st :
  HInv hi hl st -> ok d -> tree (d_id d) (PutHash nm) = inl (dir_of v) ->
  wp (insert_lookup (d_id d) (PutHash nm) v)
    (fun r st' => exists h, r = Ret h /\ HInv hi (h :: hl) st' /\
       LookupCache.Value (lookup_cache_ st') h = Some v) st.
Proof.
  intros [H1 H2 H3 H4] Hd Ht.
  pose proof (insert_lookup_spec o factory (d_id d) (PutHash nm) v hi hl st H1) as HI.
  unfold wp, insert_lookup, LookupCache.Insert, LookupCache.Erase in *.
  destruct (Lru.Insert (lookup_cache_ st) _ v 1) as [[h t] dead] eqn:E. cbn [fst] in *.
  destruct (sys_insert _ _ _ _ _ _ _ (inv_lookups _ _ _ _ _ H1) E) as (Hsys & _ & _ & Hsub).
  exists h. split_and!; [done| |apply HI]. split; [apply HI|done|done|].
  intros h' key v' Hk d' hash Hd' ->. cbn in Hk.
  assert (Hk' : kvs t !! h' = Some (LookupCache.LRUKey (d_id d') hash, v')).
  { destruct (LeaseDue v =? 0); [|done].
    destruct (Lru.Erase t _) as [t' dead'] eqn:Ee. destruct (sys_erase _ _ _ _ _ Hsys Ee) as [_ Hs2].
    eapply lookup_weaken; [exact Hk|exact Hs2]. }
  eapply lookup_weaken in Hk'; [|exact Hsub].
  apply lookup_insert_Some in Hk' as [[_ [= Ek <-]]|[_ Hk']]; [|by eapply H4].
  apply name_key_inj in Ek as [<- <-]; [done|by apply honest_dir..].
Qed.

Lemma Lookup_honest d nm due hi hl st :
  HInv hi hl st -> ok d -> nm <> [] ->
  wp (Lookup o factory fuel (d_id d) nm (d_zserver d) due)
    (fun r st' => match r with
       | Ret h => exists hl' v, HInv hi (h :: hl') st' /\
           LookupCache.Value (lookup_cache_ st') h = Some v /\ finds d nm (Ret v)
       | Fail e => (exists hl', HInv hi hl' st') /\ finds d nm (Fail e)
       | Abort _ => False
       end) st.
Proof.
  intros HH Hd Hn. pose proof HH as [H1 H2 H3 H4]. unfold wp, Lookup, CurrentMicros. cbn zeta.
  set (now := u64 _). set (st1 := mkCLI _ _ _ _ _).
  assert (HH1 : HInv hi hl st1) by (split; [by apply tick_inv|done..]).
  destruct (LookupCache.Lookup (lookup_cache_ st1) (d_id d) (PutHash nm)) as [h t] eqn:E.
  assert (exists hl1, HInv hi hl1 (set_lookups st1 t) /\
    forall h', usable t now h = Some h' -> (exists hl2, hl1 = h' :: hl2) /\
      exists v, LookupCache.Value t h' = Some v /\ finds d nm (Ret v)) as (hl1 & HH2 & Hu).
  { destruct h as [h|].
    - exists (h :: hl). destruct (sys_lookup_hit _ _ _ _ _ (inv_lookups _ _ _ _ _ H1) E) as (_ & Hk & v & Hv).
      split.
      + split; [by eapply lookup_hit_inv; [apply HH1|]|done|done|]. cbn. rewrite Hk. exact H4.
      + intros h' Hu. unfold usable in Hu. destruct (LookupCache.Value t h) as [v'|] eqn:Ev; [|done].
        destruct (LeaseDue v' <? u64 (now + 10)); [done|]. injection Hu as <-.
        split; [by exists hl|]. exists v'. split; [done|]. cbn.
        rewrite <- Hk in Hv. unfold LookupCache.Value in Ev. unfold kvs in Hv. rewrite lookup_fmap in Hv.
        destruct (heap t !! h) as [e|] eqn:He; cbn in *; [|done]. simplify_eq.
        eapply (H4 h); [|exact Hd|reflexivity]. rewrite <- Hk. unfold kvs. rewrite lookup_fmap, He. cbn. congruence.
    - exists hl. apply sys_lookup_miss in E as [-> _]. by split. }
  destruct (usable t now h) as [h'|].
  { destruct (Hu h' eq_refl) as ([hl2 ->] & v & Hv & Hf). by exists hl2, v. }
  set (k := fun idx => _).
  pose proof (with_index_honest d hi hl1 (fun r => match r with Ret h => h :: hl1 | _ => hl1 end)
    (fun r st' => match r with
       | Ret h => exists v, LookupCache.Value (lookup_cache_ st') h = Some v /\ finds d nm (Ret v)
       | Fail e => finds d nm (Fail e)
       | Abort _ => False
       end) k (set_lookups st1 t) HH2 Hd ltac:(by intros [])) as Hw.
  unfold wp in Hw. change (base_options o _ _ _ _) with (lookup_options o (d_id d) nm due) in k.
  destruct (with_index o factory (d_id d) (d_zserver d) k (set_lookups st1 t)) as [r st3].
  destruct Hw as [HH3 Hf].
  { intros h2 idx st2 HH' Hs. apply wp_bind.
    eapply wp_mono; [by apply (_Lookup_honest d nm due idx (h2 :: hi) hl1 st2)|].
    intros [v|e|f] st4 [HH4 Hf]; [|by split|done].
    eapply wp_mono; [by apply (insert_lookup_honest d nm v (h2 :: hi) hl1 st4)|].
    intros r' st5 (h5 & -> & HH5 & Hv5). split; [done|]. by exists v. }
  destruct r as [h'|e|f]; [|split; [by exists hl1|done]|done].
  destruct Hf as (v & Hv & Hf). by exists hl1, v.
Qed.

(** ** The service *)

Definition Agree (st : CLI) : Prop := exists hl, HInv [] hl st.

#[export] Instance honest_service : LookupService o factory fuel Agree ok tree.
Proof.
  split; [|exact honest_child]. intros d nm due st [hl HH] Hd Hn. unfold look_dir.
  apply wp_bind. eapply wp_mono; [by apply (Lookup_honest d nm due [] hl st)|].
  intros [h|e|f] st1 Hr; [| |done]; [|destruct Hr as [[hl' HH'] Hf]; split; [by exists hl'|done]].
  destruct Hr as (hl' & v & HH1 & Hv & Hf). apply wp_bind.
  eapply wp_mono; [apply (lookup_value_spec o factory h [] hl' st1); apply HH1|].
  intros r st2 (-> & v' & -> & Hv'). assert (v' = v) as -> by congruence. apply wp_bind.
  pose proof (release_lookup_spec o factory h [] hl' st1 (h_inv _ _ _ HH1)) as Hrel.
  unfold wp, release_lookup, LookupCache.Release in Hrel |- *.
  destruct (Lru.Release (lookup_cache_ st1) h) as [t dead] eqn:E. destruct Hrel as [_ Hrel].
  split; [|done]. exists hl'. destruct HH1 as [H1 H2 H3 H4]. split; [done|done|done|].
  destruct (sys_release _ [] _ _ _ _ (inv_lookups _ _ _ _ _ H1) E) as [_ Hs].
  intros h' key v' Hk. apply (H4 h'). eapply lookup_weaken; [exact Hk|exact Hs].
Qed.

Lemma Agree_new now ts w :
  0 <= index_cache_size o -> 0 <= lookup_cache_size o -> W w -> Agree (CLI_new o now ts w).
Proof.
  intros Hi Hl Hw. exists []. split; [|done|..].
  - split; [by apply LRU_empty_inv..|]. intros h k r Hk. unfold kvs in Hk. by rewrite lookup_fmap in Hk.
  - intros h k r Hk. unfold kvs in Hk. by rewrite lookup_fmap in Hk.
  - intros h k r Hk. unfold kvs in Hk. by rewrite lookup_fmap in Hk.
Qed.

(** C12. Path resolution against the reference.  A client whose caches agree
    with the servers, as a new client's do, resolves any path whose [..] and [.]
    are in safe places to the target of the reference walk over the directory
    tree the servers answer for: the directory with its attributes, the name in
    it and its depth, with the hash of a name; or it fails with the error of
    that walk.  It never aborts, and its caches agree with the servers again. *)
Theorem path_resolution path at_ st :
  Agree st -> ok (info_dir (start_info at_)) -> path_ok path = true -> 0 ∉ path ->
  dots_safe (tail path) = true ->
  let '(r, _, st') := ResolvePath o factory fuel path at_ st in
  Agree st' /\ resolved o tree at_ path r.
Proof. intros. apply (ResolvePath_refines o factory fuel Agree ok tree); try done. apply honest_service. Qed.

End Honest.

(** ** A static tree: [/a], [/b] and [/b/c] *)

Module PathDemo.
#[local] Existing Instance pdlfs_xxhash.

Definition opts : MDSCliOptions := mkOptions 16 16 false false 20 1 1 0 1 1.
Definition stat (i : Z) : LookupStat := mkLookupStat 0 0 i 0 0x41ff 0 0 0.
Definition root : DirId := mkDirId 0 0 0.

(** The entries of the directories: names [a], [b], [c] are 97, 98, 99. *)
Definition entries : list (DirId * bytes * LookupStat) :=
  [(root, PutHash [97], stat 1); (root, PutHash [98], stat 2);
   (mkDirId 0 0 2, PutHash [99], stat 3)].
Fixpoint find_entry (l : list (DirId * bytes * LookupStat)) (id : DirId) (h : bytes)
  : option LookupStat :=
  match l with
  | [] => None
  | (id', h', s) :: l => if decide (id = id' /\ h = h') then Some s else find_entry l id h
  end.

Definition tree : Tree := fun id h =>
  match find_entry entries id h with Some s => inl (dir_of s) | None => inr kNotFound end.
Definition ok (d : Dir) : Prop :=
  d = info_dir (start_info None) \/ exists i, 1 <= i <= 3 /\ d = dir_of (stat i).

Definition server : MDS () :=
  let no {Q A} : Q -> () -> Run A * () := fun _ w => (Done (Error kNotSupported), w) in
  mkMDS no no no no no no no no no
    (fun b w => (Done (match find_entry entries (dir_id b) (name_hash b) with
                       | Some s => Ok s | None => Error kNotFound end), w))
    no (fun _ w => (Done (Ok (Encode (NewRep 0))), w)) no no no.

Lemma find_entry_stat id h s : find_entry entries id h = Some s -> exists i, 1 <= i <= 3 /\ s = stat i.
Proof.
  unfold entries. cbn [find_entry]. repeat case_decide; intros [= <-]; eexists; (split; [|reflexivity]); lia.
Qed.

#[export] Instance server_honest : Honest opts (fun _ => server) (fun _ => True) ok (fun _ => NewRep 0) tree.
Proof.
  split.
  - intros d Hd. split_and!.
    + destruct Hd as [->|(i & Hi & ->)]; repeat split; cbn; lia.
    + apply NewRep_wf.
    + destruct Hd as [->|(i & Hi & ->)]; done.
    + by vm_compute.
  - intros d h d' _. unfold tree. destruct (find_entry entries (d_id d) h) as [s|] eqn:E; [|done].
    intros [= <-]. right. destruct (find_entry_stat _ _ _ E) as (i & Hi & ->). by exists i.
  - intros d [] _ _. by exists tt.
  - intros d nm due [] _ _ _.
    exists (match find_entry entries (d_id d) (PutHash nm) with
            | Some s => Ok s | None => Error kNotFound end), tt.
    split; [done|]. split; [done|]. unfold tree.
    destruct (find_entry entries (d_id d) (PutHash nm)) as [s|] eqn:E; [|done].
    destruct (find_entry_stat _ _ _ E) as (i & Hi & ->). done.
Qed.

Definition client : CLI (St := ()) := CLI_new opts 1000 [] tt.

Lemma client_agrees : Agree (St := ()) opts (fun _ => server) (fun _ => True) ok (fun _ => NewRep 0) tree client.
Proof. by apply Agree_new. Qed.

(** [/a/../b/./c/x] is a name in the directory 3. *)
Definition path_x : bytes := [47;97;47;46;46;47;98;47;46;47;99;47;120].

Definition info_x : PathInfo :=
  mkPathInfo (mkDirId 0 0 3) (PutHash [120]) [120] 0 0 3 0x41ff 0 0.

Lemma path_x_runs : (ResolvePath opts (fun _ => server) 20 path_x None client).1.1 = Ret info_x.
Proof. by vm_compute. Qed.

Lemma path_resolution_witness :
  (ResolvePath opts (fun _ => server) 20 path_x None client).1.1 = Ret info_x /\
  resolved opts tree None path_x (Ret info_x).
Proof.
  split; [exact path_x_runs|].
  pose proof (path_resolution opts (fun _ => server) 20 (fun _ => True) ok (fun _ => NewRep 0) tree
    ltac:(done) ltac:(lia) path_x None client client_agrees ltac:(by left) eq_refl
    (bool_decide_eq_true_1 (0 ∉ path_x) eq_refl) eq_refl) as Hr.
  pose proof path_x_runs as E.
  destruct (ResolvePath opts (fun _ => server) 20 path_x None client) as [[r m] st'].
  cbn in E. subst r. apply Hr.
Defined.

(** The stack of parents is wrong after [a/../b/c]: [/a/../b/c/../x] is looked
    for in the root, not in [/b]. *)
Definition path_bad : bytes := [47;97;47;46;46;47;98;47;99;47;46;46;47;120].

Lemma dotdot_misplaced :
  resolve_ref opts tree (info_dir (start_info None)) (tail path_bad)
  = inl (TEntry (dir_of (stat 2)) [120] 2) /\
  exists i, (ResolvePath opts (fun _ => server) 20 path_bad None client).1.1 = Ret i /\
    p_pid i = root /\ p_name i = [120].
Proof. split; [by vm_compute|]. eexists. split; [vm_compute; reflexivity|]. by split. Qed.

(** A path that ends with [.] below the root gets no name hash. *)
Lemma trailing_dot_no_hash :
  exists i, (ResolvePath opts (fun _ => server) 20 [47;97;47;46] None client).1.1 = Ret i /\
    p_depth i = 1 /\ p_name i = [97] /\ p_nhash i = [].
Proof. eexists. split; [vm_compute; reflexivity|]. by split_and!. Qed.
End PathDemo.
