(* ===== verification/MdsRpc.v ===== *)
(** * Metadata operations over RPC (src/libdeltafs/mds_api.cc)

    [MDS::RPC::CLI] implements the [MDS] interface by sending messages to a
    stub; [MDS::RPC::SRV] answers messages with an implementation of [MDS].
    The transport between them is the stub: a parameter of the client.

    A message body is written into the 200-byte array [Message::buf]; what is
    sent from [extra_buf] is unbounded.  A release build ([kDebugRPC] false)
    encodes straight into [buf] and does not check its size: writing past its
    end is [Crash BufOverflow].  A debug build encodes into a string and
    returns [BufferFull] when it would not have fit. *)
From S2P Require Import Prelude Coding Status FsTypes MdsApi.

(** ** Messages *)

Record Message := mkMsg { op : Z; err : Z; contents : bytes }.

(** [sizeof(Message::buf)] *)
Definition kBufSize : Z := 200.

Definition Stub (St : Type) : Type := Message -> St -> (Crashed + (Status * Message)) * St.

(** ** Encodings of the requests *)

(** The fields of [BaseOptions]: the directory and the name come first, the
    session and the deadline after the fields of the operation. *)
Definition put_head (b : BaseOptions) : bytes :=
  EncodeId (dir_id b) ++ PutLengthPrefixedSlice (name_hash b) ++ PutLengthPrefixedSlice (name b).
Definition put_tail (b : BaseOptions) : bytes :=
  EncodeVarint32 (session_id b) ++ EncodeVarint64 (op_due b).

Definition put_Fstat (b : BaseOptions) : bytes := put_head b ++ put_tail b.
Definition put_Fcreat (q : FcreatOptions) : bytes :=
  put_head (fc_base q) ++ EncodeVarint32 (fc_flags q) ++ EncodeVarint32 (fc_mode q) ++
  EncodeVarint32 (fc_uid q) ++ EncodeVarint32 (fc_gid q) ++ put_tail (fc_base q).
Definition put_Mkdir (q : MkdirOptions) : bytes :=
  put_head (mk_base q) ++ EncodeVarint32 (mk_flags q) ++ EncodeVarint32 (mk_mode q) ++
  EncodeVarint32 (mk_uid q) ++ EncodeVarint32 (mk_gid q) ++ put_tail (mk_base q).
Definition put_Lookup (b : BaseOptions) : bytes := put_head b ++ put_tail b.
Definition put_Chmod (q : ChmodOptions) : bytes :=
  put_head (cm_base q) ++ EncodeVarint32 (cm_mode q) ++ put_tail (cm_base q).
Definition put_Chown (q : ChownOptions) : bytes :=
  put_head (co_base q) ++ EncodeVarint32 (co_uid q) ++ EncodeVarint32 (co_gid q) ++
  put_tail (co_base q).
Definition put_Uperm (q : UpermOptions) : bytes :=
  put_head (up_base q) ++ EncodeVarint32 (up_mode q) ++ EncodeVarint32 (up_uid q) ++
  EncodeVarint32 (up_gid q) ++ put_tail (up_base q).
Definition put_Utime (q : UtimeOptions) : bytes :=
  put_head (ut_base q) ++ EncodeVarint64 (ut_atime q) ++ EncodeVarint64 (ut_mtime q) ++
  put_tail (ut_base q).
Definition put_Trunc (q : TruncOptions) : bytes :=
  put_head (tr_base q) ++ EncodeVarint64 (tr_mtime q) ++ EncodeVarint64 (tr_size q) ++
  put_tail (tr_base q).
Definition put_Unlink (q : UnlinkOptions) : bytes :=
  put_head (un_base q) ++ EncodeVarint32 (un_flags q) ++ put_tail (un_base q).
(** [Listdir] and [Readidx] send no name. *)
Definition put_dir_only (b : BaseOptions) : bytes := EncodeId (dir_id b) ++ put_tail b.

(** ** Decoding of the requests *)

Definition get_head (input : bytes) : option (DirId * bytes * bytes * bytes) :=
  let? (id, input) := GetDirId input in
  let? (h, input) := GetLengthPrefixedSlice input in
  let? (n, input) := GetLengthPrefixedSlice input in
  Some (id, h, n, input).
Definition get_tail (input : bytes) : option (Z * Z) :=
  let? (s, input) := GetVarint32 input in
  let? (due, input) := GetVarint64 input in
  Some (s, due).

Definition get_Fstat (input : bytes) : option BaseOptions :=
  let? (id, h, n, input) := get_head input in
  let? (s, due) := get_tail input in
  Some (mkBase id s due h n).
Definition get_Fcreat (input : bytes) : option FcreatOptions :=
  let? (id, h, n, input) := get_head input in
  let? (flags, input) := GetVarint32 input in
  let? (mode, input) := GetVarint32 input in
  let? (uid, input) := GetVarint32 input in
  let? (gid, input) := GetVarint32 input in
  let? (s, due) := get_tail input in
  Some (mkFcreat (mkBase id s due h n) flags mode uid gid).
Definition get_Mkdir (input : bytes) : option MkdirOptions :=
  let? (id, h, n, input) := get_head input in
  let? (flags, input) := GetVarint32 input in
  let? (mode, input) := GetVarint32 input in
  let? (uid, input) := GetVarint32 input in
  let? (gid, input) := GetVarint32 input in
  let? (s, due) := get_tail input in
  Some (mkMkdir (mkBase id s due h n) flags mode uid gid).
Definition get_Lookup (input : bytes) : option BaseOptions :=
  let? (id, h, n, input) := get_head input in
  let? (s, due) := get_tail input in
  Some (mkBase id s due h n).
Definition get_Chmod (input : bytes) : option ChmodOptions :=
  let? (id, h, n, input) := get_head input in
  let? (mode, input) := GetVarint32 input in
  let? (s, due) := get_tail input in
  Some (mkChmod (mkBase id s due h n) mode).
Definition get_Chown (input : bytes) : option ChownOptions :=
  let? (id, h, n, input) := get_head input in
  let? (uid, input) := GetVarint32 input in
  let? (gid, input) := GetVarint32 input in
  let? (s, due) := get_tail input in
  Some (mkChown (mkBase id s due h n) uid gid).
Definition get_Uperm (input : bytes) : option UpermOptions :=
  let? (id, h, n, input) := get_head input in
  let? (mode, input) := GetVarint32 input in
  let? (uid, input) := GetVarint32 input in
  let? (gid, input) := GetVarint32 input in
  let? (s, due) := get_tail input in
  Some (mkUperm (mkBase id s due h n) mode uid gid).
Definition get_Utime (input : bytes) : option UtimeOptions :=
  let? (id, h, n, input) := get_head input in
  let? (atime, input) := GetVarint64 input in
  let? (mtime, input) := GetVarint64 input in
  let? (s, due) := get_tail input in
  Some (mkUtime (mkBase id s due h n) atime mtime).
Definition get_Trunc (input : bytes) : option TruncOptions :=
  let? (id, h, n, input) := get_head input in
  let? (mtime, input) := GetVarint64 input in
  let? (size, input) := GetVarint64 input in
  let? (s, due) := get_tail input in
  Some (mkTrunc (mkBase id s due h n) mtime size).
Definition get_Unlink (input : bytes) : option UnlinkOptions :=
  let? (id, h, n, input) := get_head input in
  let? (flags, input) := GetVarint32 input in
  let? (s, due) := get_tail input in
  Some (mkUnlink (mkBase id s due h n) flags).
(** The name and its hash are the empty slices they are constructed as. *)
Definition get_dir_only (input : bytes) : option BaseOptions :=
  let? (id, input) := GetDirId input in
  let? (s, due) := get_tail input in
  Some (mkBase id s due [] []).

(** ** Encodings of the results *)

Definition into_buf (bs : bytes) : Crashed + bytes :=
  if zlen bs <=? kBufSize then inr bs else inl BufOverflow.

Definition pack_stat (s : Stat) : Crashed + bytes := into_buf (Stat_EncodeTo s).
Definition pack_lookup (s : LookupStat) : Crashed + bytes := into_buf (LookupStat_EncodeTo s).
Definition pack_fcreat (r : FcreatRet) : Crashed + bytes :=
  into_buf (Stat_EncodeTo (fc_stat r) ++ [if created r then 1 else 0]).

(** The loop of [LSDIR]: it stops once the buffer holds 1000 bytes. *)
Fixpoint pack_names (extra_buf : bytes) (num_entries : Z) (names : list bytes) : bytes * Z :=
  match names with
  | [] => (extra_buf, num_entries)
  | it :: names =>
      let extra_buf := extra_buf ++ PutLengthPrefixedSlice it in
      if 1000 <=? zlen extra_buf then (extra_buf, num_entries + 1)
      else pack_names extra_buf (num_entries + 1) names
  end.
Definition pack_listing (names : list bytes) : bytes :=
  let (extra_buf, num_entries) := pack_names [] 0 names in
  extra_buf ++ EncodeFixed32 (u32 num_entries).

Definition pack_session (r : OpensessionRet) : bytes :=
  PutLengthPrefixedSlice (os_env_name r) ++ PutLengthPrefixedSlice (os_env_conf r) ++
  PutLengthPrefixedSlice (os_fio_name r) ++ PutLengthPrefixedSlice (os_fio_conf r) ++
  EncodeVarint32 (os_session_id r).

(** ** Decoding of the results: [None] is [Corruption] *)

Definition unpack_stat (c : bytes) : option Stat := fst <$> Stat_DecodeFrom c.
Definition unpack_lookup (c : bytes) : option LookupStat := fst <$> LookupStat_DecodeFrom c.
Definition unpack_fcreat (c : bytes) : option FcreatRet :=
  let? (stat, c) := Stat_DecodeFrom c in
  match c with
  | [] => None
  | b :: _ => Some (mkFcreatRet (negb (b =? 0)) stat)
  end.

(** [while (num-- != 0)]: each round takes at least a byte of the encoding or
    fails, so one more round than there are bytes is enough. *)
Fixpoint get_names (fuel : nat) (num : Z) (encoding : bytes) : option (list bytes) :=
  if num =? 0 then Some []
  else match fuel with
       | O => None
       | S fuel =>
           let? (name, encoding) := GetLengthPrefixedSlice encoding in
           let? names := get_names fuel (num - 1) encoding in
           Some (name :: names)
       end.
Definition unpack_listing (encoding : bytes) : option (list bytes) :=
  if zlen encoding <? 4 then None
  else
    let n := (length encoding - 4)%nat in
    let num := DecodeFixed32 (drop n encoding) in
    get_names (S n) num (take n encoding).

Definition unpack_session (msg : bytes) : option OpensessionRet :=
  let? (env_name, msg) := GetLengthPrefixedSlice msg in
  let? (env_conf, msg) := GetLengthPrefixedSlice msg in
  let? (fio_name, msg) := GetLengthPrefixedSlice msg in
  let? (fio_conf, msg) := GetLengthPrefixedSlice msg in
  let? (id, msg) := GetVarint32 msg in
  Some (mkOpensessionRet env_name env_conf fio_name fio_conf id).
Definition unpack_info (msg : bytes) : option bytes := fst <$> GetLengthPrefixedSlice msg.

(** ** The client *)

Section CLI.
Context {St : Type} (kDebugRPC : bool) (stub_ : Stub St).

(** The request body: encoded and checked, or encoded in place. *)
Definition marshal (body : bytes) : Crashed + (Status * bytes) :=
  if kDebugRPC
  then inr (if kBufSize <? zlen body then kBufferFull else kOk, body)
  else if zlen body <=? kBufSize then inr (kOk, body) else inl BufOverflow.
(** [Listdir] and [Readidx] have no debug branch; the administrative requests
    have an empty body. *)
Definition marshal_in_place (body : bytes) : Crashed + (Status * bytes) :=
  match into_buf body with inl c => inl c | inr body => inr (kOk, body) end.

Definition from_code {A} (e : Z) : Run A :=
  match FromCode e with Some s => Done (Error s) | None => Crash FromCodeRange end.

Definition decoded {A} (r : option A) : Run A :=
  match r with Some a => Done (Ok a) | None => Done (Error kCorruption) end.

(** The two ways the client reads a reply. *)
Definition redirectable {A} (unpack : bytes -> option A) (out : Message) : Run A :=
  if err out =? -1 then Done (Redirected (contents out))
  else if negb (err out =? 0) then from_code (err out)
  else decoded (unpack (contents out)).
Definition plain {A} (unpack : bytes -> option A) (out : Message) : Run A :=
  if negb (err out =? 0) then from_code (err out) else decoded (unpack (contents out)).

Definition cli_call {A} (code : Op) (in_ : Crashed + (Status * bytes)) (read : Message -> Run A)
  (st : St) : Run A * St :=
  match in_ with
  | inl c => (Crash c, st)
  | inr (s, body) =>
      if ok s then
        let (r, st) := stub_ (mkMsg (op_code code) 0 body) st in
        (match r with
         | inl c => Crash c
         | inr (s, out) => if ok s then read out else Done (Error s)
         end, st)
      else (Done (Error s), st)
  end.

Definition CLI_Fstat (q : BaseOptions) := cli_call kFstat (marshal (put_Fstat q)) (redirectable unpack_stat).
Definition CLI_Fcreat (q : FcreatOptions) := cli_call kFcreat (marshal (put_Fcreat q)) (redirectable unpack_fcreat).
Definition CLI_Mkdir (q : MkdirOptions) := cli_call kMkdir (marshal (put_Mkdir q)) (redirectable unpack_stat).
Definition CLI_Lookup (q : BaseOptions) := cli_call kLookup (marshal (put_Lookup q)) (redirectable unpack_lookup).
Definition CLI_Chmod (q : ChmodOptions) := cli_call kChmod (marshal (put_Chmod q)) (redirectable unpack_stat).
Definition CLI_Chown (q : ChownOptions) := cli_call kChown (marshal (put_Chown q)) (redirectable unpack_stat).
Definition CLI_Uperm (q : UpermOptions) := cli_call kUperm (marshal (put_Uperm q)) (redirectable unpack_stat).
Definition CLI_Utime (q : UtimeOptions) := cli_call kUtime (marshal (put_Utime q)) (redirectable unpack_stat).
Definition CLI_Trunc (q : TruncOptions) := cli_call kTrunc (marshal (put_Trunc q)) (redirectable unpack_stat).
Definition CLI_Unlink (q : UnlinkOptions) := cli_call kUnlink (marshal (put_Unlink q)) (redirectable unpack_stat).
Definition CLI_Listdir (q : BaseOptions) :=
  cli_call kListdir (marshal_in_place (put_dir_only q)) (plain unpack_listing).
Definition CLI_Readidx (q : BaseOptions) :=
  cli_call kReadidx (marshal_in_place (put_dir_only q)) (plain Some).
Definition CLI_Opensession (_ : unit) :=
  cli_call kOpensession (marshal_in_place []) (plain unpack_session).
Definition CLI_Getinput (_ : unit) := cli_call kGetinput (marshal_in_place []) (plain unpack_info).
Definition CLI_Getoutput (_ : unit) := cli_call kGetoutput (marshal_in_place []) (plain unpack_info).

Definition CLI : MDS St :=
  mkMDS CLI_Fstat CLI_Fcreat CLI_Mkdir CLI_Chmod CLI_Chown CLI_Uperm CLI_Utime CLI_Trunc
    CLI_Unlink CLI_Lookup CLI_Listdir CLI_Readidx CLI_Opensession CLI_Getinput CLI_Getoutput.

End CLI.

(** ** The server *)

Section SRV.
Context {St : Type} (mds_ : MDS St).

(** A message to send back: [out] starts with [err] 0 and no contents. *)
Definition out_error (s : Status) : Message := mkMsg 0 (err_code s) [].
Definition out_ok (c : bytes) : Message := mkMsg 0 0 c.

(** With a [try] block: a thrown [Redirect] is sent as error -1. *)
Definition catching {A} (pack : A -> Crashed + bytes) (r : Run A) : Crashed + Message :=
  match r with
  | Done (Ok ret) => match pack ret with inl c => inl c | inr c => inr (out_ok c) end
  | Done (Error s) => inr (out_error s)
  | Done (Redirected re) => inr (mkMsg 0 (-1) re)
  | Crash c => inl c
  end.
(** Without one: the exception would leave [Call], which must not throw. *)
Definition not_catching {A} (pack : A -> bytes) (r : Run A) : Crashed + Message :=
  match r with
  | Done (Ok ret) => inr (out_ok (pack ret))
  | Done (Error s) => inr (out_error s)
  | Done (Redirected _) => inl UncaughtRedirect
  | Crash c => inl c
  end.

Definition serve {Q A} (options : option Q) (f : Q -> St -> Run A * St)
  (send : Run A -> Crashed + Message) (st : St) : (Crashed + Message) * St :=
  match options with
  | None => (inr (out_error kInvalidArgument), st)
  | Some q => let (r, st) := f q st in (send r, st)
  end.

Definition FSTAT (in_ : Message) := serve (get_Fstat (contents in_)) (call_Fstat mds_) (catching pack_stat).
Definition FCRET (in_ : Message) := serve (get_Fcreat (contents in_)) (call_Fcreat mds_) (catching pack_fcreat).
Definition MKDIR (in_ : Message) := serve (get_Mkdir (contents in_)) (call_Mkdir mds_) (catching pack_stat).
Definition LOKUP (in_ : Message) := serve (get_Lookup (contents in_)) (call_Lookup mds_) (catching pack_lookup).
Definition CHMOD (in_ : Message) := serve (get_Chmod (contents in_)) (call_Chmod mds_) (catching pack_stat).
Definition CHOWN (in_ : Message) := serve (get_Chown (contents in_)) (call_Chown mds_) (catching pack_stat).
Definition UPERM (in_ : Message) := serve (get_Uperm (contents in_)) (call_Uperm mds_) (catching pack_stat).
Definition UTIME (in_ : Message) := serve (get_Utime (contents in_)) (call_Utime mds_) (catching pack_stat).
Definition TRUNC (in_ : Message) := serve (get_Trunc (contents in_)) (call_Trunc mds_) (catching pack_stat).
Definition UNLNK (in_ : Message) := serve (get_Unlink (contents in_)) (call_Unlink mds_) (catching pack_stat).
Definition LSDIR (in_ : Message) := serve (get_dir_only (contents in_)) (call_Listdir mds_) (not_catching pack_listing).
Definition RDIDX (in_ : Message) := serve (get_dir_only (contents in_)) (call_Readidx mds_) (not_catching id).
Definition OPSES (in_ : Message) := serve (Some tt) (call_Opensession mds_) (not_catching pack_session).
Definition GINPT (in_ : Message) := serve (Some tt) (call_Getinput mds_) (not_catching PutLengthPrefixedSlice).
Definition GOUPT (in_ : Message) := serve (Some tt) (call_Getoutput mds_) (not_catching PutLengthPrefixedSlice).

Definition ops : list Op :=
  [kNonop; kFstat; kFcreat; kMkdir; kChmod; kChown; kUperm; kUtime; kTrunc; kUnlink; kLookup;
   kListdir; kReadidx; kOpensession; kGetinput; kGetoutput].

(** The dispatcher: it always returns OK. *)
Definition Call : Stub St := fun in_ st =>
  let (out, st) :=
    match find (fun p => op_code p =? op in_) ops with
    | Some kLookup => LOKUP in_ st
    | Some kFstat => FSTAT in_ st
    | Some kFcreat => FCRET in_ st
    | Some kTrunc => TRUNC in_ st
    | Some kUnlink => UNLNK in_ st
    | Some kMkdir => MKDIR in_ st
    | Some kChmod => CHMOD in_ st
    | Some kChown => CHOWN in_ st
    | Some kUperm => UPERM in_ st
    | Some kUtime => UTIME in_ st
    | Some kListdir => LSDIR in_ st
    | Some kReadidx => RDIDX in_ st
    | Some kOpensession => OPSES in_ st
    | Some kGetinput => GINPT in_ st
    | Some kGetoutput => GOUPT in_ st
    | Some kNonop => (inr (out_ok []), st)
    | None => (inr (out_error kNotSupported), st)
    end in
  (match out with inl c => inl c | inr out => inr (kOk, out) end, st).

End SRV.

(** ** Field widths *)

Definition Base_wf (b : BaseOptions) : Prop :=
  DirId_wf (dir_id b) /\ is_u32 (session_id b) /\ is_u64 (op_due b) /\
  is_u32 (zlen (name_hash b)) /\ is_u32 (zlen (name b)).

Definition Request_wf (r : Request) : Prop :=
  match r with
  | RFstat b | RLookup b | RListdir b | RReadidx b => Base_wf b
  | RFcreat q => Base_wf (fc_base q) /\ is_u32 (fc_flags q) /\ is_u32 (fc_mode q) /\
      is_u32 (fc_uid q) /\ is_u32 (fc_gid q)
  | RMkdir q => Base_wf (mk_base q) /\ is_u32 (mk_flags q) /\ is_u32 (mk_mode q) /\
      is_u32 (mk_uid q) /\ is_u32 (mk_gid q)
  | RChmod q => Base_wf (cm_base q) /\ is_u32 (cm_mode q)
  | RChown q => Base_wf (co_base q) /\ is_u32 (co_uid q) /\ is_u32 (co_gid q)
  | RUperm q => Base_wf (up_base q) /\ is_u32 (up_mode q) /\ is_u32 (up_uid q) /\
      is_u32 (up_gid q)
  | RUtime q => Base_wf (ut_base q) /\ is_u64 (ut_atime q) /\ is_u64 (ut_mtime q)
  | RTrunc q => Base_wf (tr_base q) /\ is_u64 (tr_mtime q) /\ is_u64 (tr_size q)
  | RUnlink q => Base_wf (un_base q) /\ is_u32 (un_flags q)
  | ROpensession | RGetinput | RGetoutput => True
  end.

(** The body of a request. *)
Definition put_request (r : Request) : bytes :=
  match r with
  | RFstat q => put_Fstat q | RFcreat q => put_Fcreat q | RMkdir q => put_Mkdir q
  | RChmod q => put_Chmod q | RChown q => put_Chown q | RUperm q => put_Uperm q
  | RUtime q => put_Utime q | RTrunc q => put_Trunc q | RUnlink q => put_Unlink q
  | RLookup q => put_Lookup q | RListdir q | RReadidx q => put_dir_only q
  | ROpensession | RGetinput | RGetoutput => []
  end.

(** The request the server's [MDS] sees: [Listdir] and [Readidx] lose the name. *)
Definition received (r : Request) : Request :=
  let strip b := mkBase (dir_id b) (session_id b) (op_due b) [] [] in
  match r with
  | RListdir b => RListdir (strip b)
  | RReadidx b => RReadidx (strip b)
  | r => r
  end.

(** What C++ types say of a result, and which requests may be redirected. *)
Definition Reply_wf (p : Reply) : Prop :=
  match p with
  | PStat s => Stat_wf s
  | PFcreat r => Stat_wf (fc_stat r)
  | PLookup s => LookupStat_wf s
  | PNames l => Forall (fun n => is_u32 (zlen n)) l
  | PBytes b => is_u32 (zlen b)
  | PSession r => is_u32 (zlen (os_env_name r)) /\ is_u32 (zlen (os_env_conf r)) /\
      is_u32 (zlen (os_fio_name r)) /\ is_u32 (zlen (os_fio_conf r)) /\ is_u32 (os_session_id r)
  end.

Definition may_redirect (r : Request) : bool :=
  match r with
  | RListdir _ | RReadidx _ | ROpensession | RGetinput | RGetoutput => false | _ => true
  end.

Definition Answer_wf (r : Request) (a : Run Reply) : Prop :=
  match a with
  | Done (Ok p) => Reply_wf p
  | Done (Error s) => s <> kOk
  | Done (Redirected _) => may_redirect r = true
  | Crash _ => True
  end.

(** ** Listings are cut *)

(** The names that are sent: those up to the one that fills 1000 bytes. *)
Fixpoint sent_names (sz : Z) (names : list bytes) : list bytes :=
  match names with
  | [] => []
  | n :: names =>
      let sz := sz + zlen (PutLengthPrefixedSlice n) in
      n :: if 1000 <=? sz then [] else sent_names sz names
  end.

Definition encode_names (names : list bytes) : bytes :=
  foldr (fun n e => PutLengthPrefixedSlice n ++ e) [] names.

(** What arrives at the client of what the server's [MDS] answered. *)
Definition delivered (a : Run Reply) : Run Reply :=
  match a with
  | Done (Ok (PNames l)) => Done (Ok (PNames (sent_names 0 l)))
  | a => a
  end.

(** ** Round trips of the encodings *)

Lemma get_head_put b rest : Base_wf b ->
  get_head (put_head b ++ rest) = Some (dir_id b, name_hash b, name b, rest).
Proof. intros (? & ? & ? & ? & ?). unfold get_head, put_head. by codec_step. Qed.
#[export] Hint Rewrite get_head_put using assumption : codec.

Lemma get_tail_put b : Base_wf b -> get_tail (put_tail b) = Some (session_id b, op_due b).
Proof.
  intros (? & ? & ? & ? & ?). rewrite <- (app_nil_r (put_tail b)). unfold get_tail, put_tail.
  by codec_step.
Qed.
#[export] Hint Rewrite get_tail_put using assumption : codec.

(** Decoding an encoded request of any kind gives it back. *)
Ltac get_put :=
  intros; wf_split; match goal with q : _ |- _ = Some ?q' => constr_eq q q'; destruct q end;
  repeat match goal with b : BaseOptions |- _ => destruct b end; cbn in *;
  codec_step; done.

Lemma get_Fstat_put q : Base_wf q -> get_Fstat (put_Fstat q) = Some q.
Proof. unfold get_Fstat, put_Fstat. get_put. Qed.
Lemma get_Lookup_put q : Base_wf q -> get_Lookup (put_Lookup q) = Some q.
Proof. unfold get_Lookup, put_Lookup. get_put. Qed.
Lemma get_Fcreat_put q : Request_wf (RFcreat q) -> get_Fcreat (put_Fcreat q) = Some q.
Proof. unfold get_Fcreat, put_Fcreat, Request_wf. get_put. Qed.
Lemma get_Mkdir_put q : Request_wf (RMkdir q) -> get_Mkdir (put_Mkdir q) = Some q.
Proof. unfold get_Mkdir, put_Mkdir, Request_wf. get_put. Qed.
Lemma get_Chmod_put q : Request_wf (RChmod q) -> get_Chmod (put_Chmod q) = Some q.
Proof. unfold get_Chmod, put_Chmod, Request_wf. get_put. Qed.
Lemma get_Chown_put q : Request_wf (RChown q) -> get_Chown (put_Chown q) = Some q.
Proof. unfold get_Chown, put_Chown, Request_wf. get_put. Qed.
Lemma get_Uperm_put q : Request_wf (RUperm q) -> get_Uperm (put_Uperm q) = Some q.
Proof. unfold get_Uperm, put_Uperm, Request_wf. get_put. Qed.
Lemma get_Utime_put q : Request_wf (RUtime q) -> get_Utime (put_Utime q) = Some q.
Proof. unfold get_Utime, put_Utime, Request_wf. get_put. Qed.
Lemma get_Trunc_put q : Request_wf (RTrunc q) -> get_Trunc (put_Trunc q) = Some q.
Proof. unfold get_Trunc, put_Trunc, Request_wf. get_put. Qed.
Lemma get_Unlink_put q : Request_wf (RUnlink q) -> get_Unlink (put_Unlink q) = Some q.
Proof. unfold get_Unlink, put_Unlink, Request_wf. get_put. Qed.
Lemma get_dir_only_put q : Base_wf q ->
  get_dir_only (put_dir_only q) = Some (mkBase (dir_id q) (session_id q) (op_due q) [] []).
Proof.
  intros Hw. unfold get_dir_only, put_dir_only. pose proof Hw as (? & ? & ? & ? & ?). by codec_step.
Qed.

#[export] Hint Rewrite get_Fstat_put get_Lookup_put get_Fcreat_put get_Mkdir_put get_Chmod_put
  get_Chown_put get_Uperm_put get_Utime_put get_Trunc_put get_Unlink_put get_dir_only_put
  using assumption : codec.

Lemma into_buf_fits bs : zlen bs <= kBufSize -> into_buf bs = inr bs.
Proof. intros. unfold into_buf. by rewrite (proj2 (Z.leb_le _ _)). Qed.

(** A result survives packing and unpacking; the packed inode fits the buffer. *)
Lemma unpack_pack_stat s : Stat_wf s ->
  exists c, pack_stat s = inr c /\ unpack_stat c = Some s.
Proof.
  intros. pose proof (Stat_EncodeTo_size s). unfold pack_stat.
  rewrite into_buf_fits by (unfold kBufSize; lia). eexists. split; [done|].
  unfold unpack_stat. rewrite <- (app_nil_r (Stat_EncodeTo s)). by codec_step.
Qed.
Lemma unpack_pack_lookup s : LookupStat_wf s ->
  exists c, pack_lookup s = inr c /\ unpack_lookup c = Some s.
Proof.
  intros. pose proof (LookupStat_EncodeTo_size s). unfold pack_lookup.
  rewrite into_buf_fits by (unfold kBufSize; lia). eexists. split; [done|].
  unfold unpack_lookup. rewrite <- (app_nil_r (LookupStat_EncodeTo s)). by codec_step.
Qed.
Lemma unpack_pack_fcreat r : Stat_wf (fc_stat r) ->
  exists c, pack_fcreat r = inr c /\ unpack_fcreat c = Some r.
Proof.
  intros. pose proof (Stat_EncodeTo_size (fc_stat r)). unfold pack_fcreat.
  rewrite into_buf_fits by (unfold kBufSize; autorewrite with zlen; lia). eexists. split; [done|].
  unfold unpack_fcreat. codec_step. by destruct r as [[] ?].
Qed.

Lemma unpack_pack_session r :
  is_u32 (zlen (os_env_name r)) /\ is_u32 (zlen (os_env_conf r)) /\
  is_u32 (zlen (os_fio_name r)) /\ is_u32 (zlen (os_fio_conf r)) /\ is_u32 (os_session_id r) ->
  unpack_session (pack_session r) = Some r.
Proof.
  intros. wf_split. unfold unpack_session, pack_session.
  rewrite <- (app_nil_r (EncodeVarint32 _)). codec_step. by destruct r.
Qed.
Lemma unpack_pack_info b : is_u32 (zlen b) -> unpack_info (PutLengthPrefixedSlice b) = Some b.
Proof.
  intros. unfold unpack_info. rewrite <- (app_nil_r (PutLengthPrefixedSlice b)). by codec_step.
Qed.

Lemma slice_size_ge n : 1 + zlen n <= zlen (PutLengthPrefixedSlice n).
Proof.
  unfold PutLengthPrefixedSlice. rewrite zlen_app, EncodeVarint32_64 by auto with machine.
  unfold EncodeVarint64. destruct (EncodeVarint64_loop 10 (u32 (zlen n))) eqn:E.
  - by apply EncodeVarint64_loop_cons in E.
  - rewrite zlen_cons. pose proof (zlen_nonneg l). lia.
Qed.

Lemma zlen_PutLengthPrefixedSlice_pos n : 1 <= zlen (PutLengthPrefixedSlice n).
Proof. pose proof (slice_size_ge n). pose proof (zlen_nonneg n). lia. Qed.

Lemma pack_names_sent names : forall buf num,
  pack_names buf num names
  = (buf ++ encode_names (sent_names (zlen buf) names), num + zlen (sent_names (zlen buf) names)).
Proof.
  induction names as [|n names IH]; intros buf num; cbn [pack_names sent_names].
  { cbn [encode_names foldr]. by rewrite app_nil_r, zlen_nil, Z.add_0_r. }
  rewrite zlen_app. destruct (Z.leb_spec 1000 (zlen buf + zlen (PutLengthPrefixedSlice n)));
    cbn [encode_names foldr]; rewrite zlen_cons; [by rewrite app_nil_r|].
  rewrite IH, zlen_app, <- app_assoc. f_equal. lia.
Qed.

Lemma sent_names_count names : forall sz, 0 <= sz < 1000 -> zlen (sent_names sz names) <= 1000 - sz.
Proof.
  induction names as [|n names IH]; intros sz Hsz; cbn [sent_names]; [rewrite zlen_nil; lia|].
  pose proof (zlen_PutLengthPrefixedSlice_pos n). rewrite zlen_cons.
  destruct (Z.leb_spec 1000 (sz + zlen (PutLengthPrefixedSlice n))).
  - rewrite zlen_nil. lia.
  - pose proof (IH (sz + zlen (PutLengthPrefixedSlice n)) ltac:(lia)). lia.
Qed.

Lemma sent_names_prefix names : forall sz, sent_names sz names `prefix_of` names.
Proof.
  induction names as [|n names IH]; intros sz; cbn [sent_names]; [done|].
  apply prefix_cons. case_match; [apply prefix_nil|apply IH].
Qed.

(** Names are left out only when 1000 bytes are full, and never too early. *)
Lemma sent_names_full names : forall sz,
  sent_names sz names = names \/ 1000 <= sz + zlen (encode_names (sent_names sz names)).
Proof.
  induction names as [|n names IH]; intros sz; cbn [sent_names]; [by left|].
  cmp_cases; cbn [encode_names foldr]; rewrite zlen_app.
  - right. rewrite zlen_nil. lia.
  - destruct (IH (sz + zlen (PutLengthPrefixedSlice n))) as [->|]; [by left|right].
    unfold encode_names in *. lia.
Qed.

Lemma length_encode_names l : (length l <= length (encode_names l))%nat.
Proof.
  induction l as [|n l IH]; [done|]. cbn [encode_names foldr length]. rewrite length_app.
  pose proof (zlen_PutLengthPrefixedSlice_pos n). unfold zlen, encode_names in *. lia.
Qed.

Lemma get_names_encode l : forall fuel,
  Forall (fun n => is_u32 (zlen n)) l -> (length l <= fuel)%nat ->
  get_names fuel (zlen l) (encode_names l) = Some l.
Proof.
  induction l as [|n l IH]; intros fuel Hl Hf.
  { by destruct fuel. }
  inversion_clear Hl. destruct fuel as [|fuel]; [simpl in Hf; lia|].
  cbn [get_names encode_names foldr]. pose proof (zlen_nonneg l). rewrite zlen_cons.
  rewrite (proj2 (Z.eqb_neq _ _)) by lia. codec_step.
  replace (1 + zlen l - 1) with (zlen l) by lia.
  change (foldr _ [] l) with (encode_names l). rewrite IH; [done|done|simpl in Hf; lia].
Qed.

Lemma unpack_pack_listing names :
  Forall (fun n => is_u32 (zlen n)) names ->
  unpack_listing (pack_listing names) = Some (sent_names 0 names).
Proof.
  intros Hn. unfold pack_listing. rewrite pack_names_sent. cbn [app]. rewrite zlen_nil, Z.add_0_l.
  set (l := sent_names 0 names). pose proof (sent_names_count names 0 ltac:(lia)) as Hc.
  pose proof (zlen_nonneg l). rewrite u32_small by (unfold in_width; fold l in Hc; lia).
  assert (Hl : Forall (fun n => is_u32 (zlen n)) l).
  { destruct (sent_names_prefix names 0) as [rest E]. rewrite E in Hn. apply Forall_app in Hn.
    apply Hn. }
  unfold unpack_listing. set (e := encode_names l).
  assert (Hlen : length (e ++ EncodeFixed32 (zlen l)) = (length e + 4)%nat).
  { rewrite length_app. unfold EncodeFixed32. by rewrite Fixed.length_encode. }
  rewrite (proj2 (Z.ltb_ge _ _)) by (unfold zlen at 1; fold e; rewrite Hlen; lia).
  fold e.
  rewrite Hlen, Nat.add_sub, drop_app_length, take_app_length.
  rewrite <- (app_nil_r (EncodeFixed32 _)), DecodeFixed32_encode
    by (unfold in_width; fold l in Hc; lia).
  apply get_names_encode; [done|]. pose proof (length_encode_names l) as He. fold e in He. lia.
Qed.

(** The fuel of [get_names] is enough: more of it changes nothing. *)
Lemma get_names_fuel f f' : forall num e,
  (length e < f)%nat -> (f <= f')%nat -> get_names f' num e = get_names f num e.
Proof.
  revert f'. induction f as [|f IH]; intros f' num e He Hf; [lia|].
  destruct f' as [|f']; [lia|]. cbn [get_names]. destruct (num =? 0); [done|].
  destruct (GetLengthPrefixedSlice e) as [[n e']|] eqn:E; [|done].
  rewrite (IH f'); [done| |lia].
  enough (length e' < length e)%nat by lia.
  unfold GetLengthPrefixedSlice in E. destruct (GetVarint32 e) as [[len e1]|] eqn:E1; [|done].
  destruct (len <=? zlen e1); [|done]. simplify_eq. rewrite length_drop.
  enough (length e1 < length e)%nat by lia.
  unfold GetVarint32, GetVarint32PtrFallback in E1. destruct e as [|b e]; [done|].
  destruct (Z.land b 128 =? 0); [simplify_eq; simpl; lia|].
  apply GetVarint_loop_suffix in E1. destruct E1 as (pre & -> & E1). rewrite length_app.
  destruct pre; [done|]. simpl. lia.
Qed.

(** ** A reply is read as it was answered *)

Definition received_by {A} (read : Message -> Run A) (r : Crashed + Message) : Run A :=
  match r with inl c => Crash c | inr out => read out end.

Lemma read_error {A} s : s <> kOk ->
  (if negb (err_code s =? 0) then from_code (err_code s) else Done (Error kCorruption)) = Done (A := A) (Error s).
Proof.
  intros Hs. destruct (Z.eqb_spec (err_code s) 0) as [E|_]; [by apply err_code_zero in E|].
  cbn. unfold from_code. by rewrite FromCode_err_code.
Qed.

Lemma read_catching {A} (pack : A -> Crashed + bytes) unpack (r : Run A) :
  (forall a, r = Done (Ok a) -> exists c, pack a = inr c /\ unpack c = Some a) ->
  (forall s, r = Done (Error s) -> s <> kOk) ->
  received_by (redirectable unpack) (catching pack r) = r.
Proof.
  intros Hok Herr. destruct r as [[a|s|re]|c]; cbn; [| |done|done].
  - destruct (Hok a eq_refl) as (c & -> & Hu). unfold redirectable. cbn. by rewrite Hu.
  - unfold redirectable. cbn. pose proof (err_code_range s).
    rewrite (proj2 (Z.eqb_neq _ _)) by lia.
    rewrite <- (read_error s) by eauto. by destruct (err_code s =? 0) eqn:E;
      [apply Z.eqb_eq, err_code_zero in E; exfalso; eapply Herr|].
Qed.

Lemma read_plain {A} (pack : A -> bytes) unpack (f : A -> A) (r : Run A) :
  (forall a, r = Done (Ok a) -> unpack (pack a) = Some (f a)) ->
  (forall s, r = Done (Error s) -> s <> kOk) -> (forall re, r <> Done (Redirected re)) ->
  received_by (plain unpack) (not_catching pack r) = map_run f r.
Proof.
  intros Hok Herr Hre. destruct r as [[a|s|re]|c]; cbn; [| |by destruct (Hre re)|done].
  - unfold plain. cbn. by rewrite (Hok a eq_refl).
  - unfold plain. cbn. rewrite <- (read_error s) by eauto. by destruct (err_code s =? 0) eqn:E;
      [apply Z.eqb_eq, err_code_zero in E; exfalso; eapply Herr|].
Qed.

(** What a well-formed answer is, before the replies are put under one type. *)
Lemma Answer_wf_inv {A} (g : A -> Reply) r (x : Run A) :
  Answer_wf r (map_run g x) ->
  (forall a, x = Done (Ok a) -> Reply_wf (g a)) /\ (forall s, x = Done (Error s) -> s <> kOk) /\
  (may_redirect r = false -> forall re, x <> Done (Redirected re)).
Proof.
  intros Hw. repeat split; [by intros a ->|by intros s ->|]. intros Hm re ->. cbn in Hw. congruence.
Qed.

Section Transparent.
Context {St : Type} (kDebugRPC : bool) (mds_ : MDS St).

Lemma marshal_fits body :
  zlen body <= kBufSize -> marshal kDebugRPC body = inr (kOk, body).
Proof.
  intros. unfold marshal. rewrite (proj2 (Z.ltb_ge _ _)), (proj2 (Z.leb_le _ _)) by done.
  by destruct kDebugRPC.
Qed.
Lemma marshal_in_place_fits body :
  zlen body <= kBufSize -> marshal_in_place body = inr (kOk, body).
Proof. intros. unfold marshal_in_place. by rewrite into_buf_fits. Qed.

(** The client's call, when the stub is the server itself. *)
Lemma cli_call_serve {Q A} code body (q : Q) (f : Q -> St -> Run A * St)
  (send : Run A -> Crashed + Message) (read : Message -> Run A) st :
  Call mds_ (mkMsg (op_code code) 0 body) st
    = (let (out, st') := serve (Some q) f send st in
       (match out with inl c => inl c | inr out => inr (kOk, out) end, st')) ->
  cli_call (Call mds_) code (inr (kOk, body)) read st
    = let (r, st') := f q st in (received_by read (send r), st').
Proof.
  intros HC. unfold cli_call. rewrite (bool_decide_eq_true_2 _ eq_refl : ok kOk = true).
  rewrite HC. unfold serve. destruct (f q st) as [r st']. by destruct (send r).
Qed.

Lemma put_dir_only_size b : zlen (put_dir_only b) <= 45.
Proof. unfold put_dir_only, put_tail, EncodeId. varint_bounds. Qed.

(** The client's call of the operation in the goal, as the server's work on the
    decoded request and the reading of its reply. *)
Ltac through_server :=
  unfold CLI, answer;
  cbn [call_Fstat call_Fcreat call_Mkdir call_Chmod call_Chown call_Uperm call_Utime call_Trunc
       call_Unlink call_Lookup call_Listdir call_Readidx call_Opensession call_Getinput
       call_Getoutput];
  unfold CLI_Fstat, CLI_Fcreat, CLI_Mkdir, CLI_Chmod, CLI_Chown, CLI_Uperm, CLI_Utime, CLI_Trunc,
    CLI_Unlink, CLI_Lookup, CLI_Listdir, CLI_Readidx, CLI_Opensession, CLI_Getinput,
    CLI_Getoutput;
  first [rewrite marshal_fits by assumption | rewrite marshal_in_place_fits by assumption];
  erewrite cli_call_serve by (
    unfold Call; cbn [find ops op_code op Z.eqb Pos.eqb];
    unfold FSTAT, FCRET, MKDIR, LOKUP, CHMOD, CHOWN, UPERM, UTIME, TRUNC, UNLNK, LSDIR, RDIDX,
      OPSES, GINPT, GOUPT;
    cbn [contents]; autorewrite with codec; reflexivity);
  match goal with Ha : Answer_wf _ _ |- context [let (_, _) := ?x in _] =>
    destruct x as [?a ?st']; cbn [fst snd] in *;
    apply Answer_wf_inv in Ha as (? & ? & ?); cbn [fst Reply_wf may_redirect] in * end.

Ltac try_op :=
  through_server;
  rewrite read_catching by eauto using unpack_pack_stat, unpack_pack_lookup, unpack_pack_fcreat;
  match goal with a : Run _ |- _ => by destruct a as [[]|] end.

Ltac plain_op f :=
  through_server;
  rewrite (read_plain _ _ f)
    by eauto using unpack_pack_listing, unpack_pack_session, unpack_pack_info;
  match goal with a : Run _ |- _ => by destruct a as [[]|] end.

Lemma rpc_call r st :
  Request_wf r -> zlen (put_request r) <= kBufSize ->
  Answer_wf r (mds_call mds_ (received r) st).1 ->
  mds_call (CLI kDebugRPC (Call mds_)) r st
  = let (a, st') := mds_call mds_ (received r) st in (delivered a, st').
Proof.
  intros Hw Hf Ha. destruct r; cbn [received mds_call put_request] in *;
    try (unfold Request_wf in Hw; fold Request_wf in Hw).
  - try_op.
  - try_op.
  - try_op.
  - try_op.
  - try_op.
  - try_op.
  - try_op.
  - try_op.
  - try_op.
  - try_op.
  - plain_op (sent_names 0).
  - plain_op (@id bytes).
  - plain_op (@id OpensessionRet).
  - plain_op (@id bytes).
  - plain_op (@id bytes).
Qed.

(** C22. Calling an [MDS] through the RPC client and server is calling it
    directly: for every request with fields of their C++ widths whose encoding
    fits the message buffer, the server's [MDS] receives the request (without
    the name, for a listing or an index read), its state changes as in the
    direct call, and the caller gets the same result, error status or redirect.
    Only a listing may differ: the client gets a first part of the names, and
    all of them unless that part fills 1000 bytes. *)
Theorem rpc_transparent r st :
  Request_wf r -> zlen (put_request r) <= kBufSize ->
  Answer_wf r (mds_call mds_ (received r) st).1 ->
  exists a', mds_call (CLI kDebugRPC (Call mds_)) r st
             = (a', (mds_call mds_ (received r) st).2) /\
  match (mds_call mds_ (received r) st).1 with
  | Done (Ok (PNames l)) =>
      exists sent rest, a' = Done (Ok (PNames sent)) /\ l = sent ++ rest /\
        (rest = [] \/ 1000 <= zlen (encode_names sent))
  | a => a' = a
  end.
Proof.
  intros Hw Hf Ha. rewrite rpc_call by done.
  destruct (mds_call mds_ (received r) st) as [a st'].
  exists (delivered a). split; [done|]. cbn [fst].
  destruct a as [[[]| |]|]; try done. cbn.
  destruct (sent_names_prefix l 0) as [rest E]. exists (sent_names 0 l), rest.
  split; [done|]. split; [done|].
  destruct (sent_names_full l 0) as [E'|]; [left|by right].
  rewrite E' in E. by apply (app_inv_head l); rewrite app_nil_r.
Qed.

(** The server on arbitrary bytes: the request a message decodes to, if any. *)
Definition decode_request (in_ : Message) : option Request :=
  let c := contents in_ in
  match find (fun p => op_code p =? op in_) ops with
  | Some kLookup => RLookup <$> get_Lookup c
  | Some kFstat => RFstat <$> get_Fstat c
  | Some kFcreat => RFcreat <$> get_Fcreat c
  | Some kTrunc => RTrunc <$> get_Trunc c
  | Some kUnlink => RUnlink <$> get_Unlink c
  | Some kMkdir => RMkdir <$> get_Mkdir c
  | Some kChmod => RChmod <$> get_Chmod c
  | Some kChown => RChown <$> get_Chown c
  | Some kUperm => RUperm <$> get_Uperm c
  | Some kUtime => RUtime <$> get_Utime c
  | Some kListdir => RListdir <$> get_dir_only c
  | Some kReadidx => RReadidx <$> get_dir_only c
  | Some kOpensession => Some ROpensession
  | Some kGetinput => Some RGetinput
  | Some kGetoutput => Some RGetoutput
  | Some kNonop | None => None
  end.

Lemma get_head_wf c id h n rest : get_head c = Some (id, h, n, rest) -> DirId_wf id.
Proof.
  unfold get_head. destruct (GetDirId c) as [[id' c1]|] eqn:E; [|done].
  destruct (GetLengthPrefixedSlice c1) as [[? c2]|]; [|done].
  destruct (GetLengthPrefixedSlice c2) as [[? ?]|]; [|done]. intros [= <- _ _ _].
  by eapply GetDirId_range.
Qed.

Ltac unfold_gets H :=
  repeat match type of H with context [match ?x with _ => _ end] => destruct x as [[? ?]|]; [|done] end.

(** A request that comes from a message names a well-formed directory id. *)
Lemma decode_request_wf in_ r : decode_request in_ = Some r -> req_wf r.
Proof.
  unfold decode_request. cbv zeta. destruct (find _ ops) as [p|]; [|done].
  destruct p; try done; try (by intros [= <-]);
    intros (q & Hq & ->)%fmap_Some; unfold req_wf; cbn [target];
    unfold get_Lookup, get_Fstat, get_Fcreat, get_Trunc, get_Unlink, get_Mkdir, get_Chmod, get_Chown,
      get_Uperm, get_Utime, get_dir_only in Hq;
    first [destruct (get_head (contents in_)) as [[[[id h] n] rest]|] eqn:Eh; [|done];
             apply get_head_wf in Eh
          |destruct (GetDirId (contents in_)) as [[id rest]|] eqn:Eh; [|done];
             apply GetDirId_range in Eh];
    unfold_gets Hq; by simplify_eq.
Qed.

(** How a reply message stands for an outcome. *)
Definition conveys {A} (out : Outcome A) (m : Message) : Prop :=
  match out with
  | Ok _ => err m = 0
  | Error s => err m = err_code s
  | Redirected idx => err m = -1 /\ contents m = idx
  end.

(** What [Call] owes for a request with an answer. *)
Definition answered (r : Request) (st : St) (x : (Crashed + Message) * St) : Prop :=
  forall out, (mds_call mds_ r st).1 = Done out ->
    (may_redirect r = false -> forall idx, out <> Redirected idx) ->
    exists m, x = (inr m, (mds_call mds_ r st).2) /\ conveys out m.

Lemma serve_catching {Q A} q (f : Q -> St -> Run A * St) (r : Request) (g : A -> Reply) pack st :
  mds_call mds_ r st = answer g (f q st) -> (forall a, exists c, pack a = inr c) ->
  answered r st (serve (Some q) f (catching pack) st).
Proof.
  intros Hf Hp out. rewrite Hf. cbn. destruct (f q st) as [x st']. cbn.
  destruct x as [[a|s|re]|c]; cbn; intros [= <-] _; [destruct (Hp a) as [c ->]| |]; by eexists.
Qed.

Lemma serve_not_catching {Q A} q (f : Q -> St -> Run A * St) (r : Request) (g : A -> Reply)
  (pack : A -> bytes) st :
  mds_call mds_ r st = answer g (f q st) -> may_redirect r = false ->
  answered r st (serve (Some q) f (not_catching pack) st).
Proof.
  intros Hf Hr out. rewrite Hf. cbn. destruct (f q st) as [x st']. cbn.
  destruct x as [[a|s|re]|c]; cbn; intros [= <-] Hn; [by eexists|by eexists|].
  by destruct (Hn Hr re).
Qed.

Lemma pack_stat_fits s : exists c, pack_stat s = inr c.
Proof.
  pose proof (Stat_EncodeTo_size s). unfold pack_stat. rewrite into_buf_fits; [eauto|].
  unfold kBufSize. lia.
Qed.
Lemma pack_lookup_fits s : exists c, pack_lookup s = inr c.
Proof.
  pose proof (LookupStat_EncodeTo_size s). unfold pack_lookup. rewrite into_buf_fits; [eauto|].
  unfold kBufSize. lia.
Qed.
Lemma pack_fcreat_fits r : exists c, pack_fcreat r = inr c.
Proof.
  pose proof (Stat_EncodeTo_size (fc_stat r)). unfold pack_fcreat.
  rewrite into_buf_fits; [eauto|]. autorewrite with zlen. unfold kBufSize. lia.
Qed.

(** Every message is answered: as its request is by the [MDS], or with an error
    code (0 for the non-operation) and no change of state. *)
Lemma Call_served in_ st : exists x,
  Call mds_ in_ st = (match x.1 with inl c => inl c | inr out => inr (kOk, out) end, x.2) /\
  match decode_request in_ with
  | Some r => answered r st x
  | None => exists m, x = (inr m, st) /\ 0 <= err m <= kMaxCode
  end.
Proof.
  unfold Call, decode_request.
  match goal with |- context [let (_, _) := ?y in _] => exists y; split; [by destruct y|] end.
  assert (HE : forall s, exists m, (inr (out_error s), st) = (inr m, st) :> (Crashed + Message) * St /\ 0 <= err m <= kMaxCode).
  { intros s. exists (out_error s). pose proof (err_code_range s). cbn. split; [done|lia]. }
  destruct (find _ ops) as [p|]; [|apply HE].
  destruct p; try (match goal with |- context [_ <$> ?d] =>
      destruct d as [q|] eqn:Ed; cbn [fmap option_fmap option_map] end);
    try (unfold FSTAT, FCRET, MKDIR, LOKUP, CHMOD, CHOWN, UPERM, UTIME, TRUNC, UNLNK, LSDIR, RDIDX;
         rewrite Ed; cbn [serve]; by apply HE).
  - exists (out_ok []). unfold kMaxCode. cbn. split; [done|lia].
  - unfold FSTAT. rewrite Ed. by apply serve_catching with PStat; auto using pack_stat_fits.
  - unfold FCRET. rewrite Ed. by apply serve_catching with PFcreat; auto using pack_fcreat_fits.
  - unfold MKDIR. rewrite Ed. by apply serve_catching with PStat; auto using pack_stat_fits.
  - unfold CHMOD. rewrite Ed. by apply serve_catching with PStat; auto using pack_stat_fits.
  - unfold CHOWN. rewrite Ed. by apply serve_catching with PStat; auto using pack_stat_fits.
  - unfold UPERM. rewrite Ed. by apply serve_catching with PStat; auto using pack_stat_fits.
  - unfold UTIME. rewrite Ed. by apply serve_catching with PStat; auto using pack_stat_fits.
  - unfold TRUNC. rewrite Ed. by apply serve_catching with PStat; auto using pack_stat_fits.
  - unfold UNLNK. rewrite Ed. by apply serve_catching with PStat; auto using pack_stat_fits.
  - unfold LOKUP. rewrite Ed. by apply serve_catching with PLookup; auto using pack_lookup_fits.
  - unfold LSDIR. rewrite Ed. by apply serve_not_catching with PNames.
  - unfold RDIDX. rewrite Ed. by apply serve_not_catching with PBytes.
  - by apply serve_not_catching with PSession.
  - by apply serve_not_catching with PBytes.
  - by apply serve_not_catching with PBytes.
Qed.

(** ** Sizes of the requests *)

Definition request_base (r : Request) : option BaseOptions :=
  match r with
  | RFstat b | RLookup b => Some b
  | RFcreat q => Some (fc_base q) | RMkdir q => Some (mk_base q)
  | RChmod q => Some (cm_base q) | RChown q => Some (co_base q) | RUperm q => Some (up_base q)
  | RUtime q => Some (ut_base q) | RTrunc q => Some (tr_base q) | RUnlink q => Some (un_base q)
  | RListdir _ | RReadidx _ | ROpensession | RGetinput | RGetoutput => None
  end.

Lemma short_slice_size n : zlen n < 128 -> zlen (PutLengthPrefixedSlice n) = 1 + zlen n.
Proof.
  intros. pose proof (zlen_nonneg n). unfold PutLengthPrefixedSlice, EncodeVarint32.
  rewrite u32_small by (unfold in_width; lia). change (Z.shiftl 1 7) with 128.
  rewrite (proj2 (Z.ltb_lt _ _)) by done. by rewrite zlen_app.
Qed.

Ltac request_size :=
  unfold put_request, put_Fstat, put_Lookup, put_Fcreat, put_Mkdir, put_Chmod, put_Chown,
    put_Uperm, put_Utime, put_Trunc, put_Unlink, put_head, put_tail, EncodeId;
  autorewrite with zlen.

(** The sizes in the goal are not negative. *)
Ltac sizes_nonneg :=
  repeat match goal with
  | |- context [zlen ?x] => pose proof (zlen_nonneg x); generalize dependent (zlen x); intros
  end.

(** C39. Every request whose name hash fits the hash buffer (24 bytes) and whose
    name has at most 109 bytes fits the message buffer, whatever its other
    fields are; so does every request that carries no name. *)
Theorem rpc_request_fits r :
  match request_base r with
  | Some b => zlen (name_hash b) <= 24 /\ zlen (name b) <= 109
  | None => True
  end -> zlen (put_request r) <= kBufSize.
Proof.
  intros Hb. unfold kBufSize. destruct r; cbn [request_base] in Hb;
    try (pose proof (put_dir_only_size b); cbn [put_request]; lia); try done;
    destruct Hb as [Hh Hn]; request_size; rewrite (short_slice_size (name_hash _)), (short_slice_size (name _)) by lia;
    varint_bounds.
Qed.

(** C40. A name of 200 bytes or more, though names of up to 255 are legal, never
    reaches the server: a debug build of the client returns [BufferFull], a
    release build writes past the end of the message buffer. *)
Theorem rpc_long_name (stub : Stub St) r b st :
  request_base r = Some b -> 200 <= zlen (name b) ->
  mds_call (CLI kDebugRPC stub) r st
  = (if kDebugRPC then Done (Error kBufferFull) else Crash BufOverflow, st).
Proof.
  intros Hb Hn.
  assert (Hs : kBufSize < zlen (put_request r)).
  { unfold kBufSize. pose proof (slice_size_ge (name b)).
    destruct r; simplify_eq/=; request_size; sizes_nonneg; lia. }
  assert (Hm : marshal kDebugRPC (put_request r)
               = if kDebugRPC then inr (kBufferFull, put_request r) else inl BufOverflow).
  { unfold marshal. rewrite (proj2 (Z.ltb_lt _ _)), (proj2 (Z.leb_gt _ _)) by done.
    by destruct kDebugRPC. }
  destruct r; try done; cbn [put_request] in Hm; cbn; unfold CLI_Fstat, CLI_Fcreat, CLI_Mkdir,
    CLI_Chmod, CLI_Chown, CLI_Uperm, CLI_Utime, CLI_Trunc, CLI_Unlink, CLI_Lookup, cli_call;
    rewrite Hm; by destruct kDebugRPC.
Qed.
End Transparent.
