(* ===== verification/MdsSrv.v ===== *)
(** * The metadata server (src/libdeltafs/mds_srv.cc, mds_srv.h, mds.cc)

    [MDS::SRV]: its tables of directory and lease objects, and its request
    handlers.  A handler runs alone, from its first statement to its last: the
    state it starts from has no other request in progress (the places where
    handlers of different threads interleave are the subject of [LeaseProto]
    and [RWLock]).  The mutex therefore does not appear, and the waits of
    [FetchDir] and [Dir::Lock] for another thread are never taken.

    The objects the tables point to are in two heaps, by address, so that a
    lease's [parent] pointer, the counter it decrements when it is deleted and
    the eviction of either object behave as in the code.  A failed [assert] of
    the source is recorded in [faults] and execution goes on, as it does when
    the code is compiled with [NDEBUG]; so is the use of a deleted object.
    [Dir::size] is an [int]; where its arithmetic would overflow, which C++
    leaves undefined, the model wraps around. *)
From S2P Require Import Prelude Coding Status FsTypes Gigaplus Lru Tables Mdb MdsApi.

(** ** Configuration *)

Record MDSEnv := mkMDSEnv {
  output_conf : bytes; input_conf : bytes; env_name : bytes; env_conf : bytes;
  fio_name : bytes; fio_conf : bytes }.

Record MDSOptions := mkMDSOptions {
  mds_env : MDSEnv; dir_table_size : Z; lease_table_size : Z; lease_duration : Z;
  snap_id : Z; reg_id : Z; paranoid : bool; nvs : Z; ns : Z; srv_id : Z }.

Definition giga (o : MDSOptions) : DirIndexOptions := mkGiga (ns o) (nvs o) (paranoid o).

(** ** Faults *)

Inductive Fault :=
  | SrvAssert (line : Z)   (* a failed assert of mds_srv.cc *)
  | GigaAssert             (* HashToIndex: i < num_virtual_servers *)
  | DirBusyOnDelete        (* DeleteDir: !dir->busy() *)
  | LeaseBusyOnDelete      (* DeleteLease: !lease->busy() *)
  | LeasesNegative         (* DeleteLease: parent->num_leases >= 0 *)
  | UseAfterFree.          (* a pointer to a deleted object *)

#[export] Instance Fault_eq_dec : EqDecision Fault.
Proof. solve_decision. Defined.

Section SRV.
Context {kv : KV} {xx : XXHash} (o : MDSOptions).

(** ** Objects *)

(** [tx] is the snapshot of the write transaction in progress, if any. *)
Record Dir := mkDir {
  d_mtime : Z; d_seq : Z; d_tx : option Snapshot; d_index : Rep; d_status : Status;
  d_num_leases : Z; d_size : Z; d_locked : bool }.

Inductive LeaseState := kLeaseFree | kLeaseShared | kLeaseLocked.

Record Lease := mkLease { l_seq : Z; l_parent : nat; l_due : Z; l_state : LeaseState }.

(** The tables, the objects they point to, the clock and the faults. *)
Record Tb := mkTb {
  dirs : LRU (V := nat); leases : LRU (V := nat);
  dir_objs : gmap nat Dir; lease_objs : gmap nat Lease; next_obj : nat;
  clock : Z; ticks : list Z; faults : list Fault }.

Record SRV := mkSRV { db : DB; session : Z; ino_ : Z; status_ : Status; tb : Tb }.

Definition set_db (st : SRV) (d : DB) : SRV := mkSRV d (session st) (ino_ st) (status_ st) (tb st).
Definition set_tb (st : SRV) (t : Tb) : SRV := mkSRV (db st) (session st) (ino_ st) (status_ st) t.
Definition set_ino (st : SRV) (i : Z) : SRV := mkSRV (db st) (session st) i (status_ st) (tb st).

Definition set_dirs (t : Tb) (x : LRU (V := nat)) : Tb :=
  mkTb x (leases t) (dir_objs t) (lease_objs t) (next_obj t) (clock t) (ticks t) (faults t).
Definition set_leases (t : Tb) (x : LRU (V := nat)) : Tb :=
  mkTb (dirs t) x (dir_objs t) (lease_objs t) (next_obj t) (clock t) (ticks t) (faults t).
Definition set_dir_objs (t : Tb) (x : gmap nat Dir) : Tb :=
  mkTb (dirs t) (leases t) x (lease_objs t) (next_obj t) (clock t) (ticks t) (faults t).
Definition set_lease_objs (t : Tb) (x : gmap nat Lease) : Tb :=
  mkTb (dirs t) (leases t) (dir_objs t) x (next_obj t) (clock t) (ticks t) (faults t).
Definition set_clock (t : Tb) (c : Z) (ts : list Z) : Tb :=
  mkTb (dirs t) (leases t) (dir_objs t) (lease_objs t) (next_obj t) c ts (faults t).
Definition fault (t : Tb) (f : Fault) : Tb :=
  mkTb (dirs t) (leases t) (dir_objs t) (lease_objs t) (next_obj t) (clock t) (ticks t)
    (f :: faults t).

Definition tb_assert (f : Fault) (b : bool) (t : Tb) : Tb := if b then t else fault t f.

(** [new Dir] / [new Lease]: a fresh address. *)
Definition new_dir (t : Tb) (d : Dir) : nat * Tb :=
  (next_obj t, mkTb (dirs t) (leases t) (<[next_obj t := d]> (dir_objs t)) (lease_objs t)
     (S (next_obj t)) (clock t) (ticks t) (faults t)).
Definition new_lease (t : Tb) (l : Lease) : nat * Tb :=
  (next_obj t, mkTb (dirs t) (leases t) (dir_objs t) (<[next_obj t := l]> (lease_objs t))
     (S (next_obj t)) (clock t) (ticks t) (faults t)).

(** Update of a field through a pointer. *)
Definition upd_dir (d : nat) (f : Dir -> Dir) (t : Tb) : Tb :=
  match dir_objs t !! d with
  | Some x => set_dir_objs t (<[d := f x]> (dir_objs t))
  | None => fault t UseAfterFree
  end.
Definition upd_lease (l : nat) (f : Lease -> Lease) (t : Tb) : Tb :=
  match lease_objs t !! l with
  | Some x => set_lease_objs t (<[l := f x]> (lease_objs t))
  | None => fault t UseAfterFree
  end.

Definition dir_set_tx (x : option Snapshot) (d : Dir) : Dir :=
  mkDir (d_mtime d) (d_seq d) x (d_index d) (d_status d) (d_num_leases d) (d_size d) (d_locked d).
Definition dir_set_locked (b : bool) (d : Dir) : Dir :=
  mkDir (d_mtime d) (d_seq d) (d_tx d) (d_index d) (d_status d) (d_num_leases d) (d_size d) b.
Definition dir_set_size_mtime (s m : Z) (d : Dir) : Dir :=
  mkDir m (d_seq d) (d_tx d) (d_index d) (d_status d) (d_num_leases d) s (d_locked d).
Definition dir_set_mtime (m : Z) (d : Dir) : Dir :=
  mkDir m (d_seq d) (d_tx d) (d_index d) (d_status d) (d_num_leases d) (d_size d) (d_locked d).
Definition dir_add_leases (n : Z) (d : Dir) : Dir :=
  mkDir (d_mtime d) (d_seq d) (d_tx d) (d_index d) (d_status d) (d_num_leases d + n) (d_size d)
    (d_locked d).
Definition dir_set_seq (s : Z) (d : Dir) : Dir :=
  mkDir (d_mtime d) s (d_tx d) (d_index d) (d_status d) (d_num_leases d) (d_size d) (d_locked d).

Definition Dir_busy (d : Dir) : bool :=
  if bool_decide (is_Some (d_tx d)) then true
  else if d_locked d then true else negb (d_num_leases d =? 0).

(** [Lease::busy], with the time of the last clock reading. *)
Definition Lease_busy (now : Z) (l : Lease) : bool :=
  match l_state l with kLeaseLocked => true | _ => now <? l_due l end.

(** ** The clock

    Each reading of [CurrentMicros] advances the clock by the next element of
    [ticks]; [SleepForMicroseconds] by its argument at least.  A reading is a
    [uint64_t]. *)
Definition CurrentMicros (t : Tb) : Z * Tb :=
  let now := u64 (clock t + hd 0 (ticks t)) in (now, set_clock t now (tail (ticks t))).
Definition SleepForMicroseconds (n : Z) (t : Tb) : Tb := set_clock t (clock t + n) (ticks t).

(** ** The tables with their deleters *)

Definition DeleteDir (t : Tb) (d : nat) : Tb :=
  match dir_objs t !! d with
  | None => fault t UseAfterFree
  | Some x =>
      let t := tb_assert DirBusyOnDelete (negb (Dir_busy x)) t in
      set_dir_objs t (delete d (dir_objs t))
  end.

Definition DeleteLease (t : Tb) (l : nat) : Tb :=
  match lease_objs t !! l with
  | None => fault t UseAfterFree
  | Some x =>
      let t := tb_assert LeaseBusyOnDelete (negb (Lease_busy (clock t) x)) t in
      let t := upd_dir (l_parent x) (dir_add_leases (-1)) t in
      let t := match dir_objs t !! l_parent x with
               | Some d => tb_assert LeasesNegative (0 <=? d_num_leases d) t
               | None => t
               end in
      set_lease_objs t (delete l (lease_objs t))
  end.

Definition dirs_Lookup (t : Tb) (id : DirId) : option nat * Tb :=
  let (r, x) := DirTable.Lookup (dirs t) id in (r, set_dirs t x).
Definition dirs_Insert (t : Tb) (id : DirId) (d : nat) : option nat * Tb :=
  match DirTable.Insert (dirs t) id d with
  | None => (None, t)
  | Some (r, x, dead) => (Some r, fold_left DeleteDir dead (set_dirs t x))
  end.
Definition dirs_Release (t : Tb) (ref : nat) : Tb :=
  let (x, dead) := DirTable.Release (dirs t) ref in fold_left DeleteDir dead (set_dirs t x).
Definition leases_Lookup (t : Tb) (id : DirId) (nhash : bytes) : option nat * Tb :=
  let (r, x) := LeaseTable.Lookup (leases t) id nhash in (r, set_leases t x).
Definition leases_Insert (t : Tb) (id : DirId) (nhash : bytes) (l : nat) : option nat * Tb :=
  match LeaseTable.Insert (leases t) id nhash l with
  | None => (None, t)
  | Some (r, x, dead) => (Some r, fold_left DeleteLease dead (set_leases t x))
  end.
Definition leases_Release (t : Tb) (ref : nat) : Tb :=
  let (x, dead) := LeaseTable.Release (leases t) ref in
  fold_left DeleteLease dead (set_leases t x).

(** [ref->value] *)
Definition ref_value (x : LRU (V := nat)) (ref : nat) : nat :=
  match heap x !! ref with Some e => e_value e | None => O end.

(** ** Construction ([MDS::SRV::SRV]) *)
Definition SRV_new (d : DB) (now : Z) (ts : list Z) : SRV :=
  mkSRV d (srv_id o) (u64 (Z.shiftl (srv_id o) 32)) kOk
    (mkTb (DirTable.DirTable_new (dir_table_size o))
       (LeaseTable.LeaseTable_new (lease_table_size o)) ∅ ∅ 0 now ts []).

(** ** Directory loading *)

Definition PickupServer (id : DirId) : Z := RandomServer (EncodeId id) 0.

(** The index of a directory seen for the first time: all partitions exist. *)
Definition fresh_index (id : DirId) : Rep :=
  SetAll (giga o) (NewRep (Z.rem (PickupServer id) (nvs o))).

(** [LoadDir], first half: load the directory info, create it if missing.  A
    creation opens the transaction. *)
Definition load_info (id : DirId) (st : SRV) : Status * option DirInfo * option Tx * SRV :=
  let '(s, info, d) := GetInfo (db st) id None in
  let st := set_db st d in
  if IsNotFound s then
    let tx := CreateTx (db st) in
    let (now, t) := CurrentMicros (tb st) in
    let info := mkDirInfo now 0 in
    let '(s, tx, d) := SetInfo (db st) id info (Some tx) in
    (s, Some info, tx, set_db (set_tb st t) d)
  else (s, info, None, st).

(** Second half: load the directory index, create it if missing. *)
Definition load_index (id : DirId) (tx : option Tx) (st : SRV)
  : Status * option Rep * option Tx * SRV :=
  let '(s, idx, d) := GetDirIdx (db st) id (DirIndex_empty (giga o)) tx in
  let st := set_db st d in
  if IsNotFound s then
    let tmp := fresh_index id in
    let tx := match tx with None => CreateTx (db st) | Some t => t end in
    let '(s, tx, d) := SetDirIdx (db st) id tmp (Some tx) in
    (s, Some tmp, tx, set_db st d)
  else (s, rep idx, tx, st).

Definition LoadDir (id : DirId) (st : SRV) : (Status * option (DirInfo * Rep)) * SRV :=
  let '(s, info, tx, st) := load_info id st in
  let '(s, idx, tx, st) := if ok s then load_index id tx st else (s, None, tx, st) in
  let '(s, st) :=
    if ok s then let (s, d) := Commit (db st) tx in (s, set_db st d) else (s, st) in
  match info, idx with
  | Some i, Some r => if ok s then (s, Some (i, r), st) else (s, None, st)
  | _, _ => (s, None, st)
  end.

(** The reference is [None] exactly when the status is not OK. *)
Definition FetchDir (id : DirId) (st : SRV) : (Status * option nat) * SRV :=
  let (r, t) := dirs_Lookup (tb st) id in
  let st := set_tb st t in
  match r with
  | Some ref => (kOk, Some ref, st)
  | None =>
      let '(s, res, st) := LoadDir id st in
      match res with
      | None => (s, None, st)
      | Some (info, index) =>
          let t := tb_assert (SrvAssert 99) (0 <=? size info) (tb st) in
          let (d, t) := new_dir t
            (mkDir (mtime info) 0 None index kOk 0 (size info) false) in
          match dirs_Insert t id d with
          | (Some ref, t) => (kOk, Some ref, set_tb st t)
          | (None, t) =>
              (* throw EEXIST; the handler only expects ENOBUFS *)
              let t := fault t (SrvAssert 111) in
              (kBufferFull, None, set_tb st (set_dir_objs t (delete d (dir_objs t))))
          end
      end
  end.

Definition ProbeDir (d : Dir) (st : SRV) : Status :=
  if negb (ok (status_ st)) then status_ st
  else if negb (ok (d_status d)) then d_status d else kOk.

(** ** Counters *)

Definition NextIno (st : SRV) : Z * SRV :=
  let result := u64 (ino_ st + 1) in
  let limit := u64 (Z.shiftl (u64 (srv_id o + 1)) 32) in
  let s := if paranoid o && (limit <=? u64 (result + 1)) then kBufferFull else status_ st in
  (result, mkSRV (db st) (session st) result s (tb st)).

Definition TryReuseIno (i : Z) (st : SRV) : SRV :=
  if i =? ino_ st then set_ino st (u64 (ino_ st - 1)) else st.

Definition NextSession (st : SRV) : Z * SRV :=
  let s := u32 (session st + ns o) in
  (s, mkSRV (db st) s (ino_ st) (status_ st) (tb st)).

(** ** Request checks *)

Definition hash_mismatch (hash nm : bytes) : bool := negb (bool_decide (hash = PutHash nm)).

(** The name and hash checks at the top of the handlers: [Fstat] and [Unlink];
    [Fcreat] and [Mkdir]; [Utime], [Trunc], [Lookup] and [Uperm]. *)
Definition check_read (bad : Status) (b : BaseOptions) : Status :=
  if bool_decide (name_hash b = []) then kInvalidArgument
  else if paranoid o && negb (bool_decide (name b = [])) && hash_mismatch (name_hash b) (name b)
  then bad else kOk.
Definition check_create (b : BaseOptions) : Status :=
  if bool_decide (name_hash b = []) || bool_decide (name b = []) then kInvalidArgument
  else if paranoid o && hash_mismatch (name_hash b) (name b) then kInvalidArgument else kOk.

(** ** The part of a handler around its work

    [Dir::Guard guard], [DirLock dl] where the handler writes, the probe and
    the routing check; the guard and the lock are released on every way out. *)
Definition with_dir {A} (b : BaseOptions) (lock : bool) (st : SRV)
    (body : nat -> SRV -> Outcome A * SRV) : Outcome A * SRV :=
  let '(s, ref, st) := FetchDir (dir_id b) st in
  match ref with
  | None => (Error s, st)
  | Some ref =>
      let d := ref_value (dirs (tb st)) ref in
      let leave (st : SRV) : SRV :=
        let t := if lock then upd_dir d (dir_set_locked false) (tb st) else tb st in
        set_tb st (dirs_Release t ref) in
      let st := if lock then set_tb st (upd_dir d (dir_set_locked true) (tb st)) else st in
      match dir_objs (tb st) !! d with
      | None => (Error kIOError, set_tb st (fault (tb st) UseAfterFree))
      | Some x =>
          let s := ProbeDir x st in
          if negb (ok s) then (Error s, leave st)
          else
            let st := set_tb st (tb_assert GigaAssert
                        (HashToIndex_assert (giga o) (d_index x) (name_hash b)) (tb st)) in
            if negb (HashToServer (giga o) (d_index x) (name_hash b) =? srv_id o)
            then (Redirected (Encode (d_index x)), leave st)
            else let (out, st) := body d st in (out, leave st)
      end
  end.

(** The transaction of a writer: [new Dir::Tx], published in [d->tx]. *)
Definition begin_tx (line : Z) (d : nat) (st : SRV) : Tx * SRV :=
  let tx := CreateTx (db st) in
  let t := match dir_objs (tb st) !! d with
           | Some x => tb_assert (SrvAssert line) (negb (bool_decide (is_Some (d_tx x)))) (tb st)
           | None => tb st
           end in
  (tx, set_tb st (upd_dir d (dir_set_tx (tx_snap tx)) t)).
Definition end_tx (d : nat) (st : SRV) : SRV :=
  set_tb st (upd_dir d (dir_set_tx None) (tb st)).

(** The transaction a reader uses: the writer's, if one is in progress. *)
Definition reader_tx (d : nat) (st : SRV) : option Tx :=
  match dir_objs (tb st) !! d with
  | Some x => match d_tx x with Some s => Some (mkTx (Some s) []) | None => None end
  | None => None
  end.

Definition dir_size (d : nat) (st : SRV) : Z :=
  match dir_objs (tb st) !! d with Some x => d_size x | None => 0 end.
Definition dir_mtime (d : nat) (st : SRV) : Z :=
  match dir_objs (tb st) !! d with Some x => d_mtime x | None => 0 end.

(** The stored name is compared with the hash in paranoid mode. *)
Definition check_stored (s : Status) (r : option (Stat * bytes)) (hash : bytes) : Status :=
  match r with
  | Some (_, nm) => if ok s && paranoid o && hash_mismatch hash nm then kCorruption else s
  | None => s
  end.

Definition zero_stat : Stat := mkStat 0 0 0 0 0 0 0 0 0 0.

(** ** Handlers *)

Definition fstat_work (b : BaseOptions) (d : nat) (st : SRV) : Outcome Stat * SRV :=
  let '(s, r, x) := GetNode (db st) (dir_id b) (name_hash b) (reader_tx d st) in
  let st := set_db st x in
  let s := check_stored s r (name_hash b) in
  match r with
  | Some (stat, _) => (if ok s then Ok stat else Error s, st)
  | None => (Error s, st)
  end.

Definition Fstat (b : BaseOptions) (st : SRV) : Outcome Stat * SRV :=
  let s := check_read kInvalidArgument b in
  if negb (ok s) then (Error s, st) else with_dir b false st (fstat_work b).

(** The creation tail of [Fcreat] and [Mkdir] for a name that was not found:
    the entry and the directory's info go to the store in one batch. *)
Definition create_node (b : BaseOptions) (stat : Stat) (my_time : Z) (d : nat) (tx : Tx)
    (st : SRV) : Status * SRV :=
  let '(s, tx, x) := SetNode (db st) (dir_id b) (name_hash b) stat (name b) (Some tx) in
  let st := set_db st x in
  if negb (ok s) then (s, st) else
  let '(s, tx, x) := SetInfo (db st) (dir_id b) (mkDirInfo my_time (s32 (1 + dir_size d st))) tx in
  let st := set_db st x in
  if negb (ok s) then (s, st) else
  let (s, x) := Commit (db st) tx in (s, set_db st x).

(** Back under the mutex: the in-memory size and mtime follow the commit. *)
Definition bump_dir (line : Z) (d : nat) (delta my_time : Z) (st : SRV) : SRV :=
  let sz := s32 (delta + dir_size d st) in
  let t := tb_assert (SrvAssert line) (dir_mtime d st <=? my_time) (tb st) in
  set_tb st (upd_dir d (dir_set_size_mtime sz my_time) t).

(** The work of [Fcreat] and [Mkdir], which differ in the kind of node they
    create or accept ([is_kind], else the error [not_kind]) and in the [Stat]
    they give to a new one.  The reply says if the node was created. *)
Definition create_work (b : BaseOptions) (flags : Z) (is_kind : Z -> bool) (not_kind : Status)
    (new_stat : Z -> Z -> Stat) (tx_line mtime_line : Z) (d : nat) (st : SRV)
    : Outcome (bool * Stat) * SRV :=
  let (my_time, t) := CurrentMicros (tb st) in
  let (my_ino, st) := NextIno (set_tb st t) in
  let (tx, st) := begin_tx tx_line d st in
  let '(s, r, x) := GetNode (db st) (dir_id b) (name_hash b) (Some tx) in
  let st := set_db st x in
  let s := check_stored s r (name_hash b) in
  match r with
  | Some (stat, _) =>
      let s := if negb (ok s) then s
               else if Z.land flags O_EXCL =? O_EXCL then kAlreadyExists
               else if negb (is_kind (FileMode stat)) then not_kind else kOk in
      let st := end_tx d (TryReuseIno my_ino st) in
      (if ok s then Ok (false, stat) else Error s, st)
  | None =>
      if IsNotFound s then
        let stat := new_stat my_ino my_time in
        let (s, st) := create_node b stat my_time d tx st in
        if ok s then (Ok (true, stat), end_tx d (bump_dir mtime_line d 1 my_time st))
        else (Error s, end_tx d (TryReuseIno my_ino st))
      else (Error s, end_tx d (TryReuseIno my_ino st))
  end.

Definition new_file (q : FcreatOptions) (my_ino my_time : Z) : Stat :=
  let mode := Z.lor S_IFREG (Z.land (fc_mode q) ACCESSPERMS) in
  mkStat (reg_id o) (snap_id o) my_ino 0 mode 0 (fc_uid q) (fc_gid q) my_time my_time.

Definition Fcreat (q : FcreatOptions) (st : SRV) : Outcome FcreatRet * SRV :=
  let b := fc_base q in
  let s := check_create b in
  if negb (ok s) then (Error s, st) else
  let (out, st) := with_dir b true st
    (create_work b (fc_flags q) S_ISREG kFileExpected (new_file q) 320 381) in
  (match out with
   | Ok (c, stat) => Ok (mkFcreatRet c stat)
   | Error s => Error s
   | Redirected i => Redirected i
   end, st).

Definition new_dir_stat (q : MkdirOptions) (my_ino my_time : Z) : Stat :=
  let my_id := mkDirId (reg_id o) (snap_id o) my_ino in
  let mode := Z.lor (Z.lor S_IFDIR (Z.land (mk_mode q) ACCESSPERMS))
                (Z.land (mk_mode q) DELTAFS_DIR_MASK) in
  let zserver := Z.rem (PickupServer my_id) (nvs o) in
  mkStat (reg_id o) (snap_id o) my_ino 0 mode (u32 zserver) (mk_uid q) (mk_gid q)
    my_time my_time.

Definition Mkdir (q : MkdirOptions) (st : SRV) : Outcome Stat * SRV :=
  let b := mk_base q in
  let s := check_create b in
  if negb (ok s) then (Error s, st) else
  let (out, st) := with_dir b true st
    (create_work b (mk_flags q) S_ISDIR kDirExpected (new_dir_stat q) 596 659) in
  (match out with
   | Ok (_, stat) => Ok stat
   | Error s => Error s
   | Redirected i => Redirected i
   end, st).

(** Remove the entry and store the smaller size, in one batch. *)
Definition remove_node (b : BaseOptions) (my_time : Z) (d : nat) (tx : Tx) (st : SRV)
    : Status * SRV :=
  let '(s, tx, x) := DelNode (db st) (dir_id b) (name_hash b) (Some tx) in
  let st := set_db st x in
  if negb (ok s) then (s, st) else
  let '(s, tx, x) := SetInfo (db st) (dir_id b) (mkDirInfo my_time (s32 (dir_size d st - 1))) tx in
  let st := set_db st x in
  if negb (ok s) then (s, st) else
  let (s, x) := Commit (db st) tx in (s, set_db st x).

Definition unlink_work (q : UnlinkOptions) (d : nat) (st : SRV) : Outcome Stat * SRV :=
  let b := un_base q in
  let (my_time, t) := CurrentMicros (tb st) in
  let (tx, st) := begin_tx 459 d (set_tb st t) in
  let '(s, r, x) := GetNode (db st) (dir_id b) (name_hash b) (Some tx) in
  let st := set_db st x in
  let s := check_stored s r (name_hash b) in
  match r with
  | Some (stat, _) =>
      if negb (ok s) then (Error s, end_tx d st)
      else if negb (S_ISREG (FileMode stat)) then (Error kFileExpected, end_tx d st)
      else
        let (s, st) := remove_node b my_time d tx st in
        if ok s then
          let st := set_tb st (tb_assert (SrvAssert 517) (1 <? dir_size d st) (tb st)) in
          (Ok stat, end_tx d (bump_dir 519 d (-1) my_time st))
        else (Error s, end_tx d st)
  | None =>
      if IsNotFound s && negb (Z.land (un_flags q) O_EXCL =? O_EXCL)
      then (Ok zero_stat, end_tx d st)
      else (Error s, end_tx d st)
  end.

Definition Unlink (q : UnlinkOptions) (st : SRV) : Outcome Stat * SRV :=
  let s := check_read kInvalidArgument (un_base q) in
  if negb (ok s) then (Error s, st) else with_dir (un_base q) true st (unlink_work q).

(** Write back a modified entry, with the directory's info if [info] is given. *)
Definition store_node (b : BaseOptions) (stat : Stat) (nm : bytes) (info : option DirInfo)
    (tx : Tx) (st : SRV) : Status * SRV :=
  let '(s, tx, x) := SetNode (db st) (dir_id b) (name_hash b) stat nm (Some tx) in
  let st := set_db st x in
  if negb (ok s) then (s, st) else
  let '(s, tx, st) :=
    match info with
    | Some i => let '(s, tx, x) := SetInfo (db st) (dir_id b) i tx in (s, tx, set_db st x)
    | None => (s, tx, st)
    end in
  if negb (ok s) then (s, st) else
  let (s, x) := Commit (db st) tx in (s, set_db st x).

(** The common shape of [Utime] and [Trunc]: read, modify, write back. *)
Definition rewrite_work (b : BaseOptions) (line : Z) (edit : Z -> Stat -> Status * Stat)
    (d : nat) (st : SRV) : Outcome Stat * SRV :=
  let (my_time, t) := CurrentMicros (tb st) in
  let (tx, st) := begin_tx line d (set_tb st t) in
  let '(s, r, x) := GetNode (db st) (dir_id b) (name_hash b) (Some tx) in
  let st := set_db st x in
  match r with
  | Some (stat, nm) =>
      let (s, stat) := edit my_time stat in
      if negb (ok s) then (Error s, end_tx d st) else
      let (s, st) := store_node b stat nm None tx st in
      (if ok s then Ok stat else Error s, end_tx d st)
  | None => (Error s, end_tx d st)
  end.

Definition set_times (mtime ctime : Z) (s : Stat) : Stat :=
  mkStat (RegId s) (SnapId s) (InodeNo s) (FileSize s) (FileMode s) (ZerothServer s)
    (UserId s) (GroupId s) mtime ctime.
Definition set_size (sz : Z) (s : Stat) : Stat :=
  mkStat (RegId s) (SnapId s) (InodeNo s) sz (FileMode s) (ZerothServer s)
    (UserId s) (GroupId s) (ModifyTime s) (ChangeTime s).

Definition utime_edit (q : UtimeOptions) (my_time : Z) (stat : Stat) : Status * Stat :=
  (kOk, set_times (ut_mtime q) my_time stat).

Definition Utime (q : UtimeOptions) (st : SRV) : Outcome Stat * SRV :=
  let s := check_read kCorruption (ut_base q) in
  if negb (ok s) then (Error s, st) else
  with_dir (ut_base q) true st (rewrite_work (ut_base q) 732 (utime_edit q)).

Definition trunc_edit (q : TruncOptions) (my_time : Z) (stat : Stat) : Status * Stat :=
  if negb (S_ISREG (FileMode stat)) then (kFileExpected, stat)
  else (kOk, set_times (tr_mtime q) my_time (set_size (tr_size q) stat)).

Definition Trunc (q : TruncOptions) (st : SRV) : Outcome Stat * SRV :=
  let s := check_read kCorruption (tr_base q) in
  if negb (ok s) then (Error s, st) else
  with_dir (tr_base q) true st (rewrite_work (tr_base q) 819 (trunc_edit q)).

(** ** Leases *)

Definition lease_set (s : LeaseState) (due : Z) (l : Lease) : Lease :=
  mkLease (l_seq l) (l_parent l) due s.
Definition lease_set_seq (s : Z) (l : Lease) : Lease :=
  mkLease s (l_parent l) (l_due l) (l_state l).

(** Find the lease of a name, or install a new one.  [Insert] only throws if
    the key exists, which the preceding [Lookup] excludes. *)
Definition get_lease (b : BaseOptions) (d : nat) (t : Tb) : option nat * Tb :=
  let (lref, t) := leases_Lookup t (dir_id b) (name_hash b) in
  match lref with
  | Some r => (Some r, t)
  | None =>
      let (l, t) := new_lease t (mkLease 0 d 0 kLeaseFree) in
      match leases_Insert t (dir_id b) (name_hash b) l with
      | (Some r, t) => (Some r, upd_dir d (dir_add_leases 1) t)
      | (None, t) => (None, set_lease_objs t (delete l (lease_objs t)))
      end
  end.

(** The lease part of [Lookup]: the due date given to the client, 0 for no
    lease. *)
Definition grant_lease (b : BaseOptions) (d : nat) (my_seq my_end : Z) (t : Tb) : Z * Tb :=
  match get_lease b d t with
  | (None, t) => (0, fault t (SrvAssert 998))
  | (Some lref, t) =>
      let l := ref_value (leases t) lref in
      match lease_objs t !! l with
      | None => (0, leases_Release (fault t UseAfterFree) lref)
      | Some x =>
          if l_seq x <=? my_seq then
            match l_state x with
            | kLeaseLocked => (l_due x, leases_Release t lref)
            | _ =>
                let due := u64 (my_end + lease_duration o) in
                let t := tb_assert (SrvAssert 1018) (l_due x <=? due) t in
                (due, leases_Release (upd_lease l (lease_set kLeaseShared due) t) lref)
            end
          else (0, leases_Release t lref)
      end
  end.

Definition lookup_work (b : BaseOptions) (d : nat) (st : SRV) : Outcome LookupStat * SRV :=
  let (my_start, t) := CurrentMicros (tb st) in
  let st := set_tb st t in
  let my_seq := match dir_objs (tb st) !! d with Some x => d_seq x | None => 0 end in
  let '(s, r, x) := GetNode (db st) (dir_id b) (name_hash b) (reader_tx d st) in
  let st := set_db st x in
  let (my_end, t) := CurrentMicros (tb st) in
  let st := set_tb st t in
  match r with
  | Some (stat, _) =>
      if negb (S_ISDIR (FileMode stat)) then (Error kDirExpected, st)
      else
        let (due, t) :=
          if u64 (my_end - my_start) <? u64 (lease_duration o - 10)
          then grant_lease b d my_seq my_end (tb st) else (0, tb st) in
        (Ok (LookupStat_CopyFrom (mkLookupStat 0 0 0 0 0 0 0 due) stat), set_tb st t)
  | None => (Error s, st)
  end.

Definition Lookup (b : BaseOptions) (st : SRV) : Outcome LookupStat * SRV :=
  let s := check_read kCorruption b in
  if negb (ok s) then (Error s, st) else with_dir b false st (lookup_work b).

(** The wait loop of [Uperm]: the first iteration locks the lease, so there is
    at most one. *)
Definition wait_lease (l : nat) (my_end : Z) (t : Tb) : Z * Tb :=
  match lease_objs t !! l with
  | Some x =>
      match l_state x with
      | kLeaseShared =>
          if my_end <? l_due x then
            let t := upd_lease l (lease_set kLeaseLocked (l_due x)) t in
            let t := SleepForMicroseconds (u64 (l_due x - my_end + 10)) t in
            CurrentMicros t
          else (my_end, t)
      | _ => (my_end, t)
      end
  | None => (my_end, fault t UseAfterFree)
  end.

(** The lease part of [Uperm] for a directory: wait until the lease expires,
    then install a lease for the new version. *)
Definition revoke_lease (b : BaseOptions) (d : nat) (my_end : Z) (t : Tb) : Tb :=
  match get_lease b d t with
  | (None, t) => fault t (SrvAssert 1165)
  | (Some lref, t) =>
      let l := ref_value (leases t) lref in
      let t := match lease_objs t !! l with
               | Some x => tb_assert (SrvAssert 1184)
                             (match l_state x with kLeaseLocked => false | _ => true end) t
               | None => t
               end in
      let (my_end, t) := wait_lease l my_end t in
      let t := match lease_objs t !! l with
               | Some x => tb_assert (SrvAssert 1194) (Nat.eqb (l_parent x) d) t
               | None => t
               end in
      let seq := match dir_objs t !! d with Some x => u64 (1 + d_seq x) | None => 0 end in
      let t := upd_dir d (dir_set_seq seq) t in
      let t := upd_lease l (lease_set_seq seq) t in
      let due := u64 (my_end + lease_duration o) in
      let t := match lease_objs t !! l with
               | Some x => tb_assert (SrvAssert 1197) (l_due x <=? due) t
               | None => t
               end in
      leases_Release (upd_lease l (lease_set kLeaseFree due) t) lref
  end.

Definition uperm_stat (q : UpermOptions) (my_start : Z) (s : Stat) : Stat :=
  let mode := if up_mode q =? DELTAFS_NON then FileMode s
              else Z.lor (Z.land (u32 (Z.lnot ACCESSPERMS)) (FileMode s))
                         (Z.land ACCESSPERMS (up_mode q)) in
  let uid := if up_uid q =? DELTAFS_NON then UserId s else up_uid q in
  let gid := if up_gid q =? DELTAFS_NON then GroupId s else up_gid q in
  mkStat (RegId s) (SnapId s) (InodeNo s) (FileSize s) mode (ZerothServer s) uid gid
    (ModifyTime s) my_start.

Definition uperm_work (q : UpermOptions) (d : nat) (st : SRV) : Outcome Stat * SRV :=
  let b := up_base q in
  let (my_start, t) := CurrentMicros (tb st) in
  let (tx, st) := begin_tx 1104 d (set_tb st t) in
  let '(s, r, x) := GetNode (db st) (dir_id b) (name_hash b) (Some tx) in
  let st := set_db st x in
  let s := check_stored s r (name_hash b) in
  match r with
  | Some (stat, nm) =>
      if negb (ok s) then
        let (_, t) := CurrentMicros (tb st) in (Error s, end_tx d (set_tb st t))
      else
        let stat := uperm_stat q my_start stat in
        let info := mkDirInfo my_start (dir_size d st) in
        let (s, st) := store_node b stat nm (Some info) tx st in
        let (my_end, t) := CurrentMicros (tb st) in
        let st := set_tb st t in
        if ok s then
          let st := if S_ISDIR (FileMode stat)
                    then set_tb st (revoke_lease b d my_end (tb st)) else st in
          let t := tb_assert (SrvAssert 1202) (dir_mtime d st <=? my_start) (tb st) in
          (Ok stat, end_tx d (set_tb st (upd_dir d (dir_set_mtime my_start) t)))
        else (Error s, end_tx d st)
  | None =>
      let (_, t) := CurrentMicros (tb st) in (Error s, end_tx d (set_tb st t))
  end.

Definition Uperm (q : UpermOptions) (st : SRV) : Outcome Stat * SRV :=
  let s := check_read kCorruption (up_base q) in
  if negb (ok s) then (Error s, st) else with_dir (up_base q) true st (uperm_work q).

Definition Chmod (q : ChmodOptions) (st : SRV) : Outcome Stat * SRV :=
  Uperm (mkUperm (cm_base q) (cm_mode q) DELTAFS_NON DELTAFS_NON) st.
Definition Chown (q : ChownOptions) (st : SRV) : Outcome Stat * SRV :=
  Uperm (mkUperm (co_base q) DELTAFS_NON (co_uid q) (co_gid q)) st.

(** ** Listing, index and session requests *)

Definition Listdir (b : BaseOptions) (st : SRV) : Outcome (list bytes) * SRV :=
  let kSizeLimit := 1000%nat in
  let (l, d) := List_ (db st) (dir_id b) None kSizeLimit in
  (Ok (map snd l), set_db st d).

Definition Readidx (b : BaseOptions) (st : SRV) : Outcome bytes * SRV :=
  let '(s, ref, st) := FetchDir (dir_id b) st in
  match ref with
  | None => (Error s, st)
  | Some ref =>
      let d := ref_value (dirs (tb st)) ref in
      match dir_objs (tb st) !! d with
      | None => (Error kIOError, set_tb st (fault (tb st) UseAfterFree))
      | Some x =>
          let s := ProbeDir x st in
          (if ok s then Ok (Encode (d_index x)) else Error s,
           set_tb st (dirs_Release (tb st) ref))
      end
  end.

Definition Opensession (st : SRV) : Outcome OpensessionRet * SRV :=
  let e := mds_env o in
  let (s, st) := NextSession st in
  (Ok (mkOpensessionRet (env_name e) (env_conf e) (fio_name e) (fio_conf e) s), st).
Definition Getinput (st : SRV) : Outcome bytes * SRV := (Ok (input_conf (mds_env o)), st).
Definition Getoutput (st : SRV) : Outcome bytes * SRV := (Ok (output_conf (mds_env o)), st).
End SRV.
