(* ===== verification/MdsSrvInv.v ===== *)
(** * Invariants of the metadata server

    [DInv]: the directory table and the directory objects agree: every live
    entry points to a live object of its own, and no object is leaked.
    [SrvInv] adds what the objects hold between requests: unlocked, with no
    transaction, and with the size and mtime the store has.  The lemmas below
    show that every step of a handler keeps them. *)
From S2P Require Import Prelude Coding Status FsTypes Gigaplus Lru Tables Mdb MdsApi MdsSrv.

Section Inv.
Context {kv : KV} {xx : XXHash} (o : MDSOptions).

(** ** Framing

    A directory object up to its lease counter: the counter is the only field
    that operations on other objects change. *)
Definition core (x : Dir) : Dir :=
  mkDir (d_mtime x) (d_seq x) (d_tx x) (d_index x) (d_status x) 0 (d_size x) (d_locked x).
Definition cores (t : Tb) : gmap nat Dir := core <$> dir_objs t.

(** [t'] has the directory table of [t] and the same directory objects. *)
Record frame (t t' : Tb) : Prop := {
  fr_dirs : dirs t' = dirs t;
  fr_cores : cores t' = cores t;
  fr_next : (next_obj t <= next_obj t')%nat }.

#[local] Instance frame_preorder : PreOrder frame.
Proof.
  split.
  - intros t. by split.
  - intros a b c [A1 A2 A3] [B1 B2 B3]. split; [congruence|congruence|lia].
Qed.

Lemma core_idem x : core (core x) = core x.
Proof. done. Qed.

Lemma frame_fault t f : frame t (fault t f).
Proof. by split. Qed.
Lemma frame_assert t f b : frame t (tb_assert f b t).
Proof. destruct b; [reflexivity|apply frame_fault]. Qed.
Lemma frame_clock t : frame t (CurrentMicros t).2.
Proof. by split. Qed.
Lemma frame_sleep n t : frame t (SleepForMicroseconds n t).
Proof. by split. Qed.
Lemma frame_set_leases t l : frame t (set_leases t l).
Proof. by split. Qed.
Lemma frame_set_lease_objs t l : frame t (set_lease_objs t l).
Proof. by split. Qed.
Lemma frame_upd_lease t l f : frame t (upd_lease l f t).
Proof. unfold upd_lease. case_match; by split. Qed.
Lemma frame_new_lease t l : frame t (new_lease t l).2.
Proof. split; [done|done|cbn; lia]. Qed.

(** An update through a pointer, seen on the cores. *)
Lemma cores_upd_dir t d f x :
  (forall y, core (f y) = core (f (core y))) -> cores t !! d = Some x ->
  cores (upd_dir d f t) = <[d := core (f x)]> (cores t).
Proof.
  intros Hf Hx. unfold cores in Hx. rewrite lookup_fmap in Hx. unfold upd_dir.
  destruct (dir_objs t !! d) as [y|] eqn:Hy; [|done]. cbn in Hx. simplify_eq.
  unfold cores. cbn. by rewrite fmap_insert, Hf.
Qed.
Lemma upd_dir_dirs t d f : dirs (upd_dir d f t) = dirs t.
Proof. unfold upd_dir. by case_match. Qed.
Lemma upd_dir_next t d f : next_obj (upd_dir d f t) = next_obj t.
Proof. unfold upd_dir. by case_match. Qed.

(** The lease counter is not part of the core. *)
Lemma frame_add_leases t d n : frame t (upd_dir d (dir_add_leases n) t).
Proof.
  split; [apply upd_dir_dirs| |by rewrite upd_dir_next].
  destruct (cores t !! d) as [x|] eqn:Hx.
  - rewrite (cores_upd_dir t d _ x) by done. rewrite insert_id; [done|].
    unfold cores in Hx. rewrite lookup_fmap in Hx. unfold cores. rewrite lookup_fmap.
    destruct (dir_objs t !! d); [|done]. cbn in *. by simplify_eq.
  - unfold cores in Hx. rewrite lookup_fmap in Hx. unfold upd_dir.
    by destruct (dir_objs t !! d).
Qed.

Lemma frame_DeleteLease t l : frame t (DeleteLease t l).
Proof.
  unfold DeleteLease. destruct (lease_objs t !! l) as [x|]; [|apply frame_fault].
  set (t1 := tb_assert _ _ t). set (t2 := upd_dir _ _ t1).
  transitivity t1; [apply frame_assert|]. transitivity t2; [apply frame_add_leases|].
  transitivity (match dir_objs t2 !! l_parent x with
     Some d => tb_assert LeasesNegative (0 <=? d_num_leases d) t2 | None => t2 end).
  - case_match; [apply frame_assert|reflexivity].
  - apply frame_set_lease_objs.
Qed.

Lemma frame_DeleteLeases l : forall t, frame t (fold_left DeleteLease l t).
Proof.
  induction l as [|x l IH]; intros t; cbn; [reflexivity|].
  etransitivity; [apply frame_DeleteLease|apply IH].
Qed.

Lemma frame_leases_Lookup t id h : frame t (leases_Lookup t id h).2.
Proof. unfold leases_Lookup. destruct (LeaseTable.Lookup _ _ _). apply frame_set_leases. Qed.
Lemma frame_leases_Insert t id h l : frame t (leases_Insert t id h l).2.
Proof.
  unfold leases_Insert. destruct (LeaseTable.Insert _ _ _ _) as [[[r x] dead]|]; [|reflexivity].
  cbn. etransitivity; [apply frame_set_leases|apply frame_DeleteLeases].
Qed.
Lemma frame_leases_Release t r : frame t (leases_Release t r).
Proof.
  unfold leases_Release. destruct (LeaseTable.Release _ _).
  etransitivity; [apply frame_set_leases|apply frame_DeleteLeases].
Qed.

Lemma frame_get_lease b d t : frame t (get_lease b d t).2.
Proof.
  unfold get_lease. pose proof (frame_leases_Lookup t (dir_id b) (name_hash b)) as H1.
  destruct (leases_Lookup t (dir_id b) (name_hash b)) as [[r|] t1]; [done|].
  pose proof (frame_new_lease t1 (mkLease 0 d 0 kLeaseFree)) as H2.
  destruct (new_lease t1 _) as [l t2]. cbn [snd] in *.
  pose proof (frame_leases_Insert t2 (dir_id b) (name_hash b) l) as H3.
  destruct (leases_Insert t2 (dir_id b) (name_hash b) l) as [[r|] t3]; cbn [snd] in *.
  - etransitivity; [exact H1|]. etransitivity; [exact H2|]. etransitivity; [exact H3|].
    apply frame_add_leases.
  - etransitivity; [exact H1|]. etransitivity; [exact H2|]. etransitivity; [exact H3|].
    apply frame_set_lease_objs.
Qed.

Lemma frame_grant_lease b d s e t : frame t (grant_lease o b d s e t).2.
Proof.
  unfold grant_lease. pose proof (frame_get_lease b d t) as H1.
  destruct (get_lease b d t) as [[lref|] t1]; cbn [snd] in *.
  2: { etransitivity; [exact H1|apply frame_fault]. }
  etransitivity; [exact H1|]. destruct (lease_objs t1 !! _) as [x|]; cbn [snd].
  2: { etransitivity; [apply frame_fault|apply frame_leases_Release]. }
  destruct (l_seq x <=? s); cbn [snd]; [|apply frame_leases_Release].
  destruct (l_state x); cbn [snd]; try apply frame_leases_Release;
    (etransitivity; [apply frame_assert|]; etransitivity; [apply frame_upd_lease|];
     apply frame_leases_Release).
Qed.

Lemma frame_wait_lease l e t : frame t (wait_lease l e t).2.
Proof.
  unfold wait_lease. destruct (lease_objs t !! l) as [x|]; [|apply frame_fault].
  destruct (l_state x); try reflexivity. case_match; [|reflexivity].
  etransitivity; [apply frame_upd_lease|]. etransitivity; [apply frame_sleep|apply frame_clock].
Qed.

(** [t'] differs from [t] in the object [d], whose core is now [y]. *)
Record moves (d : nat) (y : Dir) (t t' : Tb) : Prop := {
  mv_dirs : dirs t' = dirs t;
  mv_cores : cores t' = <[d := y]> (cores t);
  mv_next : (next_obj t <= next_obj t')%nat }.

Lemma moves_refl d x t : cores t !! d = Some x -> moves d x t t.
Proof. intros. split; [done|by rewrite insert_id|done]. Qed.
Lemma moves_at d y t t' : moves d y t t' -> cores t' !! d = Some y.
Proof. intros [_ -> _]. apply lookup_insert_eq. Qed.
Lemma moves_frame d y t t' t'' : moves d y t t' -> frame t' t'' -> moves d y t t''.
Proof. intros [A1 A2 A3] [B1 B2 B3]. split; [congruence|congruence|lia]. Qed.
Lemma moves_upd d y t t' f :
  moves d y t t' -> (forall y, core (f y) = core (f (core y))) ->
  moves d (core (f y)) t (upd_dir d f t').
Proof.
  intros Hm Hf. pose proof (moves_at _ _ _ _ Hm) as Hy. destruct Hm as [A1 A2 A3].
  split; [by rewrite upd_dir_dirs| |by rewrite upd_dir_next].
  rewrite (cores_upd_dir t' d f y) by done. by rewrite A2, insert_insert_eq.
Qed.

Lemma cores_core t d x : cores t !! d = Some x -> core x = x.
Proof.
  unfold cores. rewrite lookup_fmap. destruct (dir_objs t !! d); [|done]. cbn. intros [= <-]. done.
Qed.

Lemma moves_revoke_lease b d e t x :
  cores t !! d = Some x ->
  exists s, moves d (dir_set_seq s x) t (revoke_lease o b d e t).
Proof.
  intros Hx. pose proof (cores_core _ _ _ Hx) as Hc. unfold revoke_lease.
  pose proof (frame_get_lease b d t) as H1.
  assert (Hid : dir_set_seq (d_seq x) x = x) by (destruct x; done).
  destruct (get_lease b d t) as [[lref|] t1]; cbn [snd] in *.
  2: { exists (d_seq x). rewrite Hid.
       eapply moves_frame; [|apply frame_fault]. eapply moves_frame; [by apply moves_refl|done]. }
  set (l := ref_value (leases t1) lref).
  set (t2 := match lease_objs t1 !! l with Some _ => _ | None => _ end).
  assert (F2 : frame t1 t2) by (unfold t2; case_match; [apply frame_assert|reflexivity]).
  pose proof (frame_wait_lease l e t2) as F3. destruct (wait_lease l e t2) as [e' t3]. cbn [snd] in F3.
  set (t4 := match lease_objs t3 !! l with Some _ => _ | None => _ end).
  assert (F4 : frame t3 t4) by (unfold t4; case_match; [apply frame_assert|reflexivity]).
  set (s := match dir_objs t4 !! d with Some _ => _ | None => _ end). exists s.
  assert (M4 : moves d x t t4).
  { do 4 (eapply moves_frame; [|eassumption]). by apply moves_refl. }
  pose proof (moves_upd d x t t4 (dir_set_seq s) M4 ltac:(done)) as M5.
  replace (core (dir_set_seq s x)) with (dir_set_seq s x) in M5 by (by rewrite <- Hc).
  set (t5 := upd_dir d (dir_set_seq s) t4) in *.
  eapply moves_frame; [exact M5|].
  etransitivity; [apply (frame_upd_lease t5 l (lease_set_seq s))|].
  set (t6 := upd_lease l (lease_set_seq s) t5).
  etransitivity; [|apply frame_leases_Release]. etransitivity; [|apply frame_upd_lease].
  case_match; [apply frame_assert|reflexivity].
Qed.

(** ** The directory table and its objects *)

Record DInv (hs : list nat) (l : LRU (V := nat)) (c : gmap nat Dir) (n : nat) : Prop := {
  di_lru : LRUInv l;
  di_acct : Acct hs l;
  di_val : forall r k d, kvs l !! r = Some (k, d) -> is_Some (c !! d);
  di_inj : forall r r' k k' d, kvs l !! r = Some (k, d) -> kvs l !! r' = Some (k', d) -> r = r';
  di_own : forall d, is_Some (c !! d) -> exists r k, kvs l !! r = Some (k, d);
  di_fresh : forall d, is_Some (c !! d) -> (d < n)%nat }.

(** The invariant depends on the set of live objects only. *)
Lemma DInv_dom hs l c c' n n' :
  DInv hs l c n -> (forall d, is_Some (c' !! d) <-> is_Some (c !! d)) -> (n <= n')%nat ->
  DInv hs l c' n'.
Proof.
  intros [H1 H2 H3 H4 H5 H6] Hd Hn. split; try done.
  - intros r k d Hr. apply Hd. by eapply H3.
  - intros d Hs. apply H5. by apply Hd.
  - intros d Hs%Hd. specialize (H6 d Hs). lia.
Qed.

Lemma DInv_moves hs d y t t' :
  DInv hs (dirs t) (cores t) (next_obj t) -> is_Some (cores t !! d) -> moves d y t t' ->
  DInv hs (dirs t') (cores t') (next_obj t').
Proof.
  intros HI Hd [-> -> Hn]. eapply DInv_dom; [exact HI| |done].
  intros d'. destruct (decide (d' = d)) as [->|]; [|by rewrite lookup_insert_ne].
  rewrite lookup_insert_eq. by split.
Qed.

(** Deleting objects: the cores lose exactly the deleted ones. *)
Lemma cores_DeleteDir t d :
  cores (DeleteDir t d) = delete d (cores t) /\ dirs (DeleteDir t d) = dirs t /\
  next_obj (DeleteDir t d) = next_obj t.
Proof.
  unfold DeleteDir. destruct (dir_objs t !! d) as [x|] eqn:Hd.
  - assert (E : forall t', dir_objs t' = dir_objs t -> dirs t' = dirs t -> next_obj t' = next_obj t ->
      cores (set_dir_objs t' (delete d (dir_objs t'))) = delete d (cores t) /\
      dirs (set_dir_objs t' (delete d (dir_objs t'))) = dirs t /\
      next_obj (set_dir_objs t' (delete d (dir_objs t'))) = next_obj t).
    { intros t' E1 E2 E3. unfold cores. cbn. by rewrite fmap_delete, E1. }
    apply E; by destruct (negb (Dir_busy x)).
  - split_and!; try done. unfold cores. cbn. rewrite delete_id; [done|]. by rewrite lookup_fmap, Hd.
Qed.

Lemma cores_DeleteDirs dead : forall t,
  let t' := fold_left DeleteDir dead t in
  (forall d, cores t' !! d = if decide (d ∈ dead) then None else cores t !! d) /\
  dirs t' = dirs t /\ next_obj t' = next_obj t.
Proof.
  induction dead as [|a dead IH]; intros t; cbn [fold_left]; [done|].
  destruct (cores_DeleteDir t a) as (E1 & E2 & E3). destruct (IH (DeleteDir t a)) as (F1 & F2 & F3).
  split_and!; [|congruence|congruence]. intros d. rewrite F1, E1.
  destruct (decide (d = a)) as [->|].
  - rewrite (decide_True (P := a ∈ a :: dead)) by (by left). rewrite lookup_delete_eq. by case_decide.
  - rewrite lookup_delete_ne by done.
    destruct (decide (d ∈ dead)), (decide (d ∈ a :: dead)); set_solver.
Qed.

(** The deleter keeps table and objects in step. *)
Lemma DInv_reaps hs (c' : gmap nat Dir) m l' (c : gmap nat Dir) dead n :
  LRUInv l' -> Acct hs l' -> reaps m (kvs l') dead ->
  (forall r k d, m !! r = Some (k, d) -> is_Some (c !! d)) ->
  (forall r r' k k' d, m !! r = Some (k, d) -> m !! r' = Some (k', d) -> r = r') ->
  (forall d, is_Some (c !! d) -> exists r k, m !! r = Some (k, d)) ->
  (forall d, is_Some (c !! d) -> (d < n)%nat) ->
  (forall d, c' !! d = if decide (d ∈ dead) then None else c !! d) ->
  DInv hs l' c' n.
Proof.
  intros HL HA (ids & -> & Nd & Hin & Hl') Hv Hi Ho Hf Hc.
  assert (Hdead : forall d, d ∈ ids.*2 -> exists r k, m !! r = Some (k, d) /\ r ∈ ids.*1).
  { intros d ([r ?] & -> & H)%list_elem_of_fmap. pose proof (Hin _ _ H) as Hm.
    destruct (m !! r) as [[k d]|] eqn:Em; [|done]. cbn in *. simplify_eq.
    exists r, k. split; [done|]. apply list_elem_of_fmap. by eexists (r, _). }
  assert (Halive : forall r k d, kvs l' !! r = Some (k, d) -> m !! r = Some (k, d) /\ d ∉ ids.*2).
  { intros r k d Hr. rewrite Hl' in Hr. case_decide as Hn; [done|]. split; [done|].
    intros (r' & k' & Hm & Hr')%Hdead. by rewrite (Hi r' r k' k d Hm Hr) in Hr'. }
  split; try done.
  - intros r k d [Hm Hd]%Halive. rewrite Hc, decide_False by done. by eapply Hv.
  - intros r r' k k' d [Hm _]%Halive [Hm' _]%Halive. by eapply Hi.
  - intros d. rewrite Hc. case_decide as Hd; [by intros [? ?]|]. intros Hs.
    destruct (Ho d Hs) as (r & k & Hm). exists r, k. rewrite Hl', decide_False; [done|].
    intros ([? v] & -> & H)%list_elem_of_fmap. pose proof (Hin _ _ H) as Hm'. cbn in Hm.
    rewrite Hm in Hm'. cbn in Hm'. simplify_eq. apply Hd, list_elem_of_fmap. by eexists (_, _).
  - intros d. rewrite Hc. case_decide; [by intros [? ?]|]. apply Hf.
Qed.

Lemma dirs_Lookup_spec hs t id :
  DInv hs (dirs t) (cores t) (next_obj t) ->
  let (r, t') := dirs_Lookup t id in
  cores t' = cores t /\ next_obj t' = next_obj t /\ kvs (dirs t') = kvs (dirs t) /\
  match r with
  | Some r => DInv (r :: hs) (dirs t') (cores t') (next_obj t') /\
              exists d, kvs (dirs t) !! r = Some (dir_key id, d)
  | None => DInv hs (dirs t') (cores t') (next_obj t') /\ table (dirs t') !! dir_key id = None
  end.
Proof.
  intros HI. pose proof (Lookup_kvs (dirs t) (dir_key id)) as Hk.
  pose proof HI as [HL HA Hv Hi Ho Hf].
  unfold dirs_Lookup, DirTable.Lookup, DirTable.LRUKey.
  destruct (Lru.Lookup (dirs t) (dir_key id)) as [[r|] l] eqn:E; cbn [snd] in Hk.
  - assert (Hs : SysInv (l, r :: hs)).
    { eapply step_inv; [|by eapply step_lookup]. by split. }
    split_and!; [done|done|done| |].
    + destruct Hs. split; cbn; try done; rewrite Hk; done.
    + unfold Lru.Lookup in E. destruct (table (dirs t) !! dir_key id) eqn:Ht; simplify_eq.
      destruct HL as [HL _]. apply (inv_table _ _ HL) in Ht as (_ & e & He & Hke & _).
      exists (e_value e). unfold kvs. by rewrite lookup_fmap, He, <- Hke.
  - unfold Lru.Lookup in E. destruct (table (dirs t) !! dir_key id) eqn:Ht; simplify_eq.
    split_and!; [done|done|done| |done]. by destruct t.
Qed.

(** A new object and its entry. *)
Lemma dirs_Insert_spec hs t id x :
  DInv hs (dirs t) (cores t) (next_obj t) -> table (dirs t) !! dir_key id = None ->
  let (d, t1) := new_dir t x in
  match dirs_Insert t1 id d with
  | (Some r, t2) =>
      DInv (r :: hs) (dirs t2) (cores t2) (next_obj t2) /\
      kvs (dirs t2) !! r = Some (dir_key id, d) /\ cores t2 !! d = Some (core x) /\
      (forall r' p, kvs (dirs t2) !! r' = Some p -> r' <> r -> kvs (dirs t) !! r' = Some p) /\
      (forall d' y, cores t2 !! d' = Some y -> d' <> d -> cores t !! d' = Some y)
  | (None, _) => False
  end.
Proof.
  intros HI Ht. unfold new_dir. pose proof HI as [HL HA Hv Hi Ho Hf].
  unfold dirs_Insert, DirTable.Insert, DirTable.LRUKey. cbn [dirs].
  assert (Exists (dirs t) (dir_key id) = false) as ->.
  { unfold Exists. rewrite Ht. done. }
  set (d := next_obj t). set (t1 := mkTb (dirs t) _ _ _ _ _ _ _).
  pose proof (Insert_reaps (dirs t) (dir_key id) d 1) as Hr.
  destruct (Lru.Insert (dirs t) (dir_key id) d 1) as [[r l] dead] eqn:E.
  destruct Hr as [-> Hr]. set (r := next (dirs t)) in *.
  assert (Hs : SysInv (l, r :: hs)).
  { eapply step_inv; [|eapply step_insert; [|exact E]; lia]. by split. }
  destruct (cores_DeleteDirs dead (set_dirs t1 l)) as (F1 & F2 & F3).
  set (t2 := fold_left DeleteDir dead (set_dirs t1 l)) in *.
  assert (Hc1 : cores (set_dirs t1 l) = <[d := core x]> (cores t)).
  { unfold cores, t1. cbn. by rewrite fmap_insert. }
  assert (Hfr : kvs (dirs t) !! r = None).
  { unfold kvs, r. rewrite lookup_fmap. destruct HL as [HL _]. by rewrite (next_fresh _ _ HL). }
  assert (Hcd : cores t !! d = None).
  { destruct (cores t !! d) eqn:Ed; [|done]. pose proof (Hf d (mk_is_Some _ _ Ed)). unfold d in *. lia. }
  assert (HD : DInv (r :: hs) (dirs t2) (cores t2) (next_obj t2)).
  { rewrite F2. destruct Hs as [HL' HA'].
    eapply (DInv_reaps _ _ (<[r := (dir_key id, d)]> (kvs (dirs t))) l
              (<[d := core x]> (cores t)) dead); try done.
    - intros r' k d' [[-> [= <- <-]]|[_ H]]%lookup_insert_Some.
      + by rewrite lookup_insert_eq.
      + rewrite lookup_insert_is_Some. destruct (decide (d = d')); [by left|right]. eauto.
    - intros r1 r2 k1 k2 d' H1 H2.
      apply lookup_insert_Some in H1 as [[<- E1]|[N1 H1]];
        apply lookup_insert_Some in H2 as [[<- E2]|[N2 H2]]; simplify_eq; try done.
      + destruct (Hv _ _ _ H2). congruence.
      + destruct (Hv _ _ _ H1). congruence.
      + by eapply Hi.
    - intros d' [<-|[Hne Hs]]%lookup_insert_is_Some.
      + exists r, (dir_key id). apply lookup_insert_eq.
      + destruct (Ho d' Hs) as (r' & k & H). exists r', k. rewrite lookup_insert_ne; [done|]. congruence.
    - intros d' [<-|[Hne Hs]]%lookup_insert_is_Some; rewrite F3; cbn; [unfold d; lia|].
      pose proof (Hf d' Hs). lia.
    - intros d'. by rewrite F1, Hc1. }
  assert (Hkr : kvs l !! r = Some (dir_key id, d)).
  { pose proof (Insert_spec (dirs t) (dir_key id) d 1 HL ltac:(lia)) as Hsp. rewrite E in Hsp.
    destruct Hsp as (_ & _ & _ & (refs & ic & Hn & _) & _).
    unfold kvs. by rewrite lookup_fmap, Hn. }
  split_and!; [done| | | |].
  - by rewrite F2.
  - destruct (di_val _ _ _ _ HD r (dir_key id) d) as [y Hy]; [by rewrite F2|]. rewrite Hy.
    rewrite F1, Hc1, lookup_insert_eq in Hy. by case_decide.
  - intros r' p. rewrite F2. destruct Hr as (ids & _ & _ & _ & Hr). rewrite Hr.
    case_decide; [done|]. intros Hl Hne. by rewrite lookup_insert_ne in Hl.
  - intros d' y. rewrite F1, Hc1. case_decide; [done|]. intros Hl Hne. by rewrite lookup_insert_ne in Hl.
Qed.

Lemma dirs_Release_spec hs t r :
  DInv (r :: hs) (dirs t) (cores t) (next_obj t) ->
  let t' := dirs_Release t r in
  DInv hs (dirs t') (cores t') (next_obj t') /\
  kvs (dirs t') ⊆ kvs (dirs t) /\ cores t' ⊆ cores t.
Proof.
  intros HI. pose proof HI as [HL HA Hv Hi Ho Hf]. unfold dirs_Release, DirTable.Release.
  pose proof (Unref_reaps (dirs t) r) as Hr. change (Unref (dirs t) r) with (Lru.Release (dirs t) r) in Hr.
  destruct (Lru.Release (dirs t) r) as [l dead] eqn:E. cbn [fst snd] in Hr.
  assert (Hs : SysInv (l, [] ++ hs)).
  { eapply step_inv; [|by eapply step_release]. by split. }
  destruct (cores_DeleteDirs dead (set_dirs t l)) as (F1 & F2 & F3).
  set (t2 := fold_left DeleteDir dead (set_dirs t l)) in *. cbv zeta. split_and!.
  - rewrite F2, F3. destruct Hs. by eapply (DInv_reaps _ _ (kvs (dirs t)) l (cores t) dead).
  - rewrite F2. destruct Hr as (ids & _ & _ & _ & Hr). apply map_subseteq_spec. intros i p.
    cbn. rewrite Hr. by case_decide.
  - apply map_subseteq_spec. intros d x. rewrite F1. by case_decide.
Qed.

(** ** Loading a directory *)

Definition meta_key (id : DirId) : bytes := PackPrefix id kDirMetaType.
Definition idx_key (id : DirId) : bytes := PackPrefix id kDirIdxType.
Definition info_at (m : gmap bytes bytes) (id : DirId) : option DirInfo :=
  m !! meta_key id ≫= fun v => fst <$> DirInfo_DecodeFrom v.

(** What loading may do to the store: create the two records of the directory
    where they are missing, with a size of zero. *)
Record loads (id : DirId) (m m' : gmap bytes bytes) : Prop := {
  ld_other : forall k, k <> meta_key id -> k <> idx_key id -> m' !! k = m !! k;
  ld_meta : is_Some (m !! meta_key id) -> m' !! meta_key id = m !! meta_key id;
  ld_new : m !! meta_key id = None -> m' !! meta_key id = None \/
    exists i, size i = 0 /\ info_at m' id = Some i;
  ld_idx : is_Some (m !! idx_key id) -> m' !! idx_key id = m !! idx_key id }.

(** The cached index of a directory and its record in the store: the index is
    what the record decodes to, or what it was encoded from. *)
Definition index_agrees (v : bytes) (r : Rep) : Prop :=
  (exists view, ParseDirIndex v false = Some view /\
     r = MergeView (NewRep (v_zeroth_server view)) view) \/ v = Encode r.

Definition index_at (m : gmap bytes bytes) (id : DirId) (r : Rep) : Prop :=
  exists v, m !! idx_key id = Some v /\ index_agrees v r.

Lemma loads_refl id m : loads id m m.
Proof. split; auto. Qed.

Lemma info_at_encode m id i :
  DirInfo_wf i -> info_at (<[meta_key id := DirInfo_EncodeTo i]> m) id = Some i.
Proof.
  intros Hw. unfold info_at. rewrite lookup_insert_eq. cbn.
  rewrite <- (app_nil_r (DirInfo_EncodeTo i)). by rewrite DirInfo_DecodeFrom_encode.
Qed.

Lemma meta_idx id : meta_key id <> idx_key id.
Proof.
  unfold meta_key, idx_key. rewrite !PackPrefix_EncodeId. intros [=]%app_inv_head.
Qed.

Lemma Update_rep d v d' : Update d v = Some d' -> is_Some (rep d').
Proof.
  unfold Update, TEST_Reset. destruct (rep d) as [r|].
  - destruct (ParseDirIndex v _); [|done]. case_match; [done|]. intros [= <-]. by eexists.
  - destruct (ParseDirIndex v _); [|done]. intros [= <-]. by eexists.
Qed.

Lemma ParseDirIndex_weaken v b view : ParseDirIndex v b = Some view -> ParseDirIndex v false = Some view.
Proof.
  unfold ParseDirIndex. cbv zeta. repeat (case_match; [done|]). cbn [andb].
  by destruct (b && _).
Qed.

Lemma Update_agrees g v d r :
  Update (DirIndex_empty g) v = Some d -> rep d = Some r -> index_agrees v r.
Proof.
  unfold Update, TEST_Reset. cbn [rep DirIndex_empty options].
  destruct (ParseDirIndex v (paranoid_checks g)) as [view|] eqn:Ep; [|done].
  intros [= <-] [= <-]. left. exists view. split; [|done]. by eapply ParseDirIndex_weaken.
Qed.

Lemma zero_info_wf t : DirInfo_wf (mkDirInfo (CurrentMicros t).1 0).
Proof. split; cbn; [apply u64_range|lia]. Qed.

(** The two keys a load may write. *)
Lemma loads_put_idx id m v : m !! idx_key id = None -> loads id m (<[idx_key id := v]> m).
Proof.
  intros Hi. pose proof (meta_idx id). split.
  - intros k _ Hk. by rewrite lookup_insert_ne.
  - intros _. by rewrite lookup_insert_ne.
  - intros Hm. left. by rewrite lookup_insert_ne.
  - rewrite Hi. by intros [? ?].
Qed.

Lemma loads_put_meta id m i :
  m !! meta_key id = None -> DirInfo_wf i -> size i = 0 ->
  loads id m (<[meta_key id := DirInfo_EncodeTo i]> m).
Proof.
  intros Hm Hw Hs. pose proof (meta_idx id). split.
  - intros k Hk _. by rewrite lookup_insert_ne.
  - rewrite Hm. by intros [? ?].
  - intros _. right. exists i. split; [done|by apply info_at_encode].
  - intros _. by rewrite lookup_insert_ne.
Qed.

Lemma info_at_put_idx id m v : info_at (<[idx_key id := v]> m) id = info_at m id.
Proof. unfold info_at. rewrite lookup_insert_ne; [done|]. apply not_eq_sym, meta_idx. Qed.

Lemma loads_put_both id m i v :
  m !! meta_key id = None -> m !! idx_key id = None -> DirInfo_wf i -> size i = 0 ->
  loads id m (<[idx_key id := v]> (<[meta_key id := DirInfo_EncodeTo i]> m)).
Proof.
  intros Hm Hi Hw Hs. pose proof (meta_idx id) as Hne. split.
  - intros k H1 H2. by rewrite !lookup_insert_ne.
  - rewrite Hm. by intros [? ?].
  - intros _. right. exists i. split; [done|]. rewrite info_at_put_idx. by apply info_at_encode.
  - rewrite Hi. by intros [? ?].
Qed.

(** What the rest of the server's state looks like after a load. *)
Record quiet (st st' : SRV) : Prop := {
  qt_session : session st' = session st;
  qt_ino : ino_ st' = ino_ st;
  qt_status : status_ st' = status_ st;
  qt_frame : frame (tb st) (tb st') }.

#[local] Instance quiet_preorder : PreOrder quiet.
Proof.
  split.
  - intros st. split; reflexivity.
  - intros a b c [A1 A2 A3 A4] [B1 B2 B3 B4]. split; [congruence..|]. by transitivity (tb b).
Qed.

Lemma quiet_set_db st d : quiet st (set_db st d).
Proof. split; reflexivity. Qed.

(** The info of a directory: in the store, or in the batch about to be written. *)
Definition pending (m : gmap bytes bytes) (id : DirId) (i : DirInfo) (tx : option Tx) : Prop :=
  match tx with
  | None => info_at m id = Some i
  | Some t => (exists s, tx_snap t = Some s /\ snap_view s = m) /\
      tx_bat t = [BPut (meta_key id) (DirInfo_EncodeTo i)] /\
      m !! meta_key id = None /\ DirInfo_wf i /\ size i = 0
  end.

Definition batch_of (tx : option Tx) : list BatchOp :=
  match tx with Some t => tx_bat t | None => [] end.

Lemma load_info_spec id st :
  let '(s, info, tx, st') := load_info id st in
  view (db st') = view (db st) /\ quiet st st' /\
  (s = kOk -> exists i, info = Some i /\ pending (view (db st)) id i tx).
Proof.
  unfold load_info. pose proof (GetInfo_spec (db st) id None) as G.
  destruct (GetInfo (db st) id None) as [[s1 i1] d1]. destruct G as (G1 & G2 & G3 & G4).
  cbn [snap_of] in G2, G3. fold (meta_key id) in G2, G3. unfold read_view in G2, G3.
  destruct (IsNotFound s1) eqn:En.
  - apply bool_decide_eq_true in En. specialize (G3 En).
    pose proof (zero_info_wf (tb st)) as Hw. pose proof (frame_clock (tb st)) as Fc.
    cbn [tb set_db]. destruct (CurrentMicros (tb st)) as [now t]. cbn [fst snd] in *.
    split_and!; [done|by split|]. intros _. exists (mkDirInfo now 0). split; [done|].
    split_and!; try done. eexists. split; [done|]. by rewrite db_GetSnapshot_view.
  - split_and!; [done|apply quiet_set_db|]. intros H1.
    destruct (G2 H1) as (i & v & -> & Hm & Hi). exists i. split; [done|].
    unfold pending, info_at. by rewrite Hm.
Qed.

Lemma load_index_spec id i tx st :
  pending (view (db st)) id i tx ->
  let '(s, idx, tx', st') := load_index o id tx st in
  view (db st') = view (db st) /\ quiet st st' /\
  (s = kOk -> exists r, idx = Some r /\
     let m' := apply_batch (view (db st)) (batch_of tx') in
     loads id (view (db st)) m' /\ info_at m' id = Some i /\ index_at m' id r).
Proof.
  intros Hp. unfold load_index. set (m := view (db st)) in *.
  pose proof (GetDirIdx_spec (db st) id (DirIndex_empty (giga o)) tx) as D.
  destruct (GetDirIdx (db st) id _ tx) as [[s2 idx] d2].
  destruct D as (D1 & D2 & D3 & D4). fold (idx_key id) in D2, D3.
  assert (Hm : read_view (db st) (snap_of tx) = m).
  { destruct tx as [t|]; [|done]. destruct Hp as ((s & Hs & Hv) & _). cbn. by rewrite Hs. }
  rewrite Hm in D2, D3. destruct (IsNotFound s2) eqn:En2.
  - apply bool_decide_eq_true in En2. specialize (D3 En2). cbn.
    split_and!; [done|by split|]. intros _. eexists. split; [done|]. fold (idx_key id).
    assert (Hi : forall m0, index_at (<[idx_key id := Encode (fresh_index o id)]> m0) id (fresh_index o id)).
    { intros m0. eexists. split; [apply lookup_insert_eq|by right]. }
    destruct tx as [t|]; cbn; unfold apply_batch.
    + destruct Hp as (_ & -> & H1 & H2 & H3). cbn.
      split; [by apply loads_put_both|]. rewrite info_at_put_idx. split; [by apply info_at_encode|apply Hi].
    + split; [by apply loads_put_idx|]. rewrite info_at_put_idx. split; [done|apply Hi].
  - split_and!; [done|apply quiet_set_db|]. intros H2.
    destruct (D2 H2) as (v & Hv & Hu). destruct (Update_rep _ _ _ Hu) as [r Hr].
    exists r. split; [done|]. pose proof (Update_agrees _ _ _ _ Hu Hr) as Ha.
    destruct tx as [t|]; cbn; unfold apply_batch.
    + destruct Hp as (_ & -> & H1 & H3 & H4). cbn.
      split_and!; [by apply loads_put_meta|by apply info_at_encode|].
      exists v. rewrite lookup_insert_ne by apply meta_idx. done.
    + split_and!; [apply loads_refl|done|by exists v].
Qed.

Lemma LoadDir_spec id st :
  let '(s, res, st') := LoadDir o id st in
  loads id (view (db st)) (view (db st')) /\ quiet st st' /\
  match res with
  | Some (info, index) => s = kOk /\ info_at (view (db st')) id = Some info /\
      index_at (view (db st')) id index
  | None => s <> kOk /\ view (db st') = view (db st)
  end.
Proof.
  unfold LoadDir. pose proof (load_info_spec id st) as H1.
  destruct (load_info id st) as [[[s1 info] tx] st1]. destruct H1 as (V1 & Q1 & P1).
  destruct (ok s1) eqn:E1.
  2: { apply ok_false in E1 as E1'. rewrite E1.
       destruct info; cbv beta iota; rewrite V1; split_and!; try done; apply loads_refl. }
  apply ok_true in E1. destruct (P1 E1) as (i & -> & Hp). rewrite <- V1 in Hp.
  pose proof (load_index_spec id i tx st1 Hp) as H2.
  destruct (load_index o id tx st1) as [[[s2 idx] tx2] st2]. destruct H2 as (V2 & Q2 & P2).
  assert (Q : quiet st st2) by (by transitivity st1).
  destruct (ok s2) eqn:E2.
  2: { apply ok_false in E2 as E2'. rewrite E2.
       destruct idx; cbv beta iota; rewrite V2, V1; split_and!; try done; apply loads_refl. }
  apply ok_true in E2. destruct (P2 E2) as (r & -> & L & I & X). rewrite V1 in L.
  assert (Hc : let (s3, d3) := Commit (db st2) tx2 in
    view d3 = if ok s3 then apply_batch (view (db st1)) (batch_of tx2) else view (db st)).
  { destruct tx2 as [t|]; [|cbn [Commit batch_of]; rewrite ok_kOk; exact V2]. pose proof (Commit_spec (db st2) t) as Hc.
    destruct (Commit (db st2) (Some t)) as [s3 d3]. rewrite Hc. cbn. rewrite V2, V1. done. }
  destruct (Commit (db st2) tx2) as [s3 d3].
  destruct (ok s3) eqn:E3; cbn [set_db db]; rewrite Hc.
  - apply ok_true in E3. rewrite V1 in *. split_and!; try done.
    transitivity st2; [done|apply quiet_set_db].
  - apply ok_false in E3. split_and!; try done; [apply loads_refl|].
    transitivity st2; [done|apply quiet_set_db].
Qed.

(** ** The server's invariant between requests *)

(** A loaded directory at rest, under its table key. *)
Record DirOk (m : gmap bytes bytes) (k : bytes) (x : Dir) : Prop := {
  ok_tx : d_tx x = None;
  ok_locked : d_locked x = false;
  ok_status : d_status x = kOk;
  ok_info : exists id, DirId_wf id /\ k = dir_key id /\
    info_at m id = Some (mkDirInfo (d_mtime x) (d_size x)) /\ index_at m id (d_index x) }.

Record SrvInv (st : SRV) : Prop := {
  si_dirs : DInv [] (dirs (tb st)) (cores (tb st)) (next_obj (tb st));
  si_objs : forall r k d x, kvs (dirs (tb st)) !! r = Some (k, d) ->
    cores (tb st) !! d = Some x -> DirOk (view (db st)) k x }.

(** A handler holds the directory [id]: the handle [r], the object [d], its
    core [x]; the other directories are at rest. *)
Record Held (st : SRV) (r : nat) (id : DirId) (d : nat) (x : Dir) : Prop := {
  hd_dirs : DInv [r] (dirs (tb st)) (cores (tb st)) (next_obj (tb st));
  hd_ref : kvs (dirs (tb st)) !! r = Some (dir_key id, d);
  hd_core : cores (tb st) !! d = Some x;
  hd_key : forall r' k' d', kvs (dirs (tb st)) !! r' = Some (k', d') -> r' <> r -> k' <> dir_key id;
  hd_objs : forall r' k' d' y, kvs (dirs (tb st)) !! r' = Some (k', d') -> r' <> r ->
    cores (tb st) !! d' = Some y -> DirOk (view (db st)) k' y }.

(** A change of the store that leaves the records of other directories alone,
    and one that leaves the directory's own index alone, too. *)
Definition others_kept (id : DirId) (m m' : gmap bytes bytes) : Prop :=
  forall id', DirId_wf id' -> id' <> id ->
    m' !! meta_key id' = m !! meta_key id' /\ m' !! idx_key id' = m !! idx_key id'.
Definition local_to (id : DirId) (m m' : gmap bytes bytes) : Prop :=
  others_kept id m m' /\ m' !! idx_key id = m !! idx_key id.

Lemma local_refl id m : local_to id m m.
Proof. by split. Qed.

Lemma loads_local id m m' : DirId_wf id -> loads id m m' -> others_kept id m m'.
Proof.
  intros Hw [Ho _ _ _] id' Hw' Hne. split; apply Ho; intros E; apply meta_key_inj in E as [-> ?]; done.
Qed.

Lemma index_at_same m m' id r : m' !! idx_key id = m !! idx_key id -> index_at m id r -> index_at m' id r.
Proof. intros E (v & Hv & Ha). exists v. by rewrite E. Qed.

Lemma DirOk_local id m m' k x :
  others_kept id m m' -> k <> dir_key id -> DirOk m k x -> DirOk m' k x.
Proof.
  intros Hl Hk [H1 H2 H3 (id' & Hw & -> & Hi & Hx)]. split; try done. exists id'.
  destruct (Hl id' Hw ltac:(congruence)) as [E1 E2]. split_and!; try done.
  - unfold info_at in *. by rewrite E1.
  - by eapply index_at_same.
Qed.

Lemma DirOk_loads id m m' k x :
  DirId_wf id -> loads id m m' -> DirOk m k x -> DirOk m' k x.
Proof.
  intros Hw Hl HD. destruct (decide (k = dir_key id)) as [->|Hk];
    [|eapply DirOk_local; [by apply loads_local|done|done]].
  destruct HD as [H1 H2 H3 (id' & Hw' & E & Hi & Hx)]. split; try done. exists id'. split_and!; try done.
  - apply dir_key_inj in E as <-; try done. unfold info_at in *.
    rewrite (ld_meta _ _ _ Hl); [done|]. by destruct (m !! meta_key id).
  - apply dir_key_inj in E as <-; try done. eapply index_at_same; [|done].
    apply (ld_idx _ _ _ Hl). destruct Hx as (v & -> & _). by eexists.
Qed.

(** Between requests every entry is cached, so a key has one entry. *)
Lemma rest_cached l c n r k d :
  DInv [] l c n -> kvs l !! r = Some (k, d) -> table l !! k = Some r.
Proof.
  intros [[HL _] HA _ _ _ _] Hq. unfold kvs in Hq. rewrite lookup_fmap in Hq.
  destruct (heap l !! r) as [e|] eqn:He; [|done]. cbn in Hq. simplify_eq.
  apply (inv_table _ _ HL). split; [done|]. exists e. split_and!; [done..|].
  specialize (HA r). rewrite He in HA. pose proof (inv_refs _ _ HL r e He).
  change (held [] r) with 0 in HA. destruct (e_in_cache e); [done|]. cbn in HA. lia.
Qed.

Lemma rest_unique l c n r r' k d d' :
  DInv [] l c n -> kvs l !! r = Some (k, d) -> kvs l !! r' = Some (k, d') -> r = r'.
Proof.
  intros HD H1 H2. pose proof (rest_cached _ _ _ _ _ _ HD H1).
  pose proof (rest_cached _ _ _ _ _ _ HD H2). congruence.
Qed.

Lemma new_dir_info info index t :
  core (mkDir (mtime info) 0 None index kOk 0 (size info) false)
    = mkDir (mtime info) 0 None index kOk 0 (size info) false /\
  frame t (tb_assert (SrvAssert 99) (0 <=? size info) t).
Proof. split; [done|apply frame_assert]. Qed.

Lemma FetchDir_spec id st :
  SrvInv st -> DirId_wf id ->
  let '(s, ref, st') := FetchDir o id st in
  loads id (view (db st)) (view (db st')) /\
  session st' = session st /\ ino_ st' = ino_ st /\ status_ st' = status_ st /\
  match ref with
  | None => s <> kOk /\ SrvInv st'
  | Some r => exists d x, Held st' r id d x /\ DirOk (view (db st')) (dir_key id) x
  end.
Proof.
  intros [HD HO] Hw. unfold FetchDir. pose proof (dirs_Lookup_spec [] (tb st) id HD) as HL.
  destruct (dirs_Lookup (tb st) id) as [[r|] t].
  - destruct HL as (Ec & En & Ek & HD' & d & Hr). cbn [db set_tb session ino_ status_].
    split_and!; try done; [apply loads_refl|].
    destruct (di_val _ _ _ _ HD _ _ _ Hr) as [x Hx]. exists d, x.
    split; [|by eapply HO].
    split; cbn [tb set_tb]; [exact HD'|by rewrite Ek|by rewrite Ec|rewrite Ek|rewrite Ek, Ec].
    + intros r' k' d' H' Hne ->. apply Hne. by eapply rest_unique.
    + intros r' k' d' y H' _ Hy. by eapply HO.
  - destruct HL as (Ec & En & Ek & HD' & Ht). pose proof (LoadDir_spec id (set_tb st t)) as HL.
    destruct (LoadDir o id (set_tb st t)) as [[s res] st2]. destruct HL as (L & [Q1 Q2 Q3 QF] & R).
    cbn [db set_tb session ino_ status_ tb] in *. destruct QF as [F1 F2 F3].
    assert (HD2 : DInv [] (dirs (tb st2)) (cores (tb st2)) (next_obj (tb st2))).
    { rewrite F1, F2. eapply DInv_dom; [exact HD'|done|done]. }
    assert (HO2 : forall r k d x, kvs (dirs (tb st2)) !! r = Some (k, d) ->
      cores (tb st2) !! d = Some x -> DirOk (view (db st2)) k x).
    { intros r k d x. rewrite F1, F2, Ek, Ec. intros H1 H2.
      eapply DirOk_loads; [exact Hw|exact L|by eapply HO]. }
    destruct res as [[info index]|].
    2: { destruct R as [Hs _]. split_and!; try done. }
    destruct R as (-> & Hinfo & Hindex). set (x := mkDir _ _ _ _ _ _ _ _).
    destruct (new_dir_info info index (tb st2)) as [Hcx [G1 G2 G3]].
    set (t3 := tb_assert _ _ (tb st2)) in *.
    assert (HD3 : DInv [] (dirs t3) (cores t3) (next_obj t3)).
    { rewrite G1, G2. eapply DInv_dom; [exact HD2|done|done]. }
    pose proof (dirs_Insert_spec [] t3 id x HD3) as HI. rewrite G1, F1 in HI. specialize (HI Ht).
    destruct (new_dir t3 x) as [d t4]. destruct (dirs_Insert t4 id d) as [[r|] t5]; [|done].
    destruct HI as (HD5 & Hr & Hc & Hold & Hcold).
    assert (Hother : forall r' k' d', kvs (dirs t5) !! r' = Some (k', d') -> r' <> r -> d' <> d).
    { intros r' k' d' H' Hne ->. apply Hne. by eapply (di_inj _ _ _ _ HD5). }
    cbn [db set_tb session ino_ status_]. split_and!; try done.
    exists d, x. fold x in Hcx. rewrite Hcx in Hc. split.
    + split; cbn [tb set_tb db]; try done.
      * intros r' k' d' H' Hne ->. apply Hold in H'; [|done].
        pose proof (rest_cached _ _ _ _ _ _ HD' H'). congruence.
      * intros r' k' d' y H' Hne Hy. apply (HO2 r' k' d').
        { rewrite F1. by apply Hold. }
        { rewrite <- G2. apply Hcold; [done|]. by eapply Hother. }
    + split; try done. exists id. split_and!; [done|done| |done]. cbn. by destruct info.
Qed.

(** ** Entering and leaving a directory *)

Lemma ref_value_kvs l r k d : kvs l !! r = Some (k, d) -> ref_value l r = d.
Proof.
  unfold kvs, ref_value. rewrite lookup_fmap. destruct (heap l !! r); [|done]. cbn.
  by intros [= _ <-].
Qed.

Lemma cores_lookup t d x : cores t !! d = Some x -> exists x0, dir_objs t !! d = Some x0 /\ core x0 = x.
Proof.
  unfold cores. rewrite lookup_fmap. destruct (dir_objs t !! d) as [x0|]; [|done].
  cbn. intros [= <-]. by exists x0.
Qed.

(** The held object may change, together with the records of its directory. *)
Lemma Held_moves st st' r id d x y :
  Held st r id d x -> moves d y (tb st) (tb st') ->
  local_to id (view (db st)) (view (db st')) -> Held st' r id d y.
Proof.
  intros [H1 H2 H3 H4 H5] M Hl. pose proof (moves_at _ _ _ _ M) as Hy.
  pose proof (DInv_moves _ _ _ _ _ H1 ltac:(by eexists) M) as HD.
  destruct M as [M1 M2 M3]. split; try done; rewrite M1; try done.
  intros r' k' d' z Hr' Hne Hz. rewrite M2 in Hz.
  assert (d' <> d). { intros ->. apply Hne. by eapply (di_inj _ _ _ _ H1). }
  rewrite lookup_insert_ne in Hz by done. eapply DirOk_local; [apply Hl|by eapply H4|by eapply H5].
Qed.

Lemma Held_frame st st' r id d x :
  Held st r id d x -> frame (tb st) (tb st') ->
  local_to id (view (db st)) (view (db st')) -> Held st' r id d x.
Proof.
  intros H F Hl. eapply Held_moves; [exact H| |done]. eapply moves_frame; [|exact F].
  apply moves_refl, H.
Qed.

Lemma Held_leave st r id d y :
  Held st r id d y -> DirOk (view (db st)) (dir_key id) y ->
  SrvInv (set_tb st (dirs_Release (tb st) r)).
Proof.
  intros [H1 H2 H3 H4 H5] HO.
  destruct (dirs_Release_spec [] (tb st) r H1) as (HD & Hk & Hc).
  split; cbn [tb set_tb db]; [done|]. intros r' k' d' x Hr' Hx.
  eapply lookup_weaken in Hr'; [|exact Hk]. eapply lookup_weaken in Hx; [|exact Hc].
  destruct (decide (r' = r)) as [->|Hne]; [|by eapply H5].
  rewrite H2 in Hr'. simplify_eq. done.
Qed.

Record same_counters (st st' : SRV) : Prop := {
  sc_session : session st' = session st;
  sc_ino : ino_ st' = ino_ st;
  sc_status : status_ st' = status_ st }.

(** What a handler's body owes: it changes only its own directory's object and
    records, and leaves the object at rest. *)
Definition body_ok (id : DirId) (d : nat) (lock : bool) (st st' : SRV) : Prop :=
  local_to id (view (db st)) (view (db st')) /\
  exists y, moves d y (tb st) (tb st') /\
    DirOk (view (db st')) (dir_key id) (dir_set_locked false y) /\ d_locked y = lock.

(** How [with_dir] ends: at the store, before or after the body ran. *)
Inductive ends {A} (b : BaseOptions) (Q : SRV -> Outcome A -> SRV -> Prop) (st1 : SRV)
  : Outcome A -> SRV -> Prop :=
  | ends_error s st' : s <> kOk -> view (db st') = view (db st1) -> same_counters st1 st' ->
      ends b Q st1 (Error s) st'
  | ends_redirect r st' : view (db st') = view (db st1) -> same_counters st1 st' ->
      HashToServer (giga o) r (name_hash b) <> srv_id o ->
      ends b Q st1 (Redirected (Encode r)) st'
  | ends_body out st2 st' : status_ st1 = kOk -> Q st1 out st2 ->
      view (db st') = view (db st2) -> same_counters st2 st' -> ends b Q st1 out st'.

Definition leave (lock : bool) (d r : nat) (st : SRV) : SRV :=
  set_tb st (dirs_Release (if lock then upd_dir d (dir_set_locked false) (tb st) else tb st) r).

Lemma leave_inv lock st r id d y :
  Held st r id d y -> DirOk (view (db st)) (dir_key id) (dir_set_locked false y) ->
  d_locked y = lock -> SrvInv (leave lock d r st).
Proof.
  intros H HO Hl. unfold leave. destruct lock.
  - set (st' := set_tb st (upd_dir d (dir_set_locked false) (tb st))).
    pose proof (hd_core _ _ _ _ _ H) as Hy.
    assert (M : moves d (core (dir_set_locked false y)) (tb st) (tb st')).
    { apply moves_upd; [by apply moves_refl|done]. }
    rewrite <- (cores_core _ _ _ Hy) in HO.
    apply (Held_leave st' r id d (dir_set_locked false (core y))); [|done].
    eapply Held_moves; [exact H|exact M|apply local_refl].
  - eapply Held_leave; [exact H|]. replace y with (dir_set_locked false y); [done|].
    destruct y. cbn in *. by subst.
Qed.

(** Taking the directory's lock, if the handler takes it. *)
Lemma lock_held (lock : bool) st r id d x :
  Held st r id d x -> DirOk (view (db st)) (dir_key id) x ->
  let st' := if lock then set_tb st (upd_dir d (dir_set_locked true) (tb st)) else st in
  Held st' r id d (dir_set_locked lock x) /\ db st' = db st /\ same_counters st st' /\
  DirOk (view (db st)) (dir_key id) (dir_set_locked false x).
Proof.
  intros H HO. pose proof (hd_core _ _ _ _ _ H) as Hx. pose proof (cores_core _ _ _ Hx) as Hc.
  assert (Ex : dir_set_locked false x = x).
  { destruct HO as [_ Hl _ _]. destruct x. cbn in *. by subst. }
  destruct lock.
  - split_and!; [|done|done|by rewrite Ex]. eapply Held_moves; [exact H| |apply local_refl].
    rewrite <- Hc. change (dir_set_locked true (core x)) with (core (dir_set_locked true x)).
    apply (moves_upd d x); [by apply moves_refl|done].
  - by rewrite Ex.
Qed.

Lemma with_dir_spec {A} b lock st (body : nat -> SRV -> Outcome A * SRV)
    (Q : SRV -> Outcome A -> SRV -> Prop) :
  SrvInv st -> DirId_wf (dir_id b) ->
  (forall st1 r d x,
     loads (dir_id b) (view (db st)) (view (db st1)) -> same_counters st st1 ->
     status_ st1 = kOk -> Held st1 r (dir_id b) d (dir_set_locked lock x) ->
     DirOk (view (db st1)) (dir_key (dir_id b)) (dir_set_locked false x) ->
     HashToServer (giga o) (d_index x) (name_hash b) = srv_id o ->
     let (out, st2) := body d st1 in Q st1 out st2 /\ body_ok (dir_id b) d lock st1 st2) ->
  let (out, st') := with_dir o b lock st body in
  SrvInv st' /\
  exists st1, loads (dir_id b) (view (db st)) (view (db st1)) /\ same_counters st st1 /\
    ends b Q st1 out st'.
Proof.
  intros HI Hw Hbody. unfold with_dir. pose proof (FetchDir_spec (dir_id b) st HI Hw) as HF.
  destruct (FetchDir o (dir_id b) st) as [[s [r|]] st1].
  2: { destruct HF as (L & C1 & C2 & C3 & Hs & HI'). split; [done|]. exists st1.
       split_and!; [done|done|]. by apply ends_error. }
  destruct HF as (L & C1 & C2 & C3 & d & x & H & HO).
  rewrite (ref_value_kvs _ _ _ _ (hd_ref _ _ _ _ _ H)).
  destruct (lock_held lock st1 r (dir_id b) d x H HO) as (H' & Edb & Cl & HO').
  set (st2 := if lock then _ else st1) in *.
  destruct (cores_lookup _ _ _ (hd_core _ _ _ _ _ H')) as (x0 & Hx0 & Ex0). rewrite Hx0.
  assert (Hp : ProbeDir x0 st2 = status_ st2).
  { unfold ProbeDir. assert (d_status x0 = kOk) as ->.
    { change (d_status x0) with (d_status (core x0)). rewrite Ex0. apply (ok_status _ _ _ HO). }
    rewrite ok_kOk. cbn. destruct (ok (status_ st2)) eqn:E; [|done]. by apply ok_true in E. }
  rewrite Hp. rewrite <- Edb in HO', L.
  assert (Cst : same_counters st st2) by (destruct Cl; split; congruence).
  assert (Hleave : forall st', Held st' r (dir_id b) d (dir_set_locked lock x) ->
    view (db st') = view (db st2) -> SrvInv (leave lock d r st')).
  { intros st' Hh Ev. eapply leave_inv; [exact Hh| |done]. rewrite Ev. by destruct x. }
  destruct (ok (status_ st2)) eqn:Eok; cbn [negb].
  2: { split; [by apply Hleave|]. exists st2. split_and!; [done|done|].
       apply ends_error; [by apply ok_false|done|done]. }
  set (st3 := set_tb st2 (tb_assert GigaAssert _ (tb st2))).
  assert (H3 : Held st3 r (dir_id b) d (dir_set_locked lock x)).
  { eapply Held_frame; [exact H'|apply frame_assert|apply local_refl]. }
  assert (Hidx : d_index x0 = d_index x).
  { change (d_index x0) with (d_index (core x0)). by rewrite Ex0. }
  rewrite Hidx. destruct (Z.eqb_spec (HashToServer (giga o) (d_index x) (name_hash b)) (srv_id o))
    as [Er|Er]; cbn [negb].
  2: { split; [by apply Hleave|]. exists st2. split_and!; [done|done|]. by apply ends_redirect. }
  apply ok_true in Eok.
  assert (Cst3 : same_counters st st3) by (by destruct Cst).
  pose proof (Hbody st3 r d x L Cst3 Eok H3 HO' Er) as Hb.
  destruct (body d st3) as [out st4]. destruct Hb as [HQ (Hl & y & My & Oy & Ly)].
  split.
  - eapply leave_inv; [|exact Oy|exact Ly]. by eapply Held_moves.
  - exists st3. split_and!; [done|done|]. by eapply ends_body.
Qed.
End Inv.
