(* ===== verification/MdsSrvSpec.v ===== *)
(** * What the metadata server's requests do

    For each handler of [MdsSrv]: what it returns and what it does to the
    directory entries in the store, in every case, for any behaviour of the
    store its interface allows (any read or write may fail). *)
From S2P Require Import Prelude Coding Status FsTypes Gigaplus Lru Tables Mdb MdsApi MdsSrv MdsSrvInv.

Section Spec.
Context {kv : KV} {xx : XXHash} (o : MDSOptions).

(** ** Steps of the handlers' bodies *)

Lemma moves_trans d y z t t' t'' : moves d y t t' -> moves d z t' t'' -> moves d z t t''.
Proof.
  intros [A1 A2 A3] [B1 B2 B3]. split; [congruence| |lia]. by rewrite B2, A2, insert_insert_eq.
Qed.

(** An update of the object the cores of which is known. *)
Lemma moves_set d y t t' f :
  moves d y t t' -> (forall y, core (f y) = f (core y)) -> moves d (f y) t (upd_dir d f t').
Proof.
  intros M Hf. pose proof (cores_core _ _ _ (moves_at _ _ _ _ M)) as Hy.
  rewrite <- Hy at 1. rewrite <- Hf. apply moves_upd; [done|].
  intros z. by rewrite !Hf, core_idem.
Qed.

Lemma moves_assert d y t t' f b : moves d y t t' -> moves d y t (tb_assert f b t').
Proof. intros M. eapply moves_frame; [exact M|apply frame_assert]. Qed.
Lemma moves_clock d y t t' : moves d y t t' -> moves d y t (CurrentMicros t').2.
Proof. intros M. eapply moves_frame; [exact M|apply frame_clock]. Qed.

Lemma dir_size_core d st x : cores (tb st) !! d = Some x -> dir_size d st = d_size x.
Proof. intros (x0 & H & <-)%cores_lookup. unfold dir_size. by rewrite H. Qed.

Lemma begin_tx_spec line d st y t0 :
  moves d y t0 (tb st) ->
  let (tx, st') := begin_tx line d st in
  tx = CreateTx (db st) /\ db st' = db st /\ same_counters st st' /\
  moves d (dir_set_tx (tx_snap tx) y) t0 (tb st').
Proof.
  intros M. unfold begin_tx. split_and!; [done|done|done|]. cbn [tb set_tb].
  apply moves_set; [|done]. case_match; [by apply moves_assert|done].
Qed.

Lemma end_tx_spec d st y t0 :
  moves d y t0 (tb st) ->
  db (end_tx d st) = db st /\ same_counters st (end_tx d st) /\
  moves d (dir_set_tx None y) t0 (tb (end_tx d st)).
Proof. intros M. split_and!; [done|done|]. by apply moves_set. Qed.

Lemma bump_dir_spec line d delta t st y t0 :
  moves d y t0 (tb st) ->
  let st' := bump_dir line d delta t st in
  db st' = db st /\ same_counters st st' /\
  moves d (dir_set_size_mtime (s32 (delta + d_size y)) t y) t0 (tb st').
Proof.
  intros M. unfold bump_dir. rewrite (dir_size_core d st y) by (by eapply moves_at).
  split_and!; [done|done|]. cbn [tb set_tb]. apply moves_set; [|done]. by apply moves_assert.
Qed.

(** The batch of a creation: the entry and the directory's info. *)
Lemma create_node_spec b stat t d tx st y t0 :
  moves d y t0 (tb st) -> tx_bat tx = [] ->
  let (s, st') := create_node b stat t d tx st in
  same_counters st st' /\ tb st' = tb st /\
  view (db st') =
    if ok s
    then <[meta_key (dir_id b) := DirInfo_EncodeTo (mkDirInfo t (s32 (1 + d_size y)))]>
           (<[node_key (dir_id b) (name_hash b) := encode_node stat (name b)]> (view (db st)))
    else view (db st).
Proof.
  intros M Hb. unfold create_node. cbn [SetNode put_op SetInfo]. rewrite ok_kOk.
  cbn [negb set_db db tx_bat tx_snap]. rewrite ok_kOk. cbn [negb set_db db].
  set (tx' := mkTx _ _). pose proof (Commit_spec (db st) tx') as Hc.
  destruct (Commit (db st) (Some tx')) as [s d']. split_and!; [done|done|].
  cbn [db set_db]. rewrite Hc. destruct (ok s); [|done].
  unfold tx'. cbn [tx_bat]. rewrite Hb. cbn [app apply_batch fold_left apply_op].
  unfold dir_size. cbn [tb set_db]. fold (dir_size d st).
  by rewrite (dir_size_core d st y) by (by eapply moves_at).
Qed.

(** ** Leaving a body *)

Lemma body_ok_same id d lock st st' x :
  DirOk (view (db st)) (dir_key id) (dir_set_locked false x) ->
  view (db st') = view (db st) -> moves d (dir_set_locked lock x) (tb st) (tb st') ->
  body_ok id d lock st st'.
Proof.
  intros HO Ev M. split; [rewrite Ev; apply local_refl|]. exists (dir_set_locked lock x).
  split_and!; [done| |done]. rewrite Ev. exact HO.
Qed.

Lemma local_put_meta id v m m' :
  DirId_wf id -> local_to id m m' -> local_to id m (<[meta_key id := v]> m').
Proof.
  intros Hw [Hl Hx]. split.
  - intros id' Hw' Hne. rewrite !lookup_insert_ne; [by apply Hl| |].
    all: intros E; apply meta_key_inj in E as [-> ?]; done.
  - by rewrite lookup_insert_ne by apply meta_idx.
Qed.
Lemma local_put_node id h v m m' :
  DirId_wf id -> local_to id m m' -> local_to id m (<[node_key id h := v]> m').
Proof.
  intros Hw [Hl Hx]. split.
  - intros id' Hw' Hne. rewrite !lookup_insert_ne; [by apply Hl| |].
    all: apply not_eq_sym, node_key_other; done.
  - rewrite lookup_insert_ne; [done|]. apply not_eq_sym, node_key_other; done.
Qed.
Lemma local_del_node id h m m' :
  DirId_wf id -> local_to id m m' -> local_to id m (delete (node_key id h) m').
Proof.
  intros Hw [Hl Hx]. split.
  - intros id' Hw' Hne. rewrite !lookup_delete_ne; [by apply Hl| |].
    all: apply not_eq_sym, node_key_other; done.
  - rewrite lookup_delete_ne; [done|]. apply not_eq_sym, node_key_other; done.
Qed.

(** The info record in the store and the object change together. *)
Lemma body_ok_info id d lock st st' x y i :
  DirId_wf id -> DirOk (view (db st)) (dir_key id) (dir_set_locked false x) ->
  DirInfo_wf i ->
  (exists m, view (db st') = <[meta_key id := DirInfo_EncodeTo i]> m /\
     local_to id (view (db st)) m) ->
  moves d y (tb st) (tb st') ->
  d_tx y = None -> d_locked y = lock -> d_status y = d_status x ->
  d_mtime y = mtime i -> d_size y = size i -> d_index y = d_index x ->
  body_ok id d lock st st'.
Proof.
  intros Hw HO Hi (m & Ev & Hl) M E1 E2 E3 E4 E5 E6. unfold body_ok. rewrite Ev.
  pose proof (local_put_meta id (DirInfo_EncodeTo i) _ _ Hw Hl) as Hl'. split; [done|].
  exists y. split_and!; [done| |done]. split; cbn; [done|done|rewrite E3; apply HO|].
  exists id. split_and!; [done|done| |].
  - rewrite info_at_encode by done. rewrite E4, E5. by destruct i.
  - rewrite E6. eapply index_at_same; [apply Hl'|].
    destruct (ok_info _ _ _ HO) as (id' & Hw' & E & _ & Hx). by apply dir_key_inj in E as <-.
Qed.

(** ** Creation *)

(** The store after the entry [b] was created with [stat] at time [t]. *)
Definition creates (b : BaseOptions) (stat : Stat) (t : Z) (m m' : gmap bytes bytes) : Prop :=
  m !! node_key (dir_id b) (name_hash b) = None /\
  exists i, info_at m (dir_id b) = Some i /\
    m' = <[meta_key (dir_id b) := DirInfo_EncodeTo (mkDirInfo t (s32 (1 + size i)))]>
           (<[node_key (dir_id b) (name_hash b) := encode_node stat (name b)]> m).

Definition excl (flags : Z) : bool := Z.land flags O_EXCL =? O_EXCL.

(** The inode counter after a number was taken and given back. *)
Definition reused (i : Z) : Z := u64 (u64 (i + 1) - 1).

Definition create_post (b : BaseOptions) (flags : Z) (is_kind : Z -> bool)
    (new_stat : Z -> Z -> Stat) (st : SRV) (out : Outcome (bool * Stat)) (st' : SRV) : Prop :=
  let m := view (db st) in
  session st' = session st /\ status_ st' = status_ (NextIno o st).2 /\
  match out with
  | Ok (true, stat) =>
      exists t, is_u64 t /\ stat = new_stat (u64 (ino_ st + 1)) t /\
        creates b stat t m (view (db st')) /\ ino_ st' = u64 (ino_ st + 1)
  | Ok (false, stat) =>
      view (db st') = m /\ ino_ st' = reused (ino_ st) /\ excl flags = false /\
      is_kind (FileMode stat) = true /\
      exists nm, node m (dir_id b) (name_hash b) = Some (stat, nm)
  | Error s => s <> kOk /\ view (db st') = m /\ ino_ st' = reused (ino_ st)
  | Redirected _ => False
  end.

Lemma snapshot_view st : read_view (db st) (snap_of (Some (CreateTx (db st)))) = view (db st).
Proof. apply db_GetSnapshot_view. Qed.

Lemma check_stored_ok s r h : check_stored o s r h = kOk -> s = kOk.
Proof.
  unfold check_stored. destruct r as [[st nm]|]; [|done]. case_match; [done|done].
Qed.

Lemma TryReuse_own st : ino_ (TryReuseIno (ino_ st) st) = u64 (ino_ st - 1).
Proof. unfold TryReuseIno. by rewrite Z.eqb_refl. Qed.

Lemma dir_tx_none x lock s :
  d_tx x = None -> dir_set_tx None (dir_set_tx s (dir_set_locked lock x)) = dir_set_locked lock x.
Proof. destruct x. cbn. by intros ->. Qed.

Lemma ok_if (s : Status) {A} (a : A) (P : Outcome A -> Prop) :
  (s = kOk -> P (Ok a)) -> (s <> kOk -> P (Error s)) -> P (if ok s then Ok a else Error s).
Proof. intros H1 H2. destruct (ok s) eqn:E; [apply H1; by apply ok_true|apply H2; by apply ok_false]. Qed.

(** After [TryReuseIno] and [end_tx] on a transaction that wrote nothing. *)
Lemma abandon_spec d lock x st st3 t0 s :
  moves d (dir_set_tx s (dir_set_locked lock x)) t0 (tb st3) -> d_tx x = None ->
  ino_ st3 = u64 (ino_ st + 1) ->
  let st' := end_tx d (TryReuseIno (u64 (ino_ st + 1)) st3) in
  db st' = db st3 /\ session st' = session st3 /\ status_ st' = status_ st3 /\
  ino_ st' = reused (ino_ st) /\ moves d (dir_set_locked lock x) t0 (tb st').
Proof.
  intros M Hx Hi. unfold TryReuseIno. rewrite Hi, Z.eqb_refl.
  destruct (end_tx_spec d (set_ino st3 (reused (ino_ st))) _ t0 M) as (E & [C1 C2 C3] & M').
  rewrite dir_tx_none in M' by done. by split_and!.
Qed.

(** The start of a writer: the transaction and the read of the entry. *)
Lemma begin_read_spec line b d st y t0 :
  moves d y t0 (tb st) ->
  let (tx, st2) := begin_tx line d st in
  let '(s, r, x) := GetNode (db st2) (dir_id b) (name_hash b) (Some tx) in
  let st3 := set_db st2 x in
  tx = CreateTx (db st) /\ view (db st3) = view (db st) /\ same_counters st st3 /\
  moves d (dir_set_tx (tx_snap tx) y) t0 (tb st3) /\
  match r with
  | Some p => s = kOk /\ node (view (db st)) (dir_id b) (name_hash b) = Some p
  | None => s <> kOk /\ (s = kNotFound -> view (db st) !! node_key (dir_id b) (name_hash b) = None)
  end.
Proof.
  intros M. pose proof (begin_tx_spec line d st y t0 M) as HB.
  destruct (begin_tx line d st) as [tx st2]. destruct HB as (-> & Edb & [C1 C2 C3] & M2).
  pose proof (GetNode_spec (db st2) (dir_id b) (name_hash b) (Some (CreateTx (db st)))) as HG.
  destruct (GetNode (db st2) (dir_id b) (name_hash b) _) as [[s r] x].
  destruct HG as (G1 & G2 & G3 & G4).
  assert (Hrv : read_view (db st2) (snap_of (Some (CreateTx (db st)))) = view (db st)).
  { unfold read_view. cbn. by rewrite db_GetSnapshot_view. }
  rewrite Hrv in G2, G3. rewrite Edb in G1. cbv zeta. split_and!; try done.
  destruct (decide (s = kOk)) as [E|E].
  - destruct (G2 E) as (p & -> & Hn). done.
  - by rewrite (G4 E).
Qed.

(** The info record of the directory a handler holds. *)
Lemma held_info m id x :
  DirId_wf id -> DirOk m (dir_key id) (dir_set_locked false x) ->
  info_at m id = Some (mkDirInfo (d_mtime x) (d_size x)).
Proof. intros Hw [_ _ _ (id' & Hw' & E & Hi & _)]. apply dir_key_inj in E as ->; done. Qed.

(** A handler that changed the store's entry and the directory's info, and
    then the object in memory. *)
Lemma finish_spec d lock x st st' sz t i :
  let y := dir_set_tx None (dir_set_size_mtime sz t (dir_set_tx i (dir_set_locked lock x))) in
  forall id m, DirId_wf id -> DirOk (view (db st)) (dir_key id) (dir_set_locked false x) ->
  moves d y (tb st) (tb st') -> is_u64 t -> -2 ^ 31 <= sz < 2 ^ 31 ->
  view (db st') = <[meta_key id := DirInfo_EncodeTo (mkDirInfo t sz)]> m ->
  local_to id (view (db st)) m -> body_ok id d lock st st'.
Proof.
  intros y id m Hw HO M Ht Hsz Hv Hl.
  eapply body_ok_info with (x := x) (i := mkDirInfo t sz); try done. by exists m.
Qed.

Lemma create_commit_spec b stat now d tx line st st3 x :
  DirId_wf (dir_id b) -> is_u64 now -> tx_bat tx = [] ->
  DirOk (view (db st)) (dir_key (dir_id b)) (dir_set_locked false x) ->
  view (db st3) = view (db st) ->
  view (db st) !! node_key (dir_id b) (name_hash b) = None ->
  moves d (dir_set_tx (tx_snap tx) (dir_set_locked true x)) (tb st) (tb st3) ->
  let (s4, st4) := create_node b stat now d tx st3 in
  same_counters st3 st4 /\
  if ok s4 then
    let st' := end_tx d (bump_dir line d 1 now st4) in
    same_counters st3 st' /\ creates b stat now (view (db st)) (view (db st')) /\
    body_ok (dir_id b) d true st st'
  else view (db st4) = view (db st) /\
    moves d (dir_set_tx (tx_snap tx) (dir_set_locked true x)) (tb st) (tb st4).
Proof.
  intros Hw Ht Hb HO Ev Hn M.
  pose proof (create_node_spec b stat now d tx st3 _ (tb st) M Hb) as HC.
  destruct (create_node b stat now d tx st3) as [s4 st4]. destruct HC as ([D1 D2 D3] & Etb & Hv).
  rewrite Ev in Hv. rewrite <- Etb in M. split; [done|].
  destruct (ok s4); [|done].
  pose proof (bump_dir_spec line d 1 now st4 _ (tb st) M) as (B1 & [B2 B3 B4] & B5).
  destruct (end_tx_spec d _ _ (tb st) B5) as (F1 & [F2 F3 F4] & F5).
  assert (Hst' : view (db (end_tx d (bump_dir line d 1 now st4))) = view (db st4)) by (by rewrite F1, B1).
  cbv zeta. rewrite Hst', Hv. split_and!.
  - split; congruence.
  - split; [done|]. eexists. split; [by apply held_info|done].
  - eapply finish_spec; [exact Hw|exact HO|exact F5|done|apply s32_range|by rewrite Hst', Hv|].
    apply local_put_node; [done|apply local_refl].
Qed.

Lemma create_work_spec b flags is_kind not_kind new_stat l1 l2 st r d x :
  DirId_wf (dir_id b) -> not_kind <> kOk -> Held st r (dir_id b) d (dir_set_locked true x) ->
  DirOk (view (db st)) (dir_key (dir_id b)) (dir_set_locked false x) ->
  let (out, st2) := create_work o b flags is_kind not_kind new_stat l1 l2 d st in
  create_post b flags is_kind new_stat st out st2 /\ body_ok (dir_id b) d true st st2.
Proof.
  intros Hw Hnk Hh HO. unfold create_work.
  assert (M0 : moves d (dir_set_locked true x) (tb st) (CurrentMicros (tb st)).2)
    by apply moves_clock, moves_refl, Hh.
  assert (Ht : is_u64 (CurrentMicros (tb st)).1) by apply u64_range.
  destruct (CurrentMicros (tb st)) as [now t]. cbn [fst snd] in *.
  unfold NextIno. cbn [ino_ set_tb db session status_ tb].
  set (st1 := mkSRV (db st) (session st) (u64 (ino_ st + 1)) _ t).
  pose proof (begin_read_spec l1 b d st1 _ (tb st) M0) as HB.
  destruct (begin_tx l1 d st1) as [tx st2].
  destruct (GetNode (db st2) (dir_id b) (name_hash b) (Some tx)) as [[s rr] db3].
  destruct HB as (-> & Ev & [C1 C2 C3] & M3 & Hr). set (st3 := set_db st2 db3) in *.
  assert (HA : forall out st4 s', view (db st4) = view (db st) -> same_counters st3 st4 ->
      moves d (dir_set_tx s' (dir_set_locked true x)) (tb st) (tb st4) ->
      match out with Ok (true, _) | Redirected _ => False
      | Ok (false, stat) => excl flags = false /\ is_kind (FileMode stat) = true /\
          exists nm, node (view (db st)) (dir_id b) (name_hash b) = Some (stat, nm)
      | Error s => s <> kOk end ->
    let stA := end_tx d (TryReuseIno (u64 (ino_ st + 1)) st4) in
    create_post b flags is_kind new_stat st out stA /\ body_ok (dir_id b) d true st stA).
  { intros out st4 s' Ev4 [D1 D2 D3] M4 Hout.
    pose proof (abandon_spec d true x st st4 (tb st) s' M4 (ok_tx _ _ _ HO) ltac:(by rewrite D2, C2))
      as (A1 & A2 & A3 & A4 & A5). cbv zeta. set (stA := end_tx d _) in *. split.
    - split; [by rewrite A2, D1, C1|]. split; [by rewrite A3, D3, C3|].
      assert (view (db stA) = view (db st)) as -> by (by rewrite A1).
      destruct out as [[[] stat]| |]; [done|by destruct Hout as (? & ? & ?)|done|done].
    - eapply body_ok_same; [exact HO|by rewrite A1|done]. }
  destruct rr as [[stat nm]|]; destruct Hr as [Hs Hn].
  - assert (HA3 := fun out => HA out st3 _ Ev ltac:(done) M3). apply ok_if.
    + intros E. apply HA3. destruct (ok (check_stored o s (Some (stat, nm)) (name_hash b))) eqn:Eck;
        cbn [negb] in E; [|by rewrite E in Eck].
      unfold excl. destruct (Z.land flags O_EXCL =? O_EXCL); [done|].
      destruct (is_kind (FileMode stat)); cbn [negb] in E; [|done]. split_and!; [done|done|by exists nm].
    + intros E. by apply HA3.
  - cbn [check_stored]. destruct (IsNotFound s) eqn:En; [|by apply (HA _ st3 _ Ev ltac:(done) M3)].
    apply bool_decide_eq_true in En. specialize (Hn En).
    pose proof (create_commit_spec b (new_stat (u64 (ino_ st + 1)) now) now d (CreateTx (db st1)) l2
      st st3 x Hw Ht eq_refl HO Ev Hn M3) as HC.
    destruct (create_node _ _ _ _ _ _) as [s4 st4]. destruct HC as [HC4 HC].
    destruct (ok s4) eqn:E4.
    + destruct HC as ([D1 D2 D3] & Hcr & Hb). split; [|done].
      split; [by rewrite D1, C1|]. split; [by rewrite D3, C3|].
      exists now. split_and!; [done|done|done|by rewrite D2, C2].
    + destruct HC as [Hv M4]. apply ok_false in E4. by apply (HA _ st4 _ Hv HC4 M4).
Qed.

(** ** Removal *)

Definition removes (b : BaseOptions) (t : Z) (m m' : gmap bytes bytes) : Prop :=
  exists i, info_at m (dir_id b) = Some i /\
    m' = <[meta_key (dir_id b) := DirInfo_EncodeTo (mkDirInfo t (s32 (size i - 1)))]>
           (delete (node_key (dir_id b) (name_hash b)) m).

Definition unlink_post (q : UnlinkOptions) (st : SRV) (out : Outcome Stat) (st' : SRV) : Prop :=
  let b := un_base q in
  let m := view (db st) in
  same_counters st st' /\
  match out with
  | Ok stat =>
      (exists nm t, is_u64 t /\ node m (dir_id b) (name_hash b) = Some (stat, nm) /\
         S_ISREG (FileMode stat) = true /\ removes b t m (view (db st'))) \/
      (m !! node_key (dir_id b) (name_hash b) = None /\ excl (un_flags q) = false /\
         stat = zero_stat /\ view (db st') = m)
  | Error s => s <> kOk /\ view (db st') = m
  | Redirected _ => False
  end.

(** Nothing was written: the transaction is closed. *)
Lemma close_spec d lock x st st3 s :
  moves d (dir_set_tx s (dir_set_locked lock x)) (tb st) (tb st3) ->
  same_counters st st3 -> view (db st3) = view (db st) ->
  forall id, DirOk (view (db st)) (dir_key id) (dir_set_locked false x) ->
  let st' := end_tx d st3 in
  same_counters st st' /\ view (db st') = view (db st) /\ body_ok id d lock st st'.
Proof.
  intros M [C1 C2 C3] Ev id HO.
  destruct (end_tx_spec d st3 _ (tb st) M) as (E & [D1 D2 D3] & M').
  rewrite dir_tx_none in M' by exact (ok_tx _ _ _ HO). cbv zeta. split_and!.
  - split; congruence.
  - by rewrite E.
  - eapply body_ok_same; [exact HO|by rewrite E|done].
Qed.

Lemma remove_node_spec b t d tx st y t0 :
  moves d y t0 (tb st) -> tx_bat tx = [] ->
  let (s, st') := remove_node b t d tx st in
  same_counters st st' /\ tb st' = tb st /\
  view (db st') =
    if ok s
    then <[meta_key (dir_id b) := DirInfo_EncodeTo (mkDirInfo t (s32 (d_size y - 1)))]>
           (delete (node_key (dir_id b) (name_hash b)) (view (db st)))
    else view (db st).
Proof.
  intros M Hb. unfold remove_node. cbn [DelNode put_op SetInfo]. rewrite ok_kOk.
  cbn [negb set_db db tx_bat tx_snap]. rewrite ok_kOk. cbn [negb set_db db].
  set (tx' := mkTx _ _). pose proof (Commit_spec (db st) tx') as Hc.
  destruct (Commit (db st) (Some tx')) as [s d']. split_and!; [done|done|].
  cbn [db set_db]. rewrite Hc. destruct (ok s); [|done].
  unfold tx'. cbn [tx_bat]. rewrite Hb. cbn [app apply_batch fold_left apply_op].
  unfold dir_size. cbn [tb set_db]. fold (dir_size d st).
  by rewrite (dir_size_core d st y) by (by eapply moves_at).
Qed.

Lemma unlink_work_spec q st r d x :
  let b := un_base q in
  DirId_wf (dir_id b) -> Held st r (dir_id b) d (dir_set_locked true x) ->
  DirOk (view (db st)) (dir_key (dir_id b)) (dir_set_locked false x) ->
  let (out, st2) := unlink_work o q d st in
  unlink_post q st out st2 /\ body_ok (dir_id b) d true st st2.
Proof.
  intros b Hw Hh HO. unfold unlink_work. fold b.
  assert (M0 : moves d (dir_set_locked true x) (tb st) (CurrentMicros (tb st)).2)
    by apply moves_clock, moves_refl, Hh.
  assert (Ht : is_u64 (CurrentMicros (tb st)).1) by apply u64_range.
  destruct (CurrentMicros (tb st)) as [now t]. cbn [fst snd] in *.
  pose proof (begin_read_spec 459 b d (set_tb st t) _ (tb st) M0) as HB.
  destruct (begin_tx 459 d (set_tb st t)) as [tx st2].
  destruct (GetNode (db st2) (dir_id b) (name_hash b) (Some tx)) as [[s rr] db3].
  destruct HB as (-> & Ev & [C1 C2 C3] & M3 & Hr). set (st3 := set_db st2 db3) in *.
  cbn [db set_tb session ino_ status_] in *.
  destruct (close_spec d true x st st3 _ M3 ltac:(done) Ev (dir_id b) HO) as (Cc & Vc & Bc).
  assert (HE : forall s', s' <> kOk -> unlink_post q st (Error s') (end_tx d st3)) by done.
  destruct rr as [[stat nm]|]; destruct Hr as [Hs Hn].
  2: { cbn [check_stored]. destruct (IsNotFound s) eqn:En; cbn [andb]; [|by split; [apply HE|]].
       apply bool_decide_eq_true in En. fold (excl (un_flags q)).
       destruct (excl (un_flags q)) eqn:Ex; cbn [negb]; [by split; [apply HE|]|].
       split; [|done]. split; [done|]. right. split_and!; [by apply Hn|done|done|done]. }
  destruct (ok (check_stored o s (Some (stat, nm)) (name_hash b))) eqn:Eck; cbn [negb].
  2: { split; [|done]. apply HE. by apply ok_false. }
  destruct (S_ISREG (FileMode stat)) eqn:Er; cbn [negb]; [|by split; [apply HE|]].
  pose proof (remove_node_spec b now d (CreateTx (db st)) st3 _ (tb st) M3 eq_refl) as HR.
  destruct (remove_node _ _ _ _ _) as [s4 st4]. destruct HR as ([D1 D2 D3] & Etb & Hv).
  rewrite Ev in Hv. rewrite <- Etb in M3. destruct (ok s4) eqn:E4.
  - set (st5 := set_tb st4 _). assert (M5 := moves_assert _ _ _ _ (SrvAssert 517)
      (1 <? dir_size d st4) M3). change (tb_assert _ _ (tb st4)) with (tb st5) in M5.
    pose proof (bump_dir_spec 519 d (-1) now st5 _ (tb st) M5) as (B1 & [B2 B3 B4] & B5).
    destruct (end_tx_spec d _ _ (tb st) B5) as (F1 & [F2 F3 F4] & F5).
    set (st6 := end_tx d (bump_dir 519 d (-1) now st5)) in *.
    assert (Hst' : view (db st6) = view (db st4)) by (by rewrite F1, B1).
    replace (-1 + d_size (dir_set_tx _ _)) with (d_size x - 1) in F5 by (cbn; lia).
    assert (C5 : same_counters st st5)
      by (unfold st5; split; cbn [session ino_ status_ set_tb]; congruence).
    destruct C5 as [G1 G2 G3]. split.
    + split; [split; congruence|]. left.
      exists nm, now. split_and!; [done|done|done|]. rewrite Hst', Hv. eexists.
      split; [by apply held_info|done].
    + eapply finish_spec; [exact Hw|exact HO|exact F5|done|apply s32_range|by rewrite Hst', Hv|].
      apply local_del_node; [done|apply local_refl].
  - destruct (close_spec d true x st st4 _ M3 ltac:(split; congruence) Hv (dir_id b) HO)
      as (Cd & Vd & Bd). split; [|done]. apply ok_false in E4. done.
Qed.

(** ** Updates in place *)

Definition rewrite_post (b : BaseOptions) (edit : Z -> Stat -> Status * Stat) (st : SRV)
    (out : Outcome Stat) (st' : SRV) : Prop :=
  let m := view (db st) in
  same_counters st st' /\
  match out with
  | Ok stat' => exists stat nm t, is_u64 t /\
      node m (dir_id b) (name_hash b) = Some (stat, nm) /\ edit t stat = (kOk, stat') /\
      view (db st') = <[node_key (dir_id b) (name_hash b) := encode_node stat' nm]> m
  | Error s => s <> kOk /\ view (db st') = m
  | Redirected _ => False
  end.

Lemma store_node_spec b stat nm info tx st :
  tx_bat tx = [] ->
  let (s, st') := store_node b stat nm info tx st in
  same_counters st st' /\ tb st' = tb st /\
  view (db st') =
    if ok s
    then match info with
         | Some i => <[meta_key (dir_id b) := DirInfo_EncodeTo i]>
             (<[node_key (dir_id b) (name_hash b) := encode_node stat nm]> (view (db st)))
         | None => <[node_key (dir_id b) (name_hash b) := encode_node stat nm]> (view (db st))
         end
    else view (db st).
Proof.
  intros Hb. unfold store_node. cbn [SetNode put_op]. rewrite ok_kOk.
  cbn [negb set_db db tx_bat tx_snap]. destruct info as [i|]; cbn [SetInfo put_op tx_bat tx_snap];
    rewrite ok_kOk; cbn [negb set_db db].
  all: match goal with |- context [Commit _ (Some ?t)] => set (tx' := t) end;
    pose proof (Commit_spec (db st) tx') as Hc;
    destruct (Commit (db st) (Some tx')) as [s d']; (split_and!; [done|done|]);
    cbn [db set_db]; rewrite Hc; destruct (ok s); [|done];
    unfold tx'; cbn [tx_bat]; rewrite Hb; done.
Qed.

Lemma rewrite_work_spec b line edit st r d x :
  DirId_wf (dir_id b) -> Held st r (dir_id b) d (dir_set_locked true x) ->
  DirOk (view (db st)) (dir_key (dir_id b)) (dir_set_locked false x) ->
  let (out, st2) := rewrite_work b line edit d st in
  rewrite_post b edit st out st2 /\ body_ok (dir_id b) d true st st2.
Proof.
  intros Hw Hh HO. unfold rewrite_work.
  assert (M0 : moves d (dir_set_locked true x) (tb st) (CurrentMicros (tb st)).2)
    by apply moves_clock, moves_refl, Hh.
  assert (Ht : is_u64 (CurrentMicros (tb st)).1) by apply u64_range.
  destruct (CurrentMicros (tb st)) as [now t]. cbn [fst snd] in *.
  pose proof (begin_read_spec line b d (set_tb st t) _ (tb st) M0) as HB.
  destruct (begin_tx line d (set_tb st t)) as [tx st2].
  destruct (GetNode (db st2) (dir_id b) (name_hash b) (Some tx)) as [[s rr] db3].
  destruct HB as (-> & Ev & [C1 C2 C3] & M3 & Hr). set (st3 := set_db st2 db3) in *.
  cbn [db set_tb session ino_ status_] in *.
  destruct (close_spec d true x st st3 _ M3 ltac:(done) Ev (dir_id b) HO) as (Cc & Vc & Bc).
  destruct rr as [[stat nm]|]; destruct Hr as [Hs Hn]; [|done].
  destruct (edit now stat) as [s4 stat'] eqn:Ee. destruct (ok s4) eqn:E4; cbn [negb].
  2: { apply ok_false in E4. done. }
  pose proof (store_node_spec b stat' nm None (CreateTx (db st)) st3 eq_refl) as HS.
  destruct (store_node _ _ _ _ _ _) as [s5 st5]. destruct HS as ([D1 D2 D3] & Etb & Hv).
  rewrite Ev in Hv. rewrite <- Etb in M3. apply ok_true in E4 as ->.
  destruct (end_tx_spec d st5 _ (tb st) M3) as (F1 & [F2 F3 F4] & F5).
  rewrite dir_tx_none in F5 by exact (ok_tx _ _ _ HO).
  assert (Hc : same_counters st (end_tx d st5)) by (split; congruence).
  destruct (ok s5) eqn:E5.
  - split.
    + split; [done|]. exists stat, nm, now. split_and!; [done|done|done|by rewrite F1, Hv].
    + split; [rewrite F1, Hv; apply local_put_node; [done|apply local_refl]|].
      exists (dir_set_locked true x). split_and!; [done| |done].
      destruct HO as [H1 H2 H3 (id' & Hw' & E & Hi & Hx)]. split; try done. exists id'.
      split_and!; [done|done| |]; rewrite F1, Hv.
      * unfold info_at in *. rewrite lookup_insert_ne; [done|]. apply not_eq_sym, node_key_other; done.
      * eapply index_at_same; [|done]. rewrite lookup_insert_ne; [done|].
        apply not_eq_sym, node_key_other; done.
  - apply ok_false in E5. split; [split; [done|]; by rewrite F1, Hv|].
    eapply body_ok_same; [exact HO|by rewrite F1, Hv|done].
Qed.

Lemma info_at_size m id i : info_at m id = Some i -> -2 ^ 31 <= size i < 2 ^ 31.
Proof.
  unfold info_at. destruct (m !! meta_key id) as [v|]; [|done]. cbn. unfold DirInfo_DecodeFrom.
  destruct (GetVarint64 v) as [[a v1]|]; [|done].
  destruct (GetVarint32 v1) as [[a2 v2]|]; [|done]. intros [= <-]. apply s32_range.
Qed.

Definition uperm_post (q : UpermOptions) (st : SRV) (out : Outcome Stat) (st' : SRV) : Prop :=
  let b := up_base q in
  let m := view (db st) in
  same_counters st st' /\
  match out with
  | Ok stat' => exists stat nm i t, is_u64 t /\
      node m (dir_id b) (name_hash b) = Some (stat, nm) /\ stat' = uperm_stat q t stat /\
      info_at m (dir_id b) = Some i /\
      view (db st') = <[meta_key (dir_id b) := DirInfo_EncodeTo (mkDirInfo t (size i))]>
        (<[node_key (dir_id b) (name_hash b) := encode_node stat' nm]> m)
  | Error s => s <> kOk /\ view (db st') = m
  | Redirected _ => False
  end.

(** The end of [Uperm] after a successful commit. *)
Lemma uperm_finish b d (isdir : bool) now e st4 x s t0 :
  moves d (dir_set_tx s (dir_set_locked true x)) t0 (tb st4) ->
  let st5 := if isdir then set_tb st4 (revoke_lease o b d e (tb st4)) else st4 in
  let t := tb_assert (SrvAssert 1202) (dir_mtime d st5 <=? now) (tb st5) in
  let st' := end_tx d (set_tb st5 (upd_dir d (dir_set_mtime now) t)) in
  db st' = db st4 /\ same_counters st4 st' /\
  exists sq, moves d (dir_set_tx None (dir_set_mtime now (dir_set_seq sq
    (dir_set_tx s (dir_set_locked true x))))) t0 (tb st').
Proof.
  intros M st5 t st'.
  assert (H5 : db st5 = db st4 /\ same_counters st4 st5 /\
    exists sq, moves d (dir_set_seq sq (dir_set_tx s (dir_set_locked true x))) t0 (tb st5)).
  { unfold st5. destruct isdir.
    - split_and!; [done|done|].
      destruct (moves_revoke_lease o b d e (tb st4) _ (moves_at _ _ _ _ M)) as [sq Hq].
      exists sq. by eapply moves_trans.
    - split_and!; [done|done|]. exists (d_seq x). by destruct x. }
  destruct H5 as (E1 & [C1 C2 C3] & sq & M5).
  assert (M6 := moves_assert _ _ _ _ (SrvAssert 1202) (dir_mtime d st5 <=? now) M5).
  pose proof (moves_set _ _ _ _ (dir_set_mtime now) M6 ltac:(done)) as M7.
  destruct (end_tx_spec d (set_tb st5 (upd_dir d (dir_set_mtime now) t)) _ t0 M7) as (F1 & [F2 F3 F4] & F5).
  fold st' in F1, F2, F3, F4, F5. cbn [db session ino_ status_ set_tb] in F1, F2, F3, F4.
  split_and!; [congruence|split; congruence|by exists sq].
Qed.

Lemma uperm_work_spec q st r d x :
  let b := up_base q in
  DirId_wf (dir_id b) -> Held st r (dir_id b) d (dir_set_locked true x) ->
  DirOk (view (db st)) (dir_key (dir_id b)) (dir_set_locked false x) ->
  let (out, st2) := uperm_work o q d st in
  uperm_post q st out st2 /\ body_ok (dir_id b) d true st st2.
Proof.
  intros b Hw Hh HO. unfold uperm_work. fold b.
  assert (M0 : moves d (dir_set_locked true x) (tb st) (CurrentMicros (tb st)).2)
    by apply moves_clock, moves_refl, Hh.
  assert (Ht : is_u64 (CurrentMicros (tb st)).1) by apply u64_range.
  destruct (CurrentMicros (tb st)) as [now t]. cbn [fst snd] in *.
  pose proof (begin_read_spec 1104 b d (set_tb st t) _ (tb st) M0) as HB.
  destruct (begin_tx 1104 d (set_tb st t)) as [tx st2].
  destruct (GetNode (db st2) (dir_id b) (name_hash b) (Some tx)) as [[s rr] db3].
  destruct HB as (-> & Ev & [C1 C2 C3] & M3 & Hr). set (st3 := set_db st2 db3) in *.
  cbn [db set_tb session ino_ status_] in *.
  assert (HE : forall st4 s', view (db st4) = view (db st) -> same_counters st st4 -> s' <> kOk ->
    moves d (dir_set_tx (tx_snap (CreateTx (db st))) (dir_set_locked true x)) (tb st) (tb st4) ->
    let st' := end_tx d (set_tb st4 (CurrentMicros (tb st4)).2) in
    uperm_post q st (Error s') st' /\ body_ok (dir_id b) d true st st').
  { intros st4 s' Hv Hc Hs M4. apply moves_clock in M4.
    destruct (close_spec d true x st (set_tb st4 (CurrentMicros (tb st4)).2) _ M4
      ltac:(by destruct Hc) Hv (dir_id b) HO) as (Cc & Vc & Bc). done. }
  destruct rr as [[stat nm]|]; destruct Hr as [Hs Hn]; [|by apply HE].
  destruct (ok (check_stored o s (Some (stat, nm)) (name_hash b))) eqn:Eck; cbn [negb].
  2: { apply HE; [done|done|by apply ok_false|done]. }
  set (stat' := uperm_stat q now stat).
  rewrite (dir_size_core d st3 _ (moves_at _ _ _ _ M3)). cbn [d_size dir_set_tx dir_set_locked].
  pose proof (store_node_spec b stat' nm (Some (mkDirInfo now (d_size x))) (CreateTx (db st)) st3
    eq_refl) as HS.
  destruct (store_node _ _ _ _ _ _) as [s5 st5]. destruct HS as ([D1 D2 D3] & Etb & Hv).
  rewrite Ev in Hv. rewrite <- Etb in M3.
  assert (C5 : same_counters st st5) by (split; congruence).
  destruct (ok s5) eqn:E5.
  2: { apply ok_false in E5. apply (HE st5 s5); done. }
  apply moves_clock in M3. destruct (CurrentMicros (tb st5)) as [e t5]. cbn [snd] in M3.
  destruct (uperm_finish b d (S_ISDIR (FileMode stat')) now e (set_tb st5 t5) x _ (tb st) M3)
    as (F1 & [F2 F3 F4] & sq & F5).
  set (st6 := end_tx d _) in *. cbn [db set_tb session ino_ status_] in *.
  destruct C5 as [G1 G2 G3]. pose proof (held_info _ _ _ Hw HO) as Hi. split.
  - split; [split; congruence|]. exists stat, nm, (mkDirInfo (d_mtime x) (d_size x)), now.
    split_and!; [done|done|done|done|by rewrite F1, Hv].
  - eapply body_ok_info with (x := x) (i := mkDirInfo now (d_size x)); try done.
    { split; [done|]. apply (info_at_size _ _ _ Hi). }
    { eexists. split; [by rewrite F1, Hv|]. apply local_put_node; [done|apply local_refl]. }
Qed.

(** ** Reads *)

Lemma reader_none d st x : cores (tb st) !! d = Some x -> d_tx x = None -> reader_tx d st = None.
Proof.
  intros (x0 & H & <-)%cores_lookup Hx. unfold reader_tx. rewrite H. cbn in Hx. by rewrite Hx.
Qed.

Definition fstat_post (b : BaseOptions) (st : SRV) (out : Outcome Stat) (st' : SRV) : Prop :=
  same_counters st st' /\ view (db st') = view (db st) /\
  match out with
  | Ok stat => exists nm, node (view (db st)) (dir_id b) (name_hash b) = Some (stat, nm) /\
      (paranoid o = true -> name_hash b = PutHash nm)
  | Error s => s <> kOk
  | Redirected _ => False
  end.

Lemma check_stored_hash s stat nm h :
  check_stored o s (Some (stat, nm)) h = kOk -> paranoid o = true -> h = PutHash nm.
Proof.
  unfold check_stored. intros Hc Hp. destruct (decide (h = PutHash nm)); [done|].
  rewrite Hp in Hc. unfold hash_mismatch in Hc. rewrite bool_decide_false in Hc by done.
  destruct (ok s) eqn:E; cbn in Hc; [done|]. by rewrite Hc in E.
Qed.

Lemma fstat_work_spec b st r d x :
  Held st r (dir_id b) d (dir_set_locked false x) ->
  DirOk (view (db st)) (dir_key (dir_id b)) (dir_set_locked false x) ->
  let (out, st2) := fstat_work o b d st in
  fstat_post b st out st2 /\ body_ok (dir_id b) d false st st2.
Proof.
  intros Hh HO. unfold fstat_work.
  rewrite (reader_none d st _ (hd_core _ _ _ _ _ Hh) (ok_tx _ _ _ HO)).
  pose proof (GetNode_spec (db st) (dir_id b) (name_hash b) None) as HG.
  destruct (GetNode (db st) (dir_id b) (name_hash b) None) as [[s rr] x'].
  destruct HG as (G1 & G2 & G3 & G4). cbn [snap_of] in *. unfold read_view in *.
  assert (Hb : body_ok (dir_id b) d false st (set_db st x')).
  { eapply body_ok_same; [exact HO|done|]. apply moves_refl, Hh. }
  destruct (decide (s = kOk)) as [E|E].
  - destruct (G2 E) as ([stat nm] & -> & Hn). split; [|done]. split_and!; [done|done|].
    apply ok_if; [|done]. intros Hc. exists nm. split; [done|]. by eapply check_stored_hash.
  - rewrite (G4 E). done.
Qed.

Definition lookup_post (b : BaseOptions) (st : SRV) (out : Outcome LookupStat) (st' : SRV) : Prop :=
  same_counters st st' /\ view (db st') = view (db st) /\
  match out with
  | Ok ls => exists stat nm due, node (view (db st)) (dir_id b) (name_hash b) = Some (stat, nm) /\
      S_ISDIR (FileMode stat) = true /\
      ls = LookupStat_CopyFrom (mkLookupStat 0 0 0 0 0 0 0 due) stat
  | Error s => s <> kOk
  | Redirected _ => False
  end.

Lemma lookup_work_spec b st r d x :
  Held st r (dir_id b) d (dir_set_locked false x) ->
  DirOk (view (db st)) (dir_key (dir_id b)) (dir_set_locked false x) ->
  let (out, st2) := lookup_work o b d st in
  lookup_post b st out st2 /\ body_ok (dir_id b) d false st st2.
Proof.
  intros Hh HO. unfold lookup_work.
  assert (M0 : moves d (dir_set_locked false x) (tb st) (CurrentMicros (tb st)).2)
    by apply moves_clock, moves_refl, Hh.
  destruct (CurrentMicros (tb st)) as [t1 tb1]. cbn [snd] in M0.
  rewrite (reader_none d (set_tb st tb1) _ (moves_at _ _ _ _ M0) (ok_tx _ _ _ HO)).
  cbn [db set_tb]. pose proof (GetNode_spec (db st) (dir_id b) (name_hash b) None) as HG.
  destruct (GetNode (db st) (dir_id b) (name_hash b) None) as [[s rr] x'].
  destruct HG as (G1 & G2 & G3 & G4). cbn [snap_of] in *. unfold read_view in *.
  cbn [tb set_db set_tb]. apply moves_clock in M0. destruct (CurrentMicros tb1) as [t2 tb2].
  cbn [snd] in M0.
  assert (Hb : forall tb3, frame tb2 tb3 -> body_ok (dir_id b) d false st
     (set_tb (set_tb (set_db (set_tb st tb1) x') tb2) tb3)).
  { intros tb3 F. eapply body_ok_same; [exact HO|done|]. by eapply moves_frame. }
  destruct (decide (s = kOk)) as [E|E].
  - destruct (G2 E) as ([stat nm] & -> & Hn).
    destruct (S_ISDIR (FileMode stat)) eqn:Ed; cbn [negb].
    2: { split; [done|]. apply (Hb tb2). by split. }
    cbn [tb set_tb]. set (gl := if _ <? _ then _ else _).
    assert (F : frame tb2 gl.2).
    { unfold gl. case_match; [apply frame_grant_lease|by split]. }
    destruct gl as [due tb3]. split; [|by apply Hb].
    split_and!; [done|done|]. by exists stat, nm, due.
  - rewrite (G4 E). split; [done|]. apply (Hb tb2). by split.
Qed.
End Spec.
