(* ===== verification/MdsSrvThms.v ===== *)
(** * Properties of the metadata server over all requests

    [Request] and [handle] put the fifteen handlers under one step function;
    a trace is any sequence of requests.  The store only ever changes by
    [store_step]s, from which the accounting of directory sizes follows; the
    counters only move forward, from which the uniqueness of inode numbers and
    session ids follows. *)
From S2P Require Import Prelude Coding Status FsTypes Gigaplus Lru Tables Mdb.
From S2P Require Import MdsApi MdsSrv MdsSrvInv MdsSrvSpec.

(** ** Counting the entries of a directory *)

Section Count.

Definition dir_prefix (id : DirId) : bytes := PackPrefix id kDirEntType.
Definition in_dir (id : DirId) (e : bytes * bytes) : Prop := starts_with (dir_prefix id) e.1 = true.
#[local] Instance in_dir_dec id e : Decision (in_dir id e).
Proof. unfold in_dir. apply _. Defined.

Definition entry_count (m : gmap bytes bytes) (id : DirId) : Z :=
  Z.of_nat (base.size (filter (in_dir id) m)).

Lemma in_dir_node id id' h v :
  DirId_wf id -> DirId_wf id' -> in_dir id (node_key id' h, v) <-> id = id'.
Proof.
  intros Hw Hw'. unfold in_dir, dir_prefix. cbn. rewrite starts_with_prefix. unfold node_key.
  rewrite PackPrefix_prefix by done. naive_solver.
Qed.

Lemma in_dir_meta id id' t v :
  DirId_wf id -> DirId_wf id' -> t <> kDirEntType -> ~ in_dir id (PackPrefix id' t, v).
Proof.
  intros Hw Hw' Ht. unfold in_dir, dir_prefix. cbn. rewrite starts_with_prefix, (PackPrefix_key id' t).
  rewrite PackPrefix_prefix by done. intros [_ E]. congruence.
Qed.

Lemma count_insert_out m id k v : ~ in_dir id (k, v) -> entry_count (<[k := v]> m) id = entry_count m id.
Proof.
  intros Hn. unfold entry_count. rewrite map_filter_insert_False by done.
  rewrite map_filter_delete, delete_id; [done|]. apply map_lookup_filter_None. right.
  intros x _ Hx. apply Hn. exact Hx.
Qed.

Lemma count_insert_new m id k v :
  in_dir id (k, v) -> m !! k = None -> entry_count (<[k := v]> m) id = entry_count m id + 1.
Proof.
  intros Hi Hk. unfold entry_count. rewrite map_filter_insert_True by done.
  rewrite map_size_insert_None; [lia|]. apply map_lookup_filter_None. by left.
Qed.

Lemma count_insert_old m id k v v' :
  m !! k = Some v' -> entry_count (<[k := v]> m) id = entry_count m id.
Proof.
  intros Hk. unfold entry_count. destruct (decide (in_dir id (k, v))) as [Hi|Hi].
  - rewrite map_filter_insert_True by done. rewrite map_size_insert_Some; [done|].
    exists v'. apply map_lookup_filter_Some. split; [done|exact Hi].
  - by apply (count_insert_out m id k v) in Hi.
Qed.

Lemma count_delete m id k v :
  m !! k = Some v -> entry_count (delete k m) id = entry_count m id - Z.b2z (bool_decide (in_dir id (k, v))).
Proof.
  intros Hk. unfold entry_count. rewrite map_filter_delete. case_bool_decide as Hi.
  - rewrite map_size_delete_Some by (exists v; by apply map_lookup_filter_Some).
    assert (base.size (filter (in_dir id) m) <> 0%nat).
    { intros E%map_size_empty_inv. assert (filter (in_dir id) m !! k = Some v) as Hl
        by (by apply map_lookup_filter_Some). rewrite E in Hl. done. }
    cbn. lia.
  - rewrite delete_id; [cbn; lia|]. apply map_lookup_filter_None. right. intros x Hx. congruence.
Qed.
End Count.

(** ** The steps of the store *)

Inductive store_step (m m' : gmap bytes bytes) : Prop :=
  | ss_load id : DirId_wf id -> loads id m m' -> store_step m m'
  | ss_create b stat t : DirId_wf (dir_id b) -> is_u64 t -> creates b stat t m m' -> store_step m m'
  | ss_remove b t : DirId_wf (dir_id b) -> is_u64 t ->
      is_Some (m !! node_key (dir_id b) (name_hash b)) -> removes b t m m' -> store_step m m'
  | ss_update b v : DirId_wf (dir_id b) -> is_Some (m !! node_key (dir_id b) (name_hash b)) ->
      m' = <[node_key (dir_id b) (name_hash b) := v]> m -> store_step m m'
  | ss_touch b v i t : DirId_wf (dir_id b) -> is_u64 t ->
      is_Some (m !! node_key (dir_id b) (name_hash b)) -> info_at m (dir_id b) = Some i ->
      m' = <[meta_key (dir_id b) := DirInfo_EncodeTo (mkDirInfo t (size i))]>
             (<[node_key (dir_id b) (name_hash b) := v]> m) -> store_step m m'.

(** Every directory's info record has the number of its entries as its size
    (as an [int]); a directory without one has no entries. *)
Definition SizeOk (m : gmap bytes bytes) : Prop :=
  forall id, DirId_wf id ->
    (m !! meta_key id = None -> entry_count m id = 0) /\
    (forall i, info_at m id = Some i -> size i = s32 (entry_count m id)).

Lemma meta_not_in_dir id id' v : DirId_wf id -> DirId_wf id' -> ~ in_dir id (meta_key id', v).
Proof. intros. by apply in_dir_meta. Qed.
Lemma idx_not_in_dir id id' v : DirId_wf id -> DirId_wf id' -> ~ in_dir id (idx_key id', v).
Proof. intros. by apply in_dir_meta. Qed.

(** A load changes no entry. *)
Lemma loads_count id id' m m' :
  DirId_wf id -> DirId_wf id' -> loads id m m' -> entry_count m' id' = entry_count m id'.
Proof.
  intros Hw Hw' [Ho _ _ _]. unfold entry_count. f_equal. f_equal. apply map_eq. intros k.
  assert (E : forall v, in_dir id' (k, v) -> m' !! k = m !! k).
  { intros v Hi. apply Ho; intros ->; [by apply meta_not_in_dir in Hi|by apply idx_not_in_dir in Hi]. }
  apply option_eq. intros v. rewrite !map_lookup_filter_Some. split; intros [H Hi]; (split; [|done]).
  - by rewrite <- (E v Hi).
  - by rewrite (E v Hi).
Qed.

(** The info of a directory after a write to another one's record. *)
Lemma info_at_other id id' m v :
  DirId_wf id -> DirId_wf id' -> id' <> id -> info_at (<[meta_key id := v]> m) id' = info_at m id'.
Proof.
  intros Hw Hw' Hne. unfold info_at. rewrite lookup_insert_ne; [done|].
  intros E. by apply meta_key_inj in E as [? _].
Qed.
Lemma meta_at_other (id id' : DirId) (m : gmap bytes bytes) (v : bytes) :
  DirId_wf id -> DirId_wf id' -> id' <> id ->
  (<[meta_key id := v]> m) !! meta_key id' = m !! meta_key id'.
Proof.
  intros Hw Hw' Hne. rewrite lookup_insert_ne; [done|]. intros E. by apply meta_key_inj in E as [? _].
Qed.
Lemma meta_put_node (id : DirId) (h : bytes) (id' : DirId) (m : gmap bytes bytes) (v : bytes) :
  DirId_wf id -> DirId_wf id' -> (<[node_key id h := v]> m) !! meta_key id' = m !! meta_key id'.
Proof. intros. rewrite lookup_insert_ne; [done|]. apply not_eq_sym, node_key_other; done. Qed.
Lemma meta_del_node (id : DirId) (h : bytes) (id' : DirId) (m : gmap bytes bytes) :
  DirId_wf id -> DirId_wf id' -> (delete (node_key id h) m) !! meta_key id' = m !! meta_key id'.
Proof. intros. rewrite lookup_delete_ne; [done|]. apply not_eq_sym, node_key_other; done. Qed.

(** One directory's record and entries change together. *)
Lemma SizeOk_write id m m1 i :
  DirId_wf id -> DirInfo_wf i -> SizeOk m ->
  (forall id', DirId_wf id' -> m1 !! meta_key id' = m !! meta_key id') ->
  (forall id', DirId_wf id' -> id' <> id -> entry_count m1 id' = entry_count m id') ->
  size i = s32 (entry_count m1 id) ->
  SizeOk (<[meta_key id := DirInfo_EncodeTo i]> m1).
Proof.
  intros Hw Hi HS Hm Hc Hs id' Hw'. rewrite (count_insert_out _ id' (meta_key id)) by (by apply meta_not_in_dir).
  destruct (decide (id' = id)) as [->|Hne].
  - rewrite lookup_insert_eq, info_at_encode by done. split; [done|]. by intros ? [= <-].
  - rewrite meta_at_other, info_at_other, Hc by done. unfold info_at. rewrite Hm by done.
    by apply HS.
Qed.

Lemma count_put_node_ne id h v m id' :
  DirId_wf id -> DirId_wf id' -> id' <> id ->
  entry_count (<[node_key id h := v]> m) id' = entry_count m id'.
Proof.
  intros Hw Hw' Hne. apply count_insert_out. rewrite in_dir_node by done. congruence.
Qed.

Lemma SizeOk_step m m' : SizeOk m -> store_step m m' -> SizeOk m'.
Proof.
  intros HS [id Hw L|b stat t Hw Ht (Hn & i & Hi & ->)|b t Hw Ht [v Hn] (i & Hi & ->)
            |b v Hw [v0 Hn] ->|b v i t Hw Ht [v0 Hn] Hi ->].
  - intros id' Hw'. rewrite (loads_count id id' m m') by done.
    destruct (HS id' Hw') as [S1 S2]. destruct (decide (id' = id)) as [->|Hne].
    + destruct (m !! meta_key id) as [w|] eqn:Em.
      * pose proof (ld_meta _ _ _ L ltac:(by eexists)) as E. rewrite E, Em. split; [done|].
        intros i Hi. apply S2. unfold info_at in *. by rewrite <- E.
      * specialize (S1 eq_refl). split; [done|]. intros i Hi. rewrite S1.
        destruct (ld_new _ _ _ L Em) as [Hnone|(j & Hj & Hij)].
        { unfold info_at in Hi. by rewrite Hnone in Hi. }
        { rewrite Hij in Hi. by simplify_eq. }
    + destruct (loads_local id m m' ltac:(done) ltac:(done) _ ltac:(done) ltac:(done)) as [E1 _]. unfold info_at. rewrite !E1.
      split; [done|exact S2].
  - destruct (HS (dir_id b) Hw) as [_ S2]. apply S2 in Hi as Hsz.
    apply (SizeOk_write _ m); [done|by split; [|apply s32_range]|done| | |].
    + intros. by apply meta_put_node.
    + intros. by apply count_put_node_ne.
    + rewrite count_insert_new; [|by apply in_dir_node|done].
      cbn. rewrite Hsz, s32_add_r. f_equal. lia.
  - destruct (HS (dir_id b) Hw) as [_ S2]. apply S2 in Hi as Hsz.
    apply (SizeOk_write _ m); [done|by split; [|apply s32_range]|done| | |].
    + intros. by apply meta_del_node.
    + intros id' Hw' Hne. rewrite (count_delete _ _ _ _ Hn), bool_decide_false; [cbn; lia|].
      rewrite in_dir_node by done. congruence.
    + rewrite (count_delete _ _ _ _ Hn), bool_decide_true by (by apply in_dir_node). cbn.
      replace (size i - 1) with (s32 (entry_count m (dir_id b)) + -1) by lia.
      rewrite s32_add_l. f_equal.
  - intros id' Hw'. rewrite (count_insert_old _ _ _ _ _ Hn). unfold info_at.
    rewrite meta_put_node by done. by apply HS.
  - destruct (HS (dir_id b) Hw) as [_ S2]. apply S2 in Hi as Hsz.
    apply (SizeOk_write _ m); [done| |done| | |].
    + split; [done|]. exact (info_at_size m (dir_id b) i Hi).
    + intros. by apply meta_put_node.
    + intros. by apply count_put_node_ne.
    + by rewrite (count_insert_old _ _ _ _ _ Hn).
Qed.

Lemma SizeOk_steps m m' : SizeOk m -> rtc store_step m m' -> SizeOk m'.
Proof. intros HS Hr. induction Hr; eauto using SizeOk_step. Qed.

(** ** From a handler's work to the whole handler *)

Section Handlers.
Context {kv : KV} {xx : XXHash} (o : MDSOptions).

(** A handler rejects the request, or loads the directory and then ends early
    or after its work. *)
Definition outcome_of {A} (b : BaseOptions) (Q : SRV -> Outcome A -> SRV -> Prop)
    (st : SRV) (out : Outcome A) (st' : SRV) : Prop :=
  (exists s, s <> kOk /\ out = Error s /\ st' = st) \/
  exists st1, loads (dir_id b) (view (db st)) (view (db st1)) /\ same_counters st st1 /\
    ends o b Q st1 out st'.

Lemma run_spec {A} b lock (s : Status) st (work : nat -> SRV -> Outcome A * SRV)
    (Q : SRV -> Outcome A -> SRV -> Prop) :
  SrvInv st -> DirId_wf (dir_id b) ->
  (forall st1 r d x, Held st1 r (dir_id b) d (dir_set_locked lock x) ->
     DirOk (view (db st1)) (dir_key (dir_id b)) (dir_set_locked false x) ->
     let (out, st2) := work d st1 in Q st1 out st2 /\ body_ok (dir_id b) d lock st1 st2) ->
  let (out, st') := if negb (ok s) then (Error s, st) else with_dir o b lock st work in
  SrvInv st' /\ outcome_of b Q st out st'.
Proof.
  intros HI Hw HQ. destruct (ok s) eqn:E; cbn [negb].
  - pose proof (with_dir_spec o b lock st work Q HI Hw) as HS.
    destruct (with_dir o b lock st work) as [out st']. destruct HS as [HI' HS]; [|by split; [|right]].
    intros st1 r d x _ _ _ Hh HO _. by eapply HQ.
  - split; [done|]. left. exists s. split_and!; [by apply ok_false|done|done].
Qed.

Lemma Fstat_spec b st : SrvInv st -> DirId_wf (dir_id b) ->
  let (out, st') := Fstat o b st in SrvInv st' /\ outcome_of b (fstat_post o b) st out st'.
Proof. intros HI Hw. apply run_spec; [done|done|]. intros. by eapply fstat_work_spec. Qed.

Lemma Lookup_spec b st : SrvInv st -> DirId_wf (dir_id b) ->
  let (out, st') := MdsSrv.Lookup o b st in SrvInv st' /\ outcome_of b (lookup_post b) st out st'.
Proof. intros HI Hw. apply run_spec; [done|done|]. intros. by eapply lookup_work_spec. Qed.

Lemma Unlink_spec q st : SrvInv st -> DirId_wf (dir_id (un_base q)) ->
  let (out, st') := Unlink o q st in
  SrvInv st' /\ outcome_of (un_base q) (unlink_post q) st out st'.
Proof. intros HI Hw. apply run_spec; [done|done|]. intros. by eapply unlink_work_spec. Qed.

Lemma Utime_spec q st : SrvInv st -> DirId_wf (dir_id (ut_base q)) ->
  let (out, st') := Utime o q st in
  SrvInv st' /\ outcome_of (ut_base q) (rewrite_post (ut_base q) (utime_edit q)) st out st'.
Proof. intros HI Hw. apply run_spec; [done|done|]. intros. by eapply rewrite_work_spec. Qed.

Lemma Trunc_spec q st : SrvInv st -> DirId_wf (dir_id (tr_base q)) ->
  let (out, st') := Trunc o q st in
  SrvInv st' /\ outcome_of (tr_base q) (rewrite_post (tr_base q) (trunc_edit q)) st out st'.
Proof. intros HI Hw. apply run_spec; [done|done|]. intros. by eapply rewrite_work_spec. Qed.

Lemma Uperm_spec q st : SrvInv st -> DirId_wf (dir_id (up_base q)) ->
  let (out, st') := Uperm o q st in
  SrvInv st' /\ outcome_of (up_base q) (uperm_post q) st out st'.
Proof. intros HI Hw. apply run_spec; [done|done|]. intros. by eapply uperm_work_spec. Qed.

Definition fcreat_ret (p : bool * Stat) : FcreatRet := mkFcreatRet p.1 p.2.

Lemma Fcreat_spec q st : SrvInv st -> DirId_wf (dir_id (fc_base q)) ->
  let (out, st') := Fcreat o q st in
  SrvInv st' /\ exists raw, out = map_outcome fcreat_ret raw /\
  outcome_of (fc_base q) (create_post o (fc_base q) (fc_flags q) S_ISREG (new_file o q)) st raw st'.
Proof.
  intros HI Hw. unfold Fcreat.
  pose proof (run_spec (fc_base q) true (check_create o (fc_base q)) st
    (create_work o (fc_base q) (fc_flags q) S_ISREG kFileExpected (new_file o q) 320 381)
    (create_post o (fc_base q) (fc_flags q) S_ISREG (new_file o q)) HI Hw) as HR.
  destruct (negb (ok (check_create o (fc_base q)))).
  - destruct HR as [HI' HR]; [intros; by eapply create_work_spec|].
    split; [done|]. by eexists (Error _).
  - destruct (with_dir _ _ _ _ _) as [raw st'].
    destruct HR as [HI' HR]; [intros; by eapply create_work_spec|].
    split; [done|]. exists raw. split; [|done]. by destruct raw as [[]| |].
Qed.

Lemma Mkdir_spec q st : SrvInv st -> DirId_wf (dir_id (mk_base q)) ->
  let (out, st') := Mkdir o q st in
  SrvInv st' /\ exists raw, out = map_outcome snd raw /\
  outcome_of (mk_base q) (create_post o (mk_base q) (mk_flags q) S_ISDIR (new_dir_stat o q)) st raw st'.
Proof.
  intros HI Hw. unfold Mkdir.
  pose proof (run_spec (mk_base q) true (check_create o (mk_base q)) st
    (create_work o (mk_base q) (mk_flags q) S_ISDIR kDirExpected (new_dir_stat o q) 596 659)
    (create_post o (mk_base q) (mk_flags q) S_ISDIR (new_dir_stat o q)) HI Hw) as HR.
  destruct (negb (ok (check_create o (mk_base q)))).
  - destruct HR as [HI' HR]; [intros; by eapply create_work_spec|].
    split; [done|]. by eexists (Error _).
  - destruct (with_dir _ _ _ _ _) as [raw st'].
    destruct HR as [HI' HR]; [intros; by eapply create_work_spec|].
    split; [done|]. exists raw. split; [|done]. by destruct raw as [[]| |].
Qed.

(** ** All requests *)

Definition reply {A} (f : A -> Reply) (r : Outcome A * SRV) : Outcome Reply * SRV :=
  (map_outcome f r.1, r.2).

Definition handle (r : Request) (st : SRV) : Outcome Reply * SRV :=
  match r with
  | RFstat b => reply PStat (Fstat o b st)
  | RFcreat q => reply PFcreat (Fcreat o q st)
  | RMkdir q => reply PStat (Mkdir o q st)
  | RChmod q => reply PStat (Chmod o q st)
  | RChown q => reply PStat (Chown o q st)
  | RUperm q => reply PStat (Uperm o q st)
  | RUtime q => reply PStat (Utime o q st)
  | RTrunc q => reply PStat (Trunc o q st)
  | RUnlink q => reply PStat (Unlink o q st)
  | RLookup b => reply PLookup (MdsSrv.Lookup o b st)
  | RListdir b => reply PNames (Listdir b st)
  | RReadidx b => reply PBytes (Readidx o b st)
  | ROpensession => reply PSession (Opensession o st)
  | RGetinput => reply PBytes (Getinput o st)
  | RGetoutput => reply PBytes (Getoutput o st)
  end.

(** How the counters move: a session id or an inode number is handed out, or
    the inode number taken is given back. *)
Inductive counter_step (st : SRV) : Outcome Reply -> SRV -> Prop :=
  | cs_same out st' : same_counters st st' -> counter_step st out st'
  | cs_back out st' : session st' = session st -> ino_ st' = reused (ino_ st) ->
      status_ st = kOk -> status_ st' = status_ (NextIno o st).2 -> counter_step st out st'
  | cs_ino out st' stat : session st' = session st -> ino_ st' = u64 (ino_ st + 1) ->
      status_ st = kOk -> status_ st' = status_ (NextIno o st).2 ->
      out = Ok (PFcreat (mkFcreatRet true stat)) \/ out = Ok (PStat stat) ->
      InodeNo stat = u64 (ino_ st + 1) -> counter_step st out st'
  | cs_session st' : status_ st' = status_ st -> ino_ st' = ino_ st ->
      session st' = u32 (session st + ns o) ->
      counter_step st (Ok (PSession (mkOpensessionRet (env_name (mds_env o)) (env_conf (mds_env o))
        (fio_name (mds_env o)) (fio_conf (mds_env o)) (session st')))) st'.

Lemma NextIno_status st st1 :
  same_counters st st1 -> status_ (NextIno o st1).2 = status_ (NextIno o st).2.
Proof. intros [C1 C2 C3]. unfold NextIno. cbn. by rewrite C2, C3. Qed.

Lemma counter_step_ext st st1 out st2 st' :
  same_counters st st1 -> same_counters st2 st' -> counter_step st1 out st2 ->
  counter_step st out st'.
Proof.
  intros C D H. pose proof (NextIno_status st st1 C) as N.
  destruct C as [C1 C2 C3], D as [D1 D2 D3]. inv H.
  - apply cs_same. destruct H0. split; congruence.
  - apply cs_back; congruence.
  - eapply cs_ino; try congruence; try done. by rewrite H5, C2.
  - rewrite <- D1. apply cs_session; congruence.
Qed.

(** Two stores with the same directory entries. *)
Definition same_nodes (m m' : gmap bytes bytes) : Prop :=
  forall id h, DirId_wf id -> m' !! node_key id h = m !! node_key id h.

Lemma loads_nodes id m m' : DirId_wf id -> loads id m m' -> same_nodes m m'.
Proof. intros Hw [Ho _ _ _] id' h Hw'. apply Ho; apply not_eq_sym, node_key_other; done. Qed.

Definition is_ok {A} (out : Outcome A) : bool := match out with Ok _ => true | _ => false end.

(** What any handler does, from what its work does. *)
Lemma outcome_effect {A} b (Q : SRV -> Outcome A -> SRV -> Prop) (f : A -> Reply) st out st' :
  DirId_wf (dir_id b) -> outcome_of b Q st out st' ->
  (forall st1 out st2, status_ st1 = kOk -> Q st1 out st2 ->
     rtc store_step (view (db st1)) (view (db st2)) /\ counter_step st1 (map_outcome f out) st2 /\
     (is_ok out = false -> view (db st2) = view (db st1))) ->
  rtc store_step (view (db st)) (view (db st')) /\ counter_step st (map_outcome f out) st' /\
  (is_ok out = false -> same_nodes (view (db st)) (view (db st'))).
Proof.
  intros Hw [(s & Hs & -> & ->)|(st1 & L & C & E)] HQ.
  { split_and!; [reflexivity|by apply cs_same|by intros _ ? ? ?]. }
  assert (Lr : store_step (view (db st)) (view (db st1))) by (by eapply ss_load).
  assert (Ln : same_nodes (view (db st)) (view (db st1))) by (by eapply loads_nodes).
  assert (Hsame : forall st2, same_counters st1 st2 -> counter_step st (map_outcome f out) st2).
  { intros st2 D. apply cs_same. destruct C, D. split; congruence. }
  destruct E as [s st' Hs V D|r st' V D Hr|out st2 st' Hok Hq V D]; rewrite V.
  - split_and!; [by apply rtc_once|by apply Hsame|done].
  - split_and!; [by apply rtc_once|by apply Hsame|done].
  - destruct (HQ st1 out st2 Hok Hq) as (R & K & F). split_and!.
    + by eapply rtc_l.
    + by eapply counter_step_ext.
    + intros Ho. by rewrite (F Ho).
Qed.

Lemma node_some m id h p : node m id h = Some p -> is_Some (m !! node_key id h).
Proof. unfold node. destruct (m !! node_key id h); [by eexists|done]. Qed.

Lemma create_effect b flags is_kind new_stat (f : bool * Stat -> Reply) st1 out st2 :
  DirId_wf (dir_id b) -> status_ st1 = kOk ->
  (forall i t, InodeNo (new_stat i t) = i) ->
  (forall stat, f (true, stat) = PFcreat (mkFcreatRet true stat) \/ f (true, stat) = PStat stat) ->
  create_post o b flags is_kind new_stat st1 out st2 ->
  rtc store_step (view (db st1)) (view (db st2)) /\ counter_step st1 (map_outcome f out) st2 /\
  (is_ok out = false -> view (db st2) = view (db st1)).
Proof.
  intros Hw Hok Hino Hf (S & T & P). destruct out as [[[] stat]|s|idx]; [| | |done].
  - destruct P as (t & Ht & -> & Hc & Hi).
    split_and!; [apply rtc_once; by eapply ss_create| |done].
    apply (cs_ino _ _ _ (new_stat (u64 (ino_ st1 + 1)) t)); try done.
    cbn. destruct (Hf (new_stat (u64 (ino_ st1 + 1)) t)) as [->| ->]; [by left|by right].
  - destruct P as (-> & Hi & _). split_and!; [reflexivity|by apply cs_back|done].
  - destruct P as (Hs & -> & Hi). split_and!; [reflexivity|by apply cs_back|done].
Qed.

Lemma unlink_effect q st1 out st2 :
  DirId_wf (dir_id (un_base q)) -> unlink_post q st1 out st2 ->
  rtc store_step (view (db st1)) (view (db st2)) /\
  (is_ok out = false -> view (db st2) = view (db st1)).
Proof.
  intros Hw (C & P). destruct out as [stat|s|idx]; [| |done].
  - destruct P as [(nm & t & Ht & Hn & Hr & Hrm)|(Hn & He & -> & ->)]; [|done].
    split; [|done]. apply rtc_once. eapply ss_remove; try done. by eapply node_some.
  - by destruct P as (_ & ->).
Qed.

Lemma rewrite_effect b edit st1 out st2 :
  DirId_wf (dir_id b) -> rewrite_post b edit st1 out st2 ->
  rtc store_step (view (db st1)) (view (db st2)) /\
  (is_ok out = false -> view (db st2) = view (db st1)).
Proof.
  intros Hw (C & P). destruct out as [stat|s|idx]; [| |done].
  - destruct P as (stat0 & nm & t & Ht & Hn & He & ->). split; [|done].
    apply rtc_once. eapply ss_update; try done. by eapply node_some.
  - by destruct P as (_ & ->).
Qed.

Lemma uperm_effect q st1 out st2 :
  DirId_wf (dir_id (up_base q)) -> uperm_post q st1 out st2 ->
  rtc store_step (view (db st1)) (view (db st2)) /\
  (is_ok out = false -> view (db st2) = view (db st1)).
Proof.
  intros Hw (C & P). destruct out as [stat|s|idx]; [| |done].
  - destruct P as (stat0 & nm & i & t & Ht & Hn & -> & Hi & ->). split; [|done].
    apply rtc_once. eapply ss_touch; try done. by eapply node_some.
  - by destruct P as (_ & ->).
Qed.

Lemma Readidx_spec b st : SrvInv st -> DirId_wf (dir_id b) ->
  let (out, st') := Readidx o b st in
  SrvInv st' /\ loads (dir_id b) (view (db st)) (view (db st')) /\ same_counters st st'.
Proof.
  intros HI Hw. unfold Readidx. pose proof (FetchDir_spec o (dir_id b) st HI Hw) as HF.
  destruct (FetchDir o (dir_id b) st) as [[s [r|]] st1].
  2: { by destruct HF as (L & C1 & C2 & C3 & Hs & HI'). }
  destruct HF as (L & C1 & C2 & C3 & d & x & H & HO).
  rewrite (ref_value_kvs _ _ _ _ (hd_ref _ _ _ _ _ H)).
  destruct (cores_lookup _ _ _ (hd_core _ _ _ _ _ H)) as (x0 & -> & _).
  split_and!; [by eapply Held_leave|done|done].
Qed.

Lemma Listdir_spec b st : SrvInv st ->
  let (out, st') := Listdir b st in
  SrvInv st' /\ view (db st') = view (db st) /\ same_counters st st'.
Proof.
  intros [H1 H2]. unfold Listdir, List_.
  pose proof (db_Scan_view (db st) (snap_of None) (PackPrefix (dir_id b) kDirEntType)) as Hv.
  destruct (db_Scan _ _ _) as [it d]. cbn [snd] in Hv.
  split_and!; [|done|done]. split; [done|]. cbn [db set_db tb]. by rewrite Hv.
Qed.

(** Every request keeps the invariant; it changes the store and the counters
    only by the steps above; and if it does not succeed, it leaves every
    directory entry as it was. *)
Definition handled (st : SRV) (out : Outcome Reply) (st' : SRV) : Prop :=
  SrvInv st' /\ rtc store_step (view (db st)) (view (db st')) /\ counter_step st out st' /\
  (is_ok out = false -> same_nodes (view (db st)) (view (db st'))).

Lemma handled_of {A} b (Q : SRV -> Outcome A -> SRV -> Prop) (f : A -> Reply) st (r : Outcome A * SRV) :
  DirId_wf (dir_id b) -> (let (out, st') := r in SrvInv st' /\ outcome_of b Q st out st') ->
  (forall st1 out st2, status_ st1 = kOk -> Q st1 out st2 ->
     rtc store_step (view (db st1)) (view (db st2)) /\ counter_step st1 (map_outcome f out) st2 /\
     (is_ok out = false -> view (db st2) = view (db st1))) ->
  let (out, st') := reply f r in handled st out st'.
Proof.
  intros Hw HO HQ. destruct r as [out st']. destruct HO as [HI HO]. cbn.
  destruct (outcome_effect b Q f st out st' Hw HO HQ) as (R & K & F).
  split_and!; [done|done|done|]. intros Ho. apply F. by destruct out.
Qed.

Lemma handled_uperm q st : SrvInv st -> DirId_wf (dir_id (up_base q)) ->
  let (out, st') := reply PStat (Uperm o q st) in handled st out st'.
Proof.
  intros HI Hw. eapply handled_of; [exact Hw|by apply Uperm_spec|].
  intros st1 out st2 _ Hq. destruct (uperm_effect q st1 out st2 Hw Hq) as [R F].
  split_and!; [done| |done]. apply cs_same, Hq.
Qed.

Lemma handled_same {A} (f : A -> Reply) id st (r : Outcome A * SRV) :
  DirId_wf id ->
  (let (out, st') := r in SrvInv st' /\ loads id (view (db st)) (view (db st')) /\ same_counters st st') ->
  let (out, st') := reply f r in handled st out st'.
Proof.
  intros Hw HR. destruct r as [out st']. destruct HR as (HI & L & C). cbn. split_and!; [done| | |].
  - apply rtc_once. by eapply ss_load.
  - by apply cs_same.
  - intros _. by eapply loads_nodes.
Qed.

Lemma handle_spec r st : SrvInv st -> req_wf r ->
  let (out, st') := handle r st in handled st out st'.
Proof.
  intros HI Hw. unfold req_wf in Hw. destruct r; cbn [target handle] in *.
  - eapply handled_of; [exact Hw|by apply Fstat_spec|].
    intros st1 out st2 _ (C & -> & _). split_and!; [reflexivity|by apply cs_same|done].
  - pose proof (Fcreat_spec q st HI Hw) as HS. destruct (Fcreat o q st) as [out st'].
    destruct HS as (HI' & raw & -> & HO).
    pose proof (handled_of (fc_base q) _ (fun p => PFcreat (fcreat_ret p)) st (raw, st') Hw
      (conj HI' HO)) as HH. unfold reply in *. cbn [fst snd] in *.
    replace (map_outcome PFcreat (map_outcome fcreat_ret raw))
      with (map_outcome (fun p => PFcreat (fcreat_ret p)) raw) by (by destruct raw).
    apply HH. intros. eapply create_effect; [done|done| |intros ?; by left|done]. done.
  - pose proof (Mkdir_spec q st HI Hw) as HS. destruct (Mkdir o q st) as [out st'].
    destruct HS as (HI' & raw & -> & HO).
    pose proof (handled_of (mk_base q) _ (fun p => PStat p.2) st (raw, st') Hw (conj HI' HO)) as HH.
    unfold reply in *. cbn [fst snd] in *.
    replace (map_outcome PStat (map_outcome snd raw))
      with (map_outcome (fun p => PStat p.2) raw) by (by destruct raw).
    apply HH. intros. eapply create_effect; [done|done| |intros ?; by right|done]. done.
  - by apply handled_uperm.
  - by apply handled_uperm.
  - by apply handled_uperm.
  - eapply handled_of; [exact Hw|by apply Utime_spec|].
    intros st1 out st2 _ Hq. destruct (rewrite_effect _ _ st1 out st2 Hw Hq) as [R F].
    split_and!; [done|apply cs_same, Hq|done].
  - eapply handled_of; [exact Hw|by apply Trunc_spec|].
    intros st1 out st2 _ Hq. destruct (rewrite_effect _ _ st1 out st2 Hw Hq) as [R F].
    split_and!; [done|apply cs_same, Hq|done].
  - eapply handled_of; [exact Hw|by apply Unlink_spec|].
    intros st1 out st2 _ Hq. destruct (unlink_effect q st1 out st2 Hw Hq) as [R F].
    split_and!; [done|apply cs_same, Hq|done].
  - eapply handled_of; [exact Hw|by apply Lookup_spec|].
    intros st1 out st2 _ (C & -> & _). split_and!; [reflexivity|by apply cs_same|done].
  - pose proof (Listdir_spec b st HI) as HS. apply (handled_same _ (dir_id b)); [done|].
    destruct (Listdir b st) as [out st']. destruct HS as (HI' & -> & C). by split_and!; [|apply loads_refl|].
  - apply (handled_same _ (dir_id b)); [done|]. by apply Readidx_spec.
  - split_and!; [by destruct HI|reflexivity| |by intros _ ? ? ?].
    exact (cs_session st (Opensession o st).2 eq_refl eq_refl eq_refl).
  - split_and!; [done|reflexivity|by apply cs_same|by intros _ ? ? ?].
  - split_and!; [done|reflexivity|by apply cs_same|by intros _ ? ? ?].
Qed.

(** A server that served any sequence of requests. *)
Inductive served (st : SRV) : list (Request * Outcome Reply) -> SRV -> Prop :=
  | served_nil : served st [] st
  | served_snoc tr st1 r out st2 :
      served st tr st1 -> req_wf r -> handle r st1 = (out, st2) ->
      served st (tr ++ [(r, out)]) st2.

Lemma served_inv st tr st' : SrvInv st -> served st tr st' ->
  SrvInv st' /\ rtc store_step (view (db st)) (view (db st')).
Proof.
  intros HI Hs. induction Hs as [|tr st1 r out st2 _ [IH1 IH2] Hw He]; [done|].
  pose proof (handle_spec r st1 IH1 Hw) as HS. rewrite He in HS. destruct HS as (H1 & H2 & _).
  split; [done|]. by etransitivity.
Qed.

Lemma SRV_new_inv d now ts : 0 <= dir_table_size o -> SrvInv (SRV_new o d now ts).
Proof.
  intros Hc. destruct (LRU_empty_inv (V := nat) (dir_table_size o) Hc) as [HL HA].
  assert (Hk : kvs (LRU_empty (V := nat) (dir_table_size o)) = ∅) by done.
  split; cbn [tb SRV_new dirs].
  - split; try done; unfold DirTable.DirTable_new; rewrite ?Hk; try done.
    + intros d' [? ?]. done.
    + intros d' [? ?]. done.
  - intros r k d' x. unfold DirTable.DirTable_new. by rewrite Hk.
Qed.
End Handlers.
