(* ===== verification/MdsSrvProps.v ===== *)
(** * The metadata server's contract

    The directory entries in the store, as a map from a directory and a name
    hash to a record, are the abstract state; each theorem says how a request
    changes it and what the reply tells about it, whatever the store's reads
    and writes return.  The remaining theorems are about any sequence of
    requests: sizes, inode numbers, sessions. *)
From S2P Require Import Prelude Coding Status FsTypes Gigaplus Lru Tables Mdb.
From S2P Require Import MdsApi MdsSrv MdsSrvInv MdsSrvSpec MdsSrvThms.

(** ** Changes of one entry *)

(** All entries but one are the same. *)
Definition others_same (b : BaseOptions) (m m' : gmap bytes bytes) : Prop :=
  forall id h, DirId_wf id -> (id, h) <> (dir_id b, name_hash b) ->
    m' !! node_key id h = m !! node_key id h.

Definition entry (b : BaseOptions) (m : gmap bytes bytes) : option bytes :=
  m !! node_key (dir_id b) (name_hash b).

Definition stored (b : BaseOptions) (m : gmap bytes bytes) : option (Stat * bytes) :=
  entry b m ≫= decode_node.

Lemma put_others b m v :
  DirId_wf (dir_id b) -> others_same b m (<[node_key (dir_id b) (name_hash b) := v]> m).
Proof.
  intros Hw id h Hw' Hne. rewrite lookup_insert_ne; [done|].
  intros E. apply node_key_inj in E as [E1 E2]; [|done|done]. by rewrite E1, E2 in Hne.
Qed.
Lemma del_others b m :
  DirId_wf (dir_id b) -> others_same b m (delete (node_key (dir_id b) (name_hash b)) m).
Proof.
  intros Hw id h Hw' Hne. rewrite lookup_delete_ne; [done|].
  intros E. apply node_key_inj in E as [E1 E2]; [|done|done]. by rewrite E1, E2 in Hne.
Qed.
Lemma meta_nodes id v m : DirId_wf id -> same_nodes m (<[meta_key id := v]> m).
Proof. intros Hw id' h Hw'. rewrite lookup_insert_ne; [done|]. by apply node_key_other. Qed.

Lemma others_trans b m1 m2 m3 :
  same_nodes m1 m2 -> others_same b m2 m3 -> others_same b m1 m3.
Proof. intros H1 H2 id h Hw Hne. by rewrite H2, H1. Qed.
Lemma others_trans_r b m1 m2 m3 :
  others_same b m1 m2 -> same_nodes m2 m3 -> others_same b m1 m3.
Proof. intros H1 H2 id h Hw Hne. by rewrite H2, H1. Qed.

Lemma entry_same b m m' : DirId_wf (dir_id b) -> same_nodes m m' -> entry b m' = entry b m.
Proof. intros Hw H. by apply H. Qed.
Lemma stored_same b m m' : DirId_wf (dir_id b) -> same_nodes m m' -> stored b m' = stored b m.
Proof. intros Hw H. unfold stored. by rewrite (entry_same b m m'). Qed.

Lemma creates_entry b stat t m m' :
  DirId_wf (dir_id b) -> creates b stat t m m' ->
  entry b m = None /\ entry b m' = Some (encode_node stat (name b)) /\ others_same b m m'.
Proof.
  intros Hw (Hn & i & Hi & ->). split_and!; [done| |].
  - unfold entry. rewrite meta_nodes by done. apply lookup_insert_eq.
  - eapply others_trans_r; [by apply put_others|by apply meta_nodes].
Qed.

Lemma removes_entry b t m m' :
  DirId_wf (dir_id b) -> removes b t m m' -> entry b m' = None /\ others_same b m m'.
Proof.
  intros Hw (i & Hi & ->). split.
  - unfold entry. rewrite meta_nodes by done. apply lookup_delete_eq.
  - eapply others_trans_r; [by apply del_others|by apply meta_nodes].
Qed.

Section Props.
Context {kv : KV} {xx : XXHash} (o : MDSOptions).

(** The index of a redirect reply says another server is responsible. *)
Definition misrouted (b : BaseOptions) (idx : bytes) : Prop :=
  exists r, idx = Encode r /\ HashToServer (giga o) r (name_hash b) <> srv_id o.

(** A reply that is not OK. *)
Definition failed {A : Type} (b : BaseOptions) (m : gmap bytes bytes) (out : Outcome A)
    (m' : gmap bytes bytes) : Prop :=
  same_nodes m m' /\
  match out with Ok _ => False | Error s => s <> kOk | Redirected idx => misrouted b idx end.

(** How a handler's outcome follows from its work's. *)
Lemma outcome_final {A} b (Q : SRV -> Outcome A -> SRV -> Prop) st out st' :
  DirId_wf (dir_id b) -> outcome_of o b Q st out st' ->
  failed b (view (db st)) out (view (db st')) \/
  exists st1 st2, same_nodes (view (db st)) (view (db st1)) /\ same_counters st st1 /\
    Q st1 out st2 /\ view (db st') = view (db st2) /\ same_counters st2 st'.
Proof.
  intros Hw [(s & Hs & -> & ->)|(st1 & L & C & E)]; [left; by split|].
  apply loads_nodes in L; [|done].
  destruct E as [s st' Hs V D|r st' V D Hr|out st2 st' Hok Hq V D].
  - left. rewrite V. done.
  - left. rewrite V. split; [done|by exists r].
  - right. by exists st1, st2.
Qed.

Lemma create_final b flags is_kind new_stat st raw st' :
  DirId_wf (dir_id b) ->
  outcome_of o b (create_post o b flags is_kind new_stat) st raw st' ->
  let m := view (db st) in let m' := view (db st') in
  match raw with
  | Ok (true, stat) =>
      entry b m = None /\ (exists t, is_u64 t /\ stat = new_stat (u64 (ino_ st + 1)) t) /\
      entry b m' = Some (encode_node stat (name b)) /\ others_same b m m'
  | Ok (false, stat) =>
      (exists nm, stored b m = Some (stat, nm)) /\ excl flags = false /\
      is_kind (FileMode stat) = true /\ same_nodes m m'
  | _ => failed b m raw m'
  end.
Proof.
  intros Hw HO. cbv zeta.
  destruct (outcome_final _ _ _ _ _ Hw HO) as [HF|(st1 & st2 & N & [C1 C2 C3] & (S & T & P) & -> & _)].
  - destruct raw as [[[] stat]| |]; [by destruct HF..|done|done].
  - destruct raw as [[[] stat]|s|idx]; [| | |done].
    + destruct P as (t & Ht & -> & Hc & Hi). rewrite C2 in *.
      destruct (creates_entry _ _ _ _ _ Hw Hc) as (E1 & E2 & E3).
      rewrite (entry_same b (view (db st)) (view (db st1))) in E1 by done.
      split_and!; [done|by exists t|done|by eapply others_trans].
    + destruct P as (-> & Hi & He & Hk & nm & Hn). split_and!; [|done|done|done].
      exists nm. rewrite <- (stored_same b (view (db st)) (view (db st1))) by done. exact Hn.
    + destruct P as (Hs & -> & _). done.
Qed.

(** What the record of a new entry holds, field by field; [special] is the bits
    of the requested mode kept beside the nine permission bits. *)
Record new_entry (type special : Z) (mode uid gid zserver ino : Z) (stat : Stat) : Prop := {
  ne_type : Z.land (FileMode stat) S_IFMT = type;
  ne_perm : Z.land (FileMode stat) ACCESSPERMS = Z.land mode ACCESSPERMS;
  ne_special : Z.land (FileMode stat) special = Z.land mode special;
  ne_rest : Z.ldiff (FileMode stat) (Z.lor S_IFMT (Z.lor ACCESSPERMS special)) = 0;
  ne_ids : RegId stat = reg_id o /\ SnapId stat = snap_id o /\ InodeNo stat = ino;
  ne_owner : UserId stat = uid /\ GroupId stat = gid;
  ne_zserver : ZerothServer stat = zserver;
  ne_size : FileSize stat = 0;
  ne_times : ModifyTime stat = ChangeTime stat }.

(** Masks of a mode put together from constants and masked parts. *)
Ltac mask_bits :=
  unfold S_IFMT, S_IFREG, S_IFDIR, ACCESSPERMS, DELTAFS_DIR_MASK;
  rewrite ?Z.ldiff_land, ?Z.land_lor_distr_l, <- ?Z.land_assoc;
  repeat match goal with |- context [Z.land (Z.pos ?a) ?b] =>
    let c := eval vm_compute in (Z.land (Z.pos a) b) in change (Z.land (Z.pos a) b) with c end;
  rewrite ?Z.land_0_r, ?Z.lor_0_r, ?Z.lor_0_l; reflexivity.

Lemma new_file_entry q ino t :
  new_entry S_IFREG 0 (fc_mode q) (fc_uid q) (fc_gid q) 0 ino (new_file o q ino t).
Proof.
  split; unfold new_file; cbv zeta;
    cbn [FileMode RegId SnapId InodeNo UserId GroupId ZerothServer FileSize ModifyTime ChangeTime];
    [mask_bits|mask_bits|mask_bits|mask_bits|by split_and!|by split|reflexivity..].
Qed.

Lemma new_dir_entry q ino t :
  new_entry S_IFDIR DELTAFS_DIR_MASK (mk_mode q) (mk_uid q) (mk_gid q)
    (u32 (Z.rem (PickupServer (mkDirId (reg_id o) (snap_id o) ino)) (nvs o))) ino
    (new_dir_stat o q ino t).
Proof.
  split; unfold new_dir_stat; cbv zeta;
    cbn [FileMode RegId SnapId InodeNo UserId GroupId ZerothServer FileSize ModifyTime ChangeTime];
    [mask_bits|mask_bits|mask_bits|mask_bits|by split_and!|by split|reflexivity..].
Qed.

(** C2. [Fcreat]: a reply with [created] means that there was no entry under
    the name hash, that the new entry holds a regular file with the next inode
    number, the requested permission bits and owner, and the reply's [Stat],
    and that nothing else changed; without [created], that the entry existed,
    is a regular file, the request was not exclusive, and nothing changed; any
    error or redirect leaves all entries as they were. *)
Theorem fcreat_refines q st :
  let b := fc_base q in
  SrvInv st -> DirId_wf (dir_id b) ->
  let (out, st') := Fcreat o q st in
  let m := view (db st) in let m' := view (db st') in
  match out with
  | Ok (mkFcreatRet true stat) =>
      entry b m = None /\ (exists t, is_u64 t /\ stat = new_file o q (u64 (ino_ st + 1)) t) /\
      new_entry S_IFREG 0 (fc_mode q) (fc_uid q) (fc_gid q) 0 (u64 (ino_ st + 1)) stat /\
      entry b m' = Some (encode_node stat (name b)) /\ others_same b m m'
  | Ok (mkFcreatRet false stat) =>
      (exists nm, stored b m = Some (stat, nm)) /\ excl (fc_flags q) = false /\
      S_ISREG (FileMode stat) = true /\ same_nodes m m'
  | _ => failed b m out m'
  end.
Proof.
  intros b HI Hw. pose proof (Fcreat_spec o q st HI Hw) as HS.
  destruct (Fcreat o q st) as [out st']. destruct HS as (HI' & raw & -> & HO).
  apply create_final in HO; [|done]. destruct raw as [[[] stat]| |]; try done.
  destruct HO as (H1 & (t & Ht & ->) & H3 & H4). split_and!; [done|by exists t|apply new_file_entry|done|done].
Qed.

(** C3. [Mkdir]: the same contract for directories.  The record of a new
    directory has the directory type, the nine permission bits and the special
    bits of the requested mode and no other bit, the ids of the server and the
    next inode number, the requested owner, size 0, and as its zeroth server the
    one its own id hashes to, modulo the number of virtual servers. *)
Theorem mkdir_refines q st :
  let b := mk_base q in
  SrvInv st -> DirId_wf (dir_id b) ->
  let (out, st') := Mkdir o q st in
  let m := view (db st) in let m' := view (db st') in
  match out with
  | Ok stat =>
      (entry b m = None /\
       new_entry S_IFDIR DELTAFS_DIR_MASK (mk_mode q) (mk_uid q) (mk_gid q)
         (u32 (Z.rem (PickupServer (mkDirId (reg_id o) (snap_id o) (u64 (ino_ st + 1)))) (nvs o)))
         (u64 (ino_ st + 1)) stat /\ is_u64 (ChangeTime stat) /\
       entry b m' = Some (encode_node stat (name b)) /\ others_same b m m') \/
      ((exists nm, stored b m = Some (stat, nm)) /\ excl (mk_flags q) = false /\
       S_ISDIR (FileMode stat) = true /\ same_nodes m m')
  | _ => failed b m out m'
  end.
Proof.
  intros b HI Hw. pose proof (Mkdir_spec o q st HI Hw) as HS.
  destruct (Mkdir o q st) as [out st']. destruct HS as (HI' & raw & -> & HO).
  apply create_final in HO; [|done]. destruct raw as [[[] stat]| |]; [left|by right|done|done].
  destruct HO as (H1 & (t & Ht & ->) & H3 & H4). split_and!; [done|apply new_dir_entry|done|done|done].
Qed.

(** C4. [Unlink]: on success the entry was a regular file, is gone, and its
    [Stat] is the reply, with nothing else changed; or, for a request without
    [O_EXCL], there was no entry and the reply is the zero [Stat]; a directory
    is never removed; an error leaves all entries as they were. *)
Theorem unlink_refines q st :
  let b := un_base q in
  SrvInv st -> DirId_wf (dir_id b) ->
  let (out, st') := Unlink o q st in
  let m := view (db st) in let m' := view (db st') in
  match out with
  | Ok stat =>
      ((exists nm, stored b m = Some (stat, nm)) /\ S_ISREG (FileMode stat) = true /\
       entry b m' = None /\ others_same b m m') \/
      (entry b m = None /\ excl (un_flags q) = false /\ stat = zero_stat /\ same_nodes m m')
  | _ => failed b m out m'
  end.
Proof.
  intros b HI Hw. pose proof (Unlink_spec o q st HI Hw) as HS.
  destruct (Unlink o q st) as [out st']. destruct HS as (HI' & HO). cbv zeta.
  destruct (outcome_final _ _ _ _ _ Hw HO) as [HF|(st1 & st2 & N & _ & (_ & P) & -> & _)].
  - destruct out; [by destruct HF|done|done].
  - destruct out as [stat|s|idx]; [| |done].
    + destruct P as [(nm & t & Ht & Hn & Hr & Hrm)|(Hn & He & -> & ->)].
      * left. destruct (removes_entry _ _ _ _ Hw Hrm) as [E1 E2].
        split_and!; [|done|done|by eapply others_trans]. exists nm.
        rewrite <- (stored_same b (view (db st)) (view (db st1))) by done. exact Hn.
      * right. split_and!; [|done|done|done].
        by rewrite <- (entry_same b (view (db st)) (view (db st1))).
    + destruct P as (Hs & ->). done.
Qed.

(** An update in place, seen on the entries. *)
Lemma put_entry b m v : DirId_wf (dir_id b) ->
  entry b (<[node_key (dir_id b) (name_hash b) := v]> m) = Some v /\
  others_same b m (<[node_key (dir_id b) (name_hash b) := v]> m).
Proof. intros Hw. split; [apply lookup_insert_eq|by apply put_others]. Qed.

Definition updated (b : BaseOptions) (m : gmap bytes bytes) (stat stat' : Stat)
    (m' : gmap bytes bytes) : Prop :=
  exists nm, stored b m = Some (stat, nm) /\ entry b m' = Some (encode_node stat' nm) /\
    others_same b m m'.

Lemma rewrite_final b edit st out st' :
  DirId_wf (dir_id b) -> outcome_of o b (rewrite_post b edit) st out st' ->
  let m := view (db st) in let m' := view (db st') in
  match out with
  | Ok stat' => exists stat t, is_u64 t /\ edit t stat = (kOk, stat') /\ updated b m stat stat' m'
  | _ => failed b m out m'
  end.
Proof.
  intros Hw HO. cbv zeta.
  destruct (outcome_final _ _ _ _ _ Hw HO) as [HF|(st1 & st2 & N & _ & (_ & P) & -> & _)].
  - destruct out; [by destruct HF|done|done].
  - destruct out as [stat'|s|idx]; [| |done].
    + destruct P as (stat & nm & t & Ht & Hn & He & ->). exists stat, t. split_and!; [done|done|].
      exists nm. rewrite <- (stored_same b (view (db st)) (view (db st1))) by done.
      destruct (put_entry b (view (db st1)) (encode_node stat' nm) Hw) as [E1 E2].
      split_and!; [exact Hn|exact E1|by eapply others_trans].
    + destruct P as (Hs & ->). done.
Qed.

(** C35. [Utime] and [Trunc]: on success the entry existed and now holds the
    same name with the reply's [Stat]: the requested modification time (and
    size, for a regular file only), a new change time, every other field as
    before; no other entry changed; errors change nothing. *)
Theorem setattr_refines qu qt st :
  SrvInv st -> DirId_wf (dir_id (ut_base qu)) -> DirId_wf (dir_id (tr_base qt)) ->
  (let (out, st') := Utime o qu st in
   match out with
   | Ok stat' => exists stat t, is_u64 t /\ stat' = set_times (ut_mtime qu) t stat /\
       updated (ut_base qu) (view (db st)) stat stat' (view (db st'))
   | _ => failed (ut_base qu) (view (db st)) out (view (db st'))
   end) /\
  (let (out, st') := Trunc o qt st in
   match out with
   | Ok stat' => exists stat t, is_u64 t /\ S_ISREG (FileMode stat) = true /\
       stat' = set_times (tr_mtime qt) t (set_size (tr_size qt) stat) /\
       updated (tr_base qt) (view (db st)) stat stat' (view (db st'))
   | _ => failed (tr_base qt) (view (db st)) out (view (db st'))
   end).
Proof.
  intros HI Hw Hw'. split.
  - pose proof (Utime_spec o qu st HI Hw) as HS. destruct (Utime o qu st) as [out st'].
    destruct HS as (_ & HO). apply rewrite_final in HO; [|done]. destruct out; [|done|done].
    destruct HO as (stat & t & Ht & [= <-] & HU). by exists stat, t.
  - pose proof (Trunc_spec o qt st HI Hw') as HS. destruct (Trunc o qt st) as [out st'].
    destruct HS as (_ & HO). apply rewrite_final in HO; [|done]. destruct out; [|done|done].
    destruct HO as (stat & t & Ht & HE & HU). exists stat, t. unfold trunc_edit in HE.
    destruct (S_ISREG (FileMode stat)); [|done]. cbn in HE. by simplify_eq.
Qed.

Lemma uperm_final q st out st' :
  let b := up_base q in
  DirId_wf (dir_id b) -> outcome_of o b (uperm_post q) st out st' ->
  match out with
  | Ok stat' => exists stat t, is_u64 t /\ stat' = uperm_stat q t stat /\
      updated b (view (db st)) stat stat' (view (db st'))
  | _ => failed b (view (db st)) out (view (db st'))
  end.
Proof.
  intros b Hw HO.
  destruct (outcome_final _ _ _ _ _ Hw HO) as [HF|(st1 & st2 & N & _ & (_ & P) & -> & _)].
  - destruct out; [by destruct HF|done|done].
  - destruct out as [stat'|s|idx]; [| |done].
    + destruct P as (stat & nm & i & t & Ht & Hn & -> & Hi & ->). exists stat, t.
      split_and!; [done|done|]. exists nm.
      rewrite <- (stored_same b (view (db st)) (view (db st1))) by done.
      destruct (put_entry b (view (db st1)) (encode_node (uperm_stat q t stat) nm) Hw) as [E1 E2].
      split_and!; [exact Hn| |].
      * fold b. rewrite <- E1. symmetry. apply entry_same; [done|]. intros ? ? ?.
        symmetry. by apply meta_nodes.
      * eapply others_trans; [exact N|]. eapply others_trans_r; [exact E2|by apply meta_nodes].
    + destruct P as (Hs & ->). done.
Qed.

(** The bits of a mode after [chmod]. *)
Lemma chmod_bits q t stat :
  up_mode q <> DELTAFS_NON -> is_u32 (FileMode stat) ->
  let mode := FileMode (uperm_stat q t stat) in
  Z.land mode ACCESSPERMS = Z.land (up_mode q) ACCESSPERMS /\
  Z.ldiff mode ACCESSPERMS = Z.ldiff (FileMode stat) ACCESSPERMS.
Proof.
  intros Hn Hm. cbn [FileMode uperm_stat]. rewrite (proj2 (Z.eqb_neq _ _) Hn).
  change (u32 (Z.lnot ACCESSPERMS)) with (Z.ldiff (Z.ones 32) ACCESSPERMS).
  split; apply Z.bits_inj'; intros i Hi;
    rewrite ?Z.land_spec, ?Z.ldiff_spec, ?Z.lor_spec, ?Z.land_spec, ?Z.ldiff_spec.
  - destruct (Z.testbit ACCESSPERMS i), (Z.testbit (up_mode q) i); cbn;
      rewrite ?andb_false_r, ?andb_true_r; done.
  - destruct (Z.testbit ACCESSPERMS i); cbn; rewrite ?andb_false_r, ?andb_true_r, ?orb_false_r; [done|].
    destruct (Z.lt_ge_cases i 32).
    + rewrite Z.ones_spec_low by lia. done.
    + rewrite Z.ones_spec_high by lia. by rewrite (in_width_bits 32) by done.
Qed.

(** [Chmod] on success replaces exactly the nine permission bits of the
    entry's mode by the requested ones: the file type and special bits, the
    owner, inode, size and modification time, and every other entry keep their
    values. *)
Theorem chmod_permissions q st :
  let b := cm_base q in
  SrvInv st -> DirId_wf (dir_id b) -> cm_mode q <> DELTAFS_NON ->
  let (out, st') := Chmod o q st in
  match out with
  | Ok stat' => exists stat, updated b (view (db st)) stat stat' (view (db st')) /\
      (is_u32 (FileMode stat) ->
       Z.land (FileMode stat') ACCESSPERMS = Z.land (cm_mode q) ACCESSPERMS /\
       Z.ldiff (FileMode stat') ACCESSPERMS = Z.ldiff (FileMode stat) ACCESSPERMS) /\
      InodeNo stat' = InodeNo stat /\ UserId stat' = UserId stat /\ GroupId stat' = GroupId stat /\
      FileSize stat' = FileSize stat /\ ModifyTime stat' = ModifyTime stat
  | _ => failed b (view (db st)) out (view (db st'))
  end.
Proof.
  intros b HI Hw Hm. unfold Chmod. set (u := mkUperm _ _ _ _).
  pose proof (Uperm_spec o u st HI Hw) as HS. destruct (Uperm o u st) as [out st'].
  destruct HS as (_ & HO). apply uperm_final in HO; [|done]. destruct out; [|done|done].
  destruct HO as (stat & t & Ht & -> & HU). exists stat. split_and!; try done.
  by apply chmod_bits.
Qed.

(** [Chown] on success sets the user and group ids asked for, keeps the
    one that was not ([DELTAFS_NON_UID], [DELTAFS_NON_GID]), and keeps the
    mode and everything else. *)
Theorem chown_owner q st :
  let b := co_base q in
  SrvInv st -> DirId_wf (dir_id b) ->
  let (out, st') := Chown o q st in
  match out with
  | Ok stat' => exists stat, updated b (view (db st)) stat stat' (view (db st')) /\
      UserId stat' = (if co_uid q =? DELTAFS_NON then UserId stat else co_uid q) /\
      GroupId stat' = (if co_gid q =? DELTAFS_NON then GroupId stat else co_gid q) /\
      FileMode stat' = FileMode stat /\ InodeNo stat' = InodeNo stat /\
      FileSize stat' = FileSize stat
  | _ => failed b (view (db st)) out (view (db st'))
  end.
Proof.
  intros b HI Hw. unfold Chown. set (u := mkUperm _ _ _ _).
  pose proof (Uperm_spec o u st HI Hw) as HS. destruct (Uperm o u st) as [out st'].
  destruct HS as (_ & HO). apply uperm_final in HO; [|done]. destruct out; [|done|done].
  destruct HO as (stat & t & Ht & -> & HU). exists stat. by split_and!.
Qed.

(** C36. [Fstat] and [Lookup] change no entry; a [Stat] they return is the one
    stored under the name hash (a directory's, for [Lookup]).  In paranoid mode
    the stored name of a [Stat] that [Fstat] returns has the requested hash;
    [Lookup] does not check this (the source has a TODO there). *)
Theorem reads_correct bf bl st :
  SrvInv st -> DirId_wf (dir_id bf) -> DirId_wf (dir_id bl) ->
  (let (out, st') := Fstat o bf st in
   same_nodes (view (db st)) (view (db st')) /\
   match out with
   | Ok stat => exists nm, stored bf (view (db st)) = Some (stat, nm) /\
       (paranoid o = true -> name_hash bf = PutHash nm)
   | _ => failed bf (view (db st)) out (view (db st'))
   end) /\
  (let (out, st') := MdsSrv.Lookup o bl st in
   same_nodes (view (db st)) (view (db st')) /\
   match out with
   | Ok ls => exists stat nm due, stored bl (view (db st)) = Some (stat, nm) /\
       S_ISDIR (FileMode stat) = true /\
       ls = LookupStat_CopyFrom (mkLookupStat 0 0 0 0 0 0 0 due) stat
   | _ => failed bl (view (db st)) out (view (db st'))
   end).
Proof.
  intros HI Hw Hw'. split.
  - pose proof (Fstat_spec o bf st HI Hw) as HS. destruct (Fstat o bf st) as [out st'].
    destruct HS as (_ & HO).
    destruct (outcome_final _ _ _ _ _ Hw HO) as [HF|(st1 & st2 & N & _ & (_ & V & P) & -> & _)].
    + split; [apply HF|]. destruct out; [by destruct HF|done|done].
    + rewrite V. split; [done|]. destruct out as [stat|s|]; [|done|done].
      by rewrite <- (stored_same bf (view (db st)) (view (db st1))).
  - pose proof (Lookup_spec o bl st HI Hw') as HS. destruct (MdsSrv.Lookup o bl st) as [out st'].
    destruct HS as (_ & HO).
    destruct (outcome_final _ _ _ _ _ Hw' HO) as [HF|(st1 & st2 & N & _ & (_ & V & P) & -> & _)].
    + split; [apply HF|]. destruct out; [by destruct HF|done|done].
    + rewrite V. split; [done|]. destruct out as [stat|s|]; [|done|done].
      by rewrite <- (stored_same bl (view (db st)) (view (db st1))).
Qed.

(** A file that was created is stored. *)
Lemma Fcreat_stored q st stat st1 :
  let b := fc_base q in
  SrvInv st -> DirId_wf (dir_id b) -> is_u32 (zlen (name b)) ->
  is_u64 (reg_id o) -> is_u64 (snap_id o) -> is_u32 (fc_mode q) ->
  is_u32 (fc_uid q) -> is_u32 (fc_gid q) ->
  Fcreat o q st = (Ok (mkFcreatRet true stat), st1) ->
  SrvInv st1 /\ stored b (view (db st1)) = Some (stat, name b).
Proof.
  intros b HI Hw Hn H1 H2 H3 H4 H5 EF. pose proof (Fcreat_spec o q st HI Hw) as HS.
  rewrite EF in HS. destruct HS as (HI1 & raw & E1 & HO). split; [done|].
  apply create_final in HO; [|done]. destruct raw as [[c s]| |]; [|done|done]. cbn in E1. simplify_eq.
  destruct HO as (_ & (t & Ht & ->) & E & _). unfold stored. fold b in E. rewrite E.
  cbn [mbind option_bind]. rewrite decode_encode_node; [done| |done].
  assert (is_u32 (Z.lor S_IFREG (Z.land (fc_mode q) ACCESSPERMS))).
  { apply lor_in_width; [lia|by vm_compute|]. eapply in_width_mono; [|apply (land_ones_range _ 9); lia]. lia. }
  pose proof (u64_range (ino_ st + 1)). unfold Stat_wf, new_file, in_width in *. cbn. lia.
Qed.

(** [Fstat] changes no entry and returns what is stored. *)
Lemma Fstat_stored b st :
  SrvInv st -> DirId_wf (dir_id b) ->
  let (out, st') := Fstat o b st in
  SrvInv st' /\ same_nodes (view (db st)) (view (db st')) /\
  forall stat, out = Ok stat -> exists nm, stored b (view (db st)) = Some (stat, nm).
Proof.
  intros HI Hw. pose proof (Fstat_spec o b st HI Hw) as HS. destruct (Fstat o b st) as [out st'].
  destruct HS as (HI' & HO). split; [done|].
  destruct (outcome_final _ _ _ _ _ Hw HO) as [HF|(sa & sb & N & _ & (_ & V & P) & -> & _)].
  - split; [apply HF|]. intros stat ->. by destruct HF.
  - rewrite V. split; [done|]. intros stat ->. destruct P as (nm & P & _). exists nm.
    change (node (view (db sa)) (dir_id b) (name_hash b)) with (stored b (view (db sa))) in P.
    by rewrite <- (stored_same b (view (db st)) (view (db sa))).
Qed.

(** Read your writes: after a [Fcreat] that created a file, a [Fstat] of
    the same name that succeeds returns exactly the [Stat] of the creation. *)
Theorem fcreat_then_fstat q st :
  let b := fc_base q in
  SrvInv st -> DirId_wf (dir_id b) -> is_u32 (zlen (name b)) ->
  is_u64 (reg_id o) -> is_u64 (snap_id o) -> is_u32 (fc_mode q) ->
  is_u32 (fc_uid q) -> is_u32 (fc_gid q) ->
  let (out, st1) := Fcreat o q st in
  let (out', st2) := Fstat o b st1 in
  forall stat stat', out = Ok (mkFcreatRet true stat) -> out' = Ok stat' -> stat' = stat.
Proof.
  intros b HI Hw Hn H1 H2 H3 H4 H5. destruct (Fcreat o q st) as [out st1] eqn:EF.
  destruct (Fstat o b st1) as [out' st2] eqn:ES. intros stat stat' -> ->.
  destruct (Fcreat_stored q st stat st1 HI Hw Hn H1 H2 H3 H4 H5 EF) as [HI1 E].
  pose proof (Fstat_stored b st1 HI1 Hw) as HS. rewrite ES in HS. destruct HS as (_ & _ & HS).
  destruct (HS stat' eq_refl) as [nm E']. subst b. cbn in *. congruence.
Qed.

(** ** Sequences of requests *)

(** C18. Failure atomicity and safety of every request: from any state with the
    invariant, a request of any kind keeps the invariant (the directory table
    and its objects agree; every object is unlocked, without a transaction, and
    caches the size, modification time and partition index that the store holds
    for its directory), and a request that ends with an error or
    a redirect leaves every directory entry of the store as it was. *)
Theorem request_atomic r st :
  SrvInv st -> req_wf r ->
  let (out, st') := handle o r st in
  SrvInv st' /\
  match out with
  | Ok _ => True
  | _ => same_nodes (view (db st)) (view (db st'))
  end.
Proof.
  intros HI Hw. pose proof (handle_spec o r st HI Hw) as HS.
  destruct (handle o r st) as [out st']. destruct HS as (H1 & _ & _ & H2).
  split; [done|]. destruct out; [done|by apply H2|by apply H2].
Qed.

(** C19. Size accounting: start a server on a store in which every directory's
    info record has the number of its entries as its size; after any sequence
    of requests, with any store errors on the way, this is still so (the size
    is an [int], so exactly up to 2^31 entries). *)
Theorem size_accounting d now ts tr st :
  0 <= dir_table_size o -> SizeOk (view d) -> served o (SRV_new o d now ts) tr st ->
  forall id i, DirId_wf id -> info_at (view (db st)) id = Some i ->
    size i = s32 (entry_count (view (db st)) id) /\
    (entry_count (view (db st)) id < 2 ^ 31 -> size i = entry_count (view (db st)) id).
Proof.
  intros Hc HS Hv id i Hw Hi. destruct (served_inv o _ _ _ (SRV_new_inv o d now ts Hc) Hv) as [_ R].
  destruct (SizeOk_steps _ _ HS R id Hw) as [_ S2]. split; [by apply S2|].
  intros Hb. rewrite (S2 i Hi). apply s32_small. unfold entry_count in *. lia.
Qed.

(** The inode number handed out by a request: it succeeded, and there was no
    entry under its name before. *)
Definition created_ino (st : SRV) (r : Request) (out : Outcome Reply) : option Z :=
  match r, out with
  | RFcreat q, Ok (PFcreat (mkFcreatRet _ s)) =>
      if entry (fc_base q) (view (db st)) then None else Some (InodeNo s)
  | RMkdir q, Ok (PStat s) =>
      if entry (mk_base q) (view (db st)) then None else Some (InodeNo s)
  | _, _ => None
  end.

(** Those of a sequence of requests, in order. *)
Fixpoint allocated (rs : list Request) (st : SRV) : list Z :=
  match rs with
  | [] => []
  | r :: rs =>
      let (out, st') := handle o r st in
      match created_ino st r out with
      | Some i => i :: allocated rs st'
      | None => allocated rs st'
      end
  end.

Lemma created_step b flags is_kind new_stat st stat st' :
  (forall i t, InodeNo (new_stat i t) = i) ->
  outcome_of o b (create_post o b flags is_kind new_stat) st (Ok (true, stat)) st' ->
  InodeNo stat = u64 (ino_ st + 1) /\ ino_ st' = u64 (ino_ st + 1) /\ status_ st = kOk /\
  status_ st' = status_ (NextIno o st).2.
Proof.
  intros Hn [(s & Hs & [=] & _)|(st1 & L & C & E)].
  pose proof (NextIno_status o st st1 C) as N. destruct C as [C1 C2 C3]. inv E.
  destruct H0 as (S & T & t & Ht & -> & _ & Hi). destruct H2 as [D1 D2 D3].
  rewrite C2 in *. split_and!; [apply Hn|congruence|congruence|congruence].
Qed.

Lemma create_absent b flags is_kind new_stat st c stat st' :
  DirId_wf (dir_id b) ->
  outcome_of o b (create_post o b flags is_kind new_stat) st (Ok (c, stat)) st' ->
  c = bool_decide (entry b (view (db st)) = None).
Proof.
  intros Hw HO. apply create_final in HO; [|done]. destruct c.
  - destruct HO as (E & _). by rewrite bool_decide_eq_true_2.
  - destruct HO as ((nm & E) & _). rewrite bool_decide_eq_false_2; [done|].
    intros E'. unfold stored in E. by rewrite E' in E.
Qed.

Lemma created_handle r st out st' i :
  SrvInv st -> req_wf r -> handle o r st = (out, st') -> created_ino st r out = Some i ->
  i = u64 (ino_ st + 1) /\ ino_ st' = i /\ status_ st = kOk /\
  status_ st' = status_ (NextIno o st).2.
Proof.
  intros HI Hw E Hc. unfold req_wf in Hw. destruct r; try (by destruct out as [[]| |]); cbn in E, Hw.
  - pose proof (Fcreat_spec o q st HI Hw) as HS. destruct (Fcreat o q st) as [out0 st0].
    unfold reply in E. cbn in E. simplify_eq. destruct HS as (_ & raw & -> & HO).
    destruct raw as [[c stat]| |]; try done. cbn in Hc.
    pose proof (create_absent _ _ _ _ _ _ _ _ Hw HO) as Ea.
    destruct (entry (fc_base q) (view (db st))) eqn:Ee; [done|]. cbn in Ea. simplify_eq.
    destruct (created_step _ _ _ (new_file o q) _ _ _ ltac:(done) HO) as (E1 & E2 & E3 & E4).
    split_and!; congruence.
  - pose proof (Mkdir_spec o q st HI Hw) as HS. destruct (Mkdir o q st) as [out0 st0].
    unfold reply in E. cbn in E. simplify_eq. destruct HS as (_ & raw & -> & HO).
    destruct raw as [[c stat]| |]; try done. cbn in Hc.
    pose proof (create_absent _ _ _ _ _ _ _ _ Hw HO) as Ea.
    destruct (entry (mk_base q) (view (db st))) eqn:Ee; [done|]. cbn in Ea. simplify_eq.
    destruct (created_step _ _ _ (new_dir_stat o q) _ _ _ ltac:(done) HO) as (E1 & E2 & E3 & E4).
    split_and!; congruence.
Qed.

Definition ino_base : Z := Z.shiftl (srv_id o) 32.
Definition ino_limit : Z := Z.shiftl (srv_id o + 1) 32.

(** The counter stays in the server's range, with room for one more number as
    long as the server accepts requests. *)
Definition InoOk (st : SRV) : Prop :=
  ino_base <= ino_ st < ino_limit /\ (status_ st = kOk -> ino_ st + 1 < ino_limit).

Lemma ino_range : 0 <= srv_id o < 2 ^ 31 - 1 -> 0 <= ino_base /\ ino_limit = ino_base + 2 ^ 32 /\ ino_limit < 2 ^ 63.
Proof. intros. unfold ino_base, ino_limit. rewrite !Z.shiftl_mul_pow2 by lia. lia. Qed.

Lemma NextIno_ok st :
  0 <= srv_id o < 2 ^ 31 - 1 -> paranoid o = true -> InoOk st -> status_ st = kOk ->
  u64 (ino_ st + 1) = ino_ st + 1 /\ ino_ st + 1 < ino_limit /\ reused (ino_ st) = ino_ st /\
  (status_ (NextIno o st).2 = kOk -> ino_ st + 2 < ino_limit).
Proof.
  intros Hs Hp [[H1 H2] H3] Hok. destruct (ino_range Hs) as (R1 & R2 & R3). specialize (H3 Hok).
  assert (E : u64 (ino_ st + 1) = ino_ st + 1) by (apply u64_small; unfold in_width; lia).
  split_and!; [done|done| |].
  - unfold reused. rewrite E. replace (ino_ st + 1 - 1) with (ino_ st) by lia.
    apply u64_small. unfold in_width. lia.
  - unfold NextIno. cbn. rewrite Hp, E. cbn [andb].
    rewrite (u64_small (srv_id o + 1)) by (unfold in_width; lia). fold ino_limit.
    rewrite (u64_small ino_limit), (u64_small (ino_ st + 1 + 1)) by (unfold in_width; lia).
    cmp_cases; [done|]. intros _. lia.
Qed.

Lemma InoOk_step st out st' :
  0 <= srv_id o < 2 ^ 31 - 1 -> paranoid o = true -> InoOk st -> counter_step o st out st' ->
  InoOk st' /\ ino_ st <= ino_ st'.
Proof.
  intros Hs Hp HI HC. pose proof HI as [[H1 H2] H3].
  destruct HC as [out st' [C1 C2 C3]|out st' C1 C2 Hok C3|out st' stat C1 C2 Hok C3 _ _|st' C1 C2 C3].
  - unfold InoOk. rewrite C2, C3. split; [done|lia].
  - destruct (NextIno_ok st Hs Hp HI Hok) as (E1 & E2 & E3 & E4).
    unfold InoOk. rewrite C2, C3, E3. split; [|lia]. split; [lia|]. intros _. lia.
  - destruct (NextIno_ok st Hs Hp HI Hok) as (E1 & E2 & E3 & E4).
    unfold InoOk. rewrite C2, C3, E1. split; [|lia]. split; [lia|]. intros K. specialize (E4 K). lia.
  - unfold InoOk. rewrite C2, C1. split; [done|lia].
Qed.

Lemma allocated_ok rs st :
  0 <= srv_id o < 2 ^ 31 - 1 -> paranoid o = true -> SrvInv st -> InoOk st -> Forall req_wf rs ->
  NoDup (allocated rs st) /\ forall i, i ∈ allocated rs st -> ino_ st < i < ino_limit.
Proof.
  intros Hs Hp. revert st. induction rs as [|r rs IH]; intros st HI HO Hw; cbn [allocated].
  - split; [apply NoDup_nil_2|]. intros i Hi. by apply elem_of_nil in Hi.
  - inv Hw. pose proof (handle_spec o r st HI ltac:(done)) as HS.
    destruct (handle o r st) as [out st'] eqn:He. destruct HS as (HI' & _ & HC & _).
    destruct (InoOk_step _ _ _ Hs Hp HO HC) as [HO' Hle].
    destruct (IH st' HI' HO' ltac:(done)) as [HN HR].
    destruct (created_ino st r out) as [i|] eqn:Ei.
    + destruct (created_handle _ _ _ _ _ HI ltac:(done) He Ei) as (-> & E2 & E3 & E4).
      destruct (NextIno_ok st Hs Hp HO E3) as (F1 & F2 & _). rewrite F1 in *. split.
      * apply NoDup_cons. split; [|done]. intros Hj%HR. lia.
      * intros j [->|Hj]%elem_of_cons; [lia|]. specialize (HR _ Hj). lia.
    + split; [done|]. intros j Hj. specialize (HR _ Hj). lia.
Qed.

(** C20. Inode numbers: in paranoid mode, whatever requests a server is sent,
    the inode numbers of the nodes it creates (the requests [Fcreat] and
    [Mkdir], exclusive or not, that succeed where there was no entry) are
    pairwise distinct and lie strictly between [srv_id << 32] and
    [(srv_id + 1) << 32], so that no two servers ever allocate the same number:
    the counter stops the server before it leaves its range. *)
Theorem inode_numbers d now ts rs :
  0 <= dir_table_size o -> 0 <= srv_id o < 2 ^ 31 - 1 -> paranoid o = true -> Forall req_wf rs ->
  NoDup (allocated rs (SRV_new o d now ts)) /\
  forall i, i ∈ allocated rs (SRV_new o d now ts) -> ino_base < i < ino_limit.
Proof.
  intros Hc Hs Hp Hw. destruct (ino_range Hs) as (R1 & R2 & R3).
  assert (E : ino_ (SRV_new o d now ts) = ino_base)
    by (cbn; fold ino_base; apply u64_small; unfold in_width; lia).
  rewrite <- E. apply allocated_ok; try done; [by apply SRV_new_inv|].
  unfold InoOk. rewrite E. lia.
Qed.

(** The session ids handed out in a trace, in order. *)
Definition session_reply (p : Request * Outcome Reply) : option Z :=
  match p.2 with Ok (PSession r) => Some (os_session_id r) | _ => None end.

Lemma session_step r st out st' :
  SrvInv st -> req_wf r -> handle o r st = (out, st') ->
  match session_reply (r, out) with
  | Some s => s = u32 (session st + ns o) /\ session st' = s
  | None => session st' = session st
  end.
Proof.
  intros HI Hw E. pose proof (handle_spec o r st HI Hw) as HS. rewrite E in HS.
  destruct HS as (_ & _ & HC & _).
  assert (Hr : r = ROpensession \/ session_reply (r, out) = None).
  { unfold session_reply, handle, reply in *. cbn [snd].
    destruct r; try (by left); right;
      match type of E with (map_outcome _ ?x.1, _) = _ => destruct x.1; by simplify_eq end. }
  destruct Hr as [->|Hn].
  - unfold handle, reply, Opensession in E. cbn in E. by simplify_eq.
  - rewrite Hn. destruct HC as [? ? [? ? ?]|? ? ? ? ? ?|? ? ? ? ? ? ? ? ?|? ? ? ?]; done.
Qed.

(** Session ids: the [k]-th session a server opens gets the id
    [srv_id + k * num_servers] (as a [uint32_t]), whatever other requests are
    served in between. *)
Theorem session_ids d now ts tr st :
  0 <= dir_table_size o -> 0 <= srv_id o < 2 ^ 31 -> served o (SRV_new o d now ts) tr st ->
  forall k s, omap session_reply tr !! k = Some s ->
    s = u32 (srv_id o + Z.of_nat (S k) * ns o).
Proof.
  intros Hc Hs Hv.
  assert (HX : SrvInv st /\ session st = u32 (srv_id o + Z.of_nat (length (omap session_reply tr)) * ns o) /\
    forall k s, omap session_reply tr !! k = Some s -> s = u32 (srv_id o + Z.of_nat (S k) * ns o)).
  { induction Hv as [|tr st1 r out st2 Hv (IH1 & IH2 & IH3) Hw He].
    - split_and!; [by apply SRV_new_inv| |done]. cbn. rewrite Z.add_0_r.
      symmetry. apply u32_small. unfold in_width. lia.
    - pose proof (handle_spec o r st1 IH1 Hw) as HS. rewrite He in HS. destruct HS as (H1 & _).
      pose proof (session_step _ _ _ _ IH1 Hw He) as H2. rewrite omap_app. cbn [omap list_omap].
      destruct (session_reply (r, out)) as [s|].
      + destruct H2 as [-> H2].
        assert (E : u32 (session st1 + ns o) =
          u32 (srv_id o + Z.of_nat (S (length (omap session_reply tr))) * ns o)).
        { rewrite IH2. unfold u32. rewrite Zplus_mod_idemp_l. f_equal. lia. }
        split_and!; [done| |].
        * rewrite length_app. cbn. rewrite H2, E. do 3 f_equal. lia.
        * intros k s [Hk|[Hk Hs']]%lookup_app_Some; [by apply IH3|].
          destruct (k - length (omap session_reply tr))%nat as [|j] eqn:Ek; [|done].
          cbn in Hs'. simplify_eq. rewrite E. do 3 f_equal. lia.
      + rewrite app_nil_r. split_and!; [done|congruence|done]. }
  apply HX.
Qed.
End Props.

(** ** Witnesses and counterexamples: a server on a store in memory *)

Module Demo.
Definition xx : XXHash :=
  {| xxhash32 := fun b _ => zlen b;
     xxhash64 := fun b _ => fold_right Z.add 17241709254077376921 b |}.
#[local] Existing Instance xx.
#[local] Existing Instance MemKV.

Definition opts (leases : Z) : MDSOptions :=
  mkMDSOptions (mkMDSEnv [] [] [] [] [] []) 16 leases 1000000 0 0 true 1 1 0.
Definition root : DirId := mkDirId 0 0 0.
Definition base (n : Z) : BaseOptions := mkBase root 0 0 (PutHash [n]) [n].
Definition start : SRV := SRV_new (opts 16) (mkMemDB ∅ []) 1000 [].

Lemma start_inv : SrvInv start.
Proof. apply SRV_new_inv. cbn. lia. Qed.
Lemma root_wf : DirId_wf root.
Proof. by vm_compute. Qed.

(** The states of a server that serves the given requests. *)
Definition run (leases : Z) (st : SRV) (l : list Request) : SRV :=
  fold_left (fun st r => (handle (opts leases) r st).2) l st.
Fixpoint replies (leases : Z) (st : SRV) (l : list Request) : list (Request * Outcome Reply) :=
  match l with
  | [] => []
  | r :: l => let (out, st) := handle (opts leases) r st in (r, out) :: replies leases st l
  end.

Lemma run_served leases l : forall st0 tr st,
  served (opts leases) st0 tr st -> Forall req_wf l ->
  served (opts leases) st0 (tr ++ replies leases st l) (run leases st l).
Proof.
  induction l as [|r l IH]; intros st0 tr st Hs Hf; cbn [replies run fold_left].
  - by rewrite app_nil_r.
  - apply Forall_cons in Hf as [Hr Hf]. destruct (handle (opts leases) r st) as [out st1] eqn:E.
    cbn [snd]. rewrite cons_middle, app_assoc. apply IH; [|done]. by eapply served_snoc.
Qed.

Definition fcreat (n : Z) : FcreatOptions := mkFcreat (base n) 0 420 1 1.
Definition mkdir (n : Z) : MkdirOptions := mkMkdir (base n) O_EXCL 511 1 1.

Definition script : list Request :=
  [RFcreat (fcreat 5); RMkdir (mkdir 6); ROpensession; RFcreat (fcreat 7); ROpensession].

Lemma script_wf : Forall req_wf script.
Proof. repeat constructor; by vm_compute. Qed.

Lemma script_served : served (opts 16) start (replies 16 start script) (run 16 start script).
Proof. apply (run_served 16 script start [] start); [constructor|apply script_wf]. Qed.

Lemma fcreat_refines_witness :
  entry (base 5) (view (db start)) = None /\
  is_Some (entry (base 5) (view (db (Fcreat (opts 16) (fcreat 5) start).2))).
Proof.
  pose proof (fcreat_refines (opts 16) (fcreat 5) start start_inv root_wf) as H.
  assert (E : exists s, (Fcreat (opts 16) (fcreat 5) start).1 = Ok (mkFcreatRet true s))
    by (eexists; vm_compute; reflexivity).
  destruct E as [s E]. destruct (Fcreat (opts 16) (fcreat 5) start) as [out st'].
  cbn [fst snd] in *. subst out. destruct H as (H1 & _ & _ & H2 & _). split; [exact H1|].
  eexists. exact H2.
Defined.

Lemma mkdir_refines_witness :
  is_Some (entry (base 6) (view (db (Mkdir (opts 16) (mkdir 6) start).2))).
Proof.
  pose proof (mkdir_refines (opts 16) (mkdir 6) start start_inv root_wf) as H.
  assert (E : exists s, (Mkdir (opts 16) (mkdir 6) start).1 = Ok s)
    by (eexists; vm_compute; reflexivity).
  destruct E as [s E]. destruct (Mkdir (opts 16) (mkdir 6) start) as [out st'].
  cbn [fst snd] in *. subst out. destruct H as [(_ & _ & _ & H & _)|(_ & Hf & _)]; [|discriminate Hf].
  eexists. exact H.
Defined.

(** A server with one file, and one with one directory. *)
Definition with_file : SRV := (Fcreat (opts 16) (fcreat 5) start).2.
Definition with_dir : SRV := (Mkdir (opts 16) (mkdir 6) start).2.

Lemma with_file_inv : SrvInv with_file.
Proof.
  unfold with_file. pose proof (Fcreat_spec (opts 16) (fcreat 5) start start_inv root_wf) as H.
  destruct (Fcreat (opts 16) (fcreat 5) start). apply H.
Qed.
Lemma with_dir_inv : SrvInv with_dir.
Proof.
  unfold with_dir. pose proof (Mkdir_spec (opts 16) (mkdir 6) start start_inv root_wf) as H.
  destruct (Mkdir (opts 16) (mkdir 6) start). apply H.
Qed.

Lemma unlink_refines_witness :
  entry (base 5) (view (db (Unlink (opts 16) (mkUnlink (base 5) O_EXCL) with_file).2)) = None.
Proof.
  pose proof (unlink_refines (opts 16) (mkUnlink (base 5) O_EXCL) with_file with_file_inv root_wf) as H.
  assert (E : exists s, (Unlink (opts 16) (mkUnlink (base 5) O_EXCL) with_file).1 = Ok s)
    by (eexists; vm_compute; reflexivity).
  destruct E as [s E]. destruct (Unlink (opts 16) (mkUnlink (base 5) O_EXCL) with_file) as [out st'].
  cbn [fst snd] in *. subst out. destruct H as [(_ & _ & H & _)|(_ & Hf & _)]; [exact H|discriminate Hf].
Defined.

Lemma setattr_refines_witness :
  exists stat, (Trunc (opts 16) (mkTrunc (base 5) 7 4096) with_file).1 = Ok stat /\
    FileSize stat = 4096.
Proof.
  destruct (setattr_refines (opts 16) (mkUtime (base 5) 1 2) (mkTrunc (base 5) 7 4096) with_file
    with_file_inv root_wf root_wf) as [_ H].
  assert (E : exists s, (Trunc (opts 16) (mkTrunc (base 5) 7 4096) with_file).1 = Ok s)
    by (eexists; vm_compute; reflexivity).
  destruct E as [s E]. destruct (Trunc (opts 16) (mkTrunc (base 5) 7 4096) with_file) as [out st'].
  cbn [fst snd] in *. subst out. exists s. split; [reflexivity|].
  destruct H as (stat & t & _ & _ & -> & _). reflexivity.
Defined.

Lemma chmod_permissions_witness :
  exists stat', (Chmod (opts 16) (mkChmod (base 6) 448) with_dir).1 = Ok stat' /\ UserId stat' = 1.
Proof.
  assert (Hm : 448 <> DELTAFS_NON) by (vm_compute; discriminate).
  pose proof (chmod_permissions (opts 16) (mkChmod (base 6) 448) with_dir with_dir_inv root_wf Hm) as H.
  assert (E : exists s, (Chmod (opts 16) (mkChmod (base 6) 448) with_dir).1 = Ok s /\ UserId s = 1)
    by (eexists; vm_compute; split; reflexivity).
  destruct E as (s & E & Es). destruct (Chmod (opts 16) (mkChmod (base 6) 448) with_dir) as [out st'].
  cbn [fst snd] in *. subst out. destruct H as (stat & _ & _ & _ & H & _).
  exists s. split; [reflexivity|exact Es].
Defined.

Lemma chown_owner_witness :
  exists stat', (Chown (opts 16) (mkChown (base 6) 42 DELTAFS_NON) with_dir).1 = Ok stat' /\
    UserId stat' = 42.
Proof.
  pose proof (chown_owner (opts 16) (mkChown (base 6) 42 DELTAFS_NON) with_dir with_dir_inv root_wf) as H.
  assert (E : exists s, (Chown (opts 16) (mkChown (base 6) 42 DELTAFS_NON) with_dir).1 = Ok s)
    by (eexists; vm_compute; reflexivity).
  destruct E as [s E]. destruct (Chown (opts 16) (mkChown (base 6) 42 DELTAFS_NON) with_dir) as [out st'].
  cbn [fst snd] in *. subst out. destruct H as (stat & _ & H & _). exists s. split; [reflexivity|exact H].
Defined.

Lemma reads_correct_witness :
  exists stat nm, (Fstat (opts 16) (base 5) with_file).1 = Ok stat /\
    stored (base 5) (view (db with_file)) = Some (stat, nm).
Proof.
  destruct (reads_correct (opts 16) (base 5) (base 5) with_file with_file_inv root_wf root_wf) as [H _].
  assert (E : exists s, (Fstat (opts 16) (base 5) with_file).1 = Ok s)
    by (eexists; vm_compute; reflexivity).
  destruct E as [s E]. destruct (Fstat (opts 16) (base 5) with_file) as [out st'].
  cbn [fst snd] in *. subst out. destruct H as (_ & nm & H & _). exists s, nm. split; [reflexivity|exact H].
Defined.

Lemma fcreat_then_fstat_witness :
  exists s, (Fcreat (opts 16) (fcreat 5) start).1 = Ok (mkFcreatRet true s) /\
    (Fstat (opts 16) (base 5) (Fcreat (opts 16) (fcreat 5) start).2).1 = Ok s.
Proof.
  assert (E1 : exists s, (Fcreat (opts 16) (fcreat 5) start).1 = Ok (mkFcreatRet true s))
    by (eexists; vm_compute; reflexivity).
  assert (E2 : exists s, (Fstat (opts 16) (base 5) (Fcreat (opts 16) (fcreat 5) start).2).1 = Ok s)
    by (eexists; vm_compute; reflexivity).
  pose proof (fcreat_then_fstat (opts 16) (fcreat 5) start start_inv root_wf) as H.
  destruct E1 as [s1 E1], E2 as [s2 E2]. exists s1. split; [exact E1|].
  destruct (Fcreat (opts 16) (fcreat 5) start) as [out st1]. cbn [fst snd] in *.
  change (fc_base (fcreat 5)) with (base 5) in H.
  destruct (Fstat (opts 16) (base 5) st1) as [out' st2]. cbn [fst snd] in *.
  rewrite E2. f_equal. apply H; [by vm_compute..|exact E1|exact E2].
Defined.

Lemma request_atomic_witness :
  same_nodes (view (db with_file)) (view (db (handle (opts 16) (RMkdir (mkdir 5)) with_file).2)).
Proof.
  pose proof (request_atomic (opts 16) (RMkdir (mkdir 5)) with_file with_file_inv root_wf) as H.
  assert (E : (handle (opts 16) (RMkdir (mkdir 5)) with_file).1 = Error kAlreadyExists)
    by (vm_compute; reflexivity).
  destruct (handle (opts 16) (RMkdir (mkdir 5)) with_file) as [out st']. cbn [fst snd] in *.
  subst out. exact (proj2 H).
Defined.

Lemma empty_size_ok : SizeOk (view (mkMemDB ∅ [])).
Proof. intros id _. split; [done|]. intros i Hi. unfold info_at in Hi. done. Qed.

Lemma size_accounting_witness :
  exists i, info_at (view (db (run 16 start script))) root = Some i /\ size i = 3.
Proof.
  assert (E : exists i, info_at (view (db (run 16 start script))) root = Some i)
    by (eexists; vm_compute; reflexivity).
  destruct E as [i E]. exists i. split; [exact E|].
  assert (Hc : 0 <= dir_table_size (opts 16)) by (vm_compute; discriminate).
  destruct (size_accounting (kv := MemKV) (opts 16) (mkMemDB ∅ []) 1000 [] (replies 16 start script)
    (run 16 start script) Hc empty_size_ok script_served root i root_wf E) as [H _].
  rewrite H. vm_compute. reflexivity.
Defined.

(** An exclusive and a plain [Mkdir] both count. *)
Definition plain_mkdir (h : Z) : Request := RMkdir (mkMkdir (base h) 0 0x1ff 7 8).

Lemma inode_numbers_witness :
  allocated (opts 16) (script ++ [plain_mkdir 50; plain_mkdir 50]) start = [1; 2; 3; 4] /\
  NoDup (allocated (opts 16) (script ++ [plain_mkdir 50; plain_mkdir 50]) start).
Proof.
  split; [vm_compute; reflexivity|].
  refine (proj1 (inode_numbers (kv := MemKV) (opts 16) (mkMemDB ∅ []) 1000 []
    (script ++ [plain_mkdir 50; plain_mkdir 50]) _ _ _ _));
    [by vm_compute|by vm_compute|reflexivity|repeat constructor; by vm_compute].
Defined.

Lemma session_ids_witness :
  omap session_reply (replies 16 start script) !! 1%nat = Some (u32 (0 + 2 * 1)).
Proof.
  assert (E : exists s, omap session_reply (replies 16 start script) !! 1%nat = Some s)
    by (eexists; vm_compute; reflexivity).
  destruct E as [s E]. rewrite E.
  assert (Hc : 0 <= dir_table_size (opts 16)) by (vm_compute; discriminate).
  assert (Hs : 0 <= srv_id (opts 16) < 2 ^ 31) by (cbn; lia).
  rewrite (session_ids (kv := MemKV) (opts 16) (mkMemDB ∅ []) 1000 [] (replies 16 start script)
    (run 16 start script) Hc Hs script_served 1%nat s E). reflexivity.
Defined.

(** ** Where the code falls short of its comments *)

(** Removing the only entry of a directory succeeds but violates the
    assertion [d->size > 1] of [Unlink] (mds_srv.cc:517): a debug build aborts
    on a legal request; removing one of two entries does not. *)
Theorem unlink_last_entry_asserts :
  let one := Unlink (opts 16) (mkUnlink (base 5) 0) with_file in
  let two := Unlink (opts 16) (mkUnlink (base 5) 0) (Fcreat (opts 16) (fcreat 6) with_file).2 in
  is_ok one.1 = true /\ faults (tb one.2) = [SrvAssert 517] /\
  is_ok two.1 = true /\ faults (tb two.2) = [].
Proof. vm_compute. split_and!; reflexivity. Qed.

Definition lease_script : list Request :=
  [RMkdir (mkdir 6); RMkdir (mkdir 7); RLookup (base 6); RLookup (base 7);
   RChmod (mkChmod (base 6) 0)].
Definition start_with (leases : Z) : SRV := SRV_new (opts leases) (mkMemDB ∅ []) 1000 [].

(** The due date of the lease the [k]-th reply grants. *)
Definition due_of (k : nat) (leases : Z) : Z :=
  match replies leases (start_with leases) lease_script !! k with
  | Some (_, Ok (PLookup s)) => LeaseDue s
  | _ => 0
  end.

(** Active leases can be evicted, against the comment of [Lookup]
    (mds_srv.cc:911): with a lease table of one entry, looking up a second
    directory evicts the unexpired lease of the first, so that a [Chmod] of
    the first returns at once while its client still trusts its lease; with
    room for both, [Chmod] waits past the due date. *)
Theorem active_lease_evicted :
  let tight := run 1 (start_with 1) lease_script in
  let roomy := run 4 (start_with 4) lease_script in
  clock (tb tight) < due_of 2 1 /\ LeaseBusyOnDelete ∈ faults (tb tight) /\
  due_of 2 4 < clock (tb roomy) /\ faults (tb roomy) = [].
Proof. vm_compute. split_and!; try reflexivity. left. Qed.
End Demo.
