(* ===== verification/LeaseProto.v ===== *)
(** * Concurrent lookups and permission changes
      (src/libdeltafs/mds_srv.cc: MDS::SRV::Lookup, MDS::SRV::Uperm)

    The interleaving of the two operations that share leases, for the entries
    of one directory.  The server's mutex makes each stretch of code between a
    lock and an unlock one atomic step; the steps between them (loading [d->tx],
    reading the store, committing) are taken without it and interleave freely.
    [exec] is the step function: the clock may advance, a lease may be evicted
    from the lease table, a call may begin, a thread may take its next step.
    Threads are numbered; any number of calls may be in progress.

    An entry is a name, and its contents a version number: a permission change
    that commits makes the next version.  Readers record the version they read;
    the list [granted] is every lease ever given to a client, with the version
    the client may cache until its due date.  [completed] is the version of the
    last permission change that returned.  Neither is read by the program.

    The directory stays loaded, the clock does not wrap around ([max_clock]), and
    the due dates are exact: what the clients do with a lease is not modelled. *)
From S2P Require Import Prelude.

(** ** State *)

Inductive LeaseState := kLeaseFree | kLeaseShared | kLeaseLocked.

#[export] Instance LeaseState_eq_dec : EqDecision LeaseState.
Proof. solve_decision. Defined.

(** [oid] is the address of the object: a writer that sleeps keeps a pointer. *)
Record Lease := mkLease { oid : nat; seq : Z; due : Z; state : LeaseState }.

Abbreviation Name := nat.
Abbreviation Version := nat.

(** [Dir::Tx]: the snapshot it reads from and its reference count. *)
Record Tx := mkTx { snapshot : Name -> Version; refs_ : Z }.

(** Where a call stands.  A reader has its start time [ms] and the directory's
    sequence number then, [mq]; [tx] is what it loaded from [d->tx]. *)
Inductive Thread :=
  | RStart (n : Name)
  | RFetched (n : Name) (ms mq : Z)                             (* mutex released *)
  | RLoaded (n : Name) (ms mq : Z) (tx : option nat)            (* after Acquire_Load *)
  | RReffed (n : Name) (ms mq : Z) (tx : option nat)            (* after tx->Ref() *)
  | RRead (n : Name) (ms mq : Z) (tx : option nat) (v : option Version)  (* after GetNode *)
  | RDone
  | WStart (n : Name)
  | WLocked (n : Name)                                          (* DirLock held *)
  | WTx (n : Name) (tx : nat)                                   (* after Release_Store *)
  | WCommitted (n : Name) (tx : nat) (ok : bool)                (* after Commit *)
  | WFull (n : Name) (tx : nat) (until : Z)                     (* asleep, the table was full *)
  | WWaiting (n : Name) (tx : nat) (l : nat) (until : Z)        (* asleep *)
  | WDone.

Record State := mkState {
  clock : Z;
  d_seq : Z; d_tx : option nat; d_locked : option nat;
  store : Name -> Version;
  txs : gmap nat Tx;
  leases : gmap Name Lease;
  next : nat;                       (* addresses of transactions and leases *)
  threads : gmap nat Thread;
  granted : list (Name * Version * Z);
  completed : Name -> Version;
  uaf : bool;                       (* a disposed transaction was used *)
  failed : bool;                    (* assert(lease->state != kLeaseLocked) *)
  clash : bool }.                   (* assert(err == ENOBUFS) *)

Definition init (now : Z) : State :=
  mkState now 0 None None (fun _ => 0%nat) ∅ ∅ 0 ∅ [] (fun _ => 0%nat) false false false.

(** ** Updates *)

Definition set_clock (c : Z) (s : State) : State :=
  mkState c (d_seq s) (d_tx s) (d_locked s) (store s) (txs s) (leases s) (next s) (threads s)
    (granted s) (completed s) (uaf s) (failed s) (clash s).
Definition set_thread (t : nat) (th : Thread) (s : State) : State :=
  mkState (clock s) (d_seq s) (d_tx s) (d_locked s) (store s) (txs s) (leases s) (next s)
    (<[t := th]> (threads s)) (granted s) (completed s) (uaf s) (failed s) (clash s).
Definition set_leases (ls : gmap Name Lease) (s : State) : State :=
  mkState (clock s) (d_seq s) (d_tx s) (d_locked s) (store s) (txs s) ls (next s) (threads s)
    (granted s) (completed s) (uaf s) (failed s) (clash s).
Definition set_txs (x : gmap nat Tx) (s : State) : State :=
  mkState (clock s) (d_seq s) (d_tx s) (d_locked s) (store s) x (leases s) (next s) (threads s)
    (granted s) (completed s) (uaf s) (failed s) (clash s).
Definition set_lock (x : option nat) (s : State) : State :=
  mkState (clock s) (d_seq s) (d_tx s) x (store s) (txs s) (leases s) (next s) (threads s)
    (granted s) (completed s) (uaf s) (failed s) (clash s).
Definition set_dtx (x : option nat) (s : State) : State :=
  mkState (clock s) (d_seq s) x (d_locked s) (store s) (txs s) (leases s) (next s) (threads s)
    (granted s) (completed s) (uaf s) (failed s) (clash s).
Definition set_seq (q : Z) (s : State) : State :=
  mkState (clock s) q (d_tx s) (d_locked s) (store s) (txs s) (leases s) (next s) (threads s)
    (granted s) (completed s) (uaf s) (failed s) (clash s).
Definition set_store (f : Name -> Version) (s : State) : State :=
  mkState (clock s) (d_seq s) (d_tx s) (d_locked s) f (txs s) (leases s) (next s) (threads s)
    (granted s) (completed s) (uaf s) (failed s) (clash s).
Definition fresh (s : State) : State :=
  mkState (clock s) (d_seq s) (d_tx s) (d_locked s) (store s) (txs s) (leases s) (S (next s))
    (threads s) (granted s) (completed s) (uaf s) (failed s) (clash s).
Definition grant (g : Name * Version * Z) (s : State) : State :=
  mkState (clock s) (d_seq s) (d_tx s) (d_locked s) (store s) (txs s) (leases s) (next s)
    (threads s) (g :: granted s) (completed s) (uaf s) (failed s) (clash s).
Definition complete (n : Name) (s : State) : State :=
  mkState (clock s) (d_seq s) (d_tx s) (d_locked s) (store s) (txs s) (leases s) (next s)
    (threads s) (granted s) (fun m => if decide (m = n) then store s n else completed s m)
    (uaf s) (failed s) (clash s).
Definition set_flags (u f : bool) (s : State) : State :=
  mkState (clock s) (d_seq s) (d_tx s) (d_locked s) (store s) (txs s) (leases s) (next s)
    (threads s) (granted s) (completed s) u f (clash s).
Definition set_clash (s : State) : State :=
  mkState (clock s) (d_seq s) (d_tx s) (d_locked s) (store s) (txs s) (leases s) (next s)
    (threads s) (granted s) (completed s) (uaf s) (failed s) true.

(** ** Steps *)

(** The time in microseconds stays below this, some 292,000 years from 1970. *)
Definition max_clock : Z := 2 ^ 63.

Section Proto.
Context (lease_duration : Z).
(** Whether the lease table keeps its active leases, as its interface says
    ([is_pinned]), or may evict any, as [LRUCache] does. *)
Context (pinned : bool).

(** [Lease::busy] *)
Definition active (now : Z) (l : Lease) : bool :=
  match state l with kLeaseLocked => true | _ => now <? due l end.

(** [Tx::Unref] and [Tx::Dispose]. *)
Definition unref (tx : option nat) (s : State) : State :=
  match tx with
  | None => s
  | Some x =>
      match txs s !! x with
      | None => set_flags true (failed s) s
      | Some r => if refs_ r =? 1 then set_txs (delete x (txs s)) s
                  else set_txs (<[x := mkTx (snapshot r) (refs_ r - 1)]> (txs s)) s
      end
  end.

(** The lease of a name, inserted if there is none. *)
Definition get_lease (n : Name) (s : State) : Lease * State :=
  match leases s !! n with
  | Some l => (l, s)
  | None => let l := mkLease (next s) 0 0 kLeaseFree in
            (l, fresh (set_leases (<[n := l]> (leases s)) s))
  end.

(** The lease part of [Lookup], with the mutex held: [v] was read.  [room] is
    whether the lease table can take a new lease. *)
Definition lookup_lease (n : Name) (ms mq : Z) (v : Version) (room : bool) (s : State) : State :=
  if u64 (clock s - ms) <? u64 (lease_duration - 10) then
    if room || bool_decide (is_Some (leases s !! n)) then
      let (l, s) := get_lease n s in
      if seq l <=? mq then
        match state l with
        | kLeaseLocked => grant (n, v, due l) s
        | _ =>
            let due' := clock s + lease_duration in
            let l := mkLease (oid l) (seq l) due' kLeaseShared in
            grant (n, v, due') (set_leases (<[n := l]> (leases s)) s)
        end
      else s
    else s
  else s.

(** The last stretch of [Lookup]; [v] is [None] if the entry was not read or is
    not a directory. *)
Definition lookup_end (t : nat) (n : Name) (ms mq : Z) (tx : option nat) (v : option Version)
    (room : bool) (s : State) : State :=
  let s := match v with Some v => lookup_lease n ms mq v room s | None => s end in
  set_thread t RDone (unref tx s).

(** The end of [Uperm]: [l] is the address of the lease it locked or found. *)
Definition uperm_end (t : nat) (tx : nat) (s : State) : State :=
  set_thread t WDone (set_lock None (unref (Some tx) (set_dtx None s))).

Definition uperm_install (n : Name) (l : nat) (s : State) : State :=
  let q := 1 + d_seq s in
  let s := complete n (set_seq q s) in
  match leases s !! n with
  | Some x =>
      if decide (oid x = l)
      then set_leases (<[n := mkLease l q (clock s + lease_duration) kLeaseFree]> (leases s)) s
      else s
  | None => s
  end.

(** After the commit, with the mutex held. *)
Definition uperm_lease (t : nat) (n : Name) (tx : nat) (s : State) : State :=
  let (l, s) := get_lease n s in
  let s := if decide (state l = kLeaseLocked) then set_flags (uaf s) true s else s in
  if bool_decide (state l = kLeaseShared) && (clock s <? due l) then
    let s := set_leases (<[n := mkLease (oid l) (seq l) (due l) kLeaseLocked]> (leases s)) s in
    set_thread t (WWaiting n tx (oid l) (clock s + (due l - clock s + 10))) s
  else uperm_end t tx (uperm_install n (oid l) s).

(** The next step of a thread.  [b] resolves what the model leaves open: whether
    an operation on the store succeeds, whether the lease table has room.  A
    permission change that finds the table full sleeps and tries to insert its
    lease again, without looking it up: a lease that a lookup has inserted
    meanwhile makes [Insert] throw [EEXIST], which the code does not expect
    ([clash]), and it sleeps again. *)
Definition run_thread (t : nat) (b : bool) (s : State) : option State :=
  match threads s !! t with
  | Some (RStart n) => Some (set_thread t (RFetched n (clock s) (d_seq s)) s)
  | Some (RFetched n ms mq) => Some (set_thread t (RLoaded n ms mq (d_tx s)) s)
  | Some (RLoaded n ms mq None) => Some (set_thread t (RReffed n ms mq None) s)
  | Some (RLoaded n ms mq (Some x)) =>
      match txs s !! x with
      | Some r => Some (set_thread t (RReffed n ms mq (Some x))
                    (set_txs (<[x := mkTx (snapshot r) (refs_ r + 1)]> (txs s)) s))
      | None => Some (set_thread t RDone (set_flags true (failed s) s))
      end
  | Some (RReffed n ms mq tx) =>
      let v := match tx with
               | Some x => match txs s !! x with Some r => snapshot r n | None => store s n end
               | None => store s n
               end in
      Some (set_thread t (RRead n ms mq tx (if b then Some v else None)) s)
  | Some (RRead n ms mq tx v) => Some (lookup_end t n ms mq tx v b s)
  | Some (WStart n) =>
      match d_locked s with
      | None => Some (set_thread t (WLocked n) (set_lock (Some t) s))
      | Some _ => None
      end
  | Some (WLocked n) =>
      let x := next s in
      Some (set_thread t (WTx n x) (set_dtx (Some x)
        (fresh (set_txs (<[x := mkTx (store s) 1]> (txs s)) s))))
  | Some (WTx n x) =>
      Some (set_thread t (WCommitted n x b)
        (if b then set_store (fun m => if decide (m = n) then S (store s n) else store s m) s else s))
  | Some (WCommitted n x true) =>
      if b || bool_decide (is_Some (leases s !! n)) then Some (uperm_lease t n x s)
      else Some (set_thread t (WFull n x (clock s + (lease_duration + 10))) s)
  | Some (WCommitted n x false) => Some (uperm_end t x s)
  | Some (WFull n x until) =>
      if until <=? clock s then
        match leases s !! n with
        | Some _ => Some (set_thread t (WFull n x (clock s + (lease_duration + 10))) (set_clash s))
        | None =>
            if b then Some (uperm_lease t n x s)
            else Some (set_thread t (WFull n x (clock s + (lease_duration + 10))) s)
        end
      else None
  | Some (WWaiting n x l until) =>
      if until <=? clock s then Some (uperm_end t x (uperm_install n l s)) else None
  | Some RDone | Some WDone | None => None
  end.

Inductive Act :=
  | Tick (k : nat)
  | Evict (n : Name)
  | BeginLookup (t : nat) (n : Name)
  | BeginUperm (t : nat) (n : Name)
  | Run (t : nat) (b : bool).

Definition exec (a : Act) (s : State) : option State :=
  match a with
  | Tick k => if clock s + Z.of_nat k <? max_clock then Some (set_clock (clock s + Z.of_nat k) s) else None
  | Evict n =>
      match leases s !! n with
      | Some l => if pinned && active (clock s) l then None
                  else Some (set_leases (delete n (leases s)) s)
      | None => None
      end
  | BeginLookup t n =>
      match threads s !! t with None => Some (set_thread t (RStart n) s) | Some _ => None end
  | BeginUperm t n =>
      match threads s !! t with None => Some (set_thread t (WStart n) s) | Some _ => None end
  | Run t b => run_thread t b s
  end.

Inductive reachable (now : Z) : State -> Prop :=
  | reach_init : reachable now (init now)
  | reach_step s a s' : reachable now s -> exec a s = Some s' -> reachable now s'.

Fixpoint exec_all (l : list Act) (s : State) : option State :=
  match l with
  | [] => Some s
  | a :: l => let? s := exec a s in exec_all l s
  end.

Lemma exec_all_reachable now l : forall s s',
  reachable now s -> exec_all l s = Some s' -> reachable now s'.
Proof.
  induction l as [|a l IH]; intros s s' Hs E; cbn in E; [by simplify_eq|].
  destruct (exec a s) as [s1|] eqn:E1; [|done]. eapply IH; [|done]. by eapply reach_step.
Qed.
End Proto.

(** ** The invariant of the protocol, when active leases are kept *)

Section Safety.
Context (D : Z).
(** A shorter duration makes the time a lookup may take wrap around. *)
Hypothesis D_range : 10 <= D < 2 ^ 63.

(** The lookups of [n] that started at [ms] with sequence number [mq] will not
    be given a lease any more: they see a newer lease, or are too late. *)
Definition Late (s : State) (n : Name) (ms mq : Z) : Prop :=
  (exists l, leases s !! n = Some l /\ mq < seq l /\ ms + D <= due l) \/ ms + D <= clock s.

(** The version a reader has read, or will read from its transaction. *)
Definition will_read (s : State) (tx : option nat) (n : Name) : option Version :=
  match tx with Some x => (fun r => snapshot r n) <$> txs s !! x | None => None end.

Definition ReaderOk (s : State) (n : Name) (ms mq : Z) (v : option Version) : Prop :=
  0 <= ms <= clock s /\ mq <= d_seq s /\
  forall u, v = Some u -> (u < completed s n)%nat -> Late s n ms mq.

Definition below (s : State) (tx : option nat) : Prop :=
  match tx with Some x => (x < next s)%nat | None => True end.

(** A writer holds the directory; nobody else's commit is unfinished; until it
    has finished its own, [d->tx] is the store as it was before. *)
Definition ThreadOk (s : State) (t : nat) (th : Thread) : Prop :=
  match th with
  | RStart _ | RDone | WStart _ | WDone => True
  | RFetched n ms mq => ReaderOk s n ms mq None
  | RLoaded n ms mq tx => ReaderOk s n ms mq (will_read s tx n) /\ below s tx
  | RReffed n ms mq tx => ReaderOk s n ms mq (will_read s tx n) /\ below s tx
  | RRead n ms mq tx v => ReaderOk s n ms mq v /\ below s tx
  | WLocked n => d_locked s = Some t /\ d_tx s = None /\ (forall m, completed s m = store s m)
  | WTx n x => d_locked s = Some t /\ d_tx s = Some x /\ (forall m, completed s m = store s m)
  | WCommitted n x ok => d_locked s = Some t /\ d_tx s = Some x /\
      (forall m, (completed s m <= store s m)%nat /\
                 (completed s m = store s m \/ (ok = true /\ m = n)))
  | WFull n x until => d_locked s = Some t /\ d_tx s = Some x /\
      (forall m, (completed s m <= store s m)%nat /\ (completed s m = store s m \/ m = n)) /\
      until <= clock s + D + 10
  | WWaiting n x l until => d_locked s = Some t /\ d_tx s = Some x /\
      (forall m, (completed s m <= store s m)%nat /\ (completed s m = store s m \/ m = n)) /\
      exists r, leases s !! n = Some r /\ oid r = l /\ state r = kLeaseLocked /\
        due r <= until <= clock s + D + 10
  end.

Definition holds_lock (th : Thread) : bool :=
  match th with WLocked _ | WTx _ _ | WCommitted _ _ _ | WFull _ _ _ | WWaiting _ _ _ _ => true | _ => false end.

Record Inv (s : State) : Prop := {
  i_threads : forall t th, threads s !! t = Some th -> ThreadOk s t th;
  i_lock : forall t, d_locked s = Some t ->
    exists th, threads s !! t = Some th /\ holds_lock th = true;
  i_idle : d_locked s = None -> d_tx s = None /\ forall m, completed s m = store s m;
  i_tx : forall x, d_tx s = Some x -> (x < next s)%nat /\
    forall r m, txs s !! x = Some r -> snapshot r m = completed s m;
  i_leases : forall n l, leases s !! n = Some l ->
    due l <= clock s + D /\ seq l <= d_seq s /\
    (state l = kLeaseLocked -> exists t x until, threads s !! t = Some (WWaiting n x (oid l) until));
  i_granted : forall n v e, (n, v, e) ∈ granted s -> clock s < e ->
    (completed s n <= v)%nat /\
    exists l, leases s !! n = Some l /\ state l <> kLeaseFree /\ e <= due l;
  i_failed : failed s = false;
  i_pos : 0 <= clock s < max_clock /\ 0 <= d_seq s
}.

(** *** Readers as the rest of the system moves on *)

Definition leases_fwd (s s' : State) : Prop :=
  forall n l, leases s !! n = Some l ->
    (exists l', leases s' !! n = Some l' /\ seq l <= seq l' /\ due l <= due l') \/ due l <= clock s'.

(** Transactions are not changed, only created with a new address. *)
Definition txs_fwd (s s' : State) : Prop :=
  (next s <= next s')%nat /\
  forall x r', (x < next s)%nat -> txs s' !! x = Some r' ->
    exists r, txs s !! x = Some r /\ snapshot r' = snapshot r.

Record fwd (s s' : State) : Prop := {
  f_clock : clock s <= clock s';
  f_seq : d_seq s <= d_seq s';
  f_txs : txs_fwd s s';
  f_leases : leases_fwd s s';
  f_completed : forall n, completed s' n = completed s n \/
    forall ms mq, ms <= clock s -> mq <= d_seq s -> Late s' n ms mq }.

Lemma Late_fwd s s' n ms mq :
  clock s <= clock s' -> leases_fwd s s' -> Late s n ms mq -> Late s' n ms mq.
Proof.
  intros Hc Hl [(l & E & Hq & Hd)|H]; [|right; lia].
  destruct (Hl n l E) as [(l' & E' & ? & ?)|]; [left; exists l'; split_and!; [done|lia|lia]|right; lia].
Qed.

Lemma ReaderOk_fwd s s' n ms mq v : fwd s s' -> ReaderOk s n ms mq v -> ReaderOk s' n ms mq v.
Proof.
  intros [Hc Hq _ Hl Hd] (H1 & H2 & H3). split; [lia|]. split; [lia|]. intros u -> Hu.
  destruct (Hd n) as [E|H]; [|apply H; lia]. rewrite E in Hu. eapply Late_fwd; [done|done|eauto].
Qed.

Lemma will_read_fwd s s' tx n u :
  txs_fwd s s' -> below s tx -> will_read s' tx n = Some u -> will_read s tx n = Some u.
Proof.
  intros [_ Ht] Hb. destruct tx as [x|]; [|done]. cbn in *.
  destruct (txs s' !! x) as [r'|] eqn:E; [|done]. cbn. intros [= <-].
  destruct (Ht x r' Hb E) as (r & -> & ->). done.
Qed.

Lemma ReaderOk_weaken s n ms mq v v' :
  (forall u, v' = Some u -> v = Some u) -> ReaderOk s n ms mq v -> ReaderOk s n ms mq v'.
Proof. intros Hv (H1 & H2 & H3). split; [done|]. split; [done|]. intros u Hu. by apply H3, Hv. Qed.

Lemma ThreadOk_fwd s s' t th :
  fwd s s' -> holds_lock th = false -> ThreadOk s t th -> ThreadOk s' t th.
Proof.
  intros F Hh. assert (Hb : forall tx, below s tx -> below s' tx).
  { intros [x|]; [|done]. cbn. destruct (f_txs _ _ F). lia. }
  destruct th; cbn in Hh |- *; try done.
  - by apply ReaderOk_fwd.
  - intros [HR Hx]. split; [|auto]. eapply ReaderOk_weaken; [|by eapply ReaderOk_fwd].
    intros u. apply will_read_fwd; [apply F|done].
  - intros [HR Hx]. split; [|auto]. eapply ReaderOk_weaken; [|by eapply ReaderOk_fwd].
    intros u. apply will_read_fwd; [apply F|done].
  - intros [HR Hx]. split; [|auto]. by eapply ReaderOk_fwd.
Qed.

(** The writer that holds the lock is not disturbed by what keeps its lease. *)
Definition keeps_locked (s s' : State) : Prop :=
  forall n l, leases s !! n = Some l -> state l = kLeaseLocked -> leases s' !! n = Some l.

Lemma ThreadOk_holder s s' t th :
  clock s <= clock s' -> d_locked s' = d_locked s -> d_tx s' = d_tx s -> completed s' = completed s ->
  store s' = store s -> keeps_locked s s' -> holds_lock th = true ->
  ThreadOk s t th -> ThreadOk s' t th.
Proof.
  intros Hc El Et Ec Es Hk Hh. destruct th; try done; cbn; rewrite El, Et, Ec, Es; try done.
  - intros (H1 & H2 & H3 & H4). split_and!; [done|done|done|lia].
  - intros (H1 & H2 & H3 & r & H4 & H5 & H6 & H7). split_and!; [done|done|done|].
    exists r. split_and!; [by apply Hk|done|done|lia|lia].
Qed.

(** *** Steps of readers, and of calls that begin *)

(** What such a step does to the leases: it may insert one, or extend one that
    is not locked. *)
Record leases_ext (s s' : State) : Prop := {
  x_new : forall n l', leases s' !! n = Some l' -> leases s !! n = Some l' \/
    (due l' <= clock s + D /\ seq l' <= d_seq s /\ state l' <> kLeaseLocked);
  x_old : forall n l, leases s !! n = Some l -> exists l', leases s' !! n = Some l' /\
    seq l <= seq l' /\ due l <= due l' /\ (state l <> kLeaseFree -> state l' <> kLeaseFree) /\
    (state l = kLeaseLocked -> l' = l) }.

Lemma leases_ext_refl s s' : leases s' = leases s -> leases_ext s s'.
Proof. intros E. split; rewrite E; [by left|]. intros n l Hl. exists l. by split_and!. Qed.

(** The part of the state that no reader changes. *)
Record unchanged (s s' : State) : Prop := {
  u_clock : clock s' = clock s; u_seq : d_seq s' = d_seq s; u_dtx : d_tx s' = d_tx s;
  u_lock : d_locked s' = d_locked s; u_store : store s' = store s;
  u_completed : completed s' = completed s; u_failed : failed s' = failed s }.

Lemma Inv_reader s s' t th :
  Inv s -> unchanged s s' -> txs_fwd s s' -> leases_ext s s' ->
  threads s' = <[t := th]> (threads s) -> holds_lock th = false ->
  (forall th0, threads s !! t = Some th0 -> holds_lock th0 = false) ->
  (forall n v e, (n, v, e) ∈ granted s' -> (n, v, e) ∈ granted s \/
     ((completed s n <= v)%nat /\
      exists l, leases s' !! n = Some l /\ state l <> kLeaseFree /\ e <= due l)) ->
  ThreadOk s' t th -> Inv s'.
Proof.
  intros HI [U1 U2 U3 U4 U5 U6 U7] Htx [X1 X2] Ht Hh Hh0 Hg Hok.
  assert (F : fwd s s').
  { split; rewrite ?U1, ?U2, ?U6; [lia|lia|done| |by left].
    intros n l Hl. left. destruct (X2 n l Hl) as (l' & ? & ? & ? & _). by exists l'. }
  assert (Hk : keeps_locked s s').
  { intros n l Hl Hs. destruct (X2 n l Hl) as (l' & E & _ & _ & _ & El). rewrite E, El; done. }
  assert (Hth : forall t' th', threads s !! t' = Some th' -> holds_lock th' = true ->
                threads s' !! t' = Some th').
  { intros t' th' E E'. rewrite Ht, lookup_insert_ne; [done|]. intros <-. rewrite (Hh0 _ E) in E'. done. }
  split.
  - intros t' th' E. rewrite Ht, lookup_insert_Some in E. destruct E as [[<- <-]|[Hne E]]; [done|].
    pose proof (i_threads _ HI _ _ E) as HO. destruct (holds_lock th') eqn:Eh.
    + eapply (ThreadOk_holder s); (done || apply F).
    + by eapply (ThreadOk_fwd s).
  - rewrite U4. intros t' E. destruct (i_lock _ HI t' E) as (th' & E1 & E2). exists th'. auto.
  - rewrite U4, U3, U6, U5. apply (i_idle _ HI).
  - rewrite U3, U6. intros x E. destruct (i_tx _ HI x E) as [Hx Hs]. destruct Htx as [Hn Hr].
    split; [lia|]. intros r m E'. destruct (Hr x r Hx E') as (r0 & E0 & ->). by apply Hs.
  - rewrite U1, U2. intros n l E. destruct (X1 n l E) as [E'|(H1 & H2 & H3)]; [|by split_and!].
    destruct (i_leases _ HI n l E') as (H1 & H2 & H3). split_and!; [done|done|].
    intros Hs. destruct (H3 Hs) as (t' & x & u & Et). exists t', x, u. by apply Hth.
  - rewrite U1, U6. intros n v e E He. destruct (Hg n v e E) as [E'|[H1 H2]]; [|by split].
    destruct (i_granted _ HI n v e E' He) as (H1 & l & H2 & H3 & H4). split; [done|].
    destruct (X2 n l H2) as (l' & ? & ? & ? & Hf & _). exists l'. split_and!; [done|by apply Hf|lia].
  - rewrite U7. apply (i_failed _ HI).
  - rewrite U1, U2. apply (i_pos _ HI).
Qed.

Lemma txs_fwd_refl s s' : txs s' = txs s -> next s' = next s -> txs_fwd s s'.
Proof. intros E E'. split; [lia|]. rewrite E. intros x r _ Hr. by exists r. Qed.

(** A reader that only moves on in its own code. *)
Lemma Inv_move s t th :
  Inv s -> holds_lock th = false ->
  (forall th0, threads s !! t = Some th0 -> holds_lock th0 = false) ->
  ThreadOk (set_thread t th s) t th -> Inv (set_thread t th s).
Proof.
  intros HI Hh Hh0 Hok. eapply (Inv_reader s _ t th); [done| | | |done|done|done| |done].
  - by split.
  - by apply txs_fwd_refl.
  - by apply leases_ext_refl.
  - by left.
Qed.

Lemma completed_le s n : Inv s -> (completed s n <= store s n)%nat.
Proof.
  intros HI. destruct (d_locked s) as [t|] eqn:El.
  - destruct (i_lock _ HI t El) as (th & Et & Eh). pose proof (i_threads _ HI t th Et) as HO.
    destruct th; try done; cbn in HO; destruct HO as (_ & _ & HO).
    + by rewrite HO.
    + by rewrite HO.
    + apply HO.
    + by apply HO.
    + by apply HO.
  - destruct (i_idle _ HI El) as [_ ->]. done.
Qed.

(** Loading [d->tx], and taking a reference. *)
Lemma Inv_load s t n ms mq :
  Inv s -> threads s !! t = Some (RFetched n ms mq) ->
  Inv (set_thread t (RLoaded n ms mq (d_tx s)) s).
Proof.
  intros HI E. apply Inv_move; [done|done|by intros ? ?; simplify_eq|].
  destruct (i_threads _ HI _ _ E) as (H1 & H2 & _). cbn. destruct (d_tx s) as [x|] eqn:Ex.
  - destruct (i_tx _ HI x Ex) as [Hx Hs]. split; [|done]. split; [done|]. split; [done|].
    intros u Hu Hlt. cbn in Hu, Hlt. destruct (txs s !! x) as [r|] eqn:Er; [|done].
    cbn in Hu. simplify_eq. rewrite (Hs r n eq_refl) in Hlt. lia.
  - split; [|done]. split; [done|]. by split.
Qed.

Lemma txs_fwd_insert s s' x r k :
  txs s !! x = Some r -> txs s' = <[x := mkTx (snapshot r) k]> (txs s) -> next s' = next s ->
  txs_fwd s s'.
Proof.
  intros Er Et En. split; [lia|]. intros y r' _. rewrite Et, lookup_insert_Some.
  intros [[<- <-]|[_ E]]; [by exists r|by exists r'].
Qed.

Lemma Inv_ref s t n ms mq x r :
  Inv s -> threads s !! t = Some (RLoaded n ms mq (Some x)) -> txs s !! x = Some r ->
  Inv (set_thread t (RReffed n ms mq (Some x))
         (set_txs (<[x := mkTx (snapshot r) (refs_ r + 1)]> (txs s)) s)).
Proof.
  intros HI E Er. eapply (Inv_reader s _ t _); [done| | | |done|done|by intros ? ?; simplify_eq| |].
  - by split.
  - by eapply txs_fwd_insert.
  - by apply leases_ext_refl.
  - by left.
  - pose proof (i_threads _ HI _ _ E) as [HR Hb]. split; [|done].
    cbn in HR |- *. rewrite Er in HR. rewrite lookup_insert_eq. exact HR.
Qed.

Lemma Inv_read s t n ms mq tx (b : bool) :
  Inv s -> threads s !! t = Some (RReffed n ms mq tx) ->
  let v := match tx with
           | Some x => match txs s !! x with Some r => snapshot r n | None => store s n end
           | None => store s n
           end in
  Inv (set_thread t (RRead n ms mq tx (if b then Some v else None)) s).
Proof.
  intros HI E v. apply Inv_move; [done|done|by intros ? ?; simplify_eq|].
  pose proof (i_threads _ HI _ _ E) as [(H1 & H2 & H3) Hb]. split; [|done].
  split; [done|]. split; [done|]. intros u Hu Hlt. destruct b; [|done]. assert (u = v) as -> by congruence.
  assert (Hst : v = store s n -> Late (set_thread t (RRead n ms mq tx (Some v)) s) n ms mq).
  { intros Ev. pose proof (completed_le s n HI). cbn in Hlt. lia. }
  destruct tx as [x|]; [|by apply Hst]. subst v.
  destruct (txs s !! x) as [r|] eqn:Er; [|by apply Hst].
  apply (H3 (snapshot r n)); [cbn; by rewrite Er|done].
Qed.

(** Dropping a reference changes nothing but the transactions. *)
Lemma unref_spec tx s :
  unchanged s (unref tx s) /\ txs_fwd s (unref tx s) /\ next (unref tx s) = next s /\
  leases (unref tx s) = leases s /\ threads (unref tx s) = threads s /\
  granted (unref tx s) = granted s.
Proof.
  destruct tx as [x|]; [|split_and!; [done|by apply txs_fwd_refl|done..]].
  unfold unref. destruct (txs s !! x) as [r|] eqn:Er.
  - destruct (refs_ r =? 1); (split_and!; [done| |done..]).
    + split; [done|]. intros y r' _. cbn. rewrite lookup_delete_Some. intros [_ E]. by exists r'.
    + by eapply txs_fwd_insert.
  - split_and!; [done|by apply txs_fwd_refl|done..].
Qed.

Lemma unchanged_trans s1 s2 s3 : unchanged s1 s2 -> unchanged s2 s3 -> unchanged s1 s3.
Proof. intros [] []. split; congruence. Qed.

Lemma leases_ext_insert s s' n l :
  leases s' = <[n := l]> (leases s) ->
  due l <= clock s + D -> seq l <= d_seq s -> state l <> kLeaseLocked ->
  (forall l0, leases s !! n = Some l0 -> seq l0 <= seq l /\ due l0 <= due l /\
     state l0 <> kLeaseLocked /\ (state l0 <> kLeaseFree -> state l <> kLeaseFree)) ->
  leases_ext s s'.
Proof.
  intros E H1 H2 H3 H4. split; rewrite E; intros m lm.
  - rewrite lookup_insert_Some. intros [[<- <-]|[_ Em]]; [by right|by left].
  - intros Em. destruct (decide (m = n)) as [->|].
    + exists l. rewrite lookup_insert_eq. destruct (H4 lm Em) as (? & ? & ? & ?). by split_and!.
    + exists lm. rewrite lookup_insert_ne by done. by split_and!.
Qed.

Lemma granted_new s s' n v e l :
  granted s' = (n, v, e) :: granted s -> leases s' !! n = Some l ->
  state l <> kLeaseFree -> e <= due l -> (completed s n <= v)%nat ->
  forall m u e', (m, u, e') ∈ granted s' -> (m, u, e') ∈ granted s \/
    ((completed s m <= u)%nat /\
     exists l, leases s' !! m = Some l /\ state l <> kLeaseFree /\ e' <= due l).
Proof.
  intros E ? ? ? ? m u e'. rewrite E, elem_of_cons. intros [[= -> -> ->]|]; [right|by left].
  split; [done|by exists l].
Qed.

(** The lease part of a lookup: a lease that is granted is in the table, not
    free, and due no earlier; and the version it is for is the latest one whose
    writer has returned. *)
Lemma lookup_lease_spec s n ms mq v room :
  Inv s -> ReaderOk s n ms mq (Some v) ->
  let s' := lookup_lease D n ms mq v room s in
  unchanged s s' /\ txs s' = txs s /\ (next s <= next s')%nat /\ leases_ext s s' /\
  threads s' = threads s /\
  forall m u e, (m, u, e) ∈ granted s' -> (m, u, e) ∈ granted s \/
    ((completed s m <= u)%nat /\
     exists l, leases s' !! m = Some l /\ state l <> kLeaseFree /\ e <= due l).
Proof.
  intros HI (Hms & Hmq & HL). cbv zeta.
  assert (Hsame : unchanged s s /\ txs s = txs s /\ (next s <= next s)%nat /\ leases_ext s s /\
    threads s = threads s /\
    forall m u e, (m, u, e) ∈ granted s -> (m, u, e) ∈ granted s \/
      ((completed s m <= u)%nat /\
       exists l, leases s !! m = Some l /\ state l <> kLeaseFree /\ e <= due l)).
  { split_and!; [done|done|done|by apply leases_ext_refl|done|by left]. }
  unfold lookup_lease.
  destruct (i_pos _ HI) as [Hclk _]. unfold max_clock in Hclk.
  rewrite !u64_small by (unfold in_width; lia).
  destruct (Z.ltb_spec (clock s - ms) (D - 10)) as [Ht|]; [|exact Hsame].
  destruct (room || _); [|exact Hsame].
  (* a lease with a sequence number up to the reader's means the data is fresh *)
  assert (Hfresh : forall l, leases s !! n = Some l -> seq l <= mq -> (completed s n <= v)%nat).
  { intros l El Hl. destruct (decide (v < completed s n)%nat) as [Hlt|]; [|lia].
    destruct (HL v eq_refl Hlt) as [(l' & El' & ? & _)|]; [|lia]. simplify_eq. lia. }
  assert (Hnone : leases s !! n = None -> (completed s n <= v)%nat).
  { intros El. destruct (decide (v < completed s n)%nat) as [Hlt|]; [|lia].
    destruct (HL v eq_refl Hlt) as [(l' & El' & _)|]; [congruence|lia]. }
  destruct (i_pos _ HI) as [Hc Hq]. unfold get_lease.
  destruct (leases s !! n) as [l|] eqn:El.
  - destruct (Z.leb_spec (seq l) mq) as [Hl|]; [|exact Hsame].
    destruct (i_leases _ HI n l El) as (Hd & _ & _). specialize (Hfresh l eq_refl Hl).
    assert (Hext : state l <> kLeaseLocked ->
      leases_ext s (grant (n, v, clock s + D) (set_leases (<[n := mkLease (oid l) (seq l) (clock s + D) kLeaseShared]> (leases s)) s))).
    { intros Hs. eapply leases_ext_insert; [reflexivity|cbn; lia|cbn; lia|done|]. intros l0 E0. rewrite El in E0.
      simplify_eq. by split_and!. }
    destruct (state l) eqn:Es.
    + split_and!; [done|done|done|by apply Hext|done|]. by eapply granted_new; [reflexivity|apply lookup_insert_eq|..].
    + split_and!; [done|done|done|by apply Hext|done|]. by eapply granted_new; [reflexivity|apply lookup_insert_eq|..].
    + split_and!; [done|done|done|by apply leases_ext_refl|done|].
      by eapply granted_new; [reflexivity|exact El|rewrite Es|..].
  - specialize (Hnone eq_refl). cbn [seq state oid].
    destruct (Z.leb_spec 0 mq).
    + split_and!; [done|done|cbn; lia| |done|].
      * eapply leases_ext_insert; [apply insert_insert_eq|cbn; lia|cbn; lia|done|].
        intros l0 E0. congruence.
      * by eapply granted_new; [reflexivity|apply lookup_insert_eq|..].
    + split_and!; [done|done|cbn; lia| |done|by left].
      eapply leases_ext_insert; [reflexivity|cbn; lia|cbn; lia|done|]. intros l0 E0. congruence.
Qed.

Lemma Inv_lookup_end s t n ms mq tx v room :
  Inv s -> threads s !! t = Some (RRead n ms mq tx v) ->
  Inv (lookup_end D t n ms mq tx v room s).
Proof.
  intros HI E. destruct (i_threads _ HI _ _ E) as [HR Hb]. unfold lookup_end.
  set (s1 := match v with Some v => lookup_lease D n ms mq v room s | None => s end).
  assert (H1 : unchanged s s1 /\ txs s1 = txs s /\ (next s <= next s1)%nat /\ leases_ext s s1 /\
    threads s1 = threads s /\
    forall m u e, (m, u, e) ∈ granted s1 -> (m, u, e) ∈ granted s \/
      ((completed s m <= u)%nat /\
       exists l, leases s1 !! m = Some l /\ state l <> kLeaseFree /\ e <= due l)).
  { subst s1. destruct v as [v|]; [by apply lookup_lease_spec|].
    split_and!; [done|done|done|by apply leases_ext_refl|done|by left]. }
  destruct H1 as (U1 & X1 & N1 & L1 & T1 & G1).
  destruct (unref_spec tx s1) as (U2 & [N2 X2] & N3 & L2 & T2 & G2).
  eapply (Inv_reader s _ t RDone); [done| | | | |done|by intros ? ?; simplify_eq| |done].
  - pose proof (unchanged_trans _ _ _ U1 U2) as []. by split.
  - split; [cbn; lia|]. intros x r' Hx Er. rewrite <- X1. apply (X2 x r'); [lia|done].
  - destruct L1 as [La Lb]. split; cbn; rewrite L2; done.
  - cbn. by rewrite T2, T1.
  - cbn. rewrite G2, L2. exact G1.
Qed.

(** *** Time and evictions *)

Lemma Inv_tick s (k : nat) : Inv s -> clock s + Z.of_nat k < max_clock -> Inv (set_clock (clock s + Z.of_nat k) s).
Proof.
  intros HI Hmax. set (s' := set_clock _ s).
  assert (F : fwd s s').
  { split; cbn; [lia|lia|by apply txs_fwd_refl| |by left]. intros n l El. left. by exists l. }
  assert (Hk : keeps_locked s s') by (intros ? ? ? ?; done).
  split.
  - intros t th E. pose proof (i_threads _ HI t th E) as HO. destruct (holds_lock th) eqn:Eh.
    + eapply (ThreadOk_holder s); (done || apply F).
    + by eapply (ThreadOk_fwd s).
  - apply (i_lock _ HI).
  - apply (i_idle _ HI).
  - apply (i_tx _ HI).
  - intros n l El. destruct (i_leases _ HI n l El) as (H1 & H2 & H3). cbn. split_and!; [lia|done|done].
  - intros n v e Hg He. cbn in He. apply (i_granted _ HI n v e Hg). lia.
  - apply (i_failed _ HI).
  - destruct (i_pos _ HI). cbn. lia.
Qed.

Lemma Inv_evict s n l :
  Inv s -> leases s !! n = Some l -> active (clock s) l = false ->
  Inv (set_leases (delete n (leases s)) s).
Proof.
  intros HI El Ha. set (s' := set_leases _ s).
  assert (Hl : state l <> kLeaseLocked /\ due l <= clock s).
  { unfold active in Ha. destruct (state l); [| |done]; apply Z.ltb_ge in Ha; done. }
  destruct Hl as [Hs Hd].
  assert (F : fwd s s').
  { split; cbn; [lia|lia|by apply txs_fwd_refl| |by left]. intros m lm Em. cbn.
    destruct (decide (m = n)) as [->|]; [right; by simplify_eq|left; exists lm].
    by rewrite lookup_delete_ne. }
  assert (Hk : keeps_locked s s').
  { intros m lm Em Hlm. cbn. rewrite lookup_delete_ne; [done|]. intros <-. by simplify_eq. }
  split.
  - intros t th E. pose proof (i_threads _ HI t th E) as HO. destruct (holds_lock th) eqn:Eh.
    + eapply (ThreadOk_holder s); (done || apply F).
    + by eapply (ThreadOk_fwd s).
  - apply (i_lock _ HI).
  - apply (i_idle _ HI).
  - apply (i_tx _ HI).
  - intros m lm. cbn. rewrite lookup_delete_Some. intros [_ Em]. by apply (i_leases _ HI).
  - intros m v e Hg He. cbn in He. destruct (i_granted _ HI m v e Hg He) as (H1 & lm & H2 & H3 & H4).
    split; [done|]. exists lm. cbn. rewrite lookup_delete_ne; [done|]. intros <-. simplify_eq. lia.
  - apply (i_failed _ HI).
  - apply (i_pos _ HI).
Qed.

(** *** Steps of the writer *)

Lemma sole_holder s t :
  Inv s -> d_locked s = None \/ d_locked s = Some t ->
  forall t' th, t' <> t -> threads s !! t' = Some th -> holds_lock th = false.
Proof.
  intros HI Hl t' th Hne E. destruct (holds_lock th) eqn:Eh; [|done].
  pose proof (i_threads _ HI t' th E) as HO.
  destruct th; try done; destruct HO as [HO _]; destruct Hl; congruence.
Qed.

Lemma Inv_writer s s' t th :
  Inv s -> d_locked s = None \/ d_locked s = Some t -> fwd s s' ->
  threads s' = <[t := th]> (threads s) -> ThreadOk s' t th ->
  (d_locked s' = Some t /\ holds_lock th = true) \/
  (d_locked s' = None /\ d_tx s' = None /\ forall m, completed s' m = store s' m) ->
  (forall x, d_tx s' = Some x -> (x < next s')%nat /\
     forall r m, txs s' !! x = Some r -> snapshot r m = completed s' m) ->
  (forall n l, leases s' !! n = Some l -> due l <= clock s' + D /\ seq l <= d_seq s' /\
     (state l = kLeaseLocked -> exists x until, th = WWaiting n x (oid l) until)) ->
  (forall n v e, (n, v, e) ∈ granted s' -> clock s' < e -> (completed s' n <= v)%nat /\
     exists l, leases s' !! n = Some l /\ state l <> kLeaseFree /\ e <= due l) ->
  failed s' = false -> clock s' = clock s -> Inv s'.
Proof.
  intros HI Hl F Ht Hok Hlock Htx Hle Hg Hf Hck. split.
  - intros t' th' E. rewrite Ht, lookup_insert_Some in E. destruct E as [[<- <-]|[Hne E]]; [done|].
    eapply ThreadOk_fwd; [done| |by apply (i_threads _ HI)]. by eapply sole_holder.
  - intros t' E. destruct Hlock as [[E' Hh]|[E' _]]; [|congruence].
    assert (t' = t) as -> by congruence. exists th. by rewrite Ht, lookup_insert_eq.
  - intros E. by destruct Hlock as [[E' _]|[_ H]]; [congruence|].
  - done.
  - intros n l El. destruct (Hle n l El) as (H1 & H2 & H3). split_and!; [done|done|].
    intros Hs. destruct (H3 Hs) as (x & u & ->). exists t, x, u. by rewrite Ht, lookup_insert_eq.
  - done.
  - done.
  - destruct (i_pos _ HI), F. rewrite Hck. split; [done|lia].
Qed.

(** A lease is locked only while the writer that holds the directory sleeps. *)
Lemma locked_waiting s t n l :
  Inv s -> d_locked s = None \/ d_locked s = Some t ->
  leases s !! n = Some l -> state l = kLeaseLocked ->
  exists x until, threads s !! t = Some (WWaiting n x (oid l) until).
Proof.
  intros HI Hl El Hs. destruct (i_leases _ HI n l El) as (_ & _ & H).
  destruct (H Hs) as (t' & x & u & Et). destruct (decide (t' = t)) as [->|Hne]; [eauto|].
  pose proof (sole_holder s t HI Hl t' _ Hne Et). done.
Qed.

Lemma fwd_same s s' :
  clock s' = clock s -> d_seq s' = d_seq s -> leases s' = leases s -> completed s' = completed s ->
  txs_fwd s s' -> fwd s s'.
Proof.
  intros E1 E2 E3 E4 Ht. split; rewrite ?E1, ?E2, ?E4; [lia|lia|done| |by left].
  intros n l El. left. exists l. by rewrite E3.
Qed.

Ltac no_locked HI :=
  intros ? ? Hlease; split_and!;
  [by apply (i_leases _ HI _ _ Hlease)|by apply (i_leases _ HI _ _ Hlease)|
   intros Hlocked; exfalso;
   match goal with Hl : d_locked ?s = None \/ d_locked ?s = Some ?t |- _ =>
     destruct (locked_waiting s t _ _ HI Hl Hlease Hlocked) as (? & ? & ?); congruence end].

Lemma Inv_wlock s t n :
  Inv s -> threads s !! t = Some (WStart n) -> d_locked s = None ->
  Inv (set_thread t (WLocked n) (set_lock (Some t) s)).
Proof.
  intros HI E El. assert (Hl : d_locked s = None \/ d_locked s = Some t) by by left.
  destruct (i_idle _ HI El) as [Hx Hc].
  eapply (Inv_writer s _ t (WLocked n)); [done|done| |done|by split_and!|by left| | | | |done].
  - apply fwd_same; [done..|by apply txs_fwd_refl].
  - cbn. rewrite Hx. done.
  - no_locked HI.
  - apply (i_granted _ HI).
  - apply (i_failed _ HI).
Qed.

Lemma Inv_wtx s t n :
  Inv s -> threads s !! t = Some (WLocked n) ->
  let x := next s in
  Inv (set_thread t (WTx n x) (set_dtx (Some x)
        (fresh (set_txs (<[x := mkTx (store s) 1]> (txs s)) s)))).
Proof.
  intros HI E x. destruct (i_threads _ HI _ _ E) as (El & Hx & Hc).
  assert (Hl : d_locked s = None \/ d_locked s = Some t) by by right.
  eapply (Inv_writer s _ t (WTx n x)); [done|done| |done|by split_and!|by left| | | | |done].
  - apply fwd_same; [done..|]. split; [cbn; lia|]. intros y r' Hy. cbn.
    rewrite lookup_insert_ne by (subst x; lia). intros Er. by exists r'.
  - cbn. intros y [= <-]. split; [lia|]. intros r m. rewrite lookup_insert_eq. intros [= <-].
    by rewrite Hc.
  - no_locked HI.
  - apply (i_granted _ HI).
  - apply (i_failed _ HI).
Qed.

Lemma Inv_wcommit s t n x (b : bool) :
  Inv s -> threads s !! t = Some (WTx n x) ->
  Inv (set_thread t (WCommitted n x b)
        (if b then set_store (fun m => if decide (m = n) then S (store s n) else store s m) s else s)).
Proof.
  intros HI E. destruct (i_threads _ HI _ _ E) as (El & Hx & Hc).
  assert (Hl : d_locked s = None \/ d_locked s = Some t) by by right.
  set (s1 := if b then _ else s).
  assert (Hs1 : clock s1 = clock s /\ d_seq s1 = d_seq s /\ d_tx s1 = d_tx s /\
    d_locked s1 = d_locked s /\ txs s1 = txs s /\ leases s1 = leases s /\ next s1 = next s /\
    threads s1 = threads s /\ granted s1 = granted s /\ completed s1 = completed s /\
    failed s1 = failed s) by (destruct b; by split_and!).
  destruct Hs1 as (E1 & E2 & E3 & E4 & E5 & E6 & E7 & E8 & E9 & E10 & E11).
  eapply (Inv_writer s _ t (WCommitted n x b)); [done|done| | | | | | | | |by destruct b]; cbn.
  - apply fwd_same; [done..|]. by apply txs_fwd_refl.
  - by rewrite E8.
  - rewrite E4, E3, E10. split_and!; [done|done|]. intros m. rewrite Hc. subst s1.
    destruct b; cbn; [|lia]. destruct (decide (m = n)) as [->|]; [|lia]. split; [lia|by right].
  - rewrite E4. by left.
  - rewrite E3, E5, E7, E10. apply (i_tx _ HI).
  - rewrite E6, E1, E2. no_locked HI.
  - rewrite E9, E1, E10, E6. apply (i_granted _ HI).
  - rewrite E11. apply (i_failed _ HI).
Qed.

(** The writer returns: [s1] is the state with the new lease installed, or the
    old one if the change failed. *)
Lemma Inv_uperm_end s s1 t x :
  Inv s -> d_locked s = Some t ->
  clock s1 = clock s -> d_seq s <= d_seq s1 -> txs s1 = txs s -> next s1 = next s ->
  threads s1 = threads s -> granted s1 = granted s -> failed s1 = failed s ->
  leases_fwd s s1 ->
  (forall n, completed s1 n = completed s n \/
     forall ms mq, ms <= clock s -> mq <= d_seq s -> Late s1 n ms mq) ->
  (forall m, completed s1 m = store s1 m) ->
  (forall n l, leases s1 !! n = Some l -> due l <= clock s + D /\ seq l <= d_seq s1 /\
     state l <> kLeaseLocked) ->
  (forall n v e, (n, v, e) ∈ granted s -> clock s < e -> (completed s1 n <= v)%nat /\
     exists l, leases s1 !! n = Some l /\ state l <> kLeaseFree /\ e <= due l) ->
  Inv (uperm_end t x s1).
Proof.
  intros HI El E1 E2 E3 E4 E5 E6 E7 Hf Hc Hst Hle Hg. unfold uperm_end.
  destruct (unref_spec (Some x) (set_dtx None s1)) as ([U1 U2 U3 U4 U5 U6 U7] & [N2 X2] & N3 & L2 & T2 & G2).
  set (s2 := unref _ _) in *. cbn in U1, U2, U3, U4, U5, U6, U7, N2, X2, N3, L2, T2, G2.
  eapply (Inv_writer s _ t WDone); [done|by right| | |done|right| | | | |]; cbn;
    rewrite ?U1, ?U2, ?U3, ?U5, ?U6, ?U7, ?L2, ?G2, ?E1.
  - split; cbn; rewrite ?U1, ?U2, ?U6, ?E1; [lia|lia| | |].
    + split; [cbn; lia|]. intros y r' Hy Er. rewrite <- E3. apply X2; [lia|done].
    + intros n l Hn. cbn. rewrite L2, U1. by apply Hf.
    + intros n. destruct (Hc n) as [|HL]; [by left|right]. intros ms mq H1 H2.
      destruct (HL ms mq H1 H2) as [(l & ? & ? & ?)|]; [left; exists l|right]; cbn; rewrite ?L2, ?U1; done.
  - by rewrite T2, E5.
  - by split_and!.
  - done.
  - intros n l Hn. destruct (Hle n l Hn) as (? & ? & ?). by split_and!.
  - rewrite E6. exact Hg.
  - rewrite E7. apply (i_failed _ HI).
  - done.
Qed.

Lemma Inv_wfail s t n x :
  Inv s -> threads s !! t = Some (WCommitted n x false) -> Inv (uperm_end t x s).
Proof.
  intros HI E. destruct (i_threads _ HI _ _ E) as (El & Hx & Hc).
  assert (Hl : d_locked s = None \/ d_locked s = Some t) by by right.
  eapply (Inv_uperm_end s s t x); try done.
  - intros m l Em. left. by exists l.
  - by left.
  - intros m. destruct (Hc m) as (_ & [|[? _]]); done.
  - intros m l Em. destruct (i_leases _ HI m l Em) as (? & ? & _). split_and!; [done|done|].
    intros Hs. destruct (locked_waiting s t m l HI Hl Em Hs) as (? & ? & ?). congruence.
  - apply (i_granted _ HI).
Qed.

(** A writer that has committed and does not have its lease yet. *)
Definition committed (n : Name) (x : nat) (th : Thread) : Prop :=
  th = WCommitted n x true \/ exists until, th = WFull n x until.

Lemma committed_ok s t th n x :
  Inv s -> threads s !! t = Some th -> committed n x th ->
  d_locked s = Some t /\ d_tx s = Some x /\
  forall m, (completed s m <= store s m)%nat /\ (completed s m = store s m \/ m = n).
Proof.
  intros HI E Hth. pose proof (i_threads _ HI _ _ E) as HO.
  destruct Hth as [->|[u ->]]; destruct HO as (El & Ex & HO); split_and!; try done.
  - intros m. destruct (HO m) as [? [|[_ ?]]]; auto.
  - apply HO.
Qed.

Lemma committed_no_wait n x th n' x' l until :
  committed n x th -> th = WWaiting n' x' l until -> False.
Proof. intros [->|[? ->]]; done. Qed.

(** Going back to sleep because the table is full. *)
Lemma Inv_full s s' t th n x until :
  Inv s -> threads s !! t = Some th -> committed n x th -> until <= clock s + D + 10 ->
  s' = set_thread t (WFull n x until) s \/ s' = set_thread t (WFull n x until) (set_clash s) ->
  Inv s'.
Proof.
  intros HI E Hth Hu Hs. destruct (committed_ok s t th n x HI E Hth) as (El & Hx & Hc).
  assert (Hl : d_locked s = None \/ d_locked s = Some t) by by right.
  assert (HL : forall m l, leases s !! m = Some l -> state l <> kLeaseLocked).
  { intros m l Em Hs'. destruct (locked_waiting s t m l HI Hl Em Hs') as (? & ? & Et).
    rewrite E in Et. simplify_eq. by eapply committed_no_wait. }
  assert (HW : forall s1, unchanged s s1 -> txs s1 = txs s -> next s1 = next s -> leases s1 = leases s ->
    granted s1 = granted s -> threads s1 = <[t := WFull n x until]> (threads s) -> Inv s1).
  { intros s1 [U1 U2 U3 U4 U5 U6 U7] E1 E2 E3 E4 E5.
    eapply (Inv_writer s s1 t (WFull n x until)); try done; rewrite ?U1, ?U2, ?U3, ?U4, ?U5, ?U6, ?U7, ?E1, ?E2, ?E3, ?E4.
    - apply fwd_same; [done..|by apply txs_fwd_refl].
    - cbn. rewrite U1, U3, U4, U5, U6. by split_and!.
    - by left.
    - apply (i_tx _ HI).
    - intros m l Em. destruct (i_leases _ HI m l Em) as (? & ? & _). split_and!; [done|done|].
      intros Hs'. by destruct (HL m l Em).
    - apply (i_granted _ HI).
    - apply (i_failed _ HI). }
  destruct Hs as [->| ->]; by apply HW.
Qed.

(** The writer installs the lease of the new version: every client's lease of
    the entry must have expired. *)
Lemma Inv_install s t th n x r :
  Inv s -> threads s !! t = Some th ->
  committed n x th \/ (exists until, th = WWaiting n x (oid r) until) ->
  leases s !! n = Some r ->
  (forall v e, (n, v, e) ∈ granted s -> e <= clock s) ->
  Inv (uperm_end t x (uperm_install D n (oid r) s)).
Proof.
  intros HI E Hth Er Hexp.
  assert (Hw : d_locked s = Some t /\ forall m, m <> n -> completed s m = store s m).
  { destruct Hth as [Hth|[u ->]].
    - destruct (committed_ok s t th n x HI E Hth) as (El & _ & HO). split; [done|].
      intros m Hm. destruct (HO m) as [_ [|?]]; done.
    - destruct (i_threads _ HI _ _ E) as (El & _ & HO & _). split; [done|].
      intros m Hm. destruct (HO m) as [_ [|?]]; done. }
  destruct Hw as [El Hc].
  assert (Hl : d_locked s = None \/ d_locked s = Some t) by by right.
  destruct (i_leases _ HI n r Er) as (Hd & Hq & _).
  unfold uperm_install. cbn [leases complete set_seq]. rewrite Er.
  rewrite decide_True by done. set (s1 := set_leases _ _).
  eapply (Inv_uperm_end s s1 t x); try done.
  - cbn. lia.
  - intros m l Em. left. cbn. destruct (decide (m = n)) as [->|].
    + simplify_eq. eexists. rewrite lookup_insert_eq. split; [done|]. cbn. lia.
    + exists l. by rewrite lookup_insert_ne.
  - intros m. cbn. destruct (decide (m = n)) as [->|]; [right|by left]. intros ms mq H1 H2. left.
    eexists. cbn. rewrite lookup_insert_eq. split; [done|]. cbn. lia.
  - intros m. cbn. destruct (decide (m = n)) as [->|]; [done|by apply Hc].
  - intros m l. cbn. rewrite lookup_insert_Some. intros [[<- <-]|[Hne Em]]; [cbn; split_and!; [lia|lia|done]|].
    destruct (i_leases _ HI m l Em) as (? & ? & _). split_and!; [done|lia|].
    intros Hs. destruct (locked_waiting s t m l HI Hl Em Hs) as (? & ? & Et).
    rewrite E in Et. simplify_eq. destruct Hth as [Hth|[? ?]]; [by eapply committed_no_wait|congruence].
  - intros m v e Hg He. cbn. destruct (decide (m = n)) as [->|].
    + pose proof (Hexp v e Hg). lia.
    + destruct (i_granted _ HI m v e Hg He) as (H1 & l & ?). split; [done|].
      exists l. by rewrite lookup_insert_ne.
Qed.

(** Inserting a free lease where there is none. *)
Lemma Inv_get_lease s n : Inv s -> Inv (get_lease n s).2.
Proof.
  intros HI. unfold get_lease. destruct (leases s !! n) as [l|] eqn:El; [done|]. cbn [snd].
  set (l := mkLease _ _ _ _). set (s' := fresh _). destruct (i_pos _ HI) as [Hc Hq].
  assert (F : fwd s s').
  { split; [done|done|split; [cbn; lia|by eauto]| |by left]. intros m lm Em. left. exists lm. cbn.
    rewrite lookup_insert_ne; [done|]. congruence. }
  assert (Hk : keeps_locked s s').
  { intros m lm Em _. cbn. rewrite lookup_insert_ne; [done|]. congruence. }
  split.
  - intros t th E. pose proof (i_threads _ HI t th E) as HO. destruct (holds_lock th) eqn:Eh.
    + eapply (ThreadOk_holder s); (done || apply F).
    + by eapply (ThreadOk_fwd s).
  - apply (i_lock _ HI).
  - apply (i_idle _ HI).
  - intros x Hx. destruct (i_tx _ HI x Hx). split; [cbn; lia|done].
  - intros m lm. cbn. rewrite lookup_insert_Some. intros [[<- <-]|[_ Em]]; [cbn; split_and!; [lia|lia|done]|].
    by apply (i_leases _ HI).
  - intros m v e Hg He. destruct (i_granted _ HI m v e Hg He) as (H1 & lm & H2 & H3).
    split; [done|]. exists lm. cbn. rewrite lookup_insert_ne; [done|]. congruence.
  - apply (i_failed _ HI).
  - apply (i_pos _ HI).
Qed.

Lemma get_lease_spec s n :
  let (l, s') := get_lease n s in
  s' = (get_lease n s).2 /\ leases s' !! n = Some l /\ threads s' = threads s.
Proof.
  unfold get_lease. destruct (leases s !! n) as [l|] eqn:El; [done|].
  split_and!; [done| |done]. cbn. apply lookup_insert_eq.
Qed.

(** Locking a lease that clients hold, and sleeping past its due date. *)
Lemma Inv_wait s t th n x l :
  Inv s -> threads s !! t = Some th -> committed n x th -> leases s !! n = Some l ->
  state l = kLeaseShared -> clock s < due l ->
  Inv (set_thread t (WWaiting n x (oid l) (clock s + (due l - clock s + 10)))
        (set_leases (<[n := mkLease (oid l) (seq l) (due l) kLeaseLocked]> (leases s)) s)).
Proof.
  intros HI E Hth El Hs Hd. destruct (committed_ok s t th n x HI E Hth) as (Hlk & Hx & Hc).
  assert (Hl : d_locked s = None \/ d_locked s = Some t) by by right.
  destruct (i_leases _ HI n l El) as (Hd' & Hq & _).
  eapply (Inv_writer s _ t (WWaiting _ _ _ _)); [done|done| |done| |by left| | | | |done]; cbn.
  - split; [done|done|by apply txs_fwd_refl| |by left]. intros m lm Em. left. cbn.
    destruct (decide (m = n)) as [->|].
    + simplify_eq. eexists. rewrite lookup_insert_eq. by split_and!.
    + exists lm. by rewrite lookup_insert_ne.
  - split_and!; [done|done| |].
    + done.
    + eexists. rewrite lookup_insert_eq. split_and!; [done|done|done|cbn; lia|lia].
  - apply (i_tx _ HI).
  - intros m lm. rewrite lookup_insert_Some. intros [[<- <-]|[Hne Em]].
    + cbn. split_and!; [done|done|]. intros _. eauto.
    + destruct (i_leases _ HI m lm Em) as (? & ? & _). split_and!; [done|done|]. intros Hs'.
      destruct (locked_waiting s t m lm HI Hl Em Hs') as (? & ? & Et). rewrite E in Et. simplify_eq.
      by destruct (committed_no_wait _ _ _ _ _ _ _ Hth eq_refl).
  - intros m v e Hg He. destruct (i_granted _ HI m v e Hg He) as (H1 & lm & H2 & H3 & H4).
    split; [done|]. destruct (decide (m = n)) as [->|].
    + simplify_eq. eexists. rewrite lookup_insert_eq. by split_and!.
    + exists lm. by rewrite lookup_insert_ne.
  - apply (i_failed _ HI).
Qed.

Lemma Inv_uperm_lease s t th n x :
  Inv s -> threads s !! t = Some th -> committed n x th -> Inv (uperm_lease D t n x s).
Proof.
  intros HI0 E0 Hth. unfold uperm_lease. pose proof (Inv_get_lease s n HI0) as HI.
  pose proof (get_lease_spec s n) as Hg. destruct (get_lease n s) as [l s1].
  destruct Hg as (_ & El & Et). cbn [snd] in HI. rewrite <- Et in E0.
  destruct (committed_ok s1 t th n x HI E0 Hth) as (Hlk & _ & _).
  assert (Hns : state l <> kLeaseLocked).
  { intros Hs. destruct (locked_waiting s1 t n l HI (or_intror Hlk) El Hs) as (? & ? & Ew).
    rewrite E0 in Ew. simplify_eq. by eapply committed_no_wait. }
  rewrite decide_False by done.
  destruct (bool_decide (state l = kLeaseShared) && (clock s1 <? due l)) eqn:Ec.
  - apply andb_true_iff in Ec as [Hs%bool_decide_eq_true Hd%Z.ltb_lt].
    exact (Inv_wait s1 t th n x l HI E0 Hth El Hs Hd).
  - eapply Inv_install; [done|done|by left|done|].
    intros v e Hg. destruct (Z.le_gt_cases e (clock s1)) as [|He]; [done|exfalso].
    destruct (i_granted _ HI n v e Hg ltac:(lia)) as (_ & l' & El' & Hf & Hd).
    assert (l' = l) as -> by congruence.
    rewrite bool_decide_eq_true_2, (proj2 (Z.ltb_lt _ _)) in Ec; [done|lia|].
    by destruct (state l).
Qed.

Lemma Inv_run s t b s' : Inv s -> run_thread D t b s = Some s' -> Inv s'.
Proof.
  intros HI. unfold run_thread. destruct (threads s !! t) as [th|] eqn:E; [|done].
  destruct th as [n|n ms mq|n ms mq [x|]|n ms mq tx|n ms mq tx v| |n|n|n x|n x okc|n x until|n x l until|];
    try done; intros H; cbn [negb] in H.
  - simplify_eq. apply Inv_move; [done|done|by intros ? ?; simplify_eq|].
    destruct (i_pos _ HI) as [[? _] _]. by split_and!.
  - simplify_eq. by apply Inv_load.
  - destruct (txs s !! x) as [r|] eqn:Er; simplify_eq; [by apply Inv_ref|].
    eapply (Inv_reader s _ t RDone); [done| | | |done|done|by intros ? ?; simplify_eq| |done].
    + by split.
    + by apply txs_fwd_refl.
    + by apply leases_ext_refl.
    + by left.
  - simplify_eq. apply Inv_move; [done|done|by intros ? ?; simplify_eq|].
    apply (i_threads _ HI _ _ E).
  - simplify_eq. by apply Inv_read.
  - simplify_eq. by apply Inv_lookup_end.
  - destruct (d_locked s) eqn:El; [done|]. simplify_eq. by apply Inv_wlock.
  - simplify_eq. by apply Inv_wtx.
  - simplify_eq. by apply Inv_wcommit.
  - destruct okc.
    + destruct (b || _); simplify_eq; [by eapply Inv_uperm_lease; [| |left]|].
      eapply Inv_full; [done|done|by left| |by left]; lia.
    + simplify_eq. by eapply Inv_wfail.
  - destruct (until <=? clock s); [|done].
    assert (Hth : committed n x (WFull n x until)) by (right; eauto).
    destruct (leases s !! n); [|destruct b]; simplify_eq.
    + eapply Inv_full; [done|done|done| |by right]; lia.
    + by eapply Inv_uperm_lease.
    + eapply Inv_full; [done|done|done| |by left]; lia.
  - destruct (Z.leb_spec until (clock s)) as [Hu|]; [|done]. simplify_eq.
    destruct (i_threads _ HI _ _ E) as (_ & _ & _ & r & Er & <- & Hs & Hd).
    eapply Inv_install; [done|done|right; eauto|done|].
    intros v e Hg. destruct (Z.le_gt_cases e (clock s)) as [|He]; [done|exfalso].
    destruct (i_granted _ HI n v e Hg ltac:(lia)) as (_ & l' & El' & _ & Hd'). simplify_eq. lia.
Qed.

Lemma Inv_exec s a s' : Inv s -> exec D true a s = Some s' -> Inv s'.
Proof.
  intros HI H. destruct a as [k|n|t n|t n|t b]; cbn in H.
  - destruct (Z.ltb_spec (clock s + Z.of_nat k) max_clock); [|done]. simplify_eq. by apply Inv_tick.
  - destruct (leases s !! n) as [l|] eqn:El; [|done].
    destruct (active (clock s) l) eqn:Ea; [done|]. simplify_eq. by eapply Inv_evict.
  - destruct (threads s !! t) eqn:E; [done|]. simplify_eq.
    apply Inv_move; [done|done|by intros ? ?; simplify_eq|done].
  - destruct (threads s !! t) eqn:E; [done|]. simplify_eq.
    apply Inv_move; [done|done|by intros ? ?; simplify_eq|done].
  - by eapply Inv_run.
Qed.

Lemma Inv_init now : 0 <= now < max_clock -> Inv (init now).
Proof.
  intros. split; cbn; try done; intros.
  - by apply elem_of_nil in H0.
Qed.

Lemma Inv_reachable now s : 0 <= now < max_clock -> reachable D true now s -> Inv s.
Proof. intros Hn. induction 1; [by apply Inv_init|by eapply Inv_exec]. Qed.

(** C1. Lease safety: in every reachable state of any number of concurrent
    lookups and permission changes, a client whose lease is for a version older
    than the last permission change that returned holds an expired lease: no
    client caches a stale lookup result once the change has returned.  And no
    writer ever finds the lease it must wait for locked by another one.  The
    lease duration is at least 10 microseconds (a shorter one wraps around and
    is unsafe, [lease_short_unsafe]); times are unsigned 64-bit numbers. *)
Theorem lease_safety now s :
  0 <= now < max_clock -> reachable D true now s ->
  (forall n v e, (n, v, e) ∈ granted s -> (v < completed s n)%nat -> e <= clock s) /\
  failed s = false.
Proof.
  intros Hn HR. pose proof (Inv_reachable now s Hn HR) as HI. split; [|apply (i_failed _ HI)].
  intros n v e Hg Hv. destruct (Z.le_gt_cases e (clock s)) as [|He]; [done|].
  destruct (i_granted _ HI n v e Hg ltac:(lia)) as [Hc _]. lia.
Qed.

(** A writer whose lease is due no more returns in one step. *)
Lemma uperm_end_returns t n x r s :
  leases s !! n = Some r ->
  let s' := uperm_end t x (uperm_install D n (oid r) s) in
  threads s' !! t = Some WDone /\ completed s' n = store s n /\ d_locked s' = None /\ d_tx s' = None.
Proof.
  intros Er. unfold uperm_end, set_thread, set_lock. cbn [threads completed d_locked d_tx].
  split; [apply lookup_insert_eq|]. set (s1 := uperm_install _ _ _ _).
  destruct (unref_spec (Some x) (set_dtx None s1)) as ([_ _ U3 _ _ U6 _] & _).
  rewrite U3, U6. split_and!; [|done|done].
  unfold s1, uperm_install. cbn [complete set_seq leases]. rewrite Er.
  rewrite decide_True by done. cbn. by rewrite decide_True.
Qed.

(** A writer that can insert its lease finds it free and returns at once. *)
Lemma uperm_lease_returns t n x s :
  leases s !! n = None ->
  let s' := uperm_lease D t n x s in
  threads s' !! t = Some WDone /\ completed s' n = store s n /\ d_locked s' = None /\ d_tx s' = None.
Proof.
  intros El. unfold uperm_lease, get_lease. rewrite El. cbn [state].
  rewrite decide_False by done. rewrite bool_decide_eq_false_2 by done. cbn [andb].
  set (l := mkLease _ _ _ _). set (s1 := fresh _).
  exact (uperm_end_returns t n x l s1 (lookup_insert_eq _ _ _)).
Qed.

Definition returned (t : nat) (n : Name) (s s' : State) : Prop :=
  threads s' !! t = Some WDone /\ completed s' n = store s n /\ d_locked s' = None /\ d_tx s' = None.

(** C21. How long a permission change sleeps.  It sleeps in two places, each
    time for at most one lease duration and 10 microseconds.  A writer that
    waits for the clients' leases sleeps once: its next step after that time
    returns, with its version the completed one and the directory free.  A
    writer that found the lease table full wakes up after that time; it returns
    if the table now has room ([b]) and no lease of the entry was inserted in
    the meantime, and sleeps as long again otherwise. *)
Theorem lease_wait_bounded now s t b :
  0 <= now < max_clock -> reachable D true now s -> clock s + D + 10 < max_clock ->
  (forall n x l until, threads s !! t = Some (WWaiting n x l until) ->
     until <= clock s + D + 10 /\
     exists s', exec_all D true [Tick (Z.to_nat (D + 10)); Run t b] s = Some s' /\ returned t n s s') /\
  (forall n x until, threads s !! t = Some (WFull n x until) ->
     until <= clock s + D + 10 /\
     exists s', exec_all D true [Tick (Z.to_nat (D + 10)); Run t b] s = Some s' /\
       (if b && bool_decide (leases s !! n = None) then returned t n s s'
        else threads s' !! t = Some (WFull n x (clock s' + D + 10)))).
Proof.
  intros Hn HR Hck. pose proof (Inv_reachable now s Hn HR) as HI. unfold returned. split.
  - intros n x l until Et.
    destruct (i_threads _ HI _ _ Et) as (El & Ex & _ & r & Er & <- & Es & Hu). split; [lia|].
    cbn [exec_all exec]. rewrite Z2Nat.id, (proj2 (Z.ltb_lt _ _)) by lia.
    unfold run_thread. cbn [set_clock threads clock]. rewrite Et.
    rewrite (proj2 (Z.leb_le _ _)) by lia. eexists. split; [reflexivity|].
    exact (uperm_end_returns t n x r (set_clock (clock s + (D + 10)) s) Er).
  - intros n x until Et. destruct (i_threads _ HI _ _ Et) as (El & Ex & _ & Hu). split; [lia|].
    cbn [exec_all exec]. rewrite Z2Nat.id, (proj2 (Z.ltb_lt _ _)) by lia.
    unfold run_thread. cbn [set_clock threads clock leases]. rewrite Et.
    rewrite (proj2 (Z.leb_le _ _)) by lia. destruct (leases s !! n) as [r|] eqn:Er.
    + eexists. split; [reflexivity|]. rewrite bool_decide_eq_false_2, andb_false_r by done.
      cbn. rewrite lookup_insert_eq. by rewrite Z.add_assoc.
    + rewrite bool_decide_eq_true_2, andb_true_r by done. destruct b; (eexists; split; [reflexivity|]).
      * exact (uperm_lease_returns t n x (set_clock (clock s + (D + 10)) s) Er).
      * cbn. rewrite lookup_insert_eq. by rewrite Z.add_assoc.
Qed.
End Safety.

(** ** Executions *)

Section Executions.

(** A lookup that reads the old version, and a permission change that completes
    before the lookup does. *)
Definition stale_lookup : list Act :=
  [BeginLookup 1 3; Run 1 true; Run 1 true; Run 1 true; Run 1 true;
   BeginUperm 2 3; Run 2 true; Run 2 true; Run 2 true; Run 2 true].

(** A lookup gets a lease; a permission change commits and has to wait for it. *)
Definition waiting_writer : list Act :=
  [BeginLookup 1 3; Run 1 true; Run 1 true; Run 1 true; Run 1 true; Run 1 true;
   BeginUperm 2 3; Run 2 true; Run 2 true; Run 2 true; Run 2 true].

Definition final (pinned : bool) (l : list Act) : State :=
  default (init 0) (exec_all 100 pinned l (init 0)).

Lemma final_reachable pinned l :
  is_Some (exec_all 100 pinned l (init 0)) -> reachable 100 pinned 0 (final pinned l).
Proof.
  intros [s E]. unfold final. rewrite E. by eapply exec_all_reachable; [constructor|].
Qed.

Lemma lease_safety_witness :
  granted (final true waiting_writer) = [(3%nat, 0%nat, 100)] /\
  (forall n v e, (n, v, e) ∈ granted (final true waiting_writer) ->
     (v < completed (final true waiting_writer) n)%nat -> e <= clock (final true waiting_writer)) /\
  failed (final true waiting_writer) = false.
Proof.
  split; [vm_compute; reflexivity|].
  apply (lease_safety 100 ltac:(lia) 0); [done|]. apply final_reachable. vm_compute. by eexists.
Defined.

(** The two sleeps: for a client's lease, and for room in the table. *)
Definition full_writer : list Act :=
  [BeginUperm 2 3; Run 2 true; Run 2 true; Run 2 true; Run 2 false].

Lemma lease_wait_bounded_witness :
  (exists s', exec_all 100 true [Tick 110; Run 2 true] (final true waiting_writer) = Some s' /\
    returned 2 3 (final true waiting_writer) s') /\
  (exists s', exec_all 100 true [Tick 110; Run 2 true] (final true full_writer) = Some s' /\
    returned 2 3 (final true full_writer) s').
Proof.
  split.
  - assert (Et : exists x l u, threads (final true waiting_writer) !! 2%nat = Some (WWaiting 3 x l u))
      by (do 3 eexists; vm_compute; reflexivity).
    destruct Et as (x & l & u & Et).
    exact (proj2 (proj1 (lease_wait_bounded 100 ltac:(lia) 0 _ 2 true ltac:(done)
      (final_reachable true waiting_writer ltac:(vm_compute; by eexists))
      ltac:(vm_compute; reflexivity)) _ _ _ _ Et)).
  - assert (Et : exists x u, threads (final true full_writer) !! 2%nat = Some (WFull 3 x u))
      by (do 2 eexists; vm_compute; reflexivity).
    destruct Et as (x & u & Et).
    exact (proj2 (proj2 (lease_wait_bounded 100 ltac:(lia) 0 _ 2 true ltac:(done)
      (final_reachable true full_writer ltac:(vm_compute; by eexists))
      ltac:(vm_compute; reflexivity)) _ _ _ Et)).
Defined.

(** With a lease duration below 10 microseconds, [lease_duration_ - 10] wraps
    around and no lookup is ever too late: one that read before a permission
    change, and goes on when the lease of the change was evicted, is given a
    lease for the old version. *)
Theorem lease_short_unsafe :
  exists s, reachable 5 true 0 s /\
    exists n v e, (n, v, e) ∈ granted s /\ (v < completed s n)%nat /\ clock s < e.
Proof.
  exists (default (init 0) (exec_all 5 true (stale_lookup ++ [Tick 6; Evict 3; Run 1 true]) (init 0))). split.
  - destruct (exec_all 5 true _ (init 0)) as [s|] eqn:E.
    + by eapply exec_all_reachable; [constructor|].
    + constructor.
  - exists 3%nat, 0%nat, 11. split_and!; vm_compute; [by left|lia|done].
Qed.

(** A writer that found the table full does not look its lease up again: a
    lookup that inserts one while the writer sleeps makes its next [Insert]
    throw [EEXIST], which the assertion after it does not allow; where
    assertions are compiled out the writer sleeps on for as long as the entry's
    lease stays in the table. *)
Theorem full_table_clash :
  exists s, reachable 100 true 0 s /\ clash s = true.
Proof.
  exists (final true (full_writer ++ [BeginLookup 1 3; Run 1 true; Run 1 true; Run 1 true; Run 1 true;
    Run 1 true; Tick 110; Run 2 true])). split.
  - apply final_reachable. vm_compute. by eexists.
  - vm_compute. reflexivity.
Qed.

(** Without the pinning of active leases (the lease table is an [LRUCache],
    which evicts any entry no handle refers to), the safety property fails: a
    lookup that overlaps a permission change, whose lease is evicted, is given
    a lease for the old version after the change has returned. *)
Theorem lease_eviction_unsafe :
  exists s, reachable 100 false 0 s /\
    exists n v e, (n, v, e) ∈ granted s /\ (v < completed s n)%nat /\ clock s < e.
Proof.
  exists (final false (stale_lookup ++ [Evict 3; Run 1 true])). split.
  - apply final_reachable. vm_compute. by eexists.
  - exists 3%nat, 0%nat, 100. split_and!; vm_compute; [by left|lia|done].
Qed.

(** A lookup loads [d->tx] and takes its reference in two steps, without the
    mutex: a permission change that returns in between disposes of the
    transaction, and the lookup uses it after it was deleted. *)
Theorem tx_use_after_free : exists s, reachable 100 true 0 s /\ uaf s = true.
Proof.
  exists (final true [BeginLookup 1 3; Run 1 true; BeginUperm 2 3; Run 2 true; Run 2 true; Run 1 true;
    Run 2 true; Run 2 true; Run 1 true]). split.
  - apply final_reachable. vm_compute. by eexists.
  - vm_compute. reflexivity.
Qed.
End Executions.
