(* ===== verification/RWLock.v ===== *)
(** * Reader-writer lock (src/libdeltafs/util/rwlock.h)

    [RWLock]: its three counters, and the threads that use it.  The mutex makes
    each stretch of code between two waits one atomic step.  A thread that
    waits on the condition variable is asleep until [SignalAll] (or a spurious
    wakeup), and then evaluates its loop condition again.  A thread locks only
    when it holds nothing and unlocks only what it holds, as the guard classes
    [SharedLock] and [ExclusiveLock] do.  The counters are [int]s; fewer than
    2^31 threads are assumed. *)
From S2P Require Import Prelude.

Inductive Phase :=
  | Idle
  | RdWait (awake : bool) | Reading
  | WrWait (awake : bool) | Writing.

#[export] Instance Phase_eq_dec : EqDecision Phase.
Proof. solve_decision. Defined.

Record RW := mkRW {
  waiting_writers_ : Z; writers_ : Z; readers_ : Z;
  threads : gmap nat Phase }.

(** [n] threads, none in the lock. *)
Definition RWLock (ts : list nat) : RW := mkRW 0 0 0 (list_to_map ((fun t => (t, Idle)) <$> ts)).

Definition at_phase (t : nat) (p : Phase) (s : RW) : RW :=
  mkRW (waiting_writers_ s) (writers_ s) (readers_ s) (<[t := p]> (threads s)).

Definition wake (p : Phase) : Phase :=
  match p with RdWait _ => RdWait true | WrWait _ => WrWait true | p => p end.
Definition SignalAll (s : RW) : RW :=
  mkRW (waiting_writers_ s) (writers_ s) (readers_ s) (wake <$> threads s).

(** The loop of [RdLock] from its condition on: sleep, or take the lock. *)
Definition RdLock_loop (t : nat) (s : RW) : RW :=
  if (0 <? writers_ s) || (0 <? waiting_writers_ s) then at_phase t (RdWait false) s
  else at_phase t Reading (mkRW (waiting_writers_ s) (writers_ s) (readers_ s + 1) (threads s)).
Definition RdLock (t : nat) (s : RW) : RW := RdLock_loop t s.

Definition RdUnlock (t : nat) (s : RW) : RW :=
  let s := at_phase t Idle (mkRW (waiting_writers_ s) (writers_ s) (readers_ s - 1) (threads s)) in
  if readers_ s =? 0 then SignalAll s else s.

Definition WrLock_loop (t : nat) (s : RW) : RW :=
  if (0 <? readers_ s) || (0 <? writers_ s) then at_phase t (WrWait false) s
  else at_phase t Writing
         (mkRW (waiting_writers_ s - 1) (writers_ s + 1) (readers_ s) (threads s)).
Definition WrLock (t : nat) (s : RW) : RW :=
  WrLock_loop t (mkRW (waiting_writers_ s + 1) (writers_ s) (readers_ s) (threads s)).

(** With the outcome of [assert(writers_ == 0)]. *)
Definition WrUnlock (t : nat) (s : RW) : bool * RW :=
  let s := at_phase t Idle (mkRW (waiting_writers_ s) (writers_ s - 1) (readers_ s) (threads s)) in
  (writers_ s =? 0, SignalAll s).

(** What can happen. *)
Inductive step (s : RW) : RW -> Prop :=
  | s_RdLock t : threads s !! t = Some Idle -> step s (RdLock t s)
  | s_RdRetry t : threads s !! t = Some (RdWait true) -> step s (RdLock_loop t s)
  | s_RdUnlock t : threads s !! t = Some Reading -> step s (RdUnlock t s)
  | s_WrLock t : threads s !! t = Some Idle -> step s (WrLock t s)
  | s_WrRetry t : threads s !! t = Some (WrWait true) -> step s (WrLock_loop t s)
  | s_WrUnlock t : threads s !! t = Some Writing -> step s (WrUnlock t s).2
  | s_spurious t p : threads s !! t = Some p -> step s (at_phase t (wake p) s).

(** ** Counting threads *)

Definition count (P : Phase -> bool) (m : gmap nat Phase) : Z :=
  Z.of_nat (base.size (filter (fun x => P x.2 = true) m)).

Lemma count_nonneg P m : 0 <= count P m.
Proof. unfold count. lia. Qed.

Lemma count_insert_None P m t p :
  m !! t = None -> count P (<[t := p]> m) = count P m + (if P p then 1 else 0).
Proof.
  intros Hn. unfold count. destruct (P p) eqn:E.
  - rewrite map_filter_insert_True by done. rewrite map_size_insert_None; [lia|].
    apply map_lookup_filter_None. by left.
  - rewrite map_filter_insert_False by (cbn; congruence). rewrite delete_id by done. lia.
Qed.

Lemma count_insert P m t p q :
  m !! t = Some p ->
  count P (<[t := q]> m) = count P m - (if P p then 1 else 0) + (if P q then 1 else 0).
Proof.
  intros Hp. rewrite <- (insert_delete_id m t p Hp) at 2. rewrite <- insert_delete_eq.
  rewrite !count_insert_None by apply lookup_delete_eq. lia.
Qed.

Lemma count_wake P m : (forall p, P (wake p) = P p) -> count P (wake <$> m) = count P m.
Proof.
  intros HP. induction m as [|t p m Hn IH] using map_ind; [by rewrite fmap_empty|].
  rewrite fmap_insert, !count_insert_None by (rewrite ?lookup_fmap, Hn; done).
  by rewrite IH, HP.
Qed.

Lemma count_pos P m t p : m !! t = Some p -> P p = true -> 1 <= count P m.
Proof.
  intros E Hp. rewrite <- (insert_delete_id m t p E), count_insert_None, Hp by apply lookup_delete_eq.
  pose proof (count_nonneg P (delete t m)). lia.
Qed.

Lemma count_none P m : (forall t p, m !! t = Some p -> P p = false) -> count P m = 0.
Proof.
  induction m as [|t p m Hn IH] using map_ind; intros H; [done|].
  rewrite count_insert_None, IH, (H t p); [done|apply lookup_insert_eq| |done].
  intros t' p' E. apply (H t'). rewrite lookup_insert_ne; [done|]. congruence.
Qed.

(** ** Invariant *)

Definition is_reading (p : Phase) : bool := match p with Reading => true | _ => false end.
Definition is_writing (p : Phase) : bool := match p with Writing => true | _ => false end.
Definition is_wrwait (p : Phase) : bool := match p with WrWait _ => true | _ => false end.

Record Inv (s : RW) : Prop := {
  v_readers : readers_ s = count is_reading (threads s);
  v_writers : writers_ s = count is_writing (threads s);
  v_waiting : waiting_writers_ s = count is_wrwait (threads s);
  v_excl : writers_ s = 0 \/ (writers_ s = 1 /\ readers_ s = 0);
  v_rsleep : forall t, threads s !! t = Some (RdWait false) ->
    0 < writers_ s \/ 0 < waiting_writers_ s;
  v_wsleep : forall t, threads s !! t = Some (WrWait false) -> 0 < readers_ s \/ 0 < writers_ s }.

Lemma SignalAll_no_sleeper s t : threads (SignalAll s) !! t <> Some (RdWait false) /\
  threads (SignalAll s) !! t <> Some (WrWait false).
Proof. cbn. rewrite lookup_fmap. by destruct (threads s !! t) as [[]|]. Qed.

(** Counters and exclusion hold after waking everybody if they did before. *)
Lemma Inv_signal s :
  readers_ s = count is_reading (threads s) -> writers_ s = count is_writing (threads s) ->
  waiting_writers_ s = count is_wrwait (threads s) ->
  writers_ s = 0 \/ (writers_ s = 1 /\ readers_ s = 0) -> Inv (SignalAll s).
Proof.
  intros H1 H2 H3 H4. split; cbn [readers_ writers_ waiting_writers_ SignalAll].
  - cbn. rewrite count_wake; [done|by intros []].
  - cbn. rewrite count_wake; [done|by intros []].
  - cbn. rewrite count_wake; [done|by intros []].
  - done.
  - intros t E. by apply SignalAll_no_sleeper in E.
  - intros t E. by apply SignalAll_no_sleeper in E.
Qed.

Lemma Inv_rdloop s t p :
  Inv s -> threads s !! t = Some p -> p = Idle \/ p = RdWait true -> Inv (RdLock_loop t s).
Proof.
  intros HI E Hp. unfold RdLock_loop.
  assert (Hc : is_reading p = false /\ is_writing p = false /\ is_wrwait p = false)
    by (by destruct Hp as [->| ->]).
  destruct Hc as (C1 & C2 & C3).
  destruct ((0 <? writers_ s) || (0 <? waiting_writers_ s)) eqn:Eg.
  - apply orb_true_iff in Eg as Hg. rewrite !Z.ltb_lt in Hg. destruct HI. split; cbn -[count].
    + rewrite (count_insert _ _ _ _ _ E), C1. cbn -[count]. lia.
    + rewrite (count_insert _ _ _ _ _ E), C2. cbn -[count]. lia.
    + rewrite (count_insert _ _ _ _ _ E), C3. cbn -[count]. lia.
    + done.
    + done.
    + intros t'. rewrite lookup_insert_Some. intros [[_ ?]|[_ ?]]; [done|eauto].
  - apply orb_false_iff in Eg as [Ew Ea]. apply Z.ltb_ge in Ew, Ea.
    pose proof (count_nonneg is_writing (threads s)). pose proof (count_nonneg is_wrwait (threads s)).
    destruct HI. split; cbn -[count].
    + rewrite (count_insert _ _ _ _ _ E), C1. cbn -[count]. lia.
    + rewrite (count_insert _ _ _ _ _ E), C2. cbn -[count]. lia.
    + rewrite (count_insert _ _ _ _ _ E), C3. cbn -[count]. lia.
    + lia.
    + intros t'. rewrite lookup_insert_Some. intros [[_ ?]|[_ E']]; [done|]. apply v_rsleep0 in E'. lia.
    + intros t'. rewrite lookup_insert_Some. intros [[_ ?]|[_ E']]; [done|]. apply v_wsleep0 in E'. lia.
Qed.

Lemma Inv_wrloop s t p :
  Inv s -> threads s !! t = Some p -> p = Idle \/ p = WrWait true ->
  Inv (WrLock_loop t (mkRW (waiting_writers_ s + (if is_wrwait p then 0 else 1)) (writers_ s)
                          (readers_ s) (threads s))).
Proof.
  intros HI E Hp. unfold WrLock_loop. cbn [readers_ writers_ waiting_writers_ threads].
  assert (Hc : is_reading p = false /\ is_writing p = false) by (by destruct Hp as [->| ->]).
  destruct Hc as (C1 & C2). pose proof (v_waiting _ HI) as Hw.
  assert (Ha : forall q, count is_wrwait (<[t := q]> (threads s))
    = waiting_writers_ s + (if is_wrwait p then 0 else 1) - (if is_wrwait q then 0 else 1)).
  { intros q. rewrite (count_insert _ _ _ _ _ E), Hw. destruct (is_wrwait p), (is_wrwait q); lia. }
  destruct ((0 <? readers_ s) || (0 <? writers_ s)) eqn:Eg.
  - apply orb_true_iff in Eg as Hg. rewrite !Z.ltb_lt in Hg. destruct HI. split; cbn -[count].
    + rewrite (count_insert _ _ _ _ _ E), C1. cbn -[count]. lia.
    + rewrite (count_insert _ _ _ _ _ E), C2. cbn -[count]. lia.
    + rewrite Ha. cbn -[count]. lia.
    + done.
    + intros t'. rewrite lookup_insert_Some. intros [[_ ?]|[_ E']]; [done|]. apply v_rsleep0 in E'.
      destruct (is_wrwait p); lia.
    + done.
  - apply orb_false_iff in Eg as [Er Ew]. apply Z.ltb_ge in Ew, Er.
    pose proof (count_nonneg is_writing (threads s)). pose proof (count_nonneg is_reading (threads s)).
    destruct HI. split; cbn -[count].
    + rewrite (count_insert _ _ _ _ _ E), C1. cbn -[count]. lia.
    + rewrite (count_insert _ _ _ _ _ E), C2. cbn -[count]. lia.
    + rewrite Ha. cbn -[count]. lia.
    + lia.
    + intros t' _. lia.
    + intros t' _. lia.
Qed.

Lemma Inv_step s s' : Inv s -> step s s' -> Inv s'.
Proof.
  intros HI Hs. destruct Hs as [t E|t E|t E|t E|t E|t E|t p E].
  - eapply Inv_rdloop; [done|done|by left].
  - eapply Inv_rdloop; [done|done|by right].
  - unfold RdUnlock. set (s1 := at_phase _ _ _).
    assert (H : readers_ s1 = count is_reading (threads s1) /\
      writers_ s1 = count is_writing (threads s1) /\
      waiting_writers_ s1 = count is_wrwait (threads s1) /\
      (writers_ s1 = 0 \/ (writers_ s1 = 1 /\ readers_ s1 = 0))).
    { pose proof (count_pos is_reading _ _ _ E eq_refl). destruct HI. subst s1. cbn -[count].
      rewrite !(count_insert _ _ _ _ _ E). cbn -[count]. lia. }
    destruct H as (H1 & H2 & H3 & H4). destruct (Z.eqb_spec (readers_ s1) 0) as [E0|E0].
    + by apply Inv_signal.
    + pose proof (count_nonneg is_reading (threads s1)). destruct HI. subst s1.
      split; [done|done|done|done| |]; intros t'; cbn -[count]; rewrite lookup_insert_Some;
        intros [[_ ?]|[_ E']]; try done; [by apply v_rsleep0 in E'|].
      left. cbn -[count] in *. lia.
  - pose proof (Inv_wrloop s t Idle HI E (or_introl eq_refl)) as H. exact H.
  - pose proof (Inv_wrloop s t (WrWait true) HI E (or_intror eq_refl)) as H. cbn [is_wrwait] in H.
    rewrite Z.add_0_r in H. by destruct s.
  - unfold WrUnlock. cbn [snd]. pose proof (count_pos is_writing _ _ _ E eq_refl). destruct HI.
    apply Inv_signal; cbn -[count]; rewrite ?(count_insert _ _ _ _ _ E); cbn -[count]; lia.
  - destruct HI. split; cbn -[count]; rewrite ?(count_insert _ _ _ _ _ E); [..|done| |].
    + destruct p; cbn -[count]; lia.
    + destruct p; cbn -[count]; lia.
    + destruct p; cbn -[count]; lia.
    + intros t'. rewrite lookup_insert_Some. intros [[_ ?]|[_ ?]]; [by destruct p|eauto].
    + intros t'. rewrite lookup_insert_Some. intros [[_ ?]|[_ ?]]; [by destruct p|eauto].
Qed.

Lemma RW_init_inv ts : Inv (RWLock ts).
Proof.
  assert (Hi : forall t p, threads (RWLock ts) !! t = Some p -> p = Idle).
  { intros t p E. cbn in E. apply elem_of_list_to_map_2, list_elem_of_fmap in E as (? & ? & ?).
    by simplify_eq. }
  assert (Hc : forall P, P Idle = false -> count P (threads (RWLock ts)) = 0).
  { intros P HP. apply count_none. intros t p E. by apply Hi in E as ->. }
  split; cbn [readers_ writers_ waiting_writers_]; [by rewrite Hc..|by left| |];
    intros t E; apply Hi in E; done.
Qed.

Lemma Inv_steps ts s : rtc step (RWLock ts) s -> Inv s.
Proof.
  intros H. pose proof (RW_init_inv ts) as HI. revert HI. induction H; [done|].
  intros HI. apply IHrtc. by eapply Inv_step.
Qed.

(** C37. Mutual exclusion: in every state the lock can reach, at most one thread
    is writing, and then no thread is reading; the counters are the numbers of
    reading, writing and waiting-to-write threads; and the assertion of
    [WrUnlock] holds whenever a writer unlocks. *)
Theorem rwlock_exclusion ts s :
  rtc step (RWLock ts) s ->
  readers_ s = count is_reading (threads s) /\ writers_ s = count is_writing (threads s) /\
  waiting_writers_ s = count is_wrwait (threads s) /\
  (forall t t', threads s !! t = Some Writing ->
     threads s !! t' = Some Writing \/ threads s !! t' = Some Reading -> t' = t) /\
  (forall t, threads s !! t = Some Writing -> (WrUnlock t s).1 = true).
Proof.
  intros HR. pose proof (Inv_steps ts s HR) as HI.
  assert (Hw : forall t, threads s !! t = Some Writing -> writers_ s = 1 /\ readers_ s = 0).
  { intros t E. pose proof (count_pos is_writing _ _ _ E eq_refl). destruct HI. lia. }
  split_and!; [apply HI|apply HI|apply HI| |].
  - intros t t' E E'. destruct (Hw t E) as [W R]. destruct (decide (t' = t)) as [|Hne]; [done|exfalso].
    destruct HI as [V1 V2 _ _ _ _]. destruct E' as [E'|E'].
    + assert (E2 : (<[t := Idle]> (threads s)) !! t' = Some Writing) by (by rewrite lookup_insert_ne).
      pose proof (count_pos is_writing _ _ _ E2 eq_refl) as H.
      rewrite (count_insert _ _ _ _ _ E) in H. cbn -[count] in H. lia.
    + pose proof (count_pos is_reading _ _ _ E' eq_refl). lia.
  - intros t E. destruct (Hw t E) as [W _]. unfold WrUnlock. cbn. by rewrite W.
Qed.

(** C38. No lost wakeup: while a thread sleeps in [RdLock] or [WrLock], some other
    thread is inside the lock, or a writer is awake and about to take it; so a
    sleeping thread is never left behind by a lock that nobody uses. *)
Theorem rwlock_no_lost_wakeup ts s t w :
  rtc step (RWLock ts) s -> threads s !! t = Some w -> w = RdWait false \/ w = WrWait false ->
  exists t', t' <> t /\ (threads s !! t' = Some Reading \/ threads s !! t' = Some Writing \/
    threads s !! t' = Some (WrWait true)).
Proof.
  intros HR E Hw. pose proof (Inv_steps ts s HR) as HI.
  assert (Hc : forall P, 0 < count P (threads s) -> exists t' p, threads s !! t' = Some p /\ P p = true).
  { intros P HP. unfold count in HP.
    destruct (map_choose (filter (fun x => P x.2 = true) (threads s))) as (t' & p & H).
    { intros H0. rewrite H0, map_size_empty in HP. lia. }
    apply map_lookup_filter_Some in H as [? ?]. eauto. }
  assert (Hin : 0 < readers_ s \/ 0 < writers_ s -> exists t', t' <> t /\
    (threads s !! t' = Some Reading \/ threads s !! t' = Some Writing \/
     threads s !! t' = Some (WrWait true))).
  { destruct HI as [V1 V2 _ _ _ _]. rewrite V1, V2.
    intros [H|H]; destruct (Hc _ H) as (t' & p & E' & Hp); exists t'; (split; [intros ->; by destruct Hw; simplify_eq|]);
      destruct p; try done; auto. }
  destruct Hw as [->| ->].
  - destruct (v_rsleep _ HI t E) as [H|H]; [by apply Hin; right|].
    rewrite (v_waiting _ HI) in H. destruct (Hc _ H) as (t' & p & E' & Hp).
    destruct p as [| | |[]|]; try done.
    + exists t'. split; [congruence|auto].
    + apply Hin. by eapply (v_wsleep _ HI).
  - apply Hin. by eapply (v_wsleep _ HI).
Qed.

(** A writer, and a reader that waits for it. *)
Definition demo : RW := RdLock 2 (WrLock 1 (RWLock [1; 2]%nat)).
Lemma demo_reachable : rtc step (RWLock [1; 2]%nat) demo.
Proof.
  eapply rtc_l; [by apply (s_WrLock _ 1)|]. eapply rtc_l; [by apply (s_RdLock _ 2)|]. apply rtc_refl.
Qed.
Lemma rwlock_exclusion_witness : (WrUnlock 1 demo).1 = true.
Proof. apply (rwlock_exclusion [1; 2]%nat demo demo_reachable). reflexivity. Defined.
Lemma rwlock_no_lost_wakeup_witness :
  exists t', t' <> 2%nat /\ (threads demo !! t' = Some Reading \/ threads demo !! t' = Some Writing \/
    threads demo !! t' = Some (WrWait true)).
Proof.
  apply (rwlock_no_lost_wakeup [1; 2]%nat demo 2 (RdWait false) demo_reachable);
    [reflexivity|by left].
Defined.
