(* ===== verification/MdsRpcProps.v ===== *)
(** * The metadata server behind RPC

    [MDS::SRV] as an implementation of the [MDS] interface, and the theorems of
    [MdsRpc] at concrete servers. *)
From S2P Require Import Prelude Coding Status FsTypes Gigaplus Lru Tables Mdb.
From S2P Require Import MdsApi MdsRpc MdsSrv MdsSrvInv MdsSrvSpec MdsSrvThms MdsSrvProps.

Section Server.
Context {kv : KV} {xx : XXHash} (o : MDSOptions).

Definition returns {A} (r : Outcome A * SRV) : Run A * SRV := (Done r.1, r.2).

Definition SRV_MDS : MDS SRV :=
  mkMDS (fun q st => returns (Fstat o q st)) (fun q st => returns (Fcreat o q st))
    (fun q st => returns (Mkdir o q st)) (fun q st => returns (Chmod o q st))
    (fun q st => returns (Chown o q st)) (fun q st => returns (Uperm o q st))
    (fun q st => returns (Utime o q st)) (fun q st => returns (Trunc o q st))
    (fun q st => returns (Unlink o q st)) (fun q st => returns (MdsSrv.Lookup o q st))
    (fun q st => returns (Listdir q st)) (fun q st => returns (Readidx o q st))
    (fun _ st => returns (Opensession o st)) (fun _ st => returns (Getinput o st))
    (fun _ st => returns (Getoutput o st)).

Lemma SRV_MDS_call r st :
  mds_call SRV_MDS r st = (Done (handle o r st).1, (handle o r st).2).
Proof. by destruct r. Qed.

(** The requests whose handlers have no [try] block are never redirected. *)
Lemma handle_no_redirect r st idx : may_redirect r = false -> (handle o r st).1 <> Redirected idx.
Proof.
  destruct r; try done; intros _; cbn [handle reply fst].
  - unfold Listdir. by destruct (List_ _ _ _ _).
  - unfold Readidx. destruct (FetchDir o (dir_id b) st) as [[s [ref|]] st']; [|done].
    destruct (dir_objs _ !! _) as [x|]; [|done]. cbn. by destruct (ok _).
Qed.

(** A name hash as [DirIndex::PutHash] makes them, 8 bytes, or an empty one, which
    the handlers refuse.  They check no other length: [Key::SetHash] asserts it. *)
Definition sized_hash (r : Request) : Prop :=
  match request_base r with Some b => zlen (name_hash b) = 0 \/ zlen (name_hash b) = 8 | None => True end.

(** C23. The metadata server behind RPC answers every message, whatever its
    bytes, unless it decodes to a request with a name hash that is neither empty nor
    of 8 bytes: [Call] returns OK, no encoding overruns the reply buffer, no key the
    buffer of the tables, and no exception escapes.  A message that does not decode
    to a request gets an error code in range and changes nothing.  Any other one has
    the effect of its request, once, and its reply says how that ended: error code
    0, the code of the error, or -1 with the index for a redirect; if it did not
    succeed, every directory entry is as it was.  The server's invariant holds again
    after each message, so this is so for any sequence of messages. *)
Theorem rpc_server_robust in_ st :
  SrvInv st -> (forall r, decode_request in_ = Some r -> sized_hash r) ->
  exists m st', Call SRV_MDS in_ st = (inr (kOk, m), st') /\ SrvInv st' /\ -1 <= err m <= kMaxCode /\
    match decode_request in_ with
    | None => st' = st
    | Some r => st' = (handle o r st).2 /\
        (forall b, request_base r = Some b -> zlen (name_key (dir_id b) (name_hash b)) <= 50) /\
        match (handle o r st).1 with
        | Ok _ => err m = 0
        | Error s => err m = err_code s /\ same_nodes (view (db st)) (view (db st'))
        | Redirected idx => err m = -1 /\ contents m = idx /\
            same_nodes (view (db st)) (view (db st'))
        end
    end.
Proof.
  intros HI Hz. destruct (Call_served SRV_MDS in_ st) as (x & -> & Hx).
  destruct (decode_request in_) as [r|] eqn:Er.
  - assert (Hk : forall b, request_base r = Some b -> zlen (name_key (dir_id b) (name_hash b)) <= 50).
    { intros b Hb. specialize (Hz r eq_refl). unfold sized_hash in Hz. rewrite Hb in Hz. apply name_key_size. lia. }
    apply decode_request_wf in Er. pose proof (handle_spec o r st HI Er) as HS.
    destruct (Hx (handle o r st).1) as (m & -> & Hm); [by rewrite SRV_MDS_call| |].
    { intros Hr idx. by apply handle_no_redirect. }
    rewrite SRV_MDS_call. cbn [fst snd].
    destruct (handle o r st) as [out st']. destruct HS as (HI' & _ & _ & HN). cbn [fst snd] in *.
    exists m, st'. split; [done|]. split; [done|]. destruct out as [a|s|idx]; cbn in Hm.
    + unfold kMaxCode. split_and!; [lia|lia|done..].
    + pose proof (err_code_range s). split_and!; [lia|lia|done|done|done|by apply HN].
    + destruct Hm as [E1 E2]. unfold kMaxCode. split_and!; [lia|lia|done|done|done|done|by apply HN].
  - destruct Hx as (m & -> & He). exists m, st. cbn [fst snd]. split; [done|]. split; [done|]. split; [lia|done].
Qed.
End Server.

Module RpcDemo.
Import Demo.
#[local] Existing Instance xx.
#[local] Existing Instance MemKV.

(** Creating a file through a release build of the client. *)
Lemma rpc_transparent_witness :
  exists stat, (mds_call (CLI false (Call (SRV_MDS (opts 16)))) (RFcreat (fcreat 5)) start).1
               = Done (Ok (PFcreat (mkFcreatRet true stat))).
Proof.
  assert (Hw : Request_wf (RFcreat (fcreat 5))) by (vm_compute; done).
  assert (Hf : zlen (put_request (RFcreat (fcreat 5))) <= kBufSize) by (vm_compute; done).
  assert (E : exists s, (mds_call (SRV_MDS (opts 16)) (received (RFcreat (fcreat 5))) start).1
                        = Done (Ok (PFcreat (mkFcreatRet true s))) /\ Stat_wf s).
  { eexists. split; [vm_compute; reflexivity|by vm_compute]. }
  destruct E as (s & E & Hs). exists s.
  destruct (rpc_transparent false (SRV_MDS (opts 16)) (RFcreat (fcreat 5)) start Hw Hf)
    as (a & H1 & H2).
  - rewrite E. exact Hs.
  - rewrite E in H2. rewrite H1, H2. reflexivity.
Defined.

(** Random bytes, and a request to create a file. *)
Lemma rpc_server_robust_witness :
  (exists m st', Call (SRV_MDS (opts 16)) (mkMsg 7 0 [255; 3; 9]) start = (inr (kOk, m), st') /\ SrvInv st' /\
     -1 <= err m <= kMaxCode) /\
  (exists m st', Call (SRV_MDS (opts 16)) (mkMsg (op_code kFcreat) 0 (put_Fcreat (fcreat 5))) start
     = (inr (kOk, m), st') /\ SrvInv st' /\ err m = 0).
Proof.
  assert (Ed : decode_request (mkMsg (op_code kFcreat) 0 (put_Fcreat (fcreat 5))) = Some (RFcreat (fcreat 5)))
    by (vm_compute; reflexivity).
  split.
  - destruct (rpc_server_robust (opts 16) (mkMsg 7 0 [255; 3; 9]) start start_inv)
      as (m & st' & H & HI & He & _); [by intros r [=]|].
    exists m, st'. split; [exact H|]. split; [exact HI|exact He].
  - destruct (rpc_server_robust (opts 16) (mkMsg (op_code kFcreat) 0 (put_Fcreat (fcreat 5))) start start_inv)
      as (m & st' & H & HI & _ & Hr); [rewrite Ed; intros r [= <-]; right; vm_compute; reflexivity|].
    exists m, st'. split; [exact H|]. split; [exact HI|].
    rewrite Ed in Hr. destruct Hr as (_ & _ & Hr).
    assert (Eh : exists s, (handle (opts 16) (RFcreat (fcreat 5)) start).1 = Ok s)
      by (eexists; vm_compute; reflexivity).
    destruct Eh as [s Eh]. rewrite Eh in Hr. exact Hr.
Defined.

(** A message with a longer hash decodes all the same; its key does not fit the
    50 bytes of the lease table's callers. *)
Example wire_hash_overruns :
  let b := mkBase (mkDirId (2 ^ 63) (2 ^ 63) (2 ^ 63)) 0 0 (replicate 21 7) [] in
  decode_request (mkMsg (op_code kLookup) 0 (put_Lookup b)) = Some (RLookup b) /\ zlen (name_key (dir_id b) (name_hash b)) = 51.
Proof. vm_compute. done. Qed.

Lemma rpc_request_fits_witness :
  zlen (put_request (RFcreat (mkFcreat (mkBase root (2 ^ 32 - 1) (2 ^ 64 - 1) (replicate 24 1)
    (replicate 109 65)) (2 ^ 32 - 1) (2 ^ 32 - 1) (2 ^ 32 - 1) (2 ^ 32 - 1)))) <= kBufSize.
Proof. apply rpc_request_fits. by vm_compute. Defined.

Lemma rpc_long_name_witness :
  (mds_call (CLI false (Call (SRV_MDS (opts 16))))
    (RFstat (mkBase root 0 0 [] (replicate 255 65))) start).1 = Crash BufOverflow.
Proof.
  rewrite (rpc_long_name false (Call (SRV_MDS (opts 16))) _
    (mkBase root 0 0 [] (replicate 255 65)) start); [reflexivity|reflexivity|by vm_compute].
Defined.
End RpcDemo.
