(* ===== verification/MdsCliSrv.v ===== *)
(** * The metadata client in front of the metadata server

    [MDS::CLI] calling [MDS::SRV] through the [MDS] interface: a file created by
    its path is found by its path; and runs of the two together. *)
From S2P Require Import Prelude Coding Status FsTypes Gigaplus Lru Tables Mdb XXHashImpl.
From S2P Require Import MdsApi MdsCli MdsCliInv MdsCliProps MdsSrv MdsSrvInv MdsSrvSpec MdsSrvThms.
From S2P Require Import MdsSrvProps MdsRpcProps MdsHonest.

(** ** Where a reply comes from

    [P] holds of the servers' state until the call that succeeds. *)
Section Source.
Context `{XXHash} {St : Type} (o : CLI.MDSCliOptions) (factory : Z -> MDS St) (fuel : nat).
Context (P : St -> Prop).

Lemma redirects_last {A} line (f : Z -> St -> Run A * St) hash idx n : forall tmp remaining w a tmp' w',
  P w -> (forall k w, P w -> P (f k w).2) ->
  CLI.redirects o n line f hash idx tmp remaining w = (CLI.Ret a, tmp', w') ->
  exists k w0, P w0 /\ f k w0 = (Done (Ok a), w').
Proof.
  induction n as [|n IH]; intros tmp remaining w a tmp' w' HP Hf E; cbn [CLI.redirects] in E; [done|].
  do 2 (destruct (negb _); [done|]).
  match type of E with context [f ?k w] => pose proof (Hf k w HP) as HP'; destruct (f k w) as [[[x|s|re]|c] w1] eqn:Ef end;
    [| | |done].
  - injection E as <- <- <-. by eauto.
  - destruct (CLI.IsTryAgain s); [|done]. by eapply (IH tmp remaining w1).
  - destruct (negb _); [done|]. destruct (_ =? 0); [done|]. destruct (negb _); [done|].
    destruct (Update _ re) as [[d [t|]]|]; [|done..].
    by eapply (IH (Some t) (remaining - 1) w1).
Qed.

Lemma send_last {A} line (c : A -> bool) b (f : MDS St -> St -> Run A * St) idx st a st' :
  P (CLI.world st) -> (forall k w, P w -> P (f (factory k) w).2) ->
  CLI.send o factory fuel line c b f idx st = (CLI.Ret a, st') ->
  exists k w0, P w0 /\ f (factory k) w0 = (Done (Ok a), CLI.world st').
Proof.
  intros HP Hf. unfold CLI.send.
  destruct (CLI.redirects _ _ _ _ _ _ _ _ _) as [[r tmp] w] eqn:E. intros Hs.
  destruct r as [x|s|f']; cbn in Hs; [|done..]. destruct (_ && _); [done|].
  assert (x = a) as -> by congruence.
  assert (CLI.world st' = w) as ->.
  { injection Hs as <-. destruct tmp as [t|]; [|done]. by destruct (IndexCache.Insert _ _ _). }
  by eapply (redirects_last _ (fun k => f (factory k))).
Qed.

Lemma FetchIndex_world id z st h st' :
  P (CLI.world st) ->
  (forall k w, P w -> P (call_Readidx (factory k) (CLI.base_options o id DELTAFS_MAX_MICROS [] []) w).2) ->
  CLI.FetchIndex o factory id z st = (CLI.Ret h, st') -> P (CLI.world st').
Proof.
  intros HP Hr. unfold CLI.FetchIndex, CLI.bind, CLI.lookup_index, CLI.call, CLI.assert_.
  destruct (IndexCache.Lookup _ id) as [[h'|] t]; cbn [CLI.ret]; [intros [= <- <-]; done|].
  destruct (0 <=? z); [|done]. cbn [CLI.ret].
  match goal with |- context [call_Readidx (factory ?k) ?b ?w] =>
    pose proof (Hr k w HP) as HP'; destruct (call_Readidx (factory k) b w) as [[[a|s|re]|c] w1] end;
    try done.
  unfold CLI.giga_assert. destruct (Update_assert _ a); [cbn [CLI.ret]|done].
  destruct (Update _ a) as [[d [r|]]|]; try done. destruct (negb _); [done|].
  unfold CLI.insert_index. destruct (IndexCache.Insert _ _ _). by intros [= <- <-].
Qed.

Lemma with_index_last {A} id z (k : Rep -> CLI.M A) st a st' :
  P (CLI.world st) ->
  (forall k w, P w -> P (call_Readidx (factory k) (CLI.base_options o id DELTAFS_MAX_MICROS [] []) w).2) ->
  CLI.with_index o factory id z k st = (CLI.Ret a, st') ->
  exists idx st1 st2, P (CLI.world st1) /\ k idx st1 = (CLI.Ret a, st2) /\ CLI.world st' = CLI.world st2.
Proof.
  intros HP Hr. unfold CLI.with_index, CLI.bind.
  destruct (CLI.FetchIndex o factory id z st) as [[h|s|f] st1] eqn:EF; [|done..].
  apply FetchIndex_world in EF; [|done..]. unfold CLI.index_value.
  destruct (IndexCache.Value _ h) as [idx|]; [|done].
  destruct (k idx st1) as [r st2] eqn:Ek. intros [= -> <-]. by exists idx, st1, st2.
Qed.
End Source.

(** ** Files in the root *)

(** A proper name. *)
Definition simple_name (nm : bytes) : Prop :=
  nm <> [] /\ CLI.slash ∉ nm /\ 0 ∉ nm /\ nm <> CLI.dot /\ nm <> CLI.dotdot /\ zlen nm <= DELTAFS_NAME_MAX.

Section Root.
Context {kv : KV} {xx : XXHash} (so : MDSOptions) (co : CLI.MDSCliOptions) (fuel : nat).

Abbreviation cluster := (fun _ : Z => SRV_MDS so).

Definition root_info (nm : bytes) : CLI.PathInfo :=
  CLI.mkPathInfo (mkDirId 0 0 0) (PutHash nm) nm DELTAFS_MAX_MICROS 0 1 CLI.root_mode 0 0.

Lemma strchr_no c s : c ∉ s -> CLI.strchr s c = None.
Proof.
  induction s as [|b s IH]; intros Hc; [done|]. apply not_elem_of_cons in Hc as [Hb Hc]. cbn.
  rewrite (proj2 (Z.eqb_neq _ _)) by congruence. destruct (b =? 0); [done|]. by rewrite IH.
Qed.

Lemma resolve_root nm st :
  simple_name nm -> CLI.resolve co cluster fuel (CLI.slash :: nm) None st = (CLI.Ret (root_info nm), st).
Proof.
  intros (H1 & H2 & H3 & H4 & H5 & _). unfold CLI.resolve, CLI.ResolvePath. cbn [negb].
  rewrite Z.eqb_refl. cbn [negb].
  assert (CLI.ends_with_slash nm = false) as ->.
  { apply bool_decide_eq_false. intros [l ->]%last_Some. apply H2, elem_of_app. right. by left. }
  set (w := CLI.mkWalk nm _ _ _ _).
  assert (E : CLI.resolve_loop co cluster fuel (length nm) (CLI.slash :: nm) w st = (CLI.Ret w, None, st)).
  { destruct nm; [done|]. cbn [length CLI.resolve_loop CLI.w_input w]. by rewrite strchr_no. }
  rewrite E. subst w. unfold CLI.resolve_last. cbn [CLI.w_input CLI.w_result CLI.w_depth].
  rewrite decide_False by done.
  assert (CLI.IsLookupOk co (CLI.start_info None) = true) as ->.
  { unfold CLI.IsLookupOk, CLI.permitted. by repeat case_match. }
  cbn [negb]. by rewrite !decide_False by done.
Qed.

Lemma root_id_wf : DirId_wf (mkDirId 0 0 0).
Proof. by vm_compute. Qed.

(** [Readidx] keeps the invariant and every entry. *)
Lemma readidx_keeps b w :
  DirId_wf (dir_id b) -> SrvInv w ->
  SrvInv (call_Readidx (SRV_MDS so) b w).2 /\
  same_nodes (view (db w)) (view (db (call_Readidx (SRV_MDS so) b w).2)).
Proof.
  intros Hw HI. cbn. pose proof (Readidx_spec so b w HI Hw) as HS.
  destruct (Readidx so b w) as [out w']. destruct HS as (HI' & L & _). split; [done|].
  by apply loads_nodes in L.
Qed.

(** The file [nm] of the root is stored with the attributes [stat]. *)
Definition stored_at (nm : bytes) (stat : Stat) (w : SRV) : Prop :=
  SrvInv w /\ exists n, stored (mkBase (mkDirId 0 0 0) 0 0 (PutHash nm) []) (view (db w)) = Some (stat, n).

Lemma stored_at_keep nm stat w w' :
  stored_at nm stat w -> SrvInv w' -> same_nodes (view (db w)) (view (db w')) -> stored_at nm stat w'.
Proof.
  intros (_ & n & Hs) HI HN. split; [done|]. exists n.
  rewrite <- Hs. apply stored_same; [exact root_id_wf|done].
Qed.

Definition root_entry (nm : bytes) (stat : Stat) : Fentry :=
  mkFentry stat (PutHash nm) (mkDirId 0 0 0) 0.

Lemma client_Fcreat_root nm mode e excl c st ent st1 :
  SrvInv (CLI.world st) -> simple_name nm -> is_u32 mode ->
  is_u64 (reg_id so) -> is_u64 (snap_id so) ->
  CLI.Fcreat co cluster fuel (CLI.slash :: nm) mode (Some e) excl (Some c) None st
  = (CLI.Ret (Some true, Some ent), st1) ->
  exists stat, ent = root_entry nm stat /\ stored_at nm stat (CLI.world st1).
Proof.
  intros HI Hn Hm H1 H2. unfold CLI.Fcreat, CLI.bind. cbn [CLI.bad_at].
  rewrite resolve_root by done. cbn [root_info CLI.p_depth CLI.p_mode CLI.p_name Z.eqb].
  destruct (negb (CLI.IsWriteDirOk co _)); [done|].
  change (DELTAFS_DIR_IS_PLFS_STYLE CLI.root_mode) with false.
  rewrite (proj2 (Z.ltb_ge DELTAFS_NAME_MAX (zlen nm))) by (by apply Hn). cbv iota.
  set (q := mkFcreat _ _ _ _ _).
  destruct (CLI.with_index _ _ _ _ _ st) as [[ret|s|f] st2] eqn:EW; [|done..].
  apply (with_index_last co cluster SrvInv) in EW as (idx & sa & sb & HIa & EF & Ew);
    [|done|intros k w Hw; by apply readidx_keeps].
  apply (send_last co cluster fuel SrvInv _ _ _ (fun m => call_Fcreat m q)) in EF as (k & w0 & HI0 & EF);
    [|done|].
  2:{ intros k w Hw. pose proof (handle_spec so (RFcreat q) w Hw root_id_wf) as HS. cbn in HS |- *.
      destruct (Fcreat so q w). apply HS. }
  cbn in EF. unfold returns in EF. destruct (Fcreat so q w0) as [out w1] eqn:EC. injection EF as -> Ew1.
  destruct ret as [cr stat]. intros [= -> <- <-]. exists stat. split; [done|].
  assert (Hlen : is_u32 (zlen nm)).
  { pose proof (zlen_nonneg nm). destruct Hn as (_ & _ & _ & _ & _ & Hn). unfold DELTAFS_NAME_MAX in Hn.
    unfold in_width. lia. }
  destruct (Fcreat_stored so q w0 stat w1 HI0 root_id_wf Hlen H1 H2 Hm (u32_range _) (u32_range _) EC)
    as [HI1 Est].
  rewrite Ew, <- Ew1. split; [done|]. by exists nm.
Qed.

Lemma client_Fstat_root nm e stat st ent st1 :
  stored_at nm stat (CLI.world st) -> simple_name nm ->
  CLI.Fstat co cluster fuel (CLI.slash :: nm) (Some e) None st = (CLI.Ret (Some ent), st1) ->
  ent = root_entry nm stat.
Proof.
  intros HP Hn. unfold CLI.Fstat, CLI.bind. cbn [CLI.bad_at CLI.at_root].
  rewrite resolve_root by done. cbn [root_info CLI.p_depth CLI.p_mode Z.eqb].
  change (DELTAFS_DIR_IS_PLFS_STYLE CLI.root_mode) with false. cbv iota.
  cbv beta. set (b := CLI.path_base co _ _).
  destruct (CLI.with_index _ _ _ _ _ st) as [[s'|s|f] st2] eqn:EW; [|done..].
  intros [= <- <-]. unfold root_entry. f_equal.
  apply (with_index_last co cluster (stored_at nm stat)) in EW as (idx & sa & sb & HPa & EF & _); [|done|].
  2:{ intros k w Hw. pose proof (readidx_keeps
        (CLI.base_options co (mkDirId 0 0 0) DELTAFS_MAX_MICROS [] []) w root_id_wf (proj1 Hw)) as [? ?].
      by eapply stored_at_keep. }
  assert (Hst : forall w, stored_at nm stat w -> let (out, w') := Fstat so b w in
    stored_at nm stat w' /\ forall x, out = Ok x -> x = stat).
  { intros w Hw. pose proof (Fstat_stored so b w (proj1 Hw) root_id_wf) as HS.
    destruct (Fstat so b w) as [out w']. destruct HS as (HI' & HN & HS).
    split; [by eapply stored_at_keep|]. intros x Hx. destruct (HS x Hx) as [n E].
    destruct Hw as (_ & n' & Hw). unfold stored, entry in *. cbn in *. congruence. }
  apply (send_last co cluster fuel (stored_at nm stat) _ _ _ (fun m => call_Fstat m b)) in EF
    as (k & w & HPw & EF); [|done|].
  2:{ intros k w Hw. specialize (Hst w Hw). cbn. destruct (Fstat so b w). apply Hst. }
  specialize (Hst w HPw). cbn in EF. unfold returns in EF. destruct (Fstat so b w) as [out w'].
  injection EF as -> _. by apply Hst.
Qed.

(** C15. Client and server together: a file in the root that the client created
    by its path is found by its path; a [Fstat] that succeeds returns the very
    entry the creation returned, whatever the client's caches and the store do
    in between. *)
Theorem client_create_then_stat nm mode e e' excl c st :
  SrvInv (CLI.world st) -> simple_name nm -> is_u32 mode ->
  is_u64 (reg_id so) -> is_u64 (snap_id so) ->
  let p := CLI.slash :: nm in
  let (r, st1) := CLI.Fcreat co cluster fuel p mode (Some e) excl (Some c) None st in
  let (r', st2) := CLI.Fstat co cluster fuel p (Some e') None st1 in
  forall ent ent', r = CLI.Ret (Some true, Some ent) -> r' = CLI.Ret (Some ent') -> ent' = ent.
Proof.
  intros HI Hn Hm H1 H2 p. subst p.
  destruct (CLI.Fcreat _ _ _ _ _ _ _ _ _ st) as [r st1] eqn:EC.
  destruct (CLI.Fstat _ _ _ _ _ _ st1) as [r' st2] eqn:ES. intros ent ent' -> ->.
  apply client_Fcreat_root in EC as (stat & -> & Hs); [|done..].
  by apply (client_Fstat_root nm e' stat st1 ent' st2) in ES.
Qed.

End Root.

(** ** Runs *)

Module CliDemo.
#[local] Existing Instance pdlfs_xxhash.
#[local] Existing Instance MemKV.

Definition sopts (vs : Z) : MDSOptions :=
  mkMDSOptions (mkMDSEnv [] [] [] [] [] []) 16 16 1000000 0 0 true vs 1 0.
Definition copts (vs : Z) : CLI.MDSCliOptions := CLI.mkOptions 16 16 true false 20 vs 1 0 0 0.
Definition server (vs : Z) : SRV := SRV_new (sopts vs) (mkMemDB ∅ []) 1000 [].
Definition cluster (vs : Z) : Z -> MDS SRV := fun _ => SRV_MDS (sopts vs).

(** A new client whose clock advances by the given steps. *)
Definition client (vs : Z) (ts : list Z) : CLI.CLI := CLI.CLI_new (copts vs) 1000 ts (server vs).

(** The results of a sequence of operations, and the last state. *)
Fixpoint script (vs : Z) (ops : list Op) (st : CLI.CLI) : list (CLI.Res ()) * CLI.CLI :=
  match ops with
  | [] => ([], st)
  | op :: ops =>
      let (r, st) := perform (copts vs) (cluster vs) 20 3 op st in
      let (l, st) := script vs ops st in (r :: l, st)
  end.

Definition no_ent : Fentry := mkFentry (mkStat 0 0 0 0 0 0 0 0 0 0) [] (mkDirId 0 0 0) 0.
Definition dir_a : bytes := [47; 97].
Definition mkdir (p : bytes) : Op := OMkdir p 511 None false true.
Definition stat (p : bytes) : Op := OFstat p (Some no_ent) None.

(** The client reaches a directory it made. *)
Lemma run_mkdir_stat :
  (script 1 [mkdir dir_a; stat dir_a; stat (dir_a ++ [47; 120])] (client 1 [])).1
  = [CLI.Ret tt; CLI.Ret tt; CLI.Fail kNotFound].
Proof. by vm_compute. Qed.

(** [/a/.] is a name without a hash, which the server refuses. *)
Lemma trailing_dot_fails :
  (script 1 [mkdir dir_a; stat (dir_a ++ [47; 46])] (client 1 [])).1
  = [CLI.Ret tt; CLI.Fail kInvalidArgument].
Proof. by vm_compute. Qed.

(** The client takes server 0 for the zeroth server of the root, the server
    hashes the root's id: with 8 virtual servers they disagree and the root
    cannot be used. *)
Lemma root_unreachable : (script 8 [mkdir dir_a] (client 8 [])).1 = [CLI.Fail kCorruption].
Proof. by vm_compute. Qed.

(** The zeroth server of a new directory can be negative: with 4 virtual
    servers that of the first directory is, and looking below it fails the
    client's assertion. *)
Lemma negative_zeroth_server :
  (script 4 [mkdir dir_a; stat (dir_a ++ [47; 120])] (client 4 [])).1
  = [CLI.Ret tt; CLI.Abort (CLI.Assertion 41)].
Proof. by vm_compute. Qed.

(** With 7 virtual servers, a number that is not a power of two, the index of a
    new directory has more room than servers: the name [n] hashes beyond it, and
    looking it up fails the assertion of [HashToIndex]. *)
Lemma giga_assertion_fails :
  (script 7 [stat [47; 110]] (client 7 [])).1 = [CLI.Abort CLI.GigaAssertion].
Proof. by vm_compute. Qed.

(** Each lookup of an expired state leaves one more entry of the cache in use
    after the operation. *)
Lemma expired_lookups_leak :
  let st := (script 1 (mkdir dir_a :: replicate 4 (stat (dir_a ++ [47; 120])))
    (client 1 [0; 2000000; 2000000; 2000000])).2 in
  length (in_use (CLI.lookup_cache_ st)) = 3%nat /\ total_usage (CLI.lookup_cache_ st) = 4.
Proof. by vm_compute. Qed.

(** ** The properties at these clients *)



Lemma client_terminates_witness :
  (perform PathDemo.opts (fun _ => PathDemo.server) 20 0 (stat PathDemo.path_x) PathDemo.client).1
  <> CLI.Abort CLI.OutOfFuel.
Proof.
  apply client_terminates; [done|done|done|apply reach_new|reflexivity|reflexivity|done|].
  intros k r w. destruct r; try done. unfold mds_call, answer.
  change (call_Lookup PathDemo.server b w) with
    (Done (match PathDemo.find_entry PathDemo.entries (dir_id b) (name_hash b) with
           | Some s => Ok s | None => Error kNotFound end), w).
  by destruct (PathDemo.find_entry PathDemo.entries (dir_id b) (name_hash b)).
Defined.

Definition after_mkdir : CLI.CLI := (perform (copts 1) (cluster 1) 20 3 (mkdir dir_a) (client 1 [])).2.
Definition looked : CLI.Res nat * CLI.CLI :=
  CLI.Lookup (copts 1) (cluster 1) 20 (mkDirId 0 0 0) [97] 0 0 after_mkdir.

Lemma looked_runs : looked.1 = CLI.Ret 0%nat.
Proof. by vm_compute. Qed.

Lemma lookup_respects_leases_witness :
  looked.1 = CLI.Ret 0%nat /\
  looked_up (copts 1) (cluster 1) (mkDirId 0 0 0) [97] 0 after_mkdir looked.2 0.
Proof.
  split; [exact looked_runs|].
  pose proof (lookup_respects_leases (copts 1) (cluster 1) 20 ltac:(done) ltac:(done) ltac:(done)
    (mkDirId 0 0 0) [97] 0 0 after_mkdir
    (reach_op _ _ _ (client 1 []) 3 (mkdir dir_a) (reach_new _ _ _ _ _ _) eq_refl)) as Hl.
  fold looked in Hl. pose proof looked_runs as E. destruct looked as [r st']. exact (Hl 0%nat E).
Defined.

(** Two partitions on two servers. *)
Lemma listing_complete_witness :
  exists servers, NoDup servers /\ 1 ∈ servers.
Proof.
  destruct (listing_complete (CLI.mkOptions 16 16 true false 20 2 2 0 0 0) (cluster 1) ltac:(done)
    (TurnOnBit (NewRep 0) 1) (mkBase (mkDirId 0 0 0) 0 0 [] []) [] (client 1 []) ltac:(done))
    as (servers & H1 & H2 & _).
  exists servers. split; [exact H1|]. apply H2. exists 1. by vm_compute.
Defined.

Lemma simple_a : simple_name [97].
Proof.
  split_and!; [done|apply (bool_decide_eq_true_1 (_ ∉ _)); by vm_compute..|done|done|by vm_compute].
Qed.

Lemma client_create_then_stat_witness :
  exists ent,
    let (r, st1) := CLI.Fcreat (copts 1) (cluster 1) 20 dir_a 420 (Some no_ent) true (Some false) None (client 1 []) in
    r = CLI.Ret (Some true, Some ent) /\
    (CLI.Fstat (copts 1) (cluster 1) 20 dir_a (Some no_ent) None st1).1 = CLI.Ret (Some ent).
Proof.
  assert (E : exists ent ent',
    let (r, st1) := CLI.Fcreat (copts 1) (cluster 1) 20 dir_a 420 (Some no_ent) true (Some false) None (client 1 []) in
    r = CLI.Ret (Some true, Some ent) /\
    (CLI.Fstat (copts 1) (cluster 1) 20 dir_a (Some no_ent) None st1).1 = CLI.Ret (Some ent')).
  { do 2 eexists. vm_compute. split; reflexivity. }
  pose proof (client_create_then_stat (sopts 1) (copts 1) 20 [97] 420 no_ent no_ent true false (client 1 [])
    ltac:(apply SRV_new_inv; done)) as Hs.
  destruct E as (ent & ent' & E). exists ent. unfold dir_a, cluster in *. change [47; 97] with (CLI.slash :: [97]) in *.
  destruct (CLI.Fcreat _ _ _ _ _ _ _ _ _ _) as [r st1]. destruct E as [-> E]. split; [reflexivity|].
  destruct (CLI.Fstat _ _ _ _ _ _ _) as [r' st2]. cbn [fst] in *. subst r'.
  rewrite (Hs simple_a ltac:(by vm_compute) ltac:(by vm_compute) ltac:(by vm_compute) ent ent');
    reflexivity.
Defined.
End CliDemo.
